(* ===== verification/_CoqProject ===== *)
-Q . S2P
Prelude.v
Crc32.v
Binary.v
Tlv.v
WireCore.v
RaftMessages.v
GossipMessages.v
TaskMessages.v
Wire.v
CString.v
RaftLog.v
RaftPersistence.v
RaftCore.v
RaftInvariant.v
RaftExamples.v
RaftReplication.v
RaftConvergence.v
RaftDurability.v
SendQueue.v
TransportConfig.v
CircuitBreaker.v
TcpConnection.v
WorkQueue.v
TcpServer.v
Udp.v
GossipMembership.v
GossipSpec.v
GossipLifecycle.v
GossipWire.v
GossipProtocol.v
StructTable.v
ConfigManager.v
WorkerPool.v
ClusterCoordinator.v
TcpPool.v
TcpPoolSpec.v
HandlerTable.v
RpcErrors.v
RpcServer.v
RpcClient.v
Fips180.v
Sha256.v
Auth.v
Capability.v
RaftRpc.v
RaftElection.v
RaftBroadcast.v
RaftRpcLifecycle.v
MetricLabels.v
Doubles.v
Metrics.v
MetricsExport.v
LogFormat.v
LogRing.v
Logger.v
Health.v
HttpServer.v
TraceSampling.v
Tracing.v
