(* ===== verification/Prelude.v ===== *)
(** * DistriC: a verified model of the distributed runtime

    DistriC is a C runtime for a cluster of nodes: a binary protocol, a Raft
    consensus core with its files, a gossip failure detector, a transport layer and
    the services on top of them.  This library translates its code into Rocq
    function by function, under the names of the C functions, and states what each
    part guarantees.

    ** The parts and their files

    Foundations: [Prelude.v] (this file: error codes, results, integers of fixed
    width, byte orders, memory objects, loops, sums over lists), [CString.v] (the
    string functions of the C library), [Crc32.v] (libs/distric_protocol/src/crc32.c
    and the checksum of raft_persistence.c).

    The wire protocol, libs/distric_protocol: [Binary.v] is binary.c, the 32-byte
    header with its checksum; [Tlv.v] is tlv.c, the encoder, the decoder with its
    limits and the indexed lookup; [WireCore.v] is the interface every message
    implements ([WireMessage] with its laws), [RaftMessages.v], [GossipMessages.v]
    and [TaskMessages.v] are the serialisers of messages.c, [Wire.v] states the
    round trip and the safety of all of them.

    Raft, libs/distric_raft: [RaftLog.v] is the log of raft_core.c and the interface
    of the persistence layer; [RaftPersistence.v] is raft_persistence.c over a model
    of the file system calls, and implements that interface; [RaftCore.v] is the
    rest of raft_core.c, [RaftInvariant.v] its well-formedness and its votes,
    [RaftExamples.v] concrete nodes, [RaftReplication.v] the merge of logs, commits
    and applications, [RaftConvergence.v] batches and the convergence of a follower,
    [RaftDurability.v] crashes and recovery.

    Transport, libs/distric_transport: [SendQueue.v] is send_queue.c, a ring buffer
    that refines a bounded FIFO; [TransportConfig.v] is transport_config.c and
    transport_error.c, with the memory budget turn by turn; [CircuitBreaker.v] is
    circuit_breaker.c; [TcpConnection.v], [WorkQueue.v] and [TcpServer.v] are tcp.c,
    the server as interleaving threads; [Udp.v] is udp.c.  [TcpPool.v] is tcp_pool.c, the
    pool of connections over linked chains in a heap, and [TcpPoolSpec.v] its refinement
    of a pool without pointers.

    Gossip, libs/distric_gossip: [GossipMembership.v] is gossip_membership.c and
    gossip_conflict_resolution.c, [GossipSpec.v] states what the membership list
    guarantees, [GossipLifecycle.v] is gossip_lifecycle.c, [GossipWire.v] the
    datagrams and [GossipProtocol.v] the two threads of gossip_core.c.

    Cluster services, libs/distric_cluster: [StructTable.v] has the arrays of structs
    that are searched by a string, and their relation to maps; [ConfigManager.v] is
    config_manager.c, the configuration that Raft replicates, with its composition with
    a Raft node; [WorkerPool.v] is worker_pool.c, the workers that gossip announces, the
    selection strategies and the task counts; [ClusterCoordinator.v] is
    cluster_coordinator.c.

    RPC, libs/distric_protocol/src/rpc.c: [HandlerTable.v] is the table of handlers,
    [RpcErrors.v] the error codes and classes, [RpcServer.v] the threads of the
    connections over the model of the transport and of the header, [RpcClient.v] a call
    and its retries.

    Protocol services, libs/distric_protocol: [Sha256.v] is the hash and the HMAC of
    auth.c, against the standard in [Fips180.v]; [Auth.v] the rest of auth.c with the error information of error_info.c and
    error.c, [Capability.v] is capability.c.

    The RPC layer of Raft, libs/distric_raft/src/raft_rpc.c: [RaftRpc.v] has the
    handlers and the calls over the wire, [RaftElection.v] the broadcast of RequestVote
    and the safety of elections in a cluster, [RaftBroadcast.v] the broadcast of
    AppendEntries, thread turn by thread turn, and replication over a network (one that
    works, in place of rpc.c, whose calls never succeed: [RaftRpc.raft_calls_never_succeed]),
    [RaftRpcLifecycle.v] the creation and destruction of the context.

    Observability, libs/distric_obs: [MetricLabels.v], [Metrics.v] and [MetricsExport.v]
    are metrics.c, the indices of label sets, the registry with its atomic updates, and
    the export with its buffer; [Doubles.v] has the doubles they use.  [LogFormat.v],
    [LogRing.v] and [Logger.v] are logging.c, the JSON formatter, the ring between the
    calls and the flush thread, and the logger around them.  [Health.v] is
    health.c; [HttpServer.v] is http_server.c, which serves the exports of the other two
    over the connections it accepts.  [TraceSampling.v] and [Tracing.v] are tracing.c, the
    sampling policy with the ids and the context header, and the ring of spans with its
    exporter.

    ** Conventions

    An unsigned integer of w bits is a [Z] with its wrap-around written out ([u8],
    [u16], [u32], [u64]); a signed overflow, a division by zero, an access outside
    of an object and a null dereference are [Fault]; a size or an index that cannot
    wrap is a [nat].  Bytes are a list of [Z]; a C string is the list of its
    non-zero bytes, and where its terminator matters it is the list of the bytes up
    to the end of the object that holds it.  A pointer to an element of an array or a
    list is a position; a pointer that can be null is an [option].  A function that
    returns [distric_err_t] is [Ok] with its outputs or [Err] with its code.  Handles
    and output pointers are not null unless the model says so, and allocations
    succeed unless their failure is an argument.  The machine is little-endian.

    Time, random numbers, the kernel and the callbacks are arguments; what a
    callback is told is recorded in the state.  Code that runs under one lock is one
    step; where the order of steps matters the threads are explicit: the memory
    budget ([TransportConfig.mem_step]), the TCP server ([TcpServer.sv_step]), the
    circuit breaker's two-phase question, the connections of the RPC server
    ([RpcServer.rpc_step]), a Raft node ([RaftInvariant.raft_step]), the observations of
    a histogram ([Metrics.observe_step]), the ring of the logger ([LogRing.ring_step]),
    the start of a span ([Tracing.span_turn]).
    The calls of the other parts into logging and metrics are left out.

    ** What the theorems show

    - round trips: messages, headers, TLV fields, datagrams;
    - refinement: the send queue, the circuit breaker, the rate limiter, the
      connection pool, the table of RPC handlers, the configuration, the persistence
      layer (all its operations on the state, the log and the snapshot, on a disk that
      does not fail) and the indexed lookup against a reference; SHA-256 against the
      standard;
    - invariants and safety of Raft: well-formedness, terms, votes, log matching,
      commits, recovery after a crash; and the cases the code gets wrong (a snapshot of a
      log with entries shifts it, a candidate can vote twice, no call over rpc.c succeeds);
    - convergence: of a follower's log, of the membership lists;
    - concurrency: the memory budget, the accounting of the TCP server, the admission
      and the drain of the RPC server;
    - termination: of the loops whose end is not evident, of [tcp_server_stop], of a log
      call, of the flush thread and of the start of a span;
    - observability: the counts and the export of metrics, the log from the call to the
      file, the spans from their start to the callback, the sampling rate, the answers of
      the HTTP server;
    - error paths and bounds: failing system calls, torn messages, overflows.

    A theorem about a part of the runs says which: the decoder's default limits for the
    round trips of messages, a zero byte behind a buffer that is decoded, no over-claim and
    no skipped slot for the ring of the logger, no late update for the spans, the terms and
    identifiers that the state file can hold.  Where the code misbehaves outside of that
    part a theorem shows it, and the comment of the first one names it.

    ** Fuel

    Most loops are structural.  The others take fuel that is proved to be enough:
    [RaftPersistence.load_fuel] (a record takes at least eight bytes of the file),
    [GossipMembership.suspicion_fuel] (every restart fails one more node), the wait
    for an acknowledgement (the clock advances), [flush_send_queue_locked] (every
    turn takes a byte from the queue), the doubling of the table size (32 turns), the
    probes of the hash tables (their number of slots), the doubling of the export buffer
    (64 turns), the size of the log ring ([LogRing.ring_capacity_power]: 63 turns, and
    never when the configured size is too large), the turns of a log call
    ([LogRing.ring_write_returns]: 70) and of the start of a span
    ([Tracing.start_span_returns]: 73), the slots a cycle of the exporter looks at (those
    between tail and head).

    ** Not modelled

    Of the parts named above: the options and the timeouts of sockets, the text printed by
    assertions, the thread-local active span of tracing.c, and the interleavings inside a
    call that is one step (a cycle of the exporter of spans is one, a start of a span is
    not).  The calls of the other parts into logging, metrics and tracing act on nothing
    the parts read, and are left out.  Beside these parts the repository has tests,
    examples and scripts, and headers that only declare what the sources define.
*)

From Stdlib Require Import ZArith Lia List.
From stdpp Require Export base list numbers option.

Local Open Scope Z_scope.

(** ** Error codes *)

(** [distric_err_t]: every function of the code base that can fail returns one
    of these codes. *)
Inductive distric_err :=
  | DISTRIC_OK
  | DISTRIC_ERR_INVALID_ARG
  | DISTRIC_ERR_ALLOC_FAILURE
  | DISTRIC_ERR_INIT_FAILED
  | DISTRIC_ERR_REGISTRY_FULL
  | DISTRIC_ERR_NOT_FOUND
  | DISTRIC_ERR_BUFFER_OVERFLOW
  | DISTRIC_ERR_BACKPRESSURE
  | DISTRIC_ERR_INVALID_LABEL
  | DISTRIC_ERR_HIGH_CARDINALITY
  | DISTRIC_ERR_REGISTRY_FROZEN
  | DISTRIC_ERR_NO_MEMORY
  | DISTRIC_ERR_ALREADY_EXISTS
  | DISTRIC_ERR_SHUTDOWN
  | DISTRIC_ERR_IO
  | DISTRIC_ERR_INVALID_STATE
  | DISTRIC_ERR_THREAD
  | DISTRIC_ERR_TIMEOUT
  | DISTRIC_ERR_EOF
  | DISTRIC_ERR_INVALID_FORMAT
  | DISTRIC_ERR_TYPE_MISMATCH
  | DISTRIC_ERR_UNAVAILABLE.

#[export] Instance distric_err_eq_dec : EqDecision distric_err.
Proof. solve_decision. Defined.

(** ** Results

    [Ok a] is a return with [DISTRIC_OK] and the outputs [a], [Err e] a return
    with the error code [e], and [Fault] an undefined behaviour of the C code:
    a read or a write outside of the object a pointer points into. *)
Inductive result (A : Type) :=
  | Ok (a : A)
  | Err (e : distric_err)
  | Fault.
Arguments Ok {A} _.
Arguments Err {A} _.
Arguments Fault {A}.

#[export] Instance result_ret : MRet result := @Ok.
#[export] Instance result_bind : MBind result := λ A B f m,
  match m with
  | Ok a => f a
  | Err e => Err e
  | Fault => Fault
  end.

Lemma bind_ok {A B} (f : A → result B) (m : result A) b :
  m ≫= f = Ok b ↔ ∃ a, m = Ok a ∧ f a = Ok b.
Proof.
  split.
  - destruct m as [a|e|]; simpl; [eauto|discriminate..].
  - intros (a & -> & ?); assumption.
Qed.

Definition is_fault {A} (m : result A) : bool :=
  match m with Fault => true | _ => false end.

(** ** Fixed-width integers

    An unsigned [w]-bit integer is a [Z] in [0, 2^w); arithmetic on it wraps. *)
Definition u8 (z : Z) : Z := z mod 2 ^ 8.
Definition u16 (z : Z) : Z := z mod 2 ^ 16.
Definition u32 (z : Z) : Z := z mod 2 ^ 32.
Definition u64 (z : Z) : Z := z mod 2 ^ 64.

Definition UINT32_MAX : Z := 2 ^ 32 - 1.

(** Conversion of an unsigned value to [int32_t] / [int64_t] (two's complement). *)
Definition s32 (z : Z) : Z := if u32 z <? 2 ^ 31 then u32 z else u32 z - 2 ^ 32.
Definition s64 (z : Z) : Z := if u64 z <? 2 ^ 63 then u64 z else u64 z - 2 ^ 64.

Definition is_u8 (z : Z) : Prop := 0 ≤ z < 2 ^ 8.
Definition is_u16 (z : Z) : Prop := 0 ≤ z < 2 ^ 16.
Definition is_u32 (z : Z) : Prop := 0 ≤ z < 2 ^ 32.
Definition is_u64 (z : Z) : Prop := 0 ≤ z < 2 ^ 64.
Definition is_s32 (z : Z) : Prop := - 2 ^ 31 ≤ z < 2 ^ 31.

Create HintDb distric.
#[export] Hint Unfold is_u8 is_u16 is_u32 is_u64 is_s32 : distric.

(** [ulia]: linear arithmetic with the widths unfolded. *)
Ltac ulia :=
  unfold is_u8, is_u16, is_u32, is_u64, is_s32, u8, u16, u32, u64, UINT32_MAX in *;
  change (2 ^ 8) with 256 in *;
  change (2 ^ 16) with 65536 in *;
  change (2 ^ 31) with 2147483648 in *;
  change (2 ^ 32) with 4294967296 in *;
  change (2 ^ 63) with 9223372036854775808 in *;
  change (2 ^ 64) with 18446744073709551616 in *;
  first [lia | Z.to_euclidean_division_equations; lia].

(** A [Forall] of facts that compute. *)
Ltac forall_done := repeat first [apply Forall_nil_2 | apply Forall_cons_2]; done.

Lemma u32_id z : is_u32 z → u32 z = z.
Proof. intros. apply Z.mod_small. ulia. Qed.
Lemma u64_id z : is_u64 z → u64 z = z.
Proof. intros. apply Z.mod_small. ulia. Qed.
Lemma u16_id z : is_u16 z → u16 z = z.
Proof. intros. apply Z.mod_small. ulia. Qed.
Lemma u8_id z : is_u8 z → u8 z = z.
Proof. intros. apply Z.mod_small. ulia. Qed.
Lemma u32_range z : is_u32 (u32 z).
Proof. apply Z.mod_pos_bound. lia. Qed.
Lemma u64_range z : is_u64 (u64 z).
Proof. apply Z.mod_pos_bound. lia. Qed.
Lemma u16_range z : is_u16 (u16 z).
Proof. apply Z.mod_pos_bound. lia. Qed.
Lemma u8_range z : is_u8 (u8 z).
Proof. apply Z.mod_pos_bound. lia. Qed.

#[export] Hint Resolve u8_range u16_range u32_range u64_range : distric.
Create Rewrite HintDb distric_rw.
#[export] Hint Rewrite u8_id u16_id u32_id u64_id using (auto with distric; ulia) : distric_rw.

Lemma s32_u32 z : is_s32 z → s32 (u32 z) = z.
Proof.
  intros Hz. unfold s32. rewrite (u32_id (u32 z)) by apply u32_range.
  destruct (Z.ltb_spec (u32 z) (2 ^ 31)); destruct (Z.leb_spec 0 z).
  - apply Z.mod_small; ulia.
  - assert (u32 z = z + 2 ^ 32); [|ulia].
    symmetry; apply Z.mod_unique with (-1); ulia.
  - assert (u32 z = z) by (apply Z.mod_small; ulia). ulia.
  - assert (u32 z = z + 2 ^ 32); [|ulia].
    symmetry; apply Z.mod_unique with (-1); ulia.
Qed.

(** [(a << n) | b] for an [n]-bit [b]. *)
Lemma lor_shiftl_add a b n :
  0 ≤ n → 0 ≤ b < 2 ^ n → Z.lor (Z.shiftl a n) b = a * 2 ^ n + b.
Proof.
  intros Hn Hb. assert (Hl : Z.land (Z.shiftl a n) b = 0).
  { apply Z.bits_inj'. intros i Hi. rewrite Z.land_spec, Z.bits_0.
    destruct (Z.ltb_spec i n); [by rewrite Z.shiftl_spec_low by lia|].
    destruct (decide (b = 0)) as [->|]; [by rewrite Z.bits_0, andb_false_r|].
    rewrite (Z.bits_above_log2 b); [apply andb_false_r|lia|].
    apply Z.log2_lt_pow2; [lia|]. apply Z.lt_le_trans with (2 ^ n); [lia|].
    apply Z.pow_le_mono_r; lia. }
  rewrite <- Z.lxor_lor, <- Z.add_nocarry_lxor by done. by rewrite Z.shiftl_mul_pow2.
Qed.

(** ** Bytes and byte order *)

Definition bytes_ok (l : list Z) : Prop := Forall is_u8 l.

(** Big-endian bytes of the low [8 * n] bits: [hton*] followed by [memcpy]. *)
Fixpoint be_bytes (n : nat) (v : Z) : list Z :=
  match n with
  | O => []
  | S k => (v / 256 ^ Z.of_nat k) mod 256 :: be_bytes k v
  end.

(** Value of big-endian bytes: [memcpy] followed by [ntoh*]. *)
Definition be_val (l : list Z) : Z := fold_left (λ a b, a * 256 + b) l 0.

(** Little-endian bytes and values: an integer stored through a pointer by a
    little-endian host. *)
Fixpoint le_bytes (n : nat) (v : Z) : list Z :=
  match n with
  | O => []
  | S k => v mod 256 :: le_bytes k (v / 256)
  end.

Fixpoint le_val (l : list Z) : Z :=
  match l with
  | [] => 0
  | b :: l => b + 256 * le_val l
  end.

(** Proves [bytes_ok] of an explicit list. *)
Ltac bytes_list :=
  unfold bytes_ok; repeat (constructor; [assumption || (unfold is_u8; lia)|]); apply List.Forall_nil.

Definition bytes_okb (l : list Z) : bool := forallb (λ b, (0 <=? b) && (b <? 256)) l.

Lemma bytes_okb_ok l : bytes_okb l = true → bytes_ok l.
Proof.
  intros H. apply List.Forall_forall. intros b Hb.
  unfold bytes_okb in H. rewrite forallb_forall in H. apply H in Hb. ulia.
Qed.

(** [bytes_ok] of a closed list, by evaluation. *)
Ltac by_bytes := apply bytes_okb_ok; vm_compute; reflexivity.

Lemma be_bytes_length n v : length (be_bytes n v) = n.
Proof. induction n; simpl; congruence. Qed.
Lemma le_bytes_length n v : length (le_bytes n v) = n.
Proof. revert v; induction n; intros v; simpl; [done|]. by rewrite IHn. Qed.

#[export] Hint Rewrite be_bytes_length le_bytes_length : distric_rw.

Lemma be_bytes_ok n v : bytes_ok (be_bytes n v).
Proof.
  induction n; simpl; [constructor|]. constructor; [|done].
  unfold is_u8. apply Z.mod_pos_bound. lia.
Qed.
Lemma le_bytes_ok n v : bytes_ok (le_bytes n v).
Proof.
  revert v; induction n; intros v; simpl; [constructor|]. constructor; [|apply IHn].
  unfold is_u8. apply Z.mod_pos_bound. lia.
Qed.
#[export] Hint Resolve be_bytes_ok le_bytes_ok : distric.

Lemma be_fold_shift l a :
  fold_left (λ a b, a * 256 + b) l a = a * 256 ^ Z.of_nat (length l) + be_val l.
Proof.
  unfold be_val. revert a. induction l as [|b l IH]; intros a; simpl.
  - lia.
  - rewrite (IH (a * 256 + b)), (IH (0 * 256 + b)), Nat2Z.inj_succ, Z.pow_succ_r by lia.
    ring.
Qed.

Lemma be_val_cons b l : be_val (b :: l) = b * 256 ^ Z.of_nat (length l) + be_val l.
Proof. unfold be_val at 1. simpl. apply be_fold_shift. Qed.

Lemma be_val_bytes n v : be_val (be_bytes n v) = v mod 256 ^ Z.of_nat n.
Proof.
  induction n as [|n IH]; simpl be_bytes.
  - change (be_val []) with 0. by rewrite Z.mod_1_r.
  - rewrite be_val_cons, be_bytes_length, IH.
    rewrite Nat2Z.inj_succ, Z.pow_succ_r by lia.
    set (p := 256 ^ Z.of_nat n). assert (0 < p) by (apply Z.pow_pos_nonneg; lia).
    rewrite (Z.mul_comm 256 p), Z.rem_mul_r by lia. ring.
Qed.

Lemma le_val_bound l : bytes_ok l → 0 ≤ le_val l < 256 ^ Z.of_nat (length l).
Proof.
  induction 1 as [|b l Hb Hl IH]; cbn [le_val length]; [lia|].
  rewrite Nat2Z.inj_succ, Z.pow_succ_r by lia. unfold is_u8 in Hb. lia.
Qed.

Lemma le_val_bytes n v : le_val (le_bytes n v) = v mod 256 ^ Z.of_nat n.
Proof.
  revert v; induction n as [|n IH]; intros v; simpl.
  - by rewrite Z.mod_1_r.
  - rewrite IH. rewrite Nat2Z.inj_succ, Z.pow_succ_r by lia.
    assert (0 < 256 ^ Z.of_nat n) by (apply Z.pow_pos_nonneg; lia).
    rewrite Z.rem_mul_r by lia. ring.
Qed.

Lemma be_val_bound l : bytes_ok l → 0 ≤ be_val l < 256 ^ Z.of_nat (length l).
Proof.
  induction 1 as [|b l Hb Hl IH].
  - unfold be_val. simpl. lia.
  - rewrite be_val_cons. simpl length. rewrite Nat2Z.inj_succ, Z.pow_succ_r by lia.
    unfold is_u8 in Hb. nia.
Qed.

Lemma be_bytes_drop_high n k b v :
  (n ≤ k)%nat → be_bytes n (b * 256 ^ Z.of_nat k + v) = be_bytes n v.
Proof.
  revert k. induction n as [|n IH]; intros k Hk; simpl; [done|].
  rewrite IH by lia. f_equal.
  replace (b * 256 ^ Z.of_nat k)
    with ((b * 256 ^ Z.of_nat (k - n - 1) * 256) * 256 ^ Z.of_nat n).
  - assert (0 < 256 ^ Z.of_nat n) by (apply Z.pow_pos_nonneg; lia).
    rewrite Z.div_add_l by lia. by rewrite Z.add_comm, Z.mod_add by lia.
  - replace (Z.of_nat k) with (Z.of_nat (k - n - 1) + (1 + Z.of_nat n)) by lia.
    rewrite !Z.pow_add_r by lia. ring.
Qed.

Lemma be_bytes_val l : bytes_ok l → be_bytes (length l) (be_val l) = l.
Proof.
  intros Hl. induction Hl as [|b l Hb Hl IH]; [done|].
  simpl. rewrite be_val_cons.
  pose proof (be_val_bound l Hl) as Hbd.
  rewrite be_bytes_drop_high, IH by lia. f_equal.
  rewrite Z.div_add_l, Z.div_small, Z.add_0_r by lia.
  apply Z.mod_small. unfold is_u8 in Hb. lia.
Qed.

Lemma be_bytes_val_n n l : length l = n → bytes_ok l → be_bytes n (be_val l) = l.
Proof. intros <-. apply be_bytes_val. Qed.

Lemma be_val_u16 l : length l = 2%nat → bytes_ok l → is_u16 (be_val l).
Proof. intros Hl H. apply be_val_bound in H. by rewrite Hl in H. Qed.
Lemma be_val_u32 l : length l = 4%nat → bytes_ok l → is_u32 (be_val l).
Proof. intros Hl H. apply be_val_bound in H. by rewrite Hl in H. Qed.
Lemma be_val_u64 l : length l = 8%nat → bytes_ok l → is_u64 (be_val l).
Proof. intros Hl H. apply be_val_bound in H. by rewrite Hl in H. Qed.

Lemma be_val_inj l1 l2 :
  bytes_ok l1 → bytes_ok l2 → length l1 = length l2 → be_val l1 = be_val l2 → l1 = l2.
Proof.
  intros H1 H2 Hlen Hv.
  rewrite <- (be_bytes_val l1), <- (be_bytes_val l2) by done. by rewrite Hlen, Hv.
Qed.

(** ** Memory objects

    [memcpy_at buf off src]: [memcpy (buf + off, src, length src)];
    [memread buf off n]: the [n] bytes at [buf + off].  Both are a [Fault] when
    the range is not inside the object. *)
Definition memcpy_at (buf : list Z) (off : nat) (src : list Z) : result (list Z) :=
  if (off + length src <=? length buf)%nat
  then Ok (take off buf ++ src ++ drop (off + length src) buf)
  else Fault.

Definition memread (buf : list Z) (off n : nat) : result (list Z) :=
  if (off + n <=? length buf)%nat then Ok (take n (drop off buf)) else Fault.

Lemma memcpy_at_ok buf off src :
  (off + length src ≤ length buf)%nat →
  memcpy_at buf off src = Ok (take off buf ++ src ++ drop (off + length src) buf).
Proof. intros H. unfold memcpy_at. by rewrite (proj2 (Nat.leb_le _ _) H). Qed.

Lemma memread_ok buf off n :
  (off + n ≤ length buf)%nat → memread buf off n = Ok (take n (drop off buf)).
Proof. intros H. unfold memread. by rewrite (proj2 (Nat.leb_le _ _) H). Qed.

Lemma memcpy_at_length buf off src buf' :
  memcpy_at buf off src = Ok buf' → length buf' = length buf.
Proof.
  unfold memcpy_at. destruct (Nat.leb_spec (off + length src) (length buf)); [|done].
  intros [= <-]. rewrite !length_app, length_take, length_drop. lia.
Qed.

Lemma memread_app_mid pre mid post n :
  length mid = n → memread (pre ++ mid ++ post) (length pre) n = Ok mid.
Proof.
  intros <-. rewrite memread_ok by (rewrite !length_app; lia).
  by rewrite drop_app_length, take_app_length.
Qed.

(** Shifting an access past a prefix of the object. *)
Lemma memread_skip pre l k n : memread (pre ++ l) (length pre + k) n = memread l k n.
Proof.
  unfold memread. rewrite length_app, drop_app_ge by lia.
  replace (length pre + k - length pre)%nat with k by lia.
  destruct (Nat.leb_spec (k + n) (length l)), (Nat.leb_spec (length pre + k + n)
    (length pre + length l)); auto; lia.
Qed.

Lemma memcpy_skip pre l k src :
  memcpy_at (pre ++ l) (length pre + k) src = (r ← memcpy_at l k src; Ok (pre ++ r)).
Proof.
  unfold memcpy_at. rewrite length_app.
  destruct (Nat.leb_spec (k + length src) (length l)),
    (Nat.leb_spec (length pre + k + length src) (length pre + length l)); try lia; [|done].
  cbn. rewrite take_app_ge, drop_app_ge by lia. rewrite <- app_assoc.
  by replace (length pre + k - length pre)%nat with k by lia;
    replace (length pre + k + length src - length pre)%nat with (k + length src)%nat by lia.
Qed.

Lemma memcpy_skip0 pre l src :
  memcpy_at (pre ++ l) (length pre) src = (r ← memcpy_at l 0 src; Ok (pre ++ r)).
Proof. by rewrite <- (memcpy_skip pre l 0 src), Nat.add_0_r. Qed.

Lemma memread_skip0 pre l n : memread (pre ++ l) (length pre) n = memread l 0 n.
Proof. by rewrite <- (memread_skip pre l 0 n), Nat.add_0_r. Qed.

Lemma memread_bound buf off n l :
  memread buf off n = Ok l →
  (off + n ≤ length buf)%nat ∧ l = take n (drop off buf) ∧ length l = n.
Proof.
  unfold memread. destruct (Nat.leb_spec (off + n) (length buf)); [|done].
  intros [= <-]. rewrite length_take, length_drop. split_and!; [done|done|lia].
Qed.

(** Splits a list [l] known to have at least [n] elements into its first [n]
    elements and the rest. *)
Ltac split_list l := repeat (destruct l as [|? l]; [simpl in *; lia|]).

(** ** C strings

    The content of a NUL-terminated [char] array is the list of its bytes before
    the NUL.  A pointer into an object is the list of the bytes from its target
    to the end of the object, so reading past that list is a [Fault]. *)
Definition cstr_ok (s : list Z) : Prop := Forall (λ c, 1 ≤ c < 256) s.

(** [strncpy (dst, src, n)] into a zeroed [char dst[n + 1]]: the resulting
    string, reading [src] up to its NUL and at most [n] bytes of it. *)
Fixpoint strncpy_read (n : nat) (src : list Z) : result (list Z) :=
  match n with
  | O => Ok []
  | S n =>
      match src with
      | [] => Fault
      | c :: src => if c =? 0 then Ok [] else s ← strncpy_read n src; Ok (c :: s)
      end
  end.

(** [strdup (src)] / [strlen (src)]: reads up to the NUL, however far it is. *)
Fixpoint strdup_read (src : list Z) : result (list Z) :=
  match src with
  | [] => Fault
  | c :: src => if c =? 0 then Ok [] else s ← strdup_read src; Ok (c :: s)
  end.

Lemma strncpy_read_app n s rest :
  cstr_ok s → strncpy_read n (s ++ 0 :: rest) = Ok (take n s).
Proof.
  intros Hs. revert n. induction Hs as [|c s Hc Hs IH]; intros [|n]; simpl; [done..|].
  destruct (Z.eqb_spec c 0); [lia|]. by rewrite IH.
Qed.

Lemma strncpy_read_fit n s rest :
  cstr_ok s → (length s ≤ n)%nat → strncpy_read n (s ++ 0 :: rest) = Ok s.
Proof. intros. rewrite strncpy_read_app by done. by rewrite take_ge by lia. Qed.

Lemma strdup_read_app s rest :
  cstr_ok s → strdup_read (s ++ 0 :: rest) = Ok s.
Proof.
  intros Hs. induction Hs as [|c s Hc Hs IH]; simpl; [done|].
  destruct (Z.eqb_spec c 0); [lia|]. by rewrite IH.
Qed.

Lemma strncpy_read_ok n src s :
  strncpy_read n src = Ok s → (length s ≤ n)%nat ∧ (bytes_ok src → cstr_ok s).
Proof.
  revert src s. induction n as [|n IH]; intros [|c src] s Hs; simplify_eq/=;
    try by (split; [lia|constructor]).
  destruct (Z.eqb_spec c 0); simplify_eq/=; [split; [lia|constructor]|].
  apply bind_ok in Hs as (s' & Hs' & ?); simplify_eq/=.
  apply IH in Hs' as [Hlen Hok]. split; [lia|].
  intros Hsrc. apply Forall_cons_iff in Hsrc as [Hc Hsrc].
  constructor; [unfold is_u8 in Hc; lia|by apply Hok].
Qed.

(** ** Loops

    [iter_until fuel step s]: run [step] until it answers [inr]; [None] when the
    fuel runs out first. *)
Fixpoint iter_until {S R} (fuel : nat) (step : S → S + R) (s : S) : option R :=
  match fuel with
  | O => None
  | Datatypes.S fuel =>
      match step s with
      | inl s => iter_until fuel step s
      | inr r => Some r
      end
  end.

(** A loop whose every turn decreases a measure ends within that many turns,
    with any invariant of its turns. *)
Lemma iter_until_measure {S R} (step : S → S + R) (I : S → Prop) (m : S → nat)
    (Q : R → Prop) fuel s :
  (∀ s s', I s → step s = inl s' → I s' ∧ (m s' < m s)%nat) →
  (∀ s r, I s → step s = inr r → Q r) →
  I s → (m s < fuel)%nat → ∃ r, iter_until fuel step s = Some r ∧ Q r.
Proof.
  intros Hstep Hend. revert s. induction fuel as [|fuel IH]; intros s HI Hm; [lia|].
  simpl. destruct (step s) as [s'|r] eqn:E; [|eauto].
  destruct (Hstep s s' HI E). apply IH; [done|lia].
Qed.

Lemma Forall_elem {A} (P : A → Prop) (l : list A) x : Forall P l → x ∈ l → P x.
Proof. intros Hl Hx%list_elem_of_In. by eapply List.Forall_forall. Qed.

(** ** Sums over a list *)
Definition sumZ {A} (f : A → Z) (l : list A) : Z := foldr (λ x s, f x + s) 0 l.

Lemma sumZ_insert {A} (f : A → Z) l i x y :
  l !! i = Some x → sumZ f (<[i := y]> l) = sumZ f l - f x + f y.
Proof.
  revert i. induction l as [|a l IH]; intros [|i] Hi; simplify_eq/=; [lia|].
  unfold sumZ in *. simpl. rewrite (IH i Hi). lia.
Qed.

Lemma sumZ_nonneg {A} (f : A → Z) l : Forall (λ x, 0 ≤ f x) l → 0 ≤ sumZ f l.
Proof. induction 1 as [|x l Hx _ IH]; simpl; [done|]. unfold sumZ in *. simpl. lia. Qed.

Lemma sumZ_le {A} (f : A → Z) l i x : Forall (λ x, 0 ≤ f x) l → l !! i = Some x → f x ≤ sumZ f l.
Proof.
  intros Hl. revert i. induction Hl as [|a l Ha Hl IH]; intros [|i] Hi; simplify_eq/=.
  - pose proof (sumZ_nonneg f l Hl). unfold sumZ in *. simpl. lia.
  - specialize (IH i Hi). unfold sumZ in *. simpl. lia.
Qed.

Lemma sumZ_const_0 {A} (f : A → Z) l : Forall (λ x, f x = 0) l → sumZ f l = 0.
Proof. induction 1 as [|x l Hx _ IH]; [done|]. unfold sumZ in *. simpl. lia. Qed.

(** ** Decidable side conditions *)
#[export] Instance is_u8_dec z : Decision (is_u8 z).
Proof. unfold is_u8. apply _. Defined.
#[export] Instance is_u16_dec z : Decision (is_u16 z).
Proof. unfold is_u16. apply _. Defined.
#[export] Instance is_u32_dec z : Decision (is_u32 z).
Proof. unfold is_u32. apply _. Defined.
#[export] Instance is_u64_dec z : Decision (is_u64 z).
Proof. unfold is_u64. apply _. Defined.
#[export] Instance cstr_ok_dec s : Decision (cstr_ok s).
Proof. unfold cstr_ok. apply _. Defined.

(** A decidable statement about constants, decided by evaluation. *)
Ltac by_decide := apply (bool_decide_unpack _); vm_compute; exact I.
