(* ===== verification/Crc32.v ===== *)
(** * CRC-32

    The table-driven checksum of libs/distric_protocol/src/crc32.c (message
    headers and payloads) and the bit-by-bit one of
    libs/distric_raft/src/raft_persistence.c (snapshots): both are the same
    function, and the checksum detects every corruption confined to one byte. *)

From Stdlib Require Import ZArith Lia List.
From S2P Require Import Prelude.

Local Open Scope Z_scope.

(** ** crc32.c: the table-driven implementation *)

Definition crc32_table : list Z :=
  [0x00000000; 0x77073096; 0xEE0E612C; 0x990951BA;
   0x076DC419; 0x706AF48F; 0xE963A535; 0x9E6495A3;
   0x0EDB8832; 0x79DCB8A4; 0xE0D5E91E; 0x97D2D988;
   0x09B64C2B; 0x7EB17CBD; 0xE7B82D07; 0x90BF1D91;
   0x1DB71064; 0x6AB020F2; 0xF3B97148; 0x84BE41DE;
   0x1ADAD47D; 0x6DDDE4EB; 0xF4D4B551; 0x83D385C7;
   0x136C9856; 0x646BA8C0; 0xFD62F97A; 0x8A65C9EC;
   0x14015C4F; 0x63066CD9; 0xFA0F3D63; 0x8D080DF5;
   0x3B6E20C8; 0x4C69105E; 0xD56041E4; 0xA2677172;
   0x3C03E4D1; 0x4B04D447; 0xD20D85FD; 0xA50AB56B;
   0x35B5A8FA; 0x42B2986C; 0xDBBBC9D6; 0xACBCF940;
   0x32D86CE3; 0x45DF5C75; 0xDCD60DCF; 0xABD13D59;
   0x26D930AC; 0x51DE003A; 0xC8D75180; 0xBFD06116;
   0x21B4F4B5; 0x56B3C423; 0xCFBA9599; 0xB8BDA50F;
   0x2802B89E; 0x5F058808; 0xC60CD9B2; 0xB10BE924;
   0x2F6F7C87; 0x58684C11; 0xC1611DAB; 0xB6662D3D;
   0x76DC4190; 0x01DB7106; 0x98D220BC; 0xEFD5102A;
   0x71B18589; 0x06B6B51F; 0x9FBFE4A5; 0xE8B8D433;
   0x7807C9A2; 0x0F00F934; 0x9609A88E; 0xE10E9818;
   0x7F6A0DBB; 0x086D3D2D; 0x91646C97; 0xE6635C01;
   0x6B6B51F4; 0x1C6C6162; 0x856530D8; 0xF262004E;
   0x6C0695ED; 0x1B01A57B; 0x8208F4C1; 0xF50FC457;
   0x65B0D9C6; 0x12B7E950; 0x8BBEB8EA; 0xFCB9887C;
   0x62DD1DDF; 0x15DA2D49; 0x8CD37CF3; 0xFBD44C65;
   0x4DB26158; 0x3AB551CE; 0xA3BC0074; 0xD4BB30E2;
   0x4ADFA541; 0x3DD895D7; 0xA4D1C46D; 0xD3D6F4FB;
   0x4369E96A; 0x346ED9FC; 0xAD678846; 0xDA60B8D0;
   0x44042D73; 0x33031DE5; 0xAA0A4C5F; 0xDD0D7CC9;
   0x5005713C; 0x270241AA; 0xBE0B1010; 0xC90C2086;
   0x5768B525; 0x206F85B3; 0xB966D409; 0xCE61E49F;
   0x5EDEF90E; 0x29D9C998; 0xB0D09822; 0xC7D7A8B4;
   0x59B33D17; 0x2EB40D81; 0xB7BD5C3B; 0xC0BA6CAD;
   0xEDB88320; 0x9ABFB3B6; 0x03B6E20C; 0x74B1D29A;
   0xEAD54739; 0x9DD277AF; 0x04DB2615; 0x73DC1683;
   0xE3630B12; 0x94643B84; 0x0D6D6A3E; 0x7A6A5AA8;
   0xE40ECF0B; 0x9309FF9D; 0x0A00AE27; 0x7D079EB1;
   0xF00F9344; 0x8708A3D2; 0x1E01F268; 0x6906C2FE;
   0xF762575D; 0x806567CB; 0x196C3671; 0x6E6B06E7;
   0xFED41B76; 0x89D32BE0; 0x10DA7A5A; 0x67DD4ACC;
   0xF9B9DF6F; 0x8EBEEFF9; 0x17B7BE43; 0x60B08ED5;
   0xD6D6A3E8; 0xA1D1937E; 0x38D8C2C4; 0x4FDFF252;
   0xD1BB67F1; 0xA6BC5767; 0x3FB506DD; 0x48B2364B;
   0xD80D2BDA; 0xAF0A1B4C; 0x36034AF6; 0x41047A60;
   0xDF60EFC3; 0xA867DF55; 0x316E8EEF; 0x4669BE79;
   0xCB61B38C; 0xBC66831A; 0x256FD2A0; 0x5268E236;
   0xCC0C7795; 0xBB0B4703; 0x220216B9; 0x5505262F;
   0xC5BA3BBE; 0xB2BD0B28; 0x2BB45A92; 0x5CB36A04;
   0xC2D7FFA7; 0xB5D0CF31; 0x2CD99E8B; 0x5BDEAE1D;
   0x9B64C2B0; 0xEC63F226; 0x756AA39C; 0x026D930A;
   0x9C0906A9; 0xEB0E363F; 0x72076785; 0x05005713;
   0x95BF4A82; 0xE2B87A14; 0x7BB12BAE; 0x0CB61B38;
   0x92D28E9B; 0xE5D5BE0D; 0x7CDCEFB7; 0x0BDBDF21;
   0x86D3D2D4; 0xF1D4E242; 0x68DDB3F8; 0x1FDA836E;
   0x81BE16CD; 0xF6B9265B; 0x6FB077E1; 0x18B74777;
   0x88085AE6; 0xFF0F6A70; 0x66063BCA; 0x11010B5C;
   0x8F659EFF; 0xF862AE69; 0x616BFFD3; 0x166CCF45;
   0xA00AE278; 0xD70DD2EE; 0x4E048354; 0x3903B3C2;
   0xA7672661; 0xD06016F7; 0x4969474D; 0x3E6E77DB;
   0xAED16A4A; 0xD9D65ADC; 0x40DF0B66; 0x37D83BF0;
   0xA9BCAE53; 0xDEBB9EC5; 0x47B2CF7F; 0x30B5FFE9;
   0xBDBDF21C; 0xCABAC28A; 0x53B39330; 0x24B4A3A6;
   0xBAD03605; 0xCDD70693; 0x54DE5729; 0x23D967BF;
   0xB3667A2E; 0xC4614AB8; 0x5D681B02; 0x2A6F2B94;
   0xB40BBE37; 0xC30C8EA1; 0x5A05DF1B; 0x2D02EF8D].

(** [crc32_table[idx]] for an index below 256. *)
Definition crc32_entry (idx : Z) : Z := nth (Z.to_nat idx) crc32_table 0.

Definition crc32_step (crc b : Z) : Z :=
  let idx := Z.land (Z.lxor crc b) 0xFF in
  Z.lxor (Z.shiftr crc 8) (crc32_entry idx).

(** A [NULL] or empty buffer leaves the running value unchanged. *)
Definition compute_crc32_incremental (data : list Z) (crc : Z) : Z :=
  fold_left crc32_step data crc.

(** [~x] on [uint32_t]. *)
Definition u32_not (x : Z) : Z := Z.lxor x 0xFFFFFFFF.

Definition compute_crc32 (data : list Z) : Z :=
  match data with
  | [] => 0
  | _ => u32_not (compute_crc32_incremental data 0xFFFFFFFF)
  end.

(** ** raft_persistence.c: the bitwise implementation *)

Definition crc32_bit (crc : Z) : Z :=
  if Z.odd crc then Z.lxor (Z.shiftr crc 1) 0xEDB88320 else Z.shiftr crc 1.

Definition crc32_byte (crc b : Z) : Z :=
  Nat.iter 8 crc32_bit (Z.lxor crc b).

Definition crc32_compute (data : list Z) : Z :=
  u32_not (fold_left crc32_byte data 0xFFFFFFFF).

(** ** The two implementations agree *)

Lemma crc32_bit_lxor a b :
  crc32_bit (Z.lxor a b) = Z.lxor (crc32_bit a) (crc32_bit b).
Proof.
  unfold crc32_bit. rewrite <- !Z.bit0_odd, Z.lxor_spec, Z.shiftr_lxor.
  destruct (Z.testbit a 0), (Z.testbit b 0); simpl; rewrite ?Z.lxor_assoc;
    f_equal; rewrite ?(Z.lxor_comm 0xEDB88320), ?Z.lxor_assoc, ?Z.lxor_nilpotent,
    ?Z.lxor_0_r; done.
Qed.

Lemma crc32_bits_lxor n a b :
  Nat.iter n crc32_bit (Z.lxor a b) =
  Z.lxor (Nat.iter n crc32_bit a) (Nat.iter n crc32_bit b).
Proof. induction n as [|n IH]; simpl; [done|]. by rewrite IH, crc32_bit_lxor. Qed.

Lemma crc32_bits_shiftl n h :
  Nat.iter n crc32_bit (Z.shiftl h (Z.of_nat n)) = h.
Proof.
  induction n as [|n IH]; [apply Z.shiftl_0_r|].
  rewrite Nat.iter_succ_r. rewrite <- IH at 2. f_equal.
  unfold crc32_bit.
  assert (Z.odd (Z.shiftl h (Z.of_nat (S n))) = false) as ->.
  { rewrite <- Z.bit0_odd, Z.shiftl_spec_low; [done|lia]. }
  rewrite Z.shiftr_shiftl_l by lia. f_equal. lia.
Qed.

Lemma byte_split x :
  x = Z.lxor (Z.shiftl (Z.shiftr x 8) 8) (Z.land x 0xFF).
Proof.
  apply Z.bits_inj'. intros i Hi. change 0xFF with (Z.ones 8).
  rewrite Z.lxor_spec, Z.land_spec. destruct (Z.ltb_spec i 8).
  - rewrite Z.shiftl_spec_low, Z.ones_spec_low by lia. by destruct (Z.testbit x i).
  - rewrite Z.shiftl_spec, Z.shiftr_spec, Z.ones_spec_high by lia.
    replace (i - 8 + 8) with i by lia. by destruct (Z.testbit x i).
Qed.

Lemma land_ff_range x : is_u8 (Z.land x 0xFF).
Proof. change 0xFF with (Z.ones 8). rewrite Z.land_ones by lia. apply u8_range. Qed.

Definition all_bytes : list Z := map Z.of_nat (seq 0 256).

Lemma all_bytes_spec P : Forall P all_bytes → ∀ b, is_u8 b → P b.
Proof.
  intros HP b Hb. rewrite List.Forall_forall in HP. apply HP.
  apply in_map_iff. exists (Z.to_nat b). unfold is_u8 in Hb.
  split; [lia|]. apply in_seq. lia.
Qed.

Lemma crc32_entry_bits b : is_u8 b → Nat.iter 8 crc32_bit b = crc32_entry b.
Proof.
  revert b. apply all_bytes_spec.
  assert (forallb (λ b, Nat.iter 8 crc32_bit b =? crc32_entry b) all_bytes = true) as H
    by (vm_compute; reflexivity).
  rewrite forallb_forall in H. apply List.Forall_forall.
  intros b Hb. by apply Z.eqb_eq, H.
Qed.

Lemma shiftr_byte b : is_u8 b → Z.shiftr b 8 = 0.
Proof. intros. rewrite Z.shiftr_div_pow2 by lia. apply Z.div_small. ulia. Qed.

Lemma crc32_byte_step crc b : is_u8 b → crc32_byte crc b = crc32_step crc b.
Proof.
  intros Hb. unfold crc32_byte, crc32_step.
  rewrite (byte_split (Z.lxor crc b)) at 1.
  rewrite crc32_bits_lxor, (crc32_bits_shiftl 8).
  rewrite crc32_entry_bits by apply land_ff_range.
  by rewrite Z.shiftr_lxor, (shiftr_byte b), Z.lxor_0_r.
Qed.

Lemma crc32_fold_equiv data crc :
  bytes_ok data → fold_left crc32_byte data crc = compute_crc32_incremental data crc.
Proof.
  intros Hd. unfold compute_crc32_incremental. revert crc.
  induction Hd as [|b data Hb _ IH]; intros crc; simpl; [done|].
  by rewrite crc32_byte_step, IH.
Qed.

(** ** Every register value is 32 bits wide *)

Lemma lxor_u32 a b : is_u32 a → is_u32 b → is_u32 (Z.lxor a b).
Proof.
  intros Ha Hb.
  assert (Hl : ∀ z, is_u32 z → Z.land z (Z.ones 32) = z).
  { intros z Hz. rewrite Z.land_ones by lia. by apply u32_id. }
  rewrite <- (Hl a), <- (Hl b) by done.
  replace (Z.lxor (Z.land a (Z.ones 32)) (Z.land b (Z.ones 32)))
    with (Z.land (Z.lxor a b) (Z.ones 32)).
  - rewrite Z.land_ones by lia. apply u32_range.
  - apply Z.bits_inj'. intros i _. rewrite !Z.land_spec, !Z.lxor_spec, !Z.land_spec.
    by destruct (Z.testbit a i), (Z.testbit b i), (Z.testbit (Z.ones 32) i).
Qed.

Lemma crc32_bit_u32 x : is_u32 x → is_u32 (crc32_bit x).
Proof.
  intros Hx. assert (is_u32 (Z.shiftr x 1)).
  { rewrite Z.shiftr_div_pow2 by lia. unfold is_u32 in *. split.
    - apply Z.div_pos; lia.
    - apply Z.div_lt_upper_bound; lia. }
  unfold crc32_bit. destruct (Z.odd x); [|done].
  apply lxor_u32; [done|]. ulia.
Qed.

Lemma crc32_bits_u32 n x : is_u32 x → is_u32 (Nat.iter n crc32_bit x).
Proof. intros Hx. induction n; simpl; [done|]. by apply crc32_bit_u32. Qed.

Lemma u8_u32 b : is_u8 b → is_u32 b.
Proof. ulia. Qed.

Lemma crc32_byte_u32 crc b : is_u32 crc → is_u8 b → is_u32 (crc32_byte crc b).
Proof. intros. apply crc32_bits_u32, lxor_u32; auto using u8_u32. Qed.

Lemma crc32_fold_u32 data crc :
  is_u32 crc → bytes_ok data → is_u32 (fold_left crc32_byte data crc).
Proof.
  intros Hc Hd. revert crc Hc.
  induction Hd; intros crc Hc; simpl; auto using crc32_byte_u32.
Qed.

(** ** One bit step is injective on 32-bit registers *)

Lemma lxor_eq_0_iff a b : Z.lxor a b = 0 ↔ a = b.
Proof. split; [apply Z.lxor_eq|intros ->; apply Z.lxor_nilpotent]. Qed.

Lemma crc32_bit_kernel x : is_u32 x → crc32_bit x = 0 → x = 0.
Proof.
  intros Hx. unfold crc32_bit.
  rewrite Z.shiftr_div_pow2 by lia. change (2 ^ 1) with 2.
  pose proof (Z.div_mod x 2 ltac:(lia)) as Hdm. rewrite Zmod_odd in Hdm.
  destruct (Z.odd x).
  - intros H. apply Z.lxor_eq in H. ulia.
  - intros H. ulia.
Qed.

Lemma crc32_bits_inj n x y :
  is_u32 x → is_u32 y → Nat.iter n crc32_bit x = Nat.iter n crc32_bit y → x = y.
Proof.
  intros Hx Hy H. apply lxor_eq_0_iff in H. rewrite <- crc32_bits_lxor in H.
  apply lxor_eq_0_iff. pose proof (lxor_u32 x y Hx Hy) as Hz.
  revert Hz H. generalize (Z.lxor x y) as z. clear. intros z Hz.
  induction n as [|n IH]; simpl; [done|]. intros H.
  apply IH, crc32_bit_kernel, H. by apply crc32_bits_u32.
Qed.

Lemma lxor_cancel_l a b c : Z.lxor a b = Z.lxor a c → b = c.
Proof.
  intros H. apply (f_equal (Z.lxor a)) in H.
  by rewrite <- !Z.lxor_assoc, Z.lxor_nilpotent, !Z.lxor_0_l in H.
Qed.

Lemma crc32_byte_inj_l c c' b :
  is_u32 c → is_u32 c' → is_u8 b → crc32_byte c b = crc32_byte c' b → c = c'.
Proof.
  intros Hc Hc' Hb H. apply crc32_bits_inj in H; [|by apply lxor_u32; auto using u8_u32..].
  rewrite !(Z.lxor_comm _ b) in H. by apply lxor_cancel_l in H.
Qed.

Lemma crc32_fold_inj_l data c c' :
  bytes_ok data → is_u32 c → is_u32 c' →
  fold_left crc32_byte data c = fold_left crc32_byte data c' → c = c'.
Proof.
  intros Hd. revert c c'. induction Hd as [|b data Hb _ IH]; intros c c' Hc Hc'; simpl; [done|].
  intros H. eapply crc32_byte_inj_l; [..|apply IH, H]; auto using crc32_byte_u32.
Qed.

(** ** Consuming a window is xoring it in and shifting its width out *)

Lemma byte_join b v : is_u8 b → Z.lxor b (Z.shiftl v 8) = b + 256 * v.
Proof.
  intros Hb. rewrite <- Z.add_nocarry_lxor.
  - rewrite Z.shiftl_mul_pow2 by lia. ulia.
  - apply Z.bits_inj'. intros i Hi. rewrite Z.land_spec, Z.bits_0.
    destruct (Z.ltb_spec i 8).
    + rewrite Z.shiftl_spec_low by lia. apply andb_false_r.
    + replace (Z.testbit b i) with false; [done|]. symmetry.
      unfold is_u8 in Hb. destruct (decide (b = 0)) as [->|]; [apply Z.bits_0|].
      apply Z.bits_above_log2; [lia|]. apply Z.log2_lt_pow2; [lia|].
      apply Z.lt_le_trans with (2 ^ 8); [lia|]. apply Z.pow_le_mono_r; lia.
Qed.

Lemma crc32_fold_window w c :
  bytes_ok w →
  fold_left crc32_byte w c = Nat.iter (8 * length w) crc32_bit (Z.lxor c (le_val w)).
Proof.
  intros Hw. revert c. induction Hw as [|b w Hb _ IH]; intros c.
  - simpl. by rewrite Z.lxor_0_r.
  - cbn [fold_left length le_val]. rewrite IH. unfold crc32_byte.
    rewrite <- (crc32_bits_shiftl 8 (le_val w)) at 1.
    rewrite <- crc32_bits_lxor, <- Nat.iter_add.
    rewrite <- byte_join, Z.lxor_assoc by done. f_equal. lia.
Qed.

Lemma le_val_inj l l' :
  bytes_ok l → bytes_ok l' → length l = length l' → le_val l = le_val l' → l = l'.
Proof.
  intros Hl. revert l'. induction Hl as [|b l Hb _ IH]; intros [|b' l'] Hl' Hlen Hv;
    simplify_eq/=; [done|].
  apply Forall_cons_iff in Hl' as [Hb' Hl']. unfold is_u8 in Hb, Hb'.
  assert (b = b') as -> by lia. f_equal. apply IH; [done|done|lia].
Qed.

Lemma window_u32 w : bytes_ok w → (length w ≤ 4)%nat → is_u32 (le_val w).
Proof.
  intros Hw Hlen. pose proof (le_val_bound w Hw).
  assert (256 ^ Z.of_nat (length w) ≤ 256 ^ 4) by (apply Z.pow_le_mono_r; lia).
  ulia.
Qed.

Lemma crc32_window_inj w w' c :
  bytes_ok w → bytes_ok w' → length w = length w' → (length w ≤ 4)%nat → is_u32 c →
  fold_left crc32_byte w c = fold_left crc32_byte w' c → w = w'.
Proof.
  intros Hw Hw' Hlen H4 Hc. rewrite !crc32_fold_window, Hlen by done. intros H.
  apply crc32_bits_inj in H; [|by apply lxor_u32, window_u32; auto; lia..].
  apply lxor_cancel_l in H. by apply le_val_inj.
Qed.

Lemma u32_not_inj x y : u32_not x = u32_not y → x = y.
Proof. unfold u32_not. rewrite !(Z.lxor_comm _ 0xFFFFFFFF). apply lxor_cancel_l. Qed.

Lemma crc32_register_burst pre w w' post c :
  is_u32 c → bytes_ok (pre ++ w ++ post) → bytes_ok w' →
  length w' = length w → (length w ≤ 4)%nat →
  compute_crc32_incremental (pre ++ w ++ post) c =
    compute_crc32_incremental (pre ++ w' ++ post) c →
  w = w'.
Proof.
  unfold bytes_ok. rewrite !Forall_app. intros Hc (Hpre & Hw & Hpost) Hw' Hlen H4.
  rewrite <- !crc32_fold_equiv by (repeat apply Forall_app_2; done).
  rewrite !fold_left_app. intros H.
  apply crc32_fold_inj_l in H; [|done|by repeat apply crc32_fold_u32..].
  apply (crc32_window_inj w w' (fold_left crc32_byte pre c));
    [done|done|done|done|by apply crc32_fold_u32|exact H].
Qed.

(** ** Properties *)

(** The table-driven checksum of the wire protocol and the bit-by-bit
    checksum of the snapshot file compute the same value on every buffer, the
    empty one included. *)
Theorem compute_crc32_bitwise data :
  bytes_ok data → compute_crc32 data = crc32_compute data.
Proof.
  intros Hd. unfold crc32_compute. rewrite crc32_fold_equiv by done.
  by destruct data.
Qed.

Lemma compute_crc32_bitwise_witness :
  compute_crc32 [49; 50; 51; 52; 53; 54; 55; 56; 57] = 0xCBF43926 ∧
  compute_crc32 [49; 50; 51; 52; 53; 54; 55; 56; 57] =
    crc32_compute [49; 50; 51; 52; 53; 54; 55; 56; 57].
Proof.
  split; [vm_compute; reflexivity|].
  apply compute_crc32_bitwise. bytes_list.
Defined.

(** A corruption confined to a window of at most four consecutive bytes,
    anywhere in a buffer, always changes the checksum. *)
Theorem compute_crc32_burst pre w w' post :
  bytes_ok (pre ++ w ++ post) → bytes_ok w' → length w' = length w →
  (length w ≤ 4)%nat → w ≠ w' →
  compute_crc32 (pre ++ w ++ post) ≠ compute_crc32 (pre ++ w' ++ post).
Proof.
  intros Hd Hw' Hlen H4 Hne H. apply Hne.
  assert (Hd' : bytes_ok (pre ++ w' ++ post)).
  { unfold bytes_ok in *. rewrite !Forall_app in Hd |- *. naive_solver. }
  rewrite !compute_crc32_bitwise in H by done. unfold crc32_compute in H.
  apply u32_not_inj in H. rewrite !crc32_fold_equiv in H by done.
  eapply crc32_register_burst; [|done..]. ulia.
Qed.

Lemma compute_crc32_burst_witness :
  compute_crc32 ([1; 2] ++ [3; 4] ++ [5]) ≠ compute_crc32 ([1; 2] ++ [4; 3] ++ [5]).
Proof.
  apply compute_crc32_burst; [bytes_list|bytes_list|done|simpl; lia|done].
Defined.
