(* ===== verification/Binary.v ===== *)
(** * Wire header of the DistriC protocol (libs/distric_protocol: binary.c, byteswap.h)

    The 32-byte big-endian message header: initialisation, serialisation,
    validation and its CRC-32.  [htons], [htonl] and [htonll] followed by the
    [memcpy] of the result are [be_bytes]; [memcpy] followed by [ntoh*] is
    [be_val]. *)

From Stdlib Require Import ZArith Lia List String.
From S2P Require Import Prelude Crc32.

Local Open Scope Z_scope.

(** ** Constants and data *)

Definition PROTOCOL_MAGIC : Z := 0xD15C0000.
Definition PROTOCOL_VERSION : Z := 0x0101.
Definition MESSAGE_HEADER_SIZE : nat := 32.
Definition PROTOCOL_MAX_PAYLOAD_SIZE : Z := 64 * 1024 * 1024.

Inductive message_type :=
  | MSG_RAFT_REQUEST_VOTE | MSG_RAFT_VOTE_RESPONSE
  | MSG_RAFT_APPEND_ENTRIES | MSG_RAFT_APPEND_RESPONSE
  | MSG_RAFT_INSTALL_SNAPSHOT | MSG_RAFT_SNAPSHOT_RESPONSE
  | MSG_GOSSIP_PING | MSG_GOSSIP_ACK | MSG_GOSSIP_PING_REQ
  | MSG_GOSSIP_MEMBERSHIP_UPDATE
  | MSG_TASK_ASSIGNMENT | MSG_TASK_RESULT | MSG_TASK_STATUS
  | MSG_CLIENT_SUBMIT | MSG_CLIENT_RESPONSE | MSG_CLIENT_QUERY | MSG_CLIENT_ERROR
  | MSG_CAPABILITY.

#[export] Instance message_type_eq_dec : EqDecision message_type.
Proof. solve_decision. Defined.

(** The values of the enumerators. *)
Definition message_type_code (t : message_type) : Z :=
  match t with
  | MSG_RAFT_REQUEST_VOTE => 0x1001
  | MSG_RAFT_VOTE_RESPONSE => 0x1002
  | MSG_RAFT_APPEND_ENTRIES => 0x1003
  | MSG_RAFT_APPEND_RESPONSE => 0x1004
  | MSG_RAFT_INSTALL_SNAPSHOT => 0x1005
  | MSG_RAFT_SNAPSHOT_RESPONSE => 0x1006
  | MSG_GOSSIP_PING => 0x2001
  | MSG_GOSSIP_ACK => 0x2002
  | MSG_GOSSIP_PING_REQ => 0x2003
  | MSG_GOSSIP_MEMBERSHIP_UPDATE => 0x2004
  | MSG_TASK_ASSIGNMENT => 0x3001
  | MSG_TASK_RESULT => 0x3002
  | MSG_TASK_STATUS => 0x3003
  | MSG_CLIENT_SUBMIT => 0x4001
  | MSG_CLIENT_RESPONSE => 0x4002
  | MSG_CLIENT_QUERY => 0x4003
  | MSG_CLIENT_ERROR => 0x4004
  | MSG_CAPABILITY => 0x4F01
  end.

(** The [case] labels of [message_type_to_string], in its order. *)
Definition message_type_names : list (message_type * string) :=
  [(MSG_RAFT_REQUEST_VOTE, "RAFT_REQUEST_VOTE");
   (MSG_RAFT_VOTE_RESPONSE, "RAFT_VOTE_RESPONSE");
   (MSG_RAFT_APPEND_ENTRIES, "RAFT_APPEND_ENTRIES");
   (MSG_RAFT_APPEND_RESPONSE, "RAFT_APPEND_RESPONSE");
   (MSG_RAFT_INSTALL_SNAPSHOT, "RAFT_INSTALL_SNAPSHOT");
   (MSG_RAFT_SNAPSHOT_RESPONSE, "RAFT_SNAPSHOT_RESPONSE");
   (MSG_GOSSIP_PING, "GOSSIP_PING");
   (MSG_GOSSIP_ACK, "GOSSIP_ACK");
   (MSG_GOSSIP_PING_REQ, "GOSSIP_PING_REQ");
   (MSG_GOSSIP_MEMBERSHIP_UPDATE, "GOSSIP_MEMBERSHIP_UPDATE");
   (MSG_TASK_ASSIGNMENT, "TASK_ASSIGNMENT");
   (MSG_TASK_RESULT, "TASK_RESULT");
   (MSG_TASK_STATUS, "TASK_STATUS");
   (MSG_CLIENT_SUBMIT, "CLIENT_SUBMIT");
   (MSG_CLIENT_RESPONSE, "CLIENT_RESPONSE");
   (MSG_CLIENT_QUERY, "CLIENT_QUERY");
   (MSG_CLIENT_ERROR, "CLIENT_ERROR")]%string.

Definition message_type_to_string (code : Z) : string :=
  match List.find (λ p, message_type_code p.1 =? code) message_type_names with
  | Some (_, name) => name
  | None => "UNKNOWN"%string
  end.

Record message_header := MessageHeader {
  magic : Z;        (* uint32_t *)
  version : Z;      (* uint16_t *)
  msg_type : Z;     (* uint16_t *)
  flags : Z;        (* uint16_t *)
  reserved : Z;     (* uint16_t *)
  payload_len : Z;  (* uint32_t *)
  message_id : Z;   (* uint64_t *)
  timestamp_s : Z;  (* uint32_t *)
  crc32 : Z         (* uint32_t *)
}.

#[export] Instance message_header_eq_dec : EqDecision message_header.
Proof. solve_decision. Defined.

(** The values the fields of the C structure can hold. *)
Definition header_ok (h : message_header) : Prop :=
  is_u32 (magic h) ∧ is_u16 (version h) ∧ is_u16 (msg_type h) ∧ is_u16 (flags h) ∧
  is_u16 (reserved h) ∧ is_u32 (payload_len h) ∧ is_u64 (message_id h) ∧
  is_u32 (timestamp_s h) ∧ is_u32 (crc32 h).

Definition set_crc32 (h : message_header) (c : Z) : message_header :=
  MessageHeader (magic h) (version h) (msg_type h) (flags h) (reserved h)
    (payload_len h) (message_id h) (timestamp_s h) c.

(** ** Timestamps and message identifiers *)

(** The [struct timespec] that [clock_gettime] fills. *)
Record timespec := Timespec { tv_sec : Z; tv_nsec : Z }.

Definition get_timestamp_us (ts : timespec) : Z :=
  u64 (u64 (u64 (tv_sec ts) * 1000000) + u64 (tv_nsec ts) / 1000).

Definition get_timestamp_s (ts : timespec) : Z := u32 (tv_sec ts).

(** [counter] is the atomic [message_id_counter]; the second result is its value
    after the [atomic_fetch_add]. *)
Definition generate_message_id (now : timespec) (counter : Z) : Z * Z :=
  let ts := get_timestamp_us now / 1000000 in
  (Z.lor (u64 (Z.shiftl ts 32)) (Z.land counter 0xFFFFFFFF), u64 (counter + 1)).

(** ** Header initialisation *)

(** [now_id] and [now_s] are the two clock readings; the result pairs the header
    with the next value of [message_id_counter]. *)
Definition message_header_init_code (now_id now_s : timespec) (counter : Z)
    (code plen : Z) : result (message_header * Z) :=
  if plen >? PROTOCOL_MAX_PAYLOAD_SIZE then Err DISTRIC_ERR_INVALID_ARG else
  let '(id, counter') := generate_message_id now_id counter in
  Ok (MessageHeader PROTOCOL_MAGIC PROTOCOL_VERSION (u16 code) 0 0
        plen id (get_timestamp_s now_s) 0, counter').

(** Most callers pass an enumerator; a server passes on the type it received. *)
Definition message_header_init (now_id now_s : timespec) (counter : Z)
    (t : message_type) (plen : Z) : result (message_header * Z) :=
  message_header_init_code now_id now_s counter (message_type_code t) plen.

(** ** Serialisation *)

Definition serialize_header (h : message_header) (buf : list Z) : result (list Z) :=
  buf ← memcpy_at buf 0 (be_bytes 4 (magic h));
  buf ← memcpy_at buf 4 (be_bytes 2 (version h));
  buf ← memcpy_at buf 6 (be_bytes 2 (msg_type h));
  buf ← memcpy_at buf 8 (be_bytes 2 (flags h));
  buf ← memcpy_at buf 10 (be_bytes 2 (reserved h));
  buf ← memcpy_at buf 12 (be_bytes 4 (payload_len h));
  buf ← memcpy_at buf 16 (be_bytes 8 (message_id h));
  buf ← memcpy_at buf 24 (be_bytes 4 (timestamp_s h));
  memcpy_at buf 28 (be_bytes 4 (crc32 h)).

Definition deserialize_header (buf : list Z) : result message_header :=
  b_magic ← memread buf 0 4;
  b_version ← memread buf 4 2;
  b_type ← memread buf 6 2;
  b_flags ← memread buf 8 2;
  b_reserved ← memread buf 10 2;
  b_plen ← memread buf 12 4;
  b_id ← memread buf 16 8;
  b_ts ← memread buf 24 4;
  b_crc ← memread buf 28 4;
  Ok (MessageHeader (be_val b_magic) (be_val b_version) (be_val b_type)
        (be_val b_flags) (be_val b_reserved) (be_val b_plen) (be_val b_id)
        (be_val b_ts) (be_val b_crc)).

(** ** Validation *)

Definition validate_message_header (h : message_header) : bool :=
  if negb (magic h =? PROTOCOL_MAGIC) then false else
  let our_major := u8 (Z.shiftr PROTOCOL_VERSION 8) in
  let peer_major := u8 (Z.shiftr (version h) 8) in
  if negb (peer_major =? our_major) then false else
  if (msg_type h =? 0) || (msg_type h >? 0x4FFF) then false else
  if payload_len h >? PROTOCOL_MAX_PAYLOAD_SIZE then false else
  true.

(** ** Checksum

    The payload pointer is [None] when NULL; the second argument of the C
    functions, the length, is explicit. *)
Definition compute_header_crc32 (h : message_header) (payload : option (list Z))
    (plen : nat) : result message_header :=
  match payload with
  | None => if (0 <? plen)%nat then Err DISTRIC_ERR_INVALID_ARG else
      let h := set_crc32 h 0 in
      hbuf ← serialize_header h (repeat 0 MESSAGE_HEADER_SIZE);
      Ok (set_crc32 h (u32_not (compute_crc32_incremental hbuf 0xFFFFFFFF)))
  | Some p =>
      let h := set_crc32 h 0 in
      hbuf ← serialize_header h (repeat 0 MESSAGE_HEADER_SIZE);
      let crc := compute_crc32_incremental hbuf 0xFFFFFFFF in
      p ← memread p 0 plen;
      Ok (set_crc32 h (u32_not (compute_crc32_incremental p crc)))
  end.

Definition verify_message_crc32 (h : message_header) (payload : option (list Z))
    (plen : nat) : result bool :=
  match compute_header_crc32 h payload plen with
  | Ok tmp => Ok (crc32 tmp =? crc32 h)
  | Err _ => Ok false
  | Fault => Fault
  end.

(** ** The wire image of a header *)

Definition header_bytes (h : message_header) : list Z :=
  be_bytes 4 (magic h) ++ be_bytes 2 (version h) ++ be_bytes 2 (msg_type h) ++
  be_bytes 2 (flags h) ++ be_bytes 2 (reserved h) ++ be_bytes 4 (payload_len h) ++
  be_bytes 8 (message_id h) ++ be_bytes 4 (timestamp_s h) ++ be_bytes 4 (crc32 h).

Lemma header_bytes_length h : length (header_bytes h) = 32%nat.
Proof. reflexivity. Qed.

Lemma header_bytes_ok h : bytes_ok (header_bytes h).
Proof. repeat apply Forall_app_2; apply be_bytes_ok. Qed.
#[export] Hint Resolve header_bytes_ok : distric.

(** Ranges of the values of explicit byte lists. *)
Ltac by_bytes_range :=
  (apply be_val_u16 || apply be_val_u32 || apply be_val_u64);
  [done|bytes_list].

Lemma serialize_header_spec h buf :
  (32 ≤ length buf)%nat → serialize_header h buf = Ok (header_bytes h ++ drop 32 buf).
Proof. intros H. split_list buf. reflexivity. Qed.

Lemma deserialize_header_bytes h rest :
  header_ok h → deserialize_header (header_bytes h ++ rest) = Ok h.
Proof.
  intros (?&?&?&?&?&?&?&?&?).
  transitivity (Ok (MessageHeader (be_val (be_bytes 4 (magic h)))
    (be_val (be_bytes 2 (version h))) (be_val (be_bytes 2 (msg_type h)))
    (be_val (be_bytes 2 (flags h))) (be_val (be_bytes 2 (reserved h)))
    (be_val (be_bytes 4 (payload_len h))) (be_val (be_bytes 8 (message_id h)))
    (be_val (be_bytes 4 (timestamp_s h))) (be_val (be_bytes 4 (crc32 h))))).
  - reflexivity.
  - rewrite !be_val_bytes. destruct h; cbn in *. f_equal.
    f_equal; apply Z.mod_small; cbn; ulia.
Qed.

(** [deserialize_header] loses nothing: the header is determined by, and
    determines, the 32 bytes read. *)
Lemma deserialize_header_inv buf h :
  bytes_ok buf → deserialize_header buf = Ok h →
  (32 ≤ length buf)%nat ∧ header_ok h ∧ header_bytes h = take 32 buf.
Proof.
  intros Hb Hd. assert (Hlen : (32 ≤ length buf)%nat).
  { destruct (Nat.leb_spec 32 (length buf)); [done|]. exfalso.
    unfold deserialize_header in Hd. repeat apply bind_ok in Hd as (? & ? & Hd).
    unfold memread in *. case_match eqn:E; [|done]. 
    repeat match goal with H : context [(28 + 4 <=? ?n)%nat] |- _ =>
      destruct (Nat.leb_spec (28 + 4) n); [lia|done] end. }
  split; [done|]. split_list buf.
  unfold bytes_ok in Hb. rewrite !Forall_cons_iff in Hb. destruct_and! Hb.
  cbn -[be_val] in Hd. injection Hd as <-. split.
  - do 8 (split; [cbn -[be_val]; by_bytes_range|]). cbn -[be_val]. by_bytes_range.
  - unfold header_bytes. cbn -[be_val be_bytes].
    rewrite !be_bytes_val_n by (done || bytes_list). reflexivity.
Qed.

Lemma set_crc32_ok h c : header_ok h → is_u32 c → header_ok (set_crc32 h c).
Proof. unfold header_ok. naive_solver. Qed.

Lemma u32_not_u32 x : is_u32 x → is_u32 (u32_not x).
Proof. intros. apply lxor_u32; [done|ulia]. Qed.

(** The checksum that a header and a payload call for. *)
Definition wire_crc (h : message_header) (p : list Z) : Z :=
  u32_not (compute_crc32_incremental (header_bytes (set_crc32 h 0) ++ p) 0xFFFFFFFF).

Lemma compute_header_crc32_spec h p plen :
  (plen ≤ length p)%nat →
  compute_header_crc32 h (Some p) plen = Ok (set_crc32 h (wire_crc h (take plen p))).
Proof.
  intros Hp. unfold compute_header_crc32, wire_crc, compute_crc32_incremental.
  rewrite serialize_header_spec by done. cbn [mbind result_bind].
  rewrite memread_ok by lia. by rewrite drop_0, app_nil_r, fold_left_app.
Qed.

Lemma compute_header_crc32_none h :
  compute_header_crc32 h None 0 = Ok (set_crc32 h (wire_crc h [])).
Proof.
  unfold compute_header_crc32, wire_crc. cbn -[serialize_header header_bytes].
  rewrite serialize_header_spec by done. by rewrite !app_nil_r.
Qed.

Lemma verify_message_crc32_spec h p :
  verify_message_crc32 h (Some p) (length p) = Ok (wire_crc h p =? crc32 h).
Proof. unfold verify_message_crc32. by rewrite compute_header_crc32_spec, take_ge. Qed.

(** A received image with its checksum field cleared. *)
Lemma wire_crc_image buf h :
  bytes_ok buf → deserialize_header buf = Ok h →
  wire_crc h (drop 32 buf) =
    u32_not (compute_crc32_incremental
      (take 28 buf ++ [0; 0; 0; 0] ++ drop 32 buf) 0xFFFFFFFF) ∧
  be_bytes 4 (crc32 h) = take 4 (drop 28 buf).
Proof.
  intros Hb Hd. apply deserialize_header_inv in Hd as (Hlen & _ & Hh); [|done].
  assert (Hsplit : header_bytes h = take 28 (header_bytes h) ++ be_bytes 4 (crc32 h))
    by reflexivity.
  assert (H28 : take 28 (header_bytes h) = take 28 buf) by (by rewrite Hh, take_take).
  split.
  - unfold wire_crc. do 2 f_equal. change (header_bytes (set_crc32 h 0))
      with (take 28 (header_bytes h) ++ [0; 0; 0; 0]). by rewrite H28, <- app_assoc.
  - rewrite take_drop_commute. change (4 + 28)%nat with 32%nat.
    change (28 + 4)%nat with 32%nat. rewrite <- Hh. reflexivity.
Qed.

(** ** Corruption of a received image *)

(** The bytes the checksum of an image covers. *)
Definition crc_image (buf : list Z) : list Z := take 28 buf ++ [0; 0; 0; 0] ++ drop 32 buf.

Lemma crc_image_ok buf : bytes_ok buf → bytes_ok (crc_image buf).
Proof.
  intros H. apply Forall_app_2; [by apply Forall_take|].
  apply Forall_app_2; [bytes_list|by apply Forall_drop].
Qed.

Lemma crc_image_header_window pre w post :
  (length pre + length w ≤ 28)%nat →
  crc_image (pre ++ w ++ post) =
    pre ++ w ++ take (28 - length pre - length w) post ++ [0; 0; 0; 0] ++
    drop (32 - length pre - length w) post.
Proof.
  intros H. unfold crc_image. rewrite !take_app, !drop_app.
  rewrite (take_ge pre), (take_ge w), (drop_ge pre), (drop_ge w) by lia.
  by rewrite !app_nil_l, <- !app_assoc.
Qed.

Lemma crc_image_payload_window pre w post :
  (32 ≤ length pre)%nat →
  crc_image (pre ++ w ++ post) =
    (take 28 pre ++ [0; 0; 0; 0] ++ drop 32 pre) ++ w ++ post.
Proof.
  intros H. unfold crc_image. rewrite take_app_le, drop_app_le by lia.
  by rewrite <- !app_assoc.
Qed.

Lemma crc_image_field_window pre w w' post :
  (28 ≤ length pre)%nat → (length pre + length w ≤ 32)%nat → length w' = length w →
  crc_image (pre ++ w ++ post) = crc_image (pre ++ w' ++ post) ∧
  (take 4 (drop 28 (pre ++ w ++ post)) = take 4 (drop 28 (pre ++ w' ++ post)) → w = w').
Proof.
  intros H1 H2 Hw. split.
  - unfold crc_image. rewrite !(take_app_le pre), !drop_app by lia.
    rewrite (drop_ge w), (drop_ge w'), Hw by lia. done.
  - rewrite !drop_app_le, !take_app by lia. intros H. apply app_inv_head in H.
    rewrite length_drop, !(take_ge w), !(take_ge w') in H by lia.
    apply app_inj_1 in H; naive_solver.
Qed.

Lemma crc_image_ne pre w w' post :
  bytes_ok (pre ++ w ++ post) → bytes_ok w' → length w' = length w →
  (length w ≤ 4)%nat → w ≠ w' →
  (length pre + length w ≤ 28 ∨ 32 ≤ length pre)%nat →
  u32_not (compute_crc32_incremental (crc_image (pre ++ w ++ post)) 0xFFFFFFFF) ≠
  u32_not (compute_crc32_incremental (crc_image (pre ++ w' ++ post)) 0xFFFFFFFF).
Proof.
  intros Hb Hw' Hlen H4 Hne Hwin H. apply u32_not_inj in H. apply Hne.
  pose proof (crc_image_ok _ Hb) as Hi. destruct Hwin.
  - rewrite crc_image_header_window in Hi, H by lia.
    rewrite crc_image_header_window, Hlen in H by lia.
    eapply crc32_register_burst; [|done..]; ulia.
  - rewrite crc_image_payload_window in Hi, H by lia.
    rewrite crc_image_payload_window in H by lia.
    eapply crc32_register_burst; [|done..]; ulia.
Qed.

Lemma deserialize_header_crc_field buf buf' h h' :
  bytes_ok buf → bytes_ok buf' →
  deserialize_header buf = Ok h → deserialize_header buf' = Ok h' →
  take 4 (drop 28 buf) = take 4 (drop 28 buf') → crc32 h = crc32 h'.
Proof.
  intros Hb Hb' Hd Hd' Heq.
  destruct (wire_crc_image _ h Hb Hd) as [_ Hf].
  destruct (wire_crc_image _ h' Hb' Hd') as [_ Hf'].
  apply deserialize_header_inv in Hd as (_ & Hok & _); [|done].
  apply deserialize_header_inv in Hd' as (_ & Hok' & _); [|done].
  rewrite <- Hf, <- Hf' in Heq. apply (f_equal be_val) in Heq.
  rewrite !be_val_bytes in Heq. unfold header_ok, is_u32 in *.
  rewrite !Z.mod_small in Heq; naive_solver.
Qed.

Lemma crc_field_outside_window (pre w w' post : list Z) :
  length w' = length w → (length pre + length w ≤ 28 ∨ 32 ≤ length pre)%nat →
  take 4 (drop 28 (pre ++ w ++ post)) = take 4 (drop 28 (pre ++ w' ++ post)).
Proof.
  intros Hlen [H|H].
  - rewrite !drop_app, Hlen. by rewrite (drop_ge w), (drop_ge w') by lia.
  - rewrite !drop_app_le by lia. by rewrite !take_app_le by (rewrite length_drop; lia).
Qed.

(** ** Properties *)

(** The header codec round-trips both ways: what [serialize_header] writes
    into any buffer of at least 32 bytes is read back as the same header and the
    rest of the buffer is left alone. *)
Theorem header_roundtrip h buf :
  header_ok h → (MESSAGE_HEADER_SIZE ≤ length buf)%nat →
  ∃ wire, serialize_header h buf = Ok wire ∧ length wire = length buf ∧
    drop MESSAGE_HEADER_SIZE wire = drop MESSAGE_HEADER_SIZE buf ∧
    deserialize_header wire = Ok h.
Proof.
  intros Hh Hlen. exists (header_bytes h ++ drop 32 buf). split_and!.
  - by apply serialize_header_spec.
  - rewrite length_app, header_bytes_length, length_drop.
    unfold MESSAGE_HEADER_SIZE in Hlen. lia.
  - apply drop_app_length'. reflexivity.
  - by apply deserialize_header_bytes.
Qed.

Definition sample_header : message_header :=
  MessageHeader PROTOCOL_MAGIC 0x0102 0x1003 0x30 7 3 0x1122334455667788 0x66000000 0.

Lemma sample_header_ok : header_ok sample_header.
Proof. repeat split; vm_compute; done. Qed.

Lemma header_roundtrip_witness :
  ∃ wire, serialize_header sample_header (repeat 9 40) = Ok wire ∧ length wire = 40%nat ∧
    drop MESSAGE_HEADER_SIZE wire = repeat 9 8 ∧ deserialize_header wire = Ok sample_header.
Proof.
  apply (header_roundtrip sample_header (repeat 9 40));
    [apply sample_header_ok|by apply Nat.leb_le].
Defined.

(** [deserialize_header] reads exactly 32 bytes and loses none of them:
    whatever it accepts, serialising the header it returns over the buffer
    rebuilds the buffer byte for byte. *)
Theorem header_reserialize buf h :
  bytes_ok buf → deserialize_header buf = Ok h →
  header_ok h ∧ serialize_header h buf = Ok buf.
Proof.
  intros Hb Hd. apply deserialize_header_inv in Hd as (Hlen & Hok & Hh); [|done].
  split; [done|]. by rewrite serialize_header_spec, Hh, take_drop.
Qed.

Lemma header_reserialize_witness :
  header_ok (MessageHeader 1 0 0 0 0 0 0 0 0x01020304) ∧
  serialize_header (MessageHeader 1 0 0 0 0 0 0 0 0x01020304)
    (repeat 0 3 ++ [1] ++ repeat 0 24 ++ [1; 2; 3; 4; 5]) =
    Ok (repeat 0 3 ++ [1] ++ repeat 0 24 ++ [1; 2; 3; 4; 5]).
Proof.
  apply (header_reserialize (repeat 0 3 ++ [1] ++ repeat 0 24 ++ [1; 2; 3; 4; 5])).
  - cbn. bytes_list.
  - vm_compute. reflexivity.
Defined.

(** A header whose checksum [compute_header_crc32] filled in verifies
    against the same payload, and only the checksum field was changed. *)
Theorem header_crc_verifies h p :
  ∃ h', compute_header_crc32 h (Some p) (length p) = Ok h' ∧
    set_crc32 h' (crc32 h) = h ∧
    verify_message_crc32 h' (Some p) (length p) = Ok true.
Proof.
  exists (set_crc32 h (wire_crc h p)). split_and!.
  - by rewrite compute_header_crc32_spec, take_ge.
  - by destruct h.
  - rewrite verify_message_crc32_spec. cbn [crc32 set_crc32].
    replace (wire_crc (set_crc32 h (wire_crc h p)) p) with (wire_crc h p) by reflexivity.
    by rewrite Z.eqb_refl.
Qed.

(** C12: a corruption of at most four consecutive bytes of a message (header and
    payload) that lies in the checksum field (bytes 28 to 31) or outside of it is
    always detected: if the original verifies, the corrupted one does not.  One that
    straddles the boundary of the field can pass ([straddling_corruption_passes]). *)
Theorem message_corruption_detected pre w w' post h h' :
  bytes_ok (pre ++ w ++ post) → bytes_ok w' → length w' = length w →
  (length w ≤ 4)%nat → w ≠ w' →
  (length pre + length w ≤ 28 ∨ 32 ≤ length pre ∨
    28 ≤ length pre ∧ length pre + length w ≤ 32)%nat →
  deserialize_header (pre ++ w ++ post) = Ok h →
  deserialize_header (pre ++ w' ++ post) = Ok h' →
  let payload := drop 32 (pre ++ w ++ post) in
  let payload' := drop 32 (pre ++ w' ++ post) in
  verify_message_crc32 h (Some payload) (length payload) = Ok true →
  verify_message_crc32 h' (Some payload') (length payload') = Ok false.
Proof.
  intros Hb Hw' Hlen H4 Hne Hwin Hd Hd' payload payload'.
  assert (Hb' : bytes_ok (pre ++ w' ++ post)).
  { unfold bytes_ok in *. rewrite !Forall_app in Hb |- *. naive_solver. }
  destruct (wire_crc_image _ h Hb Hd) as [Hw Hf].
  destruct (wire_crc_image _ h' Hb' Hd') as [Hw2 Hf2].
  rewrite !verify_message_crc32_spec. unfold payload, payload'.
  intros [= Hv%Z.eqb_eq]. f_equal. apply Z.eqb_neq. intros Hv'.
  fold (crc_image (pre ++ w ++ post)) in Hw. fold (crc_image (pre ++ w' ++ post)) in Hw2.
  destruct (decide (28 ≤ length pre ∧ length pre + length w ≤ 32)%nat) as [[]|Hout].
  - destruct (crc_image_field_window pre w w' post) as [Himg Hinj]; [done..|].
    apply Hne, Hinj. congruence.
  - apply (crc_image_ne pre w w' post); [done..|lia|].
    assert (crc32 h = crc32 h'); [|congruence].
    apply (deserialize_header_crc_field _ _ h h' Hb Hb' Hd Hd').
    by apply crc_field_outside_window; [|lia].
Qed.

(** A verified message with a two-byte payload, then a bit flipped in its
    message type. *)
Definition sample_wire : list Z :=
  match compute_header_crc32 sample_header (Some [7; 8]) 2 with
  | Ok h => header_bytes h ++ [7; 8]
  | _ => []
  end.

Lemma message_corruption_detected_witness :
  verify_message_crc32
    (MessageHeader PROTOCOL_MAGIC 0x0102 0x1002 0x30 7 3 0x1122334455667788 0x66000000
       (be_val (take 4 (drop 28 sample_wire)))) (Some [7; 8]) 2 = Ok false.
Proof.
  apply (message_corruption_detected (take 7 sample_wire) [3] [2] (drop 8 sample_wire)
    (MessageHeader PROTOCOL_MAGIC 0x0102 0x1003 0x30 7 3 0x1122334455667788 0x66000000
       (be_val (take 4 (drop 28 sample_wire)))));
    [by_bytes|by_bytes|done|simpl; lia|done|left; by apply Nat.leb_le|..];
    vm_compute; reflexivity.
Defined.

(** The boundary has to be left out: the checksum is transmitted behind the bytes it is
    computed from, and four bytes from the last of those on can be changed together with
    three of the checksum so that the message still verifies. *)
Definition bare_wire : list Z :=
  match compute_header_crc32 sample_header None 0 with Ok h => header_bytes h | _ => [] end.
Definition straddled_wire : list Z :=
  take 27 bare_wire ++ zip_with Z.lxor [0x97; 99; 38; 251] (take 4 (drop 27 bare_wire)) ++ drop 31 bare_wire.
Definition verifies (wire : list Z) : result bool :=
  h ← deserialize_header wire; verify_message_crc32 h None 0.

Theorem straddling_corruption_passes :
  bare_wire ≠ straddled_wire ∧ verifies bare_wire = Ok true ∧ verifies straddled_wire = Ok true.
Proof. split; [intros H; vm_compute in H; discriminate|]. by vm_compute. Qed.

(** [validate_message_header] accepts exactly the headers with the magic, our
    major version, a type in 1..0x4FFF and a payload within the ceiling; the
    minor version, the flags and the reserved field are never looked at. *)
Theorem validate_message_header_spec h :
  header_ok h →
  validate_message_header h = true ↔
    magic h = PROTOCOL_MAGIC ∧ version h / 256 = 1 ∧ 1 ≤ msg_type h ≤ 0x4FFF ∧
    payload_len h ≤ PROTOCOL_MAX_PAYLOAD_SIZE.
Proof.
  intros (_ & Hv & Ht & _ & _ & Hp & _). unfold validate_message_header.
  change (u8 (Z.shiftr PROTOCOL_VERSION 8)) with 1.
  rewrite Z.shiftr_div_pow2 by lia. change (2 ^ 8) with 256.
  rewrite u8_id by (unfold is_u16 in Hv; ulia).
  destruct (Z.eqb_spec (magic h) PROTOCOL_MAGIC); cbn; [|naive_solver].
  destruct (Z.eqb_spec (version h / 256) 1); cbn; [|naive_solver].
  destruct (Z.eqb_spec (msg_type h) 0); cbn; [naive_solver lia|].
  rewrite !Z.gtb_ltb.
  destruct (Z.ltb_spec 0x4FFF (msg_type h)); [naive_solver lia|].
  destruct (Z.ltb_spec PROTOCOL_MAX_PAYLOAD_SIZE (payload_len h)); [naive_solver lia|].
  unfold is_u16 in Ht. naive_solver lia.
Qed.

Lemma validate_message_header_spec_witness :
  validate_message_header sample_header = true.
Proof. apply (validate_message_header_spec sample_header sample_header_ok).
  split_and!; vm_compute; done. Defined.

(** [message_header_init] refuses a payload above the ceiling and otherwise
    yields a header the receiver's validation accepts. *)
Theorem message_header_init_valid now_id now_s counter t plen :
  is_u32 plen →
  match message_header_init now_id now_s counter t plen with
  | Ok (h, _) => plen ≤ PROTOCOL_MAX_PAYLOAD_SIZE ∧ payload_len h = plen ∧
      msg_type h = message_type_code t ∧ validate_message_header h = true
  | Err e => PROTOCOL_MAX_PAYLOAD_SIZE < plen ∧ e = DISTRIC_ERR_INVALID_ARG
  | Fault => False
  end.
Proof.
  intros Hp. unfold message_header_init, message_header_init_code. rewrite Z.gtb_ltb.
  destruct (Z.ltb_spec PROTOCOL_MAX_PAYLOAD_SIZE plen); [done|].
  cbn -[message_type_code]. split_and!; [done|done|by destruct t|].
  unfold validate_message_header. cbn [magic version msg_type payload_len].
  rewrite !Z.gtb_ltb. destruct (Z.ltb_spec PROTOCOL_MAX_PAYLOAD_SIZE plen); [lia|].
  by destruct t.
Qed.

Lemma message_header_init_valid_witness :
  PROTOCOL_MAX_PAYLOAD_SIZE < 2 ^ 26 + 1 ∧ DISTRIC_ERR_INVALID_ARG = DISTRIC_ERR_INVALID_ARG.
Proof.
  apply (message_header_init_valid (Timespec 1 2) (Timespec 1 3) 0 MSG_GOSSIP_PING (2 ^ 26 + 1)).
  split; vm_compute; done.
Defined.

(** The identifiers of successive calls, one clock reading each. *)
Fixpoint message_ids (clock : list timespec) (counter : Z) : list Z :=
  match clock with
  | [] => []
  | now :: clock =>
      let '(id, counter) := generate_message_id now counter in
      id :: message_ids clock counter
  end.

Lemma generate_message_id_fields now counter :
  (generate_message_id now counter).1 =
    (get_timestamp_us now / 1000000) mod 2 ^ 32 * 2 ^ 32 + counter mod 2 ^ 32.
Proof.
  unfold generate_message_id. cbn [fst].
  change 0xFFFFFFFF with (Z.ones 32). rewrite Z.land_ones by lia.
  set (ts := get_timestamp_us now / 1000000).
  replace (u64 (Z.shiftl ts 32)) with (Z.shiftl (ts mod 2 ^ 32) 32).
  - rewrite lor_shiftl_add; [done|lia|apply Z.mod_pos_bound; lia].
  - rewrite !Z.shiftl_mul_pow2 by lia. unfold u64.
    change (2 ^ 64) with (2 ^ 32 * 2 ^ 32). by rewrite Zmult_mod_distr_r.
Qed.

(** An initialised header fits its structure. *)
Lemma message_header_init_code_ok now_id now_s counter code plen :
  is_u32 plen → plen ≤ PROTOCOL_MAX_PAYLOAD_SIZE →
  ∃ h counter', message_header_init_code now_id now_s counter code plen = Ok (h, counter') ∧
    header_ok h ∧ msg_type h = u16 code ∧ payload_len h = plen.
Proof.
  intros Hp Hmax. unfold message_header_init_code. rewrite Z.gtb_ltb.
  destruct (Z.ltb_spec PROTOCOL_MAX_PAYLOAD_SIZE plen); [lia|].
  pose proof (generate_message_id_fields now_id counter) as Hid.
  destruct (generate_message_id now_id counter) as [id counter']. do 2 eexists. split; [reflexivity|].
  split; [|done]. cbn [fst] in Hid. unfold header_ok. cbn. split_and!; try (done || apply u16_range || apply u32_range).
  rewrite Hid. unfold is_u64. set (a := get_timestamp_us now_id / 1000000).
  change (2 ^ 64) with 18446744073709551616. change (2 ^ 32) with 4294967296.
  Z.to_euclidean_division_equations. lia.
Qed.

Lemma wire_crc_u32 h p : bytes_ok p → is_u32 (wire_crc h p).
Proof.
  intros Hp. assert (Hb : bytes_ok (header_bytes (set_crc32 h 0) ++ p)) by (apply Forall_app_2; [apply header_bytes_ok|exact Hp]).
  apply u32_not_u32. unfold compute_crc32_incremental. rewrite <-crc32_fold_equiv by exact Hb.
  apply crc32_fold_u32; [ulia|exact Hb].
Qed.

Lemma message_ids_low clock counter id :
  id ∈ message_ids clock counter →
  ∃ k, (k < length clock)%nat ∧ id mod 2 ^ 32 = (counter + Z.of_nat k) mod 2 ^ 32.
Proof.
  revert counter. induction clock as [|now clock IH]; intros counter H; cbn in H.
  - by apply elem_of_nil in H.
  - apply elem_of_cons in H as [->|H].
    + exists 0%nat. split; [cbn; lia|].
      change (Z.lor _ _) with ((generate_message_id now counter).1).
      rewrite generate_message_id_fields, Z.add_comm, Z.mod_add by lia.
      rewrite Z.mod_mod by lia. f_equal. lia.
    + apply IH in H as (k & Hk & Heq). exists (S k). split; [cbn; lia|].
      rewrite Heq. unfold u64. change (2 ^ 64) with (2 ^ 32 * 2 ^ 32).
      rewrite <- Zplus_mod_idemp_l, <- Znumtheory.Zmod_div_mod by
        (try lia; by exists (2 ^ 32)).
      rewrite Zplus_mod_idemp_l. f_equal. lia.
Qed.

(** Up to 2^32 consecutive calls never return the same message identifier,
    whatever the clock does in between (it may stand still or step back). *)
Theorem message_ids_unique clock counter :
  Z.of_nat (length clock) ≤ 2 ^ 32 → NoDup (message_ids clock counter).
Proof.
  revert counter. induction clock as [|now clock IH]; intros counter Hlen; cbn.
  - constructor.
  - constructor; [|apply IH; cbn in Hlen; lia].
    intros H. apply message_ids_low in H as (k & Hk & Heq).
    change (Z.lor _ _) with ((generate_message_id now counter).1) in Heq.
    rewrite generate_message_id_fields, Z.add_comm, Z.mod_add, Z.mod_mod in Heq by lia.
    cbn [length] in Hlen. revert Heq. unfold u64. clear -Hlen Hk.
    change (2 ^ 64) with 18446744073709551616. change (2 ^ 32) with 4294967296 in *.
    Z.to_euclidean_division_equations. lia.
Qed.

Lemma message_ids_unique_witness :
  NoDup (message_ids [Timespec 5 0; Timespec 5 1; Timespec 4 9] 0xFFFFFFFF).
Proof. apply message_ids_unique. cbn. lia. Defined.
