(* ===== verification/Tlv.v ===== *)
(** * Type-length-value codec (libs/distric_protocol: tlv.c, limits.h)

    The growable encoder, the bounded decoder with its resource limits, the
    linear and the indexed lookups, the value extractors and the stand-alone
    buffer validation.

    A decoder's [buffer] is the list of the bytes from the pointer to the end of
    the object it points into ([d_mem]); [d_length] is the length the caller
    claims.  A borrowed field's [value] is in the same way the list of the bytes
    from the value to the end of the object, so that a consumer which runs past
    the field reads what the C code reads, and one that runs past the object is
    a [Fault].  Fresh memory reads as zero; no result depends on it. *)

From Stdlib Require Import ZArith Lia List String Sorting.Sorted.
From stdpp Require Import sorting.
From S2P Require Import Prelude.

Local Open Scope Z_scope.

(** ** Constants *)

Definition TLV_MAX_FIELD_SIZE : Z := 16 * 1024 * 1024.
Definition TLV_HEADER_SIZE : nat := 7.

Definition TLV_UINT8 : Z := 0x01.
Definition TLV_UINT16 : Z := 0x02.
Definition TLV_UINT32 : Z := 0x03.
Definition TLV_UINT64 : Z := 0x04.
Definition TLV_INT8 : Z := 0x05.
Definition TLV_INT16 : Z := 0x06.
Definition TLV_INT32 : Z := 0x07.
Definition TLV_INT64 : Z := 0x08.
Definition TLV_FLOAT : Z := 0x09.
Definition TLV_DOUBLE : Z := 0x0A.
Definition TLV_BOOL : Z := 0x0B.
Definition TLV_STRING : Z := 0x10.
Definition TLV_BYTES : Z := 0x11.
Definition TLV_ARRAY : Z := 0x20.
Definition TLV_MAP : Z := 0x21.

(** The [case] labels of [tlv_type_to_string], in its order. *)
Definition tlv_type_names : list (Z * string) :=
  [(TLV_UINT8, "UINT8"); (TLV_UINT16, "UINT16"); (TLV_UINT32, "UINT32");
   (TLV_UINT64, "UINT64"); (TLV_INT8, "INT8"); (TLV_INT16, "INT16");
   (TLV_INT32, "INT32"); (TLV_INT64, "INT64"); (TLV_FLOAT, "FLOAT");
   (TLV_DOUBLE, "DOUBLE"); (TLV_BOOL, "BOOL"); (TLV_STRING, "STRING");
   (TLV_BYTES, "BYTES"); (TLV_ARRAY, "ARRAY"); (TLV_MAP, "MAP")]%string.

Definition tlv_type_to_string (type : Z) : string :=
  match List.find (λ p, p.1 =? type) tlv_type_names with
  | Some (_, name) => name
  | None => "UNKNOWN"%string
  end.

(** ** Field headers *)

Definition write_tlv_header (buf : list Z) (off : nat) (type tag len : Z)
    : result (list Z) :=
  buf ← memcpy_at buf off [u8 type];
  buf ← memcpy_at buf (off + 1) (be_bytes 2 tag);
  memcpy_at buf (off + 3) (be_bytes 4 len).

(** The type, the tag and the length of the field at [off]. *)
Definition read_tlv_header (buf : list Z) (off : nat) : result (Z * Z * Z) :=
  b_type ← memread buf off 1;
  b_tag ← memread buf (off + 1) 2;
  b_len ← memread buf (off + 3) 4;
  Ok (be_val b_type, be_val b_tag, be_val b_len).

(** ** Resource limits (limits.h) *)

Record protocol_limits := ProtocolLimits {
  max_fields : Z;       (* uint32_t *)
  max_string_len : Z;   (* uint32_t *)
  max_total_alloc : Z;  (* uint32_t *)
  max_nesting : Z       (* uint32_t *)
}.

Definition PROTOCOL_LIMITS_DEFAULT : protocol_limits := ProtocolLimits 512 (2 ^ 20) (2 ^ 24) 8.
Definition PROTOCOL_LIMITS_STRICT : protocol_limits := ProtocolLimits 64 (2 ^ 16) (2 ^ 20) 4.
Definition PROTOCOL_LIMITS_INTERNAL : protocol_limits := ProtocolLimits 4096 (2 ^ 24) (2 ^ 26) 16.

Definition protocol_limits_max_fields (l : option protocol_limits) : Z :=
  match l with
  | Some l => if max_fields l =? 0 then 512 else max_fields l
  | None => 512
  end.

Definition protocol_limits_max_string (l : option protocol_limits) : Z :=
  match l with
  | Some l => if max_string_len l =? 0 then 2 ^ 20 else max_string_len l
  | None => 2 ^ 20
  end.

(** ** Encoder *)

(** [capacity] is the size of [buffer]; a NULL [buffer] is the empty list. *)
Record tlv_encoder := TlvEncoder {
  e_buffer : list Z;
  e_capacity : nat;
  e_offset : nat
}.

Definition tlv_encoder_create (initial_capacity : nat) : tlv_encoder :=
  let initial_capacity :=
    if (initial_capacity =? 0)%nat then 256%nat else initial_capacity in
  TlvEncoder (repeat 0 initial_capacity) initial_capacity 0.

Definition tlv_encoder_size (enc : tlv_encoder) : nat := e_offset enc.

Definition tlv_encoder_reset (enc : tlv_encoder) : tlv_encoder :=
  TlvEncoder (e_buffer enc) (e_capacity enc) 0.

(** [realloc (buf, n)] to a size that is not smaller. *)
Definition realloc (buf : list Z) (n : nat) : list Z :=
  take n buf ++ repeat 0 (n - length buf)%nat.

(** [while (new_cap < need) new_cap *= 2;] *)
Definition grow_step (need new_cap : nat) : nat + nat :=
  if (new_cap <? need)%nat then inl (new_cap * 2)%nat else inr new_cap.

(** The loop doubles a positive number until it reaches [need], so [need + 1]
    turns are enough ([ensure_capacity_ok]). *)
Definition ensure_capacity (enc : tlv_encoder) (required : nat) : result tlv_encoder :=
  let need := (e_offset enc + required)%nat in
  if (need <=? e_capacity enc)%nat then Ok enc else
  let new_cap := if (e_capacity enc =? 0)%nat then 256%nat else e_capacity enc in
  match iter_until (S need) (grow_step need) new_cap with
  | Some new_cap => Ok (TlvEncoder (realloc (e_buffer enc) new_cap) new_cap (e_offset enc))
  | None => Fault
  end.

(** [data] is [None] when NULL; [len] is the length argument. *)
Definition tlv_encode_raw (enc : tlv_encoder) (type tag : Z) (data : option (list Z))
    (len : nat) : result tlv_encoder :=
  if (0 <? len)%nat && bool_decide (data = None) then Err DISTRIC_ERR_INVALID_ARG else
  if Z.of_nat len >? TLV_MAX_FIELD_SIZE then Err DISTRIC_ERR_INVALID_ARG else
  enc ← ensure_capacity enc (TLV_HEADER_SIZE + len);
  buf ← write_tlv_header (e_buffer enc) (e_offset enc) type tag (u32 (Z.of_nat len));
  let offset := (e_offset enc + TLV_HEADER_SIZE)%nat in
  if (0 <? len)%nat then
    bytes ← memread (default [] data) 0 len;
    buf ← memcpy_at buf offset bytes;
    Ok (TlvEncoder buf (e_capacity enc) (offset + len))
  else Ok (TlvEncoder buf (e_capacity enc) offset).

Definition tlv_encode_uint8 (enc : tlv_encoder) (tag value : Z) : result tlv_encoder :=
  tlv_encode_raw enc TLV_UINT8 tag (Some [value]) 1.
Definition tlv_encode_uint16 (enc : tlv_encoder) (tag value : Z) : result tlv_encoder :=
  tlv_encode_raw enc TLV_UINT16 tag (Some (be_bytes 2 value)) 2.
Definition tlv_encode_uint32 (enc : tlv_encoder) (tag value : Z) : result tlv_encoder :=
  tlv_encode_raw enc TLV_UINT32 tag (Some (be_bytes 4 value)) 4.
Definition tlv_encode_uint64 (enc : tlv_encoder) (tag value : Z) : result tlv_encoder :=
  tlv_encode_raw enc TLV_UINT64 tag (Some (be_bytes 8 value)) 8.
Definition tlv_encode_int32 (enc : tlv_encoder) (tag value : Z) : result tlv_encoder :=
  tlv_encode_raw enc TLV_INT32 tag (Some (be_bytes 4 (u32 value))) 4.
Definition tlv_encode_int64 (enc : tlv_encoder) (tag value : Z) : result tlv_encoder :=
  tlv_encode_raw enc TLV_INT64 tag (Some (be_bytes 8 (u64 value))) 8.
Definition tlv_encode_bool (enc : tlv_encoder) (tag : Z) (value : bool) : result tlv_encoder :=
  tlv_encode_raw enc TLV_BOOL tag (Some [if value then 1 else 0]) 1.

(** [str] is the content of the C string, [None] when NULL. *)
Definition tlv_encode_string (enc : tlv_encoder) (tag : Z) (str : option (list Z))
    : result tlv_encoder :=
  match str with
  | None => Err DISTRIC_ERR_INVALID_ARG
  | Some str =>
      let len := length str in
      if Z.of_nat len >=? TLV_MAX_FIELD_SIZE then Err DISTRIC_ERR_INVALID_ARG else
      tlv_encode_raw enc TLV_STRING tag (Some (str ++ [0])) (len + 1)
  end.

Definition tlv_encode_bytes (enc : tlv_encoder) (tag : Z) (data : option (list Z))
    (len : nat) : result tlv_encoder :=
  tlv_encode_raw enc TLV_BYTES tag data len.

(** The buffer and its length. *)
Definition tlv_encoder_finalize (enc : tlv_encoder) : list Z * nat :=
  (e_buffer enc, e_offset enc).

Definition tlv_encoder_detach (enc : tlv_encoder) : (list Z * nat) * tlv_encoder :=
  ((e_buffer enc, e_offset enc), TlvEncoder [] 0 0).

(** ** Decoder *)

Record tlv_idx_entry := TlvIdxEntry { i_tag : Z; i_buf_offset : nat }.

#[export] Instance tlv_idx_entry_eq_dec : EqDecision tlv_idx_entry.
Proof. solve_decision. Defined.

(** [d_index] is the built index, [None] when NULL; its length is [index_size]. *)
Record tlv_decoder := TlvDecoder {
  d_mem : list Z;
  d_length : nat;
  d_offset : nat;
  d_max_fields : Z;
  d_max_string_len : Z;
  d_fields_decoded : Z;
  d_index : option (list tlv_idx_entry)
}.

(** [tlv_field_t], the borrowed field. *)
Record tlv_field := TlvField {
  f_type : Z;
  f_tag : Z;
  f_length : Z;
  f_value : list Z
}.

(** [tlv_field_owned_t]: the value is a copy, [None] when NULL. *)
Record tlv_field_owned := TlvFieldOwned {
  fo_type : Z;
  fo_tag : Z;
  fo_length : Z;
  fo_value : option (list Z)
}.

(** [buffer] is [None] when NULL; so is the result. *)
Definition tlv_decoder_create_with_limits (buffer : option (list Z)) (length : nat)
    (limits : option protocol_limits) : option tlv_decoder :=
  match buffer with
  | None => None
  | Some buffer =>
      if (length =? 0)%nat then None else
      Some (TlvDecoder buffer length 0 (protocol_limits_max_fields limits)
              (protocol_limits_max_string limits) 0 None)
  end.

Definition tlv_decoder_create (buffer : option (list Z)) (length : nat)
    : option tlv_decoder :=
  tlv_decoder_create_with_limits buffer length None.

Definition tlv_decoder_position (dec : tlv_decoder) : nat := d_offset dec.

Definition tlv_decoder_has_more (dec : tlv_decoder) : bool :=
  (d_offset dec + TLV_HEADER_SIZE <=? d_length dec)%nat.

Definition tlv_decoder_reset (dec : tlv_decoder) : tlv_decoder :=
  TlvDecoder (d_mem dec) (d_length dec) 0 (d_max_fields dec) (d_max_string_len dec) 0
    (d_index dec).

(** The decoder after a field of [len] bytes was consumed. *)
Definition advance (dec : tlv_decoder) (len : nat) : tlv_decoder :=
  TlvDecoder (d_mem dec) (d_length dec) (d_offset dec + TLV_HEADER_SIZE + len)
    (d_max_fields dec) (d_max_string_len dec) (u32 (d_fields_decoded dec + 1))
    (d_index dec).

(** Type, tag, length and value offset of the next field.  On an error the
    decoder is left as it was. *)
Definition decode_next_internal (dec : tlv_decoder)
    : result (tlv_decoder * (Z * Z * Z * nat)) :=
  if (d_length dec <=? d_offset dec)%nat then Err DISTRIC_ERR_EOF else
  if (d_length dec <? d_offset dec + TLV_HEADER_SIZE)%nat
  then Err DISTRIC_ERR_INVALID_FORMAT else
  if (d_max_fields dec >? 0) && (d_fields_decoded dec >=? d_max_fields dec)
  then Err DISTRIC_ERR_INVALID_FORMAT else
  '(type, tag, len) ← read_tlv_header (d_mem dec) (d_offset dec);
  if len >? TLV_MAX_FIELD_SIZE then Err DISTRIC_ERR_INVALID_FORMAT else
  if (d_max_string_len dec >? 0) && ((type =? TLV_STRING) || (type =? TLV_BYTES)) &&
     (len >? d_max_string_len dec)
  then Err DISTRIC_ERR_INVALID_FORMAT else
  let remaining := (d_length dec - d_offset dec - TLV_HEADER_SIZE)%nat in
  if len >? Z.of_nat remaining then Err DISTRIC_ERR_INVALID_FORMAT else
  Ok (advance dec (Z.to_nat len),
      (type, tag, len, (d_offset dec + TLV_HEADER_SIZE)%nat)).

Definition tlv_decode_next (dec : tlv_decoder) : result (tlv_decoder * tlv_field) :=
  '(dec', (type, tag, len, voff)) ← decode_next_internal dec;
  Ok (dec', TlvField type tag len (drop voff (d_mem dec))).

Definition tlv_decode_next_owned (dec : tlv_decoder)
    : result (tlv_decoder * tlv_field_owned) :=
  '(dec', (type, tag, len, voff)) ← decode_next_internal dec;
  if len >? 0 then
    value ← memread (d_mem dec) voff (Z.to_nat len);
    Ok (dec', TlvFieldOwned type tag len (Some value))
  else Ok (dec', TlvFieldOwned type tag len None).

(** The fields seen before the first that cannot be decoded, in order, each
    passed to [step]: [while (tlv_decode_next (dec, &field) == DISTRIC_OK) ...].
    A turn consumes at least the seven header bytes, so [d_length + 1] turns are
    enough ([decode_loop_total]). *)
Fixpoint decode_turns {St} (fuel : nat) (step : tlv_field → St → result St)
    (dec : tlv_decoder) (s : St) : result (tlv_decoder * St) :=
  match fuel with
  | O => Fault
  | S fuel =>
      match tlv_decode_next dec with
      | Ok (dec, field) => s ← step field s; decode_turns fuel step dec s
      | Err _ => Ok (dec, s)
      | Fault => Fault
      end
  end.

Definition decode_loop {St} (step : tlv_field → St → result St) (dec : tlv_decoder)
    (s : St) : result (tlv_decoder * St) :=
  decode_turns (S (d_length dec)) step dec s.

(** One turn of the loop of [tlv_find_field]. *)
Definition find_field_turn (tag : Z) (dec : tlv_decoder)
    : tlv_decoder + (tlv_decoder * result tlv_field) :=
  match tlv_decode_next dec with
  | Ok (dec, field) =>
      if f_tag field =? tag then inr (dec, Ok field) else inl dec
  | Err _ => inr (dec, Err DISTRIC_ERR_NOT_FOUND)
  | Fault => inr (dec, Fault)
  end.

Definition tlv_find_field (dec : tlv_decoder) (tag : Z) : tlv_decoder * result tlv_field :=
  match iter_until (S (d_length dec)) (find_field_turn tag) dec with
  | Some r => r
  | None => (dec, Fault)
  end.

Definition tlv_skip_field (dec : tlv_decoder) : result tlv_decoder :=
  '(dec, _) ← tlv_decode_next dec; Ok dec.

(** ** Indexed decoder *)

Definition idx_cmp (a b : tlv_idx_entry) : Z :=
  (if i_tag a >? i_tag b then 1 else 0) - (if i_tag a <? i_tag b then 1 else 0).

(** One turn of the scan of [tlv_decoder_build_index]; [idx] is the array built
    so far, whose length is [index_size]. *)
Definition build_index_turn (st : tlv_decoder * list tlv_idx_entry)
    : (tlv_decoder * list tlv_idx_entry) + result (tlv_decoder * list tlv_idx_entry) :=
  let '(dec, idx) := st in
  if negb (d_offset dec + TLV_HEADER_SIZE <=? d_length dec)%nat then inr (Ok (dec, idx)) else
  if (d_max_fields dec >? 0) && (Z.of_nat (length idx) >=? d_max_fields dec)
  then inr (Ok (dec, idx)) else
  match read_tlv_header (d_mem dec) (d_offset dec) with
  | Ok (type, tag, len) =>
      if len >? TLV_MAX_FIELD_SIZE then inr (Ok (dec, idx)) else
      let remaining := (d_length dec - d_offset dec - TLV_HEADER_SIZE)%nat in
      if len >? Z.of_nat remaining then inr (Ok (dec, idx)) else
      inl (TlvDecoder (d_mem dec) (d_length dec)
             (d_offset dec + TLV_HEADER_SIZE + Z.to_nat len) (d_max_fields dec)
             (d_max_string_len dec) (d_fields_decoded dec) (d_index dec),
           idx ++ [TlvIdxEntry tag (d_offset dec)])
  | Err e => inr (Err e)
  | Fault => inr Fault
  end.

Definition set_index (dec : tlv_decoder) (idx : option (list tlv_idx_entry)) : tlv_decoder :=
  TlvDecoder (d_mem dec) (d_length dec) (d_offset dec) (d_max_fields dec)
    (d_max_string_len dec) (d_fields_decoded dec) idx.

(** [qsort] and [bsearch] of the C library, with what the C standard says of
    them: the order of elements that compare equal, and which of them [bsearch]
    finds, are unspecified. *)
Class IndexSearch := {
  qsort : list tlv_idx_entry → list tlv_idx_entry;
  bsearch : tlv_idx_entry → list tlv_idx_entry → option tlv_idx_entry
}.

Class IndexSearchLaws `{IndexSearch} : Prop := {
  qsort_permutation l : qsort l ≡ₚ l;
  qsort_sorted l : Sorted (λ a b, idx_cmp a b ≤ 0) (qsort l);
  bsearch_found key l e : bsearch key l = Some e → e ∈ l ∧ idx_cmp key e = 0;
  bsearch_missing key l :
    Sorted (λ a b, idx_cmp a b ≤ 0) l → bsearch key l = None →
    ∀ e, e ∈ l → idx_cmp key e ≠ 0
}.

Definition tlv_decoder_build_index `{IndexSearch} (dec : tlv_decoder)
    : result tlv_decoder :=
  let dec := tlv_decoder_reset (set_index dec None) in
  match iter_until (S (d_length dec)) build_index_turn (dec, []) with
  | Some (Ok (dec, idx)) => Ok (tlv_decoder_reset (set_index dec (Some (qsort idx))))
  | Some (Err e) => Err e
  | _ => Fault
  end.

Definition tlv_decoder_find_indexed `{IndexSearch} (dec : tlv_decoder) (tag : Z)
    : result tlv_field :=
  match d_index dec with
  | None => Err DISTRIC_ERR_INVALID_STATE
  | Some index =>
      match bsearch (TlvIdxEntry tag 0) index with
      | None => Err DISTRIC_ERR_NOT_FOUND
      | Some found =>
          '(type, ftag, len) ← read_tlv_header (d_mem dec) (i_buf_offset found);
          Ok (TlvField type ftag len (drop (i_buf_offset found + TLV_HEADER_SIZE) (d_mem dec)))
      end
  end.

(** ** Value extractors *)

(** The integer of [n] bytes of a field of type [type], zero on a mismatch. *)
Definition field_get_be (type : Z) (n : nat) (f : tlv_field) : result Z :=
  if negb (f_type f =? type) || (f_length f <? Z.of_nat n) then Ok 0 else
  v ← memread (f_value f) 0 n; Ok (be_val v).

Definition tlv_field_get_uint8 (f : tlv_field) : result Z := field_get_be TLV_UINT8 1 f.
Definition tlv_field_get_uint16 (f : tlv_field) : result Z := field_get_be TLV_UINT16 2 f.
Definition tlv_field_get_uint32 (f : tlv_field) : result Z := field_get_be TLV_UINT32 4 f.
Definition tlv_field_get_uint64 (f : tlv_field) : result Z := field_get_be TLV_UINT64 8 f.
Definition tlv_field_get_int32 (f : tlv_field) : result Z :=
  v ← field_get_be TLV_INT32 4 f; Ok (s32 v).
Definition tlv_field_get_int64 (f : tlv_field) : result Z :=
  v ← field_get_be TLV_INT64 8 f; Ok (s64 v).
Definition tlv_field_get_bool (f : tlv_field) : result bool :=
  v ← field_get_be TLV_BOOL 1 f; Ok (negb (v =? 0)).

(** The pointer to the first byte; whether a NUL follows is not checked. *)
Definition tlv_field_get_string (f : tlv_field) : option (list Z) :=
  if negb (f_type f =? TLV_STRING) || (f_length f =? 0) then None else Some (f_value f).

Definition tlv_field_get_bytes (f : tlv_field) : option (list Z) * Z :=
  if negb (f_type f =? TLV_BYTES) then (None, 0) else (Some (f_value f), f_length f).

Definition tlv_field_as_uint32 (f : tlv_field) : result Z :=
  if (f_type f =? TLV_UINT32) && (f_length f >=? 4) then tlv_field_get_uint32 f else
  if (f_type f =? TLV_UINT16) && (f_length f >=? 2) then tlv_field_get_uint16 f else
  if (f_type f =? TLV_UINT8) && (f_length f >=? 1) then tlv_field_get_uint8 f else
  Ok 0.

Definition tlv_field_as_uint64 (f : tlv_field) : result Z :=
  if (f_type f =? TLV_UINT64) && (f_length f >=? 8) then tlv_field_get_uint64 f else
  tlv_field_as_uint32 f.

(** The empty string constant is its NUL. *)
Definition tlv_field_as_string (f : tlv_field) : list Z :=
  match tlv_field_get_string f with Some s => s | None => [0] end.

(** ** Stand-alone validation *)

Definition validate_turn (buffer : list Z) (length : nat) (offset : nat)
    : nat + result bool :=
  if negb (offset <? length)%nat then inr (Ok true) else
  if (length <? offset + TLV_HEADER_SIZE)%nat then inr (Ok false) else
  match read_tlv_header buffer offset with
  | Ok (type, tag, flen) =>
      if flen >? TLV_MAX_FIELD_SIZE then inr (Ok false) else
      let remaining := (length - offset - TLV_HEADER_SIZE)%nat in
      if flen >? Z.of_nat remaining then inr (Ok false) else
      inl (offset + TLV_HEADER_SIZE + Z.to_nat flen)%nat
  | Err e => inr (Err e)
  | Fault => inr Fault
  end.

(** [buffer] is [None] when NULL. *)
Definition tlv_validate_buffer (buffer : option (list Z)) (length : nat) : result bool :=
  match buffer with
  | None => Ok true
  | Some buffer =>
      if (length =? 0)%nat then Ok true else
      default Fault (iter_until (S length) (validate_turn buffer length) 0%nat)
  end.

(** ** The wire image of a field *)

(** Type, tag and value. *)
Definition tlv : Type := Z * Z * list Z.

Definition tlv_bytes (f : tlv) : list Z :=
  let '(type, tag, d) := f in
  type :: be_bytes 2 tag ++ be_bytes 4 (Z.of_nat (length d)) ++ d.

Definition fields_bytes (fs : list tlv) : list Z := flat_map tlv_bytes fs.

Definition tlv_ok (f : tlv) : Prop :=
  let '(type, tag, d) := f in
  is_u8 type ∧ is_u16 tag ∧ bytes_ok d ∧ Z.of_nat (length d) ≤ TLV_MAX_FIELD_SIZE.

Definition tlv_okb (f : tlv) : bool :=
  let '(type, tag, d) := f in
  (0 <=? type) && (type <? 256) && (0 <=? tag) && (tag <? 65536) && bytes_okb d &&
  (Z.of_nat (length d) <=? TLV_MAX_FIELD_SIZE).

Lemma tlv_okb_ok fs : forallb tlv_okb fs = true → Forall tlv_ok fs.
Proof.
  intros H. apply List.Forall_forall. intros [[type tag] d] Hin.
  rewrite forallb_forall in H. apply H in Hin. unfold tlv_okb in Hin.
  rewrite !andb_true_iff in Hin. destruct_and! Hin.
  split; [ulia|]. split; [ulia|]. split; [by apply bytes_okb_ok|lia].
Qed.

Lemma tlv_bytes_length type tag d :
  length (tlv_bytes (type, tag, d)) = (TLV_HEADER_SIZE + length d)%nat.
Proof. reflexivity. Qed.

Lemma fields_bytes_app fs fs' : fields_bytes (fs ++ fs') = fields_bytes fs ++ fields_bytes fs'.
Proof. apply flat_map_app. Qed.

Lemma fields_bytes_cons f fs : fields_bytes (f :: fs) = tlv_bytes f ++ fields_bytes fs.
Proof. done. Qed.

Lemma fields_bytes_count fs : (length fs ≤ length (fields_bytes fs))%nat.
Proof.
  induction fs as [|[[type tag] d] fs IH]; [done|].
  rewrite fields_bytes_cons, length_app, tlv_bytes_length. cbn [length].
  unfold TLV_HEADER_SIZE. lia.
Qed.

Lemma tlv_bytes_ok f : tlv_ok f → bytes_ok (tlv_bytes f).
Proof.
  destruct f as [[type tag] d]. intros (Hty & _ & Hd & _).
  constructor; [done|]. apply Forall_app_2; [apply be_bytes_ok|].
  apply Forall_app_2; [apply be_bytes_ok|done].
Qed.

Lemma fields_bytes_ok fs : Forall tlv_ok fs → bytes_ok (fields_bytes fs).
Proof.
  induction 1; [constructor|]. rewrite fields_bytes_cons.
  apply Forall_app_2; [by apply tlv_bytes_ok|done].
Qed.

(** ** Headers *)

Lemma read_tlv_header_skip pre l k :
  read_tlv_header (pre ++ l) (length pre + k) = read_tlv_header l k.
Proof. unfold read_tlv_header. by rewrite <- !Nat.add_assoc, !memread_skip. Qed.

Lemma read_tlv_header_bytes type tag d post :
  tlv_ok (type, tag, d) →
  read_tlv_header (tlv_bytes (type, tag, d) ++ post) 0 =
    Ok (type, tag, Z.of_nat (length d)).
Proof.
  intros (Hty & Htag & _ & Hd).
  transitivity (Ok (be_val [type], be_val (be_bytes 2 tag),
    be_val (be_bytes 4 (Z.of_nat (length d))))); [reflexivity|].
  rewrite !be_val_bytes. unfold TLV_MAX_FIELD_SIZE in Hd.
  rewrite !Z.mod_small by (cbn; ulia). unfold be_val. cbn. do 3 f_equal. 
Qed.

Lemma read_tlv_header_at pre type tag d post :
  tlv_ok (type, tag, d) →
  read_tlv_header (pre ++ tlv_bytes (type, tag, d) ++ post) (length pre) =
    Ok (type, tag, Z.of_nat (length d)).
Proof.
  intros H. rewrite <- (read_tlv_header_bytes type tag d post H).
  by rewrite <- (read_tlv_header_skip pre _ 0), Nat.add_0_r.
Qed.

Lemma read_tlv_header_drop mem off :
  (off ≤ length mem)%nat → read_tlv_header mem off = read_tlv_header (drop off mem) 0.
Proof.
  intros H. rewrite <- (read_tlv_header_skip (take off mem) (drop off mem) 0), take_drop.
  by rewrite length_take_le, Nat.add_0_r.
Qed.

Lemma read_tlv_header_some mem :
  (TLV_HEADER_SIZE ≤ length mem)%nat →
  ∃ type tag len, read_tlv_header mem 0 = Ok (type, tag, len).
Proof. intros H. unfold TLV_HEADER_SIZE in H. split_list mem. repeat eexists. Qed.

(** What a successful header read followed by a length check says of the bytes. *)
Lemma read_tlv_header_inv mem type tag len :
  bytes_ok mem → read_tlv_header mem 0 = Ok (type, tag, len) →
  (TLV_HEADER_SIZE ≤ length mem)%nat ∧ is_u8 type ∧ is_u16 tag ∧ is_u32 len ∧
  (len ≤ TLV_MAX_FIELD_SIZE → (TLV_HEADER_SIZE + Z.to_nat len ≤ length mem)%nat →
   let d := take (Z.to_nat len) (drop TLV_HEADER_SIZE mem) in
   tlv_ok (type, tag, d) ∧ Z.of_nat (length d) = len ∧
   mem = tlv_bytes (type, tag, d) ++ drop (TLV_HEADER_SIZE + Z.to_nat len) mem).
Proof.
  intros Hb Hr. unfold read_tlv_header in Hr.
  apply bind_ok in Hr as (b1 & H1 & Hr). apply bind_ok in Hr as (b2 & H2 & Hr).
  apply bind_ok in Hr as (b3 & H3 & Hr). injection Hr as <- <- <-.
  apply memread_bound in H1 as (_ & -> & _). apply memread_bound in H2 as (_ & -> & _).
  apply memread_bound in H3 as (Hlen & -> & _).
  cbn [Nat.add] in Hlen. do 7 (destruct mem as [|? mem]; [cbn in Hlen; lia|]).
  unfold bytes_ok in Hb. rewrite !Forall_cons_iff in Hb. destruct_and! Hb.
  assert (Hz : be_val [z] = z) by (unfold be_val; cbn; lia).
  assert (Hw : is_u32 (be_val [z2; z3; z4; z5])) by (apply be_val_u32; [done|bytes_list]).
  change (take 1 (drop 0 _)) with [z]. change (take 2 (drop (0 + 1) _)) with [z0; z1].
  change (take 4 (drop (0 + 3) _)) with [z2; z3; z4; z5]. rewrite Hz.
  set (len := be_val [z2; z3; z4; z5]) in *.
  split; [unfold TLV_HEADER_SIZE; cbn; lia|]. split; [done|].
  split; [apply be_val_u16; [done|bytes_list]|]. split; [done|].
  intros Hmax Hfit d. change d with (take (Z.to_nat len) mem).
  unfold TLV_HEADER_SIZE in Hfit. cbn [length Nat.add] in Hfit.
  assert (Hd : Z.of_nat (length (take (Z.to_nat len) mem)) = len).
  { rewrite length_take. unfold is_u32 in Hw. lia. }
  split; [|split; [done|]].
  - split; [done|]. split; [apply be_val_u16; [done|bytes_list]|].
    split; [by apply Forall_take|lia].
  - unfold tlv_bytes. rewrite Hd. unfold len at 1.
    rewrite !be_bytes_val_n by (done || bytes_list). cbn.
    by rewrite take_drop.
Qed.

(** ** Encoder correctness *)

Definition encoder_wf (enc : tlv_encoder) : Prop :=
  length (e_buffer enc) = e_capacity enc ∧ (e_offset enc ≤ e_capacity enc)%nat.

(** The bytes encoded so far. *)
Definition encoded (enc : tlv_encoder) : list Z := take (e_offset enc) (e_buffer enc).

Lemma tlv_encoder_create_wf n : encoder_wf (tlv_encoder_create n).
Proof. split; [apply repeat_length|cbn; lia]. Qed.
#[export] Hint Resolve tlv_encoder_create_wf : distric.

Lemma realloc_length buf n : (length buf ≤ n)%nat → length (realloc buf n) = n.
Proof.
  intros. unfold realloc. rewrite length_app, length_take, repeat_length. lia.
Qed.

Lemma realloc_take buf n k : (k ≤ length buf)%nat → (length buf ≤ n)%nat →
  take k (realloc buf n) = take k buf.
Proof.
  intros. unfold realloc. rewrite take_app_le by (rewrite length_take; lia).
  rewrite take_take. f_equal. lia.
Qed.

(** The growth loop ends, reaches [need] and does not overshoot it twofold. *)
Lemma grow_loop need cap :
  (0 < cap)%nat → ∃ c, iter_until (S need) (grow_step need) cap = Some c ∧
    (need ≤ c ∧ cap ≤ c ∧ (c = cap ∨ c < 2 * need))%nat.
Proof.
  intros Hcap.
  apply (iter_until_measure (grow_step need)
    (λ c, 0 < c ∧ cap ≤ c ∧ (c = cap ∨ c < 2 * need))%nat (λ c, need - c)%nat); [| |lia..].
  - intros c c' HI Hc. unfold grow_step in Hc.
    destruct (Nat.ltb_spec c need); simplify_eq. lia.
  - intros c c' HI Hc. unfold grow_step in Hc.
    destruct (Nat.ltb_spec c need); simplify_eq. lia.
Qed.

Lemma ensure_capacity_ok enc required :
  encoder_wf enc → ∃ enc', ensure_capacity enc required = Ok enc' ∧ encoder_wf enc' ∧
    encoded enc' = encoded enc ∧ e_offset enc' = e_offset enc ∧
    (e_offset enc + required ≤ e_capacity enc')%nat ∧
    (e_capacity enc' ≤ Nat.max (Nat.max 256 (e_capacity enc))
                               (2 * (e_offset enc + required)))%nat.
Proof.
  intros [Hlen Hoff]. unfold ensure_capacity.
  destruct (Nat.leb_spec (e_offset enc + required) (e_capacity enc)).
  { exists enc. unfold encoder_wf. split_and!; auto; lia. }
  set (cap := if (e_capacity enc =? 0)%nat then 256%nat else e_capacity enc).
  assert (Hcap : (0 < cap ∧ e_capacity enc ≤ cap ∧ cap ≤ Nat.max 256 (e_capacity enc))%nat).
  { unfold cap. destruct (Nat.eqb_spec (e_capacity enc) 0); lia. }
  destruct (grow_loop (e_offset enc + required) cap) as (c & -> & Hc); [lia|].
  eexists; split; [done|]. unfold encoder_wf, encoded. cbn [e_buffer e_capacity e_offset].
  split_and!; [apply realloc_length; lia|lia|apply realloc_take; lia|done|lia|lia].
Qed.

Lemma write_tlv_header_skip pre l type tag len :
  write_tlv_header (pre ++ l) (length pre) type tag len =
    (r ← write_tlv_header l 0 type tag len; Ok (pre ++ r)).
Proof.
  unfold write_tlv_header. rewrite memcpy_skip0. destruct (memcpy_at l 0 _) as [l1| |]; [|done..]. cbn [mbind result_bind].
  rewrite memcpy_skip. destruct (memcpy_at l1 _ _) as [l2| |]; [|done..]. cbn [mbind result_bind].
  by rewrite memcpy_skip.
Qed.

Lemma write_tlv_header_ok l type tag len :
  (TLV_HEADER_SIZE ≤ length l)%nat →
  write_tlv_header l 0 type tag len =
    Ok ((u8 type :: be_bytes 2 tag ++ be_bytes 4 len) ++ drop TLV_HEADER_SIZE l).
Proof.
  intros H. unfold TLV_HEADER_SIZE in *. split_list l. reflexivity.
Qed.

Lemma tlv_encode_raw_ok enc type tag data len :
  encoder_wf enc → (len ≤ length data)%nat → Z.of_nat len ≤ TLV_MAX_FIELD_SIZE →
  ∃ enc', tlv_encode_raw enc type tag (Some data) len = Ok enc' ∧ encoder_wf enc' ∧
    encoded enc' = encoded enc ++ tlv_bytes (u8 type, tag, take len data).
Proof.
  intros Hwf Hlen Hmax. unfold tlv_encode_raw. rewrite bool_decide_false, andb_false_r by done.
  rewrite Z.gtb_ltb. destruct (Z.ltb_spec TLV_MAX_FIELD_SIZE (Z.of_nat len)); [lia|].
  destruct (ensure_capacity_ok enc (TLV_HEADER_SIZE + len) Hwf)
    as (enc1 & -> & [Hl1 Ho1] & He & Hoff & Hcap & _).
  cbn [mbind result_bind]. rewrite u32_id by (unfold TLV_MAX_FIELD_SIZE in *; ulia).
  unfold encoded in *. rewrite Hoff in *.
  set (o := e_offset enc) in *. unfold TLV_HEADER_SIZE in *.
  rewrite <- (take_drop o (e_buffer enc1)), He.
  set (pre := take o (e_buffer enc)) in *. set (l := drop o (e_buffer enc1)).
  assert (Hpre : length pre = o) by (rewrite <- He, length_take; lia).
  assert (Hl : (7 + len ≤ length l)%nat) by (unfold l; rewrite length_drop; lia).
  rewrite <- Hpre, write_tlv_header_skip, write_tlv_header_ok by (unfold TLV_HEADER_SIZE; lia).
  cbn [mbind result_bind]. set (hdr := u8 type :: _ ++ _).
  assert (Hhdr : length hdr = 7%nat) by reflexivity.
  assert (Hcap' : length (pre ++ hdr ++ drop 7 l) = e_capacity enc1).
  { unfold l. rewrite !length_app, Hhdr, !length_drop. lia. }
  unfold TLV_HEADER_SIZE. set (l2 := drop 7 l) in *.
  assert (Hl2 : (len ≤ length l2)%nat) by (unfold l2; rewrite length_drop; lia).
  rewrite app_assoc in *. set (pre2 := pre ++ hdr) in *.
  replace (length pre + 7)%nat with (length pre2)
    by (unfold pre2; by rewrite length_app, Hhdr).
  assert (Henc : pre2 ++ take len data = pre ++ tlv_bytes (u8 type, tag, take len data)).
  { unfold pre2, hdr, tlv_bytes. rewrite length_take_le by lia. by rewrite <- app_assoc. }
  rewrite <- Henc. rewrite length_app in Hcap'. unfold encoder_wf.
  destruct (Nat.ltb_spec 0 len).
  - change (default [] (Some data)) with data. rewrite memread_ok by lia. cbn [mbind result_bind]. rewrite drop_0.
    rewrite memcpy_skip0.
    assert (Htl : length (take len data) = len) by (rewrite length_take; lia).
    rewrite memcpy_at_ok by lia. cbn [mbind result_bind].
    eexists; split; [done|]. cbn [e_buffer e_capacity e_offset].
    rewrite Nat.add_0_l, take_0, app_nil_l, Htl. split; [split|].
    + rewrite !length_app, length_drop. lia.
    + lia.
    + rewrite app_assoc, take_app_length'; [done|]. rewrite length_app. lia.
  - eexists; split; [done|]. cbn [e_buffer e_capacity e_offset].
    assert (len = 0%nat) as -> by lia. rewrite length_app.
    split; [split; lia|]. by rewrite take_app_length, app_nil_r.
Qed.

(** ** Composing encodings

    [encodes k fs]: from any well-formed encoder, [k] succeeds and appends the
    fields [fs]. *)
Definition encodes (k : tlv_encoder → result tlv_encoder) (fs : list tlv) : Prop :=
  ∀ enc, encoder_wf enc → ∃ enc', k enc = Ok enc' ∧ encoder_wf enc' ∧
    encoded enc' = encoded enc ++ fields_bytes fs.

Lemma encodes_nil : encodes Ok [].
Proof. intros enc Hwf. exists enc. by rewrite app_nil_r. Qed.

Lemma encodes_bind k1 k2 fs1 fs2 :
  encodes k1 fs1 → encodes k2 fs2 → encodes (λ enc, k1 enc ≫= k2) (fs1 ++ fs2).
Proof.
  intros H1 H2 enc Hwf. destruct (H1 enc Hwf) as (enc1 & -> & Hwf1 & He1).
  destruct (H2 enc1 Hwf1) as (enc2 & Hk & Hwf2 & He2). exists enc2.
  split_and!; [done|apply Hwf2..|]. by rewrite He2, He1, <- app_assoc, fields_bytes_app.
Qed.

Lemma encodes_cons k1 k2 f fs :
  encodes k1 [f] → encodes k2 fs → encodes (λ enc, k1 enc ≫= k2) (f :: fs).
Proof. apply encodes_bind. Qed.

Lemma encodes_raw type tag data len :
  (len ≤ length data)%nat → Z.of_nat len ≤ TLV_MAX_FIELD_SIZE → is_u8 type →
  encodes (λ enc, tlv_encode_raw enc type tag (Some data) len)
    [(type, tag, take len data)].
Proof.
  intros H1 H2 H3 enc Hwf. destruct (tlv_encode_raw_ok enc type tag data len)
    as (enc' & ? & ? & He); [done..|]. exists enc'.
  rewrite He, u8_id by done. unfold fields_bytes. cbn [flat_map].
  by rewrite app_nil_r.
Qed.

Lemma encodes_full type tag data len :
  len = length data → Z.of_nat len ≤ TLV_MAX_FIELD_SIZE → is_u8 type →
  encodes (λ enc, tlv_encode_raw enc type tag (Some data) len) [(type, tag, data)].
Proof.
  intros -> H2 H3. pose proof (encodes_raw type tag data (length data)) as H.
  rewrite firstn_all in H. by apply H.
Qed.

Ltac small_field :=
  apply encodes_full; [done|unfold TLV_MAX_FIELD_SIZE; cbn; lia|vm_compute; split; congruence].

Lemma encodes_uint8 tag v :
  encodes (λ enc, tlv_encode_uint8 enc tag v) [(TLV_UINT8, tag, [v])].
Proof. small_field. Qed.
Lemma encodes_uint16 tag v :
  encodes (λ enc, tlv_encode_uint16 enc tag v) [(TLV_UINT16, tag, be_bytes 2 v)].
Proof. small_field. Qed.
Lemma encodes_uint32 tag v :
  encodes (λ enc, tlv_encode_uint32 enc tag v) [(TLV_UINT32, tag, be_bytes 4 v)].
Proof. small_field. Qed.
Lemma encodes_uint64 tag v :
  encodes (λ enc, tlv_encode_uint64 enc tag v) [(TLV_UINT64, tag, be_bytes 8 v)].
Proof. small_field. Qed.
Lemma encodes_int32 tag v :
  encodes (λ enc, tlv_encode_int32 enc tag v) [(TLV_INT32, tag, be_bytes 4 (u32 v))].
Proof. small_field. Qed.
Lemma encodes_int64 tag v :
  encodes (λ enc, tlv_encode_int64 enc tag v) [(TLV_INT64, tag, be_bytes 8 (u64 v))].
Proof. small_field. Qed.
Lemma encodes_bool tag (v : bool) :
  encodes (λ enc, tlv_encode_bool enc tag v) [(TLV_BOOL, tag, [if v then 1 else 0])].
Proof. small_field. Qed.
Lemma encodes_string tag s :
  Z.of_nat (length s) < TLV_MAX_FIELD_SIZE →
  encodes (λ enc, tlv_encode_string enc tag (Some s)) [(TLV_STRING, tag, s ++ [0])].
Proof.
  intros Hs. unfold tlv_encode_string. rewrite Z.geb_leb.
  destruct (Z.leb_spec TLV_MAX_FIELD_SIZE (Z.of_nat (length s))); [lia|].
  apply encodes_full; [by rewrite length_app|lia|vm_compute; split; congruence].
Qed.
Lemma encodes_bytes tag data len :
  len = length data → Z.of_nat len ≤ TLV_MAX_FIELD_SIZE →
  encodes (λ enc, tlv_encode_bytes enc tag (Some data) len) [(TLV_BYTES, tag, data)].
Proof. intros. apply encodes_full; [done..|vm_compute; split; congruence]. Qed.

#[export] Hint Resolve encodes_nil encodes_uint8 encodes_uint16 encodes_uint32
  encodes_uint64 encodes_int32 encodes_int64 encodes_bool encodes_string encodes_bytes : distric.

(** ** Decoder: one field *)

Definition decoder_wf (dec : tlv_decoder) : Prop :=
  (d_length dec ≤ length (d_mem dec))%nat ∧ bytes_ok (d_mem dec).

(** The limits let the field [f] through. *)
Definition within_limits (dec : tlv_decoder) (f : tlv) : Prop :=
  let '(type, _, d) := f in
  (0 < d_max_fields dec → d_fields_decoded dec < d_max_fields dec) ∧
  (0 < d_max_string_len dec → type = TLV_STRING ∨ type = TLV_BYTES →
   Z.of_nat (length d) ≤ d_max_string_len dec).

Lemma tlv_decode_next_at dec pre type tag d post :
  d_mem dec = pre ++ tlv_bytes (type, tag, d) ++ post → d_offset dec = length pre →
  (length pre + TLV_HEADER_SIZE + length d ≤ d_length dec)%nat →
  tlv_ok (type, tag, d) → within_limits dec (type, tag, d) →
  tlv_decode_next dec =
    Ok (advance dec (length d), TlvField type tag (Z.of_nat (length d)) (d ++ post)).
Proof.
  intros Hmem Hoff Hlen Hok [Hcnt Hstr]. unfold tlv_decode_next, decode_next_internal.
  rewrite Hmem, Hoff, read_tlv_header_at by done. unfold TLV_HEADER_SIZE in *.
  destruct (Nat.leb_spec (d_length dec) (length pre)); [lia|].
  destruct (Nat.ltb_spec (d_length dec) (length pre + 7)); [lia|].
  destruct ((d_max_fields dec >? 0) && (d_fields_decoded dec >=? d_max_fields dec)) eqn:E1;
    [lia|]. cbn [mbind result_bind]. destruct Hok as (_ & _ & _ & Hmax).
  destruct (Z.of_nat (length d) >? TLV_MAX_FIELD_SIZE) eqn:E2; [lia|].
  destruct ((d_max_string_len dec >? 0) && ((type =? TLV_STRING) || (type =? TLV_BYTES)) &&
    (Z.of_nat (length d) >? d_max_string_len dec)) eqn:E3; [lia|].
  destruct (Z.of_nat (length d) >? Z.of_nat (d_length dec - length pre - 7)) eqn:E4;
    [apply Z.gtb_lt in E4; lia|].
  cbn [mbind result_bind]. rewrite Nat2Z.id. do 3 f_equal.
  rewrite drop_app_ge by lia. by replace (length pre + 7 - length pre)%nat with 7%nat by lia.
Qed.

(** Everything a call of [tlv_decode_next] can do: it never leaves the buffer, on
    success it consumes exactly the image of the field it returns, and it fails
    with [DISTRIC_ERR_EOF] only at the end. *)
Lemma tlv_decode_next_cases dec :
  decoder_wf dec →
  (∃ type tag d,
     tlv_ok (type, tag, d) ∧ within_limits dec (type, tag, d) ∧
     (d_offset dec + TLV_HEADER_SIZE + length d ≤ d_length dec)%nat ∧
     drop (d_offset dec) (d_mem dec) = tlv_bytes (type, tag, d) ++
       drop (d_offset dec + TLV_HEADER_SIZE + length d) (d_mem dec) ∧
     tlv_decode_next dec =
       Ok (advance dec (length d), TlvField type tag (Z.of_nat (length d))
             (drop (d_offset dec + TLV_HEADER_SIZE) (d_mem dec)))) ∨
  (tlv_decode_next dec = Err DISTRIC_ERR_EOF ∧ (d_length dec ≤ d_offset dec)%nat) ∨
  (tlv_decode_next dec = Err DISTRIC_ERR_INVALID_FORMAT ∧ (d_offset dec < d_length dec)%nat).
Proof.
  intros [Hlen Hb].
  destruct (Nat.leb_spec (d_length dec) (d_offset dec)) as [He|He].
  { right; left. split; [|done]. unfold tlv_decode_next, decode_next_internal.
    by rewrite (proj2 (Nat.leb_le _ _) He). }
  unfold tlv_decode_next, decode_next_internal.
  rewrite (proj2 (Nat.leb_gt _ _) He).
  destruct (Nat.ltb_spec (d_length dec) (d_offset dec + TLV_HEADER_SIZE)) as [|Hhdr];
    [right; right; by split|].
  destruct ((d_max_fields dec >? 0) && (d_fields_decoded dec >=? d_max_fields dec)) eqn:E1;
    [right; right; by split|].
  rewrite read_tlv_header_drop by (unfold TLV_HEADER_SIZE in *; lia).
  destruct (read_tlv_header_some (drop (d_offset dec) (d_mem dec)))
    as (type & tag & len & Hr); [rewrite length_drop; lia|].
  pose proof (read_tlv_header_inv _ type tag len (Forall_drop _ _ _ Hb) Hr)
    as (_ & Hty & Htag & Hlen32 & Hinv).
  rewrite Hr. cbn [mbind result_bind].
  destruct (len >? TLV_MAX_FIELD_SIZE) eqn:E2; [right; right; by split|].
  destruct (_ && (len >? d_max_string_len dec)) eqn:E3; [right; right; by split|].
  destruct (len >? Z.of_nat _) eqn:E4; [right; right; by split|].
  rewrite Z.gtb_ltb, Z.ltb_ge in E2, E4.
  left. rewrite length_drop in Hinv. unfold is_u32, TLV_HEADER_SIZE in *.
  destruct Hinv as (Hok & Hd & Heq); [lia..|].
  exists type, tag, (take (Z.to_nat len) (drop 7 (drop (d_offset dec) (d_mem dec)))).
  assert (Hdl : length (take (Z.to_nat len) (drop 7 (drop (d_offset dec) (d_mem dec))))
    = Z.to_nat len) by lia.
  rewrite Hd, Hdl. split; [done|]. split; [split; rewrite ?Hd; lia|].
  split; [lia|]. split; [|done].
  etransitivity; [exact Heq|]. f_equal. rewrite drop_drop. f_equal. lia.
Qed.

(** ** Decoder: the whole buffer *)

Lemma decoder_wf_advance dec n : decoder_wf dec → decoder_wf (advance dec n).
Proof. done. Qed.

(** Running [step] on the fields [fs], each with the bytes that follow it. *)
Fixpoint fold_fields {St} (step : tlv_field → St → result St) (fs : list tlv)
    (tail : list Z) (s : St) : result St :=
  match fs with
  | [] => Ok s
  | (type, tag, d) :: fs =>
      s ← step (TlvField type tag (Z.of_nat (length d)) (d ++ fields_bytes fs ++ tail)) s;
      fold_fields step fs tail s
  end.

Fixpoint advance_all (dec : tlv_decoder) (fs : list tlv) : tlv_decoder :=
  match fs with
  | [] => dec
  | (_, _, d) :: fs => advance_all (advance dec (length d)) fs
  end.

(** Fields within the limits of the decoder, none of them before the limit on
    the number of fields. *)
Definition fields_within (maxf maxs : Z) (count : Z) (fs : list tlv) : Prop :=
  (0 < maxf → count + Z.of_nat (length fs) ≤ maxf) ∧
  Forall (λ f : tlv, let '(type, _, d) := f in
    0 < maxs → type = TLV_STRING ∨ type = TLV_BYTES → Z.of_nat (length d) ≤ maxs) fs.

Lemma decode_turns_fields {St} (step : tlv_field → St → result St) fs tail :
  Forall tlv_ok fs → ∀ dec pre fuel s,
  d_mem dec = pre ++ fields_bytes fs ++ tail → d_offset dec = length pre →
  (length pre + length (fields_bytes fs) ≤ d_length dec)%nat →
  0 ≤ d_fields_decoded dec → d_max_fields dec < 2 ^ 32 → 0 < d_max_fields dec →
  fields_within (d_max_fields dec) (d_max_string_len dec) (d_fields_decoded dec) fs →
  (∃ e, tlv_decode_next (advance_all dec fs) = Err e) →
  (length fs < fuel)%nat →
  decode_turns fuel step dec s =
    (s' ← fold_fields step fs tail s; Ok (advance_all dec fs, s')).
Proof.
  induction 1 as [|[[type tag] d] fs Hok Hoks IH];
    intros dec pre [|fuel] s Hmem Hoff Hlen Hcnt Hmax32 Hmaxp [Hc Hl] Hend Hfuel; try (cbn in Hfuel; lia).
  - destruct Hend as [e He]. cbn in *. by rewrite He.
  - apply Forall_cons_iff in Hl as [Hl Hls]. rewrite fields_bytes_cons, <- app_assoc in Hmem.
    rewrite fields_bytes_cons, length_app, tlv_bytes_length in Hlen. cbn [length] in Hc, Hfuel.
    cbn [decode_turns fold_fields]. rewrite (tlv_decode_next_at dec pre type tag d _ Hmem Hoff);
      [|lia|done|split; [lia|done]].
    destruct (step _ s) as [s'|e|]; [|done..]. cbn [mbind result_bind].
    assert (Hc1 : u32 (d_fields_decoded dec + 1) = d_fields_decoded dec + 1)
      by (apply u32_id; ulia).
    rewrite (IH (advance dec (length d)) (pre ++ tlv_bytes (type, tag, d)));
      cbn [advance d_mem d_offset d_length d_max_fields d_max_string_len d_fields_decoded];
      rewrite ?Hc1; try (rewrite ?length_app, ?tlv_bytes_length; lia); try done.
    + by rewrite Hmem, <- app_assoc.
    + split; [lia|done].
Qed.

Lemma advance_all_eq fs dec :
  d_mem (advance_all dec fs) = d_mem dec ∧ d_length (advance_all dec fs) = d_length dec ∧
  d_offset (advance_all dec fs) = (d_offset dec + length (fields_bytes fs))%nat ∧
  d_max_fields (advance_all dec fs) = d_max_fields dec ∧
  d_max_string_len (advance_all dec fs) = d_max_string_len dec.
Proof.
  revert dec. induction fs as [|[[type tag] d] fs IH]; intros dec; cbn [advance_all].
  - cbn. split_and!; [done|done|lia|done|done].
  - destruct (IH (advance dec (length d))) as (-> & -> & -> & -> & ->).
    rewrite fields_bytes_cons, length_app, tlv_bytes_length. cbn [advance d_mem d_length
      d_offset d_max_fields d_max_string_len]. split_and!; [done|done|lia|done|done].
Qed.

Lemma reset_advance_all fs dec :
  tlv_decoder_reset (advance_all dec fs) = tlv_decoder_reset dec.
Proof.
  revert dec. induction fs as [|[[type tag] d] fs IH]; intros dec; [done|].
  cbn [advance_all]. by rewrite IH.
Qed.

Lemma tlv_decode_next_eof dec :
  (d_length dec ≤ d_offset dec)%nat → tlv_decode_next dec = Err DISTRIC_ERR_EOF.
Proof.
  intros H. unfold tlv_decode_next, decode_next_internal.
  by rewrite (proj2 (Nat.leb_le _ _) H).
Qed.

(** A field the limits do not let through stops the decoder. *)
Lemma tlv_decode_next_limit dec pre type tag d post :
  d_mem dec = pre ++ tlv_bytes (type, tag, d) ++ post → d_offset dec = length pre →
  (length pre + TLV_HEADER_SIZE + length d ≤ d_length dec)%nat →
  tlv_ok (type, tag, d) → ¬ within_limits dec (type, tag, d) →
  tlv_decode_next dec = Err DISTRIC_ERR_INVALID_FORMAT.
Proof.
  intros Hmem Hoff Hlen Hok Hlim. unfold tlv_decode_next, decode_next_internal.
  rewrite Hmem, Hoff, read_tlv_header_at by done. unfold TLV_HEADER_SIZE in *.
  destruct (Nat.leb_spec (d_length dec) (length pre)); [lia|].
  destruct (Nat.ltb_spec (d_length dec) (length pre + 7)); [done|].
  destruct (_ && (d_fields_decoded dec >=? _)) eqn:E1; [done|].
  cbn [mbind result_bind]. destruct (_ >? TLV_MAX_FIELD_SIZE) eqn:E2; [done|].
  destruct (_ && (_ >? d_max_string_len dec)) eqn:E3; [done|].
  exfalso. apply Hlim. split; lia.
Qed.

(** The default limits, which [tlv_decoder_create] enforces. *)
Definition default_limits (fs : list tlv) : Prop := fields_within 512 (2 ^ 20) 0 fs.

(** The loop of a decoder made by [tlv_decoder_create] over the fields [fs]. *)
Lemma decode_loop_create {St} (step : tlv_field → St → result St) fs tail len dec s :
  Forall tlv_ok fs → default_limits fs → (length (fields_bytes fs) ≤ len)%nat →
  tlv_decoder_create (Some (fields_bytes fs ++ tail)) len = Some dec →
  (∃ e, tlv_decode_next (advance_all dec fs) = Err e) →
  decode_loop step dec s = (s' ← fold_fields step fs tail s; Ok (advance_all dec fs, s')).
Proof.
  intros Hok Hlim Hlen Hdec Hend.
  unfold tlv_decoder_create, tlv_decoder_create_with_limits in Hdec.
  destruct (Nat.eqb_spec len 0); [done|]. injection Hdec as <-.
  unfold decode_loop. pose proof (fields_bytes_count fs).
  apply (decode_turns_fields step fs tail Hok _ []); cbn; auto; lia.
Qed.

Lemma decode_loop_all {St} (step : tlv_field → St → result St) fs tail s :
  Forall tlv_ok fs → default_limits fs → fs ≠ [] →
  ∃ dec, tlv_decoder_create (Some (fields_bytes fs ++ tail)) (length (fields_bytes fs)) = Some dec ∧
    decode_loop step dec s = (s' ← fold_fields step fs tail s; Ok (advance_all dec fs, s')).
Proof.
  intros Hok Hlim Hne. assert (length (fields_bytes fs) ≠ 0%nat).
  { pose proof (fields_bytes_count fs). destruct fs; [done|cbn [length] in *; lia]. }
  unfold tlv_decoder_create at 1, tlv_decoder_create_with_limits.
  destruct (Nat.eqb_spec (length (fields_bytes fs)) 0); [done|].
  eexists; split; [done|]. apply (decode_loop_create step fs tail (length (fields_bytes fs)));
    [done|done|lia| |].
  - unfold tlv_decoder_create, tlv_decoder_create_with_limits.
    destruct (Nat.eqb_spec (length (fields_bytes fs)) 0); [done|]. done.
  - eexists. apply tlv_decode_next_eof.
    destruct (advance_all_eq fs (TlvDecoder (fields_bytes fs ++ tail)
      (length (fields_bytes fs)) 0 512 (2 ^ 20) 0 None)) as (_ & H1 & H2 & _).
    cbn in *. by rewrite H1, H2.
Qed.

(** A field [f] as the decoder hands it out: its value lies inside the buffer. *)
Definition field_in (dec : tlv_decoder) (f : tlv_field) : Prop :=
  ∃ off, f_value f = drop off (d_mem dec) ∧ 0 ≤ f_length f ∧ is_u16 (f_tag f) ∧
    (off + Z.to_nat (f_length f) ≤ d_length dec)%nat.

(** Total correctness of a decoding loop: it ends, stays inside the buffer and
    preserves the invariants of its body. *)
Lemma decode_loop_total {St} (step : tlv_field → St → result St) (I : St → Prop) dec s :
  decoder_wf dec →
  (∀ f s, field_in dec f → I s → ∃ s', step f s = Ok s' ∧ I s') → I s →
  ∃ dec' s', decode_loop step dec s = Ok (dec', s') ∧ I s' ∧
    d_mem dec' = d_mem dec ∧ d_length dec' = d_length dec.
Proof.
  intros Hwf Hstep. unfold decode_loop.
  assert (Hfuel : (d_length dec - d_offset dec < S (d_length dec))%nat) by lia.
  revert Hfuel. generalize (S (d_length dec)) as fuel.
  intros fuel. revert dec s Hwf Hstep.
  induction fuel as [|fuel IH]; intros dec s Hwf Hstep Hfuel HI; [lia|]. cbn.
  destruct (tlv_decode_next_cases dec Hwf)
    as [(type & tag & d & Hok & _ & Hfit & _ & ->)|[[-> _]|[-> _]]]; [|eauto 6..].
  destruct (Hstep (TlvField type tag (Z.of_nat (length d))
    (drop (d_offset dec + TLV_HEADER_SIZE) (d_mem dec))) s) as (s' & -> & HI'); [|done|].
  { destruct Hok as (_ & Htag & _). exists (d_offset dec + TLV_HEADER_SIZE)%nat.
    cbn. split_and!; [done|lia|apply Htag..|lia]. }
  cbn [mbind result_bind].
  apply (IH (advance dec (length d))); [done|done|cbn; unfold TLV_HEADER_SIZE in *; lia|done].
Qed.

(** ** Validation *)

Lemma read_tlv_header_take mem off len :
  (off + TLV_HEADER_SIZE ≤ len)%nat → (len ≤ length mem)%nat →
  read_tlv_header mem off = read_tlv_header (drop off (take len mem)) 0.
Proof.
  intros H1 H2. rewrite read_tlv_header_drop by lia.
  rewrite <- (take_drop len mem) at 1. rewrite drop_app_le by (rewrite length_take; lia).
  assert (Hl : (TLV_HEADER_SIZE ≤ length (drop off (take len mem)))%nat)
    by (rewrite length_drop, length_take; lia).
  revert Hl. generalize (drop off (take len mem)) as l. unfold TLV_HEADER_SIZE.
  intros l Hl. split_list l. reflexivity.
Qed.

(** One field at the front of the remaining bytes. *)
Lemma validate_front rem type tag flen :
  bytes_ok rem → read_tlv_header rem 0 = Ok (type, tag, flen) →
  (flen ≤ TLV_MAX_FIELD_SIZE ∧ (TLV_HEADER_SIZE + Z.to_nat flen ≤ length rem)%nat ∧
    0 ≤ flen ∧ ∃ d, tlv_ok (type, tag, d) ∧ length d = Z.to_nat flen ∧
      rem = tlv_bytes (type, tag, d) ++ drop (TLV_HEADER_SIZE + Z.to_nat flen) rem) ∨
  ((TLV_MAX_FIELD_SIZE < flen ∨ (length rem < TLV_HEADER_SIZE + Z.to_nat flen)%nat) ∧
    0 ≤ flen ∧ ∀ f fs, tlv_ok f → rem ≠ fields_bytes (f :: fs)).
Proof.
  intros Hb Hr. destruct (read_tlv_header_inv rem type tag flen Hb Hr)
    as (H7 & Hty & Htag & Hfl & Hinv). unfold is_u32 in Hfl.
  destruct (decide (flen ≤ TLV_MAX_FIELD_SIZE ∧
    (TLV_HEADER_SIZE + Z.to_nat flen ≤ length rem)%nat)) as [[Hm Hfit]|Hno].
  - left. destruct Hinv as (Hok & Hd & Heq); [done..|]. split_and!; [done..|lia|].
    eexists. split; [exact Hok|]. split; [lia|exact Heq].
  - right. split; [lia|]. split; [lia|]. intros [[ty tg] d] fs Hok ->. apply Hno.
    rewrite fields_bytes_cons, read_tlv_header_bytes in Hr by done. injection Hr as -> -> <-.
    destruct Hok as (_ & _ & _ & Hmax).
    rewrite fields_bytes_cons, length_app, tlv_bytes_length, Nat2Z.id. split; [done|lia].
Qed.

Lemma validate_turns mem len :
  (len ≤ length mem)%nat → bytes_ok (take len mem) → ∀ fuel off,
  (off ≤ len)%nat → (len - off < fuel)%nat →
  ∃ b, iter_until fuel (validate_turn mem len) off = Some (Ok b) ∧
    (b = true ↔ ∃ fs, Forall tlv_ok fs ∧ drop off (take len mem) = fields_bytes fs).
Proof.
  intros Hlen Hb. induction fuel as [|fuel IH]; intros off Hoff Hfuel; [lia|].
  cbn [iter_until]. unfold validate_turn at 1.
  destruct (Nat.ltb_spec off len) as [Hlt|]; cbn [negb].
  2:{ exists true. split; [done|]. split; [|done]. intros _. exists [].
      split; [constructor|]. apply drop_ge. rewrite length_take. lia. }
  set (rem := drop off (take len mem)) in *.
  assert (Hrl : length rem = (len - off)%nat)
    by (unfold rem; rewrite length_drop, length_take; lia).
  assert (Hno : ∀ P : Prop, (∀ f fs, tlv_ok f → Forall tlv_ok fs →
      rem = fields_bytes (f :: fs) → P) → (∃ fs, Forall tlv_ok fs ∧ rem = fields_bytes fs) → P).
  { intros P HP ([|f fs] & Hok & Hfs); [rewrite Hfs in Hrl; cbn in Hrl; lia|].
    apply Forall_cons_iff in Hok as []. by eapply HP. }
  destruct (Nat.ltb_spec len (off + TLV_HEADER_SIZE)) as [Hs|Hhdr].
  { exists false. split; [done|]. split; [done|]. apply Hno.
    intros [[type tag] d] fs _ _ Hfs.
    rewrite Hfs, fields_bytes_cons, length_app, tlv_bytes_length in Hrl. lia. }
  assert (Hbr : bytes_ok rem) by (by apply Forall_drop).
  rewrite (read_tlv_header_take mem off len) by lia. fold rem.
  destruct (read_tlv_header_some rem) as (type & tag & flen & Hr); [lia|]. rewrite Hr.
  unfold TLV_HEADER_SIZE in *.
  destruct (validate_front rem type tag flen Hbr Hr)
    as [(Hm & Hfit & H0 & d & Hok & Hd & Heq)|(Hbad & H0 & Hnone)]; unfold TLV_HEADER_SIZE in *.
  - rewrite !Z.gtb_ltb, !(proj2 (Z.ltb_ge _ _)) by lia.
    destruct (IH (off + 7 + Z.to_nat flen)%nat) as (b & -> & Hiff); [lia..|].
    exists b. split; [done|]. rewrite Hiff.
    replace (drop (off + 7 + Z.to_nat flen) (take len mem)) with (drop (7 + Z.to_nat flen) rem)
      by (unfold rem; rewrite drop_drop; f_equal; lia).
    split; [intros (fs & Hoks & Hfs)|apply Hno; intros f fs Hf Hoks Hfs].
    + exists ((type, tag, d) :: fs). split; [by constructor|]. by rewrite Heq, Hfs.
    + exists fs. split; [done|]. rewrite Hfs in Hr |- *. destruct f as [[ty tg] d'].
      rewrite fields_bytes_cons in *. rewrite read_tlv_header_bytes in Hr by done.
      injection Hr as _ _ <-. rewrite Nat2Z.id. by rewrite drop_app_length'.
  - exists false. split; [|split; [done|apply Hno; intros f fs Hf _ Hfs; by destruct (Hnone f fs Hf)]].
    rewrite !Z.gtb_ltb. destruct (Z.ltb_spec TLV_MAX_FIELD_SIZE flen); [done|].
    destruct (Z.ltb_spec (Z.of_nat (len - off - 7)) flen); [done|]. lia.
Qed.

(** ** Linear and indexed lookup *)

(** The first field with tag [tag] among [fs], as the decoder hands it out. *)
Fixpoint first_field (tag : Z) (fs : list tlv) (tail : list Z) : option tlv_field :=
  match fs with
  | [] => None
  | (ty, tg, d) :: fs =>
      if tg =? tag
      then Some (TlvField ty tg (Z.of_nat (length d)) (d ++ fields_bytes fs ++ tail))
      else first_field tag fs tail
  end.

Definition found (r : option tlv_field) : result tlv_field :=
  match r with Some f => Ok f | None => Err DISTRIC_ERR_NOT_FOUND end.

Lemma find_field_turns tag fs tail :
  Forall tlv_ok fs → ∀ dec pre fuel,
  d_mem dec = pre ++ fields_bytes fs ++ tail → d_offset dec = length pre →
  d_length dec = (length pre + length (fields_bytes fs))%nat →
  0 ≤ d_fields_decoded dec → 0 < d_max_fields dec < 2 ^ 32 →
  fields_within (d_max_fields dec) (d_max_string_len dec) (d_fields_decoded dec) fs →
  (length fs < fuel)%nat →
  ∃ dec', iter_until fuel (find_field_turn tag) dec = Some (dec', found (first_field tag fs tail)).
Proof.
  induction 1 as [|[[type tg] d] fs Hok Hoks IH];
    intros dec pre [|fuel] Hmem Hoff Hlen Hcnt Hmax [Hc Hl] Hfuel; try (cbn in Hfuel; lia);
    cbn [iter_until]; unfold find_field_turn at 1.
  - rewrite tlv_decode_next_eof by (cbn in Hlen; lia). by eexists.
  - apply Forall_cons_iff in Hl as [Hl Hls]. rewrite fields_bytes_cons, <- app_assoc in Hmem.
    rewrite fields_bytes_cons, length_app, tlv_bytes_length in Hlen. cbn [length] in Hc, Hfuel.
    rewrite (tlv_decode_next_at dec pre type tg d _ Hmem Hoff); [|lia|done|split; [lia|done]].
    cbn [f_tag first_field]. destruct (tg =? tag); [by eexists|].
    assert (Hc1 : u32 (d_fields_decoded dec + 1) = d_fields_decoded dec + 1)
      by (apply u32_id; ulia).
    apply (IH (advance dec (length d)) (pre ++ tlv_bytes (type, tg, d)));
      cbn [advance d_mem d_offset d_length d_max_fields d_max_string_len d_fields_decoded];
      rewrite ?Hc1; try (rewrite ?length_app, ?tlv_bytes_length; lia); try done.
    + by rewrite Hmem, <- app_assoc.
    + split; [lia|done].
Qed.

(** The index of [fs] when the first of them is at offset [off]. *)
Fixpoint index_of (off : nat) (fs : list tlv) : list tlv_idx_entry :=
  match fs with
  | [] => []
  | (ty, tg, d) :: fs =>
      TlvIdxEntry tg off :: index_of (off + TLV_HEADER_SIZE + length d) fs
  end.

Lemma build_index_turns fs tail :
  Forall tlv_ok fs → ∀ dec pre idx fuel,
  d_mem dec = pre ++ fields_bytes fs ++ tail → d_offset dec = length pre →
  d_length dec = (length pre + length (fields_bytes fs))%nat →
  0 < d_max_fields dec → Z.of_nat (length idx + length fs) ≤ d_max_fields dec →
  (length fs < fuel)%nat →
  ∃ dec', iter_until fuel build_index_turn (dec, idx) =
      Some (Ok (dec', idx ++ index_of (length pre) fs)) ∧
    d_mem dec' = d_mem dec ∧ d_length dec' = d_length dec ∧
    d_max_fields dec' = d_max_fields dec ∧ d_max_string_len dec' = d_max_string_len dec.
Proof.
  induction 1 as [|[[type tg] d] fs Hok Hoks IH];
    intros dec pre idx [|fuel] Hmem Hoff Hlen Hmax Hc Hfuel; try (cbn in Hfuel; lia);
    cbn [iter_until]; unfold build_index_turn at 1.
  - cbn in Hlen. unfold TLV_HEADER_SIZE. rewrite (proj2 (Nat.leb_gt _ _)) by lia.
    cbn [negb index_of]. rewrite app_nil_r. by eexists.
  - rewrite fields_bytes_cons, <- app_assoc in Hmem.
    rewrite fields_bytes_cons, length_app, tlv_bytes_length in Hlen. cbn [length] in Hc, Hfuel.
    pose proof Hok as (_ & _ & _ & Hsz). unfold TLV_HEADER_SIZE in *.
    rewrite (proj2 (Nat.leb_le _ _)) by lia. cbn [negb].
    destruct (_ && (_ >=? d_max_fields dec)) eqn:E; [lia|].
    rewrite Hmem, Hoff, read_tlv_header_at by done.
    rewrite !Z.gtb_ltb, !(proj2 (Z.ltb_ge _ _)) by lia. rewrite Nat2Z.id.
    set (dec1 := TlvDecoder _ _ _ _ _ _ _).
    destruct (IH dec1 (pre ++ tlv_bytes (type, tg, d)) (idx ++ [TlvIdxEntry tg (length pre)]) fuel)
      as (dec' & -> & Hd').
    all: rewrite ?length_app, ?tlv_bytes_length; cbn -[fields_bytes tlv_bytes];
      unfold TLV_HEADER_SIZE; try lia.
    + by rewrite <- app_assoc.
    + exists dec'. split; [|exact Hd']. cbn [index_of].
      rewrite <- app_assoc. unfold TLV_HEADER_SIZE.
      by replace (length pre + 7 + length d)%nat with (length pre + (7 + length d))%nat by lia.
Qed.

(** The tags of a list of fields. *)
Definition field_tags (fs : list tlv) : list Z := (λ f : tlv, f.1.2) <$> fs.

Lemma index_of_tags fs off : i_tag <$> index_of off fs = field_tags fs.
Proof.
  revert off. induction fs as [|[[ty tg] d] fs IH]; intros off; [done|].
  cbn. f_equal. apply IH.
Qed.

(** Reading through an index entry of [fs] gives the field it stands for. *)
Lemma index_entry_field fs tail e pre :
  Forall tlv_ok fs → NoDup (field_tags fs) → e ∈ index_of (length pre) fs →
  ∃ type len, read_tlv_header (pre ++ fields_bytes fs ++ tail) (i_buf_offset e) =
      Ok (type, i_tag e, len) ∧
    first_field (i_tag e) fs tail = Some (TlvField type (i_tag e) len
      (drop (i_buf_offset e + TLV_HEADER_SIZE) (pre ++ fields_bytes fs ++ tail))).
Proof.
  intros Hoks. revert pre. induction Hoks as [|[[ty tg] d] fs Hok Hoks IH]; intros pre Hnd He;
    cbn [index_of] in He; [by apply elem_of_nil in He|].
  apply list.NoDup_cons in Hnd as [Hni Hnd].
  rewrite fields_bytes_cons, <- app_assoc. cbn [first_field].
  apply elem_of_cons in He as [->|He]; cbn [i_tag i_buf_offset].
  - exists ty, (Z.of_nat (length d)). rewrite read_tlv_header_at by done.
    split; [done|]. rewrite Z.eqb_refl. do 2 f_equal. rewrite drop_app_ge by lia.
    by replace (length pre + TLV_HEADER_SIZE - length pre)%nat with 7%nat
      by (unfold TLV_HEADER_SIZE; lia).
  - replace (length pre + TLV_HEADER_SIZE + length d)%nat
      with (length (pre ++ tlv_bytes (ty, tg, d))) in He
      by (rewrite length_app, tlv_bytes_length; lia).
    destruct (IH _ Hnd He) as (ty' & len & Hr & Hf). rewrite <- app_assoc in Hr, Hf.
    exists ty', len. split; [done|]. destruct (Z.eqb_spec tg (i_tag e)) as [Heq|]; [|done].
    exfalso. apply Hni. cbn [fst snd]. rewrite Heq.
    change (i_tag e ∈ field_tags fs).
    rewrite <- (index_of_tags fs (length (pre ++ tlv_bytes (ty, tg, d)))).
    by apply list_elem_of_fmap_2.
Qed.

Lemma first_field_none tag fs tail off :
  (∀ e, e ∈ index_of off fs → i_tag e ≠ tag) → first_field tag fs tail = None.
Proof.
  revert off. induction fs as [|[[ty tg] d] fs IH]; intros off H; cbn; [done|].
  destruct (Z.eqb_spec tg tag) as [->|].
  - exfalso. apply (H (TlvIdxEntry tag off)); [left|done].
  - eapply IH. intros e He. apply H. right. exact He.
Qed.

Lemma idx_cmp_eq a b : idx_cmp a b = 0 ↔ i_tag a = i_tag b.
Proof.
  unfold idx_cmp. rewrite Z.gtb_ltb.
  destruct (Z.ltb_spec (i_tag b) (i_tag a)), (Z.ltb_spec (i_tag a) (i_tag b)); lia.
Qed.

(** On a buffer whose tags are distinct, the lookup through the index returns
    for every tag exactly what the linear scan returns, the absent tags included,
    whatever sorting and searching functions the C library provides. *)
Theorem find_indexed_agrees `{IndexSearchLaws} fs tail dec :
  Forall tlv_ok fs → default_limits fs → NoDup (field_tags fs) →
  tlv_decoder_create (Some (fields_bytes fs ++ tail)) (length (fields_bytes fs)) = Some dec →
  ∃ dec', tlv_decoder_build_index dec = Ok dec' ∧
    ∀ tag, tlv_decoder_find_indexed dec' tag = (tlv_find_field dec tag).2.
Proof.
  intros Hok [Hc Hl] Hnd Hdec.
  unfold tlv_decoder_create, tlv_decoder_create_with_limits in Hdec.
  destruct (Nat.eqb_spec (length (fields_bytes fs)) 0); [done|]. injection Hdec as <-.
  pose proof (fields_bytes_count fs). cbn in Hc.
  change (protocol_limits_max_fields None) with 512.
  change (protocol_limits_max_string None) with (2 ^ 20).
  set (D := TlvDecoder _ _ 0 512 (2 ^ 20) 0 None).
  unfold tlv_decoder_build_index. change (tlv_decoder_reset (set_index D None)) with D.
  destruct (build_index_turns fs tail Hok D [] [] (S (d_length D)))
    as (dec' & -> & Hm & _); cbn; try done; try lia.
  eexists; split; [done|]. intros tag. unfold tlv_decoder_find_indexed, tlv_find_field.
  cbn [tlv_decoder_reset set_index d_mem d_length d_index app length]. rewrite Hm.
  destruct (find_field_turns tag fs tail Hok D [] (S (d_length D)))
    as (dec2 & Hfind); cbn; try done; try lia. cbn in Hfind |- *. rewrite Hfind.
  destruct (bsearch (TlvIdxEntry tag 0) (qsort (index_of 0 fs))) as [e|] eqn:Hb.
  - apply bsearch_found in Hb as [He Heq%idx_cmp_eq]. cbn in Heq. subst tag.
    rewrite qsort_permutation in He.
    destruct (index_entry_field fs tail e [] Hok Hnd He) as (ty & len & Hr & ->).
    cbn in Hr. by rewrite Hr.
  - rewrite (first_field_none tag fs tail 0); [done|]. intros e He Heq.
    apply (bsearch_missing _ _ (qsort_sorted _) Hb e); [by rewrite qsort_permutation|].
    by apply idx_cmp_eq.
Qed.

(** A sorting and a searching function with the laws above. *)
#[export] Instance idx_le_dec a b : Decision (idx_cmp a b ≤ 0).
Proof. apply Z.le_dec. Defined.

#[export] Instance list_search : IndexSearch := {
  qsort := merge_sort (λ a b, idx_cmp a b ≤ 0);
  bsearch key l := List.find (λ e, idx_cmp key e =? 0) l
}.

#[export] Instance list_search_laws : IndexSearchLaws.
Proof.
  split.
  - intros l. apply merge_sort_Permutation.
  - intros l. apply Sorted_merge_sort. intros a b. unfold idx_cmp.
    rewrite !Z.gtb_ltb. destruct (Z.ltb_spec (i_tag a) (i_tag b)),
      (Z.ltb_spec (i_tag b) (i_tag a)); lia.
  - intros key l e Hf. apply List.find_some in Hf as [Hin Heq%Z.eqb_eq].
    split; [by apply list_elem_of_In|done].
  - intros key l _ Hf e He Heq. apply list_elem_of_In, (List.find_none _ l Hf) in He.
    cbn in He. by apply Z.eqb_neq in He.
Qed.

Definition sample_fields : list tlv :=
  [(TLV_UINT32, 0x20, [0; 0; 0; 9]); (TLV_STRING, 0x10, [110; 49; 0]);
   (TLV_BOOL, 0x31, [1]); (TLV_BYTES, 0x11, [])].

Lemma sample_fields_ok : Forall tlv_ok sample_fields ∧ default_limits sample_fields.
Proof.
  split; [by apply tlv_okb_ok|split; [cbn; lia|]].
  repeat (constructor; [cbn; lia|]); constructor.
Qed.

Lemma find_indexed_agrees_witness :
  ∃ dec', tlv_decoder_build_index
    (TlvDecoder (fields_bytes sample_fields ++ [1; 2; 3]) 36 0 512 (2 ^ 20) 0 None) = Ok dec' ∧
  ∀ tag, tlv_decoder_find_indexed dec' tag =
    (tlv_find_field (TlvDecoder (fields_bytes sample_fields ++ [1; 2; 3]) 36 0 512 (2 ^ 20) 0 None) tag).2.
Proof.
  apply (find_indexed_agrees sample_fields [1; 2; 3]
    (TlvDecoder (fields_bytes sample_fields ++ [1; 2; 3]) 36 0 512 (2 ^ 20) 0 None)).
  - apply sample_fields_ok.
  - apply sample_fields_ok.
  - by apply (bool_decide_unpack _); vm_compute.
  - reflexivity.
Defined.

(** ** Properties of the codec *)

(** [tlv_decode_next] on arbitrary bytes, a claimed length inside the object:
    it never reads outside of the buffer; on success the bytes it consumed are
    exactly the image of the field returned, within every limit of the decoder;
    [DISTRIC_ERR_EOF] is returned exactly at the end of the buffer. *)
Theorem tlv_decode_next_sound dec :
  decoder_wf dec →
  match tlv_decode_next dec with
  | Ok (dec', f) => ∃ d,
      f_value f = d ++ drop (d_offset dec') (d_mem dec) ∧ Z.of_nat (length d) = f_length f ∧
      drop (d_offset dec) (d_mem dec) =
        tlv_bytes (f_type f, f_tag f, d) ++ drop (d_offset dec') (d_mem dec) ∧
      (d_offset dec < d_offset dec' ≤ d_length dec)%nat ∧
      within_limits dec (f_type f, f_tag f, d)
  | Err e => e = DISTRIC_ERR_EOF ∧ (d_length dec ≤ d_offset dec)%nat ∨
      e = DISTRIC_ERR_INVALID_FORMAT ∧ (d_offset dec < d_length dec)%nat
  | Fault => False
  end.
Proof.
  intros Hwf. destruct (tlv_decode_next_cases dec Hwf)
    as [(type & tag & d & Hok & Hlim & Hfit & Heq & ->)|[[-> ?]|[-> ?]]]; [|by left|by right].
  exists d. cbn [advance f_value f_type f_tag f_length d_offset d_mem].
  split_and!; [|done|done|unfold TLV_HEADER_SIZE in *; lia|lia|done].
  rewrite <- drop_drop, Heq. unfold TLV_HEADER_SIZE. done.
Qed.

Lemma tlv_decode_next_sound_witness :
  DISTRIC_ERR_INVALID_FORMAT = DISTRIC_ERR_EOF ∧ (10 ≤ 0)%nat ∨
  DISTRIC_ERR_INVALID_FORMAT = DISTRIC_ERR_INVALID_FORMAT ∧ (0 < 10)%nat.
Proof.
  apply (tlv_decode_next_sound (TlvDecoder [3; 0; 7; 0; 0; 0; 4; 1; 2; 3] 10 0 512 1024 0 None)).
  split; [cbn; lia|by_bytes].
Defined.

(** [tlv_validate_buffer] terminates on every buffer without reading outside
    of it, and accepts exactly the concatenations of well-formed fields. *)
Theorem tlv_validate_buffer_spec mem len :
  (len ≤ length mem)%nat → bytes_ok (take len mem) →
  ∃ b, tlv_validate_buffer (Some mem) len = Ok b ∧
    (b = true ↔ ∃ fs, Forall tlv_ok fs ∧ take len mem = fields_bytes fs).
Proof.
  intros Hlen Hb. unfold tlv_validate_buffer. destruct (Nat.eqb_spec len 0) as [->|Hne].
  - exists true. split; [done|]. split; [|done]. intros _. by exists [].
  - destruct (validate_turns mem len Hlen Hb (S len) 0) as (b & -> & Hiff); [lia..|].
    by exists b.
Qed.

Lemma tlv_validate_buffer_spec_witness :
  ∃ b, tlv_validate_buffer (Some (fields_bytes sample_fields ++ [0])) 36 = Ok b ∧
    (b = true ↔ ∃ fs, Forall tlv_ok fs ∧
       take 36 (fields_bytes sample_fields ++ [0]) = fields_bytes fs).
Proof.
  apply (tlv_validate_buffer_spec (fields_bytes sample_fields ++ [0]) 36);
    [apply Nat.leb_le; reflexivity|by_bytes].
Defined.

(** Appending a list of fields to an encoder. *)
Fixpoint encode_fields (fs : list tlv) (enc : tlv_encoder) : result tlv_encoder :=
  match fs with
  | [] => Ok enc
  | (type, tag, d) :: fs =>
      enc ← tlv_encode_raw enc type tag (Some d) (length d); encode_fields fs enc
  end.

Lemma encodes_fields fs : Forall tlv_ok fs → encodes (encode_fields fs) fs.
Proof.
  induction 1 as [|[[type tag] d] fs (Hty & _ & _ & Hmax) Hoks IH]; cbn [encode_fields].
  - apply encodes_nil.
  - apply (encodes_cons (λ enc, tlv_encode_raw enc type tag (Some d) (length d)));
      [by apply encodes_full|done].
Qed.

(** A consumer that keeps every field. *)
Definition collect (f : tlv_field) (acc : list tlv) : result (list tlv) :=
  d ← memread (f_value f) 0 (Z.to_nat (f_length f));
  Ok (acc ++ [(f_type f, f_tag f, d)]).

Lemma collect_at type tag d more acc :
  collect (TlvField type tag (Z.of_nat (length d)) (d ++ more)) acc =
    Ok (acc ++ [(type, tag, d)]).
Proof.
  unfold collect. cbn [f_value f_length f_type f_tag].
  by rewrite Nat2Z.id, memread_ok, drop_0, take_app_length by (rewrite length_app; lia).
Qed.

Lemma fold_fields_collect fs tail acc :
  fold_fields collect fs tail acc = Ok (acc ++ fs).
Proof.
  revert acc. induction fs as [|[[type tag] d] fs IH]; intros acc; cbn [fold_fields].
  - by rewrite app_nil_r.
  - rewrite collect_at. cbn [mbind result_bind]. by rewrite IH, <- app_assoc.
Qed.

(** C11: whatever fields are encoded, at least one and at most 512, with values of at
    most 1 MiB (the limits [tlv_decoder_create] sets), from whatever initial capacity,
    the growable buffer holds exactly their images, passes [tlv_validate_buffer], and a decoder
    on it yields the same fields in the same order. *)
Theorem tlv_roundtrip fs cap :
  Forall tlv_ok fs → default_limits fs → fs ≠ [] →
  ∃ enc, encode_fields fs (tlv_encoder_create cap) = Ok enc ∧
    let '(buf, len) := (tlv_encoder_detach enc).1 in
    take len buf = fields_bytes fs ∧ tlv_validate_buffer (Some buf) len = Ok true ∧
    ∃ dec dec', tlv_decoder_create (Some buf) len = Some dec ∧
      decode_loop collect dec [] = Ok (dec', fs) ∧ tlv_decode_next dec' = Err DISTRIC_ERR_EOF.
Proof.
  intros Hok Hlim Hne.
  destruct (encodes_fields fs Hok (tlv_encoder_create cap)) as (enc & He & [Hl Ho] & Hc);
    [auto with distric|].
  exists enc. split; [done|]. cbn [tlv_encoder_detach fst]. unfold encoded in Hc. cbn in Hc.
  rewrite take_0, app_nil_l in Hc.
  set (len := e_offset enc) in *. set (buf := e_buffer enc) in *.
  assert (Hlen : len = length (fields_bytes fs))
    by (rewrite <- Hc, length_take; lia).
  split; [done|]. split.
  - destruct (tlv_validate_buffer_spec buf len) as (b & -> & Hb); [lia| |].
    + rewrite Hc. by apply fields_bytes_ok.
    + f_equal. apply Hb. by exists fs.
  - destruct (decode_loop_all collect fs (drop len buf) [] Hok Hlim Hne) as (dec & Hd & Hr).
    rewrite <- Hlen, <- Hc, take_drop in Hd. rewrite fold_fields_collect in Hr.
    exists dec, (advance_all dec fs). split; [done|]. split; [exact Hr|].
    apply tlv_decode_next_eof. destruct (advance_all_eq fs dec) as (_ & -> & -> & _).
    unfold tlv_decoder_create, tlv_decoder_create_with_limits in Hd.
    destruct (len =? 0)%nat; [done|]. injection Hd as <-. cbn. lia.
Qed.

Lemma tlv_roundtrip_witness :
  ∃ enc, encode_fields sample_fields (tlv_encoder_create 1) = Ok enc ∧
    let '(buf, len) := (tlv_encoder_detach enc).1 in
    take len buf = fields_bytes sample_fields ∧ tlv_validate_buffer (Some buf) len = Ok true ∧
    ∃ dec dec', tlv_decoder_create (Some buf) len = Some dec ∧
      decode_loop collect dec [] = Ok (dec', sample_fields) ∧
      tlv_decode_next dec' = Err DISTRIC_ERR_EOF.
Proof. apply (tlv_roundtrip sample_fields 1); [apply sample_fields_ok..|done]. Defined.
