(* ===== verification/WireCore.v ===== *)
(** * Message serialisation: what all messages share (libs/distric_protocol: messages.c)

    Every [serialize_*] function of messages.c creates an encoder, appends its
    fields ignoring the status of each append, and detaches the buffer; every
    [deserialize_*] function validates the buffer, decodes it field by field into
    a zeroed structure with a mask of the fields seen, and rejects the message
    when a required field is missing.  This file holds those two skeletons, the
    field-to-member assignments and the interface [WireMessage] the messages
    implement. *)

From Stdlib Require Import ZArith Lia List.
From S2P Require Import Prelude Tlv.

Local Open Scope Z_scope.

(** ** Field tags (messages.h) *)

Definition FIELD_NODE_ID : Z := 0x0002.
Definition FIELD_TIMESTAMP : Z := 0x0003.
Definition FIELD_SEQUENCE_NUMBER : Z := 0x0004.
Definition FIELD_TERM : Z := 0x0101.
Definition FIELD_CANDIDATE_ID : Z := 0x0102.
Definition FIELD_LAST_LOG_INDEX : Z := 0x0103.
Definition FIELD_LAST_LOG_TERM : Z := 0x0104.
Definition FIELD_VOTE_GRANTED : Z := 0x0105.
Definition FIELD_LEADER_ID : Z := 0x0106.
Definition FIELD_PREV_LOG_INDEX : Z := 0x0107.
Definition FIELD_PREV_LOG_TERM : Z := 0x0108.
Definition FIELD_ENTRIES : Z := 0x0109.
Definition FIELD_LEADER_COMMIT : Z := 0x010A.
Definition FIELD_SUCCESS : Z := 0x010B.
Definition FIELD_SNAPSHOT_INDEX : Z := 0x010C.
Definition FIELD_SNAPSHOT_TERM : Z := 0x010D.
Definition FIELD_SNAPSHOT_DATA : Z := 0x010E.
Definition FIELD_MATCH_INDEX : Z := 0x010F.
Definition FIELD_ENTRY_INDEX : Z := 0x0110.
Definition FIELD_ENTRY_TERM : Z := 0x0111.
Definition FIELD_ENTRY_TYPE : Z := 0x0112.
Definition FIELD_ENTRY_DATA : Z := 0x0113.
Definition FIELD_CONFIG_CHANGE_TYPE : Z := 0x0120.
Definition FIELD_NODE_TO_ADD : Z := 0x0121.
Definition FIELD_NODE_TO_REMOVE : Z := 0x0122.
Definition FIELD_NEW_SERVERS : Z := 0x0123.
Definition FIELD_OLD_SERVERS : Z := 0x0124.
Definition FIELD_INCARNATION : Z := 0x0201.
Definition FIELD_NODE_STATE : Z := 0x0202.
Definition FIELD_NODE_ADDRESS : Z := 0x0203.
Definition FIELD_NODE_PORT : Z := 0x0204.
Definition FIELD_NODE_ROLE : Z := 0x0205.
Definition FIELD_SUSPECT_NODE_ID : Z := 0x0206.
Definition FIELD_PING_TARGET_ID : Z := 0x0207.
Definition FIELD_INDIRECT_TARGET_ID : Z := 0x0208.
Definition FIELD_MEMBERSHIP_UPDATES : Z := 0x0209.
Definition FIELD_PROTOCOL_VERSION : Z := 0x020A.
Definition FIELD_METADATA : Z := 0x020B.
Definition FIELD_NODE_INFO : Z := 0x020C.
Definition FIELD_TARGET_ID : Z := FIELD_INDIRECT_TARGET_ID.
Definition FIELD_CPU_USAGE : Z := 0x0220.
Definition FIELD_MEMORY_USAGE : Z := 0x0221.
Definition FIELD_TASK_ID : Z := 0x0301.
Definition FIELD_WORKFLOW_ID : Z := 0x0302.
Definition FIELD_TASK_TYPE : Z := 0x0303.
Definition FIELD_TASK_CONFIG : Z := 0x0304.
Definition FIELD_TASK_INPUT : Z := 0x0305.
Definition FIELD_TASK_OUTPUT : Z := 0x0306.
Definition FIELD_TASK_STATUS : Z := 0x0307.
Definition FIELD_TASK_ERROR : Z := 0x0308.
Definition FIELD_TIMEOUT_SEC : Z := 0x0309.
Definition FIELD_RETRY_COUNT : Z := 0x030A.
Definition FIELD_WORKER_ID : Z := 0x030B.
Definition FIELD_STARTED_AT : Z := 0x030C.
Definition FIELD_COMPLETED_AT : Z := 0x030D.
Definition FIELD_EXIT_CODE : Z := 0x030E.
Definition FIELD_MESSAGE_ID : Z := 0x0401.
Definition FIELD_EVENT_TYPE : Z := 0x0402.
Definition FIELD_MESSAGE_PAYLOAD : Z := 0x0403.
Definition FIELD_RESPONSE_CODE : Z := 0x0404.
Definition FIELD_RESPONSE_MESSAGE : Z := 0x0405.
Definition FIELD_WORKFLOWS_TRIGGERED : Z := 0x0406.
Definition FIELD_TRIGGERED : Z := FIELD_WORKFLOWS_TRIGGERED.
Definition FIELD_ERROR_CODE : Z := 0x0407.
Definition FIELD_ERROR_DETAILS : Z := 0x0408.
Definition FIELD_QUERY_TYPE : Z := 0x0409.
Definition FIELD_QUERY_PARAMS : Z := 0x040A.

(** ** Serialisation *)

(** [tlv_encode_* (enc, ...);] as a statement: the status is dropped, and a failed
    append leaves the encoder as it was. *)
Definition put (k : tlv_encoder → result tlv_encoder) (enc : tlv_encoder)
    : result tlv_encoder :=
  match k enc with
  | Err _ => Ok enc
  | r => r
  end.

Definition put_uint8 (tag v : Z) := put (λ enc, tlv_encode_uint8 enc tag v).
Definition put_uint32 (tag v : Z) := put (λ enc, tlv_encode_uint32 enc tag v).
Definition put_uint64 (tag v : Z) := put (λ enc, tlv_encode_uint64 enc tag v).
Definition put_int32 (tag v : Z) := put (λ enc, tlv_encode_int32 enc tag v).
Definition put_bool (tag : Z) (v : bool) := put (λ enc, tlv_encode_bool enc tag v).
Definition put_string (tag : Z) (s : list Z) := put (λ enc, tlv_encode_string enc tag (Some s)).
Definition put_bytes (tag : Z) (d : list Z) (len : nat) :=
  put (λ enc, tlv_encode_bytes enc tag (Some d) len).

(** [if (s) tlv_encode_string (...)] *)
Definition put_opt_string (tag : Z) (s : option (list Z)) (enc : tlv_encoder)
    : result tlv_encoder :=
  match s with Some s => put_string tag s enc | None => Ok enc end.

(** [if (d && len > 0) tlv_encode_bytes (...)] *)
Definition put_opt_bytes (tag : Z) (d : option (list Z)) (len : nat) (enc : tlv_encoder)
    : result tlv_encoder :=
  match d with
  | Some d => if (0 <? len)%nat then put_bytes tag d len enc else Ok enc
  | None => Ok enc
  end.

(** [for (i = 0; i < n; i++) ...] over the elements of an array. *)
Fixpoint put_list {A} (k : A → tlv_encoder → result tlv_encoder) (l : list A)
    (enc : tlv_encoder) : result tlv_encoder :=
  match l with
  | [] => Ok enc
  | a :: l => enc ← k a enc; put_list k l enc
  end.

(** Create an encoder, fill it, detach its buffer. *)
Definition serialize_with (cap : nat) (k : tlv_encoder → result tlv_encoder)
    : result (list Z * nat) :=
  enc ← k (tlv_encoder_create cap); Ok (tlv_encoder_detach enc).1.

(** A nested encoder whose buffer becomes one BYTES field. *)
Definition put_nested (tag : Z) (cap : nat) (k : tlv_encoder → result tlv_encoder)
    (enc : tlv_encoder) : result tlv_encoder :=
  '(buf, len) ← serialize_with cap k; put_bytes tag buf len enc.

(** ** Deserialisation *)

(** [const char *s = tlv_field_get_string (&field);
    if (s) strncpy (dst, s, sizeof (dst) - 1);] *)
Definition get_strncpy (n : nat) (field : tlv_field) (old : list Z) : result (list Z) :=
  match tlv_field_get_string field with
  | Some s => strncpy_read n s
  | None => Ok old
  end.

(** [if (s) dst = strdup (s);] *)
Definition get_strdup (field : tlv_field) (old : option (list Z)) : result (option (list Z)) :=
  match tlv_field_get_string field with
  | Some s => s ← strdup_read s; Ok (Some s)
  | None => Ok old
  end.

(** [d = tlv_field_get_bytes (&field, &dlen); if (d && dlen > 0) { ... memcpy ... }]:
    the member pointer and its length. *)
Definition get_bytes_copy (field : tlv_field) (old : option (list Z) * nat)
    : result (option (list Z) * nat) :=
  match tlv_field_get_bytes field with
  | (Some d, dlen) =>
      if dlen >? 0 then
        copy ← memread d 0 (Z.to_nat dlen); Ok (Some copy, Z.to_nat dlen)
      else Ok old
  | (None, _) => Ok old
  end.

(** A nested decoder over the value of [field]; nothing happens when it cannot be
    created, that is when the field is empty. *)
Definition decode_nested {A} (step : tlv_field → A → result A) (field : tlv_field) (a : A)
    : result A :=
  match tlv_decoder_create (Some (f_value field)) (Z.to_nat (f_length field)) with
  | None => Ok a
  | Some nd => '(_, a) ← decode_loop step nd a; Ok a
  end.

(** The guards in front, a first pass over the fields that computes [c] from [c0]
    (for messages with arrays: their lengths), the decoding pass from the zeroed
    message and the [CHECK_REQUIRED] test of the [seen] mask. *)
Definition deserialize_with {M C} (zero : M) (required : Z) (c0 : C)
    (count : tlv_field → C → result C)
    (step : C → tlv_field → M * Z → result (M * Z))
    (buffer : option (list Z)) (len : nat) : result M :=
  match buffer with
  | None => Err DISTRIC_ERR_INVALID_ARG
  | Some buf =>
      if (len =? 0)%nat then Err DISTRIC_ERR_INVALID_ARG else
      valid ← tlv_validate_buffer (Some buf) len;
      if negb valid then Err DISTRIC_ERR_INVALID_FORMAT else
      match tlv_decoder_create (Some buf) len with
      | None => Err DISTRIC_ERR_NO_MEMORY
      | Some dec =>
          '(dec, c) ← decode_loop count dec c0;
          '(_, (msg, seen)) ← decode_loop (step c) (tlv_decoder_reset dec) (zero, 0);
          if negb (Z.land seen required =? required) then Err DISTRIC_ERR_INVALID_FORMAT
          else Ok msg
      end
  end.

(** Messages without arrays: a single pass. *)
Definition deserialize_once {M} (zero : M) (required : Z)
    (step : tlv_field → M * Z → result (M * Z))
    (buffer : option (list Z)) (len : nat) : result M :=
  match buffer with
  | None => Err DISTRIC_ERR_INVALID_ARG
  | Some buf =>
      if (len =? 0)%nat then Err DISTRIC_ERR_INVALID_ARG else
      valid ← tlv_validate_buffer (Some buf) len;
      if negb valid then Err DISTRIC_ERR_INVALID_FORMAT else
      match tlv_decoder_create (Some buf) len with
      | None => Err DISTRIC_ERR_NO_MEMORY
      | Some dec =>
          '(_, (msg, seen)) ← decode_loop step dec (zero, 0);
          if negb (Z.land seen required =? required) then Err DISTRIC_ERR_INVALID_FORMAT
          else Ok msg
      end
  end.

(** ** The interface of a wire message *)

(** [wire_range]: the members are in the ranges of their C types.
    [wire_fits]: the encoding respects the default limits of the decoder. *)
Class WireMessage (M : Type) := {
  wire_range : M → Prop;
  wire_fits : M → Prop;
  serialize : M → result (list Z * nat);
  deserialize : option (list Z) → nat → result M
}.

(** A buffer object that claims [len] of its bytes and has a NUL after them. *)
Definition terminated (mem : list Z) (len : nat) : Prop :=
  (len ≤ length mem)%nat ∧ bytes_ok mem ∧ 0 ∈ drop len mem.

Class WireMessageLaws (M : Type) `{WireMessage M} : Prop := {
  wire_roundtrip m :
    wire_range m → wire_fits m →
    ∃ buf len, serialize m = Ok (buf, len) ∧ (len ≤ length buf)%nat ∧
      ∀ tail, deserialize (Some (take len buf ++ tail)) len = Ok m;
  wire_total mem len :
    terminated mem len →
    match deserialize (Some mem) len with
    | Ok m => wire_range m
    | Err e => e = DISTRIC_ERR_INVALID_FORMAT ∨ len = 0%nat ∧ e = DISTRIC_ERR_INVALID_ARG
    | Fault => False
    end
}.

(** A C string that fits a [char] array of [n + 1] bytes. *)
Definition cstr_fits (n : nat) (s : list Z) : Prop := cstr_ok s ∧ (length s ≤ n)%nat.

(** ** Serialisation lemmas *)

Lemma encodes_put k fs : encodes k fs → encodes (put k) fs.
Proof.
  intros H enc Hwf. destruct (H enc Hwf) as (enc' & Hk & ?). exists enc'.
  unfold put. by rewrite Hk.
Qed.

Lemma encodes_put_uint8 tag v : encodes (put_uint8 tag v) [(TLV_UINT8, tag, [v])].
Proof. apply encodes_put, encodes_uint8. Qed.
Lemma encodes_put_uint32 tag v : encodes (put_uint32 tag v) [(TLV_UINT32, tag, be_bytes 4 v)].
Proof. apply encodes_put, encodes_uint32. Qed.
Lemma encodes_put_uint64 tag v : encodes (put_uint64 tag v) [(TLV_UINT64, tag, be_bytes 8 v)].
Proof. apply encodes_put, encodes_uint64. Qed.
Lemma encodes_put_int32 tag v :
  encodes (put_int32 tag v) [(TLV_INT32, tag, be_bytes 4 (u32 v))].
Proof. apply encodes_put, encodes_int32. Qed.
Lemma encodes_put_bool tag (v : bool) :
  encodes (put_bool tag v) [(TLV_BOOL, tag, [if v then 1 else 0])].
Proof. apply encodes_put, encodes_bool. Qed.
Lemma encodes_put_string tag s :
  Z.of_nat (length s) < TLV_MAX_FIELD_SIZE →
  encodes (put_string tag s) [(TLV_STRING, tag, s ++ [0])].
Proof. intros. by apply encodes_put, encodes_string. Qed.

Lemma encodes_put_bytes tag d len :
  (len ≤ length d)%nat → Z.of_nat len ≤ TLV_MAX_FIELD_SIZE →
  encodes (put_bytes tag d len) [(TLV_BYTES, tag, take len d)].
Proof.
  intros. apply encodes_put, encodes_raw; [done..|vm_compute; split; congruence].
Qed.

(** The fields of the optional members. *)
Definition opt_string_fields (tag : Z) (s : option (list Z)) : list tlv :=
  match s with Some s => [(TLV_STRING, tag, s ++ [0])] | None => [] end.
Definition opt_bytes_fields (tag : Z) (d : option (list Z)) : list tlv :=
  match d with Some d => [(TLV_BYTES, tag, d)] | None => [] end.

Lemma encodes_put_opt_string tag s :
  (∀ s', s = Some s' → Z.of_nat (length s') < TLV_MAX_FIELD_SIZE) →
  encodes (put_opt_string tag s) (opt_string_fields tag s).
Proof.
  destruct s; intros H; cbn; [apply encodes_put_string; eauto|apply encodes_nil].
Qed.

(** A pointer and a length that describe one non-empty block, or no block. *)
Definition block_ok (d : option (list Z)) (len : nat) : Prop :=
  match d with
  | Some d => length d = len ∧ (0 < len)%nat ∧ bytes_ok d
  | None => len = 0%nat
  end.

Lemma encodes_put_opt_bytes tag d len :
  block_ok d len → Z.of_nat len ≤ TLV_MAX_FIELD_SIZE →
  encodes (put_opt_bytes tag d len) (opt_bytes_fields tag d).
Proof.
  destruct d as [d|]; intros Hb Hl; [|apply encodes_nil].
  destruct Hb as (<- & Hpos & _). intros enc Hwf. unfold put_opt_bytes.
  rewrite (proj2 (Nat.ltb_lt _ _) Hpos).
  pose proof (encodes_put_bytes tag d (length d)) as H. rewrite firstn_all in H.
  by apply H.
Qed.

Lemma encodes_put_list {A} (k : A → tlv_encoder → result tlv_encoder) fs l :
  (∀ a, a ∈ l → encodes (k a) [fs a]) → encodes (put_list k l) (map fs l).
Proof.
  induction l as [|a l IH]; intros H; cbn; [apply encodes_nil|].
  apply (encodes_cons (k a)); [apply H; left|]. apply IH. intros a' Ha'. apply H. by right.
Qed.

Lemma serialize_with_fields cap k fs :
  encodes k fs → ∃ buf, serialize_with cap k = Ok (buf, length (fields_bytes fs)) ∧
    take (length (fields_bytes fs)) buf = fields_bytes fs.
Proof.
  intros H. destruct (H (tlv_encoder_create cap)) as (enc & Hk & [Hl Ho] & Hc);
    [auto with distric|].
  unfold encoded in Hc. cbn [e_offset tlv_encoder_create] in Hc. rewrite take_0, app_nil_l in Hc.
  assert (Hlen : length (fields_bytes fs) = e_offset enc) by (rewrite <- Hc, length_take; lia).
  exists (e_buffer enc). unfold serialize_with. rewrite Hk, Hlen. done.
Qed.

Lemma encodes_put_nested tag cap k fs :
  encodes k fs → Z.of_nat (length (fields_bytes fs)) ≤ TLV_MAX_FIELD_SIZE →
  encodes (put_nested tag cap k) [(TLV_BYTES, tag, fields_bytes fs)].
Proof.
  intros H Hmax. destruct (serialize_with_fields cap k fs H) as (buf & Hs & Hb).
  assert (Hle : (length (fields_bytes fs) ≤ length buf)%nat).
  { apply (f_equal length) in Hb. rewrite length_take in Hb. lia. }
  pose proof (encodes_put_bytes tag buf _ Hle Hmax) as Hput. rewrite Hb in Hput.
  intros enc Hwf. unfold put_nested. rewrite Hs. by apply Hput.
Qed.

#[export] Hint Resolve encodes_put_uint8 encodes_put_uint32 encodes_put_uint64
  encodes_put_int32 encodes_put_bool encodes_put_string encodes_put_opt_string
  encodes_put_opt_bytes encodes_put_list encodes_put_nested encodes_cons encodes_bind : distric.

(** ** Deserialisation of an encoded message *)

Lemma deserialize_once_fields {M} (zero : M) required step fs tail :
  Forall tlv_ok fs → default_limits fs → fs ≠ [] →
  deserialize_once zero required step (Some (fields_bytes fs ++ tail))
    (length (fields_bytes fs)) =
  ('(msg, seen) ← fold_fields step fs tail (zero, 0);
   if negb (Z.land seen required =? required) then Err DISTRIC_ERR_INVALID_FORMAT
   else Ok msg).
Proof.
  intros Hok Hlim Hne. unfold deserialize_once.
  destruct (decode_loop_all step fs tail (zero, 0) Hok Hlim Hne) as (dec & Hd & Hl).
  rewrite Hd, Hl. unfold tlv_decoder_create, tlv_decoder_create_with_limits in Hd.
  destruct (length (fields_bytes fs) =? 0)%nat; [done|].
  destruct (tlv_validate_buffer_spec (fields_bytes fs ++ tail) (length (fields_bytes fs)))
    as (b & -> & Hb).
  - rewrite length_app. lia.
  - rewrite take_app_length. by apply fields_bytes_ok.
  - replace b with true by (symmetry; apply Hb; exists fs; by rewrite take_app_length).
    cbn [mbind result_bind negb]. by destruct (fold_fields step fs tail (zero, 0)) as [[]| |].
Qed.

Lemma deserialize_with_fields {M C} (zero : M) required (c0 : C) count step fs tail :
  Forall tlv_ok fs → default_limits fs → fs ≠ [] →
  deserialize_with zero required c0 count step (Some (fields_bytes fs ++ tail))
    (length (fields_bytes fs)) =
  (c ← fold_fields count fs tail c0;
   '(msg, seen) ← fold_fields (step c) fs tail (zero, 0);
   if negb (Z.land seen required =? required) then Err DISTRIC_ERR_INVALID_FORMAT
   else Ok msg).
Proof.
  intros Hok Hlim Hne. unfold deserialize_with.
  destruct (decode_loop_all count fs tail c0 Hok Hlim Hne) as (dec & Hd & Hl).
  rewrite Hd, Hl. pose proof Hd as Hd'.
  unfold tlv_decoder_create, tlv_decoder_create_with_limits in Hd'.
  destruct (length (fields_bytes fs) =? 0)%nat; [done|].
  destruct (tlv_validate_buffer_spec (fields_bytes fs ++ tail) (length (fields_bytes fs)))
    as (b & -> & Hb).
  - rewrite length_app. lia.
  - rewrite take_app_length. by apply fields_bytes_ok.
  - replace b with true by (symmetry; apply Hb; exists fs; by rewrite take_app_length).
    cbn [mbind result_bind negb].
    destruct (fold_fields count fs tail c0) as [c| |]; [|done..]. cbn [mbind result_bind].
    rewrite reset_advance_all. replace (tlv_decoder_reset dec) with dec
      by (by injection Hd' as <-).
    destruct (decode_loop_all (step c) fs tail (zero, 0) Hok Hlim Hne) as (dec2 & Hd2 & Hl2).
    rewrite Hd in Hd2. injection Hd2 as <-. rewrite Hl2.
    by destruct (fold_fields (step c) fs tail (zero, 0)) as [[]| |].
Qed.

(** ** Reading back a field that was written *)

Lemma field_get_be_written type n tag v more :
  0 ≤ v < 256 ^ Z.of_nat n →
  field_get_be type n (TlvField type tag (Z.of_nat (length (be_bytes n v)))
    (be_bytes n v ++ more)) = Ok v.
Proof.
  intros Hv. unfold field_get_be. cbn [f_type f_length f_value].
  rewrite Z.eqb_refl, be_bytes_length, Z.ltb_irrefl. cbn [negb orb].
  rewrite memread_ok by (rewrite length_app, be_bytes_length; lia).
  rewrite drop_0, take_app_length' by (symmetry; apply be_bytes_length).
  cbn [mbind result_bind]. by rewrite be_val_bytes, Z.mod_small.
Qed.

Lemma get_uint32_written tag v more :
  is_u32 v → tlv_field_get_uint32 (TlvField TLV_UINT32 tag
    (Z.of_nat (length (be_bytes 4 v))) (be_bytes 4 v ++ more)) = Ok v.
Proof. intros. by apply field_get_be_written. Qed.

Lemma get_uint64_written tag v more :
  is_u64 v → tlv_field_get_uint64 (TlvField TLV_UINT64 tag
    (Z.of_nat (length (be_bytes 8 v))) (be_bytes 8 v ++ more)) = Ok v.
Proof. intros. by apply field_get_be_written. Qed.

Lemma get_uint8_written tag v more :
  is_u8 v → tlv_field_get_uint8 (TlvField TLV_UINT8 tag (Z.of_nat (length [v])) ([v] ++ more)) = Ok v.
Proof.
  intros Hv. unfold tlv_field_get_uint8, field_get_be. cbn. by destruct v.
Qed.

Lemma get_int32_written tag v more :
  is_s32 v → tlv_field_get_int32 (TlvField TLV_INT32 tag
    (Z.of_nat (length (be_bytes 4 (u32 v)))) (be_bytes 4 (u32 v) ++ more)) = Ok v.
Proof.
  intros Hv. unfold tlv_field_get_int32. rewrite field_get_be_written by apply u32_range.
  cbn [mbind result_bind]. by rewrite s32_u32.
Qed.

Lemma get_bool_written tag (v : bool) more :
  tlv_field_get_bool (TlvField TLV_BOOL tag (Z.of_nat (length [if v then 1 else 0]))
    ([if v then 1 else 0] ++ more)) = Ok v.
Proof. by destruct v. Qed.

Lemma get_string_written tag s more :
  tlv_field_get_string (TlvField TLV_STRING tag (Z.of_nat (length (s ++ [0])))
    ((s ++ [0]) ++ more)) = Some (s ++ 0 :: more).
Proof.
  unfold tlv_field_get_string. cbn [f_type f_length f_value].
  rewrite length_app. destruct (Z.eqb_spec (Z.of_nat (length s + length [0])) 0);
    [cbn in *; lia|]. by rewrite Z.eqb_refl, <- app_assoc.
Qed.

Lemma get_strncpy_written n tag s more old :
  cstr_fits n s →
  get_strncpy n (TlvField TLV_STRING tag (Z.of_nat (length (s ++ [0])))
    ((s ++ [0]) ++ more)) old = Ok s.
Proof.
  intros [Hs Hn]. unfold get_strncpy. rewrite get_string_written.
  by apply strncpy_read_fit.
Qed.

Lemma get_strdup_written tag s more old :
  cstr_ok s →
  get_strdup (TlvField TLV_STRING tag (Z.of_nat (length (s ++ [0])))
    ((s ++ [0]) ++ more)) old = Ok (Some s).
Proof.
  intros Hs. unfold get_strdup. rewrite get_string_written.
  by rewrite strdup_read_app.
Qed.

Lemma get_bytes_copy_written tag d more old :
  (0 < length d)%nat →
  get_bytes_copy (TlvField TLV_BYTES tag (Z.of_nat (length d)) (d ++ more)) old =
    Ok (Some d, length d).
Proof.
  intros Hd. unfold get_bytes_copy, tlv_field_get_bytes. cbn [f_type f_length f_value].
  rewrite Z.eqb_refl. cbn [negb]. rewrite Z.gtb_ltb, (proj2 (Z.ltb_lt _ _)) by lia.
  rewrite Nat2Z.id, memread_ok by (rewrite length_app; lia).
  by rewrite drop_0, take_app_length.
Qed.

Lemma decode_nested_written {A} (step : tlv_field → A → result A) type tag fs more a :
  Forall tlv_ok fs → default_limits fs → fs ≠ [] →
  decode_nested step (TlvField type tag (Z.of_nat (length (fields_bytes fs)))
    (fields_bytes fs ++ more)) a = fold_fields step fs more a.
Proof.
  intros Hok Hlim Hne. unfold decode_nested. cbn [f_value f_length]. rewrite Nat2Z.id.
  destruct (decode_loop_all step fs more a Hok Hlim Hne) as (dec & -> & ->).
  by destruct (fold_fields step fs more a).
Qed.

(** ** Reading any field safely *)

(** The value lies in its object and a NUL follows it somewhere. *)
Definition safe_field (f : tlv_field) : Prop :=
  0 ≤ f_length f ∧ terminated (f_value f) (Z.to_nat (f_length f)).

Lemma terminated_drop mem len off n :
  terminated mem len → (off + n ≤ len)%nat → terminated (drop off mem) n.
Proof.
  intros (Hlen & Hb & Hnul) Hn. split; [rewrite length_drop; lia|].
  split; [by apply Forall_drop|]. rewrite drop_drop.
  replace len with (off + n + (len - off - n))%nat in Hnul by lia.
  rewrite <- drop_drop in Hnul. rewrite <- (take_drop (len - off - n) (drop (off + n) mem)).
  apply elem_of_app. by right.
Qed.

Lemma field_in_safe dec f :
  terminated (d_mem dec) (d_length dec) → field_in dec f → safe_field f.
Proof.
  intros Ht (off & Hv & H0 & _ & Hfit). split; [done|]. rewrite Hv.
  by eapply terminated_drop.
Qed.

Lemma strncpy_read_total n s : bytes_ok s → 0 ∈ s →
  ∃ r, strncpy_read n s = Ok r ∧ cstr_fits n r.
Proof.
  intros Hb Hin. cut (∃ r, strncpy_read n s = Ok r).
  { intros [r Hr]. exists r. split; [done|]. apply strncpy_read_ok in Hr as [? H]. by split; auto. }
  clear Hb. revert s Hin. induction n as [|n IH]; intros s Hin; [by eexists|].
  destruct s as [|c s]; [by apply elem_of_nil in Hin|]. cbn.
  destruct (Z.eqb_spec c 0); [by eexists|].
  apply elem_of_cons in Hin as [?|Hin]; [congruence|].
  destruct (IH s Hin) as [r ->]. by eexists.
Qed.

Lemma strdup_read_total s : bytes_ok s → 0 ∈ s → ∃ r, strdup_read s = Ok r ∧ cstr_ok r.
Proof.
  induction 1 as [|c s Hc Hs IH]; intros Hin; [by apply elem_of_nil in Hin|]. cbn.
  destruct (Z.eqb_spec c 0); [by exists []; repeat constructor|].
  apply elem_of_cons in Hin as [?|Hin]; [congruence|].
  destruct (IH Hin) as (r & -> & Hr). exists (c :: r). split; [done|].
  constructor; [unfold is_u8 in Hc; lia|done].
Qed.

Lemma terminated_nul mem len : terminated mem len → 0 ∈ mem.
Proof.
  intros (_ & _ & H). rewrite <- (take_drop len mem). apply elem_of_app. by right.
Qed.

Lemma field_get_be_total type n f :
  safe_field f → ∃ v, field_get_be type n f = Ok v ∧ 0 ≤ v < 256 ^ Z.of_nat n.
Proof.
  intros (H0 & Hlen & Hb & _). unfold field_get_be.
  assert (0 < 256 ^ Z.of_nat n) by (apply Z.pow_pos_nonneg; lia).
  destruct (_ || _) eqn:E; [by exists 0; split; [|lia]|].
  rewrite memread_ok by lia. cbn [mbind result_bind]. eexists; split; [done|].
  pose proof (be_val_bound (take n (drop 0 (f_value f)))) as Hv.
  rewrite length_take_le in Hv by (rewrite drop_0; lia).
  apply Hv. by apply Forall_take, Forall_drop.
Qed.

Lemma get_uint32_total f : safe_field f → ∃ v, tlv_field_get_uint32 f = Ok v ∧ is_u32 v.
Proof. apply field_get_be_total. Qed.
Lemma get_uint64_total f : safe_field f → ∃ v, tlv_field_get_uint64 f = Ok v ∧ is_u64 v.
Proof. apply field_get_be_total. Qed.
Lemma get_uint8_total f : safe_field f → ∃ v, tlv_field_get_uint8 f = Ok v ∧ is_u8 v.
Proof. apply field_get_be_total. Qed.
Lemma get_int32_total f : safe_field f → ∃ v, tlv_field_get_int32 f = Ok v ∧ is_s32 v.
Proof.
  intros Hf. unfold tlv_field_get_int32.
  destruct (field_get_be_total TLV_INT32 4 f Hf) as (v & -> & Hv). cbn [mbind result_bind].
  eexists; split; [done|]. unfold s32. rewrite u32_id by done.
  destruct (Z.ltb_spec v (2 ^ 31)); cbn in Hv; ulia.
Qed.
Lemma get_bool_total f : safe_field f → ∃ v, tlv_field_get_bool f = Ok v.
Proof.
  intros Hf. unfold tlv_field_get_bool.
  destruct (field_get_be_total TLV_BOOL 1 f Hf) as (v & -> & _). by eexists.
Qed.

Lemma get_string_safe f s :
  safe_field f → tlv_field_get_string f = Some s → bytes_ok s ∧ 0 ∈ s.
Proof.
  intros (_ & Ht). unfold tlv_field_get_string. destruct (_ || _); [done|].
  intros [= <-]. split; [apply Ht|by eapply terminated_nul].
Qed.

Lemma get_strncpy_total n f old :
  safe_field f → cstr_fits n old → ∃ s, get_strncpy n f old = Ok s ∧ cstr_fits n s.
Proof.
  intros Hf Hold. unfold get_strncpy.
  destruct (tlv_field_get_string f) as [s|] eqn:E; [|by exists old].
  apply get_string_safe in E as []; [|done]. by apply strncpy_read_total.
Qed.

(** The pointer members: NULL or a C string. *)
Definition opt_cstr_ok (s : option (list Z)) : Prop :=
  match s with Some s => cstr_ok s | None => True end.

Lemma get_strdup_total f old :
  safe_field f → opt_cstr_ok old → ∃ s, get_strdup f old = Ok s ∧ opt_cstr_ok s.
Proof.
  intros Hf Hold. unfold get_strdup.
  destruct (tlv_field_get_string f) as [s|] eqn:E; [|by exists old].
  apply get_string_safe in E as [Hb Hin]; [|done].
  destruct (strdup_read_total s Hb Hin) as (r & -> & Hr). by exists (Some r).
Qed.

Lemma get_bytes_copy_total f old len :
  safe_field f → block_ok old len →
  ∃ d n, get_bytes_copy f (old, len) = Ok (d, n) ∧ block_ok d n.
Proof.
  intros (H0 & Hlen & Hb & _) Hold. unfold get_bytes_copy, tlv_field_get_bytes.
  destruct (negb _); [by exists old, len|].
  destruct (f_length f >? 0) eqn:E; [|by exists old, len].
  rewrite memread_ok by lia. cbn [mbind result_bind]. do 2 eexists. split; [done|].
  cbn [block_ok]. rewrite drop_0, length_take_le by lia.
  split; [done|]. split; [lia|]. by apply Forall_take.
Qed.

Lemma decode_loop_safe {St} (step : tlv_field → St → result St) (I : St → Prop) dec s :
  terminated (d_mem dec) (d_length dec) →
  (∀ f s, safe_field f → I s → ∃ s', step f s = Ok s' ∧ I s') → I s →
  ∃ dec' s', decode_loop step dec s = Ok (dec', s') ∧ I s' ∧
    d_mem dec' = d_mem dec ∧ d_length dec' = d_length dec.
Proof.
  intros Ht Hstep HI. apply (decode_loop_total step I dec s); [|intros f s' Hf HI'|done].
  - by destruct Ht as (? & ? & _).
  - apply Hstep; [by eapply field_in_safe|done].
Qed.

Lemma tlv_decoder_create_some mem len dec :
  tlv_decoder_create (Some mem) len = Some dec →
  d_mem dec = mem ∧ d_length dec = len.
Proof.
  unfold tlv_decoder_create, tlv_decoder_create_with_limits.
  destruct (len =? 0)%nat; [done|]. by intros [= <-].
Qed.

Lemma decode_nested_total {A} (step : tlv_field → A → result A) (I : A → Prop) f a :
  safe_field f → (∀ f a, safe_field f → I a → ∃ a', step f a = Ok a' ∧ I a') → I a →
  ∃ a', decode_nested step f a = Ok a' ∧ I a'.
Proof.
  intros [_ Ht] Hstep HI. unfold decode_nested.
  destruct (tlv_decoder_create _ _) as [nd|] eqn:E; [|by exists a].
  apply tlv_decoder_create_some in E as [Hm Hl].
  destruct (decode_loop_safe step I nd a) as (dec' & a' & -> & HI' & _);
    [by rewrite Hm, Hl|done|done|]. by exists a'.
Qed.

(** What [wire_total] asks of a [deserialize] function, for the two skeletons. *)
Definition total_result {M} (R : M → Prop) (len : nat) (r : result M) : Prop :=
  match r with
  | Ok m => R m
  | Err e => e = DISTRIC_ERR_INVALID_FORMAT ∨ len = 0%nat ∧ e = DISTRIC_ERR_INVALID_ARG
  | Fault => False
  end.

Lemma deserialize_with_total {M C} (R : M → Prop) zero required (c0 : C) count step mem len :
  R zero → (∀ f c, safe_field f → ∃ c', count f c = Ok c') →
  (∀ c f m seen, safe_field f → R m → ∃ m' seen', step c f (m, seen) = Ok (m', seen') ∧ R m') →
  terminated mem len →
  total_result R len (deserialize_with zero required c0 count step (Some mem) len).
Proof.
  intros Hz Hcount Hstep Ht. unfold deserialize_with.
  destruct (Nat.eqb_spec len 0) as [->|Hne]; [by right|].
  destruct (tlv_validate_buffer_spec mem len) as ([] & -> & _);
    [by destruct Ht|by apply Forall_take; destruct Ht as (_ & ? & _)|..]; cbn [mbind result_bind negb]; [|by left].
  destruct (tlv_decoder_create (Some mem) len) as [dec|] eqn:E.
  2:{ unfold tlv_decoder_create, tlv_decoder_create_with_limits in E.
      by destruct (Nat.eqb_spec len 0). }
  apply tlv_decoder_create_some in E as [Hm Hl].
  destruct (decode_loop_safe count (λ _, True) dec c0) as (dec' & c & -> & _ & Hm' & Hl');
    [by rewrite Hm, Hl|intros f c Hf _; destruct (Hcount f c Hf) as [c' ->]; by exists c'|done|].
  cbn [mbind result_bind].
  destruct (decode_loop_safe (step c) (λ st, R st.1) (tlv_decoder_reset dec') (zero, 0))
    as (dec2 & [m seen] & -> & HR & _).
  - cbn. by rewrite Hm', Hl', Hm, Hl.
  - intros f [m seen] Hf HR. destruct (Hstep c f m seen Hf HR) as (m' & seen' & -> & HR').
    by exists (m', seen').
  - done.
  - cbn [mbind result_bind]. destruct (negb _); [by left|exact HR].
Qed.

Lemma deserialize_once_total {M} (R : M → Prop) zero required step mem len :
  R zero →
  (∀ f m seen, safe_field f → R m → ∃ m' seen', step f (m, seen) = Ok (m', seen') ∧ R m') →
  terminated mem len →
  total_result R len (deserialize_once zero required step (Some mem) len).
Proof.
  intros Hz Hstep Ht. unfold deserialize_once.
  destruct (Nat.eqb_spec len 0) as [->|Hne]; [by right|].
  destruct (tlv_validate_buffer_spec mem len) as ([] & -> & _);
    [by destruct Ht|by apply Forall_take; destruct Ht as (_ & ? & _)|..]; cbn [mbind result_bind negb]; [|by left].
  destruct (tlv_decoder_create (Some mem) len) as [dec|] eqn:E.
  2:{ unfold tlv_decoder_create, tlv_decoder_create_with_limits in E.
      by destruct (Nat.eqb_spec len 0). }
  apply tlv_decoder_create_some in E as [Hm Hl].
  destruct (decode_loop_safe step (λ st, R st.1) dec (zero, 0))
    as (dec2 & [m seen] & -> & HR & _).
  - by rewrite Hm, Hl.
  - intros f [m seen] Hf HR. destruct (Hstep f m seen Hf HR) as (m' & seen' & -> & HR').
    by exists (m', seen').
  - done.
  - cbn [mbind result_bind]. destruct (negb _); [by left|exact HR].
Qed.

(** ** Fields an encoder may write and a decoder with default limits accepts *)

Definition field_fits (f : tlv) : Prop :=
  tlv_ok f ∧
  let '(type, _, d) := f in
  type = TLV_STRING ∨ type = TLV_BYTES → Z.of_nat (length d) ≤ 2 ^ 20.

Definition opt_string_fits (s : option (list Z)) : Prop :=
  match s with Some s => Z.of_nat (length s) < 2 ^ 20 | None => True end.
Definition block_fits (len : nat) : Prop := Z.of_nat len ≤ 2 ^ 20.

Definition fields_fit (fs : list tlv) : Prop :=
  Forall field_fits fs ∧ (length fs ≤ 512)%nat.

Lemma fields_fit_ok fs : fields_fit fs → Forall tlv_ok fs ∧ default_limits fs.
Proof.
  intros [Hf Hl]. split; [|split; [lia|]]; eapply Forall_impl; [|exact Hf| |exact Hf];
    intros [[type tag] d] [Hok Hlim]; auto.
Qed.

Lemma cstr_bytes_ok s : cstr_ok s → bytes_ok (s ++ [0]).
Proof.
  intros H. apply Forall_app_2; [|bytes_list].
  eapply Forall_impl; [|exact H]. intros c Hc. cbn in Hc. ulia.
Qed.

(** Scalar fields: the type code is not one the string limit looks at. *)
Lemma field_fits_scalar type tag d :
  is_u16 tag → is_u8 type → (type =? TLV_STRING) || (type =? TLV_BYTES) = false →
  bytes_ok d → (length d ≤ 8)%nat → field_fits (type, tag, d).
Proof.
  intros Ht Hty Hs Hd Hl. split; [split; [done|]; split; [done|]; split; [done|]|lia].
  unfold TLV_MAX_FIELD_SIZE. lia.
Qed.

Lemma field_fits_string tag s :
  is_u16 tag → cstr_ok s → Z.of_nat (length s) < 2 ^ 20 →
  field_fits (TLV_STRING, tag, s ++ [0]).
Proof.
  intros Ht Hs Hl. split; [split; [vm_compute; split; congruence|]; split; [done|];
    split; [by apply cstr_bytes_ok|]|intros _]; rewrite length_app;
    unfold TLV_MAX_FIELD_SIZE; cbn; lia.
Qed.

Lemma field_fits_bytes tag d :
  is_u16 tag → bytes_ok d → Z.of_nat (length d) ≤ 2 ^ 20 → field_fits (TLV_BYTES, tag, d).
Proof.
  intros Ht Hd Hl. split; [split; [vm_compute; split; congruence|]; split; [done|];
    split; [done|]|done]. unfold TLV_MAX_FIELD_SIZE. lia.
Qed.

Lemma fields_fit_app fs fs' n :
  fields_fit fs → Forall field_fits fs' → (length fs + length fs' ≤ n ≤ 512)%nat →
  fields_fit (fs ++ fs').
Proof. intros [] ? ?. split; [by apply Forall_app_2|rewrite length_app; lia]. Qed.

Lemma Forall_fits_opt_string tag s :
  is_u16 tag → opt_cstr_ok s → opt_string_fits s →
  Forall field_fits (opt_string_fields tag s).
Proof.
  intros. destruct s; constructor; [by apply field_fits_string|constructor].
Qed.

Lemma Forall_fits_opt_bytes tag d len :
  is_u16 tag → block_ok d len → block_fits len →
  Forall field_fits (opt_bytes_fields tag d).
Proof.
  intros Ht Hb Hf. destruct d; constructor; [|constructor].
  destruct Hb as (<- & _ & ?). by apply field_fits_bytes.
Qed.

Lemma encodes_put_string_fits n tag s :
  cstr_fits n s → Z.of_nat n < 2 ^ 20 →
  encodes (put_string tag s) [(TLV_STRING, tag, s ++ [0])].
Proof. intros [_ H] ?. apply encodes_put_string. unfold TLV_MAX_FIELD_SIZE. lia. Qed.

Lemma encodes_put_opt_string_fits tag s :
  opt_string_fits s → encodes (put_opt_string tag s) (opt_string_fields tag s).
Proof.
  intros H. apply encodes_put_opt_string. intros s' ->. cbn in H.
  unfold TLV_MAX_FIELD_SIZE. lia.
Qed.

Lemma encodes_put_opt_bytes_fits tag d len :
  block_ok d len → block_fits len →
  encodes (put_opt_bytes tag d len) (opt_bytes_fields tag d).
Proof.
  intros Hb Hf. apply encodes_put_opt_bytes; [done|]. unfold block_fits, TLV_MAX_FIELD_SIZE in *. lia.
Qed.

#[export] Hint Resolve encodes_put_string_fits encodes_put_opt_string_fits
  encodes_put_opt_bytes_fits : distric.

(** ** Round trips through the two skeletons *)

Lemma take_fits (buf l : list Z) : take (length l) buf = l → (length l ≤ length buf)%nat.
Proof. intros H. apply (f_equal length) in H. rewrite length_take in H. lia. Qed.

Lemma once_roundtrip {M} (zero : M) required step cap k fs m :
  encodes k fs → fields_fit fs → fs ≠ [] →
  (∀ tail, ∃ seen, fold_fields step fs tail (zero, 0) = Ok (m, seen) ∧
    (Z.land seen required =? required) = true) →
  ∃ buf len, serialize_with cap k = Ok (buf, len) ∧ (len ≤ length buf)%nat ∧
    ∀ tail, deserialize_once zero required step (Some (take len buf ++ tail)) len = Ok m.
Proof.
  intros Hk [Hok Hlim]%fields_fit_ok Hne Hrun.
  destruct (serialize_with_fields cap k fs Hk) as (buf & Hs & Hb).
  exists buf, (length (fields_bytes fs)). split; [done|].
  split; [by apply (take_fits buf)|]. intros tail. rewrite Hb.
  rewrite deserialize_once_fields by done.
  destruct (Hrun tail) as (seen & -> & Hseen).
  cbn [mbind result_bind]. by rewrite Hseen.
Qed.

Lemma with_roundtrip {M C} (zero : M) required (c0 c : C) count step cap k fs m :
  encodes k fs → fields_fit fs → fs ≠ [] →
  (∀ tail, fold_fields count fs tail c0 = Ok c ∧
    ∃ seen, fold_fields (step c) fs tail (zero, 0) = Ok (m, seen) ∧
      (Z.land seen required =? required) = true) →
  ∃ buf len, serialize_with cap k = Ok (buf, len) ∧ (len ≤ length buf)%nat ∧
    ∀ tail, deserialize_with zero required c0 count step (Some (take len buf ++ tail)) len = Ok m.
Proof.
  intros Hk [Hok Hlim]%fields_fit_ok Hne Hrun.
  destruct (serialize_with_fields cap k fs Hk) as (buf & Hs & Hb).
  exists buf, (length (fields_bytes fs)). split; [done|].
  split; [by apply (take_fits buf)|]. intros tail. rewrite Hb.
  rewrite deserialize_with_fields by done.
  destruct (Hrun tail) as (-> & seen & Hfold & Hseen).
  cbn [mbind result_bind]. rewrite Hfold. cbn [mbind result_bind]. by rewrite Hseen.
Qed.

(** ** Automation for the messages *)

Lemma fold_fields_step {St} (step : tlv_field → St → result St) type tag d fs tail s s' :
  step (TlvField type tag (Z.of_nat (length d)) (d ++ fields_bytes fs ++ tail)) s = Ok s' →
  fold_fields step ((type, tag, d) :: fs) tail s = fold_fields step fs tail s'.
Proof. intros H. cbn [fold_fields]. by rewrite H. Qed.

(** The fields of an array, one per element: [S l] is the state after the
    elements [l]. *)
Lemma fold_fields_list {St A} (step : tlv_field → St → result St) (g : A → tlv)
    (S : list A → St) l tail :
  (∀ l1 a l2 more, l = l1 ++ a :: l2 →
    step (TlvField (g a).1.1 (g a).1.2 (Z.of_nat (length (g a).2)) ((g a).2 ++ more)) (S l1) =
      Ok (S (l1 ++ [a]))) →
  fold_fields step (map g l) tail (S []) = Ok (S l).
Proof.
  intros H. cut (∀ l1 l2, l = l1 ++ l2 → fold_fields step (map g l2) tail (S l1) = Ok (S l)).
  { intros Hc. by apply Hc. }
  intros l1 l2. revert l1. induction l2 as [|a l2 IH]; intros l1 Hl; cbn [map].
  - by rewrite Hl, app_nil_r.
  - destruct (g a) as [[type tag] d] eqn:Eg. cbn [fold_fields].
    pose proof (H l1 a l2 (fields_bytes (map g l2) ++ tail) Hl) as Hs.
    rewrite Eg in Hs. cbn [fst snd] in Hs. rewrite Hs. cbn [mbind result_bind].
    apply IH. by rewrite <- app_assoc.
Qed.

Lemma fold_fields_app {St} (step : tlv_field → St → result St) fs fs' tail s :
  fold_fields step (fs ++ fs') tail s =
    (s' ← fold_fields step fs (fields_bytes fs' ++ tail) s; fold_fields step fs' tail s').
Proof.
  revert s. induction fs as [|[[type tag] d] fs IH]; intros s; [done|].
  cbn [app fold_fields]. rewrite fields_bytes_app, <- app_assoc.
  destruct (step _ s); [|done..]. cbn [mbind result_bind]. apply IH.
Qed.

(** Decides the comparisons of closed tags in the goal. *)
Ltac eval_tags :=
  repeat match goal with
  | |- context [Z.eqb ?a ?b] =>
      let v := eval vm_compute in (Z.eqb a b) in
      match v with
      | true => change (Z.eqb a b) with true
      | false => change (Z.eqb a b) with false
      end
  end.

Ltac written :=
  first [rewrite get_uint32_written by assumption | rewrite get_uint64_written by assumption
        |rewrite get_uint8_written by assumption | rewrite get_int32_written by assumption
        |rewrite get_bool_written | rewrite get_strncpy_written by assumption
        |rewrite get_strdup_written by assumption | rewrite get_bytes_copy_written by lia].

(** One field of a message through its [step]. *)
Ltac run_field step :=
  eapply eq_trans;
  [eapply fold_fields_step; unfold step; cbn [f_tag]; eval_tags; cbv match;
   written; reflexivity|].

#[export] Hint Extern 1 (Z.of_nat _ < 2 ^ 20) => (cbn; lia) : distric.

Lemma fields_fit_list {A} (g : A → tlv) l n fs :
  Forall field_fits fs → (∀ a, a ∈ l → field_fits (g a)) →
  (length l ≤ n)%nat → (length fs + n ≤ 512)%nat → fields_fit (fs ++ map g l).
Proof.
  intros Hfs Hg Hn Hl. split.
  - apply Forall_app_2; [done|]. apply List.Forall_forall. intros f Hf.
    apply in_map_iff in Hf as (a & <- & Ha). by apply Hg, list_elem_of_In.
  - rewrite length_app, length_map. lia.
Qed.

(** The fields a serialiser writes, one at a time. *)
Ltac encode_all :=
  repeat (apply encodes_bind; [eauto with distric; fail|]); eauto with distric.

(** Splits, and destructs, only the conjunctions that are written as such. *)
Ltac split_conj := repeat match goal with |- _ ∧ _ => split end.
Ltac destruct_conj :=
  repeat match goal with H : _ ∧ _ |- _ => destruct H end.

Ltac closed_range := vm_compute; split; congruence.

Ltac bytes_field := first [assumption | apply be_bytes_ok | bytes_list
  | repeat (constructor; [case_match; unfold is_u8; lia|]); apply List.Forall_nil].

Ltac field_fit :=
  first
    [ apply field_fits_scalar;
        [closed_range|closed_range|reflexivity|bytes_field|cbn; lia]
    | match goal with H : cstr_fits _ ?s |- field_fits (_, _, ?s ++ _) =>
        destruct H; apply field_fits_string; [closed_range|assumption|lia] end
    | apply field_fits_bytes; [closed_range|assumption|assumption] ].

Ltac forall_fits :=
  repeat match goal with |- Forall _ (_ ++ _) => apply Forall_app_2 end;
  first [ apply Forall_fits_opt_string; [closed_range|assumption|assumption]
        | eapply Forall_fits_opt_bytes; [closed_range|eassumption|assumption]
        | apply Forall_singleton; field_fit ].

(** The fields a message is made of respect the limits. *)
Ltac message_fields :=
  destruct_conj; split;
  [ forall_fits
  | repeat match goal with o : option (list Z) |- _ => destruct o end;
    cbn [opt_string_fields opt_bytes_fields app length]; lia ].

(** The decoding of the fields of an encoded message. *)
Ltac open_options :=
  repeat match goal with o : option (list Z) |- _ => destruct o end;
  cbn [opt_string_fields opt_bytes_fields app block_ok opt_cstr_ok] in *; destruct_conj; subst.

Ltac message_run step :=
  open_options;
  (eexists; split; [ repeat run_field step; reflexivity | vm_compute; reflexivity ]).

(** The zeroed message is in range. *)
Ltac message_zero :=
  split_conj;
  first [exact I | apply List.Forall_nil | split; [apply List.Forall_nil|apply Nat.le_0_l] | closed_range | reflexivity].

(** One read of a field in a [step], when the field is safe. *)
Ltac total_read :=
  match goal with
  | |- context [tlv_field_get_uint32 ?f] =>
      destruct (get_uint32_total f) as (? & -> & ?); [assumption|]
  | |- context [tlv_field_get_uint64 ?f] =>
      destruct (get_uint64_total f) as (? & -> & ?); [assumption|]
  | |- context [tlv_field_get_uint8 ?f] =>
      destruct (get_uint8_total f) as (? & -> & ?); [assumption|]
  | |- context [tlv_field_get_int32 ?f] =>
      destruct (get_int32_total f) as (? & -> & ?); [assumption|]
  | |- context [tlv_field_get_bool ?f] =>
      destruct (get_bool_total f) as (? & ->); [assumption|]
  | |- context [get_strncpy ?n ?f ?old] =>
      destruct (get_strncpy_total n f old) as (? & -> & ?); [assumption..|]
  | |- context [get_strdup ?f ?old] =>
      destruct (get_strdup_total f old) as (? & -> & ?); [assumption..|]
  | |- context [get_bytes_copy ?f (?old, ?len)] =>
      destruct (get_bytes_copy_total f old len) as (? & ? & -> & ?); [assumption..|]
  end.

(** A [step] that tries its tags in turn preserves the ranges of the members. *)
Ltac total_case :=
  repeat match goal with
  | |- context [if Z.eqb (f_tag ?f) ?t then _ else _] => destruct (Z.eqb (f_tag f) t)
  end;
  try total_read; cbn [mbind result_bind].

Ltac total_steps :=
  total_case; (do 2 eexists; split; [reflexivity|]); split_conj;
  first [assumption | apply u16_range].

Ltac total_nested_steps :=
  total_case; (eexists; split; [reflexivity|]); split_conj;
  first [assumption | apply u16_range].
