(* ===== verification/RaftMessages.v ===== *)
(** * Raft messages (libs/distric_protocol: messages.c, messages.h) *)

From Stdlib Require Import ZArith Lia List.
From S2P Require Import Prelude Tlv WireCore.

Local Open Scope Z_scope.

(** [raft_request_vote_t] *)
Record raft_request_vote := RaftRequestVote {
  rv_term : Z;
  rv_candidate_id : list Z;
  rv_last_log_index : Z;
  rv_last_log_term : Z
}.

Definition raft_request_vote_zero : raft_request_vote :=
  RaftRequestVote 0 [] 0 0.

Definition rv_set_term (v : Z) (m : raft_request_vote) : raft_request_vote :=
  RaftRequestVote v (rv_candidate_id m) (rv_last_log_index m) (rv_last_log_term m).
Definition rv_set_candidate_id (v : list Z) (m : raft_request_vote) : raft_request_vote :=
  RaftRequestVote (rv_term m) v (rv_last_log_index m) (rv_last_log_term m).
Definition rv_set_last_log_index (v : Z) (m : raft_request_vote) : raft_request_vote :=
  RaftRequestVote (rv_term m) (rv_candidate_id m) v (rv_last_log_term m).
Definition rv_set_last_log_term (v : Z) (m : raft_request_vote) : raft_request_vote :=
  RaftRequestVote (rv_term m) (rv_candidate_id m) (rv_last_log_index m) v.

Definition RV_SEEN_TERM : Z := Z.shiftl 1 0.
Definition RV_SEEN_CANDIDATE_ID : Z := Z.shiftl 1 1.
Definition RV_SEEN_LAST_LOG_INDEX : Z := Z.shiftl 1 2.
Definition RV_SEEN_LAST_LOG_TERM : Z := Z.shiftl 1 3.
Definition RV_REQUIRED : Z := Z.lor (Z.lor (Z.lor RV_SEEN_TERM RV_SEEN_CANDIDATE_ID) RV_SEEN_LAST_LOG_INDEX) RV_SEEN_LAST_LOG_TERM.

Definition serialize_raft_request_vote (msg : raft_request_vote) : result (list Z * nat) :=
  serialize_with 256 (λ enc,
    enc ← put_uint32 FIELD_TERM (rv_term msg) enc;
    enc ← put_string FIELD_CANDIDATE_ID (rv_candidate_id msg) enc;
    enc ← put_uint32 FIELD_LAST_LOG_INDEX (rv_last_log_index msg) enc;
    put_uint32 FIELD_LAST_LOG_TERM (rv_last_log_term msg) enc).

(** The [switch] of the decoding loop. *)
Definition raft_request_vote_step (field : tlv_field) (st : raft_request_vote * Z)
    : result (raft_request_vote * Z) :=
  let '(msg, seen) := st in
  if f_tag field =? FIELD_TERM then
    v ← tlv_field_get_uint32 field; Ok (rv_set_term v msg, Z.lor seen RV_SEEN_TERM)
  else if f_tag field =? FIELD_CANDIDATE_ID then
    v ← get_strncpy 63 field (rv_candidate_id msg); Ok (rv_set_candidate_id v msg, Z.lor seen RV_SEEN_CANDIDATE_ID)
  else if f_tag field =? FIELD_LAST_LOG_INDEX then
    v ← tlv_field_get_uint32 field; Ok (rv_set_last_log_index v msg, Z.lor seen RV_SEEN_LAST_LOG_INDEX)
  else if f_tag field =? FIELD_LAST_LOG_TERM then
    v ← tlv_field_get_uint32 field; Ok (rv_set_last_log_term v msg, Z.lor seen RV_SEEN_LAST_LOG_TERM)
  else Ok (msg, seen).

Definition deserialize_raft_request_vote (buffer : option (list Z)) (len : nat)
    : result raft_request_vote :=
  deserialize_once raft_request_vote_zero RV_REQUIRED raft_request_vote_step buffer len.

Definition raft_request_vote_range (m : raft_request_vote) : Prop :=
  is_u32 (rv_term m) ∧
  cstr_fits 63 (rv_candidate_id m) ∧
  is_u32 (rv_last_log_index m) ∧
  is_u32 (rv_last_log_term m).

Definition raft_request_vote_fits (m : raft_request_vote) : Prop :=
  True.

Definition raft_request_vote_fields (m : raft_request_vote) : list tlv :=
  [(TLV_UINT32, FIELD_TERM, be_bytes 4 (rv_term m))] ++
  [(TLV_STRING, FIELD_CANDIDATE_ID, rv_candidate_id m ++ [0])] ++
  [(TLV_UINT32, FIELD_LAST_LOG_INDEX, be_bytes 4 (rv_last_log_index m))] ++
  [(TLV_UINT32, FIELD_LAST_LOG_TERM, be_bytes 4 (rv_last_log_term m))].

#[export] Instance raft_request_vote_wire : WireMessage raft_request_vote := {
  wire_range := raft_request_vote_range;
  wire_fits := raft_request_vote_fits;
  serialize := serialize_raft_request_vote;
  deserialize := deserialize_raft_request_vote
}.

#[export] Instance raft_request_vote_laws : WireMessageLaws raft_request_vote.
Proof.
  split.
  - cbn [wire_range wire_fits serialize deserialize raft_request_vote_wire]. intros m Hr Hf.
    apply (once_roundtrip raft_request_vote_zero RV_REQUIRED raft_request_vote_step 256 _ (raft_request_vote_fields m));
      unfold raft_request_vote_range, raft_request_vote_fits, raft_request_vote_fields in *; destruct m;
      cbn [rv_term rv_candidate_id rv_last_log_index rv_last_log_term] in *; destruct_conj.
    + encode_all.
    + message_fields.
    + done.
    + intros tail. message_run raft_request_vote_step.
  - cbn [wire_range deserialize raft_request_vote_wire]. intros mem len Ht.
    apply (deserialize_once_total raft_request_vote_range); [unfold raft_request_vote_range; message_zero| |done].
    unfold raft_request_vote_range. intros f m seen Hs Hr. destruct m. cbn [rv_term rv_candidate_id rv_last_log_index rv_last_log_term] in Hr. destruct_conj.
    unfold raft_request_vote_step. total_steps.
Qed.

(** [raft_request_vote_response_t] *)
Record raft_request_vote_response := RaftRequestVoteResponse {
  rvr_term : Z;
  rvr_vote_granted : bool;
  rvr_node_id : list Z
}.

Definition raft_request_vote_response_zero : raft_request_vote_response :=
  RaftRequestVoteResponse 0 false [].

Definition rvr_set_term (v : Z) (m : raft_request_vote_response) : raft_request_vote_response :=
  RaftRequestVoteResponse v (rvr_vote_granted m) (rvr_node_id m).
Definition rvr_set_vote_granted (v : bool) (m : raft_request_vote_response) : raft_request_vote_response :=
  RaftRequestVoteResponse (rvr_term m) v (rvr_node_id m).
Definition rvr_set_node_id (v : list Z) (m : raft_request_vote_response) : raft_request_vote_response :=
  RaftRequestVoteResponse (rvr_term m) (rvr_vote_granted m) v.

Definition RVR_SEEN_TERM : Z := Z.shiftl 1 0.
Definition RVR_SEEN_VOTE_GRANTED : Z := Z.shiftl 1 1.
Definition RVR_SEEN_NODE_ID : Z := Z.shiftl 1 2.
Definition RVR_REQUIRED : Z := Z.lor (Z.lor RVR_SEEN_TERM RVR_SEEN_VOTE_GRANTED) RVR_SEEN_NODE_ID.

Definition serialize_raft_request_vote_response (msg : raft_request_vote_response) : result (list Z * nat) :=
  serialize_with 128 (λ enc,
    enc ← put_uint32 FIELD_TERM (rvr_term msg) enc;
    enc ← put_bool FIELD_VOTE_GRANTED (rvr_vote_granted msg) enc;
    put_string FIELD_NODE_ID (rvr_node_id msg) enc).

(** The [switch] of the decoding loop. *)
Definition raft_request_vote_response_step (field : tlv_field) (st : raft_request_vote_response * Z)
    : result (raft_request_vote_response * Z) :=
  let '(msg, seen) := st in
  if f_tag field =? FIELD_TERM then
    v ← tlv_field_get_uint32 field; Ok (rvr_set_term v msg, Z.lor seen RVR_SEEN_TERM)
  else if f_tag field =? FIELD_VOTE_GRANTED then
    v ← tlv_field_get_bool field; Ok (rvr_set_vote_granted v msg, Z.lor seen RVR_SEEN_VOTE_GRANTED)
  else if f_tag field =? FIELD_NODE_ID then
    v ← get_strncpy 63 field (rvr_node_id msg); Ok (rvr_set_node_id v msg, Z.lor seen RVR_SEEN_NODE_ID)
  else Ok (msg, seen).

Definition deserialize_raft_request_vote_response (buffer : option (list Z)) (len : nat)
    : result raft_request_vote_response :=
  deserialize_once raft_request_vote_response_zero RVR_REQUIRED raft_request_vote_response_step buffer len.

Definition raft_request_vote_response_range (m : raft_request_vote_response) : Prop :=
  is_u32 (rvr_term m) ∧
  cstr_fits 63 (rvr_node_id m).

Definition raft_request_vote_response_fits (m : raft_request_vote_response) : Prop :=
  True.

Definition raft_request_vote_response_fields (m : raft_request_vote_response) : list tlv :=
  [(TLV_UINT32, FIELD_TERM, be_bytes 4 (rvr_term m))] ++
  [(TLV_BOOL, FIELD_VOTE_GRANTED, [if rvr_vote_granted m then 1 else 0])] ++
  [(TLV_STRING, FIELD_NODE_ID, rvr_node_id m ++ [0])].

#[export] Instance raft_request_vote_response_wire : WireMessage raft_request_vote_response := {
  wire_range := raft_request_vote_response_range;
  wire_fits := raft_request_vote_response_fits;
  serialize := serialize_raft_request_vote_response;
  deserialize := deserialize_raft_request_vote_response
}.

#[export] Instance raft_request_vote_response_laws : WireMessageLaws raft_request_vote_response.
Proof.
  split.
  - cbn [wire_range wire_fits serialize deserialize raft_request_vote_response_wire]. intros m Hr Hf.
    apply (once_roundtrip raft_request_vote_response_zero RVR_REQUIRED raft_request_vote_response_step 128 _ (raft_request_vote_response_fields m));
      unfold raft_request_vote_response_range, raft_request_vote_response_fits, raft_request_vote_response_fields in *; destruct m;
      cbn [rvr_term rvr_vote_granted rvr_node_id] in *; destruct_conj.
    + encode_all.
    + message_fields.
    + done.
    + intros tail. message_run raft_request_vote_response_step.
  - cbn [wire_range deserialize raft_request_vote_response_wire]. intros mem len Ht.
    apply (deserialize_once_total raft_request_vote_response_range); [unfold raft_request_vote_response_range; message_zero| |done].
    unfold raft_request_vote_response_range. intros f m seen Hs Hr. destruct m. cbn [rvr_term rvr_vote_granted rvr_node_id] in Hr. destruct_conj.
    unfold raft_request_vote_response_step. total_steps.
Qed.

(** [raft_append_entries_response_t] *)
Record raft_append_entries_response := RaftAppendEntriesResponse {
  aer_term : Z;
  aer_success : bool;
  aer_node_id : list Z;
  aer_match_index : Z
}.

Definition raft_append_entries_response_zero : raft_append_entries_response :=
  RaftAppendEntriesResponse 0 false [] 0.

Definition aer_set_term (v : Z) (m : raft_append_entries_response) : raft_append_entries_response :=
  RaftAppendEntriesResponse v (aer_success m) (aer_node_id m) (aer_match_index m).
Definition aer_set_success (v : bool) (m : raft_append_entries_response) : raft_append_entries_response :=
  RaftAppendEntriesResponse (aer_term m) v (aer_node_id m) (aer_match_index m).
Definition aer_set_node_id (v : list Z) (m : raft_append_entries_response) : raft_append_entries_response :=
  RaftAppendEntriesResponse (aer_term m) (aer_success m) v (aer_match_index m).
Definition aer_set_match_index (v : Z) (m : raft_append_entries_response) : raft_append_entries_response :=
  RaftAppendEntriesResponse (aer_term m) (aer_success m) (aer_node_id m) v.

Definition AER_SEEN_TERM : Z := Z.shiftl 1 0.
Definition AER_SEEN_SUCCESS : Z := Z.shiftl 1 1.
Definition AER_SEEN_NODE_ID : Z := Z.shiftl 1 2.
Definition AER_REQUIRED : Z := Z.lor (Z.lor AER_SEEN_TERM AER_SEEN_SUCCESS) AER_SEEN_NODE_ID.

Definition serialize_raft_append_entries_response (msg : raft_append_entries_response) : result (list Z * nat) :=
  serialize_with 128 (λ enc,
    enc ← put_uint32 FIELD_TERM (aer_term msg) enc;
    enc ← put_bool FIELD_SUCCESS (aer_success msg) enc;
    enc ← put_string FIELD_NODE_ID (aer_node_id msg) enc;
    put_uint32 FIELD_MATCH_INDEX (aer_match_index msg) enc).

(** The [switch] of the decoding loop. *)
Definition raft_append_entries_response_step (field : tlv_field) (st : raft_append_entries_response * Z)
    : result (raft_append_entries_response * Z) :=
  let '(msg, seen) := st in
  if f_tag field =? FIELD_TERM then
    v ← tlv_field_get_uint32 field; Ok (aer_set_term v msg, Z.lor seen AER_SEEN_TERM)
  else if f_tag field =? FIELD_SUCCESS then
    v ← tlv_field_get_bool field; Ok (aer_set_success v msg, Z.lor seen AER_SEEN_SUCCESS)
  else if f_tag field =? FIELD_NODE_ID then
    v ← get_strncpy 63 field (aer_node_id msg); Ok (aer_set_node_id v msg, Z.lor seen AER_SEEN_NODE_ID)
  else if f_tag field =? FIELD_MATCH_INDEX then
    v ← tlv_field_get_uint32 field; Ok (aer_set_match_index v msg, seen)
  else Ok (msg, seen).

Definition deserialize_raft_append_entries_response (buffer : option (list Z)) (len : nat)
    : result raft_append_entries_response :=
  deserialize_once raft_append_entries_response_zero AER_REQUIRED raft_append_entries_response_step buffer len.

Definition raft_append_entries_response_range (m : raft_append_entries_response) : Prop :=
  is_u32 (aer_term m) ∧
  cstr_fits 63 (aer_node_id m) ∧
  is_u32 (aer_match_index m).

Definition raft_append_entries_response_fits (m : raft_append_entries_response) : Prop :=
  True.

Definition raft_append_entries_response_fields (m : raft_append_entries_response) : list tlv :=
  [(TLV_UINT32, FIELD_TERM, be_bytes 4 (aer_term m))] ++
  [(TLV_BOOL, FIELD_SUCCESS, [if aer_success m then 1 else 0])] ++
  [(TLV_STRING, FIELD_NODE_ID, aer_node_id m ++ [0])] ++
  [(TLV_UINT32, FIELD_MATCH_INDEX, be_bytes 4 (aer_match_index m))].

#[export] Instance raft_append_entries_response_wire : WireMessage raft_append_entries_response := {
  wire_range := raft_append_entries_response_range;
  wire_fits := raft_append_entries_response_fits;
  serialize := serialize_raft_append_entries_response;
  deserialize := deserialize_raft_append_entries_response
}.

#[export] Instance raft_append_entries_response_laws : WireMessageLaws raft_append_entries_response.
Proof.
  split.
  - cbn [wire_range wire_fits serialize deserialize raft_append_entries_response_wire]. intros m Hr Hf.
    apply (once_roundtrip raft_append_entries_response_zero AER_REQUIRED raft_append_entries_response_step 128 _ (raft_append_entries_response_fields m));
      unfold raft_append_entries_response_range, raft_append_entries_response_fits, raft_append_entries_response_fields in *; destruct m;
      cbn [aer_term aer_success aer_node_id aer_match_index] in *; destruct_conj.
    + encode_all.
    + message_fields.
    + done.
    + intros tail. message_run raft_append_entries_response_step.
  - cbn [wire_range deserialize raft_append_entries_response_wire]. intros mem len Ht.
    apply (deserialize_once_total raft_append_entries_response_range); [unfold raft_append_entries_response_range; message_zero| |done].
    unfold raft_append_entries_response_range. intros f m seen Hs Hr. destruct m. cbn [aer_term aer_success aer_node_id aer_match_index] in Hr. destruct_conj.
    unfold raft_append_entries_response_step. total_steps.
Qed.

(** [raft_install_snapshot_t] *)
Record raft_install_snapshot := RaftInstallSnapshot {
  is_term : Z;
  is_leader_id : list Z;
  is_last_included_index : Z;
  is_last_included_term : Z;
  is_data : option (list Z);
  is_data_len : nat
}.

Definition raft_install_snapshot_zero : raft_install_snapshot :=
  RaftInstallSnapshot 0 [] 0 0 None 0%nat.

Definition is_set_term (v : Z) (m : raft_install_snapshot) : raft_install_snapshot :=
  RaftInstallSnapshot v (is_leader_id m) (is_last_included_index m) (is_last_included_term m) (is_data m) (is_data_len m).
Definition is_set_leader_id (v : list Z) (m : raft_install_snapshot) : raft_install_snapshot :=
  RaftInstallSnapshot (is_term m) v (is_last_included_index m) (is_last_included_term m) (is_data m) (is_data_len m).
Definition is_set_last_included_index (v : Z) (m : raft_install_snapshot) : raft_install_snapshot :=
  RaftInstallSnapshot (is_term m) (is_leader_id m) v (is_last_included_term m) (is_data m) (is_data_len m).
Definition is_set_last_included_term (v : Z) (m : raft_install_snapshot) : raft_install_snapshot :=
  RaftInstallSnapshot (is_term m) (is_leader_id m) (is_last_included_index m) v (is_data m) (is_data_len m).
Definition is_set_data (v : option (list Z)) (len : nat) (m : raft_install_snapshot) : raft_install_snapshot :=
  RaftInstallSnapshot (is_term m) (is_leader_id m) (is_last_included_index m) (is_last_included_term m) v len.

Definition IS_SEEN_TERM : Z := Z.shiftl 1 0.
Definition IS_SEEN_LID : Z := Z.shiftl 1 1.
Definition IS_SEEN_IDX : Z := Z.shiftl 1 2.
Definition IS_SEEN_TERM2 : Z := Z.shiftl 1 3.
Definition IS_REQUIRED : Z := Z.lor (Z.lor (Z.lor IS_SEEN_TERM IS_SEEN_LID) IS_SEEN_IDX) IS_SEEN_TERM2.

Definition serialize_raft_install_snapshot (msg : raft_install_snapshot) : result (list Z * nat) :=
  serialize_with 512 (λ enc,
    enc ← put_uint32 FIELD_TERM (is_term msg) enc;
    enc ← put_string FIELD_LEADER_ID (is_leader_id msg) enc;
    enc ← put_uint32 FIELD_SNAPSHOT_INDEX (is_last_included_index msg) enc;
    enc ← put_uint32 FIELD_SNAPSHOT_TERM (is_last_included_term msg) enc;
    put_opt_bytes FIELD_SNAPSHOT_DATA (is_data msg) (is_data_len msg) enc).

(** The [switch] of the decoding loop. *)
Definition raft_install_snapshot_step (field : tlv_field) (st : raft_install_snapshot * Z)
    : result (raft_install_snapshot * Z) :=
  let '(msg, seen) := st in
  if f_tag field =? FIELD_TERM then
    v ← tlv_field_get_uint32 field; Ok (is_set_term v msg, Z.lor seen IS_SEEN_TERM)
  else if f_tag field =? FIELD_LEADER_ID then
    v ← get_strncpy 63 field (is_leader_id msg); Ok (is_set_leader_id v msg, Z.lor seen IS_SEEN_LID)
  else if f_tag field =? FIELD_SNAPSHOT_INDEX then
    v ← tlv_field_get_uint32 field; Ok (is_set_last_included_index v msg, Z.lor seen IS_SEEN_IDX)
  else if f_tag field =? FIELD_SNAPSHOT_TERM then
    v ← tlv_field_get_uint32 field; Ok (is_set_last_included_term v msg, Z.lor seen IS_SEEN_TERM2)
  else if f_tag field =? FIELD_SNAPSHOT_DATA then
    '(d, len) ← get_bytes_copy field (is_data msg, is_data_len msg);
    Ok (is_set_data d len msg, seen)
  else Ok (msg, seen).

Definition deserialize_raft_install_snapshot (buffer : option (list Z)) (len : nat)
    : result raft_install_snapshot :=
  deserialize_once raft_install_snapshot_zero IS_REQUIRED raft_install_snapshot_step buffer len.

Definition raft_install_snapshot_range (m : raft_install_snapshot) : Prop :=
  is_u32 (is_term m) ∧
  cstr_fits 63 (is_leader_id m) ∧
  is_u32 (is_last_included_index m) ∧
  is_u32 (is_last_included_term m) ∧
  block_ok (is_data m) (is_data_len m).

Definition raft_install_snapshot_fits (m : raft_install_snapshot) : Prop :=
  block_fits (is_data_len m).

Definition raft_install_snapshot_fields (m : raft_install_snapshot) : list tlv :=
  [(TLV_UINT32, FIELD_TERM, be_bytes 4 (is_term m))] ++
  [(TLV_STRING, FIELD_LEADER_ID, is_leader_id m ++ [0])] ++
  [(TLV_UINT32, FIELD_SNAPSHOT_INDEX, be_bytes 4 (is_last_included_index m))] ++
  [(TLV_UINT32, FIELD_SNAPSHOT_TERM, be_bytes 4 (is_last_included_term m))] ++
  opt_bytes_fields FIELD_SNAPSHOT_DATA (is_data m).

#[export] Instance raft_install_snapshot_wire : WireMessage raft_install_snapshot := {
  wire_range := raft_install_snapshot_range;
  wire_fits := raft_install_snapshot_fits;
  serialize := serialize_raft_install_snapshot;
  deserialize := deserialize_raft_install_snapshot
}.

#[export] Instance raft_install_snapshot_laws : WireMessageLaws raft_install_snapshot.
Proof.
  split.
  - cbn [wire_range wire_fits serialize deserialize raft_install_snapshot_wire]. intros m Hr Hf.
    apply (once_roundtrip raft_install_snapshot_zero IS_REQUIRED raft_install_snapshot_step 512 _ (raft_install_snapshot_fields m));
      unfold raft_install_snapshot_range, raft_install_snapshot_fits, raft_install_snapshot_fields in *; destruct m;
      cbn [is_term is_leader_id is_last_included_index is_last_included_term is_data is_data_len] in *; destruct_conj.
    + encode_all.
    + message_fields.
    + done.
    + intros tail. message_run raft_install_snapshot_step.
  - cbn [wire_range deserialize raft_install_snapshot_wire]. intros mem len Ht.
    apply (deserialize_once_total raft_install_snapshot_range); [unfold raft_install_snapshot_range; message_zero| |done].
    unfold raft_install_snapshot_range. intros f m seen Hs Hr. destruct m. cbn [is_term is_leader_id is_last_included_index is_last_included_term is_data is_data_len] in Hr. destruct_conj.
    unfold raft_install_snapshot_step. total_steps.
Qed.

(** [raft_install_snapshot_response_t] *)
Record raft_install_snapshot_response := RaftInstallSnapshotResponse {
  isr_term : Z;
  isr_node_id : list Z;
  isr_success : bool
}.

Definition raft_install_snapshot_response_zero : raft_install_snapshot_response :=
  RaftInstallSnapshotResponse 0 [] false.

Definition isr_set_term (v : Z) (m : raft_install_snapshot_response) : raft_install_snapshot_response :=
  RaftInstallSnapshotResponse v (isr_node_id m) (isr_success m).
Definition isr_set_node_id (v : list Z) (m : raft_install_snapshot_response) : raft_install_snapshot_response :=
  RaftInstallSnapshotResponse (isr_term m) v (isr_success m).
Definition isr_set_success (v : bool) (m : raft_install_snapshot_response) : raft_install_snapshot_response :=
  RaftInstallSnapshotResponse (isr_term m) (isr_node_id m) v.

Definition ISR_SEEN_TERM : Z := Z.shiftl 1 0.
Definition ISR_SEEN_NODE_ID : Z := Z.shiftl 1 1.
Definition ISR_SEEN_SUCCESS : Z := Z.shiftl 1 2.
Definition ISR_REQUIRED : Z := Z.lor (Z.lor ISR_SEEN_TERM ISR_SEEN_NODE_ID) ISR_SEEN_SUCCESS.

Definition serialize_raft_install_snapshot_response (msg : raft_install_snapshot_response) : result (list Z * nat) :=
  serialize_with 128 (λ enc,
    enc ← put_uint32 FIELD_TERM (isr_term msg) enc;
    enc ← put_string FIELD_NODE_ID (isr_node_id msg) enc;
    put_bool FIELD_SUCCESS (isr_success msg) enc).

(** The [switch] of the decoding loop. *)
Definition raft_install_snapshot_response_step (field : tlv_field) (st : raft_install_snapshot_response * Z)
    : result (raft_install_snapshot_response * Z) :=
  let '(msg, seen) := st in
  if f_tag field =? FIELD_TERM then
    v ← tlv_field_get_uint32 field; Ok (isr_set_term v msg, Z.lor seen ISR_SEEN_TERM)
  else if f_tag field =? FIELD_NODE_ID then
    v ← get_strncpy 63 field (isr_node_id msg); Ok (isr_set_node_id v msg, Z.lor seen ISR_SEEN_NODE_ID)
  else if f_tag field =? FIELD_SUCCESS then
    v ← tlv_field_get_bool field; Ok (isr_set_success v msg, Z.lor seen ISR_SEEN_SUCCESS)
  else Ok (msg, seen).

Definition deserialize_raft_install_snapshot_response (buffer : option (list Z)) (len : nat)
    : result raft_install_snapshot_response :=
  deserialize_once raft_install_snapshot_response_zero ISR_REQUIRED raft_install_snapshot_response_step buffer len.

Definition raft_install_snapshot_response_range (m : raft_install_snapshot_response) : Prop :=
  is_u32 (isr_term m) ∧
  cstr_fits 63 (isr_node_id m).

Definition raft_install_snapshot_response_fits (m : raft_install_snapshot_response) : Prop :=
  True.

Definition raft_install_snapshot_response_fields (m : raft_install_snapshot_response) : list tlv :=
  [(TLV_UINT32, FIELD_TERM, be_bytes 4 (isr_term m))] ++
  [(TLV_STRING, FIELD_NODE_ID, isr_node_id m ++ [0])] ++
  [(TLV_BOOL, FIELD_SUCCESS, [if isr_success m then 1 else 0])].

#[export] Instance raft_install_snapshot_response_wire : WireMessage raft_install_snapshot_response := {
  wire_range := raft_install_snapshot_response_range;
  wire_fits := raft_install_snapshot_response_fits;
  serialize := serialize_raft_install_snapshot_response;
  deserialize := deserialize_raft_install_snapshot_response
}.

#[export] Instance raft_install_snapshot_response_laws : WireMessageLaws raft_install_snapshot_response.
Proof.
  split.
  - cbn [wire_range wire_fits serialize deserialize raft_install_snapshot_response_wire]. intros m Hr Hf.
    apply (once_roundtrip raft_install_snapshot_response_zero ISR_REQUIRED raft_install_snapshot_response_step 128 _ (raft_install_snapshot_response_fields m));
      unfold raft_install_snapshot_response_range, raft_install_snapshot_response_fits, raft_install_snapshot_response_fields in *; destruct m;
      cbn [isr_term isr_node_id isr_success] in *; destruct_conj.
    + encode_all.
    + message_fields.
    + done.
    + intros tail. message_run raft_install_snapshot_response_step.
  - cbn [wire_range deserialize raft_install_snapshot_response_wire]. intros mem len Ht.
    apply (deserialize_once_total raft_install_snapshot_response_range); [unfold raft_install_snapshot_response_range; message_zero| |done].
    unfold raft_install_snapshot_response_range. intros f m seen Hs Hr. destruct m. cbn [isr_term isr_node_id isr_success] in Hr. destruct_conj.
    unfold raft_install_snapshot_response_step. total_steps.
Qed.

(** ** AppendEntries: an array of nested messages *)

(** [raft_log_entry_wire_t] *)
Record raft_log_entry_wire := RaftLogEntryWire {
  lew_term : Z;
  lew_index : Z;
  lew_entry_type : Z;
  lew_data : option (list Z);
  lew_data_len : nat
}.

Definition raft_log_entry_wire_zero : raft_log_entry_wire := RaftLogEntryWire 0 0 0 None 0.

(** [raft_append_entries_t]; [entry_count] is the length of [ae_entries]. *)
Record raft_append_entries := RaftAppendEntries {
  ae_term : Z;
  ae_leader_id : list Z;
  ae_prev_log_index : Z;
  ae_prev_log_term : Z;
  ae_entries : list raft_log_entry_wire;
  ae_leader_commit : Z
}.

Definition raft_append_entries_zero : raft_append_entries := RaftAppendEntries 0 [] 0 0 [] 0.

Definition AE_SEEN_TERM : Z := Z.shiftl 1 0.
Definition AE_SEEN_LEADER_ID : Z := Z.shiftl 1 1.
Definition AE_SEEN_PREV_LOG_INDEX : Z := Z.shiftl 1 2.
Definition AE_SEEN_PREV_LOG_TERM : Z := Z.shiftl 1 3.
Definition AE_SEEN_LEADER_COMMIT : Z := Z.shiftl 1 4.
Definition AE_REQUIRED : Z :=
  Z.lor (Z.lor (Z.lor (Z.lor AE_SEEN_TERM AE_SEEN_LEADER_ID) AE_SEEN_PREV_LOG_INDEX)
    AE_SEEN_PREV_LOG_TERM) AE_SEEN_LEADER_COMMIT.

(** The body of the loop over [msg->entries]. *)
Definition put_log_entry (e : raft_log_entry_wire) (enc : tlv_encoder) : result tlv_encoder :=
  put_nested FIELD_ENTRIES 128 (λ enc,
    enc ← put_uint32 FIELD_ENTRY_INDEX (lew_index e) enc;
    enc ← put_uint32 FIELD_ENTRY_TERM (lew_term e) enc;
    enc ← put_uint8 FIELD_ENTRY_TYPE (lew_entry_type e) enc;
    put_opt_bytes FIELD_ENTRY_DATA (lew_data e) (lew_data_len e) enc) enc.

Definition serialize_raft_append_entries (msg : raft_append_entries)
    : result (list Z * nat) :=
  serialize_with 512 (λ enc,
    enc ← put_uint32 FIELD_TERM (ae_term msg) enc;
    enc ← put_string FIELD_LEADER_ID (ae_leader_id msg) enc;
    enc ← put_uint32 FIELD_PREV_LOG_INDEX (ae_prev_log_index msg) enc;
    enc ← put_uint32 FIELD_PREV_LOG_TERM (ae_prev_log_term msg) enc;
    enc ← put_uint32 FIELD_LEADER_COMMIT (ae_leader_commit msg) enc;
    put_list put_log_entry (ae_entries msg) enc).

(** The first pass: the number of fields with tag [t]. *)
Definition count_tag (t : Z) (field : tlv_field) (n : nat) : result nat :=
  Ok (if f_tag field =? t then S n else n).

(** The nested [switch]. *)
Definition raft_log_entry_wire_step (nf : tlv_field) (e : raft_log_entry_wire)
    : result raft_log_entry_wire :=
  let '(RaftLogEntryWire term index type data len) := e in
  if f_tag nf =? FIELD_ENTRY_INDEX then
    v ← tlv_field_get_uint32 nf; Ok (RaftLogEntryWire term v type data len)
  else if f_tag nf =? FIELD_ENTRY_TERM then
    v ← tlv_field_get_uint32 nf; Ok (RaftLogEntryWire v index type data len)
  else if f_tag nf =? FIELD_ENTRY_TYPE then
    v ← tlv_field_get_uint8 nf; Ok (RaftLogEntryWire term index v data len)
  else if f_tag nf =? FIELD_ENTRY_DATA then
    '(d, n) ← get_bytes_copy nf (data, len); Ok (RaftLogEntryWire term index type d n)
  else Ok e.

(** The second pass; [entry_count] is the result of the first, and the entries
    decoded so far are the array up to [entry_idx]. *)
Definition raft_append_entries_step (entry_count : nat) (field : tlv_field)
    (st : raft_append_entries * Z) : result (raft_append_entries * Z) :=
  let '(msg, seen) := st in
  let '(RaftAppendEntries term lid pli plt entries lc) := msg in
  if f_tag field =? FIELD_TERM then
    v ← tlv_field_get_uint32 field;
    Ok (RaftAppendEntries v lid pli plt entries lc, Z.lor seen AE_SEEN_TERM)
  else if f_tag field =? FIELD_LEADER_ID then
    v ← get_strncpy 63 field lid;
    Ok (RaftAppendEntries term v pli plt entries lc, Z.lor seen AE_SEEN_LEADER_ID)
  else if f_tag field =? FIELD_PREV_LOG_INDEX then
    v ← tlv_field_get_uint32 field;
    Ok (RaftAppendEntries term lid v plt entries lc, Z.lor seen AE_SEEN_PREV_LOG_INDEX)
  else if f_tag field =? FIELD_PREV_LOG_TERM then
    v ← tlv_field_get_uint32 field;
    Ok (RaftAppendEntries term lid pli v entries lc, Z.lor seen AE_SEEN_PREV_LOG_TERM)
  else if f_tag field =? FIELD_LEADER_COMMIT then
    v ← tlv_field_get_uint32 field;
    Ok (RaftAppendEntries term lid pli plt entries v, Z.lor seen AE_SEEN_LEADER_COMMIT)
  else if f_tag field =? FIELD_ENTRIES then
    if (entry_count <=? length entries)%nat then Ok (msg, seen) else
    e ← decode_nested raft_log_entry_wire_step field raft_log_entry_wire_zero;
    Ok (RaftAppendEntries term lid pli plt (entries ++ [e]) lc, seen)
  else Ok (msg, seen).

Definition deserialize_raft_append_entries (buffer : option (list Z)) (len : nat)
    : result raft_append_entries :=
  deserialize_with raft_append_entries_zero AE_REQUIRED 0%nat (count_tag FIELD_ENTRIES)
    raft_append_entries_step buffer len.

Definition raft_log_entry_wire_range (e : raft_log_entry_wire) : Prop :=
  is_u32 (lew_term e) ∧ is_u32 (lew_index e) ∧ is_u8 (lew_entry_type e) ∧
  block_ok (lew_data e) (lew_data_len e).

Definition raft_append_entries_range (m : raft_append_entries) : Prop :=
  is_u32 (ae_term m) ∧ cstr_fits 63 (ae_leader_id m) ∧ is_u32 (ae_prev_log_index m) ∧
  is_u32 (ae_prev_log_term m) ∧ Forall raft_log_entry_wire_range (ae_entries m) ∧
  is_u32 (ae_leader_commit m).

(** A nested entry must stay within the limit on BYTES fields, and the entries
    within the limit on the number of fields. *)
Definition raft_append_entries_fits (m : raft_append_entries) : Prop :=
  Forall (λ e, Z.of_nat (lew_data_len e) ≤ 2 ^ 20 - 64) (ae_entries m) ∧
  (length (ae_entries m) ≤ 507)%nat.

Definition log_entry_fields (e : raft_log_entry_wire) : list tlv :=
  [(TLV_UINT32, FIELD_ENTRY_INDEX, be_bytes 4 (lew_index e))] ++
  [(TLV_UINT32, FIELD_ENTRY_TERM, be_bytes 4 (lew_term e))] ++
  [(TLV_UINT8, FIELD_ENTRY_TYPE, [lew_entry_type e])] ++
  opt_bytes_fields FIELD_ENTRY_DATA (lew_data e).

Definition log_entry_field (e : raft_log_entry_wire) : tlv :=
  (TLV_BYTES, FIELD_ENTRIES, fields_bytes (log_entry_fields e)).

Definition append_entries_head (m : raft_append_entries) : list tlv :=
  [(TLV_UINT32, FIELD_TERM, be_bytes 4 (ae_term m))] ++
  [(TLV_STRING, FIELD_LEADER_ID, ae_leader_id m ++ [0])] ++
  [(TLV_UINT32, FIELD_PREV_LOG_INDEX, be_bytes 4 (ae_prev_log_index m))] ++
  [(TLV_UINT32, FIELD_PREV_LOG_TERM, be_bytes 4 (ae_prev_log_term m))] ++
  [(TLV_UINT32, FIELD_LEADER_COMMIT, be_bytes 4 (ae_leader_commit m))].

Lemma log_entry_fields_fit e :
  raft_log_entry_wire_range e → Z.of_nat (lew_data_len e) ≤ 2 ^ 20 - 64 →
  fields_fit (log_entry_fields e) ∧
  Z.of_nat (length (fields_bytes (log_entry_fields e))) ≤ 2 ^ 20 ∧
  encodes (λ enc, put_log_entry e enc) [log_entry_field e].
Proof.
  intros Hr Hl. assert (Hb : block_fits (lew_data_len e)) by (unfold block_fits; lia).
  unfold raft_log_entry_wire_range in Hr.
  assert (Hlen : Z.of_nat (length (fields_bytes (log_entry_fields e))) ≤ 2 ^ 20).
  { destruct e as [t i ty [d|] n]; cbn [lew_term lew_index lew_entry_type lew_data lew_data_len]
      in *; cbn; [|lia]. destruct_conj. destruct H2 as (<- & _). rewrite length_app. cbn. lia. }
  split; [|split; [done|]].
  - unfold log_entry_fields. destruct e.
    cbn [lew_term lew_index lew_entry_type lew_data lew_data_len] in *. message_fields.
  - destruct_conj. unfold put_log_entry, log_entry_field. apply encodes_put_nested.
    + unfold log_entry_fields. encode_all.
    + unfold TLV_MAX_FIELD_SIZE. lia.
Qed.

Lemma decode_log_entry e more :
  raft_log_entry_wire_range e → Z.of_nat (lew_data_len e) ≤ 2 ^ 20 - 64 →
  decode_nested raft_log_entry_wire_step
    (TlvField TLV_BYTES FIELD_ENTRIES (Z.of_nat (length (fields_bytes (log_entry_fields e))))
      (fields_bytes (log_entry_fields e) ++ more)) raft_log_entry_wire_zero = Ok e.
Proof.
  intros Hr Hl. destruct (log_entry_fields_fit e Hr Hl) as ([Hok Hlim]%fields_fit_ok & _).
  rewrite decode_nested_written by done. clear Hok Hlim.
  unfold raft_log_entry_wire_range, log_entry_fields in *. destruct e.
  cbn [lew_term lew_index lew_entry_type lew_data lew_data_len] in *. destruct_conj.
  open_options; unfold raft_log_entry_wire_zero; repeat run_field raft_log_entry_wire_step;
    reflexivity.
Qed.

#[export] Instance raft_append_entries_wire : WireMessage raft_append_entries := {
  wire_range := raft_append_entries_range;
  wire_fits := raft_append_entries_fits;
  serialize := serialize_raft_append_entries;
  deserialize := deserialize_raft_append_entries
}.

(** The state of the second pass after the scalar fields and the entries [l]. *)
Definition append_entries_state (m : raft_append_entries) (l : list raft_log_entry_wire)
    : raft_append_entries * Z :=
  (RaftAppendEntries (ae_term m) (ae_leader_id m) (ae_prev_log_index m) (ae_prev_log_term m)
     l (ae_leader_commit m), AE_REQUIRED).

Definition entry_fits (e : raft_log_entry_wire) : Prop :=
  raft_log_entry_wire_range e ∧ Z.of_nat (lew_data_len e) ≤ 2 ^ 20 - 64.

Lemma append_entries_head_run m n tail :
  raft_append_entries_range m →
  fold_fields (raft_append_entries_step n) (append_entries_head m) tail
    (raft_append_entries_zero, 0) = Ok (append_entries_state m []).
Proof.
  unfold raft_append_entries_range, append_entries_head, append_entries_state. intros Hr.
  destruct m. cbn [ae_term ae_leader_id ae_prev_log_index ae_prev_log_term ae_entries
    ae_leader_commit] in *. destruct_conj. unfold raft_append_entries_zero. cbn [app].
  repeat run_field raft_append_entries_step. reflexivity.
Qed.

Lemma append_entries_count m l tail :
  fold_fields (count_tag FIELD_ENTRIES) (append_entries_head m ++ map log_entry_field l) tail 0%nat
    = Ok (length l).
Proof.
  rewrite fold_fields_app.
  replace (fold_fields _ (append_entries_head m) _ _) with (Ok 0%nat) by reflexivity.
  cbn [mbind result_bind]. apply (fold_fields_list _ log_entry_field (@length _)).
  intros l1 a l2 more _. unfold count_tag. cbn [log_entry_field fst snd f_tag].
  eval_tags. rewrite length_app. cbn. f_equal. lia.
Qed.

(** The entries beyond [n] are dropped. *)
Lemma append_entries_run m l n tail :
  Forall entry_fits l → (length l ≤ n)%nat →
  fold_fields (raft_append_entries_step n) (map log_entry_field l) tail (append_entries_state m [])
    = Ok (append_entries_state m l).
Proof.
  intros Hl Hn. apply (fold_fields_list _ log_entry_field (append_entries_state m)).
  intros l1 a l2 more ->. apply Forall_app in Hl as [_ Hl].
  apply Forall_cons_iff in Hl as [[Hr Hs] _]. rewrite length_app in Hn. cbn [length] in Hn.
  unfold raft_append_entries_step, append_entries_state. cbn [log_entry_field fst snd f_tag].
  eval_tags. cbv match. rewrite (proj2 (Nat.leb_gt _ _)) by lia.
  by rewrite decode_log_entry.
Qed.

Lemma append_entries_fields_fit m l :
  raft_append_entries_range m → Forall entry_fits l → (length l ≤ 507)%nat →
  fields_fit (append_entries_head m ++ map log_entry_field l).
Proof.
  intros Hm Hl Hn. apply (fields_fit_list _ _ 507); [|intros e He|done|cbn; lia].
  - unfold raft_append_entries_range, append_entries_head in *. destruct_conj. forall_fits.
  - rewrite List.Forall_forall in Hl. apply list_elem_of_In, Hl in He as [Hr Hs].
    destruct (log_entry_fields_fit e Hr Hs) as ([Hok _]%fields_fit_ok & ? & _).
    apply field_fits_bytes; [closed_range|by apply fields_bytes_ok|done].
Qed.

Lemma append_entries_encodes m :
  raft_append_entries_range m → Forall entry_fits (ae_entries m) →
  encodes (λ enc,
    enc ← put_uint32 FIELD_TERM (ae_term m) enc;
    enc ← put_string FIELD_LEADER_ID (ae_leader_id m) enc;
    enc ← put_uint32 FIELD_PREV_LOG_INDEX (ae_prev_log_index m) enc;
    enc ← put_uint32 FIELD_PREV_LOG_TERM (ae_prev_log_term m) enc;
    enc ← put_uint32 FIELD_LEADER_COMMIT (ae_leader_commit m) enc;
    put_list put_log_entry (ae_entries m) enc)
    (append_entries_head m ++ map log_entry_field (ae_entries m)).
Proof.
  intros Hr Hl. unfold raft_append_entries_range, append_entries_head in *. destruct_conj.
  rewrite <- !app_assoc.
  do 5 (apply encodes_bind; [eauto with distric|]). apply encodes_put_list.
  intros e He. rewrite List.Forall_forall in Hl. apply list_elem_of_In, Hl in He as [].
  by apply log_entry_fields_fit.
Qed.

Lemma raft_log_entry_wire_step_total f e :
  safe_field f → raft_log_entry_wire_range e →
  ∃ e', raft_log_entry_wire_step f e = Ok e' ∧ raft_log_entry_wire_range e'.
Proof.
  unfold raft_log_entry_wire_range. intros Hs Hr. destruct e.
  cbn [lew_term lew_index lew_entry_type lew_data lew_data_len] in *. destruct_conj.
  unfold raft_log_entry_wire_step. total_nested_steps.
Qed.

#[export] Instance raft_append_entries_laws : WireMessageLaws raft_append_entries.
Proof.
  split; cbn [wire_range wire_fits serialize deserialize raft_append_entries_wire].
  - intros m Hr [Hf Hn].
    assert (Hl : Forall entry_fits (ae_entries m)).
    { destruct Hr as (_ & _ & _ & _ & Hes & _). exact (List.Forall_and Hes Hf). }
    apply (with_roundtrip raft_append_entries_zero AE_REQUIRED 0%nat (length (ae_entries m))
      (count_tag FIELD_ENTRIES) raft_append_entries_step 512 _
      (append_entries_head m ++ map log_entry_field (ae_entries m))).
    + by apply append_entries_encodes.
    + by apply append_entries_fields_fit.
    + done.
    + intros tail. split; [apply append_entries_count|]. exists AE_REQUIRED.
      split; [|done]. rewrite fold_fields_app, (append_entries_head_run m) by exact Hr.
      cbn [mbind result_bind]. rewrite (append_entries_run m) by (exact Hl || lia).
      by destruct m.
  - intros mem len Ht. apply (deserialize_with_total raft_append_entries_range); [| | |done].
    + unfold raft_append_entries_range. message_zero.
    + intros f c _. by eexists.
    + unfold raft_append_entries_range. intros c f m seen Hs Hr. destruct m.
      cbn [ae_term ae_leader_id ae_prev_log_index ae_prev_log_term ae_entries
        ae_leader_commit] in Hr. destruct_conj. unfold raft_append_entries_step.
      destruct (f_tag f =? FIELD_ENTRIES) eqn:He; [|total_steps].
      apply Z.eqb_eq in He. rewrite He. eval_tags. cbv match.
      destruct (_ <=? _)%nat; [do 2 eexists; split; [done|]; split_conj; assumption|].
      destruct (decode_nested_total raft_log_entry_wire_step raft_log_entry_wire_range f
        raft_log_entry_wire_zero) as (e & -> & He');
        [done|apply raft_log_entry_wire_step_total|unfold raft_log_entry_wire_range; message_zero|].
      cbn [mbind result_bind]. do 2 eexists. split; [done|].
      cbn [ae_term ae_leader_id ae_prev_log_index ae_prev_log_term ae_entries ae_leader_commit].
      split_conj; try assumption. apply Forall_app_2; [done|by apply Forall_singleton].
Qed.

(** ** Configuration change: two arrays of nested servers *)

(** [raft_server_info_t] *)
Record raft_server_info := RaftServerInfo {
  si_node_id : list Z;
  si_address : list Z;
  si_port : Z;
  si_role : Z
}.

Definition raft_server_info_zero : raft_server_info := RaftServerInfo [] [] 0 0.

(** [raft_configuration_change_t]; the counts are the lengths of the lists. *)
Record raft_configuration_change := RaftConfigurationChange {
  cc_type : Z;
  cc_node_info : raft_server_info;
  cc_old_servers : list raft_server_info;
  cc_new_servers : list raft_server_info
}.

Definition raft_configuration_change_zero : raft_configuration_change :=
  RaftConfigurationChange 0 raft_server_info_zero [] [].

Definition CC_SEEN_TYPE : Z := Z.shiftl 1 0.
Definition CC_SEEN_NODE_ID : Z := Z.shiftl 1 1.
Definition CC_REQUIRED : Z := Z.lor CC_SEEN_TYPE CC_SEEN_NODE_ID.

(** The bodies of the two loops over the servers. *)
Definition put_server (tag : Z) (s : raft_server_info) (enc : tlv_encoder)
    : result tlv_encoder :=
  put_nested tag 256 (λ enc,
    enc ← put_string FIELD_NODE_ID (si_node_id s) enc;
    enc ← put_string FIELD_NODE_ADDRESS (si_address s) enc;
    enc ← put_uint32 FIELD_NODE_PORT (si_port s) enc;
    put_uint32 FIELD_NODE_ROLE (si_role s) enc) enc.

Definition serialize_raft_configuration_change (msg : raft_configuration_change)
    : result (list Z * nat) :=
  serialize_with 512 (λ enc,
    enc ← put_uint32 FIELD_CONFIG_CHANGE_TYPE (cc_type msg) enc;
    enc ← put_string FIELD_NODE_ID (si_node_id (cc_node_info msg)) enc;
    enc ← put_string FIELD_NODE_ADDRESS (si_address (cc_node_info msg)) enc;
    enc ← put_uint32 FIELD_NODE_PORT (si_port (cc_node_info msg)) enc;
    enc ← put_uint32 FIELD_NODE_ROLE (si_role (cc_node_info msg)) enc;
    enc ← put_list (put_server FIELD_OLD_SERVERS) (cc_old_servers msg) enc;
    put_list (put_server FIELD_NEW_SERVERS) (cc_new_servers msg) enc).

(** The [switch] of [decode_server_info]. *)
Definition server_info_step (nf : tlv_field) (out : raft_server_info)
    : result raft_server_info :=
  let '(RaftServerInfo id addr port role) := out in
  if f_tag nf =? FIELD_NODE_ID then
    v ← get_strncpy 63 nf id; Ok (RaftServerInfo v addr port role)
  else if f_tag nf =? FIELD_NODE_ADDRESS then
    v ← get_strncpy 255 nf addr; Ok (RaftServerInfo id v port role)
  else if f_tag nf =? FIELD_NODE_PORT then
    v ← tlv_field_get_uint32 nf; Ok (RaftServerInfo id addr (u16 v) role)
  else if f_tag nf =? FIELD_NODE_ROLE then
    v ← tlv_field_get_uint32 nf; Ok (RaftServerInfo id addr port v)
  else Ok out.

Definition decode_server_info (field : tlv_field) (out : raft_server_info)
    : result raft_server_info :=
  decode_nested server_info_step field out.

(** The first pass: how many old and new servers there are. *)
Definition count_servers (field : tlv_field) (n : nat * nat) : result (nat * nat) :=
  Ok (if f_tag field =? FIELD_OLD_SERVERS then S n.1 else n.1,
      if f_tag field =? FIELD_NEW_SERVERS then S n.2 else n.2).

Definition raft_configuration_change_step (counts : nat * nat) (field : tlv_field)
    (st : raft_configuration_change * Z) : result (raft_configuration_change * Z) :=
  let '(msg, seen) := st in
  let '(RaftConfigurationChange type info olds news) := msg in
  let '(RaftServerInfo id addr port role) := info in
  if f_tag field =? FIELD_CONFIG_CHANGE_TYPE then
    v ← tlv_field_get_uint32 field;
    Ok (RaftConfigurationChange v info olds news, Z.lor seen CC_SEEN_TYPE)
  else if f_tag field =? FIELD_NODE_ID then
    v ← get_strncpy 63 field id;
    Ok (RaftConfigurationChange type (RaftServerInfo v addr port role) olds news,
        Z.lor seen CC_SEEN_NODE_ID)
  else if f_tag field =? FIELD_NODE_ADDRESS then
    v ← get_strncpy 255 field addr;
    Ok (RaftConfigurationChange type (RaftServerInfo id v port role) olds news, seen)
  else if f_tag field =? FIELD_NODE_PORT then
    v ← tlv_field_get_uint32 field;
    Ok (RaftConfigurationChange type (RaftServerInfo id addr (u16 v) role) olds news, seen)
  else if f_tag field =? FIELD_NODE_ROLE then
    v ← tlv_field_get_uint32 field;
    Ok (RaftConfigurationChange type (RaftServerInfo id addr port v) olds news, seen)
  else if f_tag field =? FIELD_OLD_SERVERS then
    if (length olds <? counts.1)%nat then
      s ← decode_server_info field raft_server_info_zero;
      Ok (RaftConfigurationChange type info (olds ++ [s]) news, seen)
    else Ok (msg, seen)
  else if f_tag field =? FIELD_NEW_SERVERS then
    if (length news <? counts.2)%nat then
      s ← decode_server_info field raft_server_info_zero;
      Ok (RaftConfigurationChange type info olds (news ++ [s]), seen)
    else Ok (msg, seen)
  else Ok (msg, seen).

Definition deserialize_raft_configuration_change (buffer : option (list Z)) (len : nat)
    : result raft_configuration_change :=
  deserialize_with raft_configuration_change_zero CC_REQUIRED (0%nat, 0%nat) count_servers
    raft_configuration_change_step buffer len.

Definition raft_server_info_range (s : raft_server_info) : Prop :=
  cstr_fits 63 (si_node_id s) ∧ cstr_fits 255 (si_address s) ∧ is_u16 (si_port s) ∧
  is_u32 (si_role s).

Definition raft_configuration_change_range (m : raft_configuration_change) : Prop :=
  is_u32 (cc_type m) ∧ raft_server_info_range (cc_node_info m) ∧
  Forall raft_server_info_range (cc_old_servers m) ∧
  Forall raft_server_info_range (cc_new_servers m).

Definition raft_configuration_change_fits (m : raft_configuration_change) : Prop :=
  (length (cc_old_servers m) + length (cc_new_servers m) ≤ 507)%nat.

#[export] Instance raft_configuration_change_wire : WireMessage raft_configuration_change := {
  wire_range := raft_configuration_change_range;
  wire_fits := raft_configuration_change_fits;
  serialize := serialize_raft_configuration_change;
  deserialize := deserialize_raft_configuration_change
}.

Definition server_info_fields (s : raft_server_info) : list tlv :=
  [(TLV_STRING, FIELD_NODE_ID, si_node_id s ++ [0])] ++
  [(TLV_STRING, FIELD_NODE_ADDRESS, si_address s ++ [0])] ++
  [(TLV_UINT32, FIELD_NODE_PORT, be_bytes 4 (si_port s))] ++
  [(TLV_UINT32, FIELD_NODE_ROLE, be_bytes 4 (si_role s))].

Definition server_field (tag : Z) (s : raft_server_info) : tlv :=
  (TLV_BYTES, tag, fields_bytes (server_info_fields s)).

Definition configuration_change_head (m : raft_configuration_change) : list tlv :=
  [(TLV_UINT32, FIELD_CONFIG_CHANGE_TYPE, be_bytes 4 (cc_type m))] ++
  server_info_fields (cc_node_info m).

Lemma u16_u32 v : is_u16 v → is_u32 v.
Proof. ulia. Qed.

Lemma server_fields_fit tag s :
  raft_server_info_range s →
  Forall field_fits (server_info_fields s) ∧
  Z.of_nat (length (fields_bytes (server_info_fields s))) ≤ 2 ^ 20 ∧
  encodes (λ enc, put_server tag s enc) [server_field tag s].
Proof.
  unfold raft_server_info_range. intros Hr.
  assert (Hlen : Z.of_nat (length (fields_bytes (server_info_fields s))) ≤ 2 ^ 20).
  { unfold server_info_fields. rewrite !fields_bytes_app, !length_app. cbn.
    unfold cstr_fits in Hr. rewrite !app_nil_r, !length_app. cbn. lia. }
  split; [|split; [done|]].
  - unfold server_info_fields. destruct_conj. forall_fits.
  - destruct_conj. unfold put_server, server_field. apply encodes_put_nested.
    + unfold server_info_fields. encode_all.
    + unfold TLV_MAX_FIELD_SIZE. lia.
Qed.

Lemma decode_server_written tag s more :
  raft_server_info_range s →
  decode_server_info (TlvField TLV_BYTES tag
      (Z.of_nat (length (fields_bytes (server_info_fields s))))
      (fields_bytes (server_info_fields s) ++ more)) raft_server_info_zero = Ok s.
Proof.
  intros Hr. destruct (server_fields_fit tag s Hr) as (Hf & _).
  destruct (fields_fit_ok (server_info_fields s)) as [Hok Hlim]; [split; [done|cbn; lia]|].
  unfold decode_server_info. rewrite decode_nested_written by done. clear Hf Hok Hlim.
  unfold raft_server_info_range, server_info_fields in *. destruct s.
  cbn [si_node_id si_address si_port si_role] in *. destruct_conj.
  pose proof (u16_u32 si_port0 ltac:(assumption)). unfold raft_server_info_zero. cbn [app].
  repeat run_field server_info_step. cbn [fold_fields]. by rewrite u16_id.
Qed.

Definition configuration_state (m : raft_configuration_change)
    (olds news : list raft_server_info) : raft_configuration_change * Z :=
  (RaftConfigurationChange (cc_type m) (cc_node_info m) olds news, CC_REQUIRED).

Lemma configuration_head_run m n tail :
  raft_configuration_change_range m →
  fold_fields (raft_configuration_change_step n) (configuration_change_head m) tail
    (raft_configuration_change_zero, 0) = Ok (configuration_state m [] []).
Proof.
  unfold raft_configuration_change_range, raft_server_info_range, configuration_change_head,
    server_info_fields, configuration_state. intros Hr.
  destruct m as [type [id addr port role] olds news].
  cbn [cc_type cc_node_info cc_old_servers cc_new_servers si_node_id si_address si_port si_role]
    in *. destruct_conj. pose proof (u16_u32 port ltac:(assumption)).
  unfold raft_configuration_change_zero, raft_server_info_zero. cbn [app].
  repeat run_field raft_configuration_change_step. cbn [fold_fields]. by rewrite u16_id.
Qed.

Lemma configuration_old_run m n tail :
  raft_configuration_change_range m → (length (cc_old_servers m) ≤ n.1)%nat →
  fold_fields (raft_configuration_change_step n)
    (map (server_field FIELD_OLD_SERVERS) (cc_old_servers m)) tail (configuration_state m [] [])
    = Ok (configuration_state m (cc_old_servers m) []).
Proof.
  intros (_ & _ & Hl & _) Hn.
  apply (fold_fields_list _ (server_field FIELD_OLD_SERVERS) (λ l, configuration_state m l [])).
  intros l1 a l2 more Heq. rewrite Heq in Hl, Hn. apply Forall_app in Hl as [_ Hl].
  apply Forall_cons_iff in Hl as [Ha _]. rewrite length_app in Hn. cbn [length] in Hn.
  unfold raft_configuration_change_step, configuration_state.
  destruct (cc_node_info m). cbn [server_field fst snd f_tag]. eval_tags. cbv match.
  rewrite (proj2 (Nat.ltb_lt _ _)) by lia. by rewrite decode_server_written.
Qed.

Lemma configuration_new_run m n tail :
  raft_configuration_change_range m → (length (cc_new_servers m) ≤ n.2)%nat →
  fold_fields (raft_configuration_change_step n)
    (map (server_field FIELD_NEW_SERVERS) (cc_new_servers m)) tail
    (configuration_state m (cc_old_servers m) [])
    = Ok (configuration_state m (cc_old_servers m) (cc_new_servers m)).
Proof.
  intros (_ & _ & _ & Hl) Hn.
  apply (fold_fields_list _ (server_field FIELD_NEW_SERVERS)
    (λ l, configuration_state m (cc_old_servers m) l)).
  intros l1 a l2 more Heq. rewrite Heq in Hl, Hn. apply Forall_app in Hl as [_ Hl].
  apply Forall_cons_iff in Hl as [Ha _]. rewrite length_app in Hn. cbn [length] in Hn.
  unfold raft_configuration_change_step, configuration_state.
  destruct (cc_node_info m). cbn [server_field fst snd f_tag]. eval_tags. cbv match.
  rewrite (proj2 (Nat.ltb_lt _ _)) by lia. by rewrite decode_server_written.
Qed.

Lemma configuration_count_list tag l n tail :
  tag = FIELD_OLD_SERVERS ∨ tag = FIELD_NEW_SERVERS →
  fold_fields count_servers (map (server_field tag) l) tail n =
    Ok (if tag =? FIELD_OLD_SERVERS then (n.1 + length l, n.2)%nat
        else (n.1, n.2 + length l)%nat).
Proof.
  assert (Hold : ∀ ty len v n, count_servers (TlvField ty FIELD_OLD_SERVERS len v) n =
    Ok (S n.1, n.2)) by reflexivity.
  assert (Hnew : ∀ ty len v n, count_servers (TlvField ty FIELD_NEW_SERVERS len v) n =
    Ok (n.1, S n.2)) by reflexivity.
  intros [-> | ->]; eval_tags; cbv match; revert n; induction l as [|s l IH]; intros [o w];
    cbn [map fold_fields server_field length fst snd].
  - by rewrite Nat.add_0_r.
  - rewrite Hold. cbn [mbind result_bind]. rewrite IH. cbn [fst snd]. do 2 f_equal. lia.
  - by rewrite Nat.add_0_r.
  - rewrite Hnew. cbn [mbind result_bind]. rewrite IH. cbn [fst snd]. do 2 f_equal. lia.
Qed.

Definition configuration_fields (m : raft_configuration_change) : list tlv :=
  configuration_change_head m ++
  map (server_field FIELD_OLD_SERVERS) (cc_old_servers m) ++
  map (server_field FIELD_NEW_SERVERS) (cc_new_servers m).

Lemma configuration_count m tail :
  fold_fields count_servers (configuration_fields m) tail (0%nat, 0%nat) =
    Ok (length (cc_old_servers m), length (cc_new_servers m)).
Proof.
  unfold configuration_fields. rewrite !fold_fields_app.
  replace (fold_fields _ (configuration_change_head m) _ _) with (Ok (0%nat, 0%nat))
    by reflexivity.
  cbn [mbind result_bind]. rewrite fold_fields_app, configuration_count_list by auto.
  cbn [mbind result_bind]. by rewrite configuration_count_list by auto.
Qed.

Lemma configuration_fields_fit m :
  raft_configuration_change_range m → raft_configuration_change_fits m →
  fields_fit (configuration_fields m).
Proof.
  intros Hr Hf. unfold configuration_fields. pose proof Hr as (Ht & Hi & Ho & Hn).
  assert (Hserver : ∀ tag l, is_u16 tag → Forall raft_server_info_range l →
    Forall field_fits (map (server_field tag) l)).
  { intros tag l Htag Hl. induction Hl as [|s l Hs _ IH]; constructor; [|done].
    destruct (server_fields_fit tag s Hs) as (Hfs & ? & _).
    apply field_fits_bytes; [done| |done]. apply fields_bytes_ok.
    eapply Forall_impl; [|exact Hfs]. by intros [[] ?] []. }
  split.
  - apply Forall_app_2; [apply Forall_app_2;
      [apply Forall_singleton; field_fit|by apply (server_fields_fit 0)]|].
    apply Forall_app_2; (apply Hserver; [closed_range|done]).
  - rewrite !length_app, !length_map. unfold raft_configuration_change_fits in Hf. cbn. lia.
Qed.

Lemma server_info_step_total f s :
  safe_field f → raft_server_info_range s →
  ∃ s', server_info_step f s = Ok s' ∧ raft_server_info_range s'.
Proof.
  unfold raft_server_info_range. intros Hs Hr. destruct s.
  cbn [si_node_id si_address si_port si_role] in *. destruct_conj.
  unfold server_info_step. total_nested_steps.
Qed.

Lemma decode_server_info_total f :
  safe_field f →
  ∃ s, decode_server_info f raft_server_info_zero = Ok s ∧ raft_server_info_range s.
Proof.
  intros Hf. apply decode_nested_total; [done|apply server_info_step_total|].
  unfold raft_server_info_range. message_zero.
Qed.

Lemma raft_configuration_change_step_total c f m seen :
  safe_field f → raft_configuration_change_range m →
  ∃ m' seen', raft_configuration_change_step c f (m, seen) = Ok (m', seen') ∧
    raft_configuration_change_range m'.
Proof.
  intros Hs. unfold raft_configuration_change_range at 1. intros Hr.
  destruct m as [type [id addr port role] olds news].
  cbn [cc_type cc_node_info cc_old_servers cc_new_servers] in Hr. destruct_conj.
  unfold raft_configuration_change_step, raft_configuration_change_range.
  destruct (decode_server_info_total f Hs) as (s & Hdec & Hsr).
  assert (∀ l, Forall raft_server_info_range l → Forall raft_server_info_range (l ++ [s]))
    by (intros; apply Forall_app_2; [done|by apply Forall_singleton]).
  rewrite Hdec. cbn [mbind result_bind].
  unfold raft_server_info_range at 1 in H0. cbn [si_node_id si_address si_port si_role] in H0.
  destruct_conj. total_case; repeat case_match;
    (do 2 eexists; split; [reflexivity|]);
    cbn [cc_type cc_node_info cc_old_servers cc_new_servers];
    split_conj; try (unfold raft_server_info_range; split_conj);
    first [assumption | apply u16_range | auto].
Qed.

#[export] Instance raft_configuration_change_laws : WireMessageLaws raft_configuration_change.
Proof.
  split; cbn [wire_range wire_fits serialize deserialize raft_configuration_change_wire].
  - intros m Hr Hf.
    apply (with_roundtrip raft_configuration_change_zero CC_REQUIRED (0%nat, 0%nat)
      (length (cc_old_servers m), length (cc_new_servers m)) count_servers
      raft_configuration_change_step 512 _ (configuration_fields m)).
    + unfold configuration_fields, configuration_change_head, server_info_fields.
      destruct Hr as (Ht & (Hid & Haddr & Hp & Hro) & Ho & Hn). rewrite <- !app_assoc. do 5 (apply encodes_bind; [eauto with distric|]).
      apply encodes_bind; apply encodes_put_list; intros s Hs;
        [rename Ho into Hl|rename Hn into Hl]; rewrite List.Forall_forall in Hl;
        apply list_elem_of_In, Hl in Hs; by apply server_fields_fit.
    + by apply configuration_fields_fit.
    + done.
    + intros tail. split; [apply configuration_count|]. exists CC_REQUIRED. split; [|done].
      unfold configuration_fields.
      rewrite fold_fields_app, (configuration_head_run m) by exact Hr. cbn [mbind result_bind].
      rewrite fold_fields_app, (configuration_old_run m) by (exact Hr || done).
      cbn [mbind result_bind].
      rewrite (configuration_new_run m) by (exact Hr || done). by destruct m.
  - intros mem len Ht.
    apply (deserialize_with_total raft_configuration_change_range); [| | |done].
    + unfold raft_configuration_change_range, raft_server_info_range. message_zero.
    + intros f c _. by eexists.
    + intros c f m seen Hs Hr. apply raft_configuration_change_step_total; done.
Qed.
