(* ===== verification/GossipMessages.v ===== *)
(** * Gossip messages (libs/distric_protocol: messages.c, messages.h) *)

From Stdlib Require Import ZArith Lia List.
From S2P Require Import Prelude Tlv WireCore.

Local Open Scope Z_scope.

(** [gossip_ping_t] *)
Record gossip_ping := GossipPing {
  gp_sender_id : list Z;
  gp_incarnation : Z;
  gp_sequence_number : Z
}.

Definition gossip_ping_zero : gossip_ping :=
  GossipPing [] 0 0.

Definition gp_set_sender_id (v : list Z) (m : gossip_ping) : gossip_ping :=
  GossipPing v (gp_incarnation m) (gp_sequence_number m).
Definition gp_set_incarnation (v : Z) (m : gossip_ping) : gossip_ping :=
  GossipPing (gp_sender_id m) v (gp_sequence_number m).
Definition gp_set_sequence_number (v : Z) (m : gossip_ping) : gossip_ping :=
  GossipPing (gp_sender_id m) (gp_incarnation m) v.

Definition GP_SEEN_SENDER_ID : Z := Z.shiftl 1 0.
Definition GP_SEEN_INCARNATION : Z := Z.shiftl 1 1.
Definition GP_SEEN_SEQ : Z := Z.shiftl 1 2.
Definition GP_REQUIRED : Z := Z.lor (Z.lor GP_SEEN_SENDER_ID GP_SEEN_INCARNATION) GP_SEEN_SEQ.

Definition serialize_gossip_ping (msg : gossip_ping) : result (list Z * nat) :=
  serialize_with 128 (λ enc,
    enc ← put_string FIELD_NODE_ID (gp_sender_id msg) enc;
    enc ← put_uint64 FIELD_INCARNATION (gp_incarnation msg) enc;
    put_uint32 FIELD_SEQUENCE_NUMBER (gp_sequence_number msg) enc).

(** The [switch] of the decoding loop. *)
Definition gossip_ping_step (field : tlv_field) (st : gossip_ping * Z)
    : result (gossip_ping * Z) :=
  let '(msg, seen) := st in
  if f_tag field =? FIELD_NODE_ID then
    v ← get_strncpy 63 field (gp_sender_id msg); Ok (gp_set_sender_id v msg, Z.lor seen GP_SEEN_SENDER_ID)
  else if f_tag field =? FIELD_INCARNATION then
    v ← tlv_field_get_uint64 field; Ok (gp_set_incarnation v msg, Z.lor seen GP_SEEN_INCARNATION)
  else if f_tag field =? FIELD_SEQUENCE_NUMBER then
    v ← tlv_field_get_uint32 field; Ok (gp_set_sequence_number v msg, Z.lor seen GP_SEEN_SEQ)
  else Ok (msg, seen).

Definition deserialize_gossip_ping (buffer : option (list Z)) (len : nat)
    : result gossip_ping :=
  deserialize_once gossip_ping_zero GP_REQUIRED gossip_ping_step buffer len.

Definition gossip_ping_range (m : gossip_ping) : Prop :=
  cstr_fits 63 (gp_sender_id m) ∧
  is_u64 (gp_incarnation m) ∧
  is_u32 (gp_sequence_number m).

Definition gossip_ping_fits (m : gossip_ping) : Prop :=
  True.

Definition gossip_ping_fields (m : gossip_ping) : list tlv :=
  [(TLV_STRING, FIELD_NODE_ID, gp_sender_id m ++ [0])] ++
  [(TLV_UINT64, FIELD_INCARNATION, be_bytes 8 (gp_incarnation m))] ++
  [(TLV_UINT32, FIELD_SEQUENCE_NUMBER, be_bytes 4 (gp_sequence_number m))].

#[export] Instance gossip_ping_wire : WireMessage gossip_ping := {
  wire_range := gossip_ping_range;
  wire_fits := gossip_ping_fits;
  serialize := serialize_gossip_ping;
  deserialize := deserialize_gossip_ping
}.

#[export] Instance gossip_ping_laws : WireMessageLaws gossip_ping.
Proof.
  split.
  - cbn [wire_range wire_fits serialize deserialize gossip_ping_wire]. intros m Hr Hf.
    apply (once_roundtrip gossip_ping_zero GP_REQUIRED gossip_ping_step 128 _ (gossip_ping_fields m));
      unfold gossip_ping_range, gossip_ping_fits, gossip_ping_fields in *; destruct m;
      cbn [gp_sender_id gp_incarnation gp_sequence_number] in *; destruct_conj.
    + encode_all.
    + message_fields.
    + done.
    + intros tail. message_run gossip_ping_step.
  - cbn [wire_range deserialize gossip_ping_wire]. intros mem len Ht.
    apply (deserialize_once_total gossip_ping_range); [unfold gossip_ping_range; message_zero| |done].
    unfold gossip_ping_range. intros f m seen Hs Hr. destruct m. cbn [gp_sender_id gp_incarnation gp_sequence_number] in Hr. destruct_conj.
    unfold gossip_ping_step. total_steps.
Qed.

(** [gossip_ack_t] *)
Record gossip_ack := GossipAck {
  ga_sender_id : list Z;
  ga_incarnation : Z;
  ga_sequence_number : Z
}.

Definition gossip_ack_zero : gossip_ack :=
  GossipAck [] 0 0.

Definition ga_set_sender_id (v : list Z) (m : gossip_ack) : gossip_ack :=
  GossipAck v (ga_incarnation m) (ga_sequence_number m).
Definition ga_set_incarnation (v : Z) (m : gossip_ack) : gossip_ack :=
  GossipAck (ga_sender_id m) v (ga_sequence_number m).
Definition ga_set_sequence_number (v : Z) (m : gossip_ack) : gossip_ack :=
  GossipAck (ga_sender_id m) (ga_incarnation m) v.


Definition serialize_gossip_ack (msg : gossip_ack) : result (list Z * nat) :=
  serialize_with 128 (λ enc,
    enc ← put_string FIELD_NODE_ID (ga_sender_id msg) enc;
    enc ← put_uint64 FIELD_INCARNATION (ga_incarnation msg) enc;
    put_uint32 FIELD_SEQUENCE_NUMBER (ga_sequence_number msg) enc).

(** The [switch] of the decoding loop. *)
Definition gossip_ack_step (field : tlv_field) (st : gossip_ack * Z)
    : result (gossip_ack * Z) :=
  let '(msg, seen) := st in
  if f_tag field =? FIELD_NODE_ID then
    v ← get_strncpy 63 field (ga_sender_id msg); Ok (ga_set_sender_id v msg, Z.lor seen GP_SEEN_SENDER_ID)
  else if f_tag field =? FIELD_INCARNATION then
    v ← tlv_field_get_uint64 field; Ok (ga_set_incarnation v msg, Z.lor seen GP_SEEN_INCARNATION)
  else if f_tag field =? FIELD_SEQUENCE_NUMBER then
    v ← tlv_field_get_uint32 field; Ok (ga_set_sequence_number v msg, Z.lor seen GP_SEEN_SEQ)
  else Ok (msg, seen).

Definition deserialize_gossip_ack (buffer : option (list Z)) (len : nat)
    : result gossip_ack :=
  deserialize_once gossip_ack_zero GP_REQUIRED gossip_ack_step buffer len.

Definition gossip_ack_range (m : gossip_ack) : Prop :=
  cstr_fits 63 (ga_sender_id m) ∧
  is_u64 (ga_incarnation m) ∧
  is_u32 (ga_sequence_number m).

Definition gossip_ack_fits (m : gossip_ack) : Prop :=
  True.

Definition gossip_ack_fields (m : gossip_ack) : list tlv :=
  [(TLV_STRING, FIELD_NODE_ID, ga_sender_id m ++ [0])] ++
  [(TLV_UINT64, FIELD_INCARNATION, be_bytes 8 (ga_incarnation m))] ++
  [(TLV_UINT32, FIELD_SEQUENCE_NUMBER, be_bytes 4 (ga_sequence_number m))].

#[export] Instance gossip_ack_wire : WireMessage gossip_ack := {
  wire_range := gossip_ack_range;
  wire_fits := gossip_ack_fits;
  serialize := serialize_gossip_ack;
  deserialize := deserialize_gossip_ack
}.

#[export] Instance gossip_ack_laws : WireMessageLaws gossip_ack.
Proof.
  split.
  - cbn [wire_range wire_fits serialize deserialize gossip_ack_wire]. intros m Hr Hf.
    apply (once_roundtrip gossip_ack_zero GP_REQUIRED gossip_ack_step 128 _ (gossip_ack_fields m));
      unfold gossip_ack_range, gossip_ack_fits, gossip_ack_fields in *; destruct m;
      cbn [ga_sender_id ga_incarnation ga_sequence_number] in *; destruct_conj.
    + encode_all.
    + message_fields.
    + done.
    + intros tail. message_run gossip_ack_step.
  - cbn [wire_range deserialize gossip_ack_wire]. intros mem len Ht.
    apply (deserialize_once_total gossip_ack_range); [unfold gossip_ack_range; message_zero| |done].
    unfold gossip_ack_range. intros f m seen Hs Hr. destruct m. cbn [ga_sender_id ga_incarnation ga_sequence_number] in Hr. destruct_conj.
    unfold gossip_ack_step. total_steps.
Qed.

(** [gossip_indirect_ping_t] *)
Record gossip_indirect_ping := GossipIndirectPing {
  gip_sender_id : list Z;
  gip_target_id : list Z;
  gip_sequence_number : Z
}.

Definition gossip_indirect_ping_zero : gossip_indirect_ping :=
  GossipIndirectPing [] [] 0.

Definition gip_set_sender_id (v : list Z) (m : gossip_indirect_ping) : gossip_indirect_ping :=
  GossipIndirectPing v (gip_target_id m) (gip_sequence_number m).
Definition gip_set_target_id (v : list Z) (m : gossip_indirect_ping) : gossip_indirect_ping :=
  GossipIndirectPing (gip_sender_id m) v (gip_sequence_number m).
Definition gip_set_sequence_number (v : Z) (m : gossip_indirect_ping) : gossip_indirect_ping :=
  GossipIndirectPing (gip_sender_id m) (gip_target_id m) v.

Definition GIP_SEEN_SENDER : Z := Z.shiftl 1 0.
Definition GIP_SEEN_TARGET : Z := Z.shiftl 1 1.
Definition GIP_SEEN_SEQ : Z := Z.shiftl 1 2.
Definition GIP_REQUIRED : Z := Z.lor (Z.lor GIP_SEEN_SENDER GIP_SEEN_TARGET) GIP_SEEN_SEQ.

Definition serialize_gossip_indirect_ping (msg : gossip_indirect_ping) : result (list Z * nat) :=
  serialize_with 128 (λ enc,
    enc ← put_string FIELD_NODE_ID (gip_sender_id msg) enc;
    enc ← put_string FIELD_TARGET_ID (gip_target_id msg) enc;
    put_uint32 FIELD_SEQUENCE_NUMBER (gip_sequence_number msg) enc).

(** The [switch] of the decoding loop. *)
Definition gossip_indirect_ping_step (field : tlv_field) (st : gossip_indirect_ping * Z)
    : result (gossip_indirect_ping * Z) :=
  let '(msg, seen) := st in
  if f_tag field =? FIELD_NODE_ID then
    v ← get_strncpy 63 field (gip_sender_id msg); Ok (gip_set_sender_id v msg, Z.lor seen GIP_SEEN_SENDER)
  else if f_tag field =? FIELD_TARGET_ID then
    v ← get_strncpy 63 field (gip_target_id msg); Ok (gip_set_target_id v msg, Z.lor seen GIP_SEEN_TARGET)
  else if f_tag field =? FIELD_SEQUENCE_NUMBER then
    v ← tlv_field_get_uint32 field; Ok (gip_set_sequence_number v msg, Z.lor seen GIP_SEEN_SEQ)
  else Ok (msg, seen).

Definition deserialize_gossip_indirect_ping (buffer : option (list Z)) (len : nat)
    : result gossip_indirect_ping :=
  deserialize_once gossip_indirect_ping_zero GIP_REQUIRED gossip_indirect_ping_step buffer len.

Definition gossip_indirect_ping_range (m : gossip_indirect_ping) : Prop :=
  cstr_fits 63 (gip_sender_id m) ∧
  cstr_fits 63 (gip_target_id m) ∧
  is_u32 (gip_sequence_number m).

Definition gossip_indirect_ping_fits (m : gossip_indirect_ping) : Prop :=
  True.

Definition gossip_indirect_ping_fields (m : gossip_indirect_ping) : list tlv :=
  [(TLV_STRING, FIELD_NODE_ID, gip_sender_id m ++ [0])] ++
  [(TLV_STRING, FIELD_TARGET_ID, gip_target_id m ++ [0])] ++
  [(TLV_UINT32, FIELD_SEQUENCE_NUMBER, be_bytes 4 (gip_sequence_number m))].

#[export] Instance gossip_indirect_ping_wire : WireMessage gossip_indirect_ping := {
  wire_range := gossip_indirect_ping_range;
  wire_fits := gossip_indirect_ping_fits;
  serialize := serialize_gossip_indirect_ping;
  deserialize := deserialize_gossip_indirect_ping
}.

#[export] Instance gossip_indirect_ping_laws : WireMessageLaws gossip_indirect_ping.
Proof.
  split.
  - cbn [wire_range wire_fits serialize deserialize gossip_indirect_ping_wire]. intros m Hr Hf.
    apply (once_roundtrip gossip_indirect_ping_zero GIP_REQUIRED gossip_indirect_ping_step 128 _ (gossip_indirect_ping_fields m));
      unfold gossip_indirect_ping_range, gossip_indirect_ping_fits, gossip_indirect_ping_fields in *; destruct m;
      cbn [gip_sender_id gip_target_id gip_sequence_number] in *; destruct_conj.
    + encode_all.
    + message_fields.
    + done.
    + intros tail. message_run gossip_indirect_ping_step.
  - cbn [wire_range deserialize gossip_indirect_ping_wire]. intros mem len Ht.
    apply (deserialize_once_total gossip_indirect_ping_range); [unfold gossip_indirect_ping_range; message_zero| |done].
    unfold gossip_indirect_ping_range. intros f m seen Hs Hr. destruct m. cbn [gip_sender_id gip_target_id gip_sequence_number] in Hr. destruct_conj.
    unfold gossip_indirect_ping_step. total_steps.
Qed.

(** ** Membership update: an array of nested node descriptions *)

(** [gossip_node_info_wire_t] *)
Record gossip_node_info_wire := GossipNodeInfoWire {
  gni_node_id : list Z;
  gni_address : list Z;
  gni_port : Z;
  gni_state : Z;
  gni_role : Z;
  gni_incarnation : Z;
  gni_cpu_usage : Z;
  gni_memory_usage : Z
}.

Definition gossip_node_info_wire_zero : gossip_node_info_wire :=
  GossipNodeInfoWire [] [] 0 0 0 0 0 0.

(** [gossip_membership_update_t]; [update_count] is the length of the list. *)
Record gossip_membership_update := GossipMembershipUpdate {
  gmu_sender_id : list Z;
  gmu_updates : list gossip_node_info_wire
}.

Definition gossip_membership_update_zero : gossip_membership_update :=
  GossipMembershipUpdate [] [].

Definition GMU_SEEN_SENDER_ID : Z := Z.shiftl 1 0.
Definition GMU_REQUIRED : Z := GMU_SEEN_SENDER_ID.

(** The body of the loop over [msg->updates]. *)
Definition put_node_info (node : gossip_node_info_wire) (enc : tlv_encoder)
    : result tlv_encoder :=
  put_nested FIELD_NODE_INFO 256 (λ enc,
    enc ← put_string FIELD_NODE_ID (gni_node_id node) enc;
    enc ← put_string FIELD_NODE_ADDRESS (gni_address node) enc;
    enc ← put_uint32 FIELD_NODE_PORT (gni_port node) enc;
    enc ← put_uint32 FIELD_NODE_STATE (gni_state node) enc;
    enc ← put_uint32 FIELD_NODE_ROLE (gni_role node) enc;
    enc ← put_uint64 FIELD_INCARNATION (gni_incarnation node) enc;
    enc ← put_uint8 FIELD_CPU_USAGE (gni_cpu_usage node) enc;
    put_uint8 FIELD_MEMORY_USAGE (gni_memory_usage node) enc) enc.

Definition serialize_gossip_membership_update (msg : gossip_membership_update)
    : result (list Z * nat) :=
  serialize_with 512 (λ enc,
    enc ← put_string FIELD_NODE_ID (gmu_sender_id msg) enc;
    put_list put_node_info (gmu_updates msg) enc).

(** The nested [switch]. *)
Definition node_info_step (nf : tlv_field) (node : gossip_node_info_wire)
    : result gossip_node_info_wire :=
  let '(GossipNodeInfoWire id addr port state role inc cpu mem) := node in
  if f_tag nf =? FIELD_NODE_ID then
    v ← get_strncpy 63 nf id; Ok (GossipNodeInfoWire v addr port state role inc cpu mem)
  else if f_tag nf =? FIELD_NODE_ADDRESS then
    v ← get_strncpy 255 nf addr; Ok (GossipNodeInfoWire id v port state role inc cpu mem)
  else if f_tag nf =? FIELD_NODE_PORT then
    v ← tlv_field_get_uint32 nf; Ok (GossipNodeInfoWire id addr (u16 v) state role inc cpu mem)
  else if f_tag nf =? FIELD_NODE_STATE then
    v ← tlv_field_get_uint32 nf; Ok (GossipNodeInfoWire id addr port v role inc cpu mem)
  else if f_tag nf =? FIELD_NODE_ROLE then
    v ← tlv_field_get_uint32 nf; Ok (GossipNodeInfoWire id addr port state v inc cpu mem)
  else if f_tag nf =? FIELD_INCARNATION then
    v ← tlv_field_get_uint64 nf; Ok (GossipNodeInfoWire id addr port state role v cpu mem)
  else if f_tag nf =? FIELD_CPU_USAGE then
    v ← tlv_field_get_uint8 nf; Ok (GossipNodeInfoWire id addr port state role inc v mem)
  else if f_tag nf =? FIELD_MEMORY_USAGE then
    v ← tlv_field_get_uint8 nf; Ok (GossipNodeInfoWire id addr port state role inc cpu v)
  else Ok node.

(** The first pass: the number of node descriptions. *)
Definition count_node_infos (field : tlv_field) (n : nat) : result nat :=
  Ok (if f_tag field =? FIELD_NODE_INFO then S n else n).

Definition gossip_membership_update_step (node_count : nat) (field : tlv_field)
    (st : gossip_membership_update * Z) : result (gossip_membership_update * Z) :=
  let '(msg, seen) := st in
  let '(GossipMembershipUpdate sender updates) := msg in
  if f_tag field =? FIELD_NODE_ID then
    v ← get_strncpy 63 field sender;
    Ok (GossipMembershipUpdate v updates, Z.lor seen GMU_SEEN_SENDER_ID)
  else if f_tag field =? FIELD_NODE_INFO then
    if (node_count <=? length updates)%nat then Ok (msg, seen) else
    node ← decode_nested node_info_step field gossip_node_info_wire_zero;
    Ok (GossipMembershipUpdate sender (updates ++ [node]), seen)
  else Ok (msg, seen).

Definition deserialize_gossip_membership_update (buffer : option (list Z)) (len : nat)
    : result gossip_membership_update :=
  deserialize_with gossip_membership_update_zero GMU_REQUIRED 0%nat count_node_infos
    gossip_membership_update_step buffer len.

Definition node_info_range (n : gossip_node_info_wire) : Prop :=
  cstr_fits 63 (gni_node_id n) ∧ cstr_fits 255 (gni_address n) ∧ is_u16 (gni_port n) ∧
  is_u32 (gni_state n) ∧ is_u32 (gni_role n) ∧ is_u64 (gni_incarnation n) ∧
  is_u8 (gni_cpu_usage n) ∧ is_u8 (gni_memory_usage n).

Definition gossip_membership_update_range (m : gossip_membership_update) : Prop :=
  cstr_fits 63 (gmu_sender_id m) ∧ Forall node_info_range (gmu_updates m).

Definition gossip_membership_update_fits (m : gossip_membership_update) : Prop :=
  (length (gmu_updates m) ≤ 511)%nat.

#[export] Instance gossip_membership_update_wire : WireMessage gossip_membership_update := {
  wire_range := gossip_membership_update_range;
  wire_fits := gossip_membership_update_fits;
  serialize := serialize_gossip_membership_update;
  deserialize := deserialize_gossip_membership_update
}.

Definition node_info_fields (n : gossip_node_info_wire) : list tlv :=
  [(TLV_STRING, FIELD_NODE_ID, gni_node_id n ++ [0])] ++
  [(TLV_STRING, FIELD_NODE_ADDRESS, gni_address n ++ [0])] ++
  [(TLV_UINT32, FIELD_NODE_PORT, be_bytes 4 (gni_port n))] ++
  [(TLV_UINT32, FIELD_NODE_STATE, be_bytes 4 (gni_state n))] ++
  [(TLV_UINT32, FIELD_NODE_ROLE, be_bytes 4 (gni_role n))] ++
  [(TLV_UINT64, FIELD_INCARNATION, be_bytes 8 (gni_incarnation n))] ++
  [(TLV_UINT8, FIELD_CPU_USAGE, [gni_cpu_usage n])] ++
  [(TLV_UINT8, FIELD_MEMORY_USAGE, [gni_memory_usage n])].

Definition node_info_field (n : gossip_node_info_wire) : tlv :=
  (TLV_BYTES, FIELD_NODE_INFO, fields_bytes (node_info_fields n)).

Definition membership_update_fields (m : gossip_membership_update) : list tlv :=
  [(TLV_STRING, FIELD_NODE_ID, gmu_sender_id m ++ [0])] ++ map node_info_field (gmu_updates m).

Lemma node_info_fit n :
  node_info_range n →
  Forall field_fits (node_info_fields n) ∧
  Z.of_nat (length (fields_bytes (node_info_fields n))) ≤ 2 ^ 20 ∧
  encodes (λ enc, put_node_info n enc) [node_info_field n].
Proof.
  unfold node_info_range. intros Hr.
  assert (Hlen : Z.of_nat (length (fields_bytes (node_info_fields n))) ≤ 2 ^ 20).
  { unfold node_info_fields. rewrite !fields_bytes_app, !length_app. cbn.
    unfold cstr_fits in Hr. rewrite !app_nil_r, !length_app. cbn. lia. }
  split; [|split; [done|]].
  - unfold node_info_fields. destruct_conj. forall_fits.
  - destruct_conj. unfold put_node_info, node_info_field. apply encodes_put_nested.
    + unfold node_info_fields. encode_all.
    + unfold TLV_MAX_FIELD_SIZE. lia.
Qed.

Lemma decode_node_info n more :
  node_info_range n →
  decode_nested node_info_step (TlvField TLV_BYTES FIELD_NODE_INFO
      (Z.of_nat (length (fields_bytes (node_info_fields n))))
      (fields_bytes (node_info_fields n) ++ more)) gossip_node_info_wire_zero = Ok n.
Proof.
  intros Hr. destruct (node_info_fit n Hr) as (Hf & _).
  destruct (fields_fit_ok (node_info_fields n)) as [Hok Hlim]; [split; [done|cbn; lia]|].
  rewrite decode_nested_written by done. clear Hf Hok Hlim.
  unfold node_info_range, node_info_fields in *. destruct n as [id addr port st role inc cpu mm].
  cbn [gni_node_id gni_address gni_port gni_state gni_role gni_incarnation gni_cpu_usage
    gni_memory_usage] in *. destruct_conj.
  assert (is_u32 port) by ulia. unfold gossip_node_info_wire_zero. cbn [app].
  repeat run_field node_info_step. cbn [fold_fields]. by rewrite u16_id.
Qed.

Lemma membership_update_run m tail :
  gossip_membership_update_range m →
  fold_fields (gossip_membership_update_step (length (gmu_updates m)))
    (membership_update_fields m) tail (gossip_membership_update_zero, 0) = Ok (m, GMU_REQUIRED).
Proof.
  intros [Hs Hl]. unfold membership_update_fields. cbn [app].
  eapply eq_trans.
  { eapply fold_fields_step. unfold gossip_membership_update_step,
      gossip_membership_update_zero. cbn [f_tag]. eval_tags. cbv match. written. reflexivity. }
  transitivity (fold_fields (gossip_membership_update_step (length (gmu_updates m)))
    (map node_info_field (gmu_updates m)) tail
    (GossipMembershipUpdate (gmu_sender_id m) [], GMU_REQUIRED)); [reflexivity|].
  rewrite (fold_fields_list _ node_info_field
    (λ l, (GossipMembershipUpdate (gmu_sender_id m) l, GMU_REQUIRED))); [by destruct m|].
  intros l1 a l2 more Heq. rewrite Heq in Hl |- *. apply Forall_app in Hl as [_ Hl].
  apply Forall_cons_iff in Hl as [Ha _].
  unfold gossip_membership_update_step. cbn [node_info_field fst snd f_tag]. eval_tags.
  cbv match. rewrite (proj2 (Nat.leb_gt _ _)) by (rewrite length_app; cbn; lia).
  by rewrite decode_node_info.
Qed.

Lemma membership_update_count m tail :
  fold_fields count_node_infos (membership_update_fields m) tail 0%nat =
    Ok (length (gmu_updates m)).
Proof.
  unfold membership_update_fields. cbn [app fold_fields].
  transitivity (fold_fields count_node_infos (map node_info_field (gmu_updates m)) tail 0%nat);
    [reflexivity|].
  apply (fold_fields_list _ node_info_field (@length _)). intros l1 a l2 more _.
  unfold count_node_infos. cbn [node_info_field fst snd f_tag]. eval_tags. cbv match.
  rewrite length_app. cbn. f_equal. lia.
Qed.

Lemma node_info_step_total f n :
  safe_field f → node_info_range n → ∃ n', node_info_step f n = Ok n' ∧ node_info_range n'.
Proof.
  unfold node_info_range. intros Hs Hr. destruct n.
  cbn [gni_node_id gni_address gni_port gni_state gni_role gni_incarnation gni_cpu_usage
    gni_memory_usage] in *. destruct_conj. unfold node_info_step. total_nested_steps.
Qed.

#[export] Instance gossip_membership_update_laws : WireMessageLaws gossip_membership_update.
Proof.
  split; cbn [wire_range wire_fits serialize deserialize gossip_membership_update_wire].
  - intros m Hr Hf.
    apply (with_roundtrip gossip_membership_update_zero GMU_REQUIRED 0%nat
      (length (gmu_updates m)) count_node_infos gossip_membership_update_step 512 _
      (membership_update_fields m)).
    + destruct Hr as [Hs Hl]. unfold membership_update_fields.
      apply encodes_bind; [eauto with distric|]. apply encodes_put_list.
      intros n Hn. rewrite List.Forall_forall in Hl. apply list_elem_of_In, Hl in Hn.
      by apply node_info_fit.
    + destruct Hr as [Hs Hl].
      apply (fields_fit_list _ _ 511); [apply Forall_singleton; field_fit|intros n Hn|done|cbn; lia].
      rewrite List.Forall_forall in Hl. apply list_elem_of_In, Hl in Hn.
      destruct (node_info_fit n Hn) as (Hfs & ? & _).
      apply field_fits_bytes; [closed_range| |done]. apply fields_bytes_ok.
      eapply Forall_impl; [|exact Hfs]. by intros [[] ?] [].
    + done.
    + intros tail. split; [apply membership_update_count|]. exists GMU_REQUIRED.
      split; [|done]. by apply membership_update_run.
  - intros mem len Ht. apply (deserialize_with_total gossip_membership_update_range); [| | |done].
    + unfold gossip_membership_update_range. message_zero.
    + intros f c _. by eexists.
    + unfold gossip_membership_update_range. intros c f [sender updates] seen Hs Hr.
      cbn [gmu_sender_id gmu_updates] in Hr. destruct_conj.
      unfold gossip_membership_update_step.
      destruct (f_tag f =? FIELD_NODE_ID);
        [total_read; do 2 eexists; split; [reflexivity|]; split_conj; assumption|].
      destruct (f_tag f =? FIELD_NODE_INFO); [|do 2 eexists; split; [reflexivity|]; by split].
      destruct (_ <=? _)%nat; [do 2 eexists; split; [reflexivity|]; by split|].
      destruct (decode_nested_total node_info_step node_info_range f
        gossip_node_info_wire_zero) as (n & -> & Hn);
        [done|apply node_info_step_total|unfold node_info_range; message_zero|].
      cbn [mbind result_bind]. do 2 eexists. split; [reflexivity|].
      split; [done|]. apply Forall_app_2; [done|by apply Forall_singleton].
Qed.
