(* ===== verification/TaskMessages.v ===== *)
(** * Task and client messages (libs/distric_protocol: messages.c, messages.h) *)

From Stdlib Require Import ZArith Lia List.
From S2P Require Import Prelude Tlv WireCore.

Local Open Scope Z_scope.

(** [task_assignment_t] *)
Record task_assignment := TaskAssignment {
  ta_task_id : list Z;
  ta_workflow_id : list Z;
  ta_task_type : list Z;
  ta_config_json : option (list Z);
  ta_input_data : option (list Z);
  ta_input_data_len : nat;
  ta_timeout_sec : Z;
  ta_retry_count : Z
}.

Definition task_assignment_zero : task_assignment :=
  TaskAssignment [] [] [] None None 0%nat 0 0.

Definition ta_set_task_id (v : list Z) (m : task_assignment) : task_assignment :=
  TaskAssignment v (ta_workflow_id m) (ta_task_type m) (ta_config_json m) (ta_input_data m) (ta_input_data_len m) (ta_timeout_sec m) (ta_retry_count m).
Definition ta_set_workflow_id (v : list Z) (m : task_assignment) : task_assignment :=
  TaskAssignment (ta_task_id m) v (ta_task_type m) (ta_config_json m) (ta_input_data m) (ta_input_data_len m) (ta_timeout_sec m) (ta_retry_count m).
Definition ta_set_task_type (v : list Z) (m : task_assignment) : task_assignment :=
  TaskAssignment (ta_task_id m) (ta_workflow_id m) v (ta_config_json m) (ta_input_data m) (ta_input_data_len m) (ta_timeout_sec m) (ta_retry_count m).
Definition ta_set_config_json (v : option (list Z)) (m : task_assignment) : task_assignment :=
  TaskAssignment (ta_task_id m) (ta_workflow_id m) (ta_task_type m) v (ta_input_data m) (ta_input_data_len m) (ta_timeout_sec m) (ta_retry_count m).
Definition ta_set_input_data (v : option (list Z)) (len : nat) (m : task_assignment) : task_assignment :=
  TaskAssignment (ta_task_id m) (ta_workflow_id m) (ta_task_type m) (ta_config_json m) v len (ta_timeout_sec m) (ta_retry_count m).
Definition ta_set_timeout_sec (v : Z) (m : task_assignment) : task_assignment :=
  TaskAssignment (ta_task_id m) (ta_workflow_id m) (ta_task_type m) (ta_config_json m) (ta_input_data m) (ta_input_data_len m) v (ta_retry_count m).
Definition ta_set_retry_count (v : Z) (m : task_assignment) : task_assignment :=
  TaskAssignment (ta_task_id m) (ta_workflow_id m) (ta_task_type m) (ta_config_json m) (ta_input_data m) (ta_input_data_len m) (ta_timeout_sec m) v.

Definition TA_SEEN_TASK_ID : Z := Z.shiftl 1 0.
Definition TA_SEEN_WORKFLOW_ID : Z := Z.shiftl 1 1.
Definition TA_SEEN_TASK_TYPE : Z := Z.shiftl 1 2.
Definition TA_SEEN_TIMEOUT : Z := Z.shiftl 1 3.
Definition TA_REQUIRED : Z := Z.lor (Z.lor (Z.lor TA_SEEN_TASK_ID TA_SEEN_WORKFLOW_ID) TA_SEEN_TASK_TYPE) TA_SEEN_TIMEOUT.

Definition serialize_task_assignment (msg : task_assignment) : result (list Z * nat) :=
  serialize_with 512 (λ enc,
    enc ← put_string FIELD_TASK_ID (ta_task_id msg) enc;
    enc ← put_string FIELD_WORKFLOW_ID (ta_workflow_id msg) enc;
    enc ← put_string FIELD_TASK_TYPE (ta_task_type msg) enc;
    enc ← put_uint32 FIELD_TIMEOUT_SEC (ta_timeout_sec msg) enc;
    enc ← put_uint32 FIELD_RETRY_COUNT (ta_retry_count msg) enc;
    enc ← put_opt_string FIELD_TASK_CONFIG (ta_config_json msg) enc;
    put_opt_bytes FIELD_TASK_INPUT (ta_input_data msg) (ta_input_data_len msg) enc).

(** The [switch] of the decoding loop. *)
Definition task_assignment_step (field : tlv_field) (st : task_assignment * Z)
    : result (task_assignment * Z) :=
  let '(msg, seen) := st in
  if f_tag field =? FIELD_TASK_ID then
    v ← get_strncpy 127 field (ta_task_id msg); Ok (ta_set_task_id v msg, Z.lor seen TA_SEEN_TASK_ID)
  else if f_tag field =? FIELD_WORKFLOW_ID then
    v ← get_strncpy 127 field (ta_workflow_id msg); Ok (ta_set_workflow_id v msg, Z.lor seen TA_SEEN_WORKFLOW_ID)
  else if f_tag field =? FIELD_TASK_TYPE then
    v ← get_strncpy 63 field (ta_task_type msg); Ok (ta_set_task_type v msg, Z.lor seen TA_SEEN_TASK_TYPE)
  else if f_tag field =? FIELD_TIMEOUT_SEC then
    v ← tlv_field_get_uint32 field; Ok (ta_set_timeout_sec v msg, Z.lor seen TA_SEEN_TIMEOUT)
  else if f_tag field =? FIELD_RETRY_COUNT then
    v ← tlv_field_get_uint32 field; Ok (ta_set_retry_count v msg, seen)
  else if f_tag field =? FIELD_TASK_CONFIG then
    v ← get_strdup field (ta_config_json msg); Ok (ta_set_config_json v msg, seen)
  else if f_tag field =? FIELD_TASK_INPUT then
    '(d, len) ← get_bytes_copy field (ta_input_data msg, ta_input_data_len msg);
    Ok (ta_set_input_data d len msg, seen)
  else Ok (msg, seen).

Definition deserialize_task_assignment (buffer : option (list Z)) (len : nat)
    : result task_assignment :=
  deserialize_once task_assignment_zero TA_REQUIRED task_assignment_step buffer len.

Definition task_assignment_range (m : task_assignment) : Prop :=
  cstr_fits 127 (ta_task_id m) ∧
  cstr_fits 127 (ta_workflow_id m) ∧
  cstr_fits 63 (ta_task_type m) ∧
  opt_cstr_ok (ta_config_json m) ∧
  block_ok (ta_input_data m) (ta_input_data_len m) ∧
  is_u32 (ta_timeout_sec m) ∧
  is_u32 (ta_retry_count m).

Definition task_assignment_fits (m : task_assignment) : Prop :=
  opt_string_fits (ta_config_json m) ∧ block_fits (ta_input_data_len m).

Definition task_assignment_fields (m : task_assignment) : list tlv :=
  [(TLV_STRING, FIELD_TASK_ID, ta_task_id m ++ [0])] ++
  [(TLV_STRING, FIELD_WORKFLOW_ID, ta_workflow_id m ++ [0])] ++
  [(TLV_STRING, FIELD_TASK_TYPE, ta_task_type m ++ [0])] ++
  [(TLV_UINT32, FIELD_TIMEOUT_SEC, be_bytes 4 (ta_timeout_sec m))] ++
  [(TLV_UINT32, FIELD_RETRY_COUNT, be_bytes 4 (ta_retry_count m))] ++
  opt_string_fields FIELD_TASK_CONFIG (ta_config_json m) ++
  opt_bytes_fields FIELD_TASK_INPUT (ta_input_data m).

#[export] Instance task_assignment_wire : WireMessage task_assignment := {
  wire_range := task_assignment_range;
  wire_fits := task_assignment_fits;
  serialize := serialize_task_assignment;
  deserialize := deserialize_task_assignment
}.

#[export] Instance task_assignment_laws : WireMessageLaws task_assignment.
Proof.
  split.
  - cbn [wire_range wire_fits serialize deserialize task_assignment_wire]. intros m Hr Hf.
    apply (once_roundtrip task_assignment_zero TA_REQUIRED task_assignment_step 512 _ (task_assignment_fields m));
      unfold task_assignment_range, task_assignment_fits, task_assignment_fields in *; destruct m;
      cbn [ta_task_id ta_workflow_id ta_task_type ta_config_json ta_input_data ta_input_data_len ta_timeout_sec ta_retry_count] in *; destruct_conj.
    + encode_all.
    + message_fields.
    + done.
    + intros tail. message_run task_assignment_step.
  - cbn [wire_range deserialize task_assignment_wire]. intros mem len Ht.
    apply (deserialize_once_total task_assignment_range); [unfold task_assignment_range; message_zero| |done].
    unfold task_assignment_range. intros f m seen Hs Hr. destruct m. cbn [ta_task_id ta_workflow_id ta_task_type ta_config_json ta_input_data ta_input_data_len ta_timeout_sec ta_retry_count] in Hr. destruct_conj.
    unfold task_assignment_step. total_steps.
Qed.

(** [task_result_t] *)
Record task_result := TaskResult {
  tr_task_id : list Z;
  tr_worker_id : list Z;
  tr_status : Z;
  tr_output_data : option (list Z);
  tr_output_data_len : nat;
  tr_error_message : option (list Z);
  tr_exit_code : Z;
  tr_started_at : Z;
  tr_completed_at : Z
}.

Definition task_result_zero : task_result :=
  TaskResult [] [] 0 None 0%nat None 0 0 0.

Definition tr_set_task_id (v : list Z) (m : task_result) : task_result :=
  TaskResult v (tr_worker_id m) (tr_status m) (tr_output_data m) (tr_output_data_len m) (tr_error_message m) (tr_exit_code m) (tr_started_at m) (tr_completed_at m).
Definition tr_set_worker_id (v : list Z) (m : task_result) : task_result :=
  TaskResult (tr_task_id m) v (tr_status m) (tr_output_data m) (tr_output_data_len m) (tr_error_message m) (tr_exit_code m) (tr_started_at m) (tr_completed_at m).
Definition tr_set_status (v : Z) (m : task_result) : task_result :=
  TaskResult (tr_task_id m) (tr_worker_id m) v (tr_output_data m) (tr_output_data_len m) (tr_error_message m) (tr_exit_code m) (tr_started_at m) (tr_completed_at m).
Definition tr_set_output_data (v : option (list Z)) (len : nat) (m : task_result) : task_result :=
  TaskResult (tr_task_id m) (tr_worker_id m) (tr_status m) v len (tr_error_message m) (tr_exit_code m) (tr_started_at m) (tr_completed_at m).
Definition tr_set_error_message (v : option (list Z)) (m : task_result) : task_result :=
  TaskResult (tr_task_id m) (tr_worker_id m) (tr_status m) (tr_output_data m) (tr_output_data_len m) v (tr_exit_code m) (tr_started_at m) (tr_completed_at m).
Definition tr_set_exit_code (v : Z) (m : task_result) : task_result :=
  TaskResult (tr_task_id m) (tr_worker_id m) (tr_status m) (tr_output_data m) (tr_output_data_len m) (tr_error_message m) v (tr_started_at m) (tr_completed_at m).
Definition tr_set_started_at (v : Z) (m : task_result) : task_result :=
  TaskResult (tr_task_id m) (tr_worker_id m) (tr_status m) (tr_output_data m) (tr_output_data_len m) (tr_error_message m) (tr_exit_code m) v (tr_completed_at m).
Definition tr_set_completed_at (v : Z) (m : task_result) : task_result :=
  TaskResult (tr_task_id m) (tr_worker_id m) (tr_status m) (tr_output_data m) (tr_output_data_len m) (tr_error_message m) (tr_exit_code m) (tr_started_at m) v.

Definition TR_SEEN_TASK_ID : Z := Z.shiftl 1 0.
Definition TR_SEEN_WORKER_ID : Z := Z.shiftl 1 1.
Definition TR_SEEN_STATUS : Z := Z.shiftl 1 2.
Definition TR_REQUIRED : Z := Z.lor (Z.lor TR_SEEN_TASK_ID TR_SEEN_WORKER_ID) TR_SEEN_STATUS.

Definition serialize_task_result (msg : task_result) : result (list Z * nat) :=
  serialize_with 1024 (λ enc,
    enc ← put_string FIELD_TASK_ID (tr_task_id msg) enc;
    enc ← put_string FIELD_WORKER_ID (tr_worker_id msg) enc;
    enc ← put_uint32 FIELD_TASK_STATUS (tr_status msg) enc;
    enc ← put_opt_bytes FIELD_TASK_OUTPUT (tr_output_data msg) (tr_output_data_len msg) enc;
    enc ← put_opt_string FIELD_TASK_ERROR (tr_error_message msg) enc;
    enc ← put_int32 FIELD_EXIT_CODE (tr_exit_code msg) enc;
    enc ← put_uint64 FIELD_STARTED_AT (tr_started_at msg) enc;
    put_uint64 FIELD_COMPLETED_AT (tr_completed_at msg) enc).

(** The [switch] of the decoding loop. *)
Definition task_result_step (field : tlv_field) (st : task_result * Z)
    : result (task_result * Z) :=
  let '(msg, seen) := st in
  if f_tag field =? FIELD_TASK_ID then
    v ← get_strncpy 127 field (tr_task_id msg); Ok (tr_set_task_id v msg, Z.lor seen TR_SEEN_TASK_ID)
  else if f_tag field =? FIELD_WORKER_ID then
    v ← get_strncpy 63 field (tr_worker_id msg); Ok (tr_set_worker_id v msg, Z.lor seen TR_SEEN_WORKER_ID)
  else if f_tag field =? FIELD_TASK_STATUS then
    v ← tlv_field_get_uint32 field; Ok (tr_set_status v msg, Z.lor seen TR_SEEN_STATUS)
  else if f_tag field =? FIELD_TASK_OUTPUT then
    '(d, len) ← get_bytes_copy field (tr_output_data msg, tr_output_data_len msg);
    Ok (tr_set_output_data d len msg, seen)
  else if f_tag field =? FIELD_TASK_ERROR then
    v ← get_strdup field (tr_error_message msg); Ok (tr_set_error_message v msg, seen)
  else if f_tag field =? FIELD_EXIT_CODE then
    v ← tlv_field_get_int32 field; Ok (tr_set_exit_code v msg, seen)
  else if f_tag field =? FIELD_STARTED_AT then
    v ← tlv_field_get_uint64 field; Ok (tr_set_started_at v msg, seen)
  else if f_tag field =? FIELD_COMPLETED_AT then
    v ← tlv_field_get_uint64 field; Ok (tr_set_completed_at v msg, seen)
  else Ok (msg, seen).

Definition deserialize_task_result (buffer : option (list Z)) (len : nat)
    : result task_result :=
  deserialize_once task_result_zero TR_REQUIRED task_result_step buffer len.

Definition task_result_range (m : task_result) : Prop :=
  cstr_fits 127 (tr_task_id m) ∧
  cstr_fits 63 (tr_worker_id m) ∧
  is_u32 (tr_status m) ∧
  block_ok (tr_output_data m) (tr_output_data_len m) ∧
  opt_cstr_ok (tr_error_message m) ∧
  is_s32 (tr_exit_code m) ∧
  is_u64 (tr_started_at m) ∧
  is_u64 (tr_completed_at m).

Definition task_result_fits (m : task_result) : Prop :=
  block_fits (tr_output_data_len m) ∧ opt_string_fits (tr_error_message m).

Definition task_result_fields (m : task_result) : list tlv :=
  [(TLV_STRING, FIELD_TASK_ID, tr_task_id m ++ [0])] ++
  [(TLV_STRING, FIELD_WORKER_ID, tr_worker_id m ++ [0])] ++
  [(TLV_UINT32, FIELD_TASK_STATUS, be_bytes 4 (tr_status m))] ++
  opt_bytes_fields FIELD_TASK_OUTPUT (tr_output_data m) ++
  opt_string_fields FIELD_TASK_ERROR (tr_error_message m) ++
  [(TLV_INT32, FIELD_EXIT_CODE, be_bytes 4 (u32 (tr_exit_code m)))] ++
  [(TLV_UINT64, FIELD_STARTED_AT, be_bytes 8 (tr_started_at m))] ++
  [(TLV_UINT64, FIELD_COMPLETED_AT, be_bytes 8 (tr_completed_at m))].

#[export] Instance task_result_wire : WireMessage task_result := {
  wire_range := task_result_range;
  wire_fits := task_result_fits;
  serialize := serialize_task_result;
  deserialize := deserialize_task_result
}.

#[export] Instance task_result_laws : WireMessageLaws task_result.
Proof.
  split.
  - cbn [wire_range wire_fits serialize deserialize task_result_wire]. intros m Hr Hf.
    apply (once_roundtrip task_result_zero TR_REQUIRED task_result_step 1024 _ (task_result_fields m));
      unfold task_result_range, task_result_fits, task_result_fields in *; destruct m;
      cbn [tr_task_id tr_worker_id tr_status tr_output_data tr_output_data_len tr_error_message tr_exit_code tr_started_at tr_completed_at] in *; destruct_conj.
    + encode_all.
    + message_fields.
    + done.
    + intros tail. message_run task_result_step.
  - cbn [wire_range deserialize task_result_wire]. intros mem len Ht.
    apply (deserialize_once_total task_result_range); [unfold task_result_range; message_zero| |done].
    unfold task_result_range. intros f m seen Hs Hr. destruct m. cbn [tr_task_id tr_worker_id tr_status tr_output_data tr_output_data_len tr_error_message tr_exit_code tr_started_at tr_completed_at] in Hr. destruct_conj.
    unfold task_result_step. total_steps.
Qed.

(** [client_submit_t] *)
Record client_submit := ClientSubmit {
  cs_message_id : list Z;
  cs_event_type : list Z;
  cs_payload_json : option (list Z);
  cs_timestamp : Z
}.

Definition client_submit_zero : client_submit :=
  ClientSubmit [] [] None 0.

Definition cs_set_message_id (v : list Z) (m : client_submit) : client_submit :=
  ClientSubmit v (cs_event_type m) (cs_payload_json m) (cs_timestamp m).
Definition cs_set_event_type (v : list Z) (m : client_submit) : client_submit :=
  ClientSubmit (cs_message_id m) v (cs_payload_json m) (cs_timestamp m).
Definition cs_set_payload_json (v : option (list Z)) (m : client_submit) : client_submit :=
  ClientSubmit (cs_message_id m) (cs_event_type m) v (cs_timestamp m).
Definition cs_set_timestamp (v : Z) (m : client_submit) : client_submit :=
  ClientSubmit (cs_message_id m) (cs_event_type m) (cs_payload_json m) v.

Definition CS_SEEN_MSG_ID : Z := Z.shiftl 1 0.
Definition CS_SEEN_EVENT_TYPE : Z := Z.shiftl 1 1.
Definition CS_SEEN_TIMESTAMP : Z := Z.shiftl 1 2.
Definition CS_REQUIRED : Z := Z.lor (Z.lor CS_SEEN_MSG_ID CS_SEEN_EVENT_TYPE) CS_SEEN_TIMESTAMP.

Definition serialize_client_submit (msg : client_submit) : result (list Z * nat) :=
  serialize_with 512 (λ enc,
    enc ← put_string FIELD_MESSAGE_ID (cs_message_id msg) enc;
    enc ← put_string FIELD_EVENT_TYPE (cs_event_type msg) enc;
    enc ← put_uint64 FIELD_TIMESTAMP (cs_timestamp msg) enc;
    put_opt_string FIELD_MESSAGE_PAYLOAD (cs_payload_json msg) enc).

(** The [switch] of the decoding loop. *)
Definition client_submit_step (field : tlv_field) (st : client_submit * Z)
    : result (client_submit * Z) :=
  let '(msg, seen) := st in
  if f_tag field =? FIELD_MESSAGE_ID then
    v ← get_strncpy 127 field (cs_message_id msg); Ok (cs_set_message_id v msg, Z.lor seen CS_SEEN_MSG_ID)
  else if f_tag field =? FIELD_EVENT_TYPE then
    v ← get_strncpy 63 field (cs_event_type msg); Ok (cs_set_event_type v msg, Z.lor seen CS_SEEN_EVENT_TYPE)
  else if f_tag field =? FIELD_TIMESTAMP then
    v ← tlv_field_get_uint64 field; Ok (cs_set_timestamp v msg, Z.lor seen CS_SEEN_TIMESTAMP)
  else if f_tag field =? FIELD_MESSAGE_PAYLOAD then
    v ← get_strdup field (cs_payload_json msg); Ok (cs_set_payload_json v msg, seen)
  else Ok (msg, seen).

Definition deserialize_client_submit (buffer : option (list Z)) (len : nat)
    : result client_submit :=
  deserialize_once client_submit_zero CS_REQUIRED client_submit_step buffer len.

Definition client_submit_range (m : client_submit) : Prop :=
  cstr_fits 127 (cs_message_id m) ∧
  cstr_fits 63 (cs_event_type m) ∧
  opt_cstr_ok (cs_payload_json m) ∧
  is_u64 (cs_timestamp m).

Definition client_submit_fits (m : client_submit) : Prop :=
  opt_string_fits (cs_payload_json m).

Definition client_submit_fields (m : client_submit) : list tlv :=
  [(TLV_STRING, FIELD_MESSAGE_ID, cs_message_id m ++ [0])] ++
  [(TLV_STRING, FIELD_EVENT_TYPE, cs_event_type m ++ [0])] ++
  [(TLV_UINT64, FIELD_TIMESTAMP, be_bytes 8 (cs_timestamp m))] ++
  opt_string_fields FIELD_MESSAGE_PAYLOAD (cs_payload_json m).

#[export] Instance client_submit_wire : WireMessage client_submit := {
  wire_range := client_submit_range;
  wire_fits := client_submit_fits;
  serialize := serialize_client_submit;
  deserialize := deserialize_client_submit
}.

#[export] Instance client_submit_laws : WireMessageLaws client_submit.
Proof.
  split.
  - cbn [wire_range wire_fits serialize deserialize client_submit_wire]. intros m Hr Hf.
    apply (once_roundtrip client_submit_zero CS_REQUIRED client_submit_step 512 _ (client_submit_fields m));
      unfold client_submit_range, client_submit_fits, client_submit_fields in *; destruct m;
      cbn [cs_message_id cs_event_type cs_payload_json cs_timestamp] in *; destruct_conj.
    + encode_all.
    + message_fields.
    + done.
    + intros tail. message_run client_submit_step.
  - cbn [wire_range deserialize client_submit_wire]. intros mem len Ht.
    apply (deserialize_once_total client_submit_range); [unfold client_submit_range; message_zero| |done].
    unfold client_submit_range. intros f m seen Hs Hr. destruct m. cbn [cs_message_id cs_event_type cs_payload_json cs_timestamp] in Hr. destruct_conj.
    unfold client_submit_step. total_steps.
Qed.

(** ** Client response: an array of strings *)

(** [client_response_t]; [workflow_count] is the length of [cr_workflows]. *)
Record client_response := ClientResponse {
  cr_message_id : list Z;
  cr_response_code : Z;
  cr_response_message : option (list Z);
  cr_workflows : list (option (list Z))
}.

Definition client_response_zero : client_response := ClientResponse [] 0 None [].

Definition CR_SEEN_MSG_ID : Z := Z.shiftl 1 0.
Definition CR_SEEN_RESP_CODE : Z := Z.shiftl 1 1.
Definition CR_REQUIRED : Z := Z.lor CR_SEEN_MSG_ID CR_SEEN_RESP_CODE.

Definition serialize_client_response (msg : client_response) : result (list Z * nat) :=
  serialize_with 512 (λ enc,
    enc ← put_string FIELD_MESSAGE_ID (cr_message_id msg) enc;
    enc ← put_uint32 FIELD_RESPONSE_CODE (cr_response_code msg) enc;
    enc ← put_opt_string FIELD_RESPONSE_MESSAGE (cr_response_message msg) enc;
    put_list (put_opt_string FIELD_TRIGGERED) (cr_workflows msg) enc).

(** The first pass: the number of triggered workflows. *)
Definition count_triggered (field : tlv_field) (n : nat) : result nat :=
  Ok (if f_tag field =? FIELD_TRIGGERED then S n else n).

Definition client_response_step (wf_count : nat) (field : tlv_field)
    (st : client_response * Z) : result (client_response * Z) :=
  let '(msg, seen) := st in
  let '(ClientResponse id code rmsg wfs) := msg in
  if f_tag field =? FIELD_MESSAGE_ID then
    v ← get_strncpy 127 field id; Ok (ClientResponse v code rmsg wfs, Z.lor seen CR_SEEN_MSG_ID)
  else if f_tag field =? FIELD_RESPONSE_CODE then
    v ← tlv_field_get_uint32 field;
    Ok (ClientResponse id v rmsg wfs, Z.lor seen CR_SEEN_RESP_CODE)
  else if f_tag field =? FIELD_RESPONSE_MESSAGE then
    v ← get_strdup field rmsg; Ok (ClientResponse id code v wfs, seen)
  else if f_tag field =? FIELD_TRIGGERED then
    if (length wfs <? wf_count)%nat then
      match tlv_field_get_string field with
      | Some s => s ← strdup_read s; Ok (ClientResponse id code rmsg (wfs ++ [Some s]), seen)
      | None => Ok (msg, seen)
      end
    else Ok (msg, seen)
  else Ok (msg, seen).

Definition deserialize_client_response (buffer : option (list Z)) (len : nat)
    : result client_response :=
  deserialize_with client_response_zero CR_REQUIRED 0%nat count_triggered
    client_response_step buffer len.

Definition workflow_range (w : option (list Z)) : Prop :=
  match w with Some s => cstr_ok s | None => False end.

Definition client_response_range (m : client_response) : Prop :=
  cstr_fits 127 (cr_message_id m) ∧ is_u32 (cr_response_code m) ∧
  opt_cstr_ok (cr_response_message m) ∧ Forall workflow_range (cr_workflows m).

Definition client_response_fits (m : client_response) : Prop :=
  opt_string_fits (cr_response_message m) ∧ Forall opt_string_fits (cr_workflows m) ∧
  (length (cr_workflows m) ≤ 509)%nat.

#[export] Instance client_response_wire : WireMessage client_response := {
  wire_range := client_response_range;
  wire_fits := client_response_fits;
  serialize := serialize_client_response;
  deserialize := deserialize_client_response
}.

Definition client_response_head (m : client_response) : list tlv :=
  [(TLV_STRING, FIELD_MESSAGE_ID, cr_message_id m ++ [0])] ++
  [(TLV_UINT32, FIELD_RESPONSE_CODE, be_bytes 4 (cr_response_code m))] ++
  opt_string_fields FIELD_RESPONSE_MESSAGE (cr_response_message m).

Definition workflow_field (w : option (list Z)) : tlv :=
  (TLV_STRING, FIELD_TRIGGERED, default [] w ++ [0]).

Definition client_response_fields (m : client_response) : list tlv :=
  client_response_head m ++ map workflow_field (cr_workflows m).

Lemma client_response_run m tail :
  client_response_range m →
  fold_fields (client_response_step (length (cr_workflows m))) (client_response_fields m) tail
    (client_response_zero, 0) = Ok (m, CR_REQUIRED).
Proof.
  intros (Hid & Hcode & Hmsg & Hl). unfold client_response_fields. rewrite fold_fields_app.
  assert (Hhead : ∀ n tail, fold_fields (client_response_step n) (client_response_head m) tail
    (client_response_zero, 0) = Ok (ClientResponse (cr_message_id m) (cr_response_code m)
      (cr_response_message m) [], CR_REQUIRED)).
  { clear Hl. intros n t. unfold client_response_head. destruct m as [id code rmsg wfs].
    cbn [cr_message_id cr_response_code cr_response_message] in *.
    unfold client_response_zero. open_options; repeat run_field client_response_step; reflexivity. }
  rewrite Hhead. cbn [mbind result_bind].
  rewrite (fold_fields_list _ workflow_field (λ l, (ClientResponse (cr_message_id m)
    (cr_response_code m) (cr_response_message m) l, CR_REQUIRED))); [by destruct m|].
  intros l1 a l2 more Heq. rewrite Heq in Hl |- *. apply Forall_app in Hl as [_ Hl].
  apply Forall_cons_iff in Hl as [Ha _]. destruct a as [s|]; [|done].
  unfold client_response_step. cbn [workflow_field fst snd f_tag]. eval_tags. cbv match.
  rewrite (proj2 (Nat.ltb_lt _ _)) by (rewrite length_app; cbn; lia).
  change (default [] (Some s)) with s. rewrite get_string_written. by rewrite strdup_read_app.
Qed.

Lemma client_response_count m tail :
  fold_fields count_triggered (client_response_fields m) tail 0%nat = Ok (length (cr_workflows m)).
Proof.
  unfold client_response_fields. rewrite fold_fields_app.
  replace (fold_fields _ (client_response_head m) _ _) with (Ok 0%nat)
    by (unfold client_response_head; by destruct (cr_response_message m)).
  cbn [mbind result_bind]. apply (fold_fields_list _ workflow_field (@length _)).
  intros l1 a l2 more _. unfold count_triggered. cbn [workflow_field fst snd f_tag]. eval_tags.
  cbv match. rewrite length_app. cbn. f_equal. lia.
Qed.

Lemma workflow_field_fits w :
  workflow_range w → opt_string_fits w →
  field_fits (workflow_field w) ∧ encodes (put_opt_string FIELD_TRIGGERED w) [workflow_field w].
Proof.
  destruct w as [s|]; [|done]. cbn [workflow_range opt_string_fits]. intros Hs Hf. split.
  - by apply field_fits_string; [closed_range|..].
  - by apply (encodes_put_opt_string_fits FIELD_TRIGGERED (Some s)).
Qed.

#[export] Instance client_response_laws : WireMessageLaws client_response.
Proof.
  split; cbn [wire_range wire_fits serialize deserialize client_response_wire].
  - intros m Hr (Hfm & Hfw & Hn).
    assert (Hwf : ∀ w, w ∈ cr_workflows m → field_fits (workflow_field w) ∧
      encodes (put_opt_string FIELD_TRIGGERED w) [workflow_field w]).
    { destruct Hr as (_ & _ & _ & Hl). intros w Hw%list_elem_of_In.
      rewrite List.Forall_forall in Hl, Hfw. by apply workflow_field_fits; auto. }
    apply (with_roundtrip client_response_zero CR_REQUIRED 0%nat (length (cr_workflows m))
      count_triggered client_response_step 512 _ (client_response_fields m)).
    + destruct Hr as (Hid & Hcode & Hmsg & _).
      unfold client_response_fields, client_response_head. rewrite <- !app_assoc.
      do 3 (apply encodes_bind; [eauto with distric|]). apply encodes_put_list.
      intros w Hw. by apply Hwf.
    + destruct Hr as (Hid & Hcode & Hmsg & _). unfold client_response_fields.
      apply (fields_fit_list _ _ 509); [unfold client_response_head; forall_fits| |done|].
      * intros w Hw. by apply Hwf.
      * unfold client_response_head. by destruct (cr_response_message m); cbn; lia.
    + done.
    + intros tail. split; [apply client_response_count|]. exists CR_REQUIRED.
      split; [|done]. by apply client_response_run.
  - intros mem len Ht. apply (deserialize_with_total client_response_range); [| | |done].
    + unfold client_response_range. message_zero.
    + intros f c _. by eexists.
    + unfold client_response_range. intros c f [id code rmsg wfs] seen Hs Hr.
      cbn [cr_message_id cr_response_code cr_response_message cr_workflows] in Hr. destruct_conj.
      unfold client_response_step.
      destruct (f_tag f =? FIELD_TRIGGERED) eqn:He; [|total_steps].
      apply Z.eqb_eq in He. rewrite He. eval_tags. cbv match.
      destruct (_ <? _)%nat; [|do 2 eexists; split; [reflexivity|]; split_conj; assumption].
      destruct (tlv_field_get_string f) as [s|] eqn:Es;
        [|do 2 eexists; split; [reflexivity|]; split_conj; assumption].
      apply get_string_safe in Es as [Hb Hin]; [|done].
      destruct (strdup_read_total s Hb Hin) as (r & -> & Hrr). cbn [mbind result_bind].
      do 2 eexists. split; [reflexivity|]. split_conj; try assumption.
      apply Forall_app_2; [done|by apply Forall_singleton].
Qed.
