(* ===== verification/Wire.v ===== *)
(** * The wire messages together (libs/distric_protocol: messages.c)

    The properties of the message codec, stated once for every kind of message,
    and what the default limits of [tlv_decoder_create] do to messages that go
    beyond them. *)

From Stdlib Require Import ZArith Lia List String.
From S2P Require Import Prelude Tlv WireCore RaftMessages GossipMessages TaskMessages.

Local Open Scope Z_scope.

(** ** Names of the enumerators *)

Definition raft_entry_type_to_string (type : Z) : string :=
  match type with
  | 0 => "NORMAL" | 1 => "CONFIG" | 2 => "NOOP" | _ => "UNKNOWN"
  end%string.

Definition config_change_type_to_string (type : Z) : string :=
  match type with
  | 0 => "ADD_NODE" | 1 => "REMOVE_NODE" | 2 => "REPLACE" | _ => "UNKNOWN"
  end%string.

Definition node_state_to_string (state : Z) : string :=
  match state with
  | 0 => "ALIVE" | 1 => "SUSPECTED" | 2 => "FAILED" | 3 => "LEFT" | _ => "UNKNOWN"
  end%string.

Definition node_role_to_string (role : Z) : string :=
  match role with
  | 0 => "COORDINATOR" | 1 => "WORKER" | _ => "UNKNOWN"
  end%string.

Definition task_status_to_string (status : Z) : string :=
  match status with
  | 0 => "PENDING" | 1 => "RUNNING" | 2 => "COMPLETED" | 3 => "FAILED"
  | 4 => "TIMEOUT" | 5 => "CANCELLED" | _ => "UNKNOWN"
  end%string.

(** ** Every kind of message *)

Inductive wire_message :=
  | WRequestVote (m : raft_request_vote)
  | WRequestVoteResponse (m : raft_request_vote_response)
  | WAppendEntries (m : raft_append_entries)
  | WAppendEntriesResponse (m : raft_append_entries_response)
  | WInstallSnapshot (m : raft_install_snapshot)
  | WInstallSnapshotResponse (m : raft_install_snapshot_response)
  | WConfigurationChange (m : raft_configuration_change)
  | WPing (m : gossip_ping)
  | WAck (m : gossip_ack)
  | WIndirectPing (m : gossip_indirect_ping)
  | WMembershipUpdate (m : gossip_membership_update)
  | WTaskAssignment (m : task_assignment)
  | WTaskResult (m : task_result)
  | WClientSubmit (m : client_submit)
  | WClientResponse (m : client_response).

(** Which [deserialize_*] function the receiver calls. *)
Inductive wire_kind :=
  | KRequestVote | KRequestVoteResponse | KAppendEntries | KAppendEntriesResponse
  | KInstallSnapshot | KInstallSnapshotResponse | KConfigurationChange
  | KPing | KAck | KIndirectPing | KMembershipUpdate
  | KTaskAssignment | KTaskResult | KClientSubmit | KClientResponse.

Definition kind_of (w : wire_message) : wire_kind :=
  match w with
  | WRequestVote _ => KRequestVote
  | WRequestVoteResponse _ => KRequestVoteResponse
  | WAppendEntries _ => KAppendEntries
  | WAppendEntriesResponse _ => KAppendEntriesResponse
  | WInstallSnapshot _ => KInstallSnapshot
  | WInstallSnapshotResponse _ => KInstallSnapshotResponse
  | WConfigurationChange _ => KConfigurationChange
  | WPing _ => KPing
  | WAck _ => KAck
  | WIndirectPing _ => KIndirectPing
  | WMembershipUpdate _ => KMembershipUpdate
  | WTaskAssignment _ => KTaskAssignment
  | WTaskResult _ => KTaskResult
  | WClientSubmit _ => KClientSubmit
  | WClientResponse _ => KClientResponse
  end.

(** Applies a class method to the message inside. *)
Definition with_wire {R} (f : ∀ M, WireMessage M → M → R) (w : wire_message) : R :=
  match w with
  | WRequestVote m => f _ _ m
  | WRequestVoteResponse m => f _ _ m
  | WAppendEntries m => f _ _ m
  | WAppendEntriesResponse m => f _ _ m
  | WInstallSnapshot m => f _ _ m
  | WInstallSnapshotResponse m => f _ _ m
  | WConfigurationChange m => f _ _ m
  | WPing m => f _ _ m
  | WAck m => f _ _ m
  | WIndirectPing m => f _ _ m
  | WMembershipUpdate m => f _ _ m
  | WTaskAssignment m => f _ _ m
  | WTaskResult m => f _ _ m
  | WClientSubmit m => f _ _ m
  | WClientResponse m => f _ _ m
  end.

Definition message_range : wire_message → Prop := with_wire (λ M _ m, wire_range m).
Definition message_fits : wire_message → Prop := with_wire (λ M _ m, wire_fits m).
Definition serialize_message : wire_message → result (list Z * nat) :=
  with_wire (λ M _ m, serialize m).

Definition deserialize_message (k : wire_kind) (buffer : option (list Z)) (len : nat)
    : result wire_message :=
  match k with
  | KRequestVote => m ← deserialize buffer len; Ok (WRequestVote m)
  | KRequestVoteResponse => m ← deserialize buffer len; Ok (WRequestVoteResponse m)
  | KAppendEntries => m ← deserialize buffer len; Ok (WAppendEntries m)
  | KAppendEntriesResponse => m ← deserialize buffer len; Ok (WAppendEntriesResponse m)
  | KInstallSnapshot => m ← deserialize buffer len; Ok (WInstallSnapshot m)
  | KInstallSnapshotResponse => m ← deserialize buffer len; Ok (WInstallSnapshotResponse m)
  | KConfigurationChange => m ← deserialize buffer len; Ok (WConfigurationChange m)
  | KPing => m ← deserialize buffer len; Ok (WPing m)
  | KAck => m ← deserialize buffer len; Ok (WAck m)
  | KIndirectPing => m ← deserialize buffer len; Ok (WIndirectPing m)
  | KMembershipUpdate => m ← deserialize buffer len; Ok (WMembershipUpdate m)
  | KTaskAssignment => m ← deserialize buffer len; Ok (WTaskAssignment m)
  | KTaskResult => m ← deserialize buffer len; Ok (WTaskResult m)
  | KClientSubmit => m ← deserialize buffer len; Ok (WClientSubmit m)
  | KClientResponse => m ← deserialize buffer len; Ok (WClientResponse m)
  end.

Lemma lift_roundtrip `{WireMessageLaws M} (c : M → wire_message) (m : M) :
  wire_range m → wire_fits m →
  ∃ buf len, serialize m = Ok (buf, len) ∧ (len ≤ length buf)%nat ∧
    ∀ tail, (m' ← deserialize (Some (take len buf ++ tail)) len; Ok (c m')) = Ok (c m).
Proof.
  intros Hr Hf. destruct (wire_roundtrip m Hr Hf) as (buf & len & Hs & Hl & Hd).
  exists buf, len. split_and!; [done..|]. intros tail. by rewrite Hd.
Qed.

Lemma lift_total `{WireMessageLaws M} (c : M → wire_message) mem len :
  (∀ m, message_range (c m) = wire_range m) → terminated mem len →
  total_result message_range len (m ← deserialize (Some mem) len; Ok (c m)).
Proof.
  intros Hc Ht. pose proof (wire_total mem len Ht) as Hw.
  destruct (deserialize (Some mem) len) as [m|e|]; cbn in *; [by rewrite Hc|done..].
Qed.

(** C1: for each of the fifteen kinds of message, a message whose members are in
    the range of their C types and within the decoder's default limits (at most 512
    fields, strings and data of at most 1 MiB) is serialised successfully, and
    deserialising the bytes it was given, whatever follows them in the buffer of the
    receiver, gives it back.  Beyond the limits it does not come back
    ([append_entries_truncated], [install_snapshot_oversize_dropped]). *)
Theorem message_roundtrip w :
  message_range w → message_fits w →
  ∃ buf len, serialize_message w = Ok (buf, len) ∧ (len ≤ length buf)%nat ∧
    ∀ tail, deserialize_message (kind_of w) (Some (take len buf ++ tail)) len = Ok w.
Proof. destruct w; intros Hr Hf; cbn [kind_of deserialize_message]; by apply lift_roundtrip. Qed.

(** An AppendEntries with two entries, one of them empty. *)
Definition sample_append_entries : raft_append_entries :=
  RaftAppendEntries 7 [110; 49] 41 6
    [RaftLogEntryWire 7 42 0 (Some [1; 2; 3]) 3; RaftLogEntryWire 7 43 2 None 0] 40.

Lemma message_roundtrip_witness :
  ∃ buf len, serialize_message (WAppendEntries sample_append_entries) = Ok (buf, len) ∧ (len ≤ length buf)%nat ∧
    ∀ tail, deserialize_message KAppendEntries (Some (take len buf ++ tail)) len = Ok (WAppendEntries sample_append_entries).
Proof.
  apply (message_roundtrip (WAppendEntries sample_append_entries)).
  - split; [closed_range|]. split; [split; [repeat constructor; lia|cbn; lia]|].
    split; [closed_range|]. split; [closed_range|]. split; [|closed_range].
    repeat (apply List.Forall_cons || apply List.Forall_nil);
      (split; [closed_range|]; split; [closed_range|]; split; [closed_range|]); cbn.
    + split; [done|]. split; [lia|by_bytes].
    + done.
  - split; [|cbn; lia]. repeat constructor; cbn; lia.
Defined.

(** C10: whatever bytes arrive, and whatever of the fifteen kinds they claim to be,
    deserialising a buffer that has a NUL somewhere after the claimed length (without
    one it can read past the buffer: [request_vote_overread])
    terminates without reading outside of the buffer, fails only with
    INVALID_FORMAT (or INVALID_ARG when empty), and otherwise returns a structure
    whose members are all in range and whose strings fit their arrays. *)
Theorem message_total k mem len :
  terminated mem len →
  match deserialize_message k (Some mem) len with
  | Ok w => message_range w
  | Err e => e = DISTRIC_ERR_INVALID_FORMAT ∨ len = 0%nat ∧ e = DISTRIC_ERR_INVALID_ARG
  | Fault => False
  end.
Proof. destruct k; cbn [deserialize_message]; by apply lift_total. Qed.

Lemma message_total_witness :
  DISTRIC_ERR_INVALID_FORMAT = DISTRIC_ERR_INVALID_FORMAT ∨
  8%nat = 0%nat ∧ DISTRIC_ERR_INVALID_FORMAT = DISTRIC_ERR_INVALID_ARG.
Proof.
  apply (message_total KPing [0x10; 0; 2; 0; 0; 0; 1; 97; 0] 8).
  split; [cbn; lia|]. split; [by_bytes|]. by left.
Defined.

(** ** Beyond the default limits *)

Lemma advance_all_count fs dec :
  0 ≤ d_fields_decoded dec → d_fields_decoded dec + Z.of_nat (length fs) < 2 ^ 32 →
  d_fields_decoded (advance_all dec fs) = d_fields_decoded dec + Z.of_nat (length fs).
Proof.
  revert dec. induction fs as [|[[type tag] d] fs IH]; intros dec H0 Hlt; cbn [advance_all length].
  - cbn. lia.
  - cbn [length] in Hlt. assert (Hc : u32 (d_fields_decoded dec + 1) = d_fields_decoded dec + 1)
      by (apply u32_id; ulia).
    rewrite IH; cbn [advance d_fields_decoded]; rewrite Hc; lia.
Qed.

(** The field after [fs] that the limits of [tlv_decoder_create] stop at. *)
Definition limit_hit (fs : list tlv) (f : tlv) : Prop :=
  length fs = 512%nat ∨
  (f.1.1 = TLV_STRING ∨ f.1.1 = TLV_BYTES) ∧ 2 ^ 20 < Z.of_nat (length f.2).

Lemma decode_loop_limit {St} (step : tlv_field → St → result St) fs f fs' tail dec s :
  Forall tlv_ok (fs ++ f :: fs') → default_limits fs → limit_hit fs f →
  tlv_decoder_create (Some (fields_bytes (fs ++ f :: fs') ++ tail))
    (length (fields_bytes (fs ++ f :: fs'))) = Some dec →
  decode_loop step dec s =
    (s' ← fold_fields step fs (fields_bytes (f :: fs') ++ tail) s; Ok (advance_all dec fs, s')).
Proof.
  intros Hok Hlim Hhit Hdec. apply Forall_app in Hok as [Hoks Hok].
  apply Forall_cons_iff in Hok as [Hokf Hoks']. rewrite fields_bytes_app in Hdec.
  rewrite length_app, <- app_assoc in Hdec.
  assert (Hd0 : d_mem dec = fields_bytes fs ++ fields_bytes (f :: fs') ++ tail ∧
    d_length dec = (length (fields_bytes fs) + length (fields_bytes (f :: fs')))%nat ∧
    d_offset dec = 0%nat ∧ d_max_fields dec = 512 ∧ d_max_string_len dec = 2 ^ 20 ∧
    d_fields_decoded dec = 0).
  { unfold tlv_decoder_create, tlv_decoder_create_with_limits in Hdec.
    destruct (_ =? 0)%nat; [done|]. by injection Hdec as <-. }
  destruct Hd0 as (Hm & Hl & Ho & Hmf & Hms & Hfd).
  eapply decode_loop_create; [done|done| |exact Hdec|]; [lia|].
  exists DISTRIC_ERR_INVALID_FORMAT. destruct f as [[type tag] d].
  destruct (advance_all_eq fs dec) as (Hm2 & Hl2 & Ho2 & Hmf2 & Hms2).
  assert (Hlen512 : Z.of_nat (length fs) ≤ 512) by (destruct Hlim as [H _]; lia).
  apply (tlv_decode_next_limit _ (fields_bytes fs) type tag d (fields_bytes fs' ++ tail)).
  - by rewrite Hm2, Hm, fields_bytes_cons, <- app_assoc.
  - rewrite Ho2, Ho. lia.
  - rewrite Hl2, Hl, fields_bytes_cons, length_app, tlv_bytes_length. lia.
  - done.
  - intros [Hc Hs]. rewrite Hmf2, Hms2, Hmf, Hms, advance_all_count, Hfd in * by lia.
    destruct Hhit as [H512|[Hty Hbig]]; [lia|]. cbn [fst snd] in *. specialize (Hs ltac:(lia) Hty). lia.
Qed.

(** The two skeletons on a buffer that hits a limit: the fields before it decide,
    the rest is ignored. *)
Lemma deserialize_once_limit {M} (zero : M) required step fs f fs' tail :
  Forall tlv_ok (fs ++ f :: fs') → default_limits fs → limit_hit fs f →
  deserialize_once zero required step (Some (fields_bytes (fs ++ f :: fs') ++ tail))
    (length (fields_bytes (fs ++ f :: fs'))) =
  ('(msg, seen) ← fold_fields step fs (fields_bytes (f :: fs') ++ tail) (zero, 0);
   if negb (Z.land seen required =? required) then Err DISTRIC_ERR_INVALID_FORMAT
   else Ok msg).
Proof.
  intros Hok Hlim Hhit. unfold deserialize_once.
  destruct (tlv_validate_buffer_spec (fields_bytes (fs ++ f :: fs') ++ tail)
    (length (fields_bytes (fs ++ f :: fs')))) as (b & Hv & Hb).
  { rewrite length_app. lia. }
  { rewrite take_app_length. by apply fields_bytes_ok. }
  assert (b = true) as -> by (apply Hb; eexists; split; [exact Hok|by rewrite take_app_length]).
  rewrite Hv. clear Hv Hb. destruct (Nat.eqb_spec (length (fields_bytes (fs ++ f :: fs'))) 0) as [H0|Hn].
  { pose proof (fields_bytes_count (fs ++ f :: fs')) as Hc. rewrite length_app in Hc.
    cbn [length] in Hc. lia. }
  cbn [mbind result_bind negb].
  destruct (tlv_decoder_create _ _) as [dec|] eqn:Ed.
  - rewrite (decode_loop_limit step fs f fs' tail dec) by done.
    by destruct (fold_fields step fs _ (zero, 0)) as [[]| |].
  - unfold tlv_decoder_create, tlv_decoder_create_with_limits in Ed.
    by rewrite (proj2 (Nat.eqb_neq _ _) Hn) in Ed.
Qed.

Lemma deserialize_with_limit {M C} (zero : M) required (c0 : C) count step fs f fs' tail :
  Forall tlv_ok (fs ++ f :: fs') → default_limits fs → limit_hit fs f →
  deserialize_with zero required c0 count step (Some (fields_bytes (fs ++ f :: fs') ++ tail))
    (length (fields_bytes (fs ++ f :: fs'))) =
  (c ← fold_fields count fs (fields_bytes (f :: fs') ++ tail) c0;
   '(msg, seen) ← fold_fields (step c) fs (fields_bytes (f :: fs') ++ tail) (zero, 0);
   if negb (Z.land seen required =? required) then Err DISTRIC_ERR_INVALID_FORMAT
   else Ok msg).
Proof.
  intros Hok Hlim Hhit. unfold deserialize_with.
  destruct (tlv_validate_buffer_spec (fields_bytes (fs ++ f :: fs') ++ tail)
    (length (fields_bytes (fs ++ f :: fs')))) as (b & Hv & Hb).
  { rewrite length_app. lia. }
  { rewrite take_app_length. by apply fields_bytes_ok. }
  assert (b = true) as -> by (apply Hb; eexists; split; [exact Hok|by rewrite take_app_length]).
  rewrite Hv. clear Hv Hb. destruct (Nat.eqb_spec (length (fields_bytes (fs ++ f :: fs'))) 0) as [H0|Hn].
  { pose proof (fields_bytes_count (fs ++ f :: fs')) as Hc. rewrite length_app in Hc.
    cbn [length] in Hc. lia. }
  cbn [mbind result_bind negb].
  destruct (tlv_decoder_create _ _) as [dec|] eqn:Ed.
  - rewrite (decode_loop_limit count fs f fs' tail dec) by done.
    destruct (fold_fields count fs _ c0) as [c| |]; [|done..]. cbn [mbind result_bind].
    assert (tlv_decoder_reset (advance_all dec fs) = dec) as ->.
    { rewrite reset_advance_all. unfold tlv_decoder_create, tlv_decoder_create_with_limits in Ed.
      rewrite (proj2 (Nat.eqb_neq _ _) Hn) in Ed. by injection Ed as <-. }
    rewrite (decode_loop_limit (step c) fs f fs' tail dec) by done.
    by destruct (fold_fields (step c) fs _ (zero, 0)) as [[]| |].
  - unfold tlv_decoder_create, tlv_decoder_create_with_limits in Ed.
    by rewrite (proj2 (Nat.eqb_neq _ _) Hn) in Ed.
Qed.

(** A snapshot message without its data. *)
Definition snapshot_head (m : raft_install_snapshot) : list tlv :=
  [(TLV_UINT32, FIELD_TERM, be_bytes 4 (is_term m))] ++
  [(TLV_STRING, FIELD_LEADER_ID, is_leader_id m ++ [0])] ++
  [(TLV_UINT32, FIELD_SNAPSHOT_INDEX, be_bytes 4 (is_last_included_index m))] ++
  [(TLV_UINT32, FIELD_SNAPSHOT_TERM, be_bytes 4 (is_last_included_term m))].

Lemma snapshot_head_ok m :
  raft_install_snapshot_range m →
  fields_fit (snapshot_head m) ∧
  ∀ tail, fold_fields raft_install_snapshot_step (snapshot_head m) tail
      (raft_install_snapshot_zero, 0) = Ok (is_set_data None 0 m, IS_REQUIRED).
Proof.
  unfold raft_install_snapshot_range, snapshot_head. intros Hr. split.
  - destruct m as [t lid i lt d n]. cbn [is_term is_leader_id is_last_included_index is_last_included_term
      is_data is_data_len] in *. destruct Hr as (?&?&?&?&_).
    split; [forall_fits|cbn; lia].
  - intros tail. destruct m as [t lid i lt d n]. cbn [is_term is_leader_id is_last_included_index
      is_last_included_term is_data is_data_len] in *. destruct Hr as (?&?&?&?&_).
    cbn [app]. repeat run_field raft_install_snapshot_step. reflexivity.
Qed.

(** A snapshot larger than one mebibyte is serialised without an error, and its
    receiver accepts the message with [DISTRIC_OK] and no data at all: the decoder
    stops silently at the data field. *)
Theorem install_snapshot_oversize_dropped m d :
  raft_install_snapshot_range m → is_data m = Some d →
  2 ^ 20 < Z.of_nat (is_data_len m) ≤ TLV_MAX_FIELD_SIZE →
  ∃ buf len, serialize_raft_install_snapshot m = Ok (buf, len) ∧
    deserialize_raft_install_snapshot (Some buf) len = Ok (is_set_data None 0 m).
Proof.
  intros Hr Hd Hlen. destruct (snapshot_head_ok m Hr) as (Hfit & Hrun).
  pose proof Hr as (Ht & Hl & Hi & Hlt & Hb). rewrite Hd in Hb.
  pose proof Hb as (Hdl & _ & Hdb).
  set (f := (TLV_BYTES, FIELD_SNAPSHOT_DATA, d)).
  destruct (serialize_with_fields 512 (λ enc,
    enc ← put_uint32 FIELD_TERM (is_term m) enc;
    enc ← put_string FIELD_LEADER_ID (is_leader_id m) enc;
    enc ← put_uint32 FIELD_SNAPSHOT_INDEX (is_last_included_index m) enc;
    enc ← put_uint32 FIELD_SNAPSHOT_TERM (is_last_included_term m) enc;
    put_opt_bytes FIELD_SNAPSHOT_DATA (is_data m) (is_data_len m) enc)
    (snapshot_head m ++ [f])) as (buf & Hs & Hbuf).
  { unfold snapshot_head. rewrite <- !app_assoc.
    do 4 (apply encodes_bind; [eauto with distric|]). rewrite Hd.
    apply (encodes_put_opt_bytes FIELD_SNAPSHOT_DATA (Some d)); [exact Hb|lia]. }
  eexists buf, _. split; [exact Hs|].
  destruct (fields_fit_ok _ Hfit) as [Hok Hlim].
  rewrite <- (take_drop (length (fields_bytes (snapshot_head m ++ [f]))) buf), Hbuf.
  unfold deserialize_raft_install_snapshot. rewrite deserialize_once_limit; [| |done|].
  - rewrite Hrun. reflexivity.
  - apply Forall_app_2; [done|apply Forall_singleton].
    split; [closed_range|]. split; [closed_range|]. split; [done|]. lia.
  - right. cbn [fst snd f]. split; [by right|]. lia.
Qed.

Lemma install_snapshot_oversize_dropped_witness :
  let m := RaftInstallSnapshot 3 [110] 9 2 (Some (repeat 1 (Z.to_nat (2 ^ 20 + 1))))
    (Z.to_nat (2 ^ 20 + 1)) in
  ∃ buf len, serialize_raft_install_snapshot m = Ok (buf, len) ∧
    deserialize_raft_install_snapshot (Some buf) len = Ok (is_set_data None 0 m).
Proof.
  intros m.
  apply (install_snapshot_oversize_dropped m (repeat 1 (Z.to_nat (2 ^ 20 + 1)))); unfold m.
  - split; [closed_range|]. split; [split; [repeat constructor; lia|cbn; lia]|].
    split; [closed_range|]. split; [closed_range|]. cbn [is_data is_data_len block_ok].
    rewrite repeat_length. split; [done|]. split; [lia|].
    apply List.Forall_forall. intros x Hx. apply repeat_spec in Hx. subst. unfold is_u8. lia.
  - reflexivity.
  - cbn [is_data_len]. rewrite Z2Nat.id by lia. unfold TLV_MAX_FIELD_SIZE. lia.
Defined.

(** Of an AppendEntries message with more than 507 entries, the receiver gets the
    first 507 with [DISTRIC_OK]: the five scalar fields and 507 entries exhaust the
    512 fields [tlv_decoder_create] allows, and the rest is dropped silently. *)
Theorem append_entries_truncated m :
  raft_append_entries_range m →
  Forall (λ e, Z.of_nat (lew_data_len e) ≤ 2 ^ 20 - 64) (ae_entries m) →
  (507 < length (ae_entries m))%nat →
  ∃ buf len, serialize_raft_append_entries m = Ok (buf, len) ∧
    deserialize_raft_append_entries (Some buf) len =
      Ok (append_entries_state m (take 507 (ae_entries m))).1.
Proof.
  intros Hr Hsz Hn.
  assert (Hl : Forall entry_fits (ae_entries m)).
  { destruct Hr as (_ & _ & _ & _ & Hes & _). exact (List.Forall_and Hes Hsz). }
  destruct (serialize_with_fields 512 _ _ (append_entries_encodes m Hr Hl)) as (buf & Hs & Hbuf).
  exists buf. eexists. split; [exact Hs|]. clear Hs.
  destruct (drop 507 (ae_entries m)) as [|e es] eqn:Ed.
  { apply (f_equal length) in Ed. rewrite length_drop in Ed. cbn in Ed. lia. }
  set (l := take 507 (ae_entries m)).
  assert (Hsplit : ae_entries m = l ++ e :: es) by (by rewrite <- Ed; unfold l; rewrite take_drop).
  assert (Hl507 : length l = 507%nat) by (unfold l; rewrite length_take; lia).
  rewrite Hsplit in Hl, Hbuf |- *. rewrite map_app, app_assoc in Hbuf |- *.
  pose proof Hl as [Hll Hle]%Forall_app.
  destruct (fields_fit_ok _ (append_entries_fields_fit m l Hr Hll ltac:(lia))) as [Hok Hlim].
  assert (Hok2 : Forall tlv_ok (map log_entry_field (e :: es))).
  { clear -Hle. induction Hle as [|e' l' [Her Hes] _ IH]; constructor; [|done].
    destruct (log_entry_fields_fit e' Her Hes) as ([Hf _]%fields_fit_ok & Hlen & _).
    by apply field_fits_bytes; [closed_range|apply fields_bytes_ok|]. }
  set (fs := append_entries_head m ++ map log_entry_field l) in *.
  rewrite <- (take_drop (length (fields_bytes (fs ++ map log_entry_field (e :: es)))) buf), Hbuf.
  unfold deserialize_raft_append_entries. cbn [map].
  rewrite deserialize_with_limit; [|by apply Forall_app_2|done|].
  - unfold fs. rewrite append_entries_count. cbn [mbind result_bind].
    rewrite fold_fields_app, (append_entries_head_run m) by exact Hr. cbn [mbind result_bind].
    by rewrite (append_entries_run m) by (exact Hll || lia).
  - left. unfold fs. rewrite length_app, length_map, Hl507. reflexivity.
Qed.

Lemma append_entries_truncated_witness :
  let m := RaftAppendEntries 7 [110; 49] 41 6 (repeat (RaftLogEntryWire 7 42 0 None 0) 508) 40 in
  ∃ buf len, serialize_raft_append_entries m = Ok (buf, len) ∧
    deserialize_raft_append_entries (Some buf) len =
      Ok (append_entries_state m (take 507 (ae_entries m))).1.
Proof.
  intros m. apply (append_entries_truncated m); unfold m.
  - split; [closed_range|]. split; [split; [repeat constructor; lia|cbn; lia]|].
    split; [closed_range|]. split; [closed_range|]. split; [|closed_range].
    apply List.Forall_forall. intros e He. apply repeat_spec in He. subst e.
    split; [closed_range|]. split; [closed_range|]. split; [closed_range|done].
  - apply List.Forall_forall. intros e He. apply repeat_spec in He. subst e. cbn. lia.
  - cbn [ae_entries]. rewrite repeat_length. lia.
Defined.

(** A RequestVote whose candidate identifier lacks its NUL and ends the buffer. *)
Definition unterminated_request_vote : list Z :=
  fields_bytes [(TLV_UINT32, FIELD_TERM, be_bytes 4 1);
    (TLV_UINT32, FIELD_LAST_LOG_INDEX, be_bytes 4 1);
    (TLV_UINT32, FIELD_LAST_LOG_TERM, be_bytes 4 1);
    (TLV_STRING, FIELD_CANDIDATE_ID, [110; 49])].

(** The NUL of a string field is never checked: this buffer passes
    [tlv_validate_buffer], and deserialising it reads past its end. *)
Theorem request_vote_overread :
  tlv_validate_buffer (Some unterminated_request_vote)
    (length unterminated_request_vote) = Ok true ∧
  deserialize_raft_request_vote (Some unterminated_request_vote)
    (length unterminated_request_vote) = Fault.
Proof. split; vm_compute; reflexivity. Qed.
