(* ===== verification/CString.v ===== *)
(** * C strings

    The functions of the C library on strings that the code uses to build and
    to parse text: [strstr], [strchr], [atoi] and the conversions of [printf]. *)

From Stdlib Require Import ZArith Lia String Ascii.
From stdpp Require Import base list numbers option.
From S2P Require Import Prelude.

Local Open Scope Z_scope.

(** The bytes of a string literal. *)
Definition str (s : string) : list Z :=
  List.map (λ a, Z.of_N (N_of_ascii a)) (list_ascii_of_string s).

(** The C string at the start of a buffer: what [strlen], [strstr] and the like
    see of it. *)
Fixpoint c_string (bytes : list Z) : list Z :=
  match bytes with
  | [] => []
  | b :: bytes => if b =? 0 then [] else b :: c_string bytes
  end.

(** [strstr]: the suffix that starts with the first occurrence. *)
Fixpoint strstr (s pat : list Z) : option (list Z) :=
  if bool_decide (take (length pat) s = pat) then Some s
  else match s with [] => None | _ :: s => strstr s pat end.

(** [strchr]: what precedes the first occurrence of a character. *)
Fixpoint until_char (c : Z) (s : list Z) : option (list Z) :=
  match s with
  | [] => None
  | b :: s => if b =? c then Some [] else (b ::.) <$> until_char c s
  end.

Definition is_digit (b : Z) : bool := (48 <=? b) && (b <=? 57).

Fixpoint digits_value (acc : Z) (s : list Z) : Z :=
  match s with
  | [] => acc
  | b :: s => if is_digit b then digits_value (acc * 10 + (b - 48)) s else acc
  end.

(** [isspace] *)
Definition is_space (b : Z) : bool := (b =? 32) || ((9 <=? b) && (b <=? 13)).

Fixpoint skip_spaces (s : list Z) : list Z :=
  match s with
  | b :: s' => if is_space b then skip_spaces s' else s
  | [] => []
  end.

(** [atoi]: the behaviour on a value that is not an [int] is undefined. *)
Definition atoi (s : list Z) : result Z :=
  let s := skip_spaces s in
  let v :=
    match s with
    | b :: s' =>
        if b =? 45 then - digits_value 0 s'
        else if b =? 43 then digits_value 0 s' else digits_value 0 s
    | [] => 0
    end in
  if (- 2 ^ 31 <=? v) && (v <? 2 ^ 31) then Ok v else Fault.

(** [%u]; ten digits are enough for 32 bits. *)
Fixpoint decimal_digits (fuel : nat) (n : Z) : list Z :=
  match fuel with
  | O => []
  | S fuel => if n <? 10 then [48 + n] else decimal_digits fuel (n / 10) ++ [48 + n mod 10]
  end.
Definition decimal (n : Z) : list Z := decimal_digits 10 n.

(** ** Lemmas *)

Lemma c_string_id s : Forall (λ b, b ≠ 0) s → c_string s = s.
Proof.
  induction 1 as [|b s Hb _ IH]; simpl; [done|].
  destruct (Z.eqb_spec b 0); [done|]. by rewrite IH.
Qed.

Lemma strstr_here pat rest : strstr (pat ++ rest) pat = Some (pat ++ rest).
Proof.
  assert (take (length pat) (pat ++ rest) = pat) as Ht by apply take_app_length.
  destruct (pat ++ rest) as [|b s] eqn:Hs; simpl; by rewrite bool_decide_eq_true_2.
Qed.

Lemma strstr_step b s pat :
  take (length pat) (b :: s) ≠ pat → strstr (b :: s) pat = strstr s pat.
Proof. intros Hne. simpl. by rewrite bool_decide_eq_false_2. Qed.

Lemma strstr_skip l s c pat :
  Forall (λ b, b ≠ c) l → strstr (l ++ s) (c :: pat) = strstr s (c :: pat).
Proof.
  induction 1 as [|b l Hb _ IH]; [done|].
  rewrite <- IH. change ((b :: l) ++ s) with (b :: (l ++ s)). apply strstr_step.
  simpl. congruence.
Qed.

Lemma until_char_app c v rest : c ∉ v → until_char c (v ++ c :: rest) = Some v.
Proof.
  induction v as [|b v IH]; intros Hv; simpl.
  - by rewrite Z.eqb_refl.
  - apply not_elem_of_cons in Hv as [Hb Hv]. destruct (Z.eqb_spec b c); [congruence|].
    by rewrite IH.
Qed.

Lemma is_digit_range b : is_digit b = true ↔ 48 ≤ b ≤ 57.
Proof. unfold is_digit. rewrite andb_true_iff, !Z.leb_le. done. Qed.

Lemma digits_value_app ds rest acc :
  Forall (λ b, 48 ≤ b ≤ 57) ds →
  digits_value acc (ds ++ rest) = digits_value (digits_value acc ds) rest.
Proof.
  intros Hds. revert acc. induction Hds as [|b ds Hb _ IH]; intros acc; simpl; [done|].
  rewrite (proj2 (is_digit_range b)) by done. apply IH.
Qed.

Lemma decimal_digits_ok fuel n : 0 ≤ n → Forall (λ b, 48 ≤ b ≤ 57) (decimal_digits fuel n).
Proof.
  revert n. induction fuel as [|fuel IH]; intros n Hn; simpl; [constructor|].
  destruct (Z.ltb_spec n 10); [constructor; [lia|constructor]|].
  apply Forall_app_2; [apply IH, Z.div_pos; lia|].
  pose proof (Z.mod_pos_bound n 10). constructor; [lia|constructor].
Qed.

Lemma decimal_digits_value fuel n :
  0 ≤ n < 10 ^ Z.of_nat fuel → digits_value 0 (decimal_digits fuel n) = n.
Proof.
  revert n. induction fuel as [|fuel IH]; intros n Hn; [simpl in *; lia|].
  cbn [decimal_digits]. destruct (Z.ltb_spec n 10) as [Hlt|Hge].
  - cbn [digits_value]. rewrite (proj2 (is_digit_range _)) by lia. lia.
  - pose proof (Z.mod_pos_bound n 10).
    rewrite digits_value_app by (apply decimal_digits_ok, Z.div_pos; lia).
    rewrite IH; [|split; [apply Z.div_pos; lia|]].
    + cbn [digits_value]. rewrite (proj2 (is_digit_range _)) by lia.
      pose proof (Z.div_mod n 10). lia.
    + apply Z.div_lt_upper_bound; [lia|].
      replace (10 * 10 ^ Z.of_nat fuel) with (10 ^ Z.of_nat (S fuel)); [lia|].
      rewrite Nat2Z.inj_succ, Z.pow_succ_r by lia. done.
Qed.

Lemma decimal_digits_cons fuel n :
  0 ≤ n → ∃ b ds, decimal_digits (S fuel) n = b :: ds ∧ 48 ≤ b ≤ 57.
Proof.
  intros Hn. pose proof (decimal_digits_ok (S fuel) n Hn) as Hok.
  destruct (decimal_digits (S fuel) n) as [|b ds] eqn:Hd.
  - simpl in Hd. destruct (n <? 10); [done|]. by destruct (decimal_digits fuel (n / 10)).
  - apply Forall_cons_iff in Hok as [Hb _]. eauto.
Qed.

Lemma atoi_decimal t rest :
  0 ≤ t < 2 ^ 31 → atoi (decimal t ++ 44 :: rest) = Ok t.
Proof.
  intros Ht. unfold decimal.
  pose proof (decimal_digits_value 10 t) as Hv.
  pose proof (decimal_digits_ok 10 t ltac:(lia)) as Hok.
  destruct (decimal_digits_cons 9 t) as (b & ds & Hd & Hb); [lia|].
  assert (Hval : digits_value 0 (decimal_digits 10 t ++ 44 :: rest) = t).
  { rewrite digits_value_app by done. rewrite Hv; [done|]. change (10 ^ Z.of_nat 10) with 10000000000. lia. }
  rewrite Hd in *. unfold atoi. simpl. unfold is_space.
  destruct (Z.eqb_spec b 32); [lia|]. destruct (Z.leb_spec b 13); [lia|].
  rewrite andb_false_r. simpl.
  destruct (Z.eqb_spec b 45); [lia|]. destruct (Z.eqb_spec b 43); [lia|].
  simpl in Hval. rewrite Hval.
  destruct (Z.leb_spec (- 2 ^ 31) t); [|lia]. by destruct (Z.ltb_spec t (2 ^ 31)); [|lia].
Qed.

Lemma decimal_length t : (length (decimal t) ≤ 10)%nat.
Proof.
  unfold decimal. generalize 10%nat. intros fuel. revert t.
  induction fuel as [|fuel IH]; intros t; simpl; [lia|].
  destruct (t <? 10); simpl; [lia|]. rewrite length_app. simpl. specialize (IH (t / 10)). lia.
Qed.

(** [strncpy (dst, src, sizeof (dst) - 1)] of a C string into a zeroed array of
    [n + 1] bytes, and [snprintf (dst, sizeof (dst), ..)] alike. *)
Definition strncpy (n : nat) (s : list Z) : list Z := take n s.
Arguments strncpy : simpl never.

(** [strcmp (a, b) == 0]. *)
Definition streq (a b : list Z) : bool := bool_decide (a = b).

Lemma streq_spec a b : reflect (a = b) (streq a b).
Proof. apply bool_decide_reflect. Qed.

Lemma strncpy_fits n s : cstr_ok s → cstr_ok (strncpy n s) ∧ (length (strncpy n s) ≤ n)%nat.
Proof. intros Hs. split; [by apply Forall_take|]. unfold strncpy. rewrite length_take. lia. Qed.

Lemma strncpy_id n s : (length s ≤ n)%nat → strncpy n s = s.
Proof. apply take_ge. Qed.
