(* ===== verification/RaftLog.v ===== *)
(** * The Raft log and the interface of its persistence layer

    The in-memory log of [src/libs/distric_raft/src/raft_core.c] ([raft_log_t]
    and the [log_*] helpers), and the operations of
    [src/libs/distric_raft/src/raft_persistence.c] the core calls, as a type
    class with its laws: the theorems on the core are proved against the
    laws, [RaftPersistence.v] discharges them for the files on disk. *)

From Stdlib Require Import ZArith Lia List.
From stdpp Require Import base list numbers option.
From S2P Require Import Prelude.

Local Open Scope Z_scope.

(** ** Entries and the log *)

(** [raft_entry_type_t].  A C enumeration is an integer: the wire and the log
    file can put any value in the field. *)
Definition RAFT_ENTRY_COMMAND : Z := 0.
Definition RAFT_ENTRY_CONFIG : Z := 1.
Definition RAFT_ENTRY_NOOP : Z := 2.

(** [raft_log_entry_t]: [data] and [data_len] are the list of the [data_len]
    bytes at [data], the empty list for [NULL] or a zero length. *)
Record raft_log_entry := LogEntry {
  le_index : Z;
  le_term : Z;
  le_type : Z;
  le_data : list Z
}.

#[export] Instance raft_log_entry_eq_dec : EqDecision raft_log_entry.
Proof. solve_decision. Defined.

(** [raft_log_t]: [entries] and [count] are a list; [capacity] is only the
    size of the allocation, which doubles when it is reached. *)
Record raft_log := RaftLog {
  log_entries : list raft_log_entry;
  log_base_index : Z;
  log_base_term : Z
}.

Definition log_count (log : raft_log) : nat := length log.(log_entries).

(** ** What the core calls of the persistence layer

    Every call may fail with an error code, and may change the store even when
    it fails. *)
Class RaftPersistenceOps (P : Type) := {
  raft_persistence_save_state : P → Z → list Z → distric_err * P;
  raft_persistence_load_state : P → result (Z * list Z) * P;
  raft_persistence_append_log : P → raft_log_entry → distric_err * P;
  raft_persistence_load_log : P → result (list raft_log_entry) * P;
  raft_persistence_truncate_log : P → Z → distric_err * P;
  raft_persistence_save_snapshot : P → Z → Z → list Z → distric_err * P
}.

(** The states and the entries the store can hold: what the layer promises is
    promised for these. *)
Definition storable_id (s : list Z) : Prop :=
  cstr_ok s ∧ (length s ≤ 63)%nat ∧ 34 ∉ s.
Definition storable_term (t : Z) : Prop := 0 ≤ t < 2 ^ 31.
Definition storable_entry (e : raft_log_entry) : Prop :=
  is_u32 (le_index e) ∧ is_u32 (le_term e) ∧ is_u8 (le_type e) ∧
  bytes_ok (le_data e) ∧ Z.of_nat (length (le_data e)) < 2 ^ 32.

(** The laws: [reliable] stores are the ones whose calls succeed and do what
    they say; [stored_state] and [stored_log] are what a reader would find. *)
Class RaftPersistenceLaws (P : Type) `{RaftPersistenceOps P} := {
  reliable : P → Prop;
  stored_state : P → option (Z * list Z);
  stored_log : P → list raft_log_entry;
  save_state_reliable p t v :
    reliable p → storable_term t → storable_id v →
    ∃ p', raft_persistence_save_state p t v = (DISTRIC_OK, p') ∧ reliable p' ∧
      stored_state p' = Some (t, v) ∧ stored_log p' = stored_log p;
  save_state_atomic p t v :
    storable_term t → storable_id v →
    stored_state (raft_persistence_save_state p t v).2 = stored_state p ∨
    stored_state (raft_persistence_save_state p t v).2 = Some (t, v);
  load_state_reliable p :
    reliable p →
    ∃ p', raft_persistence_load_state p =
        (match stored_state p with
         | Some s => Ok s
         | None => Err DISTRIC_ERR_NOT_FOUND
         end, p') ∧
      reliable p' ∧ stored_state p' = stored_state p ∧ stored_log p' = stored_log p;
  append_log_reliable p e :
    reliable p → storable_entry e →
    ∃ p', raft_persistence_append_log p e = (DISTRIC_OK, p') ∧ reliable p' ∧
      stored_state p' = stored_state p ∧ stored_log p' = stored_log p ++ [e];
  load_log_reliable p :
    reliable p →
    ∃ p', raft_persistence_load_log p = (Ok (stored_log p), p') ∧ reliable p' ∧
      stored_state p' = stored_state p ∧ stored_log p' = stored_log p;
  truncate_log_reliable p from :
    reliable p →
    ∃ p', raft_persistence_truncate_log p from = (DISTRIC_OK, p') ∧ reliable p' ∧
      stored_state p' = stored_state p ∧
      stored_log p' = filter (λ e, le_index e < from) (stored_log p);
  save_snapshot_reliable p i t d :
    reliable p → Z.of_nat (length d) < 2 ^ 32 →
    ∃ p', raft_persistence_save_snapshot p i t d = (DISTRIC_OK, p') ∧ reliable p' ∧
      stored_state p' = stored_state p ∧ stored_log p' = stored_log p
}.

(** ** Operations on the log *)

Definition raft_log_init : raft_log := RaftLog [] 0 0.

Definition log_get (log : raft_log) (index : Z) : option raft_log_entry :=
  if index <=? log.(log_base_index) then None  (* in snapshot *)
  else
    let offset := u32 (index - log.(log_base_index) - 1) in
    if Z.of_nat (log_count log) <=? offset then None  (* beyond log *)
    else log.(log_entries) !! Z.to_nat offset.

Definition log_last_index (log : raft_log) : Z :=
  match log.(log_entries) with
  | [] => log.(log_base_index)
  | _ => u32 (log.(log_base_index) + Z.of_nat (log_count log))
  end.

Definition log_last_term (log : raft_log) : Z :=
  match list.last log.(log_entries) with
  | None => log.(log_base_term)
  | Some e => le_term e
  end.

Section persistent.
Context {P : Type} `{RaftPersistenceOps P}.

(** [persist_entry]: [p] is [None] when the node has no persistence, or when
    the caller passes no node. *)
Definition persist_entry (p : option P) (e : raft_log_entry) : distric_err * option P :=
  match p with
  | None => (DISTRIC_OK, None)
  | Some p => let '(err, p') := raft_persistence_append_log p e in (err, Some p')
  end.

(** [log_append]: the new entry takes the next index; when persisting it
    fails, the append is undone in memory and the error returned. *)
Definition log_append (log : raft_log) (term type : Z) (data : list Z) (p : option P) :
    distric_err * raft_log * option P :=
  let entry :=
    LogEntry (u32 (log.(log_base_index) + Z.of_nat (log_count log) + 1)) term type data in
  let log' :=
    RaftLog (log.(log_entries) ++ [entry]) log.(log_base_index) log.(log_base_term) in
  let '(err, p') := persist_entry p entry in
  match err with
  | DISTRIC_OK => (DISTRIC_OK, log', p')
  | _ => (err, log, p')
  end.

Definition log_truncate (log : raft_log) (from_index : Z) (p : option P) :
    raft_log * option P :=
  if from_index <=? log.(log_base_index) then (log, p)
  else
    let offset := u32 (from_index - log.(log_base_index) - 1) in
    if Z.of_nat (log_count log) <=? offset then (log, p)
    else
      (RaftLog (take (Z.to_nat offset) log.(log_entries))
         log.(log_base_index) log.(log_base_term),
       match p with
       | None => None
       | Some p => Some (raft_persistence_truncate_log p from_index).2
       end).
End persistent.

(** ** Well-formed logs

    The entry at position [k] has index [base_index + k + 1], and the indices
    stay below the largest [uint32_t]. *)
Definition entry_ok (e : raft_log_entry) : Prop :=
  is_u32 (le_term e) ∧ is_u8 (le_type e) ∧
  bytes_ok (le_data e) ∧ Z.of_nat (length (le_data e)) < 2 ^ 32.

Record log_wf (log : raft_log) : Prop := {
  log_wf_base : is_u32 log.(log_base_index) ∧ is_u32 log.(log_base_term);
  log_wf_bound : log.(log_base_index) + Z.of_nat (log_count log) < UINT32_MAX;
  log_wf_index k e :
    log.(log_entries) !! k = Some e →
    le_index e = log.(log_base_index) + Z.of_nat k + 1;
  log_wf_entries : Forall entry_ok log.(log_entries)
}.

(** Room for [n] more entries. *)
Definition log_room (log : raft_log) (n : nat) : Prop :=
  log.(log_base_index) + Z.of_nat (log_count log) + Z.of_nat n < UINT32_MAX.

Lemma raft_log_init_wf : log_wf raft_log_init.
Proof.
  split; simpl; [ulia|unfold log_count; simpl; ulia| |constructor].
  intros k e; by rewrite lookup_nil.
Qed.

Section lemmas.
Implicit Types log : raft_log.

Lemma log_last_index_wf log :
  log_wf log → log_last_index log = log.(log_base_index) + Z.of_nat (log_count log).
Proof.
  intros [Hb Hn _ _]. unfold log_last_index, log_count in *.
  destruct (log_entries log); [simpl; lia|].
  apply u32_id. destruct Hb as [[? ?] _]. ulia.
Qed.

(** On a well-formed log, [log_get] is the lookup at [index - base - 1]. *)
Lemma log_get_wf log i :
  log_wf log → is_u32 i →
  log_get log i =
    if decide (log.(log_base_index) < i)
    then log.(log_entries) !! Z.to_nat (i - log.(log_base_index) - 1) else None.
Proof.
  intros [[Hb _] Hn _ _] Hi. unfold log_get, log_count in *.
  destruct (decide _); destruct (Z.leb_spec i (log_base_index log)); try lia; [|done].
  assert (u32 (i - log_base_index log - 1) = i - log_base_index log - 1) as ->.
  { apply u32_id. ulia. }
  destruct (Z.leb_spec (Z.of_nat (length (log_entries log))) (i - log_base_index log - 1));
    [|done].
  symmetry. apply lookup_ge_None_2. lia.
Qed.

Lemma log_get_nat log k :
  log_wf log → is_u32 (log.(log_base_index) + Z.of_nat k + 1) →
  log_get log (log.(log_base_index) + Z.of_nat k + 1) = log.(log_entries) !! k.
Proof.
  intros Hwf Hk. rewrite log_get_wf by done.
  rewrite decide_True by (destruct Hwf; ulia). f_equal. lia.
Qed.

Lemma log_get_Some log i e :
  log_wf log → is_u32 i →
  log_get log i = Some e ↔
    log.(log_base_index) < i ∧
    log.(log_entries) !! Z.to_nat (i - log.(log_base_index) - 1) = Some e.
Proof.
  intros Hwf Hi. rewrite log_get_wf by done. destruct (decide _); naive_solver.
Qed.

Lemma log_get_index log i e :
  log_wf log → is_u32 i → log_get log i = Some e → le_index e = i.
Proof.
  intros Hwf Hi [Hlt He]%log_get_Some; [|done..].
  rewrite (log_wf_index _ Hwf _ _ He). destruct Hwf as [[? _] _ _ _]. ulia.
Qed.

Lemma log_get_is_Some log i :
  log_wf log → is_u32 i →
  is_Some (log_get log i) ↔ log.(log_base_index) < i ≤ log_last_index log.
Proof.
  intros Hwf Hi. rewrite log_get_wf, log_last_index_wf by done.
  unfold log_count. destruct (decide _) as [Hd|Hd].
  - rewrite lookup_lt_is_Some. lia.
  - split; [intros [? [=]]|lia].
Qed.

Lemma log_get_None log i :
  log_wf log → is_u32 i →
  log_get log i = None ↔ i ≤ log.(log_base_index) ∨ log_last_index log < i.
Proof.
  intros Hwf Hi. rewrite eq_None_not_Some, log_get_is_Some by done. lia.
Qed.

(** Replacing the entries of a well-formed log by a prefix of them, or
    appending entries with the next indices, keeps it well formed. *)
Lemma log_wf_take log n :
  log_wf log →
  log_wf (RaftLog (take n log.(log_entries)) log.(log_base_index) log.(log_base_term)).
Proof.
  intros [Hb Hn Hi He]. split; simpl; [done| | |by apply Forall_take].
  - unfold log_count in *; simpl. rewrite length_take. lia.
  - intros k e Hk. apply Hi. apply lookup_take_Some in Hk. tauto.
Qed.

Lemma log_wf_snoc log e :
  log_wf log → log_room log 1 → entry_ok e →
  le_index e = log.(log_base_index) + Z.of_nat (log_count log) + 1 →
  log_wf (RaftLog (log.(log_entries) ++ [e]) log.(log_base_index) log.(log_base_term)).
Proof.
  intros [Hb Hn Hi He] Hroom Hok Hidx. unfold log_room, log_count in *.
  split; simpl; [done| | |].
  - unfold log_count; simpl. rewrite length_app; simpl. lia.
  - intros k x [Hk|[Hk Hx]]%lookup_app_Some; [by apply Hi|].
    apply list_lookup_singleton_Some in Hx as [Hk0 ->]. unfold log_count in *. lia.
  - apply Forall_app_2; [done|by constructor].
Qed.

Lemma entry_ok_storable i e :
  is_u32 i → entry_ok e → storable_entry (LogEntry i (le_term e) (le_type e) (le_data e)).
Proof. intros Hi (?&?&?&?). unfold storable_entry; simpl. tauto. Qed.
End lemmas.

(** ** The operations keep the log well formed, whatever the disk does *)
Section operations.
Context {P : Type} `{RaftPersistenceOps P}.
Implicit Types (log : raft_log) (p : option P).

(** The entry [log_append] adds. *)
Definition next_entry log (term type : Z) (data : list Z) : raft_log_entry :=
  LogEntry (log.(log_base_index) + Z.of_nat (log_count log) + 1) term type data.
Definition log_snoc log (e : raft_log_entry) : raft_log :=
  RaftLog (log.(log_entries) ++ [e]) log.(log_base_index) log.(log_base_term).
Definition log_take (n : nat) log : raft_log :=
  RaftLog (take n log.(log_entries)) log.(log_base_index) log.(log_base_term).

Lemma next_entry_u32 log term type data :
  log_wf log →
  LogEntry (u32 (log.(log_base_index) + Z.of_nat (log_count log) + 1)) term type data =
    next_entry log term type data.
Proof.
  intros [[? _] ? _ _]. unfold next_entry. rewrite u32_id; [done|]. ulia.
Qed.

(** Either the entry is appended, or an error is reported and the log is as
    it was: a failed append leaves nothing in memory. *)
Lemma log_append_cases log term type data p :
  log_wf log →
  (∃ p', log_append log term type data p =
           (DISTRIC_OK, log_snoc log (next_entry log term type data), p')) ∨
  (∃ err p', err ≠ DISTRIC_OK ∧ log_append log term type data p = (err, log, p')).
Proof.
  intros Hwf. unfold log_append. rewrite next_entry_u32 by done.
  destruct (persist_entry p _) as [err p']. destruct err; first [left; eexists; reflexivity | right; do 2 eexists; split; [|reflexivity]; discriminate].
Qed.

Lemma log_append_wf log term type data p :
  log_wf log → log_room log 1 → entry_ok (LogEntry 0 term type data) →
  log_wf (log_append log term type data p).1.2.
Proof.
  intros Hwf Hroom Hok.
  destruct (log_append_cases log term type data p Hwf) as [[p' ->]|(err & p' & _ & ->)];
    simpl; [|done].
  by apply log_wf_snoc.
Qed.

Lemma log_truncate_wf log from p :
  log_wf log → log_wf (log_truncate log from p).1.
Proof.
  intros Hwf. unfold log_truncate.
  case_match; [done|]. case_match; [done|]. by apply log_wf_take.
Qed.

(** [log_truncate log from] keeps the entries below [from]. *)
Lemma log_truncate_eq log from p :
  log_wf log → is_u32 from → log.(log_base_index) < from →
  (log_truncate log from p).1 = log_take (Z.to_nat (from - log.(log_base_index) - 1)) log.
Proof.
  intros Hwf Hf Hlt. unfold log_truncate, log_take, log_count.
  destruct (Z.leb_spec from (log_base_index log)); [lia|].
  assert (u32 (from - log_base_index log - 1) = from - log_base_index log - 1) as ->.
  { apply u32_id. destruct Hwf as [[? _] _ _ _]. ulia. }
  destruct (Z.leb_spec (Z.of_nat (length (log_entries log))) (from - log_base_index log - 1));
    simpl; [|done].
  rewrite take_ge by lia. by destruct log.
Qed.
End operations.

#[export] Hint Resolve raft_log_init_wf log_wf_take log_truncate_wf : distric.

(** ** Mirroring: what is on disk is what is in memory *)
Section mirror.
Context {P : Type} `{RaftPersistenceLaws P}.
Implicit Types (log : raft_log) (p : option P).

(** The store of [p], when there is one, is reliable and holds the entries of
    [log]. *)
Definition mirrors_log log p : Prop :=
  match p with
  | None => True
  | Some p => reliable p ∧ stored_log p = log.(log_entries)
  end.

Definition stored_state_opt p : option (option (Z * list Z)) := stored_state <$> p.

Lemma log_append_mirrors log term type data p :
  log_wf log → log_room log 1 → entry_ok (LogEntry 0 term type data) → mirrors_log log p →
  ∃ p', log_append log term type data p =
      (DISTRIC_OK, log_snoc log (next_entry log term type data), p') ∧
    mirrors_log (log_snoc log (next_entry log term type data)) p' ∧
    stored_state_opt p' = stored_state_opt p.
Proof.
  intros Hwf Hroom Hok Hm. unfold log_append. rewrite next_entry_u32 by done.
  unfold persist_entry. destruct p as [p|]; [|by eexists].
  destruct Hm as [Hr Hs].
  destruct (append_log_reliable p (next_entry log term type data)) as (p' & -> & Hr' & Hst & Hl).
  { done. }
  { unfold next_entry, log_room in *.
    pose proof (log_wf_base _ Hwf) as [? _].
    apply (entry_ok_storable _ (LogEntry 0 term type data)); [ulia|done]. }
  exists (Some p'). split_and!; [done| |].
  - simpl. split; [done|]. by rewrite Hl, Hs.
  - unfold stored_state_opt; simpl. by rewrite Hst.
Qed.

(** On contiguous entries, the ones with an index below [from] are a prefix. *)
Lemma filter_index_take (es : list raft_log_entry) base from :
  (∀ k e, es !! k = Some e → le_index e = base + Z.of_nat k + 1) →
  filter (λ e, le_index e < from) es = take (Z.to_nat (from - base - 1)) es.
Proof.
  revert base. induction es as [|e es IH]; intros base Hidx; [by rewrite take_nil|].
  pose proof (Hidx 0%nat e eq_refl) as He.
  rewrite filter_cons.
  assert (Hes : ∀ k x, es !! k = Some x → le_index x = (base + 1) + Z.of_nat k + 1).
  { intros k x Hk. rewrite (Hidx (S k) x Hk). lia. }
  destruct (decide _) as [Hd|Hd].
  - rewrite (IH (base + 1)) by done.
    replace (Z.to_nat (from - base - 1)) with (S (Z.to_nat (from - (base + 1) - 1))) by lia.
    done.
  - rewrite (IH (base + 1)) by done.
    replace (Z.to_nat (from - base - 1)) with 0%nat by lia.
    replace (Z.to_nat (from - (base + 1) - 1)) with 0%nat by lia. done.
Qed.

Lemma log_truncate_mirrors log from p :
  log_wf log → is_u32 from → mirrors_log log p →
  mirrors_log (log_truncate log from p).1 (log_truncate log from p).2 ∧
  stored_state_opt (log_truncate log from p).2 = stored_state_opt p.
Proof.
  intros Hwf Hf Hm. unfold log_truncate.
  destruct (Z.leb_spec from (log_base_index log)); [done|].
  assert (u32 (from - log_base_index log - 1) = from - log_base_index log - 1) as ->.
  { apply u32_id. destruct Hwf as [[? _] _ _ _]. ulia. }
  case_match; [done|]. simpl.
  destruct p as [p|]; [|done]. destruct Hm as [Hr Hs].
  destruct (truncate_log_reliable p from Hr) as (p' & Htr & Hr' & Hst & Hl).
  simpl. rewrite Htr. simpl. split; [split; [done|]|].
  - rewrite Hl, Hs. apply filter_index_take. intros k e. apply (log_wf_index _ Hwf).
  - unfold stored_state_opt; simpl. by rewrite Hst.
Qed.
End mirror.

(** ** The reference store

    What the persistence layer is meant to be: a state and a list of entries
    that no call fails to update. *)
Record mem_store := MemStore {
  ms_state : option (Z * list Z);
  ms_log : list raft_log_entry
}.

#[export] Instance mem_store_ops : RaftPersistenceOps mem_store := {
  raft_persistence_save_state s t v := (DISTRIC_OK, MemStore (Some (t, v)) (ms_log s));
  raft_persistence_load_state s :=
    (match ms_state s with Some st => Ok st | None => Err DISTRIC_ERR_NOT_FOUND end, s);
  raft_persistence_append_log s e := (DISTRIC_OK, MemStore (ms_state s) (ms_log s ++ [e]));
  raft_persistence_load_log s := (Ok (ms_log s), s);
  raft_persistence_truncate_log s from :=
    (DISTRIC_OK, MemStore (ms_state s) (filter (λ e, le_index e < from) (ms_log s)));
  raft_persistence_save_snapshot s _ _ _ := (DISTRIC_OK, s)
}.

#[export] Instance mem_store_laws : RaftPersistenceLaws mem_store.
Proof.
  refine {| reliable _ := True; stored_state := ms_state; stored_log := ms_log |};
    intros; simpl; eauto 10.
Defined.
