(* ===== verification/RaftPersistence.v ===== *)
(** * The Raft persistence layer

    [src/libs/distric_raft/src/raft_persistence.c]: the state file with its
    atomic replacement, the log file and the snapshot file, over a model of the
    file system calls.

    A [disk] holds the files of the data directory as a reader of the process
    sees them, and the outcomes of the system calls to come: each call of the
    code that can fail takes the next outcome, and succeeds when none is left.
    A crash of the process keeps the files; the loss of unsynchronised pages in
    a power failure is not modelled.  The paths are built from the data
    directory with distinct suffixes, so they are names here. *)

From Stdlib Require Import ZArith Lia String Ascii.
From stdpp Require Import base list numbers option sets.
From S2P Require Import Prelude Crc32 CString RaftLog.

Local Open Scope Z_scope.

(** ** Files and system calls *)

Inductive path := STATE_PATH | STATE_TMP_PATH | LOG_PATH | SNAPSHOT_PATH | SNAPSHOT_TMP_PATH.

#[export] Instance path_eq_dec : EqDecision path.
Proof. solve_decision. Defined.

(** The outcome of a call: success, failure, or for a read or a write a shorter
    count than asked for. *)
Inductive outcome := IoOk | IoFail | IoShort (n : nat).

Record disk := Disk {
  d_files : path → option (list Z);
  d_outcomes : list outcome;
  d_log_fd : option nat;  (* the offset of [log_fd], [None] when it is -1 *)
  (* what is at [data_dir]: nothing, a directory or something else *)
  d_directory : option bool
}.

Definition set_file (p : path) (c : option (list Z)) (d : disk) : disk :=
  Disk (λ q, if decide (p = q) then c else d.(d_files) q) d.(d_outcomes) d.(d_log_fd) d.(d_directory).
Definition set_log_fd (o : option nat) (d : disk) : disk :=
  Disk d.(d_files) d.(d_outcomes) o d.(d_directory).
Definition set_directory (b : option bool) (d : disk) : disk :=
  Disk d.(d_files) d.(d_outcomes) d.(d_log_fd) b.

(** The outcome of the next call. *)
Definition next_outcome (d : disk) : outcome * disk :=
  match d.(d_outcomes) with
  | [] => (IoOk, d)
  | o :: os => (o, Disk d.(d_files) os d.(d_log_fd) d.(d_directory))
  end.

(** The number of bytes a read or a write of [n] bytes transfers; [None] is -1. *)
Definition transferred (o : outcome) (n : nat) : option nat :=
  match o with
  | IoOk => Some n
  | IoFail => None
  | IoShort k => Some (k `min` n)%nat
  end.

Definition content (p : path) (d : disk) : list Z := default [] (d.(d_files) p).

(** Bytes written at an offset, the gap beyond the end filled with zeros. *)
Definition splice (c : list Z) (off : nat) (bytes : list Z) : list Z :=
  take off c ++ replicate (off - length c) 0 ++ bytes ++ drop (off + length bytes) c.

(** [write (fd, bytes, len)] at offset [off]: the count, and the disk. *)
Definition sys_write (p : path) (off : nat) (bytes : list Z) (d : disk) : option nat * disk :=
  let '(o, d) := next_outcome d in
  match transferred o (length bytes) with
  | None => (None, d)
  | Some k => (Some k, set_file p (Some (splice (content p d) off (take k bytes))) d)
  end.

(** [read (fd, buffer, n)] at offset [off]. *)
Definition sys_read (p : path) (off n : nat) (d : disk) : option (list Z) * disk :=
  let '(o, d) := next_outcome d in
  match transferred o n with
  | None => (None, d)
  | Some k => (Some (take k (drop off (content p d))), d)
  end.

(** Calls that only succeed or fail: [fsync], [fstat], [lseek], [mkdir]. *)
Definition sys_call (d : disk) : bool * disk :=
  let '(o, d) := next_outcome d in
  (match o with IoFail => false | _ => true end, d).

(** [open] with [O_TRUNC | O_CREAT], and [open] with [O_CREAT]. *)
Definition sys_create (p : path) (d : disk) : bool * disk :=
  let '(ok, d) := sys_call d in
  if ok then (true, set_file p (Some []) d) else (false, d).
Definition sys_open_create (p : path) (d : disk) : bool * disk :=
  let '(ok, d) := sys_call d in
  if ok then (true, set_file p (Some (content p d)) d) else (false, d).

Definition sys_unlink (p : path) (d : disk) : disk :=
  let '(ok, d) := sys_call d in
  if ok then set_file p None d else d.

Definition sys_rename (from to : path) (d : disk) : bool * disk :=
  let '(ok, d) := sys_call d in
  if ok then (true, set_file from None (set_file to (d.(d_files) from) d)) else (false, d).

(** ** File utilities *)

Definition ensure_directory (d : disk) : distric_err * disk :=
  match d.(d_directory) with
  | Some true => (DISTRIC_OK, d)
  | Some false => (DISTRIC_ERR_INVALID_ARG, d)
  | None =>
      let '(ok, d) := sys_call d in  (* mkdir *)
      if ok then (DISTRIC_OK, set_directory (Some true) d) else (DISTRIC_ERR_INIT_FAILED, d)
  end.

Definition write_file_atomic (p tmp : path) (data : list Z) (d : disk) : distric_err * disk :=
  let '(ok, d) := sys_create tmp d in
  if negb ok then (DISTRIC_ERR_INIT_FAILED, d)
  else
    let '(written, d) := sys_write tmp 0 data d in
    if negb (bool_decide (written = Some (length data)))
    then (DISTRIC_ERR_INIT_FAILED, sys_unlink tmp d)
    else
      let '(ok, d) := sys_call d in
      if negb ok then (DISTRIC_ERR_INIT_FAILED, sys_unlink tmp d)
      else
        let '(ok, d) := sys_rename tmp p d in
        if negb ok then (DISTRIC_ERR_INIT_FAILED, sys_unlink tmp d)
        else (DISTRIC_OK, d).

(** [read_file]: [Ok None] for a missing or an empty file. *)
Definition read_file (p : path) (d : disk) : result (option (list Z)) * disk :=
  let '(ok, d) := sys_call d in  (* open *)
  if negb ok then (Err DISTRIC_ERR_INIT_FAILED, d)
  else
    match d.(d_files) p with
    | None => (Ok None, d)  (* ENOENT *)
    | Some c =>
        let '(ok, d) := sys_call d in  (* fstat *)
        if negb ok then (Err DISTRIC_ERR_INIT_FAILED, d)
        else if (length c =? 0)%nat then (Ok None, d)
        else
          let '(r, d) := sys_read p 0 (length c) d in
          match r with
          | Some bytes =>
              if (length bytes =? length c)%nat then (Ok (Some bytes), d)
              else (Err DISTRIC_ERR_INIT_FAILED, d)
          | None => (Err DISTRIC_ERR_INIT_FAILED, d)
          end
    end.

(** ** The state file *)

Definition QUOTE : Z := 34.
Definition TERM_KEY : list Z := [QUOTE] ++ str "term" ++ [QUOTE; 58].
Definition VOTE_KEY : list Z := [QUOTE] ++ str "voted_for" ++ [QUOTE; 58; QUOTE].

Definition parse_state_file (buffer : list Z) : result (Z * list Z) :=
  let s := c_string buffer in
  match s with
  | [] => Ok (0, [])
  | _ =>
      term ← match strstr s TERM_KEY with
             | Some t => v ← atoi (drop 7 t); Ok (u32 v)
             | None => Ok 0
             end;
      let voted_for :=
        match strstr s VOTE_KEY with
        | Some t =>
            match until_char QUOTE (drop 13 t) with
            | Some v => if (length v <? 64)%nat then v else []
            | None => []
            end
        | None => []
        end in
      Ok (term, voted_for)
  end.

Definition format_state_file (term : Z) (voted_for : list Z) : result (list Z) :=
  let buffer :=
    [123] ++ TERM_KEY ++ decimal term ++ [44] ++ VOTE_KEY ++ voted_for ++ [QUOTE; 125] in
  if (256 <=? length buffer)%nat then Err DISTRIC_ERR_BUFFER_OVERFLOW else Ok buffer.

Definition raft_persistence_save_state_c (term : Z) (voted_for : list Z) (d : disk) :
    distric_err * disk :=
  match format_state_file term voted_for with
  | Ok content => write_file_atomic STATE_PATH STATE_TMP_PATH content d
  | Err e => (e, d)
  | Fault => (DISTRIC_ERR_INIT_FAILED, d)
  end.

Definition raft_persistence_load_state_c (d : disk) : result (Z * list Z) * disk :=
  let '(r, d) := read_file STATE_PATH d in
  (match r with
   | Ok (Some content) => parse_state_file content
   | Ok None => Err DISTRIC_ERR_NOT_FOUND
   | Err e => Err e
   | Fault => Fault
   end, d).

(** [raft_persistence_save_term] and [raft_persistence_save_vote] rewrite one
    half of the state. *)
Definition raft_persistence_save_term (term : Z) (d : disk) : result unit * disk :=
  let '(st, d) := raft_persistence_load_state_c d in
  let save v := let '(e, d) := raft_persistence_save_state_c term v d in
    (match e with DISTRIC_OK => Ok () | _ => Err e end, d) in
  match st with
  | Ok (_, voted_for) => save voted_for
  | Err DISTRIC_ERR_NOT_FOUND => save []
  | Err e => (Err e, d)
  | Fault => (Fault, d)
  end.

Definition raft_persistence_save_vote (voted_for : list Z) (d : disk) : result unit * disk :=
  let '(st, d) := raft_persistence_load_state_c d in
  let save t := let '(e, d) := raft_persistence_save_state_c t voted_for d in
    (match e with DISTRIC_OK => Ok () | _ => Err e end, d) in
  match st with
  | Ok (term, _) => save term
  | Err DISTRIC_ERR_NOT_FOUND => save 0
  | Err e => (Err e, d)
  | Fault => (Fault, d)
  end.

(** ** The log file *)

Definition LOG_FILE_MAGIC : Z := 0x52414654.
Definition LOG_FILE_VERSION : Z := 1.
Definition SNAPSHOT_MAGIC : Z := 0x534E4150.
Definition SNAPSHOT_VERSION : Z := 1.

(** A write to [log_fd] at its offset, which it advances: true when all bytes
    went out. *)
Definition log_write (bytes : list Z) (d : disk) : bool * disk :=
  match d.(d_log_fd) with
  | None => (false, d)
  | Some off =>
      let '(k, d) := sys_write LOG_PATH off bytes d in
      match k with
      | None => (false, d)
      | Some k => ((k =? length bytes)%nat, set_log_fd (Some (off + k)%nat) d)
      end
  end.

(** A read from [log_fd] at its offset. *)
Definition log_read (n : nat) (d : disk) : option (list Z) * disk :=
  match d.(d_log_fd) with
  | None => (None, d)
  | Some off =>
      let '(r, d) := sys_read LOG_PATH off n d in
      match r with
      | None => (None, d)
      | Some bytes => (Some bytes, set_log_fd (Some (off + length bytes)%nat) d)
      end
  end.

(** [lseek (log_fd, ..)] to the offset [f] computes from the current one. *)
Definition log_seek (f : nat → nat) (d : disk) : bool * disk :=
  match d.(d_log_fd) with
  | None => (false, d)
  | Some off =>
      let '(ok, d) := sys_call d in
      if ok then (true, set_log_fd (Some (f off)) d) else (false, d)
  end.

Definition fd_seek_end (d : disk) : bool * disk :=
  log_seek (λ _, length (content LOG_PATH d)) d.

(** Writes one after the other, up to the first that is not complete. *)
Fixpoint log_writes (chunks : list (list Z)) (d : disk) : bool * disk :=
  match chunks with
  | [] => (true, d)
  | c :: chunks =>
      let '(ok, d) := log_write c d in
      if ok then log_writes chunks d else (false, d)
  end.

Definition write_log_header (d : disk) : distric_err * disk :=
  let '(ok, d) := log_writes [le_bytes 4 LOG_FILE_MAGIC; le_bytes 4 LOG_FILE_VERSION] d in
  (if ok then DISTRIC_OK else DISTRIC_ERR_INIT_FAILED, d).

(** A read of exactly [n] bytes, as a little-endian value. *)
Definition log_read_val (n : nat) (d : disk) : option Z * disk :=
  let '(r, d) := log_read n d in
  (match r with
   | Some bytes => if (length bytes =? n)%nat then Some (le_val bytes) else None
   | None => None
   end, d).

Definition read_log_header (d : disk) : distric_err * disk :=
  let rewrite_header d := write_log_header (log_seek (λ _, 0%nat) d).2 in
  let '(magic, d) := log_read_val 4 d in
  match magic with
  | None => rewrite_header d
  | Some magic =>
      let '(version, d) := log_read_val 4 d in
      match version with
      | None => rewrite_header d
      | Some version =>
          (if negb (magic =? LOG_FILE_MAGIC) then DISTRIC_ERR_INVALID_FORMAT
           else if negb (version =? LOG_FILE_VERSION) then DISTRIC_ERR_INVALID_FORMAT
           else DISTRIC_OK, d)
      end
  end.

Definition raft_persistence_init (d : disk) : distric_err * disk :=
  let '(e, d) := ensure_directory (set_log_fd None d) in
  match e with
  | DISTRIC_OK =>
      let '(ok, d) := sys_open_create LOG_PATH d in
      if negb ok then (DISTRIC_ERR_INIT_FAILED, d)
      else
        let '(e, d) := read_log_header (set_log_fd (Some 0%nat) d) in
        match e with
        | DISTRIC_OK => (DISTRIC_OK, d)
        | _ => (e, set_log_fd None d)
        end
  | _ => (e, d)
  end.

Definition raft_persistence_append_log_c (e : raft_log_entry) (d : disk) : distric_err * disk :=
  let '(ok, d) := fd_seek_end d in
  if negb ok then (DISTRIC_ERR_INIT_FAILED, d)
  else
    let data_len := u32 (Z.of_nat (length (le_data e))) in
    let '(ok, d) := log_writes [le_bytes 4 (le_index e); le_bytes 4 (le_term e);
                                [u8 (le_type e)]; le_bytes 4 data_len] d in
    if negb ok then (DISTRIC_ERR_INIT_FAILED, d)
    else
      let '(ok, d) :=
        if data_len >? 0 then log_write (take (Z.to_nat data_len) (le_data e)) d else (true, d) in
      if negb ok then (DISTRIC_ERR_INIT_FAILED, d)
      else
        let '(ok, d) := sys_call d in  (* fsync *)
        (if ok then DISTRIC_OK else DISTRIC_ERR_INIT_FAILED, d).

(** The four fields of a record header. *)
Definition read_record_header (d : disk) : option (Z * Z * Z * Z) * disk :=
  let '(index, d) := log_read_val 4 d in
  match index with
  | None => (None, d)
  | Some index =>
      let '(term, d) := log_read_val 4 d in
      match term with
      | None => (None, d)
      | Some term =>
          let '(type, d) := log_read_val 1 d in
          match type with
          | None => (None, d)
          | Some type =>
              let '(data_len, d) := log_read_val 4 d in
              (match data_len with
               | None => None
               | Some data_len => Some (index, term, type, data_len)
               end, d)
          end
      end
  end.

(** The first pass of [raft_persistence_load_log] counts the records, seeking
    over their data; [None] is a pass that has not ended after [fuel] records. *)
Fixpoint count_records (fuel : nat) (count : nat) (d : disk) : option (result nat * disk) :=
  match fuel with
  | O => None
  | S fuel =>
      let '(r, d) := log_read 4 d in
      match r with
      | Some [] => Some (Ok count, d)  (* EOF *)
      | Some bytes =>
          if negb (length bytes =? 4)%nat then Some (Err DISTRIC_ERR_INIT_FAILED, d)
          else
            let '(term, d) := log_read_val 4 d in
            let '(type, d) := match term with Some _ => log_read_val 1 d | None => (None, d) end in
            let '(data_len, d) := match type with Some _ => log_read_val 4 d | None => (None, d) end in
            match data_len with
            | None => Some (Err DISTRIC_ERR_INIT_FAILED, d)
            | Some data_len =>
                let '(ok, d) :=
                  if data_len >? 0 then log_seek (λ off, (off + Z.to_nat data_len)%nat) d
                  else (true, d) in
                if ok then count_records fuel (S count) d
                else Some (Err DISTRIC_ERR_INIT_FAILED, d)
            end
      | None => Some (Err DISTRIC_ERR_INIT_FAILED, d)
      end
  end.

(** The second pass reads them. *)
Fixpoint read_records (count : nat) (acc : list raft_log_entry) (d : disk) :
    result (list raft_log_entry) * disk :=
  match count with
  | O => (Ok acc, d)
  | S count =>
      let '(h, d) := read_record_header d in
      match h with
      | None => (Err DISTRIC_ERR_INIT_FAILED, d)
      | Some (index, term, type, data_len) =>
          if data_len >? 0 then
            let '(r, d) := log_read (Z.to_nat data_len) d in
            match r with
            | Some bytes =>
                if (length bytes =? Z.to_nat data_len)%nat
                then read_records count (acc ++ [LogEntry index term type bytes]) d
                else (Err DISTRIC_ERR_INIT_FAILED, d)
            | None => (Err DISTRIC_ERR_INIT_FAILED, d)
            end
          else read_records count (acc ++ [LogEntry index term type []]) d
      end
  end.

(** One record more than the file can hold bounds the first pass. *)
Definition load_fuel (d : disk) : nat := S (length (content LOG_PATH d)).

Definition raft_persistence_load_log_c (d : disk) : result (list raft_log_entry) * disk :=
  let '(ok, d) := log_seek (λ _, 8%nat) d in
  if negb ok then (Err DISTRIC_ERR_INIT_FAILED, d)
  else
    match count_records (load_fuel d) 0 d with
    | None => (Fault, d)
    | Some (Ok 0%nat, d) => (Ok [], d)
    | Some (Ok count, d) =>
        let '(ok, d) := log_seek (λ _, 8%nat) d in
        if negb ok then (Err DISTRIC_ERR_INIT_FAILED, d) else read_records count [] d
    | Some (Err e, d) => (Err e, d)
    | Some (Fault, d) => (Fault, d)
    end.

(** The rewriting loop of [raft_persistence_truncate_log]. *)
Fixpoint rewrite_entries (from : Z) (es : list raft_log_entry) (d : disk) : distric_err * disk :=
  match es with
  | [] => (DISTRIC_OK, d)
  | e :: es =>
      if le_index e <? from then
        let '(err, d) := raft_persistence_append_log_c e d in
        match err with
        | DISTRIC_OK => rewrite_entries from es d
        | _ => (err, d)
        end
      else rewrite_entries from es d
  end.

(** The file is emptied and rewritten in place. *)
Definition raft_persistence_truncate_log_c (from : Z) (d : disk) : distric_err * disk :=
  let '(r, d) := raft_persistence_load_log_c d in
  match r with
  | Err e => (e, d)
  | Fault => (DISTRIC_ERR_INIT_FAILED, d)
  | Ok entries =>
      let '(ok, d) := sys_create LOG_PATH (set_log_fd None d) in
      if negb ok then (DISTRIC_ERR_INIT_FAILED, d)
      else
        let '(e, d) := write_log_header (set_log_fd (Some 0%nat) d) in
        match e with
        | DISTRIC_OK => rewrite_entries from entries d
        | _ => (e, d)
        end
  end.

(** ** The snapshot file *)

(** Writes one after the other to a new file, up to the first that is not
    complete. *)
Fixpoint file_writes (p : path) (off : nat) (chunks : list (list Z)) (d : disk) : bool * disk :=
  match chunks with
  | [] => (true, d)
  | c :: chunks =>
      let '(k, d) := sys_write p off c d in
      if bool_decide (k = Some (length c)) then file_writes p (off + length c) chunks d
      else (false, d)
  end.

Definition raft_persistence_save_snapshot_c (index term : Z) (data : list Z) (d : disk) :
    distric_err * disk :=
  let '(ok, d) := sys_create SNAPSHOT_TMP_PATH d in
  if negb ok then (DISTRIC_ERR_INIT_FAILED, d)
  else
    let crc := crc32_compute data in
    let '(ok, d) := file_writes SNAPSHOT_TMP_PATH 0
      [le_bytes 4 SNAPSHOT_MAGIC; le_bytes 4 SNAPSHOT_VERSION; le_bytes 4 index; le_bytes 4 term;
       le_bytes 4 (u32 (Z.of_nat (length data))); le_bytes 4 crc; data] d in
    if negb ok then (DISTRIC_ERR_INIT_FAILED, sys_unlink SNAPSHOT_TMP_PATH d)
    else
      let '(ok, d) := sys_call d in
      if negb ok then (DISTRIC_ERR_INIT_FAILED, sys_unlink SNAPSHOT_TMP_PATH d)
      else
        let '(ok, d) := sys_rename SNAPSHOT_TMP_PATH SNAPSHOT_PATH d in
        if negb ok then (DISTRIC_ERR_INIT_FAILED, sys_unlink SNAPSHOT_TMP_PATH d)
        else (DISTRIC_OK, d).

(** The six words of the snapshot header, read one after the other. *)
Fixpoint read_words (p : path) (off : nat) (n : nat) (d : disk) : option (list Z) * disk :=
  match n with
  | O => (Some [], d)
  | S n =>
      let '(r, d) := sys_read p off 4 d in
      match r with
      | Some bytes =>
          if (length bytes =? 4)%nat then
            let '(ws, d) := read_words p (off + 4) n d in ((le_val bytes ::.) <$> ws, d)
          else (None, d)
      | None => (None, d)
      end
  end.

Definition raft_persistence_load_snapshot (d : disk) : result (Z * Z * list Z) * disk :=
  let '(ok, d) := sys_call d in  (* open *)
  if negb ok then (Err DISTRIC_ERR_INIT_FAILED, d)
  else
    match d.(d_files) SNAPSHOT_PATH with
    | None => (Err DISTRIC_ERR_NOT_FOUND, d)  (* ENOENT *)
    | Some _ =>
        let '(ws, d) := read_words SNAPSHOT_PATH 0 6 d in
        match ws with
        | Some [magic; version; index; term; data_len; stored_crc32] =>
            if negb (magic =? SNAPSHOT_MAGIC) then (Err DISTRIC_ERR_INVALID_FORMAT, d)
            else if negb (version =? SNAPSHOT_VERSION) then (Err DISTRIC_ERR_INVALID_FORMAT, d)
            else
              let '(r, d) := sys_read SNAPSHOT_PATH 24 (Z.to_nat data_len) d in
              match r with
              | Some data =>
                  if negb (length data =? Z.to_nat data_len)%nat
                  then (Err DISTRIC_ERR_INIT_FAILED, d)
                  else if negb (crc32_compute data =? stored_crc32)
                  then (Err DISTRIC_ERR_INVALID_FORMAT, d)
                  else (Ok (index, term, data), d)
              | None => (Err DISTRIC_ERR_INIT_FAILED, d)
              end
        | _ => (Err DISTRIC_ERR_INIT_FAILED, d)
        end
    end.

#[export] Instance disk_ops : RaftPersistenceOps disk := {
  raft_persistence_save_state d t v := raft_persistence_save_state_c t v d;
  raft_persistence_load_state d := raft_persistence_load_state_c d;
  raft_persistence_append_log d e := raft_persistence_append_log_c e d;
  raft_persistence_load_log d := raft_persistence_load_log_c d;
  raft_persistence_truncate_log d from := raft_persistence_truncate_log_c from d;
  raft_persistence_save_snapshot d i t s := raft_persistence_save_snapshot_c i t s d
}.

(** A sanity check on an empty directory. *)
Definition empty_disk : disk := Disk (λ _, None) [] None None.

Example log_on_disk :
  let d := (raft_persistence_init empty_disk).2 in
  let d := (raft_persistence_append_log_c (LogEntry 1 3 0 [7; 8]) d).2 in
  let d := (raft_persistence_append_log_c (LogEntry 2 3 2 []) d).2 in
  let d := (raft_persistence_append_log_c (LogEntry 3 4 0 [9]) d).2 in
  let d := (raft_persistence_truncate_log_c 3 d).2 in
  let d := (raft_persistence_save_state_c 42 (str "node-3") d).2 in
  let d := (raft_persistence_save_snapshot_c 2 3 [1; 2; 3] d).2 in
  (raft_persistence_load_log_c d).1 = Ok [LogEntry 1 3 0 [7; 8]; LogEntry 2 3 2 []] ∧
  (raft_persistence_load_state_c d).1 = Ok (42, str "node-3") ∧
  (raft_persistence_load_snapshot d).1 = Ok (2, 3, [1; 2; 3]).
Proof. vm_compute. split_and!; reflexivity. Qed.

(** ** What the calls leave alone *)

(** Only the files of [ps] differ; the log descriptor and the directory are the
    same. *)
Definition frame (ps : list path) (d d' : disk) : Prop :=
  (∀ q, q ∉ ps → d'.(d_files) q = d.(d_files) q) ∧
  d'.(d_log_fd) = d.(d_log_fd) ∧ d'.(d_directory) = d.(d_directory).

Lemma frame_refl ps d : frame ps d d.
Proof. done. Qed.

Lemma frame_trans ps d1 d2 d3 : frame ps d1 d2 → frame ps d2 d3 → frame ps d1 d3.
Proof.
  intros (H1 & H2 & H3) (H4 & H5 & H6). split_and!; [|congruence..].
  intros q Hq. by rewrite H4, H1.
Qed.

Lemma frame_weaken ps qs d d' : frame ps d d' → ps ⊆ qs → frame qs d d'.
Proof. intros (H1 & H2) Hs. split; [|done]. intros q Hq. apply H1. set_solver. Qed.

Lemma next_outcome_frame d ps : frame ps d (next_outcome d).2.
Proof. unfold next_outcome. by destruct (d_outcomes d). Qed.

Lemma next_outcome_files d : (next_outcome d).2.(d_files) = d.(d_files).
Proof. unfold next_outcome. by destruct (d_outcomes d). Qed.

Lemma set_file_frame p c d ps : p ∈ ps → frame ps d (set_file p c d).
Proof. intros Hp. split; [|done]. intros q Hq. simpl. case_decide; [set_solver|done]. Qed.

Lemma set_file_same p c d : (set_file p c d).(d_files) p = c.
Proof. simpl. by rewrite decide_True. Qed.

Lemma set_file_other p c d q : p ≠ q → (set_file p c d).(d_files) q = d.(d_files) q.
Proof. intros. simpl. by rewrite decide_False. Qed.

Lemma sys_call_frame d b d' ps : sys_call d = (b, d') → frame ps d d' ∧ d'.(d_files) = d.(d_files).
Proof.
  unfold sys_call. pose proof (next_outcome_frame d ps). pose proof (next_outcome_files d).
  destruct (next_outcome d) as [o d1]. by intros [= _ <-].
Qed.

Lemma sys_create_spec p d b d' :
  sys_create p d = (b, d') →
  frame [p] d d' ∧ (b = true → d'.(d_files) p = Some []).
Proof.
  unfold sys_create. destruct (sys_call d) as [ok d1] eqn:Hc.
  apply (sys_call_frame _ _ _ [p]) in Hc as [Hf _].
  destruct ok; intros [= <- <-]; [|done]. split; [|intros _; apply set_file_same].
  eapply frame_trans; [done|]. apply set_file_frame. set_solver.
Qed.

Lemma splice_end c bytes : splice c (length c) bytes = c ++ bytes.
Proof.
  unfold splice. rewrite take_ge by lia. rewrite Nat.sub_diag. simpl.
  rewrite drop_ge by lia. by rewrite app_nil_r.
Qed.

Lemma sys_write_spec p off bytes d r d' :
  sys_write p off bytes d = (r, d') →
  frame [p] d d' ∧
  (r = Some (length bytes) → d'.(d_files) p = Some (splice (content p d) off bytes)).
Proof.
  unfold sys_write. pose proof (next_outcome_frame d [p]) as Hf.
  pose proof (next_outcome_files d) as Hff.
  destruct (next_outcome d) as [o d1]. simpl in *.
  destruct (transferred o (length bytes)) as [k|] eqn:Ht; intros [= <- <-]; [|done].
  split; [eapply frame_trans; [done|]; apply set_file_frame; set_solver|].
  intros [= ->]. rewrite set_file_same. unfold content. rewrite Hff. f_equal. f_equal.
  by rewrite take_ge by lia.
Qed.

Lemma sys_unlink_frame p d : frame [p] d (sys_unlink p d).
Proof.
  unfold sys_unlink. destruct (sys_call d) as [ok d1] eqn:Hc.
  apply (sys_call_frame _ _ _ [p]) in Hc as [Hf _]. destruct ok; [|done].
  eapply frame_trans; [done|]. apply set_file_frame. set_solver.
Qed.

Lemma sys_rename_spec p q d b d' :
  sys_rename p q d = (b, d') → p ≠ q →
  if b then frame [p; q] d d' ∧ d'.(d_files) q = d.(d_files) p
  else frame [p] d d'.
Proof.
  intros Hr Hpq. revert Hr. unfold sys_rename. destruct (sys_call d) as [ok d1] eqn:Hc.
  pose proof (sys_call_frame _ _ _ [p; q] Hc) as [Hf Hff].
  apply (sys_call_frame _ _ _ [p]) in Hc as [Hf' _].
  destruct ok; intros [= <- <-]; [|done]. split.
  - eapply frame_trans; [done|]. eapply frame_trans; apply set_file_frame; set_solver.
  - rewrite set_file_other by done. by rewrite set_file_same, Hff.
Qed.

(** The atomic replacement: the file is the new data when [DISTRIC_OK] is
    returned, and untouched on every error. *)
Lemma write_file_atomic_spec p tmp data d :
  p ≠ tmp →
  let '(e, d') := write_file_atomic p tmp data d in
  frame [p; tmp] d d' ∧
  (e = DISTRIC_OK ∧ d'.(d_files) p = Some data ∨
   e = DISTRIC_ERR_INIT_FAILED ∧ d'.(d_files) p = d.(d_files) p).
Proof.
  intros Hne. unfold write_file_atomic.
  assert (Hp : ∀ d1 d2, frame [tmp] d1 d2 → d2.(d_files) p = d1.(d_files) p)
    by (intros d1 d2 (Hf & _); apply Hf; set_solver).
  assert (Hw : ∀ d1 d2, frame [tmp] d1 d2 → frame [p; tmp] d1 d2)
    by (intros; eapply frame_weaken; [done|set_solver]).
  destruct (sys_create tmp d) as [ok d1] eqn:H1. apply sys_create_spec in H1 as [Hf1 Hc1].
  destruct ok; simpl; [|split; [by apply Hw|right; split; [done|by apply Hp]]].
  destruct (sys_write tmp 0 data d1) as [r d2] eqn:H2. apply sys_write_spec in H2 as [Hf2 Hc2].
  assert (Hf12 : frame [tmp] d d2) by by eapply frame_trans.
  assert (Herr : ∀ d3, frame [tmp] d2 d3 → frame [p; tmp] d (sys_unlink tmp d3) ∧
    (DISTRIC_ERR_INIT_FAILED = DISTRIC_OK ∧ (sys_unlink tmp d3).(d_files) p = Some data ∨
     DISTRIC_ERR_INIT_FAILED = DISTRIC_ERR_INIT_FAILED ∧
     (sys_unlink tmp d3).(d_files) p = d.(d_files) p)).
  { intros d3 Hf3. assert (frame [tmp] d (sys_unlink tmp d3)) as Hall.
    { eapply frame_trans; [exact Hf12|]. eapply frame_trans; [exact Hf3|apply sys_unlink_frame]. }
    split; [by apply Hw|right; split; [done|by apply Hp]]. }
  destruct (bool_decide_reflect (r = Some (length data))) as [Hr|]; simpl; [|apply Herr, frame_refl].
  specialize (Hc2 Hr). unfold content in Hc2. rewrite Hc1 in Hc2 by done. simpl in Hc2.
  change (splice [] 0 data) with (splice [] (length ([] : list Z)) data) in Hc2.
  rewrite splice_end in Hc2. simpl in Hc2.
  destruct (sys_call d2) as [ok d3] eqn:H3. apply (sys_call_frame _ _ _ [tmp]) in H3 as [Hf3 Hff3].
  destruct ok; simpl; [|by apply Herr].
  destruct (sys_rename tmp p d3) as [ok d4] eqn:H4. apply sys_rename_spec in H4; [|done].
  destruct ok; simpl.
  - destruct H4 as [Hf4 Hc4]. split; [|left; split; [done|by rewrite Hc4, Hff3]].
    eapply frame_trans; [by apply Hw|]. eapply frame_trans; [by apply Hw|].
    eapply frame_weaken; [done|set_solver].
  - apply Herr. by eapply frame_trans.
Qed.

(** ** The codec of the state file *)

Definition state_bytes (t : Z) (v : list Z) : list Z :=
  [123] ++ TERM_KEY ++ decimal t ++ [44] ++ VOTE_KEY ++ v ++ [QUOTE; 125].

Lemma format_state_file_ok t v :
  storable_id v → format_state_file t v = Ok (state_bytes t v).
Proof.
  intros (_ & Hl & _). unfold format_state_file, state_bytes.
  destruct (Nat.leb_spec 256 (length ([123] ++ TERM_KEY ++ decimal t ++ [44] ++ VOTE_KEY ++ v ++ [QUOTE; 125])))
    as [Hle|]; [|done].
  rewrite !length_app in Hle. pose proof (decimal_length t). simpl in Hle. lia.
Qed.

Lemma state_bytes_nonzero t v : 0 ≤ t → cstr_ok v → Forall (λ b, b ≠ 0) (state_bytes t v).
Proof.
  intros Ht Hv. unfold state_bytes.
  repeat apply Forall_app_2; try (by repeat constructor).
  - eapply Forall_impl; [|by apply decimal_digits_ok]. simpl. lia.
  - eapply Forall_impl; [|exact Hv]. simpl. lia.
Qed.

Lemma parse_state_bytes t v :
  storable_term t → storable_id v → parse_state_file (state_bytes t v) = Ok (t, v).
Proof.
  intros Ht (Hv & Hl & Hq). unfold parse_state_file.
  assert (Ht0 : 0 ≤ t) by (unfold storable_term in Ht; lia).
  rewrite c_string_id by by apply state_bytes_nonzero.
  assert (Hterm : strstr (state_bytes t v) TERM_KEY =
    Some (TERM_KEY ++ decimal t ++ [44] ++ VOTE_KEY ++ v ++ [QUOTE; 125])).
  { unfold state_bytes. change TERM_KEY with (QUOTE :: tail TERM_KEY) at 2.
    rewrite strstr_skip by (by repeat constructor). apply strstr_here. }
  assert (Hvote : strstr (state_bytes t v) VOTE_KEY = Some (VOTE_KEY ++ v ++ [QUOTE; 125])).
  { unfold state_bytes. change ([123] ++ TERM_KEY ++ ?x) with
      ([123] ++ [QUOTE] ++ str "term" ++ [QUOTE] ++ [58] ++ x).
    change VOTE_KEY with (QUOTE :: tail VOTE_KEY) at 2.
    rewrite strstr_skip by (by repeat constructor).
    change ([QUOTE] ++ ?x) with (QUOTE :: x). rewrite strstr_step by (cbv -[decimal]; intros Hd; discriminate Hd).
    rewrite strstr_skip by (by repeat constructor).
    change ([QUOTE] ++ ?x) with (QUOTE :: x).
    rewrite strstr_step by (cbv -[decimal]; intros Hd; discriminate Hd).
    rewrite strstr_skip by (by repeat constructor).
    rewrite strstr_skip by (eapply Forall_impl; [|by apply decimal_digits_ok]; unfold QUOTE; simpl; lia).
    rewrite strstr_skip by (by repeat constructor). apply (strstr_here VOTE_KEY). }
  destruct (state_bytes t v) as [|b s] eqn:Hs; [done|].
  rewrite Hterm, Hvote. clear Hterm Hvote.
  change (drop 7 (TERM_KEY ++ ?x)) with x.
  change ([44] ++ ?x) with (44 :: x). rewrite atoi_decimal by done. simpl.
  rewrite drop_0.
  change (v ++ [QUOTE; 125]) with (v ++ QUOTE :: [125]).
  rewrite until_char_app by done.
  rewrite u32_id by (unfold storable_term in Ht; ulia).
  by destruct (Nat.ltb_spec (length v) 64); [|lia].
Qed.

(** ** Disks on which every call succeeds *)

Definition quiet (d : disk) : Prop := d.(d_outcomes) = [].

Lemma quiet_outcome d : quiet d → next_outcome d = (IoOk, d).
Proof. unfold quiet, next_outcome. by intros ->. Qed.

Lemma quiet_call d : quiet d → sys_call d = (true, d).
Proof. intros Hq. unfold sys_call. by rewrite quiet_outcome. Qed.

Lemma quiet_write p off bytes d :
  quiet d → sys_write p off bytes d =
    (Some (length bytes), set_file p (Some (splice (content p d) off bytes)) d).
Proof. intros Hq. unfold sys_write. rewrite quiet_outcome by done. simpl. by rewrite take_ge by lia. Qed.

Lemma quiet_read p off n d :
  quiet d → sys_read p off n d = (Some (take n (drop off (content p d))), d).
Proof. intros Hq. unfold sys_read. by rewrite quiet_outcome. Qed.

Lemma quiet_read_file p d :
  quiet d →
  read_file p d =
    (Ok (match d.(d_files) p with Some (b :: c) => Some (b :: c) | _ => None end), d).
Proof.
  intros Hq. unfold read_file. rewrite quiet_call by done. simpl.
  destruct (d_files d p) as [c|] eqn:Hc; [|done].
  rewrite !quiet_call by done. simpl. destruct c as [|b c]; simpl; [done|].
  rewrite quiet_read by done. unfold content. rewrite Hc. simpl.
  rewrite take_ge by (simpl; lia). simpl. by rewrite Nat.eqb_refl.
Qed.

Lemma quiet_atomic p tmp data d :
  quiet d → p ≠ tmp →
  ∃ d', write_file_atomic p tmp data d = (DISTRIC_OK, d') ∧ quiet d' ∧
    d'.(d_files) p = Some data ∧ frame [p; tmp] d d'.
Proof.
  intros Hq Hne. pose proof (write_file_atomic_spec p tmp data d Hne) as Hspec.
  revert Hspec. unfold write_file_atomic, sys_create. rewrite quiet_call by done. simpl.
  rewrite quiet_write by done. simpl. rewrite bool_decide_eq_true_2 by done. simpl.
  rewrite quiet_call by done. simpl. unfold sys_rename. rewrite quiet_call by done. simpl.
  intros [Hf [[_ Hd]|[? _]]]; [|done]. eexists. split; [done|]. by split_and!.
Qed.

(** ** The log file *)

Definition record_bytes (e : raft_log_entry) : list Z :=
  le_bytes 4 (le_index e) ++ le_bytes 4 (le_term e) ++ [le_type e] ++
  le_bytes 4 (Z.of_nat (length (le_data e))) ++ le_data e.
Definition header_image : list Z := le_bytes 4 LOG_FILE_MAGIC ++ le_bytes 4 LOG_FILE_VERSION.
Definition records_bytes (es : list raft_log_entry) : list Z := concat (map record_bytes es).
Definition log_image (es : list raft_log_entry) : list Z := header_image ++ records_bytes es.

(** The log file holds [c] and the descriptor is at [off]; the other files are
    those of [d0]. *)
Record log_at (d0 : disk) (c : list Z) (off : nat) (d : disk) : Prop := {
  la_quiet : quiet d;
  la_file : d.(d_files) LOG_PATH = Some c;
  la_fd : d.(d_log_fd) = Some off;
  la_rest : ∀ q, q ≠ LOG_PATH → d.(d_files) q = d0.(d_files) q
}.

Lemma log_at_content d0 c off d : log_at d0 c off d → content LOG_PATH d = c.
Proof. intros Hl. unfold content. by rewrite (la_file _ _ _ _ Hl). Qed.

Lemma log_write_end d0 c d bytes :
  log_at d0 c (length c) d →
  ∃ d', log_write bytes d = (true, d') ∧ log_at d0 (c ++ bytes) (length (c ++ bytes)) d'.
Proof.
  intros Hl. pose proof (log_at_content _ _ _ _ Hl) as Hc. destruct Hl as [Hq Hf Hfd Hr].
  unfold log_write. rewrite Hfd, quiet_write by done. rewrite Nat.eqb_refl.
  eexists. split; [done|]. rewrite Hc, splice_end, length_app. split; try done.
  intros q Hq'. simpl. rewrite decide_False by congruence. by apply Hr.
Qed.

Lemma log_writes_end chunks : ∀ d0 c d,
  log_at d0 c (length c) d →
  ∃ d', log_writes chunks d = (true, d') ∧
    log_at d0 (c ++ concat chunks) (length (c ++ concat chunks)) d'.
Proof.
  induction chunks as [|b chunks IH]; intros d0 c d Hl; simpl; [rewrite app_nil_r; eauto|].
  destruct (log_write_end d0 c d b Hl) as (d1 & -> & Hl1).
  destruct (IH _ _ _ Hl1) as (d' & -> & Hl'). rewrite <- app_assoc in Hl'. eauto.
Qed.

Lemma log_seek_at d0 c off d f :
  log_at d0 c off d → ∃ d', log_seek f d = (true, d') ∧ log_at d0 c (f off) d'.
Proof.
  intros [Hq Hf Hfd Hr]. unfold log_seek. rewrite Hfd, quiet_call by done.
  eexists. split; [done|]. by split.
Qed.

Lemma log_read_at d0 c off d n :
  log_at d0 c off d →
  ∃ d', log_read n d = (Some (take n (drop off c)), d') ∧
    log_at d0 c (off + length (take n (drop off c))) d'.
Proof.
  intros Hl. pose proof (log_at_content _ _ _ _ Hl) as Hc. destruct Hl as [Hq Hf Hfd Hr].
  unfold log_read. rewrite Hfd, quiet_read by done. rewrite Hc.
  eexists. split; [done|]. by split.
Qed.

(** A read of the [n] bytes that are next. *)
Lemma log_read_next d0 pre bytes post d :
  log_at d0 (pre ++ bytes ++ post) (length pre) d →
  ∃ d', log_read (length bytes) d = (Some bytes, d') ∧
    log_at d0 (pre ++ bytes ++ post) (length (pre ++ bytes)) d'.
Proof.
  intros Hl. destruct (log_read_at _ _ _ _ (length bytes) Hl) as (d' & Hr & Hl').
  rewrite drop_app_length, take_app_length in Hr, Hl'. rewrite length_app. eauto.
Qed.

Lemma log_read_val_next d0 pre bytes post d n :
  length bytes = n → log_at d0 (pre ++ bytes ++ post) (length pre) d →
  ∃ d', log_read_val n d = (Some (le_val bytes), d') ∧
    log_at d0 ((pre ++ bytes) ++ post) (length (pre ++ bytes)) d'.
Proof.
  intros <- Hl. destruct (log_read_next _ _ _ _ _ Hl) as (d' & Hr & Hl').
  unfold log_read_val. rewrite Hr, Nat.eqb_refl. rewrite <- app_assoc. eauto.
Qed.

Lemma le_val_bytes_u32 v : is_u32 v → le_val (le_bytes 4 v) = v.
Proof. intros Hv. rewrite le_val_bytes. apply Z.mod_small. change (256 ^ Z.of_nat 4) with (2 ^ 32). exact Hv. Qed.

Lemma fd_seek_end_at d0 c off d :
  log_at d0 c off d → ∃ d', fd_seek_end d = (true, d') ∧ log_at d0 c (length c) d'.
Proof.
  intros Hl. unfold fd_seek_end. rewrite (log_at_content _ _ _ _ Hl).
  apply (log_seek_at _ _ _ _ (λ _, length c) Hl).
Qed.

Lemma append_log_at d0 c off d e :
  log_at d0 c off d → storable_entry e →
  ∃ d', raft_persistence_append_log_c e d = (DISTRIC_OK, d') ∧
    log_at d0 (c ++ record_bytes e) (length (c ++ record_bytes e)) d'.
Proof.
  intros Hl (Hi & Ht & Hty & Hb & Hlen). unfold raft_persistence_append_log_c.
  destruct (fd_seek_end_at _ _ _ _ Hl) as (d1 & -> & Hl1). simpl negb. cbv iota.
  rewrite u8_id by done. rewrite (u32_id (Z.of_nat _)) by ulia.
  destruct (log_writes_end [le_bytes 4 (le_index e); le_bytes 4 (le_term e); [le_type e];
    le_bytes 4 (Z.of_nat (length (le_data e)))] _ _ _ Hl1) as (d2 & -> & Hl2). simpl negb. cbv iota.
  assert (Hdata : ∃ d3,
    (if Z.of_nat (length (le_data e)) >? 0
     then log_write (take (Z.to_nat (Z.of_nat (length (le_data e)))) (le_data e)) d2
     else (true, d2)) = (true, d3) ∧
    log_at d0 (c ++ record_bytes e) (length (c ++ record_bytes e)) d3).
  { assert (c ++ record_bytes e =
      (c ++ concat [le_bytes 4 (le_index e); le_bytes 4 (le_term e); [le_type e];
        le_bytes 4 (Z.of_nat (length (le_data e)))]) ++ le_data e) as ->.
    { unfold record_bytes. cbn [concat]. by rewrite app_nil_r, <- !app_assoc. }
    destruct (Z.gtb_spec (Z.of_nat (length (le_data e))) 0) as [|Hz].
    - rewrite Nat2Z.id, take_ge by lia. by apply log_write_end.
    - destruct (le_data e); [|simpl in Hz; lia]. rewrite app_nil_r. eauto. }
  destruct Hdata as (d3 & -> & Hl3). simpl negb. cbv iota.
  rewrite quiet_call by apply Hl3. eauto.
Qed.

Lemma records_cons e es : records_bytes (e :: es) = record_bytes e ++ records_bytes es.
Proof. done. Qed.

Lemma records_snoc es e : records_bytes (es ++ [e]) = records_bytes es ++ record_bytes e.
Proof. unfold records_bytes. rewrite map_app, concat_app. simpl. by rewrite app_nil_r. Qed.

(** The bytes of a record before its data. *)
Definition record_head (e : raft_log_entry) : list Z :=
  le_bytes 4 (le_index e) ++ le_bytes 4 (le_term e) ++ [le_type e] ++
  le_bytes 4 (Z.of_nat (length (le_data e))).

Lemma record_bytes_head e : record_bytes e = record_head e ++ le_data e.
Proof. unfold record_bytes, record_head. by rewrite <- !app_assoc. Qed.

Lemma read_record_header_at d0 pre e post d :
  storable_entry e → log_at d0 (pre ++ record_head e ++ post) (length pre) d →
  ∃ d', read_record_header d =
      (Some (le_index e, le_term e, le_type e, Z.of_nat (length (le_data e))), d') ∧
    log_at d0 ((pre ++ record_head e) ++ post) (length (pre ++ record_head e)) d'.
Proof.
  intros (Hi & Ht & Hty & _ & Hlen) Hl. unfold read_record_header, record_head in *.
  rewrite <- !app_assoc in Hl.
  destruct (log_read_val_next _ _ _ _ _ 4 (le_bytes_length 4 _) Hl) as (d1 & -> & Hl1).
  destruct (log_read_val_next _ _ _ _ _ 4 (le_bytes_length 4 _) Hl1) as (d2 & -> & Hl2).
  destruct (log_read_val_next _ _ _ _ _ 1 (eq_refl : length [le_type e] = 1%nat) Hl2) as (d3 & -> & Hl3).
  destruct (log_read_val_next _ _ _ _ _ 4 (le_bytes_length 4 _) Hl3) as (d4 & -> & Hl4).
  rewrite !le_val_bytes_u32 by (done || ulia).
  assert (le_val [le_type e] = le_type e) as -> by (simpl; lia).
  exists d4. split; [done|]. rewrite <- !app_assoc in Hl4. rewrite <- !app_assoc. exact Hl4.
Qed.

Lemma count_records_at es : ∀ d0 pre d count fuel,
  Forall storable_entry es → (length es < fuel)%nat →
  log_at d0 (pre ++ records_bytes es) (length pre) d →
  ∃ d', count_records fuel count d = Some (Ok (count + length es)%nat, d') ∧
    log_at d0 (pre ++ records_bytes es) (length (pre ++ records_bytes es)) d'.
Proof.
  induction es as [|e es IH]; intros d0 pre d count fuel Hes Hfuel Hl;
    (destruct fuel as [|fuel]; [lia|]); cbn [count_records].
  - unfold records_bytes in *. simpl in *. rewrite app_nil_r in *.
    destruct (log_read_at _ _ _ _ 4 Hl) as (d1 & -> & Hl1).
    rewrite drop_ge in Hl1 |- * by lia. simpl in *. rewrite Nat.add_0_r in *. eauto.
  - apply Forall_cons_iff in Hes as [(Hi & Ht & Hty & Hb & Hlen) Hes]. simpl in Hfuel.
    rewrite records_cons, record_bytes_head in *. unfold record_head in *.
    rewrite <- !app_assoc in Hl.
    destruct (log_read_next _ _ _ _ _ Hl) as (d1 & Hr1 & Hl1). rewrite le_bytes_length in Hr1.
    rewrite Hr1. clear Hr1. rewrite app_assoc in Hl1.
    destruct (le_bytes 4 (le_index e)) as [|b bs] eqn:Hbs; [done|].
    assert (length (b :: bs) = 4%nat) as -> by (rewrite <- Hbs; apply le_bytes_length).
    simpl negb. cbv iota.
    destruct (log_read_val_next _ _ _ _ _ 4 (le_bytes_length 4 _) Hl1) as (d2 & -> & Hl2).
    destruct (log_read_val_next _ _ _ _ _ 1 (eq_refl : length [le_type e] = 1%nat) Hl2) as (d3 & -> & Hl3).
    destruct (log_read_val_next _ _ _ _ _ 4 (le_bytes_length 4 _) Hl3) as (d4 & -> & Hl4).
    rewrite le_val_bytes_u32 by ulia.
    match type of Hl4 with log_at _ _ (length ?x) _ => set (pre' := x) in * end.
    assert (Hskip : ∃ d5,
      (if Z.of_nat (length (le_data e)) >? 0
       then log_seek (λ off, (off + Z.to_nat (Z.of_nat (length (le_data e))))%nat) d4
       else (true, d4)) = (true, d5) ∧
      log_at d0 ((pre' ++ le_data e) ++ records_bytes es) (length (pre' ++ le_data e)) d5).
    { rewrite <- app_assoc, length_app. destruct (Z.gtb_spec (Z.of_nat (length (le_data e))) 0).
      - destruct (log_seek_at _ _ _ _ (λ off, (off + Z.to_nat (Z.of_nat (length (le_data e))))%nat) Hl4)
          as (d5 & -> & Hl5). rewrite Nat2Z.id in Hl5. eauto.
      - replace (length (le_data e)) with 0%nat by lia. rewrite Nat.add_0_r. eauto. }
    destruct Hskip as (d5 & -> & Hl5).
    destruct (IH d0 _ d5 (S count) fuel Hes ltac:(lia) Hl5) as (d' & -> & Hl').
    exists d'. split; [f_equal; f_equal; simpl; f_equal; lia|].
    subst pre'. rewrite <- !app_assoc in Hl'. rewrite <- !app_assoc. exact Hl'.
Qed.

Lemma read_records_at es : ∀ d0 pre d acc,
  Forall storable_entry es → log_at d0 (pre ++ records_bytes es) (length pre) d →
  ∃ d', read_records (length es) acc d = (Ok (acc ++ es), d') ∧
    log_at d0 (pre ++ records_bytes es) (length (pre ++ records_bytes es)) d'.
Proof.
  induction es as [|e es IH]; intros d0 pre d acc Hes Hl; cbn [length read_records].
  - unfold records_bytes in *. simpl in *. rewrite !app_nil_r in *. eauto.
  - apply Forall_cons_iff in Hes as [He Hes].
    rewrite records_cons, record_bytes_head, <- app_assoc in Hl |- *.
    destruct (read_record_header_at _ _ _ _ _ He Hl) as (d1 & -> & Hl1).
    assert (Hdata : ∃ d2,
      log_read (length (le_data e)) d1 = (Some (le_data e), d2) ∧
      log_at d0 (((pre ++ record_head e) ++ le_data e) ++ records_bytes es)
        (length ((pre ++ record_head e) ++ le_data e)) d2).
    { destruct (log_read_next _ _ _ _ _ Hl1) as (d2 & -> & Hl2). rewrite <- app_assoc. eauto. }
    assert (Hnext : ∀ d2,
      log_at d0 (((pre ++ record_head e) ++ le_data e) ++ records_bytes es)
        (length ((pre ++ record_head e) ++ le_data e)) d2 →
      ∃ d', read_records (length es) (acc ++ [e]) d2 = (Ok (acc ++ e :: es), d') ∧
        log_at d0 (pre ++ record_head e ++ le_data e ++ records_bytes es)
          (length (pre ++ record_head e ++ le_data e ++ records_bytes es)) d').
    { intros d2 Hl2. destruct (IH d0 _ d2 (acc ++ [e]) Hes Hl2) as (d' & -> & Hl').
      rewrite <- !app_assoc in Hl'. rewrite <- !app_assoc. eauto. }
    destruct (Z.gtb_spec (Z.of_nat (length (le_data e))) 0) as [Hpos|Hz].
    + rewrite Nat2Z.id. destruct Hdata as (d2 & -> & Hl2). rewrite Nat.eqb_refl.
      destruct e; simpl in *. by apply Hnext.
    + destruct e as [i t ty data]; simpl in Hz |- *. destruct data; [|simpl in Hz; lia].
      apply Hnext. by rewrite app_nil_r.
Qed.

Lemma record_bytes_length e : (13 ≤ length (record_bytes e))%nat.
Proof. unfold record_bytes. rewrite !length_app, !le_bytes_length. simpl. lia. Qed.

Lemma records_bytes_length es : (length es ≤ length (records_bytes es))%nat.
Proof.
  induction es as [|e es IH]; [simpl; lia|].
  rewrite records_cons, length_app. cbn [length]. pose proof (record_bytes_length e). lia.
Qed.

(** Loading a log file the code wrote gives the entries written. *)
Lemma load_log_at d0 es off d :
  Forall storable_entry es → log_at d0 (log_image es) off d →
  ∃ d' off', raft_persistence_load_log_c d = (Ok es, d') ∧ log_at d0 (log_image es) off' d'.
Proof.
  intros Hes Hl. unfold raft_persistence_load_log_c.
  destruct (log_seek_at _ _ _ _ (λ _, 8%nat) Hl) as (d1 & -> & Hl1). simpl negb. cbv iota.
  assert (Hfuel : (length es < load_fuel d1)%nat).
  { unfold load_fuel. rewrite (log_at_content _ _ _ _ Hl1). unfold log_image.
    rewrite length_app. pose proof (records_bytes_length es). lia. }
  destruct (count_records_at es d0 header_image d1 0 (load_fuel d1) Hes Hfuel Hl1) as (d2 & -> & Hl2).
  simpl Nat.add. destruct es as [|e es]; [eauto|].
  destruct (log_seek_at _ _ _ _ (λ _, 8%nat) Hl2) as (d3 & Hs & Hl3).
  cbn [length]. rewrite Hs. simpl negb. cbv iota.
  destruct (read_records_at (e :: es) d0 header_image d3 [] Hes Hl3) as (d4 & Hr & Hl4).
  cbn [length] in Hr. rewrite Hr. simpl app. eauto.
Qed.

(** Rewriting keeps the entries below [from]. *)
Lemma rewrite_entries_at from es : ∀ d0 c off d,
  Forall storable_entry es → log_at d0 c off d →
  ∃ d' off', rewrite_entries from es d = (DISTRIC_OK, d') ∧
    log_at d0 (c ++ records_bytes (filter (λ e, le_index e < from) es)) off' d'.
Proof.
  induction es as [|e es IH]; intros d0 c off d Hes Hl; simpl.
  { exists d, off. unfold records_bytes. simpl. by rewrite app_nil_r. }
  apply Forall_cons_iff in Hes as [He Hes]. rewrite filter_cons.
  destruct (Z.ltb_spec (le_index e) from) as [Hlt|Hge].
  - destruct (append_log_at _ _ _ _ e Hl He) as (d1 & -> & Hl1).
    destruct (IH _ _ _ _ Hes Hl1) as (d2 & off2 & Hr & Hl2).
    rewrite decide_True by done. rewrite records_cons, app_assoc. eauto.
  - rewrite decide_False by lia. by apply (IH _ _ off).
Qed.

Lemma write_log_header_at d0 d :
  log_at d0 [] 0 d →
  ∃ d', write_log_header d = (DISTRIC_OK, d') ∧ log_at d0 (log_image []) 8 d'.
Proof.
  intros Hl. unfold write_log_header.
  destruct (log_writes_end [le_bytes 4 LOG_FILE_MAGIC; le_bytes 4 LOG_FILE_VERSION] _ [] _ Hl)
    as (d' & -> & Hl'). exists d'. split; [done|]. exact Hl'.
Qed.

Lemma truncate_log_at d0 es off d from :
  Forall storable_entry es → log_at d0 (log_image es) off d →
  ∃ d' off', raft_persistence_truncate_log_c from d = (DISTRIC_OK, d') ∧
    log_at d0 (log_image (filter (λ e, le_index e < from) es)) off' d'.
Proof.
  intros Hes Hl. unfold raft_persistence_truncate_log_c.
  destruct (load_log_at _ _ _ _ Hes Hl) as (d1 & off1 & -> & [Hq Hf Hfd Hr]).
  unfold sys_create. rewrite quiet_call by done. simpl negb. cbv iota.
  destruct (write_log_header_at d0
    (set_log_fd (Some 0%nat) (set_file LOG_PATH (Some []) (set_log_fd None d1)))) as (d2 & -> & Hl2).
  { split; [done|apply set_file_same|done|]. intros q Hne. simpl.
    rewrite decide_False by congruence. by apply Hr. }
  destruct (rewrite_entries_at from es _ _ _ _ Hes Hl2) as (d' & off' & Hrw & Hl').
  exists d', off'. split; [done|]. unfold log_image in *.
  unfold records_bytes in Hl' at 1. simpl in Hl'. exact Hl'.
Qed.

(** ** The snapshot file *)

Lemma file_writes_spec p chunks : ∀ off d b d',
  file_writes p off chunks d = (b, d') →
  frame [p] d d' ∧
  (b = true → ∀ c, d.(d_files) p = Some c → off = length c →
     d'.(d_files) p = Some (c ++ concat chunks)).
Proof.
  induction chunks as [|ch chunks IH]; intros off d b d'; simpl.
  { intros [= <- <-]. split; [done|]. intros _ c Hc _. by rewrite app_nil_r. }
  destruct (sys_write p off ch d) as [k d1] eqn:Hw. apply sys_write_spec in Hw as [Hf Hc1].
  destruct (bool_decide_reflect (k = Some (length ch))) as [->|]; [|by intros [= <- <-]].
  intros [Hf' Hc']%IH. split; [by eapply frame_trans|].
  intros Hb c Hc ->. rewrite app_assoc. apply Hc'; [done| |by rewrite length_app].
  rewrite Hc1 by done. unfold content. rewrite Hc. simpl. by rewrite splice_end.
Qed.

Definition snapshot_words (index term : Z) (data : list Z) : list Z :=
  [SNAPSHOT_MAGIC; SNAPSHOT_VERSION; index; term; u32 (Z.of_nat (length data)); crc32_compute data].
Definition snapshot_image (index term : Z) (data : list Z) : list Z :=
  concat (map (le_bytes 4) (snapshot_words index term data)) ++ data.

Lemma save_snapshot_spec index term data d :
  let '(e, d') := raft_persistence_save_snapshot_c index term data d in
  frame [SNAPSHOT_PATH; SNAPSHOT_TMP_PATH] d d' ∧
  (e = DISTRIC_OK ∧ d'.(d_files) SNAPSHOT_PATH = Some (snapshot_image index term data) ∨
   e = DISTRIC_ERR_INIT_FAILED ∧ d'.(d_files) SNAPSHOT_PATH = d.(d_files) SNAPSHOT_PATH).
Proof.
  unfold raft_persistence_save_snapshot_c. set (tmp := SNAPSHOT_TMP_PATH).
  assert (Hw : ∀ d1 d2, frame [tmp] d1 d2 → frame [SNAPSHOT_PATH; tmp] d1 d2 ∧
    d2.(d_files) SNAPSHOT_PATH = d1.(d_files) SNAPSHOT_PATH).
  { intros d1 d2 Hf. split; [eapply frame_weaken; [done|set_solver]|]. apply Hf. set_solver. }
  destruct (sys_create tmp d) as [ok d1] eqn:H1. apply sys_create_spec in H1 as [Hf1 Hc1].
  destruct ok; simpl negb; cbv iota;
    [|destruct (Hw _ _ Hf1); split; [done|right; done]].
  match goal with |- context [file_writes tmp 0 ?cs d1] => set (chunks := cs) end.
  destruct (file_writes tmp 0 chunks d1) as [ok d2] eqn:H2.
  apply file_writes_spec in H2 as [Hf2 Hc2].
  assert (Herr : ∀ d3, frame [tmp] d2 d3 → frame [SNAPSHOT_PATH; tmp] d (sys_unlink tmp d3) ∧
    (DISTRIC_ERR_INIT_FAILED = DISTRIC_OK ∧
       (sys_unlink tmp d3).(d_files) SNAPSHOT_PATH = Some (snapshot_image index term data) ∨
     DISTRIC_ERR_INIT_FAILED = DISTRIC_ERR_INIT_FAILED ∧
     (sys_unlink tmp d3).(d_files) SNAPSHOT_PATH = d.(d_files) SNAPSHOT_PATH)).
  { intros d3 Hf3. destruct (Hw d (sys_unlink tmp d3)) as [Hfr Heq].
    - eapply frame_trans; [exact Hf1|]. eapply frame_trans; [exact Hf2|].
      eapply frame_trans; [exact Hf3|apply sys_unlink_frame].
    - split; [done|right; done]. }
  destruct ok; simpl negb; cbv iota; [|apply Herr, frame_refl].
  specialize (Hc2 eq_refl [] (Hc1 eq_refl) eq_refl).
  destruct (sys_call d2) as [ok d3] eqn:H3. apply (sys_call_frame _ _ _ [tmp]) in H3 as [Hf3 Hff3].
  destruct ok; simpl negb; cbv iota; [|by apply Herr].
  destruct (sys_rename tmp SNAPSHOT_PATH d3) as [ok d4] eqn:H4. apply sys_rename_spec in H4; [|done].
  destruct ok; simpl negb; cbv iota.
  - destruct H4 as [Hf4 Hc4]. split.
    + eapply frame_trans; [apply Hw, Hf1|]. eapply frame_trans; [apply Hw, Hf2|].
      eapply frame_trans; [apply Hw, Hf3|]. eapply frame_weaken; [done|set_solver].
    + left. split; [done|]. rewrite Hc4, Hff3, Hc2. f_equal. subst chunks.
      unfold snapshot_image, snapshot_words. cbn [concat map]. by rewrite app_nil_r, <- !app_assoc.
  - apply Herr. by eapply frame_trans.
Qed.

Lemma read_words_quiet p ws : ∀ pre post d,
  quiet d → content p d = pre ++ concat (map (le_bytes 4) ws) ++ post → Forall is_u32 ws →
  read_words p (length pre) (length ws) d = (Some ws, d).
Proof.
  induction ws as [|w ws IH]; intros pre post d Hq Hc Hws; [done|].
  apply Forall_cons_iff in Hws as [Hw Hws]. cbn [read_words length].
  rewrite quiet_read, Hc, drop_app_length by done. cbn [map concat].
  rewrite <- app_assoc, take_app_le by (rewrite le_bytes_length; lia).
  rewrite take_ge by (rewrite le_bytes_length; lia). rewrite le_bytes_length, Nat.eqb_refl.
  replace (length pre + 4)%nat with (length (pre ++ le_bytes 4 w))
    by (rewrite length_app, le_bytes_length; done).
  rewrite (IH _ post d); [by rewrite le_val_bytes_u32|done| |done].
  rewrite Hc. cbn [map concat]. by rewrite <- !app_assoc.
Qed.

Lemma load_snapshot_image d i t data :
  quiet d → is_u32 i → is_u32 t → Z.of_nat (length data) < 2 ^ 32 → is_u32 (crc32_compute data) →
  d.(d_files) SNAPSHOT_PATH = Some (snapshot_image i t data) →
  raft_persistence_load_snapshot d = (Ok (i, t, data), d).
Proof.
  intros Hq Hi Ht Hlen Hcrc Hf. unfold raft_persistence_load_snapshot. rewrite quiet_call by done.
  simpl negb. cbv iota. rewrite Hf.
  assert (Hc : content SNAPSHOT_PATH d = [] ++ concat (map (le_bytes 4) (snapshot_words i t data)) ++ data)
    by (unfold content; by rewrite Hf).
  pose proof (read_words_quiet SNAPSHOT_PATH (snapshot_words i t data) [] data d Hq Hc) as Hrw.
  cbn [length snapshot_words] in Hrw.
  rewrite Hrw; [|unfold snapshot_words; repeat (apply Forall_cons_2; [first [done|apply u32_range]|]); constructor].
  unfold snapshot_words at 1. cbv beta iota. rewrite !Z.eqb_refl. simpl negb. cbv iota.
  rewrite u32_id by ulia. rewrite Nat2Z.id, quiet_read by done.
  assert (Hd : drop 24 (content SNAPSHOT_PATH d) = data) by (rewrite Hc, app_nil_l; by apply drop_app_length').
  rewrite Hd, take_ge by lia.
  rewrite Nat.eqb_refl, Z.eqb_refl. done.
Qed.

Lemma crc32_compute_u32 data : bytes_ok data → is_u32 (crc32_compute data).
Proof.
  intros Hd. unfold crc32_compute, u32_not. apply lxor_u32; [|ulia].
  apply crc32_fold_u32; [ulia|done].
Qed.

(** ** The disk implements the interface of the core *)

Definition stored_state_of (d : disk) : option (Z * list Z) :=
  match d.(d_files) STATE_PATH with
  | Some (b :: c) => match parse_state_file (b :: c) with Ok tv => Some tv | _ => None end
  | _ => None
  end.

(** What a process that opens the directory afresh reads in the log file. *)
Definition reopened (d : disk) : disk := Disk d.(d_files) [] (Some 0%nat) d.(d_directory).
Definition stored_log_of (d : disk) : list raft_log_entry :=
  match (raft_persistence_load_log_c (reopened d)).1 with Ok es => es | _ => [] end.

Record reliable_disk (d : disk) : Prop := {
  rd_quiet : quiet d;
  rd_log : ∃ es off, Forall storable_entry es ∧ d.(d_files) LOG_PATH = Some (log_image es) ∧
             d.(d_log_fd) = Some off;
  rd_state : d.(d_files) STATE_PATH = None ∨
             ∃ t v, storable_term t ∧ storable_id v ∧ d.(d_files) STATE_PATH = Some (state_bytes t v)
}.

Lemma stored_log_image d es :
  Forall storable_entry es → d.(d_files) LOG_PATH = Some (log_image es) → stored_log_of d = es.
Proof.
  intros Hes Hf. unfold stored_log_of.
  destruct (load_log_at (reopened d) es 0 (reopened d) Hes) as (d' & off & -> & _); done.
Qed.

Lemma stored_state_bytes d t v :
  storable_term t → storable_id v → d.(d_files) STATE_PATH = Some (state_bytes t v) →
  stored_state_of d = Some (t, v).
Proof.
  intros Ht Hv Hf. unfold stored_state_of. rewrite Hf.
  destruct (state_bytes t v) as [|b c] eqn:Hs; [done|]. rewrite <- Hs.
  by rewrite parse_state_bytes.
Qed.

Lemma stored_state_same d d' :
  d'.(d_files) STATE_PATH = d.(d_files) STATE_PATH → stored_state_of d' = stored_state_of d.
Proof. unfold stored_state_of. by intros ->. Qed.

Lemma reliable_log_at d :
  reliable_disk d →
  ∃ es off, Forall storable_entry es ∧ log_at d (log_image es) off d ∧ stored_log_of d = es.
Proof.
  intros [Hq (es & off & Hes & Hf & Hfd) _]. exists es, off. split_and!; [done| |].
  - by split.
  - by apply stored_log_image.
Qed.

(** A disk with the state file of a reliable one and a log of storable entries
    is reliable. *)
Lemma log_at_reliable d es off d' :
  reliable_disk d → Forall storable_entry es → log_at d (log_image es) off d' →
  reliable_disk d' ∧ stored_state_of d' = stored_state_of d ∧ stored_log_of d' = es.
Proof.
  intros [_ _ Hst] Hes [Hq Hf Hfd Hr]. split; [|split].
  - split; [done|eauto|]. by rewrite Hr.
  - apply stored_state_same. by rewrite Hr.
  - by apply stored_log_image.
Qed.

Lemma frame_reliable d ps d' :
  reliable_disk d → frame ps d d' → LOG_PATH ∉ ps → quiet d' →
  d'.(d_files) LOG_PATH = d.(d_files) LOG_PATH ∧ d'.(d_log_fd) = d.(d_log_fd) ∧
  stored_log_of d' = stored_log_of d.
Proof.
  intros Hrel (Hf & Hfd & _) Hin Hq. assert (Hl : d_files d' LOG_PATH = d_files d LOG_PATH) by by apply Hf.
  split_and!; [done..|]. destruct Hrel as [_ (es & off & Hes & Hlog & _) _].
  rewrite !(stored_log_image _ es); congruence.
Qed.

Lemma save_state_disk d t v :
  reliable_disk d → storable_term t → storable_id v →
  ∃ d', raft_persistence_save_state_c t v d = (DISTRIC_OK, d') ∧ reliable_disk d' ∧
    stored_state_of d' = Some (t, v) ∧ stored_log_of d' = stored_log_of d.
Proof.
  intros Hrel Ht Hv. unfold raft_persistence_save_state_c. rewrite format_state_file_ok by done.
  destruct (quiet_atomic STATE_PATH STATE_TMP_PATH (state_bytes t v) d (rd_quiet _ Hrel))
    as (d' & -> & Hq & Hs & Hf); [done|].
  destruct (frame_reliable _ _ _ Hrel Hf) as (Hl & Hfd & Hlog); [set_solver|done|].
  exists d'. split_and!; [done| |by apply stored_state_bytes|done].
  destruct Hrel as [_ (es & off & Hes & Hle & Ho) _]. split; [done| |right; eauto].
  exists es, off. rewrite Hl, Hfd. done.
Qed.

Lemma save_state_atomic_disk d t v :
  storable_term t → storable_id v →
  stored_state_of (raft_persistence_save_state_c t v d).2 = stored_state_of d ∨
  stored_state_of (raft_persistence_save_state_c t v d).2 = Some (t, v).
Proof.
  intros Ht Hv. unfold raft_persistence_save_state_c. rewrite format_state_file_ok by done.
  pose proof (write_file_atomic_spec STATE_PATH STATE_TMP_PATH (state_bytes t v) d ltac:(done)) as Hs.
  destruct (write_file_atomic _ _ _ _) as [e d'].
  destruct Hs as [_ [[_ Hf]|[_ Hf]]]; simpl;
    [right; by apply stored_state_bytes|left; by apply stored_state_same].
Qed.

Lemma load_state_disk d :
  reliable_disk d →
  raft_persistence_load_state_c d =
    (match stored_state_of d with Some s => Ok s | None => Err DISTRIC_ERR_NOT_FOUND end, d).
Proof.
  intros [Hq _ Hst]. unfold raft_persistence_load_state_c, stored_state_of.
  rewrite quiet_read_file by done. destruct Hst as [->|(t & v & Ht & Hv & ->)]; [done|].
  destruct (state_bytes t v) as [|b c] eqn:Hs; [done|]. rewrite <- Hs.
  by rewrite parse_state_bytes.
Qed.

(** A snapshot saved on a quiet disk. *)
Lemma quiet_file_writes p chunks : ∀ off d,
  quiet d → ∃ d', file_writes p off chunks d = (true, d') ∧ quiet d'.
Proof.
  induction chunks as [|ch chunks IH]; intros off d Hq; simpl; [eauto|].
  rewrite quiet_write by done. rewrite bool_decide_eq_true_2 by done. by apply IH.
Qed.

Lemma save_snapshot_disk d i t data :
  reliable_disk d →
  ∃ d', raft_persistence_save_snapshot_c i t data d = (DISTRIC_OK, d') ∧ reliable_disk d' ∧
    stored_state_of d' = stored_state_of d ∧ stored_log_of d' = stored_log_of d.
Proof.
  intros Hrel. pose proof (save_snapshot_spec i t data d) as Hspec.
  assert (Hok : ∃ d', raft_persistence_save_snapshot_c i t data d = (DISTRIC_OK, d') ∧ quiet d').
  { pose proof (rd_quiet _ Hrel) as Hq. unfold raft_persistence_save_snapshot_c, sys_create.
    rewrite quiet_call by done. simpl negb. cbv iota.
    match goal with |- context [file_writes ?p ?o ?cs ?d1] =>
      destruct (quiet_file_writes p cs o d1 Hq) as (d2 & -> & Hq2) end.
    simpl negb. cbv iota. rewrite quiet_call by done. simpl negb. cbv iota.
    unfold sys_rename. rewrite quiet_call by done. simpl. eauto. }
  destruct Hok as (d' & Hsave & Hq'). rewrite Hsave in Hspec. destruct Hspec as [Hf _].
  destruct (frame_reliable _ _ _ Hrel Hf) as (Hl & Hfd & Hlog); [set_solver|done|].
  assert (Hs : d_files d' STATE_PATH = d_files d STATE_PATH) by (apply Hf; set_solver).
  exists d'. split_and!; [done| |by apply stored_state_same|done].
  destruct Hrel as [_ (es & off & Hes & Hle & Ho) Hst]. split; [done| |by rewrite Hs].
  exists es, off. by rewrite Hl, Hfd.
Qed.

Lemma storable_filter (from : Z) es :
  Forall storable_entry es → Forall storable_entry (filter (λ e, le_index e < from) es).
Proof.
  induction 1 as [|e es He _ IH]; [constructor|]. rewrite filter_cons.
  case_decide; [by constructor|done].
Qed.

#[export] Instance disk_laws : RaftPersistenceLaws disk.
Proof.
  refine {| reliable := reliable_disk; stored_state := stored_state_of; stored_log := stored_log_of |};
    simpl.
  - apply save_state_disk.
  - apply save_state_atomic_disk.
  - intros d Hrel. exists d. by rewrite load_state_disk.
  - intros d e Hrel He. destruct (reliable_log_at _ Hrel) as (es & off & Hes & Hl & ->).
    destruct (append_log_at _ _ _ _ e Hl He) as (d' & -> & Hl').
    exists d'. split; [done|]. unfold log_image in Hl'. rewrite <- app_assoc, <- records_snoc in Hl'.
    eapply (log_at_reliable d); [done|apply Forall_app_2; [done|by constructor]|exact Hl'].
  - intros d Hrel. destruct (reliable_log_at _ Hrel) as (es & off & Hes & Hl & ->).
    destruct (load_log_at _ _ _ _ Hes Hl) as (d' & off' & -> & Hl').
    exists d'. split; [done|]. by apply (log_at_reliable _ _ off').
  - intros d from Hrel. destruct (reliable_log_at _ Hrel) as (es & off & Hes & Hl & ->).
    destruct (truncate_log_at _ _ _ _ from Hes Hl) as (d' & off' & -> & Hl').
    exists d'. split; [done|]. apply (log_at_reliable _ _ off'); [done|by apply storable_filter|done].
  - intros d i t s Hrel _. by apply save_snapshot_disk.
Defined.

(** ** The first pass over the log file ends *)

Lemma log_read_inv n d r d' off :
  log_read n d = (Some r, d') → d.(d_log_fd) = Some off →
  d'.(d_log_fd) = Some (off + length r)%nat ∧ content LOG_PATH d' = content LOG_PATH d ∧
  (length r ≤ length (content LOG_PATH d) - off)%nat.
Proof.
  intros Hr Hfd. revert Hr. unfold log_read. rewrite Hfd. unfold sys_read.
  pose proof (next_outcome_files d) as Hf.
  destruct (next_outcome d) as [o d1]. simpl in Hf. destruct (transferred o n) as [k|]; [|done].
  intros [= <- <-]. unfold content. simpl. rewrite Hf. split_and!; [done..|].
  rewrite length_take, length_drop. lia.
Qed.

Lemma log_read_val_inv n d v d' off :
  log_read_val n d = (Some v, d') → d.(d_log_fd) = Some off →
  d'.(d_log_fd) = Some (off + n)%nat ∧ content LOG_PATH d' = content LOG_PATH d ∧
  (n ≤ length (content LOG_PATH d) - off)%nat.
Proof.
  unfold log_read_val. destruct (log_read n d) as [[r|] d1] eqn:Hr; [|done].
  destruct (Nat.eqb_spec (length r) n) as [<-|]; [|done]. intros [= _ <-]. intros Hfd; by eapply log_read_inv.
Qed.

Lemma log_seek_inv f d d' off :
  log_seek f d = (true, d') → d.(d_log_fd) = Some off →
  d'.(d_log_fd) = Some (f off) ∧ content LOG_PATH d' = content LOG_PATH d.
Proof.
  unfold log_seek. intros Hs Hfd. revert Hs. rewrite Hfd.
  destruct (sys_call d) as [ok d1] eqn:Hc. apply (sys_call_frame _ _ _ []) in Hc as [_ Hf].
  destruct ok; [|done]. intros [= <-]. unfold content. simpl. by rewrite Hf.
Qed.

Lemma count_records_ends fuel : ∀ count d off,
  d.(d_log_fd) = Some off → (length (content LOG_PATH d) - off < fuel)%nat →
  ∃ r d', count_records fuel count d = Some (r, d') ∧ r ≠ Fault.
Proof.
  induction fuel as [|fuel IH]; intros count d off Hfd Hfuel; [lia|]. cbn [count_records].
  destruct (log_read 4 d) as [[r|] d1] eqn:Hr; [|by do 2 eexists].
  apply (log_read_inv _ _ _ _ off) in Hr as (Hfd1 & Hc1 & Hle1); [|done].
  destruct r as [|b bs]; [by do 2 eexists|].
  destruct (Nat.eqb_spec (length (b :: bs)) 4) as [H4|]; simpl negb; cbv iota; [|by do 2 eexists].
  destruct (log_read_val 4 d1) as [[term|] d2] eqn:Ht; [|by do 2 eexists].
  apply (log_read_val_inv _ _ _ _ _ Ht) in Hfd1 as (Hfd2 & Hc2 & Hle2).
  destruct (log_read_val 1 d2) as [[ty|] d3] eqn:Hty; [|by do 2 eexists].
  apply (log_read_val_inv _ _ _ _ _ Hty) in Hfd2 as (Hfd3 & Hc3 & Hle3).
  destruct (log_read_val 4 d3) as [[len|] d4] eqn:Hl; [|by do 2 eexists].
  apply (log_read_val_inv _ _ _ _ _ Hl) in Hfd3 as (Hfd4 & Hc4 & Hle4).
  rewrite Hc3, Hc2, Hc1 in *.
  destruct (len >? 0).
  - destruct (log_seek _ d4) as [[] d5] eqn:Hs; [|by do 2 eexists].
    apply (log_seek_inv _ _ _ _ Hs) in Hfd4 as [Hfd5 Hc5].
    apply (IH _ _ _ Hfd5). rewrite Hc5, Hc4. lia.
  - apply (IH _ _ _ Hfd4). rewrite Hc4. lia.
Qed.

Lemma read_records_no_fault count : ∀ acc d, (read_records count acc d).1 ≠ Fault.
Proof.
  induction count as [|count IH]; intros acc d; [done|]. cbn [read_records].
  destruct (read_record_header d) as [[[[[i t] ty] len]|] d1]; [|done].
  destruct (len >? 0); [|apply IH].
  destruct (log_read (Z.to_nat len) d1) as [[r|] d2]; [|done].
  case_match; [apply IH|done].
Qed.

(** Loading the log file always ends: whatever bytes the file holds and
    however the reads and seeks turn out, the two passes over the records
    return the entries or an error code. *)
Theorem load_log_total d :
  ∃ r d', raft_persistence_load_log_c d = (r, d') ∧
    (∀ es, r = Ok es → d.(d_log_fd) ≠ None) ∧ r ≠ Fault.
Proof.
  unfold raft_persistence_load_log_c.
  destruct (log_seek (λ _, 8%nat) d) as [ok d1] eqn:Hs. destruct ok; simpl negb; cbv iota.
  - assert (∃ off, d.(d_log_fd) = Some off) as [off Hfd].
    { revert Hs. unfold log_seek. destruct (d_log_fd d); [eauto|done]. }
    destruct (log_seek_inv _ _ _ _ Hs Hfd) as [Hfd1 Hc1].
    destruct (count_records_ends (load_fuel d1) 0 d1 _ Hfd1) as (r & d2 & -> & Hr);
      [unfold load_fuel; lia|].
    rewrite Hfd. destruct r as [[|count]|e|]; [eauto 10| |eauto 10|done].
    + destruct (log_seek (λ _, 8%nat) d2) as [[] d3]; simpl negb; cbv iota.
      * pose proof (read_records_no_fault (S count) [] d3) as Hnf.
        destruct (read_records _ _ _) as [r d4]. do 2 eexists. split; [done|]. by split.
      * do 2 eexists. split; [done|]. by split.
  - do 2 eexists. split; [done|]. by split.
Qed.

Lemma save_state_files d t v :
  storable_id v →
  let '(e, d') := raft_persistence_save_state_c t v d in
  (e = DISTRIC_OK ∧ d'.(d_files) STATE_PATH = Some (state_bytes t v) ∨
   e = DISTRIC_ERR_INIT_FAILED ∧ d'.(d_files) STATE_PATH = d.(d_files) STATE_PATH) ∧
  d'.(d_files) LOG_PATH = d.(d_files) LOG_PATH ∧
  d'.(d_files) SNAPSHOT_PATH = d.(d_files) SNAPSHOT_PATH.
Proof.
  intros Hv. unfold raft_persistence_save_state_c. rewrite format_state_file_ok by done.
  pose proof (write_file_atomic_spec STATE_PATH STATE_TMP_PATH (state_bytes t v) d ltac:(done)) as Hs.
  destruct (write_file_atomic _ _ _ _) as [e d']. destruct Hs as [(Hf & _) Hs].
  split; [done|]. split; apply Hf; set_solver.
Qed.

(** C27: Saving the state and saving a snapshot replace their file atomically:
    whichever of the system calls fails, or writes short, either [DISTRIC_OK] is
    returned and the file holds exactly the new content, or an error is
    returned and the file is as it was; the log file and the other of the two are
    never touched. *)
Theorem state_and_snapshot_atomic d t v i st data :
  storable_id v →
  (let '(e, d') := raft_persistence_save_state_c t v d in
   (e = DISTRIC_OK ∧ d'.(d_files) STATE_PATH = Some (state_bytes t v) ∨
    e = DISTRIC_ERR_INIT_FAILED ∧ d'.(d_files) STATE_PATH = d.(d_files) STATE_PATH) ∧
   d'.(d_files) LOG_PATH = d.(d_files) LOG_PATH ∧
   d'.(d_files) SNAPSHOT_PATH = d.(d_files) SNAPSHOT_PATH) ∧
  (let '(e, d') := raft_persistence_save_snapshot_c i st data d in
   (e = DISTRIC_OK ∧ d'.(d_files) SNAPSHOT_PATH = Some (snapshot_image i st data) ∨
    e = DISTRIC_ERR_INIT_FAILED ∧ d'.(d_files) SNAPSHOT_PATH = d.(d_files) SNAPSHOT_PATH) ∧
   d'.(d_files) LOG_PATH = d.(d_files) LOG_PATH ∧
   d'.(d_files) STATE_PATH = d.(d_files) STATE_PATH).
Proof.
  intros Hv. split; [by apply save_state_files|]. pose proof (save_snapshot_spec i st data d) as Hs.
  destruct (raft_persistence_save_snapshot_c _ _ _ _) as [e d']. destruct Hs as [(Hf & _) Hs].
  split; [done|]. split; apply Hf; set_solver.
Qed.

(** A snapshot that was saved with [DISTRIC_OK] is what a later load returns,
    its index, its term and every byte, and its checksum verifies. *)
Theorem snapshot_roundtrip d d' d'' i t data :
  is_u32 i → is_u32 t → bytes_ok data → Z.of_nat (length data) < 2 ^ 32 →
  raft_persistence_save_snapshot_c i t data d = (DISTRIC_OK, d') →
  quiet d'' → d''.(d_files) SNAPSHOT_PATH = d'.(d_files) SNAPSHOT_PATH →
  (raft_persistence_load_snapshot d'').1 = Ok (i, t, data).
Proof.
  intros Hi Ht Hd Hlen Hsave Hq Hf. pose proof (save_snapshot_spec i t data d) as Hs.
  rewrite Hsave in Hs. destruct Hs as [_ [[_ Hc]|[? _]]]; [|done].
  rewrite (load_snapshot_image d'' i t data); auto using crc32_compute_u32. congruence.
Qed.

(** ** Opening the directory *)

(** A directory the code can find: no log file yet or one it wrote, no state
    file yet or one it wrote, and calls that succeed. *)
Definition openable (d : disk) (es : list raft_log_entry) : Prop :=
  quiet d ∧ d.(d_directory) ≠ Some false ∧ Forall storable_entry es ∧
  (d.(d_files) LOG_PATH = Some (log_image es) ∨ d.(d_files) LOG_PATH = None ∧ es = []) ∧
  (d.(d_files) STATE_PATH = None ∨
   ∃ t v, storable_term t ∧ storable_id v ∧ d.(d_files) STATE_PATH = Some (state_bytes t v)).

Lemma ensure_directory_quiet d :
  quiet d → d.(d_directory) ≠ Some false →
  ∃ d', ensure_directory d = (DISTRIC_OK, d') ∧ quiet d' ∧ d'.(d_files) = d.(d_files).
Proof.
  intros Hq Hdir. unfold ensure_directory. destruct (d_directory d) as [[]|]; [eauto|done|].
  rewrite quiet_call by done. eauto.
Qed.

Lemma read_log_header_at d0 es d :
  log_at d0 (log_image es) 0 d →
  ∃ d', read_log_header d = (DISTRIC_OK, d') ∧ log_at d0 (log_image es) 8 d'.
Proof.
  intros Hl. unfold read_log_header.
  assert (Hl0 : log_at d0 ([] ++ le_bytes 4 LOG_FILE_MAGIC ++
    (le_bytes 4 LOG_FILE_VERSION ++ records_bytes es)) (length ([] : list Z)) d) by exact Hl.
  destruct (log_read_val_next _ _ _ _ _ 4 (le_bytes_length 4 _) Hl0) as (d1 & -> & Hl1).
  destruct (log_read_val_next _ _ _ _ _ 4 (le_bytes_length 4 _) Hl1) as (d2 & -> & Hl2).
  exists d2. split; [done|]. exact Hl2.
Qed.

Lemma read_log_header_empty d0 d :
  log_at d0 [] 0 d → ∃ d', read_log_header d = (DISTRIC_OK, d') ∧ log_at d0 (log_image []) 8 d'.
Proof.
  intros Hl. unfold read_log_header, log_read_val.
  destruct (log_read_at _ _ _ _ 4 Hl) as (d1 & -> & Hl1). simpl in Hl1 |- *.
  destruct (log_seek_at _ _ _ _ (λ _, 0%nat) Hl1) as (d2 & -> & Hl2).
  by apply write_log_header_at.
Qed.

Lemma init_disk d es :
  openable d es →
  ∃ d', raft_persistence_init d = (DISTRIC_OK, d') ∧ reliable_disk d' ∧
    stored_state_of d' = stored_state_of d ∧ stored_log_of d' = es ∧
    ∀ q, q ≠ LOG_PATH → d'.(d_files) q = d.(d_files) q.
Proof.
  intros (Hq & Hdir & Hes & Hlog & Hst). unfold raft_persistence_init.
  destruct (ensure_directory_quiet (set_log_fd None d) Hq Hdir) as (d1 & -> & Hq1 & Hf1).
  unfold sys_open_create. rewrite quiet_call by done. simpl negb. cbv iota.
  set (d2 := set_log_fd (Some 0%nat) (set_file LOG_PATH (Some (content LOG_PATH d1)) d1)).
  assert (Hl2 : log_at d (content LOG_PATH d) 0 d2).
  { unfold d2, content. rewrite Hf1. split; [done|apply set_file_same|done|].
    intros q Hne. simpl. rewrite decide_False by congruence. by rewrite Hf1. }
  assert (Hread : ∃ d3, read_log_header d2 = (DISTRIC_OK, d3) ∧ log_at d (log_image es) 8 d3).
  { unfold content in Hl2. destruct Hlog as [Hf|[Hf ->]]; rewrite Hf in Hl2; simpl in Hl2.
    - by apply read_log_header_at.
    - by apply read_log_header_empty. }
  destruct Hread as (d3 & -> & Hl3). exists d3. split; [done|].
  destruct Hl3 as [Hq3 Hf3 Hfd3 Hr3]. split_and!.
  - split; [done|eauto|]. by rewrite Hr3.
  - apply stored_state_same. by rewrite Hr3.
  - by apply stored_log_image.
  - exact Hr3.
Qed.

(** ** Refinement of a plain store *)

(** What the layer keeps, as plain data: the state, the log and the snapshot. *)
Record raft_store := RaftStore {
  rs_state : option (Z * list Z);
  rs_log : list raft_log_entry;
  rs_snapshot : option (Z * Z * list Z)
}.

(** The operations of raft_persistence.h on an open directory. *)
Inductive store_op :=
  | PSaveState (term : Z) (voted_for : list Z)
  | PLoadState
  | PSaveTerm (term : Z)
  | PSaveVote (voted_for : list Z)
  | PAppendLog (e : raft_log_entry)
  | PLoadLog
  | PTruncateLog (from : Z)
  | PSaveSnapshot (index term : Z) (data : list Z)
  | PLoadSnapshot.

Inductive store_answer :=
  | ADone (e : distric_err)
  | AWritten (r : result unit)
  | AState (r : result (Z * list Z))
  | ALog (r : result (list raft_log_entry))
  | ASnapshot (r : result (Z * Z * list Z)).

Definition disk_step (op : store_op) (d : disk) : store_answer * disk :=
  match op with
  | PSaveState t v => let '(e, d) := raft_persistence_save_state_c t v d in (ADone e, d)
  | PLoadState => let '(r, d) := raft_persistence_load_state_c d in (AState r, d)
  | PSaveTerm t => let '(r, d) := raft_persistence_save_term t d in (AWritten r, d)
  | PSaveVote v => let '(r, d) := raft_persistence_save_vote v d in (AWritten r, d)
  | PAppendLog e => let '(e, d) := raft_persistence_append_log_c e d in (ADone e, d)
  | PLoadLog => let '(r, d) := raft_persistence_load_log_c d in (ALog r, d)
  | PTruncateLog from => let '(e, d) := raft_persistence_truncate_log_c from d in (ADone e, d)
  | PSaveSnapshot i t data => let '(e, d) := raft_persistence_save_snapshot_c i t data d in (ADone e, d)
  | PLoadSnapshot => let '(r, d) := raft_persistence_load_snapshot d in (ASnapshot r, d)
  end.

(** What is there, or [DISTRIC_ERR_NOT_FOUND]. *)
Definition found {A} (o : option A) : result A :=
  match o with Some a => Ok a | None => Err DISTRIC_ERR_NOT_FOUND end.

Definition store_step (op : store_op) (s : raft_store) : store_answer * raft_store :=
  let with_state st := RaftStore (Some st) (rs_log s) (rs_snapshot s) in
  let with_log es := RaftStore (rs_state s) es (rs_snapshot s) in
  let '(term, voted_for) := default (0, []) (rs_state s) in
  match op with
  | PSaveState t v => (ADone DISTRIC_OK, with_state (t, v))
  | PLoadState => (AState (found (rs_state s)), s)
  | PSaveTerm t => (AWritten (Ok ()), with_state (t, voted_for))
  | PSaveVote v => (AWritten (Ok ()), with_state (term, v))
  | PAppendLog e => (ADone DISTRIC_OK, with_log (rs_log s ++ [e]))
  | PLoadLog => (ALog (Ok (rs_log s)), s)
  | PTruncateLog from => (ADone DISTRIC_OK, with_log (filter (λ e, le_index e < from) (rs_log s)))
  | PSaveSnapshot i t data => (ADone DISTRIC_OK, RaftStore (rs_state s) (rs_log s) (Some (i, t, data)))
  | PLoadSnapshot => (ASnapshot (found (rs_snapshot s)), s)
  end.

Fixpoint disk_run (ops : list store_op) (d : disk) : list store_answer * disk :=
  match ops with
  | [] => ([], d)
  | op :: ops => let '(a, d) := disk_step op d in let '(answers, d) := disk_run ops d in (a :: answers, d)
  end.

Fixpoint store_run (ops : list store_op) (s : raft_store) : list store_answer * raft_store :=
  match ops with
  | [] => ([], s)
  | op :: ops => let '(a, s) := store_step op s in let '(answers, s) := store_run ops s in (a :: answers, s)
  end.

(** The values the files can hold: a term of the state file is read through [int], an
    identifier has at most 63 bytes and no quote. *)
Definition op_ok (op : store_op) : Prop :=
  match op with
  | PSaveState t v => storable_term t ∧ storable_id v
  | PSaveTerm t => storable_term t
  | PSaveVote v => storable_id v
  | PAppendLog e => storable_entry e
  | PSaveSnapshot i t data => is_u32 i ∧ is_u32 t ∧ bytes_ok data ∧ Z.of_nat (length data) < 2 ^ 32
  | PLoadState | PLoadLog | PTruncateLog _ | PLoadSnapshot => True
  end.

(** No snapshot file yet, or one the code wrote. *)
Definition snapshot_file (d : disk) (snapshot : option (Z * Z * list Z)) : Prop :=
  match snapshot with
  | None => d.(d_files) SNAPSHOT_PATH = None
  | Some (i, t, data) =>
      op_ok (PSaveSnapshot i t data) ∧ d.(d_files) SNAPSHOT_PATH = Some (snapshot_image i t data)
  end.

(** The disk represents the plain store. *)
Record represents (d : disk) (s : raft_store) : Prop := Represents {
  re_reliable : reliable_disk d;
  re_state : stored_state_of d = rs_state s;
  re_log : stored_log_of d = rs_log s;
  re_snapshot : snapshot_file d (rs_snapshot s)
}.

Lemma snapshot_file_same d d' snapshot :
  d'.(d_files) SNAPSHOT_PATH = d.(d_files) SNAPSHOT_PATH → snapshot_file d snapshot → snapshot_file d' snapshot.
Proof. unfold snapshot_file. by intros ->. Qed.

(** The state that is found can be stored again. *)
Lemma stored_state_storable d : reliable_disk d →
  let '(t, v) := default (0, []) (stored_state_of d) in storable_term t ∧ storable_id v.
Proof.
  intros [_ _ [Hf|(t & v & Ht & Hv & Hf)]].
  - unfold stored_state_of. rewrite Hf. simpl. split; [unfold storable_term; lia|].
    split; [by constructor|]. simpl. split; [lia|set_solver].
  - by rewrite (stored_state_bytes d t v).
Qed.

Lemma save_state_represents d s t v :
  represents d s → storable_term t → storable_id v →
  ∃ d', raft_persistence_save_state_c t v d = (DISTRIC_OK, d') ∧
    represents d' (RaftStore (Some (t, v)) (rs_log s) (rs_snapshot s)).
Proof.
  intros [Hrel Hst Hlog Hsn] Ht Hv. destruct (save_state_disk d t v Hrel Ht Hv) as (d' & E & Hrel' & Hst' & Hlog').
  exists d'. split; [exact E|]. split; [done..|by rewrite Hlog'|].
  apply (snapshot_file_same d); [|exact Hsn].
  pose proof (save_state_files d t v Hv) as Hf. rewrite E in Hf. apply Hf.
Qed.

(** An operation of the log that ends as [log_at] says. *)
Lemma log_at_represents d s es off d' :
  represents d s → Forall storable_entry es → log_at d (log_image es) off d' →
  represents d' (RaftStore (rs_state s) es (rs_snapshot s)).
Proof.
  intros [Hrel Hst _ Hsn] Hes Hl. destruct (log_at_reliable d es off d' Hrel Hes Hl) as (Hrel' & Hst' & Hlog').
  split; simpl; [done|by rewrite Hst'|done|]. apply (snapshot_file_same d); [|exact Hsn]. by apply (la_rest _ _ _ _ Hl).
Qed.

Lemma save_snapshot_represents d s i t data :
  represents d s → op_ok (PSaveSnapshot i t data) →
  ∃ d', raft_persistence_save_snapshot_c i t data d = (DISTRIC_OK, d') ∧
    represents d' (RaftStore (rs_state s) (rs_log s) (Some (i, t, data))).
Proof.
  intros [Hrel Hst Hlog _] Hok. destruct (save_snapshot_disk d i t data Hrel) as (d' & E & Hrel' & Hst' & Hlog').
  exists d'. split; [exact E|]. split; simpl; [done|by rewrite Hst'|by rewrite Hlog'|]. split; [exact Hok|].
  pose proof (save_snapshot_spec i t data d) as Hs. rewrite E in Hs. by destruct Hs as [_ [[_ Hf]|[? _]]].
Qed.

Lemma load_snapshot_represents d s :
  represents d s → raft_persistence_load_snapshot d = (found (rs_snapshot s), d).
Proof.
  intros [Hrel _ _ Hsn]. pose proof (rd_quiet _ Hrel) as Hq. unfold snapshot_file in Hsn.
  destruct (rs_snapshot s) as [[[i t] data]|].
  - destruct Hsn as [(Hi & Ht & Hd & Hlen) Hf]. by apply load_snapshot_image; auto using crc32_compute_u32.
  - unfold raft_persistence_load_snapshot. rewrite quiet_call by exact Hq. simpl. by rewrite Hsn.
Qed.

Lemma represents_same d s : represents d s → represents d (RaftStore (rs_state s) (rs_log s) (rs_snapshot s)).
Proof. by intros [? ? ? ?]; split. Qed.

(** One operation: the same answer, and related results. *)
Lemma disk_step_refines op d s :
  represents d s → op_ok op →
  (disk_step op d).1 = (store_step op s).1 ∧ represents (disk_step op d).2 (store_step op s).2.
Proof.
  intros R Hok. pose proof (re_reliable _ _ R) as Hrel. pose proof (stored_state_storable d Hrel) as Hss.
  pose proof (load_state_disk d Hrel) as Hload. pose proof (reliable_log_at d Hrel) as (es & off & Hes & Hl & Hlog).
  rewrite (re_state _ _ R) in Hss, Hload. rewrite (re_log _ _ R) in Hlog.
  unfold store_step. destruct (default (0, []) (rs_state s)) as [t0 v0] eqn:E0. destruct Hss as [Ht0 Hv0].
  destruct op as [t v| |t|v|e| |from|i t data|]; simpl in Hok |- *.
  - destruct Hok as [Ht Hv]. by destruct (save_state_represents d s t v R Ht Hv) as (d' & -> & R').
  - rewrite Hload. by split.
  - destruct (save_state_represents d s t v0 R Hok Hv0) as (d' & Es & R').
    unfold raft_persistence_save_term. rewrite Hload.
    destruct (rs_state s) as [[t1 v1]|]; injection E0 as <- <-; rewrite Es; by split.
  - destruct (save_state_represents d s t0 v R Ht0 Hok) as (d' & Es & R').
    unfold raft_persistence_save_vote. rewrite Hload.
    destruct (rs_state s) as [[t1 v1]|]; injection E0 as <- <-; rewrite Es; by split.
  - destruct (append_log_at _ _ _ _ e Hl Hok) as (d' & -> & Hl'). split; [done|].
    unfold log_image in Hl'. rewrite <- app_assoc, <- records_snoc in Hl'. rewrite Hlog.
    eapply log_at_represents; [exact R| |exact Hl']. apply Forall_app_2; [done|by constructor].
  - destruct (load_log_at _ _ _ _ Hes Hl) as (d' & off' & -> & Hl'). rewrite Hlog. split; [done|].
    pose proof (log_at_represents _ _ _ _ _ R Hes Hl') as R'. rewrite <- Hlog in R'. by destruct s.
  - destruct (truncate_log_at _ _ _ _ from Hes Hl) as (d' & off' & -> & Hl'). rewrite Hlog. split; [done|].
    eapply log_at_represents; [exact R|by apply storable_filter|exact Hl'].
  - by destruct (save_snapshot_represents d s i t data R Hok) as (d' & -> & R').
  - rewrite (load_snapshot_represents d s R). by split.
Qed.

Lemma disk_run_refines ops : ∀ d s, represents d s → Forall op_ok ops →
  (disk_run ops d).1 = (store_run ops s).1 ∧ represents (disk_run ops d).2 (store_run ops s).2.
Proof.
  induction ops as [|op ops IH]; intros d s R Hops; [done|]. apply Forall_cons_iff in Hops as [Hop Hops].
  destruct (disk_step_refines op d s R Hop) as [Ha R']. simpl.
  destruct (disk_step op d) as [a d1], (store_step op s) as [a' s1]. simpl in *. subst a'.
  destruct (IH d1 s1 R' Hops) as [Hb R'']. destruct (disk_run ops d1), (store_run ops s1). simpl in *. by subst.
Qed.

Lemma init_represents d es snapshot :
  openable d es → snapshot_file d snapshot →
  ∃ d', raft_persistence_init d = (DISTRIC_OK, d') ∧ represents d' (RaftStore (stored_state_of d) es snapshot).
Proof.
  intros Ho Hsn. destruct (init_disk d es Ho) as (d' & E & Hrel & Hst & Hlog & Hf). exists d'. split; [exact E|].
  split; [done..|]. by apply (snapshot_file_same d); [apply Hf|].
Qed.

(** C13: on a disk whose calls succeed the persistence layer refines a plain store: opening
    a directory gives the state, the entries and the snapshot in its files, and then every
    sequence of operations, all nine of raft_persistence.h, answers what the plain store
    answers and leaves its contents in the files.  The values are those the files can hold
    ([op_ok]): terms of the state below 2^31, identifiers of at most 63 bytes without a
    quote, indices and terms of 32 bits, data of fewer than 2^32 bytes. *)
Theorem disk_refines_store d es snapshot ops :
  openable d es → snapshot_file d snapshot → Forall op_ok ops →
  let s := RaftStore (stored_state_of d) es snapshot in
  ∃ d', raft_persistence_init d = (DISTRIC_OK, d') ∧ represents d' s ∧
    (disk_run ops d').1 = (store_run ops s).1 ∧ represents (disk_run ops d').2 (store_run ops s).2.
Proof.
  intros Ho Hsn Hops s. destruct (init_represents d es snapshot Ho Hsn) as (d' & E & R).
  exists d'. split; [exact E|]. split; [exact R|]. by apply disk_run_refines.
Qed.

(** A directory with a log of two entries, opened. *)
Definition two_entries : list raft_log_entry := [LogEntry 1 3 0 [7; 8]; LogEntry 2 3 2 []].
Definition two_entry_disk : disk :=
  fold_left (λ d e, (raft_persistence_append_log_c e d).2) two_entries
    (raft_persistence_init empty_disk).2.

Lemma two_entries_storable : Forall storable_entry two_entries.
Proof.
  unfold two_entries, storable_entry, bytes_ok. repeat first [apply Forall_nil_2 | apply Forall_cons_2 | split_and!]; simpl; ulia.
Qed.

Lemma two_entry_disk_reliable : reliable_disk two_entry_disk.
Proof.
  split; [by vm_compute| |by left].
  exists two_entries, (Z.to_nat 36). split; [apply two_entries_storable|].
  split; vm_compute; reflexivity.
Qed.

Lemma node_3_storable : storable_id (str "node-3").
Proof.
  unfold storable_id, cstr_ok, str. simpl. split; [repeat first [apply Forall_nil_2 | apply Forall_cons_2]; lia|].
  split; [lia|set_solver by lia].
Qed.

(** The properties above on it; first with a failing [fsync]. *)
Lemma state_and_snapshot_atomic_witness :
  storable_id (str "node-3") ∧
  (raft_persistence_save_state_c 5 (str "node-3")
     (Disk two_entry_disk.(d_files) [IoOk; IoOk; IoFail] None (Some true))).2.(d_files) STATE_PATH = None.
Proof.
  split; [exact node_3_storable|].
  destruct (state_and_snapshot_atomic
    (Disk two_entry_disk.(d_files) [IoOk; IoOk; IoFail] None (Some true)) 5 (str "node-3") 2 3 [1]
    node_3_storable) as [([[He _]|[_ Hf]] & _) _]; [vm_compute in He; discriminate|].
  exact Hf.
Defined.

Definition snapshot_disk : disk := (raft_persistence_save_snapshot_c 2 3 [1; 2; 3] two_entry_disk).2.

Lemma snapshot_roundtrip_witness :
  raft_persistence_save_snapshot_c 2 3 [1; 2; 3] two_entry_disk = (DISTRIC_OK, snapshot_disk) ∧
  (raft_persistence_load_snapshot snapshot_disk).1 = Ok (2, 3, [1; 2; 3]).
Proof.
  assert (Hsave : raft_persistence_save_snapshot_c 2 3 [1; 2; 3] two_entry_disk =
    (DISTRIC_OK, snapshot_disk)) by (vm_compute; reflexivity).
  split; [exact Hsave|].
  apply (snapshot_roundtrip two_entry_disk snapshot_disk snapshot_disk 2 3 [1; 2; 3]);
    [ulia|ulia|unfold bytes_ok; repeat apply Forall_cons_2; simpl; try ulia; constructor|simpl; ulia|exact Hsave| |];
    vm_compute; reflexivity.
Defined.

(** Every operation once, from an empty directory. *)
Definition every_operation : list store_op :=
  [PLoadState; PLoadSnapshot; PSaveTerm 3; PSaveVote (str "node-3"); PAppendLog (LogEntry 1 3 0 [7; 8]);
   PAppendLog (LogEntry 2 3 2 []); PTruncateLog 2; PSaveSnapshot 1 3 [9]; PLoadSnapshot; PSaveState 4 [];
   PLoadState; PLoadLog].

Lemma disk_refines_store_witness :
  ∃ d', raft_persistence_init empty_disk = (DISTRIC_OK, d') ∧ represents d' (RaftStore None [] None) ∧
    (disk_run every_operation d').1 =
      [AState (Err DISTRIC_ERR_NOT_FOUND); ASnapshot (Err DISTRIC_ERR_NOT_FOUND); AWritten (Ok ()); AWritten (Ok ());
       ADone DISTRIC_OK; ADone DISTRIC_OK; ADone DISTRIC_OK; ADone DISTRIC_OK; ASnapshot (Ok (1, 3, [9]));
       ADone DISTRIC_OK; AState (Ok (4, [])); ALog (Ok [LogEntry 1 3 0 [7; 8]])] ∧
    represents (disk_run every_operation d').2 (RaftStore (Some (4, [])) [LogEntry 1 3 0 [7; 8]] (Some (1, 3, [9]))).
Proof.
  apply (disk_refines_store empty_disk [] None every_operation).
  - split; [done|]. split; [done|]. split; [constructor|]. split; [by right|by left].
  - reflexivity.
  - pose proof node_3_storable. pose proof two_entries_storable as Hes. apply Forall_cons_iff in Hes as [? Hes].
    apply Forall_cons_iff in Hes as [? _].
    assert (storable_id []) by (split; [by constructor|]; simpl; split; [lia|set_solver]).
    repeat (apply Forall_cons_2; [simpl; split_and?; first [done|by by_bytes|unfold storable_term; ulia]|]). constructor.
Defined.

(** ** What an I/O failure can do to the log file *)

(** The first [n] calls succeed, then one fails. *)
Definition failing_after (n : nat) (d : disk) : disk :=
  Disk d.(d_files) (replicate n IoOk ++ [IoFail]) d.(d_log_fd) d.(d_directory).

(** A record of thirteen bytes of data, and one without data, as the core
    appends them after [two_entries]. *)
Definition entry_with_data : raft_log_entry := LogEntry 3 4 0 (replicate 13 7).
Definition entry_no_data : raft_log_entry := LogEntry 3 4 2 [].

(** An error while [raft_persistence_truncate_log] rewrites the log loses
    entries that were to be kept.  The file is emptied in place before the
    entries below [from_index] are written again, without the temporary file and
    the [rename] the state and the snapshot have: on a log of two durable entries,
    when the 23rd call fails the truncation from index 3, which removes nothing,
    answers an error and leaves an empty log. *)
Theorem truncate_log_loses_entries :
  let d := two_entry_disk in
  let '(e, d') := raft_persistence_truncate_log_c 3 (failing_after 22 d) in
  stored_log_of d = two_entries ∧ e = DISTRIC_ERR_INIT_FAILED ∧ stored_log_of d' = [].
Proof. vm_compute. split_and!; reflexivity. Qed.

(** An append that fails in the middle of a record leaves the part that was
    written in the file: the log can then no longer be loaded, its durable entries
    included, and when a later append succeeds the load returns the entry whose
    append was reported as failed, with the bytes of the acknowledged entry as its
    data, and not the acknowledged entry. *)
Theorem torn_append_corrupts :
  let '(e1, d1) := raft_persistence_append_log_c entry_with_data (failing_after 5 two_entry_disk) in
  let '(e2, d2) := raft_persistence_append_log_c entry_no_data d1 in
  e1 = DISTRIC_ERR_INIT_FAILED ∧
  (raft_persistence_load_log_c (reopened d1)).1 = Err DISTRIC_ERR_INIT_FAILED ∧
  e2 = DISTRIC_OK ∧
  stored_log_of d2 = two_entries ++ [LogEntry 3 4 0 (record_bytes entry_no_data)].
Proof. vm_compute. split_and!; reflexivity. Qed.
