(* ===== verification/RaftCore.v ===== *)
(** * The Raft consensus core

    [src/libs/distric_raft/src/raft_core.c]: the node, its state transitions,
    the handlers of the two RPCs, the replication helpers and the snapshot
    entry points, translated function by function.

    Conventions of this file: the write lock makes a handler one step; the
    readings of the clock inside a handler are the arguments [now] or [time k]
    (the [k]-th [get_time_ms] of the handler's text), a value of [rand()] is an
    argument; the calls of the [apply_fn] and [state_change_fn] callbacks are
    recorded in the fields [applied] and [state_changes]. *)

From Stdlib Require Import ZArith Lia String.
From stdpp Require Import base list numbers option.
From S2P Require Import Prelude RaftLog.

Local Open Scope Z_scope.

(** ** Data *)

Inductive raft_state :=
  | RAFT_STATE_FOLLOWER
  | RAFT_STATE_CANDIDATE
  | RAFT_STATE_LEADER.

#[export] Instance raft_state_eq_dec : EqDecision raft_state.
Proof. solve_decision. Defined.

Definition raft_state_to_string (state : raft_state) : string :=
  match state with
  | RAFT_STATE_FOLLOWER => "FOLLOWER"
  | RAFT_STATE_CANDIDATE => "CANDIDATE"
  | RAFT_STATE_LEADER => "LEADER"
  end%string.

Record raft_peer := RaftPeer {
  rp_node_id : list Z;
  rp_address : list Z;
  rp_port : Z;
  rp_next_index : Z;
  rp_match_index : Z;
  rp_last_contact_ms : Z;
  rp_vote_granted : bool
}.

(** [struct raft_config]: [peers] and [peer_count] are a list, the callbacks
    are only present or [NULL]. *)
Record raft_config := RaftConfig {
  cfg_node_id : list Z;
  cfg_peers : list raft_peer;
  cfg_election_timeout_min_ms : Z;
  cfg_election_timeout_max_ms : Z;
  cfg_heartbeat_interval_ms : Z;
  cfg_snapshot_threshold : Z;
  cfg_persistence_data_dir : option (list Z);
  cfg_apply_fn : bool;
  cfg_state_change_fn : bool
}.

Definition peer_count (config : raft_config) : nat := length config.(cfg_peers).

(** [struct raft_node]. *)
Record raft_node (P : Type) := RaftNode {
  nd_config : raft_config;
  current_term : Z;
  voted_for : list Z;  (* 63 characters at most *)
  nd_log : raft_log;
  commit_index : Z;
  last_applied : Z;
  next_index : list Z;  (* one per peer *)
  match_index : list Z;  (* one per peer *)
  nd_state : raft_state;
  current_leader : list Z;
  election_timeout_ms : Z;
  last_heartbeat_ms : Z;
  last_election_ms : Z;
  last_heartbeat_sent_ms : Z;
  persistence : option P;
  running : bool;
  applied : list raft_log_entry;  (* calls of [apply_fn], oldest first *)
  state_changes : list (raft_state * raft_state)  (* calls of [state_change_fn], oldest first *)
}.
Arguments RaftNode {P}.
Arguments nd_config {P} _.
Arguments current_term {P} _.
Arguments voted_for {P} _.
Arguments nd_log {P} _.
Arguments commit_index {P} _.
Arguments last_applied {P} _.
Arguments next_index {P} _.
Arguments match_index {P} _.
Arguments nd_state {P} _.
Arguments current_leader {P} _.
Arguments election_timeout_ms {P} _.
Arguments last_heartbeat_ms {P} _.
Arguments last_election_ms {P} _.
Arguments last_heartbeat_sent_ms {P} _.
Arguments persistence {P} _.
Arguments running {P} _.
Arguments applied {P} _.
Arguments state_changes {P} _.

(** Assignments to the fields. *)
Section setters.
Context {P : Type}.
Implicit Type n : raft_node P.
Definition set_current_term (v : Z) n : raft_node P :=
    RaftNode n.(nd_config) v n.(voted_for) n.(nd_log) n.(commit_index) n.(last_applied)
      n.(next_index) n.(match_index) n.(nd_state) n.(current_leader)
      n.(election_timeout_ms) n.(last_heartbeat_ms) n.(last_election_ms)
      n.(last_heartbeat_sent_ms) n.(persistence) n.(running) n.(applied)
      n.(state_changes).
Definition set_voted_for (v : list Z) n : raft_node P :=
    RaftNode n.(nd_config) n.(current_term) v n.(nd_log) n.(commit_index) n.(last_applied)
      n.(next_index) n.(match_index) n.(nd_state) n.(current_leader)
      n.(election_timeout_ms) n.(last_heartbeat_ms) n.(last_election_ms)
      n.(last_heartbeat_sent_ms) n.(persistence) n.(running) n.(applied)
      n.(state_changes).
Definition set_log (v : raft_log) n : raft_node P :=
    RaftNode n.(nd_config) n.(current_term) n.(voted_for) v n.(commit_index) n.(last_applied)
      n.(next_index) n.(match_index) n.(nd_state) n.(current_leader)
      n.(election_timeout_ms) n.(last_heartbeat_ms) n.(last_election_ms)
      n.(last_heartbeat_sent_ms) n.(persistence) n.(running) n.(applied)
      n.(state_changes).
Definition set_commit_index (v : Z) n : raft_node P :=
    RaftNode n.(nd_config) n.(current_term) n.(voted_for) n.(nd_log) v n.(last_applied)
      n.(next_index) n.(match_index) n.(nd_state) n.(current_leader)
      n.(election_timeout_ms) n.(last_heartbeat_ms) n.(last_election_ms)
      n.(last_heartbeat_sent_ms) n.(persistence) n.(running) n.(applied)
      n.(state_changes).
Definition set_last_applied (v : Z) n : raft_node P :=
    RaftNode n.(nd_config) n.(current_term) n.(voted_for) n.(nd_log) n.(commit_index) v
      n.(next_index) n.(match_index) n.(nd_state) n.(current_leader)
      n.(election_timeout_ms) n.(last_heartbeat_ms) n.(last_election_ms)
      n.(last_heartbeat_sent_ms) n.(persistence) n.(running) n.(applied)
      n.(state_changes).
Definition set_next_index (v : list Z) n : raft_node P :=
    RaftNode n.(nd_config) n.(current_term) n.(voted_for) n.(nd_log) n.(commit_index)
      n.(last_applied) v n.(match_index) n.(nd_state) n.(current_leader)
      n.(election_timeout_ms) n.(last_heartbeat_ms) n.(last_election_ms)
      n.(last_heartbeat_sent_ms) n.(persistence) n.(running) n.(applied)
      n.(state_changes).
Definition set_match_index (v : list Z) n : raft_node P :=
    RaftNode n.(nd_config) n.(current_term) n.(voted_for) n.(nd_log) n.(commit_index)
      n.(last_applied) n.(next_index) v n.(nd_state) n.(current_leader)
      n.(election_timeout_ms) n.(last_heartbeat_ms) n.(last_election_ms)
      n.(last_heartbeat_sent_ms) n.(persistence) n.(running) n.(applied)
      n.(state_changes).
Definition set_state (v : raft_state) n : raft_node P :=
    RaftNode n.(nd_config) n.(current_term) n.(voted_for) n.(nd_log) n.(commit_index)
      n.(last_applied) n.(next_index) n.(match_index) v n.(current_leader)
      n.(election_timeout_ms) n.(last_heartbeat_ms) n.(last_election_ms)
      n.(last_heartbeat_sent_ms) n.(persistence) n.(running) n.(applied)
      n.(state_changes).
Definition set_current_leader (v : list Z) n : raft_node P :=
    RaftNode n.(nd_config) n.(current_term) n.(voted_for) n.(nd_log) n.(commit_index)
      n.(last_applied) n.(next_index) n.(match_index) n.(nd_state) v
      n.(election_timeout_ms) n.(last_heartbeat_ms) n.(last_election_ms)
      n.(last_heartbeat_sent_ms) n.(persistence) n.(running) n.(applied)
      n.(state_changes).
Definition set_election_timeout_ms (v : Z) n : raft_node P :=
    RaftNode n.(nd_config) n.(current_term) n.(voted_for) n.(nd_log) n.(commit_index)
      n.(last_applied) n.(next_index) n.(match_index) n.(nd_state)
      n.(current_leader) v n.(last_heartbeat_ms) n.(last_election_ms)
      n.(last_heartbeat_sent_ms) n.(persistence) n.(running) n.(applied)
      n.(state_changes).
Definition set_last_heartbeat_ms (v : Z) n : raft_node P :=
    RaftNode n.(nd_config) n.(current_term) n.(voted_for) n.(nd_log) n.(commit_index)
      n.(last_applied) n.(next_index) n.(match_index) n.(nd_state)
      n.(current_leader) n.(election_timeout_ms) v n.(last_election_ms)
      n.(last_heartbeat_sent_ms) n.(persistence) n.(running) n.(applied)
      n.(state_changes).
Definition set_last_election_ms (v : Z) n : raft_node P :=
    RaftNode n.(nd_config) n.(current_term) n.(voted_for) n.(nd_log) n.(commit_index)
      n.(last_applied) n.(next_index) n.(match_index) n.(nd_state)
      n.(current_leader) n.(election_timeout_ms) n.(last_heartbeat_ms) v
      n.(last_heartbeat_sent_ms) n.(persistence) n.(running) n.(applied)
      n.(state_changes).
Definition set_last_heartbeat_sent_ms (v : Z) n : raft_node P :=
    RaftNode n.(nd_config) n.(current_term) n.(voted_for) n.(nd_log) n.(commit_index)
      n.(last_applied) n.(next_index) n.(match_index) n.(nd_state)
      n.(current_leader) n.(election_timeout_ms) n.(last_heartbeat_ms)
      n.(last_election_ms) v n.(persistence) n.(running) n.(applied)
      n.(state_changes).
Definition set_persistence (v : option P) n : raft_node P :=
    RaftNode n.(nd_config) n.(current_term) n.(voted_for) n.(nd_log) n.(commit_index)
      n.(last_applied) n.(next_index) n.(match_index) n.(nd_state)
      n.(current_leader) n.(election_timeout_ms) n.(last_heartbeat_ms)
      n.(last_election_ms) n.(last_heartbeat_sent_ms) v n.(running) n.(applied)
      n.(state_changes).
Definition set_running (v : bool) n : raft_node P :=
    RaftNode n.(nd_config) n.(current_term) n.(voted_for) n.(nd_log) n.(commit_index)
      n.(last_applied) n.(next_index) n.(match_index) n.(nd_state)
      n.(current_leader) n.(election_timeout_ms) n.(last_heartbeat_ms)
      n.(last_election_ms) n.(last_heartbeat_sent_ms) n.(persistence) v
      n.(applied) n.(state_changes).
Definition set_applied (v : list raft_log_entry) n : raft_node P :=
    RaftNode n.(nd_config) n.(current_term) n.(voted_for) n.(nd_log) n.(commit_index)
      n.(last_applied) n.(next_index) n.(match_index) n.(nd_state)
      n.(current_leader) n.(election_timeout_ms) n.(last_heartbeat_ms)
      n.(last_election_ms) n.(last_heartbeat_sent_ms) n.(persistence)
      n.(running) v n.(state_changes).
Definition set_state_changes (v : list (raft_state * raft_state)) n : raft_node P :=
    RaftNode n.(nd_config) n.(current_term) n.(voted_for) n.(nd_log) n.(commit_index)
      n.(last_applied) n.(next_index) n.(match_index) n.(nd_state)
      n.(current_leader) n.(election_timeout_ms) n.(last_heartbeat_ms)
      n.(last_election_ms) n.(last_heartbeat_sent_ms) n.(persistence)
      n.(running) n.(applied) v.
End setters.

(** ** Timing *)

(** [random_election_timeout]: the remainder by an empty range is a division
    by zero. *)
Definition random_election_timeout (min_ms max_ms rand : Z) : result Z :=
  let range := u32 (max_ms - min_ms) in
  if range =? 0 then Fault else Ok (u32 (min_ms + u32 rand mod range)).

(** [strncpy (dst, src, 63)] into a zeroed or terminated [char[64]]. *)
Definition str63 (s : list Z) : list Z := take 63 s.

Section core.
Context {P : Type} `{RaftPersistenceOps P}.
Notation node := (raft_node P).

(** ** Persistence helpers *)

(** [persist_state]: an error is logged and otherwise ignored. *)
Definition persist_state (n : node) : node :=
  match n.(persistence) with
  | None => n
  | Some p =>
      set_persistence
        (Some (raft_persistence_save_state p n.(current_term) n.(voted_for)).2) n
  end.

(** [log_append (&node->log, .., node)]. *)
Definition node_log_append (n : node) (term type : Z) (data : list Z) :
    distric_err * node :=
  let '(err, log', p') := log_append n.(nd_log) term type data n.(persistence) in
  (err, set_persistence p' (set_log log' n)).

(** [log_truncate (&node->log, from_index, node)]. *)
Definition node_log_truncate (n : node) (from_index : Z) : node :=
  let '(log', p') := log_truncate n.(nd_log) from_index n.(persistence) in
  set_persistence p' (set_log log' n).

(** ** State transitions *)

Definition state_change (old new : raft_state) (n : node) : node :=
  if n.(nd_config).(cfg_state_change_fn)
  then set_state_changes (n.(state_changes) ++ [(old, new)]) n else n.

Definition transition_to_follower (n : node) (term now : Z) : node :=
  let old_state := n.(nd_state) in
  let n := set_current_term term n in
  let n := set_state RAFT_STATE_FOLLOWER n in
  let n := set_voted_for [] n in
  let n := set_current_leader [] n in
  let n := set_last_heartbeat_ms now n in
  let n := persist_state n in
  if decide (old_state = RAFT_STATE_FOLLOWER) then n
  else state_change old_state RAFT_STATE_FOLLOWER n.

Definition transition_to_candidate (n : node) (now rand : Z) : result node :=
  let old_state := n.(nd_state) in
  let n := set_current_term (u32 (n.(current_term) + 1)) n in
  let n := set_state RAFT_STATE_CANDIDATE n in
  let n := set_voted_for (str63 n.(nd_config).(cfg_node_id)) n in
  let n := set_current_leader [] n in
  let n := set_last_election_ms now n in
  timeout ← random_election_timeout
      n.(nd_config).(cfg_election_timeout_min_ms)
      n.(nd_config).(cfg_election_timeout_max_ms) rand;
  let n := set_election_timeout_ms timeout n in
  let n := persist_state n in
  Ok (state_change old_state RAFT_STATE_CANDIDATE n).

Definition transition_to_leader (n : node) (now : Z) : node :=
  let old_state := n.(nd_state) in
  let n := set_state RAFT_STATE_LEADER n in
  let n := set_current_leader (str63 n.(nd_config).(cfg_node_id)) n in
  let last_index := log_last_index n.(nd_log) in
  let n := set_next_index ((λ _, u32 (last_index + 1)) <$> n.(next_index)) n in
  let n := set_match_index ((λ _, 0) <$> n.(match_index)) n in
  let n := (node_log_append n n.(current_term) RAFT_ENTRY_NOOP []).2 in
  let n := set_last_heartbeat_sent_ms now n in
  state_change old_state RAFT_STATE_LEADER n.

(** ** Log replication helpers *)

(** The loop of [apply_committed_entries]; [fuel] is the number of indices
    between [last_applied] and [commit_index]. *)
Fixpoint apply_loop (fuel : nat) (commit : Z) (n : node) : node :=
  match fuel with
  | O => n
  | S fuel =>
      if n.(last_applied) <? commit then
        let n := set_last_applied (u32 (n.(last_applied) + 1)) n in
        match log_get n.(nd_log) n.(last_applied) with
        | None => n  (* missing log entry: break *)
        | Some entry =>
            if le_type entry =? RAFT_ENTRY_NOOP then apply_loop fuel commit n
            else apply_loop fuel commit (set_applied (n.(applied) ++ [entry]) n)
        end
      else n
  end.

Definition apply_committed_entries (n : node) : node :=
  if n.(nd_config).(cfg_apply_fn)
  then apply_loop (Z.to_nat (n.(commit_index) - n.(last_applied))) n.(commit_index) n
  else n.

(** The majority of the cluster, this node included. *)
Definition majority (n : node) : Z :=
  u32 ((Z.of_nat (peer_count n.(nd_config)) + 1) / 2 + 1).

(** The replicas of the entry at [i]: this node and the peers whose
    [match_index] reaches [i]. *)
Definition replicas (n : node) (i : Z) : Z :=
  u32 (1 + Z.of_nat (length (filter (λ m, i ≤ m) n.(match_index)))).

(** One turn of the loop of [update_commit_index]. *)
Definition commit_turn (n : node) (commit i : Z) : Z :=
  match log_get n.(nd_log) i with
  | None => commit
  | Some entry =>
      if negb (le_term entry =? n.(current_term)) then commit
      else if majority n <=? replicas n i then i else commit
  end.

(** [update_commit_index]: the loop runs over [old_commit + 1 .. last_log_index]
    (with a last index of [UINT32_MAX] the loop of the code would not end;
    well-formed logs stay below it). *)
Definition update_commit_index (n : node) : node :=
  match n.(nd_state) with
  | RAFT_STATE_LEADER =>
      let old_commit := n.(commit_index) in
      let last_log_index := log_last_index n.(nd_log) in
      if (peer_count n.(nd_config) =? 0)%nat then
        if last_log_index >? old_commit then set_commit_index last_log_index n else n
      else
        set_commit_index
          (foldl (commit_turn n) old_commit
             (seqZ (u32 (old_commit + 1)) (last_log_index - u32 (old_commit + 1) + 1))) n
  | _ => n
  end.

Definition get_replication_batch_size (_ : node) : Z := 100.

(** ** Life cycle *)

(** The log rebuilt from the stored entries, without persisting them again. *)
Definition restore_entry (log : raft_log) (e : raft_log_entry) : raft_log :=
  (log_append log (le_term e) (le_type e) (le_data e) (None : option P)).1.2.

(** [raft_create]; [init] is [raft_persistence_init]. *)
Definition raft_create (init : list Z → result P) (config : raft_config)
    (time : nat → Z) (rand : Z) : result node :=
  timeout ← random_election_timeout config.(cfg_election_timeout_min_ms)
      config.(cfg_election_timeout_max_ms) rand;
  let zeros := replicate (peer_count config) 0 in
  let n := RaftNode config 0 [] raft_log_init 0 0 zeros zeros RAFT_STATE_FOLLOWER []
             timeout (time 0%nat) 0 (time 1%nat) None false [] [] in
  match config.(cfg_persistence_data_dir) with
  | None => Ok n
  | Some data_dir =>
      p ← init data_dir;
      let '(st, p) := raft_persistence_load_state p in
      n ← match st with
          | Ok (loaded_term, loaded_voted_for) =>
              Ok (set_voted_for (str63 loaded_voted_for) (set_current_term loaded_term n))
          | Err _ => Ok n  (* logged unless NOT_FOUND *)
          | Fault => Fault
          end;
      let '(es, p) := raft_persistence_load_log p in
      n ← match es with
          | Ok entries => Ok (set_log (foldl restore_entry n.(nd_log) entries) n)
          | Err _ => Ok n
          | Fault => Fault
          end;
      Ok (set_persistence (Some p) n)
  end.

Definition raft_start (n : node) (time : nat → Z) : node :=
  set_last_election_ms (time 1%nat) (set_last_heartbeat_ms (time 0%nat) (set_running true n)).

Definition raft_stop (n : node) : node := set_running false n.

(** ** Elections *)

Definition votes_needed (n : node) : Z :=
  s32 ((Z.of_nat (peer_count n.(nd_config)) + 1) / 2 + 1).

Definition start_election (n : node) (time : nat → Z) (rand : Z) : result node :=
  n ← transition_to_candidate n (time 1%nat) rand;
  if votes_needed n =? 1 then Ok (transition_to_leader n (time 2%nat)) else Ok n.

Definition raft_tick (n : node) (time : nat → Z) (rand : Z) : result node :=
  if negb n.(running) then Err DISTRIC_ERR_INVALID_ARG
  else
    let now := time 0%nat in
    match n.(nd_state) with
    | RAFT_STATE_FOLLOWER =>
        let elapsed := u64 (now - n.(last_heartbeat_ms)) in
        n ← (if elapsed >? n.(election_timeout_ms) then start_election n time rand else Ok n);
        Ok (apply_committed_entries n)
    | RAFT_STATE_CANDIDATE =>
        let elapsed := u64 (now - n.(last_election_ms)) in
        n ← (if elapsed >? n.(election_timeout_ms) then start_election n time rand else Ok n);
        Ok (apply_committed_entries n)
    | RAFT_STATE_LEADER =>
        Ok (update_commit_index (apply_committed_entries n))
    end.

Definition raft_process_election_result (n : node) (votes_received now : Z) : node :=
  match n.(nd_state) with
  | RAFT_STATE_CANDIDATE =>
      let total_nodes := u32 (Z.of_nat (peer_count n.(nd_config)) + 1) in
      let majority := u32 (total_nodes / 2 + 1) in
      if votes_received >=? majority then transition_to_leader n now else n
  | _ => n
  end.

Definition raft_step_down (n : node) (term now : Z) : node :=
  if term >? n.(current_term) then transition_to_follower n term now else n.

(** ** RPC handlers *)

(** The outputs of [raft_handle_request_vote]. *)
Record vote_reply := VoteReply { vote_granted : bool; vote_term : Z }.

Definition raft_handle_request_vote (n : node) (candidate_id : list Z)
    (term last_log_index last_log_term : Z) (time : nat → Z) : vote_reply * node :=
  let n :=
    if term >? n.(current_term) then transition_to_follower n term (time 0%nat) else n in
  let term_out := n.(current_term) in
  if term <? n.(current_term) then (VoteReply false term_out, n)
  else
    let can_vote :=
      bool_decide (n.(voted_for) = []) || bool_decide (n.(voted_for) = candidate_id) in
    if negb can_vote then (VoteReply false term_out, n)
    else
      let our_last_index := log_last_index n.(nd_log) in
      let our_last_term := log_last_term n.(nd_log) in
      let log_ok :=
        (last_log_term >? our_last_term)
        || ((last_log_term =? our_last_term) && (last_log_index >=? our_last_index)) in
      if log_ok then
        let n := set_voted_for (str63 candidate_id) n in
        let n := set_last_heartbeat_ms (time 1%nat) n in
        (VoteReply true term_out, persist_state n)
      else (VoteReply false term_out, n).

(** The outputs of [raft_handle_append_entries]. *)
Record append_reply := AppendReply { ae_success : bool; ae_term : Z; ae_last_log_index : Z }.

(** One turn of the loop over the received entries: delete a conflicting entry
    and all that follow, then append the entry unless it is present.  An error
    of [log_append] is ignored. *)
Definition append_turn (n : node) (entry : raft_log_entry) : node :=
  let n :=
    match log_get n.(nd_log) (le_index entry) with
    | Some existing =>
        if negb (le_term existing =? le_term entry)
        then node_log_truncate n (le_index entry) else n
    | None => n
    end in
  match log_get n.(nd_log) (le_index entry) with
  | None => (node_log_append n (le_term entry) (le_type entry) (le_data entry)).2
  | Some _ => n
  end.

(** The check of the entry before the received ones. *)
Definition prev_matches (n : node) (prev_log_index prev_log_term : Z) : bool :=
  if prev_log_index >? 0 then
    match log_get n.(nd_log) prev_log_index with
    | Some prev_entry => le_term prev_entry =? prev_log_term
    | None => false
    end
  else true.

Definition raft_handle_append_entries (n : node) (leader_id : list Z)
    (term prev_log_index prev_log_term : Z) (entries : list raft_log_entry)
    (leader_commit : Z) (time : nat → Z) : append_reply * node :=
  let n :=
    if term >? n.(current_term) then transition_to_follower n term (time 0%nat) else n in
  let term_out := n.(current_term) in
  let last0 := log_last_index n.(nd_log) in
  if term <? n.(current_term) then (AppendReply false term_out last0, n)
  else
    let n := set_last_heartbeat_ms (time 1%nat) n in
    let n := set_current_leader (str63 leader_id) n in
    let n :=
      if decide (n.(nd_state) = RAFT_STATE_CANDIDATE)
      then transition_to_follower n term (time 2%nat) else n in
    if negb (prev_matches n prev_log_index prev_log_term)
    then (AppendReply false term_out last0, n)
    else
      let n := foldl append_turn n entries in
      let n :=
        if leader_commit >? n.(commit_index) then
          set_commit_index
            (if leader_commit <? log_last_index n.(nd_log)
             then leader_commit else log_last_index n.(nd_log)) n
        else n in
      (AppendReply true term_out (log_last_index n.(nd_log)), n).

(** ** The client's operations *)

Definition raft_append_entry (n : node) (data : list Z) : result Z * node :=
  match n.(nd_state) with
  | RAFT_STATE_LEADER =>
      let '(err, n') := node_log_append n n.(current_term) RAFT_ENTRY_COMMAND data in
      match err with
      | DISTRIC_OK => (Ok (log_last_index n'.(nd_log)), n')
      | _ => (Err err, n')
      end
  | _ => (Err DISTRIC_ERR_NOT_FOUND, n)  (* not leader *)
  end.

(** [raft_wait_committed]: [commits k] and [time k] are the commit index and
    the clock read in turn [k]; [None] is a wait that has not ended after
    [fuel] turns. *)
Fixpoint wait_loop (fuel : nat) (k : nat) (commits time : nat → Z)
    (index timeout_ms start : Z) : option distric_err :=
  match fuel with
  | O => None
  | S fuel =>
      if commits k >=? index then Some DISTRIC_OK
      else if u64 (time k - start) >=? timeout_ms then Some DISTRIC_ERR_TIMEOUT
      else wait_loop fuel (S k) commits time index timeout_ms start
  end.

Definition raft_wait_committed (fuel : nat) (commits time : nat → Z)
    (index timeout_ms start : Z) : option distric_err :=
  wait_loop fuel 0 commits time index timeout_ms start.

(** ** Queries *)

Definition raft_get_state (n : node) : raft_state := n.(nd_state).
Definition raft_is_leader (n : node) : bool := bool_decide (n.(nd_state) = RAFT_STATE_LEADER).
Definition raft_get_term (n : node) : Z := n.(current_term).
Definition raft_get_leader (n : node) : result (list Z) :=
  match n.(current_leader) with
  | [] => Err DISTRIC_ERR_NOT_FOUND
  | leader => Ok leader
  end.
Definition raft_get_commit_index (n : node) : Z := n.(commit_index).
Definition raft_get_last_log_index (n : node) : Z := log_last_index n.(nd_log).
Definition raft_get_last_log_term (n : node) : Z := log_last_term n.(nd_log).
Definition raft_get_config (n : node) : raft_config := n.(nd_config).
Definition raft_get_node_id (n : node) : list Z := n.(nd_config).(cfg_node_id).

Definition raft_get_log_term (n : node) (index : Z) : Z :=
  match log_get n.(nd_log) index with
  | Some entry => le_term entry
  | None => 0
  end.

(** The entries at [start_index .. end_index - 1], the missing ones skipped. *)
Definition raft_get_log_entries (n : node) (start_index end_index : Z) : list raft_log_entry :=
  omap (log_get n.(nd_log)) (seqZ start_index (end_index - start_index)).

(** ** Replication *)

Definition has_peer (n : node) (peer_index : nat) : bool :=
  (peer_index <? peer_count n.(nd_config))%nat.
Definition peer_next (n : node) (peer_index : nat) : Z := nth peer_index n.(next_index) 0.
Definition peer_match (n : node) (peer_index : nat) : Z := nth peer_index n.(match_index) 0.

Definition raft_get_peer_next_index (n : node) (peer_index : nat) : Z :=
  if has_peer n peer_index then peer_next n peer_index else 0.

Definition raft_update_peer_indices (n : node) (peer_index : nat) (next_i match_i : Z) :
    distric_err * node :=
  if negb (has_peer n peer_index) then (DISTRIC_ERR_INVALID_ARG, n)
  else
    (DISTRIC_OK,
     set_match_index (<[peer_index := match_i]> n.(match_index))
       (set_next_index (<[peer_index := next_i]> n.(next_index)) n)).

(** The decrement shared by the two functions that back up on a mismatch. *)
Definition decrement_next (n : node) (peer_index : nat) : node :=
  if peer_next n peer_index >? 1
  then set_next_index (<[peer_index := peer_next n peer_index - 1]> n.(next_index)) n
  else n.

Definition raft_decrement_peer_next_index (n : node) (peer_index : nat) : distric_err * node :=
  if negb (has_peer n peer_index) then (DISTRIC_ERR_INVALID_ARG, n)
  else (DISTRIC_OK, decrement_next n peer_index).

Definition raft_should_replicate_to_peer (n : node) (peer_index : nat) : bool :=
  has_peer n peer_index && raft_is_leader n &&
  (peer_next n peer_index <=? log_last_index n.(nd_log)).

Definition raft_should_send_heartbeat (n : node) (now : Z) : bool :=
  raft_is_leader n &&
  (u64 (now - n.(last_heartbeat_sent_ms)) >=? n.(nd_config).(cfg_heartbeat_interval_ms)).

Definition raft_mark_heartbeat_sent (n : node) (now : Z) : node :=
  set_last_heartbeat_sent_ms now n.

Definition raft_handle_append_entries_response (n : node) (peer_index : nat)
    (success : bool) (peer_term match_i now : Z) : distric_err * node :=
  if negb (has_peer n peer_index) then (DISTRIC_ERR_INVALID_ARG, n)
  else if peer_term >? n.(current_term) then (DISTRIC_OK, raft_step_down n peer_term now)
  else if peer_term <? n.(current_term) then (DISTRIC_OK, n)  (* stale response *)
  else
    let n :=
      if success then
        set_match_index (<[peer_index := match_i]> n.(match_index))
          (set_next_index (<[peer_index := u32 (match_i + 1)]> n.(next_index)) n)
      else decrement_next n peer_index in
    (DISTRIC_OK, update_commit_index n).

(** What the leader sends to a peer. *)
Record append_batch := AppendBatch {
  ab_prev_log_index : Z;
  ab_prev_log_term : Z;
  ab_entries : list raft_log_entry
}.

Definition raft_get_entries_for_peer (n : node) (peer_index : nat) : result append_batch :=
  if negb (has_peer n peer_index) then Err DISTRIC_ERR_INVALID_ARG
  else
    let next := peer_next n peer_index in
    let last_log_index := log_last_index n.(nd_log) in
    let prev_log_index := if next >? 1 then next - 1 else 0 in
    let prev_log_term :=
      if prev_log_index >? 0 then
        match log_get n.(nd_log) prev_log_index with
        | Some prev_entry => le_term prev_entry
        | None => n.(nd_log).(log_base_term)
        end
      else 0 in
    if next >? last_log_index then Ok (AppendBatch prev_log_index prev_log_term [])
    else
      let end_index := u32 (next + get_replication_batch_size n) in
      let end_index :=
        if end_index >? u32 (last_log_index + 1) then u32 (last_log_index + 1)
        else end_index in
      Ok (AppendBatch prev_log_index prev_log_term (raft_get_log_entries n next end_index)).

(** The scan of [raft_handle_log_conflict] for the last entry of
    [conflict_term] at or below index [i]. *)
Fixpoint conflict_scan (log : raft_log) (conflict_term : Z) (i : nat) : Z :=
  match i with
  | O => 1
  | S i' =>
      match log_get log (Z.of_nat i) with
      | Some entry =>
          if le_term entry =? conflict_term then u32 (Z.of_nat i + 1)
          else conflict_scan log conflict_term i'
      | None => conflict_scan log conflict_term i'
      end
  end.

Definition raft_handle_log_conflict (n : node) (peer_index : nat)
    (conflict_index conflict_term : Z) : distric_err * node :=
  if negb (has_peer n peer_index) then (DISTRIC_ERR_INVALID_ARG, n)
  else
    let new_next_index :=
      if conflict_term >? 0 then conflict_scan n.(nd_log) conflict_term (Z.to_nat conflict_index)
      else conflict_index in
    (DISTRIC_OK, set_next_index (<[peer_index := new_next_index]> n.(next_index)) n).

Definition raft_get_peer_lag (n : node) (peer_index : nat) : Z :=
  if negb (has_peer n peer_index) then 0
  else
    let last_log_index := log_last_index n.(nd_log) in
    if last_log_index >? peer_match n peer_index
    then last_log_index - peer_match n peer_index else 0.

(** [replication_stats_t]. *)
Record replication_stats := ReplicationStats {
  rs_last_log_index : Z;
  rs_commit_index : Z;
  rs_min_match_index : Z;
  rs_max_match_index : Z;
  rs_peers_up_to_date : Z;
  rs_peers_lagging : Z
}.

Definition stats_turn (s : replication_stats) (m : Z) : replication_stats :=
  let eq := m =? s.(rs_last_log_index) in
  ReplicationStats s.(rs_last_log_index) s.(rs_commit_index)
    (if m <? s.(rs_min_match_index) then m else s.(rs_min_match_index))
    (if m >? s.(rs_max_match_index) then m else s.(rs_max_match_index))
    (if eq then u32 (s.(rs_peers_up_to_date) + 1) else s.(rs_peers_up_to_date))
    (if eq then s.(rs_peers_lagging) else u32 (s.(rs_peers_lagging) + 1)).

Definition raft_get_replication_stats (n : node) : result replication_stats :=
  match n.(nd_state) with
  | RAFT_STATE_LEADER =>
      let s := foldl stats_turn
        (ReplicationStats (log_last_index n.(nd_log)) n.(commit_index) UINT32_MAX 0 0 0)
        n.(match_index) in
      Ok (if (peer_count n.(nd_config) =? 0)%nat
          then ReplicationStats s.(rs_last_log_index) s.(rs_commit_index) 0
                 s.(rs_max_match_index) s.(rs_peers_up_to_date) s.(rs_peers_lagging)
          else s)
  | _ => Err DISTRIC_ERR_INVALID_ARG
  end.

(** ** Snapshots *)

Definition snapshot_term (n : node) : Z :=
  if n.(commit_index) =? 0 then
    if n.(nd_log).(log_base_term) =? 0 then n.(current_term) else n.(nd_log).(log_base_term)
  else
    match log_get n.(nd_log) n.(commit_index) with
    | Some entry => le_term entry
    | None => n.(nd_log).(log_base_term)
    end.

(** The base of the log moves to the snapshot, the entries stay as they are. *)
Definition set_log_base (index term : Z) (n : node) : node :=
  set_log (RaftLog n.(nd_log).(log_entries) index term) n.

Definition raise_last_applied (index : Z) (n : node) : node :=
  if index >? n.(last_applied) then set_last_applied index n else n.

Definition raft_create_snapshot (n : node) (snapshot_data : list Z) : distric_err * node :=
  match n.(persistence) with
  | None => (DISTRIC_ERR_INVALID_ARG, n)
  | Some p =>
      let last_included_index := n.(commit_index) in
      let last_included_term := snapshot_term n in
      let '(err, p') :=
        raft_persistence_save_snapshot p last_included_index last_included_term snapshot_data in
      let n := set_persistence (Some p') n in
      match err with
      | DISTRIC_OK =>
          (DISTRIC_OK,
           raise_last_applied last_included_index
             (set_log_base last_included_index last_included_term n))
      | _ => (err, n)
      end
  end.

Definition raft_install_snapshot (n : node) (last_included_index last_included_term : Z)
    (snapshot_data : list Z) : distric_err * node :=
  match n.(persistence) with
  | None => (DISTRIC_ERR_INVALID_ARG, n)
  | Some p =>
      let '(err, p') :=
        raft_persistence_save_snapshot p last_included_index last_included_term snapshot_data in
      let n := set_persistence (Some p') n in
      match err with
      | DISTRIC_OK =>
          let n := set_log_base last_included_index last_included_term n in
          let n :=
            set_log
              (log_truncate n.(nd_log) (u32 (last_included_index + 1)) (None : option P)).1 n in
          let n :=
            if last_included_index >? n.(commit_index)
            then set_commit_index last_included_index n else n in
          (DISTRIC_OK, raise_last_applied last_included_index n)
      | _ => (err, n)
      end
  end.
End core.
