(* ===== verification/RaftInvariant.v ===== *)
(** * Invariants of a Raft node

    The entry points of [RaftCore.v] that change the node are events
    ([raft_event]: start and stop, the tick, the handlers and the responses, the
    client's appends), and the two snapshot calls, which are apart because
    [raft_create_snapshot] does not always leave the log well formed; a
    [node_call] is an event or one of the two.  The node's well-formedness is an
    invariant of the calls, its term never decreases, and it keeps its vote
    within a term along the events, except in the one case the code gets
    wrong. *)

From Stdlib Require Import ZArith Lia.
From stdpp Require Import base list numbers option relations.
From S2P Require Import Prelude RaftLog RaftCore.

Local Open Scope Z_scope.

(** ** Events *)

Inductive raft_event :=
  | EvStart (time : nat → Z)
  | EvStop
  | EvTick (time : nat → Z) (rand : Z)
  | EvRequestVote (candidate_id : list Z) (term last_log_index last_log_term : Z)
      (time : nat → Z)
  | EvAppendEntries (leader_id : list Z) (term prev_log_index prev_log_term : Z)
      (entries : list raft_log_entry) (leader_commit : Z) (time : nat → Z)
  | EvAppendEntry (data : list Z)
  | EvResponse (peer_index : nat) (success : bool) (peer_term match_i now : Z)
  | EvUpdatePeer (peer_index : nat) (next_i match_i : Z)
  | EvDecrement (peer_index : nat)
  | EvConflict (peer_index : nat) (conflict_index conflict_term : Z)
  | EvElectionResult (votes_received now : Z)
  | EvStepDown (term now : Z)
  | EvHeartbeatSent (now : Z).

Section events.
Context {P : Type} `{RaftPersistenceOps P}.
Notation node := (raft_node P).

(** The node after an event; [Fault] is a crash, an [Err] of [raft_tick] (a
    stopped node) changes nothing. *)
Definition handle (n : node) (ev : raft_event) : result node :=
  match ev with
  | EvStart time => Ok (raft_start n time)
  | EvStop => Ok (raft_stop n)
  | EvTick time rand =>
      match raft_tick n time rand with
      | Ok n' => Ok n'
      | Err _ => Ok n
      | Fault => Fault
      end
  | EvRequestVote c t i lt time => Ok (raft_handle_request_vote n c t i lt time).2
  | EvAppendEntries l t pi pt es lc time =>
      Ok (raft_handle_append_entries n l t pi pt es lc time).2
  | EvAppendEntry d => Ok (raft_append_entry n d).2
  | EvResponse i s t m now => Ok (raft_handle_append_entries_response n i s t m now).2
  | EvUpdatePeer i ni mi => Ok (raft_update_peer_indices n i ni mi).2
  | EvDecrement i => Ok (raft_decrement_peer_next_index n i).2
  | EvConflict i ci ct => Ok (raft_handle_log_conflict n i ci ct).2
  | EvElectionResult v now => Ok (raft_process_election_result n v now)
  | EvStepDown t now => Ok (raft_step_down n t now)
  | EvHeartbeatSent now => Ok (raft_mark_heartbeat_sent n now)
  end.

(** What the callers may deliver: values of their C types, and no more entries
    than the 32-bit indices leave room for. *)
Definition msg_entry_ok (e : raft_log_entry) : Prop := is_u32 (le_index e) ∧ entry_ok e.

Definition event_ok (n : node) (ev : raft_event) : Prop :=
  match ev with
  | EvTick time rand => log_room n.(nd_log) 1
  | EvRequestVote c t i lt time => cstr_ok c ∧ is_u32 t
  | EvAppendEntries l t pi pt es lc time =>
      is_u32 t ∧ is_u32 pi ∧ Forall msg_entry_ok es ∧ is_u32 lc ∧
      log_room n.(nd_log) (length es)
  | EvAppendEntry d =>
      bytes_ok d ∧ Z.of_nat (length d) < 2 ^ 32 ∧ log_room n.(nd_log) 1
  | EvResponse i s t m now => is_u32 t ∧ is_u32 m
  | EvUpdatePeer i ni mi => is_u32 ni ∧ is_u32 mi
  | EvConflict i ci ct => is_u32 ci
  | EvElectionResult v now => log_room n.(nd_log) 1
  | EvStepDown t now => is_u32 t
  | _ => True
  end.

(** A step: an acceptable event that does not crash, before the term overflows. *)
Definition raft_step (n n' : node) : Prop :=
  ∃ ev, event_ok n ev ∧ current_term n < UINT32_MAX ∧ handle n ev = Ok n'.

(** ** Well-formed nodes *)

Definition config_ok (config : raft_config) : Prop :=
  cstr_ok (cfg_node_id config) ∧ (length (cfg_node_id config) ≤ 63)%nat ∧
  cfg_node_id config ≠ [] ∧ Z.of_nat (peer_count config) < 2 ^ 30.

Record node_wf (n : node) : Prop := {
  wf_config : config_ok n.(nd_config);
  wf_term : is_u32 n.(current_term);
  wf_vote : cstr_ok n.(voted_for) ∧ (length n.(voted_for) ≤ 63)%nat;
  wf_log : log_wf n.(nd_log);
  wf_commit : is_u32 n.(commit_index);
  wf_applied : is_u32 n.(last_applied);
  wf_next : length n.(next_index) = peer_count n.(nd_config) ∧ Forall is_u32 n.(next_index);
  wf_match : length n.(match_index) = peer_count n.(nd_config) ∧ Forall is_u32 n.(match_index);
  (* a candidate or a leader has voted for itself *)
  wf_self : n.(nd_state) ≠ RAFT_STATE_FOLLOWER → n.(voted_for) = n.(nd_config).(cfg_node_id)
}.

(** ** The transitions as assignments *)

(** The store after [persist_state]. *)
Definition save_opt (p : option P) (term : Z) (vote : list Z) : option P :=
  (λ p, (raft_persistence_save_state p term vote).2) <$> p.

Lemma persist_state_eq n :
  persist_state n =
    set_persistence (save_opt n.(persistence) n.(current_term) n.(voted_for)) n.
Proof. unfold persist_state, save_opt. destruct n as [????????????????? ?]; simpl. by case_match. Qed.

Lemma state_change_eq old new (n : node) :
  ∃ sc, state_change old new n = set_state_changes sc n.
Proof.
  unfold state_change. case_match; [by eexists|].
  exists n.(state_changes). by destruct n.
Qed.

Lemma set_state_changes_same (n : node) : set_state_changes n.(state_changes) n = n.
Proof. by destruct n. Qed.

Lemma transition_to_follower_eq (n : node) term now :
  ∃ sc, transition_to_follower n term now =
    set_state_changes sc
      (set_persistence (save_opt n.(persistence) term [])
        (set_last_heartbeat_ms now
          (set_current_leader [] (set_voted_for []
            (set_state RAFT_STATE_FOLLOWER (set_current_term term n)))))).
Proof.
  unfold transition_to_follower. rewrite !persist_state_eq. simpl.
  case_match; [|apply state_change_eq].
  eexists; symmetry; apply set_state_changes_same.
Qed.

Lemma transition_to_candidate_eq (n n' : node) now rand :
  transition_to_candidate n now rand = Ok n' →
  ∃ sc timeout, n' =
    set_state_changes sc
      (set_persistence
        (save_opt n.(persistence) (u32 (n.(current_term) + 1)) (str63 n.(nd_config).(cfg_node_id)))
        (set_election_timeout_ms timeout
          (set_last_election_ms now (set_current_leader []
            (set_voted_for (str63 n.(nd_config).(cfg_node_id))
              (set_state RAFT_STATE_CANDIDATE
                (set_current_term (u32 (n.(current_term) + 1)) n))))))).
Proof.
  unfold transition_to_candidate. intros (timeout & _ & [= <-])%bind_ok.
  rewrite persist_state_eq; simpl.
  destruct (state_change_eq (nd_state n) RAFT_STATE_CANDIDATE
    (set_persistence
        (save_opt n.(persistence) (u32 (n.(current_term) + 1)) (str63 n.(nd_config).(cfg_node_id)))
        (set_election_timeout_ms timeout
          (set_last_election_ms now (set_current_leader []
            (set_voted_for (str63 n.(nd_config).(cfg_node_id))
              (set_state RAFT_STATE_CANDIDATE
                (set_current_term (u32 (n.(current_term) + 1)) n)))))))) as [sc Hsc].
  exists sc, timeout. exact Hsc.
Qed.

Lemma transition_to_candidate_fields (n n' : node) now rand :
  transition_to_candidate n now rand = Ok n' →
  n'.(nd_state) = RAFT_STATE_CANDIDATE ∧
  n'.(current_term) = u32 (n.(current_term) + 1) ∧
  n'.(voted_for) = str63 n.(nd_config).(cfg_node_id) ∧
  n'.(nd_log) = n.(nd_log) ∧ n'.(nd_config) = n.(nd_config) ∧
  n'.(persistence) =
    save_opt n.(persistence) (u32 (n.(current_term) + 1)) (str63 n.(nd_config).(cfg_node_id)).
Proof. intros (sc & timeout & ->)%transition_to_candidate_eq. done. Qed.

(** The node a new leader starts from, before its no-op entry. *)
Definition leader_init (n : node) : node :=
  set_match_index ((λ _, 0) <$> n.(match_index))
    (set_next_index ((λ _, u32 (log_last_index n.(nd_log) + 1)) <$> n.(next_index))
      (set_current_leader (str63 n.(nd_config).(cfg_node_id)) (set_state RAFT_STATE_LEADER n))).

Lemma transition_to_leader_eq (n : node) now :
  ∃ sc, transition_to_leader n now =
    set_state_changes sc
      (set_last_heartbeat_sent_ms now
        (node_log_append (leader_init n) n.(current_term) RAFT_ENTRY_NOOP []).2).
Proof. unfold transition_to_leader. apply state_change_eq. Qed.

(** [node_log_append] either appends the next entry or reports an error and
    leaves the log. *)
Lemma node_log_append_cases (n : node) term type data :
  log_wf n.(nd_log) →
  (∃ p, node_log_append n term type data =
     (DISTRIC_OK,
      set_persistence p
        (set_log (log_snoc n.(nd_log) (next_entry n.(nd_log) term type data)) n))) ∨
  (∃ err p, err ≠ DISTRIC_OK ∧
     node_log_append n term type data = (err, set_persistence p (set_log n.(nd_log) n))).
Proof.
  intros Hwf. unfold node_log_append.
  destruct (log_append_cases n.(nd_log) term type data n.(persistence) Hwf)
    as [[p ->]|(err & p & Herr & ->)]; [left|right]; eauto.
Qed.

(** What [node_log_append] does not touch. *)
Lemma node_log_append_frame (n : node) term type data :
  let n' := (node_log_append n term type data).2 in
  ∃ p l, n' = set_persistence p (set_log l n).
Proof. unfold node_log_append. destruct (log_append _ _ _ _ _) as [[? ?] ?]. simpl; eauto. Qed.

Lemma node_log_append_wf (n : node) term type data :
  node_wf n → log_room n.(nd_log) 1 → entry_ok (LogEntry 0 term type data) →
  node_wf (node_log_append n term type data).2.
Proof.
  intros Hn Hr He. pose proof (log_append_wf _ term type data n.(persistence) (wf_log _ Hn) Hr He).
  unfold node_log_append. destruct (log_append _ _ _ _ _) as [[? ?] ?].
  destruct Hn; by split.
Qed.

Lemma node_log_truncate_wf (n : node) from : node_wf n → node_wf (node_log_truncate n from).
Proof.
  intros Hn. pose proof (log_truncate_wf _ from n.(persistence) (wf_log _ Hn)).
  unfold node_log_truncate. destruct (log_truncate _ _ _). destruct Hn; by split.
Qed.

(** ** The transitions keep the node well formed *)

Lemma transition_to_follower_wf n term now :
  node_wf n → is_u32 term → node_wf (transition_to_follower n term now).
Proof.
  intros [] Ht. destruct (transition_to_follower_eq n term now) as [sc ->].
  split; simpl; auto; [|done]. split; [constructor|simpl; lia].
Qed.

Lemma str63_id (s : list Z) : (length s ≤ 63)%nat → str63 s = s.
Proof. apply take_ge. Qed.

Lemma transition_to_candidate_wf n n' now rand :
  node_wf n → transition_to_candidate n now rand = Ok n' → node_wf n'.
Proof.
  intros [Hc] (sc & timeout & ->)%transition_to_candidate_eq.
  destruct Hc as (? & ? & ? & ?). rewrite str63_id by done.
  split; simpl; auto; [by split_and!|apply u32_range].
Qed.

Lemma noop_ok term : is_u32 term → entry_ok (LogEntry 0 term RAFT_ENTRY_NOOP []).
Proof. intros Ht. split_and!; simpl; [apply Ht..| | |constructor|]; unfold RAFT_ENTRY_NOOP; ulia. Qed.

Lemma Forall_const_u32 (c : Z) (l : list Z) : is_u32 c → Forall is_u32 ((λ _, c) <$> l).
Proof. intros Hc. apply Forall_fmap, Forall_true. by intros. Qed.

Lemma leader_init_wf n :
  node_wf n → n.(nd_state) ≠ RAFT_STATE_FOLLOWER → node_wf (leader_init n).
Proof.
  intros [] Hs. split; simpl; auto; rewrite length_fmap; split; try tauto;
    apply Forall_const_u32; [apply u32_range|ulia].
Qed.

Lemma transition_to_leader_wf n now :
  node_wf n → n.(nd_state) ≠ RAFT_STATE_FOLLOWER → log_room n.(nd_log) 1 →
  node_wf (transition_to_leader n now).
Proof.
  intros Hn Hs Hr. destruct (transition_to_leader_eq n now) as [sc ->].
  assert (Hw : node_wf (node_log_append (leader_init n) n.(current_term) RAFT_ENTRY_NOOP []).2).
  { apply node_log_append_wf; [by apply leader_init_wf|done|apply noop_ok, Hn]. }
  set (m := (node_log_append _ _ _ _).2) in *. clearbody m. destruct Hw; by split.
Qed.

(** ** Every event keeps the node well formed *)

Lemma apply_loop_eq fuel commit (n : node) :
  ∃ la ap, apply_loop fuel commit n = set_applied ap (set_last_applied la n) ∧
    (is_u32 n.(last_applied) → is_u32 la).
Proof.
  revert n. induction fuel as [|fuel IH]; intros n; simpl.
  { exists n.(last_applied), n.(applied). split; [by destruct n|done]. }
  case_match; [|exists n.(last_applied), n.(applied); split; [by destruct n|done]].
  case_match; [case_match|].
  - destruct (IH (set_last_applied (u32 (last_applied n + 1)) n)) as (la & ap & -> & Hla).
    exists la, ap. split; [done|]. intros _. apply Hla, u32_range.
  - match goal with |- context [apply_loop fuel commit ?m] => destruct (IH m) as (la & ap & -> & Hla) end.
    exists la, ap. split; [done|]. intros _. apply Hla, u32_range.
  - exists (u32 (last_applied n + 1)), n.(applied). split; [by destruct n|].
    intros _. apply u32_range.
Qed.

Lemma apply_committed_entries_wf n : node_wf n → node_wf (apply_committed_entries n).
Proof.
  intros Hn. unfold apply_committed_entries. case_match; [|done].
  destruct (apply_loop_eq (Z.to_nat (commit_index n - last_applied n)) (commit_index n) n)
    as (la & ap & -> & Hla).
  destruct Hn. split; simpl; auto.
Qed.

Lemma commit_turn_cases (n : node) c i : commit_turn n c i = c ∨ commit_turn n c i = i.
Proof. unfold commit_turn. repeat case_match; auto. Qed.

Lemma foldl_commit_in (n : node) c l :
  foldl (commit_turn n) c l = c ∨ foldl (commit_turn n) c l ∈ l.
Proof.
  revert c. induction l as [|i l IH]; intros c; simpl; [by left|].
  destruct (IH (commit_turn n c i)) as [->|]; [|by right; right].
  destruct (commit_turn_cases n c i) as [->| ->]; [by left|right; left].
Qed.

Lemma log_last_index_u32 log : log_wf log → is_u32 (log_last_index log).
Proof.
  intros Hwf. rewrite log_last_index_wf by done. destruct Hwf as [[? _] ? _ _].
  unfold log_count in *. ulia.
Qed.

Lemma update_commit_index_eq (n : node) :
  log_wf n.(nd_log) → is_u32 n.(commit_index) →
  ∃ c, update_commit_index n = set_commit_index c n ∧ is_u32 c.
Proof.
  intros Hlog Hc. pose proof (log_last_index_u32 _ Hlog).
  assert (set_commit_index n.(commit_index) n = n) as Hid by by destruct n.
  unfold update_commit_index. case_match; [eauto..|].
  case_match; [case_match; eauto|]. eexists; split; [done|].
  match goal with |- is_u32 (foldl _ _ ?l) =>
    destruct (foldl_commit_in n (commit_index n) l) as [->|Hin] end; [done|].
  apply elem_of_seqZ in Hin. pose proof (u32_range (commit_index n + 1)). ulia.
Qed.

Lemma update_commit_index_wf n : node_wf n → node_wf (update_commit_index n).
Proof.
  intros Hn. destruct (update_commit_index_eq n (wf_log _ Hn) (wf_commit _ Hn)) as (c & -> & Hc).
  destruct Hn; by split.
Qed.

Lemma start_election_wf n n' time rand :
  node_wf n → log_room n.(nd_log) 1 → start_election n time rand = Ok n' → node_wf n'.
Proof.
  unfold start_election. intros Hn Hr (m & Hm & Hn')%bind_ok.
  pose proof (transition_to_candidate_wf _ _ _ _ Hn Hm) as Hwm.
  apply transition_to_candidate_fields in Hm as (Hst & _ & _ & Hl & _).
  revert Hn'. case_match; intros [= <-]; [|done].
  apply transition_to_leader_wf; [done|by rewrite Hst|by rewrite Hl].
Qed.

Lemma raft_tick_wf n n' time rand :
  node_wf n → log_room n.(nd_log) 1 → raft_tick n time rand = Ok n' → node_wf n'.
Proof.
  intros Hn Hr. unfold raft_tick. case_match; [done|].
  assert (∀ b, (if b : bool then start_election n time rand else Ok n) ≫=
      (λ n, Ok (apply_committed_entries n)) = Ok n' → node_wf n').
  { intros b (m & Hm & [= <-])%bind_ok. apply apply_committed_entries_wf.
    destruct b; [by eapply start_election_wf|by simplify_eq]. }
  case_match; [eauto..|]. intros [= <-].
  by apply update_commit_index_wf, apply_committed_entries_wf.
Qed.

Lemma set_vote_wf n vote now :
  node_wf n → cstr_ok vote →
  (n.(nd_state) ≠ RAFT_STATE_FOLLOWER → str63 vote = n.(voted_for)) →
  node_wf (persist_state (set_last_heartbeat_ms now (set_voted_for (str63 vote) n))).
Proof.
  intros [] Hv Hs. rewrite persist_state_eq. split; simpl; auto.
  - unfold str63. split; [by apply Forall_take|rewrite length_take; lia].
  - intros Hf. rewrite Hs by done. auto.
Qed.

Lemma raft_handle_request_vote_wf n c t i lt time :
  node_wf n → cstr_ok c → is_u32 t →
  node_wf (raft_handle_request_vote n c t i lt time).2.
Proof.
  intros Hn Hc Ht. unfold raft_handle_request_vote.
  set (m := if t >? current_term n then _ else n).
  assert (Hm : node_wf m).
  { subst m. case_match; [by apply transition_to_follower_wf|done]. }
  clearbody m. case_match; [done|]. case_match eqn:Hcan; [done|]. case_match; [|done].
  simpl. apply set_vote_wf; [done..|]. intros Hf.
  apply negb_false_iff, orb_true_iff in Hcan as [Hcan%bool_decide_eq_true|Hcan%bool_decide_eq_true].
  - pose proof (wf_self _ Hm Hf) as Hs. pose proof (wf_config _ Hm) as (_ & _ & Hne & _). congruence.
  - rewrite <- Hcan. apply str63_id, Hm.
Qed.

Lemma append_turn_wf n e :
  node_wf n → log_room n.(nd_log) 1 → msg_entry_ok e → node_wf (append_turn n e).
Proof.
  intros Hn Hr [Hi He]. unfold append_turn.
  set (m := match log_get (nd_log n) (le_index e) with Some _ => _ | None => n end).
  assert (Hm : node_wf m ∧ log_room m.(nd_log) 1).
  { subst m. case_match; [|done]. case_match; [|done].
    split; [by apply node_log_truncate_wf|].
    unfold node_log_truncate. destruct (log_truncate _ _ _) as [l p] eqn:Hl. simpl.
    revert Hl. unfold log_truncate. case_match; [by intros [= <- <-]|].
    case_match; intros [= <- <-]; [done|]. unfold log_room, log_count in *. simpl.
    rewrite length_take. lia. }
  clearbody m. destruct Hm as [Hm Hr']. case_match; [done|].
  apply node_log_append_wf; [done..|]. exact He.
Qed.

(** A turn of the append loop adds at most one entry. *)
Lemma log_append_grows log term type data (p : option P) :
  let l := (log_append log term type data p).1.2 in
  log_base_index l = log_base_index log ∧ (log_count l ≤ S (log_count log))%nat.
Proof.
  unfold log_append. destruct (persist_entry p _) as [err p'].
  destruct err; simpl; unfold log_count; simpl; rewrite ?length_app; simpl; split; try done; lia.
Qed.

Lemma log_truncate_shrinks log from (p : option P) :
  let l := (log_truncate log from p).1 in
  log_base_index l = log_base_index log ∧ (log_count l ≤ log_count log)%nat.
Proof.
  unfold log_truncate, log_count. repeat (case_match; simpl; [by split|]).
  split; [done|]. simpl. rewrite length_take. lia.
Qed.

Lemma append_turn_room n e k :
  log_room n.(nd_log) (S k) → log_room (append_turn n e).(nd_log) k.
Proof.
  intros Hr. unfold append_turn.
  set (m := match log_get (nd_log n) (le_index e) with Some _ => _ | None => n end).
  assert (Hm : log_room m.(nd_log) (S k)).
  { subst m. case_match; [|done]. case_match; [|done]. unfold node_log_truncate.
    pose proof (log_truncate_shrinks (nd_log n) (le_index e) (persistence n)) as [Hb Hc].
    destruct (log_truncate _ _ _) as [l p]. unfold log_room in *. simpl in *. lia. }
  clearbody m. case_match; [unfold log_room in *; lia|]. unfold node_log_append.
  pose proof (log_append_grows (nd_log m) (le_term e) (le_type e) (le_data e) (persistence m))
    as [Hb Hc].
  destruct (log_append _ _ _ _ _) as [[err l] p]. unfold log_room in *. simpl in *. lia.
Qed.

Lemma append_turns_wf es n :
  node_wf n → log_room n.(nd_log) (length es) → Forall msg_entry_ok es →
  node_wf (foldl append_turn n es).
Proof.
  revert n. induction es as [|e es IH]; intros n Hn Hr Hes; [done|].
  apply Forall_cons_iff in Hes as [He Hes]. simpl. apply IH; [|by apply append_turn_room|done].
  apply append_turn_wf; [done| |done]. unfold log_room in *. simpl in Hr. lia.
Qed.

Lemma raft_handle_append_entries_wf n l t pi pt es lc time :
  node_wf n → event_ok n (EvAppendEntries l t pi pt es lc time) →
  node_wf (raft_handle_append_entries n l t pi pt es lc time).2.
Proof.
  intros Hn (Ht & Hpi & Hes & Hlc & Hr). unfold raft_handle_append_entries.
  set (m := if t >? current_term n then _ else n).
  assert (Hm : node_wf m ∧ m.(nd_log) = n.(nd_log)).
  { subst m. case_match; [|done]. split; [by apply transition_to_follower_wf|].
    by destruct (transition_to_follower_eq n t (time 0%nat)) as [sc ->]. }
  clearbody m. destruct Hm as [Hm Hl]. case_match; [done|].
  set (m1 := if decide _ then _ else _).
  assert (Hm1 : node_wf m1 ∧ m1.(nd_log) = n.(nd_log)).
  { subst m1. rewrite <- Hl.
    assert (Hm0 : node_wf (set_current_leader (str63 l) (set_last_heartbeat_ms (time 1%nat) m)))
      by (destruct Hm; by split).
    case_match; [|done]. split; [by apply transition_to_follower_wf|].
    by match goal with |- context [transition_to_follower ?a ?b ?c] =>
      destruct (transition_to_follower_eq a b c) as [sc ->] end. }
  clearbody m1. destruct Hm1 as [Hm1 Hl1]. case_match; [by destruct Hm1; split|]. simpl.
  assert (Hw : node_wf (foldl append_turn m1 es)).
  { apply append_turns_wf; [done| |done]. by rewrite Hl1. }
  set (m2 := foldl append_turn m1 es) in *. clearbody m2.
  case_match; [|done]. pose proof (log_last_index_u32 _ (wf_log _ Hw)).
  destruct Hw. split; simpl; auto. by case_match.
Qed.

Lemma peer_next_u32 n i : node_wf n → is_u32 (peer_next n i).
Proof.
  intros Hn. unfold peer_next. destruct (wf_next _ Hn) as [_ Hf].
  destruct (List.nth_in_or_default i (next_index n) 0) as [Hin| ->]; [|ulia].
  by apply (proj1 (List.Forall_forall _ _) Hf).
Qed.

Lemma set_next_wf n i x :
  node_wf n → is_u32 x → node_wf (set_next_index (<[i:=x]> n.(next_index)) n).
Proof.
  intros [] Hx. split; simpl; auto. rewrite length_insert. split; [tauto|].
  apply Forall_insert; tauto.
Qed.

Lemma set_match_wf n i x :
  node_wf n → is_u32 x → node_wf (set_match_index (<[i:=x]> n.(match_index)) n).
Proof.
  intros [] Hx. split; simpl; auto. rewrite length_insert. split; [tauto|].
  apply Forall_insert; tauto.
Qed.

Lemma decrement_next_wf n i : node_wf n → node_wf (decrement_next n i).
Proof.
  intros Hn. unfold decrement_next. case_match eqn:Hd; [|done].
  apply set_next_wf; [done|]. pose proof (peer_next_u32 n i Hn).
  rewrite Z.gtb_ltb, Z.ltb_lt in Hd. ulia.
Qed.

Lemma conflict_scan_u32 log ct i : is_u32 (conflict_scan log ct i).
Proof.
  induction i as [|i IH]; simpl; [ulia|]. repeat case_match; auto with distric.
Qed.

Lemma raft_step_down_wf n t now : node_wf n → is_u32 t → node_wf (raft_step_down n t now).
Proof. intros. unfold raft_step_down. case_match; [by apply transition_to_follower_wf|done]. Qed.

Lemma raft_handle_append_entries_response_wf n i s t m now :
  node_wf n → is_u32 t → is_u32 m →
  node_wf (raft_handle_append_entries_response n i s t m now).2.
Proof.
  intros Hn Ht Hm. unfold raft_handle_append_entries_response.
  case_match; [done|]. case_match; [by apply raft_step_down_wf|]. case_match; [done|].
  apply update_commit_index_wf. case_match; [|by apply decrement_next_wf].
  apply (set_match_wf (set_next_index _ n)); [|done].
  apply set_next_wf; auto with distric.
Qed.

Lemma raft_append_entry_wf n d :
  node_wf n → event_ok n (EvAppendEntry d) → node_wf (raft_append_entry n d).2.
Proof.
  intros Hn (Hd & Hlen & Hr). unfold raft_append_entry.
  assert (Hw : node_wf (node_log_append n n.(current_term) RAFT_ENTRY_COMMAND d).2).
  { apply node_log_append_wf; [done..|]. split; [apply Hn|].
    split; [unfold RAFT_ENTRY_COMMAND; simpl; ulia|done]. }
  case_match; [done..|]. destruct (node_log_append _ _ _ _) as [err m].
  simpl in Hw. by destruct err.
Qed.

Lemma raft_process_election_result_wf n v now :
  node_wf n → log_room n.(nd_log) 1 → node_wf (raft_process_election_result n v now).
Proof.
  intros Hn Hr. unfold raft_process_election_result. case_match eqn:Hst; [done| |done].
  case_match; [|done]. apply transition_to_leader_wf; [done| |done]. by rewrite Hst.
Qed.

Lemma handle_wf n ev n' : node_wf n → event_ok n ev → handle n ev = Ok n' → node_wf n'.
Proof.
  intros Hn Hev. destruct ev; simpl in Hev |- *; intros Hn'; simplify_eq.
  - destruct Hn; by split.
  - destruct Hn; by split.
  - revert Hn'. case_match eqn:Ht; intros [= <-]; [|done]. by eapply raft_tick_wf.
  - apply raft_handle_request_vote_wf; tauto.
  - by apply raft_handle_append_entries_wf.
  - by apply raft_append_entry_wf.
  - apply raft_handle_append_entries_response_wf; tauto.
  - unfold raft_update_peer_indices. case_match; [done|].
    apply (set_match_wf (set_next_index _ n)); [|tauto]. apply set_next_wf; tauto.
  - unfold raft_decrement_peer_next_index. case_match; [done|]. by apply decrement_next_wf.
  - unfold raft_handle_log_conflict. case_match; [done|]. apply set_next_wf; [done|].
    case_match; [apply conflict_scan_u32|done].
  - by apply raft_process_election_result_wf.
  - by apply raft_step_down_wf.
  - destruct Hn; by split.
Qed.

(** ** Terms and votes *)

(** What an event may do to the term and the vote: raise the term, or keep it
    and then keep a vote that was cast. *)
Definition same_vote (n n' : node) : Prop :=
  current_term n' = current_term n ∧ voted_for n' = voted_for n.
Definition vote_kept (n n' : node) : Prop :=
  current_term n < current_term n' ∨
  current_term n' = current_term n ∧ (voted_for n = [] ∨ voted_for n' = voted_for n).

(** The exception: an AppendEntries of the candidate's own term. *)
Definition clears_vote (n : node) (ev : raft_event) : Prop :=
  match ev with
  | EvAppendEntries _ term _ _ _ _ _ =>
      term = current_term n ∧ nd_state n = RAFT_STATE_CANDIDATE
  | _ => False
  end.

Lemma same_vote_kept n n' : same_vote n n' → vote_kept n n'.
Proof. unfold vote_kept. intros [-> ->]. auto. Qed.
Lemma same_vote_refl n : same_vote n n.
Proof. done. Qed.
Lemma vote_kept_same n m n' : vote_kept n m → same_vote m n' → vote_kept n n'.
Proof. unfold vote_kept. intros Hk [-> ->]. done. Qed.
Lemma same_vote_trans n m n' : same_vote n m → same_vote m n' → same_vote n n'.
Proof. unfold same_vote. intros [] []. split; congruence. Qed.

Lemma node_log_append_vote n t ty d : same_vote n (node_log_append n t ty d).2.
Proof. destruct (node_log_append_frame n t ty d) as (p & l & ->). done. Qed.

Lemma node_log_truncate_vote n i : same_vote n (node_log_truncate n i).
Proof. unfold node_log_truncate. by destruct (log_truncate _ _ _). Qed.

Lemma append_turn_vote n e : same_vote n (append_turn n e) ∧ nd_state (append_turn n e) = nd_state n.
Proof.
  unfold append_turn.
  set (m := match log_get (nd_log n) (le_index e) with Some _ => _ | None => n end).
  assert (Hm : same_vote n m ∧ nd_state m = nd_state n).
  { subst m. case_match; [|done]. case_match; [|done].
    split; [apply node_log_truncate_vote|].
    unfold node_log_truncate. by destruct (log_truncate _ _ _). }
  clearbody m. destruct Hm as [Hm Hs]. case_match; [done|].
  destruct (node_log_append_frame m (le_term e) (le_type e) (le_data e)) as (p & l & ->). done.
Qed.

Lemma append_turns_vote es n :
  same_vote n (foldl append_turn n es) ∧ nd_state (foldl append_turn n es) = nd_state n.
Proof.
  revert n. induction es as [|e es IH]; intros n; [done|]. simpl.
  destruct (append_turn_vote n e) as [H1 H2]. destruct (IH (append_turn n e)) as [H3 H4].
  split; [by eapply same_vote_trans|congruence].
Qed.

Lemma apply_committed_entries_vote n : same_vote n (apply_committed_entries n).
Proof.
  unfold apply_committed_entries. case_match; [|done].
  by destruct (apply_loop_eq (Z.to_nat (commit_index n - last_applied n)) (commit_index n) n)
    as (la & ap & -> & _).
Qed.

Lemma update_commit_index_vote n : same_vote n (update_commit_index n).
Proof. unfold update_commit_index. repeat case_match; done. Qed.

Lemma transition_to_leader_vote n now : same_vote n (transition_to_leader n now).
Proof.
  destruct (transition_to_leader_eq n now) as [sc ->].
  destruct (node_log_append_frame (leader_init n) n.(current_term) RAFT_ENTRY_NOOP [])
    as (p & l & ->). done.
Qed.

Lemma transition_to_follower_term n t now :
  current_term (transition_to_follower n t now) = t.
Proof. by destruct (transition_to_follower_eq n t now) as [sc ->]. Qed.

Lemma start_election_vote n n' time rand :
  is_u32 n.(current_term) → current_term n < UINT32_MAX →
  start_election n time rand = Ok n' → current_term n' = current_term n + 1.
Proof.
  unfold start_election. intros Hu Ht (m & Hm & Hn')%bind_ok.
  apply transition_to_candidate_fields in Hm as (_ & Htm & _).
  rewrite u32_id in Htm by ulia.
  revert Hn'. case_match; intros [= <-]; [|done].
  by rewrite (proj1 (transition_to_leader_vote _ _)).
Qed.

Lemma raft_tick_vote n n' time rand :
  is_u32 n.(current_term) → current_term n < UINT32_MAX →
  raft_tick n time rand = Ok n' → vote_kept n n'.
Proof.
  intros Hu Ht. unfold raft_tick. case_match; [done|].
  assert (∀ b, (if b : bool then start_election n time rand else Ok n) ≫=
      (λ n, Ok (apply_committed_entries n)) = Ok n' → vote_kept n n').
  { intros b (m & Hm & [= <-])%bind_ok.
    apply vote_kept_same with m; [|apply apply_committed_entries_vote].
    destruct b; [left|right; simplify_eq; auto].
    rewrite (start_election_vote n m time rand); [lia|done..]. }
  case_match; [eauto..|]. intros [= <-]. apply same_vote_kept.
  eapply same_vote_trans; [apply apply_committed_entries_vote|apply update_commit_index_vote].
Qed.

Lemma raft_handle_request_vote_vote n c t i lt time :
  node_wf n →
  vote_kept n (raft_handle_request_vote n c t i lt time).2.
Proof.
  intros Hn. unfold raft_handle_request_vote.
  destruct (Z.gtb_spec t (current_term n)) as [Hgt|Hle].
  - left. pose proof (transition_to_follower_term n t (time 0%nat)) as Ht.
    set (m := transition_to_follower n t (time 0%nat)) in *. clearbody m.
    repeat case_match; simpl; rewrite ?persist_state_eq; simpl; lia.
  - right. destruct (Z.ltb_spec t (current_term n)); [auto|].
    destruct (negb _) eqn:Hcan; [auto|]. case_match; [|auto]. simpl.
    rewrite persist_state_eq. simpl. split; [done|].
    apply negb_false_iff, orb_true_iff in Hcan as [Hcan%bool_decide_eq_true|Hcan%bool_decide_eq_true];
      [auto|]. right. rewrite <- Hcan. apply str63_id, Hn.
Qed.

Lemma raft_handle_append_entries_vote n l t pi pt es lc time :
  node_wf n → ¬ clears_vote n (EvAppendEntries l t pi pt es lc time) →
  vote_kept n (raft_handle_append_entries n l t pi pt es lc time).2.
Proof.
  intros Hn Hc. unfold raft_handle_append_entries.
  set (m := if t >? current_term n then _ else n).
  assert (Hm : (current_term n < current_term m ∧ nd_state m = RAFT_STATE_FOLLOWER) ∨
               (m = n ∧ t ≤ current_term n)).
  { subst m. destruct (Z.gtb_spec t (current_term n)); [left|by right].
    destruct (transition_to_follower_eq n t (time 0%nat)) as [sc ->]. simpl. auto with lia. }
  clearbody m. destruct (Z.ltb_spec t (current_term m)) as [Hlt|Hge].
  { destruct Hm as [[? _]|[-> _]]; [by left|right; auto]. }
  set (m1 := if decide _ then _ else _).
  assert (Hm1 : current_term n < current_term m1 ∨ same_vote n m1).
  { subst m1. case_match.
    - exfalso. destruct Hm as [[_ Hs]|[-> Hle]]; [simpl in *; congruence|].
      apply Hc. split; [lia|done].
    - destruct Hm as [[? _]|[-> _]]; [by left|by right]. }
  assert (vote_kept n m1).
  { destruct Hm1; [by left|by apply same_vote_kept]. }
  clearbody m1. case_match; [done|]. simpl.
  apply vote_kept_same with m1; [done|].
  destruct (append_turns_vote es m1) as [Hv _].
  case_match; [|done]. exact Hv.
Qed.

Lemma raft_step_down_vote n t now : vote_kept n (raft_step_down n t now).
Proof.
  unfold raft_step_down. destruct (Z.gtb_spec t (current_term n)); [left|right; auto].
  by rewrite transition_to_follower_term.
Qed.

Lemma raft_handle_append_entries_response_vote n i s t m now :
  vote_kept n (raft_handle_append_entries_response n i s t m now).2.
Proof.
  unfold raft_handle_append_entries_response.
  case_match; [right; auto|]. case_match; [apply raft_step_down_vote|].
  case_match; [right; auto|]. apply same_vote_kept.
  eapply same_vote_trans; [|apply update_commit_index_vote].
  case_match; [done|]. unfold decrement_next. by case_match.
Qed.

(** Every event but the exception raises the term or keeps the vote. *)
Lemma handle_vote n ev n' :
  node_wf n → current_term n < UINT32_MAX → handle n ev = Ok n' →
  ¬ clears_vote n ev → vote_kept n n'.
Proof.
  intros Hn Ht. destruct ev; simpl; intros Hn' Hc; simplify_eq; try (right; by auto).
  - revert Hn'. case_match eqn:Hk; intros [= <-]; [|right; auto].
    by eapply raft_tick_vote; [apply Hn|..].
  - by apply raft_handle_request_vote_vote.
  - by apply raft_handle_append_entries_vote.
  - apply same_vote_kept. unfold raft_append_entry.
    pose proof (node_log_append_vote n n.(current_term) RAFT_ENTRY_COMMAND data) as Hv.
    case_match; [done..|]. destruct (node_log_append _ _ _ _) as [err m]. by destruct err.
  - apply raft_handle_append_entries_response_vote.
  - apply same_vote_kept. unfold raft_update_peer_indices. by case_match.
  - apply same_vote_kept. unfold raft_decrement_peer_next_index, decrement_next.
    by repeat case_match.
  - apply same_vote_kept. unfold raft_handle_log_conflict. by case_match.
  - apply same_vote_kept. unfold raft_process_election_result.
    repeat case_match; try done. apply transition_to_leader_vote.
  - apply raft_step_down_vote.
Qed.

(** The exception keeps the term all the same. *)
Lemma handle_term n ev n' :
  node_wf n → current_term n < UINT32_MAX → handle n ev = Ok n' →
  current_term n ≤ current_term n'.
Proof.
  intros Hn Ht Hh.
  assert (¬ clears_vote n ev → current_term n ≤ current_term n') as Hk.
  { intros Hc. destruct (handle_vote n ev n' Hn Ht Hh Hc) as [|[]]; lia. }
  destruct ev; try (apply Hk; tauto). simpl in Hh. simplify_eq.
  destruct (decide (term = current_term n)) as [->|Hne]; [|apply Hk; naive_solver].
  unfold raft_handle_append_entries. destruct (Z.gtb_spec (current_term n) (current_term n)); [lia|].
  destruct (Z.ltb_spec (current_term n) (current_term n)); [lia|].
  set (m1 := if decide _ then _ else _).
  assert (current_term m1 = current_term n) as Hm1.
  { subst m1. case_match; [|done]. by rewrite transition_to_follower_term. }
  clearbody m1. case_match; [simpl; lia|]. simpl.
  destruct (append_turns_vote entries m1) as [[Hv _] _].
  case_match; simpl; lia.
Qed.

Definition vote_step (n n' : node) : Prop :=
  ∃ ev, event_ok n ev ∧ current_term n < UINT32_MAX ∧ handle n ev = Ok n' ∧ ¬ clears_vote n ev.

Lemma vote_step_step n n' : vote_step n n' → raft_step n n'.
Proof. intros (ev & ? & ? & ? & _). by exists ev. Qed.

Lemma raft_step_wf n n' : raft_step n n' → node_wf n → node_wf n'.
Proof. intros (ev & ? & ? & ?) ?. by eapply handle_wf. Qed.

Lemma vote_steps_kept n n' : rtc vote_step n n' → node_wf n → node_wf n' ∧ vote_kept n n'.
Proof.
  induction 1 as [n|n m n' Hs _ IH]; intros Hn; [split; [done|right; auto]|].
  destruct (IH (raft_step_wf _ _ (vote_step_step _ _ Hs) Hn)) as [Hn' Hk].
  split; [done|]. destruct Hs as (ev & _ & Ht & Hh & Hc).
  destruct (handle_vote n ev m Hn Ht Hh Hc) as [|[Het Hv]];
    destruct Hk as [|[Het' Hv']]; unfold vote_kept; rewrite ?Het, ?Het' in *; auto with lia.
  right. split; [done|]. destruct Hv as [|Hv]; [by left|]. rewrite Hv in Hv'. done.
Qed.

(** ** Snapshots *)

Inductive node_call :=
  | CallEvent (ev : raft_event)
  | CallCreateSnapshot (data : list Z)
  | CallInstallSnapshot (last_included_index last_included_term : Z) (data : list Z).

Definition perform (n : node) (c : node_call) : result node :=
  match c with
  | CallEvent ev => handle n ev
  | CallCreateSnapshot data => Ok (raft_create_snapshot n data).2
  | CallInstallSnapshot i t data => Ok (raft_install_snapshot n i t data).2
  end.

(** [raft_create_snapshot] moves the base of the log to the commit index and leaves the
    entries where they are: the log stays well formed when it has no entry or when the base
    is there already. *)
Definition call_ok (n : node) (c : node_call) : Prop :=
  match c with
  | CallEvent ev => event_ok n ev
  | CallCreateSnapshot data =>
      n.(commit_index) < UINT32_MAX ∧
      (n.(nd_log).(log_entries) = [] ∨ n.(commit_index) = n.(nd_log).(log_base_index))
  | CallInstallSnapshot i t data => is_u32 i ∧ i < UINT32_MAX ∧ is_u32 t
  end.

Definition node_step (n n' : node) : Prop :=
  ∃ c, call_ok n c ∧ current_term n < UINT32_MAX ∧ perform n c = Ok n'.

Lemma install_snapshot_log n n' i t data :
  raft_install_snapshot n i t data = (DISTRIC_OK, n') →
  0 ≤ i < UINT32_MAX →
  n'.(nd_log) = RaftLog [] i t.
Proof.
  unfold raft_install_snapshot. destruct (persistence n) as [p|]; [|done].
  destruct (raft_persistence_save_snapshot _ _ _ _) as [err p'].
  destruct err; try done. intros [= <-] Hi.
  assert (Htr : (log_truncate (RaftLog (log_entries (nd_log n)) i t) (u32 (i + 1))
                  (None : option P)).1 = RaftLog [] i t).
  { unfold log_truncate, log_count. simpl. rewrite u32_id by (unfold UINT32_MAX in *; ulia).
    destruct (Z.leb_spec (i + 1) i); [lia|].
    replace (i + 1 - i - 1) with 0 by lia. change (u32 0) with 0.
    destruct (log_entries (nd_log n)) as [|e es]; simpl; [done|].
    by destruct (Z.leb_spec (Z.of_nat (S (length es))) 0); [lia|]. }
  unfold raise_last_applied. simpl in *. rewrite Htr. repeat case_match; done.
Qed.

Lemma snapshot_term_u32 n : node_wf n → is_u32 (snapshot_term n).
Proof.
  intros Hn. pose proof (wf_log _ Hn) as Hl. unfold snapshot_term. repeat case_match; try apply Hl; [apply Hn|].
  match goal with H : log_get _ _ = Some ?e |- _ => unfold log_get in H; repeat case_match; try done;
    by apply (Forall_lookup_1 _ _ _ _ (log_wf_entries _ Hl) H) end.
Qed.

Lemma create_snapshot_wf n data :
  node_wf n → call_ok n (CallCreateSnapshot data) →
  node_wf (raft_create_snapshot n data).2 ∧ current_term (raft_create_snapshot n data).2 = current_term n.
Proof.
  intros Hn [Hc Hbase]. pose proof (snapshot_term_u32 n Hn) as Ht. unfold raft_create_snapshot.
  destruct (persistence n) as [p|]; [|done].
  destruct (raft_persistence_save_snapshot _ _ _ _) as [err p'].
  destruct err; try (split; [by destruct Hn; split|done]).
  assert (Hlog : log_wf (RaftLog (log_entries (nd_log n)) (commit_index n) (snapshot_term n))).
  { destruct Hn as [_ _ _ [_ Hb Hi He] Hcu _ _ _ _]. unfold log_count in Hb.
    destruct Hbase as [Hnil|Heq]; split; unfold log_count; simpl; rewrite ?Hnil, ?Heq in *; simpl; try done; lia. }
  unfold raise_last_applied. case_match; (split; [destruct Hn; split; simpl; done|done]).
Qed.

Lemma install_snapshot_wf n i t data :
  node_wf n → call_ok n (CallInstallSnapshot i t data) →
  node_wf (raft_install_snapshot n i t data).2 ∧ current_term (raft_install_snapshot n i t data).2 = current_term n.
Proof.
  intros Hn (Hi & Hmax & Ht). pose proof (install_snapshot_log n (raft_install_snapshot n i t data).2 i t data) as Hl.
  revert Hl. unfold raft_install_snapshot. destruct (persistence n) as [p|]; [|done].
  destruct (raft_persistence_save_snapshot _ _ _ _) as [err p'].
  destruct err; try (intros _; split; [by destruct Hn; split|done]).
  cbn [snd]. intros Hl. specialize (Hl eq_refl ltac:(unfold is_u32 in Hi; lia)).
  assert (Hlog : log_wf (RaftLog [] i t)).
  { split; simpl; [done|unfold log_count; simpl; lia| |constructor]. intros k e. by rewrite lookup_nil. }
  rewrite <-Hl in Hlog. clear Hl. revert Hlog. unfold raise_last_applied.
  repeat case_match; intros Hlog; (split; [destruct Hn; split; done|done]).
Qed.

Lemma node_step_wf n n' : node_step n n' → node_wf n → node_wf n' ∧ current_term n ≤ current_term n'.
Proof.
  intros (c & Hok & Hlt & Hp) Hn. destruct c as [ev|data|i t data]; simpl in Hp.
  - split; [by eapply handle_wf|]. pose proof (handle_term n ev n' Hn Hlt Hp). lia.
  - injection Hp as <-. destruct (create_snapshot_wf n data Hn Hok) as [? ->]. by split.
  - injection Hp as <-. destruct (install_snapshot_wf n i t data Hn Hok) as [? ->]. by split.
Qed.

(** ** The theorems *)

(** C7: the well-formedness of a node (a log with consecutive 32-bit indices
    from its base, an entry of next_index and match_index per peer, a vote that
    is a C string, and a candidate or leader that voted for itself) is an
    invariant of every sequence of calls a caller may make, the snapshot calls
    included, whatever the disk answers, and the current term never decreases
    along it.  The calls have values of their C types and leave room for the
    32-bit indices, and the term is below its maximum; a snapshot past the base of
    a log that has entries is left out, because there [raft_create_snapshot] does
    break the log ([create_snapshot_shifts_log]). *)
Theorem raft_steps_wf n n' :
  node_wf n → rtc node_step n n' → node_wf n' ∧ current_term n ≤ current_term n'.
Proof.
  intros Hn Hs. induction Hs as [n|n m n' Hs _ IH]; [split; [done|lia]|].
  destruct (node_step_wf _ _ Hs Hn) as [Hm Ht]. destruct (IH Hm) as [Hn' Ht']. split; [done|lia].
Qed.

Lemma vote_granted_spec n c t i lt time t' n' :
  raft_handle_request_vote n c t i lt time = (VoteReply true t', n') →
  t' = t ∧ current_term n' = t ∧ voted_for n' = str63 c ∧ current_term n ≤ t ∧
  (current_term n = t → voted_for n = [] ∨ voted_for n = c).
Proof.
  unfold raft_handle_request_vote.
  destruct (Z.gtb_spec t (current_term n)) as [Hgt|Hle].
  - pose proof (transition_to_follower_term n t (time 0%nat)) as Ht.
    set (m := transition_to_follower n t (time 0%nat)) in *. clearbody m.
    destruct (Z.ltb_spec t (current_term m)); [done|].
    repeat case_match; try done. intros [= <- <-]. rewrite persist_state_eq. simpl.
    split_and!; auto; lia.
  - destruct (Z.ltb_spec t (current_term n)); [done|].
    destruct (negb _) eqn:Hcan; [done|]. case_match; [|done].
    intros [= <- <-]. rewrite persist_state_eq. simpl. split_and!; try done; try lia.
    apply negb_false_iff, orb_true_iff in Hcan as [Hcan%bool_decide_eq_true|Hcan%bool_decide_eq_true];
      auto.
Qed.

(** C6: a node grants its vote to one candidate per term: after it granted the
    vote of term [t] to [a], whatever events it then handles, if it grants a
    vote of the same term again it is to [a]; as long as no AppendEntries of its
    own term reaches it as a candidate. *)
Theorem raft_votes_once n a t i lt time n1 n2 b i' lt' time' n3 t1 t2 :
  node_wf n → cstr_ok a → (length a ≤ 63)%nat → a ≠ [] → is_u32 t →
  raft_handle_request_vote n a t i lt time = (VoteReply true t1, n1) →
  rtc vote_step n1 n2 →
  raft_handle_request_vote n2 b t i' lt' time' = (VoteReply true t2, n3) →
  b = a.
Proof.
  intros Hn Ha Hlen Hne Ht Hv1 Hs Hv2.
  destruct (vote_granted_spec _ _ _ _ _ _ _ _ Hv1) as (_ & Ht1 & Hvote & _).
  assert (Hn1 : node_wf n1).
  { pose proof (raft_handle_request_vote_wf n a t i lt time Hn Ha Ht) as Hw. by rewrite Hv1 in Hw. }
  destruct (vote_steps_kept _ _ Hs Hn1) as [_ Hk].
  destruct (vote_granted_spec _ _ _ _ _ _ _ _ Hv2) as (_ & _ & _ & Hle & Hcan).
  rewrite str63_id in Hvote by done.
  destruct Hk as [|[Heq Hk]]; [lia|]. rewrite Hvote in Hk.
  destruct Hk as [|Hk]; [done|].
  destruct Hcan as [Hcan|Hcan]; [lia|congruence..].
Qed.
End events.

(** ** A concrete node *)

Definition example_peer (id : Z) : raft_peer := RaftPeer [id] [] 0 0 0 0 false.

(** A node "1" of a cluster of three, without persistence. *)
Definition example_config : raft_config :=
  RaftConfig [49] [example_peer 50; example_peer 51] 150 300 50 10000 None true true.

Definition example_node : raft_node mem_store :=
  RaftNode example_config 0 [] raft_log_init 0 0 [0; 0] [0; 0] RAFT_STATE_FOLLOWER []
    200 0 0 0 None true [] [].

Lemma example_node_created :
  (n ← raft_create (λ _, Err DISTRIC_ERR_INIT_FAILED) example_config (λ _, 0) 50;
   Ok (raft_start n (λ _, 0))) = Ok example_node.
Proof. reflexivity. Qed.

Lemma example_node_wf : node_wf example_node.
Proof.
  split; simpl; try done; try (split; repeat constructor; done).
Qed.

(** The example node after an election timeout. *)
Definition example_candidate : raft_node mem_store :=
  Eval vm_compute in
    match handle example_node (EvTick (λ _, 1000) 7) with Ok n => n | _ => example_node end.

(** A node with a store that starts an election, is sent a snapshot up to index 9, and
    takes one of its own there. *)
Definition stored_example : raft_node mem_store := set_persistence (Some (MemStore None [])) example_node.
Definition example_calls : list node_call :=
  [CallEvent (EvTick (λ _, 1000) 7); CallInstallSnapshot 9 1 [7]; CallCreateSnapshot [8]].

Fixpoint perform_all (cs : list node_call) (n : raft_node mem_store) : result (raft_node mem_store) :=
  match cs with
  | [] => Ok n
  | c :: cs => n ← perform n c; perform_all cs n
  end.

Definition after_snapshots : raft_node mem_store :=
  Eval vm_compute in match perform_all example_calls stored_example with Ok n => n | _ => example_node end.

Lemma example_steps : rtc node_step stored_example after_snapshots.
Proof.
  eapply rtc_l; [exists (CallEvent (EvTick (λ _, 1000) 7)); split_and!; [..|vm_compute; reflexivity]; done|].
  eapply rtc_l; [exists (CallInstallSnapshot 9 1 [7]); split_and!; [split_and!; done|done|vm_compute; reflexivity]|].
  eapply rtc_l; [exists (CallCreateSnapshot [8]); split_and!; [split; [done|by left]|done|vm_compute; reflexivity]|].
  apply rtc_refl.
Qed.

Lemma raft_steps_wf_witness :
  log_base_index (nd_log after_snapshots) = 9 ∧ node_wf after_snapshots ∧
  current_term stored_example ≤ current_term after_snapshots.
Proof.
  split; [reflexivity|].
  apply (raft_steps_wf stored_example after_snapshots); [|exact example_steps].
  destruct example_node_wf. by split.
Defined.

(** The example node grants its vote of term 1 to "2", answers a heartbeat, and
    is asked again. *)
Definition example_voter : raft_node mem_store :=
  Eval vm_compute in (raft_handle_request_vote example_node [50] 1 0 0 (λ _, 10)).2.
Definition example_follower : raft_node mem_store :=
  Eval vm_compute in
    (raft_handle_append_entries example_voter [51] 1 0 0 [] 0 (λ _, 20)).2.

Lemma example_vote :
  raft_handle_request_vote example_node [50] 1 0 0 (λ _, 10) = (VoteReply true 1, example_voter).
Proof. vm_compute; reflexivity. Qed.

Lemma example_follow : rtc vote_step example_voter example_follower.
Proof.
  eapply rtc_l; [|apply rtc_refl].
  exists (EvAppendEntries [51] 1 0 0 [] 0 (λ _, 20)).
  split_and!; [split_and!; try done; constructor|done|vm_compute; reflexivity|].
  intros [_ Hs]. discriminate Hs.
Qed.

Lemma example_id_ok : cstr_ok [50] ∧ (length [50] ≤ 63)%nat ∧ [50] ≠ [] ∧ is_u32 1.
Proof. split; [repeat constructor; done|]. split; [simpl; lia|]. done. Qed.

Lemma raft_votes_once_witness :
  raft_handle_request_vote example_follower [50] 1 0 0 (λ _, 30) =
    (VoteReply true 1, set_last_heartbeat_ms 30 example_follower) ∧
  [50] = [50].
Proof.
  assert (Hv : raft_handle_request_vote example_follower [50] 1 0 0 (λ _, 30) =
    (VoteReply true 1, set_last_heartbeat_ms 30 example_follower)) by reflexivity.
  split; [exact Hv|]. destruct example_id_ok as (H1 & H2 & H3 & H4).
  exact (raft_votes_once example_node [50] 1 0 0 _ _ _ [50] 0 0 _ _ _ _
    example_node_wf H1 H2 H3 H4 example_vote example_follow Hv).
Defined.

(** The exception is real: a candidate of term 1 that voted for itself, and
    then hears the AppendEntries of the leader of that term, forgets its vote
    (transition_to_follower clears it although the term is not new, in memory
    and on disk) and grants the vote of the same term to another node. *)
Theorem candidate_votes_twice :
  let n2 := (raft_handle_append_entries example_candidate [50] 1 0 0 [] 0 (λ _, 1001)).2 in
  current_term example_candidate = 1 ∧
  voted_for example_candidate = cfg_node_id (nd_config example_candidate) ∧
  voted_for n2 = [] ∧
  vote_granted (raft_handle_request_vote n2 [51] 1 0 0 (λ _, 1002)).1 = true.
Proof. vm_compute. split_and!; reflexivity. Qed.
