(* ===== verification/RaftExamples.v ===== *)
(** * Concrete Raft nodes

    Leaders and followers with given logs, well formed, over the reference
    store: the inputs on which the theorems of the Raft files are applied. *)

From Stdlib Require Import ZArith Lia.
From stdpp Require Import base list numbers option.
From S2P Require Import Prelude RaftLog RaftCore RaftInvariant.

Local Open Scope Z_scope.

Definition command (i t : Z) : raft_log_entry := LogEntry i t RAFT_ENTRY_COMMAND [].

Definition example_log (terms : list Z) : raft_log :=
  RaftLog (imap (λ k t, command (Z.of_nat k + 1) t) terms) 0 0.

(** A leader of term [t], whose next_index for every peer is [next]. *)
Definition leader_with (t : Z) (terms : list Z) (commit next : Z) : raft_node mem_store :=
  RaftNode example_config t [49] (example_log terms) commit 0 [next; next] [0; 0]
    RAFT_STATE_LEADER [49] 200 0 0 0 None true [] [].

Definition follower_with (t : Z) (terms : list Z) : raft_node mem_store :=
  RaftNode example_config t [] (example_log terms) 0 0 [0; 0] [0; 0]
    RAFT_STATE_FOLLOWER [] 200 0 0 0
    (Some (MemStore (Some (t, [])) (log_entries (example_log terms)))) true [] [].

Lemma example_log_wf terms :
  Forall is_u32 terms → Z.of_nat (length terms) < 1000 → log_wf (example_log terms).
Proof.
  intros Ht Hl. split; simpl; [ulia|unfold log_count; simpl; rewrite length_imap; unfold UINT32_MAX; ulia| |].
  - intros k e Hk. rewrite list_lookup_imap in Hk. apply fmap_Some in Hk as (t & _ & ->).
    simpl. lia.
  - apply Forall_lookup_2. intros k e Hk. rewrite list_lookup_imap in Hk.
    apply fmap_Some in Hk as (t & Hk & ->).
    split; [exact (Forall_lookup_1 _ _ _ _ Ht Hk)|].
    split; [unfold command, RAFT_ENTRY_COMMAND; simpl; ulia|].
    split; [constructor|simpl; lia].
Qed.

Lemma example_config_ok : config_ok example_config.
Proof. apply (wf_config _ example_node_wf). Qed.

Lemma example_vote_ok v : v = [] ∨ v = [49] → cstr_ok v ∧ (length v ≤ 63)%nat.
Proof. intros [-> | ->]; (split; [by repeat constructor|simpl; lia]). Qed.

Lemma leader_with_wf t terms commit next :
  is_u32 t → is_u32 commit → is_u32 next → Forall is_u32 terms →
  Z.of_nat (length terms) < 1000 → node_wf (leader_with t terms commit next).
Proof.
  intros Ht Hc Hn Hts Hl.
  apply Build_node_wf; simpl;
    [apply example_config_ok|done|apply example_vote_ok; by right|by apply example_log_wf|done|done
    |split; [done|forall_done]|split; [done|forall_done]|done].
Qed.

Lemma follower_with_wf t terms :
  is_u32 t → Forall is_u32 terms → Z.of_nat (length terms) < 1000 → node_wf (follower_with t terms).
Proof.
  intros Ht Hts Hl.
  apply Build_node_wf; simpl;
    [apply example_config_ok|done|apply example_vote_ok; by left|by apply example_log_wf|done|done
    |split; [done|forall_done]|split; [done|forall_done]|done].
Qed.
