(* ===== verification/RaftReplication.v ===== *)
(** * Log replication

    What [raft_handle_append_entries] does to a follower's log against a
    reference merge of two logs, what a leader sends, what it commits and what
    a node applies, and the convergence of a follower's log to its leader's
    under repeated exchanges. *)

From Stdlib Require Import ZArith Lia.
From stdpp Require Import base list numbers option relations.
From S2P Require Import Prelude RaftLog RaftCore RaftInvariant RaftExamples.

Local Open Scope Z_scope.

(** ** The reference merge

    The receiver's rule of Raft: compare the received entries with the ones
    present from position [pos] on; the first conflict, or the end of the log,
    replaces everything that follows by what was received. *)
Fixpoint log_merge (old : list raft_log_entry) (pos : nat) (new : list raft_log_entry) :
    list raft_log_entry :=
  match new with
  | [] => old
  | e :: new' =>
      match old !! pos with
      | Some x =>
          if le_term x =? le_term e then log_merge old (S pos) new'
          else take pos old ++ new
      | None => take pos old ++ new
      end
  end.

(** Entries numbered from [base + 1] on. *)
Definition numbered (base : Z) (es : list raft_log_entry) : Prop :=
  ∀ k e, es !! k = Some e → le_index e = base + Z.of_nat k + 1.

Lemma numbered_cons base e es :
  numbered base (e :: es) ↔ le_index e = base + 1 ∧ numbered (base + 1) es.
Proof.
  split.
  - intros Hn. split; [specialize (Hn 0%nat e eq_refl); lia|].
    intros k x Hk. rewrite (Hn (S k) x Hk). lia.
  - intros [He Hn] [|k] x Hk; [injection Hk as <-; lia|].
    rewrite (Hn k x Hk). lia.
Qed.

Lemma numbered_take base es k : numbered base es → numbered base (take k es).
Proof. intros Hn i e Hi. apply lookup_take_Some in Hi as [Hi _]. by apply Hn. Qed.

Lemma numbered_app base es fs :
  numbered base (es ++ fs) ↔ numbered base es ∧ numbered (base + Z.of_nat (length es)) fs.
Proof.
  split.
  - intros Hn. split; intros k e Hk; [apply Hn; by apply lookup_app_l_Some|].
    rewrite (Hn (length es + k)%nat e).
    + lia.
    + rewrite lookup_app_r by lia. by replace (length es + k - length es)%nat with k by lia.
  - intros [H1 H2] k e [Hk|[Hk Hk']]%lookup_app_Some; [by apply H1|].
    rewrite (H2 _ _ Hk'). lia.
Qed.

Lemma log_merge_end old new : log_merge old (length old) new = old ++ new.
Proof.
  destruct new as [|e new]; simpl; [by rewrite app_nil_r|].
  rewrite lookup_ge_None_2 by lia. by rewrite take_ge by lia.
Qed.

(** The entries before [pos] stay. *)
Lemma log_merge_take old pos new :
  (pos ≤ length old)%nat → take pos (log_merge old pos new) = take pos old.
Proof.
  revert pos. induction new as [|e new IH]; intros pos Hp; simpl; [done|].
  destruct (old !! pos) as [x|] eqn:Hx; [destruct (le_term x =? le_term e)|].
  - assert (S pos ≤ length old)%nat by (apply lookup_lt_Some in Hx; lia).
    specialize (IH (S pos) H). apply (f_equal (take pos)) in IH. rewrite !take_take in IH.
    by replace (pos `min` S pos)%nat with pos in IH by lia.
  - rewrite take_app_le by (rewrite length_take; lia). rewrite take_take. f_equal. lia.
  - rewrite take_app_le by (rewrite length_take; lia). rewrite take_take. f_equal. lia.
Qed.

(** Every received entry is there, with its term. *)
Lemma log_merge_lookup old pos new k e :
  (pos ≤ length old)%nat → new !! k = Some e →
  ∃ x, log_merge old pos new !! (pos + k)%nat = Some x ∧ le_term x = le_term e.
Proof.
  revert pos k. induction new as [|e0 new IH]; intros pos k Hp Hk; [done|]. simpl.
  assert (Hrep : ∃ x, (take pos old ++ e0 :: new) !! (pos + k)%nat = Some x ∧
                      le_term x = le_term e).
  { exists e. split; [|done]. rewrite lookup_app_r; rewrite length_take; [|lia].
    rewrite <- Hk. f_equal. lia. }
  destruct (old !! pos) as [x|] eqn:Hx; [|done].
  destruct (Z.eqb_spec (le_term x) (le_term e0)) as [Heq|]; [|done].
  assert (Hp' : (S pos ≤ length old)%nat) by (apply lookup_lt_Some in Hx; lia).
  destruct k as [|k]; simpl in Hk.
  - injection Hk as <-. exists x. split; [|done].
    rewrite Nat.add_0_r. pose proof (log_merge_take old (S pos) new Hp') as Ht.
    rewrite <- (lookup_take_lt _ (S pos)) by lia. rewrite Ht.
    by rewrite lookup_take_lt by lia.
  - destruct (IH (S pos) k Hp' Hk) as (y & Hy & Hye). exists y. split; [|done].
    rewrite <- Hy. f_equal. lia.
Qed.

(** Without a conflict nothing is deleted. *)
Definition no_conflict (old : list raft_log_entry) (pos : nat) (new : list raft_log_entry) : Prop :=
  ∀ k x e, old !! (pos + k)%nat = Some x → new !! k = Some e → le_term x = le_term e.

Lemma log_merge_no_conflict old pos new :
  (pos ≤ length old)%nat → no_conflict old pos new →
  log_merge old pos new = old ++ drop (length old - pos) new.
Proof.
  revert pos. induction new as [|e new IH]; intros pos Hp Hc; simpl.
  { by rewrite drop_nil, app_nil_r. }
  destruct (old !! pos) as [x|] eqn:Hx.
  - assert (le_term x = le_term e) as ->.
    { apply (Hc 0%nat); [by rewrite Nat.add_0_r|done]. }
    rewrite Z.eqb_refl. apply lookup_lt_Some in Hx.
    rewrite IH; [|lia|].
    + by replace (length old - pos)%nat with (S (length old - S pos)) by lia.
    + intros k y f Hy Hf. apply (Hc (S k)); [|done]. rewrite <- Hy. f_equal. lia.
  - apply lookup_ge_None in Hx. rewrite take_ge by lia.
    by replace (length old - pos)%nat with 0%nat by lia.
Qed.

(** At the first conflict the received entries take over. *)
Lemma log_merge_replace old pos new :
  (pos ≤ length old)%nat →
  (∀ e x, new !! 0%nat = Some e → old !! pos = Some x → le_term x ≠ le_term e) →
  new ≠ [] → log_merge old pos new = take pos old ++ new.
Proof.
  intros Hp Hc Hne. destruct new as [|e new]; [done|]. simpl.
  destruct (old !! pos) as [x|] eqn:Hx; [|done].
  destruct (Z.eqb_spec (le_term x) (le_term e)); [|done].
  by destruct (Hc e x).
Qed.

Lemma log_merge_length old pos new :
  (pos ≤ length old)%nat → (length (log_merge old pos new) ≤ length old + length new)%nat.
Proof.
  revert pos. induction new as [|e new IH]; intros pos Hp; simpl; [lia|].
  destruct (old !! pos) as [x|] eqn:Hx; [case_match|].
  - apply lookup_lt_Some in Hx. specialize (IH (S pos)). lia.
  - rewrite length_app, length_take; simpl; lia.
  - rewrite length_app, length_take; simpl; lia.
Qed.

(** ** The append loop is the reference merge *)
Section append.
Context {P : Type} `{RaftPersistenceLaws P}.
Notation node := (raft_node P).
Implicit Types n : node.

Definition mirrors n : Prop := mirrors_log n.(nd_log) n.(persistence).

Lemma raft_log_eta (l : raft_log) :
  RaftLog l.(log_entries) l.(log_base_index) l.(log_base_term) = l.
Proof. by destruct l. Qed.

Lemma set_log_persistence_same n : set_persistence n.(persistence) (set_log n.(nd_log) n) = n.
Proof. by destruct n. Qed.

(** The log with other entries. *)
Definition with_entries (l : raft_log) (es : list raft_log_entry) : raft_log :=
  RaftLog es l.(log_base_index) l.(log_base_term).

(** [m] is [n] with the log [l], written through to the store. *)
Definition relogged n (l : raft_log) (m : node) : Prop :=
  ∃ p, m = set_persistence p (set_log l n) ∧ mirrors_log l p ∧
    stored_state_opt p = stored_state_opt n.(persistence).

Lemma relogged_refl n : mirrors n → relogged n n.(nd_log) n.
Proof. intros Hm. exists n.(persistence). by rewrite set_log_persistence_same. Qed.

Lemma relogged_trans n l m l' m' : relogged n l m → relogged m l' m' → relogged n l' m'.
Proof.
  intros (p & -> & _ & Hs) (p' & -> & Hm & Hs'). exists p'. split; [done|].
  split; [done|]. rewrite Hs'. exact Hs.
Qed.

Lemma relogged_log n l m : relogged n l m → m.(nd_log) = l ∧ mirrors m.
Proof. by intros (p & -> & Hm & _). Qed.

Lemma relogged_append n term type data :
  log_wf n.(nd_log) → log_room n.(nd_log) 1 → entry_ok (LogEntry 0 term type data) → mirrors n →
  let l := log_snoc n.(nd_log) (next_entry n.(nd_log) term type data) in
  (node_log_append n term type data).1 = DISTRIC_OK ∧
  relogged n l (node_log_append n term type data).2.
Proof.
  intros Hwf Hr He Hm. unfold node_log_append.
  destruct (log_append_mirrors _ term type data _ Hwf Hr He Hm) as (p & -> & Hm' & Hs).
  split; [done|]. by exists p.
Qed.

Lemma relogged_truncate n from :
  log_wf n.(nd_log) → is_u32 from → n.(nd_log).(log_base_index) < from → mirrors n →
  relogged n (log_take (Z.to_nat (from - n.(nd_log).(log_base_index) - 1)) n.(nd_log))
    (node_log_truncate n from).
Proof.
  intros Hwf Hf Hlt Hm. unfold node_log_truncate.
  destruct (log_truncate_mirrors _ from _ Hwf Hf Hm) as [Hm' Hs].
  pose proof (log_truncate_eq _ from n.(persistence) Hwf Hf Hlt) as Heq.
  destruct (log_truncate _ _ _) as [l p]. simpl in *. subst l. by exists p.
Qed.

(** One turn on the entry for position [pos]. *)
Lemma append_turn_relogged n e pos :
  log_wf n.(nd_log) → log_room n.(nd_log) 1 → mirrors n → msg_entry_ok e →
  (pos ≤ log_count n.(nd_log))%nat →
  le_index e = n.(nd_log).(log_base_index) + Z.of_nat pos + 1 →
  relogged n (with_entries n.(nd_log) (log_merge n.(nd_log).(log_entries) pos [e]))
    (append_turn n e).
Proof.
  intros Hwf Hr Hm [Hi He] Hp Hidx. unfold append_turn.
  assert (Hget : ∀ m : node, m.(nd_log).(log_base_index) = n.(nd_log).(log_base_index) →
    log_wf m.(nd_log) → log_get m.(nd_log) (le_index e) = m.(nd_log).(log_entries) !! pos).
  { intros m Hb Hwm. rewrite Hidx, <- Hb. apply log_get_nat; [done|].
    rewrite Hb, <- Hidx. done. }
  rewrite (Hget n) by done. simpl.
  destruct (log_entries (nd_log n) !! pos) as [x|] eqn:Hx; [destruct (le_term x =? le_term e)|];
    simpl.
  - rewrite (Hget n), Hx by done. unfold with_entries. rewrite raft_log_eta. by apply relogged_refl.
  - pose proof (log_wf_base _ Hwf) as [Hb _].
    pose proof (relogged_truncate n (le_index e) Hwf Hi ltac:(lia) Hm) as Htr.
    replace (Z.to_nat (le_index e - log_base_index (nd_log n) - 1)) with pos in Htr by lia.
    set (m := node_log_truncate n (le_index e)) in *. clearbody m.
    destruct (relogged_log _ _ _ Htr) as [Hl Hmm].
    assert (Hwm : log_wf m.(nd_log)) by (rewrite Hl; by apply log_wf_take).
    rewrite (Hget m); [|by rewrite Hl|done].
    assert (log_entries (nd_log m) !! pos = None) as ->.
    { rewrite Hl. simpl. apply lookup_ge_None_2. rewrite length_take. lia. }
    apply relogged_trans with (1 := Htr).
    destruct (relogged_append m (le_term e) (le_type e) (le_data e) Hwm) as [_ Hap].
    { rewrite Hl. unfold log_room, log_count in *. simpl. rewrite length_take. lia. }
    { exact He. }
    { done. }
    rewrite Hl in Hap. unfold log_snoc, next_entry, log_take, log_count in Hap. simpl in Hap.
    rewrite length_take in Hap. apply lookup_lt_Some in Hx.
    replace (Z.of_nat (pos `min` length (log_entries (nd_log n)))) with (Z.of_nat pos) in Hap by lia.
    rewrite <- Hidx in Hap. unfold with_entries. by destruct e.
  - rewrite (Hget n), Hx by done.
    apply lookup_ge_None in Hx. unfold log_count in *.
    destruct (relogged_append n (le_term e) (le_type e) (le_data e) Hwf Hr He Hm) as [_ Hap].
    unfold log_snoc, next_entry, log_count in Hap.
    assert (length (log_entries (nd_log n)) = pos) as Hlen by lia. rewrite Hlen, <- Hidx in Hap.
    rewrite take_ge by lia. unfold with_entries. by destruct e.
Qed.

Lemma log_merge_step old pos e es :
  (pos ≤ length old)%nat →
  log_merge old pos (e :: es) = log_merge (log_merge old pos [e]) (S pos) es.
Proof.
  intros Hp. simpl.
  assert (Hrep : take pos old ++ e :: es = log_merge (take pos old ++ [e]) (S pos) es).
  { replace (S pos) with (length (take pos old ++ [e])).
    - by rewrite log_merge_end, <- app_assoc.
    - rewrite length_app, length_take. simpl. lia. }
  destruct (old !! pos) as [x|]; [destruct (le_term x =? le_term e)|]; done.
Qed.

Lemma log_merge_length_ge old pos e :
  (pos ≤ length old)%nat → (S pos ≤ length (log_merge old pos [e]))%nat.
Proof.
  intros Hp. destruct (log_merge_lookup old pos [e] 0 e Hp eq_refl) as (x & Hx & _).
  apply lookup_lt_Some in Hx. lia.
Qed.

Lemma append_turns_relogged es n pos :
  node_wf n → log_room n.(nd_log) (length es) → mirrors n → Forall msg_entry_ok es →
  (pos ≤ log_count n.(nd_log))%nat →
  numbered (n.(nd_log).(log_base_index) + Z.of_nat pos) es →
  relogged n (with_entries n.(nd_log) (log_merge n.(nd_log).(log_entries) pos es))
    (foldl append_turn n es).
Proof.
  revert n pos. induction es as [|e es IH]; intros n pos Hn Hr Hm Hes Hp Hnum; simpl.
  { unfold with_entries. rewrite raft_log_eta. by apply relogged_refl. }
  apply Forall_cons_iff in Hes as [He Hes]. apply numbered_cons in Hnum as [Hidx Hnum].
  assert (Hr1 : log_room n.(nd_log) 1) by (unfold log_room in *; simpl in Hr; lia).
  pose proof (append_turn_relogged n e pos (wf_log _ Hn) Hr1 Hm He Hp Hidx) as Hturn.
  pose proof (append_turn_wf n e Hn Hr1 He) as Hwf.
  pose proof (append_turn_room n e (length es) Hr) as Hroom.
  set (m := append_turn n e) in *. clearbody m.
  destruct (relogged_log _ _ _ Hturn) as [Hl Hmm].
  apply relogged_trans with (1 := Hturn).
  assert (Hlen : (S pos ≤ length (log_merge (log_entries (nd_log n)) pos [e]))%nat)
    by by apply log_merge_length_ge.
  specialize (IH m (S pos) Hwf Hroom Hmm Hes).
  rewrite Hl in IH. unfold with_entries in IH; simpl in IH.
  pose proof (log_merge_step (log_entries (nd_log n)) pos e es Hp) as Hstep. simpl in Hstep.
  rewrite Hstep. apply IH; [exact Hlen|].
  replace (log_base_index (nd_log n) + Z.of_nat (S pos))
    with (log_base_index (nd_log n) + Z.of_nat pos + 1) by lia. done.
Qed.

(** ** Transitions and the store *)

Lemma storable_nil : storable_id [].
Proof. split; [constructor|]. split; [simpl; lia|apply not_elem_of_nil]. Qed.

Lemma save_opt_mirrors l p t v :
  mirrors_log l p → storable_term t → storable_id v → mirrors_log l (save_opt p t v).
Proof.
  destruct p as [p|]; [|done]. intros [Hr Hs] Ht Hv.
  destruct (save_state_reliable p t v Hr Ht Hv) as (p' & Heq & Hr' & _ & Hs').
  simpl. rewrite Heq. simpl. by rewrite Hs'.
Qed.

Lemma transition_to_follower_fields n t now :
  let n' := transition_to_follower n t now in
  n'.(nd_state) = RAFT_STATE_FOLLOWER ∧ n'.(current_term) = t ∧ n'.(nd_log) = n.(nd_log) ∧
  n'.(commit_index) = n.(commit_index) ∧ n'.(last_applied) = n.(last_applied) ∧
  n'.(nd_config) = n.(nd_config) ∧ n'.(persistence) = save_opt n.(persistence) t [].
Proof. destruct (transition_to_follower_eq n t now) as [sc ->]. done. Qed.

Lemma transition_to_follower_mirrors n t now :
  mirrors n → storable_term t → mirrors (transition_to_follower n t now).
Proof.
  intros Hm Ht. destruct (transition_to_follower_fields n t now) as (_ & _ & Hl & _ & _ & _ & Hp).
  unfold mirrors. rewrite Hl, Hp. apply save_opt_mirrors; [done..|apply storable_nil].
Qed.

(** ** The AppendEntries handler *)

(** The commit index the handler computes. *)
Definition follower_commit (commit leader_commit last : Z) : Z :=
  if leader_commit >? commit then Z.min leader_commit last else commit.

(** The node when the handler reaches the check of the previous entry: its term
    is the message's, and it is not a candidate. *)
Definition entered n (t : Z) (m : node) : Prop :=
  m.(current_term) = t ∧ m.(nd_state) ≠ RAFT_STATE_CANDIDATE ∧ m.(nd_log) = n.(nd_log) ∧
  m.(commit_index) = n.(commit_index) ∧ m.(last_applied) = n.(last_applied) ∧
  m.(nd_config) = n.(nd_config) ∧ node_wf m.

(** The body of the handler from the check on. *)
Definition append_body n (pi pt : Z) (es : list raft_log_entry) (lc : Z) : append_reply * node :=
  if negb (prev_matches n pi pt)
  then (AppendReply false n.(current_term) (log_last_index n.(nd_log)), n)
  else
    let m := foldl append_turn n es in
    let m' := set_commit_index
                (follower_commit m.(commit_index) lc (log_last_index m.(nd_log))) m in
    (AppendReply true n.(current_term) (log_last_index m.(nd_log)), m').

Lemma follower_commit_eq (m : node) lc :
  (if lc >? m.(commit_index) then
     set_commit_index
       (if lc <? log_last_index m.(nd_log) then lc else log_last_index m.(nd_log)) m
   else m) =
  set_commit_index (follower_commit m.(commit_index) lc (log_last_index m.(nd_log))) m.
Proof.
  unfold follower_commit. case_match; [|by destruct m]. f_equal.
  destruct (Z.ltb_spec lc (log_last_index (nd_log m))); lia.
Qed.

Lemma append_entries_enter_inv (I : node → Prop) n l t pi pt es lc time :
  node_wf n → is_u32 t → current_term n ≤ t → I n →
  (∀ m now, I m → I (transition_to_follower m t now)) →
  (∀ m now ld, I m → I (set_current_leader ld (set_last_heartbeat_ms now m))) →
  ∃ m, entered n t m ∧ I m ∧
    raft_handle_append_entries n l t pi pt es lc time = append_body m pi pt es lc.
Proof.
  intros Hn Ht Hle HI Htr Hset. unfold raft_handle_append_entries.
  set (m := if t >? current_term n then _ else n).
  assert (Hm : m.(current_term) = t ∧ m.(nd_log) = n.(nd_log) ∧
    m.(commit_index) = n.(commit_index) ∧ m.(last_applied) = n.(last_applied) ∧
    m.(nd_config) = n.(nd_config) ∧ node_wf m ∧ I m).
  { subst m. destruct (Z.gtb_spec t (current_term n)).
    - destruct (transition_to_follower_fields n t (time 0%nat)) as (_ & Ht' & Hl & Hc & Ha & Hcf & Hp).
      split_and!; [done..|by apply transition_to_follower_wf|by apply Htr].
    - split_and!; try done. lia. }
  clearbody m. destruct Hm as (Htm & Hl & Hc & Ha & Hcf & Hw & HIm).
  rewrite Htm. rewrite (proj2 (Z.ltb_ge t t)) by lia.
  pose proof (Hset m (time 1%nat) (str63 l) HIm) as HI0.
  set (m0 := set_current_leader (str63 l) (set_last_heartbeat_ms (time 1%nat) m)) in *.
  assert (Hw0 : node_wf m0) by (destruct Hw; by split).
  assert (m0.(nd_log) = n.(nd_log) ∧ m0.(commit_index) = n.(commit_index) ∧
    m0.(last_applied) = n.(last_applied) ∧ m0.(nd_config) = n.(nd_config) ∧
    m0.(current_term) = t ∧ m0.(nd_state) = m.(nd_state)) as (Hl0 & Hc0 & Ha0 & Hcf0 & Ht0 & Hs0)
    by done.
  clearbody m0.
  set (m1 := if decide _ then _ else _).
  assert (Hm1 : entered n t m1 ∧ I m1).
  { subst m1. rewrite Hs0. destruct (decide (nd_state m = RAFT_STATE_CANDIDATE)) as [|Hs].
    - destruct (transition_to_follower_fields m0 t (time 2%nat)) as (Hs & Ht' & Hl' & Hc' & Ha' & Hcf' & Hp).
      split; [|by apply Htr]. split_and!; try congruence. by apply transition_to_follower_wf.
    - split; [|done]. split_and!; try congruence; auto. }
  clearbody m1. destruct Hm1 as [Hm1 HI1]. exists m1. split; [done|]. split; [done|].
  destruct Hm1 as (Ht1 & _ & Hl1 & _). unfold append_body.
  rewrite Ht1, Hl1, Hl. case_match; [done|]. by rewrite follower_commit_eq.
Qed.

Lemma append_entries_enter n l t pi pt es lc time :
  node_wf n → is_u32 t → current_term n ≤ t →
  ∃ m, entered n t m ∧ (storable_term t → mirrors n → mirrors m) ∧
    raft_handle_append_entries n l t pi pt es lc time = append_body m pi pt es lc.
Proof.
  intros Hn Ht Hle.
  apply (append_entries_enter_inv (λ m, storable_term t → mirrors n → mirrors m)); try done.
  intros m now Hm Hst Hmn. apply transition_to_follower_mirrors; auto.
Qed.

(** An AppendEntries the follower accepts: a current term, a matching previous
    entry, entries with the indices that follow it. *)
Record accepts n (t pi pt : Z) (es : list raft_log_entry) (lc : Z) : Prop := {
  acc_wf : node_wf n;
  acc_mirrors : mirrors n;
  acc_term : current_term n ≤ t ∧ storable_term t;
  acc_widths : is_u32 pi ∧ is_u32 lc ∧ Forall msg_entry_ok es;
  acc_room : log_room n.(nd_log) (length es);
  acc_base : n.(nd_log).(log_base_index) ≤ pi;
  acc_prev : prev_matches n pi pt = true;
  acc_numbered : numbered pi es
}.

Definition prev_pos n (pi : Z) : nat := Z.to_nat (pi - n.(nd_log).(log_base_index)).

Lemma prev_pos_le n pi pt :
  node_wf n → is_u32 pi → n.(nd_log).(log_base_index) ≤ pi → prev_matches n pi pt = true →
  (prev_pos n pi ≤ log_count n.(nd_log))%nat.
Proof.
  intros Hn Hpi Hb. unfold prev_matches, prev_pos.
  destruct (Z.gtb_spec pi 0).
  - destruct (log_get (nd_log n) pi) eqn:Hg; [|done]. intros _.
    assert (is_Some (log_get (nd_log n) pi)) as Hs by eauto.
    apply log_get_is_Some in Hs; [|apply Hn|done].
    rewrite log_last_index_wf in Hs by apply Hn. lia.
  - intros _. pose proof (log_wf_base _ (wf_log _ Hn)) as [? _]. ulia.
Qed.

Lemma storable_term_u32 t : storable_term t → is_u32 t.
Proof. unfold storable_term. ulia. Qed.

Lemma append_entries_accepted n l t pi pt es lc time :
  accepts n t pi pt es lc →
  let '(reply, n') := raft_handle_append_entries n l t pi pt es lc time in
  n'.(nd_log) =
    with_entries n.(nd_log) (log_merge n.(nd_log).(log_entries) (prev_pos n pi) es) ∧
  mirrors n' ∧
  reply = AppendReply true t (log_last_index n'.(nd_log)) ∧
  n'.(current_term) = t ∧ n'.(nd_state) ≠ RAFT_STATE_CANDIDATE ∧
  n'.(commit_index) = follower_commit n.(commit_index) lc (log_last_index n'.(nd_log)) ∧
  n'.(last_applied) = n.(last_applied).
Proof.
  intros [Hn Hm [Ht Hst] (Hpi & Hlc & Hes) Hr Hb Hprev Hnum].
  destruct (append_entries_enter n l t pi pt es lc time Hn (storable_term_u32 _ Hst) Ht)
    as (m & (Htm & Hs & Hl & Hc & Ha & Hcf & Hw) & Hmm & ->).
  assert (Hprev' : prev_matches m pi pt = true) by (unfold prev_matches; by rewrite Hl).
  unfold append_body. rewrite Hprev'. simpl.
  assert (Hp : (prev_pos n pi ≤ log_count (nd_log m))%nat).
  { rewrite Hl. by apply (prev_pos_le n pi pt). }
  destruct (append_turns_relogged es m (prev_pos n pi) Hw) as (p & -> & Hmp & _).
  - by rewrite Hl.
  - auto.
  - done.
  - done.
  - rewrite Hl. unfold prev_pos. replace (_ + _) with pi by lia. done.
  - rewrite Hl in *. simpl. rewrite Htm, Hc. split_and!; done.
Qed.

(** C3: an accepted AppendEntries replaces the follower's log by the reference
    merge of its log and the received entries (the loop of lookups, truncations
    and appends of the code computes it), writes the same log through to disk,
    and answers success with the index of the last entry; the commit index
    becomes min (leader_commit, last index) if the leader's is larger. *)
Theorem append_entries_merges n l t pi pt es lc time :
  accepts n t pi pt es lc →
  let '(reply, n') := raft_handle_append_entries n l t pi pt es lc time in
  n'.(nd_log) =
    with_entries n.(nd_log) (log_merge n.(nd_log).(log_entries) (prev_pos n pi) es) ∧
  mirrors n' ∧
  reply = AppendReply true t (log_last_index n'.(nd_log)) ∧
  n'.(current_term) = t ∧ n'.(nd_state) ≠ RAFT_STATE_CANDIDATE ∧
  n'.(commit_index) = follower_commit n.(commit_index) lc (log_last_index n'.(nd_log)) ∧
  n'.(last_applied) = n.(last_applied).
Proof. apply append_entries_accepted. Qed.

Lemma msg_index_pos n pi es k e :
  n.(nd_log).(log_base_index) ≤ pi → numbered pi es → es !! k = Some e →
  le_index e = n.(nd_log).(log_base_index) + Z.of_nat (prev_pos n pi + k) + 1.
Proof. intros Hb Hnum Hk. rewrite (Hnum k e Hk). unfold prev_pos. lia. Qed.

Lemma with_entries_get l es i :
  log_wf (with_entries l es) → is_u32 i →
  log_get (with_entries l es) i =
    if decide (l.(log_base_index) < i) then es !! Z.to_nat (i - l.(log_base_index) - 1) else None.
Proof. intros Hwf Hi. by rewrite log_get_wf. Qed.

(** C4: after an accepted AppendEntries every received entry is in the log at
    its index with its term, the entries up to prev_log_index are the ones that
    were there, and when no received entry conflicts with one present no entry
    is deleted: a delayed or duplicated message never shortens the log. *)
Theorem append_entries_log_matching n l t pi pt es lc time :
  accepts n t pi pt es lc →
  let n' := (raft_handle_append_entries n l t pi pt es lc time).2 in
  (∀ e, e ∈ es → ∃ x, log_get n'.(nd_log) (le_index e) = Some x ∧ le_term x = le_term e) ∧
  (∀ i, is_u32 i → i ≤ pi → log_get n'.(nd_log) i = log_get n.(nd_log) i) ∧
  ((∀ e x, e ∈ es → log_get n.(nd_log) (le_index e) = Some x → le_term x = le_term e) →
   ∀ i x, is_u32 i → log_get n.(nd_log) i = Some x → log_get n'.(nd_log) i = Some x).
Proof.
  intros Hacc. pose proof (append_entries_accepted n l t pi pt es lc time Hacc) as Hok.
  pose proof Hacc as [Hn Hm [Ht Hst] (Hpi & Hlc & Hes) Hr Hb Hprev Hnum].
  pose proof (prev_pos_le n pi pt Hn Hpi Hb Hprev) as Hp.
  pose proof (raft_handle_append_entries_wf n l t pi pt es lc time Hn) as Hw.
  destruct (raft_handle_append_entries n l t pi pt es lc time) as [reply n']. simpl in *.
  destruct Hok as (Hl & _).
  assert (Hwl : log_wf n'.(nd_log)).
  { apply Hw. split_and!; auto using storable_term_u32; try apply Hpi; try apply Hlc. }
  clear Hw. rewrite Hl in *. split_and!.
  - intros e [k Hk]%list_elem_of_lookup.
    destruct (log_merge_lookup (log_entries (nd_log n)) _ es k e Hp Hk) as (x & Hx & Hxe).
    assert (Hie : is_u32 (le_index e)).
    { apply (proj1 (List.Forall_forall _ _) Hes). apply list_elem_of_In, list_elem_of_lookup. eauto. }
    exists x. split; [|done]. rewrite with_entries_get by done.
    rewrite (msg_index_pos n pi es k e Hb Hnum Hk) in *.
    rewrite decide_True by lia. rewrite <- Hx. f_equal. lia.
  - intros i Hi Hle. rewrite with_entries_get, log_get_wf by (done || apply Hn).
    destruct (decide _) as [Hd|]; [|done].
    pose proof (log_merge_take (log_entries (nd_log n)) _ es Hp) as Htk.
    rewrite <- (lookup_take_lt _ (prev_pos n pi)) by (unfold prev_pos; lia). rewrite Htk.
    apply lookup_take_lt. unfold prev_pos; lia.
  - intros Hc i x Hi Hx. rewrite with_entries_get by done. rewrite log_get_wf in Hx by (done || apply Hn).
    destruct (decide _) as [Hd|]; [|done].
    rewrite log_merge_no_conflict; [by apply lookup_app_l_Some|done|].
    intros k y e Hy He. apply (Hc e); [apply list_elem_of_lookup; eauto|].
    rewrite (msg_index_pos n pi es k e Hb Hnum He). rewrite log_get_nat; [done|apply Hn|].
    rewrite <- (msg_index_pos n pi es k e Hb Hnum He).
    apply (proj1 (List.Forall_forall _ _) Hes). apply list_elem_of_In, list_elem_of_lookup. eauto.
Qed.

(** A RequestVote or an AppendEntries of an older term is refused with the
    node's term and changes nothing, and an AppendEntries whose previous entry
    is missing or has another term is refused without touching the log, the
    commit index or what was applied. *)
Theorem stale_and_mismatched_refused n c t i lt pi pt es lc time :
  (t < current_term n →
   raft_handle_request_vote n c t i lt time = (VoteReply false (current_term n), n) ∧
   raft_handle_append_entries n c t pi pt es lc time =
     (AppendReply false (current_term n) (log_last_index n.(nd_log)), n)) ∧
  (node_wf n → is_u32 t → current_term n ≤ t → prev_matches n pi pt = false →
   let '(reply, n') := raft_handle_append_entries n c t pi pt es lc time in
   reply = AppendReply false t (log_last_index n.(nd_log)) ∧
   n'.(nd_log) = n.(nd_log) ∧ n'.(commit_index) = n.(commit_index) ∧
   n'.(last_applied) = n.(last_applied) ∧ n'.(current_term) = t).
Proof.
  split.
  - intros Hlt. unfold raft_handle_request_vote, raft_handle_append_entries.
    destruct (Z.gtb_spec t (current_term n)); [lia|].
    destruct (Z.ltb_spec t (current_term n)); [done|lia].
  - intros Hn Ht Hle Hprev.
    destruct (append_entries_enter n c t pi pt es lc time Hn Ht Hle)
      as (m & (Htm & Hs & Hl & Hc & Ha & Hcf & Hw) & Hmm & ->).
    unfold append_body. assert (prev_matches m pi pt = false) as ->
      by (unfold prev_matches; by rewrite Hl).
    simpl. rewrite Htm, Hl. done.
Qed.

(** ** Committing on the leader *)

(** The rule of Raft for an index: the entry there is of the current term, and
    more than half of the cluster holds it, this node included. *)
Definition committable n (i : Z) : Prop :=
  (∃ e, log_get n.(nd_log) i = Some e ∧ le_term e = n.(current_term)) ∧
  Z.of_nat (peer_count n.(nd_config)) + 1 <
    2 * (1 + Z.of_nat (length (filter (λ m, i ≤ m) n.(match_index)))).

(** The counts of the code express "more than half". *)
Lemma majority_replicas n i :
  node_wf n →
  majority n ≤ replicas n i ↔
    Z.of_nat (peer_count n.(nd_config)) + 1 <
      2 * (1 + Z.of_nat (length (filter (λ m, i ≤ m) n.(match_index)))).
Proof.
  intros Hn. unfold majority, replicas. destruct (wf_config _ Hn) as (_ & _ & _ & Hpc).
  pose proof (length_filter (λ m, i ≤ m) n.(match_index)) as Hf.
  rewrite (proj1 (wf_match _ Hn)) in Hf.
  set (k := length (filter (λ m, i ≤ m) (match_index n))) in *.
  set (p := peer_count (nd_config n)) in *. rewrite !u32_id; [|ulia|].
  - pose proof (Z.div_mod (Z.of_nat p + 1) 2). pose proof (Z.mod_pos_bound (Z.of_nat p + 1) 2). lia.
  - pose proof (Z.div_lt_upper_bound (Z.of_nat p + 1) 2 (2 ^ 31)).
    pose proof (Z.div_pos (Z.of_nat p + 1) 2). ulia.
Qed.

#[local] Instance committable_dec n i : Decision (committable n i).
Proof.
  unfold committable. apply and_dec; [|apply _].
  destruct (log_get (nd_log n) i) as [e|].
  - destruct (decide (le_term e = current_term n)); [left; eauto|right; naive_solver].
  - right; naive_solver.
Defined.

Lemma commit_turn_spec n c i :
  node_wf n → commit_turn n c i = if decide (committable n i) then i else c.
Proof.
  intros Hn. unfold commit_turn. destruct (decide _) as [[(e & -> & Ht) Hm]|Hd].
  - rewrite (proj2 (Z.eqb_eq _ _) Ht). simpl.
    apply majority_replicas in Hm; [|done]. by rewrite (proj2 (Z.leb_le _ _) Hm).
  - destruct (log_get (nd_log n) i) as [e|] eqn:He; [|done].
    destruct (Z.eqb_spec (le_term e) (current_term n)); [|done]. simpl.
    destruct (Z.leb_spec (majority n) (replicas n i)); [|done].
    destruct Hd. split; [eauto|]. by apply majority_replicas.
Qed.

(** The loop keeps the last committable index of the ones it visits. *)
Lemma foldl_commit_spec n c l :
  node_wf n →
  let r := foldl (commit_turn n) c l in
  (r = c ∧ Forall (λ i, ¬ committable n i) l) ∨
  (committable n r ∧ ∃ l1 l2, l = l1 ++ r :: l2 ∧ Forall (λ i, ¬ committable n i) l2).
Proof.
  intros Hn. revert c. induction l as [|i l IH]; intros c; simpl; [left; by split|].
  rewrite commit_turn_spec by done. destruct (decide (committable n i)) as [Hd|Hd].
  - destruct (IH i) as [[-> Hf]|(Hc & l1 & l2 & Hl & Hf)]; right.
    + split; [done|]. by exists [], l.
    + split; [done|]. exists (i :: l1), l2. by rewrite Hl at 1.
  - destruct (IH c) as [[-> Hf]|(Hc & l1 & l2 & Hl & Hf)]; [left|right].
    + split; [done|]. by constructor.
    + split; [done|]. exists (i :: l1), l2. by rewrite Hl at 1.
Qed.

Lemma seqZ_split_after m k l1 r l2 i :
  seqZ m k = l1 ++ r :: l2 → r < i < m + k → i ∈ l2.
Proof.
  intros Hl Hi.
  assert (Hr : r = m + Z.of_nat (length l1)).
  { assert (seqZ m k !! length l1 = Some r) as Hk by (rewrite Hl; by apply list_lookup_middle).
    apply lookup_seqZ in Hk. lia. }
  apply list_elem_of_lookup. exists (Z.to_nat (i - r - 1)).
  assert (Hlk : seqZ m k !! Z.to_nat (i - m) = Some i) by (apply lookup_seqZ; lia).
  rewrite Hl, lookup_app_r in Hlk by lia.
  replace (Z.to_nat (i - m) - length l1)%nat with (S (Z.to_nat (i - r - 1))) in Hlk by lia.
  done.
Qed.

(** C8: a leader's update of the commit index never lowers it, only moves it to
    an index whose entry is of the current term and held by a majority (itself
    included), and moves it to the largest such index of the log. *)
Theorem update_commit_index_spec n :
  node_wf n → n.(nd_state) = RAFT_STATE_LEADER → peer_count n.(nd_config) ≠ 0%nat →
  n.(commit_index) < UINT32_MAX →
  let c := (update_commit_index n).(commit_index) in
  (c = n.(commit_index) ∨
   n.(commit_index) < c ≤ log_last_index n.(nd_log) ∧ committable n c) ∧
  (∀ i, c < i ≤ log_last_index n.(nd_log) → ¬ committable n i).
Proof.
  intros Hn Hs Hp Hmax. unfold update_commit_index. rewrite Hs.
  destruct (Nat.eqb_spec (peer_count (nd_config n)) 0) as [|_]; [done|]. simpl.
  pose proof (wf_commit _ Hn) as Hc. rewrite u32_id by ulia.
  set (c0 := commit_index n) in *. set (last := log_last_index (nd_log n)) in *.
  destruct (foldl_commit_spec n c0 (seqZ (c0 + 1) (last - (c0 + 1) + 1)) Hn)
    as [[-> Hf]|(Hcm & l1 & l2 & Hl & Hf)].
  - split; [by left|]. intros i Hi. apply (proj1 (List.Forall_forall _ _) Hf).
    apply list_elem_of_In, elem_of_seqZ. lia.
  - set (r := foldl _ _ _) in *. clearbody r.
    assert (Hr : r ∈ seqZ (c0 + 1) (last - (c0 + 1) + 1)) by (rewrite Hl; set_solver).
    apply elem_of_seqZ in Hr. split; [right; split; [lia|done]|].
    intros i Hi. apply (proj1 (List.Forall_forall _ _) Hf).
    apply list_elem_of_In. eapply seqZ_split_after; [exact Hl|lia].
Qed.

(** ** Applying committed entries *)

Definition is_noop (e : raft_log_entry) : bool := le_type e =? RAFT_ENTRY_NOOP.

(** The entries a node applies for the indices [from + 1 .. from + k]. *)
Definition to_apply n (from : Z) (k : nat) : list raft_log_entry :=
  filter (λ e, is_noop e = false)
    (take k (drop (Z.to_nat (from - n.(nd_log).(log_base_index))) n.(nd_log).(log_entries))).

Lemma apply_loop_spec k n :
  log_wf n.(nd_log) → is_u32 n.(last_applied) →
  n.(nd_log).(log_base_index) ≤ n.(last_applied) →
  n.(last_applied) + Z.of_nat k ≤ log_last_index n.(nd_log) →
  apply_loop k (n.(last_applied) + Z.of_nat k) n =
    set_applied (n.(applied) ++ to_apply n n.(last_applied) k)
      (set_last_applied (n.(last_applied) + Z.of_nat k) n).
Proof.
  revert n. induction k as [|k IH]; intros n Hwf Hla Hb Hk.
  { simpl. unfold to_apply. simpl. rewrite app_nil_r, Z.add_0_r. by destruct n. }
  simpl. rewrite (proj2 (Z.ltb_lt _ _)) by lia.
  pose proof (log_wf_bound _ Hwf) as Hbound. rewrite log_last_index_wf in Hk by done.
  rewrite u32_id by (unfold UINT32_MAX in *; ulia).
  set (i := last_applied n - log_base_index (nd_log n)).
  assert (Hlk : is_Some (log_entries (nd_log n) !! Z.to_nat i)).
  { apply lookup_lt_is_Some. unfold log_count in *. lia. }
  destruct Hlk as [e He].
  assert (log_get (nd_log n) (last_applied n + 1) = Some e) as ->.
  { apply log_get_Some; [done|unfold UINT32_MAX in *; ulia|]. split; [lia|]. rewrite <- He. f_equal. lia. }
  assert (Hto : to_apply n (last_applied n) (S k) =
    (if is_noop e then [] else [e]) ++
    to_apply n (last_applied n + 1) k).
  { unfold to_apply. fold i. rewrite (drop_S _ e) by done. simpl.
    replace (Z.to_nat (last_applied n + 1 - log_base_index (nd_log n))) with (S (Z.to_nat i)) by lia.
    rewrite filter_cons. destruct (is_noop e); done. }
  rewrite Hto. replace (last_applied n + Z.of_nat (S k)) with (last_applied n + 1 + Z.of_nat k) by lia.
  unfold is_noop. destruct (le_type e =? RAFT_ENTRY_NOOP).
  - specialize (IH (set_last_applied (last_applied n + 1) n)). simpl in IH.
    rewrite IH; [done|done|unfold UINT32_MAX in *; ulia|lia|rewrite log_last_index_wf by done; lia].
  - specialize (IH (set_applied (applied n ++ [e]) (set_last_applied (last_applied n + 1) n))).
    simpl in IH.
    rewrite IH; [|done|unfold UINT32_MAX in *; ulia|lia|rewrite log_last_index_wf by done; lia].
    by rewrite <- app_assoc.
Qed.

Lemma apply_committed_entries_eq n :
  node_wf n → n.(nd_config).(cfg_apply_fn) = true →
  n.(nd_log).(log_base_index) ≤ n.(last_applied) ≤ n.(commit_index) →
  n.(commit_index) ≤ log_last_index n.(nd_log) →
  apply_committed_entries n =
    set_applied (n.(applied) ++
      to_apply n n.(last_applied) (Z.to_nat (n.(commit_index) - n.(last_applied))))
      (set_last_applied n.(commit_index) n).
Proof.
  intros Hn Hf Hb Hc. unfold apply_committed_entries. rewrite Hf.
  set (k := Z.to_nat (commit_index n - last_applied n)).
  assert (Hk : n.(commit_index) = n.(last_applied) + Z.of_nat k) by lia.
  rewrite Hk. apply apply_loop_spec; [apply Hn|apply Hn|lia|lia].
Qed.

(** C9: applying the committed entries hands to the state machine, in log order
    and exactly once, every entry of the indices last_applied + 1 to
    commit_index that is not a no-op, and leaves last_applied at the commit
    index. *)
Theorem apply_committed_entries_spec n :
  node_wf n → n.(nd_config).(cfg_apply_fn) = true →
  n.(nd_log).(log_base_index) ≤ n.(last_applied) ≤ n.(commit_index) →
  n.(commit_index) ≤ log_last_index n.(nd_log) →
  let n' := apply_committed_entries n in
  n'.(applied) =
    n.(applied) ++
      to_apply n n.(last_applied) (Z.to_nat (n.(commit_index) - n.(last_applied))) ∧
  n'.(last_applied) = n.(commit_index) ∧
  (apply_committed_entries n').(applied) = n'.(applied).
Proof.
  intros Hn Hf Hb Hc. rewrite apply_committed_entries_eq by done. simpl.
  split_and!; [done|done|]. unfold apply_committed_entries. simpl.
  by rewrite Hf, Z.sub_diag.
Qed.
End append.

(** ** Witnesses *)

(** A batch with one entry present, one that conflicts and one that is new. *)
Definition example_batch : list raft_log_entry := [command 2 1; command 3 3; command 4 3].

Lemma example_accepts :
  accepts (follower_with 2 [1; 1; 2; 2]) 3 1 1 example_batch 3.
Proof.
  split; [|done|done| |done|done|done|].
  - apply follower_with_wf; try done; forall_done.
  - split; [done|]. split; [done|].
    repeat constructor; done.
  - intros [|[|[|k]]] e He; simpl in *; simplify_eq; done.
Qed.

Lemma append_entries_merges_witness :
  let '(reply, n') :=
    raft_handle_append_entries (follower_with 2 [1; 1; 2; 2]) [49] 3 1 1 example_batch 3 (λ _, 0) in
  log_entries n'.(nd_log) = [command 1 1; command 2 1; command 3 3; command 4 3] ∧
  reply = AppendReply true 3 4.
Proof.
  pose proof (append_entries_merges _ [49] _ _ _ _ _ (λ _, 0) example_accepts) as Hm.
  destruct (raft_handle_append_entries _ _ _ _ _ _ _ _) as [reply n'].
  destruct Hm as (Hl & _ & Hr & _). split; [by rewrite Hl|]. by rewrite Hr, Hl.
Defined.

Lemma append_entries_log_matching_witness :
  let n' := (raft_handle_append_entries (follower_with 2 [1; 1; 2; 2]) [49] 3 1 1 example_batch 3
    (λ _, 0)).2 in
  ∃ x, log_get n'.(nd_log) 4 = Some x ∧ le_term x = 3.
Proof.
  destruct (append_entries_log_matching _ [49] _ _ _ _ _ (λ _, 0) example_accepts) as (He & _ & _).
  apply (He (command 4 3)). apply list_elem_of_lookup. by exists 2%nat.
Defined.

Lemma stale_and_mismatched_refused_witness :
  raft_handle_request_vote (follower_with 2 [1]) [49] 1 5 5 (λ _, 0) =
    (VoteReply false 2, follower_with 2 [1]).
Proof.
  by apply (stale_and_mismatched_refused (follower_with 2 [1]) [49] 1 5 5 0 0 [] 0 (λ _, 0)).
Defined.

Lemma update_commit_index_spec_witness :
  let n := set_match_index [2; 0] (leader_with 3 [1; 3; 3] 0 4) in
  (update_commit_index n).(commit_index) = 2 ∧ ¬ committable n 3.
Proof.
  set (n := set_match_index [2; 0] (leader_with 3 [1; 3; 3] 0 4)).
  assert (Hn : node_wf n).
  { apply (set_match_wf (leader_with 3 [1; 3; 3] 0 4) 0 2); [|done].
    apply leader_with_wf; try done; forall_done. }
  destruct (update_commit_index_spec n Hn eq_refl) as [_ Hmax]; [done|done|].
  split; [reflexivity|]. apply Hmax. done.
Defined.

Lemma apply_committed_entries_spec_witness :
  let n := set_commit_index 2 (follower_with 2 [1; 2; 2]) in
  applied (apply_committed_entries n) = [command 1 1; command 2 2] ∧
  last_applied (apply_committed_entries n) = 2.
Proof.
  set (n := set_commit_index 2 (follower_with 2 [1; 2; 2])).
  assert (Hn : node_wf n).
  { destruct (follower_with_wf 2 [1; 2; 2]); [done|forall_done|done|]. by split. }
  destruct (apply_committed_entries_spec n Hn eq_refl) as (Ha & Hl & _); [done|done|].
  split; [by rewrite Ha|by rewrite Hl].
Defined.
