(* ===== verification/RaftConvergence.v ===== *)
(** * Batches and convergence

    What [raft_get_entries_for_peer] sends, and the convergence of a follower's
    log to its leader's under repeated exchanges of AppendEntries and their
    responses. *)

From Stdlib Require Import ZArith Lia.
From stdpp Require Import base list numbers option relations.
From S2P Require Import Prelude RaftLog RaftCore RaftInvariant RaftExamples RaftReplication.

Local Open Scope Z_scope.

Section batch.
Context {P : Type} `{RaftPersistenceLaws P}.
Notation node := (raft_node P).
Implicit Types n : node.

(** A run of lookups at consecutive indices is a slice of the entries. *)
Lemma omap_log_get log s k :
  log_wf log → log.(log_base_index) < s → s + Z.of_nat k ≤ log_last_index log + 1 →
  omap (log_get log) (seqZ s (Z.of_nat k)) =
    take k (drop (Z.to_nat (s - log.(log_base_index) - 1)) log.(log_entries)).
Proof.
  intros Hwf. pose proof (log_wf_bound _ Hwf) as Hbd. pose proof (log_wf_base _ Hwf) as [Hb _].
  rewrite log_last_index_wf by done. revert s.
  induction k as [|k IH]; intros s Hs Hk; [done|].
  rewrite seqZ_cons by lia.
  replace (Z.pred (Z.of_nat (S k))) with (Z.of_nat k) by lia. simpl.
  assert (is_Some (log_entries log !! Z.to_nat (s - log_base_index log - 1))) as [e He].
  { apply lookup_lt_is_Some. unfold log_count in *. lia. }
  assert (log_get log s = Some e) as ->.
  { apply log_get_Some; [done|unfold UINT32_MAX in *; ulia|]. by split. }
  rewrite (drop_S _ e) by done. simpl. f_equal.
  rewrite IH by lia. f_equal. f_equal. lia.
Qed.

(** The number of entries in the next batch for a peer. *)
Definition batch_len n (next : Z) : nat :=
  Z.to_nat (Z.min 100 (log_last_index n.(nd_log) + 1 - next)).

(** The slice of the log from index [next] on, [k] entries long. *)
Definition log_slice (log : raft_log) (next : Z) (k : nat) : list raft_log_entry :=
  take k (drop (Z.to_nat (next - log.(log_base_index) - 1)) log.(log_entries)).

Lemma get_entries_for_peer_eq n i :
  node_wf n → has_peer n i = true → n.(nd_log).(log_base_index) < peer_next n i →
  log_last_index n.(nd_log) + 100 < UINT32_MAX →
  raft_get_entries_for_peer n i =
    Ok (AppendBatch (peer_next n i - 1)
          (if peer_next n i - 1 =? 0 then 0
           else match log_get n.(nd_log) (peer_next n i - 1) with
                | Some e => le_term e
                | None => n.(nd_log).(log_base_term)
                end)
          (log_slice n.(nd_log) (peer_next n i) (batch_len n (peer_next n i)))).
Proof.
  intros Hn Hp Hb Hroom. unfold raft_get_entries_for_peer, batch_len. rewrite Hp. simpl.
  pose proof (peer_next_u32 n i Hn) as Hnx. pose proof (log_wf_base _ (wf_log _ Hn)) as [Hb0 _].
  pose proof (log_last_index_u32 _ (wf_log _ Hn)) as Hlu.
  set (next := peer_next n i) in *. set (last := log_last_index (nd_log n)) in *.
  assert ((if next >? 1 then next - 1 else 0) = next - 1) as ->.
  { destruct (Z.gtb_spec next 1); ulia. }
  assert (∀ A (a b : A), (if next - 1 >? 0 then a else b) = (if next - 1 =? 0 then b else a)) as ->.
  { intros A a b. destruct (Z.gtb_spec (next - 1) 0), (Z.eqb_spec (next - 1) 0); done || ulia. }
  destruct (Z.gtb_spec next last) as [Hgt|Hle].
  - assert (Z.to_nat (Z.min 100 (last + 1 - next)) = 0%nat) as -> by lia. done.
  - unfold raft_get_log_entries, get_replication_batch_size.
    rewrite (u32_id (next + 100)) by (unfold UINT32_MAX in *; ulia).
    rewrite (u32_id (last + 1)) by (unfold UINT32_MAX in *; ulia).
    assert ((if next + 100 >? last + 1 then last + 1 else next + 100) - next =
            Z.of_nat (Z.to_nat (Z.min 100 (last + 1 - next)))) as ->.
    { destruct (Z.gtb_spec (next + 100) (last + 1)); lia. }
    rewrite omap_log_get; [done|apply Hn|done|]. subst last. lia.
Qed.

(** What a leader sends to a peer: the entries from the peer's next_index
    on, consecutive and without gaps, at most 100 of them and up to the last
    index, with the index and the term of the entry before them (the term 0
    before the first index, and the snapshot's where the log does not hold the
    entry any more). *)
Theorem get_entries_for_peer_spec n i :
  node_wf n → has_peer n i = true → n.(nd_log).(log_base_index) < peer_next n i →
  log_last_index n.(nd_log) + 100 < UINT32_MAX →
  ∃ b, raft_get_entries_for_peer n i = Ok b ∧
    b.(ab_prev_log_index) = peer_next n i - 1 ∧
    (∀ e, log_get n.(nd_log) b.(ab_prev_log_index) = Some e → b.(ab_prev_log_term) = le_term e) ∧
    numbered b.(ab_prev_log_index) b.(ab_entries) ∧
    Z.of_nat (length b.(ab_entries)) =
      Z.max 0 (Z.min 100 (log_last_index n.(nd_log) + 1 - peer_next n i)) ∧
    (∀ e, e ∈ b.(ab_entries) → log_get n.(nd_log) (le_index e) = Some e).
Proof.
  intros Hn Hp Hb Hroom. rewrite get_entries_for_peer_eq by done.
  eexists. split; [done|]. cbn [ab_prev_log_index ab_prev_log_term ab_entries].
  pose proof (peer_next_u32 n i Hn) as Hnx. pose proof (wf_log _ Hn) as Hwf.
  pose proof (log_wf_base _ Hwf) as [Hb0 _].
  pose proof (log_last_index_wf _ Hwf) as Hlast.
  assert (Hslice : ∀ k e, log_slice (nd_log n) (peer_next n i) (batch_len n (peer_next n i)) !! k = Some e →
    log_entries (nd_log n) !! (Z.to_nat (peer_next n i - log_base_index (nd_log n) - 1) + k)%nat = Some e).
  { intros k e [Hk _]%lookup_take_Some. by rewrite lookup_drop in Hk. }
  split_and!.
  - done.
  - intros e He. rewrite He. destruct (Z.eqb_spec (peer_next n i - 1) 0) as [Hz|]; [|done].
    apply log_get_Some in He; [|done|ulia]. ulia.
  - intros k e Hk%Hslice. rewrite (log_wf_index _ Hwf _ _ Hk). lia.
  - unfold log_slice, batch_len. rewrite length_take, length_drop.
    unfold log_count in Hlast. lia.
  - intros e [k Hk]%list_elem_of_lookup. pose proof (Hslice _ _ Hk) as Hk'.
    rewrite (log_wf_index _ Hwf _ _ Hk'). rewrite log_get_nat; [done|done|].
    apply lookup_lt_Some in Hk'. pose proof (log_wf_bound _ Hwf). unfold log_count, UINT32_MAX in *. ulia.
Qed.
End batch.

(** ** Agreement of two logs *)

Implicit Types (L F : list raft_log_entry).

(** Raft's Log Matching property of two logs: where the terms agree, the logs
    agree up to there. *)
Definition logs_match L F : Prop :=
  ∀ k x y, L !! k = Some x → F !! k = Some y → le_term x = le_term y →
    take (S k) F = take (S k) L.

(** The logs agree on their first [k] entries. *)
Definition agree L F (k : nat) : Prop :=
  (k ≤ length L)%nat ∧ (k ≤ length F)%nat ∧ take k F = take k L.

Lemma agree_0 L F : agree L F 0.
Proof. split_and!; [lia..|done]. Qed.

Lemma agree_le L F k j : agree L F k → (j ≤ k)%nat → agree L F j.
Proof.
  intros (HL & HF & Ht) Hj. split_and!; [lia..|].
  apply (f_equal (take j)) in Ht. rewrite !take_take in Ht.
  by replace (j `min` k)%nat with j in Ht by lia.
Qed.

Lemma agree_lookup L F k i : agree L F k → (i < k)%nat → F !! i = L !! i.
Proof.
  intros (_ & _ & Ht) Hi. rewrite <- (lookup_take_lt F k), <- (lookup_take_lt L k) by lia.
  by rewrite Ht.
Qed.

(** The longest agreement. *)
Lemma agree_max_exists L F :
  ∃ m, agree L F m ∧ ∀ k, agree L F k → (k ≤ m)%nat.
Proof.
  assert (∀ d, (∃ m, agree L F m ∧ (∀ k, agree L F k → (k ≤ m)%nat)) ∨
               (∀ k, agree L F k → (k + d ≤ length L)%nat)) as Hd.
  { induction d as [|d [IH|IH]]; [right; intros k (?&_); lia|by left|].
    destruct (decide (agree L F (length L - d))) as [Ha|Ha].
    - left. exists (length L - d)%nat. split; [done|]. intros k Hk. specialize (IH k Hk). lia.
    - right. intros k Hk. specialize (IH k Hk).
      destruct (decide (k = length L - d)%nat) as [->|]; [done|lia]. }
  destruct (Hd (S (length L))) as [|Hn]; [done|].
  specialize (Hn 0%nat (agree_0 L F)). lia.
Qed.

(** Beyond the longest agreement the logs have different terms. *)
Lemma agree_max_conflict L F m x y :
  logs_match L F → agree L F m → (∀ k, agree L F k → (k ≤ m)%nat) →
  L !! m = Some x → F !! m = Some y → le_term y ≠ le_term x.
Proof.
  intros Hlm Ha Hmax Hx Hy Heq.
  pose proof (Hlm m x y Hx Hy (eq_sym Heq)) as Ht.
  apply lookup_lt_Some in Hx, Hy.
  assert (agree L F (S m)) as Hs%Hmax by (split_and!; [lia..|done]). lia.
Qed.

(** The merge skips the received entries that are present. *)
Lemma log_merge_skip F pos es fs :
  (∀ k, (k < length es)%nat → F !! (pos + k)%nat = es !! k) →
  log_merge F pos (es ++ fs) = log_merge F (pos + length es) fs.
Proof.
  revert pos. induction es as [|e es IH]; intros pos Hes; simpl; [by rewrite Nat.add_0_r|].
  pose proof (Hes 0%nat ltac:(simpl; lia)) as H0. rewrite Nat.add_0_r in H0. simpl in H0.
  rewrite H0, Z.eqb_refl. rewrite IH.
  - f_equal. lia.
  - intros k Hk. specialize (Hes (S k) ltac:(simpl; lia)). simpl in Hes. rewrite <- Hes.
    f_equal. lia.
Qed.

(** Merging the leader's entries [q .. k - 1] where the logs agree on [q]: the
    follower's log stays if they agree on [k], else becomes the leader's first
    [k] entries. *)
Lemma log_merge_agree L F q k m :
  logs_match L F → agree L F m → (∀ j, agree L F j → (j ≤ m)%nat) →
  (q ≤ m)%nat → (q ≤ k ≤ length L)%nat →
  log_merge F q (take (k - q) (drop q L)) = if decide (k ≤ m)%nat then F else take k L.
Proof.
  intros Hlm Ha Hmax Hq Hk.
  assert (Hpre : ∀ j i, (q + j ≤ m)%nat → (i < length (take j (drop q L)))%nat →
    F !! (q + i)%nat = take j (drop q L) !! i).
  { intros j i Hj Hi. rewrite length_take in Hi.
    rewrite lookup_take_lt, lookup_drop by lia. by apply (agree_lookup _ _ m); [|lia]. }
  destruct (decide (k ≤ m)%nat) as [Hkm|Hkm].
  - rewrite <- (app_nil_r (take _ _)). rewrite log_merge_skip; [done|].
    intros i Hi. apply Hpre; [lia|done].
  - destruct Ha as (HL & HF & Ht).
    assert (Hsplit : take (k - q) (drop q L) = take (m - q) (drop q L) ++ take (k - m) (drop m L)).
    { replace (k - q)%nat with ((m - q) + (k - m))%nat by lia.
      rewrite <- take_take_drop. rewrite drop_drop. by replace (q + (m - q))%nat with m by lia. }
    rewrite Hsplit, log_merge_skip by (intros i Hi; apply Hpre; [lia|done]).
    rewrite length_take, length_drop.
    replace (q + (m - q) `min` (length L - q))%nat with m by lia.
    rewrite log_merge_replace; [|done| |].
    + rewrite Ht. replace k with (m + (k - m))%nat at 2 by lia. by rewrite <- take_take_drop.
    + intros e y He Hy. rewrite lookup_take_lt, lookup_drop, Nat.add_0_r in He by lia.
      apply (agree_max_conflict L F m e y); auto.
      by split_and!.
    + destruct (lookup_lt_is_Some_2 L m) as [x Hx]; [lia|]. rewrite (drop_S _ x) by done.
      by replace (k - m)%nat with (S (k - m - 1)) by lia.
Qed.

Lemma logs_match_take L k : logs_match L (take k L).
Proof.
  intros i x y _ Hy _. apply lookup_take_Some in Hy as [_ Hi]. rewrite take_take.
  f_equal. lia.
Qed.

(** ** A message of the leader and the answer of the follower *)
Section answers.
Context {P : Type} `{RaftPersistenceLaws P} {Q : Type} `{RaftPersistenceOps Q}.
(** The peer, the clock of the follower and the number of entries the leader sends at
    most in one message. *)
Variables (i : nat) (leader_id : list Z) (time : nat → Z) (batch : nat).

(** A leader and a follower that can exchange: logs from index 1 that satisfy
    the Log Matching property, terms from 1, and at most [M] entries. *)
Record paired (M : Z) (l : raft_node Q) (f : raft_node P) : Prop := {
  pr_leader : node_wf l ∧ l.(nd_state) = RAFT_STATE_LEADER ∧ has_peer l i = true;
  pr_term : storable_term l.(current_term) ∧ f.(current_term) ≤ l.(current_term);
  pr_follower : node_wf f ∧ mirrors f;
  pr_base : l.(nd_log).(log_base_index) = 0 ∧ l.(nd_log).(log_base_term) = 0 ∧
            f.(nd_log).(log_base_index) = 0;
  pr_terms : Forall (λ e, 1 ≤ le_term e) f.(nd_log).(log_entries) ∧
             Forall (λ e, 1 ≤ le_term e) l.(nd_log).(log_entries);
  pr_bound : Z.of_nat (log_count l.(nd_log)) ≤ M ∧ Z.of_nat (log_count f.(nd_log)) ≤ M ∧
             M + 700 < UINT32_MAX;
  pr_match : logs_match l.(nd_log).(log_entries) f.(nd_log).(log_entries);
  pr_next : 1 ≤ peer_next l i
}.

(** The follower's check of the previous entry succeeds exactly where the logs
    agree. *)
Lemma prev_matches_agree M l f q pt :
  paired M l f → peer_next l i = Z.of_nat q + 1 →
  pt = (if Z.of_nat q =? 0 then 0
        else match log_get l.(nd_log) (Z.of_nat q) with
             | Some e => le_term e
             | None => l.(nd_log).(log_base_term)
             end) →
  prev_matches f (Z.of_nat q) pt =
    bool_decide (agree l.(nd_log).(log_entries) f.(nd_log).(log_entries) q).
Proof.
  intros [(Hl & _) _ (Hf & _) (Hbl & Htl & Hbf) [Htf _] _ Hlm _] Hq ->.
  unfold prev_matches. destruct q as [|q].
  { symmetry. by apply bool_decide_eq_true_2, agree_0. }
  destruct (Z.gtb_spec (Z.of_nat (S q)) 0); [|lia].
  destruct (Z.eqb_spec (Z.of_nat (S q)) 0); [lia|].
  pose proof (peer_next_u32 l i Hl) as Hu. rewrite Hq in Hu.
  assert (∀ (T : Type) (v : raft_node T), node_wf v → log_base_index (nd_log v) = 0 →
    log_get (nd_log v) (Z.of_nat (S q)) = log_entries (nd_log v) !! q) as Hget.
  { intros T v Hv Hb.
    replace (Z.of_nat (S q)) with (log_base_index (nd_log v) + Z.of_nat q + 1) by lia.
    apply log_get_nat; [apply Hv|]. ulia. }
  rewrite !Hget by done.
  destruct (log_entries (nd_log f) !! q) as [y|] eqn:Hy.
  - destruct (log_entries (nd_log l) !! q) as [x|] eqn:Hx.
    + destruct (Z.eqb_spec (le_term y) (le_term x)) as [He|He]; symmetry.
      * apply bool_decide_eq_true_2. pose proof (Hlm q x y Hx Hy (eq_sym He)).
        apply lookup_lt_Some in Hx, Hy. split_and!; [lia..|done].
      * apply bool_decide_eq_false_2. intros Ha. apply He.
        pose proof (agree_lookup _ _ _ q Ha ltac:(lia)) as Hlk. rewrite Hx, Hy in Hlk.
        by simplify_eq.
    + rewrite Htl. pose proof (Forall_lookup_1 _ _ _ _ Htf Hy) as Hge. simpl in Hge.
      destruct (Z.eqb_spec (le_term y) 0); [lia|]. symmetry. apply bool_decide_eq_false_2.
      intros (Hle & _). apply lookup_ge_None in Hx. lia.
  - symmetry. apply bool_decide_eq_false_2. intros (_ & Hle & _).
    apply lookup_ge_None in Hy. lia.
Qed.

(** What the leader sends when the next index is [q + 1], of its first [k]
    entries. *)
Definition prev_term (l : raft_node Q) (q : nat) : Z :=
  if Z.of_nat q =? 0 then 0
  else match log_get l.(nd_log) (Z.of_nat q) with
       | Some e => le_term e
       | None => l.(nd_log).(log_base_term)
       end.
Definition sent_upto (l : raft_node Q) (q : nat) : nat := ((q + batch) `min` log_count l.(nd_log))%nat.
Definition sent (l : raft_node Q) (q : nat) : list raft_log_entry :=
  take (sent_upto l q - q) (drop q l.(nd_log).(log_entries)).
(** The follower's answer to it. *)
Definition answer (l : raft_node Q) (f : raft_node P) (q : nat) : append_reply * raft_node P :=
  raft_handle_append_entries f leader_id l.(current_term) (Z.of_nat q) (prev_term l q) (sent l q)
    l.(commit_index) time.

Lemma paired_last M l f q :
  paired M l f → peer_next l i = Z.of_nat q + 1 →
  log_last_index l.(nd_log) = Z.of_nat (log_count l.(nd_log)) ∧ is_u32 (Z.of_nat q + 1).
Proof.
  intros [(Hl & _) _ _ (Hbl & _) _ _ _ _] Hq. rewrite log_last_index_wf by apply Hl.
  split; [lia|]. rewrite <- Hq. by apply peer_next_u32.
Qed.

Hypothesis batch_small : (batch ≤ 600)%nat.

(** The message is one the follower accepts where the logs agree. *)
Lemma sent_accepted M l f q :
  paired M l f → peer_next l i = Z.of_nat q + 1 →
  agree l.(nd_log).(log_entries) f.(nd_log).(log_entries) q →
  accepts f l.(current_term) (Z.of_nat q) (prev_term l q) (sent l q) l.(commit_index).
Proof using batch_small.
  intros Hpr Hq Ha. pose proof (prev_matches_agree M l f q (prev_term l q) Hpr Hq eq_refl) as Hpm.
  destruct (paired_last _ _ _ _ Hpr Hq) as [_ Hqu].
  destruct Hpr as [(Hl & Hst & Hp) (Htm & Hle) (Hf & Hmir) (Hbl & Htl & Hbf) _ (HM1 & HM2 & HM3) _ _].
  rewrite bool_decide_eq_true_2 in Hpm by done.
  split; try done; try lia.
  - split; [ulia|]. split; [apply Hl|]. apply Forall_take, Forall_drop.
    apply Forall_lookup_2. intros j e Hj. split.
    + rewrite (log_wf_index _ (wf_log _ Hl) _ _ Hj). apply lookup_lt_Some in Hj.
      unfold log_count, UINT32_MAX in *. ulia.
    + exact (Forall_lookup_1 _ _ _ _ (log_wf_entries _ (wf_log _ Hl)) Hj).
  - unfold log_room, sent, sent_upto. rewrite length_take. unfold log_count in *. lia.
  - intros j e [Hj _]%lookup_take_Some. rewrite lookup_drop in Hj.
    rewrite (log_wf_index _ (wf_log _ Hl) _ _ Hj). lia.
Qed.

(** Its answer: the merged log, and a success reply with its last index. *)
Lemma answer_accepts M l f q m :
  paired M l f → peer_next l i = Z.of_nat q + 1 →
  agree l.(nd_log).(log_entries) f.(nd_log).(log_entries) m →
  (∀ j, agree l.(nd_log).(log_entries) f.(nd_log).(log_entries) j → (j ≤ m)%nat) → (q ≤ m)%nat →
  ∃ f', answer l f q = (AppendReply true f'.(current_term) (Z.of_nat (log_count f'.(nd_log))), f') ∧
    node_wf f' ∧ mirrors f' ∧ f'.(current_term) = l.(current_term) ∧
    f'.(nd_log) = RaftLog
      (if decide (sent_upto l q ≤ m)%nat then f.(nd_log).(log_entries)
       else take (sent_upto l q) l.(nd_log).(log_entries))
      f.(nd_log).(log_base_index) f.(nd_log).(log_base_term).
Proof using batch_small.
  intros Hpr Hq Ha Hmax Hqm.
  assert (Haq : agree (log_entries (nd_log l)) (log_entries (nd_log f)) q) by by eapply agree_le.
  pose proof (sent_accepted _ _ _ _ Hpr Hq Haq) as Hacc. destruct (paired_last _ _ _ _ Hpr Hq) as [_ Hqu].
  destruct Hpr as [(Hl & _) _ (Hf & _) (Hbl & _ & Hbf) _ _ Hlm _].
  pose proof (append_entries_accepted f leader_id _ _ _ _ _ time Hacc) as Hok.
  pose proof (raft_handle_append_entries_wf f leader_id (current_term l) (Z.of_nat q) (prev_term l q)
    (sent l q) (commit_index l) time Hf) as Hw.
  fold (answer l f q) in Hok, Hw. destruct (answer l f q) as [reply f']. simpl in Hw.
  destruct Hok as (Hlog & Hmir' & -> & Hterm & _).
  assert (Hf' : node_wf f').
  { apply Hw. destruct Hacc as [_ _ _ (? & ? & ?) ? _ _ _].
    split_and!; auto; try apply Hl; try ulia. }
  assert (Hpp : prev_pos f (Z.of_nat q) = q) by (unfold prev_pos; lia).
  assert (Hqk : (q ≤ sent_upto l q ≤ length (log_entries (nd_log l)))%nat)
    by (destruct Ha as (? & _); unfold sent_upto, log_count; lia).
  rewrite Hpp in Hlog. unfold sent in Hlog. rewrite (log_merge_agree _ _ q (sent_upto l q) m) in Hlog by done.
  exists f'. split_and!; try done. rewrite Hterm.
  f_equal. f_equal. rewrite log_last_index_wf by apply Hf'. rewrite Hlog. simpl. lia.
Qed.

(** Where they disagree it refuses the message and keeps its log. *)
Lemma answer_refuses M l f q :
  paired M l f → peer_next l i = Z.of_nat q + 1 →
  ¬ agree l.(nd_log).(log_entries) f.(nd_log).(log_entries) q →
  ∃ f', answer l f q = (AppendReply false f'.(current_term) (Z.of_nat (log_count f.(nd_log))), f') ∧
    node_wf f' ∧ mirrors f' ∧ f'.(current_term) = l.(current_term) ∧ f'.(nd_log) = f.(nd_log).
Proof.
  intros Hpr Hq Ha. pose proof (prev_matches_agree M l f q (prev_term l q) Hpr Hq eq_refl) as Hpm.
  destruct Hpr as [_ (Htm & Hle) (Hf & Hmir) (_ & _ & Hbf) _ _ _ _].
  rewrite bool_decide_eq_false_2 in Hpm by done. unfold answer.
  destruct (append_entries_enter f leader_id (current_term l) (Z.of_nat q) (prev_term l q)
    (sent l q) (commit_index l) time Hf (storable_term_u32 _ Htm) Hle)
    as (f' & (Htf' & _ & Hlog & _ & _ & _ & Hwf') & Hmir' & ->).
  unfold append_body. assert (prev_matches f' (Z.of_nat q) (prev_term l q) = false) as ->
    by (unfold prev_matches; by rewrite Hlog).
  exists f'. split_and!; auto. rewrite Htf'. f_equal. f_equal.
  rewrite log_last_index_wf by apply Hwf'. rewrite Hlog. lia.
Qed.

End answers.

(** ** Exchanges between a leader and a follower *)
Section exchange.
Context {P : Type} `{RaftPersistenceLaws P} {Q : Type} `{RaftPersistenceOps Q}.
(** The peer, and the clocks of the two nodes. *)
Variables (i : nat) (leader_id : list Z) (time : nat → Z) (now : Z).

Local Notation paired := (paired i).
Local Notation answer := (answer leader_id time 100).
Local Notation sent_upto := (sent_upto 100).

(** One exchange: the leader's batch, the follower's handler, the leader's
    handler of the response. *)
Definition exchange (s : raft_node Q * raft_node P) : result (raft_node Q * raft_node P) :=
  let '(l, f) := s in
  b ← raft_get_entries_for_peer l i;
  let '(reply, f') :=
    raft_handle_append_entries f leader_id l.(current_term) b.(ab_prev_log_index)
      b.(ab_prev_log_term) b.(ab_entries) l.(commit_index) time in
  let '(err, l') :=
    raft_handle_append_entries_response l i reply.(ae_success) reply.(ae_term)
      reply.(ae_last_log_index) now in
  match err with
  | DISTRIC_OK => Ok (l', f')
  | _ => Err err
  end.

Fixpoint exchanges (k : nat) (s : raft_node Q * raft_node P) : result (raft_node Q * raft_node P) :=
  match k with
  | O => Ok s
  | S k => s ← exchange s; exchanges k s
  end.

Lemma exchanges_S k s s' : exchange s = Ok s' → exchanges (S k) s = exchanges k s'.
Proof. intros He. change (exchanges (S k) s) with (exchange s ≫= exchanges k). by rewrite He. Qed.

Lemma exchanges_app j k s s' : exchanges j s = Ok s' → exchanges (j + k) s = exchanges k s'.
Proof.
  revert s. induction j as [|j IH]; intros s; simpl; [by intros [= ->]|].
  intros (s1 & Hs1 & Hs)%bind_ok. rewrite Hs1. simpl. by apply IH.
Qed.

(** The leader's node after a response of its own term. *)
Lemma response_fields (l : raft_node Q) s last :
  node_wf l → has_peer l i = true → l.(nd_state) = RAFT_STATE_LEADER → is_u32 last →
  let '(err, l') := raft_handle_append_entries_response l i s l.(current_term) last now in
  err = DISTRIC_OK ∧ node_wf l' ∧ l'.(nd_state) = RAFT_STATE_LEADER ∧
  has_peer l' i = true ∧ l'.(current_term) = l.(current_term) ∧ l'.(nd_log) = l.(nd_log) ∧
  peer_next l' i =
    if s then u32 (last + 1)
    else if peer_next l i >? 1 then peer_next l i - 1 else peer_next l i.
Proof.
  intros Hn Hp Hst Hlast.
  pose proof (raft_handle_append_entries_response_wf l i s l.(current_term) last now Hn
    (wf_term _ Hn) Hlast) as Hw.
  assert (Hi : (i < length l.(next_index))%nat).
  { unfold has_peer in Hp. apply Nat.ltb_lt in Hp. by rewrite (proj1 (wf_next _ Hn)). }
  revert Hw. unfold raft_handle_append_entries_response. rewrite Hp. simpl.
  destruct (Z.gtb_spec (current_term l) (current_term l)); [lia|].
  destruct (Z.ltb_spec (current_term l) (current_term l)); [lia|]. simpl.
  set (m := if s then _ else _).
  assert (Hm : node_wf m ∧ m.(nd_state) = l.(nd_state) ∧ m.(nd_config) = l.(nd_config) ∧
    m.(current_term) = l.(current_term) ∧ m.(nd_log) = l.(nd_log) ∧
    peer_next m i =
      if s then u32 (last + 1)
      else if peer_next l i >? 1 then peer_next l i - 1 else peer_next l i).
  { subst m. destruct s.
    - split.
      + apply (set_match_wf (set_next_index _ l)); [|done]. apply set_next_wf; auto with distric.
      + split_and!; try done. unfold peer_next. simpl.
        apply nth_lookup_Some. by apply list_lookup_insert_eq.
    - split; [by apply decrement_next_wf|]. unfold decrement_next.
      destruct (peer_next l i >? 1); split_and!; try done.
      unfold peer_next. simpl. apply nth_lookup_Some. by apply list_lookup_insert_eq. }
  clearbody m. destruct Hm as (Hwm & Hsm & Hcm & Htm & Hlm & Hpm).
  destruct (update_commit_index_eq m (wf_log _ Hwm) (wf_commit _ Hwm)) as (c & -> & _).
  intros Hw. unfold has_peer in *. simpl in *. rewrite Hcm, Hsm.
  change (peer_next (set_commit_index c m) i) with (peer_next m i). by split_and!.
Qed.

Lemma exchange_answer M l f q :
  paired M l f → peer_next l i = Z.of_nat q + 1 →
  exchange (l, f) =
    let '(reply, f') := answer l f q in
    let '(err, l') :=
      raft_handle_append_entries_response l i reply.(ae_success) reply.(ae_term)
        reply.(ae_last_log_index) now in
    match err with DISTRIC_OK => Ok (l', f') | _ => Err err end.
Proof.
  intros Hpr Hq. destruct (paired_last i _ _ _ _ Hpr Hq) as [Hlast _].
  destruct Hpr as [(Hl & _ & Hp) _ _ (Hbl & _) _ (HM1 & _ & HM3) _ _].
  unfold exchange. rewrite get_entries_for_peer_eq by (done || lia). simpl.
  rewrite Hq. replace (Z.of_nat q + 1 - 1) with (Z.of_nat q) by lia.
  fold (prev_term l q). unfold answer.
  assert (log_slice (nd_log l) (Z.of_nat q + 1) (batch_len l (Z.of_nat q + 1)) = sent 100 l q) as ->; [|done].
  unfold log_slice, batch_len, sent, sent_upto. rewrite Hlast, Hbl. f_equal; [lia|f_equal; lia].
Qed.

(** One exchange backs up by one where the logs disagree, and else leaves the
    follower with a log of which the leader's first entries, up to the last one
    sent, are the start (where they agreed on them before) or the whole. *)
Lemma exchange_step M l f q m :
  paired M l f → peer_next l i = Z.of_nat q + 1 →
  agree l.(nd_log).(log_entries) f.(nd_log).(log_entries) m →
  (∀ j, agree l.(nd_log).(log_entries) f.(nd_log).(log_entries) j → (j ≤ m)%nat) →
  let k := ((q + 100) `min` log_count l.(nd_log))%nat in
  ∃ l' f', exchange (l, f) = Ok (l', f') ∧ paired M l' f' ∧ l'.(nd_log) = l.(nd_log) ∧
    (if decide (q ≤ m)%nat
     then
       f'.(nd_log).(log_entries) =
         (if decide (k ≤ m)%nat then f.(nd_log).(log_entries) else take k l.(nd_log).(log_entries)) ∧
       peer_next l' i = Z.of_nat (log_count f'.(nd_log)) + 1
     else f'.(nd_log) = f.(nd_log) ∧ peer_next l' i = Z.of_nat q).
Proof.
  intros Hpr Hq Ha Hmax k. fold (sent_upto l q) in k. rewrite (exchange_answer _ _ _ _ Hpr Hq).
  destruct (paired_last i _ _ _ _ Hpr Hq) as [_ Hqu].
  destruct (decide (q ≤ m)%nat) as [Hqm|Hqm];
    [destruct (answer_accepts i leader_id time 100 ltac:(lia) _ _ _ _ _ Hpr Hq Ha Hmax Hqm) as (f' & -> & Hf' & Hmir' & Hterm & Hlog)
    |destruct (answer_refuses i leader_id time 100 ltac:(lia) _ _ _ _ Hpr Hq ltac:(intros ?%Hmax; lia))
      as (f' & -> & Hf' & Hmir' & Hterm & Hlog)];
    destruct Hpr as [(Hl & Hst & Hp) (Htm & Hle) _ (Hbl & Htl & Hbf) [Htf Htl'] (HM1 & HM2 & HM3) Hlm Hnx];
    cbn [ae_success ae_term ae_last_log_index]; rewrite Hterm.
  - assert (Hlf' : Z.of_nat (log_count (nd_log f')) ≤ M).
    { rewrite Hlog. unfold log_count in *. simpl. destruct (decide _); [done|].
      rewrite length_take. lia. }
    pose proof (response_fields l true (Z.of_nat (log_count (nd_log f'))) Hl Hp Hst) as Hresp.
    destruct (raft_handle_append_entries_response _ _ _ _ _ _) as [err l'].
    destruct Hresp as (-> & Hl' & Hst' & Hp' & Ht' & Hlog' & Hnext);
      [unfold UINT32_MAX in *; ulia|].
    rewrite u32_id in Hnext by (unfold UINT32_MAX in *; ulia).
    exists l', f'. split; [done|]. split; [|split; [done|split; [by rewrite Hlog|done]]].
    split; rewrite ?Hlog', ?Ht'; try done; try lia.
    + split; [done|lia].
    + split_and!; [done..|]. rewrite Hlog. done.
    + split; [|done]. rewrite Hlog. simpl. destruct (decide _); [done|]. by apply Forall_take.
    + rewrite Hlog. simpl. destruct (decide _); [done|]. apply logs_match_take.
  - pose proof (response_fields l false (Z.of_nat (log_count (nd_log f))) Hl Hp Hst) as Hresp.
    destruct (raft_handle_append_entries_response _ _ _ _ _ _) as [err l'].
    destruct Hresp as (-> & Hl' & Hst' & Hp' & Ht' & Hlog' & Hnext);
      [unfold UINT32_MAX in *; ulia|].
    assert (Hnext' : peer_next l' i = Z.of_nat q).
    { rewrite Hnext, Hq. destruct (Z.gtb_spec (Z.of_nat q + 1) 1); lia. }
    exists l', f'. split; [done|]. split; [|done].
    split; rewrite ?Hlog', ?Ht', ?Hlog; try done; try lia; by split; [|lia].
Qed.

(** [m] is the length of the longest agreement of the two logs. *)
Definition agreement (l : raft_node Q) (f : raft_node P) (m : nat) : Prop :=
  agree l.(nd_log).(log_entries) f.(nd_log).(log_entries) m ∧
  ∀ j, agree l.(nd_log).(log_entries) f.(nd_log).(log_entries) j → (j ≤ m)%nat.

Lemma paired_next M (l : raft_node Q) (f : raft_node P) : paired M l f → ∃ q, peer_next l i = Z.of_nat q + 1.
Proof. intros Hpr. exists (Z.to_nat (peer_next l i - 1)). pose proof (pr_next _ _ _ _ Hpr). lia. Qed.

(** Beyond the agreement, next_index backs up to just after it. *)
Lemma exchanges_back_up M l f m d :
  paired M l f → agreement l f m → peer_next l i = Z.of_nat (m + d) + 1 →
  ∃ l' f', exchanges d (l, f) = Ok (l', f') ∧ paired M l' f' ∧
    l'.(nd_log) = l.(nd_log) ∧ f'.(nd_log) = f.(nd_log) ∧ peer_next l' i = Z.of_nat m + 1.
Proof.
  revert l f. induction d as [|d IH]; intros l f Hpr [Ha Hmax] Hq.
  { exists l, f. rewrite Nat.add_0_r in Hq. done. }
  destruct (exchange_step M l f _ m Hpr Hq Ha Hmax) as (l1 & f1 & He1 & Hpr1 & Hl1 & Hstep).
  rewrite decide_False in Hstep by lia. destruct Hstep as [Hf1 Hn1].
  rewrite (exchanges_S _ _ _ He1).
  destruct (IH l1 f1 Hpr1) as (l' & f' & He & Hpr' & Hl' & Hf' & Hn').
  { unfold agreement. by rewrite Hl1, Hf1. }
  { rewrite Hn1. lia. }
  exists l', f'. split; [done|]. split; [done|]. by rewrite Hl', Hf', Hl1, Hf1.
Qed.

Lemma agreement_take (l : raft_node Q) (f : raft_node P) k :
  (k ≤ log_count l.(nd_log))%nat →
  f.(nd_log).(log_entries) = take k l.(nd_log).(log_entries) → agreement l f k.
Proof.
  intros Hk Hf. unfold agreement, agree, log_count in *. rewrite Hf, length_take.
  split; [split_and!; [lia..|]|intros j (? & ? & _); lia].
  rewrite take_take. by rewrite Nat.min_id.
Qed.

(** From just after the agreement one exchange extends it. *)
Lemma exchange_extends M l f m :
  paired M l f → agreement l f m → (m < log_count l.(nd_log))%nat →
  peer_next l i = Z.of_nat m + 1 →
  ∃ l' f' m', exchange (l, f) = Ok (l', f') ∧ paired M l' f' ∧ l'.(nd_log) = l.(nd_log) ∧
    agreement l' f' m' ∧ (m < m')%nat.
Proof.
  intros Hpr [Ha Hmax] Hm Hq.
  destruct (exchange_step M l f m m Hpr Hq Ha Hmax) as (l' & f' & He & Hpr' & Hl' & Hstep).
  rewrite decide_True in Hstep by lia. destruct Hstep as [Hf' _].
  rewrite decide_False in Hf' by lia.
  exists l', f', ((m + 100) `min` log_count (nd_log l))%nat.
  split_and!; [done..| |lia]. apply agreement_take; rewrite ?Hl'; [lia|done].
Qed.

(** Some exchanges extend the agreement, wherever next_index is. *)
Lemma exchanges_extend M l f m :
  paired M l f → agreement l f m → (m < log_count l.(nd_log))%nat →
  ∃ k l' f' m', exchanges k (l, f) = Ok (l', f') ∧ paired M l' f' ∧ l'.(nd_log) = l.(nd_log) ∧
    agreement l' f' m' ∧ (m < m')%nat.
Proof.
  intros Hpr Ha Hm.
  (* once next_index is beyond the agreement *)
  assert (Hbeyond : ∀ l1 f1 d, paired M l1 f1 → agreement l1 f1 m → l1.(nd_log) = l.(nd_log) →
    peer_next l1 i = Z.of_nat (m + d) + 1 →
    ∃ k l' f' m', exchanges k (l1, f1) = Ok (l', f') ∧ paired M l' f' ∧
      l'.(nd_log) = l.(nd_log) ∧ agreement l' f' m' ∧ (m < m')%nat).
  { intros l1 f1 d Hpr1 Ha1 Hl1 Hq1.
    destruct (exchanges_back_up M l1 f1 m d Hpr1 Ha1 Hq1) as (l2 & f2 & He2 & Hpr2 & Hl2 & Hf2 & Hq2).
    destruct (exchange_extends M l2 f2 m Hpr2) as (l3 & f3 & m' & He3 & Hpr3 & Hl3 & Ha3 & Hm3).
    { unfold agreement. by rewrite Hl2, Hf2. }
    { by rewrite Hl2, Hl1. }
    { done. }
    exists (d + 1)%nat, l3, f3, m'. rewrite (exchanges_app _ _ _ _ He2), (exchanges_S _ _ _ He3).
    split_and!; [done..| |done|done]. by rewrite Hl3, Hl2, Hl1. }
  destruct (paired_next M l f Hpr) as [q Hq].
  destruct (decide (q < m)%nat) as [Hlt|Hge].
  - destruct Ha as [Ha Hmax].
    destruct (exchange_step M l f q m Hpr Hq Ha Hmax) as (l1 & f1 & He1 & Hpr1 & Hl1 & Hstep).
    rewrite decide_True in Hstep by lia. destruct Hstep as [Hf1 Hq1].
    destruct (decide _) as [Hk|Hk] in Hf1.
    + destruct (Hbeyond l1 f1 (log_count (nd_log f1) - m)%nat Hpr1) as (k & l' & f' & m' & He & Hrest).
      { unfold agreement. by rewrite Hl1, Hf1. }
      { done. }
      { rewrite Hq1. destruct Ha as (_ & Hle & _). rewrite <- Hf1 in Hle.
        unfold log_count in *. lia. }
      exists (S k), l', f', m'. by rewrite (exchanges_S _ _ _ He1).
    + exists 1%nat, l1, f1, ((q + 100) `min` log_count (nd_log l))%nat. rewrite (exchanges_S _ _ _ He1).
      split_and!; [done..| |lia]. apply agreement_take; rewrite ?Hl1; [lia|done].
  - apply (Hbeyond l f (q - m)%nat); [done..|]. rewrite Hq. lia.
Qed.

Lemma exchanges_converge M l f :
  paired M l f →
  ∃ k l' f', exchanges k (l, f) = Ok (l', f') ∧ paired M l' f' ∧ l'.(nd_log) = l.(nd_log) ∧
    take (log_count l.(nd_log)) f'.(nd_log).(log_entries) = l.(nd_log).(log_entries).
Proof.
  intros Hpr. destruct (agree_max_exists (log_entries (nd_log l)) (log_entries (nd_log f))) as [m Ha].
  remember (log_count (nd_log l) - m)%nat as d eqn:Hd. revert l f m Hpr Ha Hd.
  induction d as [d IH] using lt_wf_ind. intros l f m Hpr Ha Hd.
  destruct (decide (m < log_count (nd_log l))%nat) as [Hm|Hm].
  - destruct (exchanges_extend M l f m Hpr Ha Hm) as (k & l1 & f1 & m1 & He & Hpr1 & Hl1 & Ha1 & Hm1).
    destruct (IH (log_count (nd_log l1) - m1)%nat) with (l := l1) (f := f1) (m := m1)
      as (k' & l' & f' & He' & Hpr' & Hl' & Ht'); [rewrite Hl1; lia|done..|].
    exists (k + k')%nat, l', f'. rewrite (exchanges_app _ _ _ _ He). rewrite Hl1 in *. done.
  - exists 0%nat, l, f. split; [done|]. split; [done|]. split; [done|].
    destruct Ha as [Ha _]. apply (agree_le _ _ _ (log_count (nd_log l))) in Ha; [|lia].
    destruct Ha as (_ & _ & ->). apply take_ge. unfold log_count. lia.
Qed.

(** C2: replication converges: a leader and a follower of the same or an older
    term, whose logs satisfy the Log Matching property, that exchange batches
    and responses through the replication API reach, after finitely many
    exchanges and whatever the next_index they start from, a state in which the
    follower's log starts with the whole log of the leader, in memory and on
    disk; the leader's log never changes on the way. *)
Theorem replication_converges M l f :
  paired M l f →
  ∃ k l' f', exchanges k (l, f) = Ok (l', f') ∧ l'.(nd_log) = l.(nd_log) ∧
    take (log_count l.(nd_log)) f'.(nd_log).(log_entries) = l.(nd_log).(log_entries) ∧
    mirrors f'.
Proof.
  intros Hpr. destruct (exchanges_converge M l f Hpr) as (k & l' & f' & He & Hpr' & Hl & Ht).
  exists k, l', f'. split_and!; [done..|]. apply (pr_follower _ _ _ _ Hpr').
Qed.
End exchange.

(** ** Concrete exchanges *)

Lemma example_paired :
  paired 0 1000 (leader_with 3 [1; 2; 3] 0 4) (follower_with 2 [1; 1; 1; 1]).
Proof.
  split.
  - split; [|done]. apply leader_with_wf; try done; forall_done.
  - done.
  - split; [|done]. apply follower_with_wf; try done; forall_done.
  - done.
  - split; forall_done.
  - done.
  - intros [|[|[|k]]] x y Hx Hy Ht; simpl in *; simplify_eq; done.
  - done.
Qed.

Lemma replication_converges_witness :
  ∃ k l' f',
    exchanges 0 [49] (λ _, 0) 0 k (leader_with 3 [1; 2; 3] 0 4, follower_with 2 [1; 1; 1; 1]) =
      Ok (l', f') ∧
    log_entries (nd_log l') = log_entries (example_log [1; 2; 3]) ∧
    take 3 (log_entries (nd_log f')) = log_entries (example_log [1; 2; 3]).
Proof.
  destruct (replication_converges 0 [49] (λ _, 0) 0 1000 _ _ example_paired)
    as (k & l' & f' & He & Hl & Ht & _).
  exists k, l', f'. split; [exact He|]. split; [by rewrite Hl|exact Ht].
Defined.

Lemma get_entries_for_peer_spec_witness :
  peer_next (leader_with 3 [1; 2; 3] 0 2) 0 = 2 ∧
  ∃ b, raft_get_entries_for_peer (leader_with 3 [1; 2; 3] 0 2) 0 = Ok b ∧
    ab_prev_log_index b = 1 ∧ numbered 1 (ab_entries b).
Proof.
  split; [reflexivity|].
  destruct (get_entries_for_peer_spec (leader_with 3 [1; 2; 3] 0 2) 0) as (b & Hb & Hi & _ & Hn & _).
  - apply leader_with_wf; try done; forall_done.
  - reflexivity.
  - reflexivity.
  - reflexivity.
  - exists b. split; [exact Hb|]. rewrite Hi in Hn. split; [exact Hi|exact Hn].
Defined.

(** A leader of term 3 with 101 entries of term 1 and one of its own, that backs
    up to index 1 for a follower with two stale entries of term 2 at 102 and
    103. *)
Definition lagging_leader : raft_node mem_store :=
  leader_with 3 (replicate 101 1 ++ [3]) 0 1.
Definition stale_follower : raft_node mem_store :=
  follower_with 2 (replicate 101 1 ++ [2; 2]).

Definition term_at (n : raft_node mem_store) (i : Z) : option Z :=
  le_term <$> log_get n.(nd_log) i.

(** What the two nodes hold after an exchange: the leader's match_index and
    commit index, the term each has at index 102, the follower's commit index,
    and the terms of what it applies. *)
Definition outcome (r : result (raft_node mem_store * raft_node mem_store)) :=
  match r with
  | Ok (l, f) =>
      Some (peer_match l 0, commit_index l, term_at l 102, term_at f 102, commit_index f,
            le_term <$> drop 101 (applied (apply_committed_entries f)))
  | _ => None
  end.

(** A success response over-counts: the handler answers with its last log
    index and not with the index of the last entry it checked, so after a batch
    of 100 matching entries the leader takes match_index 103 for a follower
    whose entries 102 and 103 are stale (term 2), and commits its entry 102 of
    term 3, that no other node holds. *)
Theorem success_reply_overcounts :
  outcome (exchange 0 [49] (λ _, 0) 0 (lagging_leader, stale_follower)) =
    Some (103, 102, Some 3, Some 2, 0, []).
Proof. vm_compute. reflexivity. Qed.

(** A follower commits stale entries: it takes min (leader_commit, its last
    log index) and not the index of the last entry received, so the batch of the
    entries 1 to 100 with leader_commit 102 makes it commit, and apply, its
    stale entry 102 of term 2 where the leader committed one of term 3. *)
Theorem stale_tail_committed :
  outcome (exchange 0 [49] (λ _, 0) 0 (set_commit_index 102 lagging_leader, stale_follower)) =
    Some (103, 102, Some 3, Some 2, 102, [2]).
Proof. vm_compute. reflexivity. Qed.
