(* ===== verification/RaftDurability.v ===== *)
(** * Durability, recovery and snapshots

    With a store that keeps its promises, the term, the vote and the log on
    disk are the ones in memory after every event, so [raft_create] rebuilds a
    crashed node.  The last section states what the snapshot entry points do to
    the log. *)

From Stdlib Require Import ZArith Lia.
From stdpp Require Import base list numbers option relations.
From S2P Require Import Prelude RaftLog RaftCore RaftInvariant RaftExamples RaftReplication.

Local Open Scope Z_scope.

Section durability.
Context {P : Type} `{RaftPersistenceLaws P}.
Notation node := (raft_node P).
Implicit Types n : node.

(** What a reader of the state file takes for the term and the vote. *)
Definition stored_term_vote (p : P) : Z * list Z := default (0, []) (stored_state p).

(** The node's persistent state is on disk. *)
Definition durable n : Prop :=
  ∃ p, n.(persistence) = Some p ∧ reliable p ∧
    stored_log p = n.(nd_log).(log_entries) ∧
    stored_term_vote p = (n.(current_term), n.(voted_for)).

(** Events with the terms and the identifiers the state file can hold. *)
Definition event_storable (n : node) (ev : raft_event) : Prop :=
  storable_id n.(nd_config).(cfg_node_id) ∧
  match ev with
  | EvTick _ _ => current_term n + 1 < 2 ^ 31
  | EvRequestVote c t _ _ _ => storable_id c ∧ storable_term t
  | EvAppendEntries _ t pi pt es _ _ =>
      storable_term t ∧ (prev_matches n pi pt = true → numbered pi es ∧ n.(nd_log).(log_base_index) ≤ pi)
  | EvResponse _ _ t _ _ => storable_term t
  | EvStepDown t _ => storable_term t
  | _ => True
  end.

Lemma durable_mirrors n : durable n → mirrors n.
Proof. intros (p & Hp & Hr & Hl & _). unfold mirrors. rewrite Hp. by split. Qed.

(** Durability depends on four fields only. *)
Lemma durable_same n n' :
  durable n → n'.(persistence) = n.(persistence) → n'.(nd_log) = n.(nd_log) →
  n'.(current_term) = n.(current_term) → n'.(voted_for) = n.(voted_for) → durable n'.
Proof. unfold durable. by intros Hd -> -> -> ->. Qed.

(** A saved state is durable. *)
Lemma durable_saved n n' :
  mirrors n → is_Some n.(persistence) →
  storable_term n'.(current_term) → storable_id n'.(voted_for) →
  n'.(persistence) = save_opt n.(persistence) n'.(current_term) n'.(voted_for) →
  n'.(nd_log) = n.(nd_log) → durable n'.
Proof.
  intros Hm [p Hp] Ht Hv Hs Hl. unfold mirrors in Hm. rewrite Hp in *. destruct Hm as [Hr Hsl].
  destruct (save_state_reliable p _ _ Hr Ht Hv) as (p' & He & Hr' & Hst & Hl').
  exists p'. simpl in Hs. rewrite He in Hs. split_and!; [done..| |].
  - by rewrite Hl', Hsl, Hl.
  - unfold stored_term_vote. by rewrite Hst.
Qed.

Lemma durable_is_Some n : durable n → is_Some n.(persistence).
Proof. intros (p & -> & _). eauto. Qed.

(** A log written through is durable. *)
Lemma durable_relogged n l m : durable n → relogged n l m → durable m.
Proof.
  intros (p & Hp & Hr & Hl & Hs) (p' & -> & Hm & Hst).
  rewrite Hp in Hst. unfold stored_state_opt in Hst. simpl in Hst.
  destruct p' as [p'|]; [|done]. simpl in Hst. injection Hst as Hst.
  destruct Hm as [Hr' Hl']. exists p'. split_and!; [done..|].
  unfold stored_term_vote. rewrite Hst. exact Hs.
Qed.

Lemma storable_id_63 s : storable_id s → str63 s = s.
Proof. intros (_ & Hl & _). by apply str63_id. Qed.

(** ** The transitions are durable *)

Lemma transition_to_follower_durable n t now :
  durable n → storable_term t → durable (transition_to_follower n t now).
Proof.
  intros Hd Ht. pose proof (durable_mirrors _ Hd). pose proof (durable_is_Some _ Hd).
  destruct (transition_to_follower_eq n t now) as [sc ->].
  by apply (durable_saved n); [..|apply storable_nil| |].
Qed.

Lemma transition_to_candidate_durable n n' now rand :
  durable n → storable_id n.(nd_config).(cfg_node_id) → is_u32 n.(current_term) →
  current_term n + 1 < 2 ^ 31 → transition_to_candidate n now rand = Ok n' → durable n'.
Proof.
  intros Hd Hid Hu Ht Hn'.
  destruct (transition_to_candidate_fields _ _ _ _ Hn') as (_ & Htm & Hv & Hl & _ & Hp).
  rewrite storable_id_63 in Hv, Hp by done. rewrite u32_id in Htm, Hp by ulia.
  apply (durable_saved n); [by apply durable_mirrors|by apply durable_is_Some| | | |done].
  - rewrite Htm. unfold storable_term. ulia.
  - by rewrite Hv.
  - by rewrite Hp, Htm, Hv.
Qed.

Lemma node_log_append_durable n t ty d :
  durable n → log_wf n.(nd_log) → log_room n.(nd_log) 1 → entry_ok (LogEntry 0 t ty d) →
  durable (node_log_append n t ty d).2.
Proof.
  intros Hd Hwf Hr He. eapply durable_relogged; [done|].
  apply relogged_append; [done..|by apply durable_mirrors].
Qed.

Lemma transition_to_leader_durable n now :
  durable n → node_wf n → log_room n.(nd_log) 1 → durable (transition_to_leader n now).
Proof.
  intros Hd Hn Hr. destruct (transition_to_leader_eq n now) as [sc ->].
  assert (Hl : durable (node_log_append (leader_init n) n.(current_term) RAFT_ENTRY_NOOP []).2).
  { apply node_log_append_durable; [by apply (durable_same n)|apply Hn|done|apply noop_ok, Hn]. }
  set (m := (node_log_append _ _ _ _).2) in *. clearbody m. by apply (durable_same m).
Qed.

Lemma apply_committed_entries_durable n : durable n → durable (apply_committed_entries n).
Proof.
  intros Hd. unfold apply_committed_entries. case_match; [|done].
  destruct (apply_loop_eq (Z.to_nat (commit_index n - last_applied n)) (commit_index n) n)
    as (la & ap & -> & _). by apply (durable_same n).
Qed.

Lemma update_commit_index_durable n : durable n → durable (update_commit_index n).
Proof. intros Hd. unfold update_commit_index. repeat case_match; try done; by apply (durable_same n). Qed.

Lemma start_election_durable n n' time rand :
  durable n → node_wf n → log_room n.(nd_log) 1 → storable_id n.(nd_config).(cfg_node_id) →
  current_term n + 1 < 2 ^ 31 → start_election n time rand = Ok n' → durable n'.
Proof.
  unfold start_election. intros Hd Hn Hr Hid Ht (m & Hm & Hn')%bind_ok.
  pose proof (transition_to_candidate_wf _ _ _ _ Hn Hm) as Hwm.
  pose proof (transition_to_candidate_durable _ _ _ _ Hd Hid (wf_term _ Hn) Ht Hm) as Hdm.
  apply transition_to_candidate_fields in Hm as (_ & _ & _ & Hl & _).
  revert Hn'. case_match; intros [= <-]; [|done].
  apply transition_to_leader_durable; [done..|by rewrite Hl].
Qed.

Lemma raft_tick_durable n n' time rand :
  durable n → node_wf n → event_ok n (EvTick time rand) → event_storable n (EvTick time rand) →
  raft_tick n time rand = Ok n' → durable n'.
Proof.
  intros Hd Hn Hr [Hid Ht]. simpl in Hr, Ht. unfold raft_tick. case_match; [done|].
  assert (∀ b, (if b : bool then start_election n time rand else Ok n) ≫=
      (λ n, Ok (apply_committed_entries n)) = Ok n' → durable n').
  { intros b (m & Hm & [= <-])%bind_ok. apply apply_committed_entries_durable.
    destruct b; [by eapply start_election_durable|by simplify_eq]. }
  case_match; [eauto..|]. intros [= <-].
  by apply update_commit_index_durable, apply_committed_entries_durable.
Qed.

(** ** The handlers are durable *)

Lemma raft_handle_request_vote_durable n c t i lt time :
  durable n → storable_id c → storable_term t →
  durable (raft_handle_request_vote n c t i lt time).2.
Proof.
  intros Hd Hc Ht. unfold raft_handle_request_vote.
  set (m := if t >? current_term n then _ else n).
  assert (Hm : durable m ∧ t ≤ current_term m).
  { subst m. destruct (Z.gtb_spec t (current_term n)); [|done].
    split; [by apply transition_to_follower_durable|]. by rewrite transition_to_follower_term. }
  clearbody m. destruct Hm as [Hm Hle].
  destruct (Z.ltb_spec t (current_term m)) as [|Hge]; [done|].
  assert (current_term m = t) as Heq by lia.
  case_match; [done|]. case_match; [|done]. simpl.
  rewrite persist_state_eq. simpl. rewrite storable_id_63 by done.
  apply (durable_saved m); simpl; [by apply durable_mirrors|by apply durable_is_Some| |done..].
  by rewrite Heq.
Qed.

Lemma append_body_durable m pi pt es lc :
  durable m → node_wf m → is_u32 pi → Forall msg_entry_ok es → log_room m.(nd_log) (length es) →
  (prev_matches m pi pt = true → numbered pi es ∧ m.(nd_log).(log_base_index) ≤ pi) →
  durable (append_body m pi pt es lc).2.
Proof.
  intros Hd Hn Hpi Hes Hr Hnum. unfold append_body.
  destruct (prev_matches m pi pt) eqn:Hprev; [|done]. destruct Hnum as [Hnum Hb]; [done|]. simpl.
  pose proof (prev_pos_le m pi pt Hn Hpi Hb Hprev) as Hpos.
  pose proof (append_turns_relogged es m (prev_pos m pi) Hn Hr (durable_mirrors _ Hd) Hes Hpos) as Hrel.
  set (m' := foldl append_turn m es) in *. clearbody m'.
  apply (durable_same m'); [|done..]. eapply durable_relogged; [done|]. apply Hrel.
  unfold prev_pos. by replace (_ + _) with pi by lia.
Qed.

Lemma raft_handle_append_entries_durable n l t pi pt es lc time :
  durable n → node_wf n → event_ok n (EvAppendEntries l t pi pt es lc time) →
  event_storable n (EvAppendEntries l t pi pt es lc time) →
  durable (raft_handle_append_entries n l t pi pt es lc time).2.
Proof.
  intros Hd Hn (Ht & Hpi & Hes & Hlc & Hr) [_ [Hst Hnum]].
  destruct (Z.ltb_spec t (current_term n)) as [Hlt|Hle].
  { unfold raft_handle_append_entries.
    destruct (Z.gtb_spec t (current_term n)); [lia|].
    by destruct (Z.ltb_spec t (current_term n)); [|lia]. }
  destruct (append_entries_enter_inv durable n l t pi pt es lc time Hn Ht Hle Hd)
    as (m & (_ & _ & Hl & _ & _ & _ & Hw) & Hdm & ->).
  - intros m now Hm. by apply transition_to_follower_durable.
  - intros m now ld Hm. by apply (durable_same m).
  - apply append_body_durable; unfold prev_matches in *; rewrite ?Hl; done.
Qed.

Lemma raft_step_down_durable n t now :
  durable n → storable_term t → durable (raft_step_down n t now).
Proof. intros. unfold raft_step_down. case_match; [by apply transition_to_follower_durable|done]. Qed.

Lemma raft_handle_append_entries_response_durable n i s t m now :
  durable n → storable_term t → durable (raft_handle_append_entries_response n i s t m now).2.
Proof.
  intros Hd Ht. unfold raft_handle_append_entries_response.
  case_match; [done|]. case_match; [by apply raft_step_down_durable|]. case_match; [done|].
  apply update_commit_index_durable. case_match; [by apply (durable_same n)|].
  unfold decrement_next. case_match; [by apply (durable_same n)|done].
Qed.

Lemma raft_append_entry_durable n d :
  durable n → node_wf n → event_ok n (EvAppendEntry d) → durable (raft_append_entry n d).2.
Proof.
  intros Hd Hn (Hb & Hlen & Hr). unfold raft_append_entry.
  assert (Hw : durable (node_log_append n n.(current_term) RAFT_ENTRY_COMMAND d).2).
  { apply node_log_append_durable; [done|apply Hn|done|].
    split; [apply Hn|]. split; [unfold RAFT_ENTRY_COMMAND; simpl; ulia|done]. }
  case_match; [done..|]. destruct (node_log_append _ _ _ _) as [err m]. by destruct err.
Qed.

Lemma handle_durable n ev n' :
  durable n → node_wf n → event_ok n ev → event_storable n ev → handle n ev = Ok n' → durable n'.
Proof.
  intros Hd Hn Hev Hst. destruct ev; simpl; intros Hn'; simplify_eq.
  - by apply (durable_same n).
  - by apply (durable_same n).
  - revert Hn'. case_match eqn:Ht; intros [= <-]; [|done]. by eapply raft_tick_durable.
  - destruct Hst as [_ [??]]. by apply raft_handle_request_vote_durable.
  - by apply raft_handle_append_entries_durable.
  - by apply raft_append_entry_durable.
  - destruct Hst as [_ ?]. by apply raft_handle_append_entries_response_durable.
  - unfold raft_update_peer_indices. case_match; [done|]. by apply (durable_same n).
  - unfold raft_decrement_peer_next_index, decrement_next. by repeat case_match.
  - unfold raft_handle_log_conflict. case_match; [done|]. by apply (durable_same n).
  - unfold raft_process_election_result. repeat case_match; try done.
    by apply transition_to_leader_durable.
  - destruct Hst as [_ ?]. by apply raft_step_down_durable.
  - by apply (durable_same n).
Qed.

(** ** Recovery *)

Lemma restore_entries_log (es : list raft_log_entry) :
  ∀ log, log_wf log → log_room log (length es) → Forall entry_ok es →
  numbered (log.(log_base_index) + Z.of_nat (log_count log)) es →
  foldl (restore_entry (P:=P)) log es = with_entries log (log.(log_entries) ++ es).
Proof.
  induction es as [|e es IH]; intros log Hwf Hr Hok Hnum; simpl.
  { unfold with_entries. rewrite app_nil_r. by destruct log. }
  apply Forall_cons_iff in Hok as [He Hok]. apply numbered_cons in Hnum as [Hi Hnum].
  assert (Hre : restore_entry (P:=P) log e = log_snoc log e).
  { unfold restore_entry, log_append. rewrite next_entry_u32 by done. simpl.
    unfold next_entry. rewrite <- Hi. by destruct e. }
  rewrite Hre, IH; simpl.
  - unfold with_entries. simpl. by rewrite <- app_assoc.
  - apply log_wf_snoc; [done| |done|done]. unfold log_room in *. simpl in *. lia.
  - unfold log_room, log_count in *. simpl in *. rewrite length_app. simpl. lia.
  - done.
  - unfold log_count in *. simpl. rewrite length_app. simpl.
    replace (log_base_index log + Z.of_nat (length (log_entries log) + 1)) with
      (log_base_index log + Z.of_nat (length (log_entries log)) + 1) by lia. done.
Qed.

(** The steps of a durable node. *)
Definition durable_step n n' : Prop :=
  ∃ ev, event_ok n ev ∧ event_storable n ev ∧ handle n ev = Ok n'.

Lemma durable_steps n n' :
  rtc durable_step n n' → node_wf n → durable n → node_wf n' ∧ durable n'.
Proof.
  induction 1 as [n|n m n' (ev & Hok & Hst & Hh) _ IH]; intros Hn Hd; [done|].
  apply IH; [by eapply handle_wf|by eapply handle_durable].
Qed.

(** Creating a node over a store rebuilds the state the store holds. *)
Lemma raft_create_restores p dir config time rand t v (log : raft_log) :
  reliable p → stored_term_vote p = (t, v) → stored_log p = log.(log_entries) →
  (length v ≤ 63)%nat → log_wf log → log.(log_base_index) = 0 →
  config.(cfg_persistence_data_dir) = Some dir →
  u32 (config.(cfg_election_timeout_max_ms) - config.(cfg_election_timeout_min_ms)) ≠ 0 →
  ∃ m : node, raft_create (λ _, Ok p) config time rand = Ok m ∧
    m.(current_term) = t ∧ m.(voted_for) = v ∧
    m.(nd_log).(log_entries) = log.(log_entries) ∧
    m.(nd_state) = RAFT_STATE_FOLLOWER ∧ durable m.
Proof.
  intros Hr Hst Hl Hv Hwf Hb Hdir Hrange. unfold raft_create, random_election_timeout.
  destruct (Z.eqb_spec (u32 (cfg_election_timeout_max_ms config - cfg_election_timeout_min_ms config)) 0);
    [done|]. simpl. rewrite Hdir. simpl.
  destruct (load_state_reliable p Hr) as (p1 & -> & Hr1 & Hs1 & Hl1).
  destruct (load_log_reliable p1 Hr1) as (p2 & Hload & Hr2 & Hs2 & Hl2).
  assert (Hes : foldl (restore_entry (P:=P)) raft_log_init (stored_log p1) =
    with_entries raft_log_init (log_entries log)).
  { rewrite Hl1, Hl. rewrite restore_entries_log; [done|apply raft_log_init_wf| |apply Hwf|].
    - pose proof (log_wf_bound _ Hwf). unfold log_room, log_count in *. simpl. lia.
    - intros k e Hk. rewrite (log_wf_index _ Hwf _ _ Hk), Hb. unfold log_count. simpl. lia. }
  unfold stored_term_vote in Hst.
  destruct (stored_state p) as [[t' v']|] eqn:Hss; simpl in Hst; injection Hst as <- <-;
    simpl; rewrite Hload; simpl; rewrite Hes; eexists; (split; [reflexivity|]); simpl;
    rewrite ?str63_id by done; split_and!; try done; exists p2; split_and!; simpl; try done;
    rewrite ?Hl2, ?Hl1; try done; unfold stored_term_vote; rewrite Hs2, Hs1, ?Hss; try done;
    by rewrite str63_id.
Qed.

(** C5: a node survives a crash: with a store that keeps its promises, after any
    sequence of the events of [handle] (elections and ticks, the handlers of messages
    and responses, the client's appends; not the two snapshot calls) the term, the vote
    and the log in memory are on disk, and creating a node from the same directory
    yields a follower with that term, that vote and that log: no vote and no
    acknowledged entry is lost.  The values are those the files can hold
    ([event_storable]: terms below 2^31, identifiers of at most 63 bytes without a
    quote, the entries of a message numbered from its previous index on), and no
    snapshot has moved the base of the log from 0. *)
Theorem raft_crash_recovery n n' p dir config time rand :
  node_wf n → durable n → rtc durable_step n n' →
  n'.(nd_log).(log_base_index) = 0 → n'.(persistence) = Some p →
  config.(cfg_persistence_data_dir) = Some dir →
  u32 (config.(cfg_election_timeout_max_ms) - config.(cfg_election_timeout_min_ms)) ≠ 0 →
  ∃ m : node, raft_create (λ _, Ok p) config time rand = Ok m ∧
    m.(current_term) = n'.(current_term) ∧ m.(voted_for) = n'.(voted_for) ∧
    m.(nd_log).(log_entries) = n'.(nd_log).(log_entries) ∧
    m.(nd_state) = RAFT_STATE_FOLLOWER ∧ durable m.
Proof.
  intros Hn Hd Hs Hb Hp Hdir Hrange.
  destruct (durable_steps _ _ Hs Hn Hd) as [Hn' (p' & Hp' & Hr & Hl & Hst)].
  rewrite Hp in Hp'. injection Hp' as <-.
  by apply (raft_create_restores p dir config time rand _ _ (nd_log n')); try done; apply Hn'.
Qed.
End durability.

(** ** What snapshots do to the log *)
Section snapshots.
Context {P : Type} `{RaftPersistenceOps P}.
Implicit Types n : raft_node P.

Lemma create_snapshot_log n n' data :
  raft_create_snapshot n data = (DISTRIC_OK, n') →
  ∃ t, n'.(nd_log) = RaftLog n.(nd_log).(log_entries) n.(commit_index) t.
Proof.
  unfold raft_create_snapshot. destruct (persistence n) as [p|]; [|done].
  destruct (raft_persistence_save_snapshot _ _ _ _) as [err p'].
  destruct err; try done. intros [= <-]. unfold raise_last_applied.
  exists (snapshot_term n). by case_match.
Qed.

(** After raft_create_snapshot at a commit index [c] > 0 the log is shifted:
    the base index moves to [c] but the entries before it stay in the array, so
    the entry found at index [c + j] is the one of index [j], and the last index
    grows by [c] although nothing was appended. *)
Theorem create_snapshot_shifts_log n n' data :
  node_wf n → n.(nd_log).(log_base_index) = 0 → 0 < n.(commit_index) →
  n.(commit_index) + log_last_index n.(nd_log) < UINT32_MAX →
  raft_create_snapshot n data = (DISTRIC_OK, n') → 0 < log_last_index n.(nd_log) →
  (∀ j, 0 < j ≤ log_last_index n.(nd_log) →
     log_get n'.(nd_log) (n.(commit_index) + j) = log_get n.(nd_log) j) ∧
  log_last_index n'.(nd_log) = n.(commit_index) + log_last_index n.(nd_log).
Proof.
  intros Hn Hb Hc Hbound Hsnap Hlast. pose proof (wf_log _ Hn) as Hwf.
  rewrite log_last_index_wf, Hb in * by done.
  destruct (create_snapshot_log _ _ _ Hsnap) as (t & Hl). rewrite Hl.
  unfold log_get, log_last_index, log_count in *. simpl. rewrite Hb in *.
  split.
  - intros j Hj. destruct (Z.leb_spec (commit_index n + j) (commit_index n)); [lia|].
    destruct (Z.leb_spec j 0); [lia|].
    replace (commit_index n + j - commit_index n - 1) with (j - 0 - 1) by lia. done.
  - destruct (log_entries (nd_log n)); [simpl in *; lia|].
    rewrite u32_id; [lia|]. unfold UINT32_MAX in *. ulia.
Qed.

(** After raft_install_snapshot at index [i] the log is empty, and the
    follower refuses the entries that follow the snapshot: the check of the
    previous entry looks for an entry at [i], which the snapshot covers, and
    does not compare with the snapshot's own term. *)
Theorem install_snapshot_blocks_append n n' i t data l term pt es lc time :
  raft_install_snapshot n i t data = (DISTRIC_OK, n') → 0 < i < UINT32_MAX →
  n'.(nd_log) = RaftLog [] i t ∧
  ae_success (raft_handle_append_entries n' l term i pt es lc time).1 = false.
Proof.
  intros Hsnap Hi. assert (Hl : n'.(nd_log) = RaftLog [] i t).
  { apply (install_snapshot_log n n' i t data Hsnap). lia. }
  split; [done|].
  assert (Hprev : ∀ m : raft_node P, m.(nd_log) = n'.(nd_log) → prev_matches m i pt = false).
  { intros m Hm. unfold prev_matches, log_get. rewrite Hm, Hl. simpl.
    destruct (Z.gtb_spec i 0); [|lia]. by destruct (Z.leb_spec i i); [|lia]. }
  unfold raft_handle_append_entries.
  set (m := if term >? current_term n' then _ else n').
  assert (Hm : m.(nd_log) = n'.(nd_log)).
  { subst m. case_match; [|done]. apply transition_to_follower_fields. }
  clearbody m. case_match; [done|]. rewrite Hprev; [done|].
  case_match; [|done].
  match goal with |- context [transition_to_follower ?x ?y ?z] =>
    destruct (transition_to_follower_fields x y z) as (_ & _ & -> & _) end. done.
Qed.
End snapshots.

(** ** Witnesses *)

Definition example_dir_config : raft_config :=
  RaftConfig [49] [example_peer 50; example_peer 51] 150 300 50 10000 (Some [47]) true true.

(** A follower with a store, which mirrors its log of three entries. *)
Definition stored_node : raft_node mem_store := follower_with 2 [1; 1; 2].

Lemma stored_node_wf : node_wf stored_node.
Proof. apply follower_with_wf; [done|forall_done|done]. Qed.

Lemma stored_node_durable : durable stored_node.
Proof. eexists. by split_and!. Qed.

Lemma vote_event_step :
  durable_step stored_node
    (raft_handle_request_vote stored_node [50] 5 9 9 (λ _, 0)).2.
Proof.
  exists (EvRequestVote [50] 5 9 9 (λ _, 0)). split; [|split; [|reflexivity]].
  - split; [by repeat constructor|done].
  - assert (Hid : ∀ c, c = 49 ∨ c = 50 → storable_id [c]).
    { intros c Hc. split; [constructor; [lia|constructor]|]. split; [simpl; lia|].
      intros Hin%list_elem_of_singleton. lia. }
    split; [apply Hid; by left|]. split; [apply Hid; by right|done].
Qed.

Lemma raft_crash_recovery_witness :
  ∃ m : raft_node mem_store,
    raft_create (λ _, Ok (MemStore (Some (5, [50])) (log_entries (example_log [1; 1; 2]))))
      example_dir_config (λ _, 0) 0 = Ok m ∧
    current_term m = 5 ∧ voted_for m = [50].
Proof.
  destruct (raft_crash_recovery stored_node
    (raft_handle_request_vote stored_node [50] 5 9 9 (λ _, 0)).2
    (MemStore (Some (5, [50])) (log_entries (example_log [1; 1; 2])))
    [47] example_dir_config (λ _, 0) 0 stored_node_wf stored_node_durable
    (rtc_once _ _ vote_event_step)) as (m & Hm & Ht & Hv & _);
    [reflexivity|reflexivity|reflexivity|discriminate|].
  exists m. split; [exact Hm|]. split; [exact Ht|exact Hv].
Defined.

Lemma create_snapshot_shifts_log_witness :
  let n := set_commit_index 2 stored_node in
  let n' := (raft_create_snapshot n [1; 2; 3]).2 in
  log_get n'.(nd_log) 3 = Some (command 1 1) ∧ log_last_index n'.(nd_log) = 5.
Proof.
  set (n := set_commit_index 2 stored_node).
  assert (Hn : node_wf n) by (destruct stored_node_wf; by split).
  destruct (create_snapshot_shifts_log n (raft_create_snapshot n [1; 2; 3]).2 [1; 2; 3] Hn)
    as [Hg Hl]; [reflexivity..|].
  split; [exact (Hg 1 ltac:(done))|exact Hl].
Defined.

Lemma install_snapshot_blocks_append_witness :
  let n' := (raft_install_snapshot stored_node 10 2 [1; 2; 3]).2 in
  ae_success (raft_handle_append_entries n' [49] 3 10 2 [command 11 3] 11 (λ _, 0)).1 = false.
Proof.
  apply (install_snapshot_blocks_append stored_node
    (raft_install_snapshot stored_node 10 2 [1; 2; 3]).2 10 2 [1; 2; 3] [49] 3 2 [command 11 3] 11
    (λ _, 0)); [reflexivity|done].
Defined.
