(* ===== verification/SendQueue.v ===== *)
(** * The send queue: a ring buffer that refines a bounded FIFO

    [src/libs/distric_transport/src/send_queue.c] and [send_queue.h].  The
    buffer is a memory object of [capacity] bytes, [head] and [len] are sizes; a
    pointer into the buffer is an offset.  [malloc] succeeds and its bytes are an
    argument. *)

From Stdlib Require Import ZArith Lia.
From stdpp Require Import base list numbers option.
From S2P Require Import Prelude.

Local Open Scope nat_scope.

(** ** The program *)

Definition SEND_QUEUE_DEFAULT_CAPACITY : nat := Z.to_nat (64 * 1024).
Definition SEND_QUEUE_DEFAULT_HWM : nat := Z.to_nat (48 * 1024).

Record send_queue := SendQueue {
  sq_buf : list Z;
  sq_capacity : nat;
  sq_hwm : nat;
  sq_head : nat;
  sq_len : nat
}.

Definition sq_set_buf (b : list Z) (q : send_queue) : send_queue :=
  SendQueue b (sq_capacity q) (sq_hwm q) (sq_head q) (sq_len q).
Definition sq_set_pos (head len : nat) (q : send_queue) : send_queue :=
  SendQueue (sq_buf q) (sq_capacity q) (sq_hwm q) head len.

(** [x % y] of sizes. *)
Definition size_mod (x y : nat) : result nat := if y =? 0 then Fault else Ok (x mod y).

(** [None] is the return of -1; [garbage] is what [malloc] returns. *)
Definition send_queue_init (garbage : list Z) (capacity hwm : nat) : option send_queue :=
  if (capacity =? 0) || (capacity <? hwm) then None
  else Some (SendQueue (take capacity (garbage ++ replicate capacity 0%Z)) capacity hwm 0 0).

Definition send_queue_destroy (q : send_queue) : send_queue := SendQueue [] 0 (sq_hwm q) 0 0.

(** The boolean is [true] for a return of 0. *)
Definition send_queue_push (q : send_queue) (data : list Z) : result (bool * send_queue) :=
  let len := length data in
  if len =? 0 then Ok (false, q)
  else if sq_capacity q - sq_len q <? len then Ok (false, q)
  else
    tail ← size_mod (sq_head q + sq_len q) (sq_capacity q);
    let to_end := sq_capacity q - tail in
    buf ←
      (if len <=? to_end then memcpy_at (sq_buf q) tail data
       else
         buf ← memcpy_at (sq_buf q) tail (take to_end data);
         memcpy_at buf 0 (drop to_end data));
    Ok (true, sq_set_pos (sq_head q) (sq_len q + len) (sq_set_buf buf q)).

(** [None] is a null pointer; otherwise the offset in the buffer and [avail]. *)
Definition send_queue_peek (q : send_queue) : option (nat * nat) :=
  if sq_len q =? 0 then None
  else
    let to_end := sq_capacity q - sq_head q in
    Some (sq_head q, if sq_len q <? to_end then sq_len q else to_end).

Definition send_queue_consume (q : send_queue) (n : nat) : result send_queue :=
  if n =? 0 then Ok q
  else
    let n := if sq_len q <? n then sq_len q else n in
    head ← size_mod (sq_head q + n) (sq_capacity q);
    let len := sq_len q - n in
    Ok (sq_set_pos (if len =? 0 then 0 else head) len q).

Definition send_queue_empty (q : send_queue) : bool := sq_len q =? 0.
Definition send_queue_above_hwm (q : send_queue) : bool := sq_hwm q <=? sq_len q.
Definition send_queue_pending (q : send_queue) : nat := sq_len q.
Definition send_queue_free (q : send_queue) : nat := sq_capacity q - sq_len q.

(** The bytes a peeked pointer gives access to. *)
Definition send_queue_chunk (q : send_queue) : result (list Z) :=
  match send_queue_peek q with
  | None => Ok []
  | Some (off, avail) => memread (sq_buf q) off avail
  end.

(** ** The invariant and what the queue holds *)

Record send_queue_wf (q : send_queue) : Prop := {
  sqw_buf : length (sq_buf q) = sq_capacity q;
  sqw_head : sq_head q < sq_capacity q;
  sqw_len : sq_len q <= sq_capacity q;
  sqw_hwm : sq_hwm q <= sq_capacity q;
  sqw_empty : sq_len q = 0 → sq_head q = 0
}.

(** The pending bytes, in order: from the head to the end of the buffer, then from
    its start. *)
Definition queued (q : send_queue) : list Z :=
  take (sq_len q) (drop (sq_head q) (sq_buf q) ++ take (sq_head q) (sq_buf q)).

Lemma send_queue_init_wf garbage capacity hwm q :
  send_queue_init garbage capacity hwm = Some q →
  send_queue_wf q ∧ queued q = [] ∧ sq_capacity q = capacity ∧ sq_hwm q = hwm.
Proof.
  unfold send_queue_init. destruct (Nat.eqb_spec capacity 0), (Nat.ltb_spec capacity hwm); [done..|].
  intros [= <-]. split; [|done]. split; simpl; [|lia..].
  rewrite length_take, length_app, length_replicate. lia.
Qed.

Lemma queued_length q : send_queue_wf q → length (queued q) = sq_len q.
Proof.
  intros [Hb Hh Hl _ _]. unfold queued.
  rewrite length_take, length_app, length_drop, length_take. lia.
Qed.

(** A position of the ring. *)
Lemma ring_pos x c : x < 2 * c → x mod c = if x <? c then x else x - c.
Proof.
  intros Hx. destruct (Nat.ltb_spec x c); [by apply Nat.mod_small|].
  symmetry. apply Nat.mod_unique with 1; lia.
Qed.

Lemma memcpy_at_lookup buf off src buf' k :
  memcpy_at buf off src = Ok buf' →
  buf' !! k = if (off <=? k) && (k <? off + length src) then src !! (k - off) else buf !! k.
Proof.
  unfold memcpy_at. destruct (Nat.leb_spec (off + length src) (length buf)); [|done].
  intros [= <-]. destruct (Nat.leb_spec off k); simpl.
  - rewrite lookup_app_r by (rewrite length_take; lia). rewrite length_take, Nat.min_l by lia.
    destruct (Nat.ltb_spec k (off + length src)); [by rewrite lookup_app_l by lia|].
    rewrite lookup_app_r by lia. rewrite lookup_drop. f_equal. lia.
  - rewrite lookup_app_l by (rewrite length_take; lia). by rewrite lookup_take_lt by lia.
Qed.

(** The pending bytes by position. *)
Lemma queued_lookup q i :
  send_queue_wf q → i < sq_len q →
  queued q !! i = sq_buf q !! ((sq_head q + i) mod sq_capacity q).
Proof.
  intros [Hb Hh Hl _ _] Hi. unfold queued. rewrite lookup_take_lt by done.
  rewrite ring_pos by lia. destruct (Nat.ltb_spec (sq_head q + i) (sq_capacity q)).
  - rewrite lookup_app_l by (rewrite length_drop; lia). by rewrite lookup_drop.
  - rewrite lookup_app_r by (rewrite length_drop; lia). rewrite length_drop.
    rewrite lookup_take_lt by lia. f_equal. lia.
Qed.

Lemma queued_ext q l :
  send_queue_wf q → length l = sq_len q →
  (∀ i, i < sq_len q → sq_buf q !! ((sq_head q + i) mod sq_capacity q) = l !! i) → queued q = l.
Proof.
  intros Hw Hlen Hl. apply list_eq. intros i. destruct (Nat.lt_ge_cases i (sq_len q)) as [Hi|Hi].
  - rewrite queued_lookup by done. by apply Hl.
  - rewrite !lookup_ge_None_2; [done|lia|rewrite queued_length by done; lia].
Qed.

(** Splits on the comparisons of a goal about ring positions. *)
Ltac ring_cases :=
  repeat match goal with
    | |- context [?a <=? ?b] => destruct (Nat.leb_spec a b)
    | |- context [?a <? ?b] => destruct (Nat.ltb_spec a b)
    | H : context [?a <? ?b] |- _ => destruct (Nat.ltb_spec a b)
    end; simpl in *; try lia; try done; try (f_equal; lia).

(** [buf'] holds [data] after the pending bytes of [q], which it keeps. *)
Definition appended (q : send_queue) (data buf' : list Z) : Prop :=
  length buf' = sq_capacity q ∧
  ∀ i, i < sq_len q + length data →
    buf' !! ((sq_head q + i) mod sq_capacity q) =
      if i <? sq_len q then sq_buf q !! ((sq_head q + i) mod sq_capacity q)
      else data !! (i - sq_len q).

(** The contiguous write and the split one. *)
Lemma write_contiguous q data tail :
  send_queue_wf q → length data <= sq_capacity q - sq_len q →
  tail = (sq_head q + sq_len q) mod sq_capacity q → length data <= sq_capacity q - tail →
  ∃ buf, memcpy_at (sq_buf q) tail data = Ok buf ∧ appended q data buf.
Proof.
  intros [Hb Hh Hl _ _] Hd Ht Hfit. rewrite ring_pos in Ht by lia.
  destruct (memcpy_at (sq_buf q) tail data) as [buf| |] eqn:Hw; [|revert Hw; unfold memcpy_at; ring_cases..].
  exists buf. split; [done|]. split; [rewrite (memcpy_at_length _ _ _ _ Hw); lia|]. intros i Hi.
  rewrite (memcpy_at_lookup _ _ _ _ _ Hw), ring_pos by lia. ring_cases.
Qed.

Lemma write_wrapped q data tail :
  send_queue_wf q → length data <= sq_capacity q - sq_len q →
  tail = (sq_head q + sq_len q) mod sq_capacity q → sq_capacity q - tail < length data →
  let to_end := sq_capacity q - tail in
  ∃ buf, (b ← memcpy_at (sq_buf q) tail (take to_end data); memcpy_at b 0 (drop to_end data)) = Ok buf ∧
    appended q data buf.
Proof.
  intros [Hb Hh Hl _ _] Hd Ht Hwrap to_end. rewrite ring_pos in Ht by lia.
  assert (Hte : tail < sq_capacity q) by ring_cases.
  assert (Hl1 : length (take to_end data) = to_end) by (rewrite length_take; lia).
  assert (Hl2 : length (drop to_end data) = length data - to_end) by apply length_drop.
  destruct (memcpy_at (sq_buf q) tail (take to_end data)) as [b| |] eqn:Hw1;
    [|revert Hw1; unfold memcpy_at; rewrite Hl1; ring_cases..].
  pose proof (memcpy_at_length _ _ _ _ Hw1) as Hlb. cbn [mbind result_bind].
  destruct (memcpy_at b 0 (drop to_end data)) as [buf| |] eqn:Hw2;
    [|revert Hw2; unfold memcpy_at; rewrite Hl2; ring_cases..].
  exists buf. split; [done|]. split; [rewrite (memcpy_at_length _ _ _ _ Hw2); lia|]. intros i Hi.
  rewrite (memcpy_at_lookup _ _ _ _ _ Hw2), (memcpy_at_lookup _ _ _ _ _ Hw1), ring_pos, Hl1, Hl2 by lia.
  destruct (Nat.ltb_spec (sq_head q + sq_len q) (sq_capacity q)); [|ring_cases].
  ring_cases; rewrite ?lookup_drop, ?lookup_take_lt by lia; f_equal; lia.
Qed.

(** ** The operations on what the queue holds *)

Lemma send_queue_push_spec q data :
  send_queue_wf q →
  if (length data =? 0) || (sq_capacity q - sq_len q <? length data)
  then send_queue_push q data = Ok (false, q)
  else ∃ q', send_queue_push q data = Ok (true, q') ∧ send_queue_wf q' ∧
    queued q' = queued q ++ data ∧ sq_capacity q' = sq_capacity q ∧ sq_hwm q' = sq_hwm q.
Proof.
  intros Hw. unfold send_queue_push. destruct (Nat.eqb_spec (length data) 0); [done|]. simpl.
  destruct (Nat.ltb_spec (sq_capacity q - sq_len q) (length data)) as [|Hd]; [done|].
  pose proof (sqw_head q Hw) as Hh. unfold size_mod. destruct (Nat.eqb_spec (sq_capacity q) 0); [lia|].
  cbn [mbind result_bind]. set (tail := (sq_head q + sq_len q) mod sq_capacity q).
  assert (Happ : ∃ buf,
    (if length data <=? sq_capacity q - tail then memcpy_at (sq_buf q) tail data
     else b ← memcpy_at (sq_buf q) tail (take (sq_capacity q - tail) data);
          memcpy_at b 0 (drop (sq_capacity q - tail) data)) = Ok buf ∧ appended q data buf).
  { destruct (Nat.leb_spec (length data) (sq_capacity q - tail)); [by apply write_contiguous|by apply write_wrapped]. }
  destruct Happ as (buf & -> & Hlen & Hbuf). cbn [mbind result_bind].
  eexists. split; [done|]. destruct Hw as [Hb _ Hl Hhwm He].
  assert (Hw' : send_queue_wf (sq_set_pos (sq_head q) (sq_len q + length data) (sq_set_buf buf q)))
    by (split; simpl; lia).
  split; [exact Hw'|]. split; [|done]. apply queued_ext; [done| |].
  - rewrite length_app, queued_length by (by split). done.
  - cbn [sq_len sq_head sq_capacity sq_buf sq_set_pos sq_set_buf]. intros i Hi. rewrite Hbuf by done.
    destruct (Nat.ltb_spec i (sq_len q)).
    + rewrite lookup_app_l by (rewrite queued_length by (by split); lia).
      by rewrite queued_lookup by (done || by split).
    + rewrite lookup_app_r by (rewrite queued_length by (by split); lia).
      by rewrite queued_length by (by split).
Qed.

Lemma send_queue_peek_spec q :
  send_queue_wf q →
  match send_queue_peek q with
  | None => queued q = []
  | Some (off, avail) => 0 < avail <= sq_len q ∧ memread (sq_buf q) off avail = Ok (take avail (queued q))
  end.
Proof.
  intros Hw. unfold send_queue_peek. pose proof (queued_length q Hw) as Hql.
  destruct (Nat.eqb_spec (sq_len q) 0); [by apply nil_length_inv; lia|].
  destruct Hw as [Hb Hh Hl _ _].
  set (avail := if _ <? _ then _ else _). assert (Ha : 0 < avail <= sq_len q ∧ avail <= sq_capacity q - sq_head q)
    by (unfold avail; ring_cases).
  split; [lia|]. rewrite memread_ok by lia. f_equal. unfold queued.
  rewrite take_take, Nat.min_l by lia. by rewrite take_app_le by (rewrite length_drop; lia).
Qed.

Lemma send_queue_consume_spec q n :
  send_queue_wf q →
  ∃ q', send_queue_consume q n = Ok q' ∧ send_queue_wf q' ∧ queued q' = drop n (queued q) ∧
    sq_capacity q' = sq_capacity q ∧ sq_hwm q' = sq_hwm q.
Proof.
  intros Hw. unfold send_queue_consume. destruct (Nat.eqb_spec n 0) as [->|Hn]; [by exists q; rewrite drop_0|].
  pose proof (queued_length q Hw) as Hql. set (m := if sq_len q <? n then sq_len q else n).
  assert (Hm : m <= sq_len q ∧ drop m (queued q) = drop n (queued q)).
  { unfold m. destruct (Nat.ltb_spec (sq_len q) n); [|done]. split; [lia|]. by rewrite !drop_ge by lia. }
  destruct Hm as [Hm <-]. pose proof Hw as [Hb Hh Hl Hhwm He].
  unfold size_mod. destruct (Nat.eqb_spec (sq_capacity q) 0); [lia|]. cbn [mbind result_bind].
  eexists. split; [done|]. pose proof (Nat.mod_upper_bound (sq_head q + m) (sq_capacity q) ltac:(lia)).
  set (q' := sq_set_pos _ _ q).
  assert (Hw' : send_queue_wf q')
    by (split; simpl; try lia; destruct (Nat.eqb_spec (sq_len q - m) 0); lia).
  split; [exact Hw'|]. split; [|done]. apply queued_ext; [done|rewrite length_drop, Hql; done|].
  unfold q'. cbn [sq_len sq_head sq_capacity sq_buf sq_set_pos]. intros i Hi.
  destruct (Nat.eqb_spec (sq_len q - m) 0); [lia|].
  rewrite lookup_drop, queued_lookup by (done || lia).
  rewrite Nat.Div0.add_mod_idemp_l. do 2 f_equal. lia.
Qed.

(** ** Refinement of a bounded FIFO *)

(** The operations of the interface, and what they answer. *)
Inductive sq_op :=
  | SqPush (data : list Z)
  | SqPeek
  | SqConsume (n : nat)
  | SqPending
  | SqFree
  | SqAboveHwm.

Inductive sq_answer :=
  | SqPushed (accepted : bool)
  | SqPeeked (chunk : list Z)
  | SqConsumed
  | SqCount (n : nat)
  | SqFlag (b : bool).

Definition sq_step (op : sq_op) (q : send_queue) : result (sq_answer * send_queue) :=
  match op with
  | SqPush data => r ← send_queue_push q data; let '(ok, q) := r in Ok (SqPushed ok, q)
  | SqPeek => chunk ← send_queue_chunk q; Ok (SqPeeked chunk, q)
  | SqConsume n => q ← send_queue_consume q n; Ok (SqConsumed, q)
  | SqPending => Ok (SqCount (send_queue_pending q), q)
  | SqFree => Ok (SqCount (send_queue_free q), q)
  | SqAboveHwm => Ok (SqFlag (send_queue_above_hwm q), q)
  end.

Fixpoint sq_run (ops : list sq_op) (q : send_queue) : result (list sq_answer * send_queue) :=
  match ops with
  | [] => Ok ([], q)
  | op :: ops =>
      r ← sq_step op q; let '(a, q) := r in
      r ← sq_run ops q; let '(answers, q) := r in Ok (a :: answers, q)
  end.

(** The specification: a list of bytes.  A peek may return any part of it that
    starts at the front and is not empty unless the list is. *)
Inductive fifo_step (capacity hwm : nat) : sq_op → sq_answer → list Z → list Z → Prop :=
  | fifo_push l data :
      data ≠ [] → length l + length data <= capacity →
      fifo_step capacity hwm (SqPush data) (SqPushed true) l (l ++ data)
  | fifo_full l data :
      data = [] ∨ capacity < length l + length data →
      fifo_step capacity hwm (SqPush data) (SqPushed false) l l
  | fifo_peek l chunk rest :
      l = chunk ++ rest → (chunk = [] → l = []) →
      fifo_step capacity hwm SqPeek (SqPeeked chunk) l l
  | fifo_consume l n : fifo_step capacity hwm (SqConsume n) SqConsumed l (drop n l)
  | fifo_pending l : fifo_step capacity hwm SqPending (SqCount (length l)) l l
  | fifo_free l : fifo_step capacity hwm SqFree (SqCount (capacity - length l)) l l
  | fifo_above l : fifo_step capacity hwm SqAboveHwm (SqFlag (hwm <=? length l)) l l.

Inductive fifo_run (capacity hwm : nat) : list sq_op → list sq_answer → list Z → list Z → Prop :=
  | fifo_done l : fifo_run capacity hwm [] [] l l
  | fifo_next op ops a answers l1 l2 l3 :
      fifo_step capacity hwm op a l1 l2 → fifo_run capacity hwm ops answers l2 l3 →
      fifo_run capacity hwm (op :: ops) (a :: answers) l1 l3.

Lemma sq_step_refines op q :
  send_queue_wf q →
  ∃ a q', sq_step op q = Ok (a, q') ∧ send_queue_wf q' ∧
    fifo_step (sq_capacity q) (sq_hwm q) op a (queued q) (queued q') ∧
    sq_capacity q' = sq_capacity q ∧ sq_hwm q' = sq_hwm q.
Proof.
  intros Hw. pose proof (queued_length q Hw) as Hl. pose proof (sqw_len q Hw) as Hcap.
  destruct op as [data| |n| | |]; simpl.
  - pose proof (send_queue_push_spec q data Hw) as Hp.
    destruct (Nat.eqb_spec (length data) 0) as [Hz|Hz]; simpl in Hp.
    { rewrite Hp. simpl. do 2 eexists. split; [done|]. split; [done|]. split; [|done].
      apply fifo_full. left. by apply nil_length_inv. }
    destruct (Nat.ltb_spec (sq_capacity q - sq_len q) (length data)).
    { rewrite Hp. simpl. do 2 eexists. split; [done|]. split; [done|]. split; [|done].
      apply fifo_full. right. lia. }
    destruct Hp as (q' & -> & Hw' & Hq & Hc & Hh). simpl. do 2 eexists. split; [done|].
    split; [done|]. split; [|done]. rewrite Hq. apply fifo_push; [by intros ->|lia].
  - unfold send_queue_chunk. pose proof (send_queue_peek_spec q Hw) as Hp.
    destruct (send_queue_peek q) as [[off avail]|]; simpl.
    + destruct Hp as [Ha ->]. simpl. do 2 eexists. split; [done|]. split; [done|]. split; [|done].
      apply (fifo_peek _ _ _ _ (drop avail (queued q))); [by rewrite take_drop|].
      intros Ht. exfalso. assert (length (take avail (queued q)) = 0) by by rewrite Ht.
      rewrite length_take in *. lia.
    + do 2 eexists. split; [done|]. split; [done|]. split; [|done]. apply (fifo_peek _ _ _ [] []); [exact Hp|done].
  - destruct (send_queue_consume_spec q n Hw) as (q' & -> & Hw' & Hq & Hc & Hh). simpl.
    do 2 eexists. split; [done|]. split; [done|]. split; [|done]. rewrite Hq. apply fifo_consume.
  - do 2 eexists. split; [done|]. split; [done|]. split; [|done]. unfold send_queue_pending.
    rewrite <- Hl. apply fifo_pending.
  - do 2 eexists. split; [done|]. split; [done|]. split; [|done]. unfold send_queue_free.
    rewrite <- Hl. apply fifo_free.
  - do 2 eexists. split; [done|]. split; [done|]. split; [|done]. unfold send_queue_above_hwm.
    rewrite <- Hl. apply fifo_above.
Qed.

(** C17: a send queue is a bounded FIFO of bytes: every sequence of operations on a
    fresh queue runs without touching memory outside of its buffer and answers
    what the specification allows, so the bytes come out in the order in which they
    were accepted, wherever the ring wraps; a push is refused exactly when the
    bytes do not fit. *)
Theorem send_queue_refines_fifo garbage capacity hwm q ops :
  send_queue_init garbage capacity hwm = Some q →
  ∃ answers q', sq_run ops q = Ok (answers, q') ∧ send_queue_wf q' ∧
    fifo_run capacity hwm ops answers [] (queued q').
Proof.
  intros (Hw & Hq & <- & <-)%send_queue_init_wf. rewrite <- Hq. clear Hq.
  revert q Hw. induction ops as [|op ops IH]; intros q Hw; simpl.
  - do 2 eexists. split; [done|]. split; [done|constructor].
  - destruct (sq_step_refines op q Hw) as (a & q1 & -> & Hw1 & Hs & Hc & Hh). simpl.
    destruct (IH q1 Hw1) as (answers & q2 & -> & Hw2 & Hr). simpl. rewrite Hc, Hh in Hr.
    do 2 eexists. split; [done|]. split; [done|]. by econstructor.
Qed.

Lemma send_queue_refines_fifo_witness :
  ∃ q q', send_queue_init [] 4 3 = Some q ∧
    sq_run [SqPush [1; 2; 3]%Z; SqConsume 2; SqPush [4; 5; 6]%Z; SqPush [7]%Z; SqPeek] q =
      Ok ([SqPushed true; SqConsumed; SqPushed true; SqPushed false; SqPeeked [3; 4]%Z], q') ∧
    fifo_run 4 3 [SqPush [1; 2; 3]%Z; SqConsume 2; SqPush [4; 5; 6]%Z; SqPush [7]%Z; SqPeek]
      [SqPushed true; SqConsumed; SqPushed true; SqPushed false; SqPeeked [3; 4]%Z] [] [3; 4; 5; 6]%Z.
Proof.
  destruct (send_queue_init [] 4 3) as [q|] eqn:Hq; [|done].
  destruct (send_queue_refines_fifo [] 4 3 q
    [SqPush [1; 2; 3]%Z; SqConsume 2; SqPush [4; 5; 6]%Z; SqPush [7]%Z; SqPeek] Hq)
    as (answers & q' & Hr & _ & Hf).
  vm_compute in Hq. injection Hq as <-. vm_compute in Hr. injection Hr as <- <-.
  do 2 eexists. split; [reflexivity|]. split; [reflexivity|exact Hf].
Defined.
