(* ===== verification/TransportConfig.v ===== *)
(** * Transport: global configuration, memory budget and error taxonomy

    [src/libs/distric_transport/src/transport_config.c] and
    [transport_error.c].  The atomic variables of the process are one record.
    The memory budget is modelled twice: as the operations of a thread that runs
    alone, which the other components call, and turn by turn for threads that
    interleave.  Metrics are not modelled. *)

From Stdlib Require Import ZArith Lia String.
From stdpp Require Import base list numbers option relations.
From S2P Require Import Prelude CString.

Local Open Scope Z_scope.

(** ** Errors *)

(** The values of [errno] the code distinguishes; [EWOULDBLOCK] is [EAGAIN]. *)
Inductive errno :=
  | ENONE | EAGAIN | ECONNRESET | EPIPE | ECONNABORTED | ETIMEDOUT | EADDRNOTAVAIL | EADDRINUSE
  | EHOSTUNREACH | ENETUNREACH | ECONNREFUSED | ENONET | ENOMEM | ENFILE | EMFILE | ENOBUFS | ENOSPC
  | EOTHER.

Inductive transport_err :=
  | TRANSPORT_OK | TRANSPORT_WOULD_BLOCK | TRANSPORT_BACKPRESSURE | TRANSPORT_PEER_CLOSED
  | TRANSPORT_RESET | TRANSPORT_TIMEOUT | TRANSPORT_ADDRESS | TRANSPORT_RESOURCE
  | TRANSPORT_RATE_LIMITED | TRANSPORT_INTERNAL.

Definition transport_classify_errno (err_no : errno) : transport_err :=
  match err_no with
  | EAGAIN => TRANSPORT_WOULD_BLOCK
  | ENONE => TRANSPORT_PEER_CLOSED
  | ECONNRESET | EPIPE | ECONNABORTED => TRANSPORT_RESET
  | ETIMEDOUT => TRANSPORT_TIMEOUT
  | EADDRNOTAVAIL | EADDRINUSE | EHOSTUNREACH | ENETUNREACH | ECONNREFUSED | ENONET => TRANSPORT_ADDRESS
  | ENOMEM | ENFILE | EMFILE | ENOBUFS | ENOSPC => TRANSPORT_RESOURCE
  | EOTHER => TRANSPORT_INTERNAL
  end.

Definition transport_err_str (err : transport_err) : list Z :=
  match err with
  | TRANSPORT_OK => str "OK"
  | TRANSPORT_WOULD_BLOCK => str "WOULD_BLOCK"
  | TRANSPORT_BACKPRESSURE => str "BACKPRESSURE"
  | TRANSPORT_PEER_CLOSED => str "PEER_CLOSED"
  | TRANSPORT_RESET => str "RESET"
  | TRANSPORT_TIMEOUT => str "TIMEOUT"
  | TRANSPORT_ADDRESS => str "ADDRESS_ERROR"
  | TRANSPORT_RESOURCE => str "RESOURCE_EXHAUSTED"
  | TRANSPORT_RATE_LIMITED => str "RATE_LIMITED"
  | TRANSPORT_INTERNAL => str "INTERNAL_ERROR"
  end.

Definition transport_err_to_distric (err : transport_err) : distric_err :=
  match err with
  | TRANSPORT_OK => DISTRIC_OK
  | TRANSPORT_WOULD_BLOCK => DISTRIC_OK
  | TRANSPORT_BACKPRESSURE => DISTRIC_ERR_BACKPRESSURE
  | TRANSPORT_PEER_CLOSED => DISTRIC_ERR_EOF
  | TRANSPORT_RESET => DISTRIC_ERR_IO
  | TRANSPORT_TIMEOUT => DISTRIC_ERR_TIMEOUT
  | TRANSPORT_ADDRESS => DISTRIC_ERR_INIT_FAILED
  | TRANSPORT_RESOURCE => DISTRIC_ERR_ALLOC_FAILURE
  | TRANSPORT_RATE_LIMITED => DISTRIC_ERR_BACKPRESSURE
  | TRANSPORT_INTERNAL => DISTRIC_ERR_IO
  end.

(** ** Configuration *)

Record transport_global_config := TransportGlobalConfig {
  max_transport_memory_bytes : Z;
  observability_sample_pct : Z;
  handler_warn_duration_ms : Z
}.

(** The atomic variables of the file. *)
Record transport_globals := TransportGlobals {
  g_memory_in_use : Z;
  g_memory_limit : Z;
  g_rejected_memory : Z;
  g_obs_sample_pct : Z;
  g_obs_dropped : Z;
  g_handler_warn_ms : Z
}.

Definition g_set_memory (n : Z) (g : transport_globals) : transport_globals :=
  TransportGlobals n (g_memory_limit g) (g_rejected_memory g) (g_obs_sample_pct g)
    (g_obs_dropped g) (g_handler_warn_ms g).
Definition g_set_rejected (n : Z) (g : transport_globals) : transport_globals :=
  TransportGlobals (g_memory_in_use g) (g_memory_limit g) n (g_obs_sample_pct g)
    (g_obs_dropped g) (g_handler_warn_ms g).
Definition g_set_dropped (n : Z) (g : transport_globals) : transport_globals :=
  TransportGlobals (g_memory_in_use g) (g_memory_limit g) (g_rejected_memory g) (g_obs_sample_pct g)
    n (g_handler_warn_ms g).

(** Their initial values. *)
Definition transport_globals_init : transport_globals := TransportGlobals 0 0 0 100 0 0.

Definition transport_config_init : transport_global_config := TransportGlobalConfig 0 100 0.

Definition transport_config_apply (cfg : transport_global_config) (g : transport_globals) :
    transport_globals :=
  let pct := observability_sample_pct cfg in
  let pct := if pct =? 0 then 100 else pct in
  let pct := if pct >? 100 then 100 else pct in
  TransportGlobals (g_memory_in_use g) (max_transport_memory_bytes cfg) (g_rejected_memory g)
    pct (g_obs_dropped g) (handler_warn_duration_ms cfg).

Definition transport_config_get (g : transport_globals) : transport_global_config :=
  TransportGlobalConfig (g_memory_limit g) (g_obs_sample_pct g) (g_handler_warn_ms g).

(** [strtoull (s, NULL, 10)] and [strtoul] on a 64-bit host: a value that does not
    fit is the largest one, a minus sign negates modulo 2^64. *)
Definition strtoull (s : list Z) : Z :=
  let s := skip_spaces s in
  let '(negative, digits) :=
    match s with
    | b :: s' => if b =? 45 then (true, s') else if b =? 43 then (false, s') else (false, s)
    | [] => (false, [])
    end in
  let v := digits_value 0 digits in
  if v >=? 2 ^ 64 then 2 ^ 64 - 1 else if negative then u64 (- v) else v.

(** The value of a variable of the environment, if it is set and not empty. *)
Definition env_value (v : option (list Z)) : option Z :=
  match v with
  | None => None
  | Some s => if (length s =? 0)%nat then None else Some (strtoull s)
  end.

Definition transport_config_load_env (memory sample_pct warn_ms : option (list Z))
    (cfg : transport_global_config) : transport_global_config :=
  let max :=
    match env_value memory with
    | Some val => if val >? 0 then val else max_transport_memory_bytes cfg
    | None => max_transport_memory_bytes cfg
    end in
  let pct :=
    match env_value sample_pct with
    | Some val =>
        if (val >=? 1) && (val <=? 100) then u32 val else observability_sample_pct cfg
    | None => observability_sample_pct cfg
    end in
  let warn :=
    match env_value warn_ms with
    | Some val => if val >? 0 then u32 val else handler_warn_duration_ms cfg
    | None => handler_warn_duration_ms cfg
    end in
  TransportGlobalConfig max pct warn.

(** ** The memory budget, for a thread that runs alone *)

Definition transport_memory_acquire (bytes : Z) (g : transport_globals) : bool * transport_globals :=
  if g_memory_limit g =? 0 then (true, g_set_memory (u64 (g_memory_in_use g + bytes)) g)
  else if u64 (g_memory_in_use g + bytes) >? g_memory_limit g
  then (false, g_set_rejected (u64 (g_rejected_memory g + 1)) g)
  else (true, g_set_memory (u64 (g_memory_in_use g + bytes)) g).

Definition transport_memory_release (bytes : Z) (g : transport_globals) : transport_globals :=
  if bytes =? 0 then g
  else
    let prev := g_memory_in_use g in
    let g := g_set_memory (u64 (prev - bytes)) g in
    if prev <? bytes then g_set_memory 0 g else g.

Definition transport_memory_in_use (g : transport_globals) : Z := g_memory_in_use g.

(** A release gives back what an acquisition took. *)
Lemma acquire_release bytes g :
  0 ≤ bytes → 0 ≤ g_memory_in_use g → g_memory_in_use g + bytes < 2 ^ 64 →
  let '(ok, g') := transport_memory_acquire bytes g in
  if ok
  then g_memory_in_use g' = g_memory_in_use g + bytes ∧
       g_memory_in_use (transport_memory_release bytes g') = g_memory_in_use g
  else g_memory_in_use g' = g_memory_in_use g.
Proof.
  intros Hb Hg Hsum. assert (Hu : u64 (g_memory_in_use g + bytes) = g_memory_in_use g + bytes) by (apply u64_id; ulia).
  assert (Hrel : ∀ g', g_memory_in_use g' = g_memory_in_use g + bytes →
    g_memory_in_use (transport_memory_release bytes g') = g_memory_in_use g).
  { intros g' Hg'. unfold transport_memory_release. rewrite Hg'. destruct (Z.eqb_spec bytes 0); [lia|].
    destruct (Z.ltb_spec (g_memory_in_use g + bytes) bytes); [lia|]. simpl. rewrite u64_id by ulia. lia. }
  unfold transport_memory_acquire. rewrite Hu. destruct (g_memory_limit g =? 0); [by split; [|apply Hrel]|].
  destruct (_ >? _); [done|]. by split; [|apply Hrel].
Qed.

(** ** Sampling *)

Definition lcg (rng : Z) : Z := u64 (rng * 6364136223846793005 + 1442695040888963407).

(** The decision, and the generator of the thread; [seed] is what its first use
    initialises it with. *)
Definition lcg_sample (seed pct rng : Z) : bool * Z :=
  let rng := if rng =? 0 then seed else rng in
  let rng := lcg rng in
  (u32 (Z.shiftr rng 33) mod 100 <? pct, rng).

Definition transport_should_sample_obs (seed : Z) (g : transport_globals) (rng : Z) : bool * Z :=
  let pct := g_obs_sample_pct g in
  if pct >=? 100 then (true, rng)
  else if pct =? 0 then (false, rng)
  else lcg_sample seed pct rng.

Definition transport_obs_record_drop (g : transport_globals) : transport_globals :=
  g_set_dropped (u64 (g_obs_dropped g + 1)) g.

(** ** The memory budget, for threads that interleave

    The program counter of a thread between two accesses to the atomic
    variables, and the bytes it holds. *)
Inductive mem_thread :=
  | MemIdle (held : Z)
  | AcqStart (held bytes : Z)                    (* before it loads the limit *)
  | AcqAdd (held bytes : Z)                      (* before the [fetch_add] without a limit *)
  | AcqRead (held bytes limit : Z)               (* before it loads the memory in use *)
  | AcqTry (held bytes limit current : Z)        (* at the head of the loop *)
  | RelStart (held bytes : Z)                    (* before the [fetch_sub] *)
  | RelGuard (held bytes prev : Z).              (* before the check of what it returned *)

(** What a thread does when it is scheduled; [spurious] makes a weak
    compare-and-exchange fail. *)
Inductive mem_choice :=
  | CallAcquire (bytes : Z)
  | CallRelease (bytes : Z)
  | Continue (spurious : bool).

Definition mem_turn (c : mem_choice) (t : mem_thread) (g : transport_globals) :
    option (mem_thread * transport_globals) :=
  match c, t with
  | CallAcquire bytes, MemIdle held => Some (AcqStart held bytes, g)
  | CallRelease bytes, MemIdle held =>
      Some (if bytes =? 0 then MemIdle held else RelStart held bytes, g)
  | Continue _, AcqStart held bytes =>
      Some (if g_memory_limit g =? 0 then AcqAdd held bytes
            else AcqRead held bytes (g_memory_limit g), g)
  | Continue _, AcqAdd held bytes =>
      Some (MemIdle (held + bytes), g_set_memory (u64 (g_memory_in_use g + bytes)) g)
  | Continue _, AcqRead held bytes limit => Some (AcqTry held bytes limit (g_memory_in_use g), g)
  | Continue spurious, AcqTry held bytes limit current =>
      if u64 (current + bytes) >? limit
      then Some (MemIdle held, g_set_rejected (u64 (g_rejected_memory g + 1)) g)
      else if (g_memory_in_use g =? current) && negb spurious
      then Some (MemIdle (held + bytes), g_set_memory (u64 (current + bytes)) g)
      else Some (AcqTry held bytes limit (g_memory_in_use g), g)
  | Continue _, RelStart held bytes =>
      Some (RelGuard (held - bytes) bytes (g_memory_in_use g),
            g_set_memory (u64 (g_memory_in_use g - bytes)) g)
  | Continue _, RelGuard held bytes prev =>
      Some (MemIdle held, if prev <? bytes then g_set_memory 0 g else g)
  | _, _ => None
  end.

(** ** The invariant of the budget *)

Definition mem_held (t : mem_thread) : Z :=
  match t with
  | MemIdle h | AcqStart h _ | AcqAdd h _ | AcqRead h _ _ | AcqTry h _ _ _ | RelStart h _
  | RelGuard h _ _ => h
  end.

(** What a thread holds and asks for. *)
Definition mem_demand (t : mem_thread) : Z :=
  match t with
  | AcqStart h b | AcqAdd h b | AcqRead h b _ | AcqTry h b _ _ => h + b
  | _ => mem_held t
  end.

Definition mem_state : Type := transport_globals * list mem_thread.

(** A client acquires sizes that fit the address space and releases what it
    holds. *)
Definition mem_client_ok (c : mem_choice) (t : mem_thread) (ts : list mem_thread) : Prop :=
  match c with
  | CallAcquire bytes => 0 ≤ bytes ∧ sumZ mem_demand ts + bytes < 2 ^ 64
  | CallRelease bytes => 0 ≤ bytes ≤ mem_held t
  | Continue _ => True
  end.

#[export] Instance mem_client_ok_dec c t ts : Decision (mem_client_ok c t ts).
Proof. unfold mem_client_ok. destruct c; apply _. Defined.

(** A thread takes a turn. *)
Inductive mem_thread_step : mem_state → mem_state → Prop :=
  | mem_turn_step g g' ts i c t t' :
      ts !! i = Some t → mem_client_ok c t ts → mem_turn c t g = Some (t', g') →
      mem_thread_step (g, ts) (g', <[i := t']> ts).

(** Or somebody applies a configuration. *)
Inductive mem_step : mem_state → mem_state → Prop :=
  | mem_step_thread s s' : mem_thread_step s s' → mem_step s s'
  | mem_step_apply g ts cfg :
      is_u64 (max_transport_memory_bytes cfg) → mem_step (g, ts) (transport_config_apply cfg g, ts).

Definition mem_thread_ok (t : mem_thread) : Prop :=
  0 ≤ mem_held t ∧ mem_held t ≤ mem_demand t ∧
  match t with
  | RelStart h b => 0 ≤ b ≤ h
  | RelGuard _ b prev => b ≤ prev
  | _ => True
  end.

Definition mem_ok (s : mem_state) : Prop :=
  Forall mem_thread_ok s.2 ∧ g_memory_in_use s.1 = sumZ mem_held s.2 ∧ sumZ mem_demand s.2 < 2 ^ 64.

Lemma sum_held_demand ts : Forall mem_thread_ok ts → sumZ mem_held ts ≤ sumZ mem_demand ts.
Proof.
  induction 1 as [|t ts (_ & Ht & _) _ IH]; [done|]. unfold sumZ in *. simpl. lia.
Qed.

Lemma held_nonneg ts : Forall mem_thread_ok ts → Forall (λ t, 0 ≤ mem_held t) ts.
Proof. intros Hts. eapply list.Forall_impl; [exact Hts|]. by intros t (? & _). Qed.

(** What the sums become when one thread changes. *)
Lemma mem_ok_insert g g' ts i t t' :
  mem_ok (g, ts) → ts !! i = Some t → mem_thread_ok t' →
  g_memory_in_use g' = g_memory_in_use g - mem_held t + mem_held t' →
  sumZ mem_demand ts - mem_demand t + mem_demand t' < 2 ^ 64 →
  mem_ok (g', <[i := t']> ts).
Proof.
  intros (Hts & Hg & Hd) Hi Ht' Huse Hdem. simpl in *. split_and!; simpl.
  - by apply Forall_insert.
  - rewrite (sumZ_insert _ _ _ _ _ Hi). lia.
  - by rewrite (sumZ_insert _ _ _ _ _ Hi).
Qed.

(** A thread that asks for memory asks for what is left of the address space. *)
Lemma demand_room ts i t :
  Forall mem_thread_ok ts → ts !! i = Some t →
  sumZ mem_held ts + (mem_demand t - mem_held t) ≤ sumZ mem_demand ts.
Proof.
  intros Hts. revert i. induction Hts as [|x ts (_ & Hx & _) Hts IH]; intros [|i] Hi; simplify_eq/=.
  - pose proof (sum_held_demand ts Hts). unfold sumZ in *. simpl. lia.
  - specialize (IH i Hi). unfold sumZ in *. simpl. lia.
Qed.

Lemma mem_turn_ok g g' ts i c t t' :
  mem_ok (g, ts) → ts !! i = Some t → mem_client_ok c t ts → mem_turn c t g = Some (t', g') →
  mem_ok (g', <[i := t']> ts).
Proof.
  intros Hok Hi Hc Hturn. pose proof Hok as (Hts & Hg & Hd). simpl in Hts, Hg, Hd.
  pose proof (Forall_lookup_1 _ _ _ _ Hts Hi) as (Hh & Hdem & Ht).
  pose proof (sumZ_le mem_held ts i t (held_nonneg ts Hts) Hi) as Hle.
  pose proof (demand_room ts i t Hts Hi) as Hroom.
  eapply mem_ok_insert; [exact Hok|exact Hi|..];
    destruct c as [bytes|bytes|spurious], t; simpl in *; simplify_eq/=;
    repeat match goal with
      | H : context [if ?b then _ else _] |- _ => destruct b eqn:?; simplify_eq/=
      | |- context [if ?b then _ else _] => destruct b eqn:?; simplify_eq/=
      end; unfold mem_thread_ok; simpl; try lia; rewrite ?u64_id by ulia; try lia.
Qed.

Lemma mem_thread_step_ok s s' : mem_thread_step s s' → mem_ok s → mem_ok s'.
Proof. intros [g g' ts i c t t' Hi Hc Hturn] Hok. by eapply mem_turn_ok. Qed.

Lemma mem_step_ok s s' : mem_step s s' → mem_ok s → mem_ok s'.
Proof. intros [s1 s2 Hs|g ts cfg _]; [by apply mem_thread_step_ok|done]. Qed.

Lemma idle_ok g n : g_memory_in_use g = 0 → mem_ok (g, replicate n (MemIdle 0)).
Proof.
  intros Hg.
  assert (Hz : ∀ f, f (MemIdle 0) = 0 → sumZ f (replicate n (MemIdle 0)) = 0)
    by (intros f Hf; apply sumZ_const_0, Forall_replicate, Hf).
  split_and!; simpl; [apply Forall_replicate; done|by rewrite Hz|by rewrite Hz].
Qed.

(** The limit that the acquiring threads have read. *)
Definition limit_read (l : Z) (t : mem_thread) : Prop :=
  match t with
  | AcqAdd _ _ => False
  | AcqRead _ _ limit | AcqTry _ _ limit _ => limit = l
  | _ => True
  end.

Definition within_limit (l : Z) (s : mem_state) : Prop :=
  g_memory_limit s.1 = l ∧ g_memory_in_use s.1 ≤ l ∧ Forall (limit_read l) s.2.

Lemma mem_thread_step_limit l s s' :
  l ≠ 0 → mem_thread_step s s' → mem_ok s → within_limit l s → within_limit l s'.
Proof.
  intros Hl [g g' ts i c t t' Hi Hc Hturn] Hok (Hlim & Huse & Hts).
  pose proof (mem_turn_ok _ _ _ _ _ _ _ Hok Hi Hc Hturn) as (Hok' & Huse' & _). destruct Hok as (Hall & Hg & Hd).
  simpl in *. pose proof (Forall_lookup_1 _ _ _ _ Hts Hi) as Ht.
  pose proof (Forall_lookup_1 _ _ _ _ Hall Hi) as (Hh & Hdem & Hext).
  pose proof (demand_room ts i t Hall Hi) as Hroom.
  pose proof (sumZ_le mem_held ts i t (held_nonneg ts Hall) Hi) as Hle.
  split_and!; simpl; [| |apply Forall_insert; [done|]];
    destruct c as [bytes|bytes|spurious], t; simpl in *; simplify_eq/=;
    repeat match goal with
      | H : context [if ?b then _ else _] |- _ => destruct b eqn:?; simplify_eq/=
      | |- context [if ?b then _ else _] => destruct b eqn:?; simplify_eq/=
      end; try done; try lia.
  rewrite u64_id by ulia. lia.
Qed.

(** The memory budget is exact whatever the threads interleave: after any
    sequence of turns of any number of threads that acquire and release, compare
    and exchange failing at any time, and of configurations applied in between, the
    bytes in use are the sum of what the threads hold; and while a limit is in
    force that was applied before the first acquisition, they never exceed it. *)
Theorem memory_budget n cfg s :
  (rtc mem_step (transport_globals_init, replicate n (MemIdle 0)) s →
   g_memory_in_use s.1 = sumZ mem_held s.2) ∧
  (max_transport_memory_bytes cfg ≠ 0 → 0 ≤ max_transport_memory_bytes cfg →
   rtc mem_thread_step
     (transport_config_apply cfg transport_globals_init, replicate n (MemIdle 0)) s →
   g_memory_in_use s.1 ≤ max_transport_memory_bytes cfg).
Proof.
  split.
  - intros Hs. assert (Hok : mem_ok s); [|apply Hok].
    eapply (rtc_ind_l (λ a, mem_ok a → mem_ok s)); [done| |exact Hs|by apply idle_ok].
    intros a b Hab _ IH Ha. by eapply IH, mem_step_ok.
  - intros Hl Hnn Hs. set (l := max_transport_memory_bytes cfg) in *.
    set (s0 := (_, _) : mem_state) in Hs.
    assert (H0 : mem_ok s0 ∧ within_limit l s0).
    { split; [by apply idle_ok|]. split_and!; [done|done|by apply Forall_replicate]. }
    assert (Hend : mem_ok s ∧ within_limit l s); [|apply Hend].
    clearbody s0. induction Hs as [|a b c Hab _ IH]; [done|]. apply IH. destruct H0 as [Ha Hla].
    split; [by eapply mem_thread_step_ok|by eapply mem_thread_step_limit].
Qed.

(** A thread that runs alone gets what [transport_memory_acquire] computes. *)
Lemma acquire_alone h bytes g :
  let '(ok, g') := transport_memory_acquire bytes g in
  ∃ k, Nat.iter k (λ s : option (mem_thread * transport_globals),
         '(t, g) ← s; mem_turn (Continue false) t g) (Some (AcqStart h bytes, g)) =
       Some (MemIdle (if ok then h + bytes else h), g').
Proof.
  unfold transport_memory_acquire. destruct (g_memory_limit g =? 0) eqn:Hl.
  - exists 2%nat. simpl. rewrite Hl. done.
  - destruct (u64 (g_memory_in_use g + bytes) >? g_memory_limit g) eqn:Hfit; exists 3%nat; simpl; rewrite Hl; simpl; rewrite Hfit.
    + done.
    + by rewrite Z.eqb_refl.
Qed.

(** One turn of a concrete schedule. *)
Ltac run_turn i c :=
  eapply rtc_l; [eapply (mem_turn_step _ _ _ i c); [reflexivity|by_decide|reflexivity]|cbn].

(** Two threads race for a budget of 100 bytes: the compare and exchange of the
    first fails because the second was faster, and its retry is refused. *)
Lemma memory_budget_witness :
  let s := (g_set_rejected 1 (g_set_memory 60 (transport_config_apply (TransportGlobalConfig 100 0 0)
              transport_globals_init)), [MemIdle 0; MemIdle 60]) in
  rtc mem_thread_step
    (transport_config_apply (TransportGlobalConfig 100 0 0) transport_globals_init,
     replicate 2 (MemIdle 0)) s ∧
  g_memory_in_use s.1 ≤ 100.
Proof.
  intros s.
  assert (Hs : rtc mem_thread_step
    (transport_config_apply (TransportGlobalConfig 100 0 0) transport_globals_init,
     replicate 2 (MemIdle 0)) s).
  { run_turn 0%nat (CallAcquire 60). run_turn 1%nat (CallAcquire 60).
    run_turn 0%nat (Continue false). run_turn 0%nat (Continue false).
    run_turn 1%nat (Continue false). run_turn 1%nat (Continue false). run_turn 1%nat (Continue false).
    run_turn 0%nat (Continue false). run_turn 0%nat (Continue false).
    apply rtc_refl. }
  split; [exact Hs|].
  apply (proj2 (memory_budget 2 (TransportGlobalConfig 100 0 0) s)); [simpl; lia|simpl; lia|exact Hs].
Defined.
