(* ===== verification/CircuitBreaker.v ===== *)
(** * Transport: the circuit breaker

    [src/libs/distric_transport/src/circuit_breaker.c]: the breaker of a host and
    the registry that keeps the breakers, a hash table with open addressing and a
    list that is threaded through its slots.  A slot is a position of the table, a
    link that is negative is [None].  Every operation holds the lock of the
    registry from its first to its last access, but for [cb_is_allowed], which
    releases it between its two halves.  Times are nanoseconds of the monotonic
    clock and do not overflow.  Metrics and logging are not modelled. *)

From Stdlib Require Import ZArith Lia.
From stdpp Require Import base list numbers option gmap.
From S2P Require Import Prelude CString.

Local Open Scope Z_scope.

(** ** Data *)

Definition CB_DEFAULT_FAILURE_THRESHOLD : Z := 5.
Definition CB_DEFAULT_RECOVERY_MS : Z := 5000.
Definition CB_DEFAULT_WINDOW_MS : Z := 10000.
Definition CB_DEFAULT_MAX_ENTRIES : Z := 1024.
Definition CB_MAX_RECOVERY_MS : Z := 60000.
Definition CB_TABLE_LOAD_FACTOR : Z := 2.

Inductive cb_state := CB_STATE_CLOSED | CB_STATE_OPEN | CB_STATE_HALF_OPEN.

#[export] Instance cb_state_eq_dec : EqDecision cb_state.
Proof. solve_decision. Defined.

Record cb_config := CbConfig {
  cfg_failure_threshold : Z;
  cfg_recovery_ms : Z;
  cfg_window_ms : Z;
  cfg_max_entries : Z
}.

(** The part of an entry that belongs to its host. *)
Record breaker := Breaker {
  br_state : cb_state;
  br_failure_count : Z;
  br_last_failure_ns : Z;
  br_open_until_ns : Z;
  br_recovery_ms : Z;
  br_probe_in_flight : bool
}.

Record cb_entry := CbEntry {
  cb_host : list Z;
  cb_port : Z;
  cb_occupied : bool;
  cb_breaker : breaker;
  cb_lru_prev : option nat;
  cb_lru_next : option nat
}.

Definition cb_set_breaker (b : breaker) (e : cb_entry) : cb_entry :=
  CbEntry (cb_host e) (cb_port e) (cb_occupied e) b (cb_lru_prev e) (cb_lru_next e).
Definition cb_set_prev (i : option nat) (e : cb_entry) : cb_entry :=
  CbEntry (cb_host e) (cb_port e) (cb_occupied e) (cb_breaker e) i (cb_lru_next e).
Definition cb_set_next (i : option nat) (e : cb_entry) : cb_entry :=
  CbEntry (cb_host e) (cb_port e) (cb_occupied e) (cb_breaker e) (cb_lru_prev e) i.

Record cb_registry := CbRegistry {
  cb_table : list cb_entry;
  cb_table_size : Z;
  cb_occupied_count : Z;
  cb_max_entries : Z;
  cb_failure_threshold : Z;
  cb_base_recovery_ms : Z;
  cb_window_ms : Z;
  cb_lru_head : option nat;
  cb_lru_tail : option nat
}.

Definition cb_set_table (t : list cb_entry) (r : cb_registry) : cb_registry :=
  CbRegistry t (cb_table_size r) (cb_occupied_count r) (cb_max_entries r) (cb_failure_threshold r)
    (cb_base_recovery_ms r) (cb_window_ms r) (cb_lru_head r) (cb_lru_tail r).
Definition cb_set_count (n : Z) (r : cb_registry) : cb_registry :=
  CbRegistry (cb_table r) (cb_table_size r) n (cb_max_entries r) (cb_failure_threshold r)
    (cb_base_recovery_ms r) (cb_window_ms r) (cb_lru_head r) (cb_lru_tail r).
Definition cb_set_head (h : option nat) (r : cb_registry) : cb_registry :=
  CbRegistry (cb_table r) (cb_table_size r) (cb_occupied_count r) (cb_max_entries r)
    (cb_failure_threshold r) (cb_base_recovery_ms r) (cb_window_ms r) h (cb_lru_tail r).
Definition cb_set_tail (t : option nat) (r : cb_registry) : cb_registry :=
  CbRegistry (cb_table r) (cb_table_size r) (cb_occupied_count r) (cb_max_entries r)
    (cb_failure_threshold r) (cb_base_recovery_ms r) (cb_window_ms r) (cb_lru_head r) t.

(** A change of one slot. *)
Definition cb_update (i : nat) (f : cb_entry → cb_entry) (r : cb_registry) : cb_registry :=
  cb_set_table (alter f i (cb_table r)) r.

(** ** The breaker of a host *)

Definition ms_to_ns (ms : Z) : Z := ms * 1000000.

Definition breaker_new (base_recovery_ms : Z) : breaker :=
  Breaker CB_STATE_CLOSED 0 0 0 base_recovery_ms false.

(** The slow path of [cb_is_allowed], under the write lock. *)
Definition breaker_admit (now : Z) (b : breaker) : bool * breaker :=
  match br_state b with
  | CB_STATE_CLOSED => (true, b)
  | CB_STATE_OPEN =>
      if (now >=? br_open_until_ns b) && negb (br_probe_in_flight b)
      then (true, Breaker CB_STATE_HALF_OPEN (br_failure_count b) (br_last_failure_ns b)
                    (br_open_until_ns b) (br_recovery_ms b) true)
      else (false, b)
  | CB_STATE_HALF_OPEN => (negb (br_probe_in_flight b), b)
  end.

Definition breaker_success (base_recovery_ms : Z) (b : breaker) : breaker :=
  Breaker CB_STATE_CLOSED 0 (br_last_failure_ns b) (br_open_until_ns b) base_recovery_ms false.

Definition breaker_failure (failure_threshold window_ms now : Z) (b : breaker) : breaker :=
  let st := br_state b in
  let count :=
    if now - br_last_failure_ns b >? ms_to_ns window_ms then 0 else br_failure_count b in
  let failures := u32 (count + 1) in
  if bool_decide (st = CB_STATE_HALF_OPEN) || (failures >=? failure_threshold) then
    let next := u32 (br_recovery_ms b * 2) in
    Breaker CB_STATE_OPEN 0 now (now + ms_to_ns (br_recovery_ms b))
      (if next <? CB_MAX_RECOVERY_MS then next else CB_MAX_RECOVERY_MS) false
  else
    Breaker st failures now (br_open_until_ns b) (br_recovery_ms b) (br_probe_in_flight b).

(** ** The table *)

Definition entry_hash (host : list Z) (port : Z) : Z :=
  let h := fold_left (λ h c, Z.lxor (u32 (u32 (Z.shiftl h 5) + h)) c) host 5381 in
  Z.lxor h (u32 (port * 2654435761)).

Definition cb_match (host : list Z) (port : Z) (e : cb_entry) : bool :=
  (cb_port e =? port) && streq (cb_host e) host.

Definition table_mask (r : cb_registry) : Z := u32 (cb_table_size r - 1).
Definition first_probe (r : cb_registry) (host : list Z) (port : Z) : nat :=
  Z.to_nat (Z.land (entry_hash host port) (table_mask r)).
Definition next_probe (r : cb_registry) (idx : nat) : nat :=
  Z.to_nat (Z.land (u32 (Z.of_nat idx + 1)) (table_mask r)).

(** The loop of [table_find], with [probes] probes left. *)
Fixpoint table_find_loop (r : cb_registry) (host : list Z) (port : Z) (probes idx : nat) : option nat :=
  match probes with
  | O => None
  | S probes =>
      match cb_table r !! idx with
      | Some e =>
          if negb (cb_occupied e) then None
          else if cb_match host port e then Some idx
          else table_find_loop r host port probes (next_probe r idx)
      | None => None
      end
  end.

Definition table_find (r : cb_registry) (host : list Z) (port : Z) : option nat :=
  table_find_loop r host port (Z.to_nat (cb_table_size r)) (first_probe r host port).

(** The loop of [table_find_or_insert]: the slot that has the host ([inl]), or the
    first empty slot it met ([inr]). *)
Fixpoint table_scan (r : cb_registry) (host : list Z) (port : Z) (probes idx : nat)
    (empty_slot : option nat) : nat + option nat :=
  match probes with
  | O => inr empty_slot
  | S probes =>
      match cb_table r !! idx with
      | Some e =>
          if cb_occupied e && cb_match host port e then inl idx
          else
            let empty_slot :=
              if negb (cb_occupied e)
              then match empty_slot with None => Some idx | Some i => Some i end
              else empty_slot in
            table_scan r host port probes (next_probe r idx) empty_slot
      | None => inr empty_slot
      end
  end.

(** What an insertion leaves in its slot. *)
Definition new_entry (r : cb_registry) (host : list Z) (port : Z) : cb_entry :=
  CbEntry (strncpy 255 host) port true (breaker_new (cb_base_recovery_ms r)) None None.

Definition table_find_or_insert (r : cb_registry) (host : list Z) (port : Z) :
    option nat * cb_registry :=
  match table_scan r host port (Z.to_nat (cb_table_size r)) (first_probe r host port) None with
  | inl idx => (Some idx, r)
  | inr empty_slot =>
      let insert_at :=
        match empty_slot with
        | Some i => if cb_occupied_count r <? cb_max_entries r then Some i else None
        | None => None
        end in
      match insert_at with
      | Some i =>
          (Some i, cb_set_count (u32 (cb_occupied_count r + 1))
                     (cb_update i (λ _, new_entry r host port) r))
      | None =>
          match cb_lru_tail r with
          | None => (None, r)
          | Some evict_idx =>
              match cb_table r !! evict_idx with
              | None => (None, r)
              | Some old =>
                  let r :=
                    match cb_lru_prev old with
                    | Some p => cb_update p (cb_set_next None) r
                    | None => cb_set_head None r
                    end in
                  let r := cb_set_tail (cb_lru_prev old) r in
                  (Some evict_idx, cb_update evict_idx (λ _, new_entry r host port) r)
              end
          end
      end
  end.

Definition lru_touch (r : cb_registry) (idx : nat) : cb_registry :=
  match cb_table r !! idx with
  | None => r
  | Some e =>
      let r :=
        match cb_lru_prev e with
        | Some p => cb_update p (cb_set_next (cb_lru_next e)) r
        | None => cb_set_head (cb_lru_next e) r
        end in
      let r :=
        match cb_lru_next e with
        | Some n => cb_update n (cb_set_prev (cb_lru_prev e)) r
        | None => cb_set_tail (cb_lru_prev e) r
        end in
      let r := cb_update idx (λ e, cb_set_next (cb_lru_head r) (cb_set_prev None e)) r in
      let r := match cb_lru_head r with Some h => cb_update h (cb_set_prev (Some idx)) r | None => r end in
      let r := cb_set_head (Some idx) r in
      match cb_lru_tail r with None => cb_set_tail (Some idx) r | Some _ => r end
  end.

(** ** The interface *)

Definition or_else (cfg : option cb_config) (field : cb_config → Z) (default : Z) : Z :=
  match cfg with
  | Some c => if field c =? 0 then default else field c
  | None => default
  end.

(** The loop that computes the size of the table: [None] if it does not end
    within [fuel] turns. *)
Fixpoint table_size_loop (fuel : nat) (sz bound : Z) : option Z :=
  match fuel with
  | O => None
  | S fuel => if sz <? bound then table_size_loop fuel (u32 (Z.shiftl sz 1)) bound else Some sz
  end.

Definition empty_entry : cb_entry :=
  CbEntry [] 0 false (Breaker CB_STATE_CLOSED 0 0 0 0 false) None None.

Definition cb_registry_create (fuel : nat) (cfg : option cb_config) : option cb_registry :=
  let max_entries := or_else cfg cfg_max_entries CB_DEFAULT_MAX_ENTRIES in
  sz ← table_size_loop fuel 1 (u32 (max_entries * CB_TABLE_LOAD_FACTOR));
  Some (CbRegistry (replicate (Z.to_nat sz) empty_entry) sz 0 max_entries
          (or_else cfg cfg_failure_threshold CB_DEFAULT_FAILURE_THRESHOLD)
          (or_else cfg cfg_recovery_ms CB_DEFAULT_RECOVERY_MS)
          (or_else cfg cfg_window_ms CB_DEFAULT_WINDOW_MS) None None).

(** The half of [cb_is_allowed] under the read lock: [Some] is its answer, [None]
    means that the other half decides. *)
Definition cb_is_allowed_fast (r : cb_registry) (host : list Z) (port : Z) : option bool :=
  match table_find r host port with
  | None => Some true
  | Some idx =>
      match cb_table r !! idx with
      | Some e => if bool_decide (br_state (cb_breaker e) = CB_STATE_CLOSED) then Some true else None
      | None => None
      end
  end.

(** The half under the write lock, at the time [now]. *)
Definition cb_is_allowed_slow (r : cb_registry) (host : list Z) (port now : Z) : bool * cb_registry :=
  match table_find r host port with
  | None => (true, r)
  | Some idx =>
      match cb_table r !! idx with
      | None => (true, r)
      | Some e =>
          let '(allowed, b) := breaker_admit now (cb_breaker e) in
          let r := cb_update idx (cb_set_breaker b) r in
          (* every answer but a rejection and a second look at a half-open entry touches the list *)
          (allowed,
           match br_state (cb_breaker e) with
           | CB_STATE_HALF_OPEN => r
           | _ => if allowed then lru_touch r idx else r
           end)
      end
  end.

(** Both halves, with nothing in between. *)
Definition cb_is_allowed (r : cb_registry) (host : list Z) (port now : Z) : bool * cb_registry :=
  match cb_is_allowed_fast r host port with
  | Some allowed => (allowed, r)
  | None => cb_is_allowed_slow r host port now
  end.

Definition cb_record_success (r : cb_registry) (host : list Z) (port : Z) : cb_registry :=
  match table_find r host port with
  | None => r
  | Some idx =>
      let r := cb_update idx (λ e, cb_set_breaker (breaker_success (cb_base_recovery_ms r) (cb_breaker e)) e) r in
      lru_touch r idx
  end.

Definition cb_record_failure (r : cb_registry) (host : list Z) (port now : Z) : cb_registry :=
  match table_find_or_insert r host port with
  | (None, r) => r
  | (Some idx, r) =>
      let r :=
        cb_update idx (λ e, cb_set_breaker
          (breaker_failure (cb_failure_threshold r) (cb_window_ms r) now (cb_breaker e)) e) r in
      lru_touch r idx
  end.

Definition cb_get_state (r : cb_registry) (host : list Z) (port : Z) : cb_state :=
  match table_find r host port with
  | None => CB_STATE_CLOSED
  | Some idx =>
      match cb_table r !! idx with
      | Some e => br_state (cb_breaker e)
      | None => CB_STATE_CLOSED
      end
  end.

(** ** The size of the table *)

Lemma shiftl_1 sz : Z.shiftl sz 1 = 2 * sz.
Proof. rewrite Z.shiftl_mul_pow2 by lia. lia. Qed.

Lemma size_loop_zero fuel bound : 0 < bound → table_size_loop fuel 0 bound = None.
Proof.
  intros Hb. induction fuel as [|fuel IH]; [done|]. cbn [table_size_loop].
  destruct (Z.ltb_spec 0 bound); [|lia]. exact IH.
Qed.

(** From [2 ^ k] the loop finds the least power of two that is large enough, if it
    fits 32 bits. *)
Lemma size_loop_pow k bound fuel :
  (k ≤ 31)%nat → bound ≤ 2 ^ 31 → (31 - k < fuel)%nat →
  ∃ j, (k ≤ j ≤ 31)%nat ∧ table_size_loop fuel (2 ^ Z.of_nat k) bound = Some (2 ^ Z.of_nat j) ∧
    bound ≤ 2 ^ Z.of_nat j.
Proof.
  revert k. induction fuel as [|fuel IH]; intros k Hk Hb Hf; [lia|]. cbn [table_size_loop].
  destruct (Z.ltb_spec (2 ^ Z.of_nat k) bound) as [Hlt|Hge]; [|exists k; split; [lia|done]].
  assert (k ≠ 31%nat) by (intros ->; change (Z.of_nat 31) with 31 in Hlt; lia).
  assert (Hpow : u32 (Z.shiftl (2 ^ Z.of_nat k) 1) = 2 ^ Z.of_nat (S k)).
  { rewrite shiftl_1, Nat2Z.inj_succ, Z.pow_succ_r by lia. apply u32_id. split; [lia|].
    assert (2 ^ Z.of_nat k ≤ 2 ^ 30) by (apply Z.pow_le_mono_r; lia). lia. }
  rewrite Hpow. destruct (IH (S k)) as (j & Hj & Hl & Hbj); [lia..|]. exists j. split; [lia|done].
Qed.

(** Above [2 ^ 31] it never ends. *)
Lemma size_loop_diverges bound fuel : 2 ^ 31 < bound → table_size_loop fuel 1 bound = None.
Proof.
  intros Hb.
  assert (Hk : ∀ k, (k ≤ 31)%nat → table_size_loop fuel (2 ^ Z.of_nat k) bound = None);
    [|by apply (Hk 0%nat); lia].
  induction fuel as [|fuel IH]; intros k Hk; [done|]. cbn [table_size_loop].
  assert (2 ^ Z.of_nat k ≤ 2 ^ 31) by (apply Z.pow_le_mono_r; lia).
  destruct (Z.ltb_spec (2 ^ Z.of_nat k) bound); [|lia].
  destruct (decide (k = 31%nat)) as [->|Hne].
  - replace (u32 (Z.shiftl (2 ^ Z.of_nat 31%nat) 1)) with 0 by (vm_compute; done).
    apply size_loop_zero. lia.
  - replace (u32 (Z.shiftl (2 ^ Z.of_nat k) 1)) with (2 ^ Z.of_nat (S k)); [apply IH; lia|].
    rewrite shiftl_1, Nat2Z.inj_succ, Z.pow_succ_r by lia. symmetry. apply u32_id. split; [lia|].
    assert (2 ^ Z.of_nat k ≤ 2 ^ 30) by (apply Z.pow_le_mono_r; lia). lia.
Qed.

Lemma size_loop_more fuel fuel' sz bound v :
  table_size_loop fuel sz bound = Some v → (fuel ≤ fuel')%nat → table_size_loop fuel' sz bound = Some v.
Proof.
  revert fuel' sz. induction fuel as [|fuel IH]; intros [|fuel'] sz Hl Hf; [done|done|lia|].
  cbn [table_size_loop] in *. destruct (_ <? _); [|done]. by apply IH; [|lia].
Qed.

(** Creating a registry ends exactly when twice the number of entries, in
    [uint32_t], is at most [2 ^ 31]: the table then has the least power of two that
    is not smaller; otherwise the size overflows to zero and the loop goes on for
    ever. *)
Theorem cb_registry_create_ends cfg :
  let bound := u32 (or_else cfg cfg_max_entries CB_DEFAULT_MAX_ENTRIES * CB_TABLE_LOAD_FACTOR) in
  if bound <=? 2 ^ 31
  then ∃ r j, (j ≤ 31)%nat ∧ cb_table_size r = 2 ^ Z.of_nat j ∧ bound ≤ 2 ^ Z.of_nat j ∧
    (∀ fuel, (32 ≤ fuel)%nat → cb_registry_create fuel cfg = Some r)
  else ∀ fuel, cb_registry_create fuel cfg = None.
Proof.
  intros bound. unfold cb_registry_create. fold bound. destruct (Z.leb_spec bound (2 ^ 31)) as [Hb|Hb].
  - destruct (size_loop_pow 0 bound 32) as (j & Hj & Hl & Hbj); [lia|done|lia|].
    destruct (cb_registry_create 32 cfg) as [r|] eqn:Hr; unfold cb_registry_create in Hr; fold bound in Hr;
      change 1 with (2 ^ Z.of_nat 0) in Hr; rewrite Hl in Hr; [|done].
    simpl in Hr. exists r, j. injection Hr as <-. split; [lia|]. split; [done|]. split; [done|].
    intros fuel Hf. change 1 with (2 ^ Z.of_nat 0). by rewrite (size_loop_more _ fuel _ _ _ Hl Hf).
  - intros fuel. by rewrite size_loop_diverges.
Qed.

(** ** The list of recently used entries

    [lru_touch] unlinks the entry before it moves it to the front.  For an entry
    that is not in the list yet this resets both ends of the list, so the list
    never has more than the entry touched last. *)
Definition unlinked (e : cb_entry) : Prop := cb_lru_prev e = None ∧ cb_lru_next e = None.
Definition lru_single (r : cb_registry) : Prop :=
  Forall unlinked (cb_table r) ∧ cb_lru_head r = cb_lru_tail r.

Definition set_last (i : nat) (r : cb_registry) : cb_registry := cb_set_tail (Some i) (cb_set_head (Some i) r).

Lemma alter_same {A} (f : A → A) (l : list A) i x : l !! i = Some x → f x = x → alter f i l = l.
Proof.
  intros Hi Hf. apply list_eq. intros j. destruct (decide (i = j)) as [<-|Hne].
  - by rewrite list_lookup_alter_eq, Hi; simpl; rewrite Hf.
  - by rewrite list_lookup_alter_ne.
Qed.

Lemma lru_touch_single r i e : lru_single r → cb_table r !! i = Some e → lru_touch r i = set_last i r.
Proof.
  intros [Hall _] Hi. destruct (Forall_lookup_1 _ _ _ _ Hall Hi) as [Hp Hn].
  unfold lru_touch. rewrite Hi, Hp, Hn. simpl. unfold set_last, cb_update, cb_set_tail, cb_set_head, cb_set_table.
  simpl. f_equal. apply (alter_same _ _ _ e); [done|]. destruct e; simpl in *. by subst.
Qed.

Lemma Forall_alter_all {A} (P : A → Prop) (f : A → A) l i :
  Forall P l → (∀ x, P x → P (f x)) → Forall P (alter f i l).
Proof.
  intros Hl Hf. apply Forall_lookup. intros j y Hj. destruct (decide (i = j)) as [<-|Hne].
  - rewrite list_lookup_alter_eq in Hj. apply fmap_Some in Hj as (x & Hx & ->).
    by apply Hf, (Forall_lookup_1 _ _ _ _ Hl Hx).
  - rewrite list_lookup_alter_ne in Hj by done. exact (Forall_lookup_1 _ _ _ _ Hl Hj).
Qed.

Lemma set_last_single i r : lru_single r → lru_single (set_last i r).
Proof. by intros [? _]. Qed.

Lemma cb_update_single i f r :
  lru_single r → (∀ e, unlinked e → unlinked (f e)) → lru_single (cb_update i f r).
Proof. intros [Hall Hends] Hf. split; [by apply Forall_alter_all|done]. Qed.

Lemma lru_touch_keeps r i : lru_single r → lru_single (lru_touch r i).
Proof.
  intros Hs. destruct (cb_table r !! i) as [e|] eqn:Hi.
  - rewrite (lru_touch_single r i e Hs Hi). by apply set_last_single.
  - unfold lru_touch. by rewrite Hi.
Qed.

Lemma find_or_insert_single r host port : lru_single r → lru_single (table_find_or_insert r host port).2.
Proof.
  intros Hs. unfold table_find_or_insert. destruct (table_scan _ _ _ _ _ _) as [idx|empty]; [done|].
  assert (Hins : ∀ i r', lru_single r' → lru_single (cb_update i (λ _, new_entry r' host port) r'))
    by (intros i r' Hr'; by apply cb_update_single).
  destruct (match empty with Some i => _ | None => _ end) as [i|]; [simpl; by apply (Hins i r)|].
  destruct (cb_lru_tail r) as [ev|] eqn:Htail; [|done].
  destruct (cb_table r !! ev) as [old|] eqn:Hev; [|done].
  destruct Hs as [Hall Hends]. destruct (Forall_lookup_1 _ _ _ _ Hall Hev) as [-> _]. simpl.
  by apply cb_update_single.
Qed.

(** The operations on a registry, each one access to it under its lock. *)
Inductive cb_op :=
  | CbFast (host : list Z) (port : Z)
  | CbSlow (host : list Z) (port now : Z)
  | CbSuccess (host : list Z) (port : Z)
  | CbFailure (host : list Z) (port now : Z)
  | CbGetState (host : list Z) (port : Z).

Inductive cb_answer :=
  | CbFastAnswer (a : option bool)
  | CbSlowAnswer (a : bool)
  | CbDone
  | CbStateAnswer (s : cb_state).

Definition cb_step (op : cb_op) (r : cb_registry) : cb_answer * cb_registry :=
  match op with
  | CbFast host port => (CbFastAnswer (cb_is_allowed_fast r host port), r)
  | CbSlow host port now => let '(a, r) := cb_is_allowed_slow r host port now in (CbSlowAnswer a, r)
  | CbSuccess host port => (CbDone, cb_record_success r host port)
  | CbFailure host port now => (CbDone, cb_record_failure r host port now)
  | CbGetState host port => (CbStateAnswer (cb_get_state r host port), r)
  end.

Fixpoint cb_run (ops : list cb_op) (r : cb_registry) : list cb_answer * cb_registry :=
  match ops with
  | [] => ([], r)
  | op :: ops =>
      let '(a, r) := cb_step op r in let '(answers, r) := cb_run ops r in (a :: answers, r)
  end.

Lemma cb_step_single op r : lru_single r → lru_single (cb_step op r).2.
Proof.
  intros Hs. assert (Hb : ∀ i b, lru_single (cb_update i (cb_set_breaker b) r)) by (intros; by apply cb_update_single).
  destruct op as [host port|host port now|host port|host port now|host port]; simpl; try done.
  - unfold cb_is_allowed_slow. destruct (table_find r host port) as [i|]; [|done].
    destruct (cb_table r !! i) as [e|]; [|done]. destruct (breaker_admit now (cb_breaker e)) as [a b]. simpl.
    destruct (br_state (cb_breaker e)), a; try apply Hb; apply lru_touch_keeps, Hb.
  - unfold cb_record_success. destruct (table_find r host port) as [i|]; [|done].
    apply lru_touch_keeps, cb_update_single; [done|]. by intros e.
  - unfold cb_record_failure. pose proof (find_or_insert_single r host port Hs) as Hf.
    destruct (table_find_or_insert r host port) as [[i|] r']; [|done].
    apply lru_touch_keeps, cb_update_single; [done|]. by intros e.
Qed.

Lemma cb_run_single ops : ∀ r, lru_single r → lru_single (cb_run ops r).2.
Proof.
  induction ops as [|op ops IH]; intros r Hs; [done|]. simpl.
  pose proof (cb_step_single op r Hs) as Hs1. destruct (cb_step op r) as [a r1]. simpl in Hs1.
  specialize (IH r1 Hs1). by destruct (cb_run ops r1).
Qed.

Lemma create_single fuel cfg r : cb_registry_create fuel cfg = Some r → lru_single r.
Proof.
  unfold cb_registry_create. destruct (table_size_loop _ _ _) as [sz|]; [|done].
  intros [= <-]. split; [|done]. by apply Forall_replicate.
Qed.

(** ** Probing *)

(** The [d]-th slot that is probed for a host. *)
Definition probe (r : cb_registry) (host : list Z) (port : Z) (d : nat) : nat :=
  Nat.iter d (next_probe r) (first_probe r host port).

Definition slots (r : cb_registry) : nat := Z.to_nat (cb_table_size r).

Definition cb_key (e : cb_entry) : list Z * Z := (cb_host e, cb_port e).

(** A slot with an entry of a host. *)
Definition holds (r : cb_registry) (i : nat) (key : list Z * Z) (e : cb_entry) : Prop :=
  cb_table r !! i = Some e ∧ cb_occupied e = true ∧ cb_key e = key.

Definition occupied_at (r : cb_registry) (i : nat) : Prop :=
  ∃ e, cb_table r !! i = Some e ∧ cb_occupied e = true.

Record table_wf (r : cb_registry) : Prop := {
  tw_size : ∃ k, (k ≤ 31)%nat ∧ cb_table_size r = 2 ^ Z.of_nat k;
  tw_len : length (cb_table r) = slots r;
  tw_count : cb_occupied_count r = Z.of_nat (length (List.filter cb_occupied (cb_table r)));
  tw_room : cb_max_entries r < cb_table_size r;
  tw_path : ∀ i key e, holds r i key e →
    ∃ d, (d < slots r)%nat ∧ i = probe r key.1 key.2 d ∧
      ∀ d', (d' < d)%nat → occupied_at r (probe r key.1 key.2 d');
  tw_unique : ∀ i j key e e', holds r i key e → holds r j key e' → i = j
}.

Section probing.
Variable r : cb_registry.
Hypothesis Hsize : ∃ k, (k ≤ 31)%nat ∧ cb_table_size r = 2 ^ Z.of_nat k.

Lemma slots_pos : (0 < slots r)%nat ∧ Z.of_nat (slots r) = cb_table_size r ∧ cb_table_size r ≤ 2 ^ 31.
Proof.
  destruct Hsize as (k & Hk & Hs). unfold slots.
  assert (0 < 2 ^ Z.of_nat k) by (apply Z.pow_pos_nonneg; lia).
  assert (2 ^ Z.of_nat k ≤ 2 ^ 31) by (apply Z.pow_le_mono_r; lia). lia.
Qed.

Lemma land_mask z : 0 ≤ z → Z.land z (table_mask r) = z mod cb_table_size r.
Proof.
  intros Hz. destruct slots_pos as (Hp & Hs & Hb). destruct Hsize as (k & Hk & Hsz).
  unfold table_mask. rewrite u32_id by ulia. rewrite Hsz.
  replace (2 ^ Z.of_nat k - 1) with (Z.ones (Z.of_nat k)) by (rewrite Z.ones_equiv; lia).
  apply Z.land_ones. lia.
Qed.

Lemma first_probe_lt host port : (first_probe r host port < slots r)%nat.
Proof.
  destruct slots_pos as (Hp & Hs & Hb). unfold first_probe.
  destruct Hsize as (k & Hk & Hsz). unfold table_mask. rewrite u32_id by ulia. rewrite Hsz.
  replace (2 ^ Z.of_nat k - 1) with (Z.ones (Z.of_nat k)) by (rewrite Z.ones_equiv; lia).
  rewrite Z.land_ones by lia. rewrite <- Hsz.
  pose proof (Z.mod_pos_bound (entry_hash host port) (cb_table_size r) ltac:(lia)). lia.
Qed.

Lemma next_probe_mod i : (i < slots r)%nat → next_probe r i = ((i + 1) mod slots r)%nat.
Proof.
  intros Hi. destruct slots_pos as (Hp & Hs & Hb). unfold next_probe.
  rewrite u32_id by ulia. rewrite land_mask by lia. rewrite <- Hs.
  replace (Z.of_nat i + 1) with (Z.of_nat (i + 1)) by lia.
  by rewrite <- Nat2Z.inj_mod, Nat2Z.id.
Qed.

Lemma probe_mod host port d : probe r host port d = ((first_probe r host port + d) mod slots r)%nat.
Proof.
  destruct slots_pos as (Hp & _). induction d as [|d IH].
  - rewrite Nat.add_0_r, Nat.mod_small by apply first_probe_lt. done.
  - change (probe r host port (S d)) with (next_probe r (probe r host port d)). rewrite IH.
    rewrite next_probe_mod by (apply Nat.mod_upper_bound; lia).
    rewrite Nat.Div0.add_mod_idemp_l. f_equal. lia.
Qed.

Lemma probe_lt host port d : (probe r host port d < slots r)%nat.
Proof. rewrite probe_mod. apply Nat.mod_upper_bound. destruct slots_pos. lia. Qed.

Lemma probe_inj host port d d' :
  (d < slots r)%nat → (d' < slots r)%nat → probe r host port d = probe r host port d' → d = d'.
Proof.
  rewrite !probe_mod. pose proof (first_probe_lt host port) as Hf. set (f := first_probe r host port) in *.
  intros Hd Hd'.
  assert (Hmod : ∀ x, (x < slots r)%nat →
    ((f + x) mod slots r = if decide (f + x < slots r) then f + x else f + x - slots r)%nat).
  { intros x Hx. destruct (decide _); [by apply Nat.mod_small|]. symmetry. apply Nat.mod_unique with 1%nat; lia. }
  rewrite !Hmod by done. destruct (decide _), (decide _); lia.
Qed.

(** Every slot is probed. *)
Lemma probe_surj host port i : (i < slots r)%nat → ∃ d, (d < slots r)%nat ∧ probe r host port d = i.
Proof.
  intros Hi. pose proof (first_probe_lt host port) as Hf.
  exists ((i + slots r - first_probe r host port) mod slots r)%nat.
  split; [apply Nat.mod_upper_bound; lia|]. rewrite probe_mod, Nat.Div0.add_mod_idemp_r.
  replace (first_probe r host port + (i + slots r - first_probe r host port))%nat with (i + 1 * slots r)%nat by lia.
  rewrite Nat.Div0.mod_add. by apply Nat.mod_small.
Qed.
End probing.

(** The least number with a decidable property. *)
Lemma least_below (P : nat → Prop) `{∀ i, Decision (P i)} n :
  (∃ i, (i < n)%nat ∧ P i) → ∃ i, (i < n)%nat ∧ P i ∧ ∀ j, (j < i)%nat → ¬ P j.
Proof.
  assert (Hk : ∀ k, (∀ j, (j < k)%nat → ¬ P j) ∨
    ∃ i, (i < k)%nat ∧ P i ∧ ∀ j, (j < i)%nat → ¬ P j).
  { induction k as [|k IH]; [left; lia|]. destruct IH as [Hno|(i & Hi & HP)]; [|right; exists i; split; [lia|done]].
    destruct (decide (P k)); [right; exists k; split; [lia|done]|left]. intros j Hj.
    destruct (decide (j = k)) as [->|]; [done|apply Hno; lia]. }
  intros (i & Hi & HP). destruct (Hk n) as [Hno|Hyes]; [by destruct (Hno i Hi)|done].
Qed.

(** ** Searching *)
Section searching.
Variable r : cb_registry.
Hypothesis Hwf : table_wf r.

Lemma slot_position host port d : ∃ e, cb_table r !! probe r host port d = Some e.
Proof. apply lookup_lt_is_Some. rewrite (tw_len _ Hwf). apply probe_lt, (tw_size _ Hwf). Qed.

Lemma cb_match_key host port e : cb_match host port e = true ↔ cb_key e = (host, port).
Proof.
  unfold cb_match, cb_key. rewrite andb_true_iff, Z.eqb_eq. destruct (streq_spec (cb_host e) host); [|naive_solver].
  split; [intros [-> _]; congruence|intros [= _ ->]; done].
Qed.

(** What the search returns holds the host. *)
Lemma find_loop_sound host port k : ∀ i j,
  table_find_loop r host port k i = Some j → ∃ e, holds r j (host, port) e.
Proof.
  induction k as [|k IH]; intros i j Hf; simpl in Hf; [done|].
  destruct (cb_table r !! i) as [e|] eqn:Hi; [|done].
  destruct (cb_occupied e) eqn:Ho; simpl in Hf; [|done].
  destruct (cb_match host port e) eqn:Hm; [|by eapply IH].
  injection Hf as <-. exists e. split; [done|]. split; [done|by apply cb_match_key].
Qed.

(** A slot on the way is not skipped, and every slot before it is passed. *)
Lemma find_loop_complete host port j e d :
  holds r j (host, port) e → (d < slots r)%nat → j = probe r host port d →
  (∀ d', (d' < d)%nat → occupied_at r (probe r host port d')) →
  ∀ k i, (i ≤ d)%nat → (d - i < k)%nat → table_find_loop r host port k (probe r host port i) = Some j.
Proof.
  intros Hh Hd -> Hpath. induction k as [|k IH]; intros i Hi Hk; [lia|]. cbn [table_find_loop].
  destruct (decide (i = d)) as [->|Hne].
  - destruct Hh as (He & Ho & Hkey). rewrite He, Ho. simpl. by rewrite (proj2 (cb_match_key _ _ _) Hkey).
  - destruct (Hpath i ltac:(lia)) as (e' & He' & Ho'). rewrite He', Ho'. simpl.
    destruct (cb_match host port e') eqn:Hm.
    + apply cb_match_key in Hm. exfalso. apply Hne.
      apply (probe_inj r (tw_size _ Hwf) host port); [lia|done|].
      by apply (tw_unique _ Hwf _ _ (host, port) e' e).
    + apply (IH (S i)); lia.
Qed.

Lemma table_find_spec host port j :
  table_find r host port = Some j ↔ ∃ e, holds r j (host, port) e.
Proof.
  split; [apply find_loop_sound|]. intros (e & He).
  destruct (tw_path _ Hwf _ _ _ He) as (d & Hd & Hj & Hpath). simpl in Hj, Hpath.
  unfold table_find. change (first_probe r host port) with (probe r host port 0).
  apply (find_loop_complete host port j e d); try done; fold (slots r); lia.
Qed.

Lemma table_find_none host port : table_find r host port = None ↔ ∀ j e, ¬ holds r j (host, port) e.
Proof.
  split.
  - intros Hf j e He. assert (table_find r host port = Some j) by (apply table_find_spec; by exists e). congruence.
  - intros Hno. destruct (table_find r host port) as [j|] eqn:Hf; [|done].
    apply table_find_spec in Hf as [e He]. by destruct (Hno j e).
Qed.

(** The scan of an insertion finds the same slot, *)
Lemma scan_present host port j e d :
  holds r j (host, port) e → (d < slots r)%nat → j = probe r host port d →
  ∀ k i empty, (i ≤ d)%nat → (d - i < k)%nat → table_scan r host port k (probe r host port i) empty = inl j.
Proof.
  intros Hh Hd ->. induction k as [|k IH]; intros i empty Hi Hk; [lia|]. cbn [table_scan].
  destruct (slot_position host port i) as [e' He']. rewrite He'.
  destruct (cb_occupied e' && cb_match host port e') eqn:Hm.
  - apply andb_true_iff in Hm as [Ho Hm%cb_match_key]. f_equal.
    by apply (tw_unique _ Hwf _ _ (host, port) e' e).
  - destruct (decide (i = d)) as [->|Hne]; [|apply (IH (S i)); lia].
    destruct Hh as (He & Ho & Hkey). rewrite He in He'. injection He' as <-.
    rewrite Ho, (proj2 (cb_match_key _ _ _) Hkey) in Hm. done.
Qed.

(** or, if no slot holds the host, the first empty one on the way. *)
Lemma scan_found host port k : ∀ i s,
  (∀ j e, ¬ holds r j (host, port) e) →
  table_scan r host port k (probe r host port i) (Some s) = inr (Some s).
Proof.
  induction k as [|k IH]; intros i s Hno; [done|]. cbn [table_scan].
  destruct (slot_position host port i) as [e He]. rewrite He.
  destruct (cb_occupied e && cb_match host port e) eqn:Hm.
  - apply andb_true_iff in Hm as [Ho Hm%cb_match_key]. by destruct (Hno _ _ (conj He (conj Ho Hm))).
  - replace (if negb (cb_occupied e) then Some s else Some s) with (Some s) by by destruct (negb _).
    by apply (IH (S i)).
Qed.

Lemma scan_absent host port d e :
  (∀ j e, ¬ holds r j (host, port) e) → cb_table r !! probe r host port d = Some e → cb_occupied e = false →
  (∀ d', (d' < d)%nat → occupied_at r (probe r host port d')) →
  ∀ k i, (i ≤ d)%nat → (d - i < k)%nat →
    table_scan r host port k (probe r host port i) None = inr (Some (probe r host port d)).
Proof.
  intros Hno He Ho Hpath. induction k as [|k IH]; intros i Hi Hk; [lia|]. cbn [table_scan].
  destruct (decide (i = d)) as [->|Hne].
  - rewrite He, Ho. simpl. by apply (scan_found host port k (S d)).
  - destruct (Hpath i ltac:(lia)) as (e' & He' & Ho'). rewrite He', Ho'. simpl.
    destruct (cb_match host port e') eqn:Hm; [|apply (IH (S i)); lia].
    apply cb_match_key in Hm. by destruct (Hno _ _ (conj He' (conj Ho' Hm))).
Qed.

(** There is one as long as a slot is free. *)
Lemma free_slot host port :
  cb_occupied_count r < cb_table_size r →
  ∃ d e, (d < slots r)%nat ∧ cb_table r !! probe r host port d = Some e ∧ cb_occupied e = false ∧
    ∀ d', (d' < d)%nat → occupied_at r (probe r host port d').
Proof.
  intros Hroom. destruct (slots_pos r (tw_size _ Hwf)) as (Hp & Hs & _).
  assert (Hfree : ∃ i e, cb_table r !! i = Some e ∧ cb_occupied e = false).
  { rewrite (tw_count _ Hwf) in Hroom. pose proof (tw_len _ Hwf) as Hlen.
    assert (Hlt : (length (List.filter cb_occupied (cb_table r)) < length (cb_table r))%nat) by lia.
    clear -Hlt. induction (cb_table r) as [|e t IH]; simpl in Hlt; [lia|].
    destruct (cb_occupied e) eqn:Ho; [|by exists 0%nat, e]. simpl in Hlt.
    destruct IH as (i & e' & Hi & Ho'); [lia|]. by exists (S i), e'. }
  destruct Hfree as (i & e & Hi & Ho).
  assert (Hil : (i < slots r)%nat) by (rewrite <- (tw_len _ Hwf); by eapply lookup_lt_Some).
  destruct (least_below (λ d, cb_occupied <$> cb_table r !! probe r host port d = Some false) (slots r))
    as (d & Hd & Hdo & Hmin).
  - destruct (probe_surj r (tw_size _ Hwf) host port i Hil) as (d & Hd & Hpd). exists d.
    split; [done|]. rewrite Hpd, Hi. simpl. by rewrite Ho.
  - apply fmap_Some in Hdo as (e' & He' & Ho'). exists d, e'. split; [done|]. split; [done|]. split; [done|].
    intros d' Hd'. destruct (slot_position host port d') as [x Hx]. exists x. split; [done|].
    specialize (Hmin d' Hd'). rewrite Hx in Hmin. simpl in Hmin. by destruct (cb_occupied x).
Qed.
End searching.

(** ** Refinement: the registry as a map from hosts to breakers *)

Section hosts.
Variables failure_threshold window_ms base_recovery_ms max_entries : Z.

Definition hosts_step (op : cb_op) (m : gmap (list Z * Z) breaker) : cb_answer * gmap (list Z * Z) breaker :=
  match op with
  | CbFast host port =>
      (CbFastAnswer
         (match m !! (host, port) with
          | None => Some true
          | Some b => if bool_decide (br_state b = CB_STATE_CLOSED) then Some true else None
          end), m)
  | CbSlow host port now =>
      match m !! (host, port) with
      | None => (CbSlowAnswer true, m)
      | Some b => let '(a, b) := breaker_admit now b in (CbSlowAnswer a, <[(host, port) := b]> m)
      end
  | CbSuccess host port =>
      (CbDone,
       match m !! (host, port) with
       | Some b => <[(host, port) := breaker_success base_recovery_ms b]> m
       | None => m
       end)
  | CbFailure host port now =>
      let b := default (breaker_new base_recovery_ms) (m !! (host, port)) in
      (CbDone, <[(host, port) := breaker_failure failure_threshold window_ms now b]> m)
  | CbGetState host port =>
      (CbStateAnswer (match m !! (host, port) with None => CB_STATE_CLOSED | Some b => br_state b end), m)
  end.

Fixpoint hosts_run (ops : list cb_op) (m : gmap (list Z * Z) breaker) :
    list cb_answer * gmap (list Z * Z) breaker :=
  match ops with
  | [] => ([], m)
  | op :: ops =>
      let '(a, m) := hosts_step op m in let '(answers, m) := hosts_run ops m in (a :: answers, m)
  end.

Record represents (r : cb_registry) (m : gmap (list Z * Z) breaker) : Prop := {
  rp_wf : table_wf r;
  rp_single : lru_single r;
  rp_map : ∀ key b, m !! key = Some b ↔ ∃ i e, holds r i key e ∧ cb_breaker e = b;
  rp_size : Z.of_nat (size m) = cb_occupied_count r;
  rp_params : cb_failure_threshold r = failure_threshold ∧ cb_window_ms r = window_ms ∧
    cb_base_recovery_ms r = base_recovery_ms ∧ cb_max_entries r = max_entries
}.

(** A host that fits a slot. *)
Definition host_ok (host : list Z) : Prop := cstr_ok host ∧ (length host ≤ 255)%nat.

Definition op_host (op : cb_op) : list Z :=
  match op with
  | CbFast h _ | CbSlow h _ _ | CbSuccess h _ | CbFailure h _ _ | CbGetState h _ => h
  end.

Lemma filter_alter_same (f : cb_entry → cb_entry) t i :
  (∀ e, t !! i = Some e → cb_occupied (f e) = cb_occupied e) →
  length (List.filter cb_occupied (alter f i t)) = length (List.filter cb_occupied t).
Proof.
  revert i. induction t as [|e t IH]; intros [|i] Hf; simpl; [done|done| |].
  - rewrite (Hf e eq_refl). by destruct (cb_occupied e).
  - destruct (cb_occupied e); simpl; [f_equal|]; apply (IH i Hf).
Qed.

(** What the slots hold after a change of one that keeps its host. *)
Lemma holds_update r i e f j key x :
  cb_table r !! i = Some e → cb_occupied (f e) = cb_occupied e → cb_key (f e) = cb_key e →
  holds (cb_update i f r) j key x ↔ (j = i ∧ x = f e ∧ holds r i key e) ∨ (j ≠ i ∧ holds r j key x).
Proof.
  intros Hi Ho Hk. unfold holds, cb_update. simpl. destruct (decide (j = i)) as [->|Hne].
  - rewrite list_lookup_alter_eq, Hi. simpl. split.
    + intros ([= <-] & Hox & Hkx). left. split; [done|]. split; [done|].
      split; [done|]. by rewrite <- Ho, <- Hk.
    + intros [(_ & -> & _ & Hox & Hkx)|[? _]]; [|done]. by rewrite Ho, Hk.
  - rewrite list_lookup_alter_ne by done. naive_solver.
Qed.

Lemma occupied_update r i e f j :
  cb_table r !! i = Some e → cb_occupied (f e) = cb_occupied e →
  occupied_at r j → occupied_at (cb_update i f r) j.
Proof.
  intros Hi Ho (x & Hx & Hox). unfold occupied_at, cb_update. simpl.
  destruct (decide (i = j)) as [->|Hne].
  - rewrite list_lookup_alter_eq, Hi. simpl. exists (f e). split; [done|]. rewrite Hi in Hx. simplify_eq. by rewrite Ho.
  - rewrite list_lookup_alter_ne by done. by exists x.
Qed.

Lemma table_wf_update r i e f :
  table_wf r → cb_table r !! i = Some e → cb_occupied (f e) = cb_occupied e → cb_key (f e) = cb_key e →
  table_wf (cb_update i f r).
Proof.
  intros Hw Hi Ho Hk. pose proof (holds_update r i e f) as Hh. split; try apply Hw.
  - unfold cb_update. simpl. rewrite length_alter. apply Hw.
  - unfold cb_update. simpl. rewrite filter_alter_same; [apply Hw|]. intros x Hx. rewrite Hi in Hx. by simplify_eq.
  - intros j key x [(-> & _ & Hx)|[_ Hx]]%Hh; try done;
      destruct (tw_path _ Hw _ _ _ Hx) as (d & Hd & Hj & Hpath); exists d; split; try done; split; try done;
      intros d' Hd'; by eapply occupied_update, Hpath.
  - intros j j' key x x' [(-> & _ & Hx)|[_ Hx]]%Hh [(-> & _ & Hx')|[_ Hx']]%Hh; try done;
      by eapply (tw_unique _ Hw).
Qed.

(** A change of the breaker of a host. *)
Lemma represents_update r m i key e b :
  represents r m → holds r i key e →
  represents (cb_update i (cb_set_breaker b) r) (<[key := b]> m).
Proof.
  intros Hr He. destruct (He) as (Hi & Ho & Hk). destruct Hr as [Hw Hs Hm Hsz Hp].
  assert (Hh : ∀ j key x, holds (cb_update i (cb_set_breaker b) r) j key x ↔
    (j = i ∧ x = cb_set_breaker b e ∧ holds r i key e) ∨ (j ≠ i ∧ holds r j key x))
    by (intros; by apply holds_update).
  split; [by eapply table_wf_update|by apply cb_update_single| | |done].
  - intros key' b'. destruct (decide (key = key')) as [->|Hne].
    + rewrite lookup_insert_eq. split.
      * intros [= <-]. exists i, (cb_set_breaker b e). split; [|done]. apply Hh. by left.
      * intros (j & x & [(-> & -> & _)|[Hj Hx]]%Hh & Hb); [by rewrite <- Hb|].
        by destruct Hj; apply (tw_unique _ Hw j i key' x e).
    + rewrite lookup_insert_ne by done. rewrite Hm. split.
      * intros (j & x & Hx & Hb). exists j, x. split; [|done]. apply Hh. right. split; [|done].
        intros ->. destruct Hx as (Hx & _ & Hkx). rewrite Hi in Hx. simplify_eq.
      * intros (j & x & [(-> & -> & Hx)|[Hj Hx]]%Hh & Hb); [|by exists j, x].
        destruct Hx as (_ & _ & Hkx). congruence.
  - simpl. rewrite <- Hsz. f_equal. apply map_size_insert_Some. exists (cb_breaker e). apply Hm. by exists i, e.
Qed.

(** An insertion into an empty slot. *)
Definition inserted (r : cb_registry) (i : nat) (host : list Z) (port : Z) : cb_registry :=
  cb_set_count (u32 (cb_occupied_count r + 1)) (cb_update i (λ _, new_entry r host port) r).

Lemma holds_insert r i e host port j key x :
  cb_table r !! i = Some e → cb_occupied e = false → host_ok host →
  holds (inserted r i host port) j key x ↔
    (j = i ∧ x = new_entry r host port ∧ key = (host, port)) ∨ (j ≠ i ∧ holds r j key x).
Proof.
  intros Hi Ho [Hc Hlen]. unfold holds, inserted, cb_update. simpl. destruct (decide (j = i)) as [->|Hne].
  - rewrite list_lookup_alter_eq, Hi. simpl. split.
    + intros ([= <-] & _ & <-). left. unfold cb_key, new_entry. simpl. by rewrite strncpy_id.
    + intros [(_ & -> & ->)|[? _]]; [|done]. unfold cb_key, new_entry. simpl. by rewrite strncpy_id.
  - rewrite list_lookup_alter_ne by done. naive_solver.
Qed.

Lemma filter_alter_insert (f : cb_entry → cb_entry) t i e :
  t !! i = Some e → cb_occupied e = false → cb_occupied (f e) = true →
  length (List.filter cb_occupied (alter f i t)) = S (length (List.filter cb_occupied t)).
Proof.
  revert i. induction t as [|x t IH]; intros [|i] Hi He Hf; simplify_eq/=.
  - by rewrite Hf, He.
  - destruct (cb_occupied x); simpl; [f_equal|]; by apply (IH i).
Qed.

Lemma occupied_insert r i host port j :
  occupied_at r j → is_Some (cb_table r !! i) → occupied_at (inserted r i host port) j.
Proof.
  intros (x & Hx & Hox) [e Hi]. unfold occupied_at, inserted, cb_update. simpl.
  destruct (decide (i = j)) as [->|Hne].
  - rewrite list_lookup_alter_eq, Hi. simpl. by eexists.
  - rewrite list_lookup_alter_ne by done. by exists x.
Qed.

Lemma table_wf_insert r e host port d :
  table_wf r → host_ok host → (∀ j x, ¬ holds r j (host, port) x) → (d < slots r)%nat →
  cb_table r !! probe r host port d = Some e → cb_occupied e = false →
  (∀ d', (d' < d)%nat → occupied_at r (probe r host port d')) →
  table_wf (inserted r (probe r host port d) host port).
Proof.
  intros Hw Hhost Hno Hd Hi Ho Hpath. set (i := probe r host port d) in *.
  assert (Hh : ∀ j key x, holds (inserted r i host port) j key x ↔
    (j = i ∧ x = new_entry r host port ∧ key = (host, port)) ∨ (j ≠ i ∧ holds r j key x))
    by (intros; by eapply holds_insert).
  assert (Hocc : ∀ j, occupied_at r j → occupied_at (inserted r i host port) j)
    by (intros j Hj; apply occupied_insert; [done|by eexists]).
  destruct (slots_pos r (tw_size _ Hw)) as (_ & Hs & Hb).
  split; try apply Hw.
  - unfold inserted, cb_update. simpl. rewrite length_alter. apply Hw.
  - unfold inserted, cb_update. simpl. rewrite (filter_alter_insert _ _ _ e) by done.
    pose proof (tw_count _ Hw) as Hcount. pose proof (List.filter_length_le cb_occupied (cb_table r)).
    pose proof (tw_len _ Hw). rewrite u32_id by ulia. lia.
  - intros j key x [(-> & _ & ->)|[_ Hx]]%Hh.
    + exists d. split; [done|]. split; [done|]. intros d' Hd'. by apply Hocc, Hpath.
    + destruct (tw_path _ Hw _ _ _ Hx) as (d2 & Hd2 & Hj & Hpath2). exists d2. split; [done|]. split; [done|].
      intros d' Hd'. by apply Hocc, Hpath2.
  - intros j j' key x x' [(-> & _ & ->)|[_ Hx]]%Hh [(-> & _ & Hk)|[_ Hx']]%Hh; try done.
    + by destruct (Hno j' x').
    + rewrite Hk in Hx. by destruct (Hno j x).
    + by eapply (tw_unique _ Hw).
Qed.

Lemma represents_insert r m e host port d :
  represents r m → host_ok host → m !! (host, port) = None → (d < slots r)%nat →
  cb_table r !! probe r host port d = Some e → cb_occupied e = false →
  (∀ d', (d' < d)%nat → occupied_at r (probe r host port d')) →
  represents (inserted r (probe r host port d) host port)
    (<[(host, port) := breaker_new base_recovery_ms]> m).
Proof.
  intros [Hw Hs Hm Hsz Hp] Hhost Hnone Hd Hi Ho Hpath.
  assert (Hno : ∀ j x, ¬ holds r j (host, port) x).
  { intros j x Hx. assert (m !! (host, port) = Some (cb_breaker x)) by (apply Hm; by exists j, x). congruence. }
  pose proof (table_wf_insert r e host port d Hw Hhost Hno Hd Hi Ho Hpath) as Hw'.
  set (i := probe r host port d) in *.
  assert (Hh : ∀ j key x, holds (inserted r i host port) j key x ↔
    (j = i ∧ x = new_entry r host port ∧ key = (host, port)) ∨ (j ≠ i ∧ holds r j key x))
    by (intros; by eapply holds_insert).
  split; [done| | | |done].
  - destruct (cb_update_single i (λ _, new_entry r host port) r Hs ltac:(done)) as [Hall Hends]. by split.
  - intros key b. destruct (decide (key = (host, port))) as [->|Hne].
    + rewrite lookup_insert_eq. destruct Hp as (_ & _ & Hbase & _). split.
      * intros [= <-]. exists i, (new_entry r host port). split; [apply Hh; by left|]. simpl. by rewrite Hbase.
      * intros (j & x & [(_ & -> & _)|[_ Hx]]%Hh & Hb); [|by destruct (Hno j x)].
        rewrite <- Hb. simpl. by rewrite Hbase.
    + rewrite lookup_insert_ne by done. rewrite Hm. split.
      * intros (j & x & Hx & Hb). exists j, x. split; [|done]. apply Hh. right. split; [|done].
        intros ->. destruct Hx as (Hx & Hox & _). rewrite Hi in Hx. simplify_eq. congruence.
      * intros (j & x & [(_ & _ & ->)|[_ Hx]]%Hh & Hb); [done|by exists j, x].
  - simpl. rewrite map_size_insert_None by done. destruct (slots_pos r (tw_size _ Hw)) as (_ & Hsl & Hb).
    pose proof (tw_count _ Hw). pose proof (List.filter_length_le cb_occupied (cb_table r)). pose proof (tw_len _ Hw).
    rewrite u32_id by ulia. lia.
Qed.

Lemma represents_touch r m i e : represents r m → cb_table r !! i = Some e → represents (lru_touch r i) m.
Proof.
  intros [Hw Hs Hm Hsz Hp] Hi. rewrite (lru_touch_single r i e Hs Hi).
  split; [|by apply set_last_single|done|done|done].
  destruct Hw as [H1 H2 H3 H4 H5 H6]. by split.
Qed.

(** What the search tells about the map. *)
Lemma represents_find r m host port :
  represents r m →
  match table_find r host port with
  | None => m !! (host, port) = None
  | Some i => ∃ e, holds r i (host, port) e ∧ m !! (host, port) = Some (cb_breaker e)
  end.
Proof.
  intros [Hw Hs Hm Hsz Hp]. destruct (table_find r host port) as [i|] eqn:Hf.
  - apply (table_find_spec r Hw) in Hf as [e He]. exists e. split; [done|]. apply Hm. by exists i, e.
  - destruct (m !! (host, port)) as [b|] eqn:Hb; [|done].
    apply Hm in Hb as (i & e & He & _). by apply (table_find_none r Hw host port) with (1 := Hf) in He.
Qed.

(** A failure finds or makes an entry. *)
Lemma represents_find_or_insert r m host port :
  represents r m → host_ok host → (m !! (host, port) = None → Z.of_nat (size m) < max_entries) →
  ∃ i r' e, table_find_or_insert r host port = (Some i, r') ∧ holds r' i (host, port) e ∧
    represents r' (<[(host, port) := default (breaker_new base_recovery_ms) (m !! (host, port))]> m) ∧
    cb_breaker e = default (breaker_new base_recovery_ms) (m !! (host, port)).
Proof.
  intros Hr Hhost Hroom. pose proof Hr as [Hw Hs Hm Hsz Hp]. unfold table_find_or_insert.
  change (first_probe r host port) with (probe r host port 0). fold (slots r).
  destruct (m !! (host, port)) as [b|] eqn:Hb.
  - destruct (proj1 (Hm _ _) Hb) as (i & e & He & Heb).
    destruct (tw_path _ Hw _ _ _ He) as (d & Hd & Hj & _). simpl in Hj.
    rewrite (scan_present r Hw host port i e d He Hd Hj) by lia.
    exists i, r, e. split; [done|]. split; [done|]. simpl. split; [|done]. by rewrite insert_id.
  - assert (Hno : ∀ j x, ¬ holds r j (host, port) x).
    { intros j x Hx. assert (m !! (host, port) = Some (cb_breaker x)) by (apply Hm; by exists j, x). congruence. }
    specialize (Hroom eq_refl). destruct Hp as (_ & _ & _ & Hmax).
    destruct (free_slot r Hw host port) as (d & e & Hd & He & Ho & Hpath); [pose proof (tw_room _ Hw); lia|].
    rewrite (scan_absent r Hw host port d e Hno He Ho Hpath) by lia.
    destruct (Z.ltb_spec (cb_occupied_count r) (cb_max_entries r)); [|lia].
    fold (inserted r (probe r host port d) host port).
    exists (probe r host port d), (inserted r (probe r host port d) host port), (new_entry r host port).
    split; [done|]. split; [by apply (holds_insert r _ e); [..|by left]|]. simpl.
    split; [by eapply represents_insert|]. by rewrite (proj1 (proj2 (proj2 (rp_params _ _ Hr)))).
Qed.

Lemma update_breaker_eq r i e (g : breaker → breaker) :
  cb_table r !! i = Some e →
  cb_update i (λ e, cb_set_breaker (g (cb_breaker e)) e) r = cb_update i (cb_set_breaker (g (cb_breaker e))) r.
Proof.
  intros Hi. unfold cb_update. f_equal. apply list_eq. intros j. destruct (decide (i = j)) as [<-|Hne].
  - by rewrite !list_lookup_alter_eq, Hi.
  - by rewrite !list_lookup_alter_ne.
Qed.

(** A change of the breaker of a host, with the slot moved to the front. *)
Lemma represents_change r m i e key (g : breaker → breaker) :
  represents r m → holds r i key e →
  represents (lru_touch (cb_update i (λ e, cb_set_breaker (g (cb_breaker e)) e) r) i)
    (<[key := g (cb_breaker e)]> m).
Proof.
  intros Hr He. pose proof He as (Hi & _). rewrite (update_breaker_eq r i e) by done.
  eapply represents_touch; [by eapply represents_update|]. simpl. by rewrite list_lookup_alter_eq, Hi.
Qed.

Lemma represents_fast r m h p :
  represents r m →
  cb_is_allowed_fast r h p =
    match m !! (h, p) with
    | None => Some true
    | Some b => if bool_decide (br_state b = CB_STATE_CLOSED) then Some true else None
    end.
Proof.
  intros Hr. unfold cb_is_allowed_fast. pose proof (represents_find r m h p Hr) as Hf.
  destruct (table_find r h p) as [i|]; [|by rewrite Hf]. destruct Hf as (e & (Hi & _) & ->). by rewrite Hi.
Qed.

Lemma represents_slow r m h p now :
  represents r m →
  (cb_step (CbSlow h p now) r).1 = (hosts_step (CbSlow h p now) m).1 ∧
  represents (cb_step (CbSlow h p now) r).2 (hosts_step (CbSlow h p now) m).2.
Proof.
  intros Hr. simpl. unfold cb_is_allowed_slow. pose proof (represents_find r m h p Hr) as Hf.
  destruct (table_find r h p) as [i|]; [|by rewrite Hf]. destruct Hf as (e & He & ->).
  pose proof He as (Hi & _). rewrite Hi. destruct (breaker_admit now (cb_breaker e)) as [a b]. simpl.
  split; [done|]. pose proof (represents_update r m i (h, p) e b Hr He) as Hu.
  assert (Hi' : cb_table (cb_update i (cb_set_breaker b) r) !! i = Some (cb_set_breaker b e))
    by (simpl; by rewrite list_lookup_alter_eq, Hi).
  destruct (br_state (cb_breaker e)), a; try exact Hu; by eapply represents_touch.
Qed.

Lemma represents_step op r m :
  represents r m → host_ok (op_host op) → Z.of_nat (size (hosts_step op m).2) ≤ max_entries →
  (cb_step op r).1 = (hosts_step op m).1 ∧ represents (cb_step op r).2 (hosts_step op m).2.
Proof.
  intros Hr Hhost Hsz. destruct op as [h p|h p now|h p|h p now|h p]; simpl in *.
  - split; [f_equal; by apply represents_fast|done].
  - by apply represents_slow.
  - split; [done|]. unfold cb_record_success. pose proof (represents_find r m h p Hr) as Hf.
    destruct (table_find r h p) as [i|]; [|by rewrite Hf]. destruct Hf as (e & He & ->).
    pose proof (represents_change r m i e (h, p) (breaker_success (cb_base_recovery_ms r)) Hr He) as Hc.
    rewrite (proj1 (proj2 (proj2 (rp_params _ _ Hr)))) in Hc |- *. exact Hc.
  - split; [done|]. unfold cb_record_failure.
    destruct (represents_find_or_insert r m h p Hr Hhost) as (i & r' & e & -> & He & Hr' & Hb).
    { intros Hnone. rewrite map_size_insert_None in Hsz by done. lia. }
    pose proof (represents_change r' _ i e (h, p) (breaker_failure (cb_failure_threshold r') (cb_window_ms r') now) Hr' He) as Hc.
    destruct (rp_params _ _ Hr') as (Ht & Hwin & _).
    rewrite Hb, insert_insert_eq in Hc. rewrite Ht, Hwin in Hc |- *. exact Hc.
  - split; [|done]. f_equal. unfold cb_get_state. pose proof (represents_find r m h p Hr) as Hf.
    destruct (table_find r h p) as [i|]; [|by rewrite Hf]. destruct Hf as (e & (Hi & _) & ->). by rewrite Hi.
Qed.

Lemma hosts_step_grows op m : (size m ≤ size (hosts_step op m).2)%nat.
Proof.
  assert (Hins : ∀ key (b : breaker), (size m ≤ size (<[key := b]> m))%nat).
  { intros key b. destruct (m !! key) eqn:Hk;
      [rewrite map_size_insert_Some by (by eexists)|rewrite map_size_insert_None by done]; lia. }
  destruct op as [h p|h p now|h p|h p now|h p]; simpl; try done; try apply Hins;
    destruct (m !! (h, p)) as [b|]; try done; try apply Hins. destruct (breaker_admit now b). apply Hins.
Qed.

Lemma hosts_run_grows ops : ∀ m, (size m ≤ size (hosts_run ops m).2)%nat.
Proof.
  induction ops as [|op ops IH]; intros m; [done|]. simpl. pose proof (hosts_step_grows op m) as Hs.
  destruct (hosts_step op m) as [a m1]. specialize (IH m1). destruct (hosts_run ops m1). simpl in *. lia.
Qed.

Lemma represents_run ops : ∀ r m,
  represents r m → Forall (λ op, host_ok (op_host op)) ops →
  Z.of_nat (size (hosts_run ops m).2) ≤ max_entries →
  (cb_run ops r).1 = (hosts_run ops m).1 ∧ represents (cb_run ops r).2 (hosts_run ops m).2.
Proof.
  induction ops as [|op ops IH]; intros r m Hr Hops Hsz; [done|].
  apply Forall_cons_iff in Hops as [Hop Hops]. simpl in *.
  pose proof (hosts_run_grows ops (hosts_step op m).2) as Hg.
  pose proof (represents_step op r m Hr Hop) as Hstep.
  destruct (hosts_step op m) as [a m1]. cbn [fst snd] in *.
  destruct (hosts_run ops m1) as [answers m2] eqn:Hrun. cbn [fst snd] in *.
  destruct Hstep as [Ha Hr1]; [lia|]. destruct (cb_step op r) as [a' r1]. cbn [fst snd] in *.
  specialize (IH r1 m1 Hr1 Hops). rewrite Hrun in IH. destruct (IH Hsz) as [Hans Hr2].
  destruct (cb_run ops r1) as [answers' r2]. cbn [fst snd] in *. split; [congruence|done].
Qed.
End hosts.

(** ** The theorems *)

Lemma create_represents fuel cfg r :
  0 < or_else cfg cfg_max_entries CB_DEFAULT_MAX_ENTRIES ≤ 2 ^ 30 →
  cb_registry_create fuel cfg = Some r →
  represents (cb_failure_threshold r) (cb_window_ms r) (cb_base_recovery_ms r) (cb_max_entries r) r ∅.
Proof.
  intros Hmax Hcreate. pose proof (create_single _ _ _ Hcreate) as Hs.
  revert Hcreate. unfold cb_registry_create.
  set (max := or_else cfg cfg_max_entries CB_DEFAULT_MAX_ENTRIES) in *.
  assert (Hb : u32 (max * CB_TABLE_LOAD_FACTOR) = max * 2) by (apply u32_id; unfold CB_TABLE_LOAD_FACTOR; ulia).
  rewrite Hb. destruct (size_loop_pow 0 (max * 2) 32) as (j & Hj & Hl & Hbj); [lia..|].
  change (2 ^ Z.of_nat 0) with 1 in Hl.
  destruct (table_size_loop fuel 1 (max * 2)) as [sz|] eqn:Hf; [|done]. simpl. intros [= <-].
  assert (sz = 2 ^ Z.of_nat j) as ->.
  { pose proof (size_loop_more _ (Nat.max fuel 32) _ _ _ Hf ltac:(lia)).
    pose proof (size_loop_more _ (Nat.max fuel 32) _ _ _ Hl ltac:(lia)). congruence. }
  assert (Hempty : ∀ i e, replicate (Z.to_nat (2 ^ Z.of_nat j)) empty_entry !! i = Some e → cb_occupied e = false)
    by (by intros i e [-> _]%lookup_replicate).
  assert (Hno : ∀ i key e, ¬ holds (CbRegistry (replicate (Z.to_nat (2 ^ Z.of_nat j)) empty_entry)
    (2 ^ Z.of_nat j) 0 max (or_else cfg cfg_failure_threshold CB_DEFAULT_FAILURE_THRESHOLD)
    (or_else cfg cfg_recovery_ms CB_DEFAULT_RECOVERY_MS)
    (or_else cfg cfg_window_ms CB_DEFAULT_WINDOW_MS) None None) i key e).
  { intros i key e (Hi & Ho & _). simpl in Hi. rewrite (Hempty _ _ Hi) in Ho. done. }
  split; [split; simpl| | | |done].
  - exists j. split; [lia|done].
  - by rewrite length_replicate.
  - assert (Hfil : ∀ n, List.filter cb_occupied (replicate n empty_entry) = []) by (by induction n).
    by rewrite Hfil.
  - lia.
  - intros i key e Hh. by destruct (Hno i key e).
  - intros i i' key e e' Hh _. by destruct (Hno i key e).
  - split; [by apply Forall_replicate|done].
  - intros key b. rewrite lookup_empty. split; [done|]. intros (i & e & Hh & _). by destruct (Hno i key e).
  - by rewrite map_size_empty.
Qed.

(** C18: as long as no more hosts have failed than the registry has entries, it is a
    map from hosts to breakers: whatever the hash values, the collisions and the
    interleaving of the two halves of [cb_is_allowed] with the other operations,
    every answer is the one that a separate breaker for every host would give. *)
Theorem cb_registry_refines fuel cfg r ops :
  0 < or_else cfg cfg_max_entries CB_DEFAULT_MAX_ENTRIES ≤ 2 ^ 30 →
  cb_registry_create fuel cfg = Some r → Forall (λ op, host_ok (op_host op)) ops →
  let run := hosts_run (cb_failure_threshold r) (cb_window_ms r) (cb_base_recovery_ms r) ops ∅ in
  Z.of_nat (size run.2) ≤ cb_max_entries r → (cb_run ops r).1 = run.1.
Proof.
  intros Hmax Hcreate Hops run Hsz.
  apply (represents_run _ _ _ _ ops r ∅ (create_represents _ _ _ Hmax Hcreate) Hops Hsz).
Qed.

(** The list of recently used entries is none: in every registry that is
    reachable its two ends are the same slot, the one used last, and no slot is
    linked to another.  So when the registry is full, a new host takes the place of
    the most recently used one. *)
Theorem lru_evicts_newest fuel cfg r0 ops host port i :
  cb_registry_create fuel cfg = Some r0 →
  let r := (cb_run ops r0).2 in
  lru_single r ∧
  (cb_max_entries r ≤ cb_occupied_count r → cb_lru_head r = Some i → is_Some (cb_table r !! i) →
   (∀ j, table_scan r host port (slots r) (first_probe r host port) None ≠ inl j) →
   (table_find_or_insert r host port).1 = Some i ∧
   cb_table (table_find_or_insert r host port).2 = <[i := new_entry r host port]> (cb_table r)).
Proof.
  intros Hcreate r. assert (Hs : lru_single r) by (apply cb_run_single; by eapply create_single).
  split; [done|]. intros Hfull Hhead [e Hi] Hno. unfold table_find_or_insert. fold (slots r).
  destruct (table_scan r host port (slots r) (first_probe r host port) None) as [j|empty]; [by destruct (Hno j)|].
  assert (Hins : match empty with
    | Some i => if cb_occupied_count r <? cb_max_entries r then Some i else None | None => None end = None)
    by (destruct empty; [|done]; by destruct (Z.ltb_spec (cb_occupied_count r) (cb_max_entries r)); [lia|]).
  rewrite Hins. destruct Hs as [Hall Hends]. rewrite <- Hends, Hhead, Hi.
  destruct (Forall_lookup_1 _ _ _ _ Hall Hi) as [-> _]. simpl. split; [done|].
  apply list_eq. intros j. destruct (decide (i = j)) as [<-|Hne].
  - rewrite list_lookup_alter_eq, Hi, list_lookup_insert_eq by by eapply lookup_lt_Some. done.
  - by rewrite list_lookup_alter_ne, list_lookup_insert_ne.
Qed.

(** Failures of a host, one after the other. *)
Definition failures (host : list Z) (port : Z) (times : list Z) (r : cb_registry) : cb_registry :=
  fold_left (λ r t, cb_record_failure r host port t) times r.

(** An entry that takes the place of another is out of reach: in a registry for
    two hosts in which a third one fails again and again, the failures are counted
    in a slot that [table_find] does not come to, and the breaker never opens for
    the third host, while it does for the first two. *)
Theorem evicted_slot_unreachable :
  match cb_registry_create 32 (Some (CbConfig 3 0 0 2)) with
  | Some r =>
      let times := [1; 2; 3; 4; 5; 6] in
      let r := failures [99] 80 times (failures [98] 80 times (failures [97] 80 times r)) in
      cb_get_state r [97] 80 = CB_STATE_OPEN ∧ cb_get_state r [99] 80 = CB_STATE_CLOSED ∧
      (cb_is_allowed r [97] 80 7).1 = false ∧ (cb_is_allowed r [99] 80 7).1 = true
  | None => False
  end.
Proof. vm_compute. split_and!; reflexivity. Qed.

(** ** The cycle of one breaker *)

Section cycle.
Variables threshold window_ms base_recovery_ms : Z.

(** Failures at increasing times, each within the window of the one before. *)
Fixpoint within_window (last : Z) (times : list Z) : Prop :=
  match times with
  | [] => True
  | t :: times => t - last ≤ ms_to_ns window_ms ∧ within_window t times
  end.

Fixpoint last_time (last : Z) (times : list Z) : Z :=
  match times with
  | [] => last
  | t :: times => last_time t times
  end.

Definition fail_all (times : list Z) (b : breaker) : breaker :=
  fold_left (λ b t, breaker_failure threshold window_ms t b) times b.

(** Below the threshold they are counted. *)
Lemma fail_all_counts times : ∀ b,
  br_state b = CB_STATE_CLOSED → within_window (br_last_failure_ns b) times →
  0 ≤ br_failure_count b → br_failure_count b + Z.of_nat (length times) < threshold → is_u32 threshold →
  let b' := fail_all times b in
  br_state b' = CB_STATE_CLOSED ∧ br_failure_count b' = br_failure_count b + Z.of_nat (length times) ∧
  br_last_failure_ns b' = last_time (br_last_failure_ns b) times ∧ br_recovery_ms b' = br_recovery_ms b.
Proof.
  induction times as [|t times IH]; intros b Hst Hw Hc Hlt Hth; simpl in *; [split_and!; [done|lia|done|done]|].
  destruct Hw as [Ht Hw].
  assert (Hb : breaker_failure threshold window_ms t b =
    Breaker CB_STATE_CLOSED (br_failure_count b + 1) t (br_open_until_ns b) (br_recovery_ms b) (br_probe_in_flight b)).
  { unfold breaker_failure. destruct (Z.gtb_spec (t - br_last_failure_ns b) (ms_to_ns window_ms)); [lia|].
    rewrite Hst, bool_decide_eq_false_2 by done. simpl. rewrite u32_id by ulia.
    destruct (Z.geb_spec (br_failure_count b + 1) threshold); [lia|done]. }
  rewrite Hb. destruct (IH (Breaker CB_STATE_CLOSED (br_failure_count b + 1) t (br_open_until_ns b)
    (br_recovery_ms b) (br_probe_in_flight b))) as (H1 & H2 & H3 & H4); simpl; try done; try lia.
  cbn [br_failure_count br_last_failure_ns br_recovery_ms] in H2, H3, H4.
  split_and!; [exact H1|rewrite H2; lia|exact H3|exact H4].
Qed.

(** What an open breaker answers. *)
Definition opened (until recovery_ms : Z) (b : breaker) : Prop :=
  br_state b = CB_STATE_OPEN ∧ br_open_until_ns b = until ∧ br_recovery_ms b = recovery_ms ∧
  br_probe_in_flight b = false.

Definition next_recovery (recovery_ms : Z) : Z := Z.min (2 * recovery_ms) CB_MAX_RECOVERY_MS.

Lemma failure_opens b t :
  br_state b = CB_STATE_HALF_OPEN ∨
  (t - br_last_failure_ns b ≤ ms_to_ns window_ms ∧ threshold ≤ br_failure_count b + 1 ∧
   0 ≤ br_failure_count b < 2 ^ 32 - 1) →
  0 ≤ br_recovery_ms b < 2 ^ 31 →
  opened (t + ms_to_ns (br_recovery_ms b)) (next_recovery (br_recovery_ms b))
    (breaker_failure threshold window_ms t b).
Proof.
  intros Hcase Hrec. unfold breaker_failure.
  assert (Hopen : bool_decide (br_state b = CB_STATE_HALF_OPEN) ||
    (u32 ((if t - br_last_failure_ns b >? ms_to_ns window_ms then 0 else br_failure_count b) + 1) >=? threshold) = true).
  { destruct Hcase as [Hh|(Hw & Hth & Hc)]; [by rewrite bool_decide_eq_true_2|].
    destruct (Z.gtb_spec (t - br_last_failure_ns b) (ms_to_ns window_ms)); [lia|].
    rewrite u32_id by ulia. destruct (Z.geb_spec (br_failure_count b + 1) threshold); [apply orb_true_r|lia]. }
  rewrite Hopen. unfold opened, next_recovery. simpl. split_and!; [done|done| |done].
  rewrite u32_id by ulia. destruct (Z.ltb_spec (br_recovery_ms b * 2) CB_MAX_RECOVERY_MS); lia.
Qed.

Lemma opened_admits until recovery_ms b t :
  opened until recovery_ms b →
  if t <? until then breaker_admit t b = (false, b)
  else ∃ b', breaker_admit t b = (true, b') ∧ br_state b' = CB_STATE_HALF_OPEN ∧
    br_recovery_ms b' = recovery_ms ∧ ∀ t', breaker_admit t' b' = (false, b').
Proof.
  destruct b as [st count last u rec p]. intros (Hst & Hu & Hr & Hp). simpl in *. subst.
  unfold breaker_admit at 1 2. cbn [br_state br_open_until_ns br_probe_in_flight negb].
  destruct (Z.ltb_spec t until), (Z.geb_spec t until); try lia; [done|].
  eexists. split; [done|]. by split_and!.
Qed.
End cycle.

(** The cycle of a breaker.  Fewer failures than the threshold, each within the
    window of the one before, leave it closed; with as many it opens for its
    recovery time.  While that lasts every request is refused, the first one after
    it is admitted as a probe and every other one refused, however late, until an
    outcome is recorded: a success closes the breaker with its base recovery time, a
    failure opens it again, for twice the time and at most a minute. *)
Theorem breaker_cycle threshold window_ms base_recovery_ms times t :
  0 < threshold < 2 ^ 32 - 1 → 0 ≤ base_recovery_ms < 2 ^ 31 →
  within_window window_ms 0 (times ++ [t]) →
  let b := fail_all threshold window_ms times (breaker_new base_recovery_ms) in
  let b' := breaker_failure threshold window_ms t b in
  Z.of_nat (length times) < threshold →
  br_state b = CB_STATE_CLOSED ∧
  (threshold = Z.of_nat (length times) + 1 →
   let until := t + ms_to_ns base_recovery_ms in
   ∀ t', if t' <? until then breaker_admit t' b' = (false, b')
         else ∃ probing, breaker_admit t' b' = (true, probing) ∧
           (∀ t'', breaker_admit t'' probing = (false, probing)) ∧
           (∀ t'', (breaker_admit t'' (breaker_success base_recovery_ms probing)).1 = true) ∧
           ∀ t'', let r := next_recovery base_recovery_ms in
             opened (t'' + ms_to_ns r) (next_recovery r) (breaker_failure threshold window_ms t'' probing)).
Proof.
  intros Hth Hrec Hw b b' Hlen.
  assert (Hsplit : within_window window_ms 0 times ∧ t - last_time 0 times ≤ ms_to_ns window_ms).
  { clear -Hw. revert Hw. generalize 0. induction times as [|x times IH]; intros last Hw; simpl in *; [naive_solver|].
    destruct Hw as [Hx Hw]. destruct (IH x Hw) as [H1 H2]. by split. }
  destruct Hsplit as [Hw1 Hw2].
  destruct (fail_all_counts threshold window_ms times (breaker_new base_recovery_ms))
    as (Hst & Hcount & Hlast & Hr); simpl; try done; try ulia. fold b in Hst, Hcount, Hlast, Hr. simpl in Hcount, Hlast, Hr.
  split; [exact Hst|]. intros Hfull t'. set (until := t + ms_to_ns base_recovery_ms).
  assert (Ho : opened until (next_recovery base_recovery_ms) b').
  { unfold until. rewrite <- Hr. apply failure_opens; [right|by rewrite Hr]. rewrite Hlast, Hcount. split; [done|]. lia. }
  pose proof (opened_admits _ _ b' t' Ho) as Hadm. destruct (t' <? until); [done|].
  destruct Hadm as (probing & Hp & Hps & Hpr & Hall). exists probing. split; [done|]. split; [done|]. split; [done|].
  intros t''. rewrite <- Hpr. apply failure_opens; [by left|].
  rewrite Hpr. unfold next_recovery, CB_MAX_RECOVERY_MS. lia.
Qed.

Lemma cb_registry_refines_witness :
  let ops := [CbFailure [97] 80 1; CbFailure [98] 80 2; CbFast [97] 80; CbSlow [98] 80 3; CbSuccess [97] 80;
              CbGetState [98] 80] in
  match cb_registry_create 32 (Some (CbConfig 1 0 0 2)) with
  | Some r => (cb_run ops r).1 = [CbDone; CbDone; CbFastAnswer None; CbSlowAnswer false; CbDone;
                                  CbStateAnswer CB_STATE_OPEN] ∧
      (cb_run ops r).1 = (hosts_run 1 10000 5000 ops ∅).1
  | None => False
  end.
Proof.
  destruct (cb_registry_create 32 (Some (CbConfig 1 0 0 2))) as [r|] eqn:Hr; [|done].
  assert (Hp : cb_failure_threshold r = 1 ∧ cb_window_ms r = 10000 ∧ cb_base_recovery_ms r = 5000 ∧ cb_max_entries r = 2).
  { vm_compute in Hr. injection Hr as <-. done. }
  destruct Hp as (Hp1 & Hp2 & Hp3 & Hp4).
  set (ops := [CbFailure [97] 80 1; CbFailure [98] 80 2; CbFast [97] 80; CbSlow [98] 80 3; CbSuccess [97] 80;
              CbGetState [98] 80]).
  pose proof (cb_registry_refines 32 (Some (CbConfig 1 0 0 2)) r ops) as H.
  rewrite Hp1, Hp2, Hp3, Hp4 in H.
  assert (Heq : (cb_run ops r).1 = (hosts_run 1 10000 5000 ops ∅).1).
  { apply H; [by_decide|exact Hr| |vm_compute; discriminate].
    unfold host_ok. by_decide. }
  split; [rewrite Heq; vm_compute; reflexivity|exact Heq].
Defined.

Lemma lru_evicts_newest_witness :
  match cb_registry_create 32 (Some (CbConfig 1 0 0 2)) with
  | Some r0 =>
      let r := (cb_run [CbFailure [97] 80 1; CbFailure [98] 80 2] r0).2 in
      ∃ i, cb_lru_head r = Some i ∧ (table_find r [98] 80 = Some i) ∧
        (table_find_or_insert r [99] 80).1 = Some i
  | None => False
  end.
Proof.
  destruct (cb_registry_create 32 (Some (CbConfig 1 0 0 2))) as [r0|] eqn:Hr; [|done]. cbv zeta.
  set (ops := [CbFailure [97] 80 1; CbFailure [98] 80 2]).
  assert (Hc : ∃ i, cb_lru_head (cb_run ops r0).2 = Some i ∧ table_find (cb_run ops r0).2 [98] 80 = Some i ∧
    is_Some (cb_table (cb_run ops r0).2 !! i) ∧
    (∀ j, table_scan (cb_run ops r0).2 [99] 80 (slots (cb_run ops r0).2)
            (first_probe (cb_run ops r0).2 [99] 80) None ≠ inl j) ∧
    cb_max_entries (cb_run ops r0).2 ≤ cb_occupied_count (cb_run ops r0).2).
  { vm_compute in Hr. injection Hr as <-. eexists. split; [vm_compute; reflexivity|].
    split; [vm_compute; reflexivity|]. split; [vm_compute; by eexists|].
    split; [intros j; vm_compute; discriminate|vm_compute; discriminate]. }
  destruct Hc as (i & Hh & Hf & Hi & Hno & Hfull). exists i. split; [exact Hh|]. split; [exact Hf|].
  apply (proj2 (lru_evicts_newest 32 _ r0 ops [99] 80 i Hr) Hfull Hh Hi Hno).
Defined.

Lemma breaker_cycle_witness :
  let b := fail_all 3 10000 [1; 2] (breaker_new 5000) in
  br_state b = CB_STATE_CLOSED ∧
  breaker_admit 4 (breaker_failure 3 10000 3 b) = (false, breaker_failure 3 10000 3 b) ∧
  (breaker_admit 5000000003 (breaker_failure 3 10000 3 b)).1 = true.
Proof.
  cbv zeta.
  assert (Hw : within_window 10000 0 ([1; 2] ++ [3])) by (vm_compute; repeat split; discriminate).
  destruct (breaker_cycle 3 10000 5000 [1; 2] 3 ltac:(lia) ltac:(lia) Hw ltac:(simpl; lia)) as [Hc Hcycle].
  specialize (Hcycle eq_refl).
  split; [exact Hc|]. split; [exact (Hcycle 4)|].
  destruct (Hcycle 5000000003) as (p & Hp & _). rewrite Hp. reflexivity.
Defined.
