(* ===== verification/TcpConnection.v ===== *)
(** * Transport: TCP connections

    The connections of [src/libs/distric_transport/src/tcp.c]: their allocation
    against the memory budget, the send path with its queue, the receive path and
    [tcp_connect] with the circuit breaker.  What the kernel answers is an
    argument; the bytes it took are recorded in the connection.  A connection is
    used under its lock, so its operations are atomic. *)

From Stdlib Require Import ZArith Lia.
From stdpp Require Import base list numbers option gmap.
From S2P Require Import Prelude CString SendQueue TransportConfig CircuitBreaker.

Local Open Scope Z_scope.

(** ** Data *)

(** [tcp_connection_config_t] *)
Record tcp_connection_config := TcpConnectionConfig {
  send_queue_capacity : nat;
  send_queue_hwm : nat
}.

Record tcp_connection := TcpConnection {
  tc_queue : send_queue;
  tc_mem_reserved : Z;
  tc_remote_addr : list Z;
  tc_remote_port : Z;
  tc_connection_id : Z;
  tc_wire : list Z;   (* the bytes the kernel has taken *)
  tc_sends : nat      (* the calls of [send] so far *)
}.

Definition tc_set_queue (q : send_queue) (c : tcp_connection) : tcp_connection :=
  TcpConnection q (tc_mem_reserved c) (tc_remote_addr c) (tc_remote_port c) (tc_connection_id c)
    (tc_wire c) (tc_sends c).
(** A call of [send] that took [bytes]. *)
Definition tc_took (bytes : list Z) (c : tcp_connection) : tcp_connection :=
  TcpConnection (tc_queue c) (tc_mem_reserved c) (tc_remote_addr c) (tc_remote_port c)
    (tc_connection_id c) (tc_wire c ++ bytes) (S (tc_sends c)).

(** The variables of the process that connections use. *)
Record tcp_process := TcpProcess {
  tp_globals : transport_globals;
  tp_conn_id_counter : Z;
  tp_breakers : cb_registry
}.

Definition tp_set_globals (g : transport_globals) (p : tcp_process) : tcp_process :=
  TcpProcess g (tp_conn_id_counter p) (tp_breakers p).
Definition tp_set_breakers (r : cb_registry) (p : tcp_process) : tcp_process :=
  TcpProcess (tp_globals p) (tp_conn_id_counter p) r.

(** ** Allocation *)

(** [calloc_ok]: [calloc] of the connection succeeds. *)
Definition connection_alloc (calloc_ok : bool) (garbage : list Z) (remote_addr : list Z)
    (remote_port : Z) (cfg : option tcp_connection_config) (p : tcp_process) :
    option tcp_connection * tcp_process :=
  let q_cap :=
    match cfg with
    | Some c => if (send_queue_capacity c =? 0)%nat then SEND_QUEUE_DEFAULT_CAPACITY else send_queue_capacity c
    | None => SEND_QUEUE_DEFAULT_CAPACITY
    end in
  let q_hwm :=
    match cfg with
    | Some c => if (send_queue_hwm c =? 0)%nat then SEND_QUEUE_DEFAULT_HWM else send_queue_hwm c
    | None => SEND_QUEUE_DEFAULT_HWM
    end in
  let bytes := Z.of_nat q_cap in
  let '(ok, g) := transport_memory_acquire bytes (tp_globals p) in
  let p := tp_set_globals g p in
  if negb ok then (None, p)
  else if negb calloc_ok then (None, tp_set_globals (transport_memory_release bytes g) p)
  else
    match send_queue_init garbage q_cap q_hwm with
    | None => (None, tp_set_globals (transport_memory_release bytes g) p)
    | Some q =>
        (Some (TcpConnection q bytes (strncpy 63 remote_addr) remote_port (tp_conn_id_counter p) [] 0),
         TcpProcess (tp_globals p) (u64 (tp_conn_id_counter p + 1)) (tp_breakers p))
    end.

Definition tcp_close (c : tcp_connection) (p : tcp_process) : tcp_process :=
  if tc_mem_reserved c >? 0
  then tp_set_globals (transport_memory_release (tc_mem_reserved c) (tp_globals p)) p else p.

(** ** Sending *)

(** What [send] returns: it takes [n + 1] bytes or as many as there are, would
    block, takes none ([blocked] tells whether [errno] still says so), or fails. *)
Inductive send_answer :=
  | SendBytes (n : nat)
  | SendWouldBlock
  | SendZero (blocked : bool)
  | SendFailed.

(** The result of [tcp_send]: an [int] that is the number of bytes or an error. *)
Inductive send_result :=
  | Sent (n : Z)
  | SendErr (e : distric_err).

Section sending.
Variable kernel : nat → send_answer.

(** The loop of [flush_send_queue_locked], [None] if it has not ended; the boolean
    is [false] for a return of -1. *)
Fixpoint flush_loop (fuel : nat) (c : tcp_connection) : result (option (bool * tcp_connection)) :=
  match fuel with
  | O => Ok None
  | S fuel =>
      if send_queue_empty (tc_queue c) then Ok (Some (true, c))
      else
        match send_queue_peek (tc_queue c) with
        | None => Ok (Some (true, c))
        | Some (off, avail) =>
            if (avail =? 0)%nat then Ok (Some (true, c))
            else
              chunk ← memread (sq_buf (tc_queue c)) off avail;
              match kernel (tc_sends c) with
              | SendBytes n =>
                  let sent := (S n `min` avail)%nat in
                  q ← send_queue_consume (tc_queue c) sent;
                  flush_loop fuel (tc_set_queue q (tc_took (take sent chunk) c))
              | SendZero _ | SendWouldBlock => Ok (Some (true, tc_took [] c))
              | SendFailed => Ok (Some (false, tc_took [] c))
              end
        end
  end.

Definition flush_send_queue_locked (c : tcp_connection) : result (option (bool * tcp_connection)) :=
  flush_loop (S (sq_len (tc_queue c))) c.

(** The bytes are queued, unless the queue is above its high-water mark or has no
    room for them. *)
Definition queue_or_refuse (data : list Z) (ret : Z) (c : tcp_connection) :
    result (option (send_result * tcp_connection)) :=
  if send_queue_above_hwm (tc_queue c) then Ok (Some (SendErr DISTRIC_ERR_BACKPRESSURE, c))
  else
    r ← send_queue_push (tc_queue c) data;
    let '(pushed, q) := r in
    if pushed : bool then Ok (Some (Sent ret, tc_set_queue q c))
    else Ok (Some (SendErr DISTRIC_ERR_BACKPRESSURE, c)).

Definition tcp_send (c : tcp_connection) (data : list Z) : result (option (send_result * tcp_connection)) :=
  let len := length data in
  if (len =? 0)%nat then Ok (Some (SendErr DISTRIC_ERR_INVALID_ARG, c))
  else
    flushed ← (if negb (send_queue_empty (tc_queue c)) then flush_send_queue_locked c
               else Ok (Some (true, c)));
    match flushed with
    | None => Ok None
    | Some (false, c) => Ok (Some (SendErr DISTRIC_ERR_IO, c))
    | Some (true, c) =>
        let ret := s32 (Z.of_nat len) in
        if negb (send_queue_empty (tc_queue c)) then queue_or_refuse data ret c
        else
          match kernel (tc_sends c) with
          | SendBytes n =>
              let sent := (S n `min` len)%nat in
              let c := tc_took (take sent data) c in
              if (sent <? len)%nat then queue_or_refuse (drop sent data) ret c
              else Ok (Some (Sent ret, c))
          | SendWouldBlock | SendZero true => queue_or_refuse data ret (tc_took [] c)
          | SendZero false | SendFailed => Ok (Some (SendErr DISTRIC_ERR_IO, tc_took [] c))
          end
    end.

Definition tcp_flush (c : tcp_connection) : result (option (distric_err * tcp_connection)) :=
  flushed ← flush_send_queue_locked c;
  Ok (match flushed with
      | None => None
      | Some (ok, c) => Some (if ok : bool then DISTRIC_OK else DISTRIC_ERR_IO, c)
      end).
End sending.

Definition tcp_is_writable (c : tcp_connection) : bool := negb (send_queue_above_hwm (tc_queue c)).
Definition tcp_send_queue_depth (c : tcp_connection) : nat := send_queue_pending (tc_queue c).

(** ** Receiving *)

(** What [epoll_wait] reports: how many events, and which. *)
Inductive poll_answer :=
  | PollNone                          (* a timeout *)
  | PollFailed                        (* an error: the event is not written *)
  | PollEvent (hup rdhup err readable : bool).

Inductive recv_answer :=
  | RecvData (data : list Z)          (* at least one byte, at most as many as asked for *)
  | RecvEof
  | RecvFailed (e : errno).

Inductive recv_result :=
  | Received (data : list Z)
  | ReceivedNothing                   (* a return of 0 *)
  | RecvErr (e : distric_err).

Definition tcp_recv (len : nat) (timeout_ms : Z) (poll : poll_answer) (answer : recv_answer) :
    result recv_result :=
  if (len =? 0)%nat then Ok (RecvErr DISTRIC_ERR_INVALID_ARG)
  else
    go ←
      (if timeout_ms >? 0 then
         match poll with
         | PollNone | PollFailed => Ok (Some ReceivedNothing)
         | PollEvent hup rdhup err _ =>
             Ok (if hup || rdhup || err then Some (RecvErr DISTRIC_ERR_IO) else None)
         end
       else if timeout_ms =? 0 then
         match poll with
         | PollNone | PollFailed => Fault  (* the event is read without being written *)
         | PollEvent hup rdhup err _ =>
             Ok (if hup || rdhup || err then Some (RecvErr DISTRIC_ERR_IO) else None)
         end
       else Ok None);
    match go with
    | Some r => Ok r
    | None =>
        Ok (match answer with
            | RecvData data => Received data
            | RecvEof => RecvErr DISTRIC_ERR_IO
            | RecvFailed EAGAIN => ReceivedNothing
            | RecvFailed _ => RecvErr DISTRIC_ERR_IO
            end)
    end.

Definition tcp_is_readable (poll : poll_answer) : bool :=
  match poll with PollEvent _ _ _ readable => readable | _ => false end.

(** ** Connecting *)

(** What the network answers to a connection attempt. *)
Record connect_answers := ConnectAnswers {
  ca_resolved : option (list Z);     (* the address, if [getaddrinfo] finds one *)
  ca_socket : bool;
  ca_connect : option errno;         (* [None]: [connect] returns 0 *)
  ca_in_progress : bool;             (* [errno] is [EINPROGRESS] *)
  ca_epoll : bool;                   (* [epoll_create1] succeeds *)
  ca_wait : Z;                       (* what [epoll_wait] returns *)
  ca_so_error : errno;               (* [SO_ERROR], [ENONE] for 0 *)
  ca_calloc : bool;
  ca_garbage : list Z
}.

(** The attempt after the circuit breaker admitted it; [now] is when its outcome
    is recorded. *)
Definition tcp_dial (host : list Z) (port : Z) (cfg : option tcp_connection_config)
    (a : connect_answers) (now : Z) (p : tcp_process) :
    (distric_err * option tcp_connection) * tcp_process :=
  let failed p := tp_set_breakers (cb_record_failure (tp_breakers p) host port now) p in
  match ca_resolved a with
  | None => ((DISTRIC_ERR_INIT_FAILED, None), p)
  | Some addr =>
      if negb (ca_socket a) then ((DISTRIC_ERR_INIT_FAILED, None), p)
      else
        let finish p :=
          let '(conn, p) := connection_alloc (ca_calloc a) (ca_garbage a) addr port cfg p in
          match conn with
          | None => ((DISTRIC_ERR_ALLOC_FAILURE, None), p)
          | Some conn =>
              ((DISTRIC_OK, Some conn),
               tp_set_breakers (cb_record_success (tp_breakers p) host port) p)
          end in
        match ca_connect a with
        | None => finish p
        | Some _ =>
            if negb (ca_in_progress a) then ((DISTRIC_ERR_INIT_FAILED, None), failed p)
            else if negb (ca_epoll a) then ((DISTRIC_ERR_INIT_FAILED, None), p)
            else if ca_wait a <=? 0 then
              ((if ca_wait a =? 0 then DISTRIC_ERR_TIMEOUT else DISTRIC_ERR_INIT_FAILED, None), failed p)
            else
              match ca_so_error a with
              | ENONE => finish p
              | e => ((transport_err_to_distric (transport_classify_errno e), None), failed p)
              end
        end
  end.

Definition tcp_connect (host : list Z) (port timeout_ms : Z) (cfg : option tcp_connection_config)
    (a : connect_answers) (asked now : Z) (p : tcp_process) :
    (distric_err * option tcp_connection) * tcp_process :=
  if timeout_ms <=? 0 then ((DISTRIC_ERR_INVALID_ARG, None), p)
  else
    let '(allowed, r) := cb_is_allowed (tp_breakers p) host port asked in
    let p := tp_set_breakers r p in
    if negb allowed then ((DISTRIC_ERR_UNAVAILABLE, None), p)
    else tcp_dial host port cfg a now p.

(** ** A connection as a stream

    What the peer has got or will get, as far as this side can tell. *)
Definition tc_stream (c : tcp_connection) : list Z := tc_wire c ++ queued (tc_queue c).

Definition conn_wf (c : tcp_connection) : Prop :=
  send_queue_wf (tc_queue c) ∧ (0 < sq_hwm (tc_queue c))%nat.

(** A later state of the same connection. *)
Definition same_queue (c c' : tcp_connection) : Prop :=
  conn_wf c' ∧ sq_capacity (tc_queue c') = sq_capacity (tc_queue c).

(** The kernel takes at least one byte of every call. *)
Definition never_blocks (kernel : nat → send_answer) : Prop := ∀ i, ∃ n, kernel i = SendBytes n.

Section streams.
Variable kernel : nat → send_answer.

Lemma empty_queued q : send_queue_wf q → send_queue_empty q = true → queued q = [].
Proof.
  intros Hw He%Nat.eqb_eq. apply nil_length_inv. by rewrite queued_length.
Qed.

Lemma nonempty_queued q : send_queue_wf q → send_queue_empty q = false → queued q ≠ [].
Proof.
  intros Hw He%Nat.eqb_neq Hq. rewrite <- (queued_length q Hw), Hq in He. done.
Qed.

(** The loop ends, and moves bytes from the queue to the kernel. *)
Lemma flush_loop_spec fuel : ∀ c,
  conn_wf c → (sq_len (tc_queue c) < fuel)%nat →
  ∃ ok c', flush_loop kernel fuel c = Ok (Some (ok, c')) ∧ same_queue c c' ∧ tc_stream c' = tc_stream c ∧
    (never_blocks kernel → ok = true ∧ queued (tc_queue c') = []).
Proof.
  induction fuel as [|fuel IH]; intros c [Hw Hh] Hf; [lia|]. cbn [flush_loop].
  destruct (send_queue_empty (tc_queue c)) eqn:He.
  { exists true, c. split; [done|]. split; [done|]. split; [done|].
    intros _. split; [done|]. by apply empty_queued. }
  pose proof (send_queue_peek_spec _ Hw) as Hp. pose proof (queued_length _ Hw) as Hl.
  destruct (send_queue_peek (tc_queue c)) as [[off avail]|]; [|by destruct (nonempty_queued _ Hw He)].
  destruct Hp as [Ha Hr]. destruct (Nat.eqb_spec avail 0); [lia|]. rewrite Hr. cbn [mbind result_bind].
  assert (Hstop : ∀ ok, (never_blocks kernel → False) → ∃ ok' c',
    Ok (Some (ok, tc_took [] c)) = Ok (Some (ok', c')) ∧ same_queue c c' ∧ tc_stream c' = tc_stream c ∧
    (never_blocks kernel → ok' = true ∧ queued (tc_queue c') = [])).
  { intros ok Hnb. exists ok, (tc_took [] c). split; [done|]. split; [done|].
    split; [unfold tc_stream; simpl; by rewrite app_nil_r|]. intros Hk. by destruct (Hnb Hk). }
  destruct (kernel (tc_sends c)) as [taken| |blocked|] eqn:Hk;
    try (apply Hstop; intros Hnb; destruct (Hnb (tc_sends c)) as [x Hx]; congruence).
  set (sent := (S taken `min` avail)%nat).
  destruct (send_queue_consume_spec (tc_queue c) sent Hw) as (q' & Hq' & Hw' & Hd & Hc & Hh'). rewrite Hq'.
  cbn [mbind result_bind]. destruct (IH (tc_set_queue q' (tc_took (take sent (take avail (queued (tc_queue c)))) c)))
    as (ok & c' & -> & [Hwf Hcap] & Hs & Hnb).
  - split; [done|]. simpl. lia.
  - simpl. rewrite <- (queued_length q' Hw'), Hd, length_drop. lia.
  - exists ok, c'. split; [done|]. split; [split; [done|rewrite Hcap; exact Hc]|]. split; [|done].
    rewrite Hs. unfold tc_stream. simpl. rewrite Hd, take_take, Nat.min_l by lia.
    rewrite <- app_assoc, take_drop. done.
Qed.

Lemma queue_or_refuse_spec c data ret :
  conn_wf c → data ≠ [] →
  ∃ r c', queue_or_refuse data ret c = Ok (Some (r, c')) ∧ same_queue c c' ∧
    ((r = Sent ret ∧ tc_stream c' = tc_stream c ++ data) ∨
     (r = SendErr DISTRIC_ERR_BACKPRESSURE ∧ c' = c ∧
      ((sq_hwm (tc_queue c) <= sq_len (tc_queue c))%nat ∨
       (sq_capacity (tc_queue c) < sq_len (tc_queue c) + length data)%nat))).
Proof.
  intros [Hw Hh] Hd. unfold queue_or_refuse, send_queue_above_hwm.
  destruct (Nat.leb_spec (sq_hwm (tc_queue c)) (sq_len (tc_queue c))).
  { do 2 eexists. split; [done|]. split; [done|]. right. auto. }
  pose proof (send_queue_push_spec (tc_queue c) data Hw) as Hp.
  destruct (Nat.eqb_spec (length data) 0) as [Hl%nil_length_inv|]; [done|]. simpl in Hp.
  destruct (Nat.ltb_spec (sq_capacity (tc_queue c) - sq_len (tc_queue c)) (length data)).
  - rewrite Hp. simpl. do 2 eexists. split; [done|]. split; [done|]. right. split; [done|]. split; [done|].
    right. lia.
  - destruct Hp as (q' & -> & Hw' & Hq & Hc & Hh'). simpl. do 2 eexists. split; [done|].
    split; [split; [split; [done|simpl; lia]|done]|]. left. split; [done|].
    unfold tc_stream. simpl. by rewrite Hq, app_assoc.
Qed.

(** What a send leaves in the stream: everything, nothing, or, when it is refused
    after the kernel took a part of it, that part. *)
Definition send_outcome (c : tcp_connection) (data : list Z) (r : send_result) (c' : tcp_connection) : Prop :=
  match r with
  | Sent n => n = s32 (Z.of_nat (length data)) ∧ tc_stream c' = tc_stream c ++ data
  | SendErr e =>
      tc_stream c' = tc_stream c ∨
      (e = DISTRIC_ERR_BACKPRESSURE ∧ queued (tc_queue c') = [] ∧
       ∃ k, (0 < k)%nat ∧ (sq_capacity (tc_queue c) < length data - k)%nat ∧
         tc_stream c' = tc_stream c ++ take k data)
  end.

Lemma tcp_send_spec c data :
  conn_wf c →
  ∃ r c', tcp_send kernel c data = Ok (Some (r, c')) ∧ same_queue c c' ∧ send_outcome c data r c' ∧
    (data = [] ↔ r = SendErr DISTRIC_ERR_INVALID_ARG).
Proof.
  intros Hc. unfold tcp_send. destruct (Nat.eqb_spec (length data) 0) as [Hl%nil_length_inv|Hl].
  { do 2 eexists. split; [done|]. split; [done|]. split; [by left|done]. }
  assert (Hdata : data ≠ []) by (by intros ->).
  set (flush := if negb _ then _ else _).
  assert (Hflush : ∃ ok c1, flush = Ok (Some (ok, c1)) ∧ same_queue c c1 ∧ tc_stream c1 = tc_stream c).
  { unfold flush. destruct (send_queue_empty (tc_queue c)); simpl; [by do 2 eexists|].
    destruct (flush_loop_spec (S (sq_len (tc_queue c))) c Hc ltac:(lia)) as (ok & c1 & H1 & H2 & H3 & _).
    by exists ok, c1. }
  clearbody flush. destruct Hflush as (ok & c1 & -> & [Hc1 Hcap] & Hs). cbn [mbind result_bind].
  destruct ok; [|do 2 eexists; split; [done|]; split; [done|]; split; [by left|done]].
  assert (Hqueue : ∀ sent c2, conn_wf c2 → sq_capacity (tc_queue c2) = sq_capacity (tc_queue c1) →
    (sent < length data)%nat → tc_stream c2 = tc_stream c1 ++ take sent data →
    (sent ≠ 0%nat → sq_len (tc_queue c2) = 0%nat) →
    ∃ r c', queue_or_refuse (drop sent data) (s32 (Z.of_nat (length data))) c2 = Ok (Some (r, c')) ∧
      same_queue c c' ∧ send_outcome c data r c' ∧ (data = [] ↔ r = SendErr DISTRIC_ERR_INVALID_ARG)).
  { intros sent c2 Hc2 Hcap2 Hsent Hs2 Hempty.
    destruct (queue_or_refuse_spec c2 (drop sent data) (s32 (Z.of_nat (length data))) Hc2)
      as (r & c' & Hr & [Hc' Hcap'] & Hout).
    { intros Hnil%(f_equal length). rewrite length_drop in Hnil. simpl in Hnil. lia. }
    exists r, c'. split; [exact Hr|]. split; [split; [done|congruence]|].
    destruct Hout as [[-> Hst]|(-> & -> & Hfull)]; (split; [|done]).
    - split; [done|]. rewrite Hst, Hs2, Hs, <- app_assoc, take_drop. done.
    - destruct (decide (sent = 0%nat)) as [->|Hs0]; [left; by rewrite Hs2, app_nil_r, Hs|].
      right. specialize (Hempty Hs0). destruct Hc2 as [Hw2 Hh2]. rewrite length_drop in Hfull.
      split; [done|]. split; [apply nil_length_inv; by rewrite queued_length|].
      exists sent. split; [lia|]. split; [lia|]. by rewrite Hs2, Hs. }
  pose proof Hc1 as [Hw1 Hh1]. destruct (send_queue_empty (tc_queue c1)) eqn:He; cbn [negb].
  2: { apply (Hqueue 0%nat); rewrite ?app_nil_r; (done || lia). }
  assert (Htook : ∀ bytes, tc_stream (tc_took bytes c1) = tc_stream c1 ++ bytes).
  { intros bytes. unfold tc_stream. simpl. by rewrite (empty_queued _ Hw1 He), !app_nil_r. }
  assert (Hio : same_queue c (tc_took [] c1) ∧ send_outcome c data (SendErr DISTRIC_ERR_IO) (tc_took [] c1)).
  { split; [done|]. left. by rewrite Htook, app_nil_r. }
  assert (Hblock : ∃ r c', queue_or_refuse data (s32 (Z.of_nat (length data))) (tc_took [] c1) = Ok (Some (r, c')) ∧
      same_queue c c' ∧ send_outcome c data r c' ∧ (data = [] ↔ r = SendErr DISTRIC_ERR_INVALID_ARG))
    by (apply (Hqueue 0%nat); [done|done|lia|by rewrite Htook|done]).
  destruct (kernel (tc_sends c1)) as [n| |[]|]; try exact Hblock;
    try (do 2 eexists; split; [done|]; split; [apply Hio|]; split; [apply Hio|done]).
  set (sent := (S n `min` length data)%nat). assert (Hsent : (0 < sent <= length data)%nat) by lia.
  destruct (Nat.ltb_spec sent (length data)).
  - apply (Hqueue sent); [done|done|done|apply Htook|]. intros _. by apply Nat.eqb_eq.
  - do 2 eexists. split; [done|]. split; [done|]. split; [|done]. split; [done|].
    by rewrite Htook, Hs, take_ge by lia.
Qed.
End streams.

(** ** Sessions *)

Inductive conn_op :=
  | ConnSend (data : list Z)
  | ConnFlush.

Inductive conn_answer :=
  | SendAnswer (r : send_result)
  | FlushAnswer (e : distric_err).

Definition conn_step (kernel : nat → send_answer) (op : conn_op) (c : tcp_connection) :
    result (option (conn_answer * tcp_connection)) :=
  match op with
  | ConnSend data =>
      r ← tcp_send kernel c data;
      Ok (option_map (λ '(r, c), (SendAnswer r, c)) r)
  | ConnFlush =>
      r ← tcp_flush kernel c;
      Ok (option_map (λ '(e, c), (FlushAnswer e, c)) r)
  end.

Fixpoint conn_run (kernel : nat → send_answer) (ops : list conn_op) (c : tcp_connection) :
    result (option (list conn_answer * tcp_connection)) :=
  match ops with
  | [] => Ok (Some ([], c))
  | op :: ops =>
      r ← conn_step kernel op c;
      match r : option (conn_answer * tcp_connection) with
      | None => Ok None
      | Some (a, c) =>
          r ← conn_run kernel ops c;
          Ok (option_map (λ '(answers, c), (a :: answers, c)) r)
      end
  end.

(** The bytes of the sends that did not return an error. *)
Definition op_accepted (op : conn_op) (a : conn_answer) : list Z :=
  match op, a with ConnSend data, SendAnswer (Sent _) => data | _, _ => [] end.
Definition accepted (ops : list conn_op) (answers : list conn_answer) : list Z :=
  concat (zip_with op_accepted ops answers).

Definition fits (capacity : nat) (op : conn_op) : Prop :=
  match op with ConnSend data => (length data ≤ capacity)%nat | ConnFlush => True end.

Lemma tcp_flush_spec kernel c :
  conn_wf c →
  ∃ e c', tcp_flush kernel c = Ok (Some (e, c')) ∧ same_queue c c' ∧ tc_stream c' = tc_stream c ∧
    (never_blocks kernel → e = DISTRIC_OK ∧ tc_wire c' = tc_stream c).
Proof.
  intros Hc. unfold tcp_flush, flush_send_queue_locked.
  destruct (flush_loop_spec kernel (S (sq_len (tc_queue c))) c Hc ltac:(lia)) as (ok & c' & -> & Hsame & Hs & Hnb).
  simpl. do 2 eexists. split; [done|]. split; [done|]. split; [done|]. intros [-> Hq]%Hnb. split; [done|].
  rewrite <- Hs. unfold tc_stream. by rewrite Hq, app_nil_r.
Qed.

Lemma conn_step_spec kernel op c :
  conn_wf c → fits (sq_capacity (tc_queue c)) op →
  ∃ a c', conn_step kernel op c = Ok (Some (a, c')) ∧ same_queue c c' ∧
    tc_stream c' = tc_stream c ++ op_accepted op a.
Proof.
  intros Hc Hfit. destruct op as [data|]; simpl in *.
  - destruct (tcp_send_spec kernel c data Hc) as (r & c' & -> & Hsame & Hout & _). simpl.
    do 2 eexists. split; [done|]. split; [done|]. destruct r as [n|e]; simpl in *; [by destruct Hout|].
    destruct Hout as [->|(_ & _ & k & Hk & Hbig & _)]; [by rewrite app_nil_r|lia].
  - destruct (tcp_flush_spec kernel c Hc) as (e & c' & -> & Hsame & Hs & _). simpl.
    do 2 eexists. split; [done|]. split; [done|]. by rewrite Hs, app_nil_r.
Qed.

(** C19: over a connection whose messages are not longer than its send queue, the
    peer gets the accepted messages whole, once and in order, however the kernel
    splits and blocks: every session runs to its end without a memory error, after
    it the bytes on the wire and in the queue are those before it and the accepted
    messages, and once the kernel takes bytes again a flush puts all of them on the
    wire. *)
Theorem tcp_stream_integrity kernel c ops :
  conn_wf c → Forall (fits (sq_capacity (tc_queue c))) ops →
  ∃ answers c', conn_run kernel ops c = Ok (Some (answers, c')) ∧ conn_wf c' ∧
    tc_stream c' = tc_stream c ++ accepted ops answers ∧
    ∀ later, never_blocks later →
      ∃ c'', tcp_flush later c' = Ok (Some (DISTRIC_OK, c'')) ∧ tc_wire c'' = tc_stream c'.
Proof.
  revert c. induction ops as [|op ops IH]; intros c Hc Hfit; simpl.
  - do 2 eexists. split; [done|]. split; [done|]. split; [by rewrite app_nil_r|]. intros later Hl.
    destruct (tcp_flush_spec later c Hc) as (e & c'' & Hf & _ & _ & Hw).
    destruct (Hw Hl) as [-> Hw']. by exists c''.
  - apply Forall_cons_iff in Hfit as [Hop Hops].
    destruct (conn_step_spec kernel op c Hc Hop) as (a & c1 & -> & [Hc1 Hcap] & Hs1). simpl.
    rewrite <- Hcap in Hops. destruct (IH c1 Hc1 Hops) as (answers & c' & -> & Hc' & Hs & Hl). simpl.
    do 2 eexists. split; [done|]. split; [done|]. split; [|done].
    by rewrite Hs, Hs1, <- app_assoc.
Qed.

(** A message longer than the send queue can be torn: the kernel takes its
    first byte, the rest does not fit, the send returns [DISTRIC_ERR_BACKPRESSURE]
    ("stop sending") and the byte stays in the stream, so a caller that sends the
    message again when the connection is writable puts that byte there twice. *)
Theorem oversized_send_torn remote_addr port cid data :
  (6 <= length data)%nat →
  let kernel i := SendBytes (if (i =? 0)%nat then 0 else length data)%nat in
  match send_queue_init [] 4 3 with
  | Some q =>
      let c := TcpConnection q 4 remote_addr port cid [] 0 in
      ∃ c1 c2, tcp_send kernel c data = Ok (Some (SendErr DISTRIC_ERR_BACKPRESSURE, c1)) ∧
        tcp_is_writable c1 = true ∧
        tcp_send kernel c1 data = Ok (Some (Sent (s32 (Z.of_nat (length data))), c2)) ∧
        tc_wire c2 = take 1 data ++ data
  | None => False
  end.
Proof.
  intros Hlen kernel. simpl.
  destruct data as [|b data]; [simpl in *; lia|]. do 2 eexists.
  split; [|split; [|split]].
  - unfold tcp_send, kernel. simpl. destruct data as [|b' data]; [simpl in *; lia|]. simpl.
    unfold queue_or_refuse. cbn -[Nat.ltb]. unfold send_queue_push. cbn -[Nat.ltb].
    destruct (Nat.ltb_spec 4 (S (length data))); [done|simpl in *; lia].
  - done.
  - unfold tcp_send, kernel. cbn -[Nat.ltb Nat.min].
    assert (Hmin : (S (S (length data)) `min` S (length data) = S (length data))%nat) by lia. rewrite Hmin.
    destruct (Nat.ltb_spec (S (length data)) (S (length data))); [lia|]. cbn [take]. rewrite take_ge by lia. done.
  - done.
Qed.

(** ** Memory *)

Definition memory_in_use (p : tcp_process) : Z := transport_memory_in_use (tp_globals p).

Definition capacity_of (cfg : option tcp_connection_config) : nat :=
  match cfg with
  | Some c => if (send_queue_capacity c =? 0)%nat then SEND_QUEUE_DEFAULT_CAPACITY else send_queue_capacity c
  | None => SEND_QUEUE_DEFAULT_CAPACITY
  end.

(** Connections account for their memory: an allocation that fails leaves the
    memory in use as it was, whatever fails; one that succeeds adds the capacity of
    the send queue, its connection is well formed, and closing the connection
    takes the same amount away. *)
Theorem connection_memory_balanced calloc_ok garbage addr port cfg p :
  0 ≤ memory_in_use p → memory_in_use p + Z.of_nat (capacity_of cfg) < 2 ^ 64 →
  let '(conn, p') := connection_alloc calloc_ok garbage addr port cfg p in
  match conn with
  | None => memory_in_use p' = memory_in_use p
  | Some c =>
      conn_wf c ∧ tc_mem_reserved c = Z.of_nat (capacity_of cfg) ∧
      memory_in_use p' = memory_in_use p + Z.of_nat (capacity_of cfg) ∧
      memory_in_use (tcp_close c p') = memory_in_use p
  end.
Proof.
  intros Hp Hfit. unfold connection_alloc. fold (capacity_of cfg).
  set (hwm := match cfg with Some c => _ | None => SEND_QUEUE_DEFAULT_HWM end).
  assert (Hhwm : (0 < hwm)%nat).
  { unfold hwm, SEND_QUEUE_DEFAULT_HWM. destruct cfg as [c|]; [|lia].
    destruct (Nat.eqb_spec (send_queue_hwm c) 0); lia. }
  assert (Hcap : (0 < capacity_of cfg)%nat).
  { unfold capacity_of, SEND_QUEUE_DEFAULT_CAPACITY. destruct cfg as [c|]; [|lia].
    destruct (Nat.eqb_spec (send_queue_capacity c) 0); lia. }
  generalize dependent (capacity_of cfg). intros cap Hfit Hcap. clearbody hwm.
  pose proof (acquire_release (Z.of_nat cap) (tp_globals p) ltac:(lia) Hp Hfit) as Hacq.
  destruct (transport_memory_acquire (Z.of_nat cap) (tp_globals p)) as [[] g]; [|done]. cbn [negb].
  destruct Hacq as [Hg Hrel]. destruct calloc_ok; [|exact Hrel]. cbn [negb].
  destruct (send_queue_init garbage cap hwm) as [q|] eqn:Hq; [|exact Hrel].
  apply send_queue_init_wf in Hq as (Hw & _ & _ & Hh). split; [split; [done|simpl; lia]|].
  split; [done|]. split; [exact Hg|]. unfold tcp_close, tc_mem_reserved.
  destruct (Z.of_nat cap >? 0) eqn:Hpos; [exact Hrel|]. lia.
Qed.

(** ** The circuit breaker of [tcp_connect] *)

(** A run of attempts to connect to a host: what the network answers to each, and
    when the breaker is asked and told the outcome. *)
Fixpoint tcp_connects (host : list Z) (port timeout_ms : Z) (cfg : option tcp_connection_config)
    (attempts : list (connect_answers * Z * Z)) (p : tcp_process) : list distric_err * tcp_process :=
  match attempts with
  | [] => ([], p)
  | (a, asked, now) :: attempts =>
      let '((e, _), p) := tcp_connect host port timeout_ms cfg a asked now p in
      let '(es, p) := tcp_connects host port timeout_ms cfg attempts p in
      (e :: es, p)
  end.

Section breakers.
Variables threshold window_ms base_ms max_entries : Z.
Local Notation reps := (represents threshold window_ms base_ms max_entries).

Lemma is_allowed_represents r m host port now b :
  reps r m → m !! (host, port) = Some b → br_state b ≠ CB_STATE_CLOSED →
  ∃ r', cb_is_allowed r host port now = ((breaker_admit now b).1, r') ∧
    reps r' (<[(host, port) := (breaker_admit now b).2]> m).
Proof.
  intros Hr Hb Hst.
  pose proof (represents_fast threshold window_ms base_ms max_entries r m host port Hr) as Hfast.
  destruct (represents_slow threshold window_ms base_ms max_entries r m host port now Hr) as [Ha Hr'].
  simpl in Ha, Hr'. rewrite Hb in Hfast, Ha, Hr'. rewrite bool_decide_eq_false_2 in Hfast by done.
  unfold cb_is_allowed. rewrite Hfast. destruct (cb_is_allowed_slow r host port now) as [a r'].
  destruct (breaker_admit now b) as [a' b']. simpl in *. exists r'. split; [congruence|done].
Qed.

(** A host whose probe never ended. *)
Definition probing (b : breaker) : Prop := br_state b = CB_STATE_HALF_OPEN ∧ br_probe_in_flight b = true.

Lemma probing_refused host port timeout_ms cfg attempts : ∀ p m b,
  0 < timeout_ms → reps (tp_breakers p) m → m !! (host, port) = Some b → probing b →
  (tcp_connects host port timeout_ms cfg attempts p).1 = replicate (length attempts) DISTRIC_ERR_UNAVAILABLE.
Proof.
  induction attempts as [|[[a asked] now] attempts IH]; intros p m b Ht Hr Hb [Hst Hpr]; [done|]. simpl.
  unfold tcp_connect. destruct (Z.leb_spec timeout_ms 0); [lia|].
  destruct (is_allowed_represents (tp_breakers p) m host port asked b Hr Hb ltac:(congruence)) as (r' & -> & Hr').
  assert (Hadm : breaker_admit asked b = (false, b)) by (unfold breaker_admit; by rewrite Hst, Hpr).
  rewrite Hadm in Hr' |- *. cbn [negb fst snd] in *. rewrite insert_id in Hr' by done.
  specialize (IH (tp_set_breakers r' p) m b Ht Hr' Hb (conj Hst Hpr)).
  destruct (tcp_connects _ _ _ _ _ _) as [es p']. cbn [fst] in *. by rewrite IH.
Qed.

(** The answers after which [tcp_dial] tells the breaker nothing. *)
Definition unreported (a : connect_answers) : Prop :=
  ca_resolved a = None ∨ ca_socket a = false ∨
  (is_Some (ca_connect a) ∧ ca_in_progress a = true ∧ ca_epoll a = false) ∨
  (ca_connect a = None ∧ ca_calloc a = false).

Lemma unreported_keeps host port cfg a now p :
  unreported a → tp_breakers (tcp_dial host port cfg a now p).2 = tp_breakers p ∧
    (tcp_dial host port cfg a now p).1.1 ∈ [DISTRIC_ERR_INIT_FAILED; DISTRIC_ERR_ALLOC_FAILURE].
Proof.
  intros Hu. unfold tcp_dial. destruct (ca_resolved a) as [addr|] eqn:Hres; [|split; [done|set_solver]].
  destruct (ca_socket a) eqn:Hsock; cbn [negb]; [|split; [done|set_solver]].
  destruct Hu as [Hu|[Hu|[(Hc & Hpr & He)|[Hc Hal]]]]; [congruence|congruence| |].
  - destruct (ca_connect a); [|by destruct Hc]. rewrite Hpr, He. split; [done|set_solver].
  - rewrite Hc, Hal. unfold connection_alloc. destruct (transport_memory_acquire _ _) as [[] g]; (split; [done|set_solver]).
Qed.
End breakers.

(** The probe of a recovering host can be lost for good: if the host's breaker
    is open and its time is over, [tcp_connect] lets one attempt through as the
    probe; when that attempt fails on this side (no address, no socket, no epoll
    instance, no memory), nothing tells the breaker, and then every later
    [tcp_connect] to the host returns [DISTRIC_ERR_UNAVAILABLE], at every time and
    whatever the network would answer. *)
Theorem lost_probe threshold window_ms base_ms max_entries p m host port timeout_ms cfg b a asked now attempts :
  represents threshold window_ms base_ms max_entries (tp_breakers p) m →
  m !! (host, port) = Some b → br_state b = CB_STATE_OPEN → br_probe_in_flight b = false →
  br_open_until_ns b ≤ asked → 0 < timeout_ms → unreported a →
  let '((e, _), p') := tcp_connect host port timeout_ms cfg a asked now p in
  e ∈ [DISTRIC_ERR_INIT_FAILED; DISTRIC_ERR_ALLOC_FAILURE] ∧
  (tcp_connects host port timeout_ms cfg attempts p').1 = replicate (length attempts) DISTRIC_ERR_UNAVAILABLE.
Proof.
  intros Hr Hb Hst Hpr Htime Ht Hu. unfold tcp_connect. destruct (Z.leb_spec timeout_ms 0); [lia|].
  destruct (is_allowed_represents _ _ _ _ (tp_breakers p) m host port asked b Hr Hb ltac:(congruence))
    as (r' & -> & Hr').
  assert (Hadm : breaker_admit asked b =
    (true, Breaker CB_STATE_HALF_OPEN (br_failure_count b) (br_last_failure_ns b) (br_open_until_ns b)
             (br_recovery_ms b) true)).
  { unfold breaker_admit. rewrite Hst, Hpr. destruct (Z.geb_spec asked (br_open_until_ns b)); [done|lia]. }
  rewrite Hadm in Hr' |- *. cbn [negb fst snd] in *.
  destruct (unreported_keeps host port cfg a now (tp_set_breakers r' p) Hu) as [Hbr Hne].
  destruct (tcp_dial host port cfg a now (tp_set_breakers r' p)) as [[e conn] p'] eqn:Hdial. cbn [fst snd] in *.
  split; [exact Hne|]. eapply probing_refused; [done|rewrite Hbr; exact Hr'|apply lookup_insert_eq|done].
Qed.

(** ** Witnesses *)

Definition conn_example : tcp_connection :=
  match send_queue_init [] 4 3 with
  | Some q => TcpConnection q 4 [] 80 1 [] 0
  | None => TcpConnection (SendQueue [] 0 0 0 0) 0 [] 0 0 [] 0
  end.

Lemma tcp_stream_integrity_witness :
  let kernel i := nth i [SendBytes 0; SendWouldBlock; SendBytes 0; SendWouldBlock] SendWouldBlock in
  let ops := [ConnSend [1; 2; 3]; ConnSend [4; 5]; ConnSend [6]; ConnFlush] in
  ∃ c', conn_run kernel ops conn_example =
      Ok (Some ([SendAnswer (Sent 3); SendAnswer (Sent 2); SendAnswer (SendErr DISTRIC_ERR_BACKPRESSURE);
                 FlushAnswer DISTRIC_OK], c')) ∧
    tc_stream c' = [1; 2; 3; 4; 5].
Proof.
  intros kernel ops.
  destruct (tcp_stream_integrity kernel conn_example ops) as (answers & c' & Hr & _ & Hs & _).
  - split; [split; vm_compute; lia|vm_compute; lia].
  - repeat constructor.
  - pose proof Hr as Hr'. vm_compute in Hr'. injection Hr' as <- <-. eexists. split; [reflexivity|exact Hs].
Defined.

Lemma oversized_send_torn_witness :
  (6 <= length [1; 2; 3; 4; 5; 6])%nat ∧
  ∃ c1 c2, tcp_send (λ i, SendBytes (if (i =? 0)%nat then 0 else 6)%nat) conn_example [1; 2; 3; 4; 5; 6] =
      Ok (Some (SendErr DISTRIC_ERR_BACKPRESSURE, c1)) ∧
    tcp_send (λ i, SendBytes (if (i =? 0)%nat then 0 else 6)%nat) c1 [1; 2; 3; 4; 5; 6] = Ok (Some (Sent 6, c2)) ∧
    tc_wire c2 = [1; 1; 2; 3; 4; 5; 6].
Proof.
  split; [simpl; lia|].
  destruct (oversized_send_torn [] 80 1 [1; 2; 3; 4; 5; 6] ltac:(simpl; lia)) as (c1 & c2 & H1 & _ & H2 & H3).
  by exists c1, c2.
Defined.

Lemma connection_memory_balanced_witness :
  let p := TcpProcess transport_globals_init 1 (CbRegistry [] 1 0 0 0 0 0 None None) in
  let '(conn, p') := connection_alloc true [] [] 80 (Some (TcpConnectionConfig 64 48)) p in
  match conn with
  | None => False
  | Some c => memory_in_use p' = 64 ∧ memory_in_use (tcp_close c p') = 0
  end.
Proof.
  intros p.
  pose proof (connection_memory_balanced true [] [] 80 (Some (TcpConnectionConfig 64 48)) p) as H.
  assert (H0 : 0 ≤ memory_in_use p) by (vm_compute; discriminate).
  assert (H1 : memory_in_use p + Z.of_nat (capacity_of (Some (TcpConnectionConfig 64 48))) < 2 ^ 64) by by_decide.
  specialize (H H0 H1). destruct (connection_alloc _ _ _ _ _ p) as [[c|] p'] eqn:Ha; [|discriminate Ha].
  destruct H as (_ & _ & H2 & H3). split; [exact H2|exact H3].
Defined.

Definition unresolved : connect_answers := ConnectAnswers None true None true true 1 ENONE true [].
Definition reachable_host : connect_answers := ConnectAnswers (Some []) true None true true 1 ENONE true [].

Lemma lost_probe_witness :
  match cb_registry_create 32 (Some (CbConfig 1 0 0 2)) with
  | Some r0 =>
      let p := TcpProcess transport_globals_init 1 (cb_run [CbFailure [97] 80 1] r0).2 in
      let '((e, _), p') := tcp_connect [97] 80 100 None unresolved 5000000001 0 p in
      e = DISTRIC_ERR_INIT_FAILED ∧
      (tcp_connects [97] 80 100 None
         [(reachable_host, 6000000000, 0); (reachable_host, 9000000000000, 0)] p').1 =
        [DISTRIC_ERR_UNAVAILABLE; DISTRIC_ERR_UNAVAILABLE]
  | None => False
  end.
Proof.
  destruct (cb_registry_create 32 (Some (CbConfig 1 0 0 2))) as [r0|] eqn:Hr; [|done]. cbv zeta.
  assert (Hrep : represents (cb_failure_threshold r0) (cb_window_ms r0) (cb_base_recovery_ms r0) (cb_max_entries r0)
    (cb_run [CbFailure [97] 80 1] r0).2
    (hosts_run (cb_failure_threshold r0) (cb_window_ms r0) (cb_base_recovery_ms r0) [CbFailure [97] 80 1] ∅).2).
  { apply represents_run; [apply (create_represents 32 (Some (CbConfig 1 0 0 2))); [by_decide|exact Hr]|unfold host_ok; by_decide|].
    vm_compute in Hr. injection Hr as <-. vm_compute. discriminate. }
  set (p := TcpProcess _ _ _).
  pose proof (lost_probe _ _ _ _ p _ [97] 80 100 None
    (breaker_failure (cb_failure_threshold r0) (cb_window_ms r0) 1 (breaker_new (cb_base_recovery_ms r0)))
    unresolved 5000000001 0
    [(reachable_host, 6000000000, 0); (reachable_host, 9000000000000, 0)] Hrep) as H.
  assert (He : (tcp_connect [97] 80 100 None unresolved 5000000001 0 p).1.1 = DISTRIC_ERR_INIT_FAILED)
    by (vm_compute in Hr; injection Hr as Hr; subst p r0; vm_compute; reflexivity).
  destruct (tcp_connect [97] 80 100 None unresolved 5000000001 0 p) as [[e conn] p']. split; [exact He|].
  apply H; clear H; try (by left); vm_compute in Hr; injection Hr as <-; first [reflexivity | by_decide | vm_compute; reflexivity | vm_compute; discriminate].
Defined.
