(* ===== verification/WorkQueue.v ===== *)
(** * Transport: the work queue of the TCP server

    The [work_queue_t] of [src/libs/distric_transport/src/tcp.c]: the ring between
    the accept thread, which alone pushes, and the workers, which pop under
    [wait_lock].  A slot that was never written is [None] (the bytes of [calloc]).
    One slot of the ring stays free. *)

From Stdlib Require Import ZArith Lia.
From stdpp Require Import base list numbers option.
From S2P Require Import Prelude.

Local Open Scope Z_scope.

Definition TCP_QUEUE_PAUSE_PCT : Z := 90.
Definition TCP_QUEUE_RESUME_PCT : Z := 70.

(** ** The program *)

Section queue.
Context {item : Type}.

Record work_queue := WorkQueue {
  wq_items : list (option item);
  wq_capacity : Z;
  wq_shutdown_flag : bool;
  wq_force_flag : bool;
  wq_head : Z;
  wq_tail : Z
}.

Definition wq_set_head (h : Z) (q : work_queue) : work_queue :=
  WorkQueue (wq_items q) (wq_capacity q) (wq_shutdown_flag q) (wq_force_flag q) h (wq_tail q).

Definition wq_init (capacity : Z) : work_queue :=
  WorkQueue (replicate (Z.to_nat capacity) None) capacity false false 0 0.

Definition wq_used (q : work_queue) : Z :=
  let h := wq_head q in
  let t := wq_tail q in
  if t >=? h then u32 (t - h) else u32 (t + wq_capacity q - h).

(** The share of the ring that is used, as the accept thread computes it. *)
Definition wq_pct (q : work_queue) : Z :=
  if wq_capacity q >? 0 then u32 (wq_used q * 100) / wq_capacity q else 0.

Definition wq_shutdown (q : work_queue) : work_queue :=
  WorkQueue (wq_items q) (wq_capacity q) true (wq_force_flag q) (wq_head q) (wq_tail q).

Definition wq_force_stop (q : work_queue) : work_queue :=
  WorkQueue (wq_items q) (wq_capacity q) true true (wq_head q) (wq_tail q).

(** The boolean is [true] for a return of 0. *)
Definition wq_push (q : work_queue) (x : item) : result (bool * work_queue) :=
  let h := wq_head q in
  let t := wq_tail q in
  if wq_capacity q =? 0 then Fault
  else
    let next := u32 (t + 1) mod wq_capacity q in
    if next =? h then Ok (false, q)
    else if (Z.to_nat t <? length (wq_items q))%nat
    then Ok (true, WorkQueue (<[Z.to_nat t := Some x]> (wq_items q)) (wq_capacity q)
                     (wq_shutdown_flag q) (wq_force_flag q) h next)
    else Fault.

Definition wq_take (q : work_queue) : result (option item * work_queue) :=
  match wq_items q !! Z.to_nat (wq_head q) with
  | None => Fault
  | Some x =>
      if wq_capacity q =? 0 then Fault
      else Ok (x, wq_set_head (u32 (wq_head q + 1) mod wq_capacity q) q)
  end.

(** [None] is a return of -1. *)
Definition wq_try_pop (q : work_queue) : result (option (option item) * work_queue) :=
  if wq_head q =? wq_tail q then Ok (None, q)
  else r ← wq_take q; let '(x, q) := r in Ok (Some x, q).

(** One round of the loop of [wq_pop]: it returns an item, returns -1 or waits. *)
Inductive pop_outcome :=
  | Popped (x : option item)
  | PopStopped
  | PopWaits.

Definition wq_pop (q : work_queue) : result (pop_outcome * work_queue) :=
  if wq_force_flag q then Ok (PopStopped, q)
  else if negb (wq_head q =? wq_tail q) then r ← wq_take q; let '(x, q) := r in Ok (Popped x, q)
  else if wq_shutdown_flag q then Ok (PopStopped, q)
  else Ok (PopWaits, q).

(** ** What the queue holds *)

Record wq_holds (q : work_queue) (l : list item) : Prop := {
  wh_cap : 0 < wq_capacity q < 2 ^ 32;
  wh_len : Z.of_nat (length (wq_items q)) = wq_capacity q;
  wh_head : 0 ≤ wq_head q < wq_capacity q;
  wh_tail : wq_tail q = (wq_head q + Z.of_nat (length l)) mod wq_capacity q;
  wh_room : Z.of_nat (length l) < wq_capacity q;
  wh_items : ∀ i x, l !! i = Some x →
    wq_items q !! Z.to_nat ((wq_head q + Z.of_nat i) mod wq_capacity q) = Some (Some x)
}.

Lemma wq_init_holds capacity : 0 < capacity < 2 ^ 32 → wq_holds (wq_init capacity) [].
Proof.
  intros Hc. split; simpl; try lia.
  - rewrite length_replicate. lia.
  - by rewrite Z.mod_small by lia.
  - intros i x. by rewrite lookup_nil.
Qed.

Lemma wrap_mod x c : 0 < c → 0 ≤ x < 2 * c → x mod c = if x <? c then x else x - c.
Proof.
  intros Hc Hx. destruct (Z.ltb_spec x c); [apply Z.mod_small; lia|].
  symmetry. apply (Z.mod_unique _ _ 1); lia.
Qed.

Lemma wrap_next x c : 0 < c < 2 ^ 32 → 0 ≤ x < c → u32 (x + 1) mod c = (x + 1) mod c.
Proof.
  intros Hc Hx. by rewrite u32_id by ulia.
Qed.

Lemma wq_used_holds q l : wq_holds q l → wq_used q = Z.of_nat (length l).
Proof.
  intros [Hc Hl Hh Ht Hr _]. unfold wq_used. rewrite Ht, wrap_mod by lia.
  destruct (Z.ltb_spec (wq_head q + Z.of_nat (length l)) (wq_capacity q)).
  - destruct (Z.geb_spec (wq_head q + Z.of_nat (length l)) (wq_head q)); [|lia].
    rewrite u32_id by ulia. lia.
  - destruct (Z.geb_spec (wq_head q + Z.of_nat (length l) - wq_capacity q) (wq_head q)); [lia|].
    rewrite u32_id by ulia. lia.
Qed.

Lemma wq_empty_holds q l : wq_holds q l → (wq_head q =? wq_tail q) = (length l =? 0)%nat.
Proof.
  intros [Hc Hl Hh Ht Hr _]. rewrite Ht, wrap_mod by lia.
  destruct (Z.ltb_spec (wq_head q + Z.of_nat (length l)) (wq_capacity q)), (Nat.eqb_spec (length l) 0);
    destruct (Z.eqb_spec (wq_head q) (wq_head q + Z.of_nat (length l) - wq_capacity q)); lia.
Qed.

Lemma wq_flags_hold q l s f :
  wq_holds q l → wq_holds (WorkQueue (wq_items q) (wq_capacity q) s f (wq_head q) (wq_tail q)) l.
Proof. by intros []. Qed.

Lemma wq_push_holds q l x :
  wq_holds q l →
  if Z.of_nat (length l) =? wq_capacity q - 1 then wq_push q x = Ok (false, q)
  else ∃ q', wq_push q x = Ok (true, q') ∧ wq_holds q' (l ++ [x]) ∧ wq_capacity q' = wq_capacity q ∧
    wq_shutdown_flag q' = wq_shutdown_flag q ∧ wq_force_flag q' = wq_force_flag q.
Proof.
  intros [Hc Hl Hh Ht Hr Hi]. unfold wq_push. set (cap := wq_capacity q) in *. set (h := wq_head q) in *.
  destruct (Z.eqb_spec cap 0); [lia|].
  assert (Htr : 0 ≤ wq_tail q < cap) by (rewrite Ht; apply Z.mod_pos_bound; lia).
  rewrite wrap_next by lia.
  assert (Hnext : (wq_tail q + 1) mod cap = (h + Z.of_nat (length l) + 1) mod cap).
  { rewrite Ht. by rewrite Z.add_mod_idemp_l by lia. }
  rewrite Hnext. destruct (Z.eqb_spec (Z.of_nat (length l)) (cap - 1)) as [Hfull|Hnot].
  { rewrite Hfull. replace (h + (cap - 1) + 1) with (h + 1 * cap) by lia.
    rewrite Z.mod_add, Z.mod_small, Z.eqb_refl by lia. done. }
  destruct (Z.eqb_spec ((h + Z.of_nat (length l) + 1) mod cap) h) as [He|_].
  { exfalso. rewrite wrap_mod in He by lia. destruct (_ <? _) eqn:?; lia. }
  destruct (Nat.ltb_spec (Z.to_nat (wq_tail q)) (length (wq_items q))); [|lia].
  eexists. split; [done|]. split; [|done]. split; simpl; fold cap h; try lia.
  - rewrite length_insert. lia.
  - rewrite length_app. simpl. f_equal. lia.
  - rewrite length_app. simpl. lia.
  - intros i y [Hy|[Hil Hy]]%lookup_app_Some.
    + pose proof (lookup_lt_Some _ _ _ Hy). rewrite list_lookup_insert_ne; [by apply Hi|].
      intros Heq. apply Z2Nat.inj in Heq; [|lia|apply Z.mod_pos_bound; lia]. rewrite Ht in Heq.
      rewrite !wrap_mod in Heq by lia.
      revert Heq. repeat case_match; lia.
    + apply list_lookup_singleton_Some in Hy as [Hi0 <-]. replace i with (length l) by lia.
      rewrite <- Ht. rewrite list_lookup_insert_eq by lia. done.
Qed.

Lemma wq_take_holds q x l :
  wq_holds q (x :: l) →
  ∃ q', wq_take q = Ok (Some x, q') ∧ wq_holds q' l ∧ wq_capacity q' = wq_capacity q ∧
    wq_shutdown_flag q' = wq_shutdown_flag q ∧ wq_force_flag q' = wq_force_flag q.
Proof.
  intros [Hc Hl Hh Ht Hr Hi]. unfold wq_take. simpl in Hr, Ht.
  pose proof (Hi 0%nat x eq_refl) as H0. rewrite Z.add_0_r, Z.mod_small in H0 by lia. rewrite H0.
  destruct (Z.eqb_spec (wq_capacity q) 0); [lia|]. rewrite wrap_next by lia.
  eexists. split; [done|]. split; [|done]. split; simpl; try lia.
  - apply Z.mod_pos_bound. lia.
  - rewrite Ht, Z.add_mod_idemp_l by lia. f_equal. lia.
  - intros i y Hy. rewrite Z.add_mod_idemp_l by lia. rewrite <- (Hi (S i) y Hy). do 3 f_equal. lia.
Qed.

(** What the operations do on what the queue holds. *)
Lemma wq_pop_holds q l :
  wq_holds q l →
  ∃ out q' l', wq_pop q = Ok (out, q') ∧ wq_holds q' l' ∧ wq_capacity q' = wq_capacity q ∧
    wq_shutdown_flag q' = wq_shutdown_flag q ∧ wq_force_flag q' = wq_force_flag q ∧
    match out with
    | Popped x => ∃ y, x = Some y ∧ l = y :: l' ∧ wq_force_flag q = false
    | PopStopped => l' = l ∧ (wq_force_flag q = true ∨ (wq_shutdown_flag q = true ∧ l = []))
    | PopWaits => l' = l ∧ l = [] ∧ wq_shutdown_flag q = false ∧ wq_force_flag q = false
    end.
Proof.
  intros Hq. unfold wq_pop. destruct (wq_force_flag q) eqn:Hf.
  { exists PopStopped, q, l. rewrite Hf. auto 10. }
  rewrite (wq_empty_holds q l Hq). destruct l as [|x l]; simpl.
  - destruct (wq_shutdown_flag q) eqn:Hs.
    + exists PopStopped, q, []. rewrite Hf, Hs. auto 10.
    + exists PopWaits, q, []. rewrite Hf, Hs. auto 10.
  - destruct (wq_take_holds q x l Hq) as (q' & -> & Hq' & Hc & Hs & Hff). simpl.
    exists (Popped (Some x)), q', l. rewrite Hff, Hs, Hf. eauto 10.
Qed.

Lemma wq_try_pop_holds q l :
  wq_holds q l →
  match l with
  | [] => wq_try_pop q = Ok (None, q)
  | x :: l => ∃ q', wq_try_pop q = Ok (Some (Some x), q') ∧ wq_holds q' l ∧ wq_capacity q' = wq_capacity q ∧
      wq_shutdown_flag q' = wq_shutdown_flag q ∧ wq_force_flag q' = wq_force_flag q
  end.
Proof.
  intros Hq. unfold wq_try_pop. rewrite (wq_empty_holds q l Hq). destruct l as [|x l]; [done|]. simpl.
  destruct (wq_take_holds q x l Hq) as (q' & -> & Hq' & H). by exists q'.
Qed.
End queue.
Arguments work_queue : clear implicits.
Arguments pop_outcome : clear implicits.
