(* ===== verification/TcpServer.v ===== *)
(** * Transport: the TCP server

    The server of [src/libs/distric_transport/src/tcp.c]: its accept thread, its
    workers and [tcp_server_stop], as threads that interleave over the work queue
    and the atomic counters.  A turn of a thread is one access to shared state; what
    the kernel, the callback and the clock answer is the choice that comes with the
    turn.  [pthread_create] succeeds.  The two lists at the end of the state are
    the history: the connections that were queued, and who took them out. *)

From Stdlib Require Import ZArith Lia.
From stdpp Require Import base list numbers option relations.
From S2P Require Import Prelude CString TransportConfig TcpConnection WorkQueue.

Local Open Scope Z_scope.
#[local] Arguments sumZ : simpl never.

(** ** Data *)

Definition TCP_EPOLL_MAX_EVENTS : nat := 64.
Definition TCP_MAX_WORKERS : Z := 32.
Definition TCP_DEFAULT_QUEUE_DEPTH : Z := 4096.
Definition TCP_DEFAULT_DRAIN_TIMEOUT_MS : Z := 5000.

Inductive tcp_server_state := TCP_SERVER_STOPPED | TCP_SERVER_RUNNING | TCP_SERVER_DRAINING.

#[export] Instance tcp_server_state_eq_dec : EqDecision tcp_server_state.
Proof. solve_decision. Defined.

Record tcp_server_config := TcpServerConfig {
  worker_threads : Z;
  worker_queue_depth : Z;
  drain_timeout_ms : Z;
  conn_send_queue_capacity : nat;
  conn_send_queue_hwm : nat
}.

(** The accept thread: at the head of its loop, in [epoll_wait], with [n] events
    left, after the check of the queue for a connection it accepted, or after it
    queued one and before it counted it. *)
Inductive accept_pc :=
  | AccLoop
  | AccPoll
  | AccEvents (n : nat)
  | AccChecked (addr : list Z) (port : Z) (n : nat)
  | AccPushed (n : nat)
  | AccDone.

(** A worker: about to pop, holding a connection before it counts itself busy, in
    the callback, after it, or gone. *)
Inductive worker_pc :=
  | WPop
  | WTaken (conn : tcp_connection)
  | WCallback (conn : tcp_connection)
  | WLeaving
  | WExit.

(** The call of [tcp_server_stop] that found the server running. *)
Inductive stop_pc :=
  | StopIdle
  | StopJoinAccept
  | StopDraining
  | StopClosing (clean : bool)
  | StopJoin (clean : bool)
  | StopSweep (clean : bool)
  | StopEnd
  | StopDone.

#[export] Instance stop_pc_eq_dec : EqDecision stop_pc.
Proof. solve_decision. Defined.

Record tcp_server := TcpServer {
  sv_state : tcp_server_state;
  sv_active : Z;
  sv_busy : Z;
  sv_worker_count : Z;
  sv_paused : bool;
  sv_queue : work_queue tcp_connection;
  sv_conn_config : tcp_connection_config;
  sv_drain_timeout_ms : Z;
  sv_process : tcp_process;
  sv_accept : accept_pc;
  sv_workers : list worker_pc;
  sv_stop : stop_pc;
  sv_accepted : list tcp_connection;
  sv_taken : list (bool * tcp_connection)   (* [true]: by a worker, for the callback *)
}.

Definition sv_set_state (x : tcp_server_state) (s : tcp_server) : tcp_server :=
  TcpServer x (sv_active s) (sv_busy s) (sv_worker_count s) (sv_paused s) (sv_queue s) (sv_conn_config s)
    (sv_drain_timeout_ms s) (sv_process s) (sv_accept s) (sv_workers s) (sv_stop s) (sv_accepted s) (sv_taken s).
Definition sv_set_counts (active busy : Z) (s : tcp_server) : tcp_server :=
  TcpServer (sv_state s) active busy (sv_worker_count s) (sv_paused s) (sv_queue s) (sv_conn_config s)
    (sv_drain_timeout_ms s) (sv_process s) (sv_accept s) (sv_workers s) (sv_stop s) (sv_accepted s) (sv_taken s).
Definition sv_set_paused (x : bool) (s : tcp_server) : tcp_server :=
  TcpServer (sv_state s) (sv_active s) (sv_busy s) (sv_worker_count s) x (sv_queue s) (sv_conn_config s)
    (sv_drain_timeout_ms s) (sv_process s) (sv_accept s) (sv_workers s) (sv_stop s) (sv_accepted s) (sv_taken s).
Definition sv_set_queue (x : work_queue tcp_connection) (s : tcp_server) : tcp_server :=
  TcpServer (sv_state s) (sv_active s) (sv_busy s) (sv_worker_count s) (sv_paused s) x (sv_conn_config s)
    (sv_drain_timeout_ms s) (sv_process s) (sv_accept s) (sv_workers s) (sv_stop s) (sv_accepted s) (sv_taken s).
Definition sv_set_process (x : tcp_process) (s : tcp_server) : tcp_server :=
  TcpServer (sv_state s) (sv_active s) (sv_busy s) (sv_worker_count s) (sv_paused s) (sv_queue s) (sv_conn_config s)
    (sv_drain_timeout_ms s) x (sv_accept s) (sv_workers s) (sv_stop s) (sv_accepted s) (sv_taken s).
Definition sv_set_accept (x : accept_pc) (s : tcp_server) : tcp_server :=
  TcpServer (sv_state s) (sv_active s) (sv_busy s) (sv_worker_count s) (sv_paused s) (sv_queue s) (sv_conn_config s)
    (sv_drain_timeout_ms s) (sv_process s) x (sv_workers s) (sv_stop s) (sv_accepted s) (sv_taken s).
Definition sv_set_worker (i : nat) (x : worker_pc) (s : tcp_server) : tcp_server :=
  TcpServer (sv_state s) (sv_active s) (sv_busy s) (sv_worker_count s) (sv_paused s) (sv_queue s) (sv_conn_config s)
    (sv_drain_timeout_ms s) (sv_process s) (sv_accept s) (<[i := x]> (sv_workers s)) (sv_stop s) (sv_accepted s)
    (sv_taken s).
Definition sv_set_stop (x : stop_pc) (s : tcp_server) : tcp_server :=
  TcpServer (sv_state s) (sv_active s) (sv_busy s) (sv_worker_count s) (sv_paused s) (sv_queue s) (sv_conn_config s)
    (sv_drain_timeout_ms s) (sv_process s) (sv_accept s) (sv_workers s) x (sv_accepted s) (sv_taken s).
Definition sv_add_accepted (c : tcp_connection) (s : tcp_server) : tcp_server :=
  TcpServer (sv_state s) (sv_active s) (sv_busy s) (sv_worker_count s) (sv_paused s) (sv_queue s) (sv_conn_config s)
    (sv_drain_timeout_ms s) (sv_process s) (sv_accept s) (sv_workers s) (sv_stop s) (sv_accepted s ++ [c])
    (sv_taken s).
Definition sv_add_taken (by_worker : bool) (c : tcp_connection) (s : tcp_server) : tcp_server :=
  TcpServer (sv_state s) (sv_active s) (sv_busy s) (sv_worker_count s) (sv_paused s) (sv_queue s) (sv_conn_config s)
    (sv_drain_timeout_ms s) (sv_process s) (sv_accept s) (sv_workers s) (sv_stop s) (sv_accepted s)
    (sv_taken s ++ [(by_worker, c)]).

(** ** Creation *)

(** [nprocs] is what [sysconf] answers. *)
Definition cpu_count (nprocs : Z) : Z :=
  let n := if nprocs <=? 0 then 4 else nprocs in
  if u32 n >? TCP_MAX_WORKERS then TCP_MAX_WORKERS else u32 n.

(** What the calls of [tcp_server_create_with_config] answer. *)
Record create_answers := CreateAnswers {
  cr_calloc : bool;
  cr_epoll : bool;
  cr_socket : bool;
  cr_bind : option errno;
  cr_listen : bool;
  cr_queue : bool;
  cr_workers : bool;
  cr_nprocs : Z
}.

Definition tcp_server_create_with_config (cfg : option tcp_server_config) (a : create_answers)
    (p : tcp_process) : result tcp_server :=
  if negb (cr_calloc a) then Err DISTRIC_ERR_ALLOC_FAILURE
  else
    let or_default f default :=
      match cfg with Some c => if f c =? 0 then default else f c | None => default end in
    let count := or_default worker_threads (cpu_count (cr_nprocs a)) in
    let count := if count >? TCP_MAX_WORKERS then TCP_MAX_WORKERS else count in
    let depth := or_default worker_queue_depth TCP_DEFAULT_QUEUE_DEPTH in
    let drain := or_default drain_timeout_ms TCP_DEFAULT_DRAIN_TIMEOUT_MS in
    let conn_config :=
      match cfg with
      | Some c => TcpConnectionConfig (conn_send_queue_capacity c) (conn_send_queue_hwm c)
      | None => TcpConnectionConfig 0 0
      end in
    if negb (cr_epoll a) then Err DISTRIC_ERR_INIT_FAILED
    else if negb (cr_socket a) then Err DISTRIC_ERR_INIT_FAILED
    else
      match cr_bind a with
      | Some e => Err (transport_err_to_distric (transport_classify_errno e))
      | None =>
          if negb (cr_listen a) then Err DISTRIC_ERR_INIT_FAILED
          else if negb (cr_queue a) then Err DISTRIC_ERR_ALLOC_FAILURE
          else if negb (cr_workers a) then Err DISTRIC_ERR_ALLOC_FAILURE
          else Ok (TcpServer TCP_SERVER_STOPPED 0 0 count false (wq_init depth) conn_config drain p
                     AccDone [] StopIdle [] [])
      end.

Definition tcp_server_create (a : create_answers) (p : tcp_process) : result tcp_server :=
  tcp_server_create_with_config None a p.

Definition tcp_server_start (s : tcp_server) : result tcp_server :=
  if negb (bool_decide (sv_state s = TCP_SERVER_STOPPED)) then Err DISTRIC_ERR_INVALID_STATE
  else
    Ok (TcpServer TCP_SERVER_RUNNING (sv_active s) (sv_busy s) (sv_worker_count s) (sv_paused s) (sv_queue s)
          (sv_conn_config s) (sv_drain_timeout_ms s) (sv_process s) AccLoop
          (replicate (Z.to_nat (sv_worker_count s)) WPop) StopIdle (sv_accepted s) (sv_taken s)).

(** ** The accept thread *)

Definition accept_pause (s : tcp_server) : tcp_server := sv_set_paused true s.
Definition accept_resume (s : tcp_server) : tcp_server := sv_set_paused false s.

(** The check after [epoll_wait]. *)
Definition resume_check (s : tcp_server) : tcp_server :=
  if sv_paused s && (wq_pct (sv_queue s) <? TCP_QUEUE_RESUME_PCT) then accept_resume s else s.

Definition saturated (s : tcp_server) : bool := wq_pct (sv_queue s) >=? TCP_QUEUE_PAUSE_PCT.

Inductive accept_choice :=
  | PollError (eintr : bool)
  | PollReady (n : nat)
  | AcceptNothing                          (* no [EPOLLIN], or [accept] fails *)
  | AcceptConn (addr : list Z) (port : Z)
  | AcceptProceed (calloc_ok : bool) (garbage : list Z).

(** [None] where the choice is not one of the turn. *)
Definition accept_turn (ch : accept_choice) (s : tcp_server) : option (result tcp_server) :=
  match sv_accept s, ch with
  | AccLoop, AcceptProceed _ _ =>
      Some (Ok (sv_set_accept
        (if bool_decide (sv_state s = TCP_SERVER_RUNNING) then AccPoll else AccDone) s))
  | AccPoll, PollError eintr =>
      Some (Ok (sv_set_accept (if eintr then AccLoop else AccDone) (resume_check s)))
  | AccPoll, PollReady n =>
      if (n <=? TCP_EPOLL_MAX_EVENTS)%nat then Some (Ok (sv_set_accept (AccEvents n) (resume_check s)))
      else None
  | AccEvents O, AcceptProceed _ _ => Some (Ok (sv_set_accept AccLoop s))
  | AccEvents (S n), AcceptNothing => Some (Ok (sv_set_accept (AccEvents n) s))
  | AccEvents (S n), AcceptConn addr port =>
      Some (Ok (if saturated s then sv_set_accept (AccEvents n) (accept_pause s)
                else sv_set_accept (AccChecked addr port n) s))
  | AccChecked addr port n, AcceptProceed calloc_ok garbage =>
      let '(conn, p) := connection_alloc calloc_ok garbage addr port (Some (sv_conn_config s)) (sv_process s) in
      let s := sv_set_process p s in
      match conn with
      | None => Some (Ok (sv_set_accept (AccEvents n) s))
      | Some conn =>
          Some (r ← wq_push (sv_queue s) conn;
                let '(pushed, q) := r in
                if pushed : bool
                then Ok (sv_set_accept (AccPushed n) (sv_add_accepted conn (sv_set_queue q s)))
                else Ok (sv_set_accept (AccEvents n)
                           (accept_pause (sv_set_process (tcp_close conn (sv_process s)) s))))
      end
  | AccPushed n, AcceptProceed _ _ =>
      let s := sv_set_accept (AccEvents n) (sv_set_counts (sv_active s + 1) (sv_busy s) s) in
      Some (Ok (if saturated s then accept_pause s else s))
  | _, _ => None
  end.

(** ** The workers *)

(** [p] is the process as the callback leaves it. *)
Definition worker_turn (i : nat) (p : tcp_process) (s : tcp_server) : option (result tcp_server) :=
  match sv_workers s !! i with
  | Some WPop =>
      match wq_pop (sv_queue s) with
      | Ok (Popped (Some conn), q) =>
          Some (Ok (sv_set_worker i (WTaken conn) (sv_add_taken true conn (sv_set_queue q s))))
      | Ok (Popped None, _) => Some Fault
      | Ok (PopStopped, q) => Some (Ok (sv_set_worker i WExit (sv_set_queue q s)))
      | Ok (PopWaits, _) => None
      | Err e => Some (Err e)
      | Fault => Some Fault
      end
  | Some (WTaken conn) =>
      Some (Ok (sv_set_worker i (WCallback conn) (sv_set_counts (sv_active s) (u32 (sv_busy s + 1)) s)))
  | Some (WCallback _) => Some (Ok (sv_set_worker i WLeaving (sv_set_process p s)))
  | Some WLeaving =>
      Some (Ok (sv_set_worker i WPop (sv_set_counts (sv_active s - 1) (u32 (sv_busy s - 1)) s)))
  | Some WExit | None => None
  end.

(** ** Stopping *)

(** The entry of [tcp_server_stop]; only a call that finds the server running goes
    on, the others return [DISTRIC_OK]. *)
Definition tcp_server_stop_entry (s : tcp_server) : tcp_server :=
  let prev := sv_state s in
  let s := sv_set_state TCP_SERVER_DRAINING s in
  if bool_decide (prev = TCP_SERVER_RUNNING) then sv_set_stop StopJoinAccept s else s.

Definition is_exited (w : worker_pc) : bool := match w with WExit => true | _ => false end.

(** The rest of that call; [timed_out] tells whether the deadline has passed. *)
Definition stop_turn (timed_out : bool) (s : tcp_server) : option (result tcp_server) :=
  match sv_stop s with
  | StopIdle | StopDone => None
  | StopJoinAccept =>
      match sv_accept s with AccDone => Some (Ok (sv_set_stop StopDraining s)) | _ => None end
  | StopDraining =>
      if (sv_active s >? 0) && negb timed_out then None
      else Some (Ok (sv_set_stop (StopClosing (sv_active s =? 0)) s))
  | StopClosing clean =>
      let q := if clean then wq_shutdown (sv_queue s) else wq_force_stop (sv_queue s) in
      Some (Ok (sv_set_stop (StopJoin clean) (sv_set_queue q s)))
  | StopJoin clean =>
      if forallb is_exited (sv_workers s) then Some (Ok (sv_set_stop (StopSweep clean) s)) else None
  | StopSweep true => Some (Ok (sv_set_stop StopEnd s))
  | StopSweep false =>
      match wq_try_pop (sv_queue s) with
      | Ok (None, _) => Some (Ok (sv_set_stop StopEnd s))
      | Ok (Some (Some conn), q) =>
          Some (Ok (sv_add_taken false conn (sv_set_queue q
            (sv_set_process (tcp_close conn (sv_process s)) (sv_set_counts (sv_active s - 1) (sv_busy s) s)))))
      | Ok (Some None, _) => Some Fault
      | Err e => Some (Err e)
      | Fault => Some Fault
      end
  | StopEnd => Some (Ok (sv_set_stop StopDone (sv_set_state TCP_SERVER_STOPPED s)))
  end.

(** ** The threads together *)

Inductive sv_choice :=
  | TurnAccept (ch : accept_choice)
  | TurnWorker (i : nat) (p : tcp_process)
  | TurnStop (timed_out : bool).

Definition sv_turn (c : sv_choice) (s : tcp_server) : option (result tcp_server) :=
  match c with
  | TurnAccept ch => accept_turn ch s
  | TurnWorker i p => worker_turn i p s
  | TurnStop timed_out => stop_turn timed_out s
  end.

(** A turn of a thread, a call of [tcp_server_stop], or something else in the
    process that uses its memory budget and breakers. *)
Inductive sv_step : tcp_server → tcp_server → Prop :=
  | sv_step_turn c s s' : sv_turn c s = Some (Ok s') → sv_step s s'
  | sv_step_stop s : sv_step s (tcp_server_stop_entry s)
  | sv_step_process p s : sv_step s (sv_set_process p s).

(** ** The invariant *)

Definition holding (w : worker_pc) : Z :=
  match w with WTaken _ | WCallback _ | WLeaving => 1 | _ => 0 end.
Definition calling (w : worker_pc) : Z := match w with WCallback _ | WLeaving => 1 | _ => 0 end.
Definition uncounted (a : accept_pc) : Z := match a with AccPushed _ => 1 | _ => 0 end.

Definition flags (s : tcp_server) : bool * bool := (wq_shutdown_flag (sv_queue s), wq_force_flag (sv_queue s)).

(** What holds at the points of [tcp_server_stop]. *)
Definition stop_ok (s : tcp_server) (l : list tcp_connection) : Prop :=
  match sv_stop s with
  | StopIdle => sv_state s = TCP_SERVER_RUNNING ∧ flags s = (false, false)
  | StopJoinAccept => sv_state s = TCP_SERVER_DRAINING ∧ flags s = (false, false)
  | StopDraining => sv_state s = TCP_SERVER_DRAINING ∧ flags s = (false, false) ∧ sv_accept s = AccDone
  | StopClosing clean =>
      sv_state s = TCP_SERVER_DRAINING ∧ flags s = (false, false) ∧ sv_accept s = AccDone ∧
      (clean = true → sv_active s = 0)
  | StopJoin clean =>
      sv_state s = TCP_SERVER_DRAINING ∧ flags s = (true, negb clean) ∧ sv_accept s = AccDone ∧
      (clean = true → sv_active s = 0)
  | StopSweep clean =>
      sv_state s = TCP_SERVER_DRAINING ∧ flags s = (true, negb clean) ∧ sv_accept s = AccDone ∧
      (clean = true → sv_active s = 0) ∧ Forall (λ w, w = WExit) (sv_workers s)
  | StopEnd =>
      sv_state s = TCP_SERVER_DRAINING ∧ sv_accept s = AccDone ∧
      Forall (λ w, w = WExit) (sv_workers s) ∧ l = []
  | StopDone =>
      sv_state s ≠ TCP_SERVER_RUNNING ∧ sv_accept s = AccDone ∧
      Forall (λ w, w = WExit) (sv_workers s) ∧ l = []
  end.

Record sv_inv (s : tcp_server) (l : list tcp_connection) : Prop := {
  si_holds : wq_holds (sv_queue s) l;
  si_history : sv_accepted s = (sv_taken s).*2 ++ l;
  si_active : sv_active s = Z.of_nat (length l) + sumZ holding (sv_workers s) - uncounted (sv_accept s);
  si_busy : sv_busy s = sumZ calling (sv_workers s);
  si_workers : (length (sv_workers s) ≤ 32)%nat;
  si_handed : wq_force_flag (sv_queue s) = false → Forall (λ x, x.1 = true) (sv_taken s);
  si_stop : stop_ok s l
}.

Lemma sumZ_le_length {A} (f : A → Z) l : (∀ x, f x ≤ 1) → sumZ f l ≤ Z.of_nat (length l).
Proof. intros Hf. induction l as [|x l IH]; [done|]. unfold sumZ in *. simpl. specialize (Hf x). lia. Qed.

Lemma holding_nonneg l : 0 ≤ sumZ holding l.
Proof. apply sumZ_nonneg, Forall_true. by intros []. Qed.
Lemma calling_nonneg l : 0 ≤ sumZ calling l.
Proof. apply sumZ_nonneg, Forall_true. by intros []. Qed.

Lemma exited_holding l : Forall (λ w, w = WExit) l → sumZ holding l = 0.
Proof. intros Hl. apply sumZ_const_0. eapply list.Forall_impl; [exact Hl|]. by intros ? ->. Qed.

(** A queue that only changes what it holds. *)
Definition queue_step (q q' : work_queue tcp_connection) (l : list tcp_connection) : Prop :=
  wq_holds q' l ∧ wq_shutdown_flag q' = wq_shutdown_flag q ∧ wq_force_flag q' = wq_force_flag q.

Lemma accept_turn_inv ch s l r :
  sv_inv s l → accept_turn ch s = Some r → ∃ s' l', r = Ok s' ∧ sv_inv s' l'.
Proof.
  intros [Hq Hh Ha Hb Hw Ht Hs] Hturn. unfold accept_turn in Hturn.
  (* the stop thread has not joined the accept thread *)
  assert (Hstop : sv_accept s ≠ AccDone → ∀ l' s', sv_stop s' = sv_stop s → sv_state s' = sv_state s →
    flags s' = flags s → stop_ok s' l').
  { intros Hne l' s' H1 H2 H3. unfold stop_ok in Hs |- *. rewrite H1, H2, H3. destruct (sv_stop s); naive_solver. }
  assert (Hset : ∀ s' pc, sv_accept s ≠ AccDone → uncounted (sv_accept s) = 0 → uncounted pc = 0 →
    sv_queue s' = sv_queue s → sv_accepted s' = sv_accepted s → sv_taken s' = sv_taken s →
    sv_active s' = sv_active s → sv_busy s' = sv_busy s → sv_workers s' = sv_workers s →
    sv_stop s' = sv_stop s → sv_state s' = sv_state s → sv_inv (sv_set_accept pc s') l).
  { intros s' pc Hne Hu Hu' Eq E1 E2 E3 E4 E5 E6 E7. split; cbn.
    all: try (rewrite ?Eq, ?E1, ?E2, ?E3, ?E4, ?E5; done || lia).
    apply Hstop; [done|done|done|]. unfold flags. cbn. by rewrite Eq. }
  assert (Hres : ∀ pc, sv_accept s ≠ AccDone → uncounted (sv_accept s) = 0 → uncounted pc = 0 →
    sv_inv (sv_set_accept pc (resume_check s)) l).
  { intros pc H1 H2 H3. unfold resume_check. destruct (_ && _); by apply Hset. }
  destruct (sv_accept s) as [| |[|n]|addr port n|n|] eqn:Hpc, ch as [eintr|m| |addr' port'|ok garbage];
    try discriminate Hturn.
  - injection Hturn as <-. exists (sv_set_accept (if bool_decide (sv_state s = TCP_SERVER_RUNNING) then AccPoll else AccDone) s), l.
    split; [done|]. apply Hset; try done. by destruct (bool_decide _).
  - injection Hturn as <-. do 2 eexists. split; [done|]. apply Hres; try done. by destruct eintr.
  - destruct (m <=? TCP_EPOLL_MAX_EVENTS)%nat; [|done]. injection Hturn as <-. do 2 eexists.
    split; [done|]. by apply Hres.
  - injection Hturn as <-. do 2 eexists. split; [done|]. by apply Hset.
  - injection Hturn as <-. do 2 eexists. split; [done|]. by apply Hset.
  - injection Hturn as <-. do 2 eexists. split; [done|]. destruct (saturated s); by apply Hset.
  - destruct (connection_alloc ok garbage addr port (Some (sv_conn_config s)) (sv_process s)) as [[conn|] p];
      injection Hturn as <-; [|do 2 eexists; split; [done|]; by apply Hset].
    cbn [sv_queue sv_set_process]. pose proof (wq_push_holds (sv_queue s) l conn Hq) as Hp.
    destruct (_ =? _); [rewrite Hp; do 2 eexists; split; [done|]; by apply Hset|].
    destruct Hp as (q' & -> & Hq' & _ & Hf1 & Hf2). do 2 eexists. split; [done|]. split; cbn.
    + exact Hq'.
    + by rewrite Hh, app_assoc.
    + rewrite Ha, length_app. simpl. lia.
    + done.
    + done.
    + by rewrite Hf2.
    + apply Hstop; [done|done|done|]. unfold flags. cbn. by rewrite Hf1, Hf2.
  - injection Hturn as <-. set (s' := sv_set_accept (AccEvents n) _).
    assert (Hinv : sv_inv s' l).
    { split; cbn; try done; [simpl in Ha; lia|]. by apply Hstop. }
    destruct (saturated s'); [|by exists s', l]. exists (accept_pause s'), l. split; [done|].
    destruct Hinv as [G1 G2 G3 G4 G5 G6 G7]. by split.
Qed.

(** A turn of a worker keeps what the stop thread relies on: a worker that is not
    gone means that it has not joined the workers, and a clean drain means that no
    worker holds a connection. *)
Lemma stop_ok_worker s s' l l' i w w' :
  sv_inv s l → sv_workers s !! i = Some w → w ≠ WExit →
  sv_stop s' = sv_stop s → sv_state s' = sv_state s → sv_accept s' = sv_accept s → flags s' = flags s →
  sv_workers s' = <[i := w']> (sv_workers s) →
  (sv_active s = 0 → sv_accept s = AccDone → l = [] → holding w = 0 → sv_active s' = 0) → stop_ok s' l'.
Proof.
  intros [_ _ Ha _ _ _ Hs] Hw Hne E1 E2 E3 E4 E5 Hact.
  assert (Hnot : ¬ Forall (λ w, w = WExit) (sv_workers s)).
  { intros Hall. apply Hne. eapply (Forall_lookup_1 _ _ _ _ Hall Hw). }
  assert (Hclean : sv_accept s = AccDone → sv_active s = 0 → sv_active s' = 0).
  { intros Hacc H0. rewrite Hacc in Ha. simpl in Ha. pose proof (holding_nonneg (sv_workers s)).
    assert (Hle : holding w ≤ sumZ holding (sv_workers s))
      by (apply (sumZ_le _ _ i); [by apply Forall_true; intros []|done]).
    apply Hact; [done|done|apply nil_length_inv; lia|]. assert (0 ≤ holding w) by by destruct w. lia. }
  unfold stop_ok in *. rewrite E1, E2, E3, E4. destruct (sv_stop s); naive_solver.
Qed.

Lemma worker_turn_inv i p s l r :
  sv_inv s l → worker_turn i p s = Some r → ∃ s' l', r = Ok s' ∧ sv_inv s' l'.
Proof.
  intros Hinv Hturn. pose proof Hinv as [Hq Hh Ha Hb Hw Ht Hs]. unfold worker_turn in Hturn.
  destruct (sv_workers s !! i) as [w|] eqn:Hi; [|done].
  pose proof (λ y, sumZ_insert holding _ i w y Hi) as Hsh. pose proof (λ y, sumZ_insert calling _ i w y Hi) as Hsc.
  assert (Hwb : sumZ calling (sv_workers s) ≤ 32).
  { etransitivity; [apply sumZ_le_length|lia]. by intros []. }
  pose proof (calling_nonneg (sv_workers s)) as Hc0.
  assert (Hwi : calling w ≤ sumZ calling (sv_workers s))
    by (apply (sumZ_le _ _ i); [by apply Forall_true; intros []|done]).
  assert (Hci : ∀ y, sumZ calling (<[i:=y]> (sv_workers s)) ≤ 32).
  { intros y. etransitivity; [apply sumZ_le_length; by intros []|]. rewrite length_insert. lia. }
  destruct w as [|conn|conn| |]; [| | | |done].
  - destruct (wq_pop_holds (sv_queue s) l Hq) as (out & q' & l' & Hpop & Hq' & _ & Hf1 & Hf2 & Hout).
    rewrite Hpop in Hturn. destruct out as [x| |]; [| |done].
    + destruct Hout as (y & -> & -> & Hforce). injection Hturn as <-. do 2 eexists. split; [done|]. split; cbn.
      * exact Hq'.
      * rewrite Hh, fmap_app, <- app_assoc. done.
      * rewrite Ha, Hsh. simpl. lia.
      * rewrite Hb, Hsc. simpl. lia.
      * by rewrite length_insert.
      * intros _. apply Forall_app. split; [by apply Ht|by apply Forall_singleton].
      * eapply (stop_ok_worker s); try done. unfold flags. cbn. by rewrite Hf1, Hf2.
    + destruct Hout as [-> _]. injection Hturn as <-. do 2 eexists. split; [done|]. split; cbn.
      * exact Hq'.
      * done.
      * rewrite Ha, Hsh. simpl. lia.
      * rewrite Hb, Hsc. simpl. lia.
      * by rewrite length_insert.
      * by rewrite Hf2.
      * eapply (stop_ok_worker s); try done. unfold flags. cbn. by rewrite Hf1, Hf2.
  - injection Hturn as <-. specialize (Hci (WCallback conn)). do 2 eexists. split; [done|].
    split; cbn; try done.
    + rewrite Ha, Hsh. simpl. lia.
    + rewrite Hsc in Hci |- *. simpl in *. rewrite Hb, u32_id by ulia. lia.
    + by rewrite length_insert.
    + by eapply (stop_ok_worker s).
  - injection Hturn as <-. do 2 eexists. split; [done|]. split; cbn; try done.
    + rewrite Ha, Hsh. simpl. lia.
    + rewrite Hb, Hsc. simpl. lia.
    + by rewrite length_insert.
    + by eapply (stop_ok_worker s).
  - injection Hturn as <-. do 2 eexists. split; [done|]. split; cbn; try done.
    + rewrite Ha, Hsh. simpl. lia.
    + rewrite Hsc. simpl in *. rewrite Hb, u32_id by ulia. lia.
    + by rewrite length_insert.
    + by eapply (stop_ok_worker s).
Qed.

Lemma stop_turn_inv timed_out s l r :
  sv_inv s l → stop_turn timed_out s = Some r → ∃ s' l', r = Ok s' ∧ sv_inv s' l'.
Proof.
  intros [Hq Hh Ha Hb Hw Ht Hs] Hturn. unfold stop_turn in Hturn.
  assert (Hset : ∀ pc s' l', sv_queue s' = sv_queue s → sv_inv s' l → stop_ok (sv_set_stop pc s') l' → l' = l →
    sv_inv (sv_set_stop pc s') l').
  { intros pc s' l' _ [? ? ? ? ? ? ?] Hok ->. by split. }
  unfold stop_ok in Hs.
  destruct (sv_stop s) as [| | |clean|clean|[]| |] eqn:Hpc; try done.
  - destruct (sv_accept s) eqn:Hacc; try done. injection Hturn as <-. do 2 eexists. split; [done|].
    split; cbn; try done; [by rewrite Hacc|]. cbn. naive_solver.
  - destruct (_ && _); [done|]. injection Hturn as <-. do 2 eexists. split; [done|]. split; cbn; try done.
    cbn. destruct Hs as (? & ? & ?). split_and!; try done. by intros ?%Z.eqb_eq.
  - injection Hturn as <-. do 2 eexists. split; [done|]. destruct Hs as (Hst & Hfl & Hacc & H0).
    injection Hfl as Hf1 Hf2. split; cbn; try done.
    + destruct clean; by apply wq_flags_hold.
    + intros _. by apply Ht.
    + cbn. split; [done|]. split; [unfold flags; by destruct clean; cbn; rewrite ?Hf2|done].
  - destruct (forallb is_exited (sv_workers s)) eqn:Hex; [|done]. injection Hturn as <-. do 2 eexists.
    split; [done|]. split; cbn; try done. cbn. destruct Hs as (Hst & Hfl & Hacc & H0). split_and!; try done.
    apply list.Forall_forall. intros w Hin%list_elem_of_In. rewrite List.forallb_forall in Hex. specialize (Hex w Hin). by destruct w.
  - injection Hturn as <-. destruct Hs as (Hst & Hfl & Hacc & H0 & Hall). do 2 eexists. split; [done|].
    split; cbn; try done. cbn. split_and!; try done. apply nil_length_inv.
    rewrite Hacc, (exited_holding _ Hall) in Ha. simpl in Ha. specialize (H0 eq_refl). lia.
  - destruct Hs as (Hst & Hfl & Hacc & H0 & Hall). pose proof (wq_try_pop_holds (sv_queue s) l Hq) as Hp.
    destruct l as [|x l].
    + rewrite Hp in Hturn. injection Hturn as <-. do 2 eexists. split; [done|]. by split.
    + destruct Hp as (q' & Hp & Hq' & _ & Hf1 & Hf2). rewrite Hp in Hturn. injection Hturn as <-.
      injection Hfl as Hfl1 Hfl2. do 2 eexists. split; [done|]. split; cbn; try done.
      * rewrite Hh, fmap_app, <- app_assoc. done.
      * rewrite Ha. simpl. lia.
      * rewrite Hf2, Hfl2. done.
      * unfold stop_ok. cbn. rewrite Hpc. unfold flags. cbn. rewrite Hf1, Hf2, Hfl1, Hfl2. done.
  - injection Hturn as <-. do 2 eexists. split; [done|]. split; cbn; try done. cbn. naive_solver.
Qed.

Lemma stop_entry_inv s l : sv_inv s l → sv_inv (tcp_server_stop_entry s) l.
Proof.
  intros [Hq Hh Ha Hb Hw Ht Hs]. unfold tcp_server_stop_entry. unfold stop_ok in Hs.
  destruct (bool_decide (sv_state s = TCP_SERVER_RUNNING)) eqn:Hr.
  - apply bool_decide_eq_true in Hr. split; cbn; try done. cbn.
    destruct (sv_stop s); naive_solver congruence.
  - apply bool_decide_eq_false in Hr. split; cbn; try done. unfold stop_ok. cbn.
    destruct (sv_stop s); naive_solver.
Qed.

Lemma turn_inv c s l r : sv_inv s l → sv_turn c s = Some r → ∃ s' l', r = Ok s' ∧ sv_inv s' l'.
Proof. destruct c; [apply accept_turn_inv|apply worker_turn_inv|apply stop_turn_inv]. Qed.

Lemma process_inv p s l : sv_inv s l → sv_inv (sv_set_process p s) l.
Proof. by intros []. Qed.

Lemma step_inv s s' l : sv_step s s' → sv_inv s l → ∃ l', sv_inv s' l'.
Proof.
  intros [c ? ? Hturn| |] Hinv.
  - destruct (turn_inv c _ l _ Hinv Hturn) as (s1 & l' & [= ->] & H). by exists l'.
  - exists l. by apply stop_entry_inv.
  - exists l. by apply process_inv.
Qed.

Lemma steps_inv s s' l : rtc sv_step s s' → sv_inv s l → ∃ l', sv_inv s' l'.
Proof.
  intros Hrun. revert l. induction Hrun as [|s1 s2 s3 Hstep _ IH]; intros l Hinv; [by exists l|].
  destruct (step_inv _ _ _ Hstep Hinv) as [l' H]. by eapply IH.
Qed.

Definition config_ok (cfg : option tcp_server_config) : Prop :=
  match cfg with Some c => is_u32 (worker_threads c) ∧ is_u32 (worker_queue_depth c) | None => True end.

Lemma started_inv cfg a p s0 s :
  config_ok cfg → tcp_server_create_with_config cfg a p = Ok s0 → tcp_server_start s0 = Ok s → sv_inv s [].
Proof.
  intros Hc Hcreate Hstart. unfold tcp_server_create_with_config in Hcreate.
  destruct (cr_calloc a), (cr_epoll a), (cr_socket a), (cr_bind a), (cr_listen a), (cr_queue a), (cr_workers a);
    try discriminate Hcreate. cbn [negb] in Hcreate. injection Hcreate as <-.
  unfold tcp_server_start in Hstart. cbn in Hstart. injection Hstart as <-.
  split; cbn; try done.
  - apply wq_init_holds. unfold TCP_DEFAULT_QUEUE_DEPTH. destruct cfg as [c|]; [|lia].
    destruct Hc as [_ Hd]. destruct (Z.eqb_spec (worker_queue_depth c) 0); [lia|]. unfold is_u32 in Hd. lia.
  - rewrite (sumZ_const_0 holding); [done|by apply Forall_replicate].
  - rewrite (sumZ_const_0 calling); [done|by apply Forall_replicate].
  - rewrite length_replicate. destruct (_ >? TCP_MAX_WORKERS) eqn:Hgt; unfold TCP_MAX_WORKERS in *; lia.
Qed.

(** The server accounts for every connection, in every interleaving of its
    accept thread, its workers and [tcp_server_stop]: no turn touches memory
    outside of the queue; the connections that were queued are, in this order, those
    that were taken out and those that wait, of which there are fewer than the queue
    has slots; and when [tcp_server_stop] is through, the counters of active
    connections and busy workers are zero, every worker has ended and every queued
    connection went to the callback or was closed, once, and to the callback if the
    drain was clean. *)
Theorem server_accounts cfg a p s0 s s' :
  config_ok cfg → tcp_server_create_with_config cfg a p = Ok s0 → tcp_server_start s0 = Ok s →
  rtc sv_step s s' →
  (∀ c, sv_turn c s' ≠ Some Fault) ∧
  (∃ waiting, sv_accepted s' = (sv_taken s').*2 ++ waiting ∧
     Z.of_nat (length waiting) < wq_capacity (sv_queue s')) ∧
  (sv_stop s' = StopDone →
     sv_active s' = 0 ∧ sv_busy s' = 0 ∧ sv_accepted s' = (sv_taken s').*2 ∧
     Forall (λ w, w = WExit) (sv_workers s') ∧
     (wq_force_flag (sv_queue s') = false → Forall (λ x, x.1 = true) (sv_taken s'))).
Proof.
  intros Hc Hcreate Hstart Hrun. pose proof (started_inv _ _ _ _ _ Hc Hcreate Hstart) as Hinv.
  destruct (steps_inv _ _ _ Hrun Hinv) as (l & Hl). split; [|split].
  - intros c Hf. by destruct (turn_inv c s' l _ Hl Hf) as (s'' & l' & ? & _).
  - exists l. split; [apply Hl|]. apply (wh_room _ _ (si_holds _ _ Hl)).
  - intros Hdone. pose proof Hl as [_ Hh Ha Hb _ Ht Hs]. unfold stop_ok in Hs. rewrite Hdone in Hs.
    destruct Hs as (_ & Hacc & Hall & ->). rewrite Hacc, (sumZ_const_0 holding) in Ha.
    2: { eapply list.Forall_impl; [exact Hall|]. by intros ? ->. }
    rewrite (sumZ_const_0 calling) in Hb by (eapply list.Forall_impl; [exact Hall|]; by intros ? ->).
    rewrite app_nil_r in Hh. done.
Qed.

(** ** Termination of [tcp_server_stop] *)

Definition accept_left (a : accept_pc) : Z :=
  match a with
  | AccDone => 0
  | AccLoop => 1
  | AccEvents n => 2 + 10 * Z.of_nat n
  | AccPushed n => 3 + 10 * Z.of_nat n
  | AccChecked _ _ n => 11 + 10 * Z.of_nat n
  | AccPoll => 3 + 10 * Z.of_nat TCP_EPOLL_MAX_EVENTS
  end.
Definition worker_left (w : worker_pc) : Z :=
  match w with WTaken _ => 4 | WCallback _ => 3 | WLeaving => 2 | WPop => 1 | WExit => 0 end.
Definition stop_left (p : stop_pc) : Z :=
  match p with
  | StopIdle => 7 | StopJoinAccept => 6 | StopDraining => 5 | StopClosing _ => 4 | StopJoin _ => 3
  | StopSweep _ => 2 | StopEnd => 1 | StopDone => 0
  end.

(** An upper bound of the turns that are left once the server drains. *)
Definition turns_left (s : tcp_server) : Z :=
  accept_left (sv_accept s) + sumZ worker_left (sv_workers s) +
  5 * (Z.of_nat (length (sv_accepted s)) - Z.of_nat (length (sv_taken s))) + stop_left (sv_stop s).

Lemma turn_decreases c s s' :
  sv_state s ≠ TCP_SERVER_RUNNING → sv_turn c s = Some (Ok s') →
  turns_left s' < turns_left s ∧ sv_state s' ≠ TCP_SERVER_RUNNING.
Proof.
  intros Hst Hturn. destruct c as [ch|i p|timed_out]; simpl in Hturn.
  - unfold accept_turn in Hturn.
    assert (Hres : ∀ pc, turns_left (sv_set_accept pc (resume_check s)) = turns_left (sv_set_accept pc s) ∧
      sv_state (sv_set_accept pc (resume_check s)) = sv_state s).
    { intros pc. unfold resume_check. by destruct (_ && _). }
    assert (Hset : ∀ pc, turns_left (sv_set_accept pc s) = turns_left s - accept_left (sv_accept s) + accept_left pc)
      by (intros pc; unfold turns_left; cbn; lia).
    destruct (sv_accept s) as [| |[|n]|addr port n|n|] eqn:Hpc, ch as [eintr|m| |addr' port'|ok garbage];
      try discriminate Hturn.
    + injection Hturn as <-. rewrite bool_decide_eq_false_2 by done. rewrite Hset. split; [simpl; lia|done].
    + injection Hturn as <-. destruct (Hres (if eintr then AccLoop else AccDone)) as [-> ->]. rewrite Hset.
      split; [destruct eintr; simpl; lia|done].
    + destruct (Nat.leb_spec m TCP_EPOLL_MAX_EVENTS); [|done]. injection Hturn as <-.
      destruct (Hres (AccEvents m)) as [-> ->]. rewrite Hset. split; [simpl; unfold TCP_EPOLL_MAX_EVENTS in *; lia|done].
    + injection Hturn as <-. rewrite Hset. split; [simpl; lia|done].
    + injection Hturn as <-. rewrite Hset. split; [simpl; lia|done].
    + injection Hturn as <-. destruct (saturated s); (split; [|done]).
      * change (turns_left (sv_set_accept (AccEvents n) s) < turns_left s). rewrite Hset. simpl. lia.
      * rewrite Hset. simpl. lia.
    + destruct (connection_alloc ok garbage addr port (Some (sv_conn_config s)) (sv_process s)) as [[conn|] p].
      2: { injection Hturn as <-. split; [|done]. change (turns_left (sv_set_accept (AccEvents n) s) < turns_left s).
           rewrite Hset. simpl. lia. }
      cbn [sv_queue sv_set_process] in Hturn.
      destruct (wq_push (sv_queue s) conn) as [[[] q]| |]; try discriminate Hturn; injection Hturn as <-; (split; [|done]).
      * unfold turns_left. cbn. rewrite Hpc, length_app. simpl. lia.
      * change (turns_left (sv_set_accept (AccEvents n) s) < turns_left s). rewrite Hset. simpl. lia.
    + injection Hturn as <-.
      assert (Hlt : turns_left (sv_set_accept (AccEvents n) s) < turns_left s) by (rewrite Hset; simpl; lia).
      by destruct (saturated _).
  - unfold worker_turn in Hturn. destruct (sv_workers s !! i) as [w|] eqn:Hi; [|done].
    pose proof (λ y, sumZ_insert worker_left _ i w y Hi) as Hsh.
    destruct w as [|conn|conn| |]; [| | | |done].
    2-4: injection Hturn as <-; (split; [|done]); unfold turns_left; cbn; rewrite Hsh; simpl; lia.
    destruct (wq_pop (sv_queue s)) as [[[[conn|]| |] q]| |]; try discriminate Hturn; injection Hturn as <-;
      (split; [|done]); unfold turns_left; cbn; rewrite Hsh, ?length_app; simpl; lia.
  - unfold stop_turn in Hturn. destruct (sv_stop s) as [| | |clean|clean|[]| |] eqn:Hpc; try discriminate Hturn.
    + destruct (sv_accept s) eqn:Hacc; try discriminate Hturn. injection Hturn as <-. split; [|done].
      unfold turns_left. cbn. rewrite Hpc, Hacc. simpl. lia.
    + destruct (_ && _); [done|]. injection Hturn as <-. split; [|done]. unfold turns_left. cbn. rewrite Hpc. simpl. lia.
    + injection Hturn as <-. split; [|done]. unfold turns_left. cbn. rewrite Hpc. simpl. lia.
    + destruct (forallb _ _); [|done]. injection Hturn as <-. split; [|done]. unfold turns_left. cbn. rewrite Hpc. simpl. lia.
    + injection Hturn as <-. split; [|done]. unfold turns_left. cbn. rewrite Hpc. simpl. lia.
    + destruct (wq_try_pop (sv_queue s)) as [[[[conn|]|] q]| |]; try discriminate Hturn; injection Hturn as <-;
        (split; [|done]); unfold turns_left; cbn; rewrite Hpc, ?length_app; simpl; lia.
    + injection Hturn as <-. split; [|done]. unfold turns_left. cbn. rewrite Hpc. simpl. lia.
Qed.

(** [n] turns of the threads, between other events. *)
Inductive sv_turns : nat → tcp_server → tcp_server → Prop :=
  | turns_none s : sv_turns 0 s s
  | turns_turn c n s s1 s' : sv_turn c s = Some (Ok s1) → sv_turns n s1 s' → sv_turns (S n) s s'
  | turns_stop n s s' : sv_turns n (tcp_server_stop_entry s) s' → sv_turns n s s'
  | turns_process p n s s' : sv_turns n (sv_set_process p s) s' → sv_turns n s s'.

Lemma turns_left_nonneg s l : sv_inv s l → 0 ≤ turns_left s.
Proof.
  intros [_ Hh _ _ _ _ _]. unfold turns_left. rewrite Hh, length_app, length_fmap.
  assert (0 ≤ accept_left (sv_accept s)) by (destruct (sv_accept s); simpl; lia).
  assert (0 ≤ stop_left (sv_stop s)) by (destruct (sv_stop s); simpl; lia).
  assert (0 ≤ sumZ worker_left (sv_workers s)) by (apply sumZ_nonneg, Forall_true; by intros []). lia.
Qed.

Lemma stop_entry_again s : sv_state s ≠ TCP_SERVER_RUNNING →
  turns_left (tcp_server_stop_entry s) = turns_left s ∧ sv_state (tcp_server_stop_entry s) = TCP_SERVER_DRAINING.
Proof. intros Hs. unfold tcp_server_stop_entry. by rewrite bool_decide_eq_false_2. Qed.

Lemma turns_bounded n s s' l :
  sv_turns n s s' → sv_state s ≠ TCP_SERVER_RUNNING → sv_inv s l →
  Z.of_nat n ≤ turns_left s ∧ ∃ l', sv_inv s' l' ∧ sv_state s' ≠ TCP_SERVER_RUNNING.
Proof.
  intros Hr. revert l. induction Hr as [s|c n s s1 s' Hturn _ IH|n s s' _ IH|p n s s' _ IH]; intros l Hst Hinv.
  - split; [by eapply turns_left_nonneg|eauto].
  - destruct (turn_inv _ _ _ _ Hinv Hturn) as (s1' & l1 & [= <-] & Hinv1).
    destruct (turn_decreases _ _ _ Hst Hturn) as [Hlt Hst1].
    destruct (IH l1 Hst1 Hinv1) as [Hn H]. split; [lia|done].
  - destruct (stop_entry_again s Hst) as [He Hd]. rewrite <- He. apply (IH l); [by rewrite Hd|].
    by apply stop_entry_inv.
  - apply (IH l); [done|]. by apply process_inv.
Qed.

(** Somebody can take a turn until [tcp_server_stop] is through. *)
Lemma turn_available s l :
  sv_inv s l → sv_stop s ≠ StopIdle → sv_stop s ≠ StopDone → ∃ c s', sv_turn c s = Some (Ok s').
Proof.
  intros Hinv Hne1 Hne2.
  assert (Hsome : ∀ c r, sv_turn c s = Some r → ∃ c s', sv_turn c s = Some (Ok s')).
  { intros c r Hr. destruct (turn_inv _ _ _ _ Hinv Hr) as (s' & _ & -> & _). by exists c, s'. }
  pose proof Hinv as [Hq _ _ _ _ _ Hs]. unfold stop_ok in Hs.
  destruct (sv_stop s) as [| | |clean|clean|[]| |] eqn:Hpc; try done.
  - destruct (sv_accept s) as [| |[|n]|addr port n|n|] eqn:Hacc.
    + eapply (Hsome (TurnAccept (AcceptProceed true []))). simpl. unfold accept_turn. by rewrite Hacc.
    + eapply (Hsome (TurnAccept (PollReady 0))). simpl. unfold accept_turn. by rewrite Hacc.
    + eapply (Hsome (TurnAccept (AcceptProceed true []))). simpl. unfold accept_turn. by rewrite Hacc.
    + eapply (Hsome (TurnAccept AcceptNothing)). simpl. unfold accept_turn. by rewrite Hacc.
    + destruct (connection_alloc true [] addr port (Some (sv_conn_config s)) (sv_process s)) as [[conn|] p] eqn:Hal;
        eapply (Hsome (TurnAccept (AcceptProceed true []))); simpl; unfold accept_turn; by rewrite Hacc, Hal.
    + eapply (Hsome (TurnAccept (AcceptProceed true []))). simpl. unfold accept_turn. by rewrite Hacc.
    + eapply (Hsome (TurnStop true)). simpl. unfold stop_turn. by rewrite Hpc, Hacc.
  - eapply (Hsome (TurnStop true)). simpl. unfold stop_turn. rewrite Hpc. by rewrite andb_false_r.
  - eapply (Hsome (TurnStop true)). simpl. unfold stop_turn. by rewrite Hpc.
  - destruct (forallb is_exited (sv_workers s)) eqn:Hex.
    { eapply (Hsome (TurnStop true)). simpl. unfold stop_turn. by rewrite Hpc, Hex. }
    assert (Hw : ∃ i w, sv_workers s !! i = Some w ∧ w ≠ WExit).
    { clear -Hex. induction (sv_workers s) as [|w ws IH]; [done|]. simpl in Hex.
      destruct (is_exited w) eqn:Hw; [|exists 0%nat, w; split; [done|]; by intros ->].
      destruct (IH Hex) as (i & w' & H1 & H2). by exists (S i), w'. }
    destruct Hw as (i & w & Hi & Hwne). destruct Hs as (_ & Hfl & _). injection Hfl as Hf1 _.
    destruct (wq_pop_holds (sv_queue s) l Hq) as (out & q' & l' & Hpop & _ & _ & _ & _ & Hout).
    destruct w as [|conn|conn| |]; [|..|done].
    + destruct out as [x| |]; [| |destruct Hout as (_ & _ & Hsf & _); congruence].
      * destruct Hout as (y & -> & _). eapply (Hsome (TurnWorker i (sv_process s))). simpl. unfold worker_turn.
        rewrite Hi, Hpop. done.
      * eapply (Hsome (TurnWorker i (sv_process s))). simpl. unfold worker_turn. rewrite Hi, Hpop. done.
    + eapply (Hsome (TurnWorker i (sv_process s))). simpl. unfold worker_turn. by rewrite Hi.
    + eapply (Hsome (TurnWorker i (sv_process s))). simpl. unfold worker_turn. by rewrite Hi.
    + eapply (Hsome (TurnWorker i (sv_process s))). simpl. unfold worker_turn. by rewrite Hi.
  - eapply (Hsome (TurnStop true)). simpl. unfold stop_turn. by rewrite Hpc.
  - pose proof (wq_try_pop_holds (sv_queue s) l Hq) as Hp. destruct l as [|x l].
    + eapply (Hsome (TurnStop true)). simpl. unfold stop_turn. rewrite Hpc, Hp. done.
    + destruct Hp as (q' & Hp & _). eapply (Hsome (TurnStop true)). simpl. unfold stop_turn. rewrite Hpc, Hp. done.
  - eapply (Hsome (TurnStop true)). simpl. unfold stop_turn. by rewrite Hpc.
Qed.

(** Once it was called on the running server, the call stays. *)
Lemma not_running s l : sv_inv s l → sv_state s ≠ TCP_SERVER_RUNNING ↔ sv_stop s ≠ StopIdle.
Proof.
  intros [_ _ _ _ _ _ Hs]. unfold stop_ok in Hs. destruct (sv_stop s); naive_solver congruence.
Qed.

(** C20: [tcp_server_stop] on a running server returns, if callbacks return, time
    passes and the threads are scheduled: from every reachable state, once it is
    called, the threads can take no more than a fixed number of turns, whatever
    the kernel answers and whoever else calls it, and until it is through one of
    them can take a turn. *)
Theorem server_stop_terminates cfg a p s0 s1 s n s' :
  config_ok cfg → tcp_server_create_with_config cfg a p = Ok s0 → tcp_server_start s0 = Ok s1 →
  rtc sv_step s1 s → sv_state s = TCP_SERVER_RUNNING → sv_turns n (tcp_server_stop_entry s) s' →
  Z.of_nat n ≤ turns_left (tcp_server_stop_entry s) ∧
  (sv_stop s' = StopDone ∨ ∃ c s'', sv_turn c s' = Some (Ok s'')).
Proof.
  intros Hc Hcreate Hstart Hrun Hst Hturns. pose proof (started_inv _ _ _ _ _ Hc Hcreate Hstart) as Hinv.
  destruct (steps_inv _ _ _ Hrun Hinv) as (l & Hl). pose proof (stop_entry_inv s l Hl) as Hl'.
  assert (Hd : sv_state (tcp_server_stop_entry s) ≠ TCP_SERVER_RUNNING)
    by (unfold tcp_server_stop_entry; by rewrite Hst).
  destruct (turns_bounded n _ s' l Hturns Hd Hl') as [Hn (l1 & Hinv' & Hst')]. split; [done|].
  destruct (decide (sv_stop s' = StopDone)) as [|Hne]; [by left|right].
  eapply turn_available; [done| |done]. by apply (not_running s' l1).
Qed.

(** A second call of [tcp_server_stop], on a server that has stopped, says that it
    drains for ever: it cannot be started, and [tcp_server_destroy] calls
    [tcp_server_stop] again, which returns at once. *)
Lemma stop_when_stopped s :
  sv_state s = TCP_SERVER_STOPPED →
  let s' := tcp_server_stop_entry s in
  sv_state s' = TCP_SERVER_DRAINING ∧ sv_stop s' = sv_stop s ∧ tcp_server_start s' = Err DISTRIC_ERR_INVALID_STATE ∧
  tcp_server_stop_entry s' = s'.
Proof. intros Hs. unfold tcp_server_stop_entry. rewrite Hs. cbn. auto. Qed.

(** ** Witnesses *)

(** Turns, and calls of [tcp_server_stop]. *)
Fixpoint sv_run (events : list (option sv_choice)) (s : tcp_server) : option tcp_server :=
  match events with
  | [] => Some s
  | None :: events => sv_run events (tcp_server_stop_entry s)
  | Some c :: events => match sv_turn c s with Some (Ok s) => sv_run events s | _ => None end
  end.

Lemma sv_run_steps events : ∀ s s', sv_run events s = Some s' → rtc sv_step s s'.
Proof.
  induction events as [|[c|] events IH]; intros s s'; simpl; [by intros [= ->]| |].
  - destruct (sv_turn c s) as [[s1| |]|] eqn:Hturn; try done. intros Hr.
    eapply rtc_l; [by eapply sv_step_turn|by apply IH].
  - intros Hr. eapply rtc_l; [apply sv_step_stop|by apply IH].
Qed.

Lemma sv_run_turns events : ∀ s s', sv_run events s = Some s' →
  sv_turns (length (omap (λ e, e) events)) s s'.
Proof.
  induction events as [|[c|] events IH]; intros s s'; simpl; [intros [= ->]; constructor| |].
  - destruct (sv_turn c s) as [[s1| |]|] eqn:Hturn; try done. intros Hr.
    eapply turns_turn; [exact Hturn|by apply IH].
  - intros Hr. apply turns_stop. by apply IH.
Qed.

Definition server_config : tcp_server_config := TcpServerConfig 1 3 1000 4 3.
Definition server_answers : create_answers := CreateAnswers true true true None true true true 1.
Definition server_process : tcp_process :=
  TcpProcess transport_globals_init 1 (CircuitBreaker.CbRegistry [] 1 0 0 0 0 0 None None).
Definition go : option sv_choice := Some (TurnAccept (AcceptProceed true [])).
Definition work : option sv_choice := Some (TurnWorker 0 server_process).

(** Two connections come; the callback of the first is running when the server is
    stopped and the drain times out, so the second is closed. *)
Definition serving : list (option sv_choice) :=
  [go; Some (TurnAccept (PollReady 2)); Some (TurnAccept (AcceptConn [49] 1000)); go; work; go;
   Some (TurnAccept (AcceptConn [50] 2000)); go; go; work; go; go].
Definition stopping : list (option sv_choice) :=
  [Some (TurnAccept (PollReady 0)); go; go; Some (TurnStop false); Some (TurnStop true); Some (TurnStop true);
   work; work; work; Some (TurnStop true); Some (TurnStop true); Some (TurnStop true); Some (TurnStop true)].

Definition started : tcp_server :=
  match tcp_server_create_with_config (Some server_config) server_answers server_process with
  | Ok s0 => match tcp_server_start s0 with Ok s => s | _ => TcpServer TCP_SERVER_STOPPED 0 0 0 false
      (wq_init 0) (TcpConnectionConfig 0 0) 0 server_process AccDone [] StopIdle [] [] end
  | _ => TcpServer TCP_SERVER_STOPPED 0 0 0 false (wq_init 0) (TcpConnectionConfig 0 0) 0 server_process
           AccDone [] StopIdle [] []
  end.

Lemma server_accounts_witness :
  ∃ s', sv_run (serving ++ [None] ++ stopping) started = Some s' ∧ sv_stop s' = StopDone ∧
    sv_active s' = 0 ∧ sv_accepted s' = (sv_taken s').*2 ∧ map fst (sv_taken s') = [true; false].
Proof.
  destruct (sv_run (serving ++ [None] ++ stopping) started) as [s'|] eqn:Hr; [|vm_compute in Hr; discriminate].
  pose proof (sv_run_steps _ _ _ Hr) as Hsteps. exists s'. split; [reflexivity|].
  destruct (tcp_server_create_with_config (Some server_config) server_answers server_process) as [s0| |] eqn:Hc;
    [|discriminate Hc|discriminate Hc].
  destruct (server_accounts (Some server_config) server_answers server_process s0 started s') as (_ & _ & Hdone).
  - by_decide.
  - exact Hc.
  - vm_compute in Hc. injection Hc as <-. vm_compute. reflexivity.
  - exact Hsteps.
  - vm_compute in Hr. injection Hr as <-. destruct (Hdone eq_refl) as (Ha & _ & Hacc & _).
    split; [reflexivity|]. split; [exact Ha|]. split; [exact Hacc|reflexivity].
Defined.

Lemma server_stop_terminates_witness :
  ∃ s s', sv_run serving started = Some s ∧ sv_run stopping (tcp_server_stop_entry s) = Some s' ∧
    13 ≤ turns_left (tcp_server_stop_entry s) ∧ sv_stop s' = StopDone.
Proof.
  destruct (sv_run serving started) as [s|] eqn:Hr; [|vm_compute in Hr; discriminate].
  destruct (sv_run stopping (tcp_server_stop_entry s)) as [s'|] eqn:Hr';
    [|vm_compute in Hr; injection Hr as <-; vm_compute in Hr'; discriminate].
  exists s, s'. split; [reflexivity|]. split; [exact Hr'|].
  destruct (tcp_server_create_with_config (Some server_config) server_answers server_process) as [s0| |] eqn:Hc;
    [|discriminate Hc|discriminate Hc].
  destruct (server_stop_terminates (Some server_config) server_answers server_process s0 started s 13 s') as [Hn _].
  - by_decide.
  - exact Hc.
  - vm_compute in Hc. injection Hc as <-. vm_compute. reflexivity.
  - exact (sv_run_steps _ _ _ Hr).
  - vm_compute in Hr. injection Hr as <-. reflexivity.
  - exact (sv_run_turns _ _ _ Hr').
  - split; [exact Hn|]. vm_compute in Hr. injection Hr as <-. vm_compute in Hr'. injection Hr' as <-. reflexivity.
Defined.
