(* ===== verification/Udp.v ===== *)
(** * Transport: UDP sockets and the rate limiter

    [src/libs/distric_transport/src/udp.c].  One thread receives, so the accesses to
    the table of token buckets do not interleave.  Times are nanoseconds of the
    monotonic clock; signed 64-bit arithmetic that overflows is undefined
    ([Fault]). *)

From Stdlib Require Import ZArith Lia.
From stdpp Require Import base list numbers option gmap.
From S2P Require Import Prelude CString TransportConfig.

Local Open Scope Z_scope.

(** ** Data *)

Definition BUCKET_TABLE_SIZE : Z := 256.
Definition BUCKET_TABLE_MASK : Z := BUCKET_TABLE_SIZE - 1.
Definition NS_PER_SEC : Z := 1000000000.
Definition PEER_DEFAULT_TTL_NS : Z := 30 * NS_PER_SEC.
Definition INT64_MAX : Z := 2 ^ 63 - 1.

Record token_bucket_entry := TokenBucketEntry {
  tb_ip_addr : Z;
  tb_max_tokens : Z;
  tb_tokens_per_ns_num : Z;
  tb_tokens_x1e9 : Z;
  tb_last_refill_ns : Z;
  tb_last_seen_ns : Z;
  tb_active : bool
}.

Record udp_rate_limit_config := UdpRateLimitConfig {
  cfg_rate_limit_pps : Z;
  cfg_burst_size : Z;
  cfg_max_peers : Z;
  cfg_peer_ttl_s : Z
}.

Record udp_socket := UdpSocket {
  us_rate_limiting_enabled : bool;
  us_rate_limit_pps : Z;
  us_burst_size : Z;
  us_max_peers : Z;
  us_peer_ttl_ns : Z;
  us_active_peer_count : Z;
  us_buckets : list token_bucket_entry;
  us_drops_rate_limited : Z;
  us_drops_total : Z;
  us_peer_evictions : Z
}.

Definition us_set_table (count : Z) (t : list token_bucket_entry) (s : udp_socket) : udp_socket :=
  UdpSocket (us_rate_limiting_enabled s) (us_rate_limit_pps s) (us_burst_size s) (us_max_peers s)
    (us_peer_ttl_ns s) count t (us_drops_rate_limited s) (us_drops_total s) (us_peer_evictions s).
Definition us_count_eviction (s : udp_socket) : udp_socket :=
  UdpSocket (us_rate_limiting_enabled s) (us_rate_limit_pps s) (us_burst_size s) (us_max_peers s)
    (us_peer_ttl_ns s) (us_active_peer_count s) (us_buckets s) (us_drops_rate_limited s) (us_drops_total s)
    (u64 (us_peer_evictions s + 1)).
Definition us_count_drop (s : udp_socket) : udp_socket :=
  UdpSocket (us_rate_limiting_enabled s) (us_rate_limit_pps s) (us_burst_size s) (us_max_peers s)
    (us_peer_ttl_ns s) (us_active_peer_count s) (us_buckets s) (u64 (us_drops_rate_limited s + 1))
    (u64 (us_drops_total s + 1)) (us_peer_evictions s).

Definition tb_set_active (b : bool) (e : token_bucket_entry) : token_bucket_entry :=
  TokenBucketEntry (tb_ip_addr e) (tb_max_tokens e) (tb_tokens_per_ns_num e) (tb_tokens_x1e9 e)
    (tb_last_refill_ns e) (tb_last_seen_ns e) b.
Definition tb_set_tokens (tokens refill : Z) (e : token_bucket_entry) : token_bucket_entry :=
  TokenBucketEntry (tb_ip_addr e) (tb_max_tokens e) (tb_tokens_per_ns_num e) tokens refill
    (tb_last_seen_ns e) (tb_active e).
Definition tb_set_seen (now : Z) (e : token_bucket_entry) : token_bucket_entry :=
  TokenBucketEntry (tb_ip_addr e) (tb_max_tokens e) (tb_tokens_per_ns_num e) (tb_tokens_x1e9 e)
    (tb_last_refill_ns e) now (tb_active e).

(** Signed 64-bit arithmetic. *)
Definition int64 (z : Z) : result Z := if (- 2 ^ 63 <=? z) && (z <? 2 ^ 63) then Ok z else Fault.

(** ** Eviction *)

(** The scan of [evict_lru_peer] from the slot [i]: the first expired entry, or the
    entry seen least recently; [best] is that entry so far and [best_ts] when it
    was seen. *)
Fixpoint evict_scan (ttl now : Z) (t : list token_bucket_entry) (i : nat) (best : option nat) (best_ts : Z) :
    result (option nat) :=
  match t with
  | [] => Ok best
  | e :: t =>
      if negb (tb_active e) then evict_scan ttl now t (S i) best best_ts
      else
        age ← int64 (now - tb_last_seen_ns e);
        if age >? ttl then Ok (Some i)
        else if tb_last_seen_ns e <? best_ts
        then evict_scan ttl now t (S i) (Some i) (tb_last_seen_ns e)
        else evict_scan ttl now t (S i) best best_ts
  end.

(** [None] is a return of -1. *)
Definition evict_lru_peer (s : udp_socket) (now : Z) : result (option nat * udp_socket) :=
  found ← evict_scan (us_peer_ttl_ns s) now (us_buckets s) 0 None INT64_MAX;
  match found with
  | None => Ok (None, s)
  | Some i =>
      Ok (Some i, us_count_eviction (us_set_table (u32 (us_active_peer_count s - 1))
                    (alter (tb_set_active false) i (us_buckets s)) s))
  end.

(** ** The table *)

(** The slot of a probe. *)
Definition probe_slot (ip probe : Z) : nat :=
  Z.to_nat (Z.land (u32 (Z.land ip BUCKET_TABLE_MASK + probe)) BUCKET_TABLE_MASK).

(** Both searches of the table, by [bucket_try_consume] and
    [bucket_find_or_create], stop at the first slot of the probe sequence that is
    free or belongs to the peer; [None] if there is none in the [n] probes from
    [probe] on. *)
Fixpoint first_slot (t : list token_bucket_entry) (ip : Z) (n : nat) (probe : Z) :
    result (option (nat * token_bucket_entry)) :=
  match n with
  | O => Ok None
  | S n =>
      match t !! probe_slot ip probe with
      | None => Fault
      | Some e =>
          if negb (tb_active e) || (tb_ip_addr e =? ip) then Ok (Some (probe_slot ip probe, e))
          else first_slot t ip n (probe + 1)
      end
  end.

Definition search (s : udp_socket) (ip : Z) : result (option (nat * token_bucket_entry)) :=
  first_slot (us_buckets s) ip (Z.to_nat BUCKET_TABLE_SIZE) 0.

(** A new peer takes the slot [i]. *)
Definition bucket_fill (s : udp_socket) (i : nat) (ip now : Z) : result (nat * udp_socket) :=
  tokens ← int64 (us_burst_size s * NS_PER_SEC);
  if (i <? length (us_buckets s))%nat then
    Ok (i, us_set_table (u32 (us_active_peer_count s + 1))
             (<[i := TokenBucketEntry ip (us_burst_size s) (us_rate_limit_pps s) tokens now now true]>
                (us_buckets s)) s)
  else Fault.

(** [None] is a null pointer; otherwise the slot of the peer. *)
Definition bucket_find_or_create (s : udp_socket) (ip now : Z) : result (option nat * udp_socket) :=
  let evict_and_fill :=
    r ← evict_lru_peer s now;
    let '(evicted, s) := r in
    match evicted : option nat with
    | None => Ok (None, s)
    | Some i => r ← bucket_fill s i ip now; let '(i, s) := r in Ok (Some i, s)
    end in
  found ← search s ip;
  match found with
  | Some (i, e) =>
      if tb_active e then
        Ok (Some i, us_set_table (us_active_peer_count s) (alter (tb_set_seen now) i (us_buckets s)) s)
      else if us_active_peer_count s >=? us_max_peers s then evict_and_fill
      else r ← bucket_fill s i ip now; let '(i, s) := r in Ok (Some i, s)
  | None => if us_active_peer_count s >=? us_max_peers s then evict_and_fill else Ok (None, s)
  end.

(** One token of the entry, if there is one. *)
Definition take_token (e : token_bucket_entry) : bool * token_bucket_entry :=
  if tb_tokens_x1e9 e >=? NS_PER_SEC
  then (true, tb_set_tokens (tb_tokens_x1e9 e - NS_PER_SEC) (tb_last_refill_ns e) e)
  else (false, e).

Definition refill (now : Z) (e : token_bucket_entry) : result token_bucket_entry :=
  elapsed ← int64 (now - tb_last_refill_ns e);
  if elapsed >? 0 then
    new_tokens ← int64 (tb_tokens_per_ns_num e * elapsed);
    max_t ← int64 (tb_max_tokens e * NS_PER_SEC);
    refilled ← int64 (tb_tokens_x1e9 e + new_tokens);
    Ok (tb_set_tokens (if refilled >? max_t then max_t else refilled) now e)
  else Ok e.

Definition consume_at (s : udp_socket) (i : nat) (e : token_bucket_entry) : bool * udp_socket :=
  let '(allowed, e) := take_token e in
  (allowed, us_set_table (us_active_peer_count s) (<[i := e]> (us_buckets s)) s).

(** [now] is what [monotonic_ns] returns. *)
Definition bucket_try_consume (s : udp_socket) (ip now : Z) : result (bool * udp_socket) :=
  if negb (us_rate_limiting_enabled s) then Ok (true, s)
  else
    let slow :=
      r ← bucket_find_or_create s ip now;
      let '(slot, s) := r in
      match slot : option nat with
      | None => Ok (false, s)
      | Some i => match us_buckets s !! i with Some e => Ok (consume_at s i e) | None => Fault end
      end in
    found ← search s ip;
    match found with
    | Some (i, e) =>
        if tb_active e then e ← refill now e; Ok (consume_at s i (tb_set_seen now e)) else slow
    | None => slow
    end.

(** ** Sockets *)

(** The table as [calloc] leaves it. *)
Definition empty_table : list token_bucket_entry :=
  replicate (Z.to_nat BUCKET_TABLE_SIZE) (TokenBucketEntry 0 0 0 0 0 0 false).

Definition udp_socket_create (calloc_ok socket_ok : bool) (bind_errno : option errno)
    (rate_cfg : option udp_rate_limit_config) : result udp_socket :=
  if negb calloc_ok then Err DISTRIC_ERR_ALLOC_FAILURE
  else if negb socket_ok then Err DISTRIC_ERR_INIT_FAILED
  else
    match bind_errno with
    | Some e => Err (transport_err_to_distric (transport_classify_errno e))
    | None =>
        match rate_cfg with
        | Some c =>
            if cfg_rate_limit_pps c >? 0 then
              let peers := if cfg_max_peers c =? 0 then BUCKET_TABLE_SIZE else cfg_max_peers c in
              Ok (UdpSocket true (cfg_rate_limit_pps c)
                    (if cfg_burst_size c =? 0 then u32 (cfg_rate_limit_pps c * 2) else cfg_burst_size c)
                    (if peers >? BUCKET_TABLE_SIZE then BUCKET_TABLE_SIZE else peers)
                    (if cfg_peer_ttl_s c =? 0 then PEER_DEFAULT_TTL_NS else cfg_peer_ttl_s c * NS_PER_SEC)
                    0 empty_table 0 0 0)
            else Ok (UdpSocket false 0 0 0 0 0 empty_table 0 0 0)
        | None => Ok (UdpSocket false 0 0 0 0 0 empty_table 0 0 0)
        end
    end.

(** What [udp_send] and [udp_recv] return. *)
Inductive udp_result :=
  | UdpBytes (n : Z)
  | UdpNothing
  | UdpErr (e : distric_err).

(** [addr_ok]: [inet_pton] parses the address; [sent] is what [sendto] returns. *)
Definition udp_send (len : nat) (addr_ok : bool) (sent : Z + errno) : udp_result :=
  if (len =? 0)%nat then UdpErr DISTRIC_ERR_INVALID_ARG
  else if negb addr_ok then UdpErr DISTRIC_ERR_INVALID_ARG
  else
    match sent with
    | inl n => UdpBytes (s32 n)
    | inr EAGAIN => UdpErr DISTRIC_ERR_BACKPRESSURE
    | inr _ => UdpErr DISTRIC_ERR_IO
    end.

(** [ready] is what [epoll_wait] returns, [datagram] what [recvfrom] returns: the
    number of bytes and the address of the peer. *)
Definition udp_recv (s : udp_socket) (len : nat) (timeout_ms : Z) (epoll_ok : bool) (ready : Z)
    (datagram : (Z * Z) + errno) (now : Z) : result (udp_result * udp_socket) :=
  if (len =? 0)%nat then Ok (UdpErr DISTRIC_ERR_INVALID_ARG, s)
  else if (timeout_ms >=? 0) && negb epoll_ok then Ok (UdpErr DISTRIC_ERR_IO, s)
  else if (timeout_ms >=? 0) && (ready <=? 0) then Ok (UdpNothing, s)
  else
    match datagram with
    | inr EAGAIN => Ok (UdpNothing, s)
    | inr _ => Ok (UdpErr DISTRIC_ERR_IO, s)
    | inl (received, ip) =>
        r ← bucket_try_consume s ip now;
        let '(allowed, s) := r in
        if allowed : bool then Ok (UdpBytes (s32 received), s)
        else Ok (UdpNothing, us_count_drop s)
    end.

Definition udp_get_drop_count (s : udp_socket) : Z := us_drops_total s.
Definition udp_get_eviction_count (s : udp_socket) : Z := us_peer_evictions s.

(** ** The probe sequence *)

Definition slots : nat := Z.to_nat BUCKET_TABLE_SIZE.
Definition slot (ip : Z) (d : nat) : nat := ((Z.to_nat (ip mod 256) + d) mod slots)%nat.

Lemma land_bucket_mask z : Z.land z BUCKET_TABLE_MASK = z mod 256.
Proof. change BUCKET_TABLE_MASK with (Z.ones 8). by rewrite Z.land_ones by lia. Qed.

Lemma probe_slot_eq ip d : (d < slots)%nat → probe_slot ip (Z.of_nat d) = slot ip d.
Proof.
  intros Hd. unfold slots in Hd. change (Z.to_nat BUCKET_TABLE_SIZE) with 256%nat in Hd.
  unfold probe_slot, slot, slots. change (Z.to_nat BUCKET_TABLE_SIZE) with 256%nat. rewrite !land_bucket_mask.
  pose proof (Z.mod_pos_bound ip 256 ltac:(lia)). rewrite u32_id by ulia.
  rewrite Z2Nat.inj_mod by lia. f_equal. rewrite Z2Nat.inj_add, Nat2Z.id by lia. done.
Qed.

Lemma slot_lt ip d : (slot ip d < slots)%nat.
Proof. apply Nat.mod_upper_bound. done. Qed.

Lemma slot_inj ip d d' : (d < slots)%nat → (d' < slots)%nat → slot ip d = slot ip d' → d = d'.
Proof.
  unfold slot. pose proof (Z.mod_pos_bound ip 256 ltac:(lia)) as Hm. unfold slots.
  change (Z.to_nat BUCKET_TABLE_SIZE) with 256%nat. set (h := Z.to_nat (ip mod 256)).
  assert (h < 256)%nat by lia. clearbody h. intros Hd Hd' Heq.
  pose proof (Nat.div_mod_eq (h + d) 256). pose proof (Nat.div_mod_eq (h + d') 256).
  assert ((h + d) / 256 < 2)%nat by (apply Nat.Div0.div_lt_upper_bound; lia).
  assert ((h + d') / 256 < 2)%nat by (apply Nat.Div0.div_lt_upper_bound; lia). lia.
Qed.

Lemma slot_surj ip i : (i < slots)%nat → ∃ d, (d < slots)%nat ∧ slot ip d = i.
Proof.
  unfold slot, slots. change (Z.to_nat BUCKET_TABLE_SIZE) with 256%nat.
  pose proof (Z.mod_pos_bound ip 256 ltac:(lia)). set (h := Z.to_nat (ip mod 256)).
  assert (h < 256)%nat by lia. clearbody h. intros Hi.
  destruct (Nat.le_gt_cases h i).
  - exists (i - h)%nat. split; [lia|]. rewrite Nat.mod_small; lia.
  - exists (256 + i - h)%nat. split; [lia|]. replace (h + (256 + i - h))%nat with (i + 1 * 256)%nat by lia.
    rewrite Nat.Div0.mod_add. apply Nat.mod_small. lia.
Qed.

(** The entry of a slot is another peer's. *)
Definition taken_by_other (t : list token_bucket_entry) (ip : Z) (i : nat) : Prop :=
  ∃ e, t !! i = Some e ∧ tb_active e = true ∧ tb_ip_addr e ≠ ip.

Lemma first_slot_spec t ip n : ∀ d,
  length t = slots → (d + n ≤ slots)%nat →
  ∃ r, first_slot t ip n (Z.of_nat d) = Ok r ∧
    match r with
    | Some (i, e) => ∃ k, (d ≤ k < d + n)%nat ∧ i = slot ip k ∧ t !! i = Some e ∧
        (tb_active e = false ∨ tb_ip_addr e = ip) ∧
        ∀ j, (d ≤ j < k)%nat → taken_by_other t ip (slot ip j)
    | None => ∀ j, (d ≤ j < d + n)%nat → taken_by_other t ip (slot ip j)
    end.
Proof.
  induction n as [|n IH]; intros d Hlen Hd; cbn [first_slot].
  { exists None. split; [done|]. intros j Hj. lia. }
  rewrite probe_slot_eq by lia.
  destruct (lookup_lt_is_Some_2 t (slot ip d)) as [e He]; [rewrite Hlen; apply slot_lt|]. rewrite He.
  destruct (tb_active e) eqn:Ha; cbn [negb orb].
  2: { eexists. split; [done|]. exists d. split; [lia|]. split; [done|]. split; [done|]. split; [by left|]. intros j Hj. lia. }
  destruct (Z.eqb_spec (tb_ip_addr e) ip) as [Hip|Hip].
  { eexists. split; [done|]. exists d. split; [lia|]. split; [done|]. split; [done|]. split; [by right|]. intros j Hj. lia. }
  replace (Z.of_nat d + 1) with (Z.of_nat (S d)) by lia.
  destruct (IH (S d) Hlen ltac:(lia)) as (r & -> & Hr). exists r. split; [done|].
  assert (Hthis : taken_by_other t ip (slot ip d)) by (by exists e).
  destruct r as [[i e']|].
  - destruct Hr as (k & Hk & Hi & He' & Hor & Hall). exists k. split; [lia|]. split; [done|]. split; [done|].
    split; [done|]. intros j Hj. destruct (decide (j = d)) as [->|]; [done|apply Hall; lia].
  - intros j Hj. destruct (decide (j = d)) as [->|]; [done|apply Hr; lia].
Qed.

(** ** The invariant of the table, without evictions *)

Definition owns (t : list token_bucket_entry) (i : nat) (ip : Z) (e : token_bucket_entry) : Prop :=
  t !! i = Some e ∧ tb_active e = true ∧ tb_ip_addr e = ip.

Record table_wf (t : list token_bucket_entry) : Prop := {
  tw_len : length t = slots;
  tw_path : ∀ i ip e, owns t i ip e → ∃ d, (d < slots)%nat ∧ i = slot ip d ∧
    ∀ j, (j < d)%nat → ∃ e', t !! slot ip j = Some e' ∧ tb_active e' = true;
  tw_unique : ∀ i j ip e e', owns t i ip e → owns t j ip e' → i = j
}.

Definition active_entries (t : list token_bucket_entry) : nat := length (List.filter tb_active t).

Lemma active_all t : (∀ i e, t !! i = Some e → tb_active e = true) → active_entries t = length t.
Proof.
  unfold active_entries. induction t as [|x t IH]; intros Hall; [done|]. simpl.
  rewrite (Hall 0%nat x eq_refl). simpl. f_equal. apply IH. intros i e Hi. by apply (Hall (S i)).
Qed.

Lemma active_insert t i e e' :
  t !! i = Some e →
  active_entries (<[i := e']> t) =
    (active_entries t + (if tb_active e' then 1 else 0) - (if tb_active e then 1 else 0))%nat.
Proof.
  unfold active_entries. revert i. induction t as [|x t IH]; intros [|i] Hi; simplify_eq/=.
  - destruct (tb_active e), (tb_active e'); simpl; lia.
  - specialize (IH i Hi).
    assert (Hpos : tb_active e = true → (0 < length (List.filter tb_active t))%nat).
    { intros Ha. clear -Hi Ha. revert i Hi. induction t as [|y t IH]; intros [|i] Hi; simplify_eq/=.
      - rewrite Ha. simpl. lia.
      - destruct (tb_active y); simpl; [lia|by eapply IH]. }
    destruct (tb_active x), (tb_active e), (tb_active e'); simpl; try specialize (Hpos eq_refl); lia.
Qed.

Lemma search_spec s ip :
  table_wf (us_buckets s) →
  ∃ r, search s ip = Ok r ∧
    match r with
    | Some (i, e) =>
        if tb_active e then owns (us_buckets s) i ip e
        else us_buckets s !! i = Some e ∧ (∀ j e', ¬ owns (us_buckets s) j ip e') ∧
          ∃ k, (k < slots)%nat ∧ i = slot ip k ∧ ∀ j, (j < k)%nat → taken_by_other (us_buckets s) ip (slot ip j)
    | None => active_entries (us_buckets s) = slots ∧ ∀ j e', ¬ owns (us_buckets s) j ip e'
    end.
Proof.
  intros [Hlen Hpath Huniq]. unfold search. change 0 with (Z.of_nat 0).
  destruct (first_slot_spec (us_buckets s) ip slots 0 Hlen ltac:(lia)) as (r & Hr & Hspec).
  exists r. split; [exact Hr|]. destruct r as [[i e]|].
  - destruct Hspec as (k & Hk & -> & He & Hor & Hall). destruct (tb_active e) eqn:Ha.
    { destruct Hor as [?|Hip]; [done|]. by split. }
    split; [done|]. split; [|exists k; split; [lia|]; split; [done|]; intros j Hj; apply Hall; lia].
    intros j e' Ho. destruct (Hpath _ _ _ Ho) as (d & Hd & -> & Hbefore). destruct Ho as (He' & Ha' & Hip').
    destruct (Nat.lt_trichotomy d k) as [Hlt|[->|Hgt]].
    + destruct (Hall d ltac:(lia)) as (e2 & He2 & _ & Hne). rewrite He' in He2. by injection He2 as <-.
    + rewrite He in He'. injection He' as <-. congruence.
    + destruct (Hbefore k Hgt) as (e2 & He2 & Ha2). rewrite He in He2. injection He2 as <-. congruence.
  - split.
    + rewrite <- Hlen. apply active_all. intros i e Hi.
      destruct (slot_surj ip i) as (d & Hd & <-); [rewrite <- Hlen; by eapply lookup_lt_Some|].
      destruct (Hspec d ltac:(lia)) as (e' & He' & Ha & _). congruence.
    + intros j e' Ho. destruct (Hpath _ _ _ Ho) as (d & Hd & -> & _). destruct Ho as (He' & _ & Hip').
      destruct (Hspec d ltac:(lia)) as (e2 & He2 & _ & Hne). congruence.
Qed.

Lemma owns_insert t i e e0 j ip x :
  t !! i = Some e0 →
  owns (<[i := e]> t) j ip x ↔
    (j = i ∧ x = e ∧ tb_active e = true ∧ tb_ip_addr e = ip) ∨ (j ≠ i ∧ owns t j ip x).
Proof.
  intros Hi. unfold owns. destruct (decide (j = i)) as [->|Hne].
  - rewrite list_lookup_insert_eq by (by eapply lookup_lt_Some). naive_solver.
  - rewrite list_lookup_insert_ne by done. naive_solver.
Qed.

(** Changing an active entry but not its peer, and filling the free slot a search
    found, keep the table. *)
Lemma table_wf_change t i ip e e' :
  table_wf t → owns t i ip e → tb_active e' = true → tb_ip_addr e' = ip → table_wf (<[i := e']> t).
Proof.
  intros [Hlen Hpath Huniq] Ho Ha Hip. pose proof Ho as (Hi & Ha0 & Hip0). split.
  - by rewrite length_insert.
  - intros j ip' x Hx.
    assert (Hold : ∃ x0, owns t j ip' x0).
    { apply (owns_insert _ _ _ _ _ _ _ Hi) in Hx as [(-> & -> & _ & <-)|[_ Hx]]; [exists e; by rewrite Hip|by exists x]. }
    destruct Hold as (x0 & Hx0). destruct (Hpath _ _ _ Hx0) as (d & Hd & -> & Hb). exists d.
    split; [done|]. split; [done|]. intros k Hk. destruct (Hb k Hk) as (y & Hy & Hya).
    destruct (decide (slot ip' k = i)) as [->|Hne].
    + exists e'. rewrite list_lookup_insert_eq by (by eapply lookup_lt_Some). done.
    + exists y. by rewrite list_lookup_insert_ne.
  - intros j k ip' x y Hx Hy.
    apply (owns_insert _ _ _ _ _ _ _ Hi) in Hx, Hy.
    destruct Hx as [(-> & -> & _ & Hip1)|[Hj Hx]], Hy as [(-> & -> & _ & Hip2)|[Hk Hy]];
      [done| | |by eapply Huniq]; assert (ip' = ip) as -> by congruence; by eapply Huniq.
Qed.

Lemma table_wf_fill t ip e e' k :
  table_wf t → (k < slots)%nat → t !! slot ip k = Some e → tb_active e = false →
  (∀ j x, ¬ owns t j ip x) → (∀ j, (j < k)%nat → taken_by_other t ip (slot ip j)) →
  tb_active e' = true → tb_ip_addr e' = ip → table_wf (<[slot ip k := e']> t).
Proof.
  intros [Hlen Hpath Huniq] Hk Hi Hfree Hno Hbefore Ha Hip.
  assert (Hkeep : ∀ i x, t !! i = Some x → tb_active x = true →
    ∃ y, <[slot ip k := e']> t !! i = Some y ∧ tb_active y = true).
  { intros i x Hx Hax. exists x. rewrite list_lookup_insert_ne; [done|]. intros <-. congruence. }
  split.
  - by rewrite length_insert.
  - intros j ip' x [(-> & -> & _ & <-)|[_ Hx]]%(owns_insert _ _ _ _ _ _ _ Hi).
    + exists k. rewrite Hip. split; [done|]. split; [done|]. intros j Hj.
      destruct (Hbefore j Hj) as (y & Hy & Hya & _). by eapply Hkeep.
    + destruct (Hpath _ _ _ Hx) as (d & Hd & -> & Hb). exists d. split; [done|]. split; [done|].
      intros j Hj. destruct (Hb j Hj) as (y & Hy & Hya). by eapply Hkeep.
  - intros j j' ip' x y Hx Hy. apply (owns_insert _ _ _ _ _ _ _ Hi) in Hx, Hy.
    destruct Hx as [(-> & -> & _ & Hip1)|[Hj Hx]], Hy as [(-> & -> & _ & Hip2)|[Hj' Hy]];
      [done| | |by eapply Huniq]; assert (ip' = ip) as -> by congruence; [by destruct (Hno _ _ Hy)|by destruct (Hno _ _ Hx)].
Qed.

(** ** Refinement: independent token buckets *)

(** The tokens of a bucket, in billionths, and when it was refilled. *)
Local Notation bucket := (Z * Z)%type.

(** The fields of a socket whose table was set. *)
Ltac cbn_socket :=
  cbn [us_set_table us_buckets us_active_peer_count us_rate_limiting_enabled us_rate_limit_pps us_burst_size
       us_max_peers].

Section peers.
Variables pps burst max_peers horizon : Z.

Definition bucket_refill (now : Z) (b : bucket) : bucket :=
  if now - b.2 >? 0 then (Z.min (b.1 + pps * (now - b.2)) (burst * NS_PER_SEC), now) else b.

Definition bucket_packet (now : Z) (b : bucket) : bool * bucket :=
  let b := bucket_refill now b in
  if b.1 >=? NS_PER_SEC then (true, (b.1 - NS_PER_SEC, b.2)) else (false, b).

Definition peers_packet (ip now : Z) (m : gmap Z bucket) : bool * gmap Z bucket :=
  let '(allowed, b) := bucket_packet now (default (burst * NS_PER_SEC, now) (m !! ip)) in
  (allowed, <[ip := b]> m).

Definition bucket_ok (b : bucket) : Prop := 0 ≤ b.1 ≤ burst * NS_PER_SEC ∧ 0 ≤ b.2 ≤ horizon.

Record represents (s : udp_socket) (m : gmap Z bucket) : Prop := {
  rp_wf : table_wf (us_buckets s);
  rp_map : ∀ ip b, m !! ip = Some b ↔
    ∃ i e, owns (us_buckets s) i ip e ∧ (tb_tokens_x1e9 e, tb_last_refill_ns e) = b;
  rp_entries : ∀ i ip e, owns (us_buckets s) i ip e → tb_max_tokens e = burst ∧ tb_tokens_per_ns_num e = pps;
  rp_size : us_active_peer_count s = Z.of_nat (active_entries (us_buckets s)) ∧
    size m = active_entries (us_buckets s);
  rp_ok : map_Forall (λ _ b, bucket_ok b) m;
  rp_params : us_rate_limiting_enabled s = true ∧ us_rate_limit_pps s = pps ∧ us_burst_size s = burst ∧
    us_max_peers s = max_peers
}.

Hypothesis Hpps : 0 ≤ pps.
Hypothesis Hburst : 0 ≤ burst.
Hypothesis Hpeers : max_peers ≤ BUCKET_TABLE_SIZE.
Hypothesis Hhorizon : pps * horizon + burst * NS_PER_SEC < 2 ^ 63.
Hypothesis Hhorizon' : horizon < 2 ^ 63.

Lemma int64_ok z : - 2 ^ 63 ≤ z < 2 ^ 63 → int64 z = Ok z.
Proof.
  intros Hz. unfold int64. destruct (Z.leb_spec (- 2 ^ 63) z), (Z.ltb_spec z (2 ^ 63)); [done|lia..].
Qed.

Lemma refill_ok now e :
  tb_max_tokens e = burst → tb_tokens_per_ns_num e = pps → 0 ≤ now ≤ horizon →
  bucket_ok (tb_tokens_x1e9 e, tb_last_refill_ns e) →
  ∃ b, bucket_refill now (tb_tokens_x1e9 e, tb_last_refill_ns e) = b ∧ refill now e = Ok (tb_set_tokens b.1 b.2 e) ∧
    bucket_ok b.
Proof.
  intros Hm Hr Hnow [Htok Ht]. cbn [fst snd] in *. eexists. split; [done|]. unfold refill, bucket_refill. cbn [fst snd].
  rewrite (int64_ok (now - _)) by lia. cbn [mbind result_bind].
  destruct (Z.gtb_spec (now - tb_last_refill_ns e) 0) as [Hpos|Hpos]; [|split; [by destruct e|done]].
  rewrite Hm, Hr. unfold NS_PER_SEC in *.
  assert (pps * (now - tb_last_refill_ns e) ≤ pps * horizon) by nia.
  assert (0 ≤ pps * (now - tb_last_refill_ns e)) by nia.
  rewrite (int64_ok (pps * _)) by nia. cbn [mbind result_bind].
  rewrite (int64_ok (burst * _)) by nia. cbn [mbind result_bind].
  rewrite (int64_ok (tb_tokens_x1e9 e + _)) by nia. cbn [mbind result_bind fst snd].
  split; [|unfold bucket_ok, NS_PER_SEC; cbn [fst snd]; lia]. do 2 f_equal.
  destruct (Z.gtb_spec (tb_tokens_x1e9 e + pps * (now - tb_last_refill_ns e)) (burst * 1000000000)); lia.
Qed.

Lemma take_token_packet e b :
  let '(allowed, b') := (if b.1 >=? NS_PER_SEC then (true, (b.1 - NS_PER_SEC, b.2)) else (false, b)) in
  take_token (tb_set_tokens b.1 b.2 e) = (allowed, tb_set_tokens b'.1 b'.2 e).
Proof. unfold take_token. destruct b as [tok t]. cbn. by destruct (tok >=? NS_PER_SEC). Qed.

(** Changing the bucket of a peer. *)
Lemma represents_bucket s m i ip e e' :
  represents s m → owns (us_buckets s) i ip e → tb_active e' = true → tb_ip_addr e' = ip →
  tb_max_tokens e' = burst → tb_tokens_per_ns_num e' = pps →
  bucket_ok (tb_tokens_x1e9 e', tb_last_refill_ns e') →
  represents (us_set_table (us_active_peer_count s) (<[i := e']> (us_buckets s)) s)
    (<[ip := (tb_tokens_x1e9 e', tb_last_refill_ns e')]> m).
Proof.
  intros [Hwf Hmap Hent [Hcnt Hsz] Hok Hpar] Ho Ha Hip Hm Hr Hb. pose proof Ho as (Hi & Ha0 & _).
  assert (Hact : active_entries (<[i := e']> (us_buckets s)) = active_entries (us_buckets s))
    by (rewrite (active_insert _ _ _ _ Hi), Ha, Ha0; lia).
  assert (Hin : is_Some (m !! ip)) by (exists (tb_tokens_x1e9 e, tb_last_refill_ns e); apply Hmap; eauto).
  split; cbn_socket; try done.
  - by eapply table_wf_change.
  - intros ip' b. rewrite lookup_insert_Some, Hmap. split.
    + intros [[<- <-]|[Hne (j & x & Hx & <-)]].
      * exists i, e'. split; [|done]. apply (owns_insert _ _ _ _ _ _ _ Hi). by left.
      * exists j, x. split; [|done]. apply (owns_insert _ _ _ _ _ _ _ Hi). right. split; [|done].
        intros ->. destruct Hx as (Hx & _ & <-). destruct Ho as (He & _ & <-). congruence.
    + intros (j & x & Hx & <-). apply (owns_insert _ _ _ _ _ _ _ Hi) in Hx as [(-> & -> & _ & <-)|[Hj Hx]]; [by left|].
      right. split; [|eauto]. intros <-. apply Hj. by eapply (tw_unique _ Hwf).
  - intros j ip' x [(-> & -> & _)|[_ Hx]]%(owns_insert _ _ _ _ _ _ _ Hi); [done|by eapply Hent].
  - rewrite Hact. split; [done|]. by rewrite map_size_insert_Some.
  - by apply map_Forall_insert_2.
Qed.

(** A new peer takes a free slot. *)
Lemma represents_fill s m ip k e now :
  represents s m → (k < slots)%nat → us_buckets s !! slot ip k = Some e → tb_active e = false →
  (∀ j x, ¬ owns (us_buckets s) j ip x) → (∀ j, (j < k)%nat → taken_by_other (us_buckets s) ip (slot ip j)) →
  0 ≤ now ≤ horizon → Z.of_nat (S (size m)) ≤ max_peers → 0 < horizon →
  ∃ s', bucket_fill s (slot ip k) ip now = Ok (slot ip k, s') ∧ represents s' (<[ip := (burst * NS_PER_SEC, now)]> m) ∧
    ∃ e', owns (us_buckets s') (slot ip k) ip e' ∧
      (tb_tokens_x1e9 e', tb_last_refill_ns e') = (burst * NS_PER_SEC, now).
Proof.
  intros [Hwf Hmap Hent [Hcnt Hsz] Hok Hpar] Hk He Hfree Hno Hbefore Hnow Hsize Hpos.
  destruct Hpar as (P1 & P2 & P3 & P4). unfold bucket_fill. rewrite P2, P3.
  assert (Hbb : 0 ≤ burst * NS_PER_SEC < 2 ^ 63) by (unfold NS_PER_SEC in *; nia).
  rewrite (int64_ok (burst * _)) by lia. cbn [mbind result_bind].
  pose proof (lookup_lt_Some _ _ _ He) as Hlt. destruct (Nat.ltb_spec (slot ip k) (length (us_buckets s))); [|lia].
  set (e' := TokenBucketEntry _ _ _ _ _ _ _).
  assert (Hact : active_entries (<[slot ip k := e']> (us_buckets s)) = S (active_entries (us_buckets s)))
    by (rewrite (active_insert _ _ _ _ He), Hfree; simpl; lia).
  assert (Hnone : m !! ip = None).
  { destruct (m !! ip) as [b|] eqn:Hb; [|done]. apply Hmap in Hb as (j & x & Hx & _). by destruct (Hno j x). }
  eexists. split; [done|]. split.
  - split; cbn_socket; try done.
    + by eapply table_wf_fill.
    + intros ip' b. rewrite lookup_insert_Some, Hmap. split.
      * intros [[<- <-]|[Hne (j & x & Hx & <-)]].
        -- exists (slot ip k), e'. split; [|done]. apply (owns_insert _ _ _ _ _ _ _ He). by left.
        -- exists j, x. split; [|done]. apply (owns_insert _ _ _ _ _ _ _ He). right. split; [|done].
           intros ->. destruct Hx as (Hx & Hxa & _). congruence.
      * intros (j & x & Hx & <-). apply (owns_insert _ _ _ _ _ _ _ He) in Hx as [(-> & -> & _ & <-)|[Hj Hx]]; [by left|].
        right. split; [|eauto]. intros <-. by destruct (Hno j x).
    + intros j ip' x [(-> & -> & _)|[_ Hx]]%(owns_insert _ _ _ _ _ _ _ He); [done|by eapply Hent].
    + rewrite Hact, Hcnt, map_size_insert_None by done. unfold BUCKET_TABLE_SIZE in Hpeers.
      split; [|lia]. rewrite u32_id by ulia. lia.
    + apply map_Forall_insert_2; [|done]. split; cbn; lia.
  - exists e'. split; [|done]. apply (owns_insert _ _ _ _ _ _ _ He). by left.
Qed.

Lemma represents_packet s m ip now :
  represents s m → 0 ≤ now ≤ horizon → 0 < horizon → Z.of_nat (size (peers_packet ip now m).2) ≤ max_peers →
  ∃ s', bucket_try_consume s ip now = Ok ((peers_packet ip now m).1, s') ∧
    represents s' (peers_packet ip now m).2.
Proof.
  intros Hrep Hnow Hpos Hsize. pose proof Hrep as [Hwf Hmap Hent [Hcnt Hsz] Hok Hpar].
  destruct Hpar as (P1 & P2 & P3 & P4). unfold bucket_try_consume. rewrite P1. cbn [negb].
  destruct (search_spec s ip Hwf) as (r & Hsearch & Hr). rewrite Hsearch. cbn [mbind result_bind].
  assert (Hnew : (∀ j x, ¬ owns (us_buckets s) j ip x) → m !! ip = None).
  { intros Hno. destruct (m !! ip) as [b|] eqn:Hb; [|done]. apply Hmap in Hb as (j & x & Hx & _). by destruct (Hno j x). }
  unfold peers_packet in *.
  destruct r as [[i e]|].
  2: { (* the table cannot be full *)
    exfalso. destruct Hr as [Hfull Hno]. rewrite (Hnew Hno) in Hsize. cbn [from_option id] in Hsize.
    destruct (bucket_packet _ _). cbn [snd] in Hsize. rewrite map_size_insert_None in Hsize by auto.
    rewrite Hsz, Hfull in Hsize. unfold slots, BUCKET_TABLE_SIZE in *. lia. }
  destruct (tb_active e) eqn:Ha.
  - destruct (Hent _ _ _ Hr) as [Hm Hrate].
    assert (Hb : m !! ip = Some (tb_tokens_x1e9 e, tb_last_refill_ns e)) by (apply Hmap; eauto).
    rewrite Hb in Hsize |- *. cbn [from_option id].
    destruct (refill_ok now e Hm Hrate Hnow (Hok _ _ Hb)) as (b & Hb' & Hrf & Hbok). rewrite Hrf. cbn [mbind result_bind].
    unfold bucket_packet in *. rewrite Hb'. unfold consume_at.
    pose proof (take_token_packet (tb_set_seen now e) b) as Htake.
    change (tb_set_seen now (tb_set_tokens b.1 b.2 e)) with (tb_set_tokens b.1 b.2 (tb_set_seen now e)).
    destruct (b.1 >=? NS_PER_SEC) eqn:Hge; rewrite Htake; eexists; (split; [done|]).
    + apply Z.geb_le in Hge.
      refine (represents_bucket _ _ i ip e (tb_set_tokens (b.1 - NS_PER_SEC) b.2 (tb_set_seen now e)) Hrep Hr _ _ _ _ _);
        cbn; try done.
      * apply Hr.
      * destruct Hbok as [Hb1 Hb2]. split; cbn; unfold NS_PER_SEC in *; lia.
    + destruct b as [tok t].
      refine (represents_bucket _ _ i ip e (tb_set_tokens tok t (tb_set_seen now e)) Hrep Hr _ _ _ _ _); cbn; try done.
      apply Hr.
  - destruct Hr as (He & Hno & k & Hk & -> & Hbefore). rewrite (Hnew Hno) in Hsize |- *. cbn [from_option id] in *.
    unfold bucket_find_or_create. rewrite Hsearch. cbn [mbind result_bind]. rewrite Ha.
    assert (Hroom : Z.of_nat (S (size m)) ≤ max_peers).
    { destruct (bucket_packet _ _). cbn [snd] in Hsize. by rewrite map_size_insert_None in Hsize by auto. }
    rewrite P4, Hcnt. destruct (Z.geb_spec (Z.of_nat (active_entries (us_buckets s))) max_peers); [lia|].
    destruct (represents_fill s m ip k e now Hrep Hk He Ha Hno Hbefore Hnow Hroom Hpos)
      as (s' & -> & Hrep' & e' & Ho & Hbe). cbn [mbind result_bind].
    pose proof Ho as (-> & _ & _). unfold consume_at, take_token. injection Hbe as Htok Htime.
    unfold bucket_packet, bucket_refill. cbn [fst snd]. rewrite Z.sub_diag. cbn [Z.gtb Z.compare fst snd].
    rewrite Htok. destruct (rp_entries _ _ Hrep' _ _ _ Ho) as [Hm Hrate].
    pose proof (rp_ok _ _ Hrep' ip _ (lookup_insert_eq _ _ _)) as [Hb1 Hb2]. cbn [fst snd] in Hb1, Hb2.
    destruct (burst * NS_PER_SEC >=? NS_PER_SEC) eqn:Hge; eexists; (split; [done|]).
    + apply Z.geb_le in Hge. rewrite Htime, <- (insert_insert_eq m ip _ (burst * NS_PER_SEC, now)).
      refine (represents_bucket _ _ _ ip e' (tb_set_tokens (burst * NS_PER_SEC - NS_PER_SEC) now e') Hrep' Ho _ _ _ _ _);
        cbn; try done; [apply Ho..|]. split; cbn; unfold NS_PER_SEC in *; lia.
    + rewrite <- (insert_insert_eq m ip _ (burst * NS_PER_SEC, now)).
      pose proof (represents_bucket _ _ _ _ _ e' Hrep' Ho) as Hc. rewrite Htok, Htime in Hc.
      apply Hc; try done; apply Ho.
Qed.
End peers.

(** ** Runs of packets *)

(** The packets are pairs of an address and a time. *)
Fixpoint limiter_run (s : udp_socket) (packets : list (Z * Z)) : result (list bool * udp_socket) :=
  match packets with
  | [] => Ok ([], s)
  | (ip, now) :: packets =>
      r ← bucket_try_consume s ip now; let '(a, s) := r in
      r ← limiter_run s packets; let '(answers, s) := r in Ok (a :: answers, s)
  end.

Fixpoint peers_run (pps burst : Z) (packets : list (Z * Z)) (m : gmap Z bucket) :
    list bool * gmap Z bucket :=
  match packets with
  | [] => ([], m)
  | (ip, now) :: packets =>
      let '(a, m) := peers_packet pps burst ip now m in
      let '(answers, m) := peers_run pps burst packets m in (a :: answers, m)
  end.

(** A configuration, with the defaults filled in, and a bound on the times, such
    that no token count overflows. *)
Record limits_ok (cfg : udp_rate_limit_config) (horizon : Z) : Prop := {
  lo_pps : 0 < cfg_rate_limit_pps cfg < 2 ^ 31;
  lo_burst : is_u32 (cfg_burst_size cfg);
  lo_peers : is_u32 (cfg_max_peers cfg);
  lo_horizon : 0 < horizon < 2 ^ 63 - 1;
  lo_fits : cfg_rate_limit_pps cfg * horizon + 2 ^ 32 * NS_PER_SEC < 2 ^ 63
}.

Definition burst_of (cfg : udp_rate_limit_config) : Z :=
  if cfg_burst_size cfg =? 0 then u32 (cfg_rate_limit_pps cfg * 2) else cfg_burst_size cfg.
Definition max_peers_of (cfg : udp_rate_limit_config) : Z :=
  let peers := if cfg_max_peers cfg =? 0 then BUCKET_TABLE_SIZE else cfg_max_peers cfg in
  if peers >? BUCKET_TABLE_SIZE then BUCKET_TABLE_SIZE else peers.

Lemma burst_of_bound cfg horizon : limits_ok cfg horizon → 0 < burst_of cfg < 2 ^ 32.
Proof.
  intros [Hp Hb _ _ _]. unfold burst_of. destruct (Z.eqb_spec (cfg_burst_size cfg) 0); [|ulia].
  rewrite u32_id by ulia. ulia.
Qed.

Lemma peers_packet_grows pps burst ip now m : (size m ≤ size (peers_packet pps burst ip now m).2)%nat.
Proof.
  unfold peers_packet. destruct (bucket_packet _ _ _ _) as [a b]. simpl.
  destruct (m !! ip) eqn:Hm; [rewrite map_size_insert_Some by (by eexists)|rewrite map_size_insert_None by done]; lia.
Qed.

Lemma peers_run_grows pps burst packets : ∀ m, (size m ≤ size (peers_run pps burst packets m).2)%nat.
Proof.
  induction packets as [|[ip now] packets IH]; intros m; [done|]. simpl.
  pose proof (peers_packet_grows pps burst ip now m) as H. destruct (peers_packet pps burst ip now m) as [a m1].
  specialize (IH m1). destruct (peers_run pps burst packets m1). simpl in *. lia.
Qed.

Lemma represents_packets pps burst max_peers horizon packets :
  0 ≤ pps → 0 ≤ burst → max_peers ≤ BUCKET_TABLE_SIZE → 0 < horizon < 2 ^ 63 →
  pps * horizon + burst * NS_PER_SEC < 2 ^ 63 → Forall (λ p, 0 ≤ p.2 ≤ horizon) packets →
  ∀ s m, represents pps burst max_peers horizon s m →
  Z.of_nat (size (peers_run pps burst packets m).2) ≤ max_peers →
  ∃ s', limiter_run s packets = Ok ((peers_run pps burst packets m).1, s').
Proof.
  intros H1 H2 H3 H4 H5 Hp. induction Hp as [|[ip now] packets Hnow _ IH]; intros s m Hrep Hsz; simpl in *; [by eexists|].
  pose proof (represents_packet pps burst max_peers horizon H1 H2 H3 H5 (proj2 H4) s m ip now Hrep Hnow (proj1 H4)) as Hpk.
  destruct (peers_packet pps burst ip now m) as [a m1]. cbn [fst snd] in *.
  pose proof (peers_run_grows pps burst packets m1) as Hg.
  specialize (IH) with (m := m1). destruct (peers_run pps burst packets m1) as [answers m2]. cbn [fst snd] in *.
  destruct Hpk as (s1 & -> & Hrep1); [lia|]. cbn [mbind result_bind].
  destruct (IH s1 Hrep1 Hsz) as (s2 & ->). simpl. by eexists.
Qed.

Lemma limiter_created cfg s horizon :
  limits_ok cfg horizon → udp_socket_create true true None (Some cfg) = Ok s →
  represents (cfg_rate_limit_pps cfg) (burst_of cfg) (max_peers_of cfg) horizon s ∅.
Proof.
  intros [Hp _ _ _ _] Hc. unfold udp_socket_create in Hc. cbn [negb] in Hc.
  destruct (Z.gtb_spec (cfg_rate_limit_pps cfg) 0); [|lia]. injection Hc as <-.
  set (t := empty_table).
  assert (Hno : ∀ i ip e, ¬ owns t i ip e).
  { intros i ip e (Hi & Ha & _). unfold t, empty_table in Hi. apply lookup_replicate in Hi as [-> _]. done. }
  assert (Hact : active_entries t = 0%nat) by reflexivity.
  split; cbn_socket.
  - split; [reflexivity|intros i ip e Hx; by destruct (Hno i ip e)|intros i j ip e e1 Hx; by destruct (Hno i ip e)].
  - intros ip b. rewrite lookup_empty. split; [done|]. intros (i & e & Hx & _). by destruct (Hno i ip e).
  - intros i ip e Hx. by destruct (Hno i ip e).
  - by rewrite Hact, map_size_empty.
  - apply map_Forall_empty.
  - done.
Qed.

(** While no more than [max_peers] addresses send, the rate limiter is a
    separate token bucket for every address: whatever the collisions in its table,
    no run of packets makes it touch memory outside of the table or overflow, and
    each packet is accepted or dropped as the bucket of its address alone decides. *)
Theorem rate_limiter_refines cfg s horizon packets :
  limits_ok cfg horizon → udp_socket_create true true None (Some cfg) = Ok s →
  Forall (λ p, 0 ≤ p.2 ≤ horizon) packets →
  let run := peers_run (cfg_rate_limit_pps cfg) (burst_of cfg) packets ∅ in
  Z.of_nat (size run.2) ≤ max_peers_of cfg →
  ∃ s', limiter_run s packets = Ok (run.1, s').
Proof.
  intros Hlim Hc Hp run Hsz. pose proof (burst_of_bound _ _ Hlim). pose proof Hlim as [Hpps _ _ Hh Hfit].
  eapply (represents_packets _ _ (max_peers_of cfg) horizon); try done; try lia.
  - unfold max_peers_of. cbv zeta. destruct (_ >? _) eqn:Hgt; lia.
  - unfold NS_PER_SEC in *. nia.
  - by apply limiter_created.
Qed.

(** ** The rate *)

(** The packets of an address that were accepted. *)
Definition accepted_from (ip : Z) (packets : list (Z * Z)) (answers : list bool) : Z :=
  sumZ (λ x, if (x.1.1 =? ip) && x.2 then 1 else 0) (zip packets answers).

Fixpoint times_from (start : Z) (packets : list (Z * Z)) : Prop :=
  match packets with
  | [] => True
  | (_, now) :: packets => start ≤ now ∧ times_from now packets
  end.

Fixpoint end_time (start : Z) (packets : list (Z * Z)) : Z :=
  match packets with [] => start | (_, now) :: packets => end_time now packets end.

Lemma end_time_ge packets : ∀ start, times_from start packets → start ≤ end_time start packets.
Proof.
  induction packets as [|[ip now] packets IH]; intros start Ht; simpl in *; [lia|].
  destruct Ht as [Hs Ht]. specialize (IH now Ht). lia.
Qed.

(** What a bucket would hold if it were refilled. *)
Definition credit (pps burst now ip : Z) (m : gmap Z bucket) : Z :=
  match m !! ip with
  | None => burst * NS_PER_SEC
  | Some b => Z.min (b.1 + pps * (now - b.2)) (burst * NS_PER_SEC)
  end.

Definition buckets_ok (burst now : Z) (m : gmap Z bucket) : Prop :=
  map_Forall (λ _ b, 0 ≤ b.1 ≤ burst * NS_PER_SEC ∧ b.2 ≤ now) m.

Lemma packet_credit pps burst ip ip' now start m :
  0 ≤ pps → 0 ≤ burst → start ≤ now → buckets_ok burst start m →
  let '(a, m') := peers_packet pps burst ip' now m in
  buckets_ok burst now m' ∧
  (if (ip' =? ip) && a then NS_PER_SEC else 0) + credit pps burst now ip m' ≤
    credit pps burst start ip m + pps * (now - start).
Proof.
  intros Hpps Hburst Hnow Hok. unfold peers_packet.
  set (b0 := default (burst * NS_PER_SEC, now) (m !! ip')).
  assert (Hb0 : 0 ≤ b0.1 ≤ burst * NS_PER_SEC ∧ b0.2 ≤ now).
  { unfold b0. destruct (m !! ip') as [b|] eqn:Hb; cbn; [|unfold NS_PER_SEC; lia].
    destruct (Hok ip' b Hb). lia. }
  assert (Href : bucket_refill pps burst now b0 =
    (Z.min (b0.1 + pps * (now - b0.2)) (burst * NS_PER_SEC), if now - b0.2 >? 0 then now else b0.2) ∧
    (if now - b0.2 >? 0 then now else b0.2) = now).
  { unfold bucket_refill. destruct (Z.gtb_spec (now - b0.2) 0); [done|]. destruct b0 as [tok t]. cbn [fst snd] in *.
    replace (now - t) with 0 by lia. split; [f_equal; lia|lia]. }
  destruct Href as [Href Ht]. rewrite Ht in Href. unfold bucket_packet. rewrite Href. cbn [fst snd].
  set (tok := Z.min _ _). assert (Htok : 0 ≤ tok ≤ burst * NS_PER_SEC) by (unfold tok; nia).
  assert (Hkeep : buckets_ok burst now m) by (eapply map_Forall_impl; [exact Hok|]; cbn; intros ? ? ?; lia).
  assert (Hcredit : ip' = ip → tok ≤ credit pps burst start ip m + pps * (now - start)).
  { intros ->. unfold credit, tok, b0. destruct (m !! ip) as [b|] eqn:Hb; cbn; [nia|].
    rewrite Z.sub_diag. nia. }
  assert (Hother : ip' ≠ ip → ∀ b', credit pps burst now ip (<[ip':=b']> m) ≤ credit pps burst start ip m + pps * (now - start)).
  { intros Hne b'. unfold credit. rewrite lookup_insert_ne by done.
    destruct (m !! ip) as [b|]; [|nia]. assert (0 ≤ pps * (now - start)) by nia. lia. }
  assert (Hsame : ∀ t, 0 ≤ t ≤ burst * NS_PER_SEC → credit pps burst now ip (<[ip:=(t, now)]> m) = t).
  { intros t Ht'. unfold credit. rewrite lookup_insert_eq. cbn. rewrite Z.sub_diag. lia. }
  destruct (Z.geb_spec tok NS_PER_SEC) as [Hge|Hlt]; (split; [apply map_Forall_insert_2; [cbn; unfold NS_PER_SEC in *; lia|done]|]).
  - destruct (Z.eqb_spec ip' ip) as [->|Hne]; cbn [andb]; [|by apply Hother].
    rewrite Hsame by (unfold NS_PER_SEC in *; lia). specialize (Hcredit eq_refl). lia.
  - rewrite andb_false_r. destruct (Z.eqb_spec ip' ip) as [->|Hne]; [|by apply Hother].
    rewrite Hsame by lia. by apply Hcredit.
Qed.

Lemma window_credit pps burst ip packets : ∀ start m,
  0 ≤ pps → 0 ≤ burst → times_from start packets → buckets_ok burst start m →
  let '(answers, m') := peers_run pps burst packets m in
  buckets_ok burst (end_time start packets) m' ∧
  accepted_from ip packets answers * NS_PER_SEC + credit pps burst (end_time start packets) ip m' ≤
    credit pps burst start ip m + pps * (end_time start packets - start).
Proof.
  induction packets as [|[ip' now] packets IH]; intros start m Hpps Hburst Ht Hok; cbn [peers_run times_from end_time] in *.
  { split; [done|]. unfold accepted_from, sumZ. simpl. lia. }
  destruct Ht as [Hs Ht]. pose proof (packet_credit pps burst ip ip' now start m Hpps Hburst Hs Hok) as Hpk.
  destruct (peers_packet pps burst ip' now m) as [a m1]. destruct Hpk as [Hok1 Hle].
  specialize (IH now m1 Hpps Hburst Ht Hok1). destruct (peers_run pps burst packets m1) as [answers m2].
  destruct IH as [Hok2 IH]. split; [done|].
  assert (Hacc : accepted_from ip ((ip', now) :: packets) (a :: answers) =
    (if (ip' =? ip) && a then 1 else 0) + accepted_from ip packets answers) by reflexivity.
  rewrite Hacc. unfold NS_PER_SEC in *. destruct ((ip' =? ip) && a); lia.
Qed.

Lemma credit_bounds pps burst ip now m :
  0 ≤ pps → 0 ≤ burst → buckets_ok burst now m → 0 ≤ credit pps burst now ip m ≤ burst * NS_PER_SEC.
Proof.
  intros Hpps Hburst Hok. unfold credit. destruct (m !! ip) as [b|] eqn:Hb; [|unfold NS_PER_SEC; lia].
  destruct (Hok ip b Hb) as [Hb1 Hb2]. assert (0 ≤ pps * (now - b.2)) by nia. lia.
Qed.

Lemma peers_run_app pps burst p1 p2 : ∀ m,
  peers_run pps burst (p1 ++ p2) m =
    let '(a1, m1) := peers_run pps burst p1 m in
    let '(a2, m2) := peers_run pps burst p2 m1 in (a1 ++ a2, m2).
Proof.
  induction p1 as [|[ip now] p1 IH]; intros m; simpl; [by destruct (peers_run pps burst p2 m)|].
  destruct (peers_packet pps burst ip now m) as [a m1]. rewrite IH.
  destruct (peers_run pps burst p1 m1) as [a1 m2]. by destruct (peers_run pps burst p2 m2).
Qed.

Lemma peers_run_length pps burst packets : ∀ m, length (peers_run pps burst packets m).1 = length packets.
Proof.
  induction packets as [|[ip now] packets IH]; intros m; [done|]. simpl.
  destruct (peers_packet pps burst ip now m) as [a m1]. specialize (IH m1).
  destruct (peers_run pps burst packets m1). simpl in *. lia.
Qed.

Lemma times_from_app p1 p2 : ∀ start,
  times_from start (p1 ++ p2) → times_from start p1 ∧ times_from (end_time start p1) p2 ∧
    end_time start (p1 ++ p2) = end_time (end_time start p1) p2.
Proof.
  induction p1 as [|[ip now] p1 IH]; intros start Ht; simpl in *; [done|].
  destruct Ht as [Hs Ht]. destruct (IH now Ht) as (H1 & H2 & H3). done.
Qed.

(** C21: the rate limit holds: while no more than [max_peers] addresses send, of the
    packets of any address in any window of time no more are accepted than the
    burst and [rate_limit_pps] packets for every second of the window. *)
Theorem rate_limit_holds cfg s horizon before window start ip :
  limits_ok cfg horizon → udp_socket_create true true None (Some cfg) = Ok s →
  Forall (λ p, 0 ≤ p.2 ≤ horizon) (before ++ window) → times_from start (before ++ window) →
  Z.of_nat (size (peers_run (cfg_rate_limit_pps cfg) (burst_of cfg) (before ++ window) ∅).2) ≤ max_peers_of cfg →
  ∃ answers s', limiter_run s (before ++ window) = Ok (answers, s') ∧
    accepted_from ip window (drop (length before) answers) * NS_PER_SEC ≤
      burst_of cfg * NS_PER_SEC +
      cfg_rate_limit_pps cfg * (end_time start (before ++ window) - end_time start before).
Proof.
  intros Hlim Hc Hp Ht Hsz. pose proof (burst_of_bound _ _ Hlim) as Hb. pose proof Hlim as [Hpps _ _ Hh Hfit].
  destruct (represents_packets (cfg_rate_limit_pps cfg) (burst_of cfg) (max_peers_of cfg) horizon (before ++ window))
    with (s := s) (m := (∅ : gmap Z bucket)) as (s' & Hr); try done; try lia.
  { unfold max_peers_of. cbv zeta. destruct (_ >? _) eqn:Hgt; lia. }
  { unfold NS_PER_SEC in *. nia. }
  { by apply limiter_created. }
  do 2 eexists. split; [exact Hr|]. clear Hr Hsz.
  destruct (times_from_app _ _ _ Ht) as (Ht1 & Ht2 & ->). rewrite peers_run_app.
  pose proof (peers_run_length (cfg_rate_limit_pps cfg) (burst_of cfg) before ∅) as Hlen.
  pose proof (window_credit (cfg_rate_limit_pps cfg) (burst_of cfg) ip before start ∅ ltac:(lia) ltac:(lia) Ht1
    (map_Forall_empty _)) as H1.
  destruct (peers_run _ _ before ∅) as [a1 m1]. destruct H1 as [Hok1 _].
  pose proof (window_credit (cfg_rate_limit_pps cfg) (burst_of cfg) ip window _ m1 ltac:(lia) ltac:(lia) Ht2 Hok1) as H2.
  destruct (peers_run _ _ window m1) as [a2 m2]. destruct H2 as [Hok2 Hle]. cbn [fst] in *.
  rewrite drop_app_length' by done.
  pose proof (credit_bounds (cfg_rate_limit_pps cfg) (burst_of cfg) ip _ m1 ltac:(lia) ltac:(lia) Hok1).
  pose proof (credit_bounds (cfg_rate_limit_pps cfg) (burst_of cfg) ip _ m2 ltac:(lia) ltac:(lia) Hok2).
  lia.
Qed.

(** ** A peer outside of its probe sequence *)

Lemma scan_inactive ttl now t : ∀ i best best_ts,
  Forall (λ e, tb_active e = false) t → evict_scan ttl now t i best best_ts = Ok best.
Proof.
  induction t as [|e t IH]; intros i best best_ts Ht; [done|]. apply Forall_cons_iff in Ht as [He Ht].
  simpl. rewrite He. by apply IH.
Qed.

Lemma scan_single ttl now t i0 e : ∀ i,
  t !! i0 = Some e → tb_active e = true → (∀ j x, t !! j = Some x → j ≠ i0 → tb_active x = false) →
  0 ≤ tb_last_seen_ns e < INT64_MAX → 0 ≤ now < INT64_MAX →
  evict_scan ttl now t i None INT64_MAX = Ok (Some (i + i0)%nat).
Proof.
  revert i0. induction t as [|x t IH]; intros i0 i Hi Ha Hoth Hseen Hnow; [done|]. unfold INT64_MAX in *.
  destruct i0 as [|i0]; simpl in Hi.
  - injection Hi as ->. cbn [evict_scan]. rewrite Ha. cbn [negb].
    rewrite int64_ok by lia. cbn [mbind result_bind]. rewrite Nat.add_0_r.
    destruct (_ >? _); [done|]. destruct (Z.ltb_spec (tb_last_seen_ns e) (2 ^ 63 - 1)); [|lia].
    apply scan_inactive, Forall_lookup_2. intros j y Hy. by apply (Hoth (S j) y).
  - cbn [evict_scan]. rewrite (Hoth 0%nat x eq_refl ltac:(done)). cbn [negb].
    rewrite (IH i0 (S i)); try done; [do 2 f_equal; lia|]. intros j y Hy Hne. apply (Hoth (S j) y); [done|lia].
Qed.

(** The table holds one peer, in a slot where no search for it begins. *)
Definition misplaced (ip : Z) (s : udp_socket) : Prop :=
  us_rate_limiting_enabled s = true ∧ us_max_peers s = 1 ∧ us_active_peer_count s = 1 ∧
  1 ≤ us_burst_size s < 2 ^ 32 ∧ length (us_buckets s) = slots ∧
  ∃ i e, us_buckets s !! i = Some e ∧ tb_active e = true ∧ 0 ≤ tb_last_seen_ns e < INT64_MAX ∧ i ≠ slot ip 0 ∧
    ∀ j x, us_buckets s !! j = Some x → j ≠ i → tb_active x = false.

Lemma misplaced_packet ip now s :
  misplaced ip s → 0 ≤ now < INT64_MAX →
  ∃ s', bucket_try_consume s ip now = Ok (true, s') ∧ misplaced ip s'.
Proof.
  intros (H1 & H2 & H3 & Hburst & Hlen & i & e & Hi & Ha & Hseen & Hne & Hoth) Hnow.
  unfold bucket_try_consume, bucket_find_or_create. rewrite H1. cbn [negb].
  destruct (lookup_lt_is_Some_2 (us_buckets s) (slot ip 0)) as [x Hx]; [rewrite Hlen; apply slot_lt|].
  pose proof (Hoth _ _ Hx ltac:(done)) as Hxa.
  assert (Hsearch : search s ip = Ok (Some (slot ip 0, x))).
  { unfold search. change (Z.to_nat BUCKET_TABLE_SIZE) with (S 255). cbn [first_slot].
    change 0 with (Z.of_nat 0). rewrite probe_slot_eq by (apply Nat.ltb_lt; reflexivity). rewrite Hx, Hxa. done. }
  rewrite Hsearch. cbn [mbind result_bind]. rewrite Hxa, H2, H3. cbn [Z.geb Z.compare Pos.compare Pos.compare_cont].
  unfold evict_lru_peer. rewrite (scan_single _ _ _ i e 0 Hi Ha Hoth Hseen Hnow). cbn [mbind result_bind Nat.add].
  unfold bucket_fill. cbn [us_count_eviction us_set_table us_burst_size us_buckets us_rate_limit_pps us_active_peer_count].
  assert (Htok : 1 ≤ us_burst_size s * NS_PER_SEC < 2 ^ 63) by (unfold NS_PER_SEC; lia).
  rewrite (int64_ok (us_burst_size s * _)) by lia. cbn [mbind result_bind]. rewrite length_alter.
  pose proof (lookup_lt_Some _ _ _ Hi) as Hlt. destruct (Nat.ltb_spec i (length (us_buckets s))); [|lia].
  set (e' := TokenBucketEntry _ _ _ _ _ _ _). cbn [mbind result_bind us_buckets us_set_table].
  rewrite list_lookup_insert_eq by (by rewrite length_alter). unfold consume_at, take_token, e' at 1.
  cbn [tb_tokens_x1e9]. destruct (Z.geb_spec (us_burst_size s * NS_PER_SEC) NS_PER_SEC); [|unfold NS_PER_SEC in *; lia].
  eexists. split; [done|]. unfold misplaced. cbn [us_set_table us_count_eviction us_rate_limiting_enabled us_max_peers
    us_active_peer_count us_burst_size us_buckets].
  split; [done|]. split; [done|]. split; [by rewrite H3|]. split; [done|].
  split; [by rewrite !length_insert, length_alter|].
  eexists i, _. split; [rewrite list_lookup_insert_eq by (by rewrite length_insert, length_alter); reflexivity|].
  split; [done|]. split; [exact Hnow|]. split; [done|].
  intros j y Hy Hj. rewrite !list_lookup_insert_ne, list_lookup_alter_ne in Hy by done. by eapply Hoth.
Qed.

(** The limit on the number of peers defeats the limit on the rate: once the
    table is full, a new peer takes the slot of the evicted one instead of one of
    its own probe sequence, so its next packet does not find it and it starts again
    with a full bucket.  With one tracked peer, after a packet of any other address
    (with another low byte), an address has every packet accepted, however many and
    however fast. *)
Theorem rate_limit_bypassed cfg s other ip t0 times :
  0 < cfg_rate_limit_pps cfg < 2 ^ 31 → is_u32 (cfg_burst_size cfg) → cfg_max_peers cfg = 1 →
  udp_socket_create true true None (Some cfg) = Ok s →
  other mod 256 ≠ ip mod 256 → Forall (λ t, 0 ≤ t < INT64_MAX) (t0 :: times) →
  ∃ s', limiter_run s ((other, t0) :: map (λ t, (ip, t)) times) = Ok (replicate (S (length times)) true, s').
Proof.
  intros Hpps Hburst Hpeers Hc Hlow Htimes. apply Forall_cons_iff in Htimes as [Ht0 Htimes].
  assert (Hb : 0 < burst_of cfg < 2 ^ 32).
  { unfold burst_of. destruct (Z.eqb_spec (cfg_burst_size cfg) 0); [|ulia]. rewrite u32_id by ulia. ulia. }
  assert (Hfirst : ∃ s1, bucket_try_consume s other t0 = Ok (true, s1) ∧ misplaced ip s1).
  { unfold udp_socket_create in Hc. cbn [negb] in Hc.
    destruct (Z.gtb_spec (cfg_rate_limit_pps cfg) 0); [|lia]. injection Hc as <-. fold (burst_of cfg).
    rewrite Hpeers. cbn [Z.eqb Z.gtb Z.compare]. set (s := UdpSocket _ _ _ _ _ _ _ _ _ _).
    assert (Hx : empty_table !! slot other 0 = Some (TokenBucketEntry 0 0 0 0 0 0 false)).
    { apply lookup_replicate_2. apply slot_lt. }
    assert (Hsearch : search s other = Ok (Some (slot other 0, TokenBucketEntry 0 0 0 0 0 0 false))).
    { unfold search. change (Z.to_nat BUCKET_TABLE_SIZE) with (S 255). cbn [first_slot].
      change 0 with (Z.of_nat 0). rewrite probe_slot_eq by (apply Nat.ltb_lt; reflexivity).
      change (us_buckets s) with empty_table. rewrite Hx. done. }
    unfold bucket_try_consume, bucket_find_or_create. rewrite Hsearch.
    change (us_active_peer_count s >=? us_max_peers s) with false.
    cbn [us_rate_limiting_enabled s negb mbind result_bind tb_active].
    unfold bucket_fill. cbn [us_burst_size us_buckets us_rate_limit_pps us_active_peer_count s].
    assert (Htok : 1 ≤ burst_of cfg * NS_PER_SEC < 2 ^ 63) by (unfold NS_PER_SEC; lia).
    rewrite (int64_ok (burst_of cfg * _)) by lia. cbn [mbind result_bind].
    pose proof (lookup_lt_Some _ _ _ Hx) as Hlt. destruct (Nat.ltb_spec (slot other 0) (length empty_table)); [|lia].
    set (e' := TokenBucketEntry _ _ _ _ _ _ _). cbn [mbind result_bind us_buckets us_set_table].
    rewrite list_lookup_insert_eq by done. unfold consume_at, take_token, e' at 1.
    cbn [tb_tokens_x1e9]. destruct (Z.geb_spec (burst_of cfg * NS_PER_SEC) NS_PER_SEC); [|unfold NS_PER_SEC in *; lia].
    eexists. split; [done|]. unfold misplaced. cbn [us_set_table us_rate_limiting_enabled us_max_peers
      us_active_peer_count us_burst_size us_buckets].
    split; [done|]. split; [done|]. split; [done|]. split; [cbn; lia|].
    split; [by rewrite !length_insert|].
    eexists (slot other 0), _. split; [rewrite list_lookup_insert_eq by (by rewrite length_insert); reflexivity|].
    split; [done|]. split; [exact Ht0|]. split.
    - unfold slot. rewrite !Nat.add_0_r. unfold slots. change (Z.to_nat BUCKET_TABLE_SIZE) with 256%nat.
      pose proof (Z.mod_pos_bound other 256 ltac:(lia)). pose proof (Z.mod_pos_bound ip 256 ltac:(lia)).
      rewrite !Nat.mod_small by lia. lia.
    - intros j y Hy Hj. rewrite !list_lookup_insert_ne in Hy by done. by apply lookup_replicate in Hy as [-> _]. }
  destruct Hfirst as (s1 & Hs1 & Hmis). simpl. rewrite Hs1. cbn [mbind result_bind]. clear Hs1 Hc.
  assert (Hrest : ∃ s', limiter_run s1 (map (λ t, (ip, t)) times) = Ok (replicate (length times) true, s')).
  { clear -Hmis Htimes. revert s1 Hmis. induction Htimes as [|t times Ht _ IH]; intros s1 Hmis; [by eexists|]. simpl.
    destruct (misplaced_packet ip t s1 Hmis Ht) as (s2 & -> & Hmis2). cbn [mbind result_bind].
    destruct (IH s2 Hmis2) as (s3 & ->). by eexists. }
  destruct Hrest as (s' & ->). by eexists.
Qed.

(** ** Witnesses *)

Definition cfg_example : udp_rate_limit_config := UdpRateLimitConfig 10 2 2 0.

Definition socket_example (cfg : udp_rate_limit_config) : udp_socket :=
  match udp_socket_create true true None (Some cfg) with
  | Ok s => s
  | _ => UdpSocket false 0 0 0 0 0 [] 0 0 0
  end.

(** Two peers that collide in the table. *)
Definition packets_example : list (Z * Z) := [(7, 0); (263, 0); (7, 1); (7, 2); (263, 3); (7, 200000000)].

Lemma limits_example : limits_ok cfg_example 1000000000.
Proof. by split; vm_compute. Qed.

Lemma rate_limiter_refines_witness :
  ∃ s', limiter_run (socket_example cfg_example) packets_example =
    Ok ([true; true; true; false; true; true], s').
Proof.
  apply (rate_limiter_refines cfg_example (socket_example cfg_example) 1000000000 packets_example limits_example).
  - reflexivity.
  - by_decide.
  - vm_compute. discriminate.
Defined.

Lemma rate_limit_holds_witness :
  ∃ answers s', limiter_run (socket_example cfg_example) packets_example = Ok (answers, s') ∧
    accepted_from 7 (drop 2 packets_example) (drop 2 answers) * NS_PER_SEC ≤ 2 * NS_PER_SEC + 10 * 200000000.
Proof.
  apply (rate_limit_holds cfg_example (socket_example cfg_example) 1000000000 (take 2 packets_example)
    (drop 2 packets_example) 0 7 limits_example).
  - reflexivity.
  - by_decide.
  - vm_compute. repeat split; discriminate.
  - vm_compute. discriminate.
Defined.

Lemma rate_limit_bypassed_witness :
  ∃ s', limiter_run (socket_example (UdpRateLimitConfig 1 1 1 0)) ((8, 0) :: map (λ t, (7, t)) [1; 1; 1; 1; 1]) =
    Ok (replicate 6 true, s').
Proof.
  apply (rate_limit_bypassed (UdpRateLimitConfig 1 1 1 0) (socket_example (UdpRateLimitConfig 1 1 1 0)) 8 7 0
    [1; 1; 1; 1; 1]).
  - by_decide.
  - by_decide.
  - reflexivity.
  - reflexivity.
  - by_decide.
  - unfold INT64_MAX. by_decide.
Defined.
