(* ===== verification/GossipMembership.v ===== *)
(** * Gossip: the membership list

    [src/libs/distric_gossip/src/gossip_membership.c] and
    [gossip_conflict_resolution.c]: the entries of the cluster's nodes, the
    resolution of conflicting updates, the transitions between the statuses and
    the dissemination of updates.

    The array of entries and its count are a list (the capacity only sizes the
    allocation); a pointer to an entry is a position in it.  The clock is a
    function from the number of readings to the value read.  A callback is
    recorded as an event, when one is registered. *)

From Stdlib Require Import ZArith Lia.
From stdpp Require Import base list numbers option.
From S2P Require Import Prelude CString.

Local Open Scope Z_scope.

(** ** Data *)

(** [gossip_node_status_t] and [gossip_node_role_t]: integers, since a message
    can hold any value. *)
Definition GOSSIP_NODE_ALIVE : Z := 0.
Definition GOSSIP_NODE_SUSPECTED : Z := 1.
Definition GOSSIP_NODE_FAILED : Z := 2.
Definition GOSSIP_NODE_LEFT : Z := 3.
Definition GOSSIP_ROLE_COORDINATOR : Z := 0.
Definition GOSSIP_ROLE_WORKER : Z := 1.

Record gossip_node_info := NodeInfo {
  gi_node_id : list Z;
  gi_address : list Z;
  gi_port : Z;
  gi_status : Z;
  gi_role : Z;
  gi_incarnation : Z;
  gi_last_seen_ms : Z;
  gi_load : Z
}.

Definition gi_set_status (s : Z) (i : gossip_node_info) : gossip_node_info :=
  NodeInfo (gi_node_id i) (gi_address i) (gi_port i) s (gi_role i) (gi_incarnation i)
    (gi_last_seen_ms i) (gi_load i).
Definition gi_set_incarnation (n : Z) (i : gossip_node_info) : gossip_node_info :=
  NodeInfo (gi_node_id i) (gi_address i) (gi_port i) (gi_status i) (gi_role i) n
    (gi_last_seen_ms i) (gi_load i).
Definition gi_set_last_seen (t : Z) (i : gossip_node_info) : gossip_node_info :=
  NodeInfo (gi_node_id i) (gi_address i) (gi_port i) (gi_status i) (gi_role i)
    (gi_incarnation i) t (gi_load i).
Definition gi_set_load (l : Z) (i : gossip_node_info) : gossip_node_info :=
  NodeInfo (gi_node_id i) (gi_address i) (gi_port i) (gi_status i) (gi_role i)
    (gi_incarnation i) (gi_last_seen_ms i) l.

Record membership_entry := MembershipEntry {
  me_info : gossip_node_info;
  me_suspect_time_ms : Z;
  me_transmit_count : Z;
  me_local_node : bool
}.

Definition me_set_info (i : gossip_node_info) (e : membership_entry) : membership_entry :=
  MembershipEntry i (me_suspect_time_ms e) (me_transmit_count e) (me_local_node e).
Definition me_set_suspect_time (t : Z) (e : membership_entry) : membership_entry :=
  MembershipEntry (me_info e) t (me_transmit_count e) (me_local_node e).
Definition me_set_transmit (n : Z) (e : membership_entry) : membership_entry :=
  MembershipEntry (me_info e) (me_suspect_time_ms e) n (me_local_node e).
Definition me_set_local (b : bool) (e : membership_entry) : membership_entry :=
  MembershipEntry (me_info e) (me_suspect_time_ms e) (me_transmit_count e) b.

Definition me_id (e : membership_entry) : list Z := gi_node_id (me_info e).
Definition me_status (e : membership_entry) : Z := gi_status (me_info e).
Definition me_incarnation (e : membership_entry) : Z := gi_incarnation (me_info e).

Record gossip_config := GossipConfig {
  gc_node_id : list Z;
  gc_bind_address : list Z;
  gc_bind_port : Z;
  gc_role : Z;
  gc_protocol_period_ms : Z;
  gc_probe_timeout_ms : Z;
  gc_indirect_probes : Z;
  gc_suspicion_mult : Z;
  gc_max_transmissions : Z;
  gc_seeds : list (list Z * Z)  (* [seed_addresses], [seed_ports], [seed_count] *)
}.

(** The callbacks that are registered, and the calls made to them. *)
Record gossip_callbacks := GossipCallbacks {
  on_joined : bool;
  on_suspected : bool;
  on_failed : bool;
  on_recovered : bool
}.

Inductive gossip_event :=
  | NodeJoined (i : gossip_node_info)
  | NodeSuspected (i : gossip_node_info)
  | NodeFailed (i : gossip_node_info)
  | NodeRecovered (i : gossip_node_info).

Record gossip_state := GossipState {
  gs_config : gossip_config;
  gs_membership : list membership_entry;
  gs_self_incarnation : Z;
  gs_self_load : Z;
  gs_sequence_counter : Z;
  gs_running : bool;
  gs_callbacks : gossip_callbacks;
  gs_events : list gossip_event;
  gs_ticks : nat  (* readings of the clock so far *)
}.

Definition gs_set_membership (m : list membership_entry) (s : gossip_state) : gossip_state :=
  GossipState (gs_config s) m (gs_self_incarnation s) (gs_self_load s) (gs_sequence_counter s)
    (gs_running s) (gs_callbacks s) (gs_events s) (gs_ticks s).
Definition gs_set_incarnation (n : Z) (s : gossip_state) : gossip_state :=
  GossipState (gs_config s) (gs_membership s) n (gs_self_load s) (gs_sequence_counter s)
    (gs_running s) (gs_callbacks s) (gs_events s) (gs_ticks s).
Definition gs_set_load (l : Z) (s : gossip_state) : gossip_state :=
  GossipState (gs_config s) (gs_membership s) (gs_self_incarnation s) l (gs_sequence_counter s)
    (gs_running s) (gs_callbacks s) (gs_events s) (gs_ticks s).
Definition gs_set_sequence (n : Z) (s : gossip_state) : gossip_state :=
  GossipState (gs_config s) (gs_membership s) (gs_self_incarnation s) (gs_self_load s) n
    (gs_running s) (gs_callbacks s) (gs_events s) (gs_ticks s).
Definition gs_set_running (b : bool) (s : gossip_state) : gossip_state :=
  GossipState (gs_config s) (gs_membership s) (gs_self_incarnation s) (gs_self_load s)
    (gs_sequence_counter s) b (gs_callbacks s) (gs_events s) (gs_ticks s).
Definition gs_set_callbacks (c : gossip_callbacks) (s : gossip_state) : gossip_state :=
  GossipState (gs_config s) (gs_membership s) (gs_self_incarnation s) (gs_self_load s)
    (gs_sequence_counter s) (gs_running s) c (gs_events s) (gs_ticks s).
Definition gs_add_event (e : gossip_event) (s : gossip_state) : gossip_state :=
  GossipState (gs_config s) (gs_membership s) (gs_self_incarnation s) (gs_self_load s)
    (gs_sequence_counter s) (gs_running s) (gs_callbacks s) (gs_events s ++ [e]) (gs_ticks s).
Definition gs_tick (s : gossip_state) : gossip_state :=
  GossipState (gs_config s) (gs_membership s) (gs_self_incarnation s) (gs_self_load s)
    (gs_sequence_counter s) (gs_running s) (gs_callbacks s) (gs_events s) (S (gs_ticks s)).

(** A callback, when it is registered. *)
Definition gossip_call (registered : gossip_callbacks → bool) (e : gossip_event) (s : gossip_state) :
    gossip_state :=
  if registered (gs_callbacks s) then gs_add_event e s else s.

(** [gossip_message_t] *)
Definition GOSSIP_MSG_PING : Z := 1.
Definition GOSSIP_MSG_ACK : Z := 2.
Definition GOSSIP_MSG_PING_REQ : Z := 3.
Definition GOSSIP_MSG_MEMBERSHIP : Z := 4.
Definition GOSSIP_MSG_LEAVE : Z := 5.

Record gossip_message := GossipMessage {
  gm_type : Z;
  gm_sender_id : list Z;
  gm_incarnation : Z;
  gm_sequence : Z;
  gm_updates : list gossip_node_info  (* [updates] and [update_count] *)
}.

(** ** Conflict resolution *)

Definition get_state_priority (status : Z) : Z :=
  if status =? GOSSIP_NODE_ALIVE then 3
  else if status =? GOSSIP_NODE_SUSPECTED then 2
  else if status =? GOSSIP_NODE_FAILED then 1
  else if status =? GOSSIP_NODE_LEFT then 0
  else -1.

Definition gossip_compare_updates (status1 incarnation1 status2 incarnation2 : Z) : Z :=
  if incarnation1 >? incarnation2 then 1
  else if incarnation1 <? incarnation2 then -1
  else get_state_priority status1 - get_state_priority status2.

Definition gossip_should_apply_update
    (current_status current_incarnation update_status update_incarnation : Z) : bool :=
  gossip_compare_updates update_status update_incarnation current_status current_incarnation >? 0.

(** ** The membership array *)
Section membership.
(** The readings of [gettimeofday], in milliseconds. *)
Variable clock : nat → Z.

Definition get_time_ms (s : gossip_state) : Z * gossip_state :=
  (u64 (clock (gs_ticks s)), gs_tick s).

Definition membership_find (s : gossip_state) (node_id : list Z) :
    option (nat * membership_entry) :=
  list_find (λ e, me_id e = node_id) (gs_membership s).

Definition set_entry (i : nat) (e : membership_entry) (s : gossip_state) : gossip_state :=
  gs_set_membership (<[i := e]> (gs_membership s)) s.

Definition membership_add (s : gossip_state) (info : gossip_node_info) : gossip_state :=
  let '(now, s) := get_time_ms s in
  let entry :=
    MembershipEntry (gi_set_last_seen now info) 0 (gc_max_transmissions (gs_config s))
      (streq (gi_node_id info) (gc_node_id (gs_config s))) in
  gs_set_membership (gs_membership s ++ [entry]) s.

Definition membership_remove (s : gossip_state) (node_id : list Z) : gossip_state :=
  match membership_find s node_id with
  | Some (i, _) =>
      gs_set_membership (take i (gs_membership s) ++ drop (S i) (gs_membership s)) s
  | None => s
  end.

(** The condition of [membership_update]. *)
Definition should_update (current update : gossip_node_info) : bool :=
  if gi_incarnation update >? gi_incarnation current then true
  else if gi_incarnation update =? gi_incarnation current then
    if (gi_status update =? GOSSIP_NODE_ALIVE) && negb (gi_status current =? GOSSIP_NODE_ALIVE)
    then true
    else (gi_status update =? GOSSIP_NODE_SUSPECTED) && (gi_status current =? GOSSIP_NODE_FAILED)
  else false.

Definition membership_update (s : gossip_state) (info : gossip_node_info) : gossip_state :=
  match membership_find s (gi_node_id info) with
  | None => s
  | Some (i, entry) =>
      if should_update (me_info entry) info then
        let old_status := me_status entry in
        let '(now, s) := get_time_ms s in
        let entry := me_set_info (gi_set_last_seen now info) entry in
        let entry := me_set_transmit (gc_max_transmissions (gs_config s)) entry in
        if (gi_status info =? GOSSIP_NODE_SUSPECTED) && negb (old_status =? GOSSIP_NODE_SUSPECTED)
        then
          let '(now, s) := get_time_ms s in
          set_entry i (me_set_suspect_time now entry) s
        else set_entry i entry s
      else s
  end.

(** ** Transitions *)

Definition me_set_status (st : Z) (e : membership_entry) : membership_entry :=
  me_set_info (gi_set_status st (me_info e)) e.

(** Entry changes are broadcast [max_transmissions] times. *)
Definition me_announce (s : gossip_state) (e : membership_entry) : membership_entry :=
  me_set_transmit (gc_max_transmissions (gs_config s)) e.

Definition gossip_mark_node_alive (s : gossip_state) (node_id : list Z) : gossip_state :=
  match membership_find s node_id with
  | None => s
  | Some (i, entry) =>
      let old_status := me_status entry in
      if negb (old_status =? GOSSIP_NODE_ALIVE) then
        let '(now, s) := get_time_ms s in
        let entry := me_set_status GOSSIP_NODE_ALIVE entry in
        let entry := me_set_info (gi_set_last_seen now (me_info entry)) entry in
        let entry := me_set_suspect_time 0 (me_announce s entry) in
        let s := set_entry i entry s in
        if old_status =? GOSSIP_NODE_FAILED
        then gossip_call on_recovered (NodeRecovered (me_info entry)) s else s
      else s
  end.

(** The entry of the node itself, refuting what is said of it. *)
Definition me_refute (s : gossip_state) (e : membership_entry) : membership_entry :=
  me_announce s
    (me_set_info
       (gi_set_status GOSSIP_NODE_ALIVE (gi_set_incarnation (gs_self_incarnation s) (me_info e))) e).

Definition gossip_mark_node_suspected (s : gossip_state) (node_id : list Z) : gossip_state :=
  match membership_find s node_id with
  | None => s
  | Some (i, entry) =>
      if (me_status entry =? GOSSIP_NODE_FAILED) || (me_status entry =? GOSSIP_NODE_LEFT) then s
      else if me_local_node entry then
        let s := gs_set_incarnation (u64 (gs_self_incarnation s + 1)) s in
        set_entry i (me_refute s entry) s
      else if negb (me_status entry =? GOSSIP_NODE_SUSPECTED) then
        let '(now, s) := get_time_ms s in
        let entry := me_set_status GOSSIP_NODE_SUSPECTED entry in
        let entry := me_announce s (me_set_suspect_time now entry) in
        gossip_call on_suspected (NodeSuspected (me_info entry)) (set_entry i entry s)
      else s
  end.

Definition gossip_mark_node_failed (s : gossip_state) (node_id : list Z) : gossip_state :=
  match membership_find s node_id with
  | None => s
  | Some (i, entry) =>
      if me_local_node entry then s
      else if negb (me_status entry =? GOSSIP_NODE_FAILED) then
        let entry := me_announce s (me_set_status GOSSIP_NODE_FAILED entry) in
        gossip_call on_failed (NodeFailed (me_info entry)) (set_entry i entry s)
      else s
  end.

Definition gossip_handle_node_leave (s : gossip_state) (node_id : list Z) : gossip_state :=
  match membership_find s node_id with
  | None => s
  | Some (i, entry) => set_entry i (me_announce s (me_set_status GOSSIP_NODE_LEFT entry)) s
  end.

(** ** Suspicion timeouts *)

Definition suspicion_timeout (s : gossip_state) : Z :=
  u32 (gc_protocol_period_ms (gs_config s) * gc_suspicion_mult (gs_config s)).

Definition suspicion_expired (now timeout : Z) (e : membership_entry) : bool :=
  (me_status e =? GOSSIP_NODE_SUSPECTED) && (u64 (now - me_suspect_time_ms e) >=? timeout).

(** The loop restarts at position 1 after it marked a node; [None] when it has
    not ended after [fuel] turns. *)
Fixpoint suspicion_loop (fuel : nat) (now timeout : Z) (i : nat) (s : gossip_state) :
    option gossip_state :=
  match fuel with
  | O => None
  | S fuel =>
      match gs_membership s !! i with
      | None => Some s
      | Some entry =>
          if suspicion_expired now timeout entry then
            let s := gossip_mark_node_failed s (strncpy 63 (me_id entry)) in
            if (length (gs_membership s) =? 0)%nat then Some s
            else suspicion_loop fuel now timeout 1 s
          else suspicion_loop fuel now timeout (S i) s
      end
  end.

(** Every restart is for one suspected node less. *)
Definition suspicion_fuel (s : gossip_state) : nat :=
  (S (length (gs_membership s)) * S (length (gs_membership s)))%nat.

Definition gossip_check_suspicion_timeouts (s : gossip_state) : option gossip_state :=
  let '(now, s) := get_time_ms s in
  suspicion_loop (suspicion_fuel s) now (suspicion_timeout s) 0 s.

(** ** Dissemination *)

(** The first [n] entries with transmissions left, and the entries after it. *)
Fixpoint collect_updates (n : nat) (es : list membership_entry) :
    list gossip_node_info * list membership_entry :=
  match es with
  | [] => ([], [])
  | e :: es' =>
      match n with
      | O => ([], es)
      | S n' =>
          if me_transmit_count e >? 0 then
            let '(us, es') := collect_updates n' es' in
            (me_info e :: us, me_set_transmit (me_transmit_count e - 1) e :: es')
          else let '(us, es') := collect_updates n es' in (us, e :: es')
      end
  end.

Definition broadcast_count (s : gossip_state) : nat :=
  length (filter (λ e, 0 < me_transmit_count e) (gs_membership s)) `min` 10.

Definition gossip_get_updates_to_broadcast (s : gossip_state) :
    list gossip_node_info * gossip_state :=
  if (broadcast_count s =? 0)%nat then ([], s)
  else
    let '(us, es) := collect_updates (broadcast_count s) (gs_membership s) in
    (us, gs_set_membership es s).

(** ** Updates from messages *)

(** What a message says of its sender. *)
Definition update_sender (s : gossip_state) (msg : gossip_message) (src_addr : list Z)
    (src_port : Z) : gossip_state :=
  match membership_find s (gm_sender_id msg) with
  | None =>
      let new_node :=
        NodeInfo (strncpy 63 (gm_sender_id msg)) (strncpy 255 src_addr) src_port
          GOSSIP_NODE_ALIVE GOSSIP_ROLE_WORKER (gm_incarnation msg) 0 0 in
      let s := membership_add s new_node in
      match list.last (gs_membership s) with
      | Some sender => gossip_call on_joined (NodeJoined (me_info sender)) s
      | None => s
      end
  | Some (i, sender) =>
      if gm_incarnation msg >=? me_incarnation sender then
        let sender := me_set_info (gi_set_incarnation (gm_incarnation msg) (me_info sender)) sender in
        let '(now, s) := get_time_ms s in
        let sender := me_set_info (gi_set_last_seen now (me_info sender)) sender in
        let sender :=
          if gm_incarnation msg >? me_incarnation sender
          then me_set_suspect_time 0 (me_set_status GOSSIP_NODE_ALIVE sender) else sender in
        set_entry i sender s
      else s
  end.

(** One of its updates. *)
Definition apply_update (s : gossip_state) (update : gossip_node_info) : gossip_state :=
  if streq (gi_node_id update) (gc_node_id (gs_config s)) then
    if negb (gi_status update =? GOSSIP_NODE_ALIVE) then
      let s := gs_set_incarnation (u64 (gs_self_incarnation s + 1)) s in
      match membership_find s (gc_node_id (gs_config s)) with
      | Some (i, self) => set_entry i (me_refute s self) s
      | None => s
      end
    else s
  else
    match membership_find s (gi_node_id update) with
    | None => membership_add s update
    | Some _ => membership_update s update
    end.

Definition gossip_update_node_from_message (s : gossip_state) (msg : gossip_message)
    (src_addr : list Z) (src_port : Z) : gossip_state :=
  fold_left apply_update (gm_updates msg) (update_sender s msg src_addr src_port).

(** ** The functions of [gossip_conflict_resolution.c] on a state *)

Definition gossip_resolve_conflict (s : gossip_state) (node_id : list Z)
    (update_status update_incarnation : Z) : bool :=
  match membership_find s node_id with
  | None => true
  | Some (_, entry) =>
      if me_local_node entry &&
         ((update_status =? GOSSIP_NODE_SUSPECTED) || (update_status =? GOSSIP_NODE_FAILED)) &&
         (update_incarnation >=? me_incarnation entry)
      then false
      else
        gossip_should_apply_update (me_status entry) (me_incarnation entry)
          update_status update_incarnation
  end.
End membership.

(** ** Well-formed states *)

(** The statuses a correct node puts into an update. *)
Definition status_ok (st : Z) : Prop := 0 ≤ st ≤ 3.
Definition node_id_ok (id : list Z) : Prop := cstr_ok id ∧ (length id ≤ 63)%nat.

#[export] Instance node_id_ok_dec id : Decision (node_id_ok id).
Proof. unfold node_id_ok. apply _. Defined.

Record entry_wf (c : gossip_config) (e : membership_entry) : Prop := {
  ew_id : node_id_ok (me_id e);
  ew_local : me_local_node e = streq (me_id e) (gc_node_id c);
  ew_self : me_local_node e = true → me_status e ≠ GOSSIP_NODE_SUSPECTED;
  ew_incarnation : is_u64 (me_incarnation e);
  ew_transmit : 0 ≤ me_transmit_count e ≤ gc_max_transmissions c
}.

Record gossip_wf (s : gossip_state) : Prop := {
  gw_ids : NoDup (me_id <$> gs_membership s);
  gw_entries : Forall (entry_wf (gs_config s)) (gs_membership s);
  gw_self : is_u64 (gs_self_incarnation s);
  gw_config : 0 ≤ gc_max_transmissions (gs_config s) ∧ node_id_ok (gc_node_id (gs_config s))
}.

(** The entry of a node. *)
Definition lookup_entry (s : gossip_state) (id : list Z) : option membership_entry :=
  snd <$> membership_find s id.

Section lookups.
Implicit Types (s : gossip_state) (e : membership_entry) (l : list membership_entry).

Lemma membership_find_Some s id i e :
  membership_find s id = Some (i, e) → gs_membership s !! i = Some e ∧ me_id e = id.
Proof. intros (? & ? & ?)%list_find_Some. done. Qed.

Lemma membership_find_None s id :
  membership_find s id = None → id ∉ (me_id <$> gs_membership s).
Proof.
  intros Hf%list_find_None (e & -> & He)%list_elem_of_fmap.
  exact (Forall_elem _ _ _ Hf He eq_refl).
Qed.

Lemma find_lookup s i e :
  NoDup (me_id <$> gs_membership s) → gs_membership s !! i = Some e →
  membership_find s (me_id e) = Some (i, e).
Proof.
  intros Hnd He. apply list_find_Some. split_and!; [done..|].
  intros j y Hy Hlt Heq.
  assert (j = i); [|lia]. eapply NoDup_lookup; [done|rewrite list_lookup_fmap, Hy; done|].
  rewrite list_lookup_fmap, He. simpl. by rewrite Heq.
Qed.

Lemma lookup_entry_find s id i e :
  membership_find s id = Some (i, e) → lookup_entry s id = Some e.
Proof. unfold lookup_entry. by intros ->. Qed.

Lemma lookup_entry_elem s id e :
  lookup_entry s id = Some e → e ∈ gs_membership s ∧ me_id e = id.
Proof.
  unfold lookup_entry. destruct (membership_find s id) as [[i x]|] eqn:Hf; [|done].
  apply membership_find_Some in Hf as [Hf ?]. intros [= ->]. split; [by eapply list_elem_of_lookup_2|done].
Qed.

Lemma lookup_entry_In s e :
  NoDup (me_id <$> gs_membership s) → e ∈ gs_membership s → lookup_entry s (me_id e) = Some e.
Proof.
  intros Hnd [i Hi]%list_elem_of_lookup. by eapply lookup_entry_find, find_lookup.
Qed.

Lemma lookup_entry_wf s id e : gossip_wf s → lookup_entry s id = Some e → entry_wf (gs_config s) e.
Proof.
  intros Hw [He _]%lookup_entry_elem. exact (Forall_elem _ _ _ (gw_entries _ Hw) He).
Qed.

Lemma ids_insert l i e e' :
  l !! i = Some e → me_id e' = me_id e → me_id <$> <[i := e']> l = me_id <$> l.
Proof.
  intros He Hid. rewrite list_fmap_insert. apply list_insert_id.
  rewrite list_lookup_fmap, He. simpl. by rewrite Hid.
Qed.

(** An entry is replaced by one with the same identifier. *)
Lemma lookup_set_entry s i e e' id :
  NoDup (me_id <$> gs_membership s) → gs_membership s !! i = Some e → me_id e' = me_id e →
  lookup_entry (set_entry i e' s) id = if decide (id = me_id e) then Some e' else lookup_entry s id.
Proof.
  intros Hnd He Hid. pose proof (lookup_lt_Some _ _ _ He) as Hlt.
  assert (Hnd' : NoDup (me_id <$> gs_membership (set_entry i e' s)))
    by (simpl; by rewrite (ids_insert _ _ _ _ He Hid)).
  destruct (decide (id = me_id e)) as [->|Hne].
  - rewrite <- Hid. eapply lookup_entry_find, (find_lookup _ i); [done|]. simpl.
    by apply list_lookup_insert_eq.
  - unfold lookup_entry. destruct (membership_find s id) as [[j x]|] eqn:Hf.
    + apply membership_find_Some in Hf as [Hf <-].
      assert (i ≠ j) by (intros ->; congruence).
      erewrite (find_lookup (set_entry i e' s) j x); [done|done|].
      simpl. by rewrite list_lookup_insert_ne by done.
    + destruct (membership_find (set_entry i e' s) id) as [[j x]|] eqn:Hf'; [|done].
      apply membership_find_Some in Hf' as [Hf' <-]. apply membership_find_None in Hf.
      exfalso. apply Hf. simpl in Hf'. destruct (decide (i = j)) as [->|].
      * rewrite list_lookup_insert_eq in Hf' by done. injection Hf' as <-.
        rewrite Hid. apply list_elem_of_fmap. exists e. split; [done|].
        by eapply list_elem_of_lookup_2.
      * rewrite list_lookup_insert_ne in Hf' by done. apply list_elem_of_fmap.
        exists x. split; [done|]. by eapply list_elem_of_lookup_2.
Qed.

Lemma set_entry_wf s i e e' :
  gossip_wf s → gs_membership s !! i = Some e → me_id e' = me_id e → entry_wf (gs_config s) e' →
  gossip_wf (set_entry i e' s).
Proof.
  intros [Hnd Hall Hs Hc] He Hid Hw. split; simpl; [by rewrite (ids_insert _ _ _ _ He Hid)| |done|done].
  by apply Forall_insert.
Qed.
End lookups.

(** ** Every operation keeps the state well formed

    and knows at least the nodes it knew, at no smaller incarnations; only of
    itself may a node lower the incarnation, when it refutes what is said of it
    under a larger one. *)
Definition grows (s s' : gossip_state) : Prop :=
  gs_config s' = gs_config s ∧
  ∀ id e, lookup_entry s id = Some e →
    ∃ e', lookup_entry s' id = Some e' ∧
      (id ≠ gc_node_id (gs_config s) → me_incarnation e ≤ me_incarnation e').

Definition good_step (s s' : gossip_state) : Prop := gossip_wf s' ∧ grows s s'.

Lemma grows_refl s : grows s s.
Proof. split; [done|]. intros id e He. exists e. split; [done|lia]. Qed.

Lemma grows_trans s1 s2 s3 : grows s1 s2 → grows s2 s3 → grows s1 s3.
Proof.
  intros [Hc1 H1] [Hc2 H2]. split; [congruence|]. intros id e He.
  destruct (H1 id e He) as (e1 & He1 & Hi1). destruct (H2 id e1 He1) as (e2 & He2 & Hi2).
  exists e2. split; [done|]. rewrite Hc1 in Hi2. intros Hne. specialize (Hi1 Hne). specialize (Hi2 Hne). lia.
Qed.

(** Only the entries, the configuration and the own incarnation matter. *)
Lemma same_step s s' :
  gs_membership s' = gs_membership s → gs_config s' = gs_config s → is_u64 (gs_self_incarnation s') →
  gossip_wf s → good_step s s'.
Proof.
  intros Hm Hc Hi [Hnd Hall _ Hcfg]. split.
  - by split; rewrite ?Hm, ?Hc.
  - split; [done|]. intros id e He. exists e. split; [|lia].
    revert He. unfold lookup_entry, membership_find. by rewrite Hm.
Qed.

Lemma good_step_refl s : gossip_wf s → good_step s s.
Proof. intros Hw. split; [done|apply grows_refl]. Qed.

Lemma good_step_trans s1 s2 s3 : good_step s1 s2 → good_step s2 s3 → good_step s1 s3.
Proof. intros [_ H1] [? H2]. split; [done|by eapply grows_trans]. Qed.

Lemma gossip_call_step registered ev s : gossip_wf s → good_step s (gossip_call registered ev s).
Proof.
  intros Hw. unfold gossip_call. destruct (registered _); [|by apply good_step_refl].
  apply same_step; try done. apply Hw.
Qed.

Lemma gossip_call_membership registered ev s : gs_membership (gossip_call registered ev s) = gs_membership s.
Proof. unfold gossip_call. by destruct (registered _). Qed.

Lemma set_entry_step s i e e' :
  gossip_wf s → gs_membership s !! i = Some e → me_id e' = me_id e → entry_wf (gs_config s) e' →
  (me_id e ≠ gc_node_id (gs_config s) → me_incarnation e ≤ me_incarnation e') →
  good_step s (set_entry i e' s).
Proof.
  intros Hw He Hid Hw' Hinc. split; [by eapply set_entry_wf|]. split; [done|]. intros id x Hx.
  rewrite (lookup_set_entry s i e e') by (done || apply Hw).
  destruct (decide (id = me_id e)) as [->|]; [|exists x; split; [done|lia]].
  exists e'. split; [done|]. rewrite (lookup_entry_In s e) in Hx; [by simplify_eq|apply Hw|].
  by eapply list_elem_of_lookup_2.
Qed.

Definition info_ok (i : gossip_node_info) : Prop := node_id_ok (gi_node_id i) ∧ is_u64 (gi_incarnation i).

#[export] Instance info_ok_dec i : Decision (info_ok i).
Proof. unfold info_ok. apply _. Defined.

Section operations.
Variable clock : nat → Z.
Implicit Types (s : gossip_state) (e : membership_entry).

(** The entry [membership_add] makes. *)
Definition new_entry s (info : gossip_node_info) : membership_entry :=
  MembershipEntry (gi_set_last_seen (u64 (clock (gs_ticks s))) info) 0
    (gc_max_transmissions (gs_config s)) (streq (gi_node_id info) (gc_node_id (gs_config s))).

Lemma lookup_membership_add s info id :
  membership_find s (gi_node_id info) = None →
  lookup_entry (membership_add clock s info) id =
    if decide (id = gi_node_id info) then Some (new_entry s info) else lookup_entry s id.
Proof.
  intros Hf. unfold lookup_entry, membership_find, membership_add. simpl. fold (new_entry s info).
  destruct (decide (id = gi_node_id info)) as [->|Hne].
  - rewrite list_find_app_r by done. simpl. rewrite decide_True by done. done.
  - destruct (list_find (λ e, me_id e = id) (gs_membership s)) as [[i x]|] eqn:Hx.
    + by erewrite list_find_app_l.
    + rewrite list_find_app_r by done. simpl. by rewrite decide_False by (unfold me_id; simpl; congruence).
Qed.

Lemma membership_add_step s info :
  gossip_wf s → info_ok info → membership_find s (gi_node_id info) = None →
  (gi_node_id info = gc_node_id (gs_config s) → gi_status info ≠ GOSSIP_NODE_SUSPECTED) →
  good_step s (membership_add clock s info).
Proof.
  intros Hw [Hid Hinc] Hf Hself. split.
  - destruct Hw as [Hnd Hall Hi Hc]. split; simpl; [| |done|done].
    + rewrite fmap_app. apply list.NoDup_app. split_and!; [done| |apply NoDup_singleton].
      intros x Hx ->%list_elem_of_singleton. apply membership_find_None in Hf. done.
    + apply Forall_app_2; [done|]. apply Forall_cons_2; [|constructor].
      split; simpl; [done|done| |done|lia].
      intros Ht. destruct (streq_spec (gi_node_id info) (gc_node_id (gs_config s))); [|done]. by apply Hself.
  - split; [done|]. intros id e He. exists e. rewrite lookup_membership_add by done.
    destruct (decide _) as [->|]; [|split; [done|lia]].
    revert He. unfold lookup_entry. by rewrite Hf.
Qed.

(** An entry that is found can be changed to one with the same identifier. *)
Lemma found_step s id i e s1 e' :
  gossip_wf s → membership_find s id = Some (i, e) →
  good_step s s1 → gs_membership s1 = gs_membership s →
  me_id e' = me_id e → entry_wf (gs_config s) e' →
  (me_id e ≠ gc_node_id (gs_config s) → me_incarnation e ≤ me_incarnation e') →
  good_step s (set_entry i e' s1).
Proof.
  intros Hw Hf Hs1 Hm Hid Hw' Hinc. eapply good_step_trans; [exact Hs1|].
  destruct Hs1 as [Hw1 [Hc1 _]]. apply membership_find_Some in Hf as [Hf _].
  apply (set_entry_step s1 i e); rewrite ?Hm, ?Hc1; done.
Qed.

Lemma tick_step s : gossip_wf s → good_step s (gs_tick s).
Proof. intros Hw. apply same_step; try done. apply Hw. Qed.

Lemma incarnate_step s n : is_u64 n → gossip_wf s → good_step s (gs_set_incarnation n s).
Proof. intros. by apply same_step. Qed.

Lemma found_wf s id i e : gossip_wf s → membership_find s id = Some (i, e) → entry_wf (gs_config s) e.
Proof. intros Hw Hf. eapply lookup_entry_wf; [done|by eapply lookup_entry_find]. Qed.

(** Changes of the status, the times and the transmissions of an entry. *)
Lemma entry_wf_change c e st t n l :
  entry_wf c e → (me_local_node e = true → st ≠ GOSSIP_NODE_SUSPECTED) →
  0 ≤ n ≤ gc_max_transmissions c →
  entry_wf c (MembershipEntry (gi_set_last_seen l (gi_set_status st (me_info e))) t n (me_local_node e)).
Proof. intros [? ? ? ? ?] Hst Hn. by split. Qed.

Lemma membership_update_step s info :
  gossip_wf s → info_ok info → gi_node_id info ≠ gc_node_id (gs_config s) →
  good_step s (membership_update clock s info).
Proof.
  intros Hw [Hid Hinc] Hne. unfold membership_update.
  destruct (membership_find s (gi_node_id info)) as [[i e]|] eqn:Hf; [|by apply good_step_refl].
  destruct (should_update (me_info e) info) eqn:Hsu; [|by apply good_step_refl].
  pose proof (found_wf _ _ _ _ Hw Hf) as He. apply membership_find_Some in Hf as Hfe.
  assert (Hloc : me_local_node e = false).
  { rewrite (ew_local _ _ He). destruct Hfe as [_ ->].
    by destruct (streq_spec (gi_node_id info) (gc_node_id (gs_config s))). }
  assert (Hle : me_incarnation e ≤ gi_incarnation info).
  { revert Hsu. unfold should_update. unfold me_incarnation.
    destruct (Z.gtb_spec (gi_incarnation info) (gi_incarnation (me_info e))); [lia|].
    destruct (Z.eqb_spec (gi_incarnation info) (gi_incarnation (me_info e))); [lia|done]. }
  assert (Hnew : ∀ t l, entry_wf (gs_config s) (MembershipEntry (gi_set_last_seen l info) t
    (gc_max_transmissions (gs_config s)) (me_local_node e))).
  { intros t l. destruct He as [? Hl ? ? ?]. destruct (gw_config _ Hw).
    destruct Hfe as [_ Hfe]. split; simpl; try done; try lia; try congruence.
    rewrite Hl. unfold me_id in *. simpl. by rewrite Hfe. }
  simpl. case_match; eapply found_step; try done; try apply Hnew; try (simpl; by intros);
    try (unfold me_id; simpl; by destruct Hfe as [_ <-]).
  - eapply good_step_trans; [by apply tick_step|]. apply tick_step, tick_step, Hw.
  - by apply tick_step.
Qed.

Lemma mark_alive_step s id : gossip_wf s → good_step s (gossip_mark_node_alive clock s id).
Proof.
  intros Hw. unfold gossip_mark_node_alive.
  destruct (membership_find s id) as [[i e]|] eqn:Hf; [|by apply good_step_refl].
  destruct (negb _); [|by apply good_step_refl]. simpl.
  assert (Hs : ∀ t, good_step s (set_entry i (MembershipEntry
    (gi_set_last_seen t (gi_set_status GOSSIP_NODE_ALIVE (me_info e))) 0
    (gc_max_transmissions (gs_config s)) (me_local_node e)) (gs_tick s))).
  { intros t. eapply found_step; [done|done|by apply tick_step|done|done| |done].
    apply entry_wf_change; [by eapply found_wf|done|]. pose proof (gw_config _ Hw). lia. }
  case_match; [|apply Hs]. eapply good_step_trans; [apply Hs|apply gossip_call_step, Hs].
Qed.

Lemma refute_step s i e :
  gossip_wf s → membership_find s (me_id e) = Some (i, e) →
  me_id e = gc_node_id (gs_config s) →
  let s1 := gs_set_incarnation (u64 (gs_self_incarnation s + 1)) s in
  good_step s (set_entry i (me_refute s1 e) s1).
Proof.
  intros Hw Hf Hid s1.
  eapply found_step; [done|done|apply incarnate_step; [apply u64_range|done]|done|done| |done].
  destruct (found_wf _ _ _ _ Hw Hf) as [? ? ? ? ?]. destruct (gw_config _ Hw).
  split; simpl; first [done|apply u64_range|lia].
Qed.

Lemma mark_suspected_step s id : gossip_wf s → good_step s (gossip_mark_node_suspected clock s id).
Proof.
  intros Hw. unfold gossip_mark_node_suspected.
  destruct (membership_find s id) as [[i e]|] eqn:Hf; [|by apply good_step_refl].
  pose proof (found_wf _ _ _ _ Hw Hf) as He. apply membership_find_Some in Hf as Hfe.
  destruct Hfe as [Hi <-].
  destruct (_ || _); [by apply good_step_refl|]. destruct (me_local_node e) eqn:Hloc.
  - apply refute_step; [done..|]. rewrite (ew_local _ _ He) in Hloc.
    by destruct (streq_spec (me_id e) (gc_node_id (gs_config s))).
  - destruct (negb _); [|by apply good_step_refl]. simpl.
    match goal with |- context [set_entry i ?e' _] => set (x := e') end.
    assert (Hs : good_step s (set_entry i x (gs_tick s))).
    { eapply found_step; [done|done|by apply tick_step|done|done| |done].
      destruct He as [? ? ? ? ?]. pose proof (gw_config _ Hw).
      split; simpl; first [done|by rewrite Hloc|lia]. }
    eapply good_step_trans; [exact Hs|apply gossip_call_step, Hs].
Qed.

Lemma mark_failed_step s id : gossip_wf s → good_step s (gossip_mark_node_failed s id).
Proof.
  intros Hw. unfold gossip_mark_node_failed.
  destruct (membership_find s id) as [[i e]|] eqn:Hf; [|by apply good_step_refl].
  destruct (me_local_node e) eqn:Hloc; [by apply good_step_refl|].
  destruct (negb _); [|by apply good_step_refl].
  assert (Hs : good_step s (set_entry i (me_announce s (me_set_status GOSSIP_NODE_FAILED e)) s)).
  { eapply found_step; [done|done|by apply good_step_refl|done|done| |done].
    destruct (found_wf _ _ _ _ Hw Hf) as [? ? ? ? ?]. pose proof (gw_config _ Hw).
    split; simpl; try done. lia. }
  eapply good_step_trans; [apply Hs|apply gossip_call_step, Hs].
Qed.

Lemma handle_leave_step s id : gossip_wf s → good_step s (gossip_handle_node_leave s id).
Proof.
  intros Hw. unfold gossip_handle_node_leave.
  destruct (membership_find s id) as [[i e]|] eqn:Hf; [|by apply good_step_refl].
  eapply found_step; [done|done|by apply good_step_refl|done|done| |done].
  destruct (found_wf _ _ _ _ Hw Hf) as [? ? ? ? ?]. pose proof (gw_config _ Hw).
  split; simpl; try done. lia.
Qed.

(** Messages a correct peer can send: C strings that fit, incarnations of 64
    bits; the statuses are arbitrary. *)
Definition message_ok (msg : gossip_message) : Prop :=
  node_id_ok (gm_sender_id msg) ∧ is_u64 (gm_incarnation msg) ∧ Forall info_ok (gm_updates msg).

#[export] Instance message_ok_dec msg : Decision (message_ok msg).
Proof. unfold message_ok. apply _. Defined.

Lemma update_sender_step s msg addr port :
  gossip_wf s → message_ok msg → good_step s (update_sender clock s msg addr port).
Proof.
  intros Hw (Hid & Hinc & _). unfold update_sender.
  destruct (membership_find s (gm_sender_id msg)) as [[i e]|] eqn:Hf.
  - destruct (Z.geb_spec (gm_incarnation msg) (me_incarnation e)); [|by apply good_step_refl].
    pose proof (found_wf _ _ _ _ Hw Hf) as He. simpl.
    unfold me_incarnation at 1. simpl. destruct (Z.gtb_spec (gm_incarnation msg) (gm_incarnation msg)); [lia|].
    eapply found_step; [done|done|by apply tick_step|done|done| |done].
    destruct He as [? ? ? ? ?]. by split.
  - assert (Hstr : strncpy 63 (gm_sender_id msg) = gm_sender_id msg) by apply strncpy_id, Hid.
    rewrite Hstr.
    match goal with |- context [membership_add clock s ?info] =>
      assert (Hadd : good_step s (membership_add clock s info)) by (by apply membership_add_step) end.
    case_match; [|done]. eapply good_step_trans; [exact Hadd|apply gossip_call_step, Hadd].
Qed.

Lemma apply_update_step s update :
  gossip_wf s → info_ok update → good_step s (apply_update clock s update).
Proof.
  intros Hw Hok. unfold apply_update.
  destruct (streq_spec (gi_node_id update) (gc_node_id (gs_config s))) as [Heq|Hne].
  - destruct (negb _); [|by apply good_step_refl]. simpl.
    unfold membership_find at 1. simpl. fold (membership_find s (gc_node_id (gs_config s))).
    destruct (membership_find s (gc_node_id (gs_config s))) as [[i e]|] eqn:Hf.
    + apply membership_find_Some in Hf as Hfe. destruct Hfe as [_ Hfe]. rewrite <- Hfe in Hf.
      by apply refute_step.
    + apply incarnate_step; [apply u64_range|done].
  - destruct (membership_find s (gi_node_id update)) as [[i e]|] eqn:Hf.
    + by apply membership_update_step.
    + by apply membership_add_step.
Qed.

Lemma apply_updates_step us s :
  gossip_wf s → Forall info_ok us → good_step s (fold_left (apply_update clock) us s).
Proof.
  intros Hw Hus. revert s Hw. induction Hus as [|u us Hu _ IH]; intros s Hw; simpl; [by apply good_step_refl|].
  pose proof (apply_update_step s u Hw Hu) as Hs. eapply good_step_trans; [exact Hs|apply IH, Hs].
Qed.

Lemma update_node_from_message_step s msg addr port :
  gossip_wf s → message_ok msg → good_step s (gossip_update_node_from_message clock s msg addr port).
Proof.
  intros Hw Hok. pose proof (update_sender_step s msg addr port Hw Hok) as Hs.
  eapply good_step_trans; [exact Hs|]. apply apply_updates_step; [apply Hs|apply Hok].
Qed.
End operations.

(** ** Suspicion timeouts: the loop and what it means *)

(** A suspected entry whose time is up fails and is announced. *)
Definition fail_entry (c : gossip_config) (e : membership_entry) : membership_entry :=
  me_set_transmit (gc_max_transmissions c) (me_set_status GOSSIP_NODE_FAILED e).
Definition fail_expired (c : gossip_config) (now timeout : Z) (e : membership_entry) :
    membership_entry :=
  if suspicion_expired now timeout e then fail_entry c e else e.

Definition set_membership_events (m : list membership_entry) (ev : list gossip_event)
    (s : gossip_state) : gossip_state :=
  GossipState (gs_config s) m (gs_self_incarnation s) (gs_self_load s) (gs_sequence_counter s)
    (gs_running s) (gs_callbacks s) ev (gs_ticks s).

(** The calls to [on_failed], in the order of the entries. *)
Definition failure_events (s : gossip_state) (now timeout : Z) (es : list membership_entry) :
    list gossip_event :=
  if on_failed (gs_callbacks s)
  then map (λ e, NodeFailed (me_info (fail_entry (gs_config s) e)))
         (List.filter (suspicion_expired now timeout) es)
  else [].

Definition fail_all_expired (now timeout : Z) (s : gossip_state) : gossip_state :=
  set_membership_events (map (fail_expired (gs_config s) now timeout) (gs_membership s))
    (gs_events s ++ failure_events s now timeout (gs_membership s)) s.

Lemma fail_entry_not_expired c now timeout e : suspicion_expired now timeout (fail_entry c e) = false.
Proof. done. Qed.

(** [gossip_mark_node_failed] on an expired entry. *)
Lemma mark_failed_expired s now timeout i e :
  gossip_wf s → gs_membership s !! i = Some e → suspicion_expired now timeout e = true →
  gossip_mark_node_failed s (strncpy 63 (me_id e)) =
    set_membership_events (<[i := fail_entry (gs_config s) e]> (gs_membership s))
      (gs_events s ++ failure_events s now timeout [e]) s.
Proof.
  intros Hw Hi Hx. pose proof (Forall_lookup_1 _ _ _ _ (gw_entries _ Hw) Hi) as He.
  rewrite strncpy_id by apply (ew_id _ _ He). unfold gossip_mark_node_failed.
  rewrite (find_lookup s i e (gw_ids _ Hw) Hi).
  assert (Hst : me_status e = GOSSIP_NODE_SUSPECTED).
  { revert Hx. unfold suspicion_expired. by destruct (Z.eqb_spec (me_status e) GOSSIP_NODE_SUSPECTED). }
  destruct (me_local_node e) eqn:Hloc; [by destruct (ew_self _ _ He)|]. rewrite Hst. simpl.
  unfold gossip_call, failure_events. simpl. rewrite Hx.
  destruct (on_failed (gs_callbacks s)); [done|]. rewrite app_nil_r. done.
Qed.

Lemma filter_not_expired now timeout es :
  Forall (λ e, suspicion_expired now timeout e = false) es →
  List.filter (suspicion_expired now timeout) es = [].
Proof. induction 1 as [|e es He _ IH]; simpl; [done|]. by rewrite He. Qed.

(** The events of [es1 ++ e :: es2], one failure at a time. *)
Lemma failure_events_split s now timeout es1 e es2 :
  Forall (λ e, suspicion_expired now timeout e = false) es1 → suspicion_expired now timeout e = true →
  failure_events s now timeout (es1 ++ e :: es2) =
    failure_events s now timeout [e] ++
    failure_events s now timeout (es1 ++ fail_entry (gs_config s) e :: es2).
Proof.
  intros H1 He. unfold failure_events. destruct (on_failed _); [|done].
  rewrite !List.filter_app, filter_not_expired by done. simpl. by rewrite He.
Qed.

Lemma map_fail_idem c now timeout es1 e es2 :
  suspicion_expired now timeout e = true →
  map (fail_expired c now timeout) (es1 ++ fail_entry c e :: es2) =
  map (fail_expired c now timeout) (es1 ++ e :: es2).
Proof.
  intros He. rewrite !map_app. simpl. f_equal. f_equal.
  unfold fail_expired. by rewrite He.
Qed.

Definition expired_count (now timeout : Z) (s : gossip_state) : nat :=
  length (List.filter (suspicion_expired now timeout) (gs_membership s)).

Lemma suspicion_loop_spec now timeout fuel : ∀ i s,
  gossip_wf s →
  Forall (λ e, suspicion_expired now timeout e = false) (take i (gs_membership s)) →
  (expired_count now timeout s * S (length (gs_membership s)) + (length (gs_membership s) - i) < fuel)%nat →
  suspicion_loop fuel now timeout i s = Some (fail_all_expired now timeout s).
Proof.
  induction fuel as [|fuel IH]; intros i s Hw Hpre Hfuel; [lia|]. cbn [suspicion_loop].
  destruct (gs_membership s !! i) as [e|] eqn:Hi.
  - pose proof (take_drop_middle _ _ _ Hi) as Hsplit. pose proof (lookup_lt_Some _ _ _ Hi) as Hlt.
    destruct (suspicion_expired now timeout e) eqn:He.
    + rewrite (mark_failed_expired s now timeout i e) by done.
      set (s1 := set_membership_events _ _ s).
      assert (Hw1 : gossip_wf s1).
      { destruct (mark_failed_step s (strncpy 63 (me_id e)) Hw) as [Hw1 _].
        by rewrite (mark_failed_expired s now timeout i e) in Hw1. }
      assert (Hm1 : gs_membership s1 =
        take i (gs_membership s) ++ fail_entry (gs_config s) e :: drop (S i) (gs_membership s))
        by (simpl; by apply insert_take_drop).
      assert (Hlen : length (gs_membership s1) = length (gs_membership s))
        by (simpl; apply length_insert).
      destruct (Nat.eqb_spec (length (gs_membership s1)) 0); [lia|].
      rewrite IH; [|done| |].
      * f_equal. unfold fail_all_expired. rewrite Hm1. simpl gs_config. simpl gs_events.
        unfold set_membership_events. simpl. f_equal.
        -- rewrite map_fail_idem by done. by rewrite Hsplit.
        -- rewrite <- app_assoc. f_equal. change (failure_events s1) with (failure_events s).
           rewrite <- (failure_events_split s now timeout) by done. by rewrite Hsplit.
      * rewrite Hm1. destruct i as [|i].
        -- simpl. constructor; [done|constructor].
        -- destruct (gs_membership s) as [|x l] eqn:Hl; [done|]. simpl in Hpre |- *.
           apply Forall_cons_iff in Hpre as [Hx _]. by repeat constructor.
      * rewrite Hlen. clear IH. unfold expired_count in *. rewrite Hm1. rewrite <- Hsplit in Hfuel at 1.
        rewrite !List.filter_app, !length_app in *. simpl in *. rewrite He in Hfuel. simpl in Hfuel. nia.
    + apply IH; [done| |lia].
      rewrite (take_S_r _ _ _ Hi). apply Forall_app_2; [done|]. by repeat constructor.
  - apply lookup_ge_None in Hi. rewrite take_ge in Hpre by done. f_equal.
    unfold fail_all_expired, failure_events. rewrite filter_not_expired by done. simpl.
    replace (map (fail_expired (gs_config s) now timeout) (gs_membership s)) with (gs_membership s).
    + destruct (on_failed _); by rewrite app_nil_r; destruct s.
    + clear Hw Hfuel Hi. induction Hpre as [|e es He _ IHes]; [done|]. simpl.
      unfold fail_expired at 1. by rewrite He, <- IHes.
Qed.
