(* ===== verification/GossipSpec.v ===== *)
(** * Gossip: what the membership list guarantees

    Failure detection, the convergence of what the nodes know of each other,
    refutation and dissemination, on the model of [GossipMembership.v]. *)

From Stdlib Require Import ZArith Lia.
From stdpp Require Import base list numbers option sets.
From S2P Require Import Prelude CString GossipMembership.

Local Open Scope Z_scope.

(** ** Failure detection *)

Section suspicion.
Variable clock : nat → Z.

Lemma suspicion_check s :
  gossip_wf s →
  gossip_check_suspicion_timeouts clock s =
    Some (fail_all_expired (u64 (clock (gs_ticks s))) (suspicion_timeout s) (gs_tick s)).
Proof.
  intros Hw. unfold gossip_check_suspicion_timeouts, get_time_ms. cbv beta iota.
  apply suspicion_loop_spec; [by apply tick_step|constructor|].
  unfold suspicion_fuel, expired_count. simpl.
  pose proof (List.filter_length_le (suspicion_expired (u64 (clock (gs_ticks s))) (suspicion_timeout s))
    (gs_membership s)). nia.
Qed.

(** The check of the suspicion timeouts ends, although it restarts its scan
    after every node it fails, and does what a single pass would: exactly the
    suspected entries whose age, in the arithmetic of [uint64_t], has reached
    [protocol_period_ms * suspicion_mult] become failed and are announced, the
    callback is told of each of them once and in order, and nothing else changes. *)
Theorem check_suspicion_timeouts_spec s :
  gossip_wf s →
  gossip_check_suspicion_timeouts clock s =
    Some (fail_all_expired (u64 (clock (gs_ticks s))) (suspicion_timeout s) (gs_tick s)).
Proof. apply suspicion_check. Qed.
End suspicion.

(** ** Views: what a node knows of another *)

Definition view_of (e : membership_entry) : Z * Z := (me_status e, me_incarnation e).
Definition view (s : gossip_state) (id : list Z) : option (Z * Z) := view_of <$> lookup_entry s id.

Definition info_view (i : gossip_node_info) : Z * Z := (gi_status i, gi_incarnation i).

(** The rule of [membership_update] on what is known. *)
Definition merge_view (c : option (Z * Z)) (v : Z * Z) : Z * Z :=
  match c with
  | None => v
  | Some c =>
      if c.2 <? v.2 then v
      else if v.2 =? c.2 then
        if (v.1 =? GOSSIP_NODE_ALIVE) && negb (c.1 =? GOSSIP_NODE_ALIVE) then v
        else if (v.1 =? GOSSIP_NODE_SUSPECTED) && (c.1 =? GOSSIP_NODE_FAILED) then v else c
      else c
  end.

Lemma should_update_merge e i :
  merge_view (Some (view_of e)) (info_view i) =
    if should_update (me_info e) i then info_view i else view_of e.
Proof.
  unfold should_update, view_of, info_view, me_status, me_incarnation. simpl. rewrite Z.gtb_ltb.
  destruct (_ <? _); [done|]. destruct (_ =? _); [|done]. by destruct (_ && negb _).
Qed.

Section views.
Variable clock : nat → Z.
Implicit Types (s : gossip_state).

Lemma view_set_entry s i e e' id :
  gossip_wf s → gs_membership s !! i = Some e → me_id e' = me_id e →
  view (set_entry i e' s) id = if decide (id = me_id e) then Some (view_of e') else view s id.
Proof.
  intros Hw He Hid. unfold view. rewrite (lookup_set_entry s i e e') by (done || apply Hw).
  by destruct (decide _).
Qed.

Lemma view_add s info id :
  membership_find s (gi_node_id info) = None →
  view (membership_add clock s info) id =
    if decide (id = gi_node_id info) then Some (info_view info) else view s id.
Proof.
  intros Hf. unfold view. rewrite lookup_membership_add by done. by destruct (decide _).
Qed.

Lemma view_found s i e : membership_find s (me_id e) = Some (i, e) → view s (me_id e) = Some (view_of e).
Proof. intros Hf. unfold view. by rewrite (lookup_entry_find _ _ _ _ Hf). Qed.

Lemma view_update s info id :
  gossip_wf s → is_Some (membership_find s (gi_node_id info)) →
  view (membership_update clock s info) id =
    if decide (id = gi_node_id info) then Some (merge_view (view s id) (info_view info))
    else view s id.
Proof.
  intros Hw [[i e] Hf]. unfold membership_update. rewrite Hf.
  apply membership_find_Some in Hf as Hfe. destruct Hfe as [Hi Hid]. rewrite <- Hid in Hf |- *.
  pose proof (view_found _ _ _ Hf) as Hv.
  assert (Hset : ∀ s1 e', gs_membership s1 = gs_membership s → gossip_wf s1 → me_id e' = me_id e →
    view_of e' = info_view info → view (set_entry i e' s1) id =
      if decide (id = me_id e) then Some (info_view info) else view s id).
  { intros s1 e' Hm Hw1 Hid' Hve. rewrite (view_set_entry s1 i e e'); [|done|by rewrite Hm|done].
    rewrite Hve. unfold view, lookup_entry, membership_find. by rewrite Hm. }
  destruct (should_update (me_info e) info) eqn:Hsu; simpl.
  - assert (Hres : ∀ s1 e', gs_membership s1 = gs_membership s → gossip_wf s1 → me_id e' = me_id e →
      view_of e' = info_view info → view (set_entry i e' s1) id =
      if decide (id = me_id e) then Some (merge_view (view s id) (info_view info)) else view s id).
    { intros s1 e' ? ? ? ?. rewrite Hset by done. destruct (decide (id = me_id e)) as [->|]; [|done].
      by rewrite Hv, should_update_merge, Hsu. }
    destruct (_ && negb _); apply Hres; try done; try (unfold me_id in *; simpl; done).
    + apply tick_step, tick_step, Hw.
    + apply tick_step, Hw.
  - destruct (decide (id = me_id e)) as [->|]; [|done].
    by rewrite Hv, should_update_merge, Hsu.
Qed.

Lemma view_refute s id n :
  gossip_wf s → is_u64 n → id ≠ gc_node_id (gs_config s) →
  let s1 := gs_set_incarnation n s in
  view (match membership_find s1 (gc_node_id (gs_config s1)) with
        | Some (i, self) => set_entry i (me_refute s1 self) s1
        | None => s1
        end) id = view s id.
Proof.
  intros Hw Hn Hne s1. assert (Hw1 : gossip_wf s1) by by apply incarnate_step.
  destruct (membership_find s1 _) as [[i e]|] eqn:Hf; [|done].
  apply membership_find_Some in Hf as [Hi Hid]. rewrite (view_set_entry s1 i e) by done.
  rewrite decide_False; [done|]. rewrite Hid. done.
Qed.

Lemma view_apply_update s u id :
  gossip_wf s → info_ok u → id ≠ gc_node_id (gs_config s) →
  view (apply_update clock s u) id =
    if decide (id = gi_node_id u) then Some (merge_view (view s id) (info_view u)) else view s id.
Proof.
  intros Hw Hok Hne. unfold apply_update.
  destruct (streq_spec (gi_node_id u) (gc_node_id (gs_config s))) as [Heq|Hneq].
  - rewrite decide_False by congruence. destruct (negb _); [|done].
    apply view_refute; [done|apply u64_range|done].
  - destruct (membership_find s (gi_node_id u)) as [[i e]|] eqn:Hf; [by apply view_update|].
    rewrite view_add by done. destruct (decide (id = gi_node_id u)) as [->|]; [|done].
    unfold view, lookup_entry. by rewrite Hf.
Qed.

(** What a message says of its sender changes no entry of another node. *)
Lemma lookup_update_sender s msg addr port id :
  gossip_wf s → message_ok msg → id ≠ gm_sender_id msg →
  let s' := update_sender clock s msg addr port in
  lookup_entry s' id = lookup_entry s id ∧ gs_self_incarnation s' = gs_self_incarnation s.
Proof.
  intros Hw (Hid & _) Hne. unfold update_sender.
  destruct (membership_find s (gm_sender_id msg)) as [[i e]|] eqn:Hf.
  - destruct (_ >=? _); [|done]. simpl. apply membership_find_Some in Hf as [Hi Hide].
    split; [|done].
    match goal with |- lookup_entry (set_entry i ?e' ?s') _ = _ =>
      rewrite (lookup_set_entry s' i e e'); [|apply Hw|done|by case_match] end.
    by rewrite decide_False by congruence.
  - rewrite (strncpy_id 63) by apply Hid.
    match goal with |- context [membership_add clock s ?info] =>
      assert (Hadd : lookup_entry (membership_add clock s info) id = lookup_entry s id)
        by (by rewrite lookup_membership_add, decide_False by done) end.
    case_match; [|done]. unfold gossip_call. by destruct (on_joined _).
Qed.

Lemma view_update_sender s msg addr port id :
  gossip_wf s → message_ok msg → id ≠ gm_sender_id msg →
  view (update_sender clock s msg addr port) id = view s id.
Proof.
  intros Hw Hok Hne. unfold view. by destruct (lookup_update_sender s msg addr port id Hw Hok Hne) as [-> _].
Qed.
End views.

(** ** Convergence *)

Definition swim_status (st : Z) : Prop :=
  st = GOSSIP_NODE_ALIVE ∨ st = GOSSIP_NODE_SUSPECTED ∨ st = GOSSIP_NODE_FAILED.

(** The order of what can be known: by incarnation, then alive over suspected
    over failed. *)
Definition rank (v : Z * Z) : Z := v.2 * 4 + get_state_priority v.1.

Lemma rank_inj v w : swim_status v.1 → swim_status w.1 → rank v = rank w → v = w.
Proof.
  destruct v as [a i], w as [b j]. unfold rank. simpl.
  intros [-> | [-> | ->]] [-> | [-> | ->]]; unfold get_state_priority; simpl; intros; f_equal; lia.
Qed.

Lemma merge_view_rank c v :
  swim_status c.1 → swim_status v.1 →
  merge_view (Some c) v = if rank c <? rank v then v else c.
Proof.
  destruct v as [a i], c as [b j]. unfold rank, merge_view. simpl.
  intros [-> | [-> | ->]] [-> | [-> | ->]]; unfold get_state_priority; simpl;
    destruct (Z.ltb_spec j i), (Z.eqb_spec i j), (Z.ltb_spec (j * 4 + 3) (i * 4 + 3)); try lia; simpl;
    repeat match goal with |- context [?a <? ?b] => destruct (Z.ltb_spec a b); try lia end; try done;
    subst; done.
Qed.

(** Merging a list of views: one of them, of the largest rank. *)
Lemma merge_fold_max vs : ∀ c r,
  (∀ v, c = Some v → swim_status v.1) → Forall (λ v, swim_status v.1) vs →
  fold_left (λ c v, Some (merge_view c v)) vs c = Some r →
  r ∈ option_list c ++ vs ∧ ∀ v, v ∈ option_list c ++ vs → rank v ≤ rank r.
Proof.
  induction vs as [|v vs IH]; intros c r Hc Hvs; simpl.
  - intros ->. simpl. split; [by apply list_elem_of_singleton|].
    by intros v ->%list_elem_of_singleton.
  - apply Forall_cons_iff in Hvs as [Hv Hvs]. intros Hfold.
    destruct c as [c|].
    + specialize (Hc c eq_refl). rewrite (merge_view_rank c v Hc Hv) in Hfold.
      destruct (Z.ltb_spec (rank c) (rank v)) as [Hlt|Hge].
      * destruct (IH (Some v) r) as [Hin Hmax]; [by intros ? [= <-]|done|done|]. simpl in *.
        split; [set_solver|]. intros w. rewrite !elem_of_cons. intros [-> |Hw]; [|set_solver].
        pose proof (Hmax v ltac:(set_solver)). lia.
      * destruct (IH (Some c) r) as [Hin Hmax]; [by intros ? [= <-]|done|done|]. simpl in *.
        split; [set_solver|]. intros w. rewrite !elem_of_cons. intros [-> |[-> |Hw]]; [set_solver| |set_solver].
        pose proof (Hmax c ltac:(set_solver)). lia.
    + destruct (IH (Some v) r) as [Hin Hmax]; [by intros ? [= <-]|done|done|]. by simpl in *.
Qed.

Lemma merge_fold_ext c1 vs1 c2 vs2 :
  (∀ v, v ∈ option_list c1 ++ vs1 → swim_status v.1) →
  (∀ v, v ∈ option_list c1 ++ vs1 ↔ v ∈ option_list c2 ++ vs2) →
  fold_left (λ c v, Some (merge_view c v)) vs1 c1 = fold_left (λ c v, Some (merge_view c v)) vs2 c2.
Proof.
  intros Hs1 Heq.
  assert (Hs2 : ∀ v, v ∈ option_list c2 ++ vs2 → swim_status v.1) by (intros v Hv; by apply Hs1, Heq).
  assert (Hsplit : ∀ (c : option (Z * Z)) (vs : list (Z * Z)), (∀ v, v ∈ option_list c ++ vs → swim_status v.1) →
    (∀ v, c = Some v → swim_status v.1) ∧ Forall (λ v, swim_status v.1) vs).
  { intros c vs Hs. split; [intros v ->; apply Hs; set_solver|].
    apply list.Forall_forall. intros v Hv. apply Hs. set_solver. }
  assert (Hsome : ∀ (vs : list (Z * Z)) c, fold_left (λ c v, Some (merge_view c v)) vs (Some c) ≠ None).
  { induction vs as [|v vs IH]; intros c; simpl; [done|apply IH]. }
  assert (Hnone : ∀ (c : option (Z * Z)) (vs : list (Z * Z)),
    fold_left (λ c v, Some (merge_view c v)) vs c = None → option_list c ++ vs = []).
  { intros c [|v vs] Hf; simpl in Hf; [by subst|by apply Hsome in Hf]. }
  destruct (Hsplit _ _ Hs1) as [Hc1 Hv1], (Hsplit _ _ Hs2) as [Hc2 Hv2].
  destruct (fold_left _ vs1 c1) as [r1|] eqn:H1, (fold_left _ vs2 c2) as [r2|] eqn:H2; [|exfalso..|done].
  - apply merge_fold_max in H1 as [Hin1 Hmax1]; [|done..].
    apply merge_fold_max in H2 as [Hin2 Hmax2]; [|done..]. f_equal.
    apply rank_inj; [by apply Hs1|by apply Hs2|].
    pose proof (Hmax1 r2 ltac:(by apply Heq)). pose proof (Hmax2 r1 ltac:(by apply Heq)). lia.
  - apply Hnone in H2. apply merge_fold_max in H1 as [Hin1 _]; [|done..].
    apply Heq in Hin1. rewrite H2 in Hin1. by apply elem_of_nil in Hin1.
  - apply Hnone in H1. apply merge_fold_max in H2 as [Hin2 _]; [|done..].
    apply Heq in Hin2. rewrite H1 in Hin2. by apply elem_of_nil in Hin2.
Qed.

(** The messages a node receives, with the address and the port of their
    sender. *)
Definition received : Type := gossip_message * (list Z * Z).
Definition receive (clock : nat → Z) (s : gossip_state) (m : received) : gossip_state :=
  gossip_update_node_from_message clock s m.1 m.2.1 m.2.2.

(** What the updates of a list of messages say of a node. *)
Definition said_of (id : list Z) (ms : list received) : list (Z * Z) :=
  info_view <$> filter (λ u, gi_node_id u = id) (ms ≫= λ m, gm_updates m.1).

Section convergence.
Variable clock : nat → Z.

Lemma view_apply_updates us s id :
  gossip_wf s → Forall info_ok us → id ≠ gc_node_id (gs_config s) →
  view (fold_left (apply_update clock) us s) id =
    fold_left (λ c v, Some (merge_view c v)) (info_view <$> filter (λ u, gi_node_id u = id) us)
      (view s id).
Proof.
  intros Hw Hus. revert s Hw. induction Hus as [|u us Hu Hus IH]; intros s Hw Hne; simpl; [done|].
  destruct (apply_update_step clock s u Hw Hu) as [Hw1 [Hc1 _]].
  rewrite IH by (done || by rewrite Hc1). rewrite view_apply_update by done. rewrite filter_cons.
  destruct (decide (id = gi_node_id u)), (decide (gi_node_id u = id)); simpl; done || congruence.
Qed.

Lemma view_receive ms s id :
  gossip_wf s → Forall (λ m, message_ok m.1 ∧ gm_sender_id m.1 ≠ id) ms →
  id ≠ gc_node_id (gs_config s) →
  gossip_wf (fold_left (receive clock) ms s) ∧
  view (fold_left (receive clock) ms s) id =
    fold_left (λ c v, Some (merge_view c v)) (said_of id ms) (view s id).
Proof.
  intros Hw Hms. revert s Hw. induction Hms as [|m ms [Hm Hsend] Hms IH]; intros s Hw Hne; simpl; [done|].
  destruct (update_node_from_message_step clock s m.1 m.2.1 m.2.2 Hw Hm) as [Hw1 [Hc1 _]].
  fold (receive clock s m) in Hw1, Hc1.
  destruct (IH (receive clock s m) Hw1) as [Hw2 ->]; [by rewrite Hc1|]. split; [done|].
  unfold said_of. simpl. rewrite list.filter_app, fmap_app, fold_left_app. f_equal.
  unfold receive, gossip_update_node_from_message.
  destruct (update_sender_step clock s m.1 m.2.1 m.2.2 Hw Hm) as [Hws [Hcs _]].
  rewrite view_apply_updates; [|done|apply Hm|by rewrite Hcs].
  by rewrite view_update_sender.
Qed.

(** C16: the nodes agree on a third one when they have heard the same of it from
    others: if what two nodes knew of [id] and the updates about it in the messages they
    received are the same set, in whatever order, however often, and in whichever
    messages they came, then both have it in the same status and incarnation, as
    long as nothing in the set says that it left and none of the messages is from
    [id] itself. *)
Theorem gossip_converges s1 s2 ms1 ms2 id :
  gossip_wf s1 → gossip_wf s2 →
  id ≠ gc_node_id (gs_config s1) → id ≠ gc_node_id (gs_config s2) →
  Forall (λ m, message_ok m.1 ∧ gm_sender_id m.1 ≠ id) (ms1 ++ ms2) →
  (∀ v, v ∈ option_list (view s1 id) ++ said_of id ms1 → swim_status v.1) →
  (∀ v, v ∈ option_list (view s1 id) ++ said_of id ms1 ↔
        v ∈ option_list (view s2 id) ++ said_of id ms2) →
  view (fold_left (receive clock) ms1 s1) id = view (fold_left (receive clock) ms2 s2) id.
Proof.
  intros Hw1 Hw2 Hn1 Hn2 [Hms1 Hms2]%Forall_app Hs Heq.
  destruct (view_receive ms1 s1 id Hw1 Hms1 Hn1) as [_ ->].
  destruct (view_receive ms2 s2 id Hw2 Hms2 Hn2) as [_ ->].
  by apply merge_fold_ext.
Qed.
End convergence.

(** ** Two definitions of conflict resolution *)

Definition info_with (id : list Z) (st inc : Z) : gossip_node_info := NodeInfo id [] 1 st 1 inc 0 0.

(** [membership_update] and the documented rule of
    [gossip_should_apply_update] agree on every pair of statuses and incarnations
    but one kind: of a node that left, the documented rule accepts a suspicion or
    a failure of the same incarnation, and [membership_update] does not. *)
Theorem conflict_rules_agree c u :
  status_ok (gi_status c) → status_ok (gi_status u) →
  should_update c u ≠
      gossip_should_apply_update (gi_status c) (gi_incarnation c) (gi_status u) (gi_incarnation u) ↔
  gi_incarnation u = gi_incarnation c ∧ gi_status c = GOSSIP_NODE_LEFT ∧
    (gi_status u = GOSSIP_NODE_SUSPECTED ∨ gi_status u = GOSSIP_NODE_FAILED).
Proof.
  unfold status_ok, should_update, gossip_should_apply_update, gossip_compare_updates.
  intros Hc Hu. generalize dependent (gi_status c). generalize dependent (gi_status u).
  intros u' Hu c' Hc.
  destruct (Z.gtb_spec (gi_incarnation u) (gi_incarnation c)); [split; [done|lia]|].
  destruct (Z.eqb_spec (gi_incarnation u) (gi_incarnation c)) as [->|Hne].
  - rewrite Z.ltb_irrefl. unfold GOSSIP_NODE_LEFT, GOSSIP_NODE_SUSPECTED, GOSSIP_NODE_FAILED.
    assert (Hc' : c' = 0 ∨ c' = 1 ∨ c' = 2 ∨ c' = 3) by lia.
    assert (Hu' : u' = 0 ∨ u' = 1 ∨ u' = 2 ∨ u' = 3) by lia.
    destruct Hc' as [-> | [-> | [-> | ->]]], Hu' as [-> | [-> | [-> | ->]]]; vm_compute;
      (split; [intros Hd; first [by destruct Hd|tauto] | intros (_ & ? & [?|?]); done || (intros; discriminate)]).
  - destruct (Z.ltb_spec (gi_incarnation u) (gi_incarnation c)); [|lia].
    split; [done|lia].
Qed.

Lemma conflict_rules_agree_witness :
  should_update (info_with [98] GOSSIP_NODE_LEFT 3) (info_with [98] GOSSIP_NODE_FAILED 3) ≠
  gossip_should_apply_update GOSSIP_NODE_LEFT 3 GOSSIP_NODE_FAILED 3.
Proof.
  apply (conflict_rules_agree (info_with [98] GOSSIP_NODE_LEFT 3) (info_with [98] GOSSIP_NODE_FAILED 3));
    [split; vm_compute; discriminate..|].
  split; [reflexivity|]. split; [reflexivity|]. right. reflexivity.
Defined.

(** ** What gossip does not do *)

Section limits.
Variable clock : nat → Z.

(** A failure that one node has detected is not learnt by the others: while a
    node has [id] alive in incarnation [n], no message from another node changes
    that, whatever it says of [id] in incarnations up to [n]; and no node but [id]
    announces a larger one. *)
Theorem failure_not_disseminated s ms id n :
  gossip_wf s → id ≠ gc_node_id (gs_config s) →
  Forall (λ m, message_ok m.1 ∧ gm_sender_id m.1 ≠ id) ms →
  view s id = Some (GOSSIP_NODE_ALIVE, n) →
  (∀ v, v ∈ said_of id ms → v.2 ≤ n) →
  view (fold_left (receive clock) ms s) id = Some (GOSSIP_NODE_ALIVE, n).
Proof.
  intros Hw Hne Hms Hv Hsaid. destruct (view_receive clock ms s id Hw Hms Hne) as [_ ->]. rewrite Hv.
  revert Hsaid. generalize (said_of id ms). intros vs Hvs. induction vs as [|v vs IH]; [done|].
  change (fold_left ?f (v :: vs) ?c) with (fold_left f vs (f c v)). cbv beta.
  assert (merge_view (Some (GOSSIP_NODE_ALIVE, n)) v = (GOSSIP_NODE_ALIVE, n)) as ->.
  { pose proof (Hvs v ltac:(set_solver)). unfold merge_view. simpl.
    destruct (Z.ltb_spec n v.2); [lia|]. rewrite !andb_false_r. by destruct (_ =? _). }
  apply IH. set_solver.
Qed.

(** A node that is heard from is not revived: a message of a node that is
    known brings its incarnation up to date and leaves its status as it is, also
    when it was suspected or failed and the incarnation is a new one. *)
Theorem sender_not_revived s msg addr port e :
  gossip_wf s → lookup_entry s (gm_sender_id msg) = Some e →
  view (update_sender clock s msg addr port) (gm_sender_id msg) =
    Some (me_status e, Z.max (me_incarnation e) (gm_incarnation msg)).
Proof.
  intros Hw He. unfold update_sender. unfold lookup_entry in He.
  destruct (membership_find s (gm_sender_id msg)) as [[i x]|] eqn:Hf; [|done]. injection He as ->.
  apply membership_find_Some in Hf as Hfe. destruct Hfe as [Hi Hid].
  destruct (Z.geb_spec (gm_incarnation msg) (me_incarnation e)).
  - simpl. unfold me_incarnation at 1. simpl.
    destruct (Z.gtb_spec (gm_incarnation msg) (gm_incarnation msg)); [lia|].
    rewrite (view_set_entry (gs_tick s) i e) by (done || by apply tick_step).
    rewrite decide_True by done. unfold view_of, me_status, me_incarnation in *. simpl. do 2 f_equal. lia.
  - rewrite <- Hid in Hf |- *. rewrite (view_found s i e) by done. unfold view_of. do 2 f_equal. lia.
Qed.
End limits.

(** ** Refutation *)

Section refutation.
Variable clock : nat → Z.

(** The updates that say something else of the node than that it is alive. *)
Definition accuses (self : list Z) (u : gossip_node_info) : bool :=
  streq (gi_node_id u) self && negb (gi_status u =? GOSSIP_NODE_ALIVE).

Definition accusations (self : list Z) (us : list gossip_node_info) : nat :=
  length (List.filter (accuses self) us).

Lemma apply_update_self s u self :
  gossip_wf s → info_ok u → self = gc_node_id (gs_config s) →
  let s' := apply_update clock s u in
  gs_self_incarnation s' = (if accuses self u then u64 (gs_self_incarnation s + 1)
                            else gs_self_incarnation s) ∧
  lookup_entry s' self =
    (if accuses self u then me_refute s' <$> lookup_entry s self else lookup_entry s self).
Proof.
  intros Hw Hok ->. unfold apply_update, accuses.
  destruct (streq_spec (gi_node_id u) (gc_node_id (gs_config s))) as [Heq|Hne]; simpl.
  - destruct (negb _); [|done]. set (s1 := gs_set_incarnation (u64 (gs_self_incarnation s + 1)) s).
    assert (Hw1 : gossip_wf s1) by (by apply incarnate_step; [apply u64_range|]).
    change (membership_find s1) with (membership_find s).
    change (lookup_entry s) with (lookup_entry s1).
    destruct (membership_find s (gc_node_id (gs_config s))) as [[i e]|] eqn:Hf.
    + apply membership_find_Some in Hf as Hfe. destruct Hfe as [Hi Hid].
      split; [done|]. change (membership_find s) with (membership_find s1) in Hf.
      rewrite (lookup_set_entry s1 i e) by (done || apply Hw1).
      rewrite decide_True by done. by rewrite (lookup_entry_find _ _ _ _ Hf).
    + split; [done|]. unfold lookup_entry. change (membership_find s1) with (membership_find s).
      simpl gs_config. by rewrite Hf.
  - destruct (membership_find s (gi_node_id u)) as [[i e]|] eqn:Hf.
    + split.
      * unfold membership_update. rewrite Hf. destruct (should_update _ _); [|done]. simpl.
        by destruct (_ && negb _).
      * unfold membership_update. rewrite Hf. apply membership_find_Some in Hf as [Hi Hid].
        destruct (should_update _ _); [|done]. simpl.
        destruct (_ && negb _);
          match goal with |- lookup_entry (set_entry i ?e' ?s') _ = _ =>
            rewrite (lookup_set_entry s' i e e') by (done || apply Hw) end;
          by rewrite decide_False by congruence.
    + split; [done|]. rewrite lookup_membership_add by done. by rewrite decide_False by congruence.
Qed.

Lemma accusations_cons self u us :
  accusations self (u :: us) = ((if accuses self u then 1 else 0) + accusations self us)%nat.
Proof. unfold accusations. simpl. by destruct (accuses self u). Qed.

Lemma apply_updates_self us s e self :
  gossip_wf s → Forall info_ok us → self = gc_node_id (gs_config s) → lookup_entry s self = Some e →
  let s' := fold_left (apply_update clock) us s in
  gs_config s' = gs_config s ∧
  gs_self_incarnation s' = u64 (gs_self_incarnation s + Z.of_nat (accusations self us)) ∧
  lookup_entry s' self =
    Some (if (accusations self us =? 0)%nat then e else me_refute s' e).
Proof.
  intros Hw Hus. revert s e Hw. induction Hus as [|u us Hu Hus IH]; intros s e Hw Hself He.
  - simpl. split_and!; [done| |done]. rewrite Z.add_0_r. symmetry. apply u64_id, Hw.
  - pose proof (apply_update_self s u self Hw Hu Hself) as [Hinc Hl].
    destruct (apply_update_step clock s u Hw Hu) as [Hw1 [Hc1 _]].
    cbn [fold_left]. rewrite accusations_cons. set (s1 := apply_update clock s u) in *.
    destruct (accuses self u).
    + rewrite He in Hl. destruct (IH s1 _ Hw1 ltac:(congruence) Hl) as (Hc & Hi & ->).
      split_and!; [congruence| |].
      * rewrite Hi, Hinc. unfold u64. rewrite Zplus_mod_idemp_l. f_equal. lia.
      * f_equal. simpl. destruct (Nat.eqb_spec (accusations self us) 0) as [Hz|]; [|done].
        rewrite Hz in Hi. revert Hi. rewrite Z.add_0_r, u64_id by apply Hw1. intros Hi.
        unfold me_refute, me_announce. by rewrite Hi, Hc.
    + rewrite He in Hl. destruct (IH s1 _ Hw1 ltac:(congruence) Hl) as (Hc & Hi & ->).
      split_and!; [congruence| |done]. rewrite Hi, Hinc. done.
Qed.

(** A node refutes what is said of it: after a message with [n] updates that
    call it anything but alive its incarnation has grown by [n], its own entry is
    alive in that incarnation and is announced again; a peer that takes this entry
    over has it alive if its incarnation for it is not a larger one, and keeps
    thinking what it thought otherwise. *)
Theorem accusations_refuted s msg addr port e peer st i :
  gossip_wf s → message_ok msg → gm_sender_id msg ≠ gc_node_id (gs_config s) →
  lookup_entry s (gc_node_id (gs_config s)) = Some e →
  gossip_wf peer → gc_node_id (gs_config s) ≠ gc_node_id (gs_config peer) →
  view peer (gc_node_id (gs_config s)) = Some (st, i) → st ≠ GOSSIP_NODE_ALIVE →
  let self := gc_node_id (gs_config s) in
  let n := accusations self (gm_updates msg) in
  let s' := gossip_update_node_from_message clock s msg addr port in
  gs_self_incarnation s' = u64 (gs_self_incarnation s + Z.of_nat n) ∧
  (n = 0%nat → lookup_entry s' self = Some e) ∧
  ((0 < n)%nat → ∃ e', lookup_entry s' self = Some e' ∧
     view_of e' = (GOSSIP_NODE_ALIVE, gs_self_incarnation s') ∧
     me_transmit_count e' = gc_max_transmissions (gs_config s) ∧
     view (apply_update clock peer (me_info e')) self =
       Some (if i <=? gs_self_incarnation s' then view_of e' else (st, i))).
Proof.
  intros Hw Hok Hsend He Hwp Hpeer Hview Hst self n s'. subst s'. unfold gossip_update_node_from_message.
  destruct (update_sender_step clock s msg addr port Hw Hok) as [Hw1 [Hc1 _]].
  set (s1 := update_sender clock s msg addr port) in *.
  destruct (lookup_update_sender clock s msg addr port self Hw Hok ltac:(by apply not_eq_sym)) as [He1 Hi1].
  fold s1 in He1, Hi1. change (lookup_entry s self = Some e) in He. rewrite He in He1.
  destruct (apply_updates_self (gm_updates msg) s1 e self Hw1 ltac:(apply Hok) ltac:(unfold self; by rewrite Hc1) He1)
    as (Hc2 & Hi2 & Hl2). fold n in Hi2, Hl2. rewrite Hi1 in Hi2.
  split; [done|]. split; [intros Hn; by rewrite Hn in Hl2|]. intros Hn.
  destruct (Nat.eqb_spec n 0); [lia|]. eexists. split; [exact Hl2|].
  assert (Hid : me_id e = self) by by apply lookup_entry_elem in He1 as [_ ?].
  split; [done|]. split; [simpl; congruence|].
  assert (Hoki : info_ok (me_info (me_refute (fold_left (apply_update clock) (gm_updates msg) s1) e))).
  { split; [|simpl; rewrite Hi2; apply u64_range].
    unfold me_refute, me_announce. simpl. exact (ew_id _ _ (lookup_entry_wf _ _ _ Hw1 He1)). }
  rewrite (view_apply_update clock peer _ self Hwp Hoki Hpeer).
  rewrite decide_True by (simpl; symmetry; exact Hid).
  change (view peer self = Some (st, i)) in Hview. rewrite Hview. unfold merge_view, info_view, view_of, me_status, me_incarnation. simpl.
  generalize (gs_self_incarnation (fold_left (apply_update clock) (gm_updates msg) s1)). intros k.
  destruct (Z.leb_spec i k), (Z.ltb_spec i k), (Z.eqb_spec k i); try lia; try done.
  by destruct (Z.eqb_spec st GOSSIP_NODE_ALIVE).
Qed.
End refutation.

(** ** Dissemination *)

Definition pending (e : membership_entry) : Prop := 0 < me_transmit_count e.

(** The transmissions an entry has left. *)
Definition budget (e : membership_entry) : list gossip_node_info :=
  replicate (Z.to_nat (me_transmit_count e)) (me_info e).
Definition remaining (s : gossip_state) : list gossip_node_info := gs_membership s ≫= budget.

Lemma collect_updates_spec es : ∀ n,
  let '(us, es') := collect_updates n es in
  us = me_info <$> take n (filter pending es) ∧
  me_info <$> es' = me_info <$> es ∧ (us ++ (es' ≫= budget)) ≡ₚ (es ≫= budget) ∧
  Forall2 (λ e e', e' = e ∨ pending e ∧ e' = me_set_transmit (me_transmit_count e - 1) e) es es'.
Proof.
  induction es as [|e es IH]; intros n; [by destruct n|].
  cbn [collect_updates]. destruct n as [|n].
  { split_and!; [done|done|done|]. apply Forall2_same_length_lookup_2; [done|]. intros ? ? ? ?. left. congruence. }
  rewrite filter_cons.
  destruct (Z.gtb_spec (me_transmit_count e) 0) as [Hp|Hp].
  - rewrite decide_True by (unfold pending; lia). specialize (IH n). destruct (collect_updates n es) as [us es'].
    destruct IH as (-> & Hinfo & Hperm & Hall). split_and!.
    + done.
    + simpl. by f_equal.
    + rewrite !bind_cons. unfold budget at 1 3. simpl me_transmit_count. simpl me_info.
      replace (Z.to_nat (me_transmit_count e)) with (S (Z.to_nat (me_transmit_count e - 1))) by lia.
      simpl. constructor. rewrite <- Hperm. rewrite !app_assoc. apply Permutation_app_tail, Permutation_app_comm.
    + constructor; [right; split; [unfold pending; lia|done]|done].
  - rewrite decide_False by (unfold pending; lia). specialize (IH (S n)). destruct (collect_updates (S n) es) as [us es'].
    destruct IH as (-> & Hinfo & Hperm & Hall). split_and!.
    + done.
    + simpl. by f_equal.
    + rewrite !bind_cons. unfold budget at 1 3. replace (Z.to_nat (me_transmit_count e)) with 0%nat by lia.
      done.
    + constructor; [by left|done].
Qed.

(** [k] messages in a row, and all the updates they carry. *)
Fixpoint broadcasts (k : nat) (s : gossip_state) : list gossip_node_info * gossip_state :=
  match k with
  | O => ([], s)
  | S k =>
      let '(us, s) := gossip_get_updates_to_broadcast s in
      let '(us', s) := broadcasts k s in (us ++ us', s)
  end.

Lemma get_updates_spec s :
  let '(us, s') := gossip_get_updates_to_broadcast s in
  us = me_info <$> take 10 (filter pending (gs_membership s)) ∧
  (us ++ remaining s') ≡ₚ remaining s ∧
  s' = gs_set_membership (gs_membership s') s ∧
  Forall2 (λ e e', e' = e ∨ pending e ∧ e' = me_set_transmit (me_transmit_count e - 1) e)
    (gs_membership s) (gs_membership s').
Proof.
  unfold gossip_get_updates_to_broadcast, broadcast_count.
  set (p := filter _ (gs_membership s)).
  change (filter pending (gs_membership s)) with p.
  destruct (Nat.eqb_spec (length p `min` 10) 0) as [Hz|Hz].
  - assert (p = []) as Hnil by (apply nil_length_inv; lia). rewrite Hnil. split_and!; [done|done|by destruct s|].
    apply Forall2_same_length_lookup_2; [done|]. intros ? ? ? ?. left. congruence.
  - pose proof (collect_updates_spec (gs_membership s) (length p `min` 10)) as Hc.
    destruct (collect_updates _ _) as [us es]. destruct Hc as (-> & _ & Hperm & Hall).
    split_and!; try done. f_equal.
    change (filter pending (gs_membership s)) with p.
    destruct (Nat.le_gt_cases (length p) 10); [rewrite !take_ge by lia; done|]. by rewrite Nat.min_r by lia.
Qed.

(** A change is announced as often as it is meant to be: a message carries the
    first ten entries with transmissions left, in their order, each of which loses
    one, and when the node has sent enough messages for what is left, the updates
    in them are, up to their order, every entry as many times as its count says,
    and none is left. *)
Theorem announcements_sent s k :
  (length (remaining s) ≤ k)%nat →
  let '(us, s') := gossip_get_updates_to_broadcast s in
  us = me_info <$> take 10 (filter pending (gs_membership s)) ∧
  Forall2 (λ e e', e' = e ∨ pending e ∧ e' = me_set_transmit (me_transmit_count e - 1) e)
    (gs_membership s) (gs_membership s') ∧
  (broadcasts k s).1 ≡ₚ remaining s ∧ remaining (broadcasts k s).2 = [].
Proof.
  intros Hk. pose proof (get_updates_spec s) as Hg. destruct (gossip_get_updates_to_broadcast s) as [us s'].
  destruct Hg as (Hus & _ & _ & Hall). split; [done|]. split; [done|]. clear us s' Hus Hall.
  revert s Hk. induction k as [|k IH]; intros s Hk; simpl.
  - assert (remaining s = []) as -> by (apply nil_length_inv; lia). done.
  - pose proof (get_updates_spec s) as Hg. destruct (gossip_get_updates_to_broadcast s) as [us s1].
    destruct Hg as (Hus & Hperm & _ & _).
    assert (Hlen : (length (remaining s1) ≤ k)%nat).
    { apply Permutation_length in Hperm. rewrite length_app in Hperm.
      destruct (decide (remaining s = [])) as [Hnil|Hne]; [rewrite Hnil in Hperm; simpl in Hperm; lia|].
      assert (us ≠ []); [|destruct us; [done|simpl in Hperm; lia]].
      intros Hnil. apply Hne. rewrite Hnil in Hus. symmetry in Hus. apply fmap_nil_inv in Hus.
      unfold remaining. destruct (filter pending (gs_membership s)) as [|x l] eqn:Hf; [|done].
      clear Hperm Hk Hne Hnil Hus. induction (gs_membership s) as [|e es IHes]; [done|].
      rewrite filter_cons in Hf. destruct (decide (pending e)) as [|Hnp]; [done|].
      rewrite bind_cons, (IHes Hf). unfold budget, pending in *.
      by replace (Z.to_nat (me_transmit_count e)) with 0%nat by lia. }
    destruct (IH s1 Hlen) as [Hp Hr]. destruct (broadcasts k s1) as [us' s2]. simpl in *.
    split; [|done]. by rewrite Hp.
Qed.

(** ** Examples *)

Definition example_clock (n : nat) : Z := 1000 * Z.of_nat n.

Definition example_gossip_config (id : list Z) : gossip_config :=
  GossipConfig id [] 7000 GOSSIP_ROLE_WORKER 1000 500 3 3 3 [].

(** A node [id] that knows others. *)
Definition gossip_node (id : list Z) (others : list (list Z * Z * Z)) : gossip_state :=
  GossipState (example_gossip_config id)
    (MembershipEntry (info_with id GOSSIP_NODE_ALIVE 0) 0 3 true ::
     map (λ '(o, st, inc), MembershipEntry (info_with o st inc) 0 0 false) others)
    0 0 0 true (GossipCallbacks true true true true) [] 10.

(** Of a node that left the others may never agree: a departure and a failure
    of the same incarnation are incomparable for [membership_update], so two nodes
    that receive the same two updates in different orders keep different statuses,
    and repeating the updates changes nothing. *)
Theorem departures_diverge :
  let left := info_with [99] GOSSIP_NODE_LEFT 1 in
  let failed := info_with [99] GOSSIP_NODE_FAILED 1 in
  let hear us s := fold_left (receive example_clock)
    (map (λ u, (GossipMessage GOSSIP_MSG_MEMBERSHIP [98] 0 0 [u], ([49], 7000))) us) s in
  view (hear [left; failed] (gossip_node [97] [])) [99] = Some (GOSSIP_NODE_LEFT, 1) ∧
  view (hear [failed; left] (gossip_node [97] [])) [99] = Some (GOSSIP_NODE_FAILED, 1) ∧
  view (hear [left; failed; left; failed; failed; left] (gossip_node [97] [])) [99] = Some (GOSSIP_NODE_LEFT, 1).
Proof. vm_compute. split_and!; reflexivity. Qed.

Lemma gossip_node_wf id others :
  NoDup (id :: (map (λ o, o.1.1) others)) → node_id_ok id →
  Forall (λ o, node_id_ok o.1.1 ∧ is_u64 o.2) others → gossip_wf (gossip_node id others).
Proof.
  intros Hnd Hid Ho. apply list.NoDup_cons in Hnd as [Hnin Hnd]. split; simpl.
  - apply list.NoDup_cons. rewrite <- list_fmap_compose.
    assert (Hids : ∀ l, (me_id ∘ (λ '(o, st, inc), MembershipEntry (info_with o st inc) 0 0 false)) <$> l =
      map (λ o : list Z * Z * Z, o.1.1) l); [|by rewrite Hids].
    induction l as [|[[o st] inc] l IH]; simpl; [done|]. by f_equal.
  - apply Forall_cons_2.
    + split; unfold me_id; simpl; try done; try lia. by destruct (streq_spec id id).
    + clear Hnd. induction Ho as [|[[o st] inc] others [Hoid Hinc] Ho IH]; [constructor|].
      simpl in *. apply not_elem_of_cons in Hnin as [Hne Hnin].
      apply Forall_cons_2; [|by apply IH].
      split; unfold me_id; simpl; try done; try lia. by destruct (streq_spec o id); [subst|].
  - unfold is_u64. lia.
  - split; [lia|done].
Qed.

Lemma check_suspicion_timeouts_spec_witness :
  let s := gossip_node [97] [([98], GOSSIP_NODE_SUSPECTED, 1); ([99], GOSSIP_NODE_ALIVE, 1)] in
  gossip_wf s ∧
  gossip_check_suspicion_timeouts example_clock s =
    Some (fail_all_expired 10000 3000 (gs_tick s)) ∧
  (view (fail_all_expired 10000 3000 (gs_tick s)) [98] = Some (GOSSIP_NODE_FAILED, 1)).
Proof.
  cbv zeta.
  assert (Hw : gossip_wf (gossip_node [97] [([98], GOSSIP_NODE_SUSPECTED, 1); ([99], GOSSIP_NODE_ALIVE, 1)])).
  { apply gossip_node_wf; by_decide. }
  split; [exact Hw|]. split; [|reflexivity].
  exact (check_suspicion_timeouts_spec example_clock _ Hw).
Defined.

#[export] Instance swim_status_dec st : Decision (swim_status st).
Proof. unfold swim_status. apply _. Defined.

(** A message of the node [100] with the given updates about the node [99]. *)
Definition about_99 (vs : list (Z * Z)) : received :=
  (GossipMessage GOSSIP_MSG_MEMBERSHIP [100] 4 0 (map (λ v, info_with [99] v.1 v.2) vs), ([49], 7000)).

Lemma about_99_ok vs :
  Forall (λ v, is_u64 v.2) vs →
  message_ok (about_99 vs).1 ∧ gm_sender_id (about_99 vs).1 ≠ [99].
Proof.
  intros Hvs. split; [|done]. split; [by_decide|]. split; [by_decide|]. simpl.
  induction Hvs; constructor; [|done]. split; [by_decide|done].
Qed.

Lemma gossip_converges_witness :
  let ms1 := [about_99 [(GOSSIP_NODE_SUSPECTED, 1)]; about_99 [(GOSSIP_NODE_FAILED, 1); (GOSSIP_NODE_ALIVE, 0)]] in
  let ms2 := [about_99 [(GOSSIP_NODE_ALIVE, 0)]; about_99 [(GOSSIP_NODE_FAILED, 1)];
              about_99 [(GOSSIP_NODE_SUSPECTED, 1); (GOSSIP_NODE_FAILED, 1)]] in
  view (fold_left (receive example_clock) ms1 (gossip_node [97] [])) [99] = Some (GOSSIP_NODE_SUSPECTED, 1) ∧
  view (fold_left (receive example_clock) ms1 (gossip_node [97] [])) [99] =
  view (fold_left (receive example_clock) ms2 (gossip_node [98] [])) [99].
Proof.
  intros ms1 ms2. split; [vm_compute; reflexivity|].
  apply (gossip_converges example_clock);
    [apply gossip_node_wf; by_decide|apply gossip_node_wf; by_decide|by_decide|by_decide| | |].
  - simpl. repeat first [apply Forall_nil_2 | apply Forall_cons_2]; apply about_99_ok; by_decide.
  - apply list.Forall_forall. by_decide.
  - intros v. vm_compute option_list. vm_compute said_of. simpl. rewrite !elem_of_cons. tauto.
Defined.

Lemma failure_not_disseminated_witness :
  view (fold_left (receive example_clock) [about_99 [(GOSSIP_NODE_FAILED, 2); (GOSSIP_NODE_SUSPECTED, 2)]]
    (gossip_node [97] [([99], GOSSIP_NODE_ALIVE, 2)])) [99] = Some (GOSSIP_NODE_ALIVE, 2).
Proof.
  apply (failure_not_disseminated example_clock); [apply gossip_node_wf; by_decide|by_decide| |reflexivity|].
  - apply Forall_cons_2; [|constructor]. apply about_99_ok. by_decide.
  - apply list.Forall_forall. by_decide.
Defined.

Lemma sender_not_revived_witness :
  view (update_sender example_clock (gossip_node [97] [([100], GOSSIP_NODE_FAILED, 2)])
    (about_99 []).1 [49] 7000) [100] = Some (GOSSIP_NODE_FAILED, 4).
Proof.
  exact (sender_not_revived example_clock (gossip_node [97] [([100], GOSSIP_NODE_FAILED, 2)])
    (about_99 []).1 [49] 7000 (MembershipEntry (info_with [100] GOSSIP_NODE_FAILED 2) 0 0 false)
    ltac:(apply gossip_node_wf; by_decide) ltac:(reflexivity)).
Defined.

(** The accused node was restarted: its incarnation is 0, its peer has it failed in
    incarnation 7, and the refutation in incarnation 1 is not taken over. *)
Lemma accusations_refuted_witness :
  let s := gossip_node [99] [] in
  let peer := gossip_node [97] [([99], GOSSIP_NODE_FAILED, 7)] in
  let msg := (about_99 [(GOSSIP_NODE_FAILED, 7)]).1 in
  let s' := gossip_update_node_from_message example_clock s msg [49] 7000 in
  gs_self_incarnation s' = 1 ∧
  ∃ e', lookup_entry s' [99] = Some e' ∧ view_of e' = (GOSSIP_NODE_ALIVE, 1) ∧
    view (apply_update example_clock peer (me_info e')) [99] = Some (GOSSIP_NODE_FAILED, 7).
Proof.
  intros s peer msg s'.
  destruct (accusations_refuted example_clock s msg [49] 7000
    (MembershipEntry (info_with [99] GOSSIP_NODE_ALIVE 0) 0 3 true) peer GOSSIP_NODE_FAILED 7)
    as (H1 & _ & H3); try (by_decide || reflexivity); try (apply gossip_node_wf; by_decide).
  split; [exact H1|]. destruct H3 as (e' & He' & Hv & _ & Hp); [by_decide|].
  exists e'. split; [exact He'|]. split; [exact Hv|exact Hp].
Defined.

Lemma announcements_sent_witness :
  let s := gossip_node [97] [([98], GOSSIP_NODE_ALIVE, 0)] in
  (broadcasts 3 s).1 ≡ₚ replicate 3 (info_with [97] GOSSIP_NODE_ALIVE 0) ∧ remaining (broadcasts 3 s).2 = [].
Proof.
  intros s. pose proof (announcements_sent s 3 ltac:(vm_compute; lia)) as Hs.
  destruct (gossip_get_updates_to_broadcast s) as [us s']. destruct Hs as (_ & _ & Hp & Hr).
  split; [exact Hp|exact Hr].
Defined.
