(* ===== verification/GossipLifecycle.v ===== *)
(** * Gossip: life cycle and public interface

    [src/libs/distric_gossip/src/gossip_lifecycle.c] and
    [gossip_broadcast_refutation] of [gossip_conflict_resolution.c]: how a state
    is built, what its users ask of it and change in it.  The outcomes of the
    socket calls and of [pthread_create] are arguments.  The invariant of
    [GossipMembership.v] holds in every state that the operations of this file
    and the handlers of messages can reach. *)

From Stdlib Require Import ZArith Lia String.
From stdpp Require Import base list numbers option.
From S2P Require Import Prelude CString GossipMembership GossipSpec.

Local Open Scope Z_scope.

(** ** Start and stop *)

(** The parameters that are zero get their default. *)
Definition or_default (v d : Z) : Z := if v =? 0 then d else v.
Definition with_defaults (c : gossip_config) : gossip_config :=
  GossipConfig (gc_node_id c) (gc_bind_address c) (gc_bind_port c) (gc_role c)
    (or_default (gc_protocol_period_ms c) 1000) (or_default (gc_probe_timeout_ms c) 500)
    (or_default (gc_indirect_probes c) 3) (or_default (gc_suspicion_mult c) 3)
    (or_default (gc_max_transmissions c) 3) (gc_seeds c).

Section lifecycle.
Variable clock : nat → Z.

(** [socket_ok], [address_ok], [bind_ok]: [socket], [inet_pton] and [bind] succeed. *)
Definition gossip_init (config : gossip_config) (socket_ok address_ok bind_ok : bool) :
    result gossip_state :=
  if (length (gc_node_id config) =? 0)%nat || (gc_bind_port config =? 0)
  then Err DISTRIC_ERR_INVALID_ARG
  else if negb socket_ok then Err DISTRIC_ERR_IO
  else if negb ((length (gc_bind_address config) =? 0)%nat ||
                streq (gc_bind_address config) (str "0.0.0.0")) && negb address_ok
  then Err DISTRIC_ERR_INVALID_ARG
  else if negb bind_ok then Err DISTRIC_ERR_IO
  else
    let s := GossipState (with_defaults config) [] 0 0 0 false
               (GossipCallbacks false false false false) [] 0 in
    let self_info :=
      NodeInfo (strncpy 63 (gc_node_id config)) (strncpy 255 (gc_bind_address config))
        (gc_bind_port config) GOSSIP_NODE_ALIVE (gc_role config) 0 0 0 in
    let s := membership_add clock s self_info in
    match gs_membership s !! 0%nat with
    | Some self_entry => Ok (set_entry 0 (me_set_local true self_entry) s)
    | None => Ok s
    end.

(** [%zu] of an index. *)
Definition seed_name (i : nat) : list Z := str "seed-" ++ decimal_digits 20 (Z.of_nat i).

Definition add_if_unknown (s : gossip_state) (seed : gossip_node_info) : gossip_state :=
  match membership_find s (gi_node_id seed) with
  | None => membership_add clock s seed
  | Some _ => s
  end.

(** The loop over the seeds, from the [i]-th. *)
Fixpoint add_seeds (i : nat) (seeds : list (list Z * Z)) (s : gossip_state) : gossip_state :=
  match seeds with
  | [] => s
  | (address, port) :: seeds =>
      let seed := NodeInfo (strncpy 63 (seed_name i)) (strncpy 255 address) port
                    GOSSIP_NODE_ALIVE GOSSIP_ROLE_COORDINATOR 0 0 0 in
      add_seeds (S i) seeds (add_if_unknown s seed)
  end.

(** [protocol_ok], [receiver_ok]: the two [pthread_create] succeed. *)
Definition gossip_start (s : gossip_state) (protocol_ok receiver_ok : bool) :
    distric_err * gossip_state :=
  if gs_running s then (DISTRIC_ERR_INVALID_STATE, s)
  else
    let s := gs_set_running true (add_seeds 0 (gc_seeds (gs_config s)) s) in
    if negb protocol_ok then (DISTRIC_ERR_THREAD, gs_set_running false s)
    else if negb receiver_ok then (DISTRIC_ERR_THREAD, gs_set_running false s)
    else (DISTRIC_OK, s).

Definition gossip_stop (s : gossip_state) : distric_err * gossip_state :=
  if negb (gs_running s) then (DISTRIC_OK, s) else (DISTRIC_OK, gs_set_running false s).

Definition gossip_leave (s : gossip_state) : distric_err * gossip_state := gossip_stop s.

(** ** Queries *)

Definition gossip_get_alive_nodes (s : gossip_state) : list gossip_node_info :=
  map me_info (List.filter (λ e, me_status e =? GOSSIP_NODE_ALIVE) (gs_membership s)).

Definition gossip_get_nodes_by_role (s : gossip_state) (role : Z) : list gossip_node_info :=
  map me_info
    (List.filter (λ e, (me_status e =? GOSSIP_NODE_ALIVE) && (gi_role (me_info e) =? role))
       (gs_membership s)).

Definition gossip_is_node_alive (s : gossip_state) (node_id : list Z) : bool :=
  match membership_find s node_id with
  | Some (_, e) => me_status e =? GOSSIP_NODE_ALIVE
  | None => false
  end.

Definition gossip_get_node_info (s : gossip_state) (node_id : list Z) : result gossip_node_info :=
  match membership_find s node_id with
  | Some (_, e) => Ok (me_info e)
  | None => Err DISTRIC_ERR_NOT_FOUND
  end.

Definition gossip_get_node_count (s : gossip_state) (status : Z) : nat :=
  length (List.filter (λ e, (status =? -1) || (me_status e =? status)) (gs_membership s)).

(** ** Callbacks *)

Definition gossip_set_on_node_joined (b : bool) (s : gossip_state) : gossip_state :=
  let c := gs_callbacks s in
  gs_set_callbacks (GossipCallbacks b (on_suspected c) (on_failed c) (on_recovered c)) s.
Definition gossip_set_on_node_suspected (b : bool) (s : gossip_state) : gossip_state :=
  let c := gs_callbacks s in
  gs_set_callbacks (GossipCallbacks (on_joined c) b (on_failed c) (on_recovered c)) s.
Definition gossip_set_on_node_failed (b : bool) (s : gossip_state) : gossip_state :=
  let c := gs_callbacks s in
  gs_set_callbacks (GossipCallbacks (on_joined c) (on_suspected c) b (on_recovered c)) s.
Definition gossip_set_on_node_recovered (b : bool) (s : gossip_state) : gossip_state :=
  let c := gs_callbacks s in
  gs_set_callbacks (GossipCallbacks (on_joined c) (on_suspected c) (on_failed c) b) s.

(** ** Changes of the own state *)

Definition gossip_update_load (s : gossip_state) (load : Z) : gossip_state :=
  let s := gs_set_load load s in
  match membership_find s (gc_node_id (gs_config s)) with
  | Some (i, self) =>
      set_entry i (me_announce s (me_set_info (gi_set_load load (me_info self)) self)) s
  | None => s
  end.

Definition gossip_refute_suspicion (s : gossip_state) : gossip_state :=
  let s := gs_set_incarnation (u64 (gs_self_incarnation s + 1)) s in
  match membership_find s (gc_node_id (gs_config s)) with
  | Some (i, self) => set_entry i (me_refute s self) s
  | None => s
  end.

(** ["seed-%s:%u"], cut to the 63 characters of [node_id]. *)
Definition gossip_add_seed (s : gossip_state) (address : list Z) (port : Z) : gossip_state :=
  add_if_unknown s
    (NodeInfo (strncpy 63 (str "seed-" ++ address ++ [58] ++ decimal port)) (strncpy 255 address)
       port GOSSIP_NODE_ALIVE GOSSIP_ROLE_COORDINATOR 0 0 0).

Definition gossip_status_to_string (status : Z) : list Z :=
  if status =? GOSSIP_NODE_ALIVE then str "ALIVE"
  else if status =? GOSSIP_NODE_SUSPECTED then str "SUSPECTED"
  else if status =? GOSSIP_NODE_FAILED then str "FAILED"
  else if status =? GOSSIP_NODE_LEFT then str "LEFT" else str "UNKNOWN".
Definition gossip_role_to_string (role : Z) : list Z :=
  if role =? GOSSIP_ROLE_COORDINATOR then str "COORDINATOR"
  else if role =? GOSSIP_ROLE_WORKER then str "WORKER" else str "UNKNOWN".

(** [gossip_broadcast_refutation]: [serialize] is [gossip_message_serialize],
    which the repository declares and does not define, [serialization_error] is
    [DISTRIC_ERR_SERIALIZATION], which it does not declare, and [send] tells
    whether the message could be sent to a node. *)
Definition refutation_targets (s : gossip_state) : list gossip_node_info :=
  map me_info
    (List.filter (λ e, negb (me_local_node e) && negb (me_status e =? GOSSIP_NODE_FAILED) &&
                       negb (me_status e =? GOSSIP_NODE_LEFT)) (gs_membership s)).

Definition gossip_broadcast_refutation (serialization_error : distric_err)
    (serialize : gossip_message → nat → option (list Z))
    (send : list Z → gossip_node_info → bool) (s : gossip_state) : distric_err * gossip_state :=
  let s := gs_set_incarnation (u64 (gs_self_incarnation s + 1)) s in
  match membership_find s (gc_node_id (gs_config s)) with
  | None => (DISTRIC_ERR_NOT_FOUND, s)
  | Some (i, self) =>
      let self := me_refute s self in
      let s := set_entry i self s in
      let msg :=
        GossipMessage GOSSIP_MSG_MEMBERSHIP (strncpy 63 (gc_node_id (gs_config s)))
          (gs_self_incarnation s) (u32 (gs_sequence_counter s)) [me_info self] in
      let s := gs_set_sequence (u64 (gs_sequence_counter s + 1)) s in
      match refutation_targets s with
      | [] => (DISTRIC_OK, s)
      | targets =>
          match serialize msg 8192%nat with
          | None => (serialization_error, s)
          | Some bytes => (if existsb (send bytes) targets then DISTRIC_OK else DISTRIC_ERR_IO, s)
          end
      end
  end.
End lifecycle.

(** ** The steps of a gossip node *)

(** What its threads and its users do to the state: messages, the outcomes of
    probes, the timeouts, broadcasts and the operations of this file. *)
Inductive gossip_op :=
  | OpMessage (msg : gossip_message) (addr : list Z) (port : Z)
  | OpLeft (id : list Z)
  | OpAlive (id : list Z)
  | OpSuspected (id : list Z)
  | OpCheckTimeouts
  | OpBroadcast
  | OpUpdateLoad (load : Z)
  | OpRefute
  | OpBroadcastRefutation (e : distric_err) (serialize : gossip_message → nat → option (list Z))
      (send : list Z → gossip_node_info → bool)
  | OpAddSeed (address : list Z) (port : Z)
  | OpStart (protocol_ok receiver_ok : bool)
  | OpStop
  | OpCallbacks (joined suspected failed recovered : bool).

Section steps.
Variable clock : nat → Z.

(** [None]: the operation does not end. *)
Definition gossip_step (op : gossip_op) (s : gossip_state) : option gossip_state :=
  match op with
  | OpMessage msg addr port => Some (gossip_update_node_from_message clock s msg addr port)
  | OpLeft id => Some (gossip_handle_node_leave s id)
  | OpAlive id => Some (gossip_mark_node_alive clock s id)
  | OpSuspected id => Some (gossip_mark_node_suspected clock s id)
  | OpCheckTimeouts => gossip_check_suspicion_timeouts clock s
  | OpBroadcast => Some (gossip_get_updates_to_broadcast s).2
  | OpUpdateLoad load => Some (gossip_update_load s load)
  | OpRefute => Some (gossip_refute_suspicion s)
  | OpBroadcastRefutation e serialize send => Some (gossip_broadcast_refutation e serialize send s).2
  | OpAddSeed address port => Some (gossip_add_seed clock s address port)
  | OpStart protocol_ok receiver_ok => Some (gossip_start clock s protocol_ok receiver_ok).2
  | OpStop => Some (gossip_stop s).2
  | OpCallbacks j su f r =>
      Some (gossip_set_on_node_joined j (gossip_set_on_node_suspected su
        (gossip_set_on_node_failed f (gossip_set_on_node_recovered r s))))
  end.

Fixpoint gossip_run (ops : list gossip_op) (s : gossip_state) : option gossip_state :=
  match ops with
  | [] => Some s
  | op :: ops => s ← gossip_step op s; gossip_run ops s
  end.

Definition gossip_op_ok (op : gossip_op) : Prop :=
  match op with
  | OpMessage msg _ _ => message_ok msg
  | OpAddSeed address port => cstr_ok address ∧ is_u16 port
  | _ => True
  end.

Implicit Types (s : gossip_state).

Lemma announce_self_step s i e e' :
  gossip_wf s → membership_find s (gc_node_id (gs_config s)) = Some (i, e) →
  me_id e' = me_id e → entry_wf (gs_config s) e' → good_step s (set_entry i e' s).
Proof.
  intros Hw Hf Hid Hw'. apply membership_find_Some in Hf as Hfe. destruct Hfe as [Hi He].
  eapply set_entry_step; [done|done|done|done|]. intros Hne. by destruct Hne.
Qed.

Lemma refute_self_step s :
  gossip_wf s → good_step s (gossip_refute_suspicion s).
Proof.
  intros Hw. unfold gossip_refute_suspicion. simpl.
  unfold membership_find. simpl. fold (membership_find s (gc_node_id (gs_config s))).
  destruct (membership_find s (gc_node_id (gs_config s))) as [[i e]|] eqn:Hf.
  - apply membership_find_Some in Hf as Hfe. destruct Hfe as [_ Hfe]. rewrite <- Hfe in Hf.
    by apply refute_step.
  - by apply incarnate_step; [apply u64_range|].
Qed.

Lemma broadcast_refutation_step e serialize send s :
  gossip_wf s → good_step s (gossip_broadcast_refutation e serialize send s).2.
Proof.
  intros Hw. pose proof (refute_self_step s Hw) as Hr. revert Hr.
  unfold gossip_refute_suspicion, gossip_broadcast_refutation.
  destruct (membership_find (gs_set_incarnation _ s) _) as [[i x]|]; [|done].
  intros Hr. assert (Hseq : ∀ s1 n, good_step s s1 → good_step s (gs_set_sequence n s1)).
  { intros s1 n Hs1. eapply good_step_trans; [exact Hs1|]. apply same_step; try done; apply Hs1. }
  destruct (refutation_targets _); [by apply Hseq|]. destruct (serialize _ _); by apply Hseq.
Qed.

Lemma update_load_step s load : gossip_wf s → good_step s (gossip_update_load s load).
Proof.
  intros Hw. unfold gossip_update_load. set (s1 := gs_set_load load s).
  assert (Hs1 : good_step s s1) by (apply same_step; try done; apply Hw).
  destruct (membership_find s1 _) as [[i e]|] eqn:Hf; [|done].
  eapply good_step_trans; [exact Hs1|]. destruct Hs1 as [Hw1 _].
  eapply announce_self_step; [done|done|done|].
  destruct (found_wf _ _ _ _ Hw1 Hf) as [? ? ? ? ?]. pose proof (gw_config _ Hw1).
  split; simpl in *; try done. lia.
Qed.

Lemma add_if_unknown_step s seed :
  gossip_wf s → info_ok seed → gi_status seed = GOSSIP_NODE_ALIVE → good_step s (add_if_unknown clock s seed).
Proof.
  intros Hw Hok Hst. unfold add_if_unknown.
  destruct (membership_find s (gi_node_id seed)) as [[i e]|] eqn:Hf; [by apply good_step_refl|].
  apply membership_add_step; [done..|]. by rewrite Hst.
Qed.

Lemma digits_cstr fuel n : 0 ≤ n → cstr_ok (decimal_digits fuel n).
Proof. intros Hn. eapply Forall_impl; [|by apply decimal_digits_ok]. simpl. lia. Qed.

Lemma seed_info_ok id address port role :
  cstr_ok id → info_ok (NodeInfo (strncpy 63 id) address port GOSSIP_NODE_ALIVE role 0 0 0).
Proof. intros Hid. split; [|unfold is_u64; simpl; lia]. by apply strncpy_fits. Qed.

Lemma add_seeds_step seeds : ∀ i s, gossip_wf s → good_step s (add_seeds clock i seeds s).
Proof.
  induction seeds as [|[a p] seeds IH]; intros i s Hw; cbn [add_seeds]; [by apply good_step_refl|].
  assert (Hs : ∀ info, info_ok info → gi_status info = GOSSIP_NODE_ALIVE →
    good_step s (add_seeds clock (S i) seeds (add_if_unknown clock s info))).
  { intros info Hok Hst. pose proof (add_if_unknown_step s info Hw Hok Hst) as H1.
    eapply good_step_trans; [exact H1|]. apply IH, H1. }
  apply Hs; [|done]. apply seed_info_ok. unfold seed_name. apply Forall_app_2; [by_decide|].
  apply digits_cstr. lia.
Qed.

(** A change of all entries that keeps the identifiers and the incarnations. *)
Lemma pointwise_step s s' :
  gossip_wf s → gs_config s' = gs_config s → gs_self_incarnation s' = gs_self_incarnation s →
  Forall2 (λ e e', me_id e' = me_id e ∧ me_incarnation e' = me_incarnation e ∧
                   (entry_wf (gs_config s) e → entry_wf (gs_config s) e'))
    (gs_membership s) (gs_membership s') →
  good_step s s'.
Proof.
  intros Hw Hc Hi Hall.
  assert (Hids : me_id <$> gs_membership s' = me_id <$> gs_membership s).
  { clear Hw. induction Hall as [|e e' es es' (He & _) _ IH]; simpl; [done|]. by f_equal. }
  assert (Hw' : gossip_wf s').
  { destruct Hw as [Hnd He Hsi Hcfg]. split; rewrite ?Hids, ?Hc, ?Hi; try done.
    clear Hnd Hids. induction Hall as [|e e' es es' (_ & _ & Hee) _ IH]; [constructor|].
    apply Forall_cons_iff in He as [He Hes]. constructor; [by apply Hee|by apply IH]. }
  split; [done|]. split; [done|]. intros id e He.
  apply lookup_entry_elem in He as [Hin <-]. apply list_elem_of_lookup in Hin as [i Hei].
  destruct (Forall2_lookup_l _ _ _ _ _ Hall Hei) as (e' & Hi' & Hid & Hinc & _). exists e'.
  rewrite <- Hid. split; [|intros _; lia].
  apply lookup_entry_In; [apply Hw'|]. by eapply list_elem_of_lookup_2.
Qed.

Lemma get_updates_step s : gossip_wf s → good_step s (gossip_get_updates_to_broadcast s).2.
Proof.
  intros Hw. pose proof (get_updates_spec s) as Hg.
  destruct (gossip_get_updates_to_broadcast s) as [us s']. destruct Hg as (_ & _ & Hs' & Hall). simpl.
  apply pointwise_step; [done|by rewrite Hs'|by rewrite Hs'|].
  eapply list.Forall2_impl; [exact Hall|]. intros e e' [->|[Hp ->]]; [done|]. split_and!; [done..|].
  intros [? ? ? ? ?]. unfold pending in Hp. split; simpl; try done. lia.
Qed.

Lemma fail_all_expired_step now timeout s :
  gossip_wf s → good_step s (fail_all_expired now timeout s).
Proof.
  intros Hw. apply pointwise_step; [done..|]. simpl. pose proof (gw_config _ Hw).
  induction (gs_membership s) as [|e es IH]; simpl; constructor; [|done].
  unfold fail_expired. destruct (suspicion_expired _ _ _); [|done]. split_and!; [done..|].
  intros [? ? ? ? ?]. split; simpl; try done. lia.
Qed.

Lemma gossip_step_good op s :
  gossip_wf s → gossip_op_ok op → ∃ s', gossip_step op s = Some s' ∧ good_step s s'.
Proof.
  intros Hw Hop.
  destruct op; simpl in *; try (eexists; split; [reflexivity|]).
  - by apply update_node_from_message_step.
  - by apply handle_leave_step.
  - by apply mark_alive_step.
  - by apply mark_suspected_step.
  - rewrite suspicion_check by done. eexists. split; [reflexivity|].
    eapply good_step_trans; [by apply tick_step|]. by apply fail_all_expired_step, tick_step.
  - by apply get_updates_step.
  - by apply update_load_step.
  - by apply refute_self_step.
  - by apply broadcast_refutation_step.
  - unfold gossip_add_seed. apply add_if_unknown_step; [done| |done]. apply seed_info_ok.
    destruct Hop as [Ha Hp]. repeat apply Forall_app_2; [by_decide|done|by_decide|].
    apply digits_cstr, Hp.
  - unfold gossip_start. destruct (gs_running s); [by apply good_step_refl|]. simpl.
    pose proof (add_seeds_step (gc_seeds (gs_config s)) 0 s Hw) as Hs.
    assert (Hrun : ∀ b s1, good_step s s1 → good_step s (gs_set_running b s1)).
    { intros b s1 Hs1. eapply good_step_trans; [exact Hs1|]. apply same_step; try done; apply Hs1. }
    repeat case_match; simpl; auto.
  - unfold gossip_stop. destruct (gs_running s); [|by apply good_step_refl].
    apply same_step; try done. apply Hw.
  - apply same_step; try done. apply Hw.
Qed.

Lemma gossip_run_good ops : ∀ s,
  gossip_wf s → Forall gossip_op_ok ops → ∃ s', gossip_run ops s = Some s' ∧ good_step s s'.
Proof.
  induction ops as [|op ops IH]; intros s Hw Hops; simpl.
  - exists s. split; [done|by apply good_step_refl].
  - apply Forall_cons_iff in Hops as [Hop Hops].
    destruct (gossip_step_good op s Hw Hop) as (s1 & -> & Hs1). simpl.
    destruct (IH s1 (proj1 Hs1) Hops) as (s2 & -> & Hs2). exists s2.
    split; [done|by eapply good_step_trans].
Qed.

Definition gossip_config_ok (c : gossip_config) : Prop :=
  node_id_ok (gc_node_id c) ∧ 0 ≤ gc_max_transmissions c.

Lemma gossip_init_wf c so ao bo s :
  gossip_config_ok c → gossip_init clock c so ao bo = Ok s →
  gossip_wf s ∧ gs_config s = with_defaults c ∧ is_Some (lookup_entry s (gc_node_id c)).
Proof.
  intros [Hid Hmax]. unfold gossip_init.
  destruct (_ || _); [done|]. destruct (negb so); [done|]. destruct (_ && _); [done|].
  destruct (negb bo); [done|]. simpl. intros [= <-].
  rewrite strncpy_id by apply Hid. split; [|split; [done|]].
  - split; simpl; [apply NoDup_singleton| |unfold is_u64; lia|].
    + apply Forall_cons_2; [|constructor].
      split; unfold me_id; simpl; try done; try (unfold is_u64; simpl; lia).
      * by destruct (streq_spec (gc_node_id c) (gc_node_id c)).
      * unfold or_default. destruct (_ =? 0); lia.
    + split; [|done]. unfold or_default. destruct (_ =? 0); lia.
  - unfold lookup_entry, membership_find. simpl. rewrite decide_True by done. by eexists.
Qed.

(** C14: the membership list is well formed whatever happens to an initialised
    node: no two entries are of the same node, the local flag is on the own entry
    and on no other, the node never suspects itself, no transmission count exceeds
    the configured one; its own entry is never lost; from any state it passes
    through to any later one no node is forgotten and no other node's incarnation
    decreases; and every operation ends. *)
Theorem gossip_reachable_wf c so ao bo s ops1 ops2 :
  gossip_config_ok c → gossip_init clock c so ao bo = Ok s →
  Forall gossip_op_ok (ops1 ++ ops2) →
  ∃ s1 s2, gossip_run ops1 s = Some s1 ∧ gossip_run ops2 s1 = Some s2 ∧
    gossip_wf s2 ∧ grows s1 s2 ∧
    ∃ e, lookup_entry s2 (gc_node_id c) = Some e ∧ me_local_node e = true ∧
      me_status e ≠ GOSSIP_NODE_SUSPECTED.
Proof.
  intros Hc Hinit [Hops1 Hops2]%Forall_app.
  destruct (gossip_init_wf _ _ _ _ _ Hc Hinit) as (Hw & Hcfg & [e He]).
  destruct (gossip_run_good ops1 s Hw Hops1) as (s1 & Hr1 & Hw1 & Hg1).
  destruct (gossip_run_good ops2 s1 Hw1 Hops2) as (s2 & Hr2 & Hw2 & Hg2).
  exists s1, s2. split_and!; try done.
  destruct (grows_trans _ _ _ Hg1 Hg2) as [Hc2 Hall]. destruct (Hall _ _ He) as (e2 & He2 & _).
  pose proof (lookup_entry_wf _ _ _ Hw2 He2) as Hwe. apply lookup_entry_elem in He2 as Hid.
  exists e2. split; [done|]. assert (Hl : me_local_node e2 = true).
  { rewrite (ew_local _ _ Hwe). destruct Hid as [_ ->]. rewrite Hc2, Hcfg. simpl.
    by destruct (streq_spec (gc_node_id c) (gc_node_id c)). }
  split; [done|]. by apply (ew_self _ _ Hwe).
Qed.
End steps.

Lemma gossip_reachable_wf_witness :
  let c := GossipConfig [97] [] 7000 GOSSIP_ROLE_WORKER 0 0 0 0 0 [([49], 7001)] in
  let ops := [OpStart true true; OpMessage (about_99 [(GOSSIP_NODE_ALIVE, 2)]).1 [49] 7002;
              OpSuspected [99]; OpBroadcast; OpSuspected [97]] in
  ∃ s1 s2, gossip_run example_clock ops (match gossip_init example_clock c true true true with
                                          | Ok s => s | _ => gossip_node [97] [] end) = Some s1 ∧
    gossip_run example_clock [OpCheckTimeouts; OpStop] s1 = Some s2 ∧ gossip_wf s2.
Proof.
  intros c ops.
  destruct (gossip_reachable_wf example_clock c true true true
    (match gossip_init example_clock c true true true with Ok s => s | _ => gossip_node [97] [] end)
    ops [OpCheckTimeouts; OpStop]) as (s1 & s2 & H1 & H2 & H3 & _).
  - split; by_decide.
  - reflexivity.
  - repeat first [apply Forall_nil_2 | apply Forall_cons_2]; try exact I.
    simpl. by_decide.
  - exists s1, s2. split; [exact H1|]. split; [exact H2|exact H3].
Defined.

(** A message can talk a node into lowering its incarnation and into leaving: a
    message that carries the node's own identifier as its sender raises the
    incarnation of the own entry, which the next refutation sets back to the
    smaller counter, and a departure with the own identifier marks the node itself
    as gone. *)
Theorem spoofed_sender :
  let s := gossip_node [97] [] in
  let spoof := GossipMessage GOSSIP_MSG_MEMBERSHIP [97] 5 0 [] in
  let s1 := gossip_update_node_from_message example_clock s spoof [49] 7000 in
  view s1 [97] = Some (GOSSIP_NODE_ALIVE, 5) ∧
  view (gossip_refute_suspicion s1) [97] = Some (GOSSIP_NODE_ALIVE, 1) ∧
  view (gossip_handle_node_leave s [97]) [97] = Some (GOSSIP_NODE_LEFT, 0).
Proof. vm_compute. split_and!; reflexivity. Qed.
