(* ===== verification/GossipWire.v ===== *)
(** * Gossip: datagrams

    [serialize_message] and [deserialize_message] of
    [src/libs/distric_gossip/src/gossip_core.c].  Integers are stored in the byte
    order of the host, little-endian here.  A buffer of the sender is the list of
    the bytes written so far and its size; writing past it is a [Fault].  A
    received datagram is the list of its bytes. *)

From Stdlib Require Import ZArith Lia.
From stdpp Require Import base list numbers option.
From S2P Require Import Prelude CString GossipMembership GossipSpec.

Local Open Scope Z_scope.

Definition GOSSIP_MAGIC : Z := 0x47535350.
Definition GOSSIP_VERSION : Z := 1.

(** ** Writing *)

(** The next bytes at [ptr]. *)
Definition emit (size : nat) (bytes out : list Z) : result (list Z) :=
  if (length out + length bytes <=? size)%nat then Ok (out ++ bytes) else Fault.

(** [strncpy (ptr, s, n)] of a C string: padded with zeros. *)
Definition strncpy_pad (n : nat) (s : list Z) : list Z := take n s ++ replicate (n - length s) 0.

Definition emit_update (size : nat) (node : gossip_node_info) (out : list Z) : result (list Z) :=
  out ← emit size (strncpy_pad 64 (gi_node_id node)) out;
  out ← emit size (strncpy_pad 256 (gi_address node)) out;
  out ← emit size (le_bytes 2 (gi_port node)) out;
  out ← emit size (le_bytes 4 (gi_status node)) out;
  out ← emit size (le_bytes 4 (gi_role node)) out;
  out ← emit size (le_bytes 8 (gi_incarnation node)) out;
  out ← emit size (le_bytes 8 (gi_load node)) out;
  Ok out.

Fixpoint emit_updates (size : nat) (updates : list gossip_node_info) (out : list Z) :
    result (list Z) :=
  match updates with
  | [] => Ok out
  | u :: us => out ← emit_update size u out; emit_updates size us out
  end.

(** The bytes before [ptr] at the end; none for a buffer below 512 bytes. *)
Definition serialize_message (msg : gossip_message) (buffer_size : nat) : result (list Z) :=
  if (buffer_size <? 512)%nat then Ok []
  else
    out ← emit buffer_size (le_bytes 4 GOSSIP_MAGIC) [];
    out ← emit buffer_size (le_bytes 4 GOSSIP_VERSION) out;
    out ← emit buffer_size (le_bytes 4 (gm_type msg)) out;
    out ← emit buffer_size (le_bytes 4 (gm_sequence msg)) out;
    out ← emit buffer_size (le_bytes 8 (gm_incarnation msg)) out;
    out ← emit buffer_size (strncpy_pad 64 (gm_sender_id msg)) out;
    out ← emit buffer_size (le_bytes 4 (Z.of_nat (length (gm_updates msg)))) out;
    emit_updates buffer_size (take 10 (gm_updates msg)) out.

(** ** Reading *)

Definition read_le (buffer : list Z) (off n : nat) : result Z :=
  bytes ← memread buffer off n; Ok (le_val bytes).

(** One update at [off]. *)
Definition read_update (buffer : list Z) (off : nat) : result gossip_node_info :=
  id ← strncpy_read 63 (drop off buffer);
  address ← strncpy_read 255 (drop (off + 64) buffer);
  port ← read_le buffer (off + 320) 2;
  status ← read_le buffer (off + 322) 4;
  role ← read_le buffer (off + 326) 4;
  incarnation ← read_le buffer (off + 330) 8;
  load ← read_le buffer (off + 338) 8;
  Ok (NodeInfo id address port status role incarnation 0 load).

(** The loop over the [n] updates: [Ok None] is the return of -1. *)
Fixpoint read_updates (n : nat) (buffer : list Z) (off : nat) (acc : list gossip_node_info) :
    result (option (list gossip_node_info)) :=
  match n with
  | O => Ok (Some acc)
  | S n =>
      if (length buffer <? off + 346)%nat then Ok None
      else u ← read_update buffer off; read_updates n buffer (off + 346) (acc ++ [u])
  end.

Definition deserialize_message (buffer : list Z) : result (option gossip_message) :=
  if (length buffer <? 96)%nat then Ok None
  else
    magic ← read_le buffer 0 4;
    if negb (magic =? GOSSIP_MAGIC) then Ok None
    else
      version ← read_le buffer 4 4;
      if negb (version =? GOSSIP_VERSION) then Ok None
      else
        type ← read_le buffer 8 4;
        sequence ← read_le buffer 12 4;
        incarnation ← read_le buffer 16 8;
        sender ← strncpy_read 63 (drop 24 buffer);
        update_count ← read_le buffer 88 4;
        updates ← read_updates (Z.to_nat (Z.min update_count 10)) buffer 92 [];
        Ok (match updates with
            | Some us => Some (GossipMessage type sender incarnation sequence us)
            | None => None
            end).

(** ** The image of a message *)

Definition update_chunks (u : gossip_node_info) : list (list Z) :=
  [strncpy_pad 64 (gi_node_id u); strncpy_pad 256 (gi_address u); le_bytes 2 (gi_port u);
   le_bytes 4 (gi_status u); le_bytes 4 (gi_role u); le_bytes 8 (gi_incarnation u);
   le_bytes 8 (gi_load u)].
Definition update_image (u : gossip_node_info) : list Z := concat (update_chunks u).

Definition header_chunks (msg : gossip_message) : list (list Z) :=
  [le_bytes 4 GOSSIP_MAGIC; le_bytes 4 GOSSIP_VERSION; le_bytes 4 (gm_type msg);
   le_bytes 4 (gm_sequence msg); le_bytes 8 (gm_incarnation msg);
   strncpy_pad 64 (gm_sender_id msg); le_bytes 4 (Z.of_nat (length (gm_updates msg)))].
Definition header_image (msg : gossip_message) : list Z := concat (header_chunks msg).

Definition message_image (msg : gossip_message) : list Z :=
  header_image msg ++ concat (map update_image (take 10 (gm_updates msg))).

Lemma strncpy_pad_length n s : length (strncpy_pad n s) = n.
Proof. unfold strncpy_pad. rewrite length_app, length_take, length_replicate. lia. Qed.

Lemma header_image_length msg : length (header_image msg) = 92%nat.
Proof.
  unfold header_image, header_chunks. cbn [concat].
  by rewrite !length_app, strncpy_pad_length, !le_bytes_length.
Qed.

Lemma update_image_length u : length (update_image u) = 346%nat.
Proof.
  unfold update_image, update_chunks. cbn [concat].
  by rewrite !length_app, !strncpy_pad_length, !le_bytes_length.
Qed.

Lemma updates_image_length us : length (concat (map update_image us)) = (346 * length us)%nat.
Proof. induction us as [|u us IH]; simpl; [done|]. rewrite length_app, update_image_length, IH. lia. Qed.

Lemma message_image_length msg :
  length (message_image msg) = (92 + 346 * (length (gm_updates msg) `min` 10))%nat.
Proof.
  unfold message_image. rewrite length_app, header_image_length, updates_image_length, length_take. lia.
Qed.

(** *** Writing it *)

(** Consecutive writes are one. *)
Lemma emit_fits size bytes out :
  (length out + length bytes ≤ size)%nat → emit size bytes out = Ok (out ++ bytes).
Proof. intros H. unfold emit. by rewrite (proj2 (Nat.leb_le _ _) H). Qed.

Lemma emit_overflows size bytes out :
  (size < length out + length bytes)%nat → emit size bytes out = Fault.
Proof. intros H. unfold emit. by rewrite (proj2 (Nat.leb_gt _ _) H). Qed.

Fixpoint emits (size : nat) (chunks : list (list Z)) (out : list Z) : result (list Z) :=
  match chunks with
  | [] => Ok out
  | c :: cs => out ← emit size c out; emits size cs out
  end.

Lemma emits_concat size cs : ∀ out,
  (length out ≤ size)%nat → emits size cs out = emit size (concat cs) out.
Proof.
  induction cs as [|c cs IH]; intros out Hout; simpl.
  - rewrite emit_fits by (simpl; lia). by rewrite app_nil_r.
  - unfold emit at 1. destruct (Nat.leb_spec (length out + length c) size); simpl.
    + rewrite IH by (rewrite length_app; lia). unfold emit. rewrite !length_app, Nat.add_assoc.
      destruct (_ <=? size)%nat; [by rewrite app_assoc|done].
    + rewrite emit_overflows; [done|]. rewrite length_app. lia.
Qed.

Lemma emit_update_image size u out :
  (length out ≤ size)%nat → emit_update size u out = emit size (update_image u) out.
Proof.
  intros Hout. change (emit_update size u out) with (emits size (update_chunks u) out).
  by rewrite emits_concat.
Qed.

Lemma emit_updates_image size us out :
  (length out ≤ size)%nat →
  emit_updates size us out = emit size (concat (map update_image us)) out.
Proof.
  intros Hout. rewrite <- emits_concat by done. revert out Hout.
  induction us as [|u us IH]; intros out Hout; simpl; [done|].
  rewrite emit_update_image by done. unfold emit.
  destruct (Nat.leb_spec (length out + length (update_image u)) size); simpl; [|done].
  apply IH. rewrite length_app. lia.
Qed.

Lemma serialize_message_image msg size :
  (512 ≤ size)%nat → serialize_message msg size = emit size (message_image msg) [].
Proof.
  intros Hs. unfold serialize_message. destruct (Nat.ltb_spec size 512); [lia|].
  transitivity (out ← emits size (header_chunks msg) [];
    emit_updates size (take 10 (gm_updates msg)) out).
  { unfold header_chunks. cbn [emits]. do 7 (match goal with |- context [emit size ?c ?o ≫= _] =>
      destruct (emit size c o); cbn [mbind result_bind]; [|done..] end). done. }
  rewrite emits_concat by (simpl; lia). fold (header_image msg).
  rewrite emit_fits by (rewrite header_image_length; simpl; lia). cbn [mbind result_bind app].
  rewrite emit_updates_image by (rewrite header_image_length; lia).
  unfold emit, message_image. rewrite length_app. simpl length at 3. rewrite Nat.add_0_l. done.
Qed.

(** *** Reading it *)

Lemma concat_chunk (cs : list (list Z)) k c :
  cs !! k = Some c → concat cs = concat (take k cs) ++ c ++ concat (drop (S k) cs).
Proof.
  intros Hk. rewrite <- (take_drop_middle _ _ _ Hk) at 1. by rewrite concat_app.
Qed.

Lemma drop_chunk (cs : list (list Z)) k c rest off :
  cs !! k = Some c → length (concat (take k cs)) = off →
  drop off (concat cs ++ rest) = c ++ concat (drop (S k) cs) ++ rest.
Proof.
  intros Hk Hoff. rewrite (concat_chunk _ _ _ Hk), <- !app_assoc. by rewrite drop_app_length'.
Qed.

Lemma read_chunk (cs : list (list Z)) k c rest off n :
  cs !! k = Some c → length (concat (take k cs)) = off → length c = n →
  read_le (concat cs ++ rest) off n = Ok (le_val c).
Proof.
  intros Hk Hoff Hn. unfold read_le. rewrite (concat_chunk _ _ _ Hk), <- !app_assoc, <- Hoff.
  by rewrite memread_app_mid.
Qed.

Lemma strncpy_read_pad n s rest :
  cstr_ok s → (length s ≤ n)%nat → strncpy_read n (strncpy_pad (S n) s ++ rest) = Ok s.
Proof.
  intros Hs Hn. unfold strncpy_pad. rewrite take_ge by lia.
  replace (S n - length s)%nat with (S (n - length s)) by lia. simpl. rewrite <- app_assoc. simpl.
  by apply strncpy_read_fit.
Qed.

(** The updates the structure can hold; [last_seen_ms] is not transmitted. *)
Definition info_range (u : gossip_node_info) : Prop :=
  node_id_ok (gi_node_id u) ∧ (cstr_ok (gi_address u) ∧ (length (gi_address u) ≤ 255)%nat) ∧
  is_u16 (gi_port u) ∧ is_u32 (gi_status u) ∧ is_u32 (gi_role u) ∧
  is_u64 (gi_incarnation u) ∧ is_u64 (gi_load u).

Definition message_range (msg : gossip_message) : Prop :=
  is_u32 (gm_type msg) ∧ node_id_ok (gm_sender_id msg) ∧ is_u64 (gm_incarnation msg) ∧
  is_u32 (gm_sequence msg) ∧ Forall info_range (gm_updates msg).

#[export] Instance info_range_dec u : Decision (info_range u).
Proof. unfold info_range. apply _. Defined.
#[export] Instance message_range_dec msg : Decision (message_range msg).
Proof. unfold message_range. apply _. Defined.

Lemma le_val_u16 v : is_u16 v → le_val (le_bytes 2 v) = v.
Proof. intros Hv. rewrite le_val_bytes. apply Z.mod_small. exact Hv. Qed.
Lemma le_val_u32 v : is_u32 v → le_val (le_bytes 4 v) = v.
Proof. intros Hv. rewrite le_val_bytes. apply Z.mod_small. exact Hv. Qed.
Lemma le_val_u64 v : is_u64 v → le_val (le_bytes 8 v) = v.
Proof. intros Hv. rewrite le_val_bytes. apply Z.mod_small. exact Hv. Qed.

Ltac chunk_length :=
  unfold update_chunks, header_chunks; cbn [take concat]; rewrite ?length_app, ?strncpy_pad_length, ?le_bytes_length; reflexivity.

Lemma read_le_skip pre l k n : read_le (pre ++ l) (length pre + k) n = read_le l k n.
Proof. unfold read_le. by rewrite memread_skip. Qed.

Lemma read_update_image pre u rest :
  info_range u →
  read_update (pre ++ update_image u ++ rest) (length pre) = Ok (gi_set_last_seen 0 u).
Proof.
  intros (Hid & (Had & Hadl) & Hp & Hst & Hro & Hinc & Hld). unfold read_update, update_image.
  rewrite !read_le_skip, drop_app_length.
  rewrite drop_app_ge by lia. replace (length pre + 64 - length pre)%nat with 64%nat by lia.
  rewrite (drop_chunk (update_chunks u) 1 (strncpy_pad 256 (gi_address u)) rest 64) by (reflexivity || chunk_length).
  rewrite <- (drop_0 (concat (update_chunks u) ++ rest)) at 1.
  rewrite (drop_chunk (update_chunks u) 0 (strncpy_pad 64 (gi_node_id u)) rest 0) by (reflexivity || chunk_length).
  rewrite (strncpy_read_pad 63 (gi_node_id u)) by apply Hid. cbn [mbind result_bind].
  rewrite (strncpy_read_pad 255 (gi_address u)) by done. cbn [mbind result_bind].
  rewrite (read_chunk (update_chunks u) 2 (le_bytes 2 (gi_port u)) rest 320 2) by (reflexivity || chunk_length).
  rewrite (read_chunk (update_chunks u) 3 (le_bytes 4 (gi_status u)) rest 322 4) by (reflexivity || chunk_length).
  rewrite (read_chunk (update_chunks u) 4 (le_bytes 4 (gi_role u)) rest 326 4) by (reflexivity || chunk_length).
  rewrite (read_chunk (update_chunks u) 5 (le_bytes 8 (gi_incarnation u)) rest 330 8) by (reflexivity || chunk_length).
  rewrite (read_chunk (update_chunks u) 6 (le_bytes 8 (gi_load u)) rest 338 8) by (reflexivity || chunk_length).
  cbn [mbind result_bind]. by rewrite le_val_u16, !le_val_u32, !le_val_u64.
Qed.

Lemma read_updates_image us : ∀ pre acc,
  Forall info_range us →
  read_updates (length us) (pre ++ concat (map update_image us)) (length pre) acc =
    Ok (Some (acc ++ map (gi_set_last_seen 0) us)).
Proof.
  induction us as [|u us IH]; intros pre acc Hus; simpl; [by rewrite app_nil_r|].
  apply Forall_cons_iff in Hus as [Hu Hus].
  destruct (Nat.ltb_spec (length (pre ++ update_image u ++ concat (map update_image us))) (length pre + 346)) as [Hlt|_].
  { rewrite !length_app, update_image_length in Hlt. lia. }
  rewrite read_update_image by done. cbn [mbind result_bind].
  rewrite app_assoc. replace (length pre + 346)%nat with (length (pre ++ update_image u))
    by (rewrite length_app, update_image_length; done).
  rewrite IH by done. by rewrite <- app_assoc.
Qed.

(** What arrives of a message. *)
Definition received_message (msg : gossip_message) : gossip_message :=
  GossipMessage (gm_type msg) (gm_sender_id msg) (gm_incarnation msg) (gm_sequence msg)
    (map (gi_set_last_seen 0) (gm_updates msg)).

Lemma deserialize_image msg :
  message_range msg → (1 ≤ length (gm_updates msg) ≤ 10)%nat →
  deserialize_message (message_image msg) = Ok (Some (received_message msg)).
Proof.
  intros (Hty & Hid & Hinc & Hseq & Hus) Hn. unfold deserialize_message.
  rewrite message_image_length.
  destruct (Nat.ltb_spec (92 + 346 * (length (gm_updates msg) `min` 10)) 96); [lia|].
  unfold message_image. rewrite take_ge by lia.
  set (rest := concat (map update_image (gm_updates msg))).
  assert (Hrest : read_updates (length (gm_updates msg)) (header_image msg ++ rest) 92 [] =
    Ok (Some (map (gi_set_last_seen 0) (gm_updates msg)))).
  { rewrite <- (header_image_length msg). by apply (read_updates_image (gm_updates msg) (header_image msg) []). }
  revert Hrest. unfold header_image. intros Hrest.
  rewrite (read_chunk (header_chunks msg) 0 (le_bytes 4 GOSSIP_MAGIC) rest 0 4) by (reflexivity || chunk_length).
  rewrite (read_chunk (header_chunks msg) 1 (le_bytes 4 GOSSIP_VERSION) rest 4 4) by (reflexivity || chunk_length).
  rewrite (read_chunk (header_chunks msg) 2 (le_bytes 4 (gm_type msg)) rest 8 4) by (reflexivity || chunk_length).
  rewrite (read_chunk (header_chunks msg) 3 (le_bytes 4 (gm_sequence msg)) rest 12 4) by (reflexivity || chunk_length).
  rewrite (read_chunk (header_chunks msg) 4 (le_bytes 8 (gm_incarnation msg)) rest 16 8) by (reflexivity || chunk_length).
  rewrite (drop_chunk (header_chunks msg) 5 (strncpy_pad 64 (gm_sender_id msg)) rest 24) by (reflexivity || chunk_length).
  rewrite (read_chunk (header_chunks msg) 6 (le_bytes 4 (Z.of_nat (length (gm_updates msg)))) rest 88 4)
    by (reflexivity || chunk_length).
  rewrite (strncpy_read_pad 63 (gm_sender_id msg)) by apply Hid. cbn [mbind result_bind].
  rewrite !le_val_u32 by (done || ulia). rewrite le_val_u64 by done. cbn [negb].
  rewrite !Z.eqb_refl. cbn [negb].
  rewrite Z.min_l, Nat2Z.id by lia. rewrite Hrest. done.
Qed.

(** What becomes of a message of [n] updates between [send_message], whose
    buffer has 2048 bytes, and the receiver: with one to five updates it arrives as
    it was; without an update it is written as 92 bytes, which the receiver refuses
    as too short; and with six or more the sender writes past its buffer. *)
Theorem datagram_roundtrip msg :
  message_range msg →
  let n := length (gm_updates msg) in
  match serialize_message msg 2048 with
  | Ok bytes =>
      (n ≤ 5)%nat ∧ length bytes = (92 + 346 * n)%nat ∧
      deserialize_message bytes = Ok (if (n =? 0)%nat then None else Some (received_message msg))
  | Err _ => False
  | Fault => (6 ≤ n)%nat
  end.
Proof.
  intros Hr n. rewrite serialize_message_image by lia.
  pose proof (message_image_length msg) as Hlen. fold n in Hlen.
  destruct (Nat.le_gt_cases n 5) as [Hn|Hn].
  - assert (Hfit : (0 + length (message_image msg) ≤ 2048)%nat) by lia.
    rewrite emit_fits by exact Hfit. rewrite app_nil_l. split; [done|]. split; [lia|].
    destruct (Nat.eqb_spec n 0) as [Hz|Hz].
    + unfold deserialize_message. by destruct (Nat.ltb_spec (length (message_image msg)) 96); [|lia].
    + apply deserialize_image; [done|]. unfold n in *. lia.
  - assert (Hover : (2048 < 0 + length (message_image msg))%nat) by lia.
    rewrite emit_overflows by exact Hover. lia.
Qed.

(** *** Any datagram *)

Lemma strncpy_read_enough n : ∀ src, (n ≤ length src)%nat → ∃ s, strncpy_read n src = Ok s.
Proof.
  induction n as [|n IH]; intros src Hn; simpl; [by eexists|].
  destruct src as [|c src]; [simpl in Hn; lia|]. destruct (c =? 0); [by eexists|].
  destruct (IH src) as [s ->]; [simpl in Hn; lia|]. by eexists.
Qed.

Lemma strncpy_read_in buffer off n :
  bytes_ok buffer → (off + n ≤ length buffer)%nat →
  ∃ s, strncpy_read n (drop off buffer) = Ok s ∧ cstr_ok s ∧ (length s ≤ n)%nat.
Proof.
  intros Hb Hn. destruct (strncpy_read_enough n (drop off buffer)) as [s Hs]; [rewrite length_drop; lia|].
  exists s. split; [done|]. apply strncpy_read_ok in Hs as [Hlen Hok]. split; [|done].
  by apply Hok, Forall_drop.
Qed.

Lemma read_le_in buffer off n :
  bytes_ok buffer → (off + n ≤ length buffer)%nat →
  ∃ v, read_le buffer off n = Ok v ∧ 0 ≤ v < 256 ^ Z.of_nat n.
Proof.
  intros Hb Hn. unfold read_le. rewrite memread_ok by done. cbn [mbind result_bind].
  eexists. split; [done|]. pose proof (le_val_bound (take n (drop off buffer))) as Hv.
  rewrite length_take, length_drop, Nat.min_l in Hv by lia. by apply Hv, Forall_take, Forall_drop.
Qed.

Lemma read_update_total buffer off :
  bytes_ok buffer → (off + 346 ≤ length buffer)%nat →
  ∃ u, read_update buffer off = Ok u ∧ info_range u.
Proof.
  intros Hb Hn. unfold read_update.
  destruct (strncpy_read_in buffer off 63 Hb ltac:(lia)) as (id & -> & Hid & Hidl).
  destruct (strncpy_read_in buffer (off + 64) 255 Hb ltac:(lia)) as (ad & -> & Had & Hadl).
  destruct (read_le_in buffer (off + 320) 2 Hb ltac:(lia)) as (p & -> & Hp).
  destruct (read_le_in buffer (off + 322) 4 Hb ltac:(lia)) as (st & -> & Hst).
  destruct (read_le_in buffer (off + 326) 4 Hb ltac:(lia)) as (ro & -> & Hro).
  destruct (read_le_in buffer (off + 330) 8 Hb ltac:(lia)) as (inc & -> & Hinc).
  destruct (read_le_in buffer (off + 338) 8 Hb ltac:(lia)) as (ld & -> & Hld).
  cbn [mbind result_bind]. eexists. split; [done|].
  exact (conj (conj Hid Hidl) (conj (conj Had Hadl) (conj Hp (conj Hst (conj Hro (conj Hinc Hld)))))).
Qed.

Lemma read_updates_total n buffer : ∀ off acc,
  bytes_ok buffer → Forall info_range acc →
  ∃ r, read_updates n buffer off acc = Ok r ∧
    (∀ us, r = Some us → Forall info_range us ∧ length us = (length acc + n)%nat).
Proof.
  induction n as [|n IH]; intros off acc Hb Hacc; simpl.
  - eexists. split; [done|]. intros us [= <-]. split; [done|lia].
  - destruct (Nat.ltb_spec (length buffer) (off + 346)); [by eexists|].
    destruct (read_update_total buffer off Hb ltac:(lia)) as (u & -> & Hu). cbn [mbind result_bind].
    destruct (IH (off + 346)%nat (acc ++ [u]) Hb) as (r & -> & Hr); [apply Forall_app_2; [done|by constructor]|].
    exists r. split; [done|]. intros us Hus. destruct (Hr us Hus) as [? Hl]. split; [done|].
    rewrite length_app in Hl. simpl in Hl. lia.
Qed.

Lemma deserialize_spec buffer :
  bytes_ok buffer →
  ∃ r, deserialize_message buffer = Ok r ∧
    ∀ msg, r = Some msg →
      message_range msg ∧ message_ok msg ∧ (length (gm_updates msg) ≤ 10)%nat.
Proof.
  intros Hb. unfold deserialize_message.
  destruct (Nat.ltb_spec (length buffer) 96); [by eexists|].
  destruct (read_le_in buffer 0 4 Hb ltac:(lia)) as (magic & -> & _). cbn [mbind result_bind].
  destruct (negb _); [by eexists|].
  destruct (read_le_in buffer 4 4 Hb ltac:(lia)) as (version & -> & _). cbn [mbind result_bind].
  destruct (negb _); [by eexists|].
  destruct (read_le_in buffer 8 4 Hb ltac:(lia)) as (ty & -> & Hty).
  destruct (read_le_in buffer 12 4 Hb ltac:(lia)) as (seq & -> & Hseq).
  destruct (read_le_in buffer 16 8 Hb ltac:(lia)) as (inc & -> & Hinc).
  destruct (strncpy_read_in buffer 24 63 Hb ltac:(lia)) as (id & -> & Hid & Hidl).
  destruct (read_le_in buffer 88 4 Hb ltac:(lia)) as (count & -> & Hcount). cbn [mbind result_bind].
  destruct (read_updates_total (Z.to_nat (Z.min count 10)) buffer 92 [] Hb) as (r & -> & Hr); [constructor|].
  cbn [mbind result_bind]. eexists. split; [done|]. destruct r as [us|]; [|done].
  intros msg [= <-]. destruct (Hr us eq_refl) as [Hus Hlen]. simpl in Hlen.
  split; [exact (conj Hty (conj (conj Hid Hidl) (conj Hinc (conj Hseq Hus))))|]. split; [|simpl; lia]. split; [by split|]. split; [done|]. simpl.
  eapply list.Forall_impl; [exact Hus|]. intros u (? & _ & _ & _ & _ & ? & _). by split.
Qed.

(** The receiver is safe on every datagram: whatever its bytes and its length,
    decoding it reads nothing outside of it and either refuses it or yields a
    message of at most ten updates whose members are in range, so one that keeps
    the membership list well formed. *)
Theorem deserialize_message_total buffer :
  bytes_ok buffer →
  ∃ r, deserialize_message buffer = Ok r ∧
    ∀ msg, r = Some msg →
      message_range msg ∧ message_ok msg ∧ (length (gm_updates msg) ≤ 10)%nat.
Proof. apply deserialize_spec. Qed.

Lemma datagram_roundtrip_witness :
  let msg := GossipMessage GOSSIP_MSG_PING [97] 3 9 [info_with [98] GOSSIP_NODE_ALIVE 2] in
  message_range msg ∧
  match serialize_message msg 2048 with
  | Ok bytes => deserialize_message bytes = Ok (Some (received_message msg))
  | _ => False
  end.
Proof.
  intros msg. assert (Hr : message_range msg) by by_decide. split; [exact Hr|].
  pose proof (datagram_roundtrip msg Hr) as H. simpl length in H. cbv zeta in H.
  destruct (serialize_message msg 2048) as [bytes| |]; [|exact H|simpl in H; lia].
  destruct H as (_ & _ & H). exact H.
Defined.

Lemma deserialize_message_total_witness :
  bytes_ok (replicate 2048 80) ∧ ∃ r, deserialize_message (replicate 2048 80) = Ok r.
Proof.
  assert (Hb : bytes_ok (replicate 2048 80)) by by_bytes. split; [exact Hb|].
  destruct (deserialize_message_total _ Hb) as (r & Hr & _). exists r. exact Hr.
Defined.
