(* ===== verification/GossipProtocol.v ===== *)
(** * Gossip: the protocol threads

    The SWIM round and the receiver of
    [src/libs/distric_gossip/src/gossip_core.c], over the datagrams of
    [GossipWire.v]: the choice of a node to probe, direct and indirect probes,
    their consequences, and the handling of what arrives.

    A thread's turn is a function of the state and of what its environment
    answers: the random numbers, the conversion of addresses, the socket.  The
    two threads share the state through the lock of the membership list, so each
    of their turns between two lock operations is atomic; here a whole round and
    a whole reception are the steps.  Pointers to entries are positions. *)

From Stdlib Require Import ZArith Lia.
From stdpp Require Import base list numbers option sets.
From S2P Require Import Prelude CString GossipMembership GossipSpec GossipLifecycle GossipWire.

Local Open Scope Z_scope.

(** ** The environment *)

(** [inet_pton] accepts an address; [sendto] sends a datagram completely; the
    results of [rand]. *)
Record gossip_env := GossipEnv {
  env_address : list Z → bool;
  env_sendto : list Z → Z → list Z → bool;
  env_rand : nat → Z
}.

(** What [receive_message] answers, while a thread waits for an acknowledgement. *)
Inductive reception :=
  | RecvMessage (msg : gossip_message)
  | RecvTimeout
  | RecvError.

(** [true]: the message was sent. *)
Definition send_message (env : gossip_env) (msg : gossip_message) (dest_addr : list Z)
    (dest_port : Z) : result bool :=
  bytes ← serialize_message msg 2048;
  if (length bytes =? 0)%nat then Ok false
  else if negb (env_address env dest_addr) then Ok false
  else Ok (env_sendto env dest_addr dest_port bytes).

(** [receive_message] on a datagram. *)
Definition receive_message (buffer : list Z) : result reception :=
  msg ← deserialize_message buffer;
  Ok (match msg with Some msg => RecvMessage msg | None => RecvError end).

(** ** Choosing nodes *)

Definition is_probe_target (e : membership_entry) : bool :=
  (me_status e =? GOSSIP_NODE_ALIVE) && negb (me_local_node e).

(** The positions, among the entries from position [i], of those that satisfy
    [p]. *)
Fixpoint positions (p : membership_entry → bool) (i : nat) (es : list membership_entry) : list nat :=
  match es with
  | [] => []
  | e :: es => if p e then i :: positions p (S i) es else positions p (S i) es
  end.

Definition select_probe_target (rand : Z) (s : gossip_state) : option nat :=
  let alive := positions is_probe_target 0 (gs_membership s) in
  if (length alive =? 0)%nat then None
  else alive !! Z.to_nat (rand mod Z.of_nat (length alive)).

Definition is_prober (exclude_id : list Z) (e : membership_entry) : bool :=
  is_probe_target e && negb (streq (me_id e) exclude_id).

(** The Fisher-Yates loop from [i]: [k] more choices. *)
Fixpoint shuffle (rand : nat → Z) (k i : nat) (candidates probers : list nat) : list nat :=
  match k with
  | O => probers
  | S k =>
      let j := (i + Z.to_nat (rand i mod Z.of_nat (length candidates - i)))%nat in
      match candidates !! j, candidates !! i with
      | Some cj, Some ci => shuffle rand k (S i) (<[j := ci]> candidates) (probers ++ [cj])
      | _, _ => probers
      end
  end.

Definition select_indirect_probers (rand : nat → Z) (s : gossip_state) (exclude_id : list Z) :
    list nat :=
  let candidates := positions (is_prober exclude_id) 0 (gs_membership s) in
  if (length candidates =? 0)%nat then []
  else
    shuffle rand (Z.to_nat (gc_indirect_probes (gs_config s)) `min` length candidates) 0 candidates [].

(** ** Probes *)
Section protocol.
Variable clock : nat → Z.
Variable env : gossip_env.

(** The wait for an acknowledgement of [id]: the receptions that happen until
    then, none left being a wait until the timeout. *)
Fixpoint wait_ack (recvs : list reception) (start : Z) (id : list Z) (s : gossip_state) :
    bool * gossip_state :=
  let '(now, s) := get_time_ms clock s in
  if u64 (now - start) <? gc_probe_timeout_ms (gs_config s) then
    match recvs with
    | [] => (false, s)
    | r :: recvs =>
        let s := gs_tick s in
        match r with
        | RecvMessage msg =>
            if (gm_type msg =? GOSSIP_MSG_ACK) && streq (gm_sender_id msg) id then (true, s)
            else wait_ack recvs start id s
        | RecvTimeout => (false, s)
        | RecvError => wait_ack recvs start id s
        end
    end
  else (false, s).

(** A message of this node with the next sequence number. *)
Definition new_message (type : Z) (s : gossip_state) : gossip_message * gossip_state :=
  (GossipMessage type (strncpy 63 (gc_node_id (gs_config s))) (gs_self_incarnation s)
     (u32 (gs_sequence_counter s)) [],
   gs_set_sequence (u64 (gs_sequence_counter s + 1)) s).

Definition with_updates (msg : gossip_message) (us : list gossip_node_info) : gossip_message :=
  GossipMessage (gm_type msg) (gm_sender_id msg) (gm_incarnation msg) (gm_sequence msg) us.

(** [true]: acknowledged; a failed [send_message] is as no acknowledgement to the
    callers. *)
Definition probe_node_direct (target : gossip_node_info) (recvs : list reception)
    (s : gossip_state) : result (bool * gossip_state) :=
  let '(ping, s) := new_message GOSSIP_MSG_PING s in
  let '(us, s) := gossip_get_updates_to_broadcast s in
  sent ← send_message env (with_updates ping us) (gi_address target) (gi_port target);
  if negb sent then Ok (false, s)
  else
    let '(start, s) := get_time_ms clock s in
    Ok (wait_ack recvs start (gi_node_id target) s).

(** The loop that sends the PING-REQ to the probers. *)
Fixpoint send_all (msg : gossip_message) (probers : list nat) (s : gossip_state) : result unit :=
  match probers with
  | [] => Ok ()
  | i :: probers =>
      match gs_membership s !! i with
      | Some p =>
          _ ← send_message env msg (gi_address (me_info p)) (gi_port (me_info p)); send_all msg probers s
      | None => Fault
      end
  end.

Definition probe_node_indirect (target : gossip_node_info) (recvs : list reception)
    (s : gossip_state) : result (bool * gossip_state) :=
  let probers := select_indirect_probers (λ i, env_rand env (S i)) s (gi_node_id target) in
  if (length probers =? 0)%nat then Ok (false, s)
  else
    let '(ping_req, s) := new_message GOSSIP_MSG_PING_REQ s in
    _ ← send_all (with_updates ping_req [target]) probers s;
    let '(start, s) := get_time_ms clock s in
    Ok (wait_ack recvs start (gi_node_id target) s).

(** What the loop does with the node to probe. *)
Definition probe (target : gossip_node_info) (direct indirect : list reception) (s : gossip_state) :
    result gossip_state :=
  r ← probe_node_direct target direct s;
  let '(acked, s) := r in
  if negb acked then
    r ← probe_node_indirect target indirect s;
    let '(acked, s) := r in
    if negb acked then Ok (gossip_mark_node_suspected clock s (gi_node_id target)) else Ok s
  else Ok (gossip_mark_node_alive clock s (gi_node_id target)).

(** One turn of the loop of [gossip_protocol_thread], up to its sleep; [None] is
    a check of the timeouts that does not end. *)
Definition gossip_round (direct indirect : list reception) (s : gossip_state) :
    result (option gossip_state) :=
  let s := gs_tick s in  (* round_start *)
  s ←
    match select_probe_target (env_rand env 0) s with
    | None => Ok s
    | Some i =>
        match gs_membership s !! i with
        | None => Fault
        | Some e => probe (me_info e) direct indirect s
        end
    end;
  Ok (gossip_check_suspicion_timeouts clock s).

(** ** The receiver *)

Definition handle_ping (msg : gossip_message) (src_addr : list Z) (src_port : Z)
    (s : gossip_state) : result gossip_state :=
  let s := gossip_update_node_from_message clock s msg src_addr src_port in
  let '(us, s) := gossip_get_updates_to_broadcast s in
  let ack :=
    GossipMessage GOSSIP_MSG_ACK (strncpy 63 (gc_node_id (gs_config s))) (gs_self_incarnation s)
      (gm_sequence msg) us in
  _ ← send_message env ack src_addr src_port;
  Ok s.

(** One turn of the loop of [gossip_receiver_thread], on a datagram. *)
Definition gossip_receive (buffer src_addr : list Z) (src_port : Z) (s : gossip_state) :
    result gossip_state :=
  r ← receive_message buffer;
  match r with
  | RecvMessage msg =>
      if gm_type msg =? GOSSIP_MSG_PING then handle_ping msg src_addr src_port s
      else if gm_type msg =? GOSSIP_MSG_MEMBERSHIP
      then Ok (gossip_update_node_from_message clock s msg src_addr src_port)
      else if gm_type msg =? GOSSIP_MSG_LEAVE then Ok (gossip_handle_node_leave s (gm_sender_id msg))
      else Ok s  (* ACK, PING-REQ *)
  | _ => Ok s
  end.
End protocol.

(** ** The choices *)

Lemma positions_lookup p es : ∀ i k,
  k ∈ positions p i es ↔ ∃ j e, k = (i + j)%nat ∧ es !! j = Some e ∧ p e = true.
Proof.
  induction es as [|e es IH]; intros i k; simpl.
  - split; [by intros ?%elem_of_nil|]. intros (j & x & _ & Hj & _). by rewrite lookup_nil in Hj.
  - assert (Htail : k ∈ positions p (S i) es ↔ ∃ j x, k = (i + S j)%nat ∧ es !! j = Some x ∧ p x = true).
    { rewrite IH. split; intros (j & x & -> & ?); exists j, x; (split; [lia|done]). }
    assert (Hsplit : (∃ j x, k = (i + j)%nat ∧ (e :: es) !! j = Some x ∧ p x = true) ↔
      (k = i ∧ p e = true) ∨ k ∈ positions p (S i) es).
    { rewrite Htail. split.
      - intros ([|j] & x & -> & Hj & Hx); simplify_eq/=; [left; split; [lia|done]|right; eauto].
      - intros [[-> He]|(j & x & -> & Hj & Hx)]; [exists 0%nat, e; split; [lia|done]|by exists (S j), x]. }
    rewrite Hsplit. destruct (p e); [rewrite elem_of_cons|]; naive_solver.
Qed.

Lemma positions_NoDup p es : ∀ i, NoDup (positions p i es).
Proof.
  induction es as [|e es IH]; intros i; simpl; [constructor|].
  destruct (p e); [|apply IH]. constructor; [|apply IH].
  intros (j & x & Hj & _)%positions_lookup. lia.
Qed.

Lemma Permutation_swap_insert {A} (l : list A) i x y :
  l !! i = Some x → x :: <[i := y]> l ≡ₚ y :: l.
Proof.
  intros Hi. rewrite insert_take_drop by by eapply lookup_lt_Some.
  rewrite <- (take_drop_middle l i x Hi) at 3. rewrite <- !Permutation_middle. apply Permutation_swap.
Qed.

(** The shuffle moves elements: what it has chosen and what is left to choose are
    always the candidates. *)
Lemma shuffle_perm rand k : ∀ i cs ps,
  (i + k ≤ length cs)%nat →
  ∃ new rest, shuffle rand k i cs ps = ps ++ new ∧ length new = k ∧ new ++ rest ≡ₚ drop i cs.
Proof.
  induction k as [|k IH]; intros i cs ps Hk; simpl.
  - exists [], (drop i cs). by rewrite app_nil_r.
  - set (j := (i + Z.to_nat (rand i mod Z.of_nat (length cs - i)))%nat).
    assert (Hj : (i ≤ j < length cs)%nat).
    { pose proof (Z.mod_pos_bound (rand i) (Z.of_nat (length cs - i)) ltac:(lia)). unfold j. lia. }
    destruct (lookup_lt_is_Some_2 cs j ltac:(lia)) as [cj Hcj].
    destruct (lookup_lt_is_Some_2 cs i ltac:(lia)) as [ci Hci]. rewrite Hcj, Hci.
    destruct (IH (S i) (<[j := ci]> cs) (ps ++ [cj])) as (new & rest & -> & Hlen & Hperm);
      [rewrite length_insert; lia|].
    exists (cj :: new), rest. rewrite <- app_assoc. split; [done|]. split; [simpl; lia|].
    simpl. rewrite Hperm. rewrite (drop_S cs ci i Hci).
    destruct (decide (j = i)) as [Heq|Hne].
    + rewrite Heq in Hcj |- *. rewrite Hci in Hcj. injection Hcj as ->.
      by rewrite drop_insert_lt by lia.
    + rewrite drop_insert_ge by lia.
      assert (Hd : drop (S i) cs !! (j - S i)%nat = Some cj) by (rewrite lookup_drop; rewrite <- Hcj; f_equal; lia).
      by apply Permutation_swap_insert.
Qed.

Lemma select_probe_target_spec r s :
  match select_probe_target r s with
  | Some i => ∃ e, gs_membership s !! i = Some e ∧ is_probe_target e = true
  | None => Forall (λ e, is_probe_target e = false) (gs_membership s)
  end.
Proof.
  unfold select_probe_target. set (ps := positions is_probe_target 0 (gs_membership s)).
  destruct (Nat.eqb_spec (length ps) 0) as [Hz|Hz].
  + apply list.Forall_forall. intros e [j Hj]%list_elem_of_lookup.
    destruct (is_probe_target e) eqn:He; [|done].
    assert (j ∈ ps) as Hin by (apply positions_lookup; exists j, e; split; [lia|done]).
    apply nil_length_inv in Hz. rewrite Hz in Hin. by apply elem_of_nil in Hin.
  + pose proof (Z.mod_pos_bound r (Z.of_nat (length ps)) ltac:(lia)) as Hr.
    destruct (lookup_lt_is_Some_2 ps (Z.to_nat (r mod Z.of_nat (length ps)))) as [i Hi]; [lia|].
    rewrite Hi. apply list_elem_of_lookup_2, positions_lookup in Hi as (j & e & -> & He).
    exists e. exact He.
Qed.

Lemma probers_spec rand s id :
  let probers := select_indirect_probers rand s id in
  NoDup probers ∧
  Forall (λ i, ∃ e, gs_membership s !! i = Some e ∧ is_prober id e = true) probers ∧
  length probers =
    (Z.to_nat (gc_indirect_probes (gs_config s)) `min`
       length (List.filter (is_prober id) (gs_membership s)))%nat.
Proof.
  intros probers. unfold probers, select_indirect_probers.
  set (ps := positions (is_prober id) 0 (gs_membership s)).
  assert (Hlen : length ps = length (List.filter (is_prober id) (gs_membership s))).
  { unfold ps. generalize 0%nat. induction (gs_membership s) as [|e es IH]; intros i; simpl; [done|].
    destruct (is_prober id e); simpl; rewrite (IH (S i)); done. }
  destruct (Nat.eqb_spec (length ps) 0) as [Hz|Hz].
  { split_and!; [constructor|constructor|]. simpl. lia. }
  destruct (shuffle_perm rand (Z.to_nat (gc_indirect_probes (gs_config s)) `min` length ps) 0 ps [])
    as (new & rest & -> & Hnew & Hperm); [lia|]. rewrite app_nil_l, drop_0 in *.
  split_and!; [| |lia].
  + pose proof (positions_NoDup (is_prober id) (gs_membership s) 0) as Hnd. fold ps in Hnd.
    rewrite <- Hperm in Hnd. by apply list.NoDup_app in Hnd as [? _].
  + apply list.Forall_forall. intros i Hi. assert (Hin : i ∈ ps) by (rewrite <- Hperm; set_solver).
    apply positions_lookup in Hin as (j & e & -> & He). exists e. exact He.
Qed.

(** Whom a round talks to, for any random numbers: the node to probe is an
    alive one other than the own, and there is one whenever such a node is known;
    the intermediaries are as many different alive nodes, none of them the probed
    one or the own, as are configured and known. *)
Theorem probe_choices rand r s id :
  (match select_probe_target r s with
   | Some i => ∃ e, gs_membership s !! i = Some e ∧ is_probe_target e = true
   | None => Forall (λ e, is_probe_target e = false) (gs_membership s)
   end) ∧
  let probers := select_indirect_probers rand s id in
  NoDup probers ∧
  Forall (λ i, ∃ e, gs_membership s !! i = Some e ∧ is_prober id e = true) probers ∧
  length probers =
    (Z.to_nat (gc_indirect_probes (gs_config s)) `min`
       length (List.filter (is_prober id) (gs_membership s)))%nat.
Proof. split; [apply select_probe_target_spec|apply probers_spec]. Qed.

(** ** A round *)

Section round.
Variable clock : nat → Z.
Variable env : gossip_env.
Implicit Types (s : gossip_state).

(** Sending depends on the number of updates only. *)
Lemma send_message_fits msg addr port :
  (length (gm_updates msg) ≤ 5)%nat → ∃ b, send_message env msg addr port = Ok b.
Proof.
  intros Hn. unfold send_message. rewrite serialize_message_image by lia.
  assert (Hfit : (0 + length (message_image msg) ≤ 2048)%nat) by (rewrite message_image_length; lia).
  rewrite emit_fits by exact Hfit. cbn [mbind result_bind]. repeat case_match; eauto.
Qed.

Lemma send_message_overflows msg addr port :
  (6 ≤ length (gm_updates msg))%nat → send_message env msg addr port = Fault.
Proof.
  intros Hn. unfold send_message. rewrite serialize_message_image by lia.
  assert (Hover : (2048 < 0 + length (message_image msg))%nat) by (rewrite message_image_length; lia).
  by rewrite emit_overflows by exact Hover.
Qed.

(** A step that changes no view of a node and calls nothing. *)
Definition quiet_step s s' : Prop :=
  good_step s s' ∧ gs_events s' = gs_events s ∧ ∀ id, view s' id = view s id.

Lemma quiet_refl s : gossip_wf s → quiet_step s s.
Proof. intros Hw. split; [by apply good_step_refl|done]. Qed.

Lemma quiet_trans s1 s2 s3 : quiet_step s1 s2 → quiet_step s2 s3 → quiet_step s1 s3.
Proof.
  intros (H1 & He1 & Hv1) (H2 & He2 & Hv2). split; [by eapply good_step_trans|]. split; [congruence|].
  intros id. by rewrite Hv2.
Qed.

Lemma quiet_wf s s' : quiet_step s s' → gossip_wf s'.
Proof. intros [[Hw _] _]. exact Hw. Qed.

Lemma tick_quiet s : gossip_wf s → quiet_step s (gs_tick s).
Proof. intros Hw. split; [by apply tick_step|done]. Qed.

Lemma sequence_quiet s n : gossip_wf s → quiet_step s (gs_set_sequence n s).
Proof. intros Hw. split; [|done]. apply same_step; try done. apply Hw. Qed.

(** Counting transmissions down changes no view. *)
Lemma get_updates_quiet s : gossip_wf s → quiet_step s (gossip_get_updates_to_broadcast s).2.
Proof.
  intros Hw. pose proof (get_updates_step s Hw) as Hgood. pose proof (get_updates_spec s) as Hg.
  destruct (gossip_get_updates_to_broadcast s) as [us s']. destruct Hg as (_ & _ & Hs' & Hall).
  cbn [snd] in *. split; [done|]. split; [by rewrite Hs'|]. clear Hs'.
  intros id. unfold view, lookup_entry, membership_find. clear Hw Hgood.
  induction Hall as [|e e' es es' He _ IH]; simpl; [done|].
  assert (Hsame : me_id e' = me_id e ∧ view_of e' = view_of e) by by destruct He as [->|[_ ->]].
  destruct Hsame as [-> Hview]. destruct (decide (me_id e = id)); simpl; [by rewrite Hview|].
  destruct (list_find _ es') as [[? ?]|], (list_find _ es) as [[? ?]|]; exact IH.
Qed.

Lemma wait_ack_quiet recvs start id : ∀ s, gossip_wf s → quiet_step s (wait_ack clock recvs start id s).2.
Proof.
  induction recvs as [|r recvs IH]; intros s Hw; cbn [wait_ack].
  - unfold get_time_ms. cbv beta iota. destruct (_ <? _); by apply tick_quiet.
  - unfold get_time_ms. cbv beta iota. destruct (_ <? _); [|by apply tick_quiet].
    assert (H1 : quiet_step s (gs_tick (gs_tick s)))
      by (eapply quiet_trans; [by apply tick_quiet|apply (tick_quiet (gs_tick s)), tick_quiet, Hw]).
    assert (H2 : quiet_step s (wait_ack clock recvs start id (gs_tick (gs_tick s))).2)
      by (eapply quiet_trans; [exact H1|apply IH, (quiet_wf _ _ H1)]).
    repeat case_match; done.
Qed.

(** An acknowledgement of [id]. *)
Definition is_ack (id : list Z) (r : reception) : Prop :=
  match r with
  | RecvMessage msg => gm_type msg = GOSSIP_MSG_ACK ∧ gm_sender_id msg = id
  | _ => False
  end.

Lemma wait_ack_true recvs start id : ∀ s,
  (wait_ack clock recvs start id s).1 = true → Exists (is_ack id) recvs.
Proof.
  induction recvs as [|r recvs IH]; intros s; cbn [wait_ack]; unfold get_time_ms; cbv beta iota;
    (destruct (_ <? _); [|done]); [done|].
  destruct r as [msg| |]; [|done|intros H; by eapply Exists_cons_tl, IH].
  destruct (Z.eqb_spec (gm_type msg) GOSSIP_MSG_ACK); simpl; [|intros H; by eapply Exists_cons_tl, IH].
  destruct (streq_spec (gm_sender_id msg) id); [|intros H; by eapply Exists_cons_tl, IH].
  intros _. by apply Exists_cons_hd.
Qed.

Definition pending_count s : nat := length (filter pending (gs_membership s)).

Lemma updates_count s :
  length (gossip_get_updates_to_broadcast s).1 = (10 `min` pending_count s)%nat.
Proof.
  pose proof (get_updates_spec s) as Hg. destruct (gossip_get_updates_to_broadcast s) as [us s'].
  destruct Hg as (-> & _). simpl. by rewrite length_fmap, length_take.
Qed.

Lemma probe_direct_outcome target recvs s :
  gossip_wf s →
  if (pending_count s <=? 5)%nat
  then ∃ b s', probe_node_direct clock env target recvs s = Ok (b, s') ∧ quiet_step s s' ∧
         (b = true → Exists (is_ack (gi_node_id target)) recvs)
  else probe_node_direct clock env target recvs s = Fault.
Proof.
  intros Hw. unfold probe_node_direct, new_message. cbv beta iota.
  set (s1 := gs_set_sequence _ s). assert (Hs1 : quiet_step s s1) by by apply sequence_quiet.
  change (pending_count s) with (pending_count s1).
  pose proof (updates_count s1) as Hn. pose proof (get_updates_quiet s1 (quiet_wf _ _ Hs1)) as Hs2.
  destruct (gossip_get_updates_to_broadcast s1) as [us s2].
  cbn [fst snd] in Hn, Hs2.
  destruct (Nat.leb_spec (pending_count s1) 5).
  - match goal with |- context [send_message env ?m ?a ?p] =>
      destruct (send_message_fits m a p) as [b ->]; [cbn [with_updates gm_updates]; lia|] end.
    cbn [mbind result_bind].
    destruct (negb b); [exists false, s2; split; [done|]; split; [|done];
      eapply quiet_trans; [exact Hs1|exact Hs2]|].
    unfold get_time_ms. cbv beta iota.
    match goal with |- context [wait_ack clock ?r ?t ?i ?s3] =>
      pose proof (wait_ack_quiet r t i s3) as Hwait; pose proof (wait_ack_true r t i s3) as Hack;
      destruct (wait_ack clock r t i s3) as [a s4] end.
    exists a, s4. split; [done|]. split; [|exact Hack].
    assert (Hs3 : quiet_step s2 (gs_tick s2)) by apply tick_quiet, (quiet_wf _ _ Hs2).
    eapply quiet_trans; [exact Hs1|]. eapply quiet_trans; [exact Hs2|].
    eapply quiet_trans; [exact Hs3|]. apply Hwait, (quiet_wf _ _ Hs3).
  - by rewrite send_message_overflows by (cbn [with_updates gm_updates]; lia).
Qed.

Lemma send_all_ok msg probers s :
  (length (gm_updates msg) ≤ 5)%nat →
  Forall (λ i, is_Some (gs_membership s !! i)) probers → send_all env msg probers s = Ok ().
Proof.
  intros Hn. induction 1 as [|i ps [e He] _ IH]; simpl; [done|]. rewrite He.
  destruct (send_message_fits msg (gi_address (me_info e)) (gi_port (me_info e)) Hn) as [b ->]. exact IH.
Qed.

Lemma probe_indirect_outcome target recvs s :
  gossip_wf s → ∃ b s', probe_node_indirect clock env target recvs s = Ok (b, s') ∧ quiet_step s s' ∧
    (b = true → Exists (is_ack (gi_node_id target)) recvs).
Proof.
  intros Hw. unfold probe_node_indirect.
  set (ps := select_indirect_probers _ s _).
  assert (Hps : Forall (λ i, is_Some (gs_membership s !! i)) ps).
  { destruct (probers_spec (λ i, env_rand env (S i)) s (gi_node_id target)) as (_ & Hall & _).
    eapply list.Forall_impl; [exact Hall|]. intros i (e & -> & _). by eexists. }
  destruct (_ =? _)%nat; [exists false, s; split; [done|]; split; [by apply quiet_refl|done]|].
  unfold new_message. cbv beta iota.
  set (s1 := gs_set_sequence _ s). assert (Hs1 : quiet_step s s1) by by apply sequence_quiet.
  rewrite send_all_ok by (simpl; lia || done). cbn [mbind result_bind]. unfold get_time_ms. cbv beta iota.
  match goal with |- context [wait_ack clock ?r ?t ?i ?s3] =>
    pose proof (wait_ack_quiet r t i s3) as Hwait; pose proof (wait_ack_true r t i s3) as Hack;
      destruct (wait_ack clock r t i s3) as [a s4] end.
  exists a, s4. split; [done|]. split; [|exact Hack]. eapply quiet_trans; [exact Hs1|].
  assert (Hs2 : quiet_step s1 (gs_tick s1)) by apply tick_quiet, (quiet_wf _ _ Hs1).
  eapply quiet_trans; [exact Hs2|]. apply Hwait, (quiet_wf _ _ Hs2).
Qed.

(** What the check of the timeouts does to views. *)
Definition may_fail s s' (id : list Z) : Prop :=
  view s' id = view s id ∨
  ∃ n, view s id = Some (GOSSIP_NODE_SUSPECTED, n) ∧ view s' id = Some (GOSSIP_NODE_FAILED, n).

Lemma fail_all_views now timeout s id : may_fail s (fail_all_expired now timeout s) id.
Proof.
  unfold may_fail, view, lookup_entry, membership_find. simpl.
  induction (gs_membership s) as [|e es IH]; simpl; [by left|].
  assert (Hid : me_id (fail_expired (gs_config s) now timeout e) = me_id e)
    by (unfold fail_expired; by destruct (suspicion_expired _ _ _)).
  rewrite Hid. destruct (decide (me_id e = id)); simpl.
  - unfold fail_expired, suspicion_expired. destruct (Z.eqb_spec (me_status e) GOSSIP_NODE_SUSPECTED) as [He|];
      [|by left].
    destruct (_ >=? _); [right|by left]. unfold view_of at 1. rewrite He. by eexists.
  - destruct (list_find (λ e0, me_id e0 = id) es) as [[? ?]|],
      (list_find (λ e0, me_id e0 = id) (map _ es)) as [[? ?]|]; exact IH.
Qed.

Lemma check_outcome s :
  gossip_wf s →
  ∃ s', gossip_check_suspicion_timeouts clock s = Some s' ∧ good_step s s' ∧ ∀ id, may_fail s s' id.
Proof.
  intros Hw. rewrite suspicion_check by done. eexists. split; [done|]. split.
  - eapply good_step_trans; [by apply tick_step|]. by apply fail_all_expired_step, tick_step.
  - intros id. apply (fail_all_views _ _ (gs_tick s)).
Qed.

(** The entry of a node of which only the view is known. *)
Lemma view_find s id st n :
  view s id = Some (st, n) →
  ∃ i e, membership_find s id = Some (i, e) ∧ me_id e = id ∧ me_status e = st ∧ me_incarnation e = n.
Proof.
  unfold view, lookup_entry. destruct (membership_find s id) as [[i e]|] eqn:Hf; [|done].
  intros [= <- <-]. apply membership_find_Some in Hf as [_ Hid]. by exists i, e.
Qed.

Lemma mark_alive_alive s id n : view s id = Some (GOSSIP_NODE_ALIVE, n) → gossip_mark_node_alive clock s id = s.
Proof.
  intros (i & e & Hf & _ & Hst & _)%view_find. unfold gossip_mark_node_alive. by rewrite Hf, Hst.
Qed.

Lemma view_gossip_call registered ev s id : view (gossip_call registered ev s) id = view s id.
Proof. unfold gossip_call. by destruct (registered _). Qed.

Lemma mark_suspected_alive s id n :
  gossip_wf s → id ≠ gc_node_id (gs_config s) → view s id = Some (GOSSIP_NODE_ALIVE, n) →
  ∀ id', view (gossip_mark_node_suspected clock s id) id' =
    if decide (id' = id) then Some (GOSSIP_NODE_SUSPECTED, n) else view s id'.
Proof.
  intros Hw Hne (i & e & Hf & Hid & Hst & Hinc)%view_find id'. unfold gossip_mark_node_suspected.
  rewrite Hf. pose proof (found_wf _ _ _ _ Hw Hf) as He.
  assert (Hloc : me_local_node e = false)
    by (rewrite (ew_local _ _ He), Hid; by destruct (streq_spec id (gc_node_id (gs_config s)))).
  rewrite Hloc, Hst. simpl. unfold get_time_ms. cbv beta iota.
  rewrite view_gossip_call, (view_set_entry _ i e).
  - rewrite Hid. destruct (decide (id' = id)); [|done]. unfold view_of. simpl. rewrite <- Hinc. done.
  - by apply tick_step.
  - by apply membership_find_Some in Hf as [Hf _].
  - done.
Qed.

Lemma is_probe_target_spec e :
  is_probe_target e = true → me_status e = GOSSIP_NODE_ALIVE ∧ me_local_node e = false.
Proof. unfold is_probe_target. intros [->%Z.eqb_eq ?%negb_true_iff]%andb_true_iff. done. Qed.

Lemma probe_target_remote s i e :
  gossip_wf s → gs_membership s !! i = Some e → is_probe_target e = true →
  me_id e ≠ gc_node_id (gs_config s).
Proof.
  intros Hw Hi [_ Hloc]%is_probe_target_spec Hid.
  rewrite (ew_local _ _ (Forall_lookup_1 _ _ _ _ (gw_entries _ Hw) Hi)), Hid in Hloc.
  by destruct (streq_spec (gc_node_id (gs_config s)) (gc_node_id (gs_config s))).
Qed.

Lemma no_ack id rs : Forall (λ r, ¬ is_ack id r) rs → ¬ Exists (is_ack id) rs.
Proof. induction 1 as [|r rs Hr _ IH]; by inversion 1. Qed.

(** What a round does, when it has a node [e] to probe and room in its messages. *)
Lemma probe_outcome e i direct indirect s :
  gossip_wf s → gs_membership s !! i = Some e → is_probe_target e = true →
  (pending_count s ≤ 5)%nat →
  ∃ s', probe clock env (me_info e) direct indirect s = Ok s' ∧ good_step s s' ∧
    (Forall (λ r, ¬ is_ack (me_id e) r) (direct ++ indirect) →
     view s' (me_id e) = Some (GOSSIP_NODE_SUSPECTED, me_incarnation e)) ∧
    (view s' (me_id e) = view s (me_id e) ∨
     view s' (me_id e) = Some (GOSSIP_NODE_SUSPECTED, me_incarnation e)) ∧
    ∀ id, id ≠ me_id e → view s' id = view s id.
Proof.
  intros Hw Hi Htarget Hpc. set (id := me_id e).
  assert (Hne : id ≠ gc_node_id (gs_config s)) by by apply (probe_target_remote s i e).
  assert (Hst : me_status e = GOSSIP_NODE_ALIVE) by by apply is_probe_target_spec.
  assert (Hv : view s id = Some (GOSSIP_NODE_ALIVE, me_incarnation e)).
  { unfold id. rewrite (view_found s i e); [|by apply find_lookup; [apply Hw|]].
    unfold view_of. by rewrite Hst. }
  pose proof (probe_direct_outcome (me_info e) direct s Hw) as Hd. unfold probe.
  destruct (Nat.leb_spec (pending_count s) 5); [|lia].
  destruct Hd as (b & s1 & -> & Hq1 & Hack1). cbn [mbind result_bind].
  assert (Hv1 : ∀ id', view s1 id' = view s id') by apply Hq1.
  destruct b; cbn [negb].
  - fold (me_id e). fold id. rewrite (mark_alive_alive s1 id (me_incarnation e)) by by rewrite Hv1.
    exists s1. split; [done|]. split; [apply Hq1|]. split; [|split; [left; apply Hv1|intros; apply Hv1]].
    intros Hno. exfalso. apply (no_ack id (direct ++ indirect)); [done|].
    apply Exists_app. left. by apply Hack1.
  - destruct (probe_indirect_outcome (me_info e) indirect s1 (quiet_wf _ _ Hq1))
      as (b & s2 & -> & Hq2 & Hack2). cbn [mbind result_bind].
    assert (Hq : quiet_step s s2) by by eapply quiet_trans.
    assert (Hv2 : ∀ id', view s2 id' = view s id') by apply Hq. destruct b; cbn [negb].
    + exists s2. split; [done|]. split; [apply Hq|]. split; [|split; [left; apply Hv2|intros; apply Hv2]].
      intros Hno. exfalso. apply (no_ack id (direct ++ indirect)); [done|].
      apply Exists_app. right. by apply Hack2.
    + fold (me_id e). fold id. eexists. split; [reflexivity|].
      assert (Hc : gs_config s2 = gs_config s) by apply Hq.
      pose proof (mark_suspected_alive s2 id (me_incarnation e) (quiet_wf _ _ Hq)) as Hm.
      rewrite Hc, Hv2 in Hm. specialize (Hm Hne Hv).
      split; [eapply good_step_trans; [apply Hq|apply mark_suspected_step, (quiet_wf _ _ Hq)]|].
      rewrite (Hm id). rewrite decide_True by done. split; [done|]. split; [by right|].
      intros id' Hid'. rewrite Hm, decide_False by done. apply Hv2.
Qed.
End round.

Section turns.
Variable clock : nat → Z.
Variable env : gossip_env.
Implicit Types (s : gossip_state).

(** The check of the timeouts after the rest of a round. *)
Lemma check_after s s1 :
  good_step s s1 →
  ∃ s', Ok (gossip_check_suspicion_timeouts clock s1) = Ok (Some s') ∧ good_step s s' ∧
    ∀ id, may_fail s1 s' id.
Proof.
  intros Hg. destruct (check_outcome clock s1 (proj1 Hg)) as (s' & Hc & Hs' & Hv).
  exists s'. split; [by rewrite Hc|]. split; [by eapply good_step_trans|done].
Qed.

Lemma may_fail_from s s1 s' id : view s1 id = view s id → may_fail s1 s' id → may_fail s s' id.
Proof. unfold may_fail. by intros ->. Qed.

(** C15: a round of the failure detector, whatever its environment answers.  With
    nobody to probe only the timeouts are checked.  Otherwise, as long as at most
    five entries wait to be announced, the round ends in a well-formed state; a
    probed node of which no acknowledgement arrives, neither directly nor through
    others, is suspected or has failed already at the end of the round (the
    detector is complete), and the view of no other node changes except by a
    timeout; with six entries or more the PING overflows the buffer. *)
Theorem gossip_round_spec direct indirect s :
  gossip_wf s →
  match select_probe_target (env_rand env 0) s with
  | None => ∃ s', gossip_round clock env direct indirect s = Ok (Some s') ∧ good_step s s' ∧
      ∀ id, may_fail s s' id
  | Some i => ∃ e, gs_membership s !! i = Some e ∧ is_probe_target e = true ∧
      if (pending_count s <=? 5)%nat then
        ∃ s', gossip_round clock env direct indirect s = Ok (Some s') ∧ good_step s s' ∧
          (Forall (λ r, ¬ is_ack (me_id e) r) (direct ++ indirect) →
           view s' (me_id e) = Some (GOSSIP_NODE_SUSPECTED, me_incarnation e) ∨
           view s' (me_id e) = Some (GOSSIP_NODE_FAILED, me_incarnation e)) ∧
          ∀ id, id ≠ me_id e → may_fail s s' id
      else gossip_round clock env direct indirect s = Fault
  end.
Proof.
  intros Hw. pose proof (tick_step s Hw) as Ht. unfold gossip_round.
  pose proof (select_probe_target_spec (env_rand env 0) s) as Hsel.
  change (select_probe_target (env_rand env 0) (gs_tick s)) with (select_probe_target (env_rand env 0) s).
  destruct (select_probe_target _ s) as [i|]; cbn [mbind result_bind]; [|by apply (check_after s (gs_tick s))].
  destruct Hsel as (e & Hi & He). exists e. split; [done|]. split; [done|].
  change (gs_membership (gs_tick s) !! i) with (gs_membership s !! i). rewrite Hi.
  destruct (Nat.leb_spec (pending_count s) 5) as [Hpc|Hpc].
  - destruct (probe_outcome clock env e i direct indirect (gs_tick s) (proj1 Ht) Hi He Hpc)
      as (s1 & -> & Hg & Hsus & _ & Hothers). cbn [mbind result_bind].
    destruct (check_after s s1) as (s' & -> & Hg' & Hv); [eapply good_step_trans; [exact Ht|exact Hg]|].
    exists s'. split; [done|]. split; [done|]. split.
    + intros Hno. specialize (Hsus Hno). destruct (Hv (me_id e)) as [Hsame|(n & Hn & Hf)].
      * left. by rewrite Hsame.
      * right. rewrite Hsus in Hn. injection Hn as <-. exact Hf.
    + intros id Hid. eapply may_fail_from; [|apply Hv]. exact (Hothers id Hid).
  - unfold probe. pose proof (probe_direct_outcome clock env (me_info e) direct (gs_tick s) (proj1 Ht)) as Hd.
    destruct (Nat.leb_spec (pending_count (gs_tick s)) 5) as [Hle|_]; [|by rewrite Hd].
    change (pending_count (gs_tick s)) with (pending_count s) in Hle. lia.
Qed.

(** A reception, whatever datagram arrives from wherever: the handler ends in a
    well-formed state in which no node is forgotten and no other node's
    incarnation is smaller; only when the datagram is a PING and six entries wait
    to be announced after it was taken in, the answer overflows the buffer. *)
Theorem gossip_receive_spec buffer addr port s :
  bytes_ok buffer → gossip_wf s →
  match gossip_receive clock env buffer addr port s with
  | Ok s' => good_step s s'
  | Err _ => False
  | Fault => ∃ msg, deserialize_message buffer = Ok (Some msg) ∧ gm_type msg = GOSSIP_MSG_PING ∧
      (6 ≤ pending_count (gossip_update_node_from_message clock s msg addr port))%nat
  end.
Proof.
  intros Hb Hw. unfold gossip_receive, receive_message.
  destruct (deserialize_spec buffer Hb) as (r & -> & Hr). cbn [mbind result_bind].
  destruct r as [msg|]; [|by apply good_step_refl]. destruct (Hr msg eq_refl) as (_ & Hok & _).
  destruct (Z.eqb_spec (gm_type msg) GOSSIP_MSG_PING) as [Hty|].
  - unfold handle_ping. pose proof (update_node_from_message_step clock s msg addr port Hw Hok) as Hs.
    set (s1 := gossip_update_node_from_message clock s msg addr port) in *.
    pose proof (updates_count s1) as Hn. pose proof (get_updates_quiet s1 (proj1 Hs)) as Hq.
    destruct (gossip_get_updates_to_broadcast s1) as [us s2]. cbn [fst snd] in Hn, Hq.
    destruct (Nat.le_gt_cases (pending_count s1) 5) as [Hle|Hgt].
    + match goal with |- context [send_message env ?m ?a ?p] =>
        destruct (send_message_fits env m a p) as [b ->]; [cbn [gm_updates]; lia|] end.
      cbn [mbind result_bind]. eapply good_step_trans; [exact Hs|apply Hq].
    + rewrite send_message_overflows by (cbn [gm_updates]; lia). cbn [mbind result_bind]. by exists msg.
  - destruct (_ =? _); [by apply update_node_from_message_step|].
    destruct (_ =? _); [by apply handle_leave_step|by apply good_step_refl].
Qed.
End turns.

(** ** Examples *)

Definition example_env : gossip_env := GossipEnv (λ _, true) (λ _ _ _, true) (λ n, Z.of_nat n).

(** A node with [n] configured seeds, started. *)
Definition started_node (n : nat) : gossip_state :=
  let c := GossipConfig [97] [] 7000 GOSSIP_ROLE_WORKER 0 0 0 0 0 (repeat ([49], 7001) n) in
  match gossip_init example_clock c true true true with
  | Ok s => (gossip_start example_clock s true true).2
  | _ => gossip_node [97] []
  end.

(** A node that is configured with five seeds overflows its send buffer in its
    first round, since it has its own entry and theirs to announce; with four it
    sends its first PING, whose silence makes the seed suspected. *)
Theorem five_seeds_overflow :
  gossip_round example_clock example_env [] [] (started_node 5) = Fault ∧
  match gossip_round example_clock example_env [] [] (started_node 4) with
  | Ok (Some s) => gossip_get_node_count s GOSSIP_NODE_SUSPECTED = 1%nat
  | _ => False
  end.
Proof. vm_compute. split; reflexivity. Qed.

Lemma gossip_round_spec_witness :
  let s := gossip_node [97] [([98], GOSSIP_NODE_ALIVE, 1)] in
  ∃ s', gossip_wf s ∧ gossip_round example_clock example_env [RecvError] [] s = Ok (Some s') ∧
    view s' [98] = Some (GOSSIP_NODE_SUSPECTED, 1).
Proof.
  intros s. assert (Hw : gossip_wf s) by (apply gossip_node_wf; by_decide).
  pose proof (gossip_round_spec example_clock example_env [RecvError] [] s Hw) as H.
  vm_compute (select_probe_target _ s) in H. destruct H as (e & He & _ & H).
  vm_compute (pending_count s) in H. cbn [Nat.leb] in H. destruct H as (s' & Hr & _ & Hd & _).
  exists s'. split; [exact Hw|]. split; [exact Hr|].
  assert (Hs' : Ok (Some s') = gossip_round example_clock example_env [RecvError] [] s) by (symmetry; exact Hr).
  vm_compute in Hs'. injection Hs' as ->. vm_compute. reflexivity.
Defined.

Lemma gossip_receive_spec_witness :
  let datagram := match serialize_message (GossipMessage GOSSIP_MSG_PING [98] 3 9
                    [info_with [99] GOSSIP_NODE_ALIVE 2]) 2048 with Ok b => b | _ => [] end in
  let s := gossip_node [97] [] in
  bytes_ok datagram ∧ gossip_wf s ∧
  match gossip_receive example_clock example_env datagram [49] 7000 s with
  | Ok s' => good_step s s' ∧ view s' [99] = Some (GOSSIP_NODE_ALIVE, 2)
  | _ => False
  end.
Proof.
  cbv zeta. set (datagram := match serialize_message _ _ with Ok b => b | _ => [] end).
  set (s := gossip_node [97] []).
  assert (Hb : bytes_ok datagram) by (unfold datagram; by_bytes).
  assert (Hw : gossip_wf s) by (apply gossip_node_wf; by_decide).
  split; [exact Hb|]. split; [exact Hw|].
  pose proof (gossip_receive_spec example_clock example_env datagram [49] 7000 s Hb Hw) as H.
  destruct (gossip_receive example_clock example_env datagram [49] 7000 s) as [s'| |] eqn:Hr.
  - split; [exact H|]. assert (Hs' : Ok s' = gossip_receive example_clock example_env datagram [49] 7000 s)
      by (symmetry; exact Hr).
    vm_compute in Hs'. injection Hs' as ->. vm_compute. reflexivity.
  - exact H.
  - vm_compute in Hr. discriminate.
Defined.
