(* ===== verification/StructTable.v ===== *)
(** * Cluster: tables of structs

    The cluster services keep arrays of structs and look in them for a string with
    [strcmp] ([src/libs/distric_cluster/src/config_manager.c],
    [src/libs/distric_cluster/src/worker_pool.c]).  Here are the comparison, which
    faults when it runs past a character array without a terminator, the search, the
    copy of a string into an array, and the relation between such an array and a map. *)

From Stdlib Require Import ZArith Lia.
From stdpp Require Import base list numbers option gmap.
From S2P Require Import Prelude CString.

Local Open Scope Z_scope.

(** A member: [n] bytes from [off]. *)
Definition member (off n : nat) (image : list Z) : list Z := take n (drop off image).

(** ** Strings in structs *)

(** [strcmp(a, b) == 0] on two character arrays, or an array and a string with its
    terminator. *)
Fixpoint strcmp_eq (a b : list Z) : result bool :=
  match a, b with
  | x :: a, y :: b => if x =? y then if x =? 0 then Ok true else strcmp_eq a b else Ok false
  | _, _ => Fault
  end.

(** The first element whose field compares equal to [s]: its position. *)
Fixpoint find_by {A} (field : A → list Z) (l : list A) (s : list Z) : result (option nat) :=
  match l with
  | [] => Ok None
  | x :: l =>
      same ← strcmp_eq (field x) s;
      if same : bool then Ok (Some 0%nat)
      else r ← find_by field l s; Ok (option_map S r)
  end.

(** [strncpy(dst, src, n)]: [n] bytes of [dst] are written. *)
Definition strncpy_into (n : nat) (dst src : list Z) : list Z :=
  take n (c_string src ++ replicate n 0) ++ drop n dst.

Definition set_member (off : nat) (bytes image : list Z) : list Z :=
  take off image ++ bytes ++ drop (off + length bytes) image.

(** ** Tables: lists of structs with distinct keys *)

Section tables.
Context {A K V : Type} `{Countable K} (key : A → K) (val : A → V).
Implicit Types l : list A.

(** The list holds the map. *)
Definition holds (l : list A) (m : gmap K V) : Prop :=
  NoDup (key <$> l) ∧ ∀ k v, m !! k = Some v ↔ ∃ x, x ∈ l ∧ key x = k ∧ val x = v.

Definition position (l : list A) (k : K) : option nat := fst <$> list_find (λ x, key x = k) l.

Lemma position_Some l k i :
  position l k = Some i → ∃ x, l !! i = Some x ∧ key x = k.
Proof.
  unfold position. intros Hf. apply fmap_Some in Hf as ([j x] & Hf & ->). apply list_find_Some in Hf as (Hi & Hk & _). by exists x.
Qed.

Lemma position_None l k : position l k = None → ∀ x, x ∈ l → key x ≠ k.
Proof. unfold position. intros Hf%fmap_None x Hx. apply list_find_None in Hf. exact (Forall_elem _ _ _ Hf Hx). Qed.

Lemma holds_unique l m i j x y :
  holds l m → l !! i = Some x → l !! j = Some y → key x = key y → i = j.
Proof.
  intros [Hnd _] Hi Hj Hk. apply (NoDup_lookup (key <$> l) i j (key x)); [done|..];
    rewrite list_lookup_fmap; [by rewrite Hi|by rewrite Hj, Hk].
Qed.

Lemma holds_lookup l m k :
  holds l m → match position l k with
              | Some i => ∃ x, l !! i = Some x ∧ m !! k = Some (val x)
              | None => m !! k = None
              end.
Proof.
  intros [Hnd Hm]. destruct (position l k) as [i|] eqn:Hp.
  - destruct (position_Some _ _ _ Hp) as (x & Hx & <-). exists x. split; [done|]. apply Hm. exists x.
    split; [by eapply list_elem_of_lookup_2|done].
  - destruct (m !! k) as [v|] eqn:Hk; [|done]. apply Hm in Hk as (x & Hx & Hkx & _).
    by destruct (position_None _ _ Hp x Hx).
Qed.

Lemma holds_nil : holds [] ∅.
Proof. split; [constructor|]. intros k v. rewrite lookup_empty. split; [done|]. intros (x & Hx & _). set_solver. Qed.

Lemma holds_snoc l m x : holds l m → position l (key x) = None → holds (l ++ [x]) (<[key x := val x]> m).
Proof.
  intros [Hnd Hm] Hp. pose proof (position_None _ _ Hp) as Hno. split.
  - rewrite fmap_app. apply list.NoDup_app. split; [done|]. split; [|apply NoDup_singleton].
    intros k (y & -> & Hy)%list_elem_of_fmap Hk. simpl in Hk. apply list_elem_of_singleton in Hk. by destruct (Hno y Hy).
  - intros k v. rewrite lookup_insert_Some, Hm. split.
    + intros [[<- <-]|[Hne (y & Hy & H1 & H2)]]; [exists x|exists y]; (split; [set_solver|done]).
    + intros (y & Hy & <- & <-). apply elem_of_app in Hy as [Hy|Hy%list_elem_of_singleton]; [|subst y; by left].
      right. split; [|eauto]. intros Heq. by destruct (Hno y Hy).
Qed.

(** Replacing the struct at the position of its key. *)
Lemma holds_replace l m i x x' :
  holds l m → l !! i = Some x → key x' = key x → holds (<[i := x']> l) (<[key x := val x']> m).
Proof.
  intros Hh Hi Hk. pose proof Hh as [Hnd Hm]. pose proof (lookup_lt_Some _ _ _ Hi) as Hlt. split.
  - rewrite list_fmap_insert, list_insert_id; [done|]. by rewrite list_lookup_fmap, Hi, Hk.
  - intros k v. rewrite lookup_insert_Some, Hm. split.
    + intros [[<- <-]|[Hne (y & Hy & <- & <-)]].
      * exists x'. split; [|done]. eapply list_elem_of_lookup_2. by apply list_lookup_insert_eq.
      * exists y. split; [|done]. apply list_elem_of_lookup in Hy as [j Hj].
        eapply list_elem_of_lookup_2. rewrite list_lookup_insert_ne; [exact Hj|]. intros ->. congruence.
    + intros (y & Hy & <- & <-). apply list_elem_of_lookup in Hy as [j Hj].
      destruct (decide (i = j)) as [<-|Hij].
      * rewrite list_lookup_insert_eq in Hj by done. injection Hj as <-. left. by rewrite Hk.
      * rewrite list_lookup_insert_ne in Hj by done. right. split; [|exists y; split; [by eapply list_elem_of_lookup_2|done]].
        intros Heq. apply Hij. by eapply (holds_unique l m i j x y).
Qed.

Lemma holds_delete l m i x : holds l m → l !! i = Some x → holds (delete i l) (delete (key x) m).
Proof.
  intros [Hnd Hm] Hi. rewrite delete_take_drop. pose proof (take_drop_middle l i x Hi) as Hl.
  set (l1 := take i l) in *. set (l2 := drop (S i) l) in *. rewrite <- Hl in Hnd.
  rewrite fmap_app, fmap_cons in Hnd. apply list.NoDup_app in Hnd as (H1 & Hdis & H2).
  apply list.NoDup_cons in H2 as [Hx H2]. split.
  - rewrite fmap_app. apply list.NoDup_app. split; [done|]. split; [|done]. intros k Hk1 Hk2. by apply (Hdis k Hk1), list_elem_of_further.
  - intros k v. rewrite lookup_delete_Some, Hm. split.
    + intros (Hne & y & Hy & <- & <-). exists y. split; [|done]. rewrite <- Hl in Hy.
      apply elem_of_app in Hy as [Hy|Hy]; [apply elem_of_app; by left|].
      apply elem_of_cons in Hy as [->|Hy]; [done|apply elem_of_app; by right].
    + intros (y & Hy & <- & <-). split.
      * intros Heq. apply elem_of_app in Hy as [Hy|Hy].
        -- apply (Hdis (key x)); [rewrite Heq; by apply list_elem_of_fmap_2|left].
        -- apply Hx. rewrite Heq. by apply list_elem_of_fmap_2.
      * exists y. split; [|done]. rewrite <- Hl. apply elem_of_app in Hy as [Hy|Hy]; apply elem_of_app; [by left|right].
        by apply list_elem_of_further.
Qed.
End tables.

(** ** Strings in structs *)

Definition terminated (a : list Z) : Prop := 0 ∈ a.

Lemma strcmp_eq_spec a : ∀ b,
  terminated a → terminated b → strcmp_eq a b = Ok (bool_decide (c_string a = c_string b)).
Proof.
  unfold terminated. induction a as [|x a IH]; intros [|y b] Ha Hb; try (by apply elem_of_nil in Ha || by apply elem_of_nil in Hb).
  simpl. destruct (Z.eqb_spec x y) as [->|Hne].
  - destruct (Z.eqb_spec y 0) as [->|Hy]; [done|].
    apply elem_of_cons in Ha as [?|Ha], Hb as [?|Hb]; try congruence. rewrite IH by done. f_equal.
    apply bool_decide_ext. split; [by intros ->|by intros [=]].
  - rewrite bool_decide_eq_false_2; [done|]. destruct (Z.eqb_spec x 0), (Z.eqb_spec y 0); congruence.
Qed.

Lemma find_by_spec {A} (field : A → list Z) (l : list A) s :
  Forall (λ x, terminated (field x)) l → terminated s →
  find_by field l s = Ok (position (λ x, c_string (field x)) l (c_string s)).
Proof.
  intros Hl Hs. induction Hl as [|x l Hx _ IH]; [done|]. simpl.
  rewrite strcmp_eq_spec by done. cbn [mbind result_bind]. unfold position in *. simpl.
  destruct (decide (c_string (field x) = c_string s)).
  - by rewrite bool_decide_eq_true_2.
  - rewrite bool_decide_eq_false_2 by done. rewrite IH. cbn. by destruct (list_find _ l) as [[j y]|].
Qed.

Lemma c_string_terminated s : cstr_ok s → terminated (s ++ [0]) ∧ c_string (s ++ [0]) = s.
Proof.
  intros Hs. split; [apply elem_of_app; right; by left|].
  induction s as [|b s IH]; [done|]. apply Forall_cons_iff in Hs as [Hb Hs]. simpl.
  destruct (Z.eqb_spec b 0); [lia|]. by rewrite IH.
Qed.

(** A member whose last byte is zero. *)
Definition closed (n : nat) (a : list Z) : Prop := length a = n ∧ list.last a = Some 0.

Lemma closed_terminated n a : closed n a → terminated a.
Proof. intros [_ Hl]. apply last_Some in Hl as [l' ->]. apply elem_of_app. right. by left. Qed.

Lemma c_string_app_zero s rest : c_string (s ++ 0 :: rest) = c_string s.
Proof. induction s as [|b s IH]; [done|]. simpl. destruct (b =? 0); [done|]. by rewrite IH. Qed.

Lemma c_string_length s : (length (c_string s) ≤ length s)%nat.
Proof. induction s as [|b s IH]; [done|]. simpl. destruct (b =? 0); simpl; lia. Qed.

Lemma c_string_idem s : c_string (c_string s) = c_string s.
Proof. induction s as [|b s IH]; [done|]. simpl. destruct (b =? 0) eqn:Hb; [done|]. simpl. by rewrite Hb, IH. Qed.

(** [strncpy] into a closed member leaves it closed, with the string of the
    source. *)
Lemma strncpy_closed n dst src :
  closed (S n) dst → closed (S n) src →
  closed (S n) (strncpy_into n dst src) ∧ c_string (strncpy_into n dst src) = c_string src.
Proof.
  intros [Hdl Hd] [Hsl Hs]. unfold strncpy_into.
  apply last_Some in Hd as [d ->]. apply last_Some in Hs as [sr ->].
  rewrite length_app in Hdl, Hsl. simpl in Hdl, Hsl. rewrite (drop_app_length' d) by lia.
  rewrite c_string_app_zero. pose proof (c_string_length sr) as Hle.
  set (t := take n (c_string sr ++ replicate n 0)).
  assert (Ht : length t = n) by (unfold t; rewrite length_take, length_app, length_replicate; lia).
  split; [split; [rewrite length_app; simpl; lia|by rewrite last_snoc]|].
  rewrite c_string_app_zero. unfold t. rewrite take_app, take_ge by lia.
  destruct (n - length (c_string sr))%nat as [|k] eqn:Hk.
  - rewrite take_0, app_nil_r. apply c_string_idem.
  - assert (Hrep : take (S k) (replicate n 0) = 0 :: take k (replicate (n - 1) 0)) by (destruct n; [lia|]; simpl; by rewrite Nat.sub_0_r).
    rewrite Hrep, c_string_app_zero. apply c_string_idem.
Qed.

Lemma member_set_same off n bytes image :
  length bytes = n → (off + n ≤ length image)%nat → member off n (set_member off bytes image) = bytes.
Proof.
  intros Hb Hl. unfold member, set_member. rewrite drop_app_length' by (rewrite length_take; lia).
  by rewrite take_app_length'.
Qed.

Lemma member_set_other off n off' n' bytes image :
  length bytes = n → (off + n ≤ length image)%nat → (off' + n' ≤ off ∨ off + n ≤ off')%nat →
  member off' n' (set_member off bytes image) = member off' n' image.
Proof.
  intros Hb Hl Hd. apply list_eq. intros i. unfold member, set_member.
  destruct (Nat.lt_ge_cases i n'); [|by rewrite !lookup_take_ge].
  rewrite !lookup_take_lt, !lookup_drop by done. destruct Hd.
  - rewrite lookup_app_l by (rewrite length_take; lia). by rewrite lookup_take_lt by lia.
  - rewrite lookup_app_r by (rewrite length_take; lia). rewrite length_take, Nat.min_l by lia.
    rewrite lookup_app_r by lia. rewrite lookup_drop. f_equal. lia.
Qed.

Lemma set_member_length off bytes image :
  (off + length bytes ≤ length image)%nat → length (set_member off bytes image) = length image.
Proof. intros Hl. unfold set_member. rewrite !length_app, length_take, length_drop. lia. Qed.

(** ** Lists *)

Lemma list_alter_insert {A} (f : A → A) (l : list A) i x : l !! i = Some x → alter f i l = <[i := f x]> l.
Proof. revert i. induction l as [|y l IH]; intros [|i] Hx; simplify_eq/=; [done|]. f_equal. by apply IH. Qed.

Lemma Forall_delete {A} (Q : A → Prop) l i : Forall Q l → Forall Q (delete i l).
Proof. intros Hl. rewrite delete_take_drop. apply Forall_app. split; [by apply Forall_take|by apply Forall_drop]. Qed.

