(* ===== verification/ConfigManager.v ===== *)
(** * Cluster: the replicated configuration

    [src/libs/distric_cluster/src/config_manager.c]: the configuration as a state
    machine that Raft drives, the encoding of its changes in the Raft log, the
    queries and the proposals.

    A node entry and a parameter entry are the bytes of their structs, which the
    code copies with [memcpy]: [config_node_entry_t] has 328 bytes with [node_id]
    at 0 and [role] at 64, [config_param_entry_t] has 640 bytes with [key] at 0,
    [value] at 128 and [description] at 384.  [strcmp] on a character array that
    has no terminator is a [Fault].  The arrays of the state are lists with their
    capacity.  Operations hold the lock of the state, so they are atomic. *)

From Stdlib Require Import ZArith Lia String.
From stdpp Require Import base list numbers option gmap.
From S2P Require Import Prelude CString StructTable RaftLog RaftCore RaftInvariant RaftExamples RaftReplication.

Local Open Scope Z_scope.

(** ** Data *)

Definition DISTRIC_MAX_NODE_ID_LEN : nat := 64.

(** The structs, by their sizes and offsets. *)
Definition NODE_ENTRY_SIZE : nat := 328.
Definition PARAM_ENTRY_SIZE : nat := 640.
Definition ROLE_OFFSET : nat := 64.
Definition KEY_SIZE : nat := 128.
Definition VALUE_SIZE : nat := 256.
Definition VALUE_OFFSET : nat := 128.
Definition DESCRIPTION_SIZE : nat := 256.
Definition DESCRIPTION_OFFSET : nat := 384.

Definition node_id_of (node : list Z) : list Z := member 0 DISTRIC_MAX_NODE_ID_LEN node.
Definition role_of (node : list Z) : Z := le_val (member ROLE_OFFSET 4 node).
Definition key_of (param : list Z) : list Z := member 0 KEY_SIZE param.
Definition value_of (param : list Z) : list Z := member VALUE_OFFSET VALUE_SIZE param.
Definition description_of (param : list Z) : list Z := member DESCRIPTION_OFFSET DESCRIPTION_SIZE param.

Definition CONFIG_OP_ADD_NODE : Z := 0.
Definition CONFIG_OP_REMOVE_NODE : Z := 1.
Definition CONFIG_OP_UPDATE_NODE : Z := 2.
Definition CONFIG_OP_SET_PARAM : Z := 3.
Definition CONFIG_OP_DELETE_PARAM : Z := 4.
Definition CONFIG_OP_BATCH : Z := 5.

Record config_change := ConfigChange {
  cc_operation : Z;
  cc_node : list Z;
  cc_param : list Z;
  cc_batch_data : option (list Z);
  cc_batch_size : Z
}.

Record config_state := ConfigState {
  cs_version : Z;
  cs_timestamp_ms : Z;
  cs_nodes : list (list Z);
  cs_node_capacity : nat;
  cs_params : list (list Z);
  cs_param_capacity : nat;
  cs_gossip_interval_ms : Z;
  cs_gossip_suspect_timeout_ms : Z;
  cs_raft_election_timeout_min_ms : Z;
  cs_raft_election_timeout_max_ms : Z;
  cs_raft_heartbeat_interval_ms : Z;
  cs_task_assignment_timeout_ms : Z;
  cs_task_execution_timeout_ms : Z;
  cs_max_tasks_per_worker : Z
}.

Definition cs_set_stamp (version timestamp : Z) (s : config_state) : config_state :=
  ConfigState version timestamp (cs_nodes s) (cs_node_capacity s) (cs_params s) (cs_param_capacity s)
    (cs_gossip_interval_ms s) (cs_gossip_suspect_timeout_ms s) (cs_raft_election_timeout_min_ms s)
    (cs_raft_election_timeout_max_ms s) (cs_raft_heartbeat_interval_ms s) (cs_task_assignment_timeout_ms s)
    (cs_task_execution_timeout_ms s) (cs_max_tasks_per_worker s).
Definition cs_set_nodes (nodes : list (list Z)) (capacity : nat) (s : config_state) : config_state :=
  ConfigState (cs_version s) (cs_timestamp_ms s) nodes capacity (cs_params s) (cs_param_capacity s)
    (cs_gossip_interval_ms s) (cs_gossip_suspect_timeout_ms s) (cs_raft_election_timeout_min_ms s)
    (cs_raft_election_timeout_max_ms s) (cs_raft_heartbeat_interval_ms s) (cs_task_assignment_timeout_ms s)
    (cs_task_execution_timeout_ms s) (cs_max_tasks_per_worker s).
Definition cs_set_params (params : list (list Z)) (capacity : nat) (s : config_state) : config_state :=
  ConfigState (cs_version s) (cs_timestamp_ms s) (cs_nodes s) (cs_node_capacity s) params capacity
    (cs_gossip_interval_ms s) (cs_gossip_suspect_timeout_ms s) (cs_raft_election_timeout_min_ms s)
    (cs_raft_election_timeout_max_ms s) (cs_raft_heartbeat_interval_ms s) (cs_task_assignment_timeout_ms s)
    (cs_task_execution_timeout_ms s) (cs_max_tasks_per_worker s).

(** The state [config_manager_create] begins with. *)
Definition config_manager_create (now : Z) : config_state :=
  ConfigState 0 now [] 16 [] 32 1000 5000 150 300 50 5000 300000 10.

(** ** The state machine *)

(** An existing parameter takes the value and the description of the change. *)
Definition param_update (param old : list Z) : list Z :=
  let old := set_member VALUE_OFFSET (strncpy_into (VALUE_SIZE - 1) (value_of old) (value_of param)) old in
  set_member DESCRIPTION_OFFSET (strncpy_into (DESCRIPTION_SIZE - 1) (description_of old) (description_of param)) old.

(** The array grows when its count reaches the capacity. *)
Definition grown (count capacity : nat) : nat := if (capacity <=? count)%nat then capacity * 2 else capacity.

(** The boolean is [true] for a return of 0. *)
Definition apply_change_to_state (s : config_state) (c : config_change) : result (bool * config_state) :=
  let node := cc_node c in
  let param := cc_param c in
  if cc_operation c =? CONFIG_OP_ADD_NODE then
    found ← find_by node_id_of (cs_nodes s) (node_id_of node);
    match found with
    | Some i => Ok (true, cs_set_nodes (<[i := node]> (cs_nodes s)) (cs_node_capacity s) s)
    | None =>
        Ok (true, cs_set_nodes (cs_nodes s ++ [node]) (grown (length (cs_nodes s)) (cs_node_capacity s)) s)
    end
  else if cc_operation c =? CONFIG_OP_REMOVE_NODE then
    found ← find_by node_id_of (cs_nodes s) (node_id_of node);
    match found with
    | Some i => Ok (true, cs_set_nodes (delete i (cs_nodes s)) (cs_node_capacity s) s)
    | None => Ok (true, s)
    end
  else if cc_operation c =? CONFIG_OP_UPDATE_NODE then
    found ← find_by node_id_of (cs_nodes s) (node_id_of node);
    match found with
    | Some i => Ok (true, cs_set_nodes (<[i := node]> (cs_nodes s)) (cs_node_capacity s) s)
    | None => Ok (true, s)
    end
  else if cc_operation c =? CONFIG_OP_SET_PARAM then
    found ← find_by key_of (cs_params s) (key_of param);
    match found with
    | Some i =>
        Ok (true, cs_set_params (alter (param_update param) i (cs_params s)) (cs_param_capacity s) s)
    | None =>
        Ok (true, cs_set_params (cs_params s ++ [param]) (grown (length (cs_params s)) (cs_param_capacity s)) s)
    end
  else if cc_operation c =? CONFIG_OP_DELETE_PARAM then
    found ← find_by key_of (cs_params s) (key_of param);
    match found with
    | Some i => Ok (true, cs_set_params (delete i (cs_params s)) (cs_param_capacity s) s)
    | None => Ok (true, s)
    end
  else if cc_operation c =? CONFIG_OP_BATCH then Ok (false, s)
  else Ok (true, s).

(** ** The encoding of changes *)

Definition CONFIG_SERIALIZE_MAGIC : Z := 0x44435347.
Definition CONFIG_SERIALIZE_VERSION : Z := 1.
Definition CONFIG_HEADER_SIZE : nat := 16.

Definition is_node_op (op : Z) : bool :=
  (op =? CONFIG_OP_ADD_NODE) || (op =? CONFIG_OP_REMOVE_NODE) || (op =? CONFIG_OP_UPDATE_NODE).
Definition is_param_op (op : Z) : bool := (op =? CONFIG_OP_SET_PARAM) || (op =? CONFIG_OP_DELETE_PARAM).

(** The data part; [garbage] is what [malloc] returns, of which a batch without data
    leaves its size. *)
Definition change_data (garbage : list Z) (c : config_change) : result (list Z) :=
  if is_node_op (cc_operation c) then Ok (cc_node c)
  else if is_param_op (cc_operation c) then Ok (cc_param c)
  else if cc_operation c =? CONFIG_OP_BATCH then
    match cc_batch_data c with
    | Some data => memread data 0 (Z.to_nat (cc_batch_size c))
    | None => memread garbage 0 (Z.to_nat (cc_batch_size c))
    end
  else Ok [].

Definition config_change_serialize (garbage : list Z) (c : config_change) : result (list Z) :=
  data ← change_data garbage c;
  Ok (le_bytes 4 CONFIG_SERIALIZE_MAGIC ++ le_bytes 4 CONFIG_SERIALIZE_VERSION ++
      le_bytes 4 (cc_operation c) ++ le_bytes 4 (u32 (Z.of_nat (length data))) ++ data).

(** [None] is a return of -1. *)
Definition config_change_deserialize (data : list Z) : option config_change :=
  if (length data <? CONFIG_HEADER_SIZE)%nat then None
  else
    let word off := le_val (member off 4 data) in
    if negb (word 0%nat =? CONFIG_SERIALIZE_MAGIC) then None
    else if negb (word 4%nat =? CONFIG_SERIALIZE_VERSION) then None
    else if negb (Z.of_nat (length data) =? Z.of_nat CONFIG_HEADER_SIZE + word 12%nat) then None
    else
      let op := word 8%nat in
      let no_node := replicate NODE_ENTRY_SIZE 0 in
      let no_param := replicate PARAM_ENTRY_SIZE 0 in
      let body := drop CONFIG_HEADER_SIZE data in
      if is_node_op op then
        if negb (word 12%nat =? Z.of_nat NODE_ENTRY_SIZE) then None
        else Some (ConfigChange op body no_param None 0)
      else if is_param_op op then
        if negb (word 12%nat =? Z.of_nat PARAM_ENTRY_SIZE) then None
        else Some (ConfigChange op no_node body None 0)
      else if op =? CONFIG_OP_BATCH then Some (ConfigChange op no_node no_param (Some body) (word 12%nat))
      else None.

(** ** Raft applies an entry *)

(** [now] is the time [get_timestamp_ms] reads. *)
Definition apply_config_change (log_entry : list Z) (now : Z) (s : config_state) : result config_state :=
  match config_change_deserialize log_entry with
  | None => Ok s
  | Some c =>
      r ← apply_change_to_state s c;
      let '(applied, s) := r in
      Ok (if applied : bool then cs_set_stamp (u32 (cs_version s + 1)) now s else s)
  end.

(** ** Proposals *)

Inductive propose_result :=
  | Proposed (index : Z)      (* 0 *)
  | ProposeFailed             (* -1 *)
  | ProposeNotLeader.         (* -2 *)

Section proposing.
Context {P : Type} `{!RaftPersistenceOps P}.

Definition config_manager_propose_change (garbage : list Z) (c : config_change) (n : raft_node P) :
    result (propose_result * raft_node P) :=
  if negb (raft_is_leader n) then Ok (ProposeNotLeader, n)
  else
    serialized ← config_change_serialize garbage c;
    let '(r, n) := raft_append_entry n serialized in
    match r with
    | Ok index => Ok (Proposed index, n)
    | Err _ => Ok (ProposeFailed, n)
    | Fault => Fault
    end.

(** [None] has not ended, the boolean is [true] for a return of 0. *)
Definition config_manager_wait_committed (fuel : nat) (commits time : nat → Z)
    (index timeout_ms start : Z) : option bool :=
  (λ e, bool_decide (e = DISTRIC_OK)) <$> raft_wait_committed fuel commits time index timeout_ms start.
End proposing.

(** ** Queries *)

Definition config_manager_get_node (s : config_state) (node_id : list Z) : result (option (list Z)) :=
  found ← find_by node_id_of (cs_nodes s) (node_id ++ [0]);
  Ok (match found with Some i => cs_nodes s !! i | None => None end).

Definition config_manager_get_nodes_by_role (s : config_state) (role : Z) : list (list Z) :=
  List.filter (λ node, role_of node =? role) (cs_nodes s).

(** The string written to [value_out]; [value_size] is not 0. *)
Definition config_manager_get_param (s : config_state) (key : list Z) (value_size : nat) :
    result (option (list Z)) :=
  found ← find_by key_of (cs_params s) (key ++ [0]);
  Ok (match found with
      | Some i => (λ param, take (value_size - 1) (c_string (value_of param))) <$> cs_params s !! i
      | None => None
      end).

(** [strtoll] in base 10: [None] when it converts nothing or sets [errno]. *)
Definition strtoll (s : list Z) : option Z :=
  let s := skip_spaces s in
  let negative := match s with b :: _ => b =? 45 | [] => false end in
  let digits := match s with b :: s' => if (b =? 45) || (b =? 43) then s' else s | [] => [] end in
  match digits with
  | d :: _ =>
      if is_digit d then
        let v := if negative then - digits_value 0 digits else digits_value 0 digits in
        if (- 2 ^ 63 <=? v) && (v <? 2 ^ 63) then Some v else None
      else None
  | [] => None
  end.

Definition config_manager_get_param_int (s : config_state) (key : list Z) (default_value : Z) : result Z :=
  value ← config_manager_get_param s key 64;
  Ok (match value with Some v => match strtoll v with Some z => z | None => default_value end | None => default_value end).

Definition config_manager_get_version (s : config_state) : Z := cs_version s.

Definition CONFIG_NODE_ROLE_COORDINATOR : Z := 0.
Definition CONFIG_NODE_ROLE_WORKER : Z := 1.

Definition config_node_role_to_string (role : Z) : list Z :=
  if role =? CONFIG_NODE_ROLE_COORDINATOR then str "coordinator"
  else if role =? CONFIG_NODE_ROLE_WORKER then str "worker" else str "unknown".

Definition config_node_role_from_string (s : list Z) : option Z :=
  if streq s (str "coordinator") then Some CONFIG_NODE_ROLE_COORDINATOR
  else if streq s (str "worker") then Some CONFIG_NODE_ROLE_WORKER else None.

(** ** The encoding *)

Lemma header_words w0 w1 w2 w3 body :
  length w0 = 4%nat → length w1 = 4%nat → length w2 = 4%nat → length w3 = 4%nat →
  let data := w0 ++ w1 ++ w2 ++ w3 ++ body in
  member 0 4 data = w0 ∧ member 4 4 data = w1 ∧ member 8 4 data = w2 ∧ member 12 4 data = w3 ∧
  drop CONFIG_HEADER_SIZE data = body ∧ length data = (CONFIG_HEADER_SIZE + length body)%nat.
Proof.
  intros H0 H1 H2 H3.
  destruct w0 as [|? [|? [|? [|? [|]]]]], w1 as [|? [|? [|? [|? [|]]]]], w2 as [|? [|? [|? [|? [|]]]]],
    w3 as [|? [|? [|? [|? [|]]]]]; done.
Qed.

(** A change whose parts are structs. *)
Definition change_fits (c : config_change) : Prop :=
  is_u32 (cc_operation c) ∧ length (cc_node c) = NODE_ENTRY_SIZE ∧ length (cc_param c) = PARAM_ENTRY_SIZE ∧
  is_u32 (cc_batch_size c) ∧ ∀ data, cc_batch_data c = Some data → Z.of_nat (length data) = cc_batch_size c.

(** What the encoding keeps of a change. *)
Definition encoded_part (garbage : list Z) (c : config_change) : option config_change :=
  let op := cc_operation c in
  let no_node := replicate NODE_ENTRY_SIZE 0 in
  let no_param := replicate PARAM_ENTRY_SIZE 0 in
  if is_node_op op then Some (ConfigChange op (cc_node c) no_param None 0)
  else if is_param_op op then Some (ConfigChange op no_node (cc_param c) None 0)
  else if op =? CONFIG_OP_BATCH then
    Some (ConfigChange op no_node no_param
            (Some (default (take (Z.to_nat (cc_batch_size c)) garbage) (cc_batch_data c))) (cc_batch_size c))
  else None.

Lemma config_change_encoded garbage c :
  change_fits c → cc_batch_size c ≤ Z.of_nat (length garbage) →
  ∃ data, config_change_serialize garbage c = Ok data ∧
    config_change_deserialize data = encoded_part garbage c.
Proof.
  intros (Hop & Hn & Hp & Hb & Hbd) Hg. unfold config_change_serialize, encoded_part.
  assert (Hdata : ∃ body, change_data garbage c = Ok body ∧ is_u32 (Z.of_nat (length body)) ∧
    (is_node_op (cc_operation c) = true → body = cc_node c) ∧
    (is_node_op (cc_operation c) = false → is_param_op (cc_operation c) = true → body = cc_param c) ∧
    (is_node_op (cc_operation c) = false → is_param_op (cc_operation c) = false →
     cc_operation c = CONFIG_OP_BATCH →
     body = default (take (Z.to_nat (cc_batch_size c)) garbage) (cc_batch_data c) ∧
     Z.of_nat (length body) = cc_batch_size c)).
  { unfold change_data. destruct (is_node_op (cc_operation c)).
    { exists (cc_node c). rewrite Hn. by split_and!. }
    destruct (is_param_op (cc_operation c)).
    { exists (cc_param c). rewrite Hp. by split_and!. }
    destruct (Z.eqb_spec (cc_operation c) CONFIG_OP_BATCH); [|exists []; by split_and!].
    destruct (cc_batch_data c) as [d|] eqn:Hd; cbn.
    - specialize (Hbd d eq_refl). exists d. rewrite memread_ok by lia. rewrite drop_0, take_ge by lia.
      by rewrite Hbd.
    - exists (take (Z.to_nat (cc_batch_size c)) garbage). rewrite memread_ok by ulia. rewrite drop_0, length_take.
      replace (Z.of_nat _) with (cc_batch_size c) by ulia. done. }
  destruct Hdata as (body & -> & Hlen & Hnode & Hparam & Hbatch). cbn [mbind result_bind].
  eexists. split; [done|]. unfold config_change_deserialize.
  destruct (header_words (le_bytes 4 CONFIG_SERIALIZE_MAGIC) (le_bytes 4 CONFIG_SERIALIZE_VERSION)
    (le_bytes 4 (cc_operation c)) (le_bytes 4 (u32 (Z.of_nat (length body)))) body)
    as (-> & -> & -> & -> & -> & ->); try apply le_bytes_length.
  rewrite !le_val_bytes. change (256 ^ Z.of_nat 4) with (2 ^ 32).
  rewrite (u32_id _ Hlen). rewrite !(Z.mod_small _ (2 ^ 32)) by (assumption || done).
  rewrite Nat2Z.inj_add, !Z.eqb_refl. cbn [negb].
  destruct (Nat.ltb_spec (CONFIG_HEADER_SIZE + length body) CONFIG_HEADER_SIZE); [lia|].
  destruct (is_node_op (cc_operation c)).
  { rewrite (Hnode eq_refl), Hn, Z.eqb_refl. done. }
  destruct (is_param_op (cc_operation c)).
  { rewrite (Hparam eq_refl eq_refl), Hp, Z.eqb_refl. done. }
  destruct (Z.eqb_spec (cc_operation c) CONFIG_OP_BATCH) as [He|]; [|done].
  destruct (Hbatch eq_refl eq_refl He) as [<- ->]. done.
Qed.

(** A configuration change read from the Raft log is the one that was proposed:
    encoding succeeds, and decoding yields the operation and the part the operation
    uses, for every operation, batches included; an operation the code does not know
    is refused. *)
Theorem config_change_roundtrip garbage c :
  change_fits c → cc_batch_size c ≤ Z.of_nat (length garbage) →
  ∃ data, config_change_serialize garbage c = Ok data ∧
    config_change_deserialize data = encoded_part garbage c.
Proof.
  apply config_change_encoded.
Qed.

(** Structs whose strings end inside of their members. *)
Definition node_ok (node : list Z) : Prop :=
  length node = NODE_ENTRY_SIZE ∧ closed DISTRIC_MAX_NODE_ID_LEN (node_id_of node).
Definition param_ok (param : list Z) : Prop :=
  length param = PARAM_ENTRY_SIZE ∧ closed KEY_SIZE (key_of param) ∧ closed VALUE_SIZE (value_of param) ∧
  closed DESCRIPTION_SIZE (description_of param).

Definition strings_of (param : list Z) : list Z * list Z :=
  (c_string (value_of param), c_string (description_of param)).

(** Setting a parameter that exists keeps its key and takes the new strings. *)
Lemma param_update_ok param old :
  param_ok param → param_ok old →
  param_ok (param_update param old) ∧ c_string (key_of (param_update param old)) = c_string (key_of old) ∧
  strings_of (param_update param old) = strings_of param.
Proof.
  intros (Hl & Hk & Hv & Hd) (Hl' & Hk' & Hv' & Hd'). unfold param_update.
  destruct (strncpy_closed 255 (value_of old) (value_of param) Hv' Hv) as [Hv1 Hv2].
  change (VALUE_SIZE - 1)%nat with 255%nat. change (DESCRIPTION_SIZE - 1)%nat with 255%nat.
  set (v := strncpy_into 255 (value_of old) (value_of param)) in *.
  set (old1 := set_member VALUE_OFFSET v old).
  assert (Hl1 : length old1 = PARAM_ENTRY_SIZE).
  { unfold old1. rewrite set_member_length; [done|]. destruct Hv1 as [-> _]. rewrite Hl'.
    unfold VALUE_OFFSET, VALUE_SIZE, PARAM_ENTRY_SIZE. lia. }
  assert (Hd1 : description_of old1 = description_of old).
  { apply (member_set_other VALUE_OFFSET VALUE_SIZE); [apply Hv1|rewrite Hl'|right];
      unfold VALUE_OFFSET, VALUE_SIZE, PARAM_ENTRY_SIZE, DESCRIPTION_OFFSET; lia. }
  assert (Hk1 : key_of old1 = key_of old).
  { apply (member_set_other VALUE_OFFSET VALUE_SIZE); [apply Hv1|rewrite Hl'|left];
      unfold VALUE_OFFSET, VALUE_SIZE, PARAM_ENTRY_SIZE, KEY_SIZE; lia. }
  assert (Hv3 : value_of old1 = v).
  { apply member_set_same; [apply Hv1|]. rewrite Hl'. unfold VALUE_OFFSET, VALUE_SIZE, PARAM_ENTRY_SIZE. lia. }
  rewrite Hd1. destruct (strncpy_closed 255 (description_of old) (description_of param) Hd' Hd) as [Hd2 Hd3].
  set (d := strncpy_into 255 (description_of old) (description_of param)) in *.
  set (new := set_member DESCRIPTION_OFFSET d old1).
  assert (Hfit : (DESCRIPTION_OFFSET + DESCRIPTION_SIZE ≤ length old1)%nat).
  { rewrite Hl1. unfold DESCRIPTION_OFFSET, DESCRIPTION_SIZE, PARAM_ENTRY_SIZE. lia. }
  assert (Hk4 : key_of new = key_of old).
  { rewrite <- Hk1. apply (member_set_other DESCRIPTION_OFFSET DESCRIPTION_SIZE); [apply Hd2|done|left].
    unfold KEY_SIZE, DESCRIPTION_OFFSET. lia. }
  assert (Hv4 : value_of new = v).
  { rewrite <- Hv3. apply (member_set_other DESCRIPTION_OFFSET DESCRIPTION_SIZE); [apply Hd2|done|left].
    unfold VALUE_OFFSET, VALUE_SIZE, DESCRIPTION_OFFSET. lia. }
  assert (Hd4 : description_of new = d) by (apply member_set_same; [apply Hd2|done]).
  unfold param_ok, strings_of. rewrite Hk4, Hv4, Hd4. split_and!; try done; try apply Hk'; try apply Hv1; try apply Hd2.
  - unfold new. rewrite set_member_length; [done|]. destruct Hd2 as [-> _]. exact Hfit.
  - by rewrite Hv2, Hd3.
Qed.

(** ** Refinement: two maps *)

Definition name_of (node : list Z) : list Z := c_string (node_id_of node).
Definition param_name (param : list Z) : list Z := c_string (key_of param).

(** Node structs by identifier; values and descriptions by key. *)
Definition config_maps : Type := gmap (list Z) (list Z) * gmap (list Z) (list Z * list Z).

Definition maps_step (c : config_change) (m : config_maps) : config_maps :=
  let '(nodes, params) := m in
  let id := name_of (cc_node c) in
  let key := param_name (cc_param c) in
  if cc_operation c =? CONFIG_OP_ADD_NODE then (<[id := cc_node c]> nodes, params)
  else if cc_operation c =? CONFIG_OP_REMOVE_NODE then (delete id nodes, params)
  else if cc_operation c =? CONFIG_OP_UPDATE_NODE then
    (match nodes !! id with Some _ => <[id := cc_node c]> nodes | None => nodes end, params)
  else if cc_operation c =? CONFIG_OP_SET_PARAM then (nodes, <[key := strings_of (cc_param c)]> params)
  else if cc_operation c =? CONFIG_OP_DELETE_PARAM then (nodes, delete key params)
  else (nodes, params).

(** A change whose struct, where its operation uses one, is closed. *)
Definition change_ok (c : config_change) : Prop :=
  (is_node_op (cc_operation c) = true → node_ok (cc_node c)) ∧
  (is_param_op (cc_operation c) = true → param_ok (cc_param c)).

Record represents_maps (s : config_state) (m : config_maps) : Prop := {
  rm_nodes : holds name_of id (cs_nodes s) m.1;
  rm_params : holds param_name strings_of (cs_params s) m.2;
  rm_nodes_ok : Forall node_ok (cs_nodes s);
  rm_params_ok : Forall param_ok (cs_params s);
  rm_fits : (length (cs_nodes s) ≤ cs_node_capacity s ∧ 0 < cs_node_capacity s)%nat ∧
    (length (cs_params s) ≤ cs_param_capacity s ∧ 0 < cs_param_capacity s)%nat
}.

Lemma grown_fits count capacity :
  (count ≤ capacity ∧ 0 < capacity → S count ≤ grown count capacity ∧ 0 < grown count capacity)%nat.
Proof. unfold grown. destruct (Nat.leb_spec capacity count); lia. Qed.

Lemma find_node s m node :
  represents_maps s m → terminated node →
  find_by node_id_of (cs_nodes s) node = Ok (position name_of (cs_nodes s) (c_string node)).
Proof.
  intros Hr Ht. apply find_by_spec; [|done]. eapply list.Forall_impl; [apply (rm_nodes_ok _ _ Hr)|].
  intros x [_ Hx]. by eapply closed_terminated.
Qed.

Lemma find_param s m key :
  represents_maps s m → terminated key →
  find_by key_of (cs_params s) key = Ok (position param_name (cs_params s) (c_string key)).
Proof.
  intros Hr Ht. apply find_by_spec; [|done]. eapply list.Forall_impl; [apply (rm_params_ok _ _ Hr)|].
  intros x (_ & Hx & _). by eapply closed_terminated.
Qed.

(** The fields of a state whose arrays were set. *)
Ltac cbn_state :=
  cbn [cs_nodes cs_params cs_node_capacity cs_param_capacity cs_set_nodes cs_set_params cs_version fst snd].

Lemma apply_change_spec s m c :
  represents_maps s m → change_ok c →
  ∃ s', apply_change_to_state s c = Ok (negb (cc_operation c =? CONFIG_OP_BATCH), s') ∧
    represents_maps s' (maps_step c m) ∧ cs_version s' = cs_version s.
Proof.
  intros Hr [Hn Hp]. destruct m as [nodes params]. pose proof Hr as [Hrn Hrp Hno Hpo [Hf1 Hf2]]. cbn [fst snd] in *.
  unfold apply_change_to_state, maps_step, is_node_op, is_param_op in *.
  assert (Hsame : represents_maps s (nodes, params)) by exact Hr.
  (* the position of the node or of the parameter *)
  pose proof (λ Hok : node_ok (cc_node c), find_node s _ _ Hr (closed_terminated _ _ (proj2 Hok))) as Hfn.
  pose proof (λ Hok : param_ok (cc_param c), find_param s _ _ Hr (closed_terminated _ _ (proj1 (proj2 Hok)))) as Hfp.
  fold (name_of (cc_node c)) in Hfn. fold (param_name (cc_param c)) in Hfp.
  pose proof (holds_lookup _ _ _ _ (name_of (cc_node c)) Hrn) as Hln.
  destruct (Z.eqb_spec (cc_operation c) CONFIG_OP_ADD_NODE) as [->|H0].
  { rewrite (Hfn (Hn eq_refl)). cbn [mbind result_bind].
    destruct (position name_of (cs_nodes s) (name_of (cc_node c))) as [i|] eqn:Hpos; eexists; (split; [done|]); (split; [|done]).
    - destruct (position_Some _ _ _ _ Hpos) as (x & Hx & Hk). split; cbn_state; try done.
      + rewrite <- Hk. by eapply (holds_replace name_of id).
      + apply Forall_insert; [done|by apply Hn].
      + by rewrite length_insert.
    - split; cbn_state; try done.
      + by apply (holds_snoc name_of id).
      + apply Forall_app. split; [done|by apply Forall_singleton, Hn].
      + rewrite length_app. pose proof (grown_fits _ _ Hf1). cbn [length]. split; [lia|done]. }
  destruct (Z.eqb_spec (cc_operation c) CONFIG_OP_REMOVE_NODE) as [->|H1].
  { rewrite (Hfn (Hn eq_refl)). cbn [mbind result_bind].
    destruct (position name_of (cs_nodes s) (name_of (cc_node c))) as [i|] eqn:Hpos; eexists; (split; [done|]); (split; [|done]).
    - destruct (position_Some _ _ _ _ Hpos) as (x & Hx & Hk). split; cbn_state; try done.
      + rewrite <- Hk. by apply holds_delete.
      + by apply Forall_delete.
      + pose proof (length_delete (cs_nodes s) i (mk_is_Some _ _ Hx)). split; [lia|done].
    - by rewrite delete_id. }
  destruct (Z.eqb_spec (cc_operation c) CONFIG_OP_UPDATE_NODE) as [->|H2].
  { rewrite (Hfn (Hn eq_refl)). cbn [mbind result_bind].
    destruct (position name_of (cs_nodes s) (name_of (cc_node c))) as [i|] eqn:Hpos; eexists; (split; [done|]); (split; [|done]).
    - destruct Hln as (y & Hy & ->). destruct (position_Some _ _ _ _ Hpos) as (x & Hx & Hk). split; cbn_state; try done.
      + rewrite <- Hk. by eapply (holds_replace name_of id).
      + apply Forall_insert; [done|by apply Hn].
      + by rewrite length_insert.
    - by rewrite Hln. }
  destruct (Z.eqb_spec (cc_operation c) CONFIG_OP_SET_PARAM) as [->|H3].
  { specialize (Hp eq_refl). rewrite (Hfp Hp). cbn [mbind result_bind].
    destruct (position param_name (cs_params s) (param_name (cc_param c))) as [i|] eqn:Hpos; eexists; (split; [done|]); (split; [|done]).
    - destruct (position_Some _ _ _ _ Hpos) as (x & Hx & Hk).
      assert (Hox : param_ok x) by exact (Forall_lookup_1 _ _ _ _ Hpo Hx).
      destruct (param_update_ok _ _ Hp Hox) as (Hok & Hkey & Hstr).
      rewrite (list_alter_insert _ _ _ _ Hx). split; cbn_state; try done.
      + rewrite <- Hk, <- Hstr. by apply (holds_replace param_name strings_of).
      + by apply Forall_insert.
      + by rewrite length_insert.
    - split; cbn_state; try done.
      + by apply (holds_snoc param_name strings_of).
      + apply Forall_app. split; [done|by apply Forall_singleton].
      + rewrite length_app. pose proof (grown_fits _ _ Hf2). cbn [length]. split; [done|lia]. }
  destruct (Z.eqb_spec (cc_operation c) CONFIG_OP_DELETE_PARAM) as [->|H4].
  { specialize (Hp eq_refl). rewrite (Hfp Hp). cbn [mbind result_bind].
    pose proof (holds_lookup _ _ _ _ (param_name (cc_param c)) Hrp) as Hlp.
    destruct (position param_name (cs_params s) (param_name (cc_param c))) as [i|] eqn:Hpos; eexists; (split; [done|]); (split; [|done]).
    - destruct (position_Some _ _ _ _ Hpos) as (x & Hx & Hk). split; cbn_state; try done.
      + rewrite <- Hk. by apply holds_delete.
      + by apply Forall_delete.
      + pose proof (length_delete (cs_params s) i (mk_is_Some _ _ Hx)). split; [done|lia].
    - by rewrite delete_id. }
  destruct (Z.eqb_spec (cc_operation c) CONFIG_OP_BATCH); by exists s.
Qed.

(** ** Applying entries *)

(** The entries Raft applies, with the times at which it does. *)
Fixpoint apply_config_changes (entries : list (list Z * Z)) (s : config_state) : result config_state :=
  match entries with
  | [] => Ok s
  | (data, now) :: entries => s ← apply_config_change data now s; apply_config_changes entries s
  end.

Lemma apply_config_changes_app e1 e2 s :
  apply_config_changes (e1 ++ e2) s = (s ← apply_config_changes e1 s; apply_config_changes e2 s).
Proof.
  revert s. induction e1 as [|[d now] e1 IH]; intros s; [done|]. simpl.
  destruct (apply_config_change d now s); [|done..]. apply IH.
Qed.

(** Both changes do the same step, and the part it uses is the same. *)
Ltac same_part :=
  cbn; split; [reflexivity|]; intros [Hnode Hparam]; split; intros Hop; first [discriminate Hop | by auto].

(** Decoding keeps what the state machine uses. *)
Lemma encoded_step garbage c m :
  match encoded_part garbage c with
  | Some c' => maps_step c' m = maps_step c m ∧ (change_ok c → change_ok c')
  | None => maps_step c m = m
  end.
Proof.
  destruct m as [nodes params], c as [op node param batch size].
  unfold encoded_part, maps_step, change_ok. cbn [cc_operation cc_node cc_param].
  unfold is_node_op, is_param_op.
  destruct (Z.eqb_spec op CONFIG_OP_ADD_NODE) as [->|H0]; [same_part|].
  destruct (Z.eqb_spec op CONFIG_OP_REMOVE_NODE) as [->|H1]; [same_part|].
  destruct (Z.eqb_spec op CONFIG_OP_UPDATE_NODE) as [->|H2]; [same_part|].
  destruct (Z.eqb_spec op CONFIG_OP_SET_PARAM) as [->|H3]; [same_part|].
  destruct (Z.eqb_spec op CONFIG_OP_DELETE_PARAM) as [->|H4]; [same_part|].
  destruct (Z.eqb_spec op CONFIG_OP_BATCH) as [->|H5]; [same_part|done].
Qed.

(** A known operation raises the version, if it is not a batch. *)
Definition raises (c : config_change) : Z :=
  if is_node_op (cc_operation c) || is_param_op (cc_operation c) then 1 else 0.

(** One entry: a change that was encoded. *)
Lemma apply_config_change_spec garbage c data now s m :
  represents_maps s m → change_ok c → config_change_deserialize data = encoded_part garbage c →
  ∃ s', apply_config_change data now s = Ok s' ∧ represents_maps s' (maps_step c m) ∧
    cs_version s' = if raises c =? 0 then cs_version s else u32 (cs_version s + 1).
Proof.
  intros Hr Hok Hd. unfold apply_config_change. rewrite Hd. pose proof (encoded_step garbage c m) as He.
  assert (Hraise : match encoded_part garbage c with
                   | Some c' => raises c = if cc_operation c' =? CONFIG_OP_BATCH then 0 else 1
                   | None => raises c = 0
                   end).
  { unfold encoded_part, raises. clear. destruct c as [op node param batch size]. cbn [cc_operation].
    destruct (Z.eqb_spec op CONFIG_OP_BATCH) as [->|]; [done|].
    destruct (is_node_op op), (is_param_op op); cbn [orb cc_operation]; by rewrite ?(proj2 (Z.eqb_neq _ _)). }
  destruct (encoded_part garbage c) as [c'|].
  - destruct He as (<- & Hok'). destruct (apply_change_spec s m c' Hr (Hok' Hok)) as (s' & -> & Hr' & Hv).
    cbn [mbind result_bind]. rewrite Hraise.
    destruct (cc_operation c' =? CONFIG_OP_BATCH); cbn [negb]; eexists; (split; [done|]).
    + split; [exact Hr'|]. by rewrite Hv.
    + split; [destruct Hr'; by split|]. cbn. by rewrite Hv.
  - rewrite He, Hraise. by exists s.
Qed.

Lemma config_create_represents now : represents_maps (config_manager_create now) (∅, ∅).
Proof.
  split; simpl; [apply holds_nil|apply holds_nil|constructor|constructor|lia].
Qed.

Lemma get_node_represented s m id :
  represents_maps s m → cstr_ok id → config_manager_get_node s id = Ok (m.1 !! id).
Proof.
  intros Hr Hid. destruct (c_string_terminated _ Hid) as [Ht Hc]. unfold config_manager_get_node.
  rewrite (find_node _ _ _ Hr Ht), Hc. cbn [mbind result_bind]. f_equal.
  pose proof (holds_lookup _ _ _ _ id (rm_nodes _ _ Hr)) as Hl.
  destruct (position name_of (cs_nodes s) id); [|done]. destruct Hl as (x & -> & ->). done.
Qed.

Lemma get_param_represented s m key size :
  represents_maps s m → cstr_ok key →
  config_manager_get_param s key size = Ok ((λ strings, take (size - 1) strings.1) <$> m.2 !! key).
Proof.
  intros Hr Hid. destruct (c_string_terminated _ Hid) as [Ht Hc]. unfold config_manager_get_param.
  rewrite (find_param _ _ _ Hr Ht), Hc. cbn [mbind result_bind]. f_equal.
  pose proof (holds_lookup _ _ _ _ key (rm_params _ _ Hr)) as Hl.
  destruct (position param_name (cs_params s) key); [|by rewrite Hl]. destruct Hl as (x & -> & ->). done.
Qed.

(** ** The manager *)

(** An encoded change, as Raft hands it over. *)
Definition encodes (garbage : list Z) (c : config_change) (entry : list Z * Z) : Prop :=
  change_fits c ∧ change_ok c ∧ config_change_serialize garbage c = Ok entry.1.

Definition version_after (v : Z) (changes : list config_change) : Z :=
  foldl (λ v c, if raises c =? 0 then v else u32 (v + 1)) v changes.

Lemma encodes_deserialize garbage c entry :
  cc_batch_size c ≤ Z.of_nat (length garbage) → encodes garbage c entry →
  config_change_deserialize entry.1 = encoded_part garbage c.
Proof.
  intros Hg (Hf & _ & Hs). destruct (config_change_encoded garbage c Hf Hg) as (data & Hs' & <-). congruence.
Qed.

Lemma apply_config_changes_spec garbage changes entries s m :
  Forall2 (encodes garbage) changes entries →
  Forall (λ c, cc_batch_size c ≤ Z.of_nat (length garbage)) changes → represents_maps s m →
  ∃ s', apply_config_changes entries s = Ok s' ∧ represents_maps s' (foldl (λ m c, maps_step c m) m changes) ∧
    cs_version s' = version_after (cs_version s) changes.
Proof.
  intros Hc. revert s m. induction Hc as [|c [data now] changes entries Hc _ IH]; intros s m Hg Hr.
  { by exists s. }
  apply Forall_cons_iff in Hg as [Hg1 Hg].
  pose proof (encodes_deserialize _ _ _ Hg1 Hc) as Hd. destruct Hc as (_ & Hok & _).
  destruct (apply_config_change_spec garbage c data now s m Hr Hok Hd) as (s1 & Hs1 & Hr1 & Hv1).
  destruct (IH s1 _ Hg Hr1) as (s2 & Hs2 & Hr2 & Hv2). exists s2. simpl. rewrite Hs1. cbn [mbind result_bind].
  split; [done|]. split; [done|]. by rewrite Hv2, Hv1.
Qed.

(** C22: the configuration that Raft builds by applying encoded changes in their order
    to the initial one is a map of nodes and a map of parameters: each change does to
    the arrays what an insertion, a deletion, an update of a present node or nothing
    does to the maps; a lookup by identifier or by key gives what the map holds
    (the value cut to the size of the buffer); the version counts the changes that are
    not batches, an absent node that is removed or updated included; and no array
    outgrows its capacity. *)
Theorem config_refines_maps garbage changes entries start :
  Forall2 (encodes garbage) changes entries →
  Forall (λ c, cc_batch_size c ≤ Z.of_nat (length garbage)) changes →
  let m := foldl (λ m c, maps_step c m) (∅, ∅) changes in
  ∃ s, apply_config_changes entries (config_manager_create start) = Ok s ∧
    (∀ id, cstr_ok id → config_manager_get_node s id = Ok (m.1 !! id)) ∧
    (∀ key size, cstr_ok key →
      config_manager_get_param s key size = Ok ((λ strings, take (size - 1) strings.1) <$> m.2 !! key)) ∧
    cs_version s = version_after 0 changes ∧
    (length (cs_nodes s) ≤ cs_node_capacity s)%nat ∧ (length (cs_params s) ≤ cs_param_capacity s)%nat.
Proof.
  intros Hc Hg. cbv zeta.
  destruct (apply_config_changes_spec _ _ _ _ _ Hc Hg (config_create_represents start)) as (s & Hs & Hr & Hv).
  exists s. split; [done|]. split; [by intros; apply get_node_represented|].
  split; [by intros; apply get_param_represented|]. split; [done|]. pose proof (rm_fits _ _ Hr). tauto.
Qed.

(** ** Composition with Raft *)

Section composition.
Context {P : Type} `{!RaftPersistenceOps P}.

(** The configuration of a node: an [apply_fn] that passes the data of each entry to
    [apply_config_change], at the times of [clock]. *)
Definition config_of (start : Z) (clock : nat → Z) (n : raft_node P) : result config_state :=
  apply_config_changes (imap (λ i e, (le_data e, clock i)) n.(applied)) (config_manager_create start).

(** The time of the last change apart. *)
Definition without_time (r : result config_state) : result config_state :=
  match r with Ok s => Ok (cs_set_stamp (cs_version s) 0 s) | r => r end.

Lemma apply_config_change_time d t s :
  without_time (apply_config_change d t s) =
    without_time (apply_config_change d 0 (cs_set_stamp (cs_version s) 0 s)).
Proof.
  unfold apply_config_change. destruct (config_change_deserialize d) as [c|]; [|done].
  unfold apply_change_to_state. repeat case_match; try done; simpl in *.
  all: try (destruct (find_by _ _ _) as [[i|]| |]; done). all: by simplify_eq.
Qed.

Lemma apply_config_changes_time e1 e2 s1 s2 :
  e1.*1 = e2.*1 → without_time (Ok s1) = without_time (Ok s2) →
  without_time (apply_config_changes e1 s1) = without_time (apply_config_changes e2 s2).
Proof.
  revert e2 s1 s2. induction e1 as [|[d t1] e1 IH]; intros [|[d' t2] e2] s1 s2 He Hs;
    [exact Hs|done|done|]. injection He as <- He. simpl.
  assert (Hd : without_time (apply_config_change d t1 s1) = without_time (apply_config_change d t2 s2)).
  { rewrite (apply_config_change_time _ _ s1), (apply_config_change_time _ _ s2).
    do 2 f_equal. exact (f_equal (λ r, match r with Ok s => s | _ => s1 end) Hs). }
  destruct (apply_config_change _ t1 s1), (apply_config_change _ t2 s2); try discriminate; simpl; [|done..].
  by apply IH.
Qed.

Lemma timed_data (clock : nat → Z) (l : list raft_log_entry) :
  (imap (λ i e, (le_data e, clock i)) l).*1 = le_data <$> l.
Proof.
  revert clock. induction l as [|e l IH]; intros clock; [done|]. simpl. f_equal. apply (IH (clock ∘ S)).
Qed.

(** Entries that two logs share, below a commit index. *)
Lemma to_apply_prefix (n1 n2 : raft_node P) from k1 k2 :
  (k1 ≤ k2)%nat →
  (∀ i, (i < k1)%nat →
    log_entries n1.(nd_log) !! (Z.to_nat (from - n1.(nd_log).(log_base_index)) + i)%nat =
    log_entries n2.(nd_log) !! (Z.to_nat (from - n2.(nd_log).(log_base_index)) + i)%nat) →
  ∃ more, to_apply n2 from k2 = to_apply n1 from k1 ++ more ∧ (k1 = k2 → more = []).
Proof.
  intros Hk Heq. unfold to_apply.
  set (l1 := drop _ (log_entries (nd_log n1))) in *. set (l2 := drop _ (log_entries (nd_log n2))) in *.
  assert (Ht : take k1 l1 = take k1 l2).
  { apply list_eq. intros i. destruct (Nat.lt_ge_cases i k1); [|by rewrite !lookup_take_ge].
    rewrite !lookup_take_lt by done. unfold l1, l2. rewrite !lookup_drop. by apply Heq. }
  exists (filter (λ e, is_noop e = false) (drop k1 (take k2 l2))).
  rewrite Ht, <- list.filter_app. split.
  - f_equal. rewrite <- (take_drop k1 (take k2 l2)) at 1. by rewrite take_take, Nat.min_l.
  - intros ->. by rewrite drop_ge by (rewrite length_take; lia).
Qed.

(** Two nodes that applied the same entries, and whose logs agree up to the commit
    index of the first, end with the same configuration when both apply what is
    committed, but for the time of the last change: the one that is ahead has passed
    through the configuration of the other, even if their clocks differ. *)
Theorem config_replicas_agree (n1 n2 : raft_node P) start clock1 clock2 :
  (∀ n, n = n1 ∨ n = n2 → node_wf n ∧ n.(nd_config).(cfg_apply_fn) = true ∧
    n.(nd_log).(log_base_index) ≤ n.(last_applied) ≤ n.(commit_index) ∧
    n.(commit_index) ≤ log_last_index n.(nd_log)) →
  n1.(applied) = n2.(applied) → n1.(last_applied) = n2.(last_applied) →
  n1.(commit_index) ≤ n2.(commit_index) →
  (∀ i, n1.(last_applied) < i ≤ n1.(commit_index) → log_get n1.(nd_log) i = log_get n2.(nd_log) i) →
  ∃ more, without_time (config_of start clock2 (apply_committed_entries n2)) =
    without_time (s ← config_of start clock1 (apply_committed_entries n1); apply_config_changes more s) ∧
    (n1.(commit_index) = n2.(commit_index) → more = []).
Proof.
  intros Hn Happ Hla Hci Hlog.
  destruct (Hn n1 (or_introl eq_refl)) as (Hw1 & Hf1 & Hb1 & Hc1).
  destruct (Hn n2 (or_intror eq_refl)) as (Hw2 & Hf2 & Hb2 & Hc2).
  rewrite !apply_committed_entries_eq by done. rewrite <- Hla in *. rewrite <- Happ.
  set (from := last_applied n1) in *.
  destruct (to_apply_prefix n1 n2 from (Z.to_nat (commit_index n1 - from)) (Z.to_nat (commit_index n2 - from)))
    as (rest & Hrest & Hnil); [lia| |].
  { intros i Hi. specialize (Hlog (from + Z.of_nat i + 1)).
    assert (Hu : is_u32 (from + Z.of_nat i + 1)).
    { pose proof (wf_commit _ Hw1). pose proof (wf_applied _ Hw1). unfold from. ulia. }
    rewrite (log_get_wf (nd_log n1)), (log_get_wf (nd_log n2)), !decide_True in Hlog
      by (done || apply Hw1 || apply Hw2 || lia).
    replace (Z.to_nat (from - log_base_index (nd_log n1)) + i)%nat
      with (Z.to_nat (from + Z.of_nat i + 1 - log_base_index (nd_log n1) - 1)) by lia.
    replace (Z.to_nat (from - log_base_index (nd_log n2)) + i)%nat
      with (Z.to_nat (from + Z.of_nat i + 1 - log_base_index (nd_log n2) - 1)) by lia.
    apply Hlog. lia. }
  exists ((λ e, (le_data e, 0)) <$> rest). unfold config_of. simpl. rewrite Hrest. split.
  - rewrite <- apply_config_changes_app. apply apply_config_changes_time; [|done].
    rewrite fmap_app, !timed_data, <- list_fmap_compose, app_assoc. apply fmap_app.
  - intros Heq. by rewrite Hnil by lia.
Qed.
Lemma log_get_snoc log e :
  log_wf log → log_room log 1 →
  log_last_index (log_snoc log e) = log_last_index log + 1 ∧
  log_get (log_snoc log e) (log_last_index log + 1) = Some e.
Proof.
  intros Hw Hr. rewrite (log_last_index_wf _ Hw). pose proof (log_wf_base _ Hw) as [Hb _].
  unfold log_last_index, log_get, log_snoc, log_room, log_count, UINT32_MAX in *. cbn [log_entries log_base_index].
  rewrite length_app. cbn [length]. split.
  - destruct (log_entries log ++ [e]) eqn:He; [by destruct (log_entries log)|]. rewrite u32_id by ulia. lia.
  - rewrite (proj2 (Z.leb_gt _ _)) by lia. rewrite u32_id by ulia. rewrite (proj2 (Z.leb_gt _ _)) by lia.
    rewrite lookup_app_r by lia. by replace (_ - _)%nat with 0%nat by lia.
Qed.

(** Proposing a change never fails by a fault. On a node that does not lead it is
    refused; on a leader it either leaves the log as it was, or it puts at the index it
    reports, the one after the last, an entry of the current term that is not a no-op
    and whose data, applied to any configuration, does the step of that change. *)
Theorem proposed_change_applies garbage c (n : raft_node P) :
  node_wf n → log_room n.(nd_log) 1 → change_fits c → change_ok c →
  cc_batch_size c ≤ Z.of_nat (length garbage) →
  ∃ r n', config_manager_propose_change garbage c n = Ok (r, n') ∧
    match r with
    | Proposed index =>
        raft_is_leader n = true ∧ index = log_last_index n.(nd_log) + 1 ∧
        ∃ e, log_get n'.(nd_log) index = Some e ∧ le_term e = n.(current_term) ∧ is_noop e = false ∧
          ∀ s m now, represents_maps s m →
            ∃ s', apply_config_change (le_data e) now s = Ok s' ∧ represents_maps s' (maps_step c m)
    | ProposeFailed => raft_is_leader n = true ∧ n'.(nd_log) = n.(nd_log)
    | ProposeNotLeader => raft_is_leader n = false ∧ n' = n
    end.
Proof.
  intros Hn Hroom Hf Hok Hg. unfold config_manager_propose_change.
  destruct (raft_is_leader n) eqn:Hlead; cbn [negb]; [|by eexists _, _].
  destruct (config_change_encoded garbage c Hf Hg) as (data & -> & Hd). cbn [mbind result_bind].
  unfold raft_append_entry. unfold raft_is_leader in Hlead. apply bool_decide_eq_true in Hlead as ->.
  destruct (node_log_append_cases n (current_term n) RAFT_ENTRY_COMMAND data (wf_log _ Hn))
    as [[p ->]|(err & p & Herr & ->)].
  - destruct (log_get_snoc (nd_log n) (next_entry (nd_log n) (current_term n) RAFT_ENTRY_COMMAND data)
      (wf_log _ Hn) Hroom) as [Hlast Hget].
    eexists (Proposed _), _. split; [done|]. cbn [nd_log set_persistence set_log]. rewrite Hlast.
    split; [done|]. split; [done|]. eexists. split; [exact Hget|]. split; [done|]. split; [done|].
    intros s m now Hr. destruct (apply_config_change_spec garbage c data now s m Hr Hok Hd) as (s' & Hs' & Hr' & _).
    by exists s'.
  - eexists ProposeFailed, _. split; [by destruct err|done].
Qed.
End composition.

(** ** Witnesses and examples *)

(** Structs with the given strings. *)
Definition example_node (id : list Z) : list Z := strncpy_into 63 (replicate 328 0) id.
Definition example_param (key value : list Z) : list Z :=
  set_member VALUE_OFFSET (strncpy_into 255 (replicate 256 0) value) (strncpy_into 127 (replicate 640 0) key).

Definition add_node (id : list Z) : config_change :=
  ConfigChange CONFIG_OP_ADD_NODE (example_node id) (replicate 640 0) None 0.
Definition remove_node (id : list Z) : config_change :=
  ConfigChange CONFIG_OP_REMOVE_NODE (example_node id) (replicate 640 0) None 0.
Definition set_param (key value : list Z) : config_change :=
  ConfigChange CONFIG_OP_SET_PARAM (replicate 328 0) (example_param key value) None 0.

Definition entry_of (c : config_change) (now : Z) : list Z * Z :=
  (match config_change_serialize [] c with Ok data => data | _ => [] end, now).

Definition example_changes : list config_change :=
  [add_node (str "n1"); add_node (str "n2"); set_param (str "k") (str "v"); set_param (str "k") (str "w");
   remove_node (str "n1"); remove_node (str "n3")].
Definition example_entries : list (list Z * Z) := map (λ c, entry_of c 7) example_changes.

Lemma example_change_fits : Forall change_fits example_changes.
Proof.
  unfold example_changes. rewrite !Forall_cons_iff. unfold change_fits, is_u32.
  split_and!; first [apply Forall_nil_2 | intros ? [=] | by vm_compute].
Qed.

Lemma example_change_ok : Forall change_ok example_changes.
Proof.
  unfold example_changes. rewrite !Forall_cons_iff. unfold change_ok, node_ok, param_ok, closed.
  split_and!; first [apply Forall_nil_2 | intros Hop; first [discriminate Hop | split_and!; by vm_compute]].
Qed.

Lemma example_encodes : Forall2 (encodes []) example_changes example_entries.
Proof.
  pose proof example_change_fits as Hf. pose proof example_change_ok as Ho.
  unfold example_entries, example_changes in *. simpl.
  repeat match goal with H : Forall _ (_ :: _) |- _ => apply Forall_cons_iff in H as [? H] end.
  repeat constructor; done.
Qed.

Lemma config_change_roundtrip_witness :
  ∃ data, config_change_serialize [] (add_node (str "n1")) = Ok data ∧
    config_change_deserialize data = Some (add_node (str "n1")).
Proof.
  apply (config_change_roundtrip [] (add_node (str "n1"))); [|done].
  pose proof example_change_fits as Hf. by apply Forall_cons_iff in Hf as [Hf _].
Defined.

Lemma config_refines_maps_witness :
  ∃ s, apply_config_changes example_entries (config_manager_create 0) = Ok s ∧
    config_manager_get_node s (str "n1") = Ok None ∧
    config_manager_get_node s (str "n2") = Ok (Some (example_node (str "n2"))) ∧
    config_manager_get_param s (str "k") 64 = Ok (Some (str "w")) ∧ cs_version s = 6.
Proof.
  destruct (config_refines_maps [] example_changes example_entries 0) as (s & Hs & Hn & Hp & Hv & _);
    [apply example_encodes|repeat constructor; done|].
  exists s. split; [done|]. rewrite !Hn, Hp, Hv by (repeat constructor; done). split_and!; vm_compute; reflexivity.
Defined.

Lemma proposed_change_applies_witness :
  ∃ n', config_manager_propose_change [] (add_node (str "n1")) (leader_with 2 [1; 2] 0 3) = Ok (Proposed 3, n') ∧
    ∃ e, log_get n'.(nd_log) 3 = Some e ∧ le_term e = 2.
Proof.
  destruct (proposed_change_applies [] (add_node (str "n1")) (leader_with 2 [1; 2] 0 3)) as (r & n' & Hr & Hp).
  - apply leader_with_wf; try done; forall_done.
  - done.
  - pose proof example_change_fits as Hf. by apply Forall_cons_iff in Hf as [Hf _].
  - pose proof example_change_ok as Hf. by apply Forall_cons_iff in Hf as [Hf _].
  - done.
  - exists n'. destruct r as [index| |]; [|by vm_compute in Hr|by destruct Hp].
    destruct Hp as (_ & Hi & e & He & Ht & _). simpl in Hi. subst index. split; [exact Hr|]. by exists e.
Defined.

(** Two followers, the second further. *)
Definition config_log : raft_log :=
  RaftLog (imap (λ i e, LogEntry (Z.of_nat i + 1) 1 RAFT_ENTRY_COMMAND e.1) example_entries) 0 0.
Definition config_follower (commit : Z) : raft_node mem_store :=
  set_log config_log (set_commit_index commit (follower_with 1 [])).

Lemma config_log_wf : log_wf config_log.
Proof.
  split; [done|vm_compute; reflexivity| |].
  - intros k e He. unfold config_log in He. cbn [log_entries] in He. rewrite list_lookup_imap in He.
    apply fmap_Some in He as (x & _ & ->). cbn [le_index log_base_index config_log]. lia.
  - assert (Hb : Forall (λ e, bool_decide (entry_ok e) = true) (log_entries config_log)).
    { apply list.Forall_forall. intros e He. vm_compute in He. set_solver. }
    eapply list.Forall_impl; [exact Hb|]. intros e. apply bool_decide_eq_true_1.
Qed.

Lemma config_follower_wf commit : is_u32 commit → node_wf (config_follower commit).
Proof. intros Hc. destruct (follower_with_wf 1 []) as []; [done|constructor|done|]. split; try done. apply config_log_wf. Qed.

Lemma config_replicas_agree_witness :
  ∃ more, without_time (config_of 0 (λ _, 5) (apply_committed_entries (config_follower 3))) =
    without_time (s ← config_of 0 (λ i, Z.of_nat i) (apply_committed_entries (config_follower 2));
                  apply_config_changes more s).
Proof.
  destruct (config_replicas_agree (config_follower 2) (config_follower 3) 0 (λ i, Z.of_nat i) (λ _, 5)) as (more & Hm & _).
  - intros n [-> | ->]; (split; [by apply config_follower_wf|split; [done|split; [done|by vm_compute]]]).
  - done.
  - done.
  - done.
  - done.
  - exists more. exact Hm.
Defined.

(** A change whose identifier fills its 64 bytes is decoded, and adding it a second
    time compares past the end of the array: [config_change_deserialize] checks the
    size of a struct, not that its strings end. *)
Theorem unterminated_identifier_faults start t1 t2 :
  let change := ConfigChange CONFIG_OP_ADD_NODE (replicate 64 97 ++ replicate 264 0) (replicate 640 0) None 0 in
  let entry t := entry_of change t in
  (∃ s, apply_config_changes [entry t1] (config_manager_create start) = Ok s) ∧
  apply_config_changes [entry t1; entry t2] (config_manager_create start) = Fault.
Proof. split; [eexists|]; vm_compute; reflexivity. Qed.
