(* ===== verification/WorkerPool.v ===== *)
(** * Cluster: the pool of workers

    [src/libs/distric_cluster/src/worker_pool.c]: the array of workers that gossip
    fills, the selection strategies and the accounting of tasks.

    The strings of [worker_info_t] are the bytes of their arrays.  A [double] is a
    [spec_float] of precision 53, computed by the operations of the Standard
    Library's specification of binary64.  The array is the list of its used slots
    followed by the list of the spare ones, which hold what [calloc] or [realloc] left
    there: zeros at the beginning, anything after the array grew.  Operations hold the
    lock of the pool, so they are atomic; the gauges are not modelled. *)

From Stdlib Require Import ZArith Lia SpecFloat String.
From stdpp Require Import base list numbers option gmap.
From S2P Require Import Prelude CString StructTable GossipMembership.

Local Open Scope Z_scope.

(** ** Doubles *)

Definition double_of (z : Z) : spec_float := binary_normalize 53 1024 z 0 false.
Definition double_div (x y : spec_float) : spec_float := SFdiv 53 1024 x y.
Definition double_lt (x y : spec_float) : bool := SFltb x y.

(** ** Data *)

Definition WORKER_SELECT_ROUND_ROBIN : Z := 0.
Definition WORKER_SELECT_LEAST_LOADED : Z := 1.
Definition WORKER_SELECT_LEAST_UTILIZED : Z := 2.
Definition WORKER_SELECT_RANDOM : Z := 3.

Record worker_info := WorkerInfo {
  wi_worker_id : list Z;
  wi_address : list Z;
  wi_port : Z;
  wi_status : Z;
  wi_incarnation : Z;
  wi_joined_at_ms : Z;
  wi_last_seen_ms : Z;
  wi_last_task_assigned_ms : Z;
  wi_max_concurrent_tasks : Z;
  wi_current_task_count : Z;
  wi_total_tasks_completed : Z;
  wi_load_metric : spec_float;
  wi_utilization : spec_float
}.

(** A slot that [calloc] cleared. *)
Definition worker_info_zero : worker_info :=
  WorkerInfo (replicate 64 0) (replicate 256 0) 0 0 0 0 0 0 0 0 0 (S754_zero false) (S754_zero false).

Definition wi_set_status (s : Z) (w : worker_info) : worker_info :=
  WorkerInfo (wi_worker_id w) (wi_address w) (wi_port w) s (wi_incarnation w) (wi_joined_at_ms w) (wi_last_seen_ms w)
    (wi_last_task_assigned_ms w) (wi_max_concurrent_tasks w) (wi_current_task_count w) (wi_total_tasks_completed w)
    (wi_load_metric w) (wi_utilization w).
Definition wi_set_utilization (u : spec_float) (w : worker_info) : worker_info :=
  WorkerInfo (wi_worker_id w) (wi_address w) (wi_port w) (wi_status w) (wi_incarnation w) (wi_joined_at_ms w)
    (wi_last_seen_ms w) (wi_last_task_assigned_ms w) (wi_max_concurrent_tasks w) (wi_current_task_count w)
    (wi_total_tasks_completed w) (wi_load_metric w) u.
Definition wi_set_tasks (count assigned_ms completed : Z) (w : worker_info) : worker_info :=
  WorkerInfo (wi_worker_id w) (wi_address w) (wi_port w) (wi_status w) (wi_incarnation w) (wi_joined_at_ms w)
    (wi_last_seen_ms w) assigned_ms (wi_max_concurrent_tasks w) count completed (wi_load_metric w) (wi_utilization w).

Record worker_pool := WorkerPool {
  wp_workers : list worker_info;
  wp_spare : list worker_info;
  wp_strategy : Z;
  wp_round_robin_index : Z
}.

Definition wp_set_workers (workers : list worker_info) (p : worker_pool) : worker_pool :=
  WorkerPool workers (wp_spare p) (wp_strategy p) (wp_round_robin_index p).
Definition wp_set_index (i : Z) (p : worker_pool) : worker_pool :=
  WorkerPool (wp_workers p) (wp_spare p) (wp_strategy p) i.

(** [worker_count] and [worker_capacity]. *)
Definition worker_count (p : worker_pool) : nat := length (wp_workers p).
Definition worker_capacity (p : worker_pool) : nat := worker_count p + length (wp_spare p).

(** ** Joining and failing *)

Definition worker_pool_create : worker_pool :=
  WorkerPool [] (replicate 16 worker_info_zero) WORKER_SELECT_LEAST_LOADED 0.

Definition find_worker (p : worker_pool) (worker_id : list Z) : result (option nat) :=
  find_by wi_worker_id (wp_workers p) (worker_id ++ [0]).

(** The utilization is refreshed after every change. *)
Definition refresh_utilization (w : worker_info) : worker_info :=
  if wi_max_concurrent_tasks w >? 0 then
    wi_set_utilization
      (double_div (double_of (wi_current_task_count w)) (double_of (wi_max_concurrent_tasks w))) w
  else w.

(** The slot of a worker that joins keeps its task counters. *)
Definition init_worker (slot : worker_info) (node : gossip_node_info) (now : Z) : worker_info :=
  WorkerInfo (strncpy_into 63 (wi_worker_id slot) (gi_node_id node ++ [0]))
    (strncpy_into 255 (wi_address slot) (gi_address node ++ [0])) (gi_port node) (wi_status slot)
    (wi_incarnation slot) now (wi_last_seen_ms slot) (wi_last_task_assigned_ms slot) 10
    (wi_current_task_count slot) (wi_total_tasks_completed slot) (wi_load_metric slot) (wi_utilization slot).

Definition update_worker (node : gossip_node_info) (now : Z) (w : worker_info) : worker_info :=
  refresh_utilization
    (WorkerInfo (wi_worker_id w) (wi_address w) (wi_port w) (gi_status node) (u32 (gi_incarnation node))
       (wi_joined_at_ms w) now (wi_last_task_assigned_ms w) (wi_max_concurrent_tasks w)
       (wi_current_task_count w) (wi_total_tasks_completed w) (double_of (gi_load node)) (wi_utilization w)).

(** The first spare slot, and those after it: a full array doubles, and [realloc]
    leaves [garbage] in its second half. *)
Definition take_slot (garbage : list worker_info) (p : worker_pool) : option (worker_info * list worker_info) :=
  match wp_spare p with
  | slot :: spare => Some (slot, spare)
  | [] => match take (worker_capacity p) garbage with slot :: spare => Some (slot, spare) | [] => None end
  end.

Definition worker_pool_update_from_gossip (garbage : list worker_info) (p : worker_pool)
    (node : gossip_node_info) (joined now : Z) : result worker_pool :=
  if negb (gi_role node =? GOSSIP_ROLE_WORKER) then Ok p
  else
    found ← find_worker p (gi_node_id node);
    match found with
    | Some i => Ok (wp_set_workers (alter (update_worker node now) i (wp_workers p)) p)
    | None =>
        match take_slot garbage p with
        | Some (slot, spare) =>
            Ok (WorkerPool (wp_workers p ++ [update_worker node now (init_worker slot node joined)]) spare
                  (wp_strategy p) (wp_round_robin_index p))
        | None => Fault
        end
    end.

(** [None] is a return of -1. *)
Definition worker_pool_mark_failed (p : worker_pool) (worker_id : list Z) : result (option worker_pool) :=
  found ← find_worker p worker_id;
  Ok (option_map (λ i, wp_set_workers (alter (wi_set_status GOSSIP_NODE_FAILED) i (wp_workers p)) p) found).

(** ** Selection *)

Definition available (w : worker_info) : bool :=
  (wi_status w =? GOSSIP_NODE_ALIVE) && (wi_current_task_count w <? wi_max_concurrent_tasks w).

(** The turns left of the loop; the position selected and the index after it. *)
Fixpoint round_robin_loop (fuel : nat) (workers : list worker_info) (index : Z) : option nat * Z :=
  match fuel with
  | O => (None, index)
  | S fuel =>
      let idx := Z.to_nat (index mod Z.of_nat (length workers)) in
      let index := u64 (index + 1) in
      match workers !! idx with
      | Some w => if available w then (Some idx, index) else round_robin_loop fuel workers index
      | None => (None, index)
      end
  end.

Definition select_round_robin (p : worker_pool) : option nat * worker_pool :=
  let '(selected, index) := round_robin_loop (worker_count p) (wp_workers p) (wp_round_robin_index p) in
  (selected, wp_set_index index p).

(** The scan for the smallest value: position and value of the best so far. *)
Fixpoint least_loaded_loop (workers : list worker_info) (i : nat) (best : option nat) (min_load : Z) : option nat :=
  match workers with
  | [] => best
  | w :: workers =>
      if available w && (wi_current_task_count w <? min_load)
      then least_loaded_loop workers (S i) (Some i) (wi_current_task_count w)
      else least_loaded_loop workers (S i) best min_load
  end.

Definition select_least_loaded (p : worker_pool) : option nat := least_loaded_loop (wp_workers p) 0 None UINT32_MAX.

Fixpoint least_utilized_loop (workers : list worker_info) (i : nat) (best : option nat) (min : spec_float) : option nat :=
  match workers with
  | [] => best
  | w :: workers =>
      if available w && double_lt (wi_utilization w) min
      then least_utilized_loop workers (S i) (Some i) (wi_utilization w)
      else least_utilized_loop workers (S i) best min
  end.

Definition select_least_utilized (p : worker_pool) : option nat :=
  least_utilized_loop (wp_workers p) 0 None (double_of 1).

(** The [target]-th available worker. *)
Fixpoint nth_available (workers : list worker_info) (i : nat) (target current : Z) : option nat :=
  match workers with
  | [] => None
  | w :: workers =>
      if available w then if current =? target then Some i else nth_available workers (S i) target (current + 1)
      else nth_available workers (S i) target current
  end.

(** [random] is what [rand] returns. *)
Definition select_random (random : Z) (p : worker_pool) : option nat :=
  let available_count := Z.of_nat (length (List.filter available (wp_workers p))) in
  if available_count =? 0 then None
  else nth_available (wp_workers p) 0 (random mod available_count) 0.

Definition worker_pool_select_worker (random : Z) (strategy : Z) (p : worker_pool) : option nat * worker_pool :=
  if strategy =? WORKER_SELECT_ROUND_ROBIN then select_round_robin p
  else if strategy =? WORKER_SELECT_LEAST_LOADED then (select_least_loaded p, p)
  else if strategy =? WORKER_SELECT_LEAST_UTILIZED then (select_least_utilized p, p)
  else if strategy =? WORKER_SELECT_RANDOM then (select_random random p, p)
  else (None, p).

(** ** Tasks *)

(** [task_delta] is an [int32_t]; negating the least one overflows. *)
Definition count_tasks (task_delta now : Z) (w : worker_info) : result worker_info :=
  if task_delta >? 0 then
    Ok (refresh_utilization
      (wi_set_tasks (u32 (wi_current_task_count w + task_delta)) now (wi_total_tasks_completed w) w))
  else if task_delta =? - 2 ^ 31 then Fault
  else if u32 (- task_delta) <=? wi_current_task_count w then
    Ok (refresh_utilization
      (wi_set_tasks (u32 (wi_current_task_count w + task_delta)) (wi_last_task_assigned_ms w)
         (u32 (wi_total_tasks_completed w + 1)) w))
  else Ok (refresh_utilization w).

(** [None] is a return of -1. *)
Definition worker_pool_update_task_count (p : worker_pool) (worker_id : list Z) (task_delta now : Z) :
    result (option worker_pool) :=
  found ← find_worker p worker_id;
  match found with
  | Some i =>
      match wp_workers p !! i with
      | Some w => w ← count_tasks task_delta now w; Ok (Some (wp_set_workers (<[i := w]> (wp_workers p)) p))
      | None => Fault
      end
  | None => Ok None
  end.

(** ** Queries *)

Definition worker_pool_get_workers_by_status (p : worker_pool) (status : Z) : list worker_info :=
  List.filter (λ w, wi_status w =? status) (wp_workers p).

Definition worker_pool_get_worker_info (p : worker_pool) (worker_id : list Z) : result (option worker_info) :=
  found ← find_worker p worker_id;
  Ok (match found with Some i => wp_workers p !! i | None => None end).

Record capacity_stats := CapacityStats {
  st_total_workers : nat;
  st_alive_workers : nat;
  st_total_capacity : Z;
  st_total_utilized : Z;
  st_utilization_rate : spec_float;
  st_average_load : spec_float
}.

Definition sum32 (f : worker_info → Z) (workers : list worker_info) : Z :=
  foldl (λ total w, u32 (total + f w)) 0 workers.

Definition worker_pool_get_capacity_stats (p : worker_pool) : capacity_stats :=
  let alive := List.filter (λ w, wi_status w =? GOSSIP_NODE_ALIVE) (wp_workers p) in
  let total_capacity := sum32 wi_max_concurrent_tasks alive in
  let total_utilized := sum32 wi_current_task_count alive in
  CapacityStats (worker_count p) (length alive) total_capacity total_utilized
    (if total_capacity >? 0 then double_div (double_of total_utilized) (double_of total_capacity)
     else S754_zero false)
    (if (0 <? length alive)%nat then double_div (double_of total_utilized) (double_of (Z.of_nat (length alive)))
     else S754_zero false).

Definition worker_pool_set_strategy (strategy : Z) (p : worker_pool) : worker_pool :=
  WorkerPool (wp_workers p) (wp_spare p) strategy (wp_round_robin_index p).
Definition worker_pool_get_strategy (p : worker_pool) : Z := wp_strategy p.

Definition worker_selection_strategy_to_string (strategy : Z) : list Z :=
  if strategy =? WORKER_SELECT_ROUND_ROBIN then str "ROUND_ROBIN"
  else if strategy =? WORKER_SELECT_LEAST_LOADED then str "LEAST_LOADED"
  else if strategy =? WORKER_SELECT_LEAST_UTILIZED then str "LEAST_UTILIZED"
  else if strategy =? WORKER_SELECT_RANDOM then str "RANDOM"
  else str "UNKNOWN".

(** ** Selection *)

(** Some worker of the list is available. *)
Definition some_available (workers : list worker_info) : Prop :=
  ∃ i w, workers !! i = Some w ∧ available w = true.

Definition count_of (w : worker_info) : Z := wi_current_task_count w.

Lemma least_loaded_loop_spec l : ∀ k best m,
  let r := least_loaded_loop l k best m in
  (r = best ∧ ∀ j w, l !! j = Some w → available w = true → m ≤ count_of w) ∨
  ∃ i w, r = Some (k + i)%nat ∧ l !! i = Some w ∧ available w = true ∧ count_of w < m ∧
    ∀ j x, l !! j = Some x → available x = true →
      count_of w ≤ count_of x ∧ ((j < i)%nat → count_of w < count_of x).
Proof.
  induction l as [|w l IH]; intros k best m; cbn [least_loaded_loop]; [by left|].
  fold (count_of w). destruct (available w && (count_of w <? m)) eqn:Hb; cbv zeta.
  - apply andb_true_iff in Hb as [Ha Hlt%Z.ltb_lt]. right.
    destruct (IH (S k) (Some k) (count_of w)) as [[-> Hmin]|(i & x & -> & Hi & Hx & Hxw & Hmin)].
    + exists 0%nat, w. rewrite Nat.add_0_r. split_and!; try done. intros [|j] x Hj Hx; simplify_eq/=; [lia|].
      specialize (Hmin j x Hj Hx). lia.
    + exists (S i), x. rewrite Nat.add_succ_r. split_and!; try done; [lia|].
      intros [|j] y Hj Hy; simplify_eq/=; [lia|]. destruct (Hmin j y Hj Hy). lia.
  - destruct (IH (S k) best m) as [[-> Hmin]|(i & x & -> & Hi & Hx & Hxm & Hmin)].
    + left. split; [done|]. intros [|j] x Hj Hx; simplify_eq/=; [|by eapply Hmin].
      rewrite Hx in Hb. apply Z.ltb_ge in Hb. lia.
    + right. exists (S i), x. rewrite Nat.add_succ_r. split_and!; try done.
      intros [|j] y Hj Hy; simplify_eq/=; [|destruct (Hmin j y Hj Hy); lia].
      rewrite Hy in Hb. apply Z.ltb_ge in Hb. lia.
Qed.

(** A worker as the pool keeps it: ten tasks at most at a time, and the utilization is
    the quotient. *)
Record worker_ok (w : worker_info) : Prop := {
  wo_id : terminated (wi_worker_id w);
  wo_max : wi_max_concurrent_tasks w = 10;
  wo_count : is_u32 (wi_current_task_count w);
  wo_utilization : wi_utilization w = double_div (double_of (wi_current_task_count w)) (double_of 10)
}.

Definition tenths (a : Z) : spec_float := double_div (double_of a) (double_of 10).

Lemma tenths_lt a b : 0 ≤ a < 10 → 0 ≤ b < 10 → double_lt (tenths a) (tenths b) = (a <? b).
Proof.
  intros Ha Hb.
  assert (Hall : forallb (λ a, forallb (λ b, Bool.eqb (double_lt (tenths a) (tenths b)) (a <? b))
    (seqZ 0 10)) (seqZ 0 10) = true) by (vm_compute; reflexivity).
  rewrite forallb_forall in Hall. specialize (Hall a). rewrite forallb_forall in Hall.
  apply Bool.eqb_prop, Hall; apply list_elem_of_In, elem_of_seqZ; lia.
Qed.

Lemma tenths_lt_one a : 0 ≤ a < 10 → double_lt (tenths a) (double_of 1) = true.
Proof.
  intros Ha.
  assert (Hall : forallb (λ a, double_lt (tenths a) (double_of 1)) (seqZ 0 10) = true) by (vm_compute; reflexivity).
  rewrite forallb_forall in Hall. apply Hall, list_elem_of_In, elem_of_seqZ. lia.
Qed.

Lemma available_count w : worker_ok w → available w = true → 0 ≤ count_of w < 10.
Proof.
  intros Hw Ha. unfold available in Ha. apply andb_true_iff in Ha as [_ Ha%Z.ltb_lt].
  rewrite (wo_max _ Hw) in Ha. pose proof (wo_count _ Hw). unfold count_of. ulia.
Qed.

Lemma least_utilized_loop_eq l k best m u :
  Forall worker_ok l →
  (m = UINT32_MAX ∧ u = double_of 1 ∨ 0 ≤ m < 10 ∧ u = tenths m) →
  least_utilized_loop l k best u = least_loaded_loop l k best m.
Proof.
  intros Hl. revert k best m u. induction Hl as [|w l Hw Hl IH]; intros k best m u Hm; [done|].
  cbn [least_utilized_loop least_loaded_loop].
  destruct (available w) eqn:Ha; cbn [andb]; [|by apply IH].
  pose proof (available_count _ Hw Ha) as Hc. unfold count_of in Hc.
  assert (Hlt : double_lt (wi_utilization w) u = (wi_current_task_count w <? m)).
  { rewrite (wo_utilization _ Hw). fold (tenths (wi_current_task_count w)).
    destruct Hm as [[-> ->]|[Hm ->]]; [|by apply tenths_lt].
    rewrite tenths_lt_one by done. symmetry. apply Z.ltb_lt. unfold UINT32_MAX. lia. }
  rewrite Hlt. destruct (wi_current_task_count w <? m); apply IH; [|done].
  right. split; [done|]. apply (wo_utilization _ Hw).
Qed.

(** Choosing the least utilized worker is choosing the least loaded one: the
    comparison of the quotients, computed in double precision, orders the workers that
    can take a task as the number of their tasks does. *)
Theorem least_utilized_is_least_loaded p :
  Forall worker_ok (wp_workers p) → select_least_utilized p = select_least_loaded p.
Proof. intros Hp. apply least_utilized_loop_eq; [done|by left]. Qed.

(** Round robin: the positions from [index] on, cyclically. *)
Lemma round_robin_loop_spec l fuel index :
  l ≠ [] → 0 ≤ index → index + Z.of_nat fuel < 2 ^ 64 →
  let at_turn t := l !! Z.to_nat ((index + Z.of_nat t) mod Z.of_nat (length l)) in
  match round_robin_loop fuel l index with
  | (Some i, index') => ∃ t w, (t < fuel)%nat ∧ i = Z.to_nat ((index + Z.of_nat t) mod Z.of_nat (length l)) ∧
      at_turn t = Some w ∧ available w = true ∧ index' = index + Z.of_nat t + 1 ∧
      ∀ t' w', (t' < t)%nat → at_turn t' = Some w' → available w' = false
  | (None, index') => index' = index + Z.of_nat fuel ∧
      ∀ t w, (t < fuel)%nat → at_turn t = Some w → available w = false
  end.
Proof.
  intros Hl. assert (Hn : 0 < Z.of_nat (length l)) by (destruct l; simpl; [done|lia]).
  revert index. induction fuel as [|fuel IH]; intros index Hi Hf; cbn [round_robin_loop].
  { split; [lia|]. intros t w Ht. lia. }
  pose proof (Z.mod_pos_bound index _ Hn) as Hm.
  destruct (lookup_lt_is_Some_2 l (Z.to_nat (index mod Z.of_nat (length l)))) as [w Hw]; [lia|].
  rewrite Hw. rewrite u64_id by ulia. destruct (available w) eqn:Ha.
  { exists 0%nat, w. cbn [Z.of_nat]. rewrite !Z.add_0_r. split_and!; first [done | lia | intros; lia]. }
  assert (Hshift : ∀ t, index + 1 + Z.of_nat t = index + Z.of_nat (S t)) by lia.
  assert (Hzero : ∀ t' w', l !! Z.to_nat ((index + Z.of_nat t') mod Z.of_nat (length l)) = Some w' →
    t' = 0%nat → available w' = false).
  { intros t' w' Hw' ->. rewrite Z.add_0_r in Hw'. congruence. }
  specialize (IH (index + 1) ltac:(lia) ltac:(lia)). cbv zeta in IH.
  destruct (round_robin_loop fuel l (index + 1)) as [[i|] index'].
  - destruct IH as (t & x & Ht & -> & Hx & Hax & -> & Hbefore). rewrite Hshift in Hx |- *.
    exists (S t), x. split_and!; try done; try lia.
    intros [|t'] w' Ht' Hw'; [by eapply Hzero|]. rewrite <- Hshift in Hw'. eapply (Hbefore t'); [lia|exact Hw'].
  - destruct IH as [-> Hnone]. split; [lia|]. intros [|t'] w' Ht' Hw'; [by eapply Hzero|].
    rewrite <- Hshift in Hw'. eapply (Hnone t'); [lia|exact Hw'].
Qed.

(** The positions of the available workers, from [k]. *)
Fixpoint available_positions (l : list worker_info) (k : nat) : list nat :=
  match l with
  | [] => []
  | w :: l => if available w then k :: available_positions l (S k) else available_positions l (S k)
  end.

Lemma available_positions_length l k : length (available_positions l k) = length (List.filter available l).
Proof. revert k. induction l as [|w l IH]; intros k; [done|]. simpl. destruct (available w); simpl; by rewrite IH. Qed.

Lemma available_positions_elem l k i :
  i ∈ available_positions l k ↔ ∃ j w, i = (k + j)%nat ∧ l !! j = Some w ∧ available w = true.
Proof.
  revert k. induction l as [|w l IH]; intros k; simpl.
  { split; [by intros ?%elem_of_nil|]. by intros (j & w & _ & Hj & _). }
  assert (Hiff : i ∈ available_positions l (S k) ↔ ∃ j x, i = (k + S j)%nat ∧ l !! j = Some x ∧ available x = true).
  { rewrite IH. split; intros (j & x & -> & Hj); exists j, x; (split; [lia|done]). }
  destruct (available w) eqn:Ha; rewrite ?elem_of_cons, Hiff; split.
  - intros [->|(j & x & Hj)]; [exists 0%nat, w; by rewrite Nat.add_0_r|exists (S j), x; exact Hj].
  - intros ([|j] & x & -> & Hj & Hx); simplify_eq/=; [left; lia|right; exists j, x; split_and!; done].
  - intros (j & x & Hj). exists (S j), x. exact Hj.
  - intros ([|j] & x & -> & Hj & Hx); simplify_eq/=; [congruence|]. exists j, x. split_and!; done.
Qed.

Lemma nth_available_spec l k target current :
  current ≤ target → nth_available l k target current = available_positions l k !! Z.to_nat (target - current).
Proof.
  revert k current. induction l as [|w l IH]; intros k current Hc; simpl; [done|].
  destruct (available w); [|by apply IH]. destruct (Z.eqb_spec current target) as [->|Hne].
  - by rewrite Z.sub_diag.
  - rewrite IH by lia. by replace (Z.to_nat (target - current)) with (S (Z.to_nat (target - (current + 1)))) by lia.
Qed.

(** The turn of a round that looks at position [k]. *)
Lemma turn_of n index k :
  0 < n → 0 ≤ k < n → (index + (k - index) mod n) mod n = k.
Proof.
  intros Hn Hk. rewrite Z.add_mod_idemp_r by lia. replace (index + (k - index)) with k by lia.
  by apply Z.mod_small.
Qed.

Lemma turn_lookup (l : list worker_info) index k w :
  l !! k = Some w →
  l !! Z.to_nat ((index + Z.of_nat (Z.to_nat ((Z.of_nat k - index) mod Z.of_nat (length l)))) mod Z.of_nat (length l))
    = Some w ∧ (Z.to_nat ((Z.of_nat k - index) mod Z.of_nat (length l)) < length l)%nat.
Proof.
  intros Hk. pose proof (lookup_lt_Some _ _ _ Hk).
  pose proof (Z.mod_pos_bound (Z.of_nat k - index) (Z.of_nat (length l))).
  rewrite Z2Nat.id by lia. rewrite turn_of by lia. rewrite Nat2Z.id. split; [done|lia].
Qed.

Lemma select_round_robin_spec p :
  0 ≤ wp_round_robin_index p → wp_round_robin_index p + Z.of_nat (worker_count p) < 2 ^ 64 →
  wp_workers (select_round_robin p).2 = wp_workers p ∧
  match (select_round_robin p).1 with
  | Some i => ∃ w, wp_workers p !! i = Some w ∧ available w = true
  | None => ¬ some_available (wp_workers p)
  end.
Proof.
  intros H0 Hb. unfold select_round_robin. destruct (decide (wp_workers p = [])) as [Hnil|Hne].
  { unfold worker_count. rewrite Hnil. cbn. split; [exact Hnil|]. intros (i & w & Hi & _). done. }
  pose proof (round_robin_loop_spec _ _ _ Hne H0 Hb) as Hs.
  destruct (round_robin_loop _ _ _) as [[i|] index']; (split; [done|]).
  - destruct Hs as (t & w & _ & -> & Hw & Ha & _). by exists w.
  - destruct Hs as [_ Hs]. intros (k & w & Hk & Ha).
    destruct (turn_lookup _ (wp_round_robin_index p) _ _ Hk) as [Hl Ht]. by rewrite (Hs _ _ Ht Hl) in Ha.
Qed.

Lemma select_least_loaded_spec p :
  Forall worker_ok (wp_workers p) →
  match select_least_loaded p with
  | Some i => ∃ w, wp_workers p !! i = Some w ∧ available w = true
  | None => ¬ some_available (wp_workers p)
  end.
Proof.
  intros Hp. unfold select_least_loaded.
  destruct (least_loaded_loop_spec (wp_workers p) 0 None UINT32_MAX) as [[-> Hmin]|(i & w & -> & Hi & Ha & _)].
  - intros (i & w & Hi & Ha). specialize (Hmin i w Hi Ha).
    pose proof (available_count _ (Forall_lookup_1 _ _ _ _ Hp Hi) Ha). unfold UINT32_MAX in *. lia.
  - by exists w.
Qed.

Lemma select_random_spec random p :
  0 ≤ random →
  match select_random random p with
  | Some i => ∃ w, wp_workers p !! i = Some w ∧ available w = true
  | None => ¬ some_available (wp_workers p)
  end.
Proof.
  intros Hr. unfold select_random.
  pose proof (available_positions_length (wp_workers p) 0) as Hlen.
  assert (Hin : ∀ i, i ∈ available_positions (wp_workers p) 0 ↔
    ∃ w, wp_workers p !! i = Some w ∧ available w = true).
  { intros i. rewrite available_positions_elem. split.
    - intros (j & w & -> & Hj). by exists w.
    - intros (w & Hw). by exists i, w. }
  destruct (Z.eqb_spec (Z.of_nat (length (List.filter available (wp_workers p)))) 0) as [Hz|Hz].
  - intros (i & w & Hi & Ha).
    assert (Hi' : i ∈ available_positions (wp_workers p) 0) by (apply Hin; by exists w).
    destruct (available_positions (wp_workers p) 0); [by apply elem_of_nil in Hi'|simpl in Hlen; lia].
  - pose proof (Z.mod_pos_bound random (Z.of_nat (length (List.filter available (wp_workers p))))) as Hm.
    rewrite nth_available_spec by lia. rewrite Z.sub_0_r.
    destruct (available_positions (wp_workers p) 0 !! _) as [i|] eqn:Hi.
    + apply Hin. by eapply list_elem_of_lookup_2.
    + apply lookup_ge_None_1 in Hi. lia.
Qed.

(** Each of the four strategies selects a worker that is alive and has room for a
    task, and reports that there is none exactly when there is none; selecting changes
    no worker. *)
Theorem worker_selection_sound random strategy p :
  Forall worker_ok (wp_workers p) → 0 ≤ random → 0 ≤ strategy ≤ 3 →
  0 ≤ wp_round_robin_index p → wp_round_robin_index p + Z.of_nat (worker_count p) < 2 ^ 64 →
  let '(selected, p') := worker_pool_select_worker random strategy p in
  wp_workers p' = wp_workers p ∧
  match selected with
  | Some i => ∃ w, wp_workers p !! i = Some w ∧ available w = true
  | None => ¬ some_available (wp_workers p)
  end.
Proof.
  intros Hp Hr Hs H0 Hb. unfold worker_pool_select_worker.
  destruct (Z.eqb_spec strategy WORKER_SELECT_ROUND_ROBIN).
  { pose proof (select_round_robin_spec p H0 Hb) as Hrr. by destruct (select_round_robin p). }
  destruct (Z.eqb_spec strategy WORKER_SELECT_LEAST_LOADED).
  { split; [done|]. by apply select_least_loaded_spec. }
  destruct (Z.eqb_spec strategy WORKER_SELECT_LEAST_UTILIZED).
  { split; [done|]. unfold select_least_utilized. rewrite (least_utilized_loop_eq _ _ _ UINT32_MAX) by (done || by left).
    by apply select_least_loaded_spec. }
  destruct (Z.eqb_spec strategy WORKER_SELECT_RANDOM); [split; [done|]; by apply select_random_spec|].
  unfold WORKER_SELECT_ROUND_ROBIN, WORKER_SELECT_LEAST_LOADED, WORKER_SELECT_LEAST_UTILIZED, WORKER_SELECT_RANDOM in *. lia.
Qed.

(** The selections of a number of calls without a change in between. *)
Fixpoint round_robin_selections (n : nat) (p : worker_pool) : list (option nat) :=
  match n with
  | O => []
  | S n => let '(selected, p) := select_round_robin p in selected :: round_robin_selections n p
  end.

Lemma round_robin_reaches m : ∀ p k w,
  wp_workers p !! k = Some w → available w = true → 0 ≤ wp_round_robin_index p →
  wp_round_robin_index p + Z.of_nat m * Z.of_nat (worker_count p) < 2 ^ 64 →
  (Z.of_nat k - wp_round_robin_index p) mod Z.of_nat (worker_count p) < Z.of_nat m →
  Some k ∈ round_robin_selections m p.
Proof.
  induction m as [|m IH]; intros p k w Hk Ha H0 Hb Hd.
  { pose proof (Z.mod_pos_bound (Z.of_nat k - wp_round_robin_index p) (Z.of_nat (worker_count p))).
    apply lookup_lt_Some in Hk. unfold worker_count in *. lia. }
  rewrite Nat2Z.inj_succ, Z.mul_succ_l in Hb.
  cbn [round_robin_selections]. unfold select_round_robin.
  destruct (turn_lookup _ (wp_round_robin_index p) _ _ Hk) as [Hl Ht].
  fold (worker_count p) in Hl, Ht. set (d := (Z.of_nat k - wp_round_robin_index p) mod Z.of_nat (worker_count p)) in *.
  assert (Hne : wp_workers p ≠ []) by (intros Hnil; by rewrite Hnil in Hk).
  pose proof (lookup_lt_Some _ _ _ Hk) as Hlt. fold (worker_count p) in Hlt.
  assert (Hd0 : 0 ≤ d < Z.of_nat (worker_count p)) by (apply Z.mod_pos_bound; lia).
  pose proof (round_robin_loop_spec (wp_workers p) (worker_count p) _ Hne H0 ltac:(nia)) as Hs.
  fold (worker_count p) in Hs.
  destruct (round_robin_loop _ _ _) as [[i|] index'].
  - destruct Hs as (t & x & _ & -> & _ & _ & -> & Hbefore).
    destruct (Nat.lt_trichotomy t (Z.to_nat d)) as [Hcmp|[->|Hcmp]].
    + apply elem_of_cons. right. apply (IH _ k w); cbn [wp_workers wp_round_robin_index wp_set_index]; try done;
        try change (worker_count (wp_set_index _ p)) with (worker_count p); [lia|lia|].
      assert (Hd' : (Z.of_nat k - (wp_round_robin_index p + Z.of_nat t + 1)) mod Z.of_nat (worker_count p) =
        d - (Z.of_nat t + 1)).
      { unfold d in *. replace (Z.of_nat k - (wp_round_robin_index p + Z.of_nat t + 1)) with
          (Z.of_nat k - wp_round_robin_index p - (Z.of_nat t + 1)) by lia.
        rewrite <- Zminus_mod_idemp_l. apply Z.mod_small. lia. }
      lia.
    + apply elem_of_cons. left. f_equal. unfold d. rewrite Z2Nat.id by lia. rewrite turn_of by lia. by rewrite Nat2Z.id.
    + rewrite (Hbefore _ _ Hcmp Hl) in Ha. done.
  - destruct Hs as [_ Hs]. rewrite (Hs _ _ Ht Hl) in Ha. done.
Qed.

(** Round robin starves no worker: of as many selections in a row as there are
    workers, at least one selects any given worker that can take a task. *)
Theorem round_robin_fair p k w :
  wp_workers p !! k = Some w → available w = true → 0 ≤ wp_round_robin_index p →
  wp_round_robin_index p + Z.of_nat (worker_count p) * Z.of_nat (worker_count p) < 2 ^ 64 →
  Some k ∈ round_robin_selections (worker_count p) p.
Proof.
  intros Hk Ha H0 Hb. apply (round_robin_reaches _ _ _ w); try done. apply Z.mod_pos_bound.
  apply lookup_lt_Some in Hk. unfold worker_count. lia.
Qed.

(** ** The ledger *)

(** What the pool promises to keep of a worker: its status, the tasks it has now and
    the tasks it has completed. *)
Notation ledger := (gmap (list Z) (Z * (Z * Z))).

Inductive pool_event :=
  | NodeSeen (node : gossip_node_info) (joined now : Z)
  | NodeFailed (worker_id : list Z)
  | TasksChanged (worker_id : list Z) (task_delta now : Z).

Definition pool_handle (garbage : list worker_info) (p : worker_pool) (ev : pool_event) : result worker_pool :=
  match ev with
  | NodeSeen node joined now => worker_pool_update_from_gossip garbage p node joined now
  | NodeFailed worker_id => r ← worker_pool_mark_failed p worker_id; Ok (default p r)
  | TasksChanged worker_id task_delta now =>
      r ← worker_pool_update_task_count p worker_id task_delta now; Ok (default p r)
  end.

Fixpoint pool_run (garbage : list worker_info) (p : worker_pool) (evs : list pool_event) : result worker_pool :=
  match evs with
  | [] => Ok p
  | ev :: evs => p ← pool_handle garbage p ev; pool_run garbage p evs
  end.

Definition ledger_tasks (task_delta : Z) (tasks : Z * Z) : Z * Z :=
  let '(count, completed) := tasks in
  if 0 <? task_delta then (u32 (count + task_delta), completed)
  else if - task_delta <=? count then (count + task_delta, u32 (completed + 1))
  else (count, completed).

Definition ledger_step (m : ledger) (ev : pool_event) : ledger :=
  match ev with
  | NodeSeen node _ _ =>
      if gi_role node =? GOSSIP_ROLE_WORKER
      then <[gi_node_id node := (gi_status node, match m !! gi_node_id node with Some e => e.2 | None => (0, 0) end)]> m
      else m
  | NodeFailed worker_id => alter (λ e, (GOSSIP_NODE_FAILED, e.2)) worker_id m
  | TasksChanged worker_id task_delta _ => alter (λ e, (e.1, ledger_tasks task_delta e.2)) worker_id m
  end.

Definition pool_event_ok (ids : list (list Z)) (ev : pool_event) : Prop :=
  match ev with
  | NodeSeen node _ _ => cstr_ok (gi_node_id node) ∧ (length (gi_node_id node) ≤ 63)%nat ∧ gi_node_id node ∈ ids
  | NodeFailed worker_id => cstr_ok worker_id
  | TasksChanged worker_id task_delta _ => cstr_ok worker_id ∧ - 2 ^ 31 < task_delta < 2 ^ 31
  end.

Definition worker_name (w : worker_info) : list Z := c_string (wi_worker_id w).
Definition worker_entry (w : worker_info) : Z * (Z * Z) :=
  (wi_status w, (wi_current_task_count w, wi_total_tasks_completed w)).

Record pool_keeps (ids : list (list Z)) (p : worker_pool) (m : ledger) : Prop := {
  pk_holds : holds worker_name worker_entry (wp_workers p) m;
  pk_ok : Forall worker_ok (wp_workers p);
  pk_ids : worker_name <$> wp_workers p ⊆ ids;
  pk_spare : wp_spare p = replicate (16 - length (wp_workers p)) worker_info_zero
}.

Lemma find_worker_spec ids p m id :
  pool_keeps ids p m → cstr_ok id → find_worker p id = Ok (position worker_name (wp_workers p) id).
Proof.
  intros Hk Hid. destruct (c_string_terminated _ Hid) as [Ht Hc]. unfold find_worker. rewrite find_by_spec; [by rewrite Hc| |done].
  eapply list.Forall_impl; [apply (pk_ok _ _ _ Hk)|]. intros w Hw. apply (wo_id _ Hw).
Qed.

(** Replacing a worker by one of the same name. *)
Lemma pool_keeps_replace ids p m i w w' :
  pool_keeps ids p m → wp_workers p !! i = Some w → wi_worker_id w' = wi_worker_id w → worker_ok w' →
  pool_keeps ids (wp_set_workers (<[i := w']> (wp_workers p)) p) (<[worker_name w := worker_entry w']> m).
Proof.
  intros [Hh Hok Hids Hsp] Hi Hid Hw'.
  assert (Hname : worker_name w' = worker_name w) by (unfold worker_name; by rewrite Hid).
  split; cbn [wp_workers wp_spare wp_set_workers].
  - by apply (holds_replace worker_name worker_entry).
  - by apply Forall_insert.
  - rewrite list_fmap_insert, list_insert_id; [done|]. by rewrite list_lookup_fmap, Hi, Hname.
  - by rewrite length_insert.
Qed.

Lemma refresh_ok w :
  terminated (wi_worker_id w) → wi_max_concurrent_tasks w = 10 → is_u32 (wi_current_task_count w) →
  worker_ok (refresh_utilization w) ∧ wi_worker_id (refresh_utilization w) = wi_worker_id w ∧
  worker_entry (refresh_utilization w) = worker_entry w.
Proof. intros Hid Hm Hc. unfold refresh_utilization. rewrite Hm. split; [by split|done]. Qed.

(** The worker the goal refreshes is as it was, with its utilization. *)
Ltac refreshed :=
  match goal with
  | |- context [refresh_utilization ?w] =>
      let H := fresh in destruct (refresh_ok w) as (? & ? & H); [| | |split_and!; [done|done|rewrite H; reflexivity]]
  end.

Lemma update_worker_ok node now w :
  worker_ok w →
  worker_ok (update_worker node now w) ∧ wi_worker_id (update_worker node now w) = wi_worker_id w ∧
  worker_entry (update_worker node now w) = (gi_status node, (worker_entry w).2).
Proof. intros [Hid Hm Hc Hu]. unfold update_worker. by refreshed. Qed.

Lemma strncpy_into_zeros id :
  cstr_ok id → (length id ≤ 63)%nat →
  let bytes := strncpy_into 63 (replicate 64 0) (id ++ [0]) in terminated bytes ∧ c_string bytes = id.
Proof.
  intros Hid Hl. destruct (c_string_terminated _ Hid) as [_ Hc]. unfold strncpy_into. rewrite Hc. cbv zeta.
  change (drop 63 (replicate 64 0)) with [0]. split; [apply elem_of_app; right; by left|].
  rewrite c_string_app_zero, take_app, take_ge by lia.
  assert (Hself : c_string id = id) by (rewrite <- Hc at 2; by rewrite c_string_app_zero).
  destruct (63 - length id)%nat as [|k] eqn:Hk; [by rewrite take_0, app_nil_r|].
  change (replicate 63 0) with (0 :: replicate 62 0). cbn [take]. by rewrite c_string_app_zero.
Qed.

Lemma init_worker_ok node now joined :
  cstr_ok (gi_node_id node) → (length (gi_node_id node) ≤ 63)%nat →
  let w := update_worker node now (init_worker worker_info_zero node joined) in
  worker_ok w ∧ worker_name w = gi_node_id node ∧ worker_entry w = (gi_status node, (0, 0)).
Proof.
  intros Hid Hl. destruct (strncpy_into_zeros _ Hid Hl) as [Ht Hc]. cbv zeta.
  unfold update_worker.
  match goal with |- context [refresh_utilization ?w] => destruct (refresh_ok w) as (Hok & Hi & He) end; [done|done|done|].
  split; [done|]. split; [|exact He]. unfold worker_name. by rewrite Hi.
Qed.

Lemma count_tasks_ok task_delta now w :
  worker_ok w → - 2 ^ 31 < task_delta < 2 ^ 31 →
  ∃ w', count_tasks task_delta now w = Ok w' ∧ worker_ok w' ∧ wi_worker_id w' = wi_worker_id w ∧
    worker_entry w' = ((worker_entry w).1, ledger_tasks task_delta (worker_entry w).2).
Proof.
  intros Hw Hd. pose proof Hw as [Hid Hm Hc Hu]. unfold count_tasks. cbn [worker_entry fst snd]. unfold ledger_tasks.
  rewrite (Z.gtb_ltb task_delta 0). destruct (Z.ltb_spec 0 task_delta).
  { eexists. split; [done|]. refreshed; [done..|by cbn; auto with distric]. }
  rewrite (proj2 (Z.eqb_neq _ _)) by lia. rewrite u32_id by ulia.
  destruct (Z.leb_spec (- task_delta) (wi_current_task_count w)).
  - rewrite u32_id by ulia. eexists. split; [done|]. refreshed; [done..|by cbn; ulia].
  - eexists. split; [done|]. by refreshed.
Qed.

Lemma alter_lookup_insert (f : Z * (Z * Z) → Z * (Z * Z)) (m : ledger) k v :
  m !! k = Some v → alter f k m = <[k := f v]> m.
Proof.
  intros Hk. apply map_eq. intros j. destruct (decide (j = k)) as [->|Hne].
  - by rewrite lookup_alter_eq, lookup_insert_eq, Hk.
  - by rewrite lookup_alter_ne, lookup_insert_ne.
Qed.

Lemma alter_absent (f : Z * (Z * Z) → Z * (Z * Z)) (m : ledger) k : m !! k = None → alter f k m = m.
Proof.
  intros Hk. apply map_eq. intros j. destruct (decide (j = k)) as [->|Hne].
  - by rewrite lookup_alter_eq, Hk.
  - by rewrite lookup_alter_ne.
Qed.

(** A worker joins while there are spare slots. *)
Lemma pool_keeps_join ids p m node joined now :
  pool_keeps ids p m → (length ids ≤ 16)%nat →
  cstr_ok (gi_node_id node) → (length (gi_node_id node) ≤ 63)%nat → gi_node_id node ∈ ids →
  position worker_name (wp_workers p) (gi_node_id node) = None →
  ∃ spare, take_slot [] p = Some (worker_info_zero, spare) ∧ (∀ garbage, take_slot garbage p = take_slot [] p) ∧
    pool_keeps ids
      (WorkerPool (wp_workers p ++ [update_worker node now (init_worker worker_info_zero node joined)]) spare
         (wp_strategy p) (wp_round_robin_index p))
      (<[gi_node_id node := (gi_status node, (0, 0))]> m).
Proof.
  intros [Hh Hok Hids Hsp] Hlen Hid Hl Hin Hpos.
  destruct (init_worker_ok node now joined Hid Hl) as (Hwok & Hname & Hentry).
  set (w := update_worker node now (init_worker worker_info_zero node joined)) in *.
  assert (Hroom : (length (wp_workers p) < 16)%nat).
  { assert (Hsub : gi_node_id node :: (worker_name <$> wp_workers p) ⊆+ ids).
    { apply NoDup_submseteq.
      - apply list.NoDup_cons. split; [|apply Hh]. intros (x & Hx & Hxin)%list_elem_of_fmap.
        by apply (position_None worker_name _ _ Hpos x).
      - intros k Hk. apply elem_of_cons in Hk as [->|Hk]; [done|by apply Hids]. }
    apply submseteq_length in Hsub. simpl in Hsub. rewrite length_fmap in Hsub. lia. }
  destruct (16 - length (wp_workers p))%nat as [|room] eqn:Hr; [lia|]. simpl in Hsp.
  exists (replicate room worker_info_zero). unfold take_slot. rewrite Hsp. split; [done|]. split; [done|].
  split; cbn [wp_workers wp_spare].
  - rewrite <- Hname, <- Hentry. apply (holds_snoc worker_name worker_entry); [done|]. by rewrite Hname.
  - apply Forall_app. split; [done|]. by apply Forall_singleton.
  - rewrite fmap_app. intros k [Hk|Hk]%elem_of_app; [by apply Hids|]. simpl in Hk.
    apply list_elem_of_singleton in Hk as ->. by rewrite Hname.
  - rewrite length_app. simpl. f_equal. lia.
Qed.

Lemma pool_handle_keeps garbage ids p m ev :
  pool_keeps ids p m → (length ids ≤ 16)%nat → pool_event_ok ids ev →
  ∃ p', pool_handle garbage p ev = Ok p' ∧ pool_keeps ids p' (ledger_step m ev).
Proof.
  intros Hk Hlen Hev. destruct ev as [node joined now|id|id d now]; cbn [pool_handle ledger_step pool_event_ok] in *.
  - destruct Hev as (Hid & Hl & Hin). unfold worker_pool_update_from_gossip.
    destruct (gi_role node =? GOSSIP_ROLE_WORKER); cbn [negb]; [|by exists p].
    rewrite (find_worker_spec _ _ _ _ Hk Hid). cbn [mbind result_bind].
    pose proof (holds_lookup _ _ _ _ (gi_node_id node) (pk_holds _ _ _ Hk)) as Hm.
    destruct (position worker_name (wp_workers p) (gi_node_id node)) as [i|] eqn:Hpos.
    + destruct Hm as (w & Hw & ->). eexists. split; [done|]. rewrite (list_alter_insert _ _ _ _ Hw).
      destruct (update_worker_ok node now w (Forall_lookup_1 _ _ _ _ (pk_ok _ _ _ Hk) Hw)) as (Hwok & Hwid & <-).
      destruct (position_Some _ _ _ _ Hpos) as (x & Hx & <-). simplify_eq.
      by apply pool_keeps_replace.
    + rewrite Hm. destruct (pool_keeps_join _ _ _ _ joined now Hk Hlen Hid Hl Hin Hpos) as (spare & Hs & Hg & Hk').
      rewrite Hg, Hs. eexists. by split.
  - unfold worker_pool_mark_failed. rewrite (find_worker_spec _ _ _ _ Hk Hev). cbn [mbind result_bind].
    pose proof (holds_lookup _ _ _ _ id (pk_holds _ _ _ Hk)) as Hm.
    destruct (position worker_name (wp_workers p) id) as [i|] eqn:Hpos; eexists; (split; [done|]); cbn [option_map].
    + destruct Hm as (w & Hw & Hm). rewrite (list_alter_insert _ _ _ _ Hw), (alter_lookup_insert _ _ _ _ Hm).
      destruct (position_Some _ _ _ _ Hpos) as (x & Hx & <-). simplify_eq.
      apply (pool_keeps_replace _ _ _ _ _ (wi_set_status GOSSIP_NODE_FAILED w)); try done.
      by destruct (Forall_lookup_1 _ _ _ _ (pk_ok _ _ _ Hk) Hw).
    + by rewrite alter_absent.
  - destruct Hev as [Hid Hd]. unfold worker_pool_update_task_count. rewrite (find_worker_spec _ _ _ _ Hk Hid). cbn [mbind result_bind].
    pose proof (holds_lookup _ _ _ _ id (pk_holds _ _ _ Hk)) as Hm.
    destruct (position worker_name (wp_workers p) id) as [i|] eqn:Hpos.
    + destruct Hm as (w & Hw & Hm). rewrite Hw, (alter_lookup_insert _ _ _ _ Hm).
      destruct (count_tasks_ok d now w (Forall_lookup_1 _ _ _ _ (pk_ok _ _ _ Hk) Hw) Hd) as (w' & -> & Hok' & Hid' & <-).
      eexists. split; [done|]. destruct (position_Some _ _ _ _ Hpos) as (x & Hx & <-). simplify_eq.
      by apply pool_keeps_replace.
    + eexists. split; [done|]. by rewrite alter_absent.
Qed.

Lemma pool_run_keeps garbage ids evs : ∀ p m,
  pool_keeps ids p m → (length ids ≤ 16)%nat → Forall (pool_event_ok ids) evs →
  ∃ p', pool_run garbage p evs = Ok p' ∧ pool_keeps ids p' (foldl ledger_step m evs).
Proof.
  induction evs as [|ev evs IH]; intros p m Hk Hl Hev; [by exists p|].
  apply Forall_cons_iff in Hev as [Hev Hevs].
  destruct (pool_handle_keeps garbage _ _ _ _ Hk Hl Hev) as (p1 & Hp1 & Hk1).
  destruct (IH _ _ Hk1 Hl Hevs) as (p2 & Hp2 & Hk2). exists p2. simpl. by rewrite Hp1.
Qed.

Lemma create_keeps ids : pool_keeps ids worker_pool_create ∅.
Proof. split; simpl; [apply holds_nil|constructor|intros ? ?%elem_of_nil; done|done]. Qed.

(** C23: with up to sixteen worker identifiers, the pool is a ledger: whatever gossip
    reports, failures and task changes happen, in any order, no operation faults and the
    pool answers for every identifier with the status last reported and with the tasks
    and the completions that the changes add up to; a return of a failed worker keeps
    its tasks. *)
Theorem pool_refines_ledger garbage ids evs :
  (length ids ≤ 16)%nat → Forall (pool_event_ok ids) evs →
  ∃ p, pool_run garbage worker_pool_create evs = Ok p ∧ Forall worker_ok (wp_workers p) ∧
    ∀ id, cstr_ok id →
      ∃ r, worker_pool_get_worker_info p id = Ok r ∧
        option_map worker_entry r = foldl ledger_step (∅ : ledger) evs !! id.
Proof.
  intros Hl Hev. destruct (pool_run_keeps garbage _ _ _ _ (create_keeps ids) Hl Hev) as (p & Hp & Hk).
  exists p. split; [done|]. split; [apply (pk_ok _ _ _ Hk)|]. intros id Hid. unfold worker_pool_get_worker_info.
  rewrite (find_worker_spec _ _ _ _ Hk Hid). cbn [mbind result_bind]. eexists. split; [done|].
  pose proof (holds_lookup _ _ _ _ id (pk_holds _ _ _ Hk)) as Hm.
  destruct (position worker_name (wp_workers p) id) as [i|]; [|by rewrite Hm].
  destruct Hm as (w & -> & ->). done.
Qed.

(** ** Scheduling *)

(** The client of the pool: it assigns one task to the worker a strategy selects, and
    reports one task as completed. *)
Inductive schedule_event :=
  | Assign (random strategy now : Z)
  | Complete (worker_id : list Z) (now : Z)
  | Observe (ev : pool_event).

Definition schedule_step (garbage : list worker_info) (p : worker_pool) (ev : schedule_event) : result worker_pool :=
  match ev with
  | Assign random strategy now =>
      let '(selected, p) := worker_pool_select_worker random strategy p in
      match selected with
      | Some i =>
          match wp_workers p !! i with
          | Some w =>
              r ← worker_pool_update_task_count p (c_string (wi_worker_id w)) 1 now; Ok (default p r)
          | None => Fault
          end
      | None => Ok p
      end
  | Complete worker_id now => r ← worker_pool_update_task_count p worker_id (-1) now; Ok (default p r)
  | Observe ev => pool_handle garbage p ev
  end.

Fixpoint schedule_run (garbage : list worker_info) (p : worker_pool) (evs : list schedule_event) : result worker_pool :=
  match evs with
  | [] => Ok p
  | ev :: evs => p ← schedule_step garbage p ev; schedule_run garbage p evs
  end.

Lemma round_robin_available l fuel : ∀ index i,
  (round_robin_loop fuel l index).1 = Some i → ∃ w, l !! i = Some w ∧ available w = true.
Proof.
  induction fuel as [|fuel IH]; intros index i Hs; [done|]. cbn [round_robin_loop] in Hs.
  destruct (l !! Z.to_nat (index mod Z.of_nat (length l))) as [w|] eqn:Hw; [|done].
  destruct (available w) eqn:Ha; [|by eapply IH]. simpl in Hs. simplify_eq. by exists w.
Qed.

Lemma select_available random strategy p :
  Forall worker_ok (wp_workers p) →
  let '(selected, p') := worker_pool_select_worker random strategy p in
  wp_workers p' = wp_workers p ∧ wp_spare p' = wp_spare p ∧
  ∀ i, selected = Some i → ∃ w, wp_workers p !! i = Some w ∧ available w = true.
Proof.
  intros Hp. pose proof (select_least_loaded_spec p Hp) as Hll. unfold worker_pool_select_worker.
  destruct (strategy =? WORKER_SELECT_ROUND_ROBIN).
  { unfold select_round_robin. pose proof (round_robin_available (wp_workers p) (worker_count p) (wp_round_robin_index p)) as Hrr.
    destruct (round_robin_loop _ _ _) as [selected index]. by split_and!. }
  destruct (strategy =? WORKER_SELECT_LEAST_LOADED).
  { split_and!; [done|done|]. by intros i Hi; rewrite Hi in Hll. }
  destruct (strategy =? WORKER_SELECT_LEAST_UTILIZED).
  { split_and!; [done|done|]. unfold select_least_utilized. intros i Hi.
    rewrite (least_utilized_loop_eq _ _ _ UINT32_MAX) in Hi by (done || by left).
    change (select_least_loaded p = Some i) in Hi. by rewrite Hi in Hll. }
  destruct (strategy =? WORKER_SELECT_RANDOM); [|done].
  split_and!; [done|done|]. unfold select_random. intros i Hi.
  destruct (Z.eqb_spec (Z.of_nat (length (List.filter available (wp_workers p)))) 0); [done|].
  rewrite nth_available_spec in Hi by (apply Z.mod_pos_bound; lia).
  apply list_elem_of_lookup_2, available_positions_elem in Hi as (j & w & -> & Hw). by exists w.
Qed.

Definition schedule_event_ok (ids : list (list Z)) (ev : schedule_event) : Prop :=
  match ev with
  | Assign _ _ _ => True
  | Complete worker_id _ => cstr_ok worker_id
  | Observe ev => pool_event_ok ids ev ∧ match ev with TasksChanged _ task_delta _ => task_delta ≤ 0 | _ => True end
  end.

(** No worker has more than ten tasks. *)
Definition bounded (m : ledger) : Prop := ∀ id e, m !! id = Some e → 0 ≤ e.2.1 ≤ 10.

Lemma bounded_alter m f id :
  bounded m → (∀ e, m !! id = Some e → 0 ≤ e.2.1 ≤ 10 → 0 ≤ (f e).2.1 ≤ 10) → bounded (alter f id m).
Proof.
  intros Hm Hf k e Hk. destruct (decide (k = id)) as [->|Hne].
  - rewrite lookup_alter_eq in Hk. apply fmap_Some in Hk as (e' & He' & ->). apply Hf; [done|]. by eapply Hm.
  - rewrite lookup_alter_ne in Hk by done. by eapply Hm.
Qed.

Lemma bounded_step ids m ev :
  bounded m → pool_event_ok ids ev → match ev with TasksChanged _ task_delta _ => task_delta ≤ 0 | _ => True end →
  bounded (ledger_step m ev).
Proof.
  intros Hm Hev Hd. destruct ev as [node joined now|id|id d now]; simpl.
  - case_match; [|done]. intros k e [[<- <-]|[Hne Hk]]%lookup_insert_Some; [|by eapply Hm].
    destruct (m !! gi_node_id node) as [e|] eqn:He; [by eapply (Hm _ _ He)|simpl; lia].
  - apply bounded_alter; [done|]. by intros.
  - apply bounded_alter; [done|]. intros [s [count completed]] _ Hc. simpl in *.
    rewrite (proj2 (Z.ltb_ge _ _)) by lia. destruct (Z.leb_spec (- d) count); simpl; lia.
Qed.

Lemma schedule_step_keeps garbage ids p m ev :
  pool_keeps ids p m → bounded m → (length ids ≤ 16)%nat → Forall cstr_ok ids → schedule_event_ok ids ev →
  ∃ p' m', schedule_step garbage p ev = Ok p' ∧ pool_keeps ids p' m' ∧ bounded m'.
Proof.
  intros Hk Hb Hl Hids Hev. destruct ev as [random strategy now|id now|ev]; cbn [schedule_step schedule_event_ok] in *.
  - pose proof (select_available random strategy p (pk_ok _ _ _ Hk)) as Hs.
    destruct (worker_pool_select_worker random strategy p) as [[i|] p1]; destruct Hs as (Hw1 & Hs1 & Hi).
    all: assert (Hk1 : pool_keeps ids p1 m) by (destruct Hk; split; by rewrite ?Hw1, ?Hs1).
    + destruct (Hi i eq_refl) as (w & Hw & Ha). rewrite Hw1, Hw.
      assert (Hname : cstr_ok (worker_name w)).
      { apply (proj1 (list.Forall_forall _ _) Hids), (pk_ids _ _ _ Hk), list_elem_of_fmap_2. by eapply list_elem_of_lookup_2. }
      destruct (pool_handle_keeps garbage _ _ _ (TasksChanged (worker_name w) 1 now) Hk1 Hl) as (p2 & Hp2 & Hk2).
      { split; [done|lia]. }
      exists p2, (ledger_step m (TasksChanged (worker_name w) 1 now)). split; [exact Hp2|]. split; [exact Hk2|].
      assert (Hm : m !! worker_name w = Some (worker_entry w)).
      { apply (pk_holds _ _ _ Hk). exists w. split; [by eapply list_elem_of_lookup_2|done]. }
      apply bounded_alter; [done|]. intros e He _. rewrite Hm in He. injection He as <-. simpl.
      pose proof (available_count _ (Forall_lookup_1 _ _ _ _ (pk_ok _ _ _ Hk) Hw) Ha) as Hc. unfold count_of in Hc.
      rewrite u32_id by ulia. lia.
    + by exists p1, m.
  - destruct (pool_handle_keeps garbage _ _ _ (TasksChanged id (-1) now) Hk Hl) as (p2 & Hp2 & Hk2).
    { split; [done|lia]. }
    exists p2, (ledger_step m (TasksChanged id (-1) now)). split; [exact Hp2|]. split; [exact Hk2|].
    apply (bounded_step ids); [done|split; [done|lia]|lia].
  - destruct Hev as [Hev Hd]. destruct (pool_handle_keeps garbage _ _ _ _ Hk Hl Hev) as (p2 & Hp2 & Hk2).
    exists p2, (ledger_step m ev). split; [done|]. split; [done|]. by apply (bounded_step ids).
Qed.

Lemma schedule_run_keeps garbage ids evs : ∀ p m,
  pool_keeps ids p m → bounded m → (length ids ≤ 16)%nat → Forall cstr_ok ids → Forall (schedule_event_ok ids) evs →
  ∃ p' m', schedule_run garbage p evs = Ok p' ∧ pool_keeps ids p' m' ∧ bounded m'.
Proof.
  induction evs as [|ev evs IH]; intros p m Hk Hb Hl Hids Hev; [by exists p, m|].
  apply Forall_cons_iff in Hev as [Hev Hevs].
  destruct (schedule_step_keeps garbage _ _ _ _ Hk Hb Hl Hids Hev) as (p1 & m1 & Hp1 & Hk1 & Hb1).
  destruct (IH _ _ Hk1 Hb1 Hl Hids Hevs) as (p2 & m2 & Hp2 & Hk2 & Hb2). exists p2, m2. simpl. by rewrite Hp1.
Qed.

(** A client that assigns each task to a worker the pool selects, by any strategy,
    never gives a worker more than the ten tasks it can run, whatever gossip, failures
    and completions come in between; no step faults. *)
Theorem never_overcommitted garbage ids evs :
  (length ids ≤ 16)%nat → Forall cstr_ok ids → Forall (schedule_event_ok ids) evs →
  ∃ p, schedule_run garbage worker_pool_create evs = Ok p ∧
    Forall (λ w, 0 ≤ wi_current_task_count w ≤ wi_max_concurrent_tasks w) (wp_workers p).
Proof.
  intros Hl Hids Hev.
  destruct (schedule_run_keeps garbage ids evs _ _ (create_keeps ids)) as (p & m & Hp & Hk & Hb); [|done..|].
  { intros id e He. by rewrite lookup_empty in He. }
  exists p. split; [done|]. apply list.Forall_forall. intros w Hw.
  pose proof (proj1 (list.Forall_forall _ _) (pk_ok _ _ _ Hk) w Hw) as Hok. rewrite (wo_max _ Hok).
  apply (Hb (worker_name w) (worker_entry w)). apply (pk_holds _ _ _ Hk). by exists w.
Qed.

(** ** The seventeenth worker *)

Definition example_worker (i : nat) : gossip_node_info :=
  NodeInfo [97 + Z.of_nat i] (str "10.0.0.1") 7000 GOSSIP_NODE_ALIVE GOSSIP_ROLE_WORKER 0 0 0.
Definition example_joins (n : nat) : list pool_event := (λ i, NodeSeen (example_worker i) 0 0) <$> seq 0 n.

(** When the array has grown, a worker that joins has the task count [realloc] left
    in its slot: a worker that never had a task can be full from the beginning, and no
    strategy selects it. *)
Theorem joined_with_garbage_tasks count :
  10 ≤ count < 2 ^ 32 →
  let slot := wi_set_tasks count 0 0 worker_info_zero in
  ∃ p w, pool_run (replicate 16 slot) worker_pool_create (example_joins 17) = Ok p ∧
    wp_workers p !! 16%nat = Some w ∧ wi_status w = GOSSIP_NODE_ALIVE ∧
    wi_current_task_count w = count ∧ available w = false.
Proof.
  intros Hc slot. eexists _, _. split; [unfold slot; cbv -[double_div double_of Z.lt Z.le]; reflexivity|].
  split; [reflexivity|]. split; [reflexivity|]. split; [reflexivity|]. cbn. apply Z.ltb_ge. lia.
Qed.

(** ** Witnesses *)

Definition example_ids : list (list Z) := (λ i, [97 + Z.of_nat i]) <$> seq 0 3.
Definition example_pool_events : list pool_event :=
  example_joins 3 ++ [TasksChanged [97] 3 5; TasksChanged [98] 1 5; TasksChanged [97] (-1) 6; NodeFailed [99]].

Lemma example_events_ok : Forall (pool_event_ok example_ids) example_pool_events.
Proof.
  unfold example_pool_events, example_joins, example_ids. simpl. rewrite !Forall_cons_iff. unfold pool_event_ok.
  split_and!; first [apply Forall_nil_2 | vm_compute; set_solver | by vm_compute | by repeat constructor | simpl; lia].
Qed.

(** Three workers, with two, one and no task, the last one failed. *)
Definition example_pool : worker_pool :=
  match pool_run [] worker_pool_create example_pool_events with Ok p => p | _ => worker_pool_create end.

Lemma example_pool_ok : Forall worker_ok (wp_workers example_pool).
Proof.
  destruct (pool_run_keeps [] example_ids example_pool_events _ _ (create_keeps _)) as (p & Hp & Hk);
    [simpl; lia|apply example_events_ok|].
  unfold example_pool. rewrite Hp. apply (pk_ok _ _ _ Hk).
Qed.

Lemma pool_refines_ledger_witness :
  ∃ p, pool_run [] worker_pool_create example_pool_events = Ok p ∧
    ∃ w, worker_pool_get_worker_info p [97] = Ok (Some w) ∧ worker_entry w = (GOSSIP_NODE_ALIVE, (2, 1)).
Proof.
  destruct (pool_refines_ledger [] example_ids example_pool_events) as (p & Hp & _ & Hi);
    [simpl; lia|apply example_events_ok|].
  exists p. split; [exact Hp|]. destruct (Hi [97]) as (r & Hr & He); [by repeat constructor|].
  change (foldl _ _ _ !! _) with (Some (GOSSIP_NODE_ALIVE, (2, 1))) in He.
  destruct r as [w|]; [|done]. exists w. split; [exact Hr|]. cbn [option_map] in He. congruence.
Defined.

Lemma least_utilized_is_least_loaded_witness : select_least_utilized example_pool = select_least_loaded example_pool.
Proof. apply least_utilized_is_least_loaded, example_pool_ok. Defined.

Lemma worker_selection_sound_witness :
  ∃ w, wp_workers example_pool !! 1%nat = Some w ∧ available w = true.
Proof.
  pose proof (worker_selection_sound 0 WORKER_SELECT_LEAST_LOADED example_pool example_pool_ok) as Hs.
  destruct (worker_pool_select_worker _ _ _) as [selected p'] eqn:He. vm_compute in He. injection He as <- _.
  apply Hs; vm_compute; intuition congruence.
Defined.

Lemma round_robin_fair_witness : Some 1%nat ∈ round_robin_selections 3 example_pool.
Proof.
  destruct (wp_workers example_pool !! 1%nat) as [w|] eqn:Hw; [|by vm_compute in Hw].
  apply (round_robin_fair example_pool 1 w Hw); [|vm_compute; congruence|vm_compute; reflexivity].
  vm_compute in Hw. injection Hw as <-. reflexivity.
Defined.

Lemma never_overcommitted_witness :
  ∃ p, schedule_run [] worker_pool_create
         ((Observe <$> example_joins 3) ++ replicate 40 (Assign 0 WORKER_SELECT_LEAST_UTILIZED 1)) = Ok p ∧
    Forall (λ w, 0 ≤ wi_current_task_count w ≤ wi_max_concurrent_tasks w) (wp_workers p).
Proof.
  apply (never_overcommitted [] example_ids); [simpl; lia|by repeat constructor|].
  apply Forall_app. split; [|by apply Forall_replicate]. simpl. rewrite !Forall_cons_iff. unfold schedule_event_ok, pool_event_ok.
  split_and!; first [apply Forall_nil_2 | vm_compute; set_solver | by vm_compute | by repeat constructor | simpl; lia].
Defined.

Lemma joined_with_garbage_tasks_witness :
  ∃ p w, pool_run (replicate 16 (wi_set_tasks 12 0 0 worker_info_zero)) worker_pool_create (example_joins 17) = Ok p ∧
    wp_workers p !! 16%nat = Some w ∧ available w = false.
Proof.
  destruct (joined_with_garbage_tasks 12) as (p & w & Hp & Hw & _ & _ & Ha); [lia|]. exists p, w. split_and!; done.
Defined.
