(* ===== verification/ClusterCoordinator.v ===== *)
(** * Cluster: the coordinator

    [src/libs/distric_cluster/src/cluster_coordinator.c]: the object an application
    creates, starts, asks and stops.  It owns a worker pool; [task_data], the callbacks
    and their [user_data] are values the code stores and passes on.  Pointers that the
    code checks for NULL are options. *)

From Stdlib Require Import ZArith Lia String.
From stdpp Require Import base list numbers option.
From S2P Require Import Prelude CString WorkerPool.

Local Open Scope Z_scope.

(** ** Data *)

Inductive cluster_state :=
  | CLUSTER_STATE_UNKNOWN
  | CLUSTER_STATE_STOPPED
  | CLUSTER_STATE_STARTING
  | CLUSTER_STATE_RUNNING
  | CLUSTER_STATE_STOPPING
  | CLUSTER_STATE_ERROR
  | CLUSTER_STATE_DEGRADED
  | CLUSTER_STATE_ACTIVE
  | CLUSTER_STATE_SHUTDOWN.

#[export] Instance cluster_state_eq_dec : EqDecision cluster_state.
Proof. solve_decision. Defined.

Inductive cluster_node_type := CLUSTER_NODE_UNKNOWN | CLUSTER_NODE_COORDINATOR | CLUSTER_NODE_WORKER.

(** A callback is a function pointer, or NULL. *)
Notation callback := (option Z).

Record cluster_coordinator := Coordinator {
  cd_worker_pool : worker_pool;
  cd_running : bool;
  cd_state : cluster_state;
  cd_is_leader : bool;
  cd_on_became_leader : callback;
  cd_on_lost_leadership : callback;
  cd_on_worker_joined : callback;
  cd_on_worker_failed : callback;
  cd_callback_user_data : Z
}.

(** ** Operations *)

Definition cluster_coordinator_create : cluster_coordinator :=
  Coordinator worker_pool_create false CLUSTER_STATE_STOPPED false None None None None 0.

Definition cd_set_running (running : bool) (state : cluster_state) (c : cluster_coordinator) : cluster_coordinator :=
  Coordinator (cd_worker_pool c) running state (cd_is_leader c) (cd_on_became_leader c) (cd_on_lost_leadership c)
    (cd_on_worker_joined c) (cd_on_worker_failed c) (cd_callback_user_data c).

Definition cluster_coordinator_start (c : cluster_coordinator) : distric_err * cluster_coordinator :=
  if cd_running c then (DISTRIC_ERR_INVALID_STATE, c)
  else (DISTRIC_OK, cd_set_running true CLUSTER_STATE_RUNNING c).

Definition cluster_coordinator_stop (c : cluster_coordinator) : distric_err * cluster_coordinator :=
  if negb (cd_running c) then (DISTRIC_ERR_INVALID_STATE, c)
  else (DISTRIC_OK, cd_set_running false CLUSTER_STATE_STOPPED c).

Definition cluster_coordinator_get_state (c : option cluster_coordinator) : cluster_state :=
  match c with None => CLUSTER_STATE_UNKNOWN | Some c => cd_state c end.
Definition cluster_coordinator_is_leader (c : option cluster_coordinator) : bool :=
  match c with None => false | Some c => cd_is_leader c end.

Definition cluster_coordinator_set_leadership_callbacks (c : cluster_coordinator)
    (on_became_leader on_lost_leadership : callback) (user_data : Z) : cluster_coordinator :=
  Coordinator (cd_worker_pool c) (cd_running c) (cd_state c) (cd_is_leader c) on_became_leader on_lost_leadership
    (cd_on_worker_joined c) (cd_on_worker_failed c) user_data.

Definition cluster_coordinator_set_worker_callbacks (c : cluster_coordinator)
    (on_worker_joined on_worker_failed : callback) (user_data : Z) : cluster_coordinator :=
  Coordinator (cd_worker_pool c) (cd_running c) (cd_state c) (cd_is_leader c) (cd_on_became_leader c)
    (cd_on_lost_leadership c) on_worker_joined on_worker_failed user_data.

(** The identifier handed out, and the counter of the process after it. *)
Definition cluster_coordinator_submit_task (task_data : option (list Z)) (next_task_id : Z) : result Z * Z :=
  match task_data with
  | None => (Err DISTRIC_ERR_INVALID_ARG, next_task_id)
  | Some _ => (Ok next_task_id, u64 (next_task_id + 1))
  end.

(** The list handed out: the worker pool is not read. *)
Definition cluster_coordinator_get_workers (c : cluster_coordinator) : list worker_info := [].

Definition cluster_state_to_string (s : cluster_state) : list Z :=
  match s with
  | CLUSTER_STATE_UNKNOWN => str "UNKNOWN"
  | CLUSTER_STATE_STOPPED => str "STOPPED"
  | CLUSTER_STATE_STARTING => str "STARTING"
  | CLUSTER_STATE_RUNNING => str "RUNNING"
  | CLUSTER_STATE_STOPPING => str "STOPPING"
  | CLUSTER_STATE_ERROR => str "ERROR"
  | CLUSTER_STATE_DEGRADED => str "DEGRADED"
  | CLUSTER_STATE_ACTIVE => str "ACTIVE"
  | CLUSTER_STATE_SHUTDOWN => str "SHUTDOWN"
  end.

Definition cluster_node_type_to_string (t : cluster_node_type) : list Z :=
  match t with
  | CLUSTER_NODE_UNKNOWN => str "UNKNOWN"
  | CLUSTER_NODE_COORDINATOR => str "COORDINATOR"
  | CLUSTER_NODE_WORKER => str "WORKER"
  end.

(** ** Sequences of calls *)

Inductive coordinator_call :=
  | CallStart
  | CallStop
  | CallSetLeadership (on_became_leader on_lost_leadership : callback) (user_data : Z)
  | CallSetWorker (on_worker_joined on_worker_failed : callback) (user_data : Z)
  | CallSubmit (task_data : option (list Z)).

(** A coordinator, the counter of the process and the identifiers handed out. *)
Definition coordinator_handle (s : cluster_coordinator * Z * list Z) (call : coordinator_call) :
    cluster_coordinator * Z * list Z :=
  let '(c, next, ids) := s in
  match call with
  | CallStart => ((cluster_coordinator_start c).2, next, ids)
  | CallStop => ((cluster_coordinator_stop c).2, next, ids)
  | CallSetLeadership became lost user_data =>
      (cluster_coordinator_set_leadership_callbacks c became lost user_data, next, ids)
  | CallSetWorker joined failed user_data =>
      (cluster_coordinator_set_worker_callbacks c joined failed user_data, next, ids)
  | CallSubmit task_data =>
      match cluster_coordinator_submit_task task_data next with
      | (Ok id, next) => (c, next, ids ++ [id])
      | (_, next) => (c, next, ids)
      end
  end.

(** ** Behaviour *)

(** The calls that switch the coordinator. *)
Fixpoint switched_on (on : bool) (calls : list coordinator_call) : bool :=
  match calls with
  | [] => on
  | CallStart :: calls => switched_on true calls
  | CallStop :: calls => switched_on false calls
  | _ :: calls => switched_on on calls
  end.

Record coordinator_like (on : bool) (c : cluster_coordinator) : Prop := {
  cl_running : cd_running c = on;
  cl_state : cd_state c = if on then CLUSTER_STATE_RUNNING else CLUSTER_STATE_STOPPED;
  cl_leader : cd_is_leader c = false;
  cl_pool : cd_worker_pool c = worker_pool_create
}.

Lemma coordinator_calls calls : ∀ c next ids on,
  coordinator_like on c → next + Z.of_nat (length calls) < 2 ^ 64 → 0 ≤ next →
  let '(c', next', ids') := foldl coordinator_handle (c, next, ids) calls in
  coordinator_like (switched_on on calls) c' ∧
  ∃ k, (k ≤ length calls)%nat ∧ next' = next + Z.of_nat k ∧ ids' = ids ++ seqZ next (Z.of_nat k).
Proof.
  induction calls as [|call calls IH]; intros c next ids on [Hr Hs Hl Hp] Hb H0; cbn [foldl switched_on length] in *.
  { split; [by split|]. exists 0%nat. cbn [Z.of_nat]. rewrite Z.add_0_r, app_nil_r. split_and!; [lia|done|done]. }
  assert (Hrest : ∀ c1 on1, coordinator_like on1 c1 →
    let '(c', next', ids') := foldl coordinator_handle (c1, next, ids) calls in
    coordinator_like (switched_on on1 calls) c' ∧
    ∃ k, (k ≤ S (length calls))%nat ∧ next' = next + Z.of_nat k ∧ ids' = ids ++ seqZ next (Z.of_nat k)).
  { intros c1 on1 H1. specialize (IH c1 next ids on1 H1 ltac:(lia) H0).
    destruct (foldl _ _ _) as [[c' next'] ids']. destruct IH as [Hc (k & Hk & Hn)]. split; [done|].
    exists k. split; [lia|done]. }
  destruct call as [| |became lost ud|joined failed ud|[data|]]; cbn [coordinator_handle cluster_coordinator_submit_task].
  - unfold cluster_coordinator_start. rewrite Hr. destruct on; cbn [snd]; apply Hrest; by split.
  - unfold cluster_coordinator_stop. rewrite Hr. destruct on; cbn [snd negb]; apply Hrest; by split.
  - apply Hrest. by split.
  - apply Hrest. by split.
  - rewrite u64_id by ulia. specialize (IH c (next + 1) (ids ++ [next]) on).
    destruct (foldl _ _ _) as [[c' next'] ids']. destruct IH as [Hc (k & Hk & -> & ->)]; [by split|lia|lia|].
    split; [done|]. exists (S k). split; [lia|]. split; [lia|]. rewrite <- app_assoc. f_equal.
    rewrite (seqZ_cons next) by lia. simpl. do 2 f_equal; lia.
  - apply Hrest. by split.
Qed.

(** Whatever calls an application makes, the coordinator is in the state RUNNING
    exactly when the last of its start and stop calls was a start, and STOPPED otherwise;
    the task identifiers it hands out are consecutive, so no two are equal; and it never
    leads, never has a worker and lists none: the tasks it accepts are not handed to its
    worker pool. *)
Theorem coordinator_is_a_switch calls next :
  0 ≤ next → next + Z.of_nat (length calls) < 2 ^ 64 →
  let '(c, next', ids) := foldl coordinator_handle (cluster_coordinator_create, next, []) calls in
  cluster_coordinator_get_state (Some c) =
    (if switched_on false calls then CLUSTER_STATE_RUNNING else CLUSTER_STATE_STOPPED) ∧
  NoDup ids ∧ ids = seqZ next (next' - next) ∧
  cluster_coordinator_is_leader (Some c) = false ∧ wp_workers (cd_worker_pool c) = [].
Proof.
  intros H0 Hb. assert (Hc : coordinator_like false cluster_coordinator_create) by done.
  pose proof (coordinator_calls calls _ next [] false Hc Hb H0) as Hs.
  destruct (foldl _ _ _) as [[c next'] ids]. destruct Hs as [[Hr Hst Hl Hp] (k & _ & -> & ->)]. simpl.
  replace (next + Z.of_nat k - next) with (Z.of_nat k) by lia.
  split_and!; [done|apply NoDup_seqZ|done|done|by rewrite Hp].
Qed.

Lemma coordinator_is_a_switch_witness :
  let '(c, next', ids) := foldl coordinator_handle (cluster_coordinator_create, 1, [])
    [CallStart; CallSubmit (Some [1]); CallSubmit None; CallSubmit (Some []); CallStart] in
  cluster_coordinator_get_state (Some c) = CLUSTER_STATE_RUNNING ∧ ids = [1; 2].
Proof.
  pose proof (coordinator_is_a_switch
    [CallStart; CallSubmit (Some [1]); CallSubmit None; CallSubmit (Some []); CallStart] 1 ltac:(lia) ltac:(simpl; lia)) as Hs.
  destruct (foldl _ _ _) as [[c next'] ids] eqn:He. destruct Hs as (Hst & _ & Hids & _).
  split; [exact Hst|]. rewrite Hids. vm_compute in He. by injection He as <- <- <-.
Defined.

(** Both registrations share one [user_data]: the later one replaces it for all the
    callbacks. *)
Lemma user_data_shared became lost joined failed a b :
  let c := cluster_coordinator_set_worker_callbacks
    (cluster_coordinator_set_leadership_callbacks cluster_coordinator_create became lost a) joined failed b in
  cd_on_became_leader c = became ∧ cd_callback_user_data c = b.
Proof. done. Qed.
