(* ===== verification/TcpPool.v ===== *)
(** * Transport: the pool of connections

    [src/libs/distric_transport/src/tcp_pool.c]: the entries, which are nodes of two
    linked structures at once, the singly linked chain of their hash bucket and the
    doubly linked list in order of use.

    The heap maps the identifiers of the allocated entries to their contents: [calloc]
    takes a fresh one, [free] removes it, and reaching one that is not there is a
    [Fault].  [tcp_connect] and [tcp_close] are the ones of [tcp.c]: a connection is a
    name here, and the pool records the names it has closed.  [tcp_pool_acquire]
    releases the lock while it connects, so it is two steps, between which other calls
    can run.  The walks have the number of entries as fuel, and running out of it is a
    [Fault] too: the theorems show that it does not happen.  Allocation does not fail. *)

From Stdlib Require Import ZArith Lia.
From stdpp Require Import base list numbers option gmap functions.
From S2P Require Import Prelude CString TcpConnection.

Local Open Scope Z_scope.

(** ** Data *)

Definition POOL_DEFAULT_CONNECT_TIMEOUT_MS : Z := 5000.
Definition POOL_HASH_BUCKETS : nat := 64.
Definition POOL_HASH_MASK : Z := 63.

Record pool_entry := PoolEntry {
  pe_conn : Z;
  pe_host : list Z;
  pe_port : Z;
  pe_last_used_ms : Z;
  pe_in_use : bool;
  pe_failed : bool;
  pe_bucket_next : option nat;
  pe_lru_prev : option nat;
  pe_lru_next : option nat
}.

Definition pe_set_use (in_use : bool) (now : Z) (e : pool_entry) : pool_entry :=
  PoolEntry (pe_conn e) (pe_host e) (pe_port e) now in_use (pe_failed e) (pe_bucket_next e) (pe_lru_prev e) (pe_lru_next e).
Definition pe_set_failed (e : pool_entry) : pool_entry :=
  PoolEntry (pe_conn e) (pe_host e) (pe_port e) (pe_last_used_ms e) (pe_in_use e) true (pe_bucket_next e)
    (pe_lru_prev e) (pe_lru_next e).
Definition pe_set_bucket_next (n : option nat) (e : pool_entry) : pool_entry :=
  PoolEntry (pe_conn e) (pe_host e) (pe_port e) (pe_last_used_ms e) (pe_in_use e) (pe_failed e) n (pe_lru_prev e) (pe_lru_next e).
Definition pe_set_prev (n : option nat) (e : pool_entry) : pool_entry :=
  PoolEntry (pe_conn e) (pe_host e) (pe_port e) (pe_last_used_ms e) (pe_in_use e) (pe_failed e) (pe_bucket_next e) n (pe_lru_next e).
Definition pe_set_next (n : option nat) (e : pool_entry) : pool_entry :=
  PoolEntry (pe_conn e) (pe_host e) (pe_port e) (pe_last_used_ms e) (pe_in_use e) (pe_failed e) (pe_bucket_next e) (pe_lru_prev e) n.

Record tcp_pool := TcpPool {
  pl_heap : gmap nat pool_entry;
  pl_buckets : list (option nat);
  pl_lru_head : option nat;
  pl_lru_tail : option nat;
  pl_max_connections : Z;
  pl_current_size : Z;
  pl_connect_timeout_ms : Z;
  pl_shutting_down : bool;
  pl_hits : Z;
  pl_misses : Z;
  pl_closed : list Z   (* the connections [tcp_close] was called on *)
}.

Definition pl_set_heap (h : gmap nat pool_entry) (p : tcp_pool) : tcp_pool :=
  TcpPool h (pl_buckets p) (pl_lru_head p) (pl_lru_tail p) (pl_max_connections p) (pl_current_size p)
    (pl_connect_timeout_ms p) (pl_shutting_down p) (pl_hits p) (pl_misses p) (pl_closed p).
Definition pl_set_buckets (b : list (option nat)) (p : tcp_pool) : tcp_pool :=
  TcpPool (pl_heap p) b (pl_lru_head p) (pl_lru_tail p) (pl_max_connections p) (pl_current_size p)
    (pl_connect_timeout_ms p) (pl_shutting_down p) (pl_hits p) (pl_misses p) (pl_closed p).
Definition pl_set_lru (head tail : option nat) (p : tcp_pool) : tcp_pool :=
  TcpPool (pl_heap p) (pl_buckets p) head tail (pl_max_connections p) (pl_current_size p)
    (pl_connect_timeout_ms p) (pl_shutting_down p) (pl_hits p) (pl_misses p) (pl_closed p).
Definition pl_set_size (n : Z) (p : tcp_pool) : tcp_pool :=
  TcpPool (pl_heap p) (pl_buckets p) (pl_lru_head p) (pl_lru_tail p) (pl_max_connections p) n
    (pl_connect_timeout_ms p) (pl_shutting_down p) (pl_hits p) (pl_misses p) (pl_closed p).
Definition pl_set_shutting_down (p : tcp_pool) : tcp_pool :=
  TcpPool (pl_heap p) (pl_buckets p) (pl_lru_head p) (pl_lru_tail p) (pl_max_connections p) (pl_current_size p)
    (pl_connect_timeout_ms p) true (pl_hits p) (pl_misses p) (pl_closed p).
Definition pl_set_stats (hits misses : Z) (p : tcp_pool) : tcp_pool :=
  TcpPool (pl_heap p) (pl_buckets p) (pl_lru_head p) (pl_lru_tail p) (pl_max_connections p) (pl_current_size p)
    (pl_connect_timeout_ms p) (pl_shutting_down p) hits misses (pl_closed p).
Definition pl_close (conn : Z) (p : tcp_pool) : tcp_pool :=
  TcpPool (pl_heap p) (pl_buckets p) (pl_lru_head p) (pl_lru_tail p) (pl_max_connections p) (pl_current_size p)
    (pl_connect_timeout_ms p) (pl_shutting_down p) (pl_hits p) (pl_misses p) (pl_closed p ++ [conn]).

(** Reading and changing an entry that is allocated. *)
Definition load (p : tcp_pool) (e : nat) : result pool_entry :=
  match pl_heap p !! e with Some c => Ok c | None => Fault end.
Definition store (e : nat) (f : pool_entry → pool_entry) (p : tcp_pool) : result tcp_pool :=
  match pl_heap p !! e with Some c => Ok (pl_set_heap (<[e := f c]> (pl_heap p)) p) | None => Fault end.

(** ** Utilities *)

Definition host_hash (host : list Z) (port : Z) : nat :=
  let h := fold_left (λ h c, Z.lxor (u32 (u32 (Z.shiftl h 5) + h)) c) host 5381 in
  let h := Z.lxor h (u32 (port * 2654435761)) in
  Z.to_nat (Z.land h POOL_HASH_MASK).

(** ** The list in order of use *)

Definition lru_prepend (p : tcp_pool) (e : nat) : result tcp_pool :=
  p ← store e (pe_set_prev None) p;
  p ← store e (pe_set_next (pl_lru_head p)) p;
  p ← match pl_lru_head p with Some h => store h (pe_set_prev (Some e)) p | None => Ok p end;
  let p := pl_set_lru (Some e) (pl_lru_tail p) p in
  Ok (match pl_lru_tail p with None => pl_set_lru (pl_lru_head p) (Some e) p | Some _ => p end).

Definition lru_remove (p : tcp_pool) (e : nat) : result tcp_pool :=
  c ← load p e;
  p ← match pe_lru_prev c with
      | Some x => store x (pe_set_next (pe_lru_next c)) p
      | None => Ok (pl_set_lru (pe_lru_next c) (pl_lru_tail p) p)
      end;
  c ← load p e;
  p ← match pe_lru_next c with
      | Some x => store x (pe_set_prev (pe_lru_prev c)) p
      | None => Ok (pl_set_lru (pl_lru_head p) (pe_lru_prev c) p)
      end;
  store e (λ c, pe_set_prev None (pe_set_next None c)) p.

Definition lru_touch (p : tcp_pool) (e : nat) : result tcp_pool :=
  if decide (pl_lru_head p = Some e) then Ok p
  else p ← lru_remove p e; lru_prepend p e.

(** ** The hash table *)

(** What [pp] points to: the head of a bucket, or the link of an entry. *)
Inductive link := LBucket (idx : nat) | LNext (e : nat).

Definition read_link (p : tcp_pool) (pp : link) : result (option nat) :=
  match pp with
  | LBucket idx => match pl_buckets p !! idx with Some h => Ok h | None => Fault end
  | LNext e => c ← load p e; Ok (pe_bucket_next c)
  end.
Definition write_link (pp : link) (n : option nat) (p : tcp_pool) : result tcp_pool :=
  match pp with
  | LBucket idx => Ok (pl_set_buckets (<[idx := n]> (pl_buckets p)) p)
  | LNext e => store e (pe_set_bucket_next n) p
  end.

Fixpoint bucket_remove_loop (fuel : nat) (pp : link) (p : tcp_pool) (e : nat) : result tcp_pool :=
  match fuel with
  | O => Fault
  | S fuel =>
      x ← read_link p pp;
      match x with
      | None => Ok p
      | Some x =>
          if decide (x = e) then
            c ← load p e;
            p ← write_link pp (pe_bucket_next c) p;
            store e (pe_set_bucket_next None) p
          else bucket_remove_loop fuel (LNext x) p e
      end
  end.

(** The fuel of the walks. *)
Definition walk_fuel (p : tcp_pool) : nat := S (size (pl_heap p)).

Definition bucket_remove (p : tcp_pool) (e : nat) : result tcp_pool :=
  c ← load p e;
  bucket_remove_loop (walk_fuel p) (LBucket (host_hash (pe_host c) (pe_port c))) p e.

(** The first entry from [x] on, along [next], whose contents pass [test]. *)
Fixpoint walk (fuel : nat) (next : pool_entry → option nat) (test : pool_entry → bool) (p : tcp_pool)
    (x : option nat) : result (option nat) :=
  match x with
  | None => Ok None
  | Some e =>
      match fuel with
      | O => Fault
      | S fuel => c ← load p e; if test c then Ok (Some e) else walk fuel next test p (next c)
      end
  end.

Definition entry_free (p : tcp_pool) (e : nat) : result tcp_pool :=
  c ← load p e;
  let p := if negb (pe_failed c) then pl_close (pe_conn c) p else p in
  Ok (pl_set_heap (delete e (pl_heap p)) p).

(** The boolean answers whether an entry was evicted. *)
Definition evict_lru_idle (p : tcp_pool) : result (bool * tcp_pool) :=
  found ← walk (walk_fuel p) pe_lru_prev (λ c, negb (pe_in_use c)) p (pl_lru_tail p);
  match found with
  | None => Ok (false, p)
  | Some e =>
      p ← lru_remove p e;
      p ← bucket_remove p e;
      let p := pl_set_size (u64 (pl_current_size p - 1)) p in
      p ← entry_free p e;
      Ok (true, p)
  end.

(** ** Creation *)

(** [connect_timeout_ms] is an [int]; [None] refuses the configuration. *)
Definition tcp_pool_create_with_config (max_connections connect_timeout_ms : Z) : option tcp_pool :=
  if max_connections =? 0 then None
  else
    Some (TcpPool ∅ (replicate POOL_HASH_BUCKETS None) None None max_connections 0
            (if connect_timeout_ms =? 0 then POOL_DEFAULT_CONNECT_TIMEOUT_MS else connect_timeout_ms)
            false 0 0 []).

Definition tcp_pool_create (max_connections : Z) : option tcp_pool :=
  tcp_pool_create_with_config max_connections POOL_DEFAULT_CONNECT_TIMEOUT_MS.

(** ** Acquiring *)

Inductive acquire_answer :=
  | Hit (conn : Z)      (* DISTRIC_OK with a pooled connection *)
  | Miss                (* the lock is released to connect *)
  | ShuttingDown.       (* DISTRIC_ERR_SHUTDOWN *)

Definition reusable (host : list Z) (port : Z) (c : pool_entry) : bool :=
  negb (pe_in_use c) && negb (pe_failed c) && (pe_port c =? port) && streq (pe_host c) host.

(** Up to the call of [tcp_connect]. *)
Definition tcp_pool_acquire_begin (host : list Z) (port now : Z) (p : tcp_pool) : result (acquire_answer * tcp_pool) :=
  if pl_shutting_down p then Ok (ShuttingDown, p)
  else
    x ← read_link p (LBucket (host_hash host port));
    found ← walk (walk_fuel p) pe_bucket_next (reusable host port) p x;
    match found with
    | Some e =>
        p ← store e (pe_set_use true now) p;
        p ← lru_touch p e;
        c ← load p e;
        Ok (Hit (pe_conn c), pl_set_stats (u64 (pl_hits p + 1)) (pl_misses p) p)
    | None => Ok (Miss, pl_set_stats (pl_hits p) (u64 (pl_misses p + 1)) p)
    end.

(** After [tcp_connect] gave [conn]: [false] for DISTRIC_ERR_SHUTDOWN. *)
Definition tcp_pool_acquire_end (host : list Z) (port conn now : Z) (p : tcp_pool) : result (bool * tcp_pool) :=
  if pl_shutting_down p then Ok (false, pl_close conn p)
  else
    p ← (if pl_max_connections p <=? pl_current_size p then r ← evict_lru_idle p; Ok r.2 else Ok p);
    let e := fresh (dom (pl_heap p)) in
    let entry := PoolEntry conn (strncpy 255 host) port now true false None None None in
    let p := pl_set_heap (<[e := entry]> (pl_heap p)) p in
    let bidx := host_hash host port in
    x ← read_link p (LBucket bidx);
    p ← store e (pe_set_bucket_next x) p;
    p ← write_link (LBucket bidx) (Some e) p;
    p ← lru_prepend p e;
    Ok (true, pl_set_size (u64 (pl_current_size p + 1)) p).

(** ** Releasing *)

(** The entry of [conn]: the buckets from [i] on are walked in their order. *)
Fixpoint find_conn (buckets : list (option nat)) (conn : Z) (p : tcp_pool) : result (option nat) :=
  match buckets with
  | [] => Ok None
  | x :: buckets =>
      found ← walk (walk_fuel p) pe_bucket_next (λ c, pe_conn c =? conn) p x;
      match found with Some e => Ok (Some e) | None => find_conn buckets conn p end
  end.

Definition tcp_pool_release (conn now : Z) (p : tcp_pool) : result tcp_pool :=
  found ← find_conn (pl_buckets p) conn p;
  match found with
  | None => Ok (pl_close conn p)
  | Some e =>
      p ← store e (pe_set_use false now) p;
      p ← lru_touch p e;
      c ← load p e;
      if pe_failed c || (pl_max_connections p <? pl_current_size p) then
        p ← lru_remove p e;
        p ← bucket_remove p e;
        let p := pl_set_size (u64 (pl_current_size p - 1)) p in
        entry_free p e
      else Ok p
  end.

(** In every bucket the first entry of [conn] is marked. *)
Fixpoint mark_failed_loop (buckets : list (option nat)) (conn : Z) (p : tcp_pool) : result tcp_pool :=
  match buckets with
  | [] => Ok p
  | x :: buckets =>
      found ← walk (walk_fuel p) pe_bucket_next (λ c, pe_conn c =? conn) p x;
      p ← match found with Some e => store e pe_set_failed p | None => Ok p end;
      mark_failed_loop buckets conn p
  end.

Definition tcp_pool_mark_failed (conn : Z) (p : tcp_pool) : result tcp_pool :=
  mark_failed_loop (pl_buckets p) conn p.

Definition tcp_pool_get_stats (p : tcp_pool) : Z * Z * Z := (pl_current_size p, pl_hits p, pl_misses p).

(** ** Destruction *)

(** One look of the waiting loop: is an entry in use? *)
Fixpoint any_in_use (buckets : list (option nat)) (p : tcp_pool) : result bool :=
  match buckets with
  | [] => Ok false
  | x :: buckets =>
      found ← walk (walk_fuel p) pe_bucket_next pe_in_use p x;
      match found with Some _ => Ok true | None => any_in_use buckets p end
  end.

(** A chain is closed and freed. *)
Fixpoint free_chain (fuel : nat) (x : option nat) (p : tcp_pool) : result tcp_pool :=
  match x with
  | None => Ok p
  | Some e =>
      match fuel with
      | O => Fault
      | S fuel =>
          c ← load p e;
          let p := pl_close (pe_conn c) p in
          free_chain fuel (pe_bucket_next c) (pl_set_heap (delete e (pl_heap p)) p)
      end
  end.

Fixpoint free_buckets (buckets : list (option nat)) (p : tcp_pool) : result tcp_pool :=
  match buckets with
  | [] => Ok p
  | x :: buckets => p ← free_chain (walk_fuel p) x p; free_buckets buckets p
  end.

(** [tcp_pool_destroy] begins, and ends after its wait. *)
Definition tcp_pool_destroy_begin (p : tcp_pool) : tcp_pool := pl_set_shutting_down p.
Definition tcp_pool_destroy_end (p : tcp_pool) : result tcp_pool :=
  p ← free_buckets (pl_buckets p) p;
  Ok (pl_set_size 0 (pl_set_lru None None (pl_set_buckets (replicate POOL_HASH_BUCKETS None) p))).

(** ** Neighbours in a list without duplicates *)

Fixpoint succ_in (l : list nat) (x : nat) : option nat :=
  match l with
  | [] => None
  | y :: l => if decide (x = y) then head l else succ_in l x
  end.
Definition pred_in (l : list nat) (x : nat) : option nat := succ_in (reverse l) x.

Lemma succ_in_notin l x : x ∉ l → succ_in l x = None.
Proof.
  induction l as [|y l IH]; intros Hx; [done|]. apply not_elem_of_cons in Hx as [Hne Hx]. simpl.
  rewrite decide_False by done. by apply IH.
Qed.

Lemma succ_in_elem l x y : succ_in l x = Some y → y ∈ l.
Proof.
  induction l as [|z l IH]; simpl; [done|]. case_decide.
  - destruct l; intros [=]; subst. right. by left.
  - intros Hs. right. by apply IH.
Qed.

Lemma succ_in_split l1 x l2 : x ∉ l1 → succ_in (l1 ++ x :: l2) x = head l2.
Proof.
  induction l1 as [|y l1 IH]; intros Hx; simpl; [by rewrite decide_True|].
  apply not_elem_of_cons in Hx as [Hne Hx]. rewrite decide_False by done. by apply IH.
Qed.

Lemma head_app_cons {A} (l1 : list A) x l2 : head (l1 ++ x :: l2) = head (l1 ++ [x]).
Proof. by destruct l1. Qed.

(** Taking [x] out: only its predecessor gets another successor. *)
Lemma succ_in_remove l1 x l2 y :
  NoDup (l1 ++ x :: l2) → y ≠ x →
  succ_in (l1 ++ l2) y = if decide (succ_in (l1 ++ x :: l2) y = Some x) then head l2 else succ_in (l1 ++ x :: l2) y.
Proof.
  induction l1 as [|z l1 IH]; intros Hnd Hy; simpl.
  - apply list.NoDup_cons in Hnd as [Hx _]. rewrite (decide_False (P := y = x)) by done.
    rewrite decide_False; [done|]. by intros Hs%succ_in_elem.
  - simpl in Hnd. apply list.NoDup_cons in Hnd as [Hz Hnd]. destruct (decide (y = z)) as [->|Hne]; [|by apply IH].
    destruct l1 as [|w l1]; simpl; [by rewrite decide_True|]. rewrite decide_False; [done|].
    intros [= ->]. apply list.NoDup_cons in Hnd as [Hx _]. apply Hx, elem_of_app. right. by left.
Qed.

Lemma succ_in_snoc l x y :
  NoDup l → x ∉ l → succ_in (l ++ [x]) y = if decide (list.last l = Some y) then Some x else succ_in l y.
Proof.
  induction l as [|z l IH]; intros Hnd Hx; simpl; [by destruct (decide (y = x))|].
  apply list.NoDup_cons in Hnd as [Hz Hnd]. apply not_elem_of_cons in Hx as [Hxz Hx].
  rewrite IH by done. destruct (decide (y = z)) as [->|Hne].
  - destruct l as [|w l]; simpl; [by rewrite decide_True|]. rewrite decide_False; [done|].
    intros Hl. apply Hz. by apply last_Some_elem_of.
  - destruct l as [|w l]; simpl; [|done]. by rewrite decide_False by congruence.
Qed.

Lemma NoDup_reverse (l : list nat) : NoDup (reverse l) ↔ NoDup l.
Proof. by rewrite reverse_Permutation. Qed.

Lemma pred_in_cons x l y :
  NoDup l → x ∉ l → pred_in (x :: l) y = if decide (head l = Some y) then Some x else pred_in l y.
Proof.
  intros Hnd Hx. unfold pred_in. rewrite reverse_cons, succ_in_snoc; [by rewrite last_reverse|by apply NoDup_reverse|by rewrite elem_of_reverse].
Qed.

Lemma pred_in_remove l1 x l2 y :
  NoDup (l1 ++ x :: l2) → y ≠ x →
  pred_in (l1 ++ l2) y =
    if decide (pred_in (l1 ++ x :: l2) y = Some x) then list.last l1 else pred_in (l1 ++ x :: l2) y.
Proof.
  intros Hnd Hy. unfold pred_in. rewrite reverse_app, reverse_app, reverse_cons, <- app_assoc. simpl.
  rewrite (succ_in_remove (reverse l2) x (reverse l1)); [by rewrite head_reverse| |done].
  rewrite <- NoDup_reverse in Hnd. rewrite reverse_app, reverse_cons, <- app_assoc in Hnd. exact Hnd.
Qed.

Lemma pred_in_split l1 x l2 : x ∉ l2 → pred_in (l1 ++ x :: l2) x = list.last l1.
Proof.
  intros Hx. unfold pred_in. rewrite reverse_app, reverse_cons, <- app_assoc. simpl.
  rewrite succ_in_split by by rewrite elem_of_reverse. apply head_reverse.
Qed.

Lemma pred_in_notin l x : x ∉ l → pred_in l x = None.
Proof. intros Hx. apply succ_in_notin. by rewrite elem_of_reverse. Qed.

(** [x] comes just before [y]. *)
Lemma succ_in_Some l x y :
  NoDup l → succ_in l x = Some y ↔ ∃ l1 l2, l = l1 ++ x :: y :: l2.
Proof.
  intros Hnd. split.
  - clear Hnd. induction l as [|z l IH]; simpl; [done|]. case_decide as Hd.
    + subst z. destruct l as [|w l]; intros [=]; subst. by exists [], l.
    + intros (l1 & l2 & ->)%IH. by exists (z :: l1), l2.
  - intros (l1 & l2 & ->). apply list.NoDup_app in Hnd as (_ & Hd & _). rewrite succ_in_split; [done|].
    intros Hx. apply (Hd x Hx). by left.
Qed.

Lemma succ_pred l x y : NoDup l → succ_in l x = Some y ↔ pred_in l y = Some x.
Proof.
  intros Hnd. unfold pred_in. rewrite !succ_in_Some by (done || by apply NoDup_reverse). split; intros (l1 & l2 & Hl).
  - exists (reverse l2), (reverse l1). rewrite Hl, reverse_app, !reverse_cons, <- !app_assoc. done.
  - exists (reverse l2), (reverse l1). rewrite <- (reverse_involutive l), Hl, reverse_app, !reverse_cons, <- !app_assoc. done.
Qed.

(** ** The shape of a pool

    An entry without its links is an [item].  The links are those of the chain of each
    bucket, [chains b], and of the list in order of use, [lru]. *)

Record item := Item {
  it_conn : Z;
  it_host : list Z;
  it_port : Z;
  it_last_used_ms : Z;
  it_in_use : bool;
  it_failed : bool
}.

Definition it_set_use (in_use : bool) (now : Z) (i : item) : item :=
  Item (it_conn i) (it_host i) (it_port i) now in_use (it_failed i).
Definition it_set_failed (i : item) : item :=
  Item (it_conn i) (it_host i) (it_port i) (it_last_used_ms i) (it_in_use i) true.
Definition bucket_of (i : item) : nat := host_hash (it_host i) (it_port i).

Definition entry_of (chains : nat → list nat) (lru : list nat) (x : nat) (i : item) : pool_entry :=
  PoolEntry (it_conn i) (it_host i) (it_port i) (it_last_used_ms i) (it_in_use i) (it_failed i)
    (succ_in (chains (bucket_of i)) x) (pred_in lru x) (succ_in lru x).

Record shape (p : tcp_pool) (items : gmap nat item) (chains : nat → list nat) (lru : list nat) : Prop := {
  sh_heap x : pl_heap p !! x = entry_of chains lru x <$> items !! x;
  sh_buckets b : (b < POOL_HASH_BUCKETS)%nat → pl_buckets p !! b = Some (head (chains b));
  sh_head : pl_lru_head p = head lru;
  sh_tail : pl_lru_tail p = list.last lru;
  sh_lru : NoDup lru ∧ ∀ x, x ∈ lru → is_Some (items !! x);
  sh_chains b : NoDup (chains b) ∧ ∀ x, x ∈ chains b → ∃ i, items !! x = Some i ∧ bucket_of i = b;
  sh_length : length (pl_buckets p) = POOL_HASH_BUCKETS
}.

(** The fields that are not part of the structures. *)
Definition scalars (p : tcp_pool) : Z * Z * Z * bool * Z * Z * list Z :=
  (pl_max_connections p, pl_current_size p, pl_connect_timeout_ms p, pl_shutting_down p, pl_hits p, pl_misses p,
   pl_closed p).

Ltac cbn_pool :=
  cbn [pl_heap pl_buckets pl_lru_head pl_lru_tail pl_max_connections pl_current_size pl_connect_timeout_ms
       pl_shutting_down pl_hits pl_misses pl_closed pl_set_heap pl_set_buckets pl_set_lru pl_set_size pl_set_stats
       pl_close pl_set_shutting_down mbind result_bind].

Ltac cbn_pool_in H :=
  cbn [pl_heap pl_buckets pl_lru_head pl_lru_tail pl_max_connections pl_current_size pl_connect_timeout_ms
       pl_shutting_down pl_hits pl_misses pl_closed pl_set_heap pl_set_buckets pl_set_lru pl_set_size pl_set_stats
       pl_close pl_set_shutting_down] in H.

Section shapes.
Context (items : gmap nat item).
Implicit Types (p : tcp_pool) (lru : list nat) (chains : nat → list nat).

Lemma store_alter x f p : is_Some (pl_heap p !! x) → store x f p = Ok (pl_set_heap (alter f x (pl_heap p)) p).
Proof.
  intros [c Hc]. unfold store. rewrite Hc. do 2 f_equal. apply map_eq. intros y.
  destruct (decide (x = y)) as [<-|Hne]; [by rewrite lookup_insert_eq, lookup_alter_eq, Hc|].
  by rewrite lookup_insert_ne, lookup_alter_ne.
Qed.

Lemma alter_pointwise (f : pool_entry → pool_entry) (h : gmap nat pool_entry) x y :
  alter f x h !! y = if decide (y = x) then f <$> h !! y else h !! y.
Proof. case_decide as Hd; [subst; by rewrite lookup_alter_eq|by rewrite lookup_alter_ne]. Qed.

Lemma load_shape p chains lru x i :
  shape p items chains lru → items !! x = Some i → load p x = Ok (entry_of chains lru x i).
Proof. intros Hs Hi. unfold load. by rewrite (sh_heap _ _ _ _ Hs), Hi. Qed.

Lemma shape_heap_some p chains lru x : shape p items chains lru → is_Some (items !! x) → is_Some (pl_heap p !! x).
Proof. intros Hs [i Hi]. rewrite (sh_heap _ _ _ _ Hs), Hi. by eexists. Qed.

(** A heap that only differs in what one entry's links are. *)
Lemma alter_some (f : pool_entry → pool_entry) (h : gmap nat pool_entry) x y :
  is_Some (h !! y) → is_Some (alter f x h !! y).
Proof. intros Hy. rewrite alter_pointwise. case_decide; [by apply fmap_is_Some|done]. Qed.

Lemma pointwise_option (f : pool_entry → pool_entry) (h : gmap nat pool_entry) (o : option nat) y :
  match o with Some x => alter f x h | None => h end !! y = if decide (o = Some y) then f <$> h !! y else h !! y.
Proof. destruct o as [x|]; [rewrite alter_pointwise|done]. repeat case_decide; congruence. Qed.

Lemma lru_remove_shape p chains l1 x l2 :
  shape p items chains (l1 ++ x :: l2) →
  ∃ p', lru_remove p x = Ok p' ∧ shape p' items chains (l1 ++ l2) ∧ scalars p' = scalars p ∧
    pl_buckets p' = pl_buckets p.
Proof.
  intros Hs. pose proof (sh_lru _ _ _ _ Hs) as [Hnd Hin].
  pose proof Hnd as Hnd'. apply list.NoDup_app in Hnd' as (Hnd1 & Hdis & Hnd2). apply list.NoDup_cons in Hnd2 as [Hx2 Hnd2].
  assert (Hx1 : x ∉ l1) by (intros Hx; apply (Hdis x Hx); by left).
  destruct (Hin x) as [i Hi]; [apply elem_of_app; right; by left|].
  assert (Hp : pred_in (l1 ++ x :: l2) x = list.last l1) by by apply pred_in_split.
  assert (Hn : succ_in (l1 ++ x :: l2) x = head l2) by by apply succ_in_split.
  assert (Hlast : ∀ y, list.last l1 = Some y → y ≠ x ∧ is_Some (items !! y)).
  { intros y Hy. apply last_Some_elem_of in Hy. split; [by intros ->|]. apply Hin, elem_of_app. by left. }
  assert (Hhead : ∀ y, head l2 = Some y → y ≠ x ∧ is_Some (items !! y)).
  { intros y Hy. apply head_Some_elem_of in Hy. split; [by intros ->|]. apply Hin, elem_of_app. right. by right. }
  set (h1 := match list.last l1 with Some y => alter (pe_set_next (head l2)) y (pl_heap p) | None => pl_heap p end).
  set (h2 := match head l2 with Some y => alter (pe_set_prev (list.last l1)) y h1 | None => h1 end).
  set (h3 := alter (λ c, pe_set_prev None (pe_set_next None c)) x h2).
  assert (Hx_h1 : h1 !! x = Some (entry_of chains (l1 ++ x :: l2) x i)).
  { unfold h1. destruct (list.last l1) as [y|] eqn:Hy; rewrite ?alter_pointwise, ?decide_False;
      rewrite ?(sh_heap _ _ _ _ Hs), ?Hi; try done. destruct (Hlast y eq_refl). congruence. }
  exists (pl_set_heap h3 (pl_set_lru (head (l1 ++ l2)) (list.last (l1 ++ l2)) p)).
  split; [|split; [|done]].
  - unfold lru_remove. rewrite (load_shape _ _ _ _ _ Hs Hi). cbn_pool.
    change (pe_lru_prev (entry_of chains (l1 ++ x :: l2) x i)) with (pred_in (l1 ++ x :: l2) x).
    change (pe_lru_next (entry_of chains (l1 ++ x :: l2) x i)) with (succ_in (l1 ++ x :: l2) x). rewrite Hp, Hn.
    assert (H1 : ∃ p1, match list.last l1 with
        | Some y => store y (pe_set_next (head l2)) p
        | None => Ok (pl_set_lru (head l2) (pl_lru_tail p) p)
        end = Ok p1 ∧ p1 = pl_set_heap h1 (pl_set_lru (head (l1 ++ l2)) (pl_lru_tail p) p)).
    { eexists. split; [|reflexivity]. unfold h1. destruct (list.last l1) as [y|] eqn:Hy.
      - rewrite store_alter by (apply (shape_heap_some _ _ _ _ Hs), (Hlast y eq_refl)). f_equal.
        assert (head (l1 ++ l2) = pl_lru_head p) as -> by (rewrite (sh_head _ _ _ _ Hs); by destruct l1).
        by destruct p.
      - apply last_None in Hy as ->. by destruct p. }
    destruct H1 as (p1 & -> & ->). cbn_pool. unfold load. cbn_pool. rewrite Hx_h1. cbn_pool.
    change (pe_lru_prev (entry_of chains (l1 ++ x :: l2) x i)) with (pred_in (l1 ++ x :: l2) x).
    change (pe_lru_next (entry_of chains (l1 ++ x :: l2) x i)) with (succ_in (l1 ++ x :: l2) x). rewrite Hp, Hn.
    assert (H2 : ∃ p2, match head l2 with
        | Some y => store y (pe_set_prev (list.last l1)) (pl_set_heap h1 (pl_set_lru (head (l1 ++ l2)) (pl_lru_tail p) p))
        | None => Ok (pl_set_lru (head (l1 ++ l2)) (list.last l1)
                    (pl_set_heap h1 (pl_set_lru (head (l1 ++ l2)) (pl_lru_tail p) p)))
        end = Ok p2 ∧ p2 = pl_set_heap h2 (pl_set_lru (head (l1 ++ l2)) (list.last (l1 ++ l2)) p)).
    { eexists. split; [|reflexivity]. unfold h2. destruct (head l2) as [y|] eqn:Hy.
      - rewrite store_alter. 2:{ cbn_pool. unfold h1. destruct (Hhead y eq_refl) as [_ Hyi].
          destruct (list.last l1); [apply alter_some|]; by apply (shape_heap_some _ _ _ _ Hs). }
        assert (list.last (l1 ++ l2) = pl_lru_tail p) as ->; [|done].
        rewrite (sh_tail _ _ _ _ Hs). destruct l2 as [|z l2]; [done|]. by rewrite !last_app_cons.
      - destruct l2; [|done]. by rewrite app_nil_r. }
    destruct H2 as (p2 & -> & ->). cbn_pool. rewrite store_alter; [done|]. cbn_pool. unfold h2.
    destruct (head l2); [apply alter_some|]; by rewrite Hx_h1.
  - split; cbn_pool.
    + intros y. unfold h3, h2, h1.
      assert (Hy0 := sh_heap _ _ _ _ Hs y).
      rewrite alter_pointwise. destruct (decide (y = x)) as [->|Hne].
      { fold h1 h2. assert (Hx_h2 : h2 !! x = h1 !! x).
        { unfold h2. destruct (head l2) as [z|] eqn:Hz; [|done]. rewrite alter_pointwise, decide_False; [done|].
          intros ->. by destruct (Hhead z eq_refl). }
        rewrite Hx_h2, Hx_h1, Hi. simpl. f_equal. unfold entry_of, pe_set_prev, pe_set_next. simpl.
        assert (Hnot : x ∉ l1 ++ l2) by (rewrite elem_of_app; tauto).
        by rewrite (succ_in_notin _ _ Hnot), (pred_in_notin _ _ Hnot). }
      rewrite !pointwise_option, Hy0. destruct (items !! y) as [j|]; [|by repeat case_match].
      cbn [fmap option_fmap option_map]. unfold entry_of.
      rewrite (succ_in_remove l1 x l2 y Hnd Hne), (pred_in_remove l1 x l2 y Hnd Hne).
      assert (Hpy : list.last l1 = Some y ↔ succ_in (l1 ++ x :: l2) y = Some x) by (rewrite succ_pred, Hp by done; done).
      assert (Hny : head l2 = Some y ↔ pred_in (l1 ++ x :: l2) y = Some x) by (rewrite <- succ_pred, Hn by done; done).
      destruct (decide (head l2 = Some y)) as [Ha|Ha], (decide (list.last l1 = Some y)) as [Hb|Hb];
        rewrite ?(decide_True (P := succ_in _ _ = _)), ?(decide_True (P := pred_in _ _ = _)),
          ?(decide_False (P := succ_in _ _ = _)), ?(decide_False (P := pred_in _ _ = _)) by tauto; done.
    + apply (sh_buckets _ _ _ _ Hs).
    + done.
    + done.
    + split.
      * apply list.NoDup_app. split; [done|]. split; [|done]. intros y Hy Hy2. apply (Hdis y Hy). by right.
      * intros y Hy. apply Hin. apply elem_of_app in Hy as [Hy|Hy]; apply elem_of_app; [by left|right; by right].
    + apply (sh_chains _ _ _ _ Hs).
    + apply (sh_length _ _ _ _ Hs).
Qed.

Lemma lru_prepend_shape p chains lru x :
  shape p items chains lru → x ∉ lru → is_Some (items !! x) →
  ∃ p', lru_prepend p x = Ok p' ∧ shape p' items chains (x :: lru) ∧ scalars p' = scalars p ∧
    pl_buckets p' = pl_buckets p.
Proof.
  intros Hs Hx Hix. pose proof (sh_lru _ _ _ _ Hs) as [Hnd Hin].
  pose proof (shape_heap_some _ _ _ _ Hs Hix) as Hhx.
  set (h1 := alter (pe_set_next (head lru)) x (alter (pe_set_prev None) x (pl_heap p))).
  set (h2 := match head lru with Some y => alter (pe_set_prev (Some x)) y h1 | None => h1 end).
  exists (pl_set_heap h2 (pl_set_lru (Some x) (list.last (x :: lru)) p)). split; [|split; [|done]].
  - unfold lru_prepend. rewrite store_alter by done. cbn_pool. rewrite store_alter by (cbn_pool; by apply alter_some). cbn_pool.
    rewrite (sh_head _ _ _ _ Hs). fold h1.
    assert (H1 : match head lru with
        | Some h => store h (pe_set_prev (Some x)) (pl_set_heap h1 (pl_set_heap (alter (pe_set_prev None) x (pl_heap p)) p))
        | None => Ok (pl_set_heap h1 (pl_set_heap (alter (pe_set_prev None) x (pl_heap p)) p))
        end = Ok (pl_set_heap h2 p)).
    { unfold h2. destruct (head lru) as [y|] eqn:Hy; [|done]. rewrite store_alter; [done|]. cbn_pool.
      unfold h1. do 2 apply alter_some. by apply (shape_heap_some _ _ _ _ Hs), Hin, head_Some_elem_of. }
    rewrite H1. cbn_pool. rewrite (sh_tail _ _ _ _ Hs). f_equal.
    destruct lru as [|y lru]; [done|]. rewrite last_cons_cons. destruct (list.last (y :: lru)) eqn:Hl; [done|].
    by apply last_None in Hl.
  - split; cbn_pool; [|apply (sh_buckets _ _ _ _ Hs)|done|done| |apply (sh_chains _ _ _ _ Hs)|apply (sh_length _ _ _ _ Hs)].
    + intros y. unfold h2. rewrite pointwise_option. unfold h1. rewrite !alter_pointwise, (sh_heap _ _ _ _ Hs).
      destruct (items !! y) as [j|]; [|by repeat case_decide]. cbn [fmap option_fmap option_map]. unfold entry_of.
      rewrite (pred_in_cons _ _ _ Hnd Hx). cbn [succ_in].
      destruct (decide (y = x)) as [->|Hne].
      * assert (Hnh : head lru ≠ Some x) by (intros Hh; by apply Hx, head_Some_elem_of).
        rewrite (pred_in_notin _ _ Hx). by repeat case_decide.
      * by repeat case_decide.
    + split; [by apply list.NoDup_cons|]. intros y [->|Hy]%elem_of_cons; [done|by apply Hin].
Qed.

(** Walking along a structure whose links are those of [l]. *)
Definition passing (test : pool_entry → bool) p (x : nat) : bool :=
  match pl_heap p !! x with Some c => test c | None => false end.
Definition first_such (t : nat → bool) (l : list nat) : option nat := head (List.filter t l).

Lemma walk_spec next test p l : ∀ pre suf fuel,
  l = pre ++ suf → NoDup l → (∀ y, y ∈ l → ∃ c, load p y = Ok c ∧ next c = succ_in l y) → (length suf ≤ fuel)%nat →
  walk fuel next test p (head suf) = Ok (first_such (passing test p) suf).
Proof.
  intros pre suf. revert pre. induction suf as [|y suf IH]; intros pre fuel Hl Hnd Hlinks Hf; [by destruct fuel|].
  destruct fuel as [|fuel]; simpl in Hf; [lia|]. cbn [walk head].
  destruct (Hlinks y) as (c & Hc & Hnext); [rewrite Hl; apply elem_of_app; right; by left|].
  rewrite Hc. cbn [mbind result_bind]. unfold first_such, passing in *. cbn [List.filter].
  unfold load in Hc. destruct (pl_heap p !! y) as [c'|] eqn:Hy; [|done]. injection Hc as ->.
  destruct (test c); [done|]. rewrite Hnext, Hl. rewrite Hl in Hnd.
  rewrite succ_in_split. 2:{ apply list.NoDup_app in Hnd as (_ & Hd & _). intros Hin. apply (Hd y Hin). by left. }
  apply (IH (pre ++ [y])); [by rewrite <- app_assoc|by rewrite <- Hl in Hnd|done|lia].
Qed.

Lemma walk_fuel_enough p (l : list nat) : NoDup l → (∀ y, y ∈ l → is_Some (pl_heap p !! y)) → (length l ≤ walk_fuel p)%nat.
Proof.
  intros Hnd Hin. unfold walk_fuel. rewrite <- size_dom.
  assert (Hsz : size (list_to_set l : gset nat) = length l) by by apply size_list_to_set.
  rewrite <- Hsz. etrans; [apply (subseteq_size _ (dom (pl_heap p)))|lia].
  intros y Hy%elem_of_list_to_set. apply elem_of_dom. by apply Hin.
Qed.

Lemma walk_chain p chains lru b test :
  shape p items chains lru →
  walk (walk_fuel p) pe_bucket_next test p (head (chains b)) = Ok (first_such (passing test p) (chains b)).
Proof.
  intros Hs. pose proof (sh_chains _ _ _ _ Hs b) as [Hnd Hin].
  apply (walk_spec _ _ _ (chains b) [] (chains b)); [done|done| |].
  - intros y Hy. destruct (Hin y Hy) as (i & Hi & Hb). exists (entry_of chains lru y i).
    split; [by apply (load_shape _ _ _ _ _ Hs)|]. simpl. by rewrite Hb.
  - apply walk_fuel_enough; [done|]. intros y Hy. destruct (Hin y Hy) as (i & Hi & _).
    apply (shape_heap_some _ _ _ _ Hs). by exists i.
Qed.

Lemma walk_lru p chains lru test :
  shape p items chains lru →
  walk (walk_fuel p) pe_lru_prev test p (list.last lru) = Ok (first_such (passing test p) (reverse lru)).
Proof.
  intros Hs. pose proof (sh_lru _ _ _ _ Hs) as [Hnd Hin]. rewrite <- head_reverse.
  apply (walk_spec _ _ _ (reverse lru) [] (reverse lru)); [done|by apply NoDup_reverse| |].
  - intros y Hy. rewrite elem_of_reverse in Hy. destruct (Hin y Hy) as [i Hi]. exists (entry_of chains lru y i).
    split; [by apply (load_shape _ _ _ _ _ Hs)|done].
  - apply walk_fuel_enough; [by apply NoDup_reverse|]. intros y Hy. rewrite elem_of_reverse in Hy.
    by apply (shape_heap_some _ _ _ _ Hs), Hin.
Qed.

(** Unlinking from a chain. *)
Definition link_at (b : nat) (c1 : list nat) : link :=
  match list.last c1 with Some z => LNext z | None => LBucket b end.

Lemma host_hash_lt host port : (host_hash host port < POOL_HASH_BUCKETS)%nat.
Proof.
  unfold host_hash, POOL_HASH_BUCKETS. set (h := Z.lxor _ _). change POOL_HASH_MASK with (Z.ones 6).
  rewrite Z.land_ones by lia. pose proof (Z.mod_pos_bound h (2 ^ 6)). lia.
Qed.

Lemma read_link_at p chains lru b c1 c2 :
  shape p items chains lru → (b < POOL_HASH_BUCKETS)%nat → chains b = c1 ++ c2 →
  read_link p (link_at b c1) = Ok (head c2).
Proof.
  intros Hs Hb Hc. pose proof (sh_chains _ _ _ _ Hs b) as [Hnd Hin]. unfold link_at.
  destruct (list.last c1) as [z|] eqn:Hz; cbn [read_link].
  - apply last_Some in Hz as [c0 ->]. rewrite <- app_assoc in Hc. simpl in Hc.
    destruct (Hin z) as (i & Hi & Hbi); [rewrite Hc; apply elem_of_app; right; by left|].
    rewrite (load_shape _ _ _ _ _ Hs Hi). cbn [mbind result_bind]. simpl. f_equal. rewrite Hbi, Hc, succ_in_split; [done|].
    rewrite Hc in Hnd. apply list.NoDup_app in Hnd as (_ & Hd & _). intros Hin0. apply (Hd z Hin0). by left.
  - apply last_None in Hz as ->. simpl in Hc. by rewrite (sh_buckets _ _ _ _ Hs), Hc by done.
Qed.

Lemma bucket_remove_loop_shape p chains lru b x c2 : ∀ d2 d1 fuel,
  shape p items chains lru → (b < POOL_HASH_BUCKETS)%nat → chains b = d1 ++ d2 ++ x :: c2 →
  (length d2 < fuel)%nat →
  bucket_remove_loop fuel (link_at b d1) p x =
    (p' ← write_link (link_at b (d1 ++ d2)) (head c2) p; store x (pe_set_bucket_next None) p').
Proof.
  induction d2 as [|y d2 IH]; intros d1 fuel Hs Hb Hc Hf; destruct fuel as [|fuel]; simpl in Hf; try lia;
    cbn [bucket_remove_loop]; rewrite (read_link_at _ _ _ _ _ _ Hs Hb Hc); cbn [mbind result_bind head app].
  - rewrite decide_True by done. pose proof (sh_chains _ _ _ _ Hs b) as [Hnd Hin].
    destruct (Hin x) as (i & Hi & Hbi); [rewrite Hc; apply elem_of_app; right; by left|].
    rewrite (load_shape _ _ _ _ _ Hs Hi). cbn [mbind result_bind].
    assert (pe_bucket_next (entry_of chains lru x i) = head c2) as ->; [|by rewrite app_nil_r].
    simpl. rewrite Hbi, Hc. apply succ_in_split.
    rewrite Hc in Hnd. apply list.NoDup_app in Hnd as (_ & Hd & _). intros Hin0. apply (Hd x Hin0). by left.
  - rewrite decide_False. 2:{ pose proof (sh_chains _ _ _ _ Hs b) as [Hnd _]. rewrite Hc in Hnd.
      apply list.NoDup_app in Hnd as (_ & _ & Hnd). apply list.NoDup_cons in Hnd as [Hy _]. intros ->.
      apply Hy, elem_of_app. right. by left. }
    specialize (IH (d1 ++ [y]) fuel Hs Hb). rewrite <- app_assoc in IH. simpl in IH.
    assert (link_at b (d1 ++ [y]) = LNext y) as Hlink by (unfold link_at; by rewrite last_snoc).
    rewrite Hlink in IH. rewrite IH by (done || lia). by rewrite <- app_assoc.
Qed.

Lemma insert_fn (chains : nat → list nat) b c : (<[b := c]> chains) b = c.
Proof. apply fn_lookup_insert. Qed.
Lemma insert_fn_ne (chains : nat → list nat) b b' c : b' ≠ b → (<[b := c]> chains) b' = chains b'.
Proof. intros Hne. by apply fn_lookup_insert_ne. Qed.

Lemma bucket_remove_shape p chains lru x i c1 c2 :
  shape p items chains lru → items !! x = Some i → chains (bucket_of i) = c1 ++ x :: c2 →
  ∃ p', bucket_remove p x = Ok p' ∧ shape p' items (<[bucket_of i := c1 ++ c2]> chains) lru ∧ scalars p' = scalars p.
Proof.
  intros Hs Hi Hc. set (b := bucket_of i) in *.
  assert (Hb : (b < POOL_HASH_BUCKETS)%nat) by apply host_hash_lt.
  pose proof (sh_chains _ _ _ _ Hs b) as [Hnd Hin].
  pose proof Hnd as Hnd1. rewrite Hc in Hnd1. apply list.NoDup_app in Hnd1 as (Hnd1 & Hdis & Hnd2).
  apply list.NoDup_cons in Hnd2 as [Hx2 Hnd2].
  assert (Hx1 : x ∉ c1) by (intros Hx; apply (Hdis x Hx); by left).
  assert (Hnot : x ∉ c1 ++ c2) by (rewrite elem_of_app; tauto).
  assert (Hhx : is_Some (pl_heap p !! x)) by (apply (shape_heap_some _ _ _ _ Hs); by exists i).
  set (h1 := match list.last c1 with Some z => alter (pe_set_bucket_next (head c2)) z (pl_heap p) | None => pl_heap p end).
  set (b1 := match list.last c1 with Some z => pl_buckets p | None => <[b := head c2]> (pl_buckets p) end).
  exists (pl_set_heap (alter (pe_set_bucket_next None) x h1) (pl_set_buckets b1 p)). split; [|split; [|done]].
  - unfold bucket_remove. rewrite (load_shape _ _ _ _ _ Hs Hi). cbn_pool.
    change (host_hash (pe_host _) (pe_port _)) with b. change (LBucket b) with (link_at b []).
    rewrite (bucket_remove_loop_shape p chains lru b x c2 c1 [] _ Hs Hb Hc).
    2:{ pose proof (walk_fuel_enough p (chains b) Hnd) as Hf. rewrite Hc, length_app in Hf. simpl in Hf.
        assert (length c1 + S (length c2) ≤ walk_fuel p)%nat; [|lia]. apply Hf. intros y Hy. rewrite <- Hc in Hy.
        destruct (Hin y Hy) as (j & Hj & _). apply (shape_heap_some _ _ _ _ Hs). by exists j. }
    cbn [app]. unfold link_at, h1, b1. destruct (list.last c1) as [z|] eqn:Hz; cbn [write_link].
    + rewrite store_alter. 2:{ apply last_Some_elem_of in Hz. destruct (Hin z) as (j & Hj & _).
        { rewrite Hc. apply elem_of_app. by left. } apply (shape_heap_some _ _ _ _ Hs). by exists j. }
      cbn_pool. rewrite store_alter by (cbn_pool; by apply alter_some). by destruct p.
    + cbn_pool. rewrite store_alter by (cbn_pool; done). by destruct p.
  - split; cbn_pool.
    + intros y. unfold h1. rewrite alter_pointwise, pointwise_option, (sh_heap _ _ _ _ Hs).
      destruct (items !! y) as [j|] eqn:Hj; [|by repeat case_decide]. cbn [fmap option_fmap option_map]. unfold entry_of.
      destruct (decide (y = x)) as [->|Hne].
      { rewrite decide_False. 2:{ intros Hl. by apply Hx1, last_Some_elem_of. } simplify_eq.
        fold b. by rewrite insert_fn, (succ_in_notin _ _ Hnot). }
      destruct (decide (bucket_of j = b)) as [Hjb|Hjb].
      * rewrite Hjb, insert_fn, (succ_in_remove c1 x c2 y) by (rewrite <- ?Hc; done). rewrite <- Hc.
        assert (Hiff : list.last c1 = Some y ↔ succ_in (chains b) y = Some x).
        { rewrite succ_pred by done. by rewrite Hc, pred_in_split. }
        destruct (decide (list.last c1 = Some y)) as [Hl|Hl].
        -- rewrite decide_True by by apply Hiff. done.
        -- rewrite decide_False by by rewrite <- Hiff. done.
      * rewrite insert_fn_ne by done. destruct (decide (list.last c1 = Some y)) as [Hl|Hl]; [|done].
        apply last_Some_elem_of in Hl. destruct (Hin y) as (j' & Hj' & Hb'); [rewrite Hc; apply elem_of_app; by left|].
        congruence.
    + intros b' Hb'. unfold b1. destruct (decide (b' = b)) as [->|Hne].
      * rewrite insert_fn. destruct (list.last c1) as [z|] eqn:Hz.
        -- rewrite (sh_buckets _ _ _ _ Hs _ Hb), Hc. destruct c1; [done|]. done.
        -- apply last_None in Hz as ->. apply list_lookup_insert_eq.
           by apply (lookup_lt_Some _ _ _ (sh_buckets _ _ _ _ Hs _ Hb)).
      * rewrite insert_fn_ne by done. rewrite <- (sh_buckets _ _ _ _ Hs _ Hb').
        destruct (list.last c1); [done|]. by rewrite list_lookup_insert_ne.
    + apply (sh_head _ _ _ _ Hs).
    + apply (sh_tail _ _ _ _ Hs).
    + apply (sh_lru _ _ _ _ Hs).
    + intros b'. destruct (decide (b' = b)) as [->|Hne]; [|rewrite insert_fn_ne by done; apply (sh_chains _ _ _ _ Hs)].
      rewrite insert_fn. split.
      * apply list.NoDup_app. split; [done|]. split; [|done]. intros y Hy Hy2. apply (Hdis y Hy). by right.
      * intros y Hy. apply Hin. rewrite Hc. apply elem_of_app in Hy as [Hy|Hy]; apply elem_of_app; [by left|right; by right].
    + unfold b1. destruct (list.last c1); rewrite ?length_insert; apply (sh_length _ _ _ _ Hs).
Qed.
End shapes.

(** ** Entries that change, come and go *)

Lemma store_shape p items chains lru x i (f : item → item) (g : pool_entry → pool_entry) :
  shape p items chains lru → items !! x = Some i → bucket_of (f i) = bucket_of i →
  g (entry_of chains lru x i) = entry_of chains lru x (f i) →
  ∃ p', store x g p = Ok p' ∧ shape p' (<[x := f i]> items) chains lru ∧ scalars p' = scalars p ∧
    pl_buckets p' = pl_buckets p.
Proof.
  intros Hs Hi Hb Hg. pose proof (sh_heap _ _ _ _ Hs x) as Hx. rewrite Hi in Hx. cbn in Hx.
  eexists. split; [unfold store; by rewrite Hx|]. split; [|done]. split; cbn_pool.
  - intros y. destruct (decide (x = y)) as [<-|Hne]; [by rewrite !lookup_insert_eq, Hg|].
    rewrite !lookup_insert_ne by done. apply (sh_heap _ _ _ _ Hs).
  - apply (sh_buckets _ _ _ _ Hs).
  - apply (sh_head _ _ _ _ Hs).
  - apply (sh_tail _ _ _ _ Hs).
  - destruct (sh_lru _ _ _ _ Hs) as [Hnd Hin]. split; [done|]. intros y Hy. rewrite lookup_insert. case_decide; [by eexists|by apply Hin].
  - intros b. destruct (sh_chains _ _ _ _ Hs b) as [Hnd Hin]. split; [done|]. intros y Hy.
    destruct (Hin y Hy) as (j & Hj & Hbj). destruct (decide (x = y)) as [<-|Hne].
    + exists (f i). rewrite lookup_insert_eq. split; [done|]. rewrite Hb. congruence.
    + exists j. by rewrite lookup_insert_ne.
  - apply (sh_length _ _ _ _ Hs).
Qed.

Lemma delete_shape p items chains lru x :
  shape p items chains lru → x ∉ lru → (∀ b, x ∉ chains b) →
  shape (pl_set_heap (delete x (pl_heap p)) p) (delete x items) chains lru.
Proof.
  intros Hs Hlru Hch. split; cbn_pool.
  - intros y. rewrite !lookup_delete. case_decide; [done|]. apply (sh_heap _ _ _ _ Hs).
  - apply (sh_buckets _ _ _ _ Hs).
  - apply (sh_head _ _ _ _ Hs).
  - apply (sh_tail _ _ _ _ Hs).
  - destruct (sh_lru _ _ _ _ Hs) as [Hnd Hin]. split; [done|]. intros y Hy. rewrite lookup_delete_ne; [by apply Hin|congruence].
  - intros b. destruct (sh_chains _ _ _ _ Hs b) as [Hnd Hin]. split; [done|]. intros y Hy.
    destruct (Hin y Hy) as (j & Hj & Hbj). exists j. split; [|done]. rewrite lookup_delete_ne; [done|]. intros ->. by apply (Hch b).
  - apply (sh_length _ _ _ _ Hs).
Qed.

(** A new entry: not yet linked, then at the head of its chain. *)
Lemma insert_shape p items chains lru x i :
  shape p items chains lru → items !! x = None →
  shape (pl_set_heap (<[x := entry_of (λ _, []) [] x i]> (pl_heap p)) p) (<[x := i]> items) chains lru.
Proof.
  intros Hs Hx.
  assert (Hlru : x ∉ lru) by (intros Hin; apply (sh_lru _ _ _ _ Hs) in Hin as [j Hj]; congruence).
  assert (Hch : ∀ b, x ∉ chains b) by (intros b Hin; apply (sh_chains _ _ _ _ Hs) in Hin as (j & Hj & _); congruence).
  split; cbn_pool.
  - intros y. destruct (decide (x = y)) as [<-|Hne].
    + rewrite !lookup_insert_eq. cbn. f_equal. unfold entry_of. simpl.
      by rewrite (succ_in_notin _ _ Hlru), (pred_in_notin _ _ Hlru), (succ_in_notin _ _ (Hch _)).
    + rewrite !lookup_insert_ne by done. apply (sh_heap _ _ _ _ Hs).
  - apply (sh_buckets _ _ _ _ Hs).
  - apply (sh_head _ _ _ _ Hs).
  - apply (sh_tail _ _ _ _ Hs).
  - destruct (sh_lru _ _ _ _ Hs) as [Hnd Hin]. split; [done|]. intros y Hy. rewrite lookup_insert. case_decide; [by eexists|by apply Hin].
  - intros b. destruct (sh_chains _ _ _ _ Hs b) as [Hnd Hin]. split; [done|]. intros y Hy.
    destruct (Hin y Hy) as (j & Hj & Hbj). exists j. split; [|done]. rewrite lookup_insert_ne; [done|]. intros ->. by apply (Hch b).
  - apply (sh_length _ _ _ _ Hs).
Qed.

Lemma chain_prepend_shape p items chains lru x i :
  shape p items chains lru → items !! x = Some i → x ∉ chains (bucket_of i) →
  ∃ p', (h ← read_link p (LBucket (bucket_of i));
         p ← store x (pe_set_bucket_next h) p;
         write_link (LBucket (bucket_of i)) (Some x) p) = Ok p' ∧
    shape p' items (<[bucket_of i := x :: chains (bucket_of i)]> chains) lru ∧ scalars p' = scalars p.
Proof.
  intros Hs Hi Hx. set (b := bucket_of i) in *.
  assert (Hb : (b < POOL_HASH_BUCKETS)%nat) by apply host_hash_lt.
  pose proof (sh_heap _ _ _ _ Hs x) as Hhx. rewrite Hi in Hhx. cbn in Hhx.
  eexists. split.
  { cbn [read_link]. rewrite (sh_buckets _ _ _ _ Hs b Hb). cbn_pool. unfold store. rewrite Hhx. cbn_pool. reflexivity. }
  split; [|done]. split; cbn_pool.
  - intros y. destruct (decide (x = y)) as [<-|Hne].
    + rewrite lookup_insert_eq, Hi. cbn. f_equal. unfold entry_of, pe_set_bucket_next. simpl. fold b.
      rewrite insert_fn. simpl. by rewrite decide_True.
    + rewrite lookup_insert_ne, (sh_heap _ _ _ _ Hs) by done. destruct (items !! y) as [j|]; [|done]. cbn. f_equal.
      unfold entry_of. f_equal. destruct (decide (bucket_of j = b)) as [->|Hnb]; [|by rewrite insert_fn_ne].
      rewrite insert_fn. simpl. by rewrite decide_False.
  - intros b' Hb'. destruct (decide (b' = b)) as [->|Hne].
    + rewrite insert_fn. apply list_lookup_insert_eq. by apply (lookup_lt_Some _ _ _ (sh_buckets _ _ _ _ Hs _ Hb)).
    + rewrite insert_fn_ne, list_lookup_insert_ne by done. by apply (sh_buckets _ _ _ _ Hs).
  - apply (sh_head _ _ _ _ Hs).
  - apply (sh_tail _ _ _ _ Hs).
  - apply (sh_lru _ _ _ _ Hs).
  - intros b'. destruct (decide (b' = b)) as [->|Hne]; [|rewrite insert_fn_ne by done; apply (sh_chains _ _ _ _ Hs)].
    rewrite insert_fn. destruct (sh_chains _ _ _ _ Hs b) as [Hnd Hin]. split; [by apply list.NoDup_cons|].
    intros y [->|Hy]%elem_of_cons; [by exists i|by apply Hin].
  - rewrite length_insert. apply (sh_length _ _ _ _ Hs).
Qed.
