(* ===== verification/TcpPoolSpec.v ===== *)
(** * Transport: what the pool of connections guarantees

    The pool of [TcpPool.v] against a pool of plain lists: the simulation of every call,
    the sequences of calls of interleaving clients, exclusive use, the limit, the
    destruction, and the cases the code gets wrong. *)

From Stdlib Require Import ZArith Lia.
From stdpp Require Import base list numbers option gmap functions.
From S2P Require Import Prelude CString TcpPool.

Local Open Scope Z_scope.

(** ** The pool without pointers

    [ap_items] are the entries, [ap_age] lists them from the newest to the oldest,
    [ap_lru] from the last used to the one not used for longest. *)
Record apool := APool {
  ap_items : gmap nat item;
  ap_age : list nat;
  ap_lru : list nat;
  ap_max : Z;
  ap_shutting_down : bool;
  ap_hits : Z;
  ap_misses : Z;
  ap_closed : list Z
}.

Definition item_test (t : item → bool) (items : gmap nat item) (x : nat) : bool :=
  match items !! x with Some i => t i | None => false end.
Definition without (x : nat) (l : list nat) : list nat := List.filter (λ y, negb (bool_decide (y = x))) l.

Arguments without : simpl never.

Definition ap_set (items : gmap nat item) (age lru : list nat) (closed : list Z) (a : apool) : apool :=
  APool items age lru (ap_max a) (ap_shutting_down a) (ap_hits a) (ap_misses a) closed.
Definition ap_stats (hits misses : Z) (a : apool) : apool :=
  APool (ap_items a) (ap_age a) (ap_lru a) (ap_max a) (ap_shutting_down a) hits misses (ap_closed a).

Definition reusable_item (host : list Z) (port : Z) (i : item) : bool :=
  negb (it_in_use i) && negb (it_failed i) && (it_port i =? port) && streq (it_host i) host.

(** The newest entry that passes. *)
Definition ap_find (t : item → bool) (a : apool) : option nat := first_such (item_test t (ap_items a)) (ap_age a).

(** Entry [x] is used, or given back, and becomes the last used one. *)
Definition ap_use (in_use : bool) (now : Z) (x : nat) (i : item) (a : apool) : apool :=
  ap_set (<[x := it_set_use in_use now i]> (ap_items a)) (ap_age a) (x :: without x (ap_lru a)) (ap_closed a) a.

(** Entry [x] leaves the pool: its connection is closed unless it failed. *)
Definition ap_drop (x : nat) (i : item) (a : apool) : apool :=
  ap_set (delete x (ap_items a)) (without x (ap_age a)) (without x (ap_lru a))
    (if it_failed i then ap_closed a else ap_closed a ++ [it_conn i]) a.

Definition ap_evict (a : apool) : apool :=
  match first_such (item_test (λ i, negb (it_in_use i)) (ap_items a)) (reverse (ap_lru a)) with
  | Some x => match ap_items a !! x with Some i => ap_drop x i a | None => a end
  | None => a
  end.

Definition ap_acquire_begin (host : list Z) (port now : Z) (a : apool) : acquire_answer * apool :=
  if ap_shutting_down a then (ShuttingDown, a)
  else
    match ap_find (reusable_item host port) a with
    | Some x =>
        match ap_items a !! x with
        | Some i => (Hit (it_conn i), ap_stats (u64 (ap_hits a + 1)) (ap_misses a) (ap_use true now x i a))
        | None => (Miss, a)
        end
    | None => (Miss, ap_stats (ap_hits a) (u64 (ap_misses a + 1)) a)
    end.

Definition ap_acquire_end (host : list Z) (port conn now : Z) (a : apool) : bool * apool :=
  if ap_shutting_down a then
    (false, ap_set (ap_items a) (ap_age a) (ap_lru a) (ap_closed a ++ [conn]) a)
  else
    let a := if ap_max a <=? Z.of_nat (length (ap_age a)) then ap_evict a else a in
    let x := fresh (dom (ap_items a)) in
    (true, ap_set (<[x := Item conn host port now true false]> (ap_items a)) (x :: ap_age a) (x :: ap_lru a) (ap_closed a) a).

Definition ap_release (conn now : Z) (a : apool) : apool :=
  match ap_find (λ i, it_conn i =? conn) a with
  | Some x =>
      match ap_items a !! x with
      | Some i =>
          let a := ap_use false now x i a in
          if it_failed i || (ap_max a <? Z.of_nat (length (ap_age a))) then ap_drop x (it_set_use false now i) a else a
      | None => a
      end
  | None => ap_set (ap_items a) (ap_age a) (ap_lru a) (ap_closed a ++ [conn]) a
  end.

Definition ap_mark_failed (conn : Z) (a : apool) : apool :=
  match ap_find (λ i, it_conn i =? conn) a with
  | Some x =>
      match ap_items a !! x with
      | Some i => ap_set (<[x := it_set_failed i]> (ap_items a)) (ap_age a) (ap_lru a) (ap_closed a) a
      | None => a
      end
  | None => a
  end.

(** ** The relation *)

Definition in_bucket (items : gmap nat item) (b x : nat) : bool := item_test (λ i, bool_decide (bucket_of i = b)) items x.
Definition chains_of (items : gmap nat item) (age : list nat) (b : nat) : list nat := List.filter (in_bucket items b) age.

Record apool_wf (a : apool) : Prop := {
  aw_age : NoDup (ap_age a);
  aw_lru : NoDup (ap_lru a);
  aw_same x : x ∈ ap_lru a ↔ x ∈ ap_age a;
  aw_items x : is_Some (ap_items a !! x) ↔ x ∈ ap_age a;
  aw_conns x y i j : ap_items a !! x = Some i → ap_items a !! y = Some j → it_conn i = it_conn j → x = y;
  aw_size : Z.of_nat (length (ap_age a)) < 2 ^ 64
}.

Record refines (p : tcp_pool) (a : apool) : Prop := {
  rf_shape : shape p (ap_items a) (chains_of (ap_items a) (ap_age a)) (ap_lru a);
  rf_scalars : scalars p = (ap_max a, Z.of_nat (length (ap_age a)), pl_connect_timeout_ms p, ap_shutting_down a,
    ap_hits a, ap_misses a, ap_closed a);
  rf_wf : apool_wf a
}.

(** *** Lists *)

Lemma shape_ext p items chains chains' lru :
  (∀ b, chains b = chains' b) → shape p items chains lru → shape p items chains' lru.
Proof.
  intros He Hs. split.
  - intros x. rewrite (sh_heap _ _ _ _ Hs). destruct (items !! x); [|done]. cbn. unfold entry_of. by rewrite He.
  - intros b Hb. rewrite <- He. by apply (sh_buckets _ _ _ _ Hs).
  - apply (sh_head _ _ _ _ Hs).
  - apply (sh_tail _ _ _ _ Hs).
  - apply (sh_lru _ _ _ _ Hs).
  - intros b. rewrite <- He. apply (sh_chains _ _ _ _ Hs).
  - apply (sh_length _ _ _ _ Hs).
Qed.

Lemma elem_of_filter_bool (t : nat → bool) l x : x ∈ List.filter t l ↔ t x = true ∧ x ∈ l.
Proof. rewrite !list_elem_of_In, filter_In. tauto. Qed.

Lemma NoDup_filter_bool (t : nat → bool) l : NoDup l → NoDup (List.filter t l).
Proof. intros Hl. rewrite NoDup_ListNoDup in *. by apply NoDup_filter. Qed.

Lemma elem_of_without x y l : y ∈ without x l ↔ y ≠ x ∧ y ∈ l.
Proof. unfold without. rewrite elem_of_filter_bool. by case_bool_decide; naive_solver. Qed.

Lemma without_notin x l : x ∉ l → without x l = l.
Proof.
  intros Hx. induction l as [|y l IH]; [done|]. apply not_elem_of_cons in Hx as [Hne Hx]. unfold without in *. simpl.
  rewrite bool_decide_eq_false_2 by done. simpl. by rewrite IH.
Qed.

Lemma without_split x l1 l2 : NoDup (l1 ++ x :: l2) → without x (l1 ++ x :: l2) = l1 ++ l2.
Proof.
  intros Hnd. apply list.NoDup_app in Hnd as (_ & Hd & Hnd2). apply list.NoDup_cons in Hnd2 as [Hx2 _].
  assert (Hx1 : x ∉ l1) by (intros Hx; apply (Hd x Hx); by left).
  unfold without. rewrite List.filter_app. simpl. rewrite bool_decide_eq_true_2 by done. simpl.
  f_equal; by apply without_notin.
Qed.

Lemma length_without x l : NoDup l → x ∈ l → length l = S (length (without x l)).
Proof.
  intros Hnd Hx. apply list_elem_of_split in Hx as (l1 & l2 & ->). rewrite without_split by done.
  rewrite !length_app. simpl. lia.
Qed.

Lemma NoDup_without x l : NoDup l → NoDup (without x l).
Proof. apply NoDup_filter_bool. Qed.

Lemma filter_without (t : nat → bool) x l : List.filter t (without x l) = without x (List.filter t l).
Proof.
  unfold without. induction l as [|y l IH]; [done|]. simpl.
  destruct (bool_decide (y = x)) eqn:Hy, (t y) eqn:Ht; simpl; rewrite ?Hy, ?Ht; simpl; by rewrite IH.
Qed.

Lemma first_such_None t l : (∀ y, y ∈ l → t y = false) → first_such t l = None.
Proof.
  intros Hl. unfold first_such. destruct (List.filter t l) as [|y l'] eqn:Hf; [done|].
  assert (Hy : y ∈ List.filter t l) by (rewrite Hf; by left). apply elem_of_filter_bool in Hy as [Hy Hin].
  rewrite Hl in Hy; done.
Qed.

Lemma first_such_elem t l x : first_such t l = Some x → t x = true ∧ x ∈ l.
Proof. unfold first_such. intros Hf. apply head_Some_elem_of in Hf. by apply elem_of_filter_bool in Hf. Qed.

Lemma first_such_absent t l : first_such t l = None → ∀ y, y ∈ l → t y = false.
Proof.
  unfold first_such. intros Hf y Hy. destruct (t y) eqn:Ht; [|done].
  assert (Hin : y ∈ List.filter t l) by by apply elem_of_filter_bool. destruct (List.filter t l); [by apply elem_of_nil in Hin|done].
Qed.

Lemma first_such_ext t t' l : (∀ y, y ∈ l → t y = t' y) → first_such t l = first_such t' l.
Proof.
  intros He. unfold first_such. f_equal. apply filter_ext_in. intros y Hy. by apply He, list_elem_of_In.
Qed.

(** A test that only entries of one bucket pass. *)
Lemma first_such_filter t q l :
  (∀ y, y ∈ l → t y = true → q y = true) → first_such t (List.filter q l) = first_such t l.
Proof.
  intros Hq. unfold first_such. induction l as [|y l IH]; [done|]. simpl.
  assert (IH' : head (List.filter t (List.filter q l)) = head (List.filter t l)).
  { apply IH. intros z Hz. apply Hq. by right. }
  destruct (t y) eqn:Ht.
  - rewrite Hq by (by left || done). simpl. by rewrite Ht.
  - destruct (q y); simpl; rewrite ?Ht; done.
Qed.

(** ** Simulation *)

Section simulation.
Implicit Types (p : tcp_pool) (a : apool).

Lemma refines_max p a : refines p a → pl_max_connections p = ap_max a.
Proof. intros Hr. pose proof (rf_scalars _ _ Hr) as He. unfold scalars in He. congruence. Qed.
Lemma refines_size p a : refines p a → pl_current_size p = Z.of_nat (length (ap_age a)).
Proof. intros Hr. pose proof (rf_scalars _ _ Hr) as He. unfold scalars in He. congruence. Qed.
Lemma refines_down p a : refines p a → pl_shutting_down p = ap_shutting_down a.
Proof. intros Hr. pose proof (rf_scalars _ _ Hr) as He. unfold scalars in He. congruence. Qed.
Lemma refines_stats p a : refines p a → pl_hits p = ap_hits a ∧ pl_misses p = ap_misses a ∧ pl_closed p = ap_closed a.
Proof. intros Hr. pose proof (rf_scalars _ _ Hr) as He. unfold scalars in He. split_and!; congruence. Qed.

Lemma shape_passing p items chains lru test t x :
  shape p items chains lru → (∀ i, test (entry_of chains lru x i) = t i) → passing test p x = item_test t items x.
Proof. intros Hs Ht. unfold passing, item_test. rewrite (sh_heap _ _ _ _ Hs). destruct (items !! x); [apply Ht|done]. Qed.

Lemma elem_of_chain items age b x : x ∈ chains_of items age b ↔ x ∈ age ∧ ∃ i, items !! x = Some i ∧ bucket_of i = b.
Proof.
  unfold chains_of. rewrite elem_of_filter_bool. unfold in_bucket, item_test.
  destruct (items !! x) as [i|]; [rewrite bool_decide_eq_true|]; naive_solver.
Qed.

(** Changing the contents of an entry, not its bucket, keeps the chains. *)
Lemma chains_update items age x i j b :
  items !! x = Some i → bucket_of j = bucket_of i → chains_of (<[x := j]> items) age b = chains_of items age b.
Proof.
  intros Hi Hj. unfold chains_of. apply filter_ext. intros y. unfold in_bucket, item_test.
  destruct (decide (x = y)) as [<-|Hne]; [by rewrite lookup_insert_eq, Hi, Hj|by rewrite lookup_insert_ne].
Qed.

Lemma chains_delete items age x b :
  chains_of (delete x items) (without x age) b = without x (chains_of items age b).
Proof.
  unfold chains_of. rewrite <- filter_without. apply filter_ext_in. intros y Hy%list_elem_of_In.
  rewrite elem_of_without in Hy. destruct Hy as [Hne _].
  unfold in_bucket, item_test. by rewrite lookup_delete_ne.
Qed.

Lemma chains_insert items age x i b :
  items !! x = None → x ∉ age →
  chains_of (<[x := i]> items) (x :: age) b =
    if decide (b = bucket_of i) then x :: chains_of items age b else chains_of items age b.
Proof.
  intros Hx Ha. unfold chains_of. simpl. unfold in_bucket at 1, item_test. rewrite lookup_insert_eq.
  assert (Hrest : List.filter (in_bucket (<[x := i]> items) b) age = List.filter (in_bucket items b) age).
  { apply filter_ext_in. intros y Hy%list_elem_of_In. unfold in_bucket, item_test. rewrite lookup_insert_ne; [done|congruence]. }
  rewrite Hrest. case_decide as Hd; [by rewrite bool_decide_eq_true_2|]. by rewrite bool_decide_eq_false_2.
Qed.

(** *** The walks *)

Lemma find_reusable p a host port :
  refines p a →
  (x ← read_link p (LBucket (host_hash host port)); walk (walk_fuel p) pe_bucket_next (reusable host port) p x) =
    Ok (ap_find (reusable_item host port) a).
Proof.
  intros Hr. pose proof (rf_shape _ _ Hr) as Hs. cbn [read_link].
  rewrite (sh_buckets _ _ _ _ Hs) by apply host_hash_lt. cbn [mbind result_bind]. rewrite (walk_chain _ _ _ _ _ _ Hs).
  f_equal. unfold ap_find.
  rewrite (first_such_ext _ (item_test (reusable_item host port) (ap_items a))).
  2:{ intros y _. by apply (shape_passing _ _ _ _ _ _ _ Hs). }
  apply first_such_filter. intros y _. unfold in_bucket, item_test. destruct (ap_items a !! y) as [i|]; [|done].
  unfold reusable_item. rewrite !andb_true_iff. intros [[_ Hport%Z.eqb_eq] Hhost].
  apply bool_decide_eq_true in Hhost. apply bool_decide_eq_true. unfold bucket_of. congruence.
Qed.

Lemma find_idle p a :
  refines p a →
  walk (walk_fuel p) pe_lru_prev (λ c, negb (pe_in_use c)) p (pl_lru_tail p) =
    Ok (first_such (item_test (λ i, negb (it_in_use i)) (ap_items a)) (reverse (ap_lru a))).
Proof.
  intros Hr. pose proof (rf_shape _ _ Hr) as Hs. rewrite (sh_tail _ _ _ _ Hs), (walk_lru _ _ _ _ _ Hs).
  f_equal. apply first_such_ext. intros y _. by apply (shape_passing _ _ _ _ _ _ _ Hs).
Qed.

(** The entry of a connection, if its bucket is not below [b]. *)
Definition conn_from (conn : Z) (b : nat) (i : item) : bool := (it_conn i =? conn) && (b <=? bucket_of i)%nat.
Definition find_from (conn : Z) (b : nat) a : option nat := first_such (item_test (conn_from conn b) (ap_items a)) (ap_age a).

Lemma one_entry a conn b x y :
  apool_wf a → item_test (λ i, it_conn i =? conn) (ap_items a) x = true →
  item_test (conn_from conn b) (ap_items a) y = true → x = y.
Proof.
  intros Hwf. unfold item_test, conn_from.
  destruct (ap_items a !! x) as [i|] eqn:Hi, (ap_items a !! y) as [j|] eqn:Hj; try done.
  intros H1%Z.eqb_eq [H2%Z.eqb_eq _]%andb_true_iff.
  exact (aw_conns _ Hwf x y i j Hi Hj (eq_trans H1 (eq_sym H2))).
Qed.

Lemma find_from_chain a conn b :
  apool_wf a →
  match first_such (item_test (λ i, it_conn i =? conn) (ap_items a)) (chains_of (ap_items a) (ap_age a) b) with
  | Some x => find_from conn b a = Some x ∧ find_from conn (S b) a = None ∧
      ∃ i, ap_items a !! x = Some i ∧ it_conn i = conn ∧ bucket_of i = b
  | None => find_from conn b a = find_from conn (S b) a
  end.
Proof.
  intros Hwf. destruct (first_such _ (chains_of _ _ b)) as [x|] eqn:Hf.
  - apply first_such_elem in Hf as [Ht Hin]. apply elem_of_chain in Hin as [Hin (i & Hi & Hbi)].
    assert (Hci : it_conn i = conn) by (unfold item_test in Ht; rewrite Hi in Ht; by apply Z.eqb_eq).
    split; [|split; [|by exists i]].
    + unfold find_from. destruct (first_such _ (ap_age a)) as [y|] eqn:Hy.
      * apply first_such_elem in Hy as [Hty _]. f_equal. symmetry. by apply (one_entry a conn b).
      * pose proof (first_such_absent _ _ Hy x Hin) as Hno. unfold item_test, conn_from in Hno. rewrite Hi in Hno.
        rewrite Hci, Z.eqb_refl, (proj2 (Nat.leb_le _ _)) in Hno by lia. done.
    + apply first_such_None. intros y _. destruct (item_test (conn_from conn (S b)) (ap_items a) y) eqn:Hy; [|done].
      pose proof (one_entry _ _ _ _ _ Hwf Ht Hy) as <-. unfold item_test, conn_from in Hy. rewrite Hi in Hy.
      apply andb_true_iff in Hy as [_ Hy%Nat.leb_le]. lia.
  - unfold find_from. apply first_such_ext. intros y Hy. unfold item_test, conn_from.
    destruct (ap_items a !! y) as [i|] eqn:Hi; [|done]. destruct (it_conn i =? conn) eqn:Hc; [|done]. cbn [andb].
    destruct (decide (bucket_of i = b)) as [Hbi|Hbi].
    + assert (Hin : y ∈ chains_of (ap_items a) (ap_age a) b) by (apply elem_of_chain; split; [done|by exists i]).
      pose proof (first_such_absent _ _ Hf y Hin) as Hno. unfold item_test in Hno. rewrite Hi in Hno. congruence.
    + destruct (Nat.leb_spec b (bucket_of i)), (Nat.leb_spec (S b) (bucket_of i)); done || lia.
Qed.

Lemma find_from_end conn a b : (POOL_HASH_BUCKETS ≤ b)%nat → find_from conn b a = None.
Proof.
  intros Hb. apply first_such_None. intros y _. unfold item_test, conn_from. destruct (ap_items a !! y) as [i|]; [|done].
  rewrite (proj2 (Nat.leb_gt _ _)); [apply andb_false_r|].
  pose proof (host_hash_lt (it_host i) (it_port i)). unfold bucket_of. lia.
Qed.

Lemma find_from_0 conn a : find_from conn 0 a = ap_find (λ i, it_conn i =? conn) a.
Proof.
  unfold find_from, ap_find. apply first_such_ext. intros y _. unfold item_test. destruct (ap_items a !! y); [|done].
  apply andb_true_r.
Qed.

(** One bucket of a loop over all of them. *)
Lemma walk_bucket p a conn b :
  refines p a → (b < POOL_HASH_BUCKETS)%nat →
  ∃ h, pl_buckets p !! b = Some h ∧
    walk (walk_fuel p) pe_bucket_next (λ c, pe_conn c =? conn) p h =
      Ok (first_such (item_test (λ i, it_conn i =? conn) (ap_items a)) (chains_of (ap_items a) (ap_age a) b)).
Proof.
  intros Hr Hb. pose proof (rf_shape _ _ Hr) as Hs. eexists. split; [by apply (sh_buckets _ _ _ _ Hs)|].
  rewrite (walk_chain _ _ _ _ _ _ Hs). f_equal. apply first_such_ext. intros y _.
  by apply (shape_passing _ _ _ _ _ _ _ Hs).
Qed.

Lemma find_conn_loop p a conn : refines p a → ∀ k b,
  (k + b = POOL_HASH_BUCKETS)%nat → find_conn (drop b (pl_buckets p)) conn p = Ok (find_from conn b a).
Proof.
  intros Hr. induction k as [|k IH]; intros b Hb.
  { rewrite find_from_end by lia. rewrite drop_ge by (rewrite (sh_length _ _ _ _ (rf_shape _ _ Hr)); lia). done. }
  destruct (walk_bucket p a conn b Hr) as (h & Hh & Hw); [lia|]. rewrite (drop_S _ h) by done.
  cbn [find_conn]. rewrite Hw. cbn [mbind result_bind]. pose proof (find_from_chain a conn b (rf_wf _ _ Hr)) as Hf.
  destruct (first_such _ (chains_of _ _ b)) as [x|]; [by destruct Hf as [-> _]|]. by rewrite (IH (S b)), Hf by lia.
Qed.

Lemma find_conn_spec p a conn :
  refines p a → find_conn (pl_buckets p) conn p = Ok (ap_find (λ i, it_conn i =? conn) a).
Proof.
  intros Hr. rewrite <- (drop_0 (pl_buckets p)), <- find_from_0. by apply (find_conn_loop p a conn Hr POOL_HASH_BUCKETS).
Qed.

(** *** Using and dropping an entry *)

Lemma lru_touch_shape p items chains lru x :
  shape p items chains lru → x ∈ lru →
  ∃ p', lru_touch p x = Ok p' ∧ shape p' items chains (x :: without x lru) ∧ scalars p' = scalars p ∧
    pl_buckets p' = pl_buckets p.
Proof.
  intros Hs Hx. pose proof (sh_lru _ _ _ _ Hs) as [Hnd Hin]. unfold lru_touch. rewrite (sh_head _ _ _ _ Hs).
  apply list_elem_of_split in Hx as (l1 & l2 & ->). rewrite without_split by done.
  case_decide as Hd.
  - destruct l1 as [|z l1]; [by exists p|]. simpl in Hd. injection Hd as ->. simpl in Hnd.
    apply list.NoDup_cons in Hnd as [Hx _]. destruct Hx. apply elem_of_app. right. by left.
  - destruct (lru_remove_shape _ _ _ _ _ _ Hs) as (p1 & -> & Hs1 & Hsc1 & Hb1). cbn [mbind result_bind].
    destruct (lru_prepend_shape _ _ _ _ x Hs1) as (p2 & -> & Hs2 & Hsc2 & Hb2).
    + apply list.NoDup_app in Hnd as (_ & Hd1 & Hnd2). apply list.NoDup_cons in Hnd2 as [Hx2 _].
      intros [Hx1|?]%elem_of_app; [apply (Hd1 x Hx1); by left|done].
    + apply Hin, elem_of_app. right. by left.
    + exists p2. split_and!; [done|done|congruence|congruence].
Qed.

Lemma ap_use_wf u now x i a : apool_wf a → ap_items a !! x = Some i → apool_wf (ap_use u now x i a).
Proof.
  intros [Ha Hl Hsame Hit Hc Hsz] Hi. split; cbn [ap_use ap_set ap_items ap_age ap_lru].
  - done.
  - apply list.NoDup_cons. split; [rewrite elem_of_without; tauto|by apply NoDup_without].
  - intros y. rewrite elem_of_cons, elem_of_without, Hsame. assert (x ∈ ap_age a) by (apply Hit; by exists i).
    destruct (decide (y = x)) as [->|]; tauto.
  - intros y. rewrite <- Hit, lookup_insert. case_decide as Hd; [subst y; rewrite Hi; split; intros _; by eexists|done].
  - intros y z j k. rewrite !lookup_insert. repeat case_decide; intros; simplify_eq; try done; subst.
    + symmetry. by eapply (Hc z y); [done..|].
    + by eapply Hc.
    + by eapply Hc.
  - done.
Qed.

Lemma use_refines p a u now x i :
  refines p a → ap_items a !! x = Some i →
  ∃ p1 p', store x (pe_set_use u now) p = Ok p1 ∧ lru_touch p1 x = Ok p' ∧ refines p' (ap_use u now x i a).
Proof.
  intros Hr Hi. pose proof (rf_shape _ _ Hr) as Hs. pose proof (rf_wf _ _ Hr) as Hwf.
  destruct (store_shape _ _ _ _ _ _ (it_set_use u now) (pe_set_use u now) Hs Hi) as (p1 & Hp1 & Hs1 & Hsc1 & Hb1); [done|done|].
  assert (Hx : x ∈ ap_lru a) by (apply (aw_same _ Hwf), (aw_items _ Hwf); by exists i).
  destruct (lru_touch_shape _ _ _ _ _ Hs1 Hx) as (p2 & Hp2 & Hs2 & Hsc2 & Hb2).
  exists p1, p2. split; [done|]. split; [done|]. split.
  - eapply shape_ext; [|exact Hs2]. intros b. symmetry. by apply chains_update with i.
  - rewrite Hsc2, Hsc1, (rf_scalars _ _ Hr). cbn. pose proof (f_equal (λ t, t.1.1.1.1.2) (eq_trans Hsc2 Hsc1)) as Ht.
    cbn in Ht. by rewrite Ht.
  - by apply ap_use_wf.
Qed.

Lemma ap_drop_wf x i a : apool_wf a → ap_items a !! x = Some i → apool_wf (ap_drop x i a).
Proof.
  intros [Ha Hl Hsame Hit Hc Hsz] Hi. split; cbn [ap_drop ap_set ap_items ap_age ap_lru].
  - by apply NoDup_without.
  - by apply NoDup_without.
  - intros y. by rewrite !elem_of_without, Hsame.
  - intros y. rewrite elem_of_without, <- Hit, lookup_delete. case_decide as Hd; [|naive_solver].
    split; [intros [? [=]]|naive_solver].
  - intros y z j k. rewrite !lookup_delete. repeat case_decide; try done. apply Hc.
  - assert (x ∈ ap_age a) by (apply Hit; by exists i). rewrite (length_without x (ap_age a)) in Hsz by done. lia.
Qed.

(** Taking an entry out of both structures and freeing it. *)
Definition drop_entry p x : result tcp_pool :=
  p ← lru_remove p x;
  p ← bucket_remove p x;
  entry_free (pl_set_size (u64 (pl_current_size p - 1)) p) x.

Lemma shape_size p items chains lru n : shape p items chains lru → shape (pl_set_size n p) items chains lru.
Proof. intros []; by split. Qed.

Lemma shape_close p items chains lru c : shape p items chains lru → shape (pl_close c p) items chains lru.
Proof. intros []; by split. Qed.

Lemma drop_refines p a x i :
  refines p a → ap_items a !! x = Some i → ∃ p', drop_entry p x = Ok p' ∧ refines p' (ap_drop x i a).
Proof.
  intros Hr Hi. pose proof (rf_shape _ _ Hr) as Hs. pose proof (rf_wf _ _ Hr) as Hwf.
  set (items := ap_items a) in *. set (chains := chains_of items (ap_age a)) in *.
  assert (Hxa : x ∈ ap_age a) by (apply (aw_items _ Hwf); by exists i).
  assert (Hxl : x ∈ ap_lru a) by by apply (aw_same _ Hwf).
  assert (Hxc : x ∈ chains (bucket_of i)) by (apply elem_of_chain; split; [done|by exists i]).
  pose proof (aw_lru _ Hwf) as Hndl. pose proof (sh_chains _ _ _ _ Hs (bucket_of i)) as [Hndc _].
  apply list_elem_of_split in Hxl as (l1 & l2 & Hl). apply list_elem_of_split in Hxc as (c1 & c2 & Hc).
  rewrite Hl in Hs, Hndl. destruct (lru_remove_shape _ _ _ _ _ _ Hs) as (p1 & Hp1 & Hs1 & Hsc1 & Hb1).
  destruct (bucket_remove_shape _ _ _ _ _ _ _ _ Hs1 Hi Hc) as (p2 & Hp2 & Hs2 & Hsc2).
  unfold drop_entry. rewrite Hp1. cbn [mbind result_bind]. rewrite Hp2. cbn [mbind result_bind].
  set (n := u64 (pl_current_size p2 - 1)). pose proof (shape_size _ _ _ _ n Hs2) as Hs3.
  unfold entry_free. rewrite (load_shape _ _ _ _ _ _ Hs3 Hi). cbn [mbind result_bind].
  change (pe_failed (entry_of _ _ _ _)) with (it_failed i). change (pe_conn (entry_of _ _ _ _)) with (it_conn i).
  set (p4 := if negb (it_failed i) then pl_close (it_conn i) (pl_set_size n p2) else pl_set_size n p2).
  assert (Hs4 : shape p4 items (<[bucket_of i := c1 ++ c2]> chains) (l1 ++ l2)).
  { unfold p4. destruct (negb (it_failed i)); [by apply shape_close|done]. }
  eexists. split; [reflexivity|].
  assert (Hch : ∀ b, (<[bucket_of i := c1 ++ c2]> chains) b = chains_of (delete x items) (without x (ap_age a)) b).
  { intros b. rewrite chains_delete. fold chains. destruct (decide (b = bucket_of i)) as [->|Hne].
    - rewrite insert_fn, Hc, without_split; [done|by rewrite <- Hc].
    - rewrite insert_fn_ne by done. symmetry. apply without_notin. intros (_ & j & Hj & Hbj)%elem_of_chain.
      unfold items in *. congruence. }
  assert (Hsc : scalars p2 = scalars p) by congruence.
  assert (Hlen : Z.of_nat (length (ap_age a)) = Z.of_nat (length (without x (ap_age a))) + 1).
  { rewrite (length_without x (ap_age a)) by (done || apply (aw_age _ Hwf)). lia. }
  pose proof (aw_size _ Hwf) as Hsz. rewrite (rf_scalars _ _ Hr) in Hsc. unfold scalars in Hsc. injection Hsc as H1 H2 H3 H4 H5 H6 H7.
  split.
  - cbn [ap_drop ap_set ap_items ap_age ap_lru]. rewrite Hl, without_split by done.
    eapply shape_ext; [apply Hch|]. fold items. apply delete_shape; [done| |].
    + intros Hin. assert (Hno : x ∉ without x (l1 ++ x :: l2)) by (rewrite elem_of_without; tauto).
      apply Hno. by rewrite without_split.
    + intros b. rewrite Hch, chains_delete, elem_of_without. tauto.
  - assert (Hn : n = Z.of_nat (length (without x (ap_age a)))).
    { unfold n. rewrite H2, Hlen, u64_id by ulia. lia. }
    unfold scalars, p4. cbn [ap_drop ap_set]. destruct (it_failed i) eqn:Hfail; cbn_pool; cbn; rewrite ?Hfail, ?H1, ?H4, ?H5, ?H6, ?H7, Hn; done.
  - by apply ap_drop_wf.
Qed.

Lemma drop_steps p a x i :
  refines p a → ap_items a !! x = Some i →
  ∃ p1 p2 p', lru_remove p x = Ok p1 ∧ bucket_remove p1 x = Ok p2 ∧
    entry_free (pl_set_size (u64 (pl_current_size p2 - 1)) p2) x = Ok p' ∧ refines p' (ap_drop x i a).
Proof.
  intros Hr Hi. destruct (drop_refines p a x i Hr Hi) as (p' & Hd & Hr'). unfold drop_entry in Hd.
  apply bind_ok in Hd as (p1 & H1 & Hd). apply bind_ok in Hd as (p2 & H2 & H3). by exists p1, p2, p'.
Qed.

Lemma item_test_Some t items x : item_test t items x = true → ∃ i, items !! x = Some i ∧ t i = true.
Proof. unfold item_test. destruct (items !! x) as [i|]; [by exists i|done]. Qed.

Lemma ap_find_Some t a x : ap_find t a = Some x → ∃ i, ap_items a !! x = Some i ∧ t i = true.
Proof. intros Hf. apply first_such_elem in Hf as [Ht _]. by apply item_test_Some. Qed.

Lemma evict_refines p a : refines p a → ∃ b p', evict_lru_idle p = Ok (b, p') ∧ refines p' (ap_evict a).
Proof.
  intros Hr. unfold evict_lru_idle, ap_evict. rewrite (find_idle _ _ Hr). cbn [mbind result_bind].
  destruct (first_such _ _) as [x|] eqn:Hf; [|by exists false, p].
  apply first_such_elem in Hf as [Ht _]. apply item_test_Some in Ht as (i & Hi & _). rewrite Hi.
  destruct (drop_steps p a x i Hr Hi) as (p1 & p2 & p' & H1 & H2 & H3 & Hr'). exists true, p'.
  rewrite H1. cbn [mbind result_bind]. rewrite H2. cbn [mbind result_bind]. by rewrite H3.
Qed.

Lemma refines_stats_set p a h m : refines p a → refines (pl_set_stats h m p) (ap_stats h m a).
Proof.
  intros [Hs Hsc Hwf]. split.
  - destruct Hs; by split.
  - unfold scalars in *. cbn_pool. cbn [ap_stats ap_max ap_age ap_shutting_down ap_hits ap_misses ap_closed]. congruence.
  - destruct Hwf; by split.
Qed.

Lemma refines_close p a c :
  refines p a → refines (pl_close c p) (ap_set (ap_items a) (ap_age a) (ap_lru a) (ap_closed a ++ [c]) a).
Proof.
  intros [Hs Hsc Hwf]. split.
  - destruct Hs; by split.
  - unfold scalars in *. cbn_pool. cbn. congruence.
  - destruct Hwf; by split.
Qed.

Lemma acquire_begin_refines p a host port now :
  refines p a →
  ∃ p', tcp_pool_acquire_begin host port now p = Ok ((ap_acquire_begin host port now a).1, p') ∧
    refines p' (ap_acquire_begin host port now a).2.
Proof.
  intros Hr. unfold tcp_pool_acquire_begin, ap_acquire_begin. rewrite (refines_down _ _ Hr).
  destruct (ap_shutting_down a); [by exists p|].
  pose proof (find_reusable p a host port Hr) as Hf. apply bind_ok in Hf as (x0 & Hx0 & Hf). rewrite Hx0. cbn [mbind result_bind].
  rewrite Hf. cbn [mbind result_bind]. destruct (refines_stats _ _ Hr) as (Hh & Hm & _).
  destruct (ap_find _ a) as [x|] eqn:Hx.
  - destruct (ap_find_Some _ _ _ Hx) as (i & Hi & _). rewrite Hi.
    destruct (use_refines p a true now x i Hr Hi) as (p1 & p2 & H1 & H2 & Hr2).
    rewrite H1. cbn [mbind result_bind]. rewrite H2. cbn [mbind result_bind].
    assert (Hi2 : ap_items (ap_use true now x i a) !! x = Some (it_set_use true now i)) by apply lookup_insert_eq.
    rewrite (load_shape _ _ _ _ _ _ (rf_shape _ _ Hr2) Hi2). cbn [mbind result_bind]. eexists. split; [reflexivity|].
    destruct (refines_stats _ _ Hr2) as (-> & -> & _). by apply refines_stats_set.
  - eexists. split; [reflexivity|]. rewrite Hh, Hm. by apply refines_stats_set.
Qed.

Definition pool_host_ok (host : list Z) : Prop := (length host ≤ 255)%nat.

Lemma ap_insert_wf x i a :
  apool_wf a → ap_items a !! x = None → (∀ y j, ap_items a !! y = Some j → it_conn j ≠ it_conn i) →
  Z.of_nat (length (ap_age a)) + 1 < 2 ^ 64 →
  apool_wf (ap_set (<[x := i]> (ap_items a)) (x :: ap_age a) (x :: ap_lru a) (ap_closed a) a).
Proof.
  intros [Ha Hl Hsame Hit Hc Hsz] Hx Hconn Hlen.
  assert (Hxa : x ∉ ap_age a) by (rewrite <- Hit, Hx; by intros [? [=]]).
  split; cbn [ap_set ap_items ap_age ap_lru].
  - by apply list.NoDup_cons.
  - apply list.NoDup_cons. by rewrite Hsame.
  - intros y. by rewrite !elem_of_cons, Hsame.
  - intros y. rewrite elem_of_cons, lookup_insert, <- Hit. case_decide as Hd; [subst y|].
    + split; [by left|by eexists].
    + split; [by right|]. by intros [->|?].
  - intros y z j k. rewrite !lookup_insert. repeat case_decide; intros; simplify_eq; try done; try (by eapply Hc).
    + exfalso. by eapply Hconn.
    + exfalso. by eapply Hconn.
  - cbn [length]. lia.
Qed.

Lemma insert_refines p a host port conn now :
  refines p a → pool_host_ok host → (∀ y j, ap_items a !! y = Some j → it_conn j ≠ conn) →
  Z.of_nat (length (ap_age a)) + 1 < 2 ^ 64 →
  let x := fresh (dom (pl_heap p)) in
  let entry := PoolEntry conn (strncpy 255 host) port now true false None None None in
  let p0 := pl_set_heap (<[x := entry]> (pl_heap p)) p in
  ∃ p1 p2, (h ← read_link p0 (LBucket (host_hash host port));
      p ← store x (pe_set_bucket_next h) p0; write_link (LBucket (host_hash host port)) (Some x) p) = Ok p1 ∧
    lru_prepend p1 x = Ok p2 ∧
    refines (pl_set_size (u64 (pl_current_size p2 + 1)) p2)
      (ap_set (<[fresh (dom (ap_items a)) := Item conn host port now true false]> (ap_items a))
         (fresh (dom (ap_items a)) :: ap_age a) (fresh (dom (ap_items a)) :: ap_lru a) (ap_closed a) a).
Proof.
  intros Hr Hh Hconn Hlen. pose proof (rf_shape _ _ Hr) as Hs. pose proof (rf_wf _ _ Hr) as Hwf.
  assert (Hdom : dom (pl_heap p) = dom (ap_items a)).
  { apply set_eq. intros y. rewrite !elem_of_dom, (sh_heap _ _ _ _ Hs). apply fmap_is_Some. }
  rewrite Hdom. set (x := fresh (dom (ap_items a))). cbv zeta.
  assert (Hx : ap_items a !! x = None) by (apply not_elem_of_dom, is_fresh).
  assert (Hxa : x ∉ ap_age a) by (rewrite <- (aw_items _ Hwf), Hx; by intros [? [=]]).
  set (i := Item conn host port now true false).
  assert (strncpy 255 host = host) as -> by (apply take_ge, Hh).
  pose proof (insert_shape _ _ _ _ x i Hs Hx) as Hs0.
  change (entry_of (λ _, []) [] x i) with (PoolEntry conn host port now true false None None None) in Hs0.
  destruct (chain_prepend_shape _ _ _ _ x i Hs0) as (p1 & Hp1 & Hs1 & Hsc1).
  { apply lookup_insert_eq. }
  { rewrite elem_of_chain. tauto. }
  change (host_hash host port) with (bucket_of i). rewrite Hp1.
  destruct (lru_prepend_shape _ _ _ _ x Hs1) as (p2 & Hp2 & Hs2 & Hsc2 & _).
  { rewrite (aw_same _ Hwf). done. }
  { rewrite lookup_insert_eq. by eexists. }
  exists p1, p2. split; [done|]. split; [done|].
  pose proof (rf_scalars _ _ Hr) as Hsc. unfold scalars in Hsc, Hsc1, Hsc2. cbn_pool_in Hsc1.
  injection Hsc as H1 H2 H3 H4 H5 H6. injection Hsc1 as A1 A2 A3 A4 A5 A6 A7. injection Hsc2 as B1 B2 B3 B4 B5 B6 B7.
  split.
  - apply shape_size. eapply shape_ext; [|exact Hs2]. intros b. cbn [ap_set ap_items ap_age].
    rewrite chains_insert by done. destruct (decide (b = bucket_of i)) as [->|Hne]; [by rewrite insert_fn|by rewrite insert_fn_ne].
  - unfold scalars. cbn_pool. cbn [ap_set ap_max ap_age ap_shutting_down ap_hits ap_misses ap_closed length].
    rewrite B1, B2, B4, B5, B6, B7, A1, A2, A4, A5, A6, A7, H1, H2, H3, H4, H5, H6.
    rewrite u64_id by ulia. do 6 f_equal. lia.
  - by apply ap_insert_wf.
Qed.

Lemma acquire_end_refines p a host port conn now :
  refines p a → pool_host_ok host → (∀ y j, ap_items a !! y = Some j → it_conn j ≠ conn) →
  Z.of_nat (length (ap_age a)) + 1 < 2 ^ 64 →
  ∃ p', tcp_pool_acquire_end host port conn now p = Ok ((ap_acquire_end host port conn now a).1, p') ∧
    refines p' (ap_acquire_end host port conn now a).2.
Proof.
  intros Hr Hh Hconn Hlen. unfold tcp_pool_acquire_end, ap_acquire_end.
  rewrite (refines_down _ _ Hr). destruct (ap_shutting_down a).
  { eexists. split; [reflexivity|]. by apply refines_close. }
  rewrite (refines_max _ _ Hr), (refines_size _ _ Hr).
  assert (He : ∃ p0, (if ap_max a <=? Z.of_nat (length (ap_age a)) then r ← evict_lru_idle p; Ok r.2 else Ok p) = Ok p0 ∧
    refines p0 (if ap_max a <=? Z.of_nat (length (ap_age a)) then ap_evict a else a)).
  { destruct (_ <=? _); [|by exists p]. destruct (evict_refines p a Hr) as (b & p0 & -> & Hr0). by exists p0. }
  destruct He as (p0 & -> & Hr0). cbn [mbind result_bind].
  set (a0 := if ap_max a <=? Z.of_nat (length (ap_age a)) then ap_evict a else a) in *.
  assert (Hsub : ap_items a0 ⊆ ap_items a ∧ (length (ap_age a0) ≤ length (ap_age a))%nat).
  { unfold a0. destruct (_ <=? _); [|done]. unfold ap_evict. repeat case_match; try done. cbn [ap_drop ap_set ap_items ap_age].
    split; [apply delete_subseteq|apply List.filter_length_le]. }
  destruct Hsub as [Hsub Hlen0].
  destruct (insert_refines p0 a0 host port conn now Hr0 Hh) as (p1 & p2 & H1 & H2 & Hr2).
  { intros y j Hj. apply (Hconn y). by eapply lookup_weaken. }
  { lia. }
  apply bind_ok in H1 as (h & Hh1 & H1). rewrite Hh1. cbn [mbind result_bind].
  apply bind_ok in H1 as (p3 & H3 & H1). rewrite H3. cbn [mbind result_bind].
  rewrite H1. cbn [mbind result_bind]. rewrite H2. cbn [mbind result_bind]. eexists. by split.
Qed.

Lemma release_refines p a conn now :
  refines p a → ∃ p', tcp_pool_release conn now p = Ok p' ∧ refines p' (ap_release conn now a).
Proof.
  intros Hr. unfold tcp_pool_release, ap_release. rewrite (find_conn_spec _ _ _ Hr). cbn [mbind result_bind].
  destruct (ap_find _ a) as [x|] eqn:Hx.
  2:{ eexists. split; [reflexivity|]. by apply refines_close. }
  destruct (ap_find_Some _ _ _ Hx) as (i & Hi & _). rewrite Hi.
  destruct (use_refines p a false now x i Hr Hi) as (p1 & p2 & H1 & H2 & Hr2).
  rewrite H1. cbn [mbind result_bind]. rewrite H2. cbn [mbind result_bind].
  assert (Hi2 : ap_items (ap_use false now x i a) !! x = Some (it_set_use false now i)) by apply lookup_insert_eq.
  rewrite (load_shape _ _ _ _ _ _ (rf_shape _ _ Hr2) Hi2). cbn [mbind result_bind].
  rewrite (refines_max _ _ Hr2), (refines_size _ _ Hr2).
  change (pe_failed (entry_of _ _ _ _)) with (it_failed i).
  destruct (it_failed i || _); [|eexists; by split].
  destruct (drop_steps _ _ _ _ Hr2 Hi2) as (p3 & p4 & p5 & H3 & H4 & H5 & Hr5).
  rewrite H3. cbn [mbind result_bind]. rewrite H4. cbn [mbind result_bind]. rewrite H5. eexists. by split.
Qed.

Definition mark_from (conn : Z) (b : nat) a : apool :=
  match find_from conn b a with
  | Some x =>
      match ap_items a !! x with
      | Some i => ap_set (<[x := it_set_failed i]> (ap_items a)) (ap_age a) (ap_lru a) (ap_closed a) a
      | None => a
      end
  | None => a
  end.

Lemma ap_failed_wf a x i :
  apool_wf a → ap_items a !! x = Some i →
  apool_wf (ap_set (<[x := it_set_failed i]> (ap_items a)) (ap_age a) (ap_lru a) (ap_closed a) a).
Proof.
  intros [Ha Hl Hsame Hit Hc Hsz] Hi. split; cbn [ap_set ap_items ap_age ap_lru]; try done.
  - intros y. rewrite <- Hit, lookup_insert. case_decide as Hd; [subst y; rewrite Hi; split; intros _; by eexists|done].
  - intros y z j k. rewrite !lookup_insert. repeat case_decide; intros; simplify_eq; try done; subst.
    + symmetry. by eapply (Hc z y); [done..|].
    + by eapply Hc.
    + by eapply Hc.
Qed.

Lemma mark_failed_loop_refines conn : ∀ k b p a,
  refines p a → (k + b = POOL_HASH_BUCKETS)%nat →
  ∃ p', mark_failed_loop (drop b (pl_buckets p)) conn p = Ok p' ∧ refines p' (mark_from conn b a).
Proof.
  induction k as [|k IH]; intros b p a Hr Hb.
  { exists p. unfold mark_from. rewrite find_from_end by lia.
    by rewrite drop_ge by (rewrite (sh_length _ _ _ _ (rf_shape _ _ Hr)); lia). }
  destruct (walk_bucket p a conn b Hr) as (h & Hh & Hw); [lia|]. rewrite (drop_S _ h) by done.
  cbn [mark_failed_loop]. rewrite Hw. cbn [mbind result_bind].
  pose proof (find_from_chain a conn b (rf_wf _ _ Hr)) as Hf. unfold mark_from.
  destruct (first_such _ (chains_of _ _ b)) as [x|].
  - destruct Hf as (-> & Hnone & i & Hi & Hci & Hbi). rewrite Hi.
    destruct (store_shape _ _ _ _ _ _ it_set_failed pe_set_failed (rf_shape _ _ Hr) Hi) as (p1 & Hp1 & Hs1 & Hsc1 & Hb1);
      [done|done|].
    rewrite Hp1. cbn [mbind result_bind].
    set (a1 := ap_set (<[x := it_set_failed i]> (ap_items a)) (ap_age a) (ap_lru a) (ap_closed a) a).
    assert (Hr1 : refines p1 a1).
    { split.
      - eapply shape_ext; [|exact Hs1]. intros b'. symmetry. by eapply chains_update.
      - rewrite Hsc1, (rf_scalars _ _ Hr). cbn. pose proof (f_equal (λ t, t.1.1.1.1.2) Hsc1) as Ht. cbn in Ht. by rewrite Ht.
      - apply ap_failed_wf; [apply (rf_wf _ _ Hr)|done]. }
    destruct (IH (S b) p1 a1 Hr1) as (p' & Hp' & Hr'); [lia|]. rewrite Hb1 in Hp'. exists p'. split; [done|].
    assert (Hsame : find_from conn (S b) a1 = None).
    { rewrite <- Hnone. unfold find_from. apply first_such_ext. intros y _. unfold item_test. cbn [a1 ap_set ap_items].
      destruct (decide (x = y)) as [<-|Hne]; [by rewrite lookup_insert_eq, Hi|by rewrite lookup_insert_ne]. }
    unfold mark_from in Hr'. by rewrite Hsame in Hr'.
  - cbn [mbind result_bind]. destruct (IH (S b) p a Hr) as (p' & Hp' & Hr'); [lia|]. exists p'. split; [done|].
    unfold mark_from in Hr'. by rewrite Hf.
Qed.

Lemma mark_failed_refines p a conn :
  refines p a → ∃ p', tcp_pool_mark_failed conn p = Ok p' ∧ refines p' (ap_mark_failed conn a).
Proof.
  intros Hr. destruct (mark_failed_loop_refines conn POOL_HASH_BUCKETS 0 p a Hr) as (p' & Hp' & Hr'); [lia|].
  exists p'. unfold mark_from in Hr'. rewrite find_from_0 in Hr'. by split.
Qed.
End simulation.

(** ** Sequences of calls *)

Inductive pool_op :=
  | OpAcquireBegin (host : list Z) (port now : Z)
  | OpAcquireEnd (host : list Z) (port conn now : Z)
  | OpRelease (conn now : Z)
  | OpMarkFailed (conn : Z)
  | OpDestroyBegin.

Inductive pool_answer :=
  | AnsBegin (a : acquire_answer)
  | AnsEnd (pooled : bool)
  | AnsDone.

Definition pool_step (op : pool_op) (p : tcp_pool) : result (pool_answer * tcp_pool) :=
  match op with
  | OpAcquireBegin host port now => r ← tcp_pool_acquire_begin host port now p; Ok (AnsBegin r.1, r.2)
  | OpAcquireEnd host port conn now => r ← tcp_pool_acquire_end host port conn now p; Ok (AnsEnd r.1, r.2)
  | OpRelease conn now => p ← tcp_pool_release conn now p; Ok (AnsDone, p)
  | OpMarkFailed conn => p ← tcp_pool_mark_failed conn p; Ok (AnsDone, p)
  | OpDestroyBegin => Ok (AnsDone, tcp_pool_destroy_begin p)
  end.

Fixpoint pool_run (ops : list pool_op) (p : tcp_pool) : result (list pool_answer * tcp_pool) :=
  match ops with
  | [] => Ok ([], p)
  | op :: ops => r ← pool_step op p; s ← pool_run ops r.2; Ok (r.1 :: s.1, s.2)
  end.

Definition ap_step (op : pool_op) (a : apool) : pool_answer * apool :=
  match op with
  | OpAcquireBegin host port now => let r := ap_acquire_begin host port now a in (AnsBegin r.1, r.2)
  | OpAcquireEnd host port conn now => let r := ap_acquire_end host port conn now a in (AnsEnd r.1, r.2)
  | OpRelease conn now => (AnsDone, ap_release conn now a)
  | OpMarkFailed conn => (AnsDone, ap_mark_failed conn a)
  | OpDestroyBegin =>
      (AnsDone, APool (ap_items a) (ap_age a) (ap_lru a) (ap_max a) true (ap_hits a) (ap_misses a) (ap_closed a))
  end.

Fixpoint ap_run (ops : list pool_op) (a : apool) : list pool_answer * apool :=
  match ops with
  | [] => ([], a)
  | op :: ops => let r := ap_step op a in let s := ap_run ops r.2 in (r.1 :: s.1, s.2)
  end.

(** The connections that [tcp_connect] makes. *)
Definition new_conn (op : pool_op) : list Z := match op with OpAcquireEnd _ _ conn _ => [conn] | _ => [] end.
Definition new_conns (ops : list pool_op) : list Z := mjoin (new_conn <$> ops).

Definition op_ok (op : pool_op) : Prop := match op with OpAcquireEnd host _ _ _ => pool_host_ok host | _ => True end.

(** What a step leaves in the pool: entries as they were but for their use, and the new
    one. *)
Definition kept (a a' : apool) (op : pool_op) : Prop :=
  ∀ x i, ap_items a' !! x = Some i →
    (∃ j, ap_items a !! x = Some j ∧ it_conn j = it_conn i) ∨ it_conn i ∈ new_conn op.

Lemma kept_drop x i a op : kept a (ap_drop x i a) op.
Proof. intros y j Hy. cbn in Hy. apply lookup_delete_Some in Hy as [_ Hy]. left. by exists j. Qed.

Lemma kept_use u now x i a op : ap_items a !! x = Some i → kept a (ap_use u now x i a) op.
Proof.
  intros Hi y j Hy. cbn in Hy. apply lookup_insert_Some in Hy as [[<- <-]|[_ Hy]]; left; [by exists i|by exists j].
Qed.

Lemma kept_trans a b c op : kept a b op → (∀ x i, ap_items c !! x = Some i → ∃ j, ap_items b !! x = Some j ∧ it_conn j = it_conn i) →
  kept a c op.
Proof.
  intros H1 H2 x i Hi. destruct (H2 x i Hi) as (j & Hj & Hc). rewrite <- Hc. destruct (H1 x j Hj) as [(k & Hk & Hck)|]; [left|by right].
  by exists k.
Qed.

Lemma ap_evict_sub a x i : ap_items (ap_evict a) !! x = Some i → ap_items a !! x = Some i.
Proof.
  unfold ap_evict. repeat case_match; try done. cbn. intros Hy. by apply lookup_delete_Some in Hy as [_ Hy].
Qed.

Lemma ap_evict_length a : (length (ap_age (ap_evict a)) ≤ length (ap_age a))%nat.
Proof. unfold ap_evict. repeat case_match; try done. apply List.filter_length_le. Qed.

Lemma ap_step_kept op a :
  kept a (ap_step op a).2 op ∧ (length (ap_age (ap_step op a).2) ≤ length (ap_age a) + 1)%nat.
Proof.
  destruct op as [host port now|host port conn now|conn now|conn|]; cbn [ap_step snd].
  - unfold ap_acquire_begin. repeat case_match; cbn [snd]; (split; [|cbn; try lia]); try (intros y k Hy; left; by exists k).
    by apply kept_use.
  - unfold ap_acquire_end. case_match; cbn [snd]; [split; [intros x i Hi; left; by exists i|cbn; lia]|].
    set (a0 := if _ <=? _ then _ else _).
    assert (Hsub : ∀ x i, ap_items a0 !! x = Some i → ap_items a !! x = Some i) by (unfold a0; case_match; [apply ap_evict_sub|done]).
    assert (Hlen : (length (ap_age a0) ≤ length (ap_age a))%nat) by (unfold a0; case_match; [apply ap_evict_length|lia]).
    split; [|cbn; lia]. intros x i Hi. cbn in Hi. apply lookup_insert_Some in Hi as [[_ <-]|[_ Hi]]; [right; by left|left].
    exists i. split; [by apply Hsub|done].
  - unfold ap_release. repeat case_match; (split; [|cbn; try lia]); try (intros y k Hy; left; by exists k).
    + eapply kept_trans; [by apply (kept_use false now)|]. intros y k Hy. cbn in Hy. apply lookup_delete_Some in Hy as [_ Hy]. by exists k.
    + etrans; [apply List.filter_length_le|lia].
    + by apply kept_use.
  - unfold ap_mark_failed. repeat case_match; (split; [|cbn; try lia]); try (intros y k Hy; left; by exists k).
    intros y k Hy. cbn in Hy. left. apply lookup_insert_Some in Hy as [[<- <-]|[_ Hy]]; [by eexists|by exists k].
  - split; [|cbn; lia]. intros x i Hi. left. by exists i.
Qed.

Lemma pool_step_refines p a op :
  refines p a → op_ok op → (∀ x i, ap_items a !! x = Some i → it_conn i ∉ new_conn op) →
  Z.of_nat (length (ap_age a)) + 1 < 2 ^ 64 →
  ∃ p', pool_step op p = Ok ((ap_step op a).1, p') ∧ refines p' (ap_step op a).2.
Proof.
  intros Hr Hok Hconn Hlen. destruct op as [host port now|host port conn now|conn now|conn|]; cbn [pool_step ap_step].
  - destruct (acquire_begin_refines p a host port now Hr) as (p' & -> & Hr'). by exists p'.
  - destruct (acquire_end_refines p a host port conn now Hr Hok) as (p' & -> & Hr'); [|done|by exists p'].
    intros y j Hj Hc. apply (Hconn y j Hj). rewrite Hc. by left.
  - destruct (release_refines p a conn now Hr) as (p' & -> & Hr'). by exists p'.
  - destruct (mark_failed_refines p a conn Hr) as (p' & -> & Hr'). by exists p'.
  - eexists. split; [reflexivity|]. destruct Hr as [Hs Hsc Hwf]. split.
    + destruct Hs; by split.
    + unfold scalars in *. cbn. congruence.
    + destruct Hwf; by split.
Qed.

Lemma pool_run_refines ops : ∀ p a,
  refines p a → Forall op_ok ops → NoDup (new_conns ops) →
  (∀ x i, ap_items a !! x = Some i → it_conn i ∉ new_conns ops) →
  Z.of_nat (length (ap_age a)) + Z.of_nat (length ops) < 2 ^ 64 →
  ∃ p', pool_run ops p = Ok ((ap_run ops a).1, p') ∧ refines p' (ap_run ops a).2.
Proof.
  induction ops as [|op ops IH]; intros p a Hr Hok Hnd Hconn Hlen; [by exists p|].
  apply Forall_cons_iff in Hok as [Hok1 Hok]. unfold new_conns in *. cbn [fmap list_fmap mjoin list_join] in Hnd, Hconn.
  cbn [length] in Hlen. apply list.NoDup_app in Hnd as (_ & Hdis & Hnd).
  destruct (pool_step_refines p a op Hr Hok1) as (p1 & Hp1 & Hr1); [|lia|].
  { intros x i Hi Hin. apply (Hconn x i Hi), elem_of_app. by left. }
  destruct (ap_step_kept op a) as [Hkept Hlen1].
  destruct (IH p1 _ Hr1 Hok Hnd) as (p2 & Hp2 & Hr2); [|lia|].
  { intros x i Hi Hin. destruct (Hkept x i Hi) as [(j & Hj & Hc)|Hnew].
    - apply (Hconn x j Hj), elem_of_app. right. by rewrite Hc.
    - by apply (Hdis _ Hnew). }
  exists p2. cbn [pool_run ap_run]. rewrite Hp1. cbn [mbind result_bind fst snd]. rewrite Hp2. by split.
Qed.

(** The empty pool. *)
Definition ap_empty (max : Z) : apool := APool ∅ [] [] max false 0 0 [].

Lemma create_refines max timeout p : tcp_pool_create_with_config max timeout = Some p → refines p (ap_empty max).
Proof.
  unfold tcp_pool_create_with_config. case_match; [done|]. intros [= <-]. split; [|done|].
  - split; cbn_pool; cbn [ap_empty ap_items ap_age ap_lru].
    + intros x. by rewrite !lookup_empty.
    + intros b Hb. change (replicate POOL_HASH_BUCKETS (None : option nat) !! b = Some None). by apply lookup_replicate_2.
    + done.
    + done.
    + split; [constructor|]. by intros x ?%elem_of_nil.
    + intros b. split; [constructor|]. by intros x ?%elem_of_nil.
    + done.
  - split; cbn [ap_empty ap_items ap_age ap_lru].
    + constructor.
    + constructor.
    + done.
    + intros x. rewrite lookup_empty. split; [by intros [? ?]|by intros ?%elem_of_nil].
    + intros x y i j Hi. by rewrite lookup_empty in Hi.
    + done.
Qed.


(** ** What the pool guarantees *)

(** No more entries than the limit, unless all are in use. *)
Definition within_limit (a : apool) : Prop :=
  Z.of_nat (length (ap_age a)) ≤ ap_max a ∨ ∀ x i, ap_items a !! x = Some i → it_in_use i = true.

Lemma evict_idle_limit a :
  apool_wf a → within_limit a → ap_max a ≤ Z.of_nat (length (ap_age a)) →
  Z.of_nat (length (ap_age (ap_evict a))) < ap_max a ∨
  ∀ x i, ap_items (ap_evict a) !! x = Some i → it_in_use i = true.
Proof.
  intros Hwf Hlim Hfull. unfold ap_evict. destruct (first_such _ _) as [x|] eqn:Hf.
  - apply first_such_elem in Hf as [Ht _]. apply item_test_Some in Ht as (i & Hi & Huse). rewrite Hi.
    left. cbn. assert (Hin : x ∈ ap_age a) by (apply (aw_items _ Hwf); by exists i).
    pose proof (length_without x (ap_age a) (aw_age _ Hwf) Hin) as Hlen.
    destruct Hlim as [Hl|Hall]; [lia|]. rewrite (Hall x i Hi) in Huse. done.
  - right. intros y i Hi. assert (Hin : y ∈ reverse (ap_lru a)).
    { apply elem_of_reverse, (aw_same _ Hwf), (aw_items _ Hwf). by exists i. }
    pose proof (first_such_absent _ _ Hf y Hin) as Hno. unfold item_test in Hno. rewrite Hi in Hno.
    by apply negb_false_iff in Hno.
Qed.

Lemma within_limit_step op a : apool_wf a → within_limit a → within_limit (ap_step op a).2.
Proof.
  intros Hwf Hlim. destruct op as [host port now|host port conn now|conn now|conn|]; cbn [ap_step snd].
  - unfold ap_acquire_begin. repeat case_match; try done. destruct Hlim as [Hl|Hall]; [by left|right].
    intros y k Hy. cbn in Hy. apply lookup_insert_Some in Hy as [[_ <-]|[_ Hy]]; [done|by eapply Hall].
  - unfold ap_acquire_end. case_match; [done|]. cbn [snd].
    destruct (Z.leb_spec (ap_max a) (Z.of_nat (length (ap_age a)))) as [Hfull|Hroom].
    + destruct (evict_idle_limit a Hwf Hlim Hfull) as [Hl|Hall].
      * left. cbn. assert (ap_max (ap_evict a) = ap_max a) as Hm by (unfold ap_evict; by repeat case_match).
        rewrite Hm. lia.
      * right. intros y k Hy. cbn in Hy. apply lookup_insert_Some in Hy as [[_ <-]|[_ Hy]]; [done|by eapply Hall].
    + left. cbn. lia.
  - unfold ap_release. destruct (ap_find _ a) as [x|] eqn:Hx; [|done]. destruct (ap_find_Some _ _ _ Hx) as (i & Hi & _).
    rewrite Hi. assert (Hin : x ∈ ap_age a) by (apply (aw_items _ Hwf); by exists i).
    pose proof (length_without x (ap_age a) (aw_age _ Hwf) Hin) as Hlen.
    destruct (it_failed i || _) eqn:Hd; cbn.
    + destruct Hlim as [Hl|Hall]; [left; cbn; lia|right]. intros y k Hy. cbn in Hy.
      apply lookup_delete_Some in Hy as [Hne Hy]. rewrite lookup_insert_ne in Hy by done. by eapply Hall.
    + apply orb_false_iff in Hd as [_ Hd%Z.ltb_ge]. left. exact Hd.
  - unfold ap_mark_failed. repeat case_match; try done. destruct Hlim as [Hl|Hall]; [by left|right].
    intros y k Hy. cbn in Hy. apply lookup_insert_Some in Hy as [[_ <-]|[_ Hy]]; [cbn; by eapply Hall|by eapply Hall].
  - done.
Qed.

(** The connections that clients hold, by the calls and their answers. *)
Definition held_step (held : gset Z) (op : pool_op) (ans : pool_answer) : gset Z :=
  match op, ans with
  | OpAcquireBegin _ _ _, AnsBegin (Hit conn) => {[conn]} ∪ held
  | OpAcquireEnd _ _ conn _, AnsEnd true => {[conn]} ∪ held
  | OpRelease conn _, _ => held ∖ {[conn]}
  | _, _ => held
  end.

(** Clients release what they hold. *)
Fixpoint disciplined (held : gset Z) (ops : list pool_op) (answers : list pool_answer) : Prop :=
  match ops, answers with
  | op :: ops, ans :: answers =>
      match op with OpRelease conn _ => conn ∈ held | _ => True end ∧ disciplined (held_step held op ans) ops answers
  | _, _ => True
  end.

(** The pool hands out what nobody holds. *)
Fixpoint exclusive (held : gset Z) (ops : list pool_op) (answers : list pool_answer) : Prop :=
  match ops, answers with
  | op :: ops, ans :: answers =>
      match ans with AnsBegin (Hit conn) => conn ∉ held | _ => True end ∧ exclusive (held_step held op ans) ops answers
  | _, _ => True
  end.

(** What is held is what the pool has in use. *)
Definition holds_in_use (held : gset Z) (a : apool) : Prop :=
  ∀ c, c ∈ held ↔ ∃ x i, ap_items a !! x = Some i ∧ it_conn i = c ∧ it_in_use i = true.

Lemma holds_evict held a : apool_wf a → holds_in_use held a → holds_in_use held (ap_evict a).
Proof.
  intros Hwf Hh. unfold ap_evict. destruct (first_such _ _) as [x|] eqn:Hf; [|done].
  apply first_such_elem in Hf as [Ht _]. apply item_test_Some in Ht as (i & Hi & Huse). rewrite Hi.
  intros c. rewrite (Hh c). cbn. split; intros (y & j & Hy & Hc & Hu).
  - exists y, j. split_and!; try done. rewrite lookup_delete_ne; [done|]. intros <-. by simplify_eq; rewrite Hu in Huse.
  - apply lookup_delete_Some in Hy as [_ Hy]. by exists y, j.
Qed.

Lemma holds_use held a u now x i :
  apool_wf a → ap_items a !! x = Some i → holds_in_use held a →
  holds_in_use (if u : bool then {[it_conn i]} ∪ held else held ∖ {[it_conn i]}) (ap_use u now x i a).
Proof.
  intros Hwf Hi Hh c.
  assert (Hother : ∀ y j, ap_items a !! y = Some j → y ≠ x → it_conn j ≠ it_conn i).
  { intros y j Hj Hne Hc. apply Hne. by eapply (aw_conns _ Hwf). }
  assert (Hiff : (∃ y j, ap_items (ap_use u now x i a) !! y = Some j ∧ it_conn j = c ∧ it_in_use j = true) ↔
    if decide (c = it_conn i) then u = true else c ∈ held).
  { cbn. case_decide as Hd.
    - subst c. split.
      + intros (y & j & Hy & Hc & Hu). apply lookup_insert_Some in Hy as [[_ <-]|[Hne Hy]]; [done|].
        by destruct (Hother y j Hy (not_eq_sym Hne)).
      + intros ->. exists x, (it_set_use true now i). by rewrite lookup_insert_eq.
    - rewrite (Hh c). split; intros (y & j & Hy & Hc & Hu).
      + apply lookup_insert_Some in Hy as [[_ <-]|[Hne Hy]]; [by destruct Hd|by exists y, j].
      + exists y, j. rewrite lookup_insert_ne; [done|]. intros <-. apply Hd. congruence. }
  rewrite Hiff. clear. destruct u; case_decide; set_solver.
Qed.

Lemma holds_step held op a :
  apool_wf a → holds_in_use held a → (∀ x i, ap_items a !! x = Some i → it_conn i ∉ new_conn op) →
  match op with OpRelease conn _ => conn ∈ held | _ => True end →
  holds_in_use (held_step held op (ap_step op a).1) (ap_step op a).2 ∧
  match (ap_step op a).1 with AnsBegin (Hit conn) => conn ∉ held | _ => True end.
Proof.
  intros Hwf Hh Hnew Hdisc. destruct op as [host port now|host port conn now|conn now|conn|]; cbn [ap_step fst snd].
  - unfold ap_acquire_begin. case_match; [done|]. destruct (ap_find _ a) as [x|] eqn:Hx; [|done].
    destruct (ap_find_Some _ _ _ Hx) as (i & Hi & Ht). rewrite Hi. cbn [fst snd held_step]. split.
    + exact (holds_use held a true now x i Hwf Hi Hh).
    + unfold reusable_item in Ht. rewrite !andb_true_iff, negb_true_iff in Ht. destruct Ht as [[[Hu _] _] _].
      rewrite (Hh (it_conn i)). intros (y & j & Hy & Hc & Huj). assert (y = x) as -> by by eapply (aw_conns _ Hwf). congruence.
  - unfold ap_acquire_end. case_match; [done|]. cbn [fst snd held_step]. split; [|done].
    set (a0 := if _ <=? _ then _ else _).
    assert (Hh0 : holds_in_use held a0) by (unfold a0; case_match; [by apply holds_evict|done]).
    intros c. cbn. rewrite elem_of_union, elem_of_singleton, (Hh0 c). split.
    + intros [->|(y & j & Hy & Hc & Hu)]; [by exists (fresh (dom (ap_items a0))), (Item conn host port now true false); rewrite lookup_insert_eq|].
      exists y, j. rewrite lookup_insert_ne; [done|]. intros <-.
      assert (Hfr : ap_items a0 !! fresh (dom (ap_items a0)) = None) by (apply not_elem_of_dom, is_fresh). congruence.
    + intros (y & j & Hy & Hc & Hu). apply lookup_insert_Some in Hy as [[_ <-]|[_ Hy]]; [by left|right]. by exists y, j.
  - split; [|done]. unfold ap_release. destruct (ap_find _ a) as [x|] eqn:Hx.
    + destruct (ap_find_Some _ _ _ Hx) as (i & Hi & Hc%Z.eqb_eq). rewrite Hi.
      pose proof (holds_use held a false now x i Hwf Hi Hh) as Hu. cbn [held_step] in *. rewrite Hc in Hu.
      destruct (it_failed i || _); [|exact Hu].
      intros c. rewrite (Hu c). cbn. split; intros (y & j & Hy & Hcj & Huj).
      * exists y, j. split_and!; try done. rewrite lookup_delete_ne; [done|]. intros <-. rewrite lookup_insert_eq in Hy. by simplify_eq.
      * apply lookup_delete_Some in Hy as [_ Hy]. by exists y, j.
    + exfalso. apply Hh in Hdisc as (y & j & Hy & Hc & _).
      assert (Hin : y ∈ ap_age a) by (apply (aw_items _ Hwf); by exists j).
      pose proof (first_such_absent _ _ Hx y Hin) as Hno. unfold item_test in Hno. rewrite Hy in Hno.
      apply Z.eqb_neq in Hno. done.
  - split; [|done]. unfold ap_mark_failed. repeat case_match; try done. cbn [held_step]. intros c. rewrite (Hh c). cbn.
    split; intros (y & j & Hy & Hc & Hu).
    + destruct (decide (n = y)) as [<-|Hne]; [|exists y, j; by rewrite lookup_insert_ne].
      exists n, (it_set_failed j). rewrite lookup_insert_eq. split_and!; [congruence|done|done].
    + apply lookup_insert_Some in Hy as [[<- <-]|[_ Hy]]; [by exists n, i|by exists y, j].
  - done.
Qed.

Lemma run_guarantees ops : ∀ p a held,
  refines p a → within_limit a → holds_in_use held a → Forall op_ok ops → NoDup (new_conns ops) →
  (∀ x i, ap_items a !! x = Some i → it_conn i ∉ new_conns ops) →
  Z.of_nat (length (ap_age a)) + Z.of_nat (length ops) < 2 ^ 64 → disciplined held ops (ap_run ops a).1 →
  exclusive held ops (ap_run ops a).1 ∧ within_limit (ap_run ops a).2.
Proof.
  induction ops as [|op ops IH]; intros p a held Hr Hlim Hh Hok Hnd Hconn Hlen Hdisc; [done|].
  apply Forall_cons_iff in Hok as [Hok1 Hok]. unfold new_conns in *. cbn [fmap list_fmap mjoin list_join] in Hnd, Hconn.
  cbn [length] in Hlen. apply list.NoDup_app in Hnd as (_ & Hdis & Hnd).
  cbn [ap_run disciplined exclusive fst snd] in *. destruct Hdisc as [Hd1 Hdisc].
  assert (Hc1 : ∀ x i, ap_items a !! x = Some i → it_conn i ∉ new_conn op).
  { intros x i Hi Hin. apply (Hconn x i Hi), elem_of_app. by left. }
  destruct (pool_step_refines p a op Hr Hok1 Hc1) as (p1 & _ & Hr1); [lia|].
  destruct (ap_step_kept op a) as [Hkept Hlen1].
  destruct (holds_step held op a (rf_wf _ _ Hr) Hh Hc1 Hd1) as [Hh1 Hex].
  destruct (IH p1 _ _ Hr1 (within_limit_step op a (rf_wf _ _ Hr) Hlim) Hh1 Hok Hnd) as [Hexs Hlims].
  - intros x i Hi Hin. destruct (Hkept x i Hi) as [(j & Hj & Hc)|Hnew].
    + apply (Hconn x j Hj), elem_of_app. right. by rewrite Hc.
    + by apply (Hdis _ Hnew).
  - lia.
  - exact Hdisc.
  - split; [by split|done].
Qed.

(** As long as clients release only connections they hold, the pool hands no
    connection to two clients at once, in every interleaving of their calls; and it never
    has more entries than its limit unless all of them are in use. *)
Theorem tcp_pool_exclusive max timeout p ops answers p' :
  tcp_pool_create_with_config max timeout = Some p → 0 < max → Forall op_ok ops → NoDup (new_conns ops) →
  Z.of_nat (length ops) < 2 ^ 64 → pool_run ops p = Ok (answers, p') → disciplined ∅ ops answers →
  exclusive ∅ ops answers ∧
  (pl_current_size p' ≤ max ∨ ∀ x c, pl_heap p' !! x = Some c → pe_in_use c = true).
Proof.
  intros Hc Hmax Hok Hnd Hlen Hrun Hdisc. pose proof (create_refines _ _ _ Hc) as Hr.
  assert (Hno : ∀ x i, ap_items (ap_empty max) !! x = Some i → it_conn i ∉ new_conns ops).
  { intros x i Hi. cbn in Hi. by rewrite lookup_empty in Hi. }
  destruct (pool_run_refines ops p _ Hr Hok Hnd Hno Hlen) as (p2 & Hp2 & Hr2). rewrite Hp2 in Hrun. injection Hrun as <- <-.
  destruct (run_guarantees ops p _ ∅ Hr) as [Hex Hlim]; try done.
  { left. cbn. lia. }
  { intros c. split; [set_solver|]. intros (x & i & Hi & _). cbn in Hi. by rewrite lookup_empty in Hi. }
  split; [done|]. rewrite (refines_size _ _ Hr2).
  assert (Hm : ap_max (ap_run ops (ap_empty max)).2 = max).
  { clear. set (a := ap_empty max). change max with (ap_max a). generalize a. induction ops as [|op ops IH]; intros b; [done|].
    cbn [ap_run snd]. rewrite IH. destruct op; cbn; unfold ap_acquire_begin, ap_acquire_end, ap_release, ap_mark_failed, ap_evict;
      by repeat case_match. }
  unfold within_limit in Hlim. rewrite Hm in Hlim. destruct Hlim as [Hl|Hall]; [by left|right].
  intros x c Hx. rewrite (sh_heap _ _ _ _ (rf_shape _ _ Hr2)) in Hx. apply fmap_Some in Hx as (i & Hi & ->). by eapply Hall.
Qed.

(** ** Destruction *)

(** The connections of the entries. *)
Definition conns_of (items : gmap nat item) (l : list nat) : list Z :=
  (λ x, match items !! x with Some i => it_conn i | None => 0 end) <$> l.

Lemma free_chain_spec (items : gmap nat item) chains lru b suf : ∀ pre fuel p,
  chains b = pre ++ suf → NoDup (chains b) →
  (∀ y, y ∈ suf → ∃ i, items !! y = Some i ∧ bucket_of i = b ∧ pl_heap p !! y = Some (entry_of chains lru y i)) →
  (length suf ≤ fuel)%nat →
  ∃ p', free_chain fuel (head suf) p = Ok p' ∧ pl_closed p' = pl_closed p ++ conns_of items suf ∧
    ∀ y, pl_heap p' !! y = if decide (y ∈ suf) then None else pl_heap p !! y.
Proof.
  induction suf as [|y suf IH]; intros pre fuel p Hc Hnd Hin Hf.
  { exists p. split; [by destruct fuel|]. split; [by rewrite app_nil_r|].
    intros y. by rewrite decide_False by (apply not_elem_of_nil). }
  destruct fuel as [|fuel]; simpl in Hf; [lia|]. cbn [free_chain head].
  destruct (Hin y) as (i & Hi & Hb & Hy); [by left|]. unfold load. rewrite Hy. cbn_pool.
  assert (Hnext : pe_bucket_next (entry_of chains lru y i) = head suf).
  { cbn. rewrite Hb, Hc. apply succ_in_split. rewrite Hc in Hnd. apply list.NoDup_app in Hnd as (_ & Hd & _).
    intros Hyp. apply (Hd y Hyp). by left. }
  rewrite Hnext.
  assert (Hys : y ∉ suf).
  { rewrite Hc in Hnd. apply list.NoDup_app in Hnd as (_ & _ & Hnd). by apply list.NoDup_cons in Hnd as [? _]. }
  match goal with |- context [free_chain fuel _ ?q] => set (p1 := q) end.
  destruct (IH (pre ++ [y]) fuel p1) as (p' & Hp' & Hclosed & Hheap); [by rewrite <- app_assoc|done| |lia|].
  - intros z Hz. destruct (Hin z) as (j & Hj & Hbj & Hhz); [by right|]. exists j. split; [done|]. split; [done|].
    unfold p1. cbn_pool. rewrite lookup_delete_ne; [done|]. by intros ->.
  - exists p'. split; [exact Hp'|]. split.
    + rewrite Hclosed. unfold p1, conns_of. cbn. by rewrite Hi, <- app_assoc.
    + intros z. rewrite Hheap. unfold p1. cbn_pool. destruct (decide (z = y)) as [->|Hne].
      * rewrite (decide_True (P := y ∈ y :: suf)) by by left. case_decide; [done|]. apply lookup_delete_eq.
      * rewrite lookup_delete_ne by done. destruct (decide (z ∈ suf)) as [Hz|Hz].
        -- by rewrite decide_True by by right.
        -- by rewrite decide_False by (intros [?|?]%elem_of_cons; done).
Qed.

(** From bucket [b] on, when those before are freed. *)
Lemma free_buckets_spec p0 (a : apool) : refines p0 a → ∀ k b p,
  (k + b = POOL_HASH_BUCKETS)%nat →
  (∀ y i, ap_items a !! y = Some i → (b ≤ bucket_of i)%nat → pl_heap p !! y = pl_heap p0 !! y) →
  (∀ y c, pl_heap p !! y = Some c → pl_heap p0 !! y = Some c ∧ ∃ i, ap_items a !! y = Some i ∧ (b ≤ bucket_of i)%nat) →
  ∃ p' l, free_buckets (drop b (pl_buckets p0)) p = Ok p' ∧ pl_heap p' = ∅ ∧
    pl_closed p' = pl_closed p ++ conns_of (ap_items a) l ∧ NoDup l ∧
    ∀ y, y ∈ l ↔ ∃ i, ap_items a !! y = Some i ∧ (b ≤ bucket_of i)%nat.
Proof.
  intros Hr. pose proof (rf_shape _ _ Hr) as Hs. pose proof (rf_wf _ _ Hr) as Hwf.
  induction k as [|k IH]; intros b p Hb Hkeep Hsub.
  { exists p, []. rewrite drop_ge by (rewrite (sh_length _ _ _ _ Hs); lia). split; [done|].
    assert (Hno : ∀ y i, ap_items a !! y = Some i → ¬ (b ≤ bucket_of i)%nat).
    { intros y i _. pose proof (host_hash_lt (it_host i) (it_port i)). unfold bucket_of. lia. }
    split; [|split; [by rewrite app_nil_r|split; [constructor|]]].
    - apply map_eq. intros y. rewrite lookup_empty. destruct (pl_heap p !! y) as [c|] eqn:Hy; [|done].
      destruct (Hsub y c Hy) as (_ & i & Hi & Hbi). by destruct (Hno y i Hi).
    - intros y. split; [by intros ?%elem_of_nil|]. intros (i & Hi & Hbi). by destruct (Hno y i Hi). }
  set (chains := chains_of (ap_items a) (ap_age a)) in *.
  rewrite (drop_S _ (head (chains b))) by (apply (sh_buckets _ _ _ _ Hs); lia). cbn [free_buckets].
  destruct (sh_chains _ _ _ _ Hs b) as [Hnd Hin].
  assert (Hchain : ∀ y, y ∈ chains b → ∃ i, ap_items a !! y = Some i ∧ bucket_of i = b ∧
    pl_heap p !! y = Some (entry_of chains (ap_lru a) y i)).
  { intros y Hy. destruct (Hin y Hy) as (i & Hi & Hbi). exists i. split; [done|]. split; [done|].
    rewrite (Hkeep y i Hi) by lia. by rewrite (sh_heap _ _ _ _ Hs), Hi. }
  destruct (free_chain_spec (ap_items a) chains (ap_lru a) b (chains b) [] (walk_fuel p) p eq_refl Hnd Hchain)
    as (p1 & -> & Hclosed & Hheap).
  { apply walk_fuel_enough; [done|]. intros y Hy. destruct (Hchain y Hy) as (i & _ & _ & ->). by eexists. }
  cbn [mbind result_bind].
  destruct (IH (S b) p1) as (p' & l & -> & He & Hc & Hl & Hmem); [lia| | |].
  - intros y i Hi Hbi. rewrite Hheap, decide_False; [apply (Hkeep y i Hi); lia|].
    intros Hy. destruct (Hin y Hy) as (j & Hj & Hbj). simplify_eq. lia.
  - intros y c. rewrite Hheap. case_decide as Hd; [done|]. intros Hy. destruct (Hsub y c Hy) as (H0 & i & Hi & Hbi).
    split; [done|]. exists i. split; [done|]. destruct (decide (bucket_of i = b)) as [He|]; [|lia].
    destruct Hd. apply elem_of_chain. split; [|by exists i]. apply (aw_items _ Hwf). by exists i.
  - exists p', (chains b ++ l). split; [done|]. split; [done|]. split.
    { rewrite Hc, Hclosed, <- app_assoc. f_equal. unfold conns_of. by rewrite fmap_app. }
    split.
    + apply list.NoDup_app. split; [done|]. split; [|done]. intros y Hy Hyl. destruct (Hin y Hy) as (j & Hj & Hbj).
      apply Hmem in Hyl as (i & Hi & Hbi). simplify_eq. lia.
    + intros y. rewrite elem_of_app, Hmem. split.
      * intros [Hy|(i & Hi & Hbi)]; [|exists i; split; [done|lia]]. destruct (Hin y Hy) as (j & Hj & Hbj). exists j. split; [done|lia].
      * intros (i & Hi & Hbi). destruct (decide (bucket_of i = b)) as [He'|]; [left|right; exists i; split; [done|lia]].
        apply elem_of_chain. split; [|by exists i]. apply (aw_items _ Hwf). by exists i.
Qed.

(** Destroying the pool frees every entry once and closes the connection of each,
    those in use and those that failed included. *)
Theorem destroy_closes_all p a :
  refines p a →
  ∃ p' conns, tcp_pool_destroy_end (tcp_pool_destroy_begin p) = Ok p' ∧ pl_heap p' = ∅ ∧ pl_current_size p' = 0 ∧
    pl_closed p' = pl_closed p ++ conns ∧ conns ≡ₚ conns_of (ap_items a) (ap_age a).
Proof.
  intros Hr. pose proof (rf_wf _ _ Hr) as Hwf. unfold tcp_pool_destroy_end, tcp_pool_destroy_begin. cbn_pool.
  destruct (free_buckets_spec p a Hr POOL_HASH_BUCKETS 0 (pl_set_shutting_down p)) as (p' & l & Hp' & He & Hc & Hl & Hmem); [done|done| |].
  { intros y c Hy. cbn in Hy. split; [done|]. rewrite (sh_heap _ _ _ _ (rf_shape _ _ Hr)) in Hy.
    apply fmap_Some in Hy as (i & Hi & _). exists i. split; [done|lia]. }
  rewrite drop_0 in Hp'. rewrite Hp'. cbn [mbind result_bind]. eexists _, _. split; [reflexivity|]. cbn_pool.
  split; [done|]. split; [done|]. split; [exact Hc|]. unfold conns_of. apply fmap_Permutation, NoDup_Permutation; [done|apply (aw_age _ Hwf)|].
  intros y. rewrite Hmem, <- (aw_items _ Hwf). split; [intros (i & Hi & _); by exists i|intros [i Hi]; exists i; split; [done|lia]].
Qed.

(** ** Leaks and dangling links *)

(** A connection that was marked as failed is not closed when it is released: its
    entry is freed, and the connection is neither in the pool nor closed. *)
Theorem failed_connection_leaks p a x i now :
  refines p a → ap_items a !! x = Some i → it_failed i = true → it_conn i ∉ pl_closed p →
  ∃ p', tcp_pool_release (it_conn i) now p = Ok p' ∧ it_conn i ∉ pl_closed p' ∧
    ∀ y c, pl_heap p' !! y = Some c → pe_conn c ≠ it_conn i.
Proof.
  intros Hr Hi Hf Hcl. pose proof (rf_wf _ _ Hr) as Hwf.
  destruct (release_refines p a (it_conn i) now Hr) as (p' & Hp' & Hr'). exists p'. split; [done|].
  destruct (refines_stats _ _ Hr) as (_ & _ & Hc). destruct (refines_stats _ _ Hr') as (_ & _ & Hc').
  rewrite Hc'. rewrite Hc in Hcl. unfold ap_release in *.
  destruct (ap_find _ a) as [z|] eqn:Hz.
  2:{ assert (Hin : x ∈ ap_age a) by (apply (aw_items _ Hwf); by exists i).
      pose proof (first_such_absent _ _ Hz x Hin) as Hno. unfold item_test in Hno. rewrite Hi, Z.eqb_refl in Hno. done. }
  destruct (ap_find_Some _ _ _ Hz) as (j & Hj & Hcj%Z.eqb_eq). rewrite Hj in *.
  assert (z = x) as -> by by eapply (aw_conns _ Hwf). rewrite Hi in Hj. injection Hj as <-. rewrite Hf in *. cbn [orb] in *. split.
  - cbn. by rewrite Hf.
  - intros y c Hy. rewrite (sh_heap _ _ _ _ (rf_shape _ _ Hr')) in Hy. apply fmap_Some in Hy as (k & Hk & ->). cbn in Hk.
    apply lookup_delete_Some in Hk as [Hne Hk]. rewrite lookup_insert_ne in Hk by done. cbn. intros He. apply Hne.
    symmetry. by eapply (aw_conns _ Hwf).
Qed.

Definition pool_of_limit (max : Z) : tcp_pool :=
  match tcp_pool_create max with Some p => p | None => TcpPool ∅ [] None None 0 0 0 false 0 0 [] end.
Definition pool_after (ops : list pool_op) (p : tcp_pool) : tcp_pool :=
  match pool_run ops p with Ok (_, p') => p' | _ => p end.

Definition long_host : list Z := replicate 256 97.
Definition long_host_ops : list pool_op :=
  [OpAcquireEnd long_host 80 1 0; OpMarkFailed 1; OpRelease 1 0].

(** A host name of 256 bytes or more is stored cut, so the entry is not found again
    and is taken out of another bucket than the one it is in: when it is given back to a
    pool that is full, the entry is freed while its chain still leads to it, and the
    next search of that chain reads freed memory. *)
Theorem long_host_dangles :
  ∃ p p', tcp_pool_create 4 = Some p ∧ pool_run long_host_ops p = Ok ([AnsEnd true; AnsDone; AnsDone], p') ∧
    tcp_pool_acquire_begin long_host 80 0 p' = Fault.
Proof.
  exists (pool_of_limit 4), (pool_after long_host_ops (pool_of_limit 4)).
  split; [reflexivity|]. split; vm_compute; reflexivity.
Qed.

(** ** Witnesses *)

Definition example_pool : tcp_pool := pool_of_limit 1.
Definition example_ops : list pool_op :=
  [OpAcquireBegin [97] 80 0; OpAcquireEnd [97] 80 1 1; OpRelease 1 2; OpAcquireBegin [97] 80 3;
   OpAcquireEnd [98] 80 2 4; OpRelease 1 5; OpAcquireEnd [99] 80 3 6].


Lemma tcp_pool_exclusive_witness :
  ∃ answers p', pool_run example_ops example_pool = Ok (answers, p') ∧ exclusive ∅ example_ops answers.
Proof.
  destruct (pool_run example_ops example_pool) as [[answers p']|e|] eqn:Hrun; [|by vm_compute in Hrun..].
  exists answers, p'. split; [done|].
  apply (tcp_pool_exclusive 1 5000 example_pool example_ops answers p').
  - reflexivity.
  - done.
  - repeat constructor; unfold op_ok, pool_host_ok; simpl; lia.
  - apply (bool_decide_unpack _); by vm_compute.
  - done.
  - exact Hrun.
  - vm_compute in Hrun. injection Hrun as <- _. cbn. set_solver.
Defined.

(** A pool with one failed entry. *)
Lemma example_refines : ∃ p', pool_run [OpAcquireEnd [97] 80 1 1; OpMarkFailed 1] example_pool = Ok ([AnsEnd true; AnsDone], p') ∧
  refines p' (ap_run [OpAcquireEnd [97] 80 1 1; OpMarkFailed 1] (ap_empty 1)).2.
Proof.
  apply (pool_run_refines [OpAcquireEnd [97] 80 1 1; OpMarkFailed 1] example_pool (ap_empty 1)).
  - by apply (create_refines 1 5000).
  - repeat constructor; unfold op_ok, pool_host_ok; simpl; lia.
  - apply (bool_decide_unpack _); by vm_compute.
  - intros x i Hi. cbn in Hi. by rewrite lookup_empty in Hi.
  - done.
Qed.

Lemma destroy_closes_all_witness :
  ∃ p p', pool_run [OpAcquireEnd [97] 80 1 1; OpMarkFailed 1] example_pool = Ok ([AnsEnd true; AnsDone], p) ∧
    tcp_pool_destroy_end (tcp_pool_destroy_begin p) = Ok p' ∧ pl_heap p' = ∅.
Proof.
  destruct example_refines as (p & Hp & Hr). destruct (destroy_closes_all p _ Hr) as (p' & conns & Hd & He & _).
  exists p, p'. split; [exact Hp|]. split; [exact Hd|exact He].
Defined.

Lemma failed_connection_leaks_witness :
  ∃ p p', pool_run [OpAcquireEnd [97] 80 1 1; OpMarkFailed 1] example_pool = Ok ([AnsEnd true; AnsDone], p) ∧
    tcp_pool_release 1 9 p = Ok p' ∧ 1 ∉ pl_closed p'.
Proof.
  destruct example_refines as (p & Hp & Hr).
  destruct (failed_connection_leaks p _ 0 (Item 1 [97] 80 1 true true) 9 Hr) as (p' & Hp' & Hc & _).
  - vm_compute. reflexivity.
  - reflexivity.
  - destruct (refines_stats _ _ Hr) as (_ & _ & ->). vm_compute. by intros ?%elem_of_nil.
  - exists p, p'. split; [exact Hp|]. split; [exact Hp'|exact Hc].
Defined.
