(* ===== verification/HandlerTable.v ===== *)
(** * Handler table of the RPC server (libs/distric_protocol/src/rpc.c)

    An open-addressing table of 64 slots with linear probing from a multiplicative
    hash of the message type.  A removed handler leaves a tombstone, which lookups
    skip and insertions recycle.  The table refines a map from message types to
    handlers; the types 0 and 0xFFFF, which mark empty slots and tombstones, cannot
    be registered. *)

From Stdlib Require Import ZArith Lia List.
From stdpp Require Import gmap.
From S2P Require Import Prelude.

Local Open Scope Z_scope.

(** ** The table *)

Definition HANDLER_TABLE_SIZE : nat := 64.
Definition HANDLER_TABLE_MASK : Z := 63.
Definition HANDLER_TOMBSTONE : Z := 0xFFFF.

(** A handler function is its address; 0 is [NULL]. *)
Record handler_slot := HandlerSlot {
  hs_msg_type : Z;
  hs_handler : Z;
  hs_userdata : Z
}.

#[export] Instance handler_slot_eq_dec : EqDecision handler_slot.
Proof. solve_decision. Defined.
#[export] Instance handler_slot_inhabited : Inhabited handler_slot := populate (HandlerSlot 0 0 0).

Definition empty_table : list handler_slot := replicate HANDLER_TABLE_SIZE (HandlerSlot 0 0 0).

(** 2654435769 is the golden ratio of 2^32; the six high bits are kept. *)
Definition handler_hash (msg_type : Z) : Z := Z.shiftr (u32 (msg_type * 2654435769)) (32 - 6).

(** The positions [(idx + i) & HANDLER_TABLE_MASK] for [i] from 0. *)
Definition probe (msg_type : Z) (i : nat) : nat :=
  Z.to_nat (Z.land (Z.land (handler_hash msg_type) HANDLER_TABLE_MASK + Z.of_nat i) HANDLER_TABLE_MASK).
Definition probes (msg_type : Z) : list nat := probe msg_type <$> seq 0 HANDLER_TABLE_SIZE.

Fixpoint find_loop (table : list handler_slot) (msg_type : Z) (positions : list nat) : option handler_slot :=
  match positions with
  | [] => None
  | pos :: positions =>
      let slot := table !!! pos in
      if hs_msg_type slot =? 0 then None
      else if hs_msg_type slot =? HANDLER_TOMBSTONE then find_loop table msg_type positions
      else if hs_msg_type slot =? msg_type then Some slot
      else find_loop table msg_type positions
  end.

Definition handler_table_find (table : list handler_slot) (msg_type : Z) : option handler_slot :=
  find_loop table msg_type (probes msg_type).

(** [tombstone_idx] is [None] for [SIZE_MAX]. *)
Fixpoint insert_loop (table : list handler_slot) (new : handler_slot) (tombstone_idx : option nat)
    (positions : list nat) : result (list handler_slot) :=
  match positions with
  | [] =>
      match tombstone_idx with
      | Some target => Ok (<[target := new]> table)
      | None => Err DISTRIC_ERR_REGISTRY_FULL
      end
  | pos :: positions =>
      let slot := table !!! pos in
      if hs_msg_type slot =? hs_msg_type new then
        Ok (<[pos := HandlerSlot (hs_msg_type slot) (hs_handler new) (hs_userdata new)]> table)
      else
        let tombstone_idx :=
          if (hs_msg_type slot =? HANDLER_TOMBSTONE) && bool_decide (tombstone_idx = None)
          then Some pos else tombstone_idx in
        if hs_msg_type slot =? 0 then Ok (<[default pos tombstone_idx := new]> table)
        else insert_loop table new tombstone_idx positions
  end.

Definition handler_table_insert (table : list handler_slot) (msg_type handler userdata : Z) :
    result (list handler_slot) :=
  insert_loop table (HandlerSlot msg_type handler userdata) None (probes msg_type).

Fixpoint remove_loop (table : list handler_slot) (msg_type : Z) (positions : list nat) :
    result (list handler_slot) :=
  match positions with
  | [] => Err DISTRIC_ERR_NOT_FOUND
  | pos :: positions =>
      let slot := table !!! pos in
      if hs_msg_type slot =? 0 then Err DISTRIC_ERR_NOT_FOUND
      else if hs_msg_type slot =? HANDLER_TOMBSTONE then remove_loop table msg_type positions
      else if hs_msg_type slot =? msg_type then Ok (<[pos := HandlerSlot HANDLER_TOMBSTONE 0 0]> table)
      else remove_loop table msg_type positions
  end.

Definition handler_table_remove (table : list handler_slot) (msg_type : Z) : result (list handler_slot) :=
  remove_loop table msg_type (probes msg_type).

(** ** Probe sequences *)

Definition live (k : Z) : Prop := k ≠ 0 ∧ k ≠ HANDLER_TOMBSTONE.
#[export] Instance live_dec k : Decision (live k).
Proof. unfold live. apply _. Defined.

(** A probe for [k] ends at an empty slot or at the slot of [k]. *)
Definition stop (table : list handler_slot) (k : Z) (pos : nat) : Prop :=
  hs_msg_type (table !!! pos) = 0 ∨ hs_msg_type (table !!! pos) = k.
#[export] Instance stop_dec table k pos : Decision (stop table k pos).
Proof. unfold stop. apply _. Defined.

Definition probed (table : list handler_slot) (k : Z) : option (nat * nat) :=
  list_find (stop table k) (probes k).

Lemma slot_probe_mod k i : probe k i = Z.to_nat ((handler_hash k + Z.of_nat i) mod 64).
Proof.
  unfold probe, HANDLER_TABLE_MASK. change 63 with (Z.ones 6).
  rewrite !Z.land_ones by lia. change (2 ^ 6) with 64. by rewrite Zplus_mod_idemp_l.
Qed.

Lemma slot_probe_inj k i j : (i < 64)%nat → (j < 64)%nat → probe k i = probe k j → i = j.
Proof. rewrite !slot_probe_mod. intros Hi Hj. set (h := handler_hash k). Z.to_euclidean_division_equations. lia. Qed.

Lemma probe_onto k pos : (pos < 64)%nat → ∃ i, (i < 64)%nat ∧ probe k i = pos.
Proof.
  intros Hp. exists (Z.to_nat ((Z.of_nat pos - handler_hash k) mod 64)). rewrite !slot_probe_mod.
  set (h := handler_hash k). Z.to_euclidean_division_equations. lia.
Qed.

Lemma probe_bound k i : (probe k i < 64)%nat.
Proof. rewrite slot_probe_mod. set (h := handler_hash k). Z.to_euclidean_division_equations. lia. Qed.

Lemma probes_lookup k i pos : probes k !! i = Some pos ↔ (i < 64)%nat ∧ pos = probe k i.
Proof.
  unfold probes. rewrite list_lookup_fmap. split.
  - destruct (seq 0 HANDLER_TABLE_SIZE !! i) eqn:E; [|done]. intros [= <-].
    apply lookup_seq in E as [-> ?]. split; [assumption|reflexivity].
  - intros [Hi ->]. by rewrite lookup_seq_lt.
Qed.

Lemma probes_all k pos : pos ∈ probes k ↔ (pos < 64)%nat.
Proof.
  rewrite list_elem_of_lookup. setoid_rewrite probes_lookup. split.
  - intros (i & _ & ->). apply probe_bound.
  - intros Hp. destruct (probe_onto k pos Hp) as (i & Hi & <-). eauto.
Qed.

Lemma probed_some table k i pos :
  probed table k = Some (i, pos) ↔
  (i < 64)%nat ∧ pos = probe k i ∧ stop table k pos ∧ ∀ j, (j < i)%nat → ¬ stop table k (probe k j).
Proof.
  unfold probed. rewrite list_find_Some, probes_lookup. split.
  - intros ((Hi & ->) & Hs & Hb). repeat split; auto. intros j Hj. apply (Hb j); [|assumption].
    apply probes_lookup. split; [lia|reflexivity].
  - intros (Hi & -> & Hs & Hb). repeat split; auto. intros j y [_ ->]%probes_lookup Hj. by apply Hb.
Qed.

Lemma probed_none table k pos : probed table k = None → (pos < 64)%nat → ¬ stop table k pos.
Proof. unfold probed. rewrite list_find_None, list.Forall_forall. intros H Hp. apply H. by apply probes_all. Qed.

(** ** The loops follow the probe *)

Lemma find_loop_spec table k ps : live k →
  find_loop table k ps =
  match list_find (stop table k) ps with
  | Some (_, pos) => if hs_msg_type (table !!! pos) =? k then Some (table !!! pos) else None
  | None => None
  end.
Proof.
  intros [H0 Ht]. induction ps as [|pos ps IH]; [reflexivity|]. cbn [find_loop list_find].
  destruct (Z.eqb_spec (hs_msg_type (table !!! pos)) 0) as [E0|E0].
  { rewrite decide_True by (left; exact E0). destruct (Z.eqb_spec (hs_msg_type (table !!! pos)) k); congruence. }
  destruct (Z.eqb_spec (hs_msg_type (table !!! pos)) HANDLER_TOMBSTONE) as [Et|Et].
  { rewrite decide_False by (intros [?|?]; congruence). rewrite IH. by destruct (list_find _ ps) as [[]|]. }
  destruct (Z.eqb_spec (hs_msg_type (table !!! pos)) k) as [Ek|Ek].
  { rewrite decide_True by (right; exact Ek). by rewrite Ek, Z.eqb_refl. }
  rewrite decide_False by (intros [?|?]; congruence). rewrite IH. by destruct (list_find _ ps) as [[]|].
Qed.

Lemma handler_table_find_spec table k : live k →
  handler_table_find table k =
  match probed table k with
  | Some (_, pos) => if hs_msg_type (table !!! pos) =? k then Some (table !!! pos) else None
  | None => None
  end.
Proof. apply find_loop_spec. Qed.

Lemma remove_loop_spec table k ps : live k →
  remove_loop table k ps =
  match list_find (stop table k) ps with
  | Some (_, pos) =>
      if hs_msg_type (table !!! pos) =? k then Ok (<[pos := HandlerSlot HANDLER_TOMBSTONE 0 0]> table)
      else Err DISTRIC_ERR_NOT_FOUND
  | None => Err DISTRIC_ERR_NOT_FOUND
  end.
Proof.
  intros [H0 Ht]. induction ps as [|pos ps IH]; [reflexivity|]. cbn [remove_loop list_find].
  destruct (Z.eqb_spec (hs_msg_type (table !!! pos)) 0) as [E0|E0].
  { rewrite decide_True by (left; exact E0). destruct (Z.eqb_spec (hs_msg_type (table !!! pos)) k); congruence. }
  destruct (Z.eqb_spec (hs_msg_type (table !!! pos)) HANDLER_TOMBSTONE) as [Et|Et].
  { rewrite decide_False by (intros [?|?]; congruence). rewrite IH. by destruct (list_find _ ps) as [[]|]. }
  destruct (Z.eqb_spec (hs_msg_type (table !!! pos)) k) as [Ek|Ek].
  { rewrite decide_True by (right; exact Ek). by rewrite Ek, Z.eqb_refl. }
  rewrite decide_False by (intros [?|?]; congruence). rewrite IH. by destruct (list_find _ ps) as [[]|].
Qed.

(** The tombstone the insertion has seen after the positions [ps]. *)
Definition recycled (table : list handler_slot) (tombstone_idx : option nat) (ps : list nat) : option nat :=
  match tombstone_idx with
  | Some t => Some t
  | None => snd <$> list_find (λ pos, hs_msg_type (table !!! pos) = HANDLER_TOMBSTONE) ps
  end.

Lemma recycled_cons table tomb pos ps :
  recycled table tomb (pos :: ps) =
  recycled table (if (hs_msg_type (table !!! pos) =? HANDLER_TOMBSTONE) && bool_decide (tomb = None)
                  then Some pos else tomb) ps.
Proof.
  destruct tomb as [t|]; cbn [recycled].
  - rewrite (bool_decide_false (Some t = None)) by done. by rewrite andb_false_r.
  - rewrite (bool_decide_true (None = None)) by done. rewrite andb_true_r. cbn [list_find].
    destruct (Z.eqb_spec (hs_msg_type (table !!! pos)) HANDLER_TOMBSTONE) as [E|E]; cbn [recycled].
    + by rewrite decide_True by exact E.
    + rewrite decide_False by exact E. by destruct (list_find _ ps) as [[]|].
Qed.

Lemma insert_loop_spec table new ps : live (hs_msg_type new) → ∀ tomb,
  insert_loop table new tomb ps =
  match list_find (stop table (hs_msg_type new)) ps with
  | Some (i, pos) =>
      if hs_msg_type (table !!! pos) =? hs_msg_type new then Ok (<[pos := new]> table)
      else Ok (<[default pos (recycled table tomb (take i ps)) := new]> table)
  | None =>
      match recycled table tomb ps with
      | Some t => Ok (<[t := new]> table)
      | None => Err DISTRIC_ERR_REGISTRY_FULL
      end
  end.
Proof.
  intros [H0 Ht]. induction ps as [|pos ps IH]; intros tomb; [by destruct tomb|].
  rewrite recycled_cons. cbn [insert_loop list_find].
  set (tomb' := if _ && _ then Some pos else tomb).
  destruct (Z.eqb_spec (hs_msg_type (table !!! pos)) (hs_msg_type new)) as [Ek|Ek].
  { rewrite decide_True by (right; exact Ek). rewrite Ek, Z.eqb_refl. by destruct new. }
  destruct (Z.eqb_spec (hs_msg_type (table !!! pos)) 0) as [E0|E0].
  { rewrite decide_True by (left; exact E0). destruct (Z.eqb_spec (hs_msg_type (table !!! pos)) (hs_msg_type new)); [done|].
    subst tomb'. rewrite E0. cbn. destruct tomb; reflexivity. }
  rewrite decide_False by (intros [?|?]; congruence). rewrite IH.
  destruct (list_find _ ps) as [[i p]|]; cbn [fmap option_fmap option_map prod_map fst snd]; [|done].
  cbn [take]. by rewrite recycled_cons.
Qed.

Lemma recycled_in table ps t :
  recycled table None ps = Some t → ∃ j, ps !! j = Some t ∧ hs_msg_type (table !!! t) = HANDLER_TOMBSTONE.
Proof.
  cbn [recycled]. destruct (list_find _ ps) as [[j p]|] eqn:E; [|done]. intros [= <-].
  apply list_find_Some in E as (? & ? & _). eauto.
Qed.

Lemma recycled_none table ps pos :
  recycled table None ps = None → pos ∈ ps → hs_msg_type (table !!! pos) ≠ HANDLER_TOMBSTONE.
Proof.
  cbn [recycled]. destruct (list_find _ ps) as [[j p]|] eqn:E; [done|]. intros _ Hin.
  rewrite list_find_None, list.Forall_forall in E. by apply E.
Qed.

(** ** The table as a map *)

Record represents (table : list handler_slot) (m : gmap Z (Z * Z)) : Prop := {
  tb_size : length table = HANDLER_TABLE_SIZE;
  tb_found : ∀ pos k, (pos < 64)%nat → live k → hs_msg_type (table !!! pos) = k →
    ∃ i, probed table k = Some (i, pos);
  tb_map : ∀ k h u, m !! k = Some (h, u) ↔
    live k ∧ ∃ pos, (pos < 64)%nat ∧ table !!! pos = HandlerSlot k h u
}.

Lemma empty_table_slot pos : empty_table !!! pos = HandlerSlot 0 0 0.
Proof.
  destruct (decide (pos < 64)%nat).
  - by apply lookup_total_replicate_2.
  - rewrite list_lookup_total_alt, lookup_ge_None_2 by (unfold empty_table, HANDLER_TABLE_SIZE; rewrite length_replicate; lia).
    reflexivity.
Qed.

Lemma empty_represents : represents empty_table ∅.
Proof.
  split.
  - reflexivity.
  - intros pos k _ [? ?] E. rewrite empty_table_slot in E. cbn in E. congruence.
  - intros k h u. rewrite lookup_empty. split; [done|]. intros ([? ?] & pos & _ & E). rewrite empty_table_slot in E. congruence.
Qed.

Lemma represents_lookup table m k : represents table m → live k →
  match probed table k with
  | Some (_, pos) =>
      (pos < 64)%nat ∧
      (hs_msg_type (table !!! pos) = k ∧ m !! k = Some (hs_handler (table !!! pos), hs_userdata (table !!! pos)) ∨
       hs_msg_type (table !!! pos) = 0 ∧ m !! k = None)
  | None => m !! k = None
  end.
Proof.
  intros R Hk.
  assert (Hkey : ∀ h u, m !! k = Some (h, u) → ∃ i pos, probed table k = Some (i, pos) ∧ hs_msg_type (table !!! pos) = k).
  { intros h u [_ (pos & Hp & E)]%(tb_map _ _ R). destruct (tb_found _ _ R pos k Hp Hk) as [i Hi]; [by rewrite E|].
    exists i, pos. by rewrite E. }
  destruct (probed table k) as [[i pos]|] eqn:E.
  - apply probed_some in E as (Hi & -> & [Hs|Hs] & _); (split; [apply probe_bound|]).
    + right. split; [exact Hs|]. destruct (m !! k) as [[h u]|] eqn:Em; [|done].
      destruct (Hkey h u eq_refl) as (? & ? & [= _ <-] & Hx). destruct Hk. congruence.
    + left. split; [exact Hs|]. apply (tb_map _ _ R). split; [exact Hk|]. exists (probe k i).
      split; [apply probe_bound|]. destruct (table !!! probe k i). cbn in Hs. by subst.
  - destruct (m !! k) as [[h u]|] eqn:Em; [|done]. by destruct (Hkey h u eq_refl) as (? & ? & [=] & _).
Qed.

(** A slot that held [k], a tombstone or nothing is written. *)
Lemma represents_written table m k i n s :
  represents table m → live k → (n < 64)%nat → n = probe k i → (i < 64)%nat →
  (∀ j, (j < i)%nat → ¬ stop table k (probe k j)) →
  (hs_msg_type (table !!! n) = k ∨ hs_msg_type (table !!! n) = HANDLER_TOMBSTONE ∧ m !! k = None ∨
   hs_msg_type (table !!! n) = 0 ∧ m !! k = None) →
  hs_msg_type s = k ∨ hs_msg_type s = HANDLER_TOMBSTONE →
  represents (<[n := s]> table)
    (partial_alter (λ _, if decide (hs_msg_type s = k) then Some (hs_handler s, hs_userdata s) else None) k m).
Proof.
  intros R Hk Hn Hni Hi Hbefore Hold Hs.
  assert (Hlen : (n < length table)%nat) by by rewrite (tb_size _ _ R).
  assert (Hat : <[n := s]> table !!! n = s) by by apply list_lookup_total_insert_eq.
  assert (Hother : ∀ p, p ≠ n → <[n := s]> table !!! p = table !!! p)
    by (intros p Hp; apply list_lookup_total_insert_ne; congruence).
  assert (Hs0 : hs_msg_type s ≠ 0) by (destruct Hs as [-> | ->]; [apply Hk|done]).
  assert (Hold_other : ∀ k', live k' → k' ≠ k → hs_msg_type (table !!! n) ≠ k').
  { intros k' [? ?] Hne. destruct Hold as [E|[[E _]|[E _]]]; rewrite E; intros <-; auto. }
  assert (Honly : ∀ p, (p < 64)%nat → hs_msg_type (table !!! p) = k → p = n).
  { intros p Hp E. destruct (tb_found _ _ R p k Hp Hk E) as [j Hj].
    destruct Hold as [En|[[_ Em]|[_ Em]]].
    - destruct (tb_found _ _ R n k Hn Hk En) as [j' Hj']. congruence.
    - assert (m !! k = Some (hs_handler (table !!! p), hs_userdata (table !!! p))) as Hx; [|congruence].
      apply (tb_map _ _ R). split; [done|]. exists p. split; [done|]. destruct (table !!! p); cbn in *; congruence.
    - assert (m !! k = Some (hs_handler (table !!! p), hs_userdata (table !!! p))) as Hx; [|congruence].
      apply (tb_map _ _ R). split; [done|]. exists p. split; [done|]. destruct (table !!! p); cbn in *; congruence. }
  split.
  - rewrite length_insert. apply (tb_size _ _ R).
  - intros pos k' Hp Hk' E. destruct (decide (pos = n)) as [Epos|Hne].
    + rewrite Epos in E |- *. rewrite Hat in E. assert (k' = k) as -> by (destruct Hk'; destruct Hs; congruence).
      exists i. apply probed_some. split; [done|]. split; [exact Hni|]. split; [right; by rewrite Hat|].
      intros j Hj. unfold stop. rewrite Hother; [by apply Hbefore|]. rewrite Hni. intros Ej%slot_probe_inj; lia.
    + rewrite Hother in E by done. assert (k' ≠ k) by (intros ->; by apply Hne, Honly).
      destruct (tb_found _ _ R pos k' Hp Hk' E) as [j Hj]. exists j.
      apply probed_some in Hj as (Hj & -> & Hst & Hb). apply probed_some. split; [done|]. split; [done|].
      split; [unfold stop; by rewrite Hother|]. intros j' Hj'. unfold stop.
      destruct (decide (probe k' j' = n)) as [->|]; [|rewrite Hother by done; by apply Hb].
      rewrite Hat. intros [?|E']; [done|]. destruct Hk'. destruct Hs; congruence.
  - intros k' h u. destruct (decide (k' = k)) as [->|Hne'].
    + rewrite lookup_partial_alter_eq. case_decide as Es.
      * split.
        -- intros [= <- <-]. split; [done|]. exists n. split; [done|]. rewrite Hat. destruct s; cbn in *; congruence.
        -- intros (_ & p & Hp & E). destruct (decide (p = n)) as [->|Hpn].
           ++ rewrite Hat in E. by subst s.
           ++ rewrite Hother in E by done. destruct Hpn. apply Honly; [done|]. by rewrite E.
      * split; [done|]. intros (_ & p & Hp & E). destruct (decide (p = n)) as [->|Hpn].
        -- rewrite Hat in E. by subst s.
        -- rewrite Hother in E by done. destruct Hpn. apply Honly; [done|]. by rewrite E.
    + rewrite lookup_partial_alter_ne by congruence. rewrite (tb_map _ _ R). split; intros (Hk' & p & Hp & E); (split; [exact Hk'|]).
      * exists p. split; [done|]. rewrite Hother; [done|].
        intros ->. apply (Hold_other k' Hk' Hne'). by rewrite E.
      * exists p. split; [done|]. destruct (decide (p = n)) as [->|Hpn].
        -- rewrite Hat in E. subst s. cbn in Hs. destruct Hk'. destruct Hs; congruence.
        -- by rewrite Hother in E.
Qed.

(** ** Counting the slots *)

Lemma map_size_le (m : gmap Z (Z * Z)) (l : list Z) : (∀ k, k ∈ dom m → k ∈ l) → (size m ≤ length l)%nat.
Proof.
  intros H. rewrite <-size_dom. change (size (dom m)) with (length (elements (dom m))).
  apply submseteq_length, NoDup_submseteq; [apply NoDup_elements|]. intros k Hk%elem_of_elements. by apply H.
Qed.

Lemma map_size_ge (m : gmap Z (Z * Z)) (l : list Z) : NoDup l → (∀ k, k ∈ l → k ∈ dom m) → (length l ≤ size m)%nat.
Proof.
  intros Hl H. rewrite <-size_dom, <-(size_list_to_set (C := gset Z) l Hl). apply subseteq_size.
  intros k Hk%elem_of_list_to_set. by apply H.
Qed.

Lemma key_slot table m k : represents table m → k ∈ dom m →
  live k ∧ ∃ pos, (pos < 64)%nat ∧ hs_msg_type (table !!! pos) = k.
Proof.
  intros R [[h u] E]%elem_of_dom. apply (tb_map _ _ R) in E as (Hk & pos & Hp & E).
  split; [done|]. exists pos. by rewrite E.
Qed.

(** A slot without a handler leaves room. *)
Lemma free_slot_room table m t : represents table m → (t < 64)%nat → ¬ live (hs_msg_type (table !!! t)) →
  (size m < 64)%nat.
Proof.
  intros R Ht Hf.
  assert (Hall : length (seq 0 t ++ seq (S t) (63 - t)) = 63%nat) by (rewrite length_app, !length_seq; lia).
  enough (size m ≤ length ((λ p, hs_msg_type (table !!! p)) <$> seq 0 t ++ seq (S t) (63 - t)))%nat as Hle.
  { rewrite length_fmap, Hall in Hle. lia. }
  apply map_size_le. intros k Hk. destruct (key_slot _ _ _ R Hk) as (Hlive & pos & Hp & E).
  apply list_elem_of_fmap. exists pos. split; [by rewrite E|].
  destruct (decide (pos = t)) as [->|]; [by rewrite E in Hf|].
  rewrite elem_of_app, !elem_of_seq. lia.
Qed.

(** A table whose slots all hold a handler is full. *)
Lemma no_free_slot_full table m : represents table m →
  (∀ pos, (pos < 64)%nat → live (hs_msg_type (table !!! pos))) → (64 ≤ size m)%nat.
Proof.
  intros R Hall. set (l := (λ p, hs_msg_type (table !!! p)) <$> seq 0 64).
  change 64%nat with (length l). apply map_size_ge.
  - apply NoDup_fmap_2_strong; [|apply NoDup_seq]. intros x y Hx%elem_of_seq Hy%elem_of_seq E.
    destruct (tb_found _ _ R x _ ltac:(lia) (Hall x ltac:(lia)) eq_refl) as [i Hi].
    destruct (tb_found _ _ R y _ ltac:(lia) (Hall y ltac:(lia)) eq_refl) as [j Hj]. congruence.
  - intros k (p & -> & Hp%elem_of_seq)%list_elem_of_fmap. apply elem_of_dom.
    exists (hs_handler (table !!! p), hs_userdata (table !!! p)). apply (tb_map _ _ R).
    split; [apply Hall; lia|]. exists p. split; [lia|]. by destruct (table !!! p).
Qed.

Lemma map_bounded table m : represents table m → (size m ≤ 64)%nat.
Proof.
  intros R. enough (size m ≤ length ((λ p, hs_msg_type (table !!! p)) <$> seq 0 64))%nat as H by exact H.
  apply map_size_le. intros k Hk. destruct (key_slot _ _ _ R Hk) as (_ & pos & Hp & E).
  apply list_elem_of_fmap. exists pos. split; [by rewrite E|]. apply elem_of_seq. lia.
Qed.

(** ** The operations *)

Lemma find_represents table m k : represents table m → live k →
  (λ s, (hs_handler s, hs_userdata s)) <$> handler_table_find table k = m !! k.
Proof.
  intros R Hk. rewrite handler_table_find_spec by done. pose proof (represents_lookup _ _ _ R Hk) as H.
  destruct (probed table k) as [[i pos]|]; [|done]. destruct H as (_ & [[E Em]|[E Em]]); rewrite E, Em.
  - by rewrite Z.eqb_refl.
  - destruct (Z.eqb_spec 0 k); [|done]. by destruct Hk.
Qed.

Lemma write_represents table m k i n h u :
  represents table m → live k → n = probe k i → (i < 64)%nat →
  (∀ j, (j < i)%nat → ¬ stop table k (probe k j)) →
  (hs_msg_type (table !!! n) = k ∨ hs_msg_type (table !!! n) = HANDLER_TOMBSTONE ∧ m !! k = None ∨
   hs_msg_type (table !!! n) = 0 ∧ m !! k = None) →
  represents (<[n := HandlerSlot k h u]> table) (<[k := (h, u)]> m).
Proof.
  intros R Hk Hn Hi Hb Hold.
  replace (<[k := (h, u)]> m) with (partial_alter (λ _, if decide (k = k) then Some (h, u) else None) k m)
    by (rewrite decide_True by done; reflexivity).
  apply (represents_written table m k i n (HandlerSlot k h u)); try done.
  - rewrite Hn. apply probe_bound.
  - by left.
Qed.

Lemma insert_represents table m k h u : represents table m → live k →
  match handler_table_insert table k h u with
  | Ok table' => (m !! k ≠ None ∨ (size m < 64)%nat) ∧ represents table' (<[k := (h, u)]> m)
  | Err e => e = DISTRIC_ERR_REGISTRY_FULL ∧ m !! k = None ∧ size m = 64%nat
  | Fault => False
  end.
Proof.
  intros R Hk. unfold handler_table_insert. rewrite insert_loop_spec by exact Hk. cbn [hs_msg_type].
  change (list_find _ _) with (probed table k). pose proof (represents_lookup _ _ _ R Hk) as H.
  destruct (probed table k) as [[i pos]|] eqn:E.
  - apply probed_some in E as (Hi & Hpos & _ & Hb). destruct H as (Hp & [[Et Em]|[Et Em]]); rewrite Et.
    + rewrite Z.eqb_refl. split; [left; by rewrite Em|]. apply (write_represents _ _ _ i); auto.
    + destruct (Z.eqb_spec 0 k); [by destruct Hk|].
      destruct (recycled table None (take i (probes k))) as [t|] eqn:Er; cbn [default from_option].
      * apply recycled_in in Er as (j & Hj & Htt). apply lookup_take_Some in Hj as [Hj Hji].
        apply probes_lookup in Hj as [Hj ->]. split.
        -- right. apply (free_slot_room table m (probe k j)); [done|apply probe_bound|]. rewrite Htt. by intros [_ ?].
        -- apply (write_represents _ _ _ j); auto. intros j' Hj'. apply Hb. lia.
      * split; [right; apply (free_slot_room table m pos); [done..|]; rewrite Et; by intros [? _]|].
        apply (write_represents _ _ _ i); auto.
  - destruct (recycled table None (probes k)) as [t|] eqn:Er.
    + apply recycled_in in Er as (j & Hj & Htt). apply probes_lookup in Hj as [Hj ->]. split.
      * right. apply (free_slot_room table m (probe k j)); [done|apply probe_bound|]. rewrite Htt. by intros [_ ?].
      * apply (write_represents _ _ _ j); auto. intros j' Hj'. apply (probed_none _ _ _ E), probe_bound.
    + split; [done|]. split; [done|]. pose proof (map_bounded _ _ R).
      enough (64 ≤ size m)%nat by lia. apply (no_free_slot_full table m R). intros pos Hp. split.
      * intros E0. apply (probed_none _ _ _ E Hp). by left.
      * apply (recycled_none _ _ _ Er). by apply probes_all.
Qed.

Lemma remove_represents table m k : represents table m → live k →
  match handler_table_remove table k with
  | Ok table' => m !! k ≠ None ∧ represents table' (delete k m)
  | Err e => e = DISTRIC_ERR_NOT_FOUND ∧ m !! k = None
  | Fault => False
  end.
Proof.
  intros R Hk. unfold handler_table_remove. rewrite remove_loop_spec by exact Hk.
  change (list_find _ _) with (probed table k). pose proof (represents_lookup _ _ _ R Hk) as H.
  destruct (probed table k) as [[i pos]|] eqn:E; [|done].
  apply probed_some in E as (Hi & Hpos & _ & Hb). destruct H as (Hp & [[Et Em]|[Et Em]]); rewrite Et.
  - rewrite Z.eqb_refl. split; [by rewrite Em|].
    replace (delete k m) with (partial_alter (λ _ : option (Z * Z), if decide (HANDLER_TOMBSTONE = k) then Some (0, 0) else None) k m)
      by (rewrite decide_False by (intros <-; by destruct Hk); reflexivity).
    apply (represents_written table m k i pos (HandlerSlot HANDLER_TOMBSTONE 0 0)); auto.
  - destruct (Z.eqb_spec 0 k); [by destruct Hk|done].
Qed.

Inductive table_op :=
  | TableInsert (msg_type handler userdata : Z)
  | TableRemove (msg_type : Z)
  | TableFind (msg_type : Z).

Inductive table_answer :=
  | TableDone (code : distric_err)
  | TableFound (handler : option (Z * Z)).

Definition op_key (op : table_op) : Z :=
  match op with TableInsert k _ _ | TableRemove k | TableFind k => k end.

Definition table_step (op : table_op) (table : list handler_slot) : result (table_answer * list handler_slot) :=
  match op with
  | TableInsert k h u =>
      match handler_table_insert table k h u with
      | Ok table => Ok (TableDone DISTRIC_OK, table)
      | Err e => Ok (TableDone e, table)
      | Fault => Fault
      end
  | TableRemove k =>
      match handler_table_remove table k with
      | Ok table => Ok (TableDone DISTRIC_OK, table)
      | Err e => Ok (TableDone e, table)
      | Fault => Fault
      end
  | TableFind k => Ok (TableFound (option_map (λ s, (hs_handler s, hs_userdata s)) (handler_table_find table k)), table)
  end.

Fixpoint table_run (ops : list table_op) (table : list handler_slot) : result (list table_answer * list handler_slot) :=
  match ops with
  | [] => Ok ([], table)
  | op :: ops =>
      r ← table_step op table;
      rs ← table_run ops r.2;
      Ok (r.1 :: rs.1, rs.2)
  end.

(** The reference: a map of at most 64 types. *)
Definition map_step (op : table_op) (m : gmap Z (Z * Z)) : table_answer * gmap Z (Z * Z) :=
  match op with
  | TableInsert k h u =>
      if bool_decide (m !! k = None) && (size m =? 64)%nat then (TableDone DISTRIC_ERR_REGISTRY_FULL, m)
      else (TableDone DISTRIC_OK, <[k := (h, u)]> m)
  | TableRemove k =>
      if bool_decide (m !! k = None) then (TableDone DISTRIC_ERR_NOT_FOUND, m)
      else (TableDone DISTRIC_OK, delete k m)
  | TableFind k => (TableFound (m !! k), m)
  end.

Fixpoint map_run (ops : list table_op) (m : gmap Z (Z * Z)) : list table_answer * gmap Z (Z * Z) :=
  match ops with
  | [] => ([], m)
  | op :: ops => let r := map_step op m in let rs := map_run ops r.2 in (r.1 :: rs.1, rs.2)
  end.

#[local] Opaque handler_table_find handler_table_insert handler_table_remove.

Lemma table_step_refines op table m : represents table m → live (op_key op) →
  ∃ table', table_step op table = Ok ((map_step op m).1, table') ∧ represents table' (map_step op m).2.
Proof.
  intros R Hk. destruct op as [k h u|k|k]; cbn [op_key] in Hk; cbn [table_step map_step].
  - pose proof (insert_represents table m k h u R Hk) as H. destruct (handler_table_insert table k h u) as [t'|e|]; [| |done].
    + destruct H as ([Hm|Hm] & R'); exists t'.
      * rewrite bool_decide_false by done. done.
      * destruct (Nat.eqb_spec (size m) 64); [lia|]. rewrite andb_false_r. done.
    + destruct H as (-> & Hm & Hs). exists table. rewrite bool_decide_true by done. by rewrite Hs.
  - pose proof (remove_represents table m k R Hk) as H. destruct (handler_table_remove table k) as [t'|e|]; [| |done].
    + destruct H as (Hm & R'). exists t'. by rewrite bool_decide_false by done.
    + destruct H as (-> & Hm). exists table. by rewrite bool_decide_true by done.
  - exists table. rewrite <-(find_represents table m k R Hk). split; [|exact R].
    generalize (handler_table_find table k). reflexivity.
Qed.

Lemma table_run_refines ops : ∀ table m, represents table m → Forall (λ op, live (op_key op)) ops →
  ∃ table', table_run ops table = Ok ((map_run ops m).1, table') ∧ represents table' (map_run ops m).2.
Proof.
  induction ops as [|op ops IH]; intros table m R Hops; [by exists table|].
  apply list.Forall_cons in Hops as [Hop Hops]. destruct (table_step_refines op table m R Hop) as (t1 & E1 & R1).
  destruct (IH t1 _ R1 Hops) as (t2 & E2 & R2). exists t2. cbn [table_run map_run fst snd].
  rewrite E1. cbn [mbind result_bind snd fst]. rewrite E2. done.
Qed.

#[local] Transparent handler_table_find handler_table_insert handler_table_remove.

(** ** Properties *)

(** C25: for every sequence of registrations, removals and lookups of message types
    other than 0 and 0xFFFF the table answers as a map that holds at most 64 types:
    a lookup finds the handler registered last, a registration is refused exactly
    when 64 other types are registered, a removal exactly when the type is not. *)
Theorem handler_table_refines ops :
  Forall (λ op, live (op_key op)) ops →
  ∃ table, table_run ops empty_table = Ok ((map_run ops ∅).1, table) ∧ represents table (map_run ops ∅).2.
Proof. intros Hops. apply table_run_refines; [apply empty_represents|exact Hops]. Qed.

(** The probes of 0x1001, 0x105A and 0x1091 begin at the same slot. *)
Definition example_table_ops : list table_op :=
  [TableInsert 0x1001 7 70; TableInsert 0x105A 8 80; TableFind 0x105A; TableRemove 0x1001; TableFind 0x105A;
   TableInsert 0x105A 9 90; TableInsert 0x1091 1 10; TableFind 0x1091; TableRemove 0x1001; TableFind 0x105A].

Lemma handler_table_refines_witness :
  ∃ table, table_run example_table_ops empty_table = Ok ((map_run example_table_ops ∅).1, table) ∧
    represents table (map_run example_table_ops ∅).2.
Proof. apply (handler_table_refines example_table_ops). apply (bool_decide_unpack _). by vm_compute. Defined.

Lemma find_loop_sentinel table k ps : ¬ live k → find_loop table k ps = None.
Proof.
  intros Hk. induction ps as [|pos ps IH]; [done|]. cbn [find_loop].
  destruct (Z.eqb_spec (hs_msg_type (table !!! pos)) 0); [done|].
  destruct (Z.eqb_spec (hs_msg_type (table !!! pos)) HANDLER_TOMBSTONE); [done|].
  destruct (Z.eqb_spec (hs_msg_type (table !!! pos)) k) as [<-|]; [|done]. by destruct Hk.
Qed.

Lemma probes_cons k : probes k = probe k 0 :: (probe k <$> seq 1 63).
Proof. reflexivity. Qed.

Lemma first_slot_free table k h u : table !!! probe k 0 = HandlerSlot 0 0 0 →
  ∃ table', handler_table_insert table k h u = Ok table'.
Proof.
  intros E. unfold handler_table_insert. rewrite probes_cons. generalize (probe k <$> seq 1 63). intros ps.
  cbn [insert_loop hs_msg_type]. rewrite E. cbn [hs_msg_type].
  destruct (0 =? k); [by eexists|]. change (0 =? 0) with true. by eexists.
Qed.

(** A registration for the type 0 or 0xFFFF in a new table is confirmed, and no
    table ever finds a handler for these types. *)
Theorem sentinel_types_lost k h u : k = 0 ∨ k = HANDLER_TOMBSTONE →
  (∃ table, handler_table_insert empty_table k h u = Ok table) ∧ ∀ table, handler_table_find table k = None.
Proof.
  intros Hk. split.
  - apply first_slot_free, empty_table_slot.
  - intros table. apply find_loop_sentinel. intros [? ?]. by destruct Hk.
Qed.

Lemma sentinel_types_lost_witness :
  (∃ table, handler_table_insert empty_table 0xFFFF 7 70 = Ok table) ∧ ∀ table, handler_table_find table 0xFFFF = None.
Proof. apply (sentinel_types_lost 0xFFFF 7 70). by right. Defined.
