(* ===== verification/RpcErrors.v ===== *)
(** * Error codes at the RPC layer (libs/distric_protocol/src/rpc.c)

    The calls of the transport answer with an [int] that is a number of bytes or an
    error code; here are the codes, the classes that decide about retries and the
    translation of what [tcp_recv] returns. *)

From Stdlib Require Import ZArith Lia List String.
From S2P Require Import Prelude Binary SendQueue TransportConfig CircuitBreaker TcpConnection.

Local Open Scope Z_scope.

(** ** Codes *)

(** The values of the enumerators of [distric_err_t]. *)
Definition distric_err_code (e : distric_err) : Z :=
  match e with
  | DISTRIC_OK => 0
  | DISTRIC_ERR_INVALID_ARG => -1
  | DISTRIC_ERR_ALLOC_FAILURE => -2
  | DISTRIC_ERR_INIT_FAILED => -3
  | DISTRIC_ERR_REGISTRY_FULL => -4
  | DISTRIC_ERR_NOT_FOUND => -5
  | DISTRIC_ERR_BUFFER_OVERFLOW => -6
  | DISTRIC_ERR_BACKPRESSURE => -7
  | DISTRIC_ERR_INVALID_LABEL => -8
  | DISTRIC_ERR_HIGH_CARDINALITY => -9
  | DISTRIC_ERR_REGISTRY_FROZEN => -10
  | DISTRIC_ERR_NO_MEMORY => -11
  | DISTRIC_ERR_ALREADY_EXISTS => -12
  | DISTRIC_ERR_SHUTDOWN => -13
  | DISTRIC_ERR_IO => -14
  | DISTRIC_ERR_INVALID_STATE => -15
  | DISTRIC_ERR_THREAD => -16
  | DISTRIC_ERR_TIMEOUT => -17
  | DISTRIC_ERR_EOF => -18
  | DISTRIC_ERR_INVALID_FORMAT => -19
  | DISTRIC_ERR_TYPE_MISMATCH => -20
  | DISTRIC_ERR_UNAVAILABLE => -21
  end.

(** The [int] that [tcp_send] and [tcp_recv] return. *)
Definition send_int (r : send_result) : Z :=
  match r with Sent n => n | SendErr e => distric_err_code e end.
Definition recv_int (r : recv_result) : Z :=
  match r with
  | Received data => s32 (Z.of_nat (length data))
  | ReceivedNothing => 0
  | RecvErr e => distric_err_code e
  end.

(** ** Classes *)

Inductive rpc_error_class :=
  | RPC_ERR_CLASS_OK | RPC_ERR_CLASS_TIMEOUT | RPC_ERR_CLASS_UNAVAILABLE | RPC_ERR_CLASS_OVERLOADED
  | RPC_ERR_CLASS_BACKPRESSURE | RPC_ERR_CLASS_INVALID | RPC_ERR_CLASS_INTERNAL.

#[export] Instance rpc_error_class_eq_dec : EqDecision rpc_error_class.
Proof. solve_decision. Defined.

Definition rpc_error_class_to_string (cls : rpc_error_class) : string :=
  match cls with
  | RPC_ERR_CLASS_OK => "ok"
  | RPC_ERR_CLASS_TIMEOUT => "timeout"
  | RPC_ERR_CLASS_UNAVAILABLE => "unavailable"
  | RPC_ERR_CLASS_OVERLOADED => "overloaded"
  | RPC_ERR_CLASS_BACKPRESSURE => "backpressure"
  | RPC_ERR_CLASS_INVALID => "invalid"
  | RPC_ERR_CLASS_INTERNAL => "internal"
  end%string.

(** A variable of type [distric_err_t] is an [int], which is not always the value
    of an enumerator. *)
Definition rpc_error_classify (err : Z) : rpc_error_class :=
  let code e := err =? distric_err_code e in
  if code DISTRIC_OK then RPC_ERR_CLASS_OK
  else if code DISTRIC_ERR_TIMEOUT then RPC_ERR_CLASS_TIMEOUT
  else if code DISTRIC_ERR_UNAVAILABLE || code DISTRIC_ERR_IO || code DISTRIC_ERR_INIT_FAILED
    then RPC_ERR_CLASS_UNAVAILABLE
  else if code DISTRIC_ERR_BACKPRESSURE then RPC_ERR_CLASS_BACKPRESSURE
  else if code DISTRIC_ERR_INVALID_ARG || code DISTRIC_ERR_INVALID_FORMAT || code DISTRIC_ERR_TYPE_MISMATCH
    then RPC_ERR_CLASS_INVALID
  else if code DISTRIC_ERR_NO_MEMORY then RPC_ERR_CLASS_INTERNAL
  else RPC_ERR_CLASS_INTERNAL.

(** [errno] values of Linux; [EWOULDBLOCK] is [EAGAIN]. *)
Definition ETIMEDOUT : Z := 110.
Definition EAGAIN : Z := 11.

Definition translate_recv_error (rc timeout_ms : Z) : distric_err :=
  if rc =? distric_err_code DISTRIC_ERR_TIMEOUT then DISTRIC_ERR_TIMEOUT
  else if rc =? distric_err_code DISTRIC_ERR_EOF then DISTRIC_ERR_EOF
  else if (rc =? - ETIMEDOUT) || (rc =? - EAGAIN) then DISTRIC_ERR_TIMEOUT
  else if (rc =? 0) && (timeout_ms >? 0) then DISTRIC_ERR_TIMEOUT
  else if rc =? 0 then DISTRIC_ERR_EOF
  else DISTRIC_ERR_IO.

(** ** Deadlines *)

Definition make_abs_deadline (now : timespec) (timeout_ms : Z) : timespec :=
  let sec := tv_sec now + timeout_ms / 1000 in
  let nsec := tv_nsec now + timeout_ms mod 1000 * 1000000 in
  if nsec >=? 1000000000 then Timespec (sec + 1) (nsec - 1000000000) else Timespec sec nsec.

(** ** Lemmas *)

Lemma translate_recv_error_not_ok rc timeout_ms : translate_recv_error rc timeout_ms ≠ DISTRIC_OK.
Proof. unfold translate_recv_error. by repeat case_match. Qed.

Lemma distric_err_code_zero e : distric_err_code e = 0 → e = DISTRIC_OK.
Proof. by destruct e. Qed.

Lemma make_abs_deadline_spec now timeout_ms : 0 ≤ tv_nsec now < 1000000000 → 0 ≤ timeout_ms →
  let d := make_abs_deadline now timeout_ms in
  0 ≤ tv_nsec d < 1000000000 ∧
  tv_sec d * 1000000000 + tv_nsec d = tv_sec now * 1000000000 + tv_nsec now + timeout_ms * 1000000.
Proof.
  intros Hn Ht. unfold make_abs_deadline. rewrite Z.geb_leb.
  destruct (Z.leb_spec 1000000000 (tv_nsec now + timeout_ms mod 1000 * 1000000)); cbn [tv_sec tv_nsec];
    Z.to_euclidean_division_equations; lia.
Qed.

Lemma queue_or_refuse_errors data ret c e c' :
  queue_or_refuse data ret c = Ok (Some (SendErr e, c')) → e = DISTRIC_ERR_BACKPRESSURE.
Proof.
  unfold queue_or_refuse. case_match; [by intros [= <-]|]. intros ([pushed q] & _ & E)%bind_ok.
  destruct pushed; by simplify_eq.
Qed.

Lemma tcp_send_errors kernel c data e c' : tcp_send kernel c data = Ok (Some (SendErr e, c')) →
  e = DISTRIC_ERR_INVALID_ARG ∨ e = DISTRIC_ERR_IO ∨ e = DISTRIC_ERR_BACKPRESSURE.
Proof.
  unfold tcp_send. case_match; [intros [= <-]; auto|]. intros (flushed & _ & E)%bind_ok.
  destruct flushed as [[[] c1]|]; [|simplify_eq; auto|done].
  repeat case_match; simplify_eq; auto; right; right; by eapply queue_or_refuse_errors.
Qed.

(** What [tcp_send] answers is never the [int] 0. *)
Lemma send_int_nonzero kernel c data r c' :
  conn_wf c → Z.of_nat (length data) < 2 ^ 31 → tcp_send kernel c data = Ok (Some (r, c')) → send_int r ≠ 0.
Proof.
  intros Hc Hlen E. destruct (tcp_send_spec kernel c data Hc) as (r' & c'' & E' & _ & Hout & Hempty).
  rewrite E in E'. injection E' as <- <-. destruct r as [n|e]; cbn [send_int].
  - destruct Hout as [-> _]. assert (data ≠ []) as Hne by (intros Hd; by apply Hempty in Hd).
    rewrite <-(u32_id (Z.of_nat (length data))) by (unfold is_u32; ulia). rewrite s32_u32 by (unfold is_s32; ulia).
    destruct data; [done|]. cbn. lia.
  - intros ->%distric_err_code_zero. unfold send_outcome in Hout.
    destruct Hout as [_|[? _]]; [|done]. destruct (tcp_send_errors kernel c data DISTRIC_OK c' E) as [?|[?|?]]; done.
Qed.

(** What [tcp_send] can answer. *)
Definition tcp_send_answer (r : send_result) : Prop :=
  ∃ kernel c data c', conn_wf c ∧ Z.of_nat (length data) < 2 ^ 31 ∧ tcp_send kernel c data = Ok (Some (r, c')).

Lemma tcp_send_answer_nonzero r : tcp_send_answer r → send_int r ≠ 0.
Proof. intros (kernel & c & data & c' & Hc & Hl & E). by eapply send_int_nonzero. Qed.
