(* ===== verification/RpcServer.v ===== *)
(** * RPC server (libs/distric_protocol/src/rpc.c)

    A thread of the transport runs [rpc_server_handle_connection] for every
    connection.  It is a state machine whose turns access the shared server at most
    once: the flag [accepting_requests], an atomic counter, a counter under its lock
    or the table of handlers.  What the connection, the handler function, the clock
    and the allocator answer during a turn is the argument of the turn. *)

From Stdlib Require Import ZArith Lia List.
From stdpp Require Import gmap relations.
From S2P Require Import Prelude Crc32 Binary SendQueue TransportConfig CircuitBreaker TcpConnection HandlerTable RpcErrors.

Local Open Scope Z_scope.

Definition RECV_LOOP_TIMEOUT_MS : Z := 1000.
Definition RPC_MAX_MESSAGE_SIZE : Z := 16 * 1024 * 1024.
Definition RPC_DEFAULT_MAX_INFLIGHT : Z := 1024.
Definition RPC_DEFAULT_DRAIN_TIMEOUT_MS : Z := 5000.

(** ** The server *)

Record rpc_server_config := RpcServerConfig {
  max_inflight_requests : Z;
  drain_timeout_ms : Z;
  max_message_size : Z
}.

Record rpc_server := RpcServer {
  rs_table : list handler_slot;
  rs_active_requests : Z;          (* uint_fast32_t: 64 bits *)
  rs_max_inflight : Z;             (* uint32_t *)
  rs_handlers_count : Z;           (* size_t *)
  rs_accepting : bool;
  rs_drain_timeout_ms : Z;         (* uint32_t *)
  rs_max_message_size : Z          (* uint32_t *)
}.

Definition rs_set_table (t : list handler_slot) (s : rpc_server) : rpc_server :=
  RpcServer t (rs_active_requests s) (rs_max_inflight s) (rs_handlers_count s) (rs_accepting s)
    (rs_drain_timeout_ms s) (rs_max_message_size s).
Definition rs_set_requests (n : Z) (s : rpc_server) : rpc_server :=
  RpcServer (rs_table s) n (rs_max_inflight s) (rs_handlers_count s) (rs_accepting s)
    (rs_drain_timeout_ms s) (rs_max_message_size s).
Definition rs_set_count (n : Z) (s : rpc_server) : rpc_server :=
  RpcServer (rs_table s) (rs_active_requests s) (rs_max_inflight s) n (rs_accepting s)
    (rs_drain_timeout_ms s) (rs_max_message_size s).
Definition rs_set_accepting (b : bool) (s : rpc_server) : rpc_server :=
  RpcServer (rs_table s) (rs_active_requests s) (rs_max_inflight s) (rs_handlers_count s) b
    (rs_drain_timeout_ms s) (rs_max_message_size s).

Definition server_create_internal (config : option rpc_server_config) : rpc_server :=
  let or_default f default := match config with Some c => if f c =? 0 then default else f c | None => default end in
  RpcServer empty_table 0 (or_default max_inflight_requests RPC_DEFAULT_MAX_INFLIGHT) 0 false
    (or_default drain_timeout_ms RPC_DEFAULT_DRAIN_TIMEOUT_MS) (or_default max_message_size RPC_MAX_MESSAGE_SIZE).

Definition rpc_server_create : rpc_server := server_create_internal None.
Definition rpc_server_create_with_config (config : option rpc_server_config) : rpc_server :=
  server_create_internal config.

(** [msg_type] is the value of the enumerator, [handler] an address. *)
Definition rpc_server_register_handler (msg_type handler userdata : Z) (s : rpc_server) : result rpc_server :=
  if handler =? 0 then Err DISTRIC_ERR_INVALID_ARG
  else
    table ← handler_table_insert (rs_table s) (u16 msg_type) handler userdata;
    Ok (rs_set_table table s).

Definition rpc_server_unregister_handler (msg_type : Z) (s : rpc_server) : result rpc_server :=
  table ← handler_table_remove (rs_table s) (u16 msg_type);
  Ok (rs_set_table table s).

(** The value after the increment, as [uint32_t]. *)
Definition server_request_inc (s : rpc_server) : Z * rpc_server :=
  (u32 (u32 (rs_active_requests s) + 1), rs_set_requests (u64 (rs_active_requests s + 1)) s).

Definition server_request_dec (s : rpc_server) : rpc_server :=
  rs_set_requests (u64 (rs_active_requests s - 1)) s.

(** ** A connection's thread *)

(** Where [rpc_server_handle_connection] stands. *)
Inductive phase :=
  | Entering                                              (* it has been called *)
  | Counted                                               (* active_handlers_count was incremented *)
  | Looping                                               (* at the condition of the loop *)
  | Header (buf : list Z)                                 (* receiving a header *)
  | Checked (h : message_header)                          (* the header was accepted *)
  | Admitting (h : message_header) (current : Z)          (* active_requests was incremented *)
  | Payload (h : message_header) (buf : list Z)           (* receiving a payload *)
  | Complete (h : message_header) (payload : option (list Z))
  | Calling (h : message_header) (payload : option (list Z)) (fn ud : Z)
  | Answered (h : message_header) (rc : Z) (response : option (list Z)) (resp_len : nat)
  | Failing                                               (* server_request_dec, then the end *)
  | Unhandled                                             (* server_request_dec, then the next request *)
  | Replying (hdr : list Z) (response : option (list Z)) (resp_len : nat)
  | ReplyingPayload (response : option (list Z)) (resp_len : nat)
  | Leaving                                               (* at cleanup_and_exit *)
  | Finished.

(** What the outside answers during a turn; each turn uses what it asks for. *)
Record turn := Turn {
  t_recv : recv_result;                     (* tcp_recv *)
  t_malloc : bool;                          (* malloc of the payload *)
  t_rc : Z;                                 (* the handler function *)
  t_response : option (list Z);
  t_resp_len : nat;
  t_now_id : timespec;                      (* the clock and the identifier counter *)
  t_now_s : timespec;
  t_counter : Z;
  t_send : send_result                      (* tcp_send *)
}.

(** What a turn does to the outside. *)
Inductive rpc_event :=
  | EvRecv (len : nat)
  | EvCall (fn ud : Z) (payload : option (list Z)) (len : nat)
  | EvSend (bytes : list Z).

(** What comes of a call of [tcp_recv] that asks for [len] more bytes of [buf]: the
    buffer is exactly as long as what is asked for. *)
Inductive receipt := RecvMore (buf : list Z) | RecvAgain | RecvStop.

Definition receive (buf : list Z) (len : nat) (r : recv_result) : result receipt :=
  let n := recv_int r in
  if (n =? 0) || (n =? distric_err_code DISTRIC_ERR_EOF) then Ok RecvStop
  else if n =? distric_err_code DISTRIC_ERR_TIMEOUT then Ok RecvAgain
  else if n <? 0 then Ok RecvStop
  else
    match r with
    | Received data => if (length data <=? len)%nat then Ok (RecvMore (buf ++ data)) else Fault
    | _ => Ok RecvStop
    end.

(** The bytes [tcp_send] reads. *)
Definition response_bytes (response : option (list Z)) (len : nat) : result (list Z) :=
  match response with Some r => memread r 0 len | None => Ok [] end.

(** The header of a response: the results of [message_header_init] and
    [compute_header_crc32] are not looked at, and the first leaves the header
    uninitialised when it refuses the length. *)
Definition response_header (h : message_header) (t : turn) (response : option (list Z)) (resp_len : nat) :
    result (list Z) :=
  match message_header_init_code (t_now_id t) (t_now_s t) (t_counter t) (msg_type h) (u32 (Z.of_nat resp_len)) with
  | Ok (resp_hdr, _) =>
      match compute_header_crc32 resp_hdr response resp_len with
      | Ok resp_hdr => serialize_header resp_hdr (repeat 0 MESSAGE_HEADER_SIZE)
      | Err _ => serialize_header resp_hdr (repeat 0 MESSAGE_HEADER_SIZE)
      | Fault => Fault
      end
  | _ => Fault
  end.

(** The header of a response is sent. *)
Definition reply_step (t : turn) (s : rpc_server) (hdr : list Z) (response : option (list Z)) (resp_len : nat) :
    result (rpc_server * phase * list rpc_event) :=
  Ok (s, if send_int (t_send t) =? distric_err_code DISTRIC_ERR_BACKPRESSURE then Leaving
         else if negb (send_int (t_send t) =? distric_err_code DISTRIC_OK) then Leaving
         else if (0 <? resp_len)%nat then ReplyingPayload response resp_len
         else Looping, [EvSend hdr]).

(** Its payload is sent. *)
Definition reply_payload_step (t : turn) (s : rpc_server) (response : option (list Z)) (resp_len : nat) :
    result (rpc_server * phase * list rpc_event) :=
  bytes ← response_bytes response resp_len;
  Ok (s, if negb (send_int (t_send t) =? distric_err_code DISTRIC_OK) then Leaving else Looping, [EvSend bytes]).

(** The end of the function. *)
Definition leave_step (s : rpc_server) : result (rpc_server * phase * list rpc_event) :=
  Ok (if rs_handlers_count s >? 0 then rs_set_count (rs_handlers_count s - 1) s else s, Finished, []).

(** One turn of [rpc_server_handle_connection]. *)
Definition thread_step (t : turn) (s : rpc_server) (ph : phase) : result (rpc_server * phase * list rpc_event) :=
  match ph with
  | Entering => Ok (rs_set_count (u64 (rs_handlers_count s + 1)) s, Counted, [])
  | Counted => Ok (s, if rs_accepting s then Looping else Leaving, [])
  | Looping => Ok (s, if rs_accepting s then Header [] else Leaving, [])
  | Header buf =>
      if (length buf <? MESSAGE_HEADER_SIZE)%nat then
        if rs_accepting s then
          let wanted := (MESSAGE_HEADER_SIZE - length buf)%nat in
          r ← receive buf wanted (t_recv t);
          Ok (s, match r with RecvMore buf => Header buf | RecvAgain => Header buf | RecvStop => Leaving end,
              [EvRecv wanted])
        else Ok (s, Leaving, [])
      else
        match deserialize_header buf with
        | Ok h =>
            Ok (s, if negb (validate_message_header h) then Leaving
                   else if payload_len h >? rs_max_message_size s then Leaving
                   else Checked h, [])
        | Err _ => Ok (s, Leaving, [])
        | Fault => Fault
        end
  | Checked h =>
      let '(current, s) := server_request_inc s in
      Ok (s, Admitting h current, [])
  | Admitting h current =>
      Ok (s, if current >? rs_max_inflight s then Failing
             else if payload_len h >? 0 then (if t_malloc t then Payload h [] else Failing)
             else Complete h None, [])
  | Payload h buf =>
      if Z.of_nat (length buf) <? payload_len h then
        if rs_accepting s then
          let wanted := (Z.to_nat (payload_len h) - length buf)%nat in
          r ← receive buf wanted (t_recv t);
          Ok (s, match r with RecvMore buf => Payload h buf | RecvAgain => Payload h buf | RecvStop => Failing end,
              [EvRecv wanted])
        else Ok (s, Failing, [])
      else Ok (s, Complete h (Some buf), [])
  | Complete h payload =>
      intact ← verify_message_crc32 h payload (Z.to_nat (payload_len h));
      if intact : bool then
        match handler_table_find (rs_table s) (u16 (msg_type h)) with
        | Some slot =>
            if hs_handler slot =? 0 then Ok (s, Unhandled, [])
            else Ok (s, Calling h payload (hs_handler slot) (hs_userdata slot),
                     [EvCall (hs_handler slot) (hs_userdata slot) payload (Z.to_nat (payload_len h))])
        | None => Ok (s, Unhandled, [])
        end
      else Ok (s, Failing, [])
  | Calling h _ _ _ => Ok (s, Answered h (t_rc t) (t_response t) (t_resp_len t), [])
  | Answered h rc response resp_len =>
      if rc =? 0 then
        hdr ← response_header h t response resp_len;
        Ok (server_request_dec s, Replying hdr response resp_len, [])
      else Ok (server_request_dec s, Looping, [])
  | Failing => Ok (server_request_dec s, Leaving, [])
  | Unhandled => Ok (server_request_dec s, Looping, [])
  | Replying hdr response resp_len => reply_step t s hdr response resp_len
  | ReplyingPayload response resp_len => reply_payload_step t s response resp_len
  | Leaving => leave_step s
  | Finished => Ok (s, Finished, [])
  end.

(** ** The server with its threads *)

(** Where [rpc_server_stop] stands: after its wait it knows whether all handlers
    were done ([Drained]) or the deadline passed ([Forced]). *)
Inductive stop_phase := NotStopping | Draining (deadline : timespec) | Drained | Forced.

Record rpc_system := RpcSystem {
  sy_server : rpc_server;
  sy_threads : list phase;
  sy_stop : stop_phase
}.

Inductive rpc_action :=
  | ActConnection                              (* the transport calls the handler for a new connection *)
  | ActThread (i : nat) (t : turn)
  | ActRegister (msg_type handler userdata : Z)
  | ActUnregister (msg_type : Z)
  | ActStop (now : timespec)                   (* rpc_server_stop begins *)
  | ActDrain (timed_out : bool).               (* its wait: an awakening, or the deadline *)

Definition rpc_server_start (s : rpc_server) : rpc_server := rs_set_accepting true s.

(** Up to the locking of [active_handlers_lock]. *)
Definition rpc_server_stop_begin (now : timespec) (y : rpc_system) : rpc_system :=
  RpcSystem (rs_set_accepting false (sy_server y)) (sy_threads y)
    (Draining (make_abs_deadline now (rs_drain_timeout_ms (sy_server y)))).

(** One turn of the waiting loop. *)
Definition rpc_server_stop_wait (timed_out : bool) (y : rpc_system) : rpc_system :=
  match sy_stop y with
  | Draining _ =>
      RpcSystem (sy_server y) (sy_threads y)
        (if rs_handlers_count (sy_server y) >? 0 then (if timed_out then Forced else sy_stop y) else Drained)
  | _ => y
  end.

Definition rpc_step (a : rpc_action) (y : rpc_system) : result (rpc_system * list rpc_event) :=
  let same_or (r : result rpc_server) :=
    match r with
    | Ok s => Ok (RpcSystem s (sy_threads y) (sy_stop y), [])
    | Err _ => Ok (y, [])
    | Fault => Fault
    end in
  match a with
  | ActConnection => Ok (RpcSystem (sy_server y) (sy_threads y ++ [Entering]) (sy_stop y), [])
  | ActThread i t =>
      match sy_threads y !! i with
      | Some ph =>
          r ← thread_step t (sy_server y) ph;
          Ok (RpcSystem r.1.1 (<[i := r.1.2]> (sy_threads y)) (sy_stop y), r.2)
      | None => Ok (y, [])
      end
  | ActRegister k h u => same_or (rpc_server_register_handler k h u (sy_server y))
  | ActUnregister k => same_or (rpc_server_unregister_handler k (sy_server y))
  | ActStop now => Ok (rpc_server_stop_begin now y, [])
  | ActDrain timed_out => Ok (rpc_server_stop_wait timed_out y, [])
  end.

Fixpoint rpc_run (acts : list rpc_action) (y : rpc_system) : result (rpc_system * list rpc_event) :=
  match acts with
  | [] => Ok (y, [])
  | a :: acts =>
      r ← rpc_step a y;
      rs ← rpc_run acts r.1;
      Ok (rs.1, r.2 ++ rs.2)
  end.

(** The server just after [rpc_server_start]. *)
Definition started (config : option rpc_server_config) : rpc_system :=
  RpcSystem (rpc_server_start (rpc_server_create_with_config config)) [] NotStopping.

(** The equations of a turn. *)
Ltac step_eqs :=
  cbn [thread_step]; unfold reply_step, reply_payload_step, leave_step; cbn [thread_step].

(** ** Counting threads *)

(** Between the increment and the decrement of [active_requests]. *)
Definition in_flight (ph : phase) : bool :=
  match ph with
  | Admitting _ _ | Payload _ _ | Complete _ _ | Calling _ _ _ _ | Answered _ _ _ _ | Failing | Unhandled => true
  | _ => false
  end.

(** Between the increment and the decrement of [active_handlers_count]. *)
Definition counted (ph : phase) : bool := match ph with Entering | Finished => false | _ => true end.

(** A request that was admitted is received or served, or is about to be. *)
Definition admitted (max : Z) (ph : phase) : bool :=
  match ph with
  | Admitting _ current => current <=? max
  | Payload _ _ | Complete _ _ | Calling _ _ _ _ | Answered _ _ _ _ | Unhandled => true
  | _ => false
  end.

(** A thread that will not touch a request again once the server stopped accepting. *)
Definition quiet (ph : phase) : bool :=
  match ph with Entering | Counted | Leaving | Finished => true | _ => false end.

Definition number (f : phase → bool) (l : list phase) : Z := sumZ (λ ph, Z.b2z (f ph)) l.

Record system_wf (y : rpc_system) : Prop := {
  sy_requests : rs_active_requests (sy_server y) = number in_flight (sy_threads y);
  sy_counted : rs_handlers_count (sy_server y) = number counted (sy_threads y);
  sy_admitted : number (admitted (rs_max_inflight (sy_server y))) (sy_threads y) ≤ rs_max_inflight (sy_server y);
  sy_drained : sy_stop y = Drained → rs_accepting (sy_server y) = false ∧ Forall (λ ph, quiet ph = true) (sy_threads y);
  sy_stopped : sy_stop y ≠ NotStopping → rs_accepting (sy_server y) = false
}.

#[local] Opaque handler_table_find handler_table_insert handler_table_remove rpc_server_register_handler
  rpc_server_unregister_handler.

Lemma number_insert f l i x y : l !! i = Some x → number f (<[i := y]> l) = number f l - Z.b2z (f x) + Z.b2z (f y).
Proof. apply (sumZ_insert (λ ph, Z.b2z (f ph))). Qed.

Lemma number_nonneg f l : 0 ≤ number f l.
Proof. apply sumZ_nonneg, list.Forall_forall. intros x _. by destruct (f x). Qed.

Lemma number_elem f l i x : l !! i = Some x → Z.b2z (f x) ≤ number f l.
Proof. apply (sumZ_le (λ ph, Z.b2z (f ph))), list.Forall_forall. intros y _. by destruct (f y). Qed.

Lemma number_le f g l : (∀ x, f x = true → g x = true) → number f l ≤ number g l.
Proof.
  intros H. induction l as [|x l IH]; [done|]. unfold number, sumZ in *. cbn [foldr].
  pose proof (H x). destruct (f x); [rewrite H0 by done; lia|]. destruct (g x); cbn [Z.b2z] in *; lia.
Qed.

Lemma number_length f l : number f l ≤ Z.of_nat (length l).
Proof.
  induction l as [|x l IH]; [done|]. unfold number, sumZ in *. cbn [foldr length]. destruct (f x); cbn [Z.b2z]; lia.
Qed.

Lemma number_app f l x : number f (l ++ [x]) = number f l + Z.b2z (f x).
Proof. induction l as [|y l IH]; unfold number, sumZ in *; cbn [foldr app] in *; [lia|]. rewrite IH. lia. Qed.

Lemma admitted_in_flight max x : admitted max x = true → in_flight x = true.
Proof. by destruct x. Qed.

(** What a turn does to the counters. *)
Record step_effect (s : rpc_server) (ph : phase) (s' : rpc_server) (ph' : phase) : Prop := {
  ef_max : rs_max_inflight s' = rs_max_inflight s;
  ef_accepting : rs_accepting s' = rs_accepting s;
  ef_requests : 0 ≤ rs_active_requests s - Z.b2z (in_flight ph) → rs_active_requests s < 2 ^ 32 - 1 →
    rs_active_requests s' = rs_active_requests s - Z.b2z (in_flight ph) + Z.b2z (in_flight ph');
  ef_count : 0 ≤ rs_handlers_count s - Z.b2z (counted ph) → rs_handlers_count s < 2 ^ 64 - 1 →
    rs_handlers_count s' = rs_handlers_count s - Z.b2z (counted ph) + Z.b2z (counted ph');
  ef_admitted : ∀ max, max = rs_max_inflight s → admitted max ph' = true → admitted max ph = true ∨
    (0 ≤ rs_active_requests s < 2 ^ 32 - 1 → rs_active_requests s' ≤ max);
  ef_quiet : rs_accepting s = false → quiet ph = true → quiet ph' = true
}.

Lemma effect_local s ph ph' :
  in_flight ph' = in_flight ph → counted ph' = counted ph → (admitted (rs_max_inflight s) ph' = true →
  admitted (rs_max_inflight s) ph = true) → (rs_accepting s = false → quiet ph = true → quiet ph' = true) →
  step_effect s ph s ph'.
Proof. intros Hf Hc Ha Hq. split; try done; [rewrite Hf; lia|rewrite Hc; lia|]. intros max -> Hm. left. auto. Qed.

Lemma effect_dec s ph ph' :
  in_flight ph = true → in_flight ph' = false → counted ph' = counted ph → quiet ph = false →
  step_effect s ph (server_request_dec s) ph'.
Proof.
  intros Hf Hf' Hc Hq. split; try done; cbn [server_request_dec rs_set_requests rs_active_requests rs_handlers_count];
    rewrite ?Hf, ?Hf', ?Hc, ?Hq; cbn [Z.b2z]; try done; [| lia |].
  - intros. rewrite u64_id by ulia. lia.
  - intros max _ Hm%admitted_in_flight. congruence.
Qed.

(** The counters of a step, computed. *)
Ltac counters :=
  cbn [server_request_dec server_request_inc rs_set_requests rs_set_count rs_active_requests rs_handlers_count
       in_flight counted Z.b2z];
  intros; rewrite ?u64_id by ulia; lia.

Lemma thread_step_effect t s ph s' ph' ev :
  thread_step t s ph = Ok (s', ph', ev) → step_effect s ph s' ph'.
Proof.
  destruct ph; step_eqs; intros E.
  - injection E as <- <- <-. split; try done; counters.
  - destruct (rs_accepting s) eqn:Ea; injection E as <- <- <-; apply effect_local; try done; intros; congruence.
  - destruct (rs_accepting s) eqn:Ea; injection E as <- <- <-; apply effect_local; try done; intros; congruence.
  - destruct (_ <? _)%nat; [destruct (rs_accepting s)|]; repeat (apply bind_ok in E as (? & _ & E)); repeat case_match;
      simplify_eq; by apply effect_local.
  - injection E as <- <- <-. split; try done; [counters|counters|].
    + intros max -> Hm. right. intros Hr. cbn [admitted] in Hm. apply Z.leb_le in Hm.
      rewrite (u32_id (rs_active_requests s)) in Hm by ulia. rewrite u32_id in Hm by ulia. rewrite u64_id by ulia. exact Hm.
  - rewrite Z.gtb_ltb in E. destruct (Z.ltb_spec (rs_max_inflight s) current) as [H|H].
    + injection E as <- <- <-. by apply effect_local.
    + assert (admitted (rs_max_inflight s) (Admitting h current) = true) by (cbn; by apply Z.leb_le).
      repeat case_match; simplify_eq; by apply effect_local.
  - destruct (_ <? _); [destruct (rs_accepting s)|]; repeat (apply bind_ok in E as (? & _ & E)); repeat case_match;
      simplify_eq; by apply effect_local.
  - apply bind_ok in E as (? & _ & E). repeat case_match; simplify_eq; by apply effect_local.
  - simplify_eq. by apply effect_local.
  - case_match; repeat (apply bind_ok in E as (? & _ & E)); simplify_eq; by apply effect_dec.
  - simplify_eq. by apply effect_dec.
  - simplify_eq. by apply effect_dec.
  - repeat case_match; simplify_eq; by apply effect_local.
  - apply bind_ok in E as (? & _ & E). repeat case_match; simplify_eq; by apply effect_local.
  - injection E as <- <- <-. split; try done;
      destruct (Z.gtb_spec (rs_handlers_count s) 0); try done; counters.
  - simplify_eq. by apply effect_local.
Qed.

#[local] Transparent rpc_server_register_handler rpc_server_unregister_handler.

Lemma register_keeps k h u s s' : rpc_server_register_handler k h u s = Ok s' → ∃ table, s' = rs_set_table table s.
Proof.
  unfold rpc_server_register_handler. case_match; [done|]. intros (table & _ & [= <-])%bind_ok. by exists table.
Qed.

Lemma unregister_keeps k s s' : rpc_server_unregister_handler k s = Ok s' → ∃ table, s' = rs_set_table table s.
Proof. unfold rpc_server_unregister_handler. intros (table & _ & [= <-])%bind_ok. by exists table. Qed.

#[local] Opaque rpc_server_register_handler rpc_server_unregister_handler.

Lemma wf_set_table table y : system_wf y →
  system_wf (RpcSystem (rs_set_table table (sy_server y)) (sy_threads y) (sy_stop y)).
Proof. by intros []. Qed.

Lemma quiet_all y : system_wf y → rs_handlers_count (sy_server y) = 0 → Forall (λ ph, quiet ph = true) (sy_threads y).
Proof.
  intros W H0. apply list.Forall_forall. intros ph (i & Hi)%list_elem_of_lookup.
  pose proof (number_elem counted _ _ _ Hi) as H. rewrite <-(sy_counted y W), H0 in H.
  destruct ph; cbn in *; done || lia.
Qed.

Lemma wf_thread i t y y' ev : system_wf y → Z.of_nat (length (sy_threads y)) < 2 ^ 32 - 1 →
  rpc_step (ActThread i t) y = Ok (y', ev) → system_wf y' ∧ rs_max_inflight (sy_server y') = rs_max_inflight (sy_server y).
Proof.
  intros W Hlen. cbn [rpc_step]. destruct (sy_threads y !! i) as [ph|] eqn:Ei; [|by intros [= <- <-]].
  intros ([[s' ph'] ev'] & E & [= <- <-])%bind_ok. apply thread_step_effect in E as [Hm Ha Hr Hc Hadm Hq].
  pose proof (number_elem in_flight _ _ _ Ei) as Hef. pose proof (number_elem counted _ _ _ Ei) as Hec.
  pose proof (number_length in_flight (sy_threads y)) as Hlf. pose proof (number_length counted (sy_threads y)) as Hlc.
  pose proof (number_nonneg in_flight (sy_threads y)) as Hnf.
  rewrite (sy_requests y W) in Hr, Hadm. rewrite (sy_counted y W) in Hc.
  specialize (Hr ltac:(lia) ltac:(lia)). specialize (Hc ltac:(lia) ltac:(ulia)).
  split; [|exact Hm]. split; cbn [sy_server sy_threads sy_stop fst snd].
  - by rewrite (number_insert _ _ _ _ _ Ei).
  - by rewrite (number_insert _ _ _ _ _ Ei).
  - rewrite Hm. destruct (admitted (rs_max_inflight (sy_server y)) ph') eqn:Ea.
    + destruct (Hadm _ eq_refl Ea) as [Hph|Hle].
      * rewrite (number_insert _ _ _ _ _ Ei), Ea, Hph. pose proof (sy_admitted y W). lia.
      * etrans; [apply (number_le _ in_flight), admitted_in_flight|].
        rewrite (number_insert _ _ _ _ _ Ei). lia.
    + rewrite (number_insert _ _ _ _ _ Ei), Ea. pose proof (sy_admitted y W).
      pose proof (number_elem (admitted (rs_max_inflight (sy_server y))) _ _ _ Ei). cbn [Z.b2z] in *.
      destruct (admitted (rs_max_inflight (sy_server y)) ph); cbn [Z.b2z] in *; lia.
  - intros Hd. destruct (sy_drained y W Hd) as [Hacc Hall]. rewrite Ha. split; [exact Hacc|].
    apply Forall_insert; [exact Hall|]. apply Hq; [exact Hacc|]. by apply (Forall_lookup_1 _ _ _ _ Hall Ei).
  - intros Hd. rewrite Ha. by apply (sy_stopped y W).
Qed.

Lemma wf_step a y y' ev : system_wf y → Z.of_nat (length (sy_threads y)) < 2 ^ 32 - 1 →
  rpc_step a y = Ok (y', ev) → system_wf y' ∧ rs_max_inflight (sy_server y') = rs_max_inflight (sy_server y).
Proof.
  intros W Hlen. destruct a as [|i t|k h u|k|now|timed_out]; [| by apply wf_thread| | | |]; cbn [rpc_step].
  - intros [= <- <-]. split; [|done]. pose proof W as [Hr Hc Ha Hd Hs].
    split; cbn [sy_server sy_threads sy_stop]; rewrite ?number_app; cbn [in_flight counted admitted Z.b2z]; try lia; try done.
    intros Hdr. destruct (Hd Hdr). split; [done|]. apply Forall_app_2; [done|]. by constructor.
  - destruct (rpc_server_register_handler _ _ _ _) as [s'|e|] eqn:E; intros [= <- <-]; [|done].
    apply register_keeps in E as [table ->]. split; [by apply wf_set_table|done].
  - destruct (rpc_server_unregister_handler _ _) as [s'|e|] eqn:E; intros [= <- <-]; [|done].
    apply unregister_keeps in E as [table ->]. split; [by apply wf_set_table|done].
  - intros [= <- <-]. by destruct W.
  - intros [= <- <-]. unfold rpc_server_stop_wait. destruct (sy_stop y) eqn:Es; try done.
    split; [|done]. pose proof W as [Hr Hc Ha _ Hs]. specialize (Hs ltac:(congruence)).
    split; cbn [sy_server sy_threads sy_stop]; try done.
    destruct (Z.gtb_spec (rs_handlers_count (sy_server y)) 0) as [Hpos|Hzero]; [by destruct timed_out|].
    intros _. split; [exact Hs|]. apply quiet_all; [done|]. pose proof (number_nonneg counted (sy_threads y)). lia.
Qed.

(** The connections a run opens. *)
Definition opened (acts : list rpc_action) : nat :=
  length (List.filter (λ a, match a with ActConnection => true | _ => false end) acts).

Lemma step_threads a y y' ev : rpc_step a y = Ok (y', ev) →
  length (sy_threads y') = (length (sy_threads y) + match a with ActConnection => 1 | _ => 0 end)%nat.
Proof.
  destruct a as [|i t|k h u|k|now|timed_out]; cbn [rpc_step].
  - intros [= <- <-]. cbn. by rewrite length_app.
  - destruct (_ !! i); [|intros [= <- <-]; lia]. intros (? & _ & [= <- <-])%bind_ok. cbn. rewrite length_insert. lia.
  - case_match; intros [= <- <-]; cbn; lia.
  - case_match; intros [= <- <-]; cbn; lia.
  - intros [= <- <-]; cbn; lia.
  - intros [= <- <-]. unfold rpc_server_stop_wait. case_match; cbn; lia.
Qed.

Lemma run_wf acts : ∀ y y' ev, system_wf y → Z.of_nat (length (sy_threads y) + opened acts) < 2 ^ 32 - 1 →
  rpc_run acts y = Ok (y', ev) → system_wf y' ∧ rs_max_inflight (sy_server y') = rs_max_inflight (sy_server y).
Proof.
  induction acts as [|a acts IH]; intros y y' ev W Hlen; cbn [rpc_run]; [by intros [= <- <-]|].
  intros ([y1 ev1] & E1 & ([y2 ev2] & E2 & [= <- <-])%bind_ok)%bind_ok. cbn [fst snd] in *.
  pose proof (step_threads _ _ _ _ E1) as Ht.
  assert (Hop : opened (a :: acts) = (match a with ActConnection => 1 | _ => 0 end + opened acts)%nat)
    by (unfold opened; by destruct a).
  destruct (wf_step a y y1 ev1 W ltac:(lia) E1) as [W1 Hm1].
  destruct (IH y1 y2 ev2 W1 ltac:(lia) E2) as [W2 Hm2]. split; [exact W2|congruence].
Qed.

Definition rpc_config_ok (config : option rpc_server_config) : Prop :=
  match config with
  | Some c => is_u32 (max_inflight_requests c) ∧ is_u32 (drain_timeout_ms c) ∧ is_u32 (max_message_size c)
  | None => True
  end.

Lemma started_wf config : rpc_config_ok config → system_wf (started config).
Proof.
  intros Hc. split; try done. cbn [started sy_server sy_threads rpc_server_start rs_set_accepting rs_max_inflight
    rpc_server_create_with_config server_create_internal]. change (number _ []) with 0.
  destruct config as [c|]; [|done]. destruct Hc as (? & _). case_match; [done|ulia].
Qed.

(** ** Draining *)

Definition hushed (y : rpc_system) : Prop :=
  rs_accepting (sy_server y) = false ∧ Forall (λ ph, quiet ph = true) (sy_threads y).

Lemma quiet_step t s ph s' ph' ev : thread_step t s ph = Ok (s', ph', ev) → quiet ph = true → ev = [].
Proof. destruct ph; try done; step_eqs; intros; simplify_eq; done. Qed.

Lemma hushed_step a y y' ev : hushed y → rpc_step a y = Ok (y', ev) → hushed y' ∧ ev = [].
Proof.
  intros [Ha Hq]. destruct a as [|i t|k h u|k|now|timed_out]; cbn [rpc_step].
  - intros [= <- <-]. repeat split; try done. apply Forall_app_2; [done|]. by constructor.
  - destruct (sy_threads y !! i) as [ph|] eqn:Ei; [|by intros [= <- <-]].
    intros ([[s' ph'] ev'] & E & [= <- <-])%bind_ok. pose proof (Forall_lookup_1 _ _ _ _ Hq Ei) as Hph. cbn in Hph.
    pose proof (quiet_step _ _ _ _ _ _ E Hph) as ->. apply thread_step_effect in E as [_ Hacc _ _ _ Hquiet].
    split; [|done]. split; [cbn; congruence|]. apply Forall_insert; [exact Hq|]. by apply Hquiet.
  - destruct (rpc_server_register_handler _ _ _ _) as [s'|e|] eqn:E; intros [= <- <-]; [|done].
    apply register_keeps in E as [table ->]. done.
  - destruct (rpc_server_unregister_handler _ _) as [s'|e|] eqn:E; intros [= <- <-]; [|done].
    apply unregister_keeps in E as [table ->]. done.
  - by intros [= <- <-].
  - intros [= <- <-]. unfold rpc_server_stop_wait. by case_match.
Qed.

Lemma hushed_run acts : ∀ y y' ev, hushed y → rpc_run acts y = Ok (y', ev) → ev = [].
Proof.
  induction acts as [|a acts IH]; intros y y' ev Hy; cbn [rpc_run]; [by intros [= <- <-]|].
  intros ([y1 ev1] & E1 & ([y2 ev2] & E2 & [= <- <-])%bind_ok)%bind_ok. cbn [fst snd] in *.
  destruct (hushed_step _ _ _ _ Hy E1) as [Hy1 ->]. by rewrite (IH _ _ _ Hy1 E2).
Qed.

(** ** What a connection is sent *)

Lemma response_header_spec h t response resp_len hdr :
  response_header h t response resp_len = Ok hdr → length hdr = 32%nat.
Proof.
  unfold response_header. destruct (message_header_init_code _ _ _ _ _) as [[r c]|e|]; [|done..].
  destruct (compute_header_crc32 r response resp_len); [| |done];
    rewrite serialize_header_spec by (cbn; lia); intros [= <-]; reflexivity.
Qed.

(** Every answer of [tcp_send] in the actions is one it can give. *)
Definition sends_ok (acts : list rpc_action) : Prop :=
  Forall (λ a, match a with ActThread _ t => tcp_send_answer (t_send t) | _ => True end) acts.

Definition header_reply (ph : phase) : Prop :=
  match ph with Replying hdr _ _ => length hdr = 32%nat | ReplyingPayload _ _ => False | _ => True end.
Definition header_event (e : rpc_event) : Prop := match e with EvSend bytes => length bytes = 32%nat | _ => True end.

Lemma header_reply_step t s ph s' ph' ev : send_int (t_send t) ≠ 0 → header_reply ph →
  thread_step t s ph = Ok (s', ph', ev) → header_reply ph' ∧ Forall header_event ev.
Proof.
  intros Ht Hph. destruct ph; step_eqs; intros E; try (injection E as <- <- <-; by repeat case_match).
  - destruct (_ <? _)%nat; [destruct (rs_accepting s)|]; repeat (apply bind_ok in E as (? & _ & E)); repeat case_match;
      simplify_eq; repeat constructor.
  - destruct (_ <? _); [destruct (rs_accepting s)|]; repeat (apply bind_ok in E as (? & _ & E)); repeat case_match;
      simplify_eq; repeat constructor.
  - apply bind_ok in E as (? & _ & E). repeat case_match; simplify_eq; repeat constructor.
  - case_match; [apply bind_ok in E as (hdr & Eh & E)|]; simplify_eq; repeat constructor.
    cbn. by eapply response_header_spec.
  - injection E as <- <- <-. apply Z.eqb_neq in Ht. change (distric_err_code DISTRIC_OK) with 0. rewrite Ht.
    split; [cbn [negb]; case_match; exact I|]. constructor; [exact Hph|constructor].
  - done.
Qed.

Lemma header_reply_run acts : ∀ y y' ev, sends_ok acts → Forall header_reply (sy_threads y) →
  rpc_run acts y = Ok (y', ev) → Forall header_reply (sy_threads y') ∧ Forall header_event ev.
Proof.
  induction acts as [|a acts IH]; intros y y' ev Hok Hy; cbn [rpc_run]; [by intros [= <- <-]|].
  apply list.Forall_cons in Hok as [Ha Hok].
  intros ([y1 ev1] & E1 & ([y2 ev2] & E2 & [= <- <-])%bind_ok)%bind_ok. cbn [fst snd] in *.
  enough (Forall header_reply (sy_threads y1) ∧ Forall header_event ev1) as [Hy1 He1].
  { destruct (IH _ _ _ Hok Hy1 E2) as [Hy2 He2]. split; [exact Hy2|]. by apply Forall_app_2. }
  destruct a as [|i t|k h u|k|now|timed_out]; cbn [rpc_step] in E1.
  - injection E1 as <- <-. split; [|done]. apply Forall_app_2; [done|]. by repeat constructor.
  - destruct (sy_threads y !! i) as [ph|] eqn:Ei; [|by injection E1 as <- <-].
    apply bind_ok in E1 as ([[s' ph'] ev'] & E & [= <- <-]).
    destruct (header_reply_step _ _ _ _ _ _ (tcp_send_answer_nonzero _ Ha) (Forall_lookup_1 _ _ _ _ Hy Ei) E). split; [|done]. by apply Forall_insert.
  - destruct (rpc_server_register_handler _ _ _ _); by simplify_eq.
  - destruct (rpc_server_unregister_handler _ _); by simplify_eq.
  - by simplify_eq.
  - injection E1 as <- <-. unfold rpc_server_stop_wait. by case_match.
Qed.

(** ** One request *)

Fixpoint thread_run (turns : list turn) (s : rpc_server) (ph : phase) : result (rpc_server * phase * list rpc_event) :=
  match turns with
  | [] => Ok (s, ph, [])
  | t :: turns =>
      r ← thread_step t s ph;
      rs ← thread_run turns r.1.1 r.1.2;
      Ok (rs.1, r.2 ++ rs.2)
  end.

Lemma thread_run_app l1 : ∀ l2 s ph s1 ph1 ev1 s2 ph2 ev2,
  thread_run l1 s ph = Ok (s1, ph1, ev1) → thread_run l2 s1 ph1 = Ok (s2, ph2, ev2) →
  thread_run (l1 ++ l2) s ph = Ok (s2, ph2, ev1 ++ ev2).
Proof.
  induction l1 as [|t l1 IH]; intros l2 s ph s1 ph1 ev1 s2 ph2 ev2; cbn [thread_run app].
  - by intros [= <- <- <-].
  - intros ([[s0 ph0] ev0] & E0 & ([[s' ph'] ev'] & E1 & [= <- <- <-])%bind_ok)%bind_ok E2. cbn [fst snd] in *.
    rewrite E0. cbn [mbind result_bind fst snd]. rewrite (IH _ _ _ _ _ _ _ _ _ E1 E2). cbn [mbind result_bind fst snd].
    by rewrite app_assoc.
Qed.

Lemma thread_run_one t turns s ph s1 ph1 ev1 s2 ph2 ev2 :
  thread_step t s ph = Ok (s1, ph1, ev1) → thread_run turns s1 ph1 = Ok (s2, ph2, ev2) →
  thread_run (t :: turns) s ph = Ok (s2, ph2, ev1 ++ ev2).
Proof. intros E1 E2. cbn [thread_run]. rewrite E1. cbn [mbind result_bind fst snd]. by rewrite E2. Qed.

Definition recv_turn (t : turn) (chunk : list Z) : turn :=
  Turn (Received chunk) (t_malloc t) (t_rc t) (t_response t) (t_resp_len t) (t_now_id t) (t_now_s t) (t_counter t) (t_send t).

(** The turns from the condition of the loop to the call of the handler: [hs] are
    the pieces in which the header arrives, [ps] those of the payload. *)
Definition request_turns (t : turn) (hs ps : list (list Z)) : list turn :=
  [t] ++ (recv_turn t <$> hs) ++ [t; t; t] ++ (if bool_decide (mjoin ps = []) then [] else (recv_turn t <$> ps) ++ [t]) ++ [t].

(** Its answer is sent. *)
Definition reply_turns (t : turn) : list turn := [t; t; t].

Definition calls (ev : list rpc_event) : list rpc_event :=
  List.filter (λ e, match e with EvRecv _ => false | _ => true end) ev.

Definition chunks_ok (l : list (list Z)) : Prop := Forall (λ c, c ≠ [] ∧ Z.of_nat (length c) < 2 ^ 31) l.

Lemma receive_chunk buf len c : c ≠ [] → Z.of_nat (length c) < 2 ^ 31 → (length c ≤ len)%nat →
  receive buf len (Received c) = Ok (RecvMore (buf ++ c)).
Proof.
  intros Hc Hlen Hle. unfold receive. cbn [recv_int].
  rewrite <-(u32_id (Z.of_nat (length c))), s32_u32 by (unfold is_s32; ulia).
  assert (0 < length c)%nat by (destruct c; [done|cbn; lia]).
  destruct (Z.eqb_spec (Z.of_nat (length c)) 0); [lia|].
  destruct (Z.eqb_spec (Z.of_nat (length c)) (distric_err_code DISTRIC_ERR_EOF)); [cbn in *; lia|].
  destruct (Z.eqb_spec (Z.of_nat (length c)) (distric_err_code DISTRIC_ERR_TIMEOUT)); [cbn in *; lia|].
  destruct (Z.ltb_spec (Z.of_nat (length c)) 0); [lia|].
  by destruct (Nat.leb_spec (length c) len); [|lia].
Qed.

Lemma recv_header t s hs : ∀ buf, chunks_ok hs → rs_accepting s = true → (length (buf ++ mjoin hs) ≤ 32)%nat →
  ∃ ev, thread_run (recv_turn t <$> hs) s (Header buf) = Ok (s, Header (buf ++ mjoin hs), ev) ∧ calls ev = [].
Proof.
  induction hs as [|c hs IH]; intros buf Hok Ha Hlen; cbn [fmap list_fmap mjoin list_join] in *.
  - exists []. by rewrite app_nil_r.
  - apply list.Forall_cons in Hok as [[Hc Hc31] Hok]. rewrite !length_app in Hlen.
    assert (0 < length c)%nat by (destruct c; [done|cbn; lia]).
    destruct (IH (buf ++ c) Hok Ha) as (ev & E & Hev); [rewrite !length_app, <-Nat.add_assoc; exact Hlen|].
    exists ([EvRecv (MESSAGE_HEADER_SIZE - length buf)] ++ ev). split; [|done]. rewrite app_assoc.
    eapply thread_run_one; [|exact E]. step_eqs. unfold MESSAGE_HEADER_SIZE.
    destruct (Nat.ltb_spec (length buf) 32); [|lia]. rewrite Ha. cbn [recv_turn t_recv].
    by rewrite (receive_chunk buf (32 - length buf) c) by (done || lia).
Qed.

Lemma recv_payload t s h ps : ∀ buf, chunks_ok ps → rs_accepting s = true →
  Z.of_nat (length (buf ++ mjoin ps)) ≤ payload_len h →
  ∃ ev, thread_run (recv_turn t <$> ps) s (Payload h buf) = Ok (s, Payload h (buf ++ mjoin ps), ev) ∧ calls ev = [].
Proof.
  induction ps as [|c ps IH]; intros buf Hok Ha Hlen; cbn [fmap list_fmap mjoin list_join] in *.
  - exists []. by rewrite app_nil_r.
  - apply list.Forall_cons in Hok as [[Hc Hc31] Hok]. rewrite !length_app in Hlen.
    assert (0 < length c)%nat by (destruct c; [done|cbn; lia]).
    destruct (IH (buf ++ c) Hok Ha) as (ev & E & Hev); [rewrite !length_app, <-Nat.add_assoc; exact Hlen|].
    exists ([EvRecv (Z.to_nat (payload_len h) - length buf)] ++ ev). split; [|done]. rewrite app_assoc.
    eapply thread_run_one; [|exact E]. step_eqs.
    destruct (Z.ltb_spec (Z.of_nat (length buf)) (payload_len h)); [|lia]. rewrite Ha. cbn [recv_turn t_recv].
    by rewrite (receive_chunk buf (Z.to_nat (payload_len h) - length buf) c) by (done || lia).
Qed.

(** A request the server accepts. *)
Record request_ok (s : rpc_server) (h : message_header) (payload : list Z) (handler ud : Z) : Prop := {
  rq_header : header_ok h;
  rq_valid : validate_message_header h = true;
  rq_length : payload_len h = Z.of_nat (length payload);
  rq_size : payload_len h ≤ rs_max_message_size s;
  rq_crc : crc32 h = wire_crc h payload;
  rq_registered : option_map (λ slot, (hs_handler slot, hs_userdata slot)) (handler_table_find (rs_table s) (msg_type h)) =
    Some (handler, ud);
  rq_handler : handler ≠ 0;
  rq_accepting : rs_accepting s = true;
  rq_room : 0 ≤ rs_active_requests s < rs_max_inflight s;
  rq_width : rs_max_inflight s < 2 ^ 32
}.

(** The payload pointer of the server: [NULL] for an empty payload. *)
Definition payload_ptr (payload : list Z) : option (list Z) := match payload with [] => None | _ => Some payload end.

Lemma crc_verifies h payload : payload_len h = Z.of_nat (length payload) → crc32 h = wire_crc h payload →
  verify_message_crc32 h (payload_ptr payload) (Z.to_nat (payload_len h)) = Ok true.
Proof.
  intros Hl Hc. rewrite Hl, Nat2Z.id. destruct payload as [|b p].
  - unfold payload_ptr, verify_message_crc32. cbn [length]. rewrite compute_header_crc32_none. cbn [crc32 set_crc32].
    by rewrite <-Hc, Z.eqb_refl.
  - unfold payload_ptr. by rewrite verify_message_crc32_spec, <-Hc, Z.eqb_refl.
Qed.

Lemma inc_dec s : 0 ≤ rs_active_requests s < 2 ^ 32 → server_request_dec (server_request_inc s).2 = s.
Proof.
  intros H. unfold server_request_inc, server_request_dec. cbn [snd rs_set_requests rs_active_requests].
  rewrite (u64_id (rs_active_requests s + 1)) by ulia. rewrite u64_id by ulia.
  unfold rs_set_requests. destruct s. cbn [rs_active_requests rs_table rs_max_inflight rs_handlers_count rs_accepting
    rs_drain_timeout_ms rs_max_message_size] in *. f_equal. lia.
Qed.

(** From the condition of the loop to the call of the handler. *)
Lemma request_received s h payload handler ud t hs ps :
  request_ok s h payload handler ud → t_malloc t = true → chunks_ok hs → chunks_ok ps →
  mjoin hs = header_bytes h → mjoin ps = payload →
  ∃ ev, thread_run (request_turns t hs ps) s Looping =
      Ok ((server_request_inc s).2, Calling h (payload_ptr payload) handler ud, ev) ∧
    calls ev = [EvCall handler ud (payload_ptr payload) (length payload)].
Proof.
  intros Q Hm Hhs Hps Eh Ep. pose proof Q as [Qh Qv Ql Qs Qc Qr Qn Qa Qi Qw].
  destruct (recv_header t s hs [] Hhs Qa) as (ev1 & E1 & C1); [rewrite app_nil_l, Eh, header_bytes_length; lia|].
  rewrite app_nil_l, Eh in E1. set (s1 := (server_request_inc s).2).
  assert (Hcall : ∀ p, p = payload_ptr payload → thread_run [t] s1 (Complete h p) =
      Ok (s1, Calling h (payload_ptr payload) handler ud, [EvCall handler ud (payload_ptr payload) (length payload)])).
  { intros p ->. cbn [thread_run thread_step]. rewrite crc_verifies by done. cbn [mbind result_bind].
    rewrite u16_id by apply Qh. change (rs_table s1) with (rs_table s).
    destruct (handler_table_find (rs_table s) (msg_type h)) as [slot|]; [|done]. injection Qr as <- <-.
    destruct (Z.eqb_spec (hs_handler slot) 0); [done|]. by rewrite Ql, Nat2Z.id. }
  assert (Hhead : thread_run ([t] ++ (recv_turn t <$> hs) ++ [t; t; t]) s Looping =
      Ok (s1, if payload_len h >? 0 then Payload h [] else Complete h None, ev1)).
  { change ev1 with ([] ++ ev1). eapply thread_run_app; [cbn [thread_run thread_step]; rewrite Qa; reflexivity|].
    rewrite <-(app_nil_r ev1). eapply thread_run_app; [exact E1|]. cbn [thread_run thread_step].
    rewrite header_bytes_length. rewrite <-(app_nil_r (header_bytes h)), deserialize_header_bytes by exact Qh.
    cbn [Nat.ltb Nat.leb MESSAGE_HEADER_SIZE mbind result_bind fst snd]. rewrite Qv. cbn [negb].
    rewrite !Z.gtb_ltb. destruct (Z.ltb_spec (rs_max_message_size s) (payload_len h)); [lia|].
    cbn [mbind result_bind fst snd thread_step server_request_inc rs_set_requests rs_max_inflight].
    rewrite (u32_id (rs_active_requests s)) by ulia. rewrite u32_id by ulia. rewrite !Z.gtb_ltb.
    destruct (Z.ltb_spec (rs_max_inflight s) (rs_active_requests s + 1)); [lia|]. rewrite Hm.
    destruct (0 <? payload_len h); reflexivity. }
  unfold request_turns. rewrite Ep. destruct payload as [|b p].
  - rewrite bool_decide_true by done. rewrite Ql in Hhead.
    change (Z.of_nat (length (@nil Z)) >? 0) with false in Hhead.
    exists (ev1 ++ [EvCall handler ud None 0]). split; [|unfold calls in *; by rewrite filter_app, C1].
    pose proof (thread_run_app _ _ _ _ _ _ _ _ _ _ Hhead (Hcall None eq_refl)) as HH.
    rewrite <-!app_assoc in HH. exact HH.
  - rewrite bool_decide_false by done.
    destruct (recv_payload t s1 h ps [] Hps Qa) as (ev2 & E2 & C2); [rewrite app_nil_l, Ep, Ql; done|].
    rewrite app_nil_l, Ep in E2. rewrite Z.gtb_ltb in Hhead.
    destruct (Z.ltb_spec 0 (payload_len h)); [|cbn [length] in Ql; lia].
    assert (E3 : thread_run [t] s1 (Payload h (b :: p)) = Ok (s1, Complete h (Some (b :: p)), [])).
    { cbn [thread_run thread_step]. rewrite Ql. by rewrite Z.ltb_irrefl. }
    exists (ev1 ++ (ev2 ++ []) ++ [EvCall handler ud (Some (b :: p)) (length (b :: p))]). split.
    + pose proof (thread_run_app _ _ _ _ _ _ _ _ _ _ Hhead (thread_run_app _ _ _ _ _ _ _ _ _ _
        (thread_run_app _ _ _ _ _ _ _ _ _ _ E2 E3) (Hcall (Some (b :: p)) eq_refl))) as HH.
      rewrite <-!app_assoc in HH. rewrite <-!app_assoc. exact HH.
    + unfold calls in *. rewrite !filter_app, C1, C2. done.
Qed.

(** The answer to a request, when [tcp_send] takes the header. *)
Lemma request_answered s h payload handler ud t response :
  0 ≤ rs_active_requests s < 2 ^ 32 → is_u16 (msg_type h) → bytes_ok response →
  t_rc t = 0 → t_response t = Some response → t_resp_len t = length response →
  Z.of_nat (length response) ≤ PROTOCOL_MAX_PAYLOAD_SIZE → send_int (t_send t) ≠ 0 →
  ∃ reply, thread_run (reply_turns t) (server_request_inc s).2 (Calling h payload handler ud) =
      Ok (s, Leaving, [EvSend (header_bytes reply)]) ∧
    header_ok reply ∧ msg_type reply = msg_type h ∧ payload_len reply = Z.of_nat (length response) ∧
    crc32 reply = wire_crc reply response.
Proof.
  intros Ha Ht Hr Erc Er El Hmax Hsend.
  destruct (message_header_init_code_ok (t_now_id t) (t_now_s t) (t_counter t) (msg_type h)
    (Z.of_nat (length response))) as (h0 & c & E0 & Hok & Hty & Hpl); [unfold PROTOCOL_MAX_PAYLOAD_SIZE in Hmax; ulia|done|].
  set (reply := set_crc32 h0 (wire_crc h0 response)).
  assert (Eh : response_header h t (Some response) (length response) = Ok (header_bytes reply)).
  { unfold response_header. rewrite u32_id by (unfold PROTOCOL_MAX_PAYLOAD_SIZE in Hmax; ulia). rewrite E0.
    rewrite compute_header_crc32_spec by lia. rewrite take_ge by lia.
    rewrite serialize_header_spec by (cbn; lia). by rewrite app_nil_r. }
  exists reply. split; [|split; [apply set_crc32_ok; [exact Hok|exact (wire_crc_u32 _ _ Hr)]|]].
  - unfold reply_turns. cbn [thread_run thread_step mbind result_bind fst snd]. rewrite Erc, Er, El.
    cbn [Z.eqb mbind result_bind fst snd thread_step]. rewrite Eh.
    cbn [mbind result_bind fst snd thread_step]. step_eqs.
    cbn [mbind result_bind fst snd].
    rewrite inc_dec by exact Ha. change (distric_err_code DISTRIC_OK) with 0.
    apply Z.eqb_neq in Hsend. rewrite Hsend. cbn [negb].
    destruct (send_int (t_send t) =? distric_err_code DISTRIC_ERR_BACKPRESSURE); reflexivity.
  - split; [|done]. cbn [msg_type reply set_crc32]. rewrite Hty. by apply u16_id.
Qed.

(** ** Properties *)


(** Whatever the interleaving of connections, registrations and a stop, the
    requests that are being received or served are never more than the limit, and
    [active_requests] counts the admissions under way. *)
Theorem rpc_admission config acts y ev :
  rpc_config_ok config → Z.of_nat (opened acts) < 2 ^ 32 - 1 → rpc_run acts (started config) = Ok (y, ev) →
  let limit := rs_max_inflight (server_create_internal config) in
  number (λ ph, match ph with Payload _ _ | Complete _ _ | Calling _ _ _ _ | Answered _ _ _ _ => true | _ => false end)
    (sy_threads y) ≤ limit ∧
  rs_active_requests (sy_server y) = number in_flight (sy_threads y) ∧
  rs_handlers_count (sy_server y) = number counted (sy_threads y).
Proof.
  intros Hc Hop E. destruct (run_wf acts _ _ _ (started_wf _ Hc) ltac:(cbn; lia) E) as [W Hm].
  change (rs_max_inflight (sy_server (started config))) with (rs_max_inflight (server_create_internal config)) in Hm.
  cbv zeta. rewrite <-Hm. split; [|split; apply W].
  etrans; [|apply (sy_admitted _ W)]. apply number_le. by intros [].
Qed.

(** Once the wait of [rpc_server_stop] ended without its deadline passing, no
    connection receives, calls a handler or sends any more, whichever threads are
    still to come. *)
Theorem rpc_drain_quiet config acts y ev acts' y' ev' :
  rpc_config_ok config → Z.of_nat (opened acts) < 2 ^ 32 - 1 → rpc_run acts (started config) = Ok (y, ev) →
  sy_stop y = Drained → rpc_run acts' y = Ok (y', ev') → ev' = [].
Proof.
  intros Hc Hop E Hd E'. destruct (run_wf acts _ _ _ (started_wf _ Hc) ltac:(cbn; lia) E) as [W _].
  by apply (hushed_run acts' y y' ev' (sy_drained _ W Hd)).
Qed.

(** [tcp_send] returns a number of bytes, which the server takes for an error: no
    connection is ever sent anything but the header of a response. *)
Theorem response_payload_never_sent config acts y ev :
  sends_ok acts → rpc_run acts (started config) = Ok (y, ev) → Forall header_event ev.
Proof.
  intros Hs E. by destruct (header_reply_run acts (started config) y ev Hs (List.Forall_nil _) E).
Qed.

(** ** Witnesses *)

Definition example_payload : list Z := [1; 2; 3].
Definition example_request : message_header :=
  let h := MessageHeader PROTOCOL_MAGIC PROTOCOL_VERSION 0x4001 0 0 3 77 1700000000 0 in
  set_crc32 h (wire_crc h example_payload).
Definition example_server : rpc_server :=
  match rpc_server_register_handler 0x4001 7 70 (rpc_server_start rpc_server_create) with
  | Ok s => s
  | _ => rpc_server_create
  end.

(** A turn with a handler that answers two bytes, on a connection that takes what it is sent. *)
Definition example_turn : turn :=
  Turn ReceivedNothing true 0 (Some [8; 9]) 2 (Timespec 1700000000 5) (Timespec 1700000000 6) 3 (Sent 32).

Lemma example_send_answer : tcp_send_answer (Sent 32).
Proof.
  exists (λ _, SendBytes 31), conn_example, (repeat 0 32). eexists. split; [split; [split|]; vm_compute; lia|].
  split; [vm_compute; reflexivity|]. vm_compute. reflexivity.
Qed.

#[local] Transparent handler_table_find handler_table_insert handler_table_remove rpc_server_register_handler
  rpc_server_unregister_handler.

Lemma example_request_ok : request_ok example_server example_request example_payload 7 70.
Proof. split; try (vm_compute; (done || reflexivity)); try (apply (bool_decide_unpack _); by vm_compute); vm_compute; intuition congruence. Qed.


Definition chunk_turn (bytes : list Z) : turn := recv_turn example_turn bytes.
Definition two_requests : list rpc_action :=
  let start i := [ActConnection; ActThread i example_turn; ActThread i example_turn; ActThread i example_turn;
    ActThread i (chunk_turn (header_bytes example_request)); ActThread i example_turn; ActThread i example_turn;
    ActThread i example_turn; ActThread i (chunk_turn example_payload)] in
  [ActRegister 0x4001 7 70] ++ start 0%nat ++ take 8 (start 1%nat).
Definition one_at_a_time : option rpc_server_config := Some (RpcServerConfig 1 0 0).
Definition busy_system : rpc_system :=
  match rpc_run two_requests (started one_at_a_time) with Ok (y, _) => y | _ => started None end.

Lemma rpc_admission_witness :
  sy_threads busy_system = [Payload example_request example_payload; Failing] ∧
  rs_active_requests (sy_server busy_system) = 2 ∧
  number in_flight (sy_threads busy_system) = 2.
Proof.
  destruct (rpc_admission one_at_a_time two_requests busy_system
    (match rpc_run two_requests (started one_at_a_time) with Ok (_, ev) => ev | _ => [] end)) as (_ & H & _).
  - vm_compute. repeat split; discriminate.
  - vm_compute. reflexivity.
  - vm_compute. reflexivity.
  - split; [vm_compute; reflexivity|]. split; [vm_compute; reflexivity|]. rewrite <-H. vm_compute. reflexivity.
Defined.

Definition drain_actions : list rpc_action :=
  [ActConnection; ActThread 0 example_turn; ActThread 0 example_turn; ActStop (Timespec 10 0); ActThread 0 example_turn;
   ActDrain false; ActThread 0 example_turn; ActDrain false].
Definition drained_system : rpc_system :=
  match rpc_run drain_actions (started None) with Ok (y, _) => y | _ => started None end.
Definition late_actions : list rpc_action :=
  [ActConnection; ActThread 1 example_turn; ActThread 1 example_turn; ActThread 1 example_turn; ActThread 1 example_turn].

Lemma rpc_drain_quiet_witness :
  sy_stop drained_system = Drained ∧ ∃ y', rpc_run late_actions drained_system = Ok (y', []).
Proof.
  split; [vm_compute; reflexivity|].
  assert (∃ y' ev', rpc_run late_actions drained_system = Ok (y', ev')) as (y' & ev' & E) by (vm_compute; by do 2 eexists).
  exists y'. rewrite E. do 2 f_equal. refine (rpc_drain_quiet None drain_actions drained_system [] late_actions y' ev' _ _ _ _ E).
  - exact I.
  - vm_compute. reflexivity.
  - vm_compute. reflexivity.
  - vm_compute. reflexivity.
Defined.

Definition answered_request : list rpc_action :=
  [ActRegister 0x4001 7 70; ActConnection; ActThread 0 example_turn; ActThread 0 example_turn; ActThread 0 example_turn;
   ActThread 0 (chunk_turn (header_bytes example_request)); ActThread 0 example_turn; ActThread 0 example_turn;
   ActThread 0 example_turn; ActThread 0 (chunk_turn example_payload); ActThread 0 example_turn;
   ActThread 0 example_turn; ActThread 0 example_turn; ActThread 0 example_turn; ActThread 0 example_turn].

Lemma response_payload_never_sent_witness :
  match rpc_run answered_request (started None) with
  | Ok (y, ev) => sy_threads y = [Leaving] ∧ length ev = 4%nat ∧ Forall header_event ev
  | _ => False
  end.
Proof.
  pose proof (response_payload_never_sent None answered_request) as H.
  destruct (rpc_run answered_request (started None)) as [[y ev]|e|] eqn:E; vm_compute in E; [|discriminate..].
  injection E as <- <-. split; [reflexivity|]. split; [reflexivity|].
  refine (H _ _ _ eq_refl). repeat constructor; exact example_send_answer.
Defined.
