(* ===== verification/RpcClient.v ===== *)
(** * RPC client (libs/distric_protocol/src/rpc.c)

    [rpc_call] sends a request on a connection of the pool and receives the
    response; [rpc_call_with_retry] repeats it with a growing, randomised delay
    under a budget of time.  What the pool, the connection, the clock and the
    allocator answer is the argument of a call; what a call does to them is its list
    of events. *)

From Stdlib Require Import ZArith Lia List.
From S2P Require Import Prelude Crc32 Binary SendQueue TransportConfig CircuitBreaker TcpConnection RpcErrors RpcServer.

Local Open Scope Z_scope.

Definition RPC_DEFAULT_POOL_ACQUIRE_TIMEOUT_MS : Z := 5000.
Definition RPC_DEFAULT_MAX_CONCURRENT_CALLS : Z := 64.
Definition BUDGET_MIN_TIMEOUT_MS : Z := 50.

(** ** The client *)

Record rpc_client_config := RpcClientConfig {
  max_concurrent_calls : Z;
  pool_acquire_timeout_ms : Z;
  total_timeout_ms : Z
}.

Record rpc_client := RpcClient {
  rc_use_sem : bool;
  rc_acquire_sem : Z;
  rc_pool_acquire_timeout_ms : Z;
  rc_total_timeout_ms : Z
}.

Definition client_create_internal (config : option rpc_client_config) (sem_init_ok : bool) : result rpc_client :=
  let or_default f default := match config with Some c => if f c =? 0 then default else f c | None => default end in
  let max_concurrent := or_default max_concurrent_calls RPC_DEFAULT_MAX_CONCURRENT_CALLS in
  let acquire_timeout := or_default pool_acquire_timeout_ms RPC_DEFAULT_POOL_ACQUIRE_TIMEOUT_MS in
  let total := or_default total_timeout_ms 0 in
  if max_concurrent >? 0 then
    if negb sem_init_ok then Err DISTRIC_ERR_INIT_FAILED
    else Ok (RpcClient true max_concurrent acquire_timeout total)
  else Ok (RpcClient false 0 acquire_timeout total).

Definition rpc_client_create (sem_init_ok : bool) : result rpc_client := client_create_internal None sem_init_ok.
Definition rpc_client_create_with_config (config : option rpc_client_config) (sem_init_ok : bool) : result rpc_client :=
  client_create_internal config sem_init_ok.

(** ** One call *)

(** What [tcp_pool_acquire] answers: a connection, by its identity in the pool. *)
Inductive pool_result :=
  | Acquired (conn : Z) (c : tcp_connection)
  | NotAcquired (e : distric_err).

Record call_env := CallEnv {
  ce_sem : bool;                         (* sem_timedwait succeeds *)
  ce_pool : pool_result;
  ce_now_id : timespec;                  (* message_header_init *)
  ce_now_s : timespec;
  ce_counter : Z;
  ce_kernel : nat → send_answer;
  ce_recvs : list recv_result;           (* the answers of tcp_recv, in order *)
  ce_malloc : bool
}.

Inductive call_event :=
  | CeWait
  | CeAcquire (conn : Z)
  | CeSend (bytes : list Z)
  | CeRecv (len : nat)
  | CeMarkFailed (conn : Z)
  | CeRelease (conn : Z)
  | CePost.

(** How a call returns: its code, the response and the connection it leaves. *)
Record call_outcome := CallOutcome {
  co_code : Z;
  co_response : option (option (list Z) * Z);
  co_conn : option tcp_connection;
  co_events : list call_event
}.

(** The end of a receiving loop: the buffer, the code it gives up with, or no more
    answers: [tcp_recv] has not returned. *)
Inductive recv_end := RecvFull (buf : list Z) | RecvGaveUp (e : distric_err) | RecvWaiting.

Fixpoint recv_loop (timeout_ms : Z) (want : nat) (buf : list Z) (recvs : list recv_result) :
    result (recv_end * list recv_result * list call_event) :=
  if (want <=? length buf)%nat then Ok (RecvFull buf, recvs, [])
  else
    match recvs with
    | [] => Ok (RecvWaiting, [], [CeRecv (want - length buf)])
    | r :: recvs =>
        let rerr := translate_recv_error (recv_int r) timeout_ms in
        if bool_decide (rerr = DISTRIC_ERR_TIMEOUT) then
          Ok (RecvGaveUp DISTRIC_ERR_TIMEOUT, recvs, [CeRecv (want - length buf)])
        else if bool_decide (rerr = DISTRIC_ERR_EOF) || negb (bool_decide (rerr = DISTRIC_OK)) then
          Ok (RecvGaveUp rerr, recvs, [CeRecv (want - length buf)])
        else
          match r with
          | Received data =>
              if (length buf + length data <=? want)%nat then
                rest ← recv_loop timeout_ms want (buf ++ data) recvs;
                Ok (rest.1, CeRecv (want - length buf) :: rest.2)
              else Fault
          | _ => Fault
          end
    end.

(** The header of a request; what [compute_header_crc32] returns is not looked at. *)
Definition request_header (env : call_env) (msg_type : message_type) (request : option (list Z)) (req_len : nat) :
    result (list Z) :=
  match message_header_init (ce_now_id env) (ce_now_s env) (ce_counter env) msg_type (u32 (Z.of_nat req_len)) with
  | Ok (req_hdr, _) =>
      match compute_header_crc32 req_hdr request req_len with
      | Ok req_hdr => serialize_header req_hdr (repeat 0 MESSAGE_HEADER_SIZE)
      | Err _ => serialize_header req_hdr (repeat 0 MESSAGE_HEADER_SIZE)
      | Fault => Fault
      end
  | _ => Fault
  end.

Section call.
Variable client : rpc_client.
Variable env : call_env.

Definition waited : list call_event := if rc_use_sem client then [CeWait] else [].
Definition posted : list call_event := if rc_use_sem client then [CePost] else [].

(** The connection is marked as failed and released, the slot is given back. *)
Definition abandon (conn : Z) : list call_event := [CeMarkFailed conn; CeRelease conn] ++ posted.

(** From the receipt of the header of the response on. *)
Definition receive_response (conn : Z) (c : tcp_connection) (timeout_ms : Z) (sent : list call_event) :
    result (option call_outcome) :=
  let fail code ev := Ok (Some (CallOutcome code None (Some c) (sent ++ ev ++ abandon conn))) in
  r ← recv_loop timeout_ms MESSAGE_HEADER_SIZE [] (ce_recvs env);
  let '(stop, recvs, ev) := r in
  match stop with
  | RecvWaiting => Ok None
  | RecvGaveUp e => fail (distric_err_code e) ev
  | RecvFull resp_hdr_buf =>
      match deserialize_header resp_hdr_buf with
      | Fault => Fault
      | Err _ => fail (distric_err_code DISTRIC_ERR_INVALID_FORMAT) ev
      | Ok resp_hdr =>
          if payload_len resp_hdr >? RPC_MAX_MESSAGE_SIZE then fail (distric_err_code DISTRIC_ERR_INVALID_FORMAT) ev
          else if (payload_len resp_hdr >? 0) && negb (ce_malloc env) then
            fail (distric_err_code DISTRIC_ERR_NO_MEMORY) ev
          else
            r ← (if payload_len resp_hdr >? 0 then recv_loop timeout_ms (Z.to_nat (payload_len resp_hdr)) [] recvs
                 else Ok (RecvFull [], recvs, []));
            let '(stop, _, ev') := r in
            match stop with
            | RecvWaiting => Ok None
            | RecvGaveUp e => fail (distric_err_code e) (ev ++ ev')
            | RecvFull bytes =>
                let response := if payload_len resp_hdr >? 0 then Some bytes else None in
                intact ← verify_message_crc32 resp_hdr response (Z.to_nat (payload_len resp_hdr));
                if intact : bool then
                  Ok (Some (CallOutcome 0 (Some (response, payload_len resp_hdr)) (Some c)
                              (sent ++ ev ++ ev' ++ [CeRelease conn] ++ posted)))
                else fail (distric_err_code DISTRIC_ERR_INVALID_FORMAT) (ev ++ ev')
            end
      end
  end.

(** [rpc_call]; [None] when it has not returned. *)
Definition rpc_call (msg_type : message_type) (request : option (list Z)) (req_len : nat) (timeout_ms : Z) :
    result (option call_outcome) :=
  if Z.of_nat req_len >? RPC_MAX_MESSAGE_SIZE then
    Ok (Some (CallOutcome (distric_err_code DISTRIC_ERR_INVALID_ARG) None None []))
  else if rc_use_sem client && negb (ce_sem env) then
    Ok (Some (CallOutcome (distric_err_code DISTRIC_ERR_TIMEOUT) None None []))
  else
    match ce_pool env with
    | NotAcquired e => Ok (Some (CallOutcome (distric_err_code e) None None (waited ++ posted)))
    | Acquired conn c =>
        req_hdr_buf ← request_header env msg_type request req_len;
        s ← tcp_send (ce_kernel env) c req_hdr_buf;
        match s with
        | None => Ok None
        | Some (r, c) =>
            let sent := waited ++ [CeAcquire conn; CeSend req_hdr_buf] in
            let send_err := send_int r in
            if negb (send_err =? distric_err_code DISTRIC_OK) then
              Ok (Some (CallOutcome send_err None (Some c) (sent ++ abandon conn)))
            else if (0 <? req_len)%nat then
              bytes ← response_bytes request req_len;
              s ← tcp_send (ce_kernel env) c bytes;
              match s with
              | None => Ok None
              | Some (r, c) =>
                  let sent := sent ++ [CeSend bytes] in
                  let send_err := send_int r in
                  if negb (send_err =? distric_err_code DISTRIC_OK) then
                    Ok (Some (CallOutcome send_err None (Some c) (sent ++ abandon conn)))
                  else receive_response conn c timeout_ms sent
              end
            else receive_response conn c timeout_ms sent
        end
    end.
End call.

(** ** Calling again *)

Inductive retry_event :=
  | ReAttempt (elapsed timeout_ms : Z)   (* microseconds since the start, at the check of the budget *)
  | ReSleep (delay_ms : Z).

Section retry.
Variable total_ms : Z.                        (* client->total_timeout_ms *)
Variable now : nat → Z.                       (* the readings of get_time_us, in order *)
Variable rand_r : nat → Z.                    (* the values of rand_r, in order *)
Variable call : nat → Z → result (option Z).  (* rpc_call: the attempt and its timeout *)

Definition wall_start : Z := now 0.
Definition limited : bool := total_ms >? 0.
Definition budget_us : Z := if limited then u64 (total_ms * 1000) else 2 ^ 64 - 1.
Definition elapsed_at (k : nat) : Z := u64 (now k - wall_start).

(** The check before an attempt: [None] if the budget is exhausted, else the timeout
    of the attempt. *)
Definition budget_check (k : nat) (timeout_ms : Z) : option Z :=
  if limited then
    let elapsed_us := elapsed_at k in
    if elapsed_us >=? budget_us then None
    else
      let remaining_ms := (budget_us - elapsed_us) / 1000 in
      if remaining_ms <? BUDGET_MIN_TIMEOUT_MS then None
      else if (timeout_ms >? 0) && (remaining_ms <? timeout_ms) then Some (s32 remaining_ms)
      else Some timeout_ms
  else Some timeout_ms.

(** The delay before attempt [attempt], read at clock reading [k]. *)
Definition jittered_delay (attempt : nat) (backoff : Z) (k : nat) : Z :=
  let half := backoff / 2 in
  let jitter := u32 (rand_r attempt) mod (half + 1) in
  let delay_ms := half + jitter in
  if limited then
    let elapsed_us := elapsed_at k in
    let remaining_ms := if budget_us >? elapsed_us then (budget_us - elapsed_us) / 1000 else 0 in
    if delay_ms >? remaining_ms then s32 remaining_ms else delay_ms
  else delay_ms.

Definition next_backoff (backoff : Z) : Z := if backoff * 2 <? 5000 then backoff * 2 else 5000.

(** [k] counts the readings of the clock; [None] while an attempt has not returned. *)
Fixpoint retry_loop (fuel attempt : nat) (max_retries backoff timeout_ms : Z) (k : nat) (err : Z) :
    result (option (Z * list retry_event)) :=
  match fuel with
  | O => Ok None
  | S fuel =>
      if Z.of_nat attempt >? max_retries then Ok (Some (err, []))
      else
        match budget_check k timeout_ms with
        | None => Ok (Some (distric_err_code DISTRIC_ERR_TIMEOUT, []))
        | Some timeout_ms =>
            let checked := ReAttempt (elapsed_at k) timeout_ms in
            let k := if limited then S k else k in
            let again := (0 <? attempt)%nat in
            let delay_ms := if again then jittered_delay attempt backoff k else 0 in
            let k := if again && limited then S k else k in
            let slept := if delay_ms >? 0 then [ReSleep delay_ms] else [] in
            let backoff := if again then next_backoff backoff else backoff in
            answer ← call attempt timeout_ms;
            match answer with
            | None => Ok None
            | Some err =>
                if err =? distric_err_code DISTRIC_OK then Ok (Some (err, slept ++ [checked]))
                else
                  let cls := rpc_error_classify err in
                  if bool_decide (cls = RPC_ERR_CLASS_INVALID) || bool_decide (cls = RPC_ERR_CLASS_INTERNAL) then
                    Ok (Some (err, slept ++ [checked]))
                  else if Z.of_nat attempt =? 2 ^ 31 - 1 then Fault
                  else
                    rest ← retry_loop fuel (S attempt) max_retries backoff timeout_ms k err;
                    Ok (option_map (λ r, (r.1, slept ++ [checked] ++ r.2)) rest)
            end
        end
  end.

(** The loop makes at most [max_retries + 1] turns and a last test of its condition. *)
Definition retrying (max_retries timeout_ms : Z) : result (option (Z * list retry_event)) :=
  retry_loop (Z.to_nat (max_retries + 1) + 1) 0 max_retries 50 timeout_ms 1 0.
End retry.

(** [envs] has the environment of each attempt. *)
Definition rpc_call_with_retry (client : rpc_client) (now rand_r : nat → Z) (envs : nat → call_env)
    (msg_type : message_type) (request : option (list Z)) (req_len : nat) (timeout_ms max_retries : Z) :
    result (option (Z * list retry_event)) :=
  retrying (rc_total_timeout_ms client) now rand_r
    (λ attempt timeout_ms,
       r ← rpc_call client (envs attempt) msg_type request req_len timeout_ms; Ok (option_map co_code r))
    max_retries timeout_ms.

(** ** A call never succeeds *)

Lemma recv_loop_never_full timeout_ms want buf recvs stop rest ev :
  (length buf < want)%nat → recv_loop timeout_ms want buf recvs = Ok (stop, rest, ev) →
  ∀ bytes, stop ≠ RecvFull bytes.
Proof.
  intros Hlt. destruct recvs as [|r recvs]; cbn [recv_loop]; destruct (Nat.leb_spec want (length buf)); try lia.
  - by intros [= <- <- <-].
  - pose proof (translate_recv_error_not_ok (recv_int r) timeout_ms) as Hok.
    case_bool_decide; [by intros [= <- <- <-]|].
    rewrite (bool_decide_false (translate_recv_error (recv_int r) timeout_ms = DISTRIC_OK)) by exact Hok.
    cbn [negb]. rewrite orb_true_r. by intros [= <- <- <-].
Qed.

(** A request as the callers of [rpc_call] pass it. *)
Definition buffer_ok (request : option (list Z)) (len : nat) : Prop :=
  match request with Some r => (len ≤ length r)%nat | None => len = 0%nat end.

Lemma request_header_spec env msg_type request req_len :
  buffer_ok request req_len → Z.of_nat req_len ≤ RPC_MAX_MESSAGE_SIZE →
  ∃ h, request_header env msg_type request req_len = Ok (header_bytes h) ∧
    payload_len h = Z.of_nat req_len ∧ Binary.msg_type h = message_type_code msg_type.
Proof.
  intros Hb Hmax. unfold RPC_MAX_MESSAGE_SIZE in Hmax. unfold request_header, message_header_init.
  destruct (message_header_init_code_ok (ce_now_id env) (ce_now_s env) (ce_counter env) (message_type_code msg_type)
    (u32 (Z.of_nat req_len))) as (h & c & -> & _ & Ht & Hp);
    [apply u32_range|rewrite u32_id by ulia; unfold PROTOCOL_MAX_PAYLOAD_SIZE; lia|].
  rewrite u32_id in Hp by ulia. rewrite u16_id in Ht by by destruct msg_type.
  destruct request as [r|]; cbn [buffer_ok] in Hb.
  - rewrite compute_header_crc32_spec by exact Hb. rewrite serialize_header_spec by (cbn; lia).
    eexists. rewrite app_nil_r. split; [reflexivity|]. done.
  - subst req_len. rewrite compute_header_crc32_none. rewrite serialize_header_spec by (cbn; lia).
    eexists. rewrite app_nil_r. split; [reflexivity|]. done.
Qed.

Definition pool_ok (p : pool_result) : Prop :=
  match p with Acquired _ c => conn_wf c | NotAcquired e => e ≠ DISTRIC_OK end.

(** How every call ends: refused before it has a connection, or given up after
    [tcp_send] took, or refused, the header. *)
Record call_failed (client : rpc_client) (env : call_env) (req_len : nat) (o : call_outcome) : Prop := {
  cf_code : co_code o ≠ 0;
  cf_response : co_response o = None;
  cf_events :
    co_events o = [] ∨ co_events o = waited client ++ posted client ∨
    ∃ conn c c' h, ce_pool env = Acquired conn c ∧ co_conn o = Some c' ∧ payload_len h = Z.of_nat req_len ∧
      co_events o = waited client ++ [CeAcquire conn; CeSend (header_bytes h)] ++ abandon client conn ∧
      (co_code o = 32 ∧ tc_stream c' = tc_stream c ++ header_bytes h ∨ co_code o < 0)
}.

Lemma rpc_call_fails client env msg_type request req_len timeout_ms :
  buffer_ok request req_len → pool_ok (ce_pool env) →
  ∃ o, rpc_call client env msg_type request req_len timeout_ms = Ok (Some o) ∧ call_failed client env req_len o.
Proof.
  intros Hb Hp. unfold rpc_call. rewrite Z.gtb_ltb.
  destruct (Z.ltb_spec RPC_MAX_MESSAGE_SIZE (Z.of_nat req_len)) as [|Hmax].
  { eexists. split; [reflexivity|]. split; [done|done|by left]. }
  destruct (rc_use_sem client && negb (ce_sem env)).
  { eexists. split; [reflexivity|]. split; [done|done|by left]. }
  destruct (ce_pool env) as [conn c|e] eqn:Epool; cbn [pool_ok] in Hp.
  2: { eexists. split; [reflexivity|]. split; [|done|by right; left]. cbn [co_code].
       intros ->%distric_err_code_zero. done. }
  destruct (request_header_spec env msg_type request req_len Hb Hmax) as (h & -> & Hlen & _). cbn [mbind result_bind].
  destruct (tcp_send_spec (ce_kernel env) c (header_bytes h) Hp) as (r & c' & Es & _ & Hout & _).
  pose proof (send_int_nonzero _ _ _ _ _ Hp ltac:(rewrite header_bytes_length; lia) Es) as Hnz.
  rewrite Es. cbn [mbind result_bind]. change (distric_err_code DISTRIC_OK) with 0.
  destruct (Z.eqb_spec (send_int r) 0) as [|_]; [done|]. cbn [negb]. eexists. split; [reflexivity|].
  split; [exact Hnz|done|]. right; right. exists conn, c, c', h. cbn [co_events co_conn co_code].
  split; [done|]. split; [done|]. split; [done|]. split; [by rewrite <-!app_assoc|].
  destruct r as [n|e]; cbn [send_outcome send_int] in *.
  - left. destruct Hout as [-> Hs]. by rewrite header_bytes_length.
  - right. destruct (tcp_send_errors _ _ _ _ _ Es) as [-> |[-> | ->]]; cbn; lia.
Qed.

(** ** The delays and the budget *)

(** The base of the delay before an attempt: 50, 100, 200, ... up to 5000. *)
Definition pace (attempt : nat) : Z := Nat.iter (attempt - 1) next_backoff 50.

Lemma pace_next attempt : (0 < attempt)%nat → next_backoff (pace attempt) = pace (S attempt).
Proof.
  intros H. unfold pace. replace (S attempt - 1)%nat with (S (attempt - 1)) by lia. reflexivity.
Qed.

Lemma next_backoff_min x : next_backoff x = Z.min (x * 2) 5000.
Proof. unfold next_backoff. destruct (Z.ltb_spec (x * 2) 5000); lia. Qed.

Lemma pace_doubles attempt : pace (S attempt) = Z.min (50 * 2 ^ Z.of_nat attempt) 5000.
Proof.
  unfold pace. replace (S attempt - 1)%nat with attempt by lia. induction attempt as [|n IH]; [done|].
  change (Nat.iter (S n) next_backoff 50) with (next_backoff (Nat.iter n next_backoff 50)).
  rewrite next_backoff_min, IH, Nat2Z.inj_succ, Z.pow_succ_r by lia. lia.
Qed.

Lemma pace_bounds attempt : 50 ≤ pace attempt ≤ 5000.
Proof.
  destruct attempt as [|attempt]; [cbn; lia|]. rewrite pace_doubles.
  assert (0 < 2 ^ Z.of_nat attempt) by (apply Z.pow_pos_nonneg; lia). lia.
Qed.

Section limits.
Variables (total_ms : Z) (now rand_r : nat → Z).
Notation limited := (limited total_ms).
Notation budget_us := (budget_us total_ms).

(** The events from attempt [attempt] on. *)
Fixpoint paced (timeout_ms : Z) (attempt : nat) (ev : list retry_event) : Prop :=
  match ev with
  | [] => True
  | ReAttempt e t :: ev =>
      (t ≤ timeout_ms ∧ (limited = true → e + BUDGET_MIN_TIMEOUT_MS * 1000 ≤ budget_us ∧
        (0 < timeout_ms → 0 < t ∧ e + t * 1000 ≤ budget_us))) ∧ paced t (S attempt) ev
  | ReSleep d :: ev =>
      match ev with
      | ReAttempt e t :: ev' =>
          (0 < attempt)%nat ∧ 0 < d ≤ pace attempt ∧ (limited = false → pace attempt / 2 ≤ d) ∧
          (t ≤ timeout_ms ∧ (limited = true → e + BUDGET_MIN_TIMEOUT_MS * 1000 ≤ budget_us ∧
            (0 < timeout_ms → 0 < t ∧ e + t * 1000 ≤ budget_us))) ∧ paced t (S attempt) ev'
      | _ => False
      end
  end.

Definition attempts (ev : list retry_event) : nat :=
  length (List.filter (λ e, match e with ReAttempt _ _ => true | _ => false end) ev).

Lemma budget_check_spec k timeout_ms t : is_u32 total_ms → timeout_ms < 2 ^ 31 →
  budget_check total_ms now k timeout_ms = Some t →
  t ≤ timeout_ms ∧ (limited = true → elapsed_at now k + BUDGET_MIN_TIMEOUT_MS * 1000 ≤ budget_us ∧
    (0 < timeout_ms → 0 < t ∧ elapsed_at now k + t * 1000 ≤ budget_us)).
Proof.
  intros Ht H31. unfold budget_check. destruct limited; [|by intros [= <-]].
  set (e := elapsed_at now k). set (b := budget_us). unfold BUDGET_MIN_TIMEOUT_MS in *.
  destruct (e >=? b) eqn:Eb; [done|]. rewrite Z.geb_leb in Eb. apply Z.leb_gt in Eb.
  set (r := (b - e) / 1000). assert (Hr : r * 1000 ≤ b - e) by (unfold r; Z.to_euclidean_division_equations; lia).
  destruct (Z.ltb_spec r 50); [done|]. rewrite Z.gtb_ltb. destruct (Z.ltb_spec 0 timeout_ms); cbn [andb].
  - destruct (Z.ltb_spec r timeout_ms); intros [= <-]; [|lia].
    assert (s32 r = r) as ->; [|lia]. rewrite <-(u32_id r) at 1 by ulia. apply s32_u32. ulia.
  - intros [= <-]. lia.
Qed.

Lemma jittered_delay_spec attempt k : (0 < attempt)%nat →
  jittered_delay total_ms now rand_r attempt (pace attempt) k ≤ pace attempt ∧
  (limited = false → pace attempt / 2 ≤ jittered_delay total_ms now rand_r attempt (pace attempt) k).
Proof.
  intros Ha. pose proof (pace_bounds attempt) as Hp. unfold jittered_delay. set (p := pace attempt) in *.
  set (half := p / 2). assert (0 ≤ half ∧ half * 2 ≤ p) by (unfold half; Z.to_euclidean_division_equations; lia).
  pose proof (Z.mod_pos_bound (u32 (rand_r attempt)) (half + 1) ltac:(lia)) as Hj.
  set (j := u32 (rand_r attempt) mod (half + 1)) in *.
  destruct limited; [|split; [lia|intros _; lia]]. split; [|done].
  set (r := if budget_us >? elapsed_at now k then (budget_us - elapsed_at now k) / 1000 else 0).
  rewrite Z.gtb_ltb. destruct (Z.ltb_spec r (half + j)); [|lia].
  assert (0 ≤ r).
  { unfold r. rewrite Z.gtb_ltb. destruct (Z.ltb_spec (elapsed_at now k) budget_us); [|lia]. apply Z.div_pos; lia. }
  assert (s32 r = r) as ->; [|lia]. rewrite <-(u32_id r) at 1 by ulia. apply s32_u32. ulia.
Qed.

(** An attempt whose code ends the loop. *)
Definition final (code : Z) : bool :=
  (code =? 0) || bool_decide (rpc_error_classify code = RPC_ERR_CLASS_INVALID) ||
  bool_decide (rpc_error_classify code = RPC_ERR_CLASS_INTERNAL).

Variable code : nat → Z → Z.   (* the code of an attempt with its timeout *)

(** The first final code of [n] attempts from [attempt] on, or the last code. *)
Fixpoint outcome_of (timeout_ms : Z) (n attempt : nat) (err : Z) : Z :=
  match n with
  | O => err
  | S n => let c := code attempt timeout_ms in if final c then c else outcome_of timeout_ms n (S attempt) c
  end.

(** A run of the loop from attempt [attempt] on. *)
Record retried (max_retries timeout_ms : Z) (attempt : nat) (err r : Z) (ev : list retry_event) : Prop := {
  rt_paced : paced timeout_ms attempt ev;
  rt_attempts : Z.of_nat (attempts ev) ≤ max_retries + 1 - Z.of_nat attempt;
  rt_code : (max_retries < Z.of_nat attempt ∧ r = err) ∨ r = distric_err_code DISTRIC_ERR_TIMEOUT ∨
    ∃ i t, (attempt ≤ i)%nat ∧ Z.of_nat i ≤ max_retries ∧ t ≤ timeout_ms ∧ r = code i t;
  rt_unlimited : limited = false → r = outcome_of timeout_ms (Z.to_nat (max_retries + 1) - attempt) attempt err
}.

Lemma retry_loop_spec max_retries fuel : ∀ attempt timeout_ms k err,
  is_u32 total_ms → 0 ≤ max_retries < 2 ^ 31 - 1 → timeout_ms < 2 ^ 31 → Z.of_nat attempt ≤ max_retries + 1 →
  (Z.to_nat (max_retries + 1) - attempt < fuel)%nat →
  ∃ r ev, retry_loop total_ms now rand_r (λ i t, Ok (Some (code i t))) fuel attempt max_retries (pace attempt)
      timeout_ms k err = Ok (Some (r, ev)) ∧ retried max_retries timeout_ms attempt err r ev.
Proof.
  induction fuel as [|fuel IH]; intros attempt timeout_ms k err Htot Hmax H31 Hatt Hf; [lia|].
  cbn [retry_loop]. rewrite Z.gtb_ltb. destruct (Z.ltb_spec max_retries (Z.of_nat attempt)) as [Hend|Hgo].
  { exists err, []. split; [done|]. split; [done|cbn; lia|left; by split|].
    intros _. by replace (Z.to_nat (max_retries + 1) - attempt)%nat with 0%nat by lia. }
  destruct (budget_check total_ms now k timeout_ms) as [t|] eqn:Eb.
  2: { eexists _, []. split; [done|]. split; [done|cbn; lia|by right; left|]. intros Hl. unfold budget_check in Eb. by rewrite Hl in Eb. }
  pose proof (budget_check_spec _ _ _ Htot H31 Eb) as Hcheck. cbn [mbind result_bind].
  set (k1 := if limited then S k else k). set (again := (0 <? attempt)%nat).
  set (d := if again then jittered_delay total_ms now rand_r attempt (pace attempt) k1 else 0).
  set (slept := if d >? 0 then [ReSleep d] else []).
  set (checked := ReAttempt (elapsed_at now k) t).
  assert (Hpace : (if again then next_backoff (pace attempt) else pace attempt) = pace (S attempt)).
  { unfold again. destruct (Nat.ltb_spec 0 attempt); [by apply pace_next|]. by replace attempt with 0%nat by lia. }
  assert (Hslept : ∀ ev, paced t (S attempt) ev → paced timeout_ms attempt (slept ++ checked :: ev)).
  { intros ev Hev. unfold slept, checked. rewrite Z.gtb_ltb. destruct (Z.ltb_spec 0 d) as [Hd|]; [|by split].
    unfold d, again in Hd. destruct (Nat.ltb_spec 0 attempt) as [Ha|]; [|lia]. unfold d, again.
    destruct (Nat.ltb_spec 0 attempt); [|lia]. pose proof (jittered_delay_spec attempt k1 Ha) as [Hle Hhalf].
    cbn [app paced]. split; [exact Ha|]. split; [lia|]. split; [exact Hhalf|]. by split. }
  assert (Hcount : ∀ ev, attempts (slept ++ checked :: ev) = S (attempts ev))
    by (intros ev; unfold slept; by destruct (_ >? _)).
  assert (Hunl : limited = false → t = timeout_ms).
  { intros Hl. unfold budget_check in Eb. rewrite Hl in Eb. by injection Eb. }
  assert (Hsub : (Z.to_nat (max_retries + 1) - attempt)%nat = S (Z.to_nat (max_retries + 1) - S attempt)) by lia.
  change (distric_err_code DISTRIC_OK) with 0. set (c := code attempt t).
  assert (Hfinal : final c = true → ∃ r ev, Ok (Some (c, slept ++ [checked])) = Ok (Some (r, ev)) ∧
    retried max_retries timeout_ms attempt err r ev).
  { intros Hfin. exists c, (slept ++ [checked]). split; [done|]. split; [by apply Hslept|rewrite Hcount; cbn; lia| |].
    - right; right. exists attempt, t. split; [done|]. split; [lia|]. split; [apply Hcheck|done].
    - intros Hl. rewrite Hsub. cbn [outcome_of]. rewrite <-(Hunl Hl). fold c. by rewrite Hfin. }
  unfold final in Hfinal. destruct (Z.eqb_spec c 0) as [E0|E0]; cbn [orb] in Hfinal; [by apply Hfinal|].
  destruct (bool_decide (rpc_error_classify c = RPC_ERR_CLASS_INVALID) ||
            bool_decide (rpc_error_classify c = RPC_ERR_CLASS_INTERNAL)) eqn:Ecls; [by apply Hfinal|]. clear Hfinal.
  destruct (Z.eqb_spec (Z.of_nat attempt) (2 ^ 31 - 1)); [lia|].
  set (k2 := if again && limited then S k1 else k1).
  destruct (IH (S attempt) t k2 c Htot Hmax ltac:(lia) ltac:(lia) ltac:(lia)) as (r & ev & E & [Hp Hn Hcode Hu]).
  rewrite Hpace, E. cbn [mbind result_bind option_map fst snd]. exists r, (slept ++ checked :: ev).
  split; [done|]. split; [by apply Hslept|rewrite Hcount; lia| |].
  - right. destruct Hcode as [[_ ->]|[->|(i & t' & Hi & Hi' & Ht' & ->)]]; [|by left|].
    + right. exists attempt, t. split; [done|]. split; [lia|]. split; [apply Hcheck|done].
    + right. exists i, t'. split; [lia|]. split; [lia|]. split; [destruct Hcheck; lia|done].
  - intros Hl. rewrite Hsub. cbn [outcome_of]. rewrite <-(Hunl Hl). fold c. unfold final.
    destruct (Z.eqb_spec c 0); [done|]. cbn [orb]. rewrite Ecls. by apply Hu.
Qed.
End limits.

Lemma retry_loop_ext total_ms now rand_r call call' : (∀ i t, call i t = call' i t) → ∀ fuel attempt max backoff timeout k err,
  retry_loop total_ms now rand_r call fuel attempt max backoff timeout k err =
  retry_loop total_ms now rand_r call' fuel attempt max backoff timeout k err.
Proof.
  intros H. induction fuel as [|fuel IH]; intros attempt max backoff timeout k err; [done|]. cbn [retry_loop].
  destruct (_ >? max); [done|]. destruct (budget_check _ _ _ _) as [t|]; [|done]. rewrite H.
  destruct (call' attempt t) as [[c|]|e|]; cbn [mbind result_bind]; try done.
  repeat (case_match; [done|]). by rewrite IH.
Qed.

(** ** Properties *)

(** [rpc_call] fails, against what its tests expect of it, whatever the other side does: once it has a connection it
    takes the number of bytes that [tcp_send] returns for an error, hands the
    connection back as failed and returns 32; the payload of the request is never
    sent.  Every slot it waited for is given back. *)
Theorem rpc_call_never_succeeds client env msg_type request req_len timeout_ms :
  buffer_ok request req_len → pool_ok (ce_pool env) →
  ∃ o, rpc_call client env msg_type request req_len timeout_ms = Ok (Some o) ∧ call_failed client env req_len o.
Proof. apply rpc_call_fails. Qed.

(** A call that waits for a response header gives up at the first answer of
    [tcp_recv], be it all the bytes it asked for. *)
Theorem response_never_received timeout_ms recvs stop rest ev :
  recv_loop timeout_ms MESSAGE_HEADER_SIZE [] recvs = Ok (stop, rest, ev) → ∀ bytes, stop ≠ RecvFull bytes.
Proof. apply recv_loop_never_full. unfold MESSAGE_HEADER_SIZE. cbn. lia. Qed.

(** Whatever the calls, the clock and the random numbers are, the retries end
    after at most [max_retries + 1] attempts; the delay before an attempt is at most
    50, 100, 200, ... 5000 milliseconds, and at least half of that without a budget;
    an attempt starts its check with at least 50 milliseconds of the budget left and
    its timeout within it; without a budget the answer is the first final code. *)
Theorem retry_bounded total_ms now rand_r code max_retries timeout_ms :
  is_u32 total_ms → 0 ≤ max_retries < 2 ^ 31 - 1 → timeout_ms < 2 ^ 31 →
  ∃ r ev, retrying total_ms now rand_r (λ i t, Ok (Some (code i t))) max_retries timeout_ms = Ok (Some (r, ev)) ∧
    paced total_ms timeout_ms 0 ev ∧ Z.of_nat (attempts ev) ≤ max_retries + 1 ∧
    (r = distric_err_code DISTRIC_ERR_TIMEOUT ∨ ∃ i t, Z.of_nat i ≤ max_retries ∧ t ≤ timeout_ms ∧ r = code i t) ∧
    (total_ms = 0 → r = outcome_of code timeout_ms (Z.to_nat (max_retries + 1)) 0 0).
Proof.
  intros Ht Hm H31. unfold retrying.
  destruct (retry_loop_spec total_ms now rand_r code max_retries (Z.to_nat (max_retries + 1) + 1) 0 timeout_ms 1 0)
    as (r & ev & E & [Hp Hn Hc Hu]); try done; [lia..|].
  exists r, ev. split; [exact E|]. split; [exact Hp|]. split; [lia|]. split.
  - destruct Hc as [[? _]|[->|(i & t & _ & Hi & Ht' & ->)]]; [lia|by left|]. right. eauto.
  - intros ->. rewrite Hu by done. by rewrite Nat.sub_0_r.
Qed.

(** With [rpc_call] as it is, the retries end and fail too. *)
Theorem retry_never_succeeds client now rand_r envs msg_type request req_len timeout_ms max_retries :
  is_u32 (rc_total_timeout_ms client) → 0 ≤ max_retries < 2 ^ 31 - 1 → timeout_ms < 2 ^ 31 →
  buffer_ok request req_len → (∀ i, pool_ok (ce_pool (envs i))) →
  ∃ r ev, rpc_call_with_retry client now rand_r envs msg_type request req_len timeout_ms max_retries = Ok (Some (r, ev)) ∧
    r ≠ 0.
Proof.
  intros Ht Hm H31 Hb Hp.
  set (code i t := match rpc_call client (envs i) msg_type request req_len t with Ok (Some o) => co_code o | _ => 0 end).
  assert (Hcode : ∀ i t, Ok (Some (code i t)) =
    (r ← rpc_call client (envs i) msg_type request req_len t; Ok (option_map co_code r)) ∧ code i t ≠ 0).
  { intros i t. unfold code. destruct (rpc_call_fails client (envs i) msg_type request req_len t Hb (Hp i)) as (o & -> & Hf).
    split; [done|apply Hf]. }
  destruct (retry_loop_spec (rc_total_timeout_ms client) now rand_r code max_retries (Z.to_nat (max_retries + 1) + 1) 0
    timeout_ms 1 0) as (r & ev & E & [_ _ Hc _]); try done; [lia..|].
  exists r, ev. split.
  - rewrite <-E. unfold rpc_call_with_retry, retrying. change (pace 0) with 50. apply retry_loop_ext. intros i t. symmetry. apply Hcode.
  - destruct Hc as [[? _]|[->|(i & t & _ & _ & _ & ->)]]; [lia|done|]. apply Hcode.
Qed.

(** With a negative number of retries the call reports success without an attempt. *)
Theorem retry_without_attempt total_ms now rand_r call max_retries timeout_ms : max_retries < 0 →
  retrying total_ms now rand_r call max_retries timeout_ms = Ok (Some (0, [])).
Proof.
  intros H. unfold retrying. replace (Z.to_nat (max_retries + 1) + 1)%nat with 1%nat by lia.
  cbn [retry_loop]. rewrite Z.gtb_ltb. by destruct (Z.ltb_spec max_retries (Z.of_nat 0)); [|lia].
Qed.

(** The clock and the calls of a run whose second attempt outlives the budget: the
    timeout of an attempt is trimmed before its delay is slept. *)
Definition overrun_clock (k : nat) : Z := nth k [0; 0; 100000; 100000] 100000.

(** With a budget of one second the second attempt gets the 900 milliseconds that
    are left and begins after a delay of 50: it may end after the budget. *)
Theorem retry_overruns_budget :
  retrying 1000 overrun_clock (λ _, 25) (λ _ _, Ok (Some (distric_err_code DISTRIC_ERR_UNAVAILABLE))) 1 1000 =
    Ok (Some (distric_err_code DISTRIC_ERR_UNAVAILABLE, [ReAttempt 0 1000; ReSleep 50; ReAttempt 100000 900])) ∧
  budget_us 1000 < 100000 + 50 * 1000 + 900 * 1000.
Proof. split; reflexivity. Qed.

(** ** Witnesses *)

Definition example_client : rpc_client := RpcClient true 64 5000 1000.
Definition example_env : call_env :=
  CallEnv true (Acquired 5 conn_example) (Timespec 1700000000 5) (Timespec 1700000000 6) 3 (λ _, SendBytes 31)
    [Received (header_bytes example_request); Received example_payload] true.

Lemma example_env_pool_ok : pool_ok (ce_pool example_env).
Proof. split; [split|]; vm_compute; lia. Qed.

Lemma rpc_call_never_succeeds_witness :
  ∃ o, rpc_call example_client example_env MSG_CLIENT_SUBMIT (Some [1; 2; 3]) 3 100 = Ok (Some o) ∧
    co_code o = 32 ∧ length (co_events o) = 6%nat ∧ co_response o = None.
Proof.
  destruct (rpc_call_never_succeeds example_client example_env MSG_CLIENT_SUBMIT (Some [1; 2; 3]) 3 100)
    as (o & E & [_ Hr _]).
  - cbn. lia.
  - exact example_env_pool_ok.
  - exists o. split; [exact E|]. vm_compute in E. injection E as <-. done.
Defined.

Lemma response_never_received_witness :
  ∃ stop rest ev, recv_loop 100 MESSAGE_HEADER_SIZE [] [Received (header_bytes example_request)] = Ok (stop, rest, ev) ∧
    stop ≠ RecvFull (header_bytes example_request).
Proof.
  do 3 eexists. split; [vm_compute; reflexivity|].
  apply (response_never_received 100 [Received (header_bytes example_request)] _ [] [CeRecv 32]). vm_compute. reflexivity.
Defined.

Definition failing_code (i : nat) (t : Z) : Z := distric_err_code (if (i <? 2)%nat then DISTRIC_ERR_TIMEOUT else DISTRIC_OK).

Lemma retry_bounded_witness :
  ∃ r ev, retrying 0 (λ _, 0) (λ _, 7) (λ i t, Ok (Some (failing_code i t))) 5 200 = Ok (Some (r, ev)) ∧
    r = 0 ∧ attempts ev = 3%nat ∧ outcome_of failing_code 200 6 0 0 = 0.
Proof.
  destruct (retry_bounded 0 (λ _, 0) (λ _, 7) failing_code 5 200) as (r & ev & E & _ & _ & _ & Hu).
  - vm_compute. done.
  - lia.
  - lia.
  - exists r, ev. split; [exact E|]. vm_compute in E. injection E as <- <-. split; [done|]. split; [done|].
    symmetry. exact (Hu eq_refl).
Defined.

Lemma retry_never_succeeds_witness :
  ∃ r ev, rpc_call_with_retry example_client (λ _, 0) (λ _, 7) (λ _, example_env) MSG_CLIENT_SUBMIT (Some [1; 2; 3]) 3
      100 2 = Ok (Some (r, ev)) ∧ r = 32 ∧ r ≠ 0 ∧ attempts ev = 1%nat.
Proof.
  destruct (retry_never_succeeds example_client (λ _, 0) (λ _, 7) (λ _, example_env) MSG_CLIENT_SUBMIT (Some [1; 2; 3]) 3
    100 2) as (r & ev & E & Hr).
  - vm_compute. done.
  - lia.
  - lia.
  - cbn. lia.
  - intros _. exact example_env_pool_ok.
  - exists r, ev. split; [exact E|]. vm_compute in E. injection E as <- <-. done.
Defined.

Lemma retry_without_attempt_witness :
  retrying 0 (λ _, 0) (λ _, 7) (λ i t, Ok (Some (failing_code i t))) (-1) 200 = Ok (Some (0, [])).
Proof. apply (retry_without_attempt 0 (λ _, 0) (λ _, 7) (λ i t, Ok (Some (failing_code i t))) (-1) 200). lia. Defined.
