(* ===== verification/Fips180.v ===== *)
(** * SHA-256 as FIPS 180-4 defines it

    The reference for [Sha256.v], written from the standard and not from auth.c: the
    functions on words by arithmetic, the constants as the first 32 bits of the fractional
    parts of the roots of primes, the message schedule as a window that slides over it. *)

From Stdlib Require Import ZArith Lia List.
From stdpp Require Import base list numbers.
From S2P Require Import Prelude.

Local Open Scope Z_scope.

(** ** Functions on 32-bit words *)

(** The rotation takes the low [n] bits to the top. *)
Definition ROTR (n x : Z) : Z := x / 2 ^ n + x mod 2 ^ n * 2 ^ (32 - n).
Definition SHR (n x : Z) : Z := x / 2 ^ n.
Definition xor3 (x y z : Z) : Z := Z.lxor x (Z.lxor y z).

(** [Ch]: the bits of [y] where those of [x] are set, of [z] elsewhere. *)
Definition Ch (x y z : Z) : Z := Z.lor (Z.land x y) (Z.ldiff z x).
(** [Maj]: the bits that at least two of the three have. *)
Definition Maj (x y z : Z) : Z := Z.lor (Z.land x y) (Z.land z (Z.lor x y)).

Definition Sigma0 (x : Z) : Z := xor3 (ROTR 2 x) (ROTR 13 x) (ROTR 22 x).
Definition Sigma1 (x : Z) : Z := xor3 (ROTR 6 x) (ROTR 11 x) (ROTR 25 x).
Definition sigma0 (x : Z) : Z := xor3 (ROTR 7 x) (ROTR 18 x) (SHR 3 x).
Definition sigma1 (x : Z) : Z := xor3 (ROTR 17 x) (ROTR 19 x) (SHR 10 x).

(** ** Constants *)

Definition is_prime (n : nat) : bool := forallb (λ d, negb (n mod d =? 0)%nat) (seq 2 (n - 2)).
(** The first 64 primes: the 64th is 311. *)
Definition primes : list Z := Eval vm_compute in Z.of_nat <$> List.filter is_prime (seq 2 310).

(** The integer cube root, bit by bit from the top. *)
Fixpoint cube_root (bits : nat) (acc n : Z) : Z :=
  match bits with
  | O => acc
  | S bits =>
      let next := acc + 2 ^ Z.of_nat bits in
      cube_root bits (if next * next * next <=? n then next else acc) n
  end.

(** The first 32 bits of the fractional parts of the square roots of the first eight
    primes, and of the cube roots of the first 64. *)
Definition H0 : list Z := (λ p, Z.sqrt (p * 2 ^ 64) mod 2 ^ 32) <$> take 8 primes.
Definition K : list Z := (λ p, cube_root 40 0 (p * 2 ^ 96) mod 2 ^ 32) <$> primes.

(** The cube root is one: [cube_root 40] is exact below [2 ^ 120]. *)
Lemma cube_root_spec bits acc n :
  0 ≤ acc → acc ^ 3 ≤ n < (acc + 2 ^ Z.of_nat bits) ^ 3 →
  let r := cube_root bits acc n in r ^ 3 ≤ n < (r + 1) ^ 3.
Proof.
  revert acc. induction bits as [|bits IH]; intros acc Ha Hn; cbn [cube_root]; [exact Hn|].
  assert (0 < 2 ^ Z.of_nat bits) by (apply Z.pow_pos_nonneg; lia).
  rewrite Nat2Z.inj_succ, Z.pow_succ_r in Hn by lia.
  replace ((acc + 2 ^ Z.of_nat bits) * (acc + 2 ^ Z.of_nat bits) * (acc + 2 ^ Z.of_nat bits))
    with ((acc + 2 ^ Z.of_nat bits) ^ 3) by ring.
  destruct (Z.leb_spec ((acc + 2 ^ Z.of_nat bits) ^ 3) n); apply IH; [lia| |lia|lia].
  replace (acc + 2 ^ Z.of_nat bits + 2 ^ Z.of_nat bits) with (acc + 2 * 2 ^ Z.of_nat bits) by ring. lia.
Qed.

(** ** The hash *)

(** The 16 words of a block, the highest byte first. *)
Fixpoint words (n : nat) (bytes : list Z) : list Z :=
  match n with O => [] | S n => be_val (take 4 bytes) :: words n (drop 4 bytes) end.

(** The schedule from the 16 words [w] on: the next word after a window is that of its
    positions t-2, t-7, t-15 and t-16. *)
Fixpoint slide (n : nat) (w : list Z) : list Z :=
  match n with
  | O => w
  | S n =>
      match w with
      | [] => []
      | w0 :: w' =>
          w0 :: slide n (w' ++ [(sigma1 (nth 14 w 0) + nth 9 w 0 + sigma0 (nth 1 w 0) + w0) mod 2 ^ 32])
      end
  end.

(** One round on the working variables [a] to [h]. *)
Definition fips_round (v : list Z) (kw : Z * Z) : list Z :=
  let '(k, w) := kw in
  match v with
  | [a; b; c; d; e; f; g; h] =>
      let T1 := h + Sigma1 e + Ch e f g + k + w in
      let T2 := Sigma0 a + Maj a b c in
      [(T1 + T2) mod 2 ^ 32; a; b; c; (d + T1) mod 2 ^ 32; e; f; g]
  | _ => v
  end.

Definition fips_block (H block : list Z) : list Z :=
  zip_with (λ x y, (x + y) mod 2 ^ 32) (fold_left fips_round (combine K (slide 48 (words 16 block))) H) H.

(** The message, a 1 bit, as few zeros as fill up a block, and the length in bits. *)
Definition fips_padding (msg : list Z) : list Z :=
  let l := Z.of_nat (length msg) in
  msg ++ [128] ++ repeat 0 (Z.to_nat ((- (l + 9)) mod 64)) ++ be_bytes 8 (8 * l).

Fixpoint fips_blocks (n : nat) (H msg : list Z) : list Z :=
  match n with O => H | S n => fips_blocks n (fips_block H (take 64 msg)) (drop 64 msg) end.

Definition fips_sha256 (msg : list Z) : list Z :=
  let m := fips_padding msg in flat_map (be_bytes 4) (fips_blocks (length m / 64) H0 m).

(** ** The examples of the standard: "abc", the empty message, and one of two blocks *)

Definition hex_digest (n : Z) : list Z := be_bytes 32 n.

Lemma fips_abc : fips_sha256 [97; 98; 99] = hex_digest 0xba7816bf8f01cfea414140de5dae2223b00361a396177a9cb410ff61f20015ad.
Proof. by vm_compute. Qed.

Lemma fips_empty : fips_sha256 [] = hex_digest 0xe3b0c44298fc1c149afbf4c8996fb92427ae41e4649b934ca495991b7852b855.
Proof. by vm_compute. Qed.

Lemma fips_two_blocks :
  fips_sha256 (flat_map (λ i, [97 + i; 98 + i; 99 + i; 100 + i]) [0; 1; 2; 3; 4; 5; 6; 7; 8; 9; 10; 11; 12; 13])
  = hex_digest 0x248d6a61d20638b8e5c026930c3e6039a33ce45964ff2167f6ecedd419db06c1.
Proof. by vm_compute. Qed.
