(* ===== verification/Sha256.v ===== *)
(** * SHA-256 and HMAC (libs/distric_protocol/src/auth.c)

    The streaming hash of auth.c, a buffer of 64 bytes in front of the compression
    function, computes the SHA-256 of FIPS 180-4 ([Fips180.v]) in whatever pieces the message
    comes: first that of the padded message by the code's own compression ([sha256]), which
    is then the one of the standard; the two-piece HMAC is HMAC of the concatenation. *)

From Stdlib Require Import ZArith Lia List.
From S2P Require Import Prelude.
From S2P Require Import Fips180.

Local Open Scope Z_scope.

(** ** The compression function *)

(** The shift to the left is one of [uint32_t]. *)
Definition ROR32 (v n : Z) : Z := Z.lor (Z.shiftr v n) (u32 (Z.shiftl v (32 - n))).

(** The four constants of a line of the table, as one number. *)
Definition k_row (n : Z) : list Z := map (λ shift, u32 (Z.shiftr n shift)) [96; 64; 32; 0].

Definition SHA256_K : list Z := Eval cbv in flat_map k_row
  [0x428a2f9871374491b5c0fbcfe9b5dba5;
   0x3956c25b59f111f1923f82a4ab1c5ed5;
   0xd807aa9812835b01243185be550c7dc3;
   0x72be5d7480deb1fe9bdc06a7c19bf174;
   0xe49b69c1efbe47860fc19dc6240ca1cc;
   0x2de92c6f4a7484aa5cb0a9dc76f988da;
   0x983e5152a831c66db00327c8bf597fc7;
   0xc6e00bf3d5a7914706ca635114292967;
   0x27b70a852e1b21384d2c6dfc53380d13;
   0x650a7354766a0abb81c2c92e92722c85;
   0xa2bfe8a1a81a664bc24b8b70c76c51a3;
   0xd192e819d6990624f40e3585106aa070;
   0x19a4c1161e376c082748774c34b0bcb5;
   0x391c0cb34ed8aa4a5b9cca4f682e6ff3;
   0x748f82ee78a5636f84c878148cc70208;
   0x90befffaa4506cebbef9a3f7c67178f2].

(** The words [a] to [h]. *)
Record sha256_words := Words { wa : Z; wb : Z; wc : Z; wd : Z; we : Z; wf : Z; wg : Z; wh : Z }.

Definition sha256_h0 : sha256_words :=
  Words 0x6a09e667 0xbb67ae85 0x3c6ef372 0xa54ff53a 0x510e527f 0x9b05688c 0x1f83d9ab 0x5be0cd19.

(** [w[i]] for [i] below 16: a big-endian word of the block. *)
Definition block_word (block : list Z) (i : nat) : Z := 
  Z.lor (Z.lor (Z.lor (Z.shiftl (nth (i * 4) block 0) 24) (Z.shiftl (nth (i * 4 + 1) block 0) 16))
           (Z.shiftl (nth (i * 4 + 2) block 0) 8)) (nth (i * 4 + 3) block 0).

(** The next word of the schedule [w]. *)
Definition schedule_word (w : list Z) : Z :=
  let at_ k := nth (length w - k) w 0 in
  let s0 := Z.lxor (Z.lxor (ROR32 (at_ 15%nat) 7) (ROR32 (at_ 15%nat) 18)) (Z.shiftr (at_ 15%nat) 3) in
  let s1 := Z.lxor (Z.lxor (ROR32 (at_ 2%nat) 17) (ROR32 (at_ 2%nat) 19)) (Z.shiftr (at_ 2%nat) 10) in
  u32 (at_ 16%nat + s0 + at_ 7%nat + s1).

Definition schedule (block : list Z) : list Z :=
  Nat.iter 48 (λ w, w ++ [schedule_word w]) (block_word block <$> seq 0 16).

(** One round with the constant [k] and the word [w]. *)
Definition sha256_round (x : sha256_words) (kw : Z * Z) : sha256_words :=
  let '(k, w) := kw in
  let S1 := Z.lxor (Z.lxor (ROR32 (we x) 6) (ROR32 (we x) 11)) (ROR32 (we x) 25) in
  let ch := Z.lxor (Z.land (we x) (wf x)) (Z.land (Z.lxor (we x) 0xFFFFFFFF) (wg x)) in
  let t1 := u32 (wh x + S1 + ch + k + w) in
  let S0 := Z.lxor (Z.lxor (ROR32 (wa x) 2) (ROR32 (wa x) 13)) (ROR32 (wa x) 22) in
  let mj := Z.lxor (Z.lxor (Z.land (wa x) (wb x)) (Z.land (wa x) (wc x))) (Z.land (wb x) (wc x)) in
  let t2 := u32 (S0 + mj) in
  Words (u32 (t1 + t2)) (wa x) (wb x) (wc x) (u32 (wd x + t1)) (we x) (wf x) (wg x).

Definition compress (h : sha256_words) (block : list Z) : sha256_words :=
  let x := fold_left sha256_round (combine SHA256_K (schedule block)) h in
  Words (u32 (wa h + wa x)) (u32 (wb h + wb x)) (u32 (wc h + wc x)) (u32 (wd h + wd x))
    (u32 (we h + we x)) (u32 (wf h + wf x)) (u32 (wg h + wg x)) (u32 (wh h + wh x)).

(** ** The context *)

Record sha256_ctx := Sha256Ctx {
  cx_h : sha256_words;
  cx_bit_len : Z;         (* uint64_t *)
  cx_buf : list Z;        (* 64 bytes *)
  cx_buf_used : nat
}.

(** The buffer of a context on the stack is not initialised. *)
Definition sha256_init (garbage : list Z) : sha256_ctx := Sha256Ctx sha256_h0 0 garbage 0.

Definition sha256_compress (ctx : sha256_ctx) : result sha256_ctx :=
  block ← memread (cx_buf ctx) 0 64;
  Ok (Sha256Ctx (compress (cx_h ctx) block) (cx_bit_len ctx) (cx_buf ctx) (cx_buf_used ctx)).

Definition set_used (n : nat) (ctx : sha256_ctx) : sha256_ctx :=
  Sha256Ctx (cx_h ctx) (cx_bit_len ctx) (cx_buf ctx) n.

(** Every turn takes at least one byte, so [length data] turns are enough. *)
Fixpoint update_loop (fuel : nat) (ctx : sha256_ctx) (data : list Z) : result sha256_ctx :=
  match data, fuel with
  | [], _ => Ok ctx
  | _, O => Fault
  | _, S fuel =>
      let room := (64 - cx_buf_used ctx)%nat in
      let n := if (length data <? room)%nat then length data else room in
      buf ← memcpy_at (cx_buf ctx) (cx_buf_used ctx) (take n data);
      let ctx := Sha256Ctx (cx_h ctx) (u64 (cx_bit_len ctx + Z.of_nat n * 8)) buf (cx_buf_used ctx + n) in
      ctx ← (if (cx_buf_used ctx =? 64)%nat then ctx ← sha256_compress ctx; Ok (set_used 0 ctx) else Ok ctx);
      update_loop fuel ctx (drop n data)
  end.

Definition sha256_update (ctx : sha256_ctx) (data : list Z) : result sha256_ctx :=
  update_loop (length data) ctx data.

(** [while (buf_used < limit) buf[buf_used++] = 0;] *)
Definition zero_until (limit : nat) (ctx : sha256_ctx) : result sha256_ctx :=
  buf ← memcpy_at (cx_buf ctx) (cx_buf_used ctx) (repeat 0 (limit - cx_buf_used ctx));
  Ok (Sha256Ctx (cx_h ctx) (cx_bit_len ctx) buf (cx_buf_used ctx `max` limit)).

(** The words as bytes, the highest byte first. *)
Definition digest (h : sha256_words) : list Z :=
  be_bytes 4 (wa h) ++ be_bytes 4 (wb h) ++ be_bytes 4 (wc h) ++ be_bytes 4 (wd h) ++
  be_bytes 4 (we h) ++ be_bytes 4 (wf h) ++ be_bytes 4 (wg h) ++ be_bytes 4 (wh h).

Definition sha256_final (ctx : sha256_ctx) : result (list Z) :=
  buf ← memcpy_at (cx_buf ctx) (cx_buf_used ctx) [0x80];
  let ctx := Sha256Ctx (cx_h ctx) (cx_bit_len ctx) buf (cx_buf_used ctx + 1) in
  ctx ← (if (56 <? cx_buf_used ctx)%nat then
           ctx ← zero_until 64 ctx;
           ctx ← sha256_compress ctx;
           Ok (set_used 0 ctx)
         else Ok ctx);
  ctx ← zero_until 56 ctx;
  buf ← memcpy_at (cx_buf ctx) 56 (be_bytes 8 (cx_bit_len ctx));
  ctx ← sha256_compress (Sha256Ctx (cx_h ctx) (cx_bit_len ctx) buf (cx_buf_used ctx));
  Ok (digest (cx_h ctx)).

(** ** HMAC *)

(** What the stack holds where the buffers of a call are not initialised. *)
Definition stack := nat → list Z.

(** [memset (k_pad, pad, 64); for (i < key_len) k_pad[i] ^= key[i];] *)
Definition keyed_pad (pad : Z) (key : list Z) : list Z :=
  zip_with Z.lxor (repeat pad (length key)) key ++ repeat pad (64 - length key).

Definition hash_chunks (garbage : list Z) (chunks : list (list Z)) : result (list Z) :=
  ctx ← fold_left (λ ctx chunk, ctx ← ctx; sha256_update ctx chunk) chunks (Ok (sha256_init garbage));
  sha256_final ctx.

(** [chunk1] and [chunk2] are [None] for null pointers; an empty chunk is skipped. *)
Definition chunk_list (chunk : option (list Z)) : list (list Z) :=
  match chunk with Some (b :: l) => [b :: l] | _ => [] end.

Definition hmac_sha256_2chunk (st : stack) (key : list Z) (chunk1 chunk2 : option (list Z)) : result (list Z) :=
  key ← (if (64 <? length key)%nat then hash_chunks (st 0%nat) [key] else Ok key);
  ih ← hash_chunks (st 1%nat) ([keyed_pad 0x36 key] ++ chunk_list chunk1 ++ chunk_list chunk2);
  hash_chunks (st 2%nat) [keyed_pad 0x5c key; ih].

Definition distric_hmac_sha256 (st : stack) (key : list Z) (data : option (list Z)) : result (list Z) :=
  hmac_sha256_2chunk st key data None.

(** ** The hash of a whole message *)

(** The first [n] blocks of a message. *)
Fixpoint compress_blocks (n : nat) (h : sha256_words) (msg : list Z) : sha256_words :=
  match n with
  | O => h
  | S n => compress_blocks n (compress h (take 64 msg)) (drop 64 msg)
  end.

(** A 1 bit, zeros up to eight bytes before the end of a block, and the length in bits. *)
Definition padded (msg : list Z) : list Z :=
  let len := Z.of_nat (length msg) in
  msg ++ [0x80] ++ repeat 0 (Z.to_nat ((55 - len) mod 64)) ++ be_bytes 8 (u64 (len * 8)).

Definition sha256 (msg : list Z) : list Z :=
  digest (compress_blocks (length (padded msg) / 64) sha256_h0 (padded msg)).

(** RFC 2104. *)
Definition hmac (key msg : list Z) : list Z :=
  let key := if (64 <? length key)%nat then sha256 key else key in
  let block := key ++ repeat 0 (64 - length key) in
  sha256 ((Z.lxor 0x5c <$> block) ++ sha256 ((Z.lxor 0x36 <$> block) ++ msg)).

(** ** The context absorbs a message *)

Lemma compress_blocks_app n : ∀ k h m rest, length m = (64 * n)%nat →
  compress_blocks (n + k) h (m ++ rest) = compress_blocks k (compress_blocks n h m) rest.
Proof.
  induction n as [|n IH]; intros k h m rest Hm.
  - apply nil_length_inv in Hm as ->. reflexivity.
  - cbn [Nat.add compress_blocks]. rewrite take_app_le, drop_app_le by lia. apply IH. rewrite length_drop. lia.
Qed.

Record absorbed (ctx : sha256_ctx) (msg : list Z) (n : nat) (m1 m2 : list Z) : Prop := {
  ab_msg : msg = m1 ++ m2;
  ab_blocks : length m1 = (64 * n)%nat;
  ab_rest : (length m2 < 64)%nat;
  ab_used : cx_buf_used ctx = length m2;
  ab_size : length (cx_buf ctx) = 64%nat;
  ab_buf : take (length m2) (cx_buf ctx) = m2;
  ab_h : cx_h ctx = compress_blocks n sha256_h0 m1;
  ab_bits : cx_bit_len ctx = u64 (Z.of_nat (length msg) * 8)
}.

Lemma memcpy_append buf used src : length buf = 64%nat → (used + length src ≤ 64)%nat →
  memcpy_at buf used src = Ok (take used buf ++ src ++ drop (used + length src) buf).
Proof. intros Hb Hs. apply memcpy_at_ok. lia. Qed.

(** A full buffer is compressed. *)
Lemma compress_full ctx m2 : length (cx_buf ctx) = 64%nat → cx_buf ctx = m2 →
  sha256_compress ctx = Ok (Sha256Ctx (compress (cx_h ctx) m2) (cx_bit_len ctx) (cx_buf ctx) (cx_buf_used ctx)).
Proof.
  intros Hl <-. unfold sha256_compress. rewrite memread_ok by lia. cbn [mbind result_bind].
  by rewrite drop_0, take_ge by lia.
Qed.

(** One turn of the loop. *)
Lemma update_turn ctx msg n m1 m2 data : absorbed ctx msg n m1 m2 → data ≠ [] →
  let k := (length data `min` (64 - length m2))%nat in
  ∃ ctx' n' m1' m2', absorbed ctx' (msg ++ take k data) n' m1' m2' ∧ (0 < k)%nat ∧
    ∀ fuel, update_loop (S fuel) ctx data = update_loop fuel ctx' (drop k data).
Proof.
  intros [Hmsg Hb Hr Hu Hs Hbuf Hh Hbits] Hd k.
  assert (Hlen : (0 < length data)%nat) by (destruct data; [done|cbn; lia]).
  assert (Hk64 : (k ≤ 64 - length m2 ∧ k ≤ length data ∧ 0 < k)%nat) by (unfold k; lia).
  assert (Hk : (if (length data <? 64 - cx_buf_used ctx)%nat then length data else (64 - cx_buf_used ctx)%nat) = k).
  { rewrite Hu. unfold k. destruct (Nat.ltb_spec (length data) (64 - length m2)); lia. }
  assert (Hcopy : memcpy_at (cx_buf ctx) (cx_buf_used ctx) (take k data) =
    Ok ((m2 ++ take k data) ++ drop (length m2 + k) (cx_buf ctx))).
  { assert (length (take k data) = k) by (rewrite length_take; lia).
    rewrite Hu, memcpy_append by lia. rewrite Hbuf, <-app_assoc. do 4 f_equal. lia. }
  assert (Hbits' : u64 (cx_bit_len ctx + Z.of_nat k * 8) = u64 (Z.of_nat (length (msg ++ take k data)) * 8)).
  { rewrite Hbits, length_app, length_take, Nat.min_l by lia. unfold u64. rewrite Zplus_mod_idemp_l. f_equal. lia. }
  assert (Hm : length (m2 ++ take k data) = (length m2 + k)%nat) by (rewrite length_app, length_take; lia).
  destruct (decide (length m2 + k = 64)%nat) as [Hfull|Hpart].
  - exists (Sha256Ctx (compress (cx_h ctx) (m2 ++ take k data)) (u64 (cx_bit_len ctx + Z.of_nat k * 8)) (m2 ++ take k data) 0),
      (S n), (m1 ++ m2 ++ take k data), [].
    split; [|split; [lia|]].
    + split; cbn [cx_h cx_bit_len cx_buf cx_buf_used].
      * by rewrite Hmsg, app_nil_r, <-app_assoc.
      * rewrite length_app, Hb, Hm. lia.
      * cbn. lia.
      * done.
      * lia.
      * done.
      * rewrite Hh. replace (S n) with (n + 1)%nat by lia. rewrite compress_blocks_app by exact Hb.
        cbn [compress_blocks]. by rewrite (take_ge (m2 ++ take k data)) by lia.
      * exact Hbits'.
    + intros fuel. destruct data as [|b data]; [done|]. cbn [update_loop]. rewrite Hk, Hcopy. cbn [mbind result_bind].
      cbn [cx_buf_used]. rewrite Hu. destruct (Nat.eqb_spec (length m2 + k) 64); [|lia].
      rewrite (drop_ge (cx_buf ctx)), app_nil_r by lia.
      rewrite (compress_full _ (m2 ++ take k (b :: data))); [reflexivity| |reflexivity]. cbn [cx_buf]. lia.
  - exists (Sha256Ctx (cx_h ctx) (u64 (cx_bit_len ctx + Z.of_nat k * 8))
      ((m2 ++ take k data) ++ drop (length m2 + k) (cx_buf ctx)) (length m2 + k)), n, m1, (m2 ++ take k data).
    split; [|split; [lia|]].
    + split; cbn [cx_h cx_bit_len cx_buf cx_buf_used]; try done.
      * by rewrite Hmsg, <-app_assoc.
      * lia.
      * rewrite length_app, length_drop, Hm. lia.
      * by rewrite take_app_length.
    + intros fuel. destruct data as [|b data]; [done|]. cbn [update_loop]. rewrite Hk, Hcopy. cbn [mbind result_bind].
      cbn [cx_buf_used]. rewrite Hu. by destruct (Nat.eqb_spec (length m2 + k) 64); [lia|].
Qed.

Lemma update_absorbs fuel : ∀ ctx msg n m1 m2 data, absorbed ctx msg n m1 m2 → (length data ≤ fuel)%nat →
  ∃ ctx' n' m1' m2', update_loop fuel ctx data = Ok ctx' ∧ absorbed ctx' (msg ++ data) n' m1' m2'.
Proof.
  induction fuel as [|fuel IH]; intros ctx msg n m1 m2 data A Hf.
  - destruct data; [|cbn in Hf; lia]. exists ctx, n, m1, m2. by rewrite app_nil_r.
  - destruct (decide (data = [])) as [->|Hd]; [exists ctx, n, m1, m2; by rewrite app_nil_r|].
    destruct (update_turn _ _ _ _ _ data A Hd) as (ctx1 & n1 & m11 & m21 & A1 & Hk & E). rewrite E.
    set (k := (length data `min` (64 - length m2))%nat) in *.
    destruct (IH _ _ _ _ _ (drop k data) A1) as (ctx2 & n2 & m12 & m22 & E2 & A2); [rewrite length_drop; lia|].
    exists ctx2, n2, m12, m22. split; [exact E2|]. by rewrite <-app_assoc, take_drop in A2.
Qed.

Lemma init_absorbed garbage : length garbage = 64%nat → absorbed (sha256_init garbage) [] 0 [] [].
Proof. intros H. by split; try done; cbn; lia. Qed.

(** Bytes are written behind a prefix. *)
Lemma memcpy_behind a rest src : length (a ++ rest) = 64%nat → (length a + length src ≤ 64)%nat →
  memcpy_at (a ++ rest) (length a) src = Ok ((a ++ src) ++ drop (length src) rest).
Proof.
  intros Hl Hs. rewrite memcpy_append by lia. rewrite take_app_length. rewrite <-drop_drop, drop_app_length.
  by rewrite app_assoc.
Qed.

Lemma zero_until_spec limit h bits a rest : length (a ++ rest) = 64%nat → (length a ≤ limit ≤ 64)%nat →
  ∃ rest', zero_until limit (Sha256Ctx h bits (a ++ rest) (length a)) =
      Ok (Sha256Ctx h bits ((a ++ repeat 0 (limit - length a)) ++ rest') limit) ∧
    length ((a ++ repeat 0 (limit - length a)) ++ rest') = 64%nat.
Proof.
  intros Hl Hlim. rewrite length_app in Hl. unfold zero_until. cbn [cx_buf cx_buf_used cx_h cx_bit_len].
  rewrite memcpy_behind by (rewrite ?length_app, ?repeat_length; lia). cbn [mbind result_bind].
  exists (drop (length (repeat 0 (limit - length a))) rest). split.
  - do 2 f_equal. lia.
  - rewrite !length_app, length_drop, !repeat_length. lia.
Qed.

(** The end of a message whose last bytes [a] leave room for its length. *)
Lemma final_block h bits a rest : length (a ++ rest) = 64%nat → length a = 56%nat →
  (buf ← memcpy_at (a ++ rest) 56 (be_bytes 8 bits);
   ctx ← sha256_compress (Sha256Ctx h bits buf 56);
   Ok (digest (cx_h ctx))) = Ok (digest (compress h (a ++ be_bytes 8 bits))).
Proof.
  intros Hl Ha. rewrite <-Ha at 1. pose proof (be_bytes_length 8 bits) as Hb. rewrite length_app in Hl.
  rewrite memcpy_behind by (rewrite ?length_app; lia). cbn [mbind result_bind].
  rewrite (drop_ge rest) by lia. rewrite app_nil_r.
  rewrite (compress_full _ (a ++ be_bytes 8 bits)); [reflexivity| |reflexivity].
  cbn [cx_buf]. rewrite length_app. lia.
Qed.

Lemma padded_app m1 m2 n : length m1 = (64 * n)%nat → (length m2 < 64)%nat →
  padded (m1 ++ m2) = m1 ++ m2 ++ [0x80] ++
    repeat 0 (if (length m2 <? 56)%nat then 55 - length m2 else 119 - length m2)%nat ++
    be_bytes 8 (u64 (Z.of_nat (length (m1 ++ m2)) * 8)).
Proof.
  intros H1 H2. unfold padded. rewrite <-app_assoc. do 4 f_equal. f_equal.
  rewrite length_app, H1, Nat2Z.inj_add, Nat2Z.inj_mul.
  destruct (Nat.ltb_spec (length m2) 56); Z.to_euclidean_division_equations; lia.
Qed.

(** The hash of a padded message whose full blocks were compressed. *)
Lemma sha256_tail m1 m2 n k tail : padded (m1 ++ m2) = m1 ++ tail → length m1 = (64 * n)%nat → length tail = (64 * k)%nat →
  sha256 (m1 ++ m2) = digest (compress_blocks k (compress_blocks n sha256_h0 m1) tail).
Proof.
  intros E H1 Ht. unfold sha256. rewrite E, length_app, H1, Ht, <-Nat.mul_add_distr_l, Nat.mul_comm, Nat.div_mul by lia.
  by rewrite compress_blocks_app.
Qed.

Lemma final_spec ctx msg n m1 m2 : absorbed ctx msg n m1 m2 → sha256_final ctx = Ok (sha256 msg).
Proof.
  intros [Hmsg Hb Hr Hu Hs Hbuf Hh Hbits]. unfold sha256_final. destruct ctx as [h bits buf used].
  cbn [cx_h cx_bit_len cx_buf cx_buf_used] in *. subst used.
  rewrite <-(take_drop (length m2) buf), Hbuf in Hs |- *. set (rest := drop (length m2) buf) in *. clearbody rest.
  rewrite memcpy_behind by (cbn; lia). cbn [mbind result_bind length].
  assert (Hu : (length m2 + 1)%nat = length (m2 ++ [0x80])) by (rewrite length_app; done). rewrite Hu.
  assert (Hs1 : length ((m2 ++ [0x80]) ++ drop 1 rest) = 64%nat).
  { rewrite !length_app, length_drop. rewrite length_app in Hs. cbn [length]. lia. }
  pose proof (padded_app m1 m2 n Hb Hr) as Hpad. rewrite <-Hmsg in Hpad at 2. rewrite <-Hbits in Hpad.
  rewrite <-Hu. destruct (Nat.ltb_spec 56 (length m2 + 1)) as [Hlong|Hshort]; rewrite Hu.
  - destruct (zero_until_spec 64 h bits (m2 ++ [0x80]) (drop 1 rest) Hs1) as (r1 & E1 & L1); [lia|].
    rewrite E1. cbn [mbind result_bind]. set (b1 := (m2 ++ [0x80]) ++ repeat 0 (64 - length (m2 ++ [0x80]))) in *.
    assert (Hb1 : length b1 = 64%nat) by (unfold b1; rewrite length_app, repeat_length; lia).
    assert (r1 = []) as -> by (apply nil_length_inv; rewrite length_app in L1; lia). rewrite app_nil_r in *.
    rewrite (compress_full _ b1) by done. unfold set_used. cbn [mbind result_bind cx_h cx_bit_len cx_buf].
    destruct (zero_until_spec 56 (compress h b1) bits [] b1) as (r2 & E2 & L2); [done|cbn; lia|].
    cbn [length app] in E2, L2. rewrite E2. cbn [mbind result_bind cx_h cx_bit_len cx_buf cx_buf_used].
    rewrite final_block by done. f_equal. rewrite Hmsg.
    rewrite (sha256_tail m1 m2 n 2 (b1 ++ repeat 0 56 ++ be_bytes 8 bits)); [| |exact Hb|].
    + cbn [compress_blocks]. rewrite <-Hh, take_app_length', drop_app_length' by done.
      rewrite (take_ge (repeat 0 56 ++ be_bytes 8 bits)) by (rewrite length_app, repeat_length, be_bytes_length; lia). done.
    + rewrite Hpad. destruct (Nat.ltb_spec (length m2) 56); [lia|]. unfold b1. rewrite <-!app_assoc. do 3 f_equal.
      rewrite app_assoc. f_equal. rewrite <-repeat_app. f_equal. lia.
    + rewrite !length_app, repeat_length, be_bytes_length. lia.
  - cbn [mbind result_bind].
    destruct (zero_until_spec 56 h bits (m2 ++ [0x80]) (drop 1 rest) Hs1) as (r1 & E1 & L1); [lia|].
    rewrite E1. cbn [mbind result_bind cx_h cx_bit_len cx_buf cx_buf_used].
    rewrite final_block by (try done; rewrite length_app, repeat_length; lia). f_equal. rewrite Hmsg.
    rewrite (sha256_tail m1 m2 n 1 ((m2 ++ [0x80]) ++ repeat 0 (56 - length (m2 ++ [0x80])) ++ be_bytes 8 bits)); [| |exact Hb|].
    + cbn [compress_blocks]. rewrite <-Hh, take_ge; [by rewrite app_assoc|].
      rewrite !length_app, repeat_length, be_bytes_length. cbn [length]. lia.
    + rewrite Hpad. destruct (Nat.ltb_spec (length m2) 56); [|lia]. rewrite <-!app_assoc. do 5 f_equal. rewrite <-Hu. lia.
    + rewrite !length_app, repeat_length, be_bytes_length. cbn [length]. lia.
Qed.

Lemma digest_length h : length (digest h) = 32%nat.
Proof. reflexivity. Qed.

Lemma sha256_length msg : length (sha256 msg) = 32%nat.
Proof. apply digest_length. Qed.

Lemma hash_chunks_spec garbage chunks : length garbage = 64%nat →
  hash_chunks garbage chunks = Ok (sha256 (mjoin chunks)).
Proof.
  intros Hg. unfold hash_chunks.
  assert (H : ∀ ctx msg n m1 m2, absorbed ctx msg n m1 m2 →
    ∃ ctx' n' m1' m2', fold_left (λ ctx chunk, ctx ← ctx; sha256_update ctx chunk) chunks (Ok ctx) = Ok ctx' ∧
      absorbed ctx' (msg ++ mjoin chunks) n' m1' m2').
  { clear Hg. induction chunks as [|c chunks IH]; intros ctx msg n m1 m2 A; cbn [fold_left mbind result_bind].
    - exists ctx, n, m1, m2. cbn. by rewrite app_nil_r.
    - destruct (update_absorbs (length c) ctx msg n m1 m2 c A ltac:(lia)) as (ctx1 & n1 & m11 & m21 & E1 & A1).
      unfold sha256_update at 2. rewrite E1. destruct (IH _ _ _ _ _ A1) as (ctx2 & n2 & m12 & m22 & E2 & A2).
      exists ctx2, n2, m12, m22. split; [exact E2|]. cbn [mjoin list_join]. by rewrite app_assoc. }
  destruct (H _ _ _ _ _ (init_absorbed garbage Hg)) as (ctx & n & m1 & m2 & -> & A). cbn [mbind result_bind].
  by apply (final_spec _ _ _ _ _ A).
Qed.

Lemma keyed_pad_spec pad key : (length key ≤ 64)%nat →
  keyed_pad pad key = Z.lxor pad <$> (key ++ repeat 0 (64 - length key)).
Proof.
  intros _. unfold keyed_pad. rewrite fmap_app. f_equal.
  - induction key as [|b key IH]; [done|]. cbn. by f_equal.
  - induction (64 - length key)%nat as [|k IH]; [done|]. cbn [repeat fmap list_fmap]. by rewrite Z.lxor_0_r, <-IH.
Qed.

Definition chunk_data (chunk : option (list Z)) : list Z := default [] chunk.

Lemma chunk_list_data chunk : mjoin (chunk_list chunk) = chunk_data chunk.
Proof. destruct chunk as [[|b l]|]; [done| |done]. cbn. by rewrite app_nil_r. Qed.

Lemma mjoin_two {A} (a b : list A) (l : list (list A)) : mjoin (a :: b :: l) = a ++ b ++ mjoin l.
Proof. reflexivity. Qed.

Lemma hmac_2chunk st key chunk1 chunk2 : (∀ i, length (st i) = 64%nat) →
  hmac_sha256_2chunk st key chunk1 chunk2 = Ok (hmac key (chunk_data chunk1 ++ chunk_data chunk2)).
Proof.
  intros Hst. unfold hmac_sha256_2chunk, hmac.
  set (key' := if (64 <? length key)%nat then sha256 key else key).
  assert (Hkey : (if (64 <? length key)%nat then hash_chunks (st 0%nat) [key] else Ok key) = Ok key').
  { unfold key'. destruct (64 <? length key)%nat; [|done]. rewrite hash_chunks_spec by done. cbn. by rewrite app_nil_r. }
  assert (Hlen : (length key' ≤ 64)%nat).
  { unfold key'. destruct (Nat.ltb_spec 64 (length key)); [rewrite sha256_length; lia|lia]. }
  rewrite Hkey. cbn [mbind result_bind]. rewrite !hash_chunks_spec by done. cbn [mbind result_bind].
  rewrite hash_chunks_spec by done. rewrite !keyed_pad_spec by exact Hlen. rewrite mjoin_two. cbn [mjoin list_join app].
  do 3 f_equal. rewrite app_nil_r. do 2 f_equal.
  by rewrite join_app, !chunk_list_data.
Qed.

(** Bit [i] of a rotated word is bit [i + n], modulo 32, of the word. *)
Lemma ror32_rotates v n i : is_u32 v → 0 < n < 32 → 0 ≤ i < 32 →
  Z.testbit (ROR32 v n) i = Z.testbit v ((i + n) mod 32).
Proof.
  intros Hv Hn Hi. assert (Hhigh : ∀ j, 32 ≤ j → Z.testbit v j = false).
  { intros j Hj. destruct (decide (v = 0)) as [->|]; [apply Z.bits_0|]. apply Z.bits_above_log2; [ulia|].
    apply Z.lt_le_trans with 32; [|lia]. apply Z.log2_lt_pow2; ulia. }
  unfold ROR32. rewrite Z.lor_spec, Z.shiftr_spec by lia. unfold u32. rewrite Z.mod_pow2_bits_low by lia.
  rewrite Z.shiftl_spec by lia. destruct (Z.ltb_spec (i + n) 32) as [Hlt|Hge].
  - rewrite Z.mod_small by lia. rewrite (Z.testbit_neg_r v (i - (32 - n))) by lia. by rewrite orb_false_r.
  - rewrite Hhigh by lia. cbn [orb]. f_equal. Z.to_euclidean_division_equations; lia.
Qed.

(** ** The hash is that of the standard *)

Lemma ror32_fips v n : is_u32 v → 0 < n < 32 → ROR32 v n = ROTR n v.
Proof.
  intros Hv Hn. unfold ROR32, ROTR. rewrite Z.shiftr_div_pow2, Z.lor_comm by lia.
  assert (H32 : 2 ^ 32 = 2 ^ n * 2 ^ (32 - n)) by (rewrite <-Z.pow_add_r by lia; f_equal; lia).
  assert (Hlow : u32 (Z.shiftl v (32 - n)) = Z.shiftl (v mod 2 ^ n) (32 - n)).
  { rewrite !Z.shiftl_mul_pow2 by lia. unfold u32. rewrite H32. apply Z.mul_mod_distr_r; apply Z.pow_nonzero; lia. }
  assert (Hhigh : 0 ≤ v / 2 ^ n < 2 ^ (32 - n)).
  { unfold is_u32 in Hv. split; [apply Z.div_pos; lia|apply Z.div_lt_upper_bound; [lia|rewrite <-H32; lia]]. }
  rewrite Hlow, lor_shiftl_add by lia. lia.
Qed.

Lemma xor3_left x y z : Z.lxor (Z.lxor x y) z = xor3 x y z.
Proof. apply Z.lxor_assoc. Qed.

Lemma ch_fips e f g : is_u32 g → Z.lxor (Z.land e f) (Z.land (Z.lxor e 0xFFFFFFFF) g) = Ch e f g.
Proof.
  intros Hg. change 0xFFFFFFFF with (Z.ones 32). unfold Ch. apply Z.bits_inj'. intros i Hi.
  rewrite Z.lxor_spec, Z.lor_spec, !Z.land_spec, Z.ldiff_spec, Z.lxor_spec, Z.testbit_ones_nonneg by lia.
  destruct (Z.ltb_spec i 32).
  - by destruct (Z.testbit e i), (Z.testbit f i), (Z.testbit g i).
  - assert (Z.testbit g i = false) as ->; [|by destruct (Z.testbit e i), (Z.testbit f i)].
    rewrite <-(Z.mod_small g (2 ^ 32)) by exact Hg. by apply Z.mod_pow2_bits_high.
Qed.

Lemma maj_fips a b c : Z.lxor (Z.lxor (Z.land a b) (Z.land a c)) (Z.land b c) = Maj a b c.
Proof.
  apply Z.bits_inj'. intros i Hi. unfold Maj. rewrite !Z.lxor_spec, Z.lor_spec, !Z.land_spec, Z.lor_spec.
  by destruct (Z.testbit a i), (Z.testbit b i), (Z.testbit c i).
Qed.

(** The words of the block. *)
Lemma block_word_fips block i : bytes_ok block → (4 * i + 4 ≤ length block)%nat →
  block_word block i = be_val (take 4 (drop (4 * i) block)).
Proof.
  intros Hok Hl. pose proof (Forall_drop is_u8 (4 * i) block Hok) as Hd. pose proof (length_drop block (4 * i)) as Hn.
  unfold block_word. rewrite (Nat.mul_comm i 4).
  assert (Hnth : ∀ j, nth (4 * i + j) block 0 = nth j (drop (4 * i) block) 0) by (intros j; by rewrite <-nth_skipn).
  rewrite <-(Nat.add_0_r (4 * i)) at 1. rewrite !Hnth.
  destruct (drop (4 * i) block) as [|b0 [|b1 [|b2 [|b3 rest]]]]; cbn [length] in Hn; [lia..|].
  rewrite !Forall_cons_iff in Hd. destruct Hd as (H0 & H1 & H2 & H3 & _). unfold is_u8 in *. cbn [nth take].
  change 24 with (8 + 16). rewrite <-Z.shiftl_shiftl, <-Z.shiftl_lor, (lor_shiftl_add b0 b1) by lia.
  change 16 with (8 + 8). rewrite <-Z.shiftl_shiftl, <-Z.shiftl_lor, (lor_shiftl_add _ b2), lor_shiftl_add by lia.
  unfold be_val. cbn [fold_left]. by rewrite Z.mul_0_l, Z.add_0_l.
Qed.

Lemma words_fips block n i : bytes_ok block → (4 * (i + n) ≤ length block)%nat →
  block_word block <$> seq i n = words n (drop (4 * i) block).
Proof.
  intros Hok. revert i. induction n as [|n IH]; intros i Hl; [done|]. cbn [seq fmap list_fmap words].
  rewrite block_word_fips, IH by (done || lia). rewrite drop_drop. do 2 f_equal. f_equal. lia.
Qed.

Lemma words_u32 n block : bytes_ok block → Forall is_u32 (words n block).
Proof.
  revert block. induction n as [|n IH]; intros block Hok; cbn [words]; constructor.
  - pose proof (be_val_bound _ (Forall_take _ 4 _ Hok)) as Hv. rewrite length_take in Hv. unfold is_u32.
    assert (256 ^ Z.of_nat (4 `min` length block) ≤ 256 ^ 4) by (apply Z.pow_le_mono_r; lia). lia.
  - by apply IH, Forall_drop.
Qed.

(** The schedule grows as the window slides. *)
Lemma schedule_word_fips p w0 w' : length w' = 15%nat → Forall is_u32 (w0 :: w') →
  schedule_word (p ++ w0 :: w') =
  (sigma1 (nth 14 (w0 :: w') 0) + nth 9 (w0 :: w') 0 + sigma0 (nth 1 (w0 :: w') 0) + w0) mod 2 ^ 32.
Proof.
  intros Hl Hw. unfold schedule_word.
  assert (Hnth : ∀ k, (1 ≤ k ≤ 16)%nat → nth (length (p ++ w0 :: w') - k) (p ++ w0 :: w') 0 = nth (16 - k) (w0 :: w') 0).
  { intros k Hk. rewrite length_app. cbn [length]. rewrite app_nth2 by lia. f_equal. lia. }
  rewrite !Hnth by lia. cbn [Nat.sub].
  assert (Hu : ∀ k, is_u32 (nth k (w0 :: w') 0)).
  { intros k. destruct (Nat.lt_ge_cases k (length (w0 :: w'))) as [Hk|Hk]; [|rewrite nth_overflow by exact Hk; done].
    rewrite List.Forall_forall in Hw. by apply Hw, nth_In. }
  rewrite !ror32_fips, !xor3_left, !Z.shiftr_div_pow2 by (apply Hu || lia).
  unfold u32, sigma0, sigma1, SHR. f_equal. cbn [nth]. lia.
Qed.

Lemma slide_iter n : ∀ p w, length w = 16%nat → Forall is_u32 w →
  Nat.iter n (λ w, w ++ [schedule_word w]) (p ++ w) = p ++ slide n w.
Proof.
  induction n as [|n IH]; intros p w Hl Hw; [done|]. rewrite Nat.iter_succ_r.
  destruct w as [|w0 w']; [discriminate|]. cbn [length] in Hl. rewrite schedule_word_fips by (done || lia).
  cbn [slide]. set (w16 := (_ + _ + _ + _) mod 2 ^ 32). inversion Hw as [|? ? Hw0 Hw']; subst.
  replace ((p ++ w0 :: w') ++ [w16]) with ((p ++ [w0]) ++ (w' ++ [w16])) by (by rewrite <-!app_assoc).
  rewrite IH; [by rewrite <-app_assoc|rewrite length_app; cbn; lia|].
  apply Forall_app_2; [done|]. constructor; [apply u32_range|done].
Qed.

Lemma schedule_fips block : bytes_ok block → length block = 64%nat → schedule block = slide 48 (words 16 block).
Proof.
  intros Hok Hl. unfold schedule. rewrite (words_fips block 16 0) by (done || lia). rewrite Nat.mul_0_r, drop_0.
  pose proof (slide_iter 48 [] (words 16 block)) as H. rewrite !app_nil_l in H.
  apply H; [reflexivity|by apply words_u32].
Qed.

(** [words_u32]: every word of an explicit list is one of 32 bits. *)
Ltac words_u32 := repeat (apply List.Forall_cons; [assumption || apply u32_range || (by vm_compute)|]); apply List.Forall_nil.

(** The rounds, on the eight words as a list. *)
Definition word_list (x : sha256_words) : list Z := [wa x; wb x; wc x; wd x; we x; wf x; wg x; wh x].

Lemma round_fips x kw : Forall is_u32 (word_list x) →
  word_list (sha256_round x kw) = fips_round (word_list x) kw ∧ Forall is_u32 (word_list (sha256_round x kw)).
Proof.
  destruct x as [a b c d e f g h], kw as [k w]. unfold word_list. cbn [wa wb wc wd we wf wg wh]. intros Hx.
  rewrite !Forall_cons_iff in Hx. destruct Hx as (? & ? & ? & ? & ? & ? & ? & ? & _).
  cbn [sha256_round fips_round wa wb wc wd we wf wg wh].
  rewrite maj_fips, ch_fips, !ror32_fips, !xor3_left by (done || lia).
  fold (Sigma1 e) (Sigma0 a). unfold u32. split.
  - rewrite Zplus_mod_idemp_l, Zplus_mod_idemp_r, Zplus_mod_idemp_r. reflexivity.
  - words_u32.
Qed.

Lemma rounds_fips kws : ∀ x, Forall is_u32 (word_list x) →
  word_list (fold_left sha256_round kws x) = fold_left fips_round kws (word_list x) ∧
  Forall is_u32 (word_list (fold_left sha256_round kws x)).
Proof.
  induction kws as [|kw kws IH]; intros x Hx; [done|]. cbn [fold_left]. destruct (round_fips x kw Hx) as [<- Hx'].
  by apply IH.
Qed.

Lemma compress_fips h block : Forall is_u32 (word_list h) → bytes_ok block → length block = 64%nat →
  word_list (compress h block) = fips_block (word_list h) block ∧ Forall is_u32 (word_list (compress h block)).
Proof.
  intros Hh Hok Hl. split; [|words_u32].
  unfold compress, fips_block. rewrite schedule_fips by done. replace SHA256_K with K by (vm_compute; reflexivity).
  destruct (rounds_fips (combine K (slide 48 (words 16 block))) h Hh) as [<- _].
  unfold word_list, u32. cbn [wa wb wc wd we wf wg wh zip_with]. repeat (f_equal; [f_equal; lia|]). do 2 f_equal. lia.
Qed.

Lemma blocks_fips n : ∀ h m, Forall is_u32 (word_list h) → bytes_ok m → (64 * n ≤ length m)%nat →
  word_list (compress_blocks n h m) = fips_blocks n (word_list h) m.
Proof.
  induction n as [|n IH]; intros h m Hh Hm Hl; [done|]. cbn [compress_blocks fips_blocks].
  destruct (compress_fips h (take 64 m)) as [<- Hh']; [done|by apply Forall_take|rewrite length_take; lia|].
  apply IH; [done|by apply Forall_drop|rewrite length_drop; lia].
Qed.

Lemma padded_fips msg : 8 * Z.of_nat (length msg) < 2 ^ 64 → padded msg = fips_padding msg.
Proof.
  intros Hl. unfold padded, fips_padding. rewrite u64_id by (unfold is_u64; lia). do 3 f_equal.
  - do 2 f_equal. replace (55 - Z.of_nat (length msg)) with (- (Z.of_nat (length msg) + 9) + 1 * 64) by lia.
    apply Z_mod_plus_full.
  - f_equal. lia.
Qed.

Lemma fips_padding_ok msg : bytes_ok msg → bytes_ok (fips_padding msg).
Proof.
  intros Hm. unfold fips_padding. repeat apply Forall_app_2; [done|by repeat constructor| |apply be_bytes_ok].
  apply List.Forall_forall. intros b ->%repeat_spec. done.
Qed.

Lemma sha256_fips msg : bytes_ok msg → 8 * Z.of_nat (length msg) < 2 ^ 64 → sha256 msg = fips_sha256 msg.
Proof.
  intros Hm Hl. unfold sha256, fips_sha256. rewrite padded_fips by exact Hl.
  replace H0 with (word_list sha256_h0) by (vm_compute; reflexivity).
  rewrite <-blocks_fips; [unfold digest, word_list; cbn [flat_map]; by rewrite app_nil_r| |by apply fips_padding_ok|].
  - words_u32.
  - apply Nat.Div0.mul_div_le.
Qed.

(** ** Properties *)

(** C28: a message hashed in any pieces, from an uninitialised buffer, has the SHA-256 of
    FIPS 180-4, as [Fips180.v] states it apart from the code: the result depends on the
    concatenation alone. The bytes are bytes, and there are fewer than 2^61 of them, so that
    their length in bits fits the eight bytes the standard gives it. *)
Theorem sha256_streaming garbage chunks :
  length garbage = 64%nat → bytes_ok (mjoin chunks) → 8 * Z.of_nat (length (mjoin chunks)) < 2 ^ 64 →
  hash_chunks garbage chunks = Ok (fips_sha256 (mjoin chunks)).
Proof. intros Hg Hb Hl. rewrite hash_chunks_spec by exact Hg. by rewrite sha256_fips. Qed.

(** The digest of "abc", the example of the standard, in two pieces. *)
Lemma sha256_streaming_witness :
  hash_chunks (repeat 7 64) [[97]; [98; 99]] =
  Ok [186; 120; 22; 191; 143; 1; 207; 234; 65; 65; 64; 222; 93; 174; 34; 35;
      176; 3; 97; 163; 150; 23; 122; 156; 180; 16; 255; 97; 242; 0; 21; 173].
Proof.
  rewrite (sha256_streaming (repeat 7 64) [[97]; [98; 99]]); [vm_compute; reflexivity|reflexivity|by_bytes|].
  vm_compute. reflexivity.
Defined.

(** The two-piece HMAC is the HMAC of the concatenation of the pieces, for keys of any
    length; a null or an empty piece counts for nothing. *)
Theorem hmac_two_chunks st key chunk1 chunk2 : (∀ i, length (st i) = 64%nat) →
  hmac_sha256_2chunk st key chunk1 chunk2 = Ok (hmac key (chunk_data chunk1 ++ chunk_data chunk2)).
Proof. apply hmac_2chunk. Qed.

(** The first test case of RFC 4231, in two pieces. *)
Lemma hmac_two_chunks_witness :
  hmac_sha256_2chunk (λ _, repeat 7 64) (repeat 11 20) (Some [72; 105; 32]) (Some [84; 104; 101; 114; 101]) =
  Ok [176; 52; 76; 97; 216; 219; 56; 83; 92; 168; 175; 206; 175; 11; 241; 43;
      136; 29; 194; 0; 201; 131; 61; 167; 38; 233; 55; 108; 46; 50; 207; 247].
Proof.
  rewrite (hmac_two_chunks (λ _, repeat 7 64) (repeat 11 20) (Some [72; 105; 32]) (Some [84; 104; 101; 114; 101]))
    by (intros; reflexivity).
  vm_compute. reflexivity.
Defined.
