(* ===== verification/Auth.v ===== *)
(** * Message authentication and error information (libs/distric_protocol: auth.c, error_info.c)

    The MAC of a header and a payload, built in or by a function of the user, and its
    verification; the record of the last error of a thread, which verification fills. *)

From Stdlib Require Import ZArith Lia List String.
From S2P Require Import Prelude CString Sha256.

Local Open Scope Z_scope.

(** ** The text of an error (libs/distric_obs/src/error.c) *)

Definition distric_err_str (err : distric_err) : string :=
  match err with
  | DISTRIC_OK => "OK"
  | DISTRIC_ERR_INVALID_ARG => "invalid argument"
  | DISTRIC_ERR_ALLOC_FAILURE => "allocation failure"
  | DISTRIC_ERR_INIT_FAILED => "initialization failed"
  | DISTRIC_ERR_REGISTRY_FULL => "registry full"
  | DISTRIC_ERR_NOT_FOUND => "not found"
  | DISTRIC_ERR_BUFFER_OVERFLOW => "buffer overflow (data dropped)"
  | DISTRIC_ERR_BACKPRESSURE => "backpressure (span dropped)"
  | DISTRIC_ERR_INVALID_LABEL => "invalid label value"
  | DISTRIC_ERR_HIGH_CARDINALITY => "label cardinality too high"
  | DISTRIC_ERR_REGISTRY_FROZEN => "registry frozen"
  | DISTRIC_ERR_NO_MEMORY => "no memory (update dropped)"
  | DISTRIC_ERR_ALREADY_EXISTS => "already exists"
  | DISTRIC_ERR_SHUTDOWN => "subsystem shutdown"
  | DISTRIC_ERR_IO => "network/IO failure"
  | DISTRIC_ERR_INVALID_STATE => "operation invalid in current state"
  | DISTRIC_ERR_THREAD => "thread creation failed"
  | DISTRIC_ERR_TIMEOUT => "operation timed out"
  | DISTRIC_ERR_EOF => "end of stream"
  | DISTRIC_ERR_INVALID_FORMAT => "invalid wire format"
  | DISTRIC_ERR_TYPE_MISMATCH => "field type mismatch"
  | DISTRIC_ERR_UNAVAILABLE => "peer unavailable"
  end%string.

Lemma distric_err_str_inj e e' : distric_err_str e = distric_err_str e' → e = e'.
Proof. destruct e, e'; intros H; first [reflexivity | discriminate H]. Qed.

(** ** The last error of a thread *)

Inductive protocol_stage :=
  | PROTO_STAGE_UNKNOWN | PROTO_STAGE_HEADER_DESERIALIZE | PROTO_STAGE_HEADER_VALIDATE | PROTO_STAGE_CRC_VERIFY
  | PROTO_STAGE_AUTH_VERIFY | PROTO_STAGE_LIMITS_CHECK | PROTO_STAGE_TLV_DECODE | PROTO_STAGE_MESSAGE_DESERIALIZE
  | PROTO_STAGE_CAPABILITY_NEGOTIATE.

Record error_info := ErrorInfo {
  ei_code : distric_err;
  ei_stage : protocol_stage;
  ei_byte_offset : Z;
  ei_field_tag : Z;
  ei_detail : list Z       (* char[128] *)
}.

(** [tl_last_error] with [tl_has_error]. *)
Record thread_error := ThreadError { tl_last_error : error_info; tl_has_error : bool }.

Definition cleared : error_info := ErrorInfo DISTRIC_OK PROTO_STAGE_UNKNOWN 0 0 [].
Definition distric_get_last_error (e : thread_error) : error_info := tl_last_error e.
Definition distric_clear_error : thread_error := ThreadError cleared false.
Definition distric_set_error_info (code : distric_err) (stage : protocol_stage) (byte_offset field_tag : Z)
    (detail : option (list Z)) : thread_error :=
  ThreadError (ErrorInfo code stage byte_offset field_tag
    (match detail with Some d => strncpy 127 d | None => [] end)) true.

(** ** Authentication *)

Definition DISTRIC_AUTH_MAC_SIZE : nat := 32.
Definition DISTRIC_AUTH_KEY_MAX : nat := 64.

(** [key] is the array of the context; [mac_fn] is the function of the user, from the
    key and the data to the 32 bytes it writes, [None] for a null pointer. *)
Record distric_auth_ctx := AuthCtx {
  au_key : list Z;
  au_key_len : nat;
  au_mac_fn : option (list Z → list Z → list Z)
}.

(** What the memory a call gets holds: object [i], of [n] bytes. *)
Definition uninitialised := nat → nat → list Z.

Definition copy_payload (buf : list Z) (payload : option (list Z)) (payload_len : nat) : result (list Z) :=
  match payload with
  | Some p => if (payload_len =? 0)%nat then Ok buf else p ← memread p 0 payload_len; memcpy_at buf 32 p
  | None => Ok buf
  end.

Definition distric_auth_compute (mem : uninitialised) (malloc_ok : bool) (ctx : distric_auth_ctx)
    (header_buf : list Z) (payload : option (list Z)) (payload_len : nat) : result (list Z) :=
  if (au_key_len ctx =? 0)%nat then Ok (repeat 0 DISTRIC_AUTH_MAC_SIZE)
  else
    match au_mac_fn ctx with
    | Some mac_fn =>
        let total := (32 + payload_len)%nat in
        if negb (total <=? 512)%nat && negb malloc_ok then Err DISTRIC_ERR_NO_MEMORY
        else
          let buf := if (total <=? 512)%nat then mem 3%nat 512%nat else mem 4%nat total in
          header ← memread header_buf 0 32;
          buf ← memcpy_at buf 0 header;
          buf ← copy_payload buf payload payload_len;
          key ← memread (au_key ctx) 0 (au_key_len ctx);
          data ← memread buf 0 total;
          Ok (mac_fn key data)
    | None =>
        key ← memread (au_key ctx) 0 (au_key_len ctx);
        header ← memread header_buf 0 32;
        p ← match payload with
            | Some p => if (payload_len =? 0)%nat then Ok None else p ← memread p 0 payload_len; Ok (Some p)
            | None => Ok None
            end;
        hmac_sha256_2chunk (λ i, mem i 64%nat) key (Some header) p
    end.

(** [diff |= computed[i] ^ expected_mac[i];] over the bytes of both. *)
Definition mac_diff (computed expected : list Z) : Z :=
  fold_left (λ diff ab, u8 (Z.lor diff (Z.lxor ab.1 ab.2))) (combine computed expected) 0.

(** The answer with the last error of the thread. *)
Definition distric_auth_verify (mem : uninitialised) (malloc_ok : bool) (ctx : distric_auth_ctx)
    (header_buf : list Z) (payload : option (list Z)) (payload_len : nat) (expected_mac : list Z) (last : thread_error) :
    result (distric_err * thread_error) :=
  if (au_key_len ctx =? 0)%nat then Ok (DISTRIC_OK, last)
  else
    match distric_auth_compute mem malloc_ok ctx header_buf payload payload_len with
    | Fault => Fault
    | Err e => Ok (e, last)
    | Ok computed =>
        computed ← memread computed 0 DISTRIC_AUTH_MAC_SIZE;
        expected ← memread expected_mac 0 DISTRIC_AUTH_MAC_SIZE;
        if negb (mac_diff computed expected =? 0) then
          Ok (DISTRIC_ERR_INVALID_FORMAT,
              distric_set_error_info DISTRIC_ERR_INVALID_FORMAT PROTO_STAGE_AUTH_VERIFY 0 0 (Some (str "HMAC mismatch")))
        else Ok (DISTRIC_OK, last)
    end.

(** ** What is computed *)

(** The message that is authenticated. *)
Definition payload_data (payload : option (list Z)) (payload_len : nat) : list Z :=
  match payload with Some p => take payload_len p | None => [] end.

Definition mac_of (ctx : distric_auth_ctx) (msg : list Z) : list Z :=
  if (au_key_len ctx =? 0)%nat then repeat 0 DISTRIC_AUTH_MAC_SIZE
  else
    let key := take (au_key_len ctx) (au_key ctx) in
    match au_mac_fn ctx with Some mac_fn => mac_fn key msg | None => hmac key msg end.

Record auth_ok (mem : uninitialised) (malloc_ok : bool) (ctx : distric_auth_ctx) (header : list Z)
    (payload : option (list Z)) (payload_len : nat) : Prop := {
  ao_mem : ∀ i n, length (mem i n) = n;
  ao_key : (au_key_len ctx ≤ length (au_key ctx))%nat;
  ao_mac : ∀ f k m, au_mac_fn ctx = Some f → length (f k m) = 32%nat;
  ao_header : length header = 32%nat;
  ao_payload : match payload with Some p => (payload_len ≤ length p)%nat | None => payload_len = 0%nat end;
  ao_malloc : (480 < payload_len)%nat → malloc_ok = true
}.

Lemma auth_compute mem malloc_ok ctx header payload payload_len :
  auth_ok mem malloc_ok ctx header payload payload_len →
  distric_auth_compute mem malloc_ok ctx header payload payload_len =
  Ok (mac_of ctx (header ++ payload_data payload payload_len)).
Proof.
  intros [Hmem Hkey Hmac Hh Hp Hm]. unfold distric_auth_compute, mac_of.
  destruct (Nat.eqb_spec (au_key_len ctx) 0); [done|].
  destruct (au_mac_fn ctx) as [f|].
  - set (total := (32 + payload_len)%nat).
    assert (Hmalloc : negb (total <=? 512)%nat && negb malloc_ok = false).
    { destruct (Nat.leb_spec total 512); [done|]. by rewrite Hm by (unfold total in *; lia). }
    rewrite Hmalloc, (memread_ok header) by lia. cbn [mbind result_bind]. rewrite drop_0, (take_ge header) by lia.
    set (buf := if (total <=? 512)%nat then _ else _).
    assert (Hbuf : (total ≤ length buf)%nat) by (unfold buf; destruct (Nat.leb_spec total 512); rewrite Hmem; lia).
    rewrite memcpy_at_ok by lia. cbn [mbind result_bind]. rewrite Nat.add_0_l, Hh, take_0, app_nil_l.
    assert (Hcopy : ∃ rest, copy_payload (header ++ drop 32 buf) payload payload_len =
      Ok ((header ++ payload_data payload payload_len) ++ rest)).
    { destruct payload as [p|]; cbn [copy_payload payload_data].
      - destruct (Nat.eqb_spec payload_len 0) as [->|Hne]; [exists (drop 32 buf); by rewrite take_0, app_nil_r|].
        rewrite memread_ok by lia. cbn [mbind result_bind]. rewrite drop_0.
        rewrite memcpy_at_ok by (rewrite length_app, length_drop, length_take; lia).
        rewrite (take_app_length' header) by done. eexists. by rewrite app_assoc.
      - exists (drop 32 buf). by rewrite app_nil_r. }
    destruct Hcopy as [rest ->]. cbn [mbind result_bind]. rewrite (memread_ok (au_key ctx)) by lia. cbn [mbind result_bind].
    assert (Hd : length (header ++ payload_data payload payload_len) = total).
    { rewrite length_app, Hh. unfold total, payload_data. destruct payload; [rewrite length_take; lia|cbn; lia]. }
    rewrite memread_ok by (rewrite length_app; lia). cbn [mbind result_bind]. rewrite !drop_0.
    by rewrite <-Hd, take_app_length.
  - rewrite (memread_ok (au_key ctx)) by lia. cbn [mbind result_bind]. rewrite (memread_ok header) by lia.
    cbn [mbind result_bind]. rewrite !drop_0, (take_ge header) by lia.
    assert (Hpay : ∃ p, match payload with
        | Some p => if (payload_len =? 0)%nat then Ok None else p ← memread p 0 payload_len; Ok (Some p)
        | None => Ok None end = Ok p ∧ chunk_data p = payload_data payload payload_len).
    { destruct payload as [p|]; [|by exists None]. destruct (Nat.eqb_spec payload_len 0) as [->|]; [by exists None|].
      rewrite memread_ok by lia. exists (Some (take payload_len p)). done. }
    destruct Hpay as (p & -> & <-). cbn [mbind result_bind]. rewrite hmac_2chunk by (intros i; apply Hmem). done.
Qed.

(** ** Comparison *)

Lemma lor_byte a b : is_u8 a → is_u8 b → is_u8 (Z.lor a b).
Proof.
  intros Ha Hb. unfold is_u8. split; [apply Z.lor_nonneg; ulia|].
  destruct (decide (Z.lor a b = 0)) as [->|Hne]; [lia|]. assert (0 ≤ Z.lor a b) by (apply Z.lor_nonneg; ulia).
  apply Z.log2_lt_pow2; [lia|]. rewrite Z.log2_lor by ulia.
  assert (Hlog : ∀ x, is_u8 x → Z.log2 x < 8).
  { intros x Hx. destruct (decide (x = 0)) as [->|]; [by cbn|]. apply Z.log2_lt_pow2; ulia. }
  pose proof (Hlog a Ha). pose proof (Hlog b Hb). lia.
Qed.

Lemma lxor_byte a b : is_u8 a → is_u8 b → is_u8 (Z.lxor a b).
Proof.
  intros Ha Hb. unfold is_u8. assert (0 ≤ Z.lxor a b) by (apply Z.lxor_nonneg; ulia). split; [done|].
  destruct (decide (Z.lxor a b = 0)) as [->|Hne]; [lia|]. apply Z.log2_lt_pow2; [lia|].
  pose proof (Z.log2_lxor a b ltac:(ulia) ltac:(ulia)).
  assert (Hlog : ∀ x, is_u8 x → Z.log2 x < 8).
  { intros x Hx. destruct (decide (x = 0)) as [->|]; [by cbn|]. apply Z.log2_lt_pow2; ulia. }
  pose proof (Hlog a Ha). pose proof (Hlog b Hb). lia.
Qed.

Lemma mac_diff_from l : ∀ l' d, is_u8 d → bytes_ok l → bytes_ok l' → length l = length l' →
  fold_left (λ diff ab, u8 (Z.lor diff (Z.lxor ab.1 ab.2))) (combine l l') d = 0 ↔ d = 0 ∧ l = l'.
Proof.
  induction l as [|a l IH]; intros [|b l'] d Hd Hl Hl' Hlen; try done; cbn [combine fold_left fst snd]; [naive_solver|].
  apply list.Forall_cons in Hl as [Ha Hl]. apply list.Forall_cons in Hl' as [Hb Hl'].
  pose proof (lxor_byte a b Ha Hb) as Hx. pose proof (lor_byte d _ Hd Hx) as Ho.
  rewrite IH by (done || apply u8_range || (cbn in Hlen; lia)). rewrite u8_id by exact Ho.
  rewrite Z.lor_eq_0_iff, Z.lxor_eq_0_iff. naive_solver.
Qed.

Lemma mac_diff_spec l l' : bytes_ok l → bytes_ok l' → length l = length l' → mac_diff l l' = 0 ↔ l = l'.
Proof. intros Hl Hl' Hlen. unfold mac_diff. rewrite mac_diff_from by (done || ulia). naive_solver. Qed.

Lemma digest_bytes h : bytes_ok (digest h).
Proof. unfold digest. repeat apply Forall_app_2; apply be_bytes_ok. Qed.

(** A user's function writes bytes. *)
Definition mac_fn_bytes (ctx : distric_auth_ctx) : Prop := ∀ f k m, au_mac_fn ctx = Some f → bytes_ok (f k m).

Lemma mac_of_bytes ctx msg : mac_fn_bytes ctx → bytes_ok (mac_of ctx msg).
Proof.
  intros Hf. unfold mac_of. destruct (au_key_len ctx =? 0)%nat; [by_bytes|].
  destruct (au_mac_fn ctx) as [f|] eqn:E; [by apply Hf|apply digest_bytes].
Qed.

Lemma mac_of_length mem malloc_ok ctx header payload payload_len msg :
  auth_ok mem malloc_ok ctx header payload payload_len → length (mac_of ctx msg) = 32%nat.
Proof.
  intros A. unfold mac_of. destruct (au_key_len ctx =? 0)%nat; [done|].
  destruct (au_mac_fn ctx) as [f|] eqn:E; [|apply digest_length]. by apply (ao_mac _ _ _ _ _ _ A).
Qed.

(** ** Properties *)


Definition example_memory : uninitialised := λ i n, repeat (Z.of_nat i) n.
Definition example_ctx : distric_auth_ctx := AuthCtx (repeat 11 20 ++ repeat 0 44) 20 None.
Definition example_message_header : list Z := repeat 5 32.


(** A key length above the size of the key array is not refused: the key is read past
    the end of the context. *)
Theorem long_key_overread mem malloc_ok ctx header payload payload_len :
  au_mac_fn ctx = None → length (au_key ctx) = DISTRIC_AUTH_KEY_MAX → (DISTRIC_AUTH_KEY_MAX < au_key_len ctx)%nat →
  distric_auth_compute mem malloc_ok ctx header payload payload_len = Fault.
Proof.
  intros Hf Hl Hk. unfold DISTRIC_AUTH_KEY_MAX in *. unfold distric_auth_compute.
  destruct (Nat.eqb_spec (au_key_len ctx) 0); [lia|]. rewrite Hf.
  assert (memread (au_key ctx) 0 (au_key_len ctx) = Fault) as ->; [|reflexivity].
  unfold memread. destruct (Nat.leb_spec (0 + au_key_len ctx) (length (au_key ctx))); [lia|reflexivity].
Qed.

Lemma long_key_overread_witness :
  distric_auth_compute example_memory true (AuthCtx (repeat 11 64) 65 None) example_message_header (Some [1; 2; 3]) 3 = Fault.
Proof. apply (long_key_overread example_memory true (AuthCtx (repeat 11 64) 65 None)); [reflexivity|reflexivity|vm_compute; lia]. Defined.

(** With a function of the user, a null payload of a positive length is not refused:
    the MAC covers memory that was never written. *)
Theorem null_payload_uninitialised mem ctx f header n :
  au_mac_fn ctx = Some f → au_key_len ctx ≠ 0%nat → (au_key_len ctx ≤ length (au_key ctx))%nat → length header = 32%nat →
  (n ≤ 480)%nat → length (mem 3%nat 512%nat) = 512%nat →
  distric_auth_compute mem true ctx header None n =
  Ok (f (take (au_key_len ctx) (au_key ctx)) (header ++ take n (drop 32 (mem 3%nat 512%nat)))).
Proof.
  intros Hf Hk Hkl Hh Hn Hm. unfold distric_auth_compute. destruct (Nat.eqb_spec (au_key_len ctx) 0); [done|]. rewrite Hf.
  destruct (Nat.leb_spec (32 + n) 512); [|lia]. cbn [negb andb].
  rewrite (memread_ok header) by lia. cbn [mbind result_bind]. rewrite drop_0, (take_ge header) by lia.
  rewrite memcpy_at_ok by lia. cbn [mbind result_bind copy_payload]. rewrite take_0, app_nil_l, Hh, Nat.add_0_l.
  rewrite (memread_ok (au_key ctx)) by lia. cbn [mbind result_bind].
  rewrite memread_ok by (rewrite length_app, length_drop; lia). cbn [mbind result_bind]. rewrite !drop_0.
  do 2 f_equal. rewrite take_app_ge by lia. f_equal. f_equal. lia.
Qed.

Lemma null_payload_uninitialised_witness :
  distric_auth_compute example_memory true (AuthCtx [1; 2] 2 (Some (λ _ m, take 32 (drop 32 m)))) example_message_header None 40 =
  Ok (repeat 3 32).
Proof.
  rewrite (null_payload_uninitialised example_memory (AuthCtx [1; 2] 2 (Some (λ _ m, take 32 (drop 32 m))))
    (λ _ m, take 32 (drop 32 m)) example_message_header 40); try reflexivity; cbn; lia.
Defined.
