(* ===== verification/Capability.v ===== *)
(** * Capability negotiation (libs/distric_protocol: capability.c, capability.h)

    The message two nodes exchange when they connect, its encoding as TLV fields, and
    the agreement on a set of features.  The message implements the interface
    [WireMessage]; unlike the messages of messages.c it stops at the first append that
    fails and decodes without a validation pass. *)

From Stdlib Require Import ZArith Lia List String.
From S2P Require Import Prelude CString Tlv WireCore Auth.

Local Open Scope Z_scope.

(** ** Data *)

Definition CAP_COMPRESSION : Z := Z.shiftl 1 0.
Definition CAP_AEAD : Z := Z.shiftl 1 1.
Definition CAP_STREAMING : Z := Z.shiftl 1 2.
Definition CAP_INDEXED_TLV : Z := Z.shiftl 1 3.
Definition CAP_HMAC_AUTH : Z := Z.shiftl 1 4.

Definition CAP_TAG_MAJOR : Z := 0x0101.
Definition CAP_TAG_MINOR : Z := 0x0102.
Definition CAP_TAG_CAPS : Z := 0x0103.
Definition CAP_TAG_NODE_ID : Z := 0x0104.

Record capability_msg := CapabilityMsg {
  cm_major_version : Z;
  cm_minor_version : Z;
  cm_capabilities : Z;
  cm_node_id : list Z      (* char[64], its C string *)
}.

Definition capability_zero : capability_msg := CapabilityMsg 0 0 0 [].
Definition set_major (v : Z) (m : capability_msg) : capability_msg :=
  CapabilityMsg v (cm_minor_version m) (cm_capabilities m) (cm_node_id m).
Definition set_minor (v : Z) (m : capability_msg) : capability_msg :=
  CapabilityMsg (cm_major_version m) v (cm_capabilities m) (cm_node_id m).
Definition set_capabilities (v : Z) (m : capability_msg) : capability_msg :=
  CapabilityMsg (cm_major_version m) (cm_minor_version m) v (cm_node_id m).
Definition set_cap_node_id (v : list Z) (m : capability_msg) : capability_msg :=
  CapabilityMsg (cm_major_version m) (cm_minor_version m) (cm_capabilities m) v.

(** ** Operations *)

Definition capability_serialize (cap : capability_msg) : result (list Z * nat) :=
  serialize_with 128 (λ enc,
    enc ← tlv_encode_uint8 enc CAP_TAG_MAJOR (cm_major_version cap);
    enc ← tlv_encode_uint8 enc CAP_TAG_MINOR (cm_minor_version cap);
    enc ← tlv_encode_uint32 enc CAP_TAG_CAPS (cm_capabilities cap);
    match cm_node_id cap with
    | [] => Ok enc
    | node_id => tlv_encode_string enc CAP_TAG_NODE_ID (Some node_id)
    end).

(** The node id: [strlen], then a copy of at most 63 bytes. *)
Definition get_node_id (field : tlv_field) (old : list Z) : result (list Z) :=
  match tlv_field_get_string field with
  | Some s =>
      s ← strdup_read s;
      let slen := if (64 <=? length s)%nat then 63%nat else length s in
      Ok (take slen s)
  | None => Ok old
  end.

(** The [switch] of the decoding loop. *)
Definition capability_step (field : tlv_field) (st : capability_msg * Z) : result (capability_msg * Z) :=
  let '(cap_out, seen) := st in
  if f_tag field =? CAP_TAG_MAJOR then
    v ← tlv_field_get_uint8 field; Ok (set_major v cap_out, Z.lor seen 1)
  else if f_tag field =? CAP_TAG_MINOR then
    v ← tlv_field_get_uint8 field; Ok (set_minor v cap_out, Z.lor seen 2)
  else if f_tag field =? CAP_TAG_CAPS then
    v ← tlv_field_get_uint32 field; Ok (set_capabilities v cap_out, Z.lor seen 4)
  else if f_tag field =? CAP_TAG_NODE_ID then
    v ← get_node_id field (cm_node_id cap_out); Ok (set_cap_node_id v cap_out, seen)
  else Ok (cap_out, seen).

(** The status, the message as the call leaves it and the last error of the thread. *)
Definition capability_deserialize (buf : option (list Z)) (len : nat) (cap_out : capability_msg)
    (last : thread_error) : result (distric_err * capability_msg * thread_error) :=
  match buf with
  | None => Ok (DISTRIC_ERR_INVALID_ARG, cap_out, last)
  | Some mem =>
      if (len =? 0)%nat then Ok (DISTRIC_ERR_INVALID_ARG, cap_out, last) else
      match tlv_decoder_create (Some mem) len with
      | None => Ok (DISTRIC_ERR_NO_MEMORY, capability_zero, last)
      | Some dec =>
          '(_, (cap_out, seen)) ← decode_loop capability_step dec (capability_zero, 0);
          if negb (Z.land seen 7 =? 7) then
            Ok (DISTRIC_ERR_INVALID_FORMAT, cap_out,
                distric_set_error_info DISTRIC_ERR_INVALID_FORMAT PROTO_STAGE_CAPABILITY_NEGOTIATE 0 0
                  (Some (str "capability message missing required fields")))
          else Ok (DISTRIC_OK, cap_out, last)
      end
  end.

Definition mismatch_detail (local peer : capability_msg) : list Z :=
  take 127 (str "major version mismatch: local=" ++ decimal (cm_major_version local) ++
            str " peer=" ++ decimal (cm_major_version peer)).

Definition capability_negotiate (local peer : capability_msg) (negotiated_caps_out : Z)
    (last : thread_error) : distric_err * Z * thread_error :=
  if negb (cm_major_version local =? cm_major_version peer) then
    (DISTRIC_ERR_INVALID_FORMAT, negotiated_caps_out,
     distric_set_error_info DISTRIC_ERR_INVALID_FORMAT PROTO_STAGE_CAPABILITY_NEGOTIATE 0 0
       (Some (mismatch_detail local peer)))
  else (DISTRIC_OK, Z.land (cm_capabilities local) (cm_capabilities peer), last).

(** ** The message on the wire *)

Definition capability_range (m : capability_msg) : Prop :=
  is_u8 (cm_major_version m) ∧ is_u8 (cm_minor_version m) ∧ is_u32 (cm_capabilities m) ∧
  cstr_fits 63 (cm_node_id m).

Definition node_id_fields (node_id : list Z) : list tlv :=
  match node_id with [] => [] | _ => [(TLV_STRING, CAP_TAG_NODE_ID, node_id ++ [0])] end.

Definition capability_fields (m : capability_msg) : list tlv :=
  [(TLV_UINT8, CAP_TAG_MAJOR, [cm_major_version m])] ++
  [(TLV_UINT8, CAP_TAG_MINOR, [cm_minor_version m])] ++
  [(TLV_UINT32, CAP_TAG_CAPS, be_bytes 4 (cm_capabilities m))] ++
  node_id_fields (cm_node_id m).

(** The status as the error of the call. *)
Definition capability_read (buf : option (list Z)) (len : nat) : result capability_msg :=
  '(err, m, _) ← capability_deserialize buf len capability_zero distric_clear_error;
  match err with DISTRIC_OK => Ok m | _ => Err err end.

#[export] Instance capability_wire : WireMessage capability_msg := {
  wire_range := capability_range;
  wire_fits := λ _, True;
  serialize := capability_serialize;
  deserialize := capability_read
}.

Lemma get_node_id_written tag s more old :
  cstr_fits 63 s →
  get_node_id (TlvField TLV_STRING tag (Z.of_nat (length (s ++ [0]))) ((s ++ [0]) ++ more)) old = Ok s.
Proof.
  intros [Hs Hn]. unfold get_node_id. rewrite get_string_written, strdup_read_app by done.
  cbn [mbind result_bind]. destruct (Nat.leb_spec 64 (length s)); [lia|]. by rewrite firstn_all.
Qed.

Lemma get_node_id_total f old :
  safe_field f → cstr_fits 63 old → ∃ s, get_node_id f old = Ok s ∧ cstr_fits 63 s.
Proof.
  intros Hf Hold. unfold get_node_id.
  destruct (tlv_field_get_string f) as [s|] eqn:E; [|by exists old].
  apply get_string_safe in E as [Hb Hin]; [|done].
  destruct (strdup_read_total s Hb Hin) as (r & -> & Hr). cbn [mbind result_bind].
  eexists; split; [done|]. split; [by apply Forall_take|]. rewrite length_take.
  destruct (Nat.leb_spec 64 (length r)); lia.
Qed.

Lemma capability_step_total f m seen :
  safe_field f → capability_range m →
  ∃ m' seen', capability_step f (m, seen) = Ok (m', seen') ∧ capability_range m'.
Proof.
  unfold capability_range. intros Hf (? & ? & ? & ?). unfold capability_step.
  total_case; try (destruct (get_node_id_total f (cm_node_id m)) as (? & -> & ?); [done..|]);
    cbn [mbind result_bind]; (do 2 eexists; split; [reflexivity|]); by split_and!.
Qed.

Lemma capability_encodes m :
  capability_range m → ∃ buf,
    capability_serialize m = Ok (buf, length (fields_bytes (capability_fields m))) ∧
    take (length (fields_bytes (capability_fields m))) buf = fields_bytes (capability_fields m).
Proof.
  intros (_ & _ & _ & _ & Hlen). apply (serialize_with_fields 128).
  unfold capability_fields. encode_all.
  destruct (cm_node_id m) as [|c s] eqn:E; cbn [node_id_fields]; [apply encodes_nil|].
  apply encodes_string. unfold TLV_MAX_FIELD_SIZE. lia.
Qed.

Lemma capability_fields_fit m : capability_range m → fields_fit (capability_fields m).
Proof.
  destruct m as [maj mn caps id]. unfold capability_range, capability_fields.
  cbn [cm_major_version cm_minor_version cm_capabilities cm_node_id]. intros ?. destruct_conj.
  split; [|destruct id; cbn; lia]. do 3 (apply Forall_app_2; [forall_fits|]).
  destruct id as [|c s]; cbn [node_id_fields]; [apply List.Forall_nil|forall_fits].
Qed.

(** A message this node wrote, followed by anything, read by the loop. *)
Lemma capability_run m tail :
  capability_range m →
  fold_fields capability_step (capability_fields m) tail (capability_zero, 0) = Ok (m, 7).
Proof.
  destruct m as [maj mn caps id]. unfold capability_range, capability_fields.
  cbn [cm_major_version cm_minor_version cm_capabilities cm_node_id]. intros ?. destruct_conj.
  cbn [app]. do 3 run_field capability_step.
  destruct id as [|c s]; cbn [node_id_fields]; [reflexivity|].
  eapply eq_trans; [eapply fold_fields_step; unfold capability_step; cbn [f_tag]; eval_tags; cbv match;
    rewrite get_node_id_written by done; reflexivity|]. reflexivity.
Qed.

(** Less than a field header after the last field ends the loop, as the end of the
    buffer does. *)
Lemma short_tail_stops dec fs tail k :
  (k < TLV_HEADER_SIZE)%nat →
  tlv_decoder_create (Some (fields_bytes fs ++ tail)) (length (fields_bytes fs) + k) = Some dec →
  ∃ e, tlv_decode_next (advance_all dec fs) = Err e.
Proof.
  intros Hk Hd. unfold tlv_decoder_create, tlv_decoder_create_with_limits in Hd.
  destruct (_ =? 0)%nat; [done|]. injection Hd as <-.
  destruct (advance_all_eq fs (TlvDecoder (fields_bytes fs ++ tail)
    (length (fields_bytes fs) + k) 0 512 (2 ^ 20) 0 None)) as (_ & H1 & H2 & _).
  unfold TLV_HEADER_SIZE in Hk. unfold tlv_decode_next, decode_next_internal, TLV_HEADER_SIZE.
  change (protocol_limits_max_fields None) with 512. change (protocol_limits_max_string None) with (2 ^ 20).
  cbn [d_length d_offset] in H1, H2. rewrite H1, H2, Nat.add_0_l.
  destruct (Nat.leb_spec (length (fields_bytes fs) + k) (length (fields_bytes fs))); [by eexists|].
  destruct (Nat.ltb_spec (length (fields_bytes fs) + k) (length (fields_bytes fs) + 7)); [by eexists|lia].
Qed.

Lemma capability_decode m tail k cap_out last :
  capability_range m → (k < TLV_HEADER_SIZE)%nat →
  capability_deserialize (Some (fields_bytes (capability_fields m) ++ tail))
    (length (fields_bytes (capability_fields m)) + k) cap_out last = Ok (DISTRIC_OK, m, last).
Proof.
  intros Hm Hk. unfold capability_deserialize.
  destruct (fields_fit_ok _ (capability_fields_fit m Hm)) as [Hok Hlim].
  assert (Hpos : (length (fields_bytes (capability_fields m)) ≠ 0)%nat).
  { pose proof (fields_bytes_count (capability_fields m)) as Hc. intros H0. rewrite H0 in Hc.
    unfold capability_fields in Hc. cbn [app length] in Hc. lia. }
  destruct (tlv_decoder_create _ _) as [dec|] eqn:E.
  - rewrite (decode_loop_create _ _ tail (length (fields_bytes (capability_fields m)) + k)) by
      (done || lia || by eapply short_tail_stops).
    rewrite capability_run by done. cbn [mbind result_bind].
    destruct (Nat.eqb_spec (length (fields_bytes (capability_fields m)) + k) 0); [lia|]. done.
  - unfold tlv_decoder_create, tlv_decoder_create_with_limits in E.
    destruct (_ =? 0)%nat eqn:E'; [apply Nat.eqb_eq in E'; lia|done].
Qed.

(** What the peer receives: the first [len] bytes of the buffer. *)
Lemma capability_sent m cap_out last :
  capability_range m → ∃ buf len, capability_serialize m = Ok (buf, len) ∧
    ∀ tail, capability_deserialize (Some (take len buf ++ tail)) len cap_out last = Ok (DISTRIC_OK, m, last).
Proof.
  intros Hm. destruct (capability_encodes m Hm) as (buf & Hs & Hb). do 2 eexists. split; [exact Hs|].
  intros tail. rewrite Hb. pose proof (capability_decode m tail 0 cap_out last Hm) as H.
  rewrite Nat.add_0_r in H. apply H. unfold TLV_HEADER_SIZE. lia.
Qed.

(** On a terminated buffer the call answers, whatever the bytes. *)
Lemma capability_deserialize_safe mem len cap_out last :
  terminated mem len → (0 < len)%nat →
  ∃ m, capability_range m ∧
    (capability_deserialize (Some mem) len cap_out last = Ok (DISTRIC_OK, m, last) ∨
     capability_deserialize (Some mem) len cap_out last =
       Ok (DISTRIC_ERR_INVALID_FORMAT, m,
           distric_set_error_info DISTRIC_ERR_INVALID_FORMAT PROTO_STAGE_CAPABILITY_NEGOTIATE 0 0
             (Some (str "capability message missing required fields")))).
Proof.
  intros Ht Hlen. unfold capability_deserialize.
  destruct (Nat.eqb_spec len 0); [lia|].
  destruct (tlv_decoder_create _ _) as [dec|] eqn:E.
  - apply tlv_decoder_create_some in E as [Hm Hl].
    destruct (decode_loop_safe capability_step (λ st, capability_range st.1) dec (capability_zero, 0))
      as (dec' & [m seen] & -> & Hr & _); [by rewrite Hm, Hl| | |].
    + intros f [m seen] Hf Hr. destruct (capability_step_total f m seen Hf Hr) as (m' & seen' & -> & ?). by eexists.
    + unfold capability_range; message_zero.
    + cbn [mbind result_bind fst] in *. exists m. split; [done|].
      destruct (negb _); [by right|by left].
  - unfold tlv_decoder_create, tlv_decoder_create_with_limits in E.
    destruct (Nat.eqb_spec len 0); done.
Qed.

#[export] Instance capability_laws : WireMessageLaws capability_msg.
Proof.
  split; cbn [wire_range serialize deserialize capability_wire]; unfold capability_read.
  - intros m Hm _. destruct (capability_encodes m Hm) as (buf & Hs & Hb). do 2 eexists. split; [exact Hs|].
    split; [by apply (take_fits buf)|]. intros tail. rewrite Hb.
    set (n := length (fields_bytes (capability_fields m))).
    rewrite <- (Nat.add_0_r n). unfold n. rewrite capability_decode by (done || unfold TLV_HEADER_SIZE; lia). done.
  - intros mem len Ht. destruct (Nat.eqb_spec len 0) as [->|]; [by right|].
    destruct (capability_deserialize_safe mem len capability_zero distric_clear_error Ht) as (m & Hm & [-> | ->]);
      [lia|done|by left].
Qed.

(** ** Theorems *)

Lemma land_u32 a b : is_u32 a → is_u32 b → is_u32 (Z.land a b).
Proof.
  unfold is_u32. intros [Ha Ha'] [Hb _]. split; [by apply Z.land_nonneg; left|].
  pose proof (Z.lor_ldiff_and a b) as H. pose proof (Z.add_lor_land (Z.ldiff a b) (Z.land a b)) as Hs.
  assert (0 ≤ Z.ldiff a b) by (apply Z.ldiff_nonneg; by left).
  assert (Z.land (Z.ldiff a b) (Z.land a b) = 0).
  { by rewrite (Z.land_comm a b), Z.land_assoc, Z.land_ldiff. }
  lia.
Qed.

(** Two nodes that exchange their capability messages come to the same verdict.
    Each end decodes the very message the other end wrote, whatever follows it in the
    receive buffer; when the major versions agree both ends compute the same set of
    features, which holds exactly those both announced; when they differ both refuse,
    and the error record of each thread says so. *)
Theorem negotiation_agrees a b last_a last_b old :
  capability_range a → capability_range b →
  ∃ buf_a len_a buf_b len_b,
    capability_serialize a = Ok (buf_a, len_a) ∧ capability_serialize b = Ok (buf_b, len_b) ∧
    ∀ tail_a tail_b,
      capability_deserialize (Some (take len_b buf_b ++ tail_b)) len_b old last_a = Ok (DISTRIC_OK, b, last_a) ∧
      capability_deserialize (Some (take len_a buf_a ++ tail_a)) len_a old last_b = Ok (DISTRIC_OK, a, last_b) ∧
      (cm_major_version a = cm_major_version b →
       ∃ caps, is_u32 caps ∧
         capability_negotiate a b 0 last_a = (DISTRIC_OK, caps, last_a) ∧
         capability_negotiate b a 0 last_b = (DISTRIC_OK, caps, last_b) ∧
         (∀ i, 0 ≤ i → Z.testbit caps i = Z.testbit (cm_capabilities a) i && Z.testbit (cm_capabilities b) i)) ∧
      (cm_major_version a ≠ cm_major_version b →
       ∃ err_a err_b,
         capability_negotiate a b 0 last_a = (DISTRIC_ERR_INVALID_FORMAT, 0, err_a) ∧
         capability_negotiate b a 0 last_b = (DISTRIC_ERR_INVALID_FORMAT, 0, err_b) ∧
         tl_has_error err_a = true ∧ tl_has_error err_b = true ∧
         ei_stage (distric_get_last_error err_a) = PROTO_STAGE_CAPABILITY_NEGOTIATE ∧
         ei_stage (distric_get_last_error err_b) = PROTO_STAGE_CAPABILITY_NEGOTIATE).
Proof.
  intros Ha Hb. destruct (capability_sent a old last_b Ha) as (buf_a & len_a & Hsa & Hda).
  destruct (capability_sent b old last_a Hb) as (buf_b & len_b & Hsb & Hdb).
  exists buf_a, len_a, buf_b, len_b. do 2 (split; [done|]). intros tail_a tail_b.
  do 2 (split; [done|]). unfold capability_negotiate. split; intros Hv.
  - rewrite Hv, Z.eqb_refl. exists (Z.land (cm_capabilities a) (cm_capabilities b)).
    split_and!; [|done|by rewrite Z.land_comm|intros; apply Z.land_spec].
    destruct Ha as (_ & _ & Ha & _), Hb as (_ & _ & Hb & _). by apply land_u32.
  - rewrite (proj2 (Z.eqb_neq _ _) Hv), (proj2 (Z.eqb_neq _ _) (not_eq_sym Hv)).
    do 2 eexists. by split_and!.
Qed.

Definition example_node : capability_msg :=
  CapabilityMsg 1 0 (Z.lor CAP_STREAMING CAP_HMAC_AUTH) (str "node-1").
Definition example_peer : capability_msg := CapabilityMsg 1 2 (Z.lor CAP_AEAD CAP_HMAC_AUTH) [].

Lemma example_node_range : capability_range example_node.
Proof. split_and!; try closed_range. split; [|cbn; lia]. repeat (apply List.Forall_cons; [vm_compute; split; congruence|]). apply List.Forall_nil. Qed.
Lemma example_peer_range : capability_range example_peer.
Proof. split_and!; try closed_range. split; [apply List.Forall_nil|cbn; lia]. Qed.

(** A message that is cut off inside a field is accepted: the loop takes the error
    of the decoder for the end of the buffer, so up to six bytes of a field that is
    missing its header are dropped in silence.  The messages of messages.c are validated
    first: on the example below [tlv_validate_buffer] refuses the buffer. *)
Theorem truncated_capability_accepted m k junk last :
  capability_range m → (k < 7)%nat → length junk = k →
  capability_deserialize (Some (fields_bytes (capability_fields m) ++ junk))
    (length (fields_bytes (capability_fields m) ++ junk)) capability_zero last = Ok (DISTRIC_OK, m, last).
Proof.
  intros Hm Hk Hj. rewrite length_app, Hj. apply capability_decode; [done|].
  unfold TLV_HEADER_SIZE. lia.
Qed.

Lemma negotiation_agrees_witness :
  ∃ buf_a len_a buf_b len_b,
    capability_serialize example_node = Ok (buf_a, len_a) ∧
    capability_serialize example_peer = Ok (buf_b, len_b) ∧
    capability_deserialize (Some (take len_b buf_b)) len_b capability_zero distric_clear_error =
      Ok (DISTRIC_OK, example_peer, distric_clear_error) ∧
    capability_negotiate example_node example_peer 0 distric_clear_error =
      (DISTRIC_OK, CAP_HMAC_AUTH, distric_clear_error).
Proof.
  destruct (negotiation_agrees example_node example_peer distric_clear_error distric_clear_error capability_zero
    example_node_range example_peer_range) as (buf_a & len_a & buf_b & len_b & Ha & Hb & H).
  exists buf_a, len_a, buf_b, len_b. do 2 (split; [exact Ha || exact Hb|]).
  destruct (H [] []) as (H1 & _). rewrite app_nil_r in H1. split; [exact H1|]. by vm_compute.
Defined.

Lemma truncated_capability_accepted_witness :
  capability_deserialize (Some (fields_bytes (capability_fields example_node) ++ [5; 1; 4]))
    (length (fields_bytes (capability_fields example_node) ++ [5; 1; 4])) capability_zero distric_clear_error =
    Ok (DISTRIC_OK, example_node, distric_clear_error) ∧
  tlv_validate_buffer (Some (fields_bytes (capability_fields example_node) ++ [5; 1; 4]))
    (length (fields_bytes (capability_fields example_node) ++ [5; 1; 4])) = Ok false.
Proof.
  split; [|by vm_compute].
  apply (truncated_capability_accepted example_node 3); [apply example_node_range|lia|done].
Defined.
