(* ===== verification/RaftRpc.v ===== *)
(** * The RPC layer of Raft (libs/distric_raft/src/raft_rpc.c): handlers and calls

    A handler decodes a request, hands it to the core and encodes the answer; a call
    encodes a request, sends it with [rpc_call] and decodes the answer.  What
    [rpc_call] answers to an attempt is the argument of a call, so a network is a
    function from attempts and requests to answers: the peer's handler behind a
    network that delivers ([served]), or the client of [RpcClient.v] ([rpc_client_answer]). *)

From Stdlib Require Import ZArith Lia.
From stdpp Require Import base list numbers option.
From S2P Require Import Prelude Binary Tlv WireCore RaftMessages RaftLog RaftCore RaftInvariant RaftExamples RpcErrors RpcClient.

Local Open Scope Z_scope.

(** ** The context *)

Record raft_rpc_config := RaftRpcConfig {
  rrc_bind_address : list Z;
  rrc_bind_port : Z;
  rrc_rpc_timeout_ms : Z;   (* uint32_t *)
  rrc_max_retries : Z       (* uint32_t *)
}.

(** The filter is a function of the user, [None] for [NULL]. *)
Record raft_rpc_context := RaftRpcContext {
  rrx_config : raft_rpc_config;
  rrx_send_filter : option (list Z → Z → bool);
  rrx_running : bool
}.

Definition raft_rpc_set_send_filter (filter : option (list Z → Z → bool)) (context : raft_rpc_context) :
    raft_rpc_context :=
  RaftRpcContext (rrx_config context) filter (rrx_running context).

Definition send_blocked (context : raft_rpc_context) (peer_address : list Z) (peer_port : Z) : bool :=
  match rrx_send_filter context with
  | Some filter => negb (filter peer_address peer_port)
  | None => false
  end.

(** ** Entries on the wire *)

Definition entry_of_wire (e : raft_log_entry_wire) : raft_log_entry :=
  LogEntry (lew_index e) (lew_term e) (lew_entry_type e)
    (match lew_data e with Some d => take (lew_data_len e) d | None => [] end).

Definition wire_of_entry (e : raft_log_entry) : raft_log_entry_wire :=
  RaftLogEntryWire (le_term e) (le_index e) (u8 (le_type e))
    (match le_data e with [] => None | d => Some d end) (length (le_data e)).

(** ** Calls *)

(** The arguments of [rpc_call] and what it answers: its code, the response and the
    length of the response. *)
Record rpc_request := RpcRequest {
  rq_address : list Z;
  rq_port : Z;
  rq_type : message_type;
  rq_buf : list Z;
  rq_len : nat;
  rq_timeout_ms : Z     (* int *)
}.
Record rpc_answer := RpcAnswer {
  an_err : Z;
  an_response : option (list Z);
  an_len : nat
}.

(** The answer to each attempt. *)
Definition network := nat → rpc_request → rpc_answer.

(** A call of the layer: its code, its outputs when the code is 0, the number of calls
    of [rpc_call] and their arguments. *)
Record sent (A : Type) := Sent { st_code : Z; st_out : option A; st_attempts : nat; st_request : option rpc_request }.
Arguments Sent {A}.
Arguments st_request {A}.
Arguments st_code {A}.
Arguments st_out {A}.
Arguments st_attempts {A}.

Definition refused {A} (e : distric_err) : sent A := Sent (distric_err_code e) None 0 None.

(** The response is decoded. *)
Definition finish {A M} (decode : option (list Z) → nat → result M) (out : M → A) (rq : rpc_request) (a : rpc_answer)
    (attempts : nat) : result (sent A) :=
  if negb (an_err a =? 0) then Ok (Sent (an_err a) None attempts (Some rq))
  else
    match decode (an_response a) (an_len a) with
    | Ok m => Ok (Sent 0 (Some (out m)) attempts (Some rq))
    | Err e => Ok (Sent (distric_err_code e) None attempts (Some rq))
    | Fault => Fault
    end.

Section calls.
Variable context : raft_rpc_context.
Variable rpc : network.

(** The loop of [raft_rpc_send_request_vote]: the last answer and the number of
    attempts; [None] when [fuel] turns are not enough. *)
Fixpoint call_loop (fuel attempt : nat) (retries : Z) (last : rpc_answer) (rq : rpc_request) :
    option (rpc_answer * nat) :=
  match fuel with
  | O => None
  | S fuel =>
      if retries <=? rrc_max_retries (rrx_config context) then
        let a := rpc attempt rq in
        if an_err a =? 0 then Some (a, S attempt)
        else call_loop fuel (S attempt) (u32 (retries + 1)) a rq
      else Some (last, attempt)
  end.

Definition raft_rpc_send_request_vote (fuel : nat) (peer_address : list Z) (peer_port : Z)
    (candidate_id : list Z) (term last_log_index last_log_term : Z) : result (option (sent vote_reply)) :=
  if send_blocked context peer_address peer_port then Ok (Some (refused DISTRIC_ERR_UNAVAILABLE))
  else
    let request := RaftRequestVote term (take 63 candidate_id) last_log_index last_log_term in
    match serialize_raft_request_vote request with
    | Fault => Fault
    | Err e => Ok (Some (refused e))
    | Ok (request_buf, request_len) =>
        let rq := RpcRequest peer_address peer_port MSG_RAFT_REQUEST_VOTE request_buf request_len
          (s32 (rrc_rpc_timeout_ms (rrx_config context))) in
        match call_loop fuel 0 0 (RpcAnswer 0 None 0) rq with
        | None => Ok None
        | Some (a, attempts) =>
            r ← finish deserialize_raft_request_vote_response
                  (λ m, VoteReply (rvr_vote_granted m) (rvr_term m)) rq a attempts;
            Ok (Some r)
        end
    end.

Definition raft_rpc_send_append_entries (alloc_ok : bool) (peer_address : list Z) (peer_port : Z)
    (leader_id : list Z) (term prev_log_index prev_log_term : Z) (entries : list raft_log_entry)
    (leader_commit : Z) : result (sent append_reply) :=
  if send_blocked context peer_address peer_port then Ok (refused DISTRIC_ERR_UNAVAILABLE)
  else if (0 <? length entries)%nat && negb alloc_ok then Ok (refused DISTRIC_ERR_NO_MEMORY)
  else
    let request := RaftAppendEntries term (take 63 leader_id) prev_log_index prev_log_term
      (wire_of_entry <$> entries) leader_commit in
    match serialize_raft_append_entries request with
    | Fault => Fault
    | Err e => Ok (refused e)
    | Ok (request_buf, request_len) =>
        let rq := RpcRequest peer_address peer_port MSG_RAFT_APPEND_ENTRIES request_buf request_len
          (s32 (rrc_rpc_timeout_ms (rrx_config context))) in
        finish deserialize_raft_append_entries_response
          (λ m, AppendReply (aer_success m) (aer_term m) (aer_match_index m)) rq (rpc 0%nat rq) 1
    end.

(** The timeout is the product as [uint32_t]. *)
Definition raft_rpc_send_install_snapshot (peer_address : list Z) (peer_port : Z) (leader_id : list Z)
    (term last_included_index last_included_term : Z) (snapshot_data : option (list Z)) (snapshot_len : nat) :
    result (sent (bool * Z)) :=
  if send_blocked context peer_address peer_port then Ok (refused DISTRIC_ERR_UNAVAILABLE)
  else
    let request := RaftInstallSnapshot term (take 63 leader_id) last_included_index last_included_term
      snapshot_data snapshot_len in
    match serialize_raft_install_snapshot request with
    | Fault => Fault
    | Err e => Ok (refused e)
    | Ok (request_buf, request_len) =>
        let rq := RpcRequest peer_address peer_port MSG_RAFT_INSTALL_SNAPSHOT request_buf request_len
          (s32 (u32 (rrc_rpc_timeout_ms (rrx_config context) * 10))) in
        finish deserialize_raft_install_snapshot_response (λ m, (isr_success m, isr_term m)) rq (rpc 0%nat rq) 1
    end.
End calls.

(** ** Handlers *)

(** What a handler returns: the response and its length with 0, or -1. *)
Definition handler_answer : Type := option (list Z * nat).

Definition encoded_answer (r : result (list Z * nat)) : result handler_answer :=
  match r with
  | Ok response => Ok (Some response)
  | Err _ => Ok None
  | Fault => Fault
  end.

Section handlers.
Context {P : Type} `{RaftPersistenceOps P}.
Notation node := (raft_node P).

Definition handle_request_vote_rpc (n : node) (request : option (list Z)) (req_len : nat) (time : nat → Z) :
    result (handler_answer * node) :=
  match deserialize_raft_request_vote request req_len with
  | Fault => Fault
  | Err _ => Ok (None, n)
  | Ok rv =>
      let '(reply, n) := raft_handle_request_vote n (rv_candidate_id rv) (rv_term rv) (rv_last_log_index rv)
        (rv_last_log_term rv) time in
      a ← encoded_answer (serialize_raft_request_vote_response
            (RaftRequestVoteResponse (vote_term reply) (vote_granted reply) []));
      Ok (a, n)
  end.

Definition handle_append_entries_rpc (n : node) (request : option (list Z)) (req_len : nat) (calloc_ok : bool)
    (time : nat → Z) : result (handler_answer * node) :=
  match deserialize_raft_append_entries request req_len with
  | Fault => Fault
  | Err _ => Ok (None, n)
  | Ok ae =>
      if (0 <? length (RaftMessages.ae_entries ae))%nat && negb calloc_ok then Ok (None, n)
      else
        let '(reply, n) := raft_handle_append_entries n (ae_leader_id ae) (RaftMessages.ae_term ae)
          (ae_prev_log_index ae) (ae_prev_log_term ae) (entry_of_wire <$> ae_entries ae) (ae_leader_commit ae) time in
        a ← encoded_answer (serialize_raft_append_entries_response
              (RaftAppendEntriesResponse (RaftCore.ae_term reply) (ae_success reply) [] (ae_last_log_index reply)));
        Ok (a, n)
  end.

(** The term and the identity of the sender are not looked at. *)
Definition handle_install_snapshot_rpc (n : node) (request : option (list Z)) (req_len : nat) :
    result (handler_answer * node) :=
  match deserialize_raft_install_snapshot request req_len with
  | Fault => Fault
  | Err _ => Ok (None, n)
  | Ok is_ =>
      let '(err, n) :=
        match is_data is_ with
        | Some d => RaftCore.raft_install_snapshot n (is_last_included_index is_) (is_last_included_term is_)
                      (take (is_data_len is_) d)
        | None => (DISTRIC_ERR_INVALID_ARG, n)
        end in
      let success := match err with DISTRIC_OK => true | _ => false end in
      a ← encoded_answer (serialize_raft_install_snapshot_response
            (RaftInstallSnapshotResponse (raft_get_term n) [] success));
      Ok (a, n)
  end.
End handlers.

(** ** Networks *)

(** A network that delivers: the payload reaches [handler], and its response comes back. *)
Definition served {N} (handler : option (list Z) → nat → result (handler_answer * N)) (rq : rpc_request) : rpc_answer :=
  match handler (Some (take (rq_len rq) (rq_buf rq))) (rq_len rq) with
  | Ok (Some (response, len), _) => RpcAnswer 0 (Some (take len response)) len
  | _ => RpcAnswer (distric_err_code DISTRIC_ERR_IO) None 0
  end.

(** The client of rpc.c, in the environment [env] of the attempt. *)
Definition rpc_client_answer (client : rpc_client) (envs : nat → call_env) : network := λ attempt rq,
  match rpc_call client (envs attempt) (rq_type rq) (Some (rq_buf rq)) (rq_len rq) (rq_timeout_ms rq) with
  | Ok (Some o) =>
      RpcAnswer (co_code o) (match co_response o with Some (response, _) => response | None => None end)
        (match co_response o with Some (_, len) => Z.to_nat len | None => 0%nat end)
  | _ => RpcAnswer 0 None 0
  end.

(** ** The round trip of a request and of its answer *)

Lemma exchanged `{WireMessageLaws M} (m : M) :
  wire_range m → wire_fits m →
  ∃ buf len, serialize m = Ok (buf, len) ∧ (len ≤ length buf)%nat ∧ deserialize (Some (take len buf)) len = Ok m.
Proof.
  intros Hr Hf. destruct (wire_roundtrip m Hr Hf) as (buf & len & Hs & Hl & Hd). exists buf, len.
  split_and!; [done..|]. specialize (Hd []). by rewrite app_nil_r in Hd.
Qed.

Lemma empty_cstr : cstr_fits 63 [].
Proof. split; [constructor|cbn; lia]. Qed.

Lemma take63_fits s : cstr_fits 63 s → take 63 s = s.
Proof. intros [_ H]. by apply take_ge. Qed.

Lemma entry_over_wire e : entry_ok e → entry_of_wire (wire_of_entry e) = e.
Proof.
  intros (_ & Ht & _). destruct e as [i t ty d]. unfold entry_of_wire, wire_of_entry. cbn in *.
  rewrite u8_id by done. f_equal. destruct d; [done|]. cbn. by rewrite firstn_all.
Qed.

Lemma wire_entry_range e : is_u32 (le_index e) → entry_ok e → raft_log_entry_wire_range (wire_of_entry e).
Proof.
  intros Hi (Ht & Hty & Hd & _). unfold raft_log_entry_wire_range, wire_of_entry. cbn.
  split_and!; try apply Hi; try apply Ht; try apply u8_range.
  destruct (le_data e) eqn:E; cbn; [done|]. split; [done|]. split; [lia|]. exact Hd.
Qed.

Section over_wire.
Context {P : Type} `{RaftPersistenceOps P}.
Notation node := (raft_node P).

Lemma vote_reply_term (n : node) c t i lt time :
  vote_term (raft_handle_request_vote n c t i lt time).1 =
  current_term (raft_handle_request_vote n c t i lt time).2.
Proof.
  unfold raft_handle_request_vote. set (m := if t >? current_term n then _ else n). clearbody m.
  do 2 (case_match; [done|]). case_match; [|done]. cbn [fst snd vote_term]. by rewrite persist_state_eq.
Qed.

Lemma append_reply_range (n : node) l t pi pt es lc time :
  node_wf n → event_ok n (EvAppendEntries l t pi pt es lc time) →
  let r := (raft_handle_append_entries n l t pi pt es lc time).1 in
  is_u32 (RaftCore.ae_term r) ∧ is_u32 (ae_last_log_index r).
Proof.
  intros Hn He. pose proof (raft_handle_append_entries_wf n l t pi pt es lc time Hn He) as Hw.
  destruct He as (Ht & _). revert Hw. unfold raft_handle_append_entries.
  set (m := if t >? current_term n then _ else n).
  assert (Hm : node_wf m) by (subst m; case_match; [by apply transition_to_follower_wf|done]).
  clearbody m. pose proof (wf_term _ Hm). pose proof (log_last_index_u32 _ (wf_log _ Hm)).
  case_match; [done|]. case_match; [done|]. cbn [fst snd RaftCore.ae_term ae_last_log_index]. intros Hw.
  split; [done|]. by apply log_last_index_u32, Hw.
Qed.

(** A well-formed request reaches the core, and the answer can be decoded. *)
Lemma request_vote_served (n : node) rv buf len time :
  node_wf n → raft_request_vote_range rv → deserialize_raft_request_vote (Some buf) len = Ok rv →
  let '(reply, n') := raft_handle_request_vote n (rv_candidate_id rv) (rv_term rv) (rv_last_log_index rv)
    (rv_last_log_term rv) time in
  ∃ response rlen, handle_request_vote_rpc n (Some buf) len time = Ok (Some (response, rlen), n') ∧
    deserialize_raft_request_vote_response (Some (take rlen response)) rlen =
      Ok (RaftRequestVoteResponse (vote_term reply) (vote_granted reply) []).
Proof.
  intros Hn (Ht & [Hc Hl] & _) Hd. unfold handle_request_vote_rpc. rewrite Hd.
  pose proof (vote_reply_term n (rv_candidate_id rv) (rv_term rv) (rv_last_log_index rv) (rv_last_log_term rv) time) as Hvt.
  pose proof (raft_handle_request_vote_wf n (rv_candidate_id rv) (rv_term rv) (rv_last_log_index rv)
    (rv_last_log_term rv) time Hn Hc Ht) as Hw.
  destruct (raft_handle_request_vote _ _ _ _ _ _) as [reply n']. cbn [fst snd] in *.
  destruct (exchanged (RaftRequestVoteResponse (vote_term reply) (vote_granted reply) [])) as (r & rl & Hs & _ & Hx).
  { split; [rewrite Hvt; apply Hw|apply empty_cstr]. }
  { exact I. }
  cbn [serialize deserialize raft_request_vote_response_wire] in Hs, Hx. exists r, rl. rewrite Hs. split; [reflexivity|exact Hx].
Qed.

Lemma append_entries_served (n : node) ae buf len time :
  node_wf n →
  event_ok n (EvAppendEntries (ae_leader_id ae) (RaftMessages.ae_term ae) (ae_prev_log_index ae) (ae_prev_log_term ae)
    (entry_of_wire <$> ae_entries ae) (ae_leader_commit ae) time) →
  deserialize_raft_append_entries (Some buf) len = Ok ae →
  let '(reply, n') := raft_handle_append_entries n (ae_leader_id ae) (RaftMessages.ae_term ae) (ae_prev_log_index ae)
    (ae_prev_log_term ae) (entry_of_wire <$> ae_entries ae) (ae_leader_commit ae) time in
  ∃ response rlen, handle_append_entries_rpc n (Some buf) len true time = Ok (Some (response, rlen), n') ∧
    deserialize_raft_append_entries_response (Some (take rlen response)) rlen =
      Ok (RaftAppendEntriesResponse (RaftCore.ae_term reply) (ae_success reply) [] (ae_last_log_index reply)).
Proof.
  intros Hn He Hd. unfold handle_append_entries_rpc. rewrite Hd, andb_false_r.
  pose proof (append_reply_range n _ _ _ _ _ _ time Hn He) as Hr. cbv zeta in Hr.
  destruct (raft_handle_append_entries _ _ _ _ _ _ _ _) as [reply n']. cbn [fst] in Hr. destruct Hr as [Ht Hl].
  destruct (exchanged (RaftAppendEntriesResponse (RaftCore.ae_term reply) (ae_success reply) [] (ae_last_log_index reply)))
    as (r & rl & Hs & _ & Hx); [split; [exact Ht|split; [apply empty_cstr|exact Hl]]|exact I|].
  cbn [serialize deserialize raft_append_entries_response_wire] in Hs, Hx. exists r, rl. rewrite Hs. split; [reflexivity|exact Hx].
Qed.
End over_wire.

(** ** The loop of the attempts *)

Section loop.
Variable context : raft_rpc_context.
Variable rpc : network.
Variable rq : rpc_request.
Let max_retries := rrc_max_retries (rrx_config context).

(** The first answer that is not an error, if it comes within the attempts, and the
    last answer otherwise. *)
Lemma call_loop_answer k attempt fuel last :
  max_retries < UINT32_MAX → (attempt ≤ k)%nat → Z.of_nat k ≤ max_retries → (k - attempt + 1 < fuel)%nat →
  (∀ j, (attempt ≤ j < k)%nat → an_err (rpc j rq) ≠ 0) →
  an_err (rpc k rq) = 0 ∨ Z.of_nat k = max_retries →
  call_loop context rpc fuel attempt (Z.of_nat attempt) last rq = Some (rpc k rq, S k).
Proof.
  intros Hmax. revert attempt last. induction fuel as [|fuel IH]; intros attempt last Ha Hk Hf Hfail Hend; [lia|].
  cbn [call_loop]. fold max_retries. rewrite (proj2 (Z.leb_le _ _)) by lia.
  destruct (decide (attempt = k)) as [->|].
  - destruct (Z.eqb_spec (an_err (rpc k rq)) 0); [done|]. destruct Hend as [|Hend]; [done|].
    destruct fuel as [|fuel]; [lia|]. cbn [call_loop]. fold max_retries.
    rewrite u32_id by (unfold UINT32_MAX in *; ulia). by rewrite (proj2 (Z.leb_gt _ _)) by lia.
  - rewrite (proj2 (Z.eqb_neq _ _)) by (apply Hfail; lia).
    rewrite u32_id by (unfold UINT32_MAX in *; ulia). replace (Z.of_nat attempt + 1) with (Z.of_nat (S attempt)) by lia.
    apply IH; [lia..| |done]. intros j Hj. apply Hfail. lia.
Qed.

(** Which answer that is. *)
Lemma call_loop_ends fuel last :
  0 ≤ max_retries < UINT32_MAX → (Z.to_nat max_retries + 1 < fuel)%nat →
  ∃ k, Z.of_nat k ≤ max_retries ∧ call_loop context rpc fuel 0 0 last rq = Some (rpc k rq, S k) ∧
    (∀ j, (j < k)%nat → an_err (rpc j rq) ≠ 0) ∧ (an_err (rpc k rq) = 0 ∨ Z.of_nat k = max_retries).
Proof.
  intros Hmax Hf.
  assert (Hk : ∃ k, (k ≤ Z.to_nat max_retries)%nat ∧ (∀ j, (j < k)%nat → an_err (rpc j rq) ≠ 0) ∧
    (an_err (rpc k rq) = 0 ∨ k = Z.to_nat max_retries)).
  { clear Hf. induction (Z.to_nat max_retries) as [|n (k & Hk & Hfail & [Hok| ->])].
    - exists 0%nat. split_and!; [lia|intros; lia|by right].
    - exists k. split_and!; [lia|done|by left].
    - destruct (decide (an_err (rpc n rq) = 0)); [by exists n; auto|].
      exists (S n). split_and!; [done| |by right]. intros j Hj.
      destruct (decide (j = n)) as [->|]; [done|]. apply Hfail. lia. }
  destruct Hk as (k & Hk & Hfail & Hend). exists k.
  assert (Z.of_nat k ≤ max_retries) by lia.
  split_and!; [done| |done|destruct Hend; [by left|right; lia]].
  apply (call_loop_answer k 0); [lia..| |destruct Hend; [by left|right; lia]]. intros j Hj. apply Hfail. lia.
Qed.

(** With [UINT32_MAX] retries the counter wraps around. *)
Lemma call_loop_never fuel attempt retries last :
  max_retries = UINT32_MAX → is_u32 retries → (∀ k, an_err (rpc k rq) ≠ 0) →
  call_loop context rpc fuel attempt retries last rq = None.
Proof.
  intros Hmax. revert attempt retries last. induction fuel as [|fuel IH]; intros attempt retries last Hr Hfail; [done|].
  cbn [call_loop]. fold max_retries. rewrite Hmax, (proj2 (Z.leb_le _ _)) by (unfold UINT32_MAX; ulia).
  rewrite (proj2 (Z.eqb_neq _ _)) by done. apply IH; [apply u32_range|done].
Qed.
End loop.

Section calls_over_wire.
Context {P : Type} `{RaftPersistenceOps P}.
Notation node := (raft_node P).
Variable context : raft_rpc_context.
Variable rpc : network.

(** The handler of the peer that gets the request [rq]. *)
Definition delivered (handler : option (list Z) → nat → result (handler_answer * node)) (rq : rpc_request) (n' : node) :
    Prop :=
  ∃ answer, handler (Some (take (rq_len rq) (rq_buf rq))) (rq_len rq) = Ok (answer, n').

(** A vote that is asked of a node over a network that delivers the [k]-th attempt is
    the vote the core of that node gives. *)
Lemma request_vote_delivered fuel k address port candidate_id term last_log_index last_log_term (n : node) time :
  send_blocked context address port = false → node_wf n →
  is_u32 term → is_u32 last_log_index → is_u32 last_log_term → cstr_fits 63 candidate_id →
  rrc_max_retries (rrx_config context) < UINT32_MAX → Z.of_nat k ≤ rrc_max_retries (rrx_config context) →
  (k + 1 < fuel)%nat → (∀ j rq, (j < k)%nat → an_err (rpc j rq) ≠ 0) →
  (∀ rq, rpc k rq = served (λ r l, handle_request_vote_rpc n r l time) rq) →
  let r := raft_handle_request_vote n candidate_id term last_log_index last_log_term time in
  ∃ rq, raft_rpc_send_request_vote context rpc fuel address port candidate_id term last_log_index last_log_term =
      Ok (Some (Sent 0 (Some r.1) (S k) (Some rq))) ∧
    delivered (λ r l, handle_request_vote_rpc n r l time) rq r.2.
Proof.
  intros Hb Hn Ht Hi Hlt Hc Hmax Hk Hf Hfail Hserved. cbv zeta.
  unfold raft_rpc_send_request_vote. rewrite Hb, take63_fits by done.
  assert (Hr : raft_request_vote_range (RaftRequestVote term candidate_id last_log_index last_log_term)) by done.
  pose proof (exchanged (RaftRequestVote term candidate_id last_log_index last_log_term)) as Hx.
  destruct (Hx Hr I) as (buf & len & Hs & _ & Hd). clear Hx.
  cbn [serialize deserialize raft_request_vote_wire] in Hs, Hd. rewrite Hs.
  set (rq := RpcRequest _ _ _ buf len _). pose proof (request_vote_served n _ _ _ time Hn Hr Hd) as Hh.
  cbn [rv_candidate_id rv_term rv_last_log_index rv_last_log_term] in Hh.
  destruct (raft_handle_request_vote _ _ _ _ _ _) as [reply n'] eqn:E. destruct Hh as (resp & rlen & Hh & Hx).
  assert (Ha : rpc k rq = RpcAnswer 0 (Some (take rlen resp)) rlen).
  { rewrite Hserved. unfold served. cbn [rq_buf rq_len rq]. by rewrite Hh. }
  rewrite (call_loop_answer context rpc rq k 0) by (lia || (intros; apply Hfail; lia) || (left; by rewrite Ha)).
  unfold finish. rewrite Ha. cbn [an_err an_response an_len]. rewrite Hx. exists rq.
  split; [cbn; by destruct reply|by eexists].
Qed.

(** A replication message that is delivered does what the core does with its entries. *)
Lemma append_entries_delivered address port leader_id term prev_log_index prev_log_term entries leader_commit (n : node) time :
  send_blocked context address port = false → node_wf n → cstr_fits 63 leader_id → is_u32 prev_log_term →
  event_ok n (EvAppendEntries leader_id term prev_log_index prev_log_term entries leader_commit time) →
  Forall (λ e, Z.of_nat (length (le_data e)) ≤ 2 ^ 20 - 64) entries → (length entries ≤ 507)%nat →
  (∀ rq, rpc 0%nat rq = served (λ r l, handle_append_entries_rpc n r l true time) rq) →
  let r := raft_handle_append_entries n leader_id term prev_log_index prev_log_term entries leader_commit time in
  ∃ rq, raft_rpc_send_append_entries context rpc true address port leader_id term prev_log_index prev_log_term entries
      leader_commit = Ok (Sent 0 (Some r.1) 1 (Some rq)) ∧
    delivered (λ r l, handle_append_entries_rpc n r l true time) rq r.2.
Proof.
  intros Hb Hn Hl Hpt He Hdata Hcount Hserved. cbv zeta. unfold raft_rpc_send_append_entries.
  rewrite Hb, andb_false_r, take63_fits by done.
  set (m := RaftAppendEntries _ _ _ _ _ _).
  assert (Hback : entry_of_wire <$> (wire_of_entry <$> entries) = entries).
  { destruct He as (_ & _ & Hes & _). rewrite <- list_fmap_compose. clear -Hes.
    induction Hes as [|e es [_ He] _ IH]; [done|]. cbn. by rewrite IH, entry_over_wire. }
  assert (Hr : raft_append_entries_range m).
  { destruct He as (Ht & Hpi & Hes & Hlc & _). split_and!; try done.
    cbn. apply Forall_map. eapply List.Forall_impl; [|exact Hes]. intros e [Hi He]. by apply wire_entry_range. }
  assert (Hfits : raft_append_entries_fits m).
  { split; cbn; [|by rewrite length_map]. apply Forall_map. exact Hdata. }
  pose proof (exchanged m) as Hx.
  destruct (Hx Hr Hfits) as (buf & len & Hs & _ & Hd). clear Hx.
  cbn [serialize deserialize raft_append_entries_wire] in Hs, Hd. rewrite Hs.
  set (rq := RpcRequest _ _ _ buf len _).
  assert (He' : event_ok n (EvAppendEntries (ae_leader_id m) (RaftMessages.ae_term m) (ae_prev_log_index m)
    (ae_prev_log_term m) (entry_of_wire <$> ae_entries m) (ae_leader_commit m) time)).
  { unfold m. cbn [ae_entries ae_leader_id RaftMessages.ae_term ae_prev_log_index ae_prev_log_term ae_leader_commit].
    by rewrite Hback. }
  pose proof (append_entries_served n m _ _ time Hn He' Hd) as Hh. unfold m in Hh.
  cbn [ae_entries ae_leader_id RaftMessages.ae_term ae_prev_log_index ae_prev_log_term ae_leader_commit] in Hh.
  rewrite Hback in Hh. destruct (raft_handle_append_entries _ _ _ _ _ _ _ _) as [reply n'].
  destruct Hh as (resp & rlen & Hh & Hx). exists rq. split; [|by eexists].
  rewrite Hserved. unfold served. cbn [rq_buf rq_len rq]. rewrite Hh. unfold finish.
  cbn [an_err an_response an_len]. rewrite Hx. cbn. by destruct reply.
Qed.
End calls_over_wire.

(** ** Handlers on any payload *)

Section safety.
Context {P : Type} `{RaftPersistenceOps P}.
Notation node := (raft_node P).

Lemma terminated_deserialize `{WireMessageLaws M} mem len :
  terminated mem len →
  (∃ m, deserialize (Some mem) len = Ok m ∧ wire_range m) ∨ (∃ e, deserialize (M := M) (Some mem) len = Err e).
Proof.
  intros Ht. pose proof (wire_total (M := M) mem len Ht) as Hw. destruct (deserialize (Some mem) len) as [m|e|].
  - left. by exists m.
  - right. by exists e.
  - done.
Qed.

(** A payload that is no message is refused and changes nothing; a message is answered. *)
Theorem request_vote_handler_safe (n : node) mem len time :
  node_wf n → terminated mem len →
  ∃ answer n', handle_request_vote_rpc n (Some mem) len time = Ok (answer, n') ∧ node_wf n' ∧
    (answer = None → n' = n ∧ ∃ e, deserialize_raft_request_vote (Some mem) len = Err e).
Proof.
  intros Hn Ht. destruct (terminated_deserialize (M := raft_request_vote) mem len Ht) as [(rv & Hd & Hr)|[e Hd]];
    cbn [deserialize wire_range raft_request_vote_wire] in *.
  - pose proof (request_vote_served n rv mem len time Hn Hr Hd) as Hs. destruct Hr as (Hu & [Hc _] & _).
    pose proof (raft_handle_request_vote_wf n (rv_candidate_id rv) (rv_term rv) (rv_last_log_index rv)
      (rv_last_log_term rv) time Hn Hc Hu) as Hw.
    destruct (raft_handle_request_vote _ _ _ _ _ _) as [reply n']. destruct Hs as (r & rl & -> & _).
    by exists (Some (r, rl)), n'.
  - exists None, n. unfold handle_request_vote_rpc. rewrite Hd. split_and!; [done..|]. by eauto.
Qed.

Theorem append_entries_handler_safe (n : node) mem len time :
  node_wf n → terminated mem len →
  (∀ ae, deserialize_raft_append_entries (Some mem) len = Ok ae →
    event_ok n (EvAppendEntries (ae_leader_id ae) (RaftMessages.ae_term ae) (ae_prev_log_index ae) (ae_prev_log_term ae)
      (entry_of_wire <$> ae_entries ae) (ae_leader_commit ae) time)) →
  ∃ answer n', handle_append_entries_rpc n (Some mem) len true time = Ok (answer, n') ∧ node_wf n' ∧
    (answer = None → n' = n ∧ ∃ e, deserialize_raft_append_entries (Some mem) len = Err e).
Proof.
  intros Hn Ht He. destruct (terminated_deserialize (M := raft_append_entries) mem len Ht) as [(ae & Hd & Hr)|[e Hd]];
    cbn [deserialize wire_range raft_append_entries_wire] in *.
  - specialize (He ae Hd). pose proof (append_entries_served n ae mem len time Hn He Hd) as Hs.
    pose proof (raft_handle_append_entries_wf n _ _ _ _ _ _ time Hn He) as Hw.
    destruct (raft_handle_append_entries _ _ _ _ _ _ _ _) as [reply n']. destruct Hs as (r & rl & -> & _).
    by exists (Some (r, rl)), n'.
  - exists None, n. unfold handle_append_entries_rpc. rewrite Hd. split_and!; [done..|]. by eauto.
Qed.
End safety.

(** ** The client of rpc.c as the network *)

Section client.
Variable context : raft_rpc_context.
Variable client : rpc_client.
Variable envs : nat → call_env.
Hypothesis envs_ok : ∀ i, pool_ok (ce_pool (envs i)).
Let rpc := rpc_client_answer client envs.

Lemma client_answer_fails k rq : (rq_len rq ≤ length (rq_buf rq))%nat → an_err (rpc k rq) ≠ 0.
Proof using envs_ok.
  intros Hl. unfold rpc, rpc_client_answer.
  destruct (rpc_call_fails client (envs k) (rq_type rq) (Some (rq_buf rq)) (rq_len rq) (rq_timeout_ms rq))
    as (o & -> & Hf); [exact Hl|apply envs_ok|]. apply Hf.
Qed.

Lemma finish_fails {A M} decode (out : M → A) rq a attempts :
  an_err a ≠ 0 → finish decode out rq a attempts = Ok (Sent (an_err a) None attempts (Some rq)).
Proof. intros Ha. unfold finish. by rewrite (proj2 (Z.eqb_neq _ _) Ha). Qed.

Lemma request_vote_fails fuel address port candidate_id term last_log_index last_log_term :
  raft_request_vote_range (RaftRequestVote term (take 63 candidate_id) last_log_index last_log_term) →
  0 ≤ rrc_max_retries (rrx_config context) < UINT32_MAX →
  (Z.to_nat (rrc_max_retries (rrx_config context)) + 1 < fuel)%nat →
  ∃ s, raft_rpc_send_request_vote context rpc fuel address port candidate_id term last_log_index last_log_term =
      Ok (Some s) ∧ st_code s ≠ 0 ∧ st_out s = None.
Proof using envs_ok.
  intros Hr Hmax Hf. unfold raft_rpc_send_request_vote.
  destruct (send_blocked _ _ _); [by eexists|].
  pose proof (exchanged (RaftRequestVote term (take 63 candidate_id) last_log_index last_log_term)) as Hx.
  destruct (Hx Hr I) as (buf & len & Hs & Hl & _). cbn [serialize raft_request_vote_wire] in Hs. rewrite Hs.
  set (rq := RpcRequest _ _ _ buf len _).
  destruct (call_loop_ends context rpc rq fuel (RpcAnswer 0 None 0) Hmax Hf) as (k & _ & -> & _).
  rewrite finish_fails by by apply client_answer_fails. cbn [mbind result_bind]. eexists. split; [done|].
  split; [by apply client_answer_fails|done].
Qed.

Lemma append_entries_fails alloc_ok address port leader_id term prev_log_index prev_log_term entries leader_commit :
  let m := RaftAppendEntries term (take 63 leader_id) prev_log_index prev_log_term (wire_of_entry <$> entries) leader_commit in
  raft_append_entries_range m → raft_append_entries_fits m →
  ∃ s, raft_rpc_send_append_entries context rpc alloc_ok address port leader_id term prev_log_index prev_log_term
    entries leader_commit = Ok s ∧ st_code s ≠ 0 ∧ st_out s = None.
Proof using envs_ok.
  intros m Hr Hf. unfold raft_rpc_send_append_entries.
  destruct (send_blocked _ _ _); [by eexists|]. destruct (_ && _); [by eexists|].
  pose proof (exchanged m) as Hx. destruct (Hx Hr Hf) as (buf & len & Hs & Hl & _).
  cbn [serialize raft_append_entries_wire] in Hs. fold m. rewrite Hs.
  rewrite finish_fails by by apply client_answer_fails. eexists. split; [done|]. split; [by apply client_answer_fails|done].
Qed.
End client.

(** ** Properties *)

Section properties.
Context {P : Type} `{RaftPersistenceOps P}.
Notation node := (raft_node P).
Implicit Types n : raft_node P.

(** AppendEntries over the wire is AppendEntries of the core: when the network
    delivers the message and its answer, [raft_rpc_send_append_entries] returns what
    [raft_handle_append_entries] of the peer answers to the very arguments of the call,
    and leaves the peer in the state that function leaves it in. *)
Theorem append_entries_over_wire context rpc address port leader_id term prev_log_index prev_log_term entries
    leader_commit n time :
  send_blocked context address port = false → node_wf n → cstr_fits 63 leader_id → is_u32 prev_log_term →
  event_ok n (EvAppendEntries leader_id term prev_log_index prev_log_term entries leader_commit time) →
  Forall (λ e, Z.of_nat (length (le_data e)) ≤ 2 ^ 20 - 64) entries → (length entries ≤ 507)%nat →
  (∀ rq, rpc 0%nat rq = served (λ r l, handle_append_entries_rpc n r l true time) rq) →
  let r := raft_handle_append_entries n leader_id term prev_log_index prev_log_term entries leader_commit time in
  ∃ rq, raft_rpc_send_append_entries context rpc true address port leader_id term prev_log_index prev_log_term entries
      leader_commit = Ok (Sent 0 (Some r.1) 1 (Some rq)) ∧
    delivered (λ r l, handle_append_entries_rpc n r l true time) rq r.2.
Proof. apply append_entries_delivered. Qed.

(** A vote over the wire is a vote of the core of the peer, whichever attempt arrives. *)
Theorem request_vote_over_wire context rpc fuel k address port candidate_id term last_log_index last_log_term n time :
  send_blocked context address port = false → node_wf n →
  is_u32 term → is_u32 last_log_index → is_u32 last_log_term → cstr_fits 63 candidate_id →
  rrc_max_retries (rrx_config context) < UINT32_MAX → Z.of_nat k ≤ rrc_max_retries (rrx_config context) →
  (k + 1 < fuel)%nat → (∀ j rq, (j < k)%nat → an_err (rpc j rq) ≠ 0) →
  (∀ rq, rpc k rq = served (λ r l, handle_request_vote_rpc n r l time) rq) →
  let r := raft_handle_request_vote n candidate_id term last_log_index last_log_term time in
  ∃ rq, raft_rpc_send_request_vote context rpc fuel address port candidate_id term last_log_index last_log_term =
      Ok (Some (Sent 0 (Some r.1) (S k) (Some rq))) ∧
    delivered (λ r l, handle_request_vote_rpc n r l time) rq r.2.
Proof. apply request_vote_delivered. Qed.

(** With the client of rpc.c as the network no call of the layer succeeds, whatever
    the peers do: a vote is asked at most [max_retries + 1] times, and both functions
    return an error without a reply. *)
Theorem raft_calls_never_succeed context client envs fuel address port :
  (∀ i, pool_ok (ce_pool (envs i))) → 0 ≤ rrc_max_retries (rrx_config context) < UINT32_MAX →
  (Z.to_nat (rrc_max_retries (rrx_config context)) + 1 < fuel)%nat →
  (∀ candidate_id term last_log_index last_log_term,
    raft_request_vote_range (RaftRequestVote term (take 63 candidate_id) last_log_index last_log_term) →
    ∃ s, raft_rpc_send_request_vote context (rpc_client_answer client envs) fuel address port candidate_id term
      last_log_index last_log_term = Ok (Some s) ∧ st_code s ≠ 0 ∧ st_out s = None) ∧
  (∀ leader_id term prev_log_index prev_log_term entries leader_commit,
    let m := RaftAppendEntries term (take 63 leader_id) prev_log_index prev_log_term (wire_of_entry <$> entries)
      leader_commit in
    raft_append_entries_range m → raft_append_entries_fits m →
    ∃ s, raft_rpc_send_append_entries context (rpc_client_answer client envs) true address port leader_id term
      prev_log_index prev_log_term entries leader_commit = Ok s ∧ st_code s ≠ 0 ∧ st_out s = None).
Proof.
  intros Hp Hmax Hf. split.
  - intros. by apply request_vote_fails.
  - intros. by apply append_entries_fails.
Qed.

(** A retry count of [UINT32_MAX] never ends while the peer does not answer. *)
Theorem vote_retries_never_end context rpc fuel address port candidate_id term last_log_index last_log_term :
  rrc_max_retries (rrx_config context) = UINT32_MAX → send_blocked context address port = false →
  raft_request_vote_range (RaftRequestVote term (take 63 candidate_id) last_log_index last_log_term) →
  (∀ k rq, an_err (rpc k rq) ≠ 0) →
  raft_rpc_send_request_vote context rpc fuel address port candidate_id term last_log_index last_log_term = Ok None.
Proof.
  intros Hmax Hb Hr Hfail. unfold raft_rpc_send_request_vote. rewrite Hb.
  pose proof (exchanged (RaftRequestVote term (take 63 candidate_id) last_log_index last_log_term)) as Hx.
  destruct (Hx Hr I) as (buf & len & Hs & _). cbn [serialize raft_request_vote_wire] in Hs. rewrite Hs.
  by rewrite call_loop_never.
Qed.

(** The snapshot handler does not look at the term: what it does, and answers, is the
    same for the message of a leader that was deposed. *)
Theorem stale_snapshot_accepted n mem len mem' len' m m' :
  deserialize_raft_install_snapshot (Some mem) len = Ok m →
  deserialize_raft_install_snapshot (Some mem') len' = Ok m' →
  is_last_included_index m = is_last_included_index m' → is_last_included_term m = is_last_included_term m' →
  is_data m = is_data m' → is_data_len m = is_data_len m' →
  handle_install_snapshot_rpc n (Some mem) len = handle_install_snapshot_rpc n (Some mem') len'.
Proof. intros Hm Hm' Hi Ht Hd Hl. unfold handle_install_snapshot_rpc. by rewrite Hm, Hm', Hi, Ht, Hd, Hl. Qed.
End properties.

(** ** Witnesses *)

Definition example_context : raft_rpc_context :=
  RaftRpcContext (RaftRpcConfig [48] 9000 1000 3) (Some (λ _ port, negb (port =? 7001))) true.

(** The peer is the node "1" of the examples; the first two attempts are lost. *)
Definition example_network : network := λ k rq,
  if (k <? 2)%nat then RpcAnswer (-17) None 0
  else served (λ r l, handle_request_vote_rpc example_node r l (λ _, 10)) rq.
Definition example_replication : network := λ _ rq,
  served (λ r l, handle_append_entries_rpc example_voter r l true (λ _, 20)) rq.
Definition example_entries : list raft_log_entry := [LogEntry 1 1 0 [7; 8]; LogEntry 2 1 2 []].

Lemma example_leader_fits : cstr_fits 63 [51].
Proof. split; [repeat constructor; done|cbn; lia]. Qed.

Lemma example_voter_wf : node_wf example_voter.
Proof.
  pose proof (raft_handle_request_vote_wf example_node [50] 1 0 0 (λ _, 10) example_node_wf) as H.
  rewrite example_vote in H. destruct example_id_ok as (H1 & _ & _ & H2). by apply H.
Qed.

Lemma example_entries_ok time : event_ok example_voter (EvAppendEntries [51] 1 0 0 example_entries 0 time).
Proof.
  split_and!; try done. repeat (apply List.Forall_cons || apply List.Forall_nil).
  all: split; [vm_compute; split; congruence|]; split_and!; try (vm_compute; split; congruence); try done.
  all: by_bytes.
Qed.

Lemma append_entries_over_wire_witness :
  ∃ rq, raft_rpc_send_append_entries example_context example_replication true [49] 7000 [51] 1 0 0 example_entries 0 =
      Ok (Sent 0 (Some (AppendReply true 1 2)) 1 (Some rq)) ∧
    delivered (λ r l, handle_append_entries_rpc example_voter r l true (λ _, 20)) rq
      (raft_handle_append_entries example_voter [51] 1 0 0 example_entries 0 (λ _, 20)).2.
Proof.
  apply (append_entries_over_wire example_context example_replication [49] 7000 [51] 1 0 0 example_entries 0
    example_voter (λ _, 20)).
  - reflexivity.
  - exact example_voter_wf.
  - exact example_leader_fits.
  - done.
  - apply example_entries_ok.
  - repeat constructor; cbn; lia.
  - cbn; lia.
  - reflexivity.
Defined.

Lemma request_vote_over_wire_witness :
  ∃ rq, raft_rpc_send_request_vote example_context example_network 9 [49] 7000 [50] 1 0 0 =
      Ok (Some (Sent 0 (Some (VoteReply true 1)) 3 (Some rq))) ∧
    delivered (λ r l, handle_request_vote_rpc example_node r l (λ _, 10)) rq example_voter.
Proof.
  destruct example_id_ok as (H1 & H2 & _ & H4).
  apply (request_vote_over_wire example_context example_network 9 2 [49] 7000 [50] 1 0 0 example_node (λ _, 10));
    try done; try (cbn; lia).
  - exact example_node_wf.
  - intros j rq Hj. unfold example_network. by rewrite (proj2 (Nat.ltb_lt _ _) Hj).
Defined.

Lemma raft_calls_never_succeed_witness :
  ∃ s, raft_rpc_send_request_vote example_context (rpc_client_answer example_client (λ _, example_env)) 9 [49] 7000
    [50] 1 0 0 = Ok (Some s) ∧ st_code s = 32 ∧ st_attempts s = 4%nat.
Proof.
  destruct (raft_calls_never_succeed example_context example_client (λ _, example_env) 9 [49] 7000) as [H _].
  - intros _. exact example_env_pool_ok.
  - done.
  - cbn; lia.
  - destruct (H [50] 1 0 0) as (s & E & _).
    + destruct example_id_ok as (H1 & H2 & _). by split_and!.
    + exists s. split; [exact E|]. vm_compute in E. injection E as <-. done.
Defined.

Lemma vote_retries_never_end_witness :
  raft_rpc_send_request_vote (RaftRpcContext (RaftRpcConfig [48] 9000 1000 UINT32_MAX) None true)
    (λ _ _, RpcAnswer (-17) None 0) 1000 [49] 7000 [50] 1 0 0 = Ok None.
Proof.
  destruct example_id_ok as (H1 & H2 & _). apply vote_retries_never_end; done.
Defined.

Definition snapshot_bytes (term : Z) : list Z * nat :=
  match serialize_raft_install_snapshot (RaftInstallSnapshot term [51] 5 2 (Some [1; 2]) 2) with
  | Ok (buf, len) => (take len buf, len)
  | _ => ([], 0%nat)
  end.

(** The node is in term 3; the snapshot of term 1 is installed like that of term 3. *)
Lemma stale_snapshot_accepted_witness :
  handle_install_snapshot_rpc (follower_with 3 [1; 1; 2]) (Some (snapshot_bytes 1).1) (snapshot_bytes 1).2 =
  handle_install_snapshot_rpc (follower_with 3 [1; 1; 2]) (Some (snapshot_bytes 3).1) (snapshot_bytes 3).2 ∧
  ∃ answer n', handle_install_snapshot_rpc (follower_with 3 [1; 1; 2]) (Some (snapshot_bytes 1).1) (snapshot_bytes 1).2 =
    Ok (Some answer, n') ∧ commit_index n' = 5 ∧ current_term n' = 3.
Proof.
  split.
  - apply (stale_snapshot_accepted (follower_with 3 [1; 1; 2]) _ _ _ _
      (RaftInstallSnapshot 1 [51] 5 2 (Some [1; 2]) 2) (RaftInstallSnapshot 3 [51] 5 2 (Some [1; 2]) 2));
      try reflexivity; vm_compute; reflexivity.
  - do 2 eexists. split; [vm_compute; reflexivity|]. done.
Defined.
