(* ===== verification/RaftElection.v ===== *)
(** * Elections over the network (libs/distric_raft/src/raft_rpc.c: the broadcast of RequestVote)

    A candidate reads its term and its log, asks all its peers in parallel, and counts
    the votes when all threads are joined.  A thread works on its own argument, so the
    threads are independent; the core of the node goes on meanwhile.  With the votes a
    node keeps ([RaftInvariant.v]) and the calls of [RaftRpc.v], at most one node wins
    the election of a term. *)

From Stdlib Require Import ZArith Lia.
From stdpp Require Import base list numbers option relations.
From S2P Require Import Prelude Binary WireCore RaftMessages RaftLog RaftCore RaftInvariant RpcErrors RpcClient RaftRpc.

Local Open Scope Z_scope.

(** ** The broadcast *)

(** [request_vote_thread_arg_t], the members the thread writes. *)
Record vote_thread := VoteThread {
  vt_vote_granted : bool;
  vt_peer_term : Z;
  vt_completed : bool
}.

(** [request_vote_thread]; [None] when the call has not returned. *)
Definition request_vote_thread (context : raft_rpc_context) (fuel : nat) (rpc : network) (peer : raft_peer)
    (candidate_id : list Z) (term last_log_index last_log_term : Z) : result (option vote_thread) :=
  r ← raft_rpc_send_request_vote context rpc fuel (rp_address peer) (rp_port peer) candidate_id term
        last_log_index last_log_term;
  Ok (match r with
      | None => None
      | Some s =>
          match st_out s with
          | Some reply => Some (VoteThread (vote_granted reply) (vote_term reply) true)
          | None => Some (VoteThread false 0 false)
          end
      end).

(** One turn of the counting loop: the votes and the terms [raft_step_down] is called
    with, in order. *)
Definition count_turn (term : Z) (acc : Z * list Z) (t : vote_thread) : Z * list Z :=
  let '(votes, steps) := acc in
  (if vt_completed t && vt_vote_granted t then u32 (votes + 1) else votes,
   if vt_completed t && (vt_peer_term t >? term) then steps ++ [vt_peer_term t] else steps).

(** The threads of the peers from the [i]-th on, joined in order: all of them were
    created; joining one that was not is undefined. *)
Fixpoint vote_threads (run : nat → raft_peer → result (option vote_thread)) (created : nat → bool) (i : nat)
    (peers : list raft_peer) : result (option (list vote_thread)) :=
  match peers with
  | [] => Ok (Some [])
  | peer :: peers =>
      if created i then
        t ← run i peer;
        ts ← vote_threads run created (S i) peers;
        Ok (match t, ts with Some t, Some ts => Some (t :: ts) | _, _ => None end)
      else Fault
  end.

Section broadcast.
Context {P : Type} `{RaftPersistenceOps P}.
Notation node := (raft_node P).

(** The node when its term, its last index and its last term are read; between these
    readings it is not locked.  The answer is the votes and the calls of
    [raft_step_down]. *)
Definition raft_rpc_broadcast_request_vote (context : raft_rpc_context) (fuel : nat) (calloc_ok : bool)
    (created : nat → bool) (rpc : nat → network) (n_term n_index n_last : node) : result (option (Z * list Z)) :=
  let config := raft_get_config n_term in
  if (peer_count config =? 0)%nat then Ok (Some (1, []))
  else
    let term := raft_get_term n_term in
    let last_log_index := raft_get_last_log_index n_index in
    let last_log_term := raft_get_last_log_term n_last in
    let node_id := raft_get_node_id n_term in
    if negb calloc_ok then Err DISTRIC_ERR_NO_MEMORY
    else
      ts ← vote_threads
             (λ i peer, request_vote_thread context fuel (rpc i) peer (take 63 node_id) term last_log_index last_log_term)
             created 0 (cfg_peers config);
      Ok (option_map (foldl (count_turn term) (1, [])) ts).
End broadcast.

(** ** Counting *)

Definition granted (t : vote_thread) : bool := vt_completed t && vt_vote_granted t.

Lemma count_turns term ts votes steps :
  0 ≤ votes → votes + Z.of_nat (length ts) < 2 ^ 32 →
  (foldl (count_turn term) (votes, steps) ts).1 = votes + Z.of_nat (length (filter granted ts)).
Proof.
  revert votes steps. induction ts as [|t ts IH]; intros votes steps Hv Hm; cbn [foldl count_turn length] in *.
  - cbn. lia.
  - fold (granted t). destruct (granted t) eqn:E.
    + assert (u32 (votes + 1) = votes + 1) as -> by (apply u32_id; ulia).
      rewrite IH, filter_cons_True by (rewrite ?E; done || lia). cbn [length]. lia.
    + rewrite IH, filter_cons_False by (rewrite ?E; by auto || lia). done.
Qed.

(** What the threads return, peer by peer. *)
Lemma vote_threads_spec run created i peers ts :
  vote_threads run created i peers = Ok (Some ts) →
  Forall2 (λ '(j, peer) t, run j peer = Ok (Some t)) (zip (seq i (length peers)) peers) ts.
Proof.
  revert i ts. induction peers as [|peer peers IH]; intros i ts; cbn [vote_threads length seq zip].
  - intros [= <-]. constructor.
  - destruct (created i); [|done]. intros (t & Ht & (ts' & Hts & E)%bind_ok)%bind_ok.
    destruct t as [t|]; [|done]. destruct ts' as [ts'|]; [|done]. injection E as <-.
    constructor; [done|]. by apply IH.
Qed.

(** Two lists of distinct nodes of a cluster of [N] that are longer together than the
    cluster share a node. *)
Lemma quorums_meet (N : nat) (l1 l2 : list nat) :
  base.NoDup l1 → base.NoDup l2 → (∀ c, c ∈ l1 ∨ c ∈ l2 → (c < N)%nat) → (N < length l1 + length l2)%nat →
  ∃ c, c ∈ l1 ∧ c ∈ l2.
Proof.
  intros H1 H2 Hin Hlen.
  destruct (decide (Exists (λ c, c ∈ l2) l1)) as [He|He].
  - apply list.Exists_exists in He as (c & ? & ?). by exists c.
  - exfalso. assert (Hd : base.NoDup (l1 ++ l2)).
    { apply list.NoDup_app. split_and!; [done| |done]. intros c Hc Hc'. apply He, list.Exists_exists. by exists c. }
    assert (Hs : l1 ++ l2 ⊆+ seq 0 N).
    { apply NoDup_submseteq; [done|]. intros c Hc. apply elem_of_seq. apply elem_of_app in Hc. specialize (Hin c Hc). lia. }
    apply submseteq_length in Hs. rewrite length_app, length_seq in Hs. lia.
Qed.

(** The peers whose threads were granted a vote. *)
Definition voters (peers : list nat) (ts : list vote_thread) : list nat := (filter (λ x, granted x.2) (zip peers ts)).*1.

Lemma voters_length peers ts :
  length peers = length ts → length (voters peers ts) = length (filter granted ts).
Proof.
  unfold voters. rewrite length_fmap. revert ts. induction peers as [|p peers IH]; intros [|t ts]; cbn [length]; try done.
  intros [= Hl]. cbn [zip]. destruct (granted t) eqn:E.
  - rewrite !filter_cons_True by (cbn; by rewrite E). cbn [length]. by rewrite IH.
  - rewrite !filter_cons_False by (cbn; rewrite E; auto). by rewrite IH.
Qed.

Lemma voters_sublist peers ts : length peers = length ts → sublist (voters peers ts) peers.
Proof.
  unfold voters. revert ts. induction peers as [|p peers IH]; intros [|t ts]; cbn [length]; try done.
  intros [= Hl]. cbn [zip]. destruct (granted t) eqn:E.
  - rewrite filter_cons_True by (cbn; by rewrite E). cbn. apply sublist_skip. by apply IH.
  - rewrite filter_cons_False by (cbn; rewrite E; auto). apply sublist_cons. by apply IH.
Qed.

Lemma voters_granted peers ts c :
  c ∈ voters peers ts → ∃ i t, peers !! i = Some c ∧ ts !! i = Some t ∧ granted t = true.
Proof.
  unfold voters. intros ([c' t] & -> & Hc)%list_elem_of_fmap. apply list_elem_of_filter in Hc as [Hg Hc].
  apply list_elem_of_lookup in Hc as [i Hi]. apply lookup_zip_Some in Hi as [? ?]. exists i, t. split_and!; [done..|].
  by apply Is_true_true.
Qed.

(** ** A vote that came over the wire *)

Lemma call_loop_some context rpc fuel attempt retries last rq a m :
  call_loop context rpc fuel attempt retries last rq = Some (a, m) → a = last ∨ ∃ k, a = rpc k rq.
Proof.
  revert attempt retries last. induction fuel as [|fuel IH]; intros attempt retries last; [done|]. cbn [call_loop].
  destruct (_ <=? _); [|intros [= <- <-]; by left].
  destruct (an_err (rpc attempt rq) =? 0); [intros [= <- <-]; right; by exists attempt|].
  intros [->|?]%IH; right; [by exists attempt|done].
Qed.

Lemma finish_out {A M} decode (out : M → A) rq a attempts s reply :
  finish decode out rq a attempts = Ok s → st_out s = Some reply →
  an_err a = 0 ∧ ∃ m, decode (an_response a) (an_len a) = Ok m ∧ reply = out m.
Proof.
  unfold finish. destruct (Z.eqb_spec (an_err a) 0) as [Ha|]; cbn [negb]; [|by intros [= <-]].
  destruct (decode _ _) as [m|err|] eqn:E; [|by intros [= <-]|done]. intros [= <-]. cbn. intros [= <-]. by eauto.
Qed.

Lemma thread_granted context fuel rpc peer candidate_id term last_log_index last_log_term t :
  raft_request_vote_range (RaftRequestVote term (take 63 candidate_id) last_log_index last_log_term) →
  request_vote_thread context fuel rpc peer candidate_id term last_log_index last_log_term = Ok (Some t) →
  granted t = true →
  ∃ k rq m, an_err (rpc k rq) = 0 ∧
    deserialize_raft_request_vote (Some (take (rq_len rq) (rq_buf rq))) (rq_len rq) =
      Ok (RaftRequestVote term (take 63 candidate_id) last_log_index last_log_term) ∧
    deserialize_raft_request_vote_response (an_response (rpc k rq)) (an_len (rpc k rq)) = Ok m ∧
    rvr_vote_granted m = true.
Proof.
  intros Hr. unfold request_vote_thread, raft_rpc_send_request_vote.
  intros (o & Ho & Ht)%bind_ok Hg. revert Ho. destruct (send_blocked _ _ _).
  { intros [= <-]. cbn in Ht. injection Ht as <-. done. }
  pose proof (exchanged (RaftRequestVote term (take 63 candidate_id) last_log_index last_log_term)) as Hx.
  destruct (Hx Hr I) as (buf & len & Hs & _ & Hd). clear Hx. cbn [serialize deserialize raft_request_vote_wire] in Hs, Hd.
  rewrite Hs. set (rq := RpcRequest _ _ _ buf len _).
  destruct (call_loop _ _ _ _ _ _ rq) as [[a m]|] eqn:E; [|intros [= <-]; done].
  intros (s & Hs' & [= <-])%bind_ok. injection Ht as Ht.
  destruct (st_out s) as [reply|] eqn:Eo; [|by injection Ht as <-]. injection Ht as <-.
  destruct (finish_out _ _ _ _ _ _ _ Hs' Eo) as (He & m' & Hm & ->).
  apply call_loop_some in E as [->|[k ->]]; [by vm_compute in Hm|]. exists k, rq, m'. by split_and!.
Qed.

(** ** A cluster *)

Section cluster.
Context {P : Type} `{RaftPersistenceOps P}.
Notation node := (raft_node P).

(** Node [i] of [N] is known as [id i]; [history i k] is its core after [k] steps. *)
Variable N : nat.
Variable id : nat → list Z.
Variable history : nat → nat → node.

Record cluster_ok : Prop := {
  cl_id i : (i < N)%nat → cstr_fits 63 (id i) ∧ id i ≠ [];
  cl_inj i j : (i < N)%nat → (j < N)%nat → id i = id j → i = j;
  cl_wf i : (i < N)%nat → node_wf (history i 0);
  cl_step i k : (i < N)%nat → history i (S k) = history i k ∨ vote_step (history i k) (history i (S k));
  cl_own i k : (i < N)%nat → cfg_node_id (nd_config (history i k)) = id i
}.

(** An answer without an error on the way to node [p] is the answer of its handler, whose
    effect is a step of that node. *)
Definition delivers_to (p : nat) (rpc : network) : Prop :=
  ∀ k rq, an_err (rpc k rq) = 0 → ∃ j time,
    rpc k rq = served (λ r l, handle_request_vote_rpc (history p j) r l time) rq ∧
    delivered (λ r l, handle_request_vote_rpc (history p j) r l time) rq (history p (S j)).

(** How node [a] wins the election of term [t]: it read its term when it was [t], its
    broadcast to the others came back with [votes], and it took them, still a candidate
    of that term, for a majority. *)
Record campaign (a : nat) (t : Z) := Campaign {
  wn_peers : list nat;
  wn_context : raft_rpc_context;
  wn_fuel : nat;
  wn_created : nat → bool;
  wn_rpc : nat → network;
  wn_term : nat;
  wn_index : nat;
  wn_last : nat;
  wn_result : nat;
  wn_votes : Z;
  wn_steps : list Z;
  wn_now : Z;
  wn_others : base.NoDup (a :: wn_peers) ∧ (∀ p, p ∈ a :: wn_peers → (p < N)%nat) ∧ length (a :: wn_peers) = N;
  wn_config : peer_count (nd_config (history a wn_term)) = length wn_peers ∧
    nd_config (history a wn_result) = nd_config (history a wn_term);
  wn_delivers i p : wn_peers !! i = Some p → delivers_to p (wn_rpc i);
  wn_read : current_term (history a wn_term) = t;
  wn_broadcast : raft_rpc_broadcast_request_vote wn_context wn_fuel true wn_created wn_rpc (history a wn_term)
    (history a wn_index) (history a wn_last) = Ok (Some (wn_votes, wn_steps));
  wn_candidate : nd_state (history a wn_result) = RAFT_STATE_CANDIDATE ∧ current_term (history a wn_result) = t;
  wn_leader : nd_state (raft_process_election_result (history a wn_result) wn_votes wn_now) = RAFT_STATE_LEADER
}.

(** Node [c] voted for [x] in term [t]. *)
Definition voted (c x : nat) (t : Z) : Prop :=
  ∃ k, current_term (history c k) = t ∧ voted_for (history c k) = id x.

Section facts.
Hypothesis ok : cluster_ok.

Lemma history_steps i k d : (i < N)%nat → rtc vote_step (history i k) (history i (k + d)).
Proof using ok.
  intros Hi. induction d as [|d IH]; [by rewrite Nat.add_0_r|].
  transitivity (history i (k + d)); [exact IH|]. rewrite Nat.add_succ_r.
  destruct (cl_step ok i (k + d) Hi) as [->|Hs]; [done|by apply rtc_once].
Qed.

Lemma history_wf i k : (i < N)%nat → node_wf (history i k).
Proof using ok.
  intros Hi. pose proof (history_steps i 0 k Hi) as Hs. by eapply vote_steps_kept, cl_wf.
Qed.

Lemma voted_once c x y t :
  (c < N)%nat → (x < N)%nat → (y < N)%nat → voted c x t → voted c y t → x = y.
Proof using ok.
  intros Hc Hx Hy (k & Ht & Hv) (k' & Ht' & Hv'). apply (cl_inj ok); [done..|].
  assert (Hle : ∀ k k' x y, (k ≤ k')%nat → (x < N)%nat →
    current_term (history c k) = t → voted_for (history c k) = id x →
    current_term (history c k') = t → voted_for (history c k') = id y → id x = id y).
  { clear k k' x y Hx Hy Ht Hv Ht' Hv'. intros k k' x y Hk Hx Ht Hv Ht' Hv'.
    pose proof (history_steps c k (k' - k) Hc) as Hs. replace (k + (k' - k))%nat with k' in Hs by lia.
    destruct (vote_steps_kept _ _ Hs (history_wf c k Hc)) as [_ [Hlt|[_ [Hn|Hsame]]]]; [lia| |congruence].
    exfalso. by apply (cl_id ok x Hx); congruence. }
  destruct (le_ge_dec k k'); [by eapply Hle|symmetry; by eapply Hle].
Qed.

Lemma log_last_term_u32 log : log_wf log → is_u32 (log_last_term log).
Proof.
  intros [[_ Hb] _ _ He]. unfold log_last_term. destruct (list.last (log_entries log)) as [e|] eqn:E; [|done].
  apply last_Some in E as [l El]. rewrite El in He. apply Forall_app in He as [_ He].
  by apply Forall_cons_iff in He as [[? _] _].
Qed.

(** Every vote that is counted was cast. *)
Lemma granted_voted a p rpc context fuel peer t n_index n_last vt :
  (a < N)%nat → (p < N)%nat → is_u32 t → delivers_to p rpc →
  request_vote_thread context fuel rpc peer (take 63 (id a)) t
    (raft_get_last_log_index (history a n_index)) (raft_get_last_log_term (history a n_last)) = Ok (Some vt) →
  granted vt = true → voted p a t.
Proof using ok.
  intros Ha Hp Ht Hdel Hrun Hg.
  destruct (cl_id ok a Ha) as [Hid Hne]. rewrite take63_fits in Hrun by done.
  assert (Hr : raft_request_vote_range (RaftRequestVote t (take 63 (id a))
    (raft_get_last_log_index (history a n_index)) (raft_get_last_log_term (history a n_last)))).
  { rewrite take63_fits by done. split_and!; try apply Ht; try apply Hid;
      first [apply log_last_index_u32 | apply log_last_term_u32]; by apply wf_log, history_wf. }
  destruct (thread_granted _ _ _ _ _ _ _ _ _ Hr Hrun Hg) as (k & rq & m & He & Hd & Hm & Hgr).
  destruct (Hdel k rq He) as (j & time & Hserved & (answer & Hh)).
  pose proof (request_vote_served (history p j) _ _ _ time (history_wf p j Hp) Hr Hd) as Hs.
  cbn [rv_term rv_candidate_id rv_last_log_index rv_last_log_term] in Hs.
  destruct (raft_handle_request_vote _ _ _ _ _ _) as [reply n'] eqn:Ev.
  destruct Hs as (resp & rlen & Hh' & Hx). rewrite Hh' in Hh. injection Hh as <- Hn'.
  rewrite Hserved in Hm. unfold served in Hm. rewrite Hh' in Hm. cbn [an_response an_len] in Hm.
  rewrite Hx in Hm. injection Hm as <-. cbn [rvr_vote_granted] in Hgr. destruct reply as [g t']. cbn in Hgr. subst g.
  destruct (vote_granted_spec _ _ _ _ _ _ _ _ Ev) as (_ & Hct & Hvf & _). exists (S j). rewrite <- Hn'.
  split; [done|]. rewrite Hvf. unfold str63. by rewrite !take63_fits by (rewrite ?take63_fits; done).
Qed.

(** The nodes that voted for the winner are a majority, itself among them. *)
Lemma campaign_quorum a t (c : campaign a t) :
  Z.of_nat N < 2 ^ 30 →
  ∃ l, base.NoDup l ∧ (∀ p, p ∈ l → (p < N)%nat ∧ voted p a t) ∧ (N < 2 * length l)%nat.
Proof using ok.
  intros Hsmall. destruct c as [peers ctx fuel created rpc kt ki kl kr votes steps now [Hnd [Hin Hlen]]
    [Hcount Hcfg] Hdel Hread Hb [Hcand Hterm] Hlead].
  assert (Ha : (a < N)%nat) by (apply Hin; left).
  assert (Hself : voted a a t).
  { exists kr. split; [done|]. rewrite (wf_self _ (history_wf a kr Ha)) by congruence. by apply (cl_own ok). }
  assert (Hmaj : Z.of_nat N / 2 + 1 ≤ votes).
  { revert Hlead. unfold raft_process_election_result. rewrite Hcand, Hcfg, Hcount.
    replace (Z.of_nat (length peers) + 1) with (Z.of_nat N) by (cbn [length] in Hlen; lia).
    rewrite (u32_id (Z.of_nat N)) by ulia. rewrite u32_id by ulia.
    destruct (Z.geb_spec votes (Z.of_nat N / 2 + 1)); [lia|]. intros E. congruence. }
  unfold raft_rpc_broadcast_request_vote, raft_get_config in Hb. rewrite Hcount in Hb.
  destruct (Nat.eqb_spec (length peers) 0) as [H0|Hpos].
  { injection Hb as <- <-. exists [a]. split_and!; [apply list.NoDup_singleton| |cbn [length] in *; lia].
    intros p ->%list_elem_of_singleton. done. }
  apply bind_ok in Hb as (ts & Hts & E). destruct ts as [ts|]; [|done]. cbn [option_map] in E. injection E as E.
  apply vote_threads_spec in Hts. unfold raft_get_term in Hts, E. rewrite Hread in Hts, E.
  assert (Hlts : length peers = length ts).
  { apply Forall2_length in Hts. rewrite length_zip, length_seq in Hts. unfold peer_count in Hcount. lia. }
  exists (a :: voters peers ts). split_and!.
  - apply list.NoDup_cons in Hnd as [Hna Hnd]. pose proof (voters_sublist peers ts Hlts) as Hsub.
    apply list.NoDup_cons. split; [|by eapply sublist_NoDup].
    intros Hv. apply Hna. exact (elem_of_sublist _ _ _ Hv Hsub).
  - intros p [->|Hp]%elem_of_cons; [done|]. apply voters_granted in Hp as (i & vt & Hpi & Hvt & Hg).
    assert (Hp : (p < N)%nat) by (apply Hin; right; by eapply list_elem_of_lookup_2). split; [done|].
    destruct (Forall2_lookup_r _ _ _ _ _ Hts Hvt) as ([j peer] & Hz & Hrun).
    apply lookup_zip_Some in Hz as [Hj _]. apply lookup_seq in Hj as [-> _].
    eapply (granted_voted a p); [done|done| |by apply Hdel| |done].
    + rewrite <- Hread. by apply history_wf.
    + unfold raft_get_node_id in Hrun. rewrite (cl_own ok) in Hrun by done. exact Hrun.
  - assert (Hv : votes = 1 + Z.of_nat (length (voters peers ts))).
    { rewrite voters_length by done. rewrite <- (count_turns t ts 1 []) by (cbn [length] in Hlen; ulia). by rewrite E. }
    pose proof (Z.mul_succ_div_gt (Z.of_nat N) 2 ltac:(lia)). cbn [length]. lia.
Qed.

End facts.
End cluster.

(** ** Theorems *)

(** Election safety: in a cluster whose nodes run the core under
    any events (but the AppendEntries that makes a candidate forget its vote), on a
    network that loses and delays what it likes but delivers only answers of handlers,
    two nodes that win the election of the same term are the same node, when the votes
    each counts were asked for in that term: the code does not check the term of an
    election it ends ([raft_process_election_result]).  The network stands for one that
    works; over rpc.c as it is no answer arrives and no node of two or more is elected
    ([no_leader_elected]). *)
Theorem election_safety {P} `{RaftPersistenceOps P} (N : nat) (id : nat → list Z) (history : nat → nat → raft_node P) a b t :
  cluster_ok N id history → Z.of_nat N < 2 ^ 30 →
  campaign N history a t → campaign N history b t → a = b.
Proof.
  intros ok HN ca cb.
  assert (Ha : (a < N)%nat) by (apply (wn_others _ _ _ _ ca); left).
  assert (Hb : (b < N)%nat) by (apply (wn_others _ _ _ _ cb); left).
  destruct (campaign_quorum _ _ _ ok a t ca HN) as (l1 & Hn1 & H1 & Hl1).
  destruct (campaign_quorum _ _ _ ok b t cb HN) as (l2 & Hn2 & H2 & Hl2).
  destruct (quorums_meet N l1 l2) as (c & Hc1 & Hc2); [done|done|intros c [?|?]; [by apply H1|by apply H2]|lia|].
  destruct (H1 c Hc1) as [Hc Hv1]. destruct (H2 c Hc2) as [_ Hv2]. by eapply (voted_once N id history ok c).
Qed.

(** ** A concrete election

    Three nodes; the first becomes a candidate, the second votes for it, the third
    cannot be reached. *)

Definition cluster_id (i : nat) : list Z := [49 + Z.of_nat i].
Definition cluster_peer (i : nat) : raft_peer := RaftPeer (cluster_id i) [65] (7000 + Z.of_nat i) 0 0 0 false.
Definition cluster_others (i : nat) : list nat := filter (λ j, j ≠ i) [0; 1; 2]%nat.
Definition cluster_node (i : nat) : raft_node mem_store :=
  RaftNode (RaftConfig (cluster_id i) (cluster_peer <$> cluster_others i) 150 300 50 10000 None true true)
    0 [] raft_log_init 0 0 [0; 0] [0; 0] RAFT_STATE_FOLLOWER [] 200 0 0 0 None true [] [].

Definition cluster_candidate : raft_node mem_store :=
  Eval vm_compute in
    match handle (cluster_node 0) (EvTick (λ _, 1000) 7) with Ok n => n | _ => cluster_node 0 end.
Definition cluster_voter : raft_node mem_store :=
  Eval vm_compute in (raft_handle_request_vote (cluster_node 1) [49] 1 0 0 (λ _, 1001)).2.
Definition cluster_leader : raft_node mem_store :=
  Eval vm_compute in raft_process_election_result cluster_candidate 2 1002.

Definition cluster_history (i k : nat) : raft_node mem_store :=
  match i, k with
  | 0%nat, 0%nat => cluster_node 0
  | 0%nat, 1%nat => cluster_candidate
  | 0%nat, _ => cluster_leader
  | 1%nat, 0%nat => cluster_node 1
  | 1%nat, _ => cluster_voter
  | _, _ => cluster_node i
  end.

Definition cluster_context : raft_rpc_context := RaftRpcContext (RaftRpcConfig [48] 7000 1000 0) None true.

(** The request of the candidate. *)
Definition cluster_request : list Z * nat :=
  Eval vm_compute in
    match serialize_raft_request_vote (RaftRequestVote 1 [49] 0 0) with Ok r => r | _ => ([], 0%nat) end.

Definition cluster_network (i k : nat) (rq : rpc_request) : rpc_answer :=
  if bool_decide (i = 0%nat ∧ (rq_buf rq, rq_len rq) = cluster_request)
  then served (λ r l, handle_request_vote_rpc (cluster_node 1) r l (λ _, 1001)) rq
  else RpcAnswer (-14) None 0.

Lemma cluster_node_wf i : (i < 3)%nat → node_wf (cluster_node i).
Proof.
  intros Hi. destruct i as [|[|[|i]]]; [..|lia]; (split; simpl; try done; try (split; repeat constructor; done)).
Qed.

Lemma cluster_history_ok : cluster_ok 3 cluster_id cluster_history.
Proof.
  split.
  - intros i Hi. split; [|done]. split; [|cbn; lia].
    repeat (constructor; [lia|]). constructor.
  - intros i j _ _ [= E]. lia.
  - intros i Hi. destruct i as [|[|i]]; by apply cluster_node_wf.
  - intros i k Hi. destruct i as [|[|i]]; destruct k as [|[|k]]; try (by left); right.
    + exists (EvTick (λ _, 1000) 7). split_and!; try done. by vm_compute.
    + exists (EvElectionResult 2 1002). split_and!; try done. by vm_compute.
    + exists (EvRequestVote [49] 1 0 0 (λ _, 1001)). split_and!; try done; [repeat constructor; lia|by vm_compute].
  - intros i k Hi. destruct i as [|[|i]]; destruct k as [|[|k]]; try done.
Qed.

Lemma cluster_delivers i p : cluster_others 0 !! i = Some p → delivers_to cluster_history p (cluster_network i).
Proof.
  intros Hp k rq. unfold cluster_network. case_bool_decide as Hd; [|done]. destruct Hd as [-> Hrq]. intros _.
  injection Hp as <-. exists 0%nat, (λ _, 1001). split; [done|]. unfold delivered.
  injection Hrq as -> ->. eexists. vm_compute. reflexivity.
Qed.

Definition cluster_campaign : campaign 3 cluster_history 0 1.
Proof.
  refine (Campaign _ _ 0 1 [1; 2]%nat cluster_context 4 (λ _, true) cluster_network 1 1 1 1 2 [] 1002
    _ _ cluster_delivers _ _ _ _); [|done|done|by vm_compute|done|by vm_compute].
  split_and!; [apply (bool_decide_unpack _); by vm_compute| |done].
  intros p Hp. repeat (apply elem_of_cons in Hp as [->|Hp]; [lia|]). by apply elem_of_nil in Hp.
Defined.

Lemma election_safety_witness :
  nd_state (raft_process_election_result (cluster_history 0 1) 2 1002) = RAFT_STATE_LEADER ∧
  (∀ b, campaign 3 cluster_history b 1 → b = 0%nat).
Proof.
  split; [by vm_compute|]. intros b cb.
  exact (election_safety 3 cluster_id cluster_history b 0 1 cluster_history_ok ltac:(done) cb cluster_campaign).
Defined.

(** ** Elections with the client of rpc.c *)

Lemma vote_threads_all run created i peers t :
  (∀ j, created j = true) → (∀ j peer, run j peer = Ok (Some t)) →
  vote_threads run created i peers = Ok (Some (replicate (length peers) t)).
Proof.
  intros Hc Hr. revert i. induction peers as [|p peers IH]; intros i; [done|]. cbn [vote_threads length replicate].
  rewrite Hc, Hr, IH. done.
Qed.

Lemma count_none term k acc : foldl (count_turn term) acc (replicate k (VoteThread false 0 false)) = acc.
Proof. induction k; [by destruct acc|]. cbn. by destruct acc. Qed.

(** With the client of rpc.c as the network no election of a cluster of two nodes or
    more is ever won: whatever its peers do, the broadcast of a candidate comes back
    with its own vote alone, and the candidate stays one. *)
Theorem no_leader_elected {P} `{RaftPersistenceOps P} (n n_index n_last n' : raft_node P) context fuel client envs now :
  node_wf n → node_wf n_index → node_wf n_last → (∀ i k, pool_ok (ce_pool (envs i k))) →
  0 ≤ rrc_max_retries (rrx_config context) < UINT32_MAX →
  (Z.to_nat (rrc_max_retries (rrx_config context)) + 1 < fuel)%nat →
  (0 < peer_count (nd_config n))%nat → nd_config n' = nd_config n →
  raft_rpc_broadcast_request_vote context fuel true (λ _, true) (λ i, rpc_client_answer client (envs i))
    n n_index n_last = Ok (Some (1, [])) ∧
  raft_process_election_result n' 1 now = n'.
Proof.
  intros Hn Hi Hl Hp Hmax Hf Hpos Hcfg. pose proof (wf_config _ Hn) as (Hc & Hlen & _ & Hsmall). split.
  - unfold raft_rpc_broadcast_request_vote, raft_get_config. rewrite (proj2 (Nat.eqb_neq _ _)) by lia. cbn [negb].
    rewrite (vote_threads_all _ _ _ _ (VoteThread false 0 false)); [|done|].
    + cbn [mbind result_bind option_map]. by rewrite count_none.
    + intros j peer. unfold request_vote_thread.
      destruct (request_vote_fails context client (envs j) (Hp j) fuel (rp_address peer) (rp_port peer)
        (take 63 (raft_get_node_id n)) (raft_get_term n) (raft_get_last_log_index n_index)
        (raft_get_last_log_term n_last)) as (s & -> & _ & Hs); [|done|done|].
      * unfold raft_get_node_id. rewrite !take63_fits by (rewrite ?take63_fits; by split). split_and!; try done;
          first [apply wf_term | apply log_last_index_u32, wf_log | apply log_last_term_u32, wf_log]; done.
      * cbn [mbind result_bind]. by rewrite Hs.
  - unfold raft_process_election_result. rewrite Hcfg. destruct (nd_state n'); [done| |done].
    rewrite u32_id by ulia. rewrite u32_id by (pose proof (Z.div_le_upper_bound (Z.of_nat (peer_count (nd_config n)) + 1) 2 (2 ^ 30)); pose proof (Z.div_pos (Z.of_nat (peer_count (nd_config n)) + 1) 2); ulia).
    pose proof (Z.div_le_lower_bound (Z.of_nat (peer_count (nd_config n)) + 1) 2 1).
    destruct (Z.geb_spec 1 ((Z.of_nat (peer_count (nd_config n)) + 1) / 2 + 1)); [lia|done].
Qed.

Lemma no_leader_elected_witness :
  raft_rpc_broadcast_request_vote cluster_context 4 true (λ _, true)
    (λ i, rpc_client_answer RpcClient.example_client (λ _, RpcClient.example_env))
    cluster_candidate cluster_candidate cluster_candidate = Ok (Some (1, [])) ∧
  raft_process_election_result cluster_candidate 1 1002 = cluster_candidate.
Proof.
  assert (Hw : node_wf cluster_candidate).
  { apply (history_wf 3 cluster_id cluster_history cluster_history_ok 0 1). lia. }
  apply (no_leader_elected cluster_candidate cluster_candidate cluster_candidate cluster_candidate cluster_context 4
    RpcClient.example_client (λ _ _, RpcClient.example_env) 1002); try done; try (cbn; lia).
  intros i k. exact RpcClient.example_env_pool_ok.
Defined.
