(* ===== verification/RaftBroadcast.v ===== *)
(** * Replication over the network (libs/distric_raft/src/raft_rpc.c: the broadcast of AppendEntries)

    One thread per peer reads what it sends from the core, each reading under its own
    lock, sends it and records the answer.  The threads of a broadcast and the other
    threads of the node interleave between these turns. *)

From Stdlib Require Import ZArith Lia.
From stdpp Require Import base list numbers option relations.
From S2P Require Import Prelude Binary WireCore RaftMessages RaftLog RaftCore RaftInvariant RaftExamples.
From S2P Require Import RaftReplication RaftConvergence RpcErrors RaftRpc.

Local Open Scope Z_scope.

(** ** A thread *)

(** Where [append_entries_thread] stands, with what it has read. *)
Inductive append_phase :=
  | ApStart
  | ApNext (next_index : Z)
  | ApLast (next_index last_log_index : Z)
  | ApEntries (next_index : Z) (entries : list raft_log_entry)
  | ApPrev (next_index : Z) (entries : list raft_log_entry) (prev_log_term : Z)
  | ApTerm (next_index : Z) (entries : list raft_log_entry) (prev_log_term term : Z)
  | ApCommit (next_index : Z) (entries : list raft_log_entry) (prev_log_term term leader_commit : Z)
  | ApReplied (term : Z) (answer : sent append_reply)
  | ApDone (completed : bool).

(** What the outside decides during a turn: whether the arrays are allocated, and the
    clock. *)
Record append_env := AppendEnv {
  av_entries_ok : bool;   (* raft_get_log_entries *)
  av_wire_ok : bool;      (* raft_rpc_send_append_entries *)
  av_now : Z
}.

Definition prev_index (next_index : Z) : Z := if next_index >? 1 then next_index - 1 else 0.

Section thread.
Context {P : Type} `{RaftPersistenceOps P}.
Notation node := (raft_node P).

(** The answer is recorded. *)
Definition record_answer (peer_index : nat) (now term : Z) (answer : sent append_reply) (n : node) : node * bool :=
  match st_out answer with
  | Some reply =>
      (if ae_success reply then
         (raft_update_peer_indices n peer_index (u32 (ae_last_log_index reply + 1)) (ae_last_log_index reply)).2
       else if RaftCore.ae_term reply >? term then raft_step_down n (RaftCore.ae_term reply) now
       else (raft_decrement_peer_next_index n peer_index).2, true)
  | None => (n, false)
  end.

(** One turn of [append_entries_thread]: a call of the core, or the call over the network. *)
Definition append_turn_step (context : raft_rpc_context) (rpc : network) (peer : raft_peer) (peer_index : nat)
    (e : append_env) (n : node) (ph : append_phase) : result (node * append_phase) :=
  match ph with
  | ApStart => Ok (n, ApNext (raft_get_peer_next_index n peer_index))
  | ApNext next => Ok (n, ApLast next (raft_get_last_log_index n))
  | ApLast next last =>
      Ok (n, ApEntries next
               (if (next <=? last) && av_entries_ok e then raft_get_log_entries n next (u32 (last + 1)) else []))
  | ApEntries next entries =>
      Ok (n, ApPrev next entries (if prev_index next >? 0 then raft_get_log_term n (prev_index next) else 0))
  | ApPrev next entries prev_log_term => Ok (n, ApTerm next entries prev_log_term (raft_get_term n))
  | ApTerm next entries prev_log_term term =>
      Ok (n, ApCommit next entries prev_log_term term (raft_get_commit_index n))
  | ApCommit next entries prev_log_term term leader_commit =>
      answer ← raft_rpc_send_append_entries context rpc (av_wire_ok e) (rp_address peer) (rp_port peer)
                 (raft_get_node_id n) term (prev_index next) prev_log_term entries leader_commit;
      Ok (n, ApReplied term answer)
  | ApReplied term answer =>
      let '(n, completed) := record_answer peer_index (av_now e) term answer n in
      Ok (n, ApDone completed)
  | ApDone completed => Ok (n, ApDone completed)
  end.

(** ** The broadcast *)

Record broadcast := Broadcast {
  bc_node : node;
  bc_threads : list append_phase
}.

(** [raft_rpc_broadcast_append_entries] up to the creation of the threads; without peers
    it is done. *)
Definition raft_rpc_broadcast_append_entries (calloc_ok : bool) (created : nat → bool) (n : node) : result broadcast :=
  let count := peer_count (raft_get_config n) in
  if (count =? 0)%nat then Ok (Broadcast n [])
  else if negb calloc_ok then Err DISTRIC_ERR_NO_MEMORY
  else if forallb created (seq 0 count) then Ok (Broadcast n (replicate count ApStart))
  else Fault.

Definition thread_done (ph : append_phase) : bool := match ph with ApDone _ => true | _ => false end.

(** It returns when all the threads can be joined. *)
Definition broadcast_done (b : broadcast) : bool :=
  forallb thread_done (bc_threads b).

(** A turn of thread [j], or a step of another thread of the node; the number is that of
    the turns of the threads of the broadcast. *)
Inductive broadcast_step (context : raft_rpc_context) (rpc : nat → network) : nat → broadcast → broadcast → Prop :=
  | BcThread j e peer n n' ts ph ph' :
      cfg_peers (nd_config n) !! j = Some peer → ts !! j = Some ph → thread_done ph = false →
      append_turn_step context (rpc j) peer j e n ph = Ok (n', ph') →
      broadcast_step context rpc 1 (Broadcast n ts) (Broadcast n' (<[j := ph']> ts))
  | BcOther n n' ts :
      raft_step n n' → broadcast_step context rpc 0 (Broadcast n ts) (Broadcast n' ts).

Inductive broadcast_run (context : raft_rpc_context) (rpc : nat → network) : nat → broadcast → broadcast → Prop :=
  | BrNow b : broadcast_run context rpc 0 b b
  | BrStep k k' b b1 b' :
      broadcast_step context rpc k b b1 → broadcast_run context rpc k' b1 b' → broadcast_run context rpc (k + k') b b'.

(** The thread of peer [peer_index] while no other thread runs. *)
Fixpoint quiet_turns (context : raft_rpc_context) (rpc : network) (peer : raft_peer) (peer_index : nat)
    (e : append_env) (k : nat) (n : node) (ph : append_phase) : result (node * append_phase) :=
  match k with
  | O => Ok (n, ph)
  | S k =>
      '(n, ph) ← append_turn_step context rpc peer peer_index e n ph;
      quiet_turns context rpc peer peer_index e k n ph
  end.
End thread.
Arguments broadcast P : clear implicits.

(** ** Any interleaving *)

Section interleaving.
Context {P : Type} `{RaftPersistenceOps P}.
Notation node := (raft_node P).

(** The answers that can be decoded have members in the range of their types. *)
Definition network_sane (rpc : network) : Prop :=
  ∀ k rq m, an_err (rpc k rq) = 0 →
    deserialize_raft_append_entries_response (an_response (rpc k rq)) (an_len (rpc k rq)) = Ok m →
    raft_append_entries_response_range m.

Definition answer_ok (a : sent append_reply) : Prop :=
  ∀ r, st_out a = Some r → is_u32 (RaftCore.ae_term r) ∧ is_u32 (ae_last_log_index r).
Definition phase_ok (ph : append_phase) : Prop :=
  match ph with ApReplied _ a => answer_ok a | _ => True end.

(** The turns a thread has left. *)
Definition turns_left (ph : append_phase) : nat :=
  match ph with
  | ApStart => 8 | ApNext _ => 7 | ApLast _ _ => 6 | ApEntries _ _ => 5 | ApPrev _ _ _ => 4 | ApTerm _ _ _ _ => 3
  | ApCommit _ _ _ _ _ => 2 | ApReplied _ _ => 1 | ApDone _ => 0
  end.
Definition all_left (ts : list append_phase) : nat := foldr Nat.add 0%nat (turns_left <$> ts).

Lemma answer_sane context rpc alloc address port leader_id term pi pt entries lc a :
  network_sane rpc →
  raft_rpc_send_append_entries context rpc alloc address port leader_id term pi pt entries lc = Ok a → answer_ok a.
Proof.
  intros Hs. unfold raft_rpc_send_append_entries. destruct (send_blocked _ _ _); [by intros [= <-]|].
  destruct (_ && _); [by intros [= <-]|]. destruct (serialize_raft_append_entries _) as [[buf len]|e|]; [|by intros [= <-]|done].
  set (rq := RpcRequest _ _ _ _ _ _). unfold finish.
  destruct (Z.eqb_spec (an_err (rpc 0%nat rq)) 0) as [He|]; cbn [negb]; [|by intros [= <-]].
  destruct (deserialize_raft_append_entries_response _ _) as [m|e|] eqn:Ed; [|by intros [= <-]|done].
  intros [= <-] r [= <-]. destruct (Hs 0%nat rq m He Ed) as (? & _ & ?). done.
Qed.

(** What a thread records is a step of the node in the sense of [handle]. *)
Lemma record_answer_wf i now term a (n : node) :
  node_wf n → answer_ok a →
  node_wf (record_answer i now term a n).1 ∧ current_term n ≤ current_term (record_answer i now term a n).1.
Proof.
  intros Hn Ha. unfold record_answer. destruct (st_out a) as [r|] eqn:Er; [|by split].
  destruct (Ha r Er) as [Ht Hl]. destruct (ae_success r); [|destruct (_ >? term)]; cbn [fst].
  - split; [apply (handle_wf n (EvUpdatePeer i (u32 (ae_last_log_index r + 1)) (ae_last_log_index r)));
      [done|split; [apply u32_range|done]|done]|].
    unfold raft_update_peer_indices. by case_match.
  - split; [by apply raft_step_down_wf|]. unfold raft_step_down.
    destruct (Z.gtb_spec (RaftCore.ae_term r) (current_term n)); [|done]. rewrite transition_to_follower_term. lia.
  - split; [by apply (handle_wf n (EvDecrement i))|]. unfold raft_decrement_peer_next_index, decrement_next.
    by repeat case_match.
Qed.

Lemma append_turn_keeps context rpc peer j e (n n' : node) ph ph' :
  network_sane rpc → append_turn_step context rpc peer j e n ph = Ok (n', ph') → node_wf n → phase_ok ph →
  node_wf n' ∧ current_term n ≤ current_term n' ∧ phase_ok ph' ∧ turns_left ph' = Nat.pred (turns_left ph).
Proof.
  intros Hs. destruct ph; cbn [append_turn_step]; intros E Hn Hph; simplify_eq; try by split_and!.
  - apply bind_ok in E as (a & Ha & E). simplify_eq. split_and!; try done. by eapply answer_sane.
  - pose proof (record_answer_wf j (av_now e) term answer n Hn Hph) as [Hw Ht].
    destruct (record_answer _ _ _ _ _) as [m c]. cbn [fst] in *. by simplify_eq.
Qed.

Lemma all_left_cons t ts : all_left (t :: ts) = (turns_left t + all_left ts)%nat.
Proof. done. Qed.

Lemma all_left_insert ts j ph ph' :
  ts !! j = Some ph → (all_left (<[j := ph']> ts) + turns_left ph = all_left ts + turns_left ph')%nat.
Proof.
  revert j. induction ts as [|t ts IH]; intros [|j] Hj; try done; cbn in Hj.
  - simplify_eq. change (<[0%nat := ph']> (ph :: ts)) with (ph' :: ts). rewrite !all_left_cons. lia.
  - change (<[S j := ph']> (t :: ts)) with (t :: <[j := ph']> ts). rewrite !all_left_cons. specialize (IH j Hj). lia.
Qed.

Lemma all_left_done ts :
  all_left ts = 0%nat ↔ forallb thread_done ts = true.
Proof.
  induction ts as [|t ts IH]; [done|]. rewrite all_left_cons. cbn [forallb]. rewrite andb_true_iff, <- IH.
  destruct t; cbn [turns_left thread_done]; (split; [intros E|intros [E1 E2]]); (done || lia || (split; [done|lia])).
Qed.

Definition broadcast_wf (b : broadcast P) : Prop := node_wf (bc_node b) ∧ Forall phase_ok (bc_threads b).

Lemma broadcast_step_keeps context rpc k (b b' : broadcast P) :
  (∀ j, network_sane (rpc j)) → broadcast_step context rpc k b b' → broadcast_wf b →
  broadcast_wf b' ∧ current_term (bc_node b) ≤ current_term (bc_node b') ∧
  (k + all_left (bc_threads b') = all_left (bc_threads b))%nat.
Proof.
  intros Hs Hstep [Hn Hts]. destruct Hstep as [j e peer n n' ts ph ph' Hp Hph Hd E|n n' ts (ev & Hev & Hlt & Hh)];
    cbn [bc_node bc_threads] in *.
  - destruct (append_turn_keeps _ _ _ _ _ _ _ _ _ (Hs j) E Hn (Forall_lookup_1 _ _ _ _ Hts Hph)) as (Hn' & Ht & Hok & Hl).
    split; [split; [done|by apply Forall_insert]|]. split; [done|].
    pose proof (all_left_insert ts j ph ph' Hph). destruct ph; cbn in *; try done; lia.
  - split; [split; [by eapply handle_wf|done]|]. split; [by eapply handle_term|done].
Qed.

Lemma broadcast_run_keeps context rpc k (b b' : broadcast P) :
  (∀ j, network_sane (rpc j)) → broadcast_run context rpc k b b' → broadcast_wf b →
  broadcast_wf b' ∧ current_term (bc_node b) ≤ current_term (bc_node b') ∧
  (k + all_left (bc_threads b') = all_left (bc_threads b))%nat.
Proof.
  intros Hs Hr. induction Hr as [b|k k' b b1 b' Hstep _ IH]; intros Hb; [by split_and!|].
  destruct (broadcast_step_keeps context rpc k b b1 Hs Hstep Hb) as (Hb1 & Ht1 & Hl1).
  destruct (IH Hb1) as (Hb' & Ht & Hl). split_and!; [done|lia..].
Qed.

(** The broadcast as it starts. *)
Lemma all_left_start c : all_left (replicate c ApStart) = (8 * c)%nat.
Proof. induction c as [|c IH]; [done|]. cbn [replicate]. rewrite all_left_cons, IH. cbn [turns_left]. lia. Qed.

Lemma broadcast_started calloc_ok created (n : node) b :
  node_wf n → raft_rpc_broadcast_append_entries calloc_ok created n = Ok b →
  bc_node b = n ∧ broadcast_wf b ∧ all_left (bc_threads b) = (8 * peer_count (nd_config n))%nat.
Proof.
  intros Hn. unfold raft_rpc_broadcast_append_entries. change (raft_get_config n) with (nd_config n).
  destruct (Nat.eqb_spec (peer_count (nd_config n)) 0) as [->|]; [by intros [= <-]|].
  destruct calloc_ok; [|done]. cbn [negb]. destruct (forallb _ _); [|done]. intros [= <-].
  split; [done|]. split; [split; [done|]|]; cbn [bc_threads].
  - apply Forall_replicate. exact I.
  - apply all_left_start.
Qed.
End interleaving.

(** ** A thread that is not interleaved *)

Section quiet.
Context {P : Type} `{RaftPersistenceLaws P} {Q : Type} `{RaftPersistenceOps Q}.
Variables (context : raft_rpc_context) (peer : raft_peer) (i : nat) (e : append_env) (time : nat → Z).

(** The entries and the previous term the thread reads from a node that does not change. *)
Definition thread_entries (n : raft_node Q) : list raft_log_entry :=
  let next := raft_get_peer_next_index n i in
  let last := raft_get_last_log_index n in
  if (next <=? last) && av_entries_ok e then raft_get_log_entries n next (u32 (last + 1)) else [].
Definition thread_prev_term (n : raft_node Q) : Z :=
  let prev := prev_index (raft_get_peer_next_index n i) in
  if prev >? 0 then raft_get_log_term n prev else 0.

Lemma quiet_replied rpc n :
  quiet_turns context rpc peer i e 7 n ApStart =
  (a ← raft_rpc_send_append_entries context rpc (av_wire_ok e) (rp_address peer) (rp_port peer) (raft_get_node_id n)
         (current_term n) (prev_index (raft_get_peer_next_index n i)) (thread_prev_term n) (thread_entries n)
         (commit_index n);
   Ok (n, ApReplied (current_term n) a)).
Proof.
  cbn [quiet_turns append_turn_step mbind result_bind].
  change (raft_get_term n) with (current_term n). change (raft_get_commit_index n) with (commit_index n).
  change (if _ && av_entries_ok e then _ else _) with (thread_entries n).
  change (if prev_index (raft_get_peer_next_index n i) >? 0 then _ else _) with (thread_prev_term n).
  by destruct (raft_rpc_send_append_entries _ _ _ _ _ _ _ _ _ _ _).
Qed.

(** A round: the thread of the leader, over a network that delivers to the follower. *)
Definition network_round (s : raft_node Q * raft_node P) : result (raft_node Q * raft_node P) :=
  let '(l, f) := s in
  let deliver := λ (_ : nat) rq, served (λ r k, handle_append_entries_rpc f r k true time) rq in
  '(l, ph) ← quiet_turns context deliver peer i e 7 l ApStart;
  '(l', _) ← quiet_turns context deliver peer i e 1 l ph;
  match ph with
  | ApReplied _ answer =>
      match st_request answer with
      | Some rq =>
          '(_, f') ← handle_append_entries_rpc f (Some (take (rq_len rq) (rq_buf rq))) (rq_len rq) true time;
          Ok (l', f')
      | None => Ok (l', f)
      end
  | _ => Ok (l', f)
  end.

Fixpoint network_rounds (k : nat) (s : raft_node Q * raft_node P) : result (raft_node Q * raft_node P) :=
  match k with
  | O => Ok s
  | S k => s ← network_round s; network_rounds k s
  end.

Lemma thread_sends M l f q :
  paired i M l f → peer_next l i = Z.of_nat q + 1 → av_entries_ok e = true →
  prev_index (raft_get_peer_next_index l i) = Z.of_nat q ∧
  thread_prev_term l = prev_term l q ∧
  thread_entries l = RaftConvergence.sent (log_count l.(nd_log)) l q.
Proof.
  intros Hpr Hq He. destruct (paired_last i _ _ _ _ Hpr Hq) as [Hlast Hqu].
  destruct Hpr as [(Hl & _ & Hp) _ _ (Hbl & Htl & _) _ (HM1 & _ & HM3) _ _].
  assert (Hnext : raft_get_peer_next_index l i = Z.of_nat q + 1) by (unfold raft_get_peer_next_index; by rewrite Hp).
  assert (Hprev : prev_index (Z.of_nat q + 1) = Z.of_nat q) by (unfold prev_index; destruct (Z.gtb_spec (Z.of_nat q + 1) 1); lia).
  unfold thread_prev_term, thread_entries, raft_get_last_log_index. rewrite Hnext, Hprev, He, andb_true_r, Hlast.
  split; [done|]. split.
  - unfold prev_term, raft_get_log_term. destruct q as [|q]; [done|].
    change (Z.of_nat (S q) >? 0) with true. change (Z.of_nat (S q) =? 0) with false. cbv iota. destruct (log_get _ _); [done|]. by rewrite Htl.
  - unfold RaftConvergence.sent, sent_upto. destruct (Z.leb_spec (Z.of_nat q + 1) (Z.of_nat (log_count (nd_log l)))).
    + unfold raft_get_log_entries. rewrite u32_id by (unfold UINT32_MAX in *; ulia).
      replace (Z.of_nat (log_count (nd_log l)) + 1 - (Z.of_nat q + 1)) with (Z.of_nat (log_count (nd_log l) - q)) by lia.
      rewrite omap_log_get; [|apply Hl|lia|rewrite Hlast; lia]. f_equal; [lia|f_equal; lia].
    + replace ((q + log_count (nd_log l)) `min` log_count (nd_log l) - q)%nat with 0%nat by lia. done.
Qed.

(** The message is one the wire carries and the follower can take. *)
Lemma sent_event_ok M (l : raft_node Q) (f : raft_node P) q :
  paired i M l f → peer_next l i = Z.of_nat q + 1 → (log_count l.(nd_log) ≤ 600)%nat →
  event_ok f (EvAppendEntries (cfg_node_id (nd_config l)) (current_term l) (Z.of_nat q) (prev_term l q)
    (RaftConvergence.sent (log_count l.(nd_log)) l q) (commit_index l) time) ∧ is_u32 (prev_term l q).
Proof.
  intros Hpr Hq Hc. destruct (paired_last i _ _ _ _ Hpr Hq) as [_ Hqu].
  destruct Hpr as [(Hl & _ & _) _ (Hf & _) (Hbl & Htl & Hbf) _ (HM1 & HM2 & HM3) _ _].
  assert (Hes : Forall msg_entry_ok (log_entries (nd_log l))).
  { apply Forall_lookup_2. intros j x Hj. split.
    - rewrite (log_wf_index _ (wf_log _ Hl) _ _ Hj). apply lookup_lt_Some in Hj. unfold log_count, UINT32_MAX in *. ulia.
    - exact (Forall_lookup_1 _ _ _ _ (log_wf_entries _ (wf_log _ Hl)) Hj). }
  split; [split_and!; try apply Hl; try ulia|].
  - by apply Forall_take, Forall_drop.
  - unfold log_room, RaftConvergence.sent, sent_upto. rewrite length_take. unfold log_count in *. lia.
  - unfold prev_term. destruct (_ =? 0); [ulia|]. rewrite Htl.
    destruct (log_get (nd_log l) (Z.of_nat q)) as [x|] eqn:Ex; [|ulia].
    apply log_get_Some in Ex as [_ Ex]; [|apply Hl|ulia].
    by destruct (Forall_lookup_1 _ _ _ _ Hes Ex) as [_ [? _]].
Qed.

(** The leader's node after it records an answer of its own term. *)
Lemma recorded_fields (l : raft_node Q) ok last now req :
  node_wf l → has_peer l i = true → is_u32 last →
  let a := Sent 0 (Some (AppendReply ok (current_term l) last)) 1 req in
  ∃ l', record_answer i now (current_term l) a l = (l', true) ∧ node_wf l' ∧ nd_state l' = nd_state l ∧
    has_peer l' i = true ∧ nd_config l' = nd_config l ∧ current_term l' = current_term l ∧ nd_log l' = nd_log l ∧
    peer_next l' i =
      if ok then u32 (last + 1) else if peer_next l i >? 1 then peer_next l i - 1 else peer_next l i.
Proof.
  intros Hn Hp Hlast a.
  assert (Hi : (i < length (next_index l))%nat).
  { unfold has_peer in Hp. apply Nat.ltb_lt in Hp. by rewrite (proj1 (wf_next _ Hn)). }
  unfold record_answer, a. cbn [st_out ae_success RaftCore.ae_term ae_last_log_index].
  destruct (Z.gtb_spec (current_term l) (current_term l)); [lia|].
  unfold raft_update_peer_indices, raft_decrement_peer_next_index. rewrite Hp. cbn [negb snd].
  destruct ok; eexists; (split; [reflexivity|]).
  - split; [by apply (set_match_wf (set_next_index _ l)); [apply set_next_wf; auto with distric|]|].
    split_and!; try done. unfold peer_next. cbn. apply nth_lookup_Some. by apply list_lookup_insert_eq.
  - split; [by apply decrement_next_wf|]. unfold decrement_next.
    destruct (peer_next l i >? 1); split_and!; try done.
    unfold peer_next. cbn. apply nth_lookup_Some. by apply list_lookup_insert_eq.
Qed.

Hypothesis unblocked : send_blocked context (rp_address peer) (rp_port peer) = false.
Hypothesis allocated : av_entries_ok e = true ∧ av_wire_ok e = true.

(** A round is the message of the thread, the answer of the follower, and its record. *)
Lemma network_round_eq M (l : raft_node Q) (f : raft_node P) q :
  paired i M l f → peer_next l i = Z.of_nat q + 1 → (log_count l.(nd_log) ≤ 507)%nat →
  Forall (λ x, Z.of_nat (length (le_data x)) ≤ 2 ^ 20 - 64) (log_entries (nd_log l)) →
  ∃ rq, let r := answer (cfg_node_id (nd_config l)) time (log_count l.(nd_log)) l f q in
    network_round (l, f) =
      Ok ((record_answer i (av_now e) (current_term l) (Sent 0 (Some r.1) 1 (Some rq)) l).1, r.2).
Proof using unblocked allocated.
  intros Hpr Hq Hc Hdata. destruct (thread_sends M l f q Hpr Hq (proj1 allocated)) as (Hpi & Hpt & Hes).
  destruct (sent_event_ok M l f q Hpr Hq ltac:(lia)) as [He Hu].
  pose proof (wf_config _ (proj1 (pr_leader _ _ _ _ Hpr))) as (Hid & Hidl & _).
  destruct (append_entries_delivered context (λ _ rq, served (λ r k, handle_append_entries_rpc f r k true time) rq)
    (rp_address peer) (rp_port peer) _ _ _ _ _ _ f time unblocked (proj1 (pr_follower _ _ _ _ Hpr))
    (conj Hid Hidl) Hu He) as (rq & Hs & a & Hd); [by apply Forall_take, Forall_drop| |done|].
  { unfold RaftConvergence.sent. rewrite length_take, length_drop. unfold log_count in *. lia. }
  exists rq. cbv zeta. unfold network_round. rewrite quiet_replied, Hpi, Hpt, Hes, (proj2 allocated).
  change (raft_get_node_id l) with (cfg_node_id (nd_config l)). rewrite Hs. cbn [mbind result_bind quiet_turns append_turn_step].
  unfold answer. destruct (record_answer _ _ _ _ _) as [l' c]. cbn [mbind result_bind st_request fst].
  rewrite Hd. reflexivity.
Qed.

(** Where the logs agree on what precedes the message the follower ends with the whole
    log of the leader; where they do not, next_index backs up by one. *)
Lemma network_round_step M (l : raft_node Q) (f : raft_node P) q m :
  paired i M l f → peer_next l i = Z.of_nat q + 1 → agreement l f m → (log_count l.(nd_log) ≤ 507)%nat →
  Forall (λ x, Z.of_nat (length (le_data x)) ≤ 2 ^ 20 - 64) (log_entries (nd_log l)) →
  ∃ l' f', network_round (l, f) = Ok (l', f') ∧ nd_log l' = nd_log l ∧ mirrors f' ∧
    (if decide (q ≤ m)%nat then take (log_count (nd_log l)) (log_entries (nd_log f')) = log_entries (nd_log l)
     else paired i M l' f' ∧ nd_log f' = nd_log f ∧ peer_next l' i = Z.of_nat q).
Proof using unblocked allocated.
  intros Hpr Hq [Ha Hmax] Hc Hdata. destruct (network_round_eq M l f q Hpr Hq Hc Hdata) as (rq & Hr).
  cbv zeta in Hr. rewrite Hr. clear Hr.
  destruct (paired_last i _ _ _ _ Hpr Hq) as [_ Hqu]. pose proof Hpr as Hpr0.
  destruct Hpr as [(Hl & Hst & Hp) (Htm & Hle) _ (Hbl & Htl & Hbf) [Htf Htl'] (HM1 & HM2 & HM3) Hlm Hnx].
  destruct (decide (q ≤ m)%nat) as [Hqm|Hqm].
  - destruct (answer_accepts i (cfg_node_id (nd_config l)) time (log_count (nd_log l)) ltac:(lia) M l f q m Hpr0 Hq Ha Hmax Hqm)
      as (f' & -> & Hf' & Hmir' & Hterm & Hlog). rewrite Hterm. cbn [fst snd].
    destruct (recorded_fields l true (Z.of_nat (log_count (nd_log f'))) (av_now e) (Some rq) Hl Hp) as (l' & -> & _ & _ & _ & _ & _ & Hlog' & _).
    { pose proof (wf_log _ Hf') as Hwf'. pose proof (log_wf_bound _ Hwf'). pose proof (log_wf_base _ Hwf'). unfold UINT32_MAX in *. ulia. }
    exists l', f'. split; [reflexivity|]. split; [done|]. split; [done|]. rewrite Hlog. cbn [log_entries].
    replace (sent_upto (log_count (nd_log l)) l q) with (log_count (nd_log l)) by (unfold sent_upto; lia).
    clear Hlog. destruct (decide _) as [Hcm|].
    + destruct Ha as (_ & _ & Ha). apply (f_equal (take (log_count (nd_log l)))) in Ha. rewrite !take_take in Ha.
      rewrite !Nat.min_l in Ha by done. rewrite Ha. unfold log_count. apply firstn_all.
    + unfold log_count. by rewrite take_take, Nat.min_id, firstn_all.
  - destruct (answer_refuses i (cfg_node_id (nd_config l)) time (log_count (nd_log l)) ltac:(lia) M l f q Hpr0 Hq
      ltac:(intros ?%Hmax; lia)) as (f' & -> & Hf' & Hmir' & Hterm & Hlog). rewrite Hterm. cbn [fst snd].
    destruct (recorded_fields l false (Z.of_nat (log_count (nd_log f))) (av_now e) (Some rq) Hl Hp)
      as (l' & -> & Hl' & Hst' & Hp' & _ & Ht' & Hlog' & Hnext); [unfold UINT32_MAX in *; ulia|].
    exists l', f'. split; [reflexivity|]. split; [done|]. split; [done|].
    assert (Hn' : peer_next l' i = Z.of_nat q).
    { rewrite Hnext, Hq. destruct (Z.gtb_spec (Z.of_nat q + 1) 1); lia. }
    split_and!; [|done|done]. rewrite Hst in Hst'.
    split; rewrite ?Hlog', ?Ht', ?Hlog; try done; try lia; by split; [|lia].
Qed.

Lemma network_rounds_converge M (l : raft_node Q) (f : raft_node P) q :
  paired i M l f → peer_next l i = Z.of_nat q + 1 → (log_count l.(nd_log) ≤ 507)%nat →
  Forall (λ x, Z.of_nat (length (le_data x)) ≤ 2 ^ 20 - 64) (log_entries (nd_log l)) →
  ∃ k l' f', (k ≤ S q)%nat ∧ network_rounds k (l, f) = Ok (l', f') ∧ nd_log l' = nd_log l ∧ mirrors f' ∧
    take (log_count (nd_log l)) (log_entries (nd_log f')) = log_entries (nd_log l).
Proof using unblocked allocated.
  revert l f. induction q as [|q IH]; intros l f Hpr Hq Hc Hdata;
    destruct (agree_max_exists (log_entries (nd_log l)) (log_entries (nd_log f))) as [m Ha];
    destruct (network_round_step M l f _ m Hpr Hq Ha Hc Hdata) as (l' & f' & Hr & Hlog & Hmir & Hs).
  - rewrite decide_True in Hs by lia. exists 1%nat, l', f'. cbn [network_rounds]. rewrite Hr. by split_and!.
  - destruct (decide _) as [|_] in Hs.
    + exists 1%nat, l', f'. cbn [network_rounds]. rewrite Hr. split_and!; [lia|done..].
    + destruct Hs as (Hpr' & Hf' & Hn').
      destruct (IH l' f' Hpr') as (k & l2 & f2 & Hk & Hk2 & Hl2 & Hm2 & Ht2); [lia|by rewrite Hlog..|].
      exists (S k), l2, f2. cbn [network_rounds]. rewrite Hr. cbn [mbind result_bind]. rewrite Hlog in *.
      split_and!; [lia|done..].
Qed.
End quiet.

(** ** Properties *)

(** A broadcast of AppendEntries, with its threads interleaved in any order with each
    other and with every other step of the node (votes, entries of another leader, timers,
    new commands), and for every answer of the network, keeps the node well formed and its
    term from going back; each thread ends after eight turns, and the broadcast is done
    exactly when eight turns were made for each peer. *)
Theorem broadcast_keeps {P : Type} `{RaftPersistenceOps P} context rpc calloc_ok created (n : raft_node P) b k b' :
  (∀ j, network_sane (rpc j)) → node_wf n → raft_rpc_broadcast_append_entries calloc_ok created n = Ok b →
  broadcast_run context rpc k b b' →
  node_wf (bc_node b') ∧ current_term n ≤ current_term (bc_node b') ∧ (k ≤ 8 * peer_count (nd_config n))%nat ∧
  (broadcast_done b' = true ↔ k = 8 * peer_count (nd_config n))%nat.
Proof.
  intros Hs Hn Hb Hr. destruct (broadcast_started _ _ _ _ Hn Hb) as (Hbn & Hwf & Hl).
  destruct (broadcast_run_keeps context rpc k b b' Hs Hr Hwf) as ((Hn' & _) & Ht & Hk).
  rewrite Hbn in Ht. rewrite Hl in Hk. split; [done|]. split; [done|]. split; [lia|].
  unfold broadcast_done. rewrite <- all_left_done. lia.
Qed.

(** Replication over a network that delivers converges (rpc.c as it is delivers nothing,
    [raft_calls_never_succeed]): with a leader of at most 507 entries the thread of a peer makes the log of the follower start with
    the whole log of the leader, in memory and on disk, after at most as many broadcasts
    as the next_index of the peer; each message is what the thread encodes, the follower
    decodes, and the answer is encoded and decoded on the way back. *)
Theorem network_replication_converges {P : Type} `{RaftPersistenceLaws P} {Q : Type} `{RaftPersistenceOps Q}
    context peer i e time M (l : raft_node Q) (f : raft_node P) :
  send_blocked context (rp_address peer) (rp_port peer) = false → av_entries_ok e = true ∧ av_wire_ok e = true →
  paired i M l f → (log_count (nd_log l) ≤ 507)%nat →
  Forall (λ x, Z.of_nat (length (le_data x)) ≤ 2 ^ 20 - 64) (log_entries (nd_log l)) →
  ∃ k l' f', Z.of_nat k ≤ peer_next l i ∧ network_rounds context peer i e time k (l, f) = Ok (l', f') ∧
    nd_log l' = nd_log l ∧ mirrors f' ∧
    take (log_count (nd_log l)) (log_entries (nd_log f')) = log_entries (nd_log l).
Proof.
  intros Hb Ha Hpr Hc Hdata. destruct (paired_next i M l f Hpr) as [q Hq].
  destruct (network_rounds_converge context peer i e time Hb Ha M l f q Hpr Hq Hc Hdata)
    as (k & l' & f' & Hk & Hr & Hrest).
  exists k, l', f'. split; [lia|]. done.
Qed.

(** ** Witnesses *)

Definition wire_peer : raft_peer := RaftPeer [50] [49] 7000 0 0 0 false.

Lemma network_replication_converges_witness :
  ∃ k l' f', Z.of_nat k ≤ 4 ∧
    network_rounds example_context wire_peer 0 (AppendEnv true true 0) (λ _, 0) k
      (leader_with 3 [1; 2; 3] 0 4, follower_with 2 [1; 1; 1; 1]) = Ok (l', f') ∧
    take 3 (log_entries (nd_log f')) = log_entries (example_log [1; 2; 3]).
Proof.
  destruct (network_replication_converges example_context wire_peer 0 (AppendEnv true true 0) (λ _, 0) 1000
    (leader_with 3 [1; 2; 3] 0 4) (follower_with 2 [1; 1; 1; 1])) as (k & l' & f' & Hk & Hr & _ & _ & Ht).
  - reflexivity.
  - split; reflexivity.
  - exact example_paired.
  - vm_compute. repeat constructor.
  - forall_done.
  - exists k, l', f'. split; [exact Hk|]. split; [exact Hr|exact Ht].
Defined.

(** The first turn of one thread, then a step of another thread of the node. *)
Definition silent_network : network := λ _ _, RpcAnswer (-17) None 0.
Definition example_leader : raft_node mem_store := leader_with 3 [1; 2; 3] 0 4.

Lemma broadcast_keeps_witness :
  ∃ b b', raft_rpc_broadcast_append_entries true (λ _, true) example_leader = Ok b ∧
    broadcast_run example_context (λ _, silent_network) (1 + (0 + 0)) b b' ∧
    node_wf (bc_node b') ∧ peer_next (bc_node b') 0 = 3 ∧ broadcast_done b' = false.
Proof.
  assert (Hwf : node_wf example_leader) by (apply leader_with_wf; try done; forall_done).
  assert (Hrun : broadcast_run example_context (λ _, silent_network) (1 + (0 + 0))
    (Broadcast example_leader [ApStart; ApStart])
    (Broadcast (raft_decrement_peer_next_index example_leader 0).2 [ApNext 4; ApStart])).
  { eapply BrStep; [|eapply BrStep; [|apply BrNow]].
    - apply (BcThread _ _ 0%nat (AppendEnv true true 0) (RaftInvariant.example_peer 50) example_leader example_leader
        [ApStart; ApStart] ApStart (ApNext 4)); reflexivity.
    - apply BcOther. exists (EvDecrement 0). split; [exact I|]. split; [vm_compute; reflexivity|reflexivity]. }
  exists (Broadcast example_leader [ApStart; ApStart]),
    (Broadcast (raft_decrement_peer_next_index example_leader 0).2 [ApNext 4; ApStart]).
  split; [reflexivity|]. split; [exact Hrun|]. split; [|split; reflexivity].
  apply (broadcast_keeps example_context (λ _, silent_network) true (λ _, true) example_leader
    (Broadcast example_leader [ApStart; ApStart]) (1 + (0 + 0))%nat
    (Broadcast (raft_decrement_peer_next_index example_leader 0).2 [ApNext 4; ApStart])).
  - intros j k rq m Hk. discriminate Hk.
  - exact Hwf.
  - reflexivity.
  - exact Hrun.
Defined.

(** ** A leader that is deposed while a thread reads *)

(** The thread of a leader of term 3 reads its two entries; a request for a vote of term 5
    comes, and the node is a follower; the thread reads on, and sends. *)
Definition deposed_leader : raft_node mem_store := leader_with 3 [3; 3] 0 1.
Definition follower_of_5 : raft_node mem_store := set_commit_index 2 (follower_with 5 [5; 5]).

Definition deposed_broadcast : result (raft_state * option Z * raft_node mem_store) :=
  let rpc := λ (_ : nat) rq, served (λ r k, handle_append_entries_rpc follower_of_5 r k true (λ _, 0)) rq in
  let turns := quiet_turns example_context rpc wire_peer 0 (AppendEnv true true 0) in
  '(l, ph) ← turns 4%nat deposed_leader ApStart;
  let l := (raft_handle_request_vote l [51] 5 0 0 (λ _, 0)).2 in
  '(l, ph) ← turns 3%nat l ph;
  match ph with
  | ApReplied term a =>
      match st_request a with
      | Some rq =>
          '(_, f) ← handle_append_entries_rpc follower_of_5 (Some (take (rq_len rq) (rq_buf rq))) (rq_len rq) true (λ _, 0);
          Ok (nd_state l, RaftCore.ae_term <$> st_out a, f)
      | None => Fault
      end
  | _ => Fault
  end.

(** A follower can be made to drop committed entries.  The thread reads the entries of a
    leader of term 3 and then, after a request for a vote has made the node a follower of
    term 5, the term: the message says term 5, and the follower that has committed two
    entries of the leader of term 5 replaces them by the uncommitted ones of term 3. *)
Theorem deposed_leader_truncates :
  deposed_broadcast ≫= (λ '(s, t, f), Ok (s, t, le_term <$> log_entries (nd_log f), commit_index f)) =
    Ok (RAFT_STATE_FOLLOWER, Some 5, [3; 3], 2) ∧
  (le_term <$> log_entries (nd_log follower_of_5)) = [5; 5] ∧ commit_index follower_of_5 = 2.
Proof. split; [vm_compute; reflexivity|split; reflexivity]. Qed.
