(* ===== verification/RaftRpcLifecycle.v ===== *)
(** * The life of the RPC context of Raft (libs/distric_raft/src/raft_rpc.c: create, start, stop, destroy)

    The context owns a TCP server, a connection pool, an RPC server and an RPC client,
    created in this order.  What a call acquires and gives back is the list of events it
    leaves, so that a failure on the way can be seen to give everything back. *)

From Stdlib Require Import ZArith Lia.
From stdpp Require Import base list numbers option.
From S2P Require Import Prelude Binary RpcErrors HandlerTable RpcServer RaftRpc.

Local Open Scope Z_scope.

(** ** The parts *)

Inductive rpc_part := PartContext | PartTcpServer | PartTcpPool | PartRpcServer | PartRpcClient.

#[export] Instance rpc_part_eq_dec : EqDecision rpc_part.
Proof. solve_decision. Defined.

Inductive part_event :=
  | Acquired (p : rpc_part)
  | Released (p : rpc_part)
  | ServerStarted
  | ServerStopped.

(** What the constructors of the parts answer: [None] for [DISTRIC_OK]. *)
Record create_env := CreateEnv {
  cv_context : bool;                      (* calloc *)
  cv_tcp_server : option distric_err;
  cv_tcp_pool : option distric_err;
  cv_rpc_server : option distric_err;
  cv_rpc_client : option distric_err
}.

(** The addresses of the three handlers, and of the context. *)
Record raft_handlers := RaftHandlers {
  rh_request_vote : Z;
  rh_append_entries : Z;
  rh_install_snapshot : Z;
  rh_context : Z
}.

(** A context with its RPC server. *)
Record raft_rpc := RaftRpc {
  rr_context : raft_rpc_context;
  rr_server : rpc_server
}.

(** The registrations stop at the first error. *)
Definition register_handlers (h : raft_handlers) (server : rpc_server) : result rpc_server :=
  server ← rpc_server_register_handler (message_type_code MSG_RAFT_REQUEST_VOTE) (rh_request_vote h) (rh_context h) server;
  server ← rpc_server_register_handler (message_type_code MSG_RAFT_APPEND_ENTRIES) (rh_append_entries h) (rh_context h) server;
  rpc_server_register_handler (message_type_code MSG_RAFT_INSTALL_SNAPSHOT) (rh_install_snapshot h) (rh_context h) server.

(** The calls that give the parts back; destroying the RPC server stops it. *)
Definition release_server : list part_event := [ServerStopped; Released PartRpcServer].

Definition raft_rpc_create (config : raft_rpc_config) (h : raft_handlers) (env : create_env) :
    result raft_rpc * list part_event :=
  if negb (cv_context env) then (Err DISTRIC_ERR_NO_MEMORY, [])
  else
    let events := [Acquired PartContext] in
    let context := RaftRpcContext config None false in
    match cv_tcp_server env with
    | Some err => (Err err, events ++ [Released PartContext])
    | None =>
        let events := events ++ [Acquired PartTcpServer] in
        match cv_tcp_pool env with
        | Some err => (Err err, events ++ [Released PartTcpServer; Released PartContext])
        | None =>
            let events := events ++ [Acquired PartTcpPool] in
            match cv_rpc_server env with
            | Some err => (Err err, events ++ [Released PartTcpPool; Released PartTcpServer; Released PartContext])
            | None =>
                let events := events ++ [Acquired PartRpcServer] in
                match cv_rpc_client env with
                | Some err =>
                    (Err err, events ++ release_server ++
                                [Released PartTcpPool; Released PartTcpServer; Released PartContext])
                | None =>
                    let events := events ++ [Acquired PartRpcClient] in
                    match register_handlers h rpc_server_create with
                    | Ok server => (Ok (RaftRpc context server), events)
                    | Err err =>
                        (Err err, events ++ [Released PartRpcClient] ++ release_server ++
                                    [Released PartTcpPool; Released PartTcpServer; Released PartContext])
                    | Fault => (Fault, events)
                    end
                end
            end
        end
    end.

Definition set_running (running : bool) (r : raft_rpc) : raft_rpc :=
  RaftRpc (RaftRpcContext (rrx_config (rr_context r)) (rrx_send_filter (rr_context r)) running) (rr_server r).

(** The RPC server accepts requests before the TCP server is started, and does so when
    that fails. *)
Definition raft_rpc_start (tcp_started : option distric_err) (r : raft_rpc) : distric_err * raft_rpc * list part_event :=
  let r := RaftRpc (rr_context r) (rpc_server_start (rr_server r)) in
  match tcp_started with
  | Some err => (err, r, [])
  | None => (DISTRIC_OK, set_running true r, [ServerStarted])
  end.

Definition raft_rpc_stop (r : raft_rpc) : raft_rpc * list part_event :=
  let r := set_running false r in
  (RaftRpc (rr_context r) (rs_set_accepting false (rr_server r)), [ServerStopped]).

Definition raft_rpc_destroy (r : raft_rpc) : list part_event :=
  (if rrx_running (rr_context r) then (raft_rpc_stop r).2 else []) ++
  [Released PartRpcClient] ++ release_server ++ [Released PartTcpPool; Released PartTcpServer; Released PartContext].

(** ** Ownership *)

(** The parts that are held after the events, last one first: a part is given back only
    when it is the last one acquired. *)
Fixpoint held (events : list part_event) (parts : list rpc_part) : option (list rpc_part) :=
  match events with
  | [] => Some parts
  | Acquired p :: events => if decide (p ∈ parts) then None else held events (p :: parts)
  | Released p :: events =>
      match parts with
      | q :: parts => if decide (p = q) then held events parts else None
      | [] => None
      end
  | _ :: events => held events parts
  end.

Definition all_parts : list rpc_part := [PartRpcClient; PartRpcServer; PartTcpPool; PartTcpServer; PartContext].

Lemma held_app a b parts : held (a ++ b) parts = held a parts ≫= held b.
Proof.
  revert parts. induction a as [|e a IH]; intros parts; [done|]. destruct e; cbn [app held]; try apply IH.
  - case_decide; [done|apply IH].
  - destruct parts; [done|]. case_decide; [apply IH|done].
Qed.

(** The events between a creation and the destruction. *)
Inductive rpc_life : raft_rpc → list part_event → Prop :=
  | LifeCreate config h env r ev : raft_rpc_create config h env = (Ok r, ev) → rpc_life r ev
  | LifeStart r ev tcp err r' ev' : rpc_life r ev → raft_rpc_start tcp r = (err, r', ev') → rpc_life r' (ev ++ ev')
  | LifeStop r ev : rpc_life r ev → rpc_life (raft_rpc_stop r).1 (ev ++ (raft_rpc_stop r).2)
  | LifeFilter r ev filter :
      rpc_life r ev → rpc_life (RaftRpc (raft_rpc_set_send_filter filter (rr_context r)) (rr_server r)) ev.

Lemma create_held config h env :
  match raft_rpc_create config h env with
  | (Ok _, ev) => held ev [] = Some all_parts
  | (Err _, ev) => held ev [] = Some []
  | (Fault, _) => register_handlers h rpc_server_create = Fault
  end.
Proof.
  unfold raft_rpc_create. destruct env as [[|] [?|] [?|] [?|] [?|]]; cbn [negb cv_context cv_tcp_server cv_tcp_pool cv_rpc_server cv_rpc_client]; try reflexivity.
  destruct (register_handlers h rpc_server_create); reflexivity.
Qed.

Lemma life_held r ev : rpc_life r ev → held ev [] = Some all_parts.
Proof.
  induction 1 as [config h env r ev Hc|r ev tcp err r' ev' _ IH Hs|r ev _ IH|r ev filter _ IH].
  - pose proof (create_held config h env) as Hh. by rewrite Hc in Hh.
  - rewrite held_app, IH. unfold raft_rpc_start in Hs. destruct tcp; by simplify_eq.
  - by rewrite held_app, IH.
  - done.
Qed.

(** Three registrations in an empty table. *)
Lemma registered h :
  rh_request_vote h ≠ 0 → rh_append_entries h ≠ 0 → rh_install_snapshot h ≠ 0 →
  ∃ s, register_handlers h rpc_server_create = Ok s ∧ rs_accepting s = false ∧
    handler_table_find (rs_table s) (message_type_code MSG_RAFT_REQUEST_VOTE) =
      Some (HandlerSlot (message_type_code MSG_RAFT_REQUEST_VOTE) (rh_request_vote h) (rh_context h)) ∧
    handler_table_find (rs_table s) (message_type_code MSG_RAFT_APPEND_ENTRIES) =
      Some (HandlerSlot (message_type_code MSG_RAFT_APPEND_ENTRIES) (rh_append_entries h) (rh_context h)) ∧
    handler_table_find (rs_table s) (message_type_code MSG_RAFT_INSTALL_SNAPSHOT) =
      Some (HandlerSlot (message_type_code MSG_RAFT_INSTALL_SNAPSHOT) (rh_install_snapshot h) (rh_context h)).
Proof.
  destruct h as [v a i c]; cbn [rh_request_vote rh_append_entries rh_install_snapshot rh_context]. intros Hv Ha Hi.
  unfold register_handlers, rpc_server_register_handler. cbn [rh_request_vote rh_append_entries rh_install_snapshot rh_context].
  rewrite (proj2 (Z.eqb_neq v 0) Hv), (proj2 (Z.eqb_neq a 0) Ha), (proj2 (Z.eqb_neq i 0) Hi).
  eexists. split; [vm_compute; reflexivity|]. split_and!; vm_compute; reflexivity.
Qed.

(** The context of the RPC layer gives back what it takes: a creation that fails at
    any point releases exactly what it acquired, in reverse order; one that succeeds holds
    all five parts and has the three handlers of Raft registered; and whatever is started,
    stopped and filtered afterwards, the destruction releases every part once. *)
Theorem rpc_context_balanced config h env :
  rh_request_vote h ≠ 0 → rh_append_entries h ≠ 0 → rh_install_snapshot h ≠ 0 →
  match raft_rpc_create config h env with
  | (Ok r, ev) =>
      held ev [] = Some all_parts ∧ rrx_running (rr_context r) = false ∧
      handler_table_find (rs_table (rr_server r)) (message_type_code MSG_RAFT_REQUEST_VOTE) =
        Some (HandlerSlot (message_type_code MSG_RAFT_REQUEST_VOTE) (rh_request_vote h) (rh_context h)) ∧
      handler_table_find (rs_table (rr_server r)) (message_type_code MSG_RAFT_APPEND_ENTRIES) =
        Some (HandlerSlot (message_type_code MSG_RAFT_APPEND_ENTRIES) (rh_append_entries h) (rh_context h)) ∧
      handler_table_find (rs_table (rr_server r)) (message_type_code MSG_RAFT_INSTALL_SNAPSHOT) =
        Some (HandlerSlot (message_type_code MSG_RAFT_INSTALL_SNAPSHOT) (rh_install_snapshot h) (rh_context h))
  | (Err _, ev) => held ev [] = Some []
  | (Fault, _) => False
  end ∧
  ∀ r ev, rpc_life r ev → held (ev ++ raft_rpc_destroy r) [] = Some [].
Proof.
  intros Hv Ha Hi. split.
  - pose proof (create_held config h env) as Hh. destruct (registered h Hv Ha Hi) as (s & Hs & Hacc & Hf).
    unfold raft_rpc_create in *. rewrite Hs in *. clear Hs Hacc.
    destruct env as [[|] [?|] [?|] [?|] [?|]]; cbn [negb cv_context cv_tcp_server cv_tcp_pool cv_rpc_server cv_rpc_client] in *;
      try exact Hh.
    split; [exact Hh|]. split; [reflexivity|exact Hf].
  - intros r ev Hl. rewrite held_app, (life_held r ev Hl). cbn [mbind option_bind]. unfold raft_rpc_destroy.
    by destruct (rrx_running _).
Qed.

Lemma rpc_context_balanced_witness :
  held (raft_rpc_create (RaftRpcConfig [48] 7000 1000 3) (RaftHandlers 10 20 30 40)
    (CreateEnv true None None None (Some DISTRIC_ERR_NO_MEMORY))).2 [] = Some [] ∧
  held (raft_rpc_create (RaftRpcConfig [48] 7000 1000 3) (RaftHandlers 10 20 30 40)
    (CreateEnv true None None None None)).2 [] = Some all_parts.
Proof.
  split.
  - exact (proj1 (rpc_context_balanced (RaftRpcConfig [48] 7000 1000 3) (RaftHandlers 10 20 30 40)
      (CreateEnv true None None None (Some DISTRIC_ERR_NO_MEMORY)) ltac:(discriminate) ltac:(discriminate) ltac:(discriminate))).
  - exact (proj1 (proj1 (rpc_context_balanced (RaftRpcConfig [48] 7000 1000 3) (RaftHandlers 10 20 30 40)
      (CreateEnv true None None None None) ltac:(discriminate) ltac:(discriminate) ltac:(discriminate)))).
Defined.
