(* ===== verification/MetricLabels.v ===== *)
(** * The labels of metrics (libs/distric_obs/src/metrics.c: the flat Cartesian array)

    A metric has one instance for every combination of the allowed values of its label
    dimensions, in one array: the combination with the ordinals [v0], [v1], ... is at the
    index [v0 * strides[0] + v1 * strides[1] + ...]. *)

From Stdlib Require Import ZArith Lia String.
From stdpp Require Import base list numbers option.
From S2P Require Import Prelude CString.

Local Open Scope Z_scope.

Definition DISTRIC_MAX_METRICS : nat := 1024.
Definition DISTRIC_MAX_METRIC_LABELS : nat := 8.
Definition DISTRIC_MAX_METRIC_NAME_LEN : nat := 128.
Definition DISTRIC_MAX_METRIC_HELP_LEN : nat := 256.
Definition DISTRIC_MAX_LABEL_KEY_LEN : nat := 64.
Definition DISTRIC_MAX_LABEL_VALUE_LEN : nat := 128.
Definition DISTRIC_MAX_METRIC_CARDINALITY : Z := 10000.
Definition SIZE_MAX : Z := 2 ^ 64 - 1.

(** ** Data *)

Record metric_label := MetricLabel {
  ml_key : list Z;
  ml_value : list Z
}.

(** [num_allowed_values] is the length of the array, and does not matter when the
    pointer is [NULL]; an element can be [NULL]. *)
Record metric_label_definition := LabelDefinition {
  ld_key : list Z;
  ld_allowed_values : option (list (option (list Z)))
}.

Definition allowed (def : metric_label_definition) : list (option (list Z)) := default [] (ld_allowed_values def).
Definition num_allowed_values (def : metric_label_definition) : Z := Z.of_nat (length (allowed def)).

(** ** Cardinality and strides *)

Fixpoint cardinality_loop (defs : list metric_label_definition) (card : Z) : Z :=
  match defs with
  | [] => card
  | def :: defs =>
      if bool_decide (ld_allowed_values def = None) || (num_allowed_values def =? 0) then 0
      else if card >? SIZE_MAX / num_allowed_values def then 0
      else cardinality_loop defs (u64 (card * num_allowed_values def))
  end.

(** 0 when a dimension is unbounded or the product overflows. *)
Definition compute_cardinality (defs : list metric_label_definition) : Z := cardinality_loop defs 1.

(** From the last dimension to the first. *)
Fixpoint compute_strides (defs : list metric_label_definition) : list Z :=
  match defs with
  | [] => []
  | _ :: defs =>
      let strides := compute_strides defs in
      match strides, defs with
      | stride :: _, def :: _ => u64 (stride * num_allowed_values def)
      | _, _ => 1
      end :: strides
  end.

(** ** Labels to an index *)

(** The value given for a key: the first one. *)
Fixpoint find_value (labels : list metric_label) (key : list Z) : option (list Z) :=
  match labels with
  | [] => None
  | l :: labels => if streq (ml_key l) key then Some (ml_value l) else find_value labels key
  end.

Fixpoint find_ordinal (values : list (option (list Z))) (val : list Z) (ai : nat) : option nat :=
  match values with
  | [] => None
  | Some v :: values => if streq v val then Some ai else find_ordinal values val (S ai)
  | None :: values => find_ordinal values val (S ai)
  end.

Fixpoint flat_loop (dims : list (metric_label_definition * Z)) (labels : list metric_label) (flat : Z) : option Z :=
  match dims with
  | [] => Some flat
  | (def, stride) :: dims =>
      match find_value labels (ld_key def) with
      | None => None
      | Some val =>
          match find_ordinal (allowed def) val 0 with
          | None => None
          | Some vi => flat_loop dims labels (u64 (flat + u64 (Z.of_nat vi * stride)))
          end
      end
  end.

(** The label definitions of a metric with their strides; -1 for no index. *)
Definition compute_flat_index (defs : list metric_label_definition) (strides : list Z) (labels : list metric_label) : Z :=
  if (length defs =? 0)%nat && (length labels =? 0)%nat then 0
  else if negb (length labels =? length defs)%nat then -1
  else
    match flat_loop (zip defs strides) labels 0 with
    | Some flat => s32 flat
    | None => -1
    end.

(** ** An index to labels *)

Definition decode_label (fi : Z) (dim : metric_label_definition * Z) : metric_label :=
  let '(def, stride) := dim in
  let vi := (fi / stride) mod num_allowed_values def in
  MetricLabel (strncpy (DISTRIC_MAX_LABEL_KEY_LEN - 1) (ld_key def))
    (strncpy (DISTRIC_MAX_LABEL_VALUE_LEN - 1) (default [] (mjoin (allowed def !! Z.to_nat vi)))).

Definition decode_flat_index (defs : list metric_label_definition) (strides : list Z) (fi : Z) : list metric_label :=
  decode_label fi <$> zip defs strides.

(** The label sets of all indices; [NULL] without labels. *)
Definition build_labels_table (defs : list metric_label_definition) (strides : list Z) (cardinality : nat) :
    option (list (list metric_label)) :=
  if (length defs =? 0)%nat || (cardinality =? 0)%nat then None
  else Some ((λ fi, decode_flat_index defs strides (Z.of_nat fi)) <$> seq 0 cardinality).

(** ** Mixed radix *)

(** The product of the dimensions. *)
Fixpoint product (defs : list metric_label_definition) : Z :=
  match defs with
  | [] => 1
  | def :: defs => num_allowed_values def * product defs
  end.

Definition bounded_def (def : metric_label_definition) : Prop := ld_allowed_values def ≠ None ∧ 0 < num_allowed_values def.

Lemma product_pos defs : Forall bounded_def defs → 0 < product defs.
Proof. induction 1 as [|d defs [_ Hd] _ IH]; cbn [product]; lia. Qed.

(** The loop computes the product, or 0. *)
Lemma cardinality_loop_spec defs card :
  1 ≤ card ≤ SIZE_MAX →
  (cardinality_loop defs card = 0 ∨ cardinality_loop defs card = card * product defs) ∧
  (cardinality_loop defs card ≠ 0 ↔ Forall bounded_def defs ∧ card * product defs ≤ SIZE_MAX).
Proof.
  revert card. induction defs as [|d defs IH]; intros card Hc; cbn [cardinality_loop product].
  { split; [right; lia|]. split; [intros _; split; [constructor|lia]|lia]. }
  destruct (bool_decide_reflect (ld_allowed_values d = None)) as [Hn|Hn]; cbn [orb].
  { split; [by left|]. split; [done|]. intros [[Hd _]%Forall_cons_1 _]. by destruct Hd. }
  destruct (Z.eqb_spec (num_allowed_values d) 0) as [Hz|Hz].
  { split; [by left|]. split; [done|]. intros [[[_ Hd] _]%Forall_cons_1 _]. lia. }
  assert (Hp : 0 < num_allowed_values d) by (unfold num_allowed_values in *; lia).
  pose proof (Z.mul_div_le SIZE_MAX (num_allowed_values d) Hp).
  pose proof (Z.mul_succ_div_gt SIZE_MAX (num_allowed_values d) Hp).
  destruct (Z.gtb_spec card (SIZE_MAX / num_allowed_values d)) as [Hg|Hg].
  { split; [by left|]. split; [done|]. intros [[_ Hb]%Forall_cons_1 Hle].
    pose proof (product_pos defs Hb).
    assert (num_allowed_values d * Z.succ (SIZE_MAX / num_allowed_values d) ≤ num_allowed_values d * card) by nia.
    assert (num_allowed_values d * card * 1 ≤ num_allowed_values d * card * product defs) by (apply Z.mul_le_mono_nonneg_l; lia).
    lia. }
  assert (Hm : card * num_allowed_values d ≤ SIZE_MAX) by nia.
  rewrite u64_id by (unfold SIZE_MAX in *; ulia).
  destruct (IH (card * num_allowed_values d)) as [H1 H2]; [split; [nia|exact Hm]|].
  rewrite Z.mul_assoc. split; [done|]. rewrite H2. split; [intros [H3 H4]; split; [constructor; [split; [done|lia]|done]|done]|intros [[_ H3]%Forall_cons_1 H4]; done].
Qed.

Lemma compute_cardinality_spec defs :
  compute_cardinality defs ≠ 0 →
  Forall bounded_def defs ∧ compute_cardinality defs = product defs ∧ product defs ≤ SIZE_MAX.
Proof.
  intros H. unfold compute_cardinality in *. destruct (cardinality_loop_spec defs 1) as [H1 H2]; [by unfold SIZE_MAX|].
  apply H2 in H as [Hb Hle]. split; [done|]. pose proof (product_pos defs Hb).
  destruct H1 as [H1|H1]; [|lia]. exfalso. assert (cardinality_loop defs 1 ≠ 0) by (apply H2; split; [done|lia]). done.
Qed.

Lemma strides_cons d defs :
  Forall bounded_def defs → product defs ≤ SIZE_MAX → compute_strides (d :: defs) = product defs :: compute_strides defs.
Proof.
  intros Hb. revert d. induction Hb as [|d' defs Hd Hb IH]; intros d Hp; [done|].
  pose proof (product_pos defs Hb). destruct Hd as [_ Hd]. cbn [product] in Hp.
  assert (product defs ≤ SIZE_MAX) by nia.
  change (compute_strides (d :: d' :: defs)) with
    (match compute_strides (d' :: defs) with s :: _ => u64 (s * num_allowed_values d') | _ => 1 end :: compute_strides (d' :: defs)).
  rewrite IH by done. f_equal. rewrite u64_id by (unfold SIZE_MAX in *; split; [nia|ulia]). cbn [product]. lia.
Qed.

(** The ordinals of an index, and the index of ordinals. *)
Fixpoint ordinals (defs : list metric_label_definition) (fi : Z) : list Z :=
  match defs with
  | [] => []
  | def :: defs => (fi / product defs) mod num_allowed_values def :: ordinals defs fi
  end.
Fixpoint flat_of (defs : list metric_label_definition) (vis : list Z) : Z :=
  match defs, vis with
  | def :: defs, vi :: vis => vi * product defs + flat_of defs vis
  | _, _ => 0
  end.

Definition ordinals_ok (defs : list metric_label_definition) (vis : list Z) : Prop :=
  Forall2 (λ def vi, 0 ≤ vi < num_allowed_values def) defs vis.

Lemma ordinals_in_range defs fi : Forall bounded_def defs → ordinals_ok defs (ordinals defs fi).
Proof. induction 1 as [|d defs [_ Hd] _ IH]; constructor; [by apply Z.mod_pos_bound|done]. Qed.

Lemma flat_of_range defs vis : Forall bounded_def defs → ordinals_ok defs vis → 0 ≤ flat_of defs vis < product defs.
Proof.
  intros Hb. revert vis. induction Hb as [|d defs Hd Hb IH]; intros vis Hv; inversion Hv as [|? vi ? vis' Hr Hv']; subst; cbn; [lia|].
  specialize (IH vis' Hv'). nia.
Qed.

(** An index and the same plus a multiple of the product have the same ordinals. *)
Lemma ordinals_shift defs q r : Forall bounded_def defs → ordinals defs (product defs * q + r) = ordinals defs r.
Proof.
  intros Hb. revert q r. induction Hb as [|d defs [_ Hd] Hb IH]; intros q r; [done|]. cbn [ordinals product].
  pose proof (product_pos defs Hb) as Hp. f_equal.
  - replace (num_allowed_values d * product defs * q + r) with (r + (num_allowed_values d * q) * product defs) by ring.
    rewrite Z.div_add by lia. rewrite Z.mul_comm. by rewrite Z.mod_add by lia.
  - replace (num_allowed_values d * product defs * q + r) with (product defs * (num_allowed_values d * q) + r) by ring.
    apply IH.
Qed.

Lemma flat_ordinals defs fi : Forall bounded_def defs → 0 ≤ fi < product defs → flat_of defs (ordinals defs fi) = fi.
Proof.
  intros Hb. revert fi. induction Hb as [|d defs [_ Hd] Hb IH]; intros fi Hf; cbn [product ordinals flat_of] in *; [lia|].
  pose proof (product_pos defs Hb) as Hp.
  rewrite (Z.mod_small (fi / product defs)).
  2:{ split; [apply Z.div_pos; lia|]. apply Z.div_lt_upper_bound; lia. }
  pose proof (Z.div_mod fi (product defs) ltac:(lia)) as Hdm.
  rewrite Hdm at 2. rewrite ordinals_shift by done.
  rewrite IH by (apply Z.mod_pos_bound; lia). lia.
Qed.

Lemma ordinals_flat defs vis : Forall bounded_def defs → ordinals_ok defs vis → ordinals defs (flat_of defs vis) = vis.
Proof.
  intros Hb. revert vis. induction Hb as [|d defs [_ Hd] Hb IH]; intros vis Hv; inversion Hv as [|? vi ? vis' Hr Hv']; subst; [done|].
  cbn [ordinals flat_of]. pose proof (product_pos defs Hb) as Hp. pose proof (flat_of_range defs vis' Hb Hv').
  f_equal.
  - rewrite Z.div_add_l, Z.div_small by lia. rewrite Z.add_0_r. by apply Z.mod_small.
  - rewrite (Z.mul_comm vi), ordinals_shift by done. by apply IH.
Qed.

(** ** Values and ordinals *)

Lemma find_ordinal_first (vs : list (list Z)) v j ai :
  base.NoDup vs → vs !! j = Some v → find_ordinal (Some <$> vs) v ai = Some (ai + j)%nat.
Proof.
  intros Hnd. revert j ai. induction Hnd as [|x vs Hx _ IH]; intros [|j] ai Hj; try done; cbn in *.
  - injection Hj as ->. destruct (streq_spec v v); [|done]. by rewrite Nat.add_0_r.
  - destruct (streq_spec x v) as [->|]; [exfalso; apply Hx; by eapply list_elem_of_lookup_2|].
    rewrite (IH j (S ai) Hj). f_equal. lia.
Qed.

Lemma find_ordinal_Some values v ai k :
  find_ordinal values v ai = Some k → ∃ j, k = (ai + j)%nat ∧ values !! j = Some (Some v).
Proof.
  revert ai. induction values as [|[x|] values IH]; intros ai; cbn [find_ordinal]; [done|..].
  - destruct (streq_spec x v) as [->|].
    + intros [= <-]. exists 0%nat. by rewrite Nat.add_0_r.
    + intros (j & -> & Hj)%IH. exists (S j). split; [lia|done].
  - intros (j & -> & Hj)%IH. exists (S j). split; [lia|done].
Qed.

(** The ordinal that a label set gives to a dimension. *)
Definition has_ordinal (labels : list metric_label) (def : metric_label_definition) (vi : nat) : Prop :=
  ∃ v, find_value labels (ld_key def) = Some v ∧ find_ordinal (allowed def) v 0 = Some vi.

Lemma has_ordinal_range labels def vi : has_ordinal labels def vi → 0 ≤ Z.of_nat vi < num_allowed_values def.
Proof.
  intros (v & _ & (j & -> & Hj)%find_ordinal_Some). apply lookup_lt_Some in Hj. unfold num_allowed_values. lia.
Qed.

Lemma has_ordinals_ok labels defs vis : Forall2 (has_ordinal labels) defs vis → ordinals_ok defs (Z.of_nat <$> vis).
Proof.
  intros Hv. unfold ordinals_ok. apply Forall2_fmap_r. eapply Forall2_impl; [|exact Hv].
  intros d vi Ho. exact (has_ordinal_range _ _ _ Ho).
Qed.

Lemma flat_loop_ok defs labels vis flat :
  Forall bounded_def defs → 0 ≤ flat → flat + product defs ≤ SIZE_MAX →
  Forall2 (has_ordinal labels) defs vis →
  flat_loop (zip defs (compute_strides defs)) labels flat = Some (flat + flat_of defs (Z.of_nat <$> vis)).
Proof.
  intros Hb. revert flat vis. induction Hb as [|d defs [_ Hd] Hb IH]; intros flat vis H0 Hp Hv;
    inversion Hv as [|? vi ? vis' Ho Hv']; subst; [cbn; by rewrite Z.add_0_r|].
  pose proof (product_pos defs Hb) as Hpos. cbn [product] in Hp.
  assert (product defs ≤ SIZE_MAX) by nia.
  rewrite strides_cons by done. unfold SIZE_MAX in *. cbn [zip zip_with flat_loop fmap list_fmap flat_of].
  pose proof (has_ordinal_range _ _ _ Ho) as Hr. destruct Ho as (v & -> & ->).
  assert (Hvi : Z.of_nat vi * product defs + product defs ≤ num_allowed_values d * product defs) by nia.
  rewrite (u64_id (Z.of_nat vi * product defs)) by (split; [nia|lia]).
  rewrite u64_id by (split; [nia|lia]).
  rewrite (IH _ vis') by (done || lia || nia). f_equal. lia.
Qed.

Lemma flat_loop_Some defs strides labels flat f :
  length strides = length defs →
  flat_loop (zip defs strides) labels flat = Some f → ∃ vis, Forall2 (has_ordinal labels) defs vis.
Proof.
  revert strides flat. induction defs as [|d defs IH]; intros [|s strides] flat Hl; try done; cbn [zip zip_with flat_loop].
  - intros _. by exists [].
  - destruct (find_value labels (ld_key d)) as [v|] eqn:Hv; [|done].
    destruct (find_ordinal (allowed d) v 0) as [vi|] eqn:Hvi; [|done].
    intros (vis & Hvis)%IH; [|by injection Hl]. exists (vi :: vis). constructor; [by exists v|done].
Qed.

Lemma compute_strides_length defs : length (compute_strides defs) = length defs.
Proof. induction defs as [|d defs IH]; [done|]. cbn [compute_strides length]. by rewrite IH. Qed.

(** The index of a label set: that of its ordinals, if every dimension has one. *)
Lemma compute_flat_index_spec defs labels :
  Forall bounded_def defs → product defs ≤ 2 ^ 31 →
  (compute_flat_index defs (compute_strides defs) labels = -1 ∨
   ∃ vis, Forall2 (has_ordinal labels) defs vis ∧
     compute_flat_index defs (compute_strides defs) labels = flat_of defs (Z.of_nat <$> vis)) ∧
  (length labels = length defs → ∀ vis, Forall2 (has_ordinal labels) defs vis →
     compute_flat_index defs (compute_strides defs) labels = flat_of defs (Z.of_nat <$> vis)).
Proof.
  intros Hb Hp. unfold compute_flat_index.
  assert (Hfull : ∀ vis, Forall2 (has_ordinal labels) defs vis →
    match flat_loop (zip defs (compute_strides defs)) labels 0 with Some flat => s32 flat | None => -1 end =
    flat_of defs (Z.of_nat <$> vis)).
  { intros vis Hv. rewrite (flat_loop_ok defs labels vis 0) by (done || (unfold SIZE_MAX; ulia)). rewrite Z.add_0_l.
    pose proof (flat_of_range defs _ Hb (has_ordinals_ok _ _ _ Hv)). unfold s32. rewrite u32_id by ulia. by rewrite (proj2 (Z.ltb_lt _ _)) by ulia. }
  destruct (Nat.eqb_spec (length defs) 0) as [Hd|Hd]; cbn [andb].
  - apply nil_length_inv in Hd as ->. destruct (Nat.eqb_spec (length labels) 0) as [->|Hl]; cbn [negb].
    + split; [right; exists []; by split|]. intros _ vis Hv. by inversion Hv.
    + destruct (Nat.eqb_spec (length labels) (length ([] : list metric_label_definition))); [done|]. cbn [negb].
      split; [by left|done].
  - destruct (Nat.eqb_spec (length labels) (length defs)) as [Hl|Hl]; cbn [negb]; [|by split; [left|]].
    split; [|intros _; exact Hfull].
    destruct (flat_loop (zip defs (compute_strides defs)) labels 0) as [flat|] eqn:E; [|by left]. right.
    destruct (flat_loop_Some _ _ _ _ _ (compute_strides_length defs) E) as [vis Hv]. exists vis. split; [done|]. by apply Hfull.
Qed.

(** ** Decoding *)

(** Definitions that fit the fixed arrays, with distinct keys and distinct values. *)
Definition def_ok (def : metric_label_definition) : Prop :=
  (length (ld_key def) ≤ DISTRIC_MAX_LABEL_KEY_LEN - 1)%nat ∧
  ∃ vs, ld_allowed_values def = Some (Some <$> vs) ∧ vs ≠ [] ∧ base.NoDup vs ∧
    Forall (λ v : list Z, (length v ≤ DISTRIC_MAX_LABEL_VALUE_LEN - 1)%nat) vs.
Definition defs_ok (defs : list metric_label_definition) : Prop :=
  Forall def_ok defs ∧ base.NoDup (ld_key <$> defs).

Lemma def_ok_bounded d : def_ok d → bounded_def d.
Proof.
  intros (_ & vs & Hv & Hne & _). unfold bounded_def, num_allowed_values, allowed. rewrite Hv. split; [done|].
  cbn. rewrite length_map. destruct vs; [done|]. cbn. lia.
Qed.

Lemma defs_bounded defs : Forall def_ok defs → Forall bounded_def defs.
Proof. apply List.Forall_impl, def_ok_bounded. Qed.

(** The label of a dimension with an ordinal. *)
Definition label_of (def : metric_label_definition) (vi : Z) : metric_label :=
  MetricLabel (ld_key def) (default [] (mjoin (allowed def !! Z.to_nat vi))).

Lemma def_value d vi :
  def_ok d → 0 ≤ vi < num_allowed_values d →
  ∃ v, allowed d !! Z.to_nat vi = Some (Some v) ∧ (length v ≤ DISTRIC_MAX_LABEL_VALUE_LEN - 1)%nat ∧
    find_ordinal (allowed d) v 0 = Some (Z.to_nat vi).
Proof.
  intros (_ & vs & Hv & _ & Hnd & Hlen) Hr. unfold num_allowed_values, allowed in *. rewrite Hv in *. cbn in *.
  rewrite length_map in Hr. destruct (lookup_lt_is_Some_2 vs (Z.to_nat vi)) as [v Hj]; [lia|]. exists v.
  change (List.map Some vs) with (Some <$> vs) in *.
  rewrite list_lookup_fmap, Hj. split; [done|]. split; [exact (Forall_lookup_1 _ _ _ _ Hlen Hj)|].
  by rewrite (find_ordinal_first vs v (Z.to_nat vi) 0).
Qed.

Lemma decode_spec defs fi :
  Forall def_ok defs → product defs ≤ SIZE_MAX →
  decode_flat_index defs (compute_strides defs) fi = zip_with label_of defs (ordinals defs fi).
Proof.
  intros Hd. revert fi. induction Hd as [|d defs Hd Hds IH]; intros fi Hp; [done|].
  pose proof (defs_bounded defs Hds) as Hb.
  pose proof (product_pos defs Hb). pose proof (proj2 (def_ok_bounded d Hd)) as Hn. cbn [product] in Hp.
  assert (product defs ≤ SIZE_MAX) by nia.
  unfold decode_flat_index. rewrite strides_cons by done. cbn [zip zip_with fmap list_fmap ordinals]. f_equal.
  - unfold decode_label, label_of.
    destruct (def_value d ((fi / product defs) mod num_allowed_values d) Hd) as (v & -> & Hv & _); [by apply Z.mod_pos_bound|].
    cbn. rewrite !strncpy_id; [done|exact Hv|apply Hd].
  - by apply IH.
Qed.

Lemma find_value_nth labels k x :
  base.NoDup (ml_key <$> labels) → labels !! k = Some x → find_value labels (ml_key x) = Some (ml_value x).
Proof.
  revert k. induction labels as [|l labels IH]; intros [|k] Hnd Hk; try done; cbn in Hk; apply list.NoDup_cons in Hnd as [Hl Hnd].
  - injection Hk as ->. cbn [find_value]. by destruct (streq_spec (ml_key x) (ml_key x)).
  - cbn [find_value]. destruct (streq_spec (ml_key l) (ml_key x)) as [E|]; [|by apply (IH k)].
    exfalso. apply Hl. rewrite E. apply list_elem_of_fmap. exists x. split; [done|]. by eapply list_elem_of_lookup_2.
Qed.

Lemma label_keys defs vis : length vis = length defs → ml_key <$> zip_with label_of defs vis = ld_key <$> defs.
Proof.
  revert vis. induction defs as [|d defs IH]; intros [|vi vis] Hl; try done. cbn. f_equal. apply IH. by injection Hl.
Qed.

Lemma ordinals_length defs fi : length (ordinals defs fi) = length defs.
Proof. induction defs as [|d defs IH]; [done|]. cbn. by rewrite IH. Qed.

(** A dimension finds its own ordinal in the decoded labels. *)
Lemma decoded_ordinals defs vis :
  defs_ok defs → ordinals_ok defs vis →
  Forall2 (has_ordinal (zip_with label_of defs vis)) defs (Z.to_nat <$> vis).
Proof.
  intros [Hds Hnd] Ho. apply Forall2_fmap_r, Forall2_same_length_lookup_2; [by eapply Forall2_length|].
  intros k d vi Hk Hv. pose proof (Forall_lookup_1 _ _ _ _ Hds Hk) as Hd.
  pose proof (Forall2_lookup_lr _ _ _ _ _ _ Ho Hk Hv) as Hr. cbn in Hr.
  destruct (def_value d vi Hd Hr) as (v & Hav & _ & Hord). exists v. split; [|done].
  pose proof (find_value_nth (zip_with label_of defs vis) k (label_of d vi)) as Hf.
  replace (ml_value (label_of d vi)) with v in Hf by (unfold label_of; by rewrite Hav). apply Hf.
  - by rewrite label_keys by (symmetry; by eapply Forall2_length).
  - rewrite lookup_zip_with, Hk. cbn. by rewrite Hv.
Qed.

Lemma decoded_value defs vis k d vi v labels :
  defs_ok defs → ordinals_ok defs (Z.of_nat <$> vis) → defs !! k = Some d → vis !! k = Some vi →
  find_value labels (ld_key d) = Some v → find_ordinal (allowed d) v 0 = Some vi →
  find_value (zip_with label_of defs (Z.of_nat <$> vis)) (ld_key d) = Some v.
Proof.
  intros Hok Ho Hk Hv Hf (j & -> & Hj)%find_ordinal_Some.
  pose proof (decoded_ordinals defs _ Hok Ho) as Hd.
  assert (Hv' : (Z.to_nat <$> (Z.of_nat <$> vis)) !! k = Some j).
  { rewrite !list_lookup_fmap, Hv. cbn. f_equal. lia. }
  destruct (Forall2_lookup_lr _ _ _ _ _ _ Hd Hk Hv') as (w & Hw & (j' & -> & Hj')%find_ordinal_Some).
  rewrite Hw. cbn in Hj, Hj'. rewrite Hj in Hj'. by injection Hj' as ->.
Qed.

(** The flat index of the labels is a bijection: the label set that is decoded from
    an index, as the export shows it, leads back to the index; and an update with any
    labels is refused or goes to an index below the cardinality whose decoded labels give
    every dimension the value the labels give it. *)
Theorem flat_index_roundtrip defs :
  defs_ok defs → 0 < compute_cardinality defs ≤ DISTRIC_MAX_METRIC_CARDINALITY →
  let strides := compute_strides defs in
  (∀ fi, 0 ≤ fi < compute_cardinality defs →
     compute_flat_index defs strides (decode_flat_index defs strides fi) = fi) ∧
  (∀ labels, let i := compute_flat_index defs strides labels in
     i = -1 ∨
     0 ≤ i < compute_cardinality defs ∧
     ∀ d, d ∈ defs →
       ∃ v, find_value labels (ld_key d) = Some v ∧ find_value (decode_flat_index defs strides i) (ld_key d) = Some v).
Proof.
  intros Hok Hc strides. destruct (compute_cardinality_spec defs) as (Hb & Hcp & Hmax); [lia|].
  rewrite Hcp in *. unfold DISTRIC_MAX_METRIC_CARDINALITY in Hc. split.
  - intros fi Hfi. unfold strides. rewrite decode_spec by (done || apply Hok).
    pose proof (ordinals_in_range defs fi Hb) as Ho.
    destruct (compute_flat_index_spec defs (zip_with label_of defs (ordinals defs fi)) Hb) as [_ Hs]; [lia|].
    rewrite (Hs ltac:(rewrite length_zip_with, ordinals_length; lia) (Z.to_nat <$> ordinals defs fi))
      by by apply decoded_ordinals.
    rewrite <- list_fmap_compose. rewrite <- (flat_ordinals defs fi Hb Hfi) at 2. f_equal.
    rewrite <- (list_fmap_id (ordinals defs fi)) at 2. apply list_fmap_ext. intros k x Hx. cbn.
    destruct (Forall2_lookup_r _ _ _ _ _ Ho Hx) as (d & _ & Hr). cbn in Hr. lia.
  - intros labels i. destruct (compute_flat_index_spec defs labels Hb) as [[Hi|(vis & Hv & Hi)] _]; [lia|by left|]. right.
    fold strides in Hi. fold i in Hi. pose proof (has_ordinals_ok _ _ _ Hv) as Ho.
    rewrite Hi. split; [by apply flat_of_range|]. intros d [k Hk]%list_elem_of_lookup.
    destruct (Forall2_lookup_l _ _ _ _ _ Hv Hk) as (vi & Hvi & v & Hf & Hord). exists v. split; [done|].
    unfold strides. rewrite decode_spec, ordinals_flat by (done || apply Hok). by eapply decoded_value.
Qed.

(** ** Example *)

Definition example_defs : list metric_label_definition :=
  [LabelDefinition (str "method") (Some [Some (str "GET"); Some (str "POST"); Some (str "PUT")]);
   LabelDefinition (str "code") (Some [Some (str "200"); Some (str "500")])].

Lemma example_defs_ok : defs_ok example_defs.
Proof.
  split.
  - repeat (apply List.Forall_cons || apply List.Forall_nil); (split; [cbn; unfold DISTRIC_MAX_LABEL_KEY_LEN; lia|]).
    + exists [str "GET"; str "POST"; str "PUT"]. split; [done|]. split; [done|]. split.
      * apply (bool_decide_unpack _). vm_compute. exact I.
      * forall_done || (repeat (apply List.Forall_cons || apply List.Forall_nil); vm_compute; lia).
    + exists [str "200"; str "500"]. split; [done|]. split; [done|]. split.
      * apply (bool_decide_unpack _). vm_compute. exact I.
      * repeat (apply List.Forall_cons || apply List.Forall_nil); vm_compute; lia.
  - apply (bool_decide_unpack _). vm_compute. exact I.
Qed.

Lemma flat_index_roundtrip_witness :
  compute_cardinality example_defs = 6 ∧
  decode_flat_index example_defs (compute_strides example_defs) 3 =
    [MetricLabel (str "method") (str "POST"); MetricLabel (str "code") (str "500")] ∧
  compute_flat_index example_defs (compute_strides example_defs)
    (decode_flat_index example_defs (compute_strides example_defs) 3) = 3 ∧
  compute_flat_index example_defs (compute_strides example_defs)
    [MetricLabel (str "code") (str "500"); MetricLabel (str "method") (str "POST")] = 3.
Proof.
  split; [reflexivity|]. split; [reflexivity|]. split; [|reflexivity].
  apply (flat_index_roundtrip example_defs example_defs_ok); [vm_compute; split; congruence|vm_compute; split; congruence].
Defined.
