(* ===== verification/Doubles.v ===== *)
(** * Doubles: their bits, and their text

    A double is a [spec_float] of precision 53.  [double_to_bits] and [bits_to_double]
    are those of libs/distric_obs/src/metrics.c, with one NaN; [format_g] is the [%g] of
    [printf], exact and rounded half to even as the C library does it. *)

From Stdlib Require Import ZArith Lia String SpecFloat.
From stdpp Require Import base list numbers option.
From S2P Require Import Prelude CString.

Local Open Scope Z_scope.

Definition double_add (x y : spec_float) : spec_float := SFadd 53 1024 x y.
Definition double_le (x y : spec_float) : bool := SFleb x y.
Definition double_of_Z (z : Z) : spec_float := binary_normalize 53 1024 z 0 false.
(** The literal [a / 10 ^ k], correctly rounded for the literals of the code. *)
Definition double_ratio (a b : Z) : spec_float := SFdiv 53 1024 (double_of_Z a) (double_of_Z b).

(** ** Bits *)

Definition sign_bit (s : bool) : Z := if s then Z.shiftl 1 63 else 0.

Definition double_to_bits (d : spec_float) : Z :=
  match d with
  | S754_zero s => sign_bit s
  | S754_infinity s => sign_bit s + Z.shiftl 2047 52
  | S754_nan => Z.shiftl 4095 51
  | S754_finite s m e =>
      if Z.pos m <? 2 ^ 52 then sign_bit s + Z.pos m
      else sign_bit s + Z.shiftl (e + 1075) 52 + (Z.pos m - 2 ^ 52)
  end.

Definition bits_to_double (u : Z) : spec_float :=
  let s := Z.testbit u 63 in
  let ex := Z.land (Z.shiftr u 52) 2047 in
  let ma := Z.land u (Z.ones 52) in
  if ex =? 2047 then (if ma =? 0 then S754_infinity s else S754_nan)
  else
    match (if ex =? 0 then ma else ma + 2 ^ 52) with
    | Z.pos m => S754_finite s m (if ex =? 0 then -1074 else ex - 1075)
    | _ => S754_zero s
    end.

(** ** [%g] *)

Definition strip_zeros (ds : list Z) : list Z :=
  reverse ((fix strip (l : list Z) := match l with b :: l' => if b =? 48 then strip l' else l | [] => [] end) (reverse ds)).

(** [10 ^ x ≤ num / den]. *)
Definition pow10_le (x num den : Z) : bool :=
  if 0 <=? x then 10 ^ x * den <=? num else den <=? num * 10 ^ (- x).

Fixpoint find_exponent (fuel : nat) (x num den : Z) : Z :=
  match fuel with
  | O => x
  | S fuel => if pow10_le x num den then x else find_exponent fuel (x - 1) num den
  end.

(** [num / den] rounded to an integer, half to even. *)
Definition round_half_even (num den : Z) : Z :=
  let q := num / den in
  let r := num mod den in
  if (den <? 2 * r) || ((2 * r =? den) && Z.odd q) then q + 1 else q.

(** Six significant digits and the exponent of the first one; the search starts above the
    decimal logarithm. *)
Definition six_digits (num den : Z) : Z * Z :=
  let x := find_exponent 700 ((Z.log2 num - Z.log2 den + 1) * 30103 / 100000 + 1) num den in
  let d := if x <=? 5 then round_half_even (num * 10 ^ (5 - x)) den else round_half_even num (den * 10 ^ (x - 5)) in
  if d =? 10 ^ 6 then (10 ^ 5, x + 1) else (d, x).

Definition with_fraction (int frac : list Z) : list Z :=
  match frac with [] => int | _ => int ++ [46] ++ frac end.

(** [e+05], [e-12]: at least two digits. *)
Definition exponent_text (x : Z) : list Z :=
  [101; if x <? 0 then 45 else 43] ++ (if Z.abs x <? 10 then [48] else []) ++ decimal (Z.abs x).

Definition digits_text (d x : Z) : list Z :=
  let ds := decimal d in
  if (-4 <=? x) && (x <? 6) then
    if 0 <=? x then with_fraction (take (Z.to_nat (x + 1)) ds) (strip_zeros (drop (Z.to_nat (x + 1)) ds))
    else with_fraction [48] (strip_zeros (replicate (Z.to_nat (- x - 1)) 48 ++ ds))
  else with_fraction (take 1 ds) (strip_zeros (drop 1 ds)) ++ exponent_text x.

Definition sign_text (s : bool) : list Z := if s then [45] else [].

Definition format_g (v : spec_float) : list Z :=
  match v with
  | S754_zero s => sign_text s ++ [48]
  | S754_infinity s => sign_text s ++ str "inf"
  | S754_nan => str "nan"
  | S754_finite s m e =>
      let '(d, x) := if 0 <=? e then six_digits (Z.pos m * 2 ^ e) 1 else six_digits (Z.pos m) (2 ^ (- e)) in
      sign_text s ++ digits_text d x
  end.

(** ** Lemmas *)

Lemma strip_zeros_length ds : (length (strip_zeros ds) ≤ length ds)%nat.
Proof.
  unfold strip_zeros. rewrite length_reverse, <- (length_reverse ds). generalize (reverse ds). intros l.
  induction l as [|b l IH]; [done|]. destruct (b =? 48); cbn in *; lia.
Qed.

Lemma with_fraction_length int frac : (length (with_fraction int frac) ≤ length int + length frac + 1)%nat.
Proof. unfold with_fraction. destruct frac; cbn; rewrite ?length_app; cbn; lia. Qed.

(** No double takes more than 31 characters. *)
Lemma digits_text_length d x : (length (digits_text d x) ≤ 26)%nat.
Proof.
  unfold digits_text, exponent_text. pose proof (decimal_length d) as Hd. pose proof (decimal_length (Z.abs x)) as Hx.
  assert (Hf : ∀ k ds, (length (with_fraction (take k ds) (strip_zeros (drop k ds))) ≤ length ds + 1)%nat).
  { intros k ds. pose proof (with_fraction_length (take k ds) (strip_zeros (drop k ds))).
    pose proof (strip_zeros_length (drop k ds)). rewrite length_take, length_drop in *. lia. }
  destruct (Z.leb_spec (-4) x); cbn [andb].
  - destruct (x <? 6).
    + destruct (0 <=? x).
      * specialize (Hf (Z.to_nat (x + 1)) (decimal d)). lia.
      * pose proof (with_fraction_length [48] (strip_zeros (replicate (Z.to_nat (- x - 1)) 48 ++ decimal d))).
        pose proof (strip_zeros_length (replicate (Z.to_nat (- x - 1)) 48 ++ decimal d)) as Hs.
        rewrite length_app, length_replicate in Hs. cbn in *. lia.
    + rewrite length_app, length_app. specialize (Hf 1%nat (decimal d)). destruct (Z.abs x <? 10); cbn in *; lia.
  - rewrite length_app, length_app. specialize (Hf 1%nat (decimal d)). destruct (Z.abs x <? 10); cbn in *; lia.
Qed.

Lemma format_g_length v : (length (format_g v) ≤ 27)%nat.
Proof.
  assert (Hs : ∀ s, (length (sign_text s) ≤ 1)%nat) by (intros []; cbn; lia).
  destruct v as [s|s| |s m e]; cbn [format_g]; rewrite ?length_app.
  - specialize (Hs s). cbn. lia.
  - specialize (Hs s). cbn. lia.
  - cbn. lia.
  - destruct (if 0 <=? e then _ else _) as [d x]. rewrite length_app. pose proof (digits_text_length d x). specialize (Hs s). lia.
Qed.

(** ** The bits of a double *)

Lemma digits2_log2 m : Z.pos (digits2_pos m) = Z.log2 (Z.pos m) + 1.
Proof.
  induction m as [m IH|m IH|]; cbn [digits2_pos]; [| |done]; rewrite Pos2Z.inj_succ, IH.
  - rewrite (Pos2Z.inj_xI m), Z.log2_succ_double by lia. lia.
  - rewrite (Pos2Z.inj_xO m), Z.log2_double by lia. lia.
Qed.

(** The mantissas and exponents of doubles. *)
Lemma bounded_shape m e :
  bounded 53 1024 m e = true →
  -1074 ≤ e ≤ 971 ∧ (Z.pos m < 2 ^ 52 → e = -1074) ∧ Z.pos m < 2 ^ 53.
Proof.
  unfold bounded, canonical_mantissa, fexp, emin. rewrite digits2_log2, andb_true_iff, Z.leb_le.
  rewrite <- Zeq_is_eq_bool. intros [Hc He].
  assert (H53 : Z.log2 (Z.pos m) < 53 ↔ Z.pos m < 2 ^ 53) by (symmetry; apply Z.log2_lt_pow2; lia).
  assert (H52 : Z.log2 (Z.pos m) < 52 ↔ Z.pos m < 2 ^ 52) by (symmetry; apply Z.log2_lt_pow2; lia).
  split; [lia|]. split; [|apply H53; lia]. intros Hm. apply H52 in Hm. lia.
Qed.

Lemma split_bits s hi lo :
  0 ≤ hi < 2048 → 0 ≤ lo < 2 ^ 52 →
  let u := sign_bit s + Z.shiftl hi 52 + lo in
  Z.testbit u 63 = s ∧ Z.land (Z.shiftr u 52) 2047 = hi ∧ Z.land u (Z.ones 52) = lo.
Proof.
  intros Hh Hl u. unfold u. rewrite Z.shiftl_mul_pow2 by lia.
  change 2047 with (Z.ones 11). rewrite !Z.land_ones, Z.shiftr_div_pow2 by lia.
  assert (Hsb : sign_bit s = Z.b2z s * 2 ^ 11 * 2 ^ 52) by (destruct s; reflexivity).
  rewrite Hsb. split_and!.
  - apply Z.b2z_inj. rewrite Z.testbit_spec' by lia.
    replace (Z.b2z s * 2 ^ 11 * 2 ^ 52 + hi * 2 ^ 52 + lo) with (Z.b2z s * 2 ^ 63 + (hi * 2 ^ 52 + lo)) by (change (2 ^ 63) with (2 ^ 11 * 2 ^ 52); ring).
    rewrite Z.div_add_l, (Z.div_small (hi * 2 ^ 52 + lo)) by lia. rewrite Z.add_0_r. by destruct s.
  - replace (Z.b2z s * 2 ^ 11 * 2 ^ 52 + hi * 2 ^ 52 + lo) with ((Z.b2z s * 2 ^ 11 + hi) * 2 ^ 52 + lo) by ring.
    rewrite Z.div_add_l, (Z.div_small lo) by lia. rewrite Z.add_0_r, Z.add_comm, Z.mod_add by lia. by apply Z.mod_small.
  - replace (Z.b2z s * 2 ^ 11 * 2 ^ 52 + hi * 2 ^ 52 + lo) with (lo + (Z.b2z s * 2 ^ 11 + hi) * 2 ^ 52) by ring.
    rewrite Z.mod_add by lia. by apply Z.mod_small.
Qed.

(** Every double survives the cast to its bits and back. *)
Lemma double_bits_roundtrip v : valid_binary 53 1024 v = true → bits_to_double (double_to_bits v) = v.
Proof.
  destruct v as [s|s| |s m e]; cbn [valid_binary]; intros Hv.
  - by destruct s.
  - by destruct s.
  - done.
  - apply bounded_shape in Hv as (He & Hs & Hm). unfold double_to_bits.
    destruct (Z.ltb_spec (Z.pos m) (2 ^ 52)) as [Hlt|Hge].
    + rewrite (Hs Hlt). unfold bits_to_double.
      destruct (split_bits s 0 (Z.pos m)) as (H1 & H2 & H3); [lia..|]. rewrite Z.shiftl_0_l, Z.add_0_r in *.
      by rewrite H1, H2, H3.
    + unfold bits_to_double. destruct (split_bits s (e + 1075) (Z.pos m - 2 ^ 52)) as (-> & -> & ->); [lia..|].
      rewrite (proj2 (Z.eqb_neq (e + 1075) 2047)), (proj2 (Z.eqb_neq (e + 1075) 0)) by lia.
      replace (Z.pos m - 2 ^ 52 + 2 ^ 52) with (Z.pos m) by lia. f_equal. lia.
Qed.

Example format_g_examples :
  format_g (double_ratio 1 1000) = str "0.001" ∧ format_g (double_of_Z 10) = str "10" ∧
  format_g (double_of_Z 1234567) = str "1.23457e+06" ∧ format_g (double_ratio 1 3) = str "0.333333" ∧
  format_g (SFopp (double_ratio 123 100000000)) = str "-1.23e-06" ∧ format_g (double_of_Z 999999) = str "999999" ∧
  format_g (S754_finite false 1 (-1074)) = str "4.94066e-324" ∧
  format_g (S754_finite false (2 ^ 53 - 1) 971) = str "1.79769e+308" ∧
  format_g (double_of_Z 1000000) = str "1e+06" ∧ format_g (double_ratio 1 8) = str "0.125".
Proof. vm_compute. done. Qed.
