(* ===== verification/Metrics.v ===== *)
(** * Metrics (libs/distric_obs/src/metrics.c: registration and updates)

    A registry of counters, gauges and histograms.  Registration is serialised by a
    mutex; updates are atomic operations on the cells of a metric, so an update of a
    counter is one step, and the observation of a histogram is a sequence of steps that
    interleave with those of other threads. *)

From Stdlib Require Import ZArith Lia String SpecFloat.
From stdpp Require Import base list numbers option relations.
From S2P Require Import Prelude CString MetricLabels Doubles.

Local Open Scope Z_scope.

(** ** Data *)

Inductive metric_type := METRIC_TYPE_COUNTER | METRIC_TYPE_GAUGE | METRIC_TYPE_HISTOGRAM.

Definition HISTOGRAM_DEFAULT_BUCKETS : list spec_float :=
  [double_ratio 1 1000; double_ratio 5 1000; double_ratio 1 100; double_ratio 5 100; double_ratio 1 10;
   double_ratio 5 10; double_of_Z 1; double_of_Z 5; double_of_Z 10; S754_infinity false].
Definition HISTOGRAM_BUCKET_COUNT : nat := 10.

Record histogram_bucket := HistogramBucket {
  hb_upper_bound : spec_float;
  hb_count : Z          (* _Atomic uint64_t *)
}.

Record histogram_instance := HistogramInstance {
  hi_buckets : list histogram_bucket;
  hi_count : Z;         (* _Atomic uint64_t *)
  hi_sum_bits : Z       (* _Atomic uint64_t *)
}.

(** The union with its tag: an access through the member of another type is a [Fault]. *)
Inductive instance_array :=
  | Counters (cells : list Z)
  | Gauges (cells : list Z)
  | Histograms (cells : list histogram_instance).

Record metric := Metric {
  m_name : list Z;
  m_help : list Z;
  m_type : metric_type;
  m_label_defs : list metric_label_definition;
  m_strides : list Z;
  m_cardinality : nat;
  m_labels_table : option (list (list metric_label));
  m_instances : instance_array
}.

Definition set_instances (a : instance_array) (m : metric) : metric :=
  Metric (m_name m) (m_help m) (m_type m) (m_label_defs m) (m_strides m) (m_cardinality m) (m_labels_table m) a.

Inductive registry_state := REGISTRY_STATE_MUTABLE | REGISTRY_STATE_FROZEN | REGISTRY_STATE_DESTROYED.

(** [metrics] holds the first [metric_count] entries of the array. *)
Record metrics_registry := MetricsRegistry {
  mr_metrics : list metric;
  mr_effective_max : Z;
  mr_cardinality_cap : Z;
  mr_state : registry_state;
  mr_refcount : Z          (* _Atomic uint32_t *)
}.

Record metrics_config := MetricsConfig { mc_max_metrics : Z; mc_max_cardinality : Z }.

(** ** Life cycle *)

Definition effective_limit (wanted max : Z) : Z := if (wanted =? 0) || (wanted >? max) then max else wanted.

Definition metrics_init_with_config (config : option metrics_config) (calloc_ok mutex_ok : bool) : result metrics_registry :=
  if negb calloc_ok then Err DISTRIC_ERR_ALLOC_FAILURE
  else if negb mutex_ok then Err DISTRIC_ERR_INIT_FAILED
  else
    Ok (MetricsRegistry []
          (effective_limit (match config with Some c => mc_max_metrics c | None => 0 end) (Z.of_nat DISTRIC_MAX_METRICS))
          (effective_limit (match config with Some c => mc_max_cardinality c | None => 0 end) DISTRIC_MAX_METRIC_CARDINALITY)
          REGISTRY_STATE_MUTABLE 1).

Definition metrics_init (calloc_ok mutex_ok : bool) : result metrics_registry :=
  metrics_init_with_config (Some (MetricsConfig 0 0)) calloc_ok mutex_ok.

Definition mr_set_state (s : registry_state) (r : metrics_registry) : metrics_registry :=
  MetricsRegistry (mr_metrics r) (mr_effective_max r) (mr_cardinality_cap r) s (mr_refcount r).
Definition mr_set_refcount (n : Z) (r : metrics_registry) : metrics_registry :=
  MetricsRegistry (mr_metrics r) (mr_effective_max r) (mr_cardinality_cap r) (mr_state r) n.
Definition mr_set_metrics (l : list metric) (r : metrics_registry) : metrics_registry :=
  MetricsRegistry l (mr_effective_max r) (mr_cardinality_cap r) (mr_state r) (mr_refcount r).

Definition metrics_freeze (r : metrics_registry) : metrics_registry := mr_set_state REGISTRY_STATE_FROZEN r.

(** The assertion fails, and the program is aborted, when no reference is left. *)
Definition metrics_retain (r : metrics_registry) : result metrics_registry :=
  if mr_refcount r >? 0 then Ok (mr_set_refcount (u32 (mr_refcount r + 1)) r) else Fault.

(** The heap blocks of a metric, and those [metrics_destroy] frees: it frees the buckets
    of the first [cardinality] histograms. *)
Definition table_blocks (m : metric) : nat := match m_labels_table m with Some _ => 1 | None => 0 end.
Definition metric_blocks (m : metric) : nat :=
  (table_blocks m + 1 +
   match m_instances m with Histograms cells => length cells | _ => 0 end)%nat.
Definition destroy_metric (m : metric) : result nat :=
  match m_instances m with
  | Histograms cells =>
      if (m_cardinality m <=? length cells)%nat then Ok (table_blocks m + 1 + m_cardinality m)%nat
      else Fault
  | _ => Ok (table_blocks m + 1)%nat
  end.

(** The number of blocks freed, the registry included. *)
Fixpoint destroy_metrics (ms : list metric) : result nat :=
  match ms with
  | [] => Ok 0%nat
  | m :: ms => k ← destroy_metric m; ks ← destroy_metrics ms; Ok (k + ks)%nat
  end.
Definition metrics_destroy (r : metrics_registry) : result nat := k ← destroy_metrics (mr_metrics r); Ok (S k).

(** The registry that is left, or the blocks that were freed with it. *)
Definition metrics_release (r : metrics_registry) : result (metrics_registry + nat) :=
  let prev := mr_refcount r in
  let r := mr_set_refcount (u32 (prev - 1)) r in
  if negb (prev >? 0) then Fault
  else if prev =? 1 then k ← metrics_destroy r; Ok (inr k) else Ok (inl r).

(** ** Registration *)

(** Whether the allocations and the mutex succeed; [rv_buckets] for each instance. *)
Record register_env := RegisterEnv {
  rv_table : bool;
  rv_instances : bool;
  rv_buckets : nat → bool;
  rv_mutex : bool
}.

Definition new_histogram : histogram_instance :=
  HistogramInstance ((λ ub, HistogramBucket ub 0) <$> HISTOGRAM_DEFAULT_BUCKETS) 0 0.

(** The slots: with labels there is one more, the unlabelled base. *)
Definition alloc_slots (defs : list metric_label_definition) (card : nat) : nat :=
  if (0 <? length defs)%nat then S card else card.

Definition new_instances (type : metric_type) (slots : nat) (env : register_env) : result instance_array :=
  if negb (rv_instances env) then Err DISTRIC_ERR_ALLOC_FAILURE
  else
    match type with
    | METRIC_TYPE_COUNTER => Ok (Counters (replicate slots 0))
    | METRIC_TYPE_GAUGE => Ok (Gauges (replicate slots 0))
    | METRIC_TYPE_HISTOGRAM =>
        if forallb (rv_buckets env) (seq 0 slots) then Ok (Histograms (replicate slots new_histogram))
        else Err DISTRIC_ERR_ALLOC_FAILURE
    end.

(** [label_defs] is [None] for [NULL]; the answer is the index of the metric. *)
Definition register_metric (r : metrics_registry) (name help : list Z) (type : metric_type)
    (label_defs : option (list metric_label_definition)) (label_def_count : nat) (env : register_env) :
    result nat * metrics_registry :=
  if (DISTRIC_MAX_METRIC_LABELS <? label_def_count)%nat then (Err DISTRIC_ERR_INVALID_ARG, r)
  else
    let defs := match label_defs with Some l => take label_def_count l | None => [] end in
    if negb (length defs =? label_def_count)%nat then (Fault, r)
    else
      let card := compute_cardinality defs in
      if (card =? 0) && (0 <? label_def_count)%nat then (Err DISTRIC_ERR_HIGH_CARDINALITY, r)
      else if card >? mr_cardinality_cap r then (Err DISTRIC_ERR_HIGH_CARDINALITY, r)
      else
        match mr_state r with
        | REGISTRY_STATE_FROZEN => (Err DISTRIC_ERR_REGISTRY_FROZEN, r)
        | REGISTRY_STATE_DESTROYED => (Err DISTRIC_ERR_SHUTDOWN, r)
        | REGISTRY_STATE_MUTABLE =>
            let idx := length (mr_metrics r) in
            if Z.of_nat idx >=? mr_effective_max r then (Err DISTRIC_ERR_REGISTRY_FULL, r)
            else
              let card := Z.to_nat card in
              let strides := compute_strides defs in
              let table := if rv_table env then build_labels_table defs strides card else None in
              if (0 <? label_def_count)%nat && bool_decide (table = None) then (Err DISTRIC_ERR_ALLOC_FAILURE, r)
              else
                match new_instances type (alloc_slots defs card) env with
                | Err e => (Err e, r)
                | Fault => (Fault, r)
                | Ok instances =>
                    if negb (rv_mutex env) then (Err DISTRIC_ERR_INIT_FAILED, r)
                    else
                      let m := Metric (strncpy (DISTRIC_MAX_METRIC_NAME_LEN - 1) name)
                                 (strncpy (DISTRIC_MAX_METRIC_HELP_LEN - 1) help) type defs strides card table instances in
                      (Ok idx, mr_set_metrics (mr_metrics r ++ [m]) r)
                end
        end.

Definition metrics_register_counter r name help := register_metric r name help METRIC_TYPE_COUNTER.
Definition metrics_register_gauge r name help := register_metric r name help METRIC_TYPE_GAUGE.
Definition metrics_register_histogram r name help := register_metric r name help METRIC_TYPE_HISTOGRAM.

(** ** Counters *)

Definition base_slot (m : metric) : nat := if (0 <? length (m_label_defs m))%nat then m_cardinality m else 0%nat.
Definition flat_index (m : metric) (labels : list metric_label) : Z :=
  compute_flat_index (m_label_defs m) (m_strides m) labels.

(** [atomic_fetch_add] of a cell. *)
Definition counter_cell_add (m : metric) (idx : nat) (value : Z) : result metric :=
  match m_instances m with
  | Counters cells =>
      match cells !! idx with
      | Some v => Ok (set_instances (Counters (<[idx := u64 (v + value)]> cells)) m)
      | None => Fault
      end
  | _ => Fault
  end.

Definition metrics_counter_add (m : metric) (value : Z) : result metric := counter_cell_add m (base_slot m) value.
Definition metrics_counter_inc (m : metric) : result metric := metrics_counter_add m 1.

Definition metrics_counter_add_labels (m : metric) (labels : list metric_label) (value : Z) : result metric :=
  let idx := flat_index m labels in
  if idx <? 0 then Err DISTRIC_ERR_INVALID_LABEL else counter_cell_add m (Z.to_nat idx) value.
Definition metrics_counter_inc_labels (m : metric) (labels : list metric_label) : result metric :=
  metrics_counter_add_labels m labels 1.

Definition metrics_counter_get (m : metric) : result Z :=
  match m_instances m with
  | Counters cells => match cells !! base_slot m with Some v => Ok v | None => Fault end
  | _ => Fault
  end.

Definition metrics_counter_get_labeled_total (m : metric) : result Z :=
  match m_instances m with
  | Counters cells =>
      if (length (m_label_defs m) =? 0)%nat || (m_cardinality m =? 0)%nat then
        match cells !! 0%nat with Some v => Ok v | None => Fault end
      else if (m_cardinality m <=? length cells)%nat then
        Ok (foldl (λ total v, u64 (total + v)) 0 (take (m_cardinality m) cells))
      else Fault
  | _ => Fault
  end.

(** ** Gauges *)

Definition gauge_cell_set (m : metric) (idx : nat) (value : spec_float) : result metric :=
  match m_instances m with
  | Gauges cells =>
      if (idx <? length cells)%nat then Ok (set_instances (Gauges (<[idx := double_to_bits value]> cells)) m) else Fault
  | _ => Fault
  end.

(** The slot is 0, also with labels. *)
Definition metrics_gauge_set (m : metric) (value : spec_float) : result metric := gauge_cell_set m 0 value.
Definition metrics_gauge_set_labels (m : metric) (labels : list metric_label) (value : spec_float) : result metric :=
  let idx := flat_index m labels in
  if idx <? 0 then Err DISTRIC_ERR_INVALID_LABEL else gauge_cell_set m (Z.to_nat idx) value.
Definition metrics_gauge_get (m : metric) : result spec_float :=
  match m_instances m with
  | Gauges cells => match cells !! 0%nat with Some v => Ok (bits_to_double v) | None => Fault end
  | _ => Fault
  end.

(** ** Histograms *)

(** Where the observation of a value stands. *)
Inductive observe_phase :=
  | ObCount
  | ObLoad
  | ObCas (old_bits : Z)
  | ObBucket (i : nat)
  | ObDone.

Definition add_bits (value : spec_float) (bits : Z) : Z := double_to_bits (double_add (bits_to_double bits) value).

Definition hi_set_count (c : Z) (h : histogram_instance) : histogram_instance :=
  HistogramInstance (hi_buckets h) c (hi_sum_bits h).
Definition hi_set_sum (s : Z) (h : histogram_instance) : histogram_instance :=
  HistogramInstance (hi_buckets h) (hi_count h) s.
Definition hi_set_buckets (b : list histogram_bucket) (h : histogram_instance) : histogram_instance :=
  HistogramInstance b (hi_count h) (hi_sum_bits h).

Definition bucket_add (value : spec_float) (b : histogram_bucket) : histogram_bucket :=
  if double_le value (hb_upper_bound b) then HistogramBucket (hb_upper_bound b) (u64 (hb_count b + 1)) else b.

(** One atomic operation of an observation; the weak exchange can fail without a
    reason, [spurious]. *)
Definition observe_turn (value : spec_float) (spurious : bool) (h : histogram_instance) (ph : observe_phase) :
    histogram_instance * observe_phase :=
  match ph with
  | ObCount => (hi_set_count (u64 (hi_count h + 1)) h, ObLoad)
  | ObLoad => (h, ObCas (hi_sum_bits h))
  | ObCas old_bits =>
      if (hi_sum_bits h =? old_bits) && negb spurious then (hi_set_sum (add_bits value old_bits) h, ObBucket 0)
      else (h, ObLoad)
  | ObBucket i =>
      match hi_buckets h !! i with
      | Some b => (hi_set_buckets (<[i := bucket_add value b]> (hi_buckets h)) h, ObBucket (S i))
      | None => (h, ObDone)
      end
  | ObDone => (h, ObDone)
  end.

(** An observation no other thread interferes with. *)
Definition observe (value : spec_float) (h : histogram_instance) : histogram_instance :=
  HistogramInstance (bucket_add value <$> hi_buckets h) (u64 (hi_count h + 1)) (add_bits value (hi_sum_bits h)).

Definition histogram_cell_observe (m : metric) (idx : nat) (value : spec_float) : result metric :=
  match m_instances m with
  | Histograms cells =>
      match cells !! idx with
      | Some h => Ok (set_instances (Histograms (<[idx := observe value h]> cells)) m)
      | None => Fault
      end
  | _ => Fault
  end.

Definition metrics_histogram_observe (m : metric) (value : spec_float) : result metric := histogram_cell_observe m 0 value.
Definition metrics_histogram_observe_labels (m : metric) (labels : list metric_label) (value : spec_float) : result metric :=
  let idx := flat_index m labels in
  if idx <? 0 then Err DISTRIC_ERR_INVALID_LABEL else histogram_cell_observe m (Z.to_nat idx) value.

Definition metrics_histogram_get_count (m : metric) : result Z :=
  match m_instances m with
  | Histograms (h :: _) => Ok (hi_count h)
  | _ => Fault
  end.
Definition metrics_histogram_get_sum (m : metric) : result spec_float :=
  match m_instances m with
  | Histograms (h :: _) => Ok (bits_to_double (hi_sum_bits h))
  | _ => Fault
  end.

(** ** Well-formed metrics *)

Definition instances_length (a : instance_array) : nat :=
  match a with Counters l => length l | Gauges l => length l | Histograms l => length l end.
Definition instances_type (a : instance_array) : metric_type :=
  match a with Counters _ => METRIC_TYPE_COUNTER | Gauges _ => METRIC_TYPE_GAUGE | Histograms _ => METRIC_TYPE_HISTOGRAM end.

Record metric_wf (m : metric) : Prop := {
  mw_defs : Forall bounded_def (m_label_defs m) ∧ (length (m_label_defs m) ≤ DISTRIC_MAX_METRIC_LABELS)%nat;
  mw_strides : m_strides m = compute_strides (m_label_defs m);
  mw_cardinality : Z.of_nat (m_cardinality m) = product (m_label_defs m) ∧
                   Z.of_nat (m_cardinality m) ≤ DISTRIC_MAX_METRIC_CARDINALITY;
  mw_slots : instances_length (m_instances m) = alloc_slots (m_label_defs m) (m_cardinality m);
  mw_type : instances_type (m_instances m) = m_type m;
  mw_strings : (length (m_name m) < DISTRIC_MAX_METRIC_NAME_LEN)%nat ∧ (length (m_help m) < DISTRIC_MAX_METRIC_HELP_LEN)%nat;
  mw_table : m_labels_table m = build_labels_table (m_label_defs m) (m_strides m) (m_cardinality m)
}.

Record registry_wf (r : metrics_registry) : Prop := {
  rw_metrics : Forall metric_wf (mr_metrics r);
  rw_count : Z.of_nat (length (mr_metrics r)) ≤ mr_effective_max r;
  rw_max : 1 ≤ mr_effective_max r ≤ Z.of_nat DISTRIC_MAX_METRICS;
  rw_cap : 1 ≤ mr_cardinality_cap r ≤ DISTRIC_MAX_METRIC_CARDINALITY
}.

Lemma effective_limit_range wanted max : 0 ≤ wanted → 1 ≤ max → 1 ≤ effective_limit wanted max ≤ max.
Proof. intros. unfold effective_limit. destruct (Z.eqb_spec wanted 0), (Z.gtb_spec wanted max); cbn [orb]; lia. Qed.

Lemma new_instances_spec type slots env a :
  new_instances type slots env = Ok a → instances_length a = slots ∧ instances_type a = type.
Proof.
  unfold new_instances. destruct (rv_instances env); [|done]. cbn [negb].
  destruct type; [intros [= <-]..|destruct (forallb _ _); [intros [= <-]|done]]; (split; [apply length_replicate|done]).
Qed.

Lemma base_slot_lt m : metric_wf m → (base_slot m < instances_length (m_instances m))%nat ∧ (m_cardinality m ≤ instances_length (m_instances m))%nat.
Proof.
  intros Hm. rewrite (mw_slots m Hm). destruct (mw_cardinality m Hm) as [Hc _].
  pose proof (product_pos _ (proj1 (mw_defs m Hm))). unfold base_slot, alloc_slots. destruct (0 <? _)%nat; lia.
Qed.

(** An index of labels is -1 or that of a labelled slot. *)
Lemma flat_index_range m labels : metric_wf m → flat_index m labels = -1 ∨ 0 ≤ flat_index m labels < Z.of_nat (m_cardinality m).
Proof.
  intros Hm. destruct (mw_cardinality m Hm) as [Hc Hmax]. destruct (mw_defs m Hm) as [Hb _]. unfold flat_index.
  rewrite (mw_strides m Hm), Hc.
  destruct (compute_flat_index_spec (m_label_defs m) labels Hb) as [[Hi|(vis & Hv & Hi)] _];
    [unfold DISTRIC_MAX_METRIC_CARDINALITY in *; lia|by left|]. right. rewrite Hi.
  apply flat_of_range; [done|]. by eapply has_ordinals_ok.
Qed.

(** Without labels the only index is 0. *)
Lemma flat_index_unlabelled m labels : m_label_defs m = [] → flat_index m labels = -1 ∨ flat_index m labels = 0.
Proof. intros Hd. unfold flat_index, compute_flat_index. rewrite Hd. cbn. destruct labels; auto. Qed.

Lemma set_instances_wf a m :
  metric_wf m → instances_length a = instances_length (m_instances m) → instances_type a = instances_type (m_instances m) →
  metric_wf (set_instances a m).
Proof. intros [] Hl Ht. split; try assumption; unfold set_instances; cbn [m_instances m_label_defs m_cardinality m_type]; congruence. Qed.

(** ** The accounts of a counter *)

Inductive counter_op :=
  | OpAdd (value : Z)
  | OpAddLabels (labels : list metric_label) (value : Z).

(** The updates one after the other; an update that is refused changes nothing. *)
Definition counter_step (op : counter_op) (m : metric) : result metric :=
  match op with
  | OpAdd v => metrics_counter_add m v
  | OpAddLabels labels v =>
      match metrics_counter_add_labels m labels v with
      | Err _ => Ok m
      | r => r
      end
  end.
Fixpoint counter_run (ops : list counter_op) (m : metric) : result metric :=
  match ops with
  | [] => Ok m
  | op :: ops => m ← counter_step op m; counter_run ops m
  end.

(** What an update adds to a slot. *)
Definition op_slot (m : metric) (op : counter_op) : option nat :=
  match op with
  | OpAdd _ => Some (base_slot m)
  | OpAddLabels labels _ => if flat_index m labels <? 0 then None else Some (Z.to_nat (flat_index m labels))
  end.
Definition op_value (op : counter_op) : Z := match op with OpAdd v => v | OpAddLabels _ v => v end.
Definition added (m : metric) (slot : nat) (ops : list counter_op) : Z :=
  sumZ (λ op, if decide (op_slot m op = Some slot) then op_value op else 0) ops.

Lemma added_cons m slot op ops :
  added m slot (op :: ops) = (if decide (op_slot m op = Some slot) then op_value op else 0) + added m slot ops.
Proof. done. Qed.

Lemma counter_cell_add_ok m cells idx value :
  metric_wf m → m_instances m = Counters cells → (idx < length cells)%nat →
  ∃ v, cells !! idx = Some v ∧ counter_cell_add m idx value = Ok (set_instances (Counters (<[idx := u64 (v + value)]> cells)) m).
Proof.
  intros Hm Hc Hi. destruct (lookup_lt_is_Some_2 cells idx Hi) as [v Hv]. exists v. split; [done|].
  unfold counter_cell_add. by rewrite Hc, Hv.
Qed.

Lemma op_slot_lt m op slot : metric_wf m → op_slot m op = Some slot → (slot < instances_length (m_instances m))%nat.
Proof.
  intros Hm. destruct (base_slot_lt m Hm) as [Hb Hc]. destruct op as [v|labels v]; cbn [op_slot]; [by intros [= <-]|].
  destruct (flat_index_range m labels Hm) as [->|Hr]; [done|]. rewrite (proj2 (Z.ltb_ge _ _)) by lia. intros [= <-]. lia.
Qed.

Lemma counter_step_ok m cells op :
  metric_wf m → m_instances m = Counters cells →
  ∃ cells', counter_step op m = Ok (set_instances (Counters cells') m) ∧ length cells' = length cells ∧
    ∀ i v, cells !! i = Some v →
      cells' !! i = Some (if decide (op_slot m op = Some i) then u64 (v + op_value op) else v).
Proof.
  intros Hm Hc.
  assert (Hin : ∀ idx, op_slot m op = Some idx → counter_step op m = counter_cell_add m idx (op_value op)).
  { intros idx. destruct op as [v|labels v]; cbn; [by intros [= <-]|]. unfold metrics_counter_add_labels.
    destruct (flat_index m labels <? 0); [done|]. intros [= <-].
    unfold counter_cell_add. rewrite Hc. by destruct (cells !! _). }
  destruct (op_slot m op) as [idx|] eqn:Hs.
  - rewrite (Hin idx eq_refl). pose proof (op_slot_lt m op idx Hm Hs) as Hlt. rewrite Hc in Hlt.
    destruct (counter_cell_add_ok m cells idx (op_value op) Hm Hc Hlt) as (v & Hv & ->).
    eexists. split; [reflexivity|]. split; [by rewrite length_insert|]. intros i w Hi.
    destruct (decide (Some idx = Some i)) as [[= ->]|Hne].
    + rewrite list_lookup_insert_eq by done. by rewrite Hv in Hi; injection Hi as ->.
    + rewrite list_lookup_insert_ne by congruence. by rewrite Hi.
  - exists cells. destruct op as [v|labels v]; [done|]. cbn in Hs |- *. unfold metrics_counter_add_labels.
    destruct (flat_index m labels <? 0); [|done]. rewrite <- Hc. split_and!; [by destruct m|done|].
    intros i w Hi. rewrite Hi. by rewrite decide_False by done.
Qed.

Lemma counter_run_cells m ops cells :
  metric_wf m → m_instances m = Counters cells → Forall is_u64 cells →
  ∃ cells', counter_run ops m = Ok (set_instances (Counters cells') m) ∧ length cells' = length cells ∧
    ∀ i v, cells !! i = Some v → cells' !! i = Some (u64 (v + added m i ops)).
Proof.
  revert m cells. induction ops as [|op ops IH]; intros m cells Hm Hc Hu.
  - exists cells. cbn. rewrite <- Hc. split_and!; [by destruct m|done|]. intros i v Hi. rewrite Hi. f_equal.
    rewrite Z.add_0_r. symmetry. apply u64_id. exact (Forall_lookup_1 _ _ _ _ Hu Hi).
  - destruct (counter_step_ok m cells op Hm Hc) as (cells1 & Hs & Hl & Hcells). cbn [counter_run]. rewrite Hs. cbn [mbind result_bind].
    set (m1 := set_instances (Counters cells1) m).
    assert (Hm1 : metric_wf m1) by (apply set_instances_wf; [done|rewrite Hc; exact Hl|by rewrite Hc]).
    assert (Hu1 : Forall is_u64 cells1).
    { apply Forall_lookup_2. intros i w Hi. destruct (lookup_lt_is_Some_2 cells i) as [v Hv].
      { rewrite <- Hl. by eapply lookup_lt_Some. }
      rewrite (Hcells i v Hv) in Hi. injection Hi as <-. case_decide; [apply u64_range|].
      exact (Forall_lookup_1 _ _ _ _ Hu Hv). }
    destruct (IH m1 cells1 Hm1 eq_refl Hu1) as (cells' & Hr & Hl' & Hc'). exists cells'. rewrite Hr.
    split; [done|]. split; [congruence|]. intros i v Hi. rewrite (Hc' i _ (Hcells i v Hi)). f_equal.
    assert (Ha : added m1 i ops = added m i ops) by done. rewrite Ha, added_cons. case_decide; [|by rewrite Z.add_0_l].
    unfold u64. rewrite Zplus_mod_idemp_l. f_equal. lia.
Qed.

(** A sum modulo 2^64, as the loop of the total takes it. *)
Lemma foldl_u64 l t : is_u64 t → foldl (λ total v, u64 (total + v)) t l = u64 (t + sumZ id l).
Proof.
  revert t. induction l as [|x l IH]; intros t Ht; cbn [foldl sumZ foldr]; [by rewrite Z.add_0_r, u64_id|].
  rewrite IH by apply u64_range. unfold u64 at 2. unfold u64. rewrite Zplus_mod_idemp_l. f_equal. unfold sumZ, id. lia.
Qed.

(** What an update adds to the first [n] slots together. *)
Definition op_below (m : metric) (n : nat) (op : counter_op) : Z :=
  match op_slot m op with Some s => if (s <? n)%nat then op_value op else 0 | None => 0 end.

Lemma sumZ_add {A} (f g : A → Z) l : sumZ (λ x, f x + g x) l = sumZ f l + sumZ g l.
Proof. unfold sumZ. induction l as [|x l IH]; cbn in *; lia. Qed.

Lemma sumZ_point s v a n :
  sumZ (λ i, if decide (Some s = Some i) then v else 0) (seq a n) = if decide (a ≤ s < a + n)%nat then v else 0.
Proof.
  revert a. induction n as [|n IH]; intros a; [by rewrite decide_False by lia|].
  unfold sumZ in *. cbn [seq foldr]. rewrite IH.
  destruct (decide (s = a)) as [->|]; [rewrite decide_True by done|rewrite (decide_False (P := Some s = Some a)) by congruence]; repeat case_decide; lia.
Qed.

(** The slots below [n] share the updates that go to them. *)
Lemma added_slots m ops n : sumZ (λ i, added m i ops) (seq 0 n) = sumZ (op_below m n) ops.
Proof.
  induction ops as [|op ops IH]; [by apply sumZ_const_0, Forall_true|].
  change (sumZ (λ i, (if decide (op_slot m op = Some i) then op_value op else 0) + added m i ops) (seq 0 n) =
    op_below m n op + sumZ (op_below m n) ops).
  rewrite sumZ_add, IH. f_equal. unfold op_below. destruct (op_slot m op) as [s|].
  - rewrite sumZ_point. destruct (Nat.ltb_spec s n); [by rewrite decide_True by lia|by rewrite decide_False by lia].
  - apply sumZ_const_0, Forall_true. intros i. by rewrite decide_False by done.
Qed.

Lemma u64_add_l x y : u64 (u64 x + y) = u64 (x + y).
Proof. apply Zplus_mod_idemp_l. Qed.
Lemma u64_add_r x y : u64 (x + u64 y) = u64 (x + y).
Proof. apply Zplus_mod_idemp_r. Qed.

Lemma sum_u64 {A} (f : A → Z) l : u64 (sumZ (λ x, u64 (f x)) l) = u64 (sumZ f l).
Proof.
  induction l as [|x l IH]; [done|].
  change (u64 (u64 (f x) + sumZ (λ x, u64 (f x)) l) = u64 (f x + sumZ f l)).
  by rewrite u64_add_l, <- u64_add_r, IH, u64_add_r.
Qed.

Lemma total_cells m ops cells :
  (m_cardinality m ≤ length cells)%nat →
  (∀ i, (i < m_cardinality m)%nat → cells !! i = Some (u64 (added m i ops))) →
  foldl (λ total v, u64 (total + v)) 0 (take (m_cardinality m) cells) = u64 (sumZ (op_below m (m_cardinality m)) ops).
Proof.
  intros Hlen Hc. rewrite foldl_u64 by done. rewrite Z.add_0_l, <- added_slots.
  assert (Ht : take (m_cardinality m) cells = (λ i, u64 (added m i ops)) <$> seq 0 (m_cardinality m)).
  { apply list_eq. intros i. destruct (decide (i < m_cardinality m)%nat) as [Hi|Hi].
    - rewrite lookup_take_lt, (Hc i Hi), list_lookup_fmap, lookup_seq_lt by done. done.
    - rewrite !lookup_ge_None_2; [done|rewrite length_fmap, length_seq; lia|rewrite length_take; lia]. }
  rewrite Ht, <- (sum_u64 (λ i, added m i ops)). f_equal. generalize (seq 0 (m_cardinality m)). intros l. unfold sumZ, id.
  induction l as [|x l IH]; [reflexivity|]. cbn [fmap list_fmap List.map foldr] in *. f_equal. exact IH.
Qed.

(** The updates of the two paths. *)
Definition unlabelled_value (op : counter_op) : Z := match op with OpAdd v => v | OpAddLabels _ _ => 0 end.
Definition labelled_value (m : metric) (op : counter_op) : Z :=
  match op with OpAdd _ => 0 | OpAddLabels labels v => if flat_index m labels <? 0 then 0 else v end.

Lemma base_slot_labelled m : m_label_defs m ≠ [] → base_slot m = m_cardinality m.
Proof. intros Hd. unfold base_slot. by destruct (m_label_defs m). Qed.

Lemma op_below_labelled m op : metric_wf m → m_label_defs m ≠ [] → op_below m (m_cardinality m) op = labelled_value m op.
Proof.
  intros Hm Hd. unfold op_below, labelled_value. destruct op as [v|labels v]; cbn [op_slot op_value].
  - rewrite base_slot_labelled by done. by rewrite (proj2 (Nat.ltb_ge _ _)) by lia.
  - destruct (flat_index_range m labels Hm) as [->|Hr]; [done|]. rewrite (proj2 (Z.ltb_ge _ _)) by lia.
    by rewrite (proj2 (Nat.ltb_lt _ _)) by lia.
Qed.

Lemma base_slot_unlabelled m op :
  metric_wf m → m_label_defs m ≠ [] →
  (if decide (op_slot m op = Some (base_slot m)) then op_value op else 0) = unlabelled_value op.
Proof.
  intros Hm Hd. destruct op as [v|labels v]; cbn [op_slot op_value unlabelled_value]; [by rewrite decide_True by done|].
  apply decide_False. destruct (flat_index_range m labels Hm) as [->|Hr]; [done|]. rewrite (proj2 (Z.ltb_ge _ _)) by lia.
  rewrite base_slot_labelled by done. intros [=]. lia.
Qed.

Lemma sumZ_ext {A} (f g : A → Z) l : (∀ x, f x = g x) → sumZ f l = sumZ g l.
Proof. intros H. unfold sumZ. induction l as [|x l IH]; cbn; [done|]. by rewrite H, IH. Qed.

(** The accounts of a labelled counter: whatever labelled and unlabelled updates come,
    in any order, none is undefined, those with unknown labels are refused, and afterwards
    every label set holds the sum of the updates made with it, the counter without labels
    the sum of the unlabelled updates and nothing else, and the labelled total the sum of
    the labelled updates, all modulo 2^64. *)
Theorem counters_account m ops :
  metric_wf m → m_label_defs m ≠ [] → m_instances m = Counters (replicate (S (m_cardinality m)) 0) →
  ∃ m' cells, counter_run ops m = Ok m' ∧ m_instances m' = Counters cells ∧
    metrics_counter_get m' = Ok (u64 (sumZ unlabelled_value ops)) ∧
    metrics_counter_get_labeled_total m' = Ok (u64 (sumZ (labelled_value m) ops)) ∧
    (∀ labels, 0 ≤ flat_index m labels →
       cells !! Z.to_nat (flat_index m labels) =
         Some (u64 (sumZ (λ op, match op with
                                | OpAddLabels l v => if flat_index m l =? flat_index m labels then v else 0
                                | OpAdd _ => 0
                                end) ops))).
Proof.
  intros Hm Hd Hi. destruct (counter_run_cells m ops _ Hm Hi) as (cells & Hr & Hl & Hc).
  { by apply Forall_replicate. }
  rewrite length_replicate in Hl.
  assert (Hcell : ∀ i, (i < S (m_cardinality m))%nat → cells !! i = Some (u64 (added m i ops))).
  { intros i Hlt. rewrite (Hc i 0); [by rewrite Z.add_0_l|]. by apply lookup_replicate_2. }
  exists (set_instances (Counters cells) m), cells. split; [done|]. split; [done|].
  pose proof (base_slot_labelled m Hd) as Hb.
  split_and!.
  - unfold metrics_counter_get. change (base_slot (set_instances (Counters cells) m)) with (base_slot m).
    cbn [set_instances m_instances]. rewrite Hb, Hcell by lia. unfold added. rewrite <- Hb. f_equal. f_equal.
    apply sumZ_ext. intros op. by apply base_slot_unlabelled.
  - unfold metrics_counter_get_labeled_total. cbn [set_instances m_instances m_label_defs m_cardinality].
    destruct (Nat.eqb_spec (length (m_label_defs m)) 0) as [E|_]; [by apply nil_length_inv in E|]. cbn [orb].
    destruct (mw_cardinality m Hm) as [Hcard _]. pose proof (product_pos _ (proj1 (mw_defs m Hm))).
    rewrite (proj2 (Nat.eqb_neq _ _)), (proj2 (Nat.leb_le _ _)) by lia. f_equal.
    rewrite (total_cells m ops) by (lia || (intros; apply Hcell; lia)). f_equal. apply sumZ_ext. intros op. by apply op_below_labelled.
  - intros labels Hlab. destruct (flat_index_range m labels Hm) as [E|Hr']; [lia|]. rewrite Hcell by lia. f_equal. f_equal.
    apply sumZ_ext. intros [v|l v]; cbn [op_slot op_value].
    + rewrite decide_False; [done|]. rewrite Hb. intros [=]. lia.
    + destruct (flat_index_range m l Hm) as [->|Hr2].
      * rewrite decide_False by done. by rewrite (proj2 (Z.eqb_neq _ _)) by lia.
      * rewrite (proj2 (Z.ltb_ge _ _)) by lia. destruct (Z.eqb_spec (flat_index m l) (flat_index m labels)) as [->|Hne].
        -- by rewrite decide_True by done.
        -- rewrite decide_False; [done|]. intros [=]. lia.
Qed.

(** ** Concurrent observations *)

(** An observation on its own: the turns of [metrics_histogram_observe] lead to
    [observe]. *)
Fixpoint observe_turns (k : nat) (value : spec_float) (h : histogram_instance) (ph : observe_phase) :
    histogram_instance * observe_phase :=
  match k with
  | O => (h, ph)
  | S k => let '(h, ph) := observe_turn value false h ph in observe_turns k value h ph
  end.

Lemma bucket_turns value done todo c s :
  observe_turns (S (length todo)) value (HistogramInstance (done ++ todo) c s) (ObBucket (length done)) =
    (HistogramInstance (done ++ (bucket_add value <$> todo)) c s, ObDone).
Proof.
  revert done. induction todo as [|b todo IH]; intros l.
  - cbn [length observe_turns observe_turn hi_buckets]. rewrite lookup_ge_None_2 by (rewrite length_app; cbn; lia). done.
  - cbn [length]. remember (S (length todo)) as k eqn:Hk. cbn [observe_turns observe_turn hi_buckets].
    rewrite list_lookup_middle by done. unfold hi_set_buckets. cbn [hi_buckets hi_count hi_sum_bits].
    rewrite insert_app_r_alt, Nat.sub_diag by lia. cbn [insert list_insert].
    rewrite cons_middle, app_assoc. replace (S (length l)) with (length (l ++ [bucket_add value b])) by (rewrite length_app; cbn; lia).
    subst k. rewrite IH. by rewrite <- app_assoc.
Qed.

Lemma observe_alone value h :
  observe_turns (4 + length (hi_buckets h)) value h ObCount = (observe value h, ObDone).
Proof.
  destruct h as [bs c s]. cbn [hi_buckets]. change (4 + length bs)%nat with (S (S (S (S (length bs))))). remember (S (length bs)) as k eqn:Hk.
  cbn [hi_buckets observe_turns observe_turn hi_set_count hi_count hi_sum_bits negb]. rewrite Z.eqb_refl. cbn [andb].
  subst k. exact (bucket_turns value [] bs (u64 (c + 1)) (add_bits value s)).
Qed.

Abbreviation observer := (spec_float * observe_phase)%type.

(** A turn of one of the threads. *)
Inductive observe_step : histogram_instance * list observer → histogram_instance * list observer → Prop :=
  | ObserveStep h ts j v ph spurious h' ph' :
      ts !! j = Some (v, ph) → observe_turn v spurious h ph = (h', ph') →
      observe_step (h, ts) (h', <[j := (v, ph')]> ts).

Definition past_count (t : observer) : bool := match t.2 with ObCount => false | _ => true end.
Definition past_sum (t : observer) : bool := match t.2 with ObBucket _ | ObDone => true | _ => false end.
Definition past_bucket (i : nat) (t : observer) : bool :=
  match t.2 with ObBucket k => (i <? k)%nat | ObDone => true | _ => false end.
Definition is_done (t : observer) : bool := match t.2 with ObDone => true | _ => false end.

(** The values of the threads that have added theirs to the sum. *)
Definition summed (ts : list observer) : list spec_float := (filter (λ t, past_sum t) ts).*1.
Definition counted_in (b : histogram_bucket) (i : nat) (t : observer) : Z :=
  Z.b2z (past_bucket i t && double_le t.1 (hb_upper_bound b)).

Section observations.
Variables (h0 : histogram_instance) (vs : list spec_float).

Record observed (s : histogram_instance * list observer) : Prop := {
  ob_values : s.2.*1 = vs;
  ob_count : hi_count s.1 = u64 (hi_count h0 + sumZ (λ t, Z.b2z (past_count t)) s.2);
  ob_sum : ∃ order, order ≡ₚ summed s.2 ∧ hi_sum_bits s.1 = foldl (λ bits v, add_bits v bits) (hi_sum_bits h0) order;
  ob_buckets : ∀ i, hi_buckets s.1 !! i =
    (λ b, HistogramBucket (hb_upper_bound b) (u64 (hb_count b + sumZ (counted_in b i) s.2))) <$> (hi_buckets h0 !! i);
  ob_places : Forall (λ t : observer, match t.2 with
                                     | ObBucket i => (i ≤ length (hi_buckets h0))%nat
                                     | _ => True end) s.2
}.

Lemma summed_same ts j v ph ph' :
  ts !! j = Some (v, ph) → past_sum (v, ph) = past_sum (v, ph') → summed (<[j := (v, ph')]> ts) = summed ts.
Proof.
  unfold summed. intros Hj Hp. revert j Hj. induction ts as [|t ts IH]; intros [|j] Hj; try done; cbn in Hj.
  - injection Hj as ->. cbn [insert list_insert]. rewrite !filter_cons. rewrite Hp. by destruct (decide _).
  - change (<[S j := (v, ph')]> (t :: ts)) with (t :: <[j := (v, ph')]> ts). rewrite !filter_cons.
    destruct (decide _); [cbn; f_equal|]; by apply IH.
Qed.

Lemma summed_new ts j v ph ph' :
  ts !! j = Some (v, ph) → past_sum (v, ph) = false → past_sum (v, ph') = true → summed (<[j := (v, ph')]> ts) ≡ₚ v :: summed ts.
Proof.
  unfold summed. intros Hj Hp Hp'. revert j Hj. induction ts as [|t ts IH]; intros [|j] Hj; try done; cbn in Hj.
  - injection Hj as ->. cbn [insert list_insert]. rewrite !filter_cons, Hp, Hp'. done.
  - change (<[S j := (v, ph')]> (t :: ts)) with (t :: <[j := (v, ph')]> ts). rewrite !filter_cons.
    destruct (decide _); cbn; rewrite (IH j Hj); [apply Permutation_swap|done].
Qed.

Lemma observed_step s s' : observe_step s s' → observed s → observed s'.
Proof.
  destruct 1 as [h ts j v ph spurious h' ph' Hj E]. intros [Hv Hc (order & Ho & Hs) Hb Hpl]. cbn [fst snd] in *.
  assert (Hv' : (<[j := (v, ph')]> ts).*1 = vs).
  { rewrite list_fmap_insert, Hv. cbn. apply list_insert_id. rewrite <- Hv, list_lookup_fmap. exact (f_equal (fmap fst) Hj). }
  pose proof (Forall_lookup_1 _ _ _ _ Hpl Hj) as Hpj. cbn in Hpj.
  (* a turn that changes no cell and no account *)
  assert (Hidle : h' = h → past_count (v, ph') = past_count (v, ph) → past_sum (v, ph) = past_sum (v, ph') →
    (∀ i b, counted_in b i (v, ph') = counted_in b i (v, ph) ∨ hi_buckets h0 !! i = None) →
    match ph' with ObBucket i => (i ≤ length (hi_buckets h0))%nat | _ => True end → observed (h', <[j := (v, ph')]> ts)).
  { intros -> Hpc Hps Hpb Hpl'. split; cbn [fst snd]; [done|..].
    - rewrite (sumZ_insert _ _ _ _ _ Hj), Hpc. rewrite Hc. f_equal. lia.
    - exists order. by rewrite (summed_same _ _ _ _ _ Hj Hps).
    - intros i. rewrite Hb. destruct (hi_buckets h0 !! i) as [b|] eqn:Hi; [|done]. cbn. do 3 f_equal.
      rewrite (sumZ_insert _ _ _ _ _ Hj). destruct (Hpb i b) as [->|?]; [lia|congruence].
    - by apply Forall_insert. }
  destruct ph as [| |old|k|]; cbn [observe_turn] in E.
  - injection E as <- <-. split; cbn [fst snd hi_set_count hi_count hi_sum_bits hi_buckets]; [done|..].
    + rewrite (sumZ_insert _ _ _ _ _ Hj), Hc, u64_add_l. cbn. f_equal. lia.
    + exists order. by rewrite (summed_same _ _ _ _ _ Hj).
    + intros i. rewrite Hb. destruct (hi_buckets h0 !! i) as [b|]; [|done]. cbn. do 3 f_equal.
      rewrite (sumZ_insert _ _ _ _ _ Hj). cbn. lia.
    + by apply Forall_insert.
  - injection E as <- <-. by apply Hidle; auto.
  - destruct (Z.eqb_spec (hi_sum_bits h) old) as [He|_]; cbn [andb] in E; [destruct spurious; cbn [negb] in E|];
      injection E as <- <-; [by apply Hidle; auto| |by apply Hidle; auto].
    split; cbn [fst snd hi_set_sum hi_count hi_sum_bits hi_buckets]; [done|..].
    + rewrite (sumZ_insert _ _ _ _ _ Hj), Hc. cbn. f_equal. lia.
    + exists (order ++ [v]). split.
      * rewrite (summed_new _ _ _ _ _ Hj) by done. rewrite <- Ho. by rewrite Permutation_app_comm.
      * rewrite foldl_app, <- Hs, He. done.
    + intros i. rewrite Hb. destruct (hi_buckets h0 !! i) as [b|]; [|done]. cbn. do 3 f_equal.
      rewrite (sumZ_insert _ _ _ _ _ Hj). cbn. lia.
    + apply Forall_insert; [done|]. cbn. lia.
  - destruct (hi_buckets h !! k) as [b|] eqn:Hk; injection E as <- <-.
    + pose proof (Hb k) as Hbk. rewrite Hk in Hbk. symmetry in Hbk. apply fmap_Some in Hbk as (b0 & Hk0 & Hbk).
      split; cbn [fst snd hi_set_buckets hi_count hi_sum_bits hi_buckets]; [done|..].
      * rewrite (sumZ_insert _ _ _ _ _ Hj), Hc. cbn. f_equal. lia.
      * exists order. by rewrite (summed_same _ _ _ _ _ Hj).
      * intros i. destruct (decide (i = k)) as [->|Hne].
        -- rewrite list_lookup_insert_eq by by eapply lookup_lt_Some. rewrite Hk0. cbn. f_equal. subst b.
           rewrite (sumZ_insert _ _ _ _ _ Hj). unfold counted_in, past_bucket. cbn [fst snd].
           rewrite (proj2 (Nat.ltb_ge k k)), (proj2 (Nat.ltb_lt k (S k))) by lia. cbn [andb].
           unfold bucket_add. cbn [hb_upper_bound hb_count].
           destruct (double_le v (hb_upper_bound b0)); cbn [Z.b2z].
           ++ rewrite u64_add_l. f_equal. f_equal. lia.
           ++ f_equal. f_equal. lia.
        -- rewrite list_lookup_insert_ne by done. rewrite Hb. destruct (hi_buckets h0 !! i) as [b1|]; [|done]. cbn. do 3 f_equal.
           rewrite (sumZ_insert _ _ _ _ _ Hj). unfold counted_in, past_bucket. cbn [fst snd].
           assert ((i <? S k)%nat = (i <? k)%nat) as ->; [|lia].
           destruct (Nat.ltb_spec i (S k)), (Nat.ltb_spec i k); try done; lia.
      * apply Forall_insert; [done|]. cbn. apply lookup_lt_Some in Hk0. lia.
    + apply Hidle; auto. intros i b.
      destruct (decide (i < k)%nat) as [Hik|Hik].
      * left. unfold counted_in, past_bucket. cbn [fst snd]. by rewrite (proj2 (Nat.ltb_lt _ _)).
      * right. apply lookup_ge_None_2. pose proof (Hb k) as Hbk. rewrite Hk in Hbk. symmetry in Hbk. apply fmap_None in Hbk.
        apply lookup_ge_None in Hbk. lia.
  - injection E as <- <-. by apply Hidle; auto.
Qed.
End observations.

Definition bucket_sum (order : list spec_float) (b : histogram_bucket) : histogram_bucket :=
  HistogramBucket (hb_upper_bound b)
    (u64 (hb_count b + sumZ (λ v, Z.b2z (double_le v (hb_upper_bound b))) order)).

Definition cells_u64 (h : histogram_instance) : Prop :=
  is_u64 (hi_count h) ∧ Forall (λ b, is_u64 (hb_count b)) (hi_buckets h).

(** Observations one after the other. *)
Lemma foldl_observe order h :
  cells_u64 h →
  foldl (λ h v, observe v h) h order =
    HistogramInstance (bucket_sum order <$> hi_buckets h) (u64 (hi_count h + Z.of_nat (length order)))
      (foldl (λ bits v, add_bits v bits) (hi_sum_bits h) order).
Proof.
  revert h. induction order as [|v order IH]; intros h [Hc Hb]; cbn [foldl].
  - destruct h as [bs c s]. cbn in *. rewrite Z.add_0_r, u64_id by done. f_equal.
    rewrite <- (list_fmap_id bs) at 1. apply list_fmap_ext. intros i b Hi. unfold bucket_sum. cbn.
    rewrite Z.add_0_r, u64_id by exact (Forall_lookup_1 _ _ _ _ Hb Hi). by destruct b.
  - rewrite IH.
    + unfold observe. cbn [hi_buckets hi_count hi_sum_bits length]. f_equal.
      * rewrite <- list_fmap_compose. apply list_fmap_ext. intros i b Hi. unfold bucket_sum, bucket_add. cbn.
        destruct (double_le v (hb_upper_bound b)); cbn; [rewrite u64_add_l|]; do 2 f_equal; unfold sumZ; lia.
      * rewrite u64_add_l. f_equal. lia.
    + split; [apply u64_range|]. cbn. apply Forall_map, Forall_lookup_2. intros i b Hi. unfold bucket_add.
      destruct (double_le v (hb_upper_bound b)); [apply u64_range|exact (Forall_lookup_1 _ _ _ _ Hb Hi)].
Qed.

Lemma filter_all {A} (f : A → bool) l : Forall (λ x, f x = true) l → filter (λ x, f x) l = l.
Proof. induction 1 as [|x l Hx _ IH]; [done|]. rewrite filter_cons_True by (by rewrite Hx). by rewrite IH. Qed.

Lemma sumZ_values (f : spec_float → Z) (g : observer → Z) ts :
  Forall (λ t, g t = f t.1) ts → sumZ g ts = sumZ f (ts.*1).
Proof. unfold sumZ. induction 1 as [|t ts Ht _ IH]; cbn in *; [done|]. by rewrite Ht, IH. Qed.

Lemma sumZ_perm {A} (f : A → Z) l l' : l ≡ₚ l' → sumZ f l = sumZ f l'.
Proof. unfold sumZ. induction 1; cbn; lia. Qed.

Lemma observed_start h0 vs : cells_u64 h0 → observed h0 vs (h0, (λ v, (v, ObCount)) <$> vs).
Proof.
  intros [Hc Hb]. split; cbn [fst snd].
  - rewrite <- list_fmap_compose. apply list_fmap_id.
  - rewrite sumZ_const_0; [by rewrite Z.add_0_r, u64_id|]. apply Forall_map, Forall_true. done.
  - exists []. split; [|done]. unfold summed. induction vs as [|v vs IH]; [done|].
    rewrite fmap_cons, filter_cons_False by (intros []). exact IH.
  - intros i. destruct (hi_buckets h0 !! i) as [b|] eqn:Hi; [|done]. cbn. f_equal.
    rewrite sumZ_const_0; [|by apply Forall_map, Forall_true].
    rewrite Z.add_0_r, u64_id by exact (Forall_lookup_1 _ _ _ _ Hb Hi). by destruct b.
  - apply Forall_map, Forall_true. done.
Qed.

(** C35: concurrent observations of a histogram are linearisable: however the atomic
    operations of the threads interleave and however often the weak exchange of the sum
    fails, when all threads are done the count, the sum and every bucket are those of the
    same observations made one after the other, in some order. *)
Theorem observations_linearisable h0 vs h ts :
  cells_u64 h0 → rtc observe_step (h0, (λ v, (v, ObCount)) <$> vs) (h, ts) → Forall (λ t, is_done t = true) ts →
  ∃ order, order ≡ₚ vs ∧ h = foldl (λ h v, observe v h) h0 order.
Proof.
  intros H0 Hr Hd.
  assert (Ho : observed h0 vs (h, ts)).
  { pose proof (observed_start h0 vs H0) as Hs. revert Hs. induction Hr as [s|s s1 s2 Hstep _ IH]; [done|].
    intros Hs. apply IH. by eapply observed_step. }
  destruct Ho as [Hv Hc (order & Hp & Hs) Hb _]. cbn [fst snd] in *.
  assert (Hsum : summed ts = vs).
  { unfold summed. rewrite filter_all; [done|]. eapply List.Forall_impl; [|exact Hd]. by intros [v []]. }
  rewrite Hsum in Hp. exists order. split; [done|]. rewrite foldl_observe by done.
  destruct h as [bs c s]. cbn [hi_buckets hi_count hi_sum_bits] in *. rewrite Hs. f_equal.
  - apply list_eq. intros i. rewrite Hb, list_lookup_fmap. destruct (hi_buckets h0 !! i) as [b|]; [|done]. cbn. f_equal.
    unfold bucket_sum. do 3 f_equal. rewrite (sumZ_perm _ _ _ Hp), <- Hv. apply sumZ_values.
    eapply List.Forall_impl; [|exact Hd]. unfold counted_in. by intros [v []].
  - rewrite Hc. do 2 f_equal. rewrite (Permutation_length Hp), <- Hv, length_fmap.
    clear -Hd. induction Hd as [|t ts Ht _ IH]; [done|]. destruct t as [v []]; try done. cbn in *. unfold sumZ in IH. lia.
Qed.

(** ** Registration *)

Lemma init_wf config calloc_ok mutex_ok r :
  match config with Some c => 0 ≤ mc_max_metrics c ∧ 0 ≤ mc_max_cardinality c | None => True end →
  metrics_init_with_config config calloc_ok mutex_ok = Ok r → registry_wf r.
Proof.
  intros Hc. unfold metrics_init_with_config. destruct calloc_ok, mutex_ok; try done. intros [= <-].
  assert (H1 : 0 ≤ match config with Some c => mc_max_metrics c | None => 0 end) by (destruct config; [apply Hc|done]).
  assert (H2 : 0 ≤ match config with Some c => mc_max_cardinality c | None => 0 end) by (destruct config; [apply Hc|done]).
  pose proof (effective_limit_range _ (Z.of_nat DISTRIC_MAX_METRICS) H1 ltac:(unfold DISTRIC_MAX_METRICS; lia)).
  pose proof (effective_limit_range _ DISTRIC_MAX_METRIC_CARDINALITY H2 ltac:(unfold DISTRIC_MAX_METRIC_CARDINALITY; lia)).
  split; cbn [mr_metrics mr_effective_max mr_cardinality_cap]; [constructor|cbn [length]; lia|lia|lia].
Qed.

Lemma strncpy_length n s : (length (strncpy n s) ≤ n)%nat.
Proof. unfold strncpy. rewrite length_take. lia. Qed.

(** What a successful registration appends. *)
Lemma register_metric_ok r name help type label_defs count env idx r' :
  registry_wf r → register_metric r name help type label_defs count env = (Ok idx, r') →
  mr_state r = REGISTRY_STATE_MUTABLE ∧ idx = length (mr_metrics r) ∧ Z.of_nat idx < mr_effective_max r ∧
  ∃ m, r' = mr_set_metrics (mr_metrics r ++ [m]) r ∧ metric_wf m ∧ m_type m = type ∧
    new_instances type (alloc_slots (m_label_defs m) (m_cardinality m)) env = Ok (m_instances m).
Proof.
  intros Hr. unfold register_metric. destruct (Nat.ltb_spec DISTRIC_MAX_METRIC_LABELS count) as [|Hmax]; [done|].
  set (defs := match label_defs with Some l => take count l | None => [] end).
  destruct (Nat.eqb_spec (length defs) count) as [Hcount|]; [|done]. cbn [negb].
  assert (Hcard : (compute_cardinality defs =? 0) && (0 <? count)%nat = false → compute_cardinality defs ≠ 0).
  { intros [Hz|Hz]%andb_false_iff; [by apply Z.eqb_neq|]. apply Nat.ltb_ge in Hz.
    assert (length defs = 0)%nat as ->%nil_length_inv by lia. done. }
  destruct ((compute_cardinality defs =? 0) && (0 <? count)%nat); [done|]. specialize (Hcard eq_refl).
  destruct (compute_cardinality_spec defs Hcard) as (Hb & Hp & _). pose proof (product_pos defs Hb) as Hpos.
  destruct (Z.gtb_spec (compute_cardinality defs) (mr_cardinality_cap r)) as [|Hcap]; [done|].
  destruct (mr_state r); try done. destruct (Z.geb_spec (Z.of_nat (length (mr_metrics r))) (mr_effective_max r)) as [|Hfull]; [done|].
  set (table := if rv_table env then _ else _).
  destruct ((0 <? count)%nat && bool_decide (table = None)) eqn:Et; [done|].
  destruct (new_instances type _ env) as [a|e|] eqn:Ea; [|done..]. destruct (rv_mutex env); [|done]. cbn [negb].
  intros [= <- <-]. split; [done|]. split; [done|]. split; [lia|]. eexists. split; [reflexivity|].
  destruct (new_instances_spec _ _ _ _ Ea) as [Hlen Hty]. pose proof (rw_cap r Hr) as [_ Hcap'].
  split; [|split; [done|exact Ea]].
  split; cbn [m_label_defs m_strides m_cardinality m_instances m_type m_name m_help m_labels_table]; try done.
  - split; [done|]. lia.
  - rewrite Z2Nat.id by lia. lia.
  - unfold DISTRIC_MAX_METRIC_NAME_LEN, DISTRIC_MAX_METRIC_HELP_LEN.
    pose proof (strncpy_length 127 name). pose proof (strncpy_length 255 help). lia.
  - subst table. destruct (rv_table env); [done|]. rewrite bool_decide_eq_true_2, andb_true_r in Et by done.
    apply Nat.ltb_ge in Et. unfold build_labels_table. by rewrite (proj2 (Nat.eqb_eq _ _)) by lia.
Qed.

(** A registration keeps the registry well formed and inside its limits: it appends one
    metric with all its instances, or refuses and changes nothing. *)
Theorem registration_keeps r name help type label_defs count env :
  registry_wf r →
  match register_metric r name help type label_defs count env with
  | (Ok idx, r') =>
      registry_wf r' ∧ mr_state r = REGISTRY_STATE_MUTABLE ∧ idx = length (mr_metrics r) ∧
      ∃ m, mr_metrics r' = mr_metrics r ++ [m] ∧ m_type m = type ∧ metric_wf m
  | (Err _, r') => r' = r
  | (Fault, r') => r' = r ∧ ∀ l, label_defs = Some l → (length l < count)%nat
  end.
Proof.
  intros Hr. destruct (register_metric r name help type label_defs count env) as [[idx|e|] r'] eqn:E.
  - destruct (register_metric_ok r name help type label_defs count env idx r' Hr E) as (Hst & -> & Hlt & m & -> & Hm & Ht & _).
    split; [|split; [done|split; [done|]]].
    + destruct Hr as [Hms Hcount Hmax Hcap]. split; cbn [mr_set_metrics mr_metrics mr_effective_max mr_cardinality_cap];
        [by apply Forall_app; split; [|constructor]|rewrite length_app; cbn [length]; lia|done|done].
    + by exists m.
  - revert E. unfold register_metric. cbv zeta. repeat case_match; by intros [= ].
  - revert E. unfold register_metric. cbv zeta. case_match; [done|].
    destruct (Nat.eqb_spec (length match label_defs with Some l => take count l | None => [] end) count) as [Hc|Hc]; cbn [negb].
    + unfold new_instances. repeat case_match; simplify_eq; done.
    + intros [= <-]. split; [done|]. intros l ->. rewrite length_take in Hc. lia.
Qed.

(** ** Destruction *)

(** [metrics_destroy] frees every block of a metric but one: the buckets of the slot that
    a labelled histogram has beside its label sets. *)
Theorem labelled_histogram_leaks m :
  metric_wf m →
  destroy_metric m =
    Ok (metric_blocks m - match m_type m, m_label_defs m with METRIC_TYPE_HISTOGRAM, _ :: _ => 1 | _, _ => 0 end)%nat.
Proof.
  intros Hm. pose proof (mw_slots m Hm) as Hs. pose proof (mw_type m Hm) as <-. unfold destroy_metric, metric_blocks.
  destruct (m_instances m) as [l|l|l]; cbn [instances_type instances_length] in *; [f_equal; lia..|].
  unfold alloc_slots in Hs. destruct (m_label_defs m) as [|d defs]; cbn in Hs; rewrite (proj2 (Nat.leb_le _ _)) by lia; f_equal; lia.
Qed.

(** The unlabelled update of a labelled gauge goes to the first label set. *)
Theorem gauge_set_overwrites_labelled m labels value :
  flat_index m labels = 0 → metrics_gauge_set m value = metrics_gauge_set_labels m labels value.
Proof. intros Hi. unfold metrics_gauge_set, metrics_gauge_set_labels. by rewrite Hi. Qed.

(** ** Examples *)

Definition all_ok : register_env := RegisterEnv true true (λ _, true) true.

Definition example_metrics : metrics_registry :=
  MetricsRegistry [] (Z.of_nat DISTRIC_MAX_METRICS) DISTRIC_MAX_METRIC_CARDINALITY REGISTRY_STATE_MUTABLE 1.

Lemma example_metrics_wf : registry_wf example_metrics.
Proof. by apply (init_wf (Some (MetricsConfig 0 0)) true true). Qed.

Definition example_metric (type : metric_type) : metric :=
  Metric (str "requests") (str "Requests") type example_defs [2; 1] 6
    (build_labels_table example_defs [2; 1] 6)
    (match type with
     | METRIC_TYPE_COUNTER => Counters (replicate 7 0)
     | METRIC_TYPE_GAUGE => Gauges (replicate 7 0)
     | METRIC_TYPE_HISTOGRAM => Histograms (replicate 7 new_histogram)
     end).

Lemma example_registered type :
  register_metric example_metrics (str "requests") (str "Requests") type (Some example_defs) 2 all_ok =
    (Ok 0%nat, mr_set_metrics [example_metric type] example_metrics).
Proof. destruct type; reflexivity. Qed.

Lemma example_metric_wf type : metric_wf (example_metric type).
Proof.
  destruct (register_metric_ok _ _ _ _ _ _ _ _ _ example_metrics_wf (example_registered type)) as (_ & _ & _ & m & Hm & Hwf & _).
  by injection Hm as <-.
Qed.

Definition get_200 : list metric_label := [MetricLabel (str "method") (str "GET"); MetricLabel (str "code") (str "200")].
Definition put_500 : list metric_label := [MetricLabel (str "code") (str "500"); MetricLabel (str "method") (str "PUT")].
Definition example_updates : list counter_op :=
  [OpAddLabels get_200 1; OpAdd 5; OpAddLabels put_500 10; OpAddLabels [MetricLabel (str "method") (str "GET")] 7;
   OpAddLabels get_200 2].

Lemma counters_account_witness :
  ∃ m' cells, counter_run example_updates (example_metric METRIC_TYPE_COUNTER) = Ok m' ∧ m_instances m' = Counters cells ∧
    metrics_counter_get m' = Ok 5 ∧ metrics_counter_get_labeled_total m' = Ok 13 ∧ cells !! 0%nat = Some 3.
Proof.
  destruct (counters_account (example_metric METRIC_TYPE_COUNTER) example_updates (example_metric_wf _) ltac:(discriminate) eq_refl)
    as (m' & cells & Hr & Hi & Hg & Ht & Hc).
  exists m', cells. split; [exact Hr|]. split; [exact Hi|]. split; [exact Hg|]. split; [exact Ht|].
  refine (eq_trans (Hc get_200 _) _); [vm_compute; congruence|reflexivity].
Defined.

Lemma registration_keeps_witness :
  registry_wf (register_metric example_metrics (str "requests") (str "Requests") METRIC_TYPE_GAUGE (Some example_defs) 2 all_ok).2.
Proof.
  pose proof (registration_keeps example_metrics (str "requests") (str "Requests") METRIC_TYPE_GAUGE (Some example_defs) 2 all_ok
    example_metrics_wf) as H.
  exact (proj1 H).
Defined.

Lemma labelled_histogram_leaks_witness :
  metric_blocks (example_metric METRIC_TYPE_HISTOGRAM) = 9%nat ∧ destroy_metric (example_metric METRIC_TYPE_HISTOGRAM) = Ok 8%nat.
Proof.
  split; [reflexivity|]. exact (labelled_histogram_leaks (example_metric METRIC_TYPE_HISTOGRAM) (example_metric_wf _)).
Defined.

Lemma gauge_set_overwrites_labelled_witness :
  metrics_gauge_set (example_metric METRIC_TYPE_GAUGE) (double_of_Z 4) =
    metrics_gauge_set_labels (example_metric METRIC_TYPE_GAUGE) get_200 (double_of_Z 4).
Proof. apply gauge_set_overwrites_labelled. reflexivity. Defined.

(** A schedule: the thread of each turn, and whether its exchange fails. *)
Fixpoint observe_schedule (l : list (nat * bool)) (s : histogram_instance * list observer) :
    histogram_instance * list observer :=
  match l with
  | [] => s
  | (j, spurious) :: l =>
      match s.2 !! j with
      | Some (v, ph) =>
          let '(h, ph') := observe_turn v spurious s.1 ph in observe_schedule l (h, <[j := (v, ph')]> s.2)
      | None => observe_schedule l s
      end
  end.

Lemma observe_schedule_steps l s : rtc observe_step s (observe_schedule l s).
Proof.
  revert s. induction l as [|[j spurious] l IH]; intros [h ts]; [done|]. cbn [observe_schedule fst snd].
  destruct (ts !! j) as [[v ph]|] eqn:Hj; [|apply IH]. destruct (observe_turn v spurious h ph) as [h' ph'] eqn:E.
  eapply rtc_l; [|apply IH]. by econstructor.
Qed.

Definition small_histogram : histogram_instance :=
  HistogramInstance [HistogramBucket (double_of_Z 1) 0; HistogramBucket (S754_infinity false) 0] 0 0.

(** Both threads load the sum before the first one exchanges it: the exchange of the second
    one fails, and the one after it fails for no reason. *)
Definition racing : list (nat * bool) :=
  [(0, false); (1, false); (0, false); (1, false); (0, false); (1, false); (1, false); (1, true);
   (0, false); (1, false); (1, false); (1, false); (0, false); (1, false); (0, false); (1, false)]%nat.

Lemma observations_linearisable_witness :
  let '(h, ts) := observe_schedule racing (small_histogram, (λ v, (v, ObCount)) <$> [double_ratio 1 2; double_of_Z 3]) in
  Forall (λ t, is_done t = true) ts ∧ hi_count h = 2 ∧ hb_count <$> hi_buckets h = [1; 2] ∧
  ∃ order, order ≡ₚ [double_ratio 1 2; double_of_Z 3] ∧ h = foldl (λ h v, observe v h) small_histogram order.
Proof.
  pose proof (observe_schedule_steps racing (small_histogram, (λ v, (v, ObCount)) <$> [double_ratio 1 2; double_of_Z 3])) as Hr.
  destruct (observe_schedule racing _) as [h ts] eqn:E.
  assert (Hd : Forall (λ t, is_done t = true) ts) by (vm_compute in E; injection E as <- <-; repeat constructor).
  split; [exact Hd|]. split; [vm_compute in E; injection E as <- <-; reflexivity|].
  split; [vm_compute in E; injection E as <- <-; reflexivity|].
  apply (observations_linearisable small_histogram [double_ratio 1 2; double_of_Z 3] h ts).
  - split; [vm_compute; split; congruence|]. repeat (apply List.Forall_cons || apply List.Forall_nil); vm_compute; split; congruence.
  - exact Hr.
  - exact Hd.
Defined.
