(* ===== verification/MetricsExport.v ===== *)
(** * The Prometheus export (libs/distric_obs/src/metrics.c: metrics_export_prometheus)

    The text is written with [snprintf] into a buffer that is grown before each group of
    writes by an estimate of their length.  The model keeps the buffer with its size, so
    that an estimate that is too small is seen as what it is: lost text, and then a write
    outside of the buffer. *)

From Stdlib Require Import ZArith Lia String SpecFloat.
From stdpp Require Import base list numbers option.
From S2P Require Import Prelude CString MetricLabels Doubles Metrics.

Local Open Scope Z_scope.

(** ** The buffer *)

(** What was written, last text first, and the variables [offset] and [buf_size]; [None]
    is an indeterminate byte. *)
Record out_buffer := OutBuffer {
  ob_texts : list (list (option Z));
  ob_offset : Z;
  ob_size : Z
}.

Definition known (text : list Z) : list (option Z) := Some <$> text.

(** [w = snprintf (buf + offset, buf_size - offset, ..); if (w > 0) offset += w]: beyond
    the end of the buffer the difference wraps around; a text that does not fit is cut and
    terminated, and counts in full. *)
Definition print (text : list Z) (b : out_buffer) : result out_buffer :=
  let len := Z.of_nat (length text) in
  let avail := ob_size b - ob_offset b in
  if avail <? 0 then Fault
  else
    let bytes :=
      if len <? avail then known text
      else if avail =? 0 then replicate (length text) None
      else known (take (Z.to_nat (avail - 1)) text) ++ [Some 0] ++ replicate (Z.to_nat (len - avail)) None in
    Ok (OutBuffer (bytes :: ob_texts b) (ob_offset b + len) (ob_size b)).

(** [ENSURE_SPACE]: 64 doublings are enough for any size. *)
Fixpoint grow (fuel : nat) (size wanted : Z) : Z :=
  match fuel with
  | O => size
  | S fuel => if wanted >? size then grow fuel (size * 2) wanted else size
  end.

Definition ensure_space (needed : Z) (realloc_ok : bool) (b : out_buffer) : result out_buffer :=
  if ob_offset b + needed >? ob_size b then
    if realloc_ok then Ok (OutBuffer (ob_texts b) (ob_offset b) (grow 64 (ob_size b) (ob_offset b + needed)))
    else Err DISTRIC_ERR_NO_MEMORY
  else Ok b.

(** The statements of the export in the order they are executed. *)
Inductive export_op :=
  | Ensure (needed : Z)
  | Print (text : list Z).

Fixpoint run_ops (realloc_ok : bool) (ops : list export_op) (b : out_buffer) : result out_buffer :=
  match ops with
  | [] => Ok b
  | Ensure n :: ops => b ← ensure_space n realloc_ok b; run_ops realloc_ok ops b
  | Print text :: ops => b ← print text b; run_ops realloc_ok ops b
  end.

(** ** The text of a metric *)

(** [%lu] *)
Definition decimal64 (n : Z) : list Z := decimal_digits 20 n.

Definition quoted (l : metric_label) : list Z := ml_key l ++ str "=" ++ [34] ++ ml_value l ++ [34].

(** The writes of [append_label_set]. *)
Definition append_label_set (labels : list metric_label) : list (list Z) :=
  match labels with
  | [] => []
  | l :: ls => [str "{"; quoted l] ++ ((λ l, str "," ++ quoted l) <$> ls) ++ [str "}"]
  end.

(** A call of [ENSURE_SPACE] with the writes up to the next one. *)
Definition group (needed : Z) (texts : list (list Z)) : list export_op := Ensure needed :: (Print <$> texts).

Definition metric_type_text (t : metric_type) : list Z :=
  match t with
  | METRIC_TYPE_COUNTER => str "counter"
  | METRIC_TYPE_GAUGE => str "gauge"
  | METRIC_TYPE_HISTOGRAM => str "histogram"
  end.

Definition newline : list Z := [10].

Definition MAX_LABELS_TEXT : Z :=
  Z.of_nat DISTRIC_MAX_METRIC_LABELS * (Z.of_nat DISTRIC_MAX_LABEL_KEY_LEN + Z.of_nat DISTRIC_MAX_LABEL_VALUE_LEN + 8).

(** [lset]: the labels of an instance; without label dimensions there is no table. *)
Definition label_set (m : metric) (fi : nat) : result (list metric_label) :=
  match m_label_defs m, m_labels_table m with
  | [], _ => Ok []
  | _, Some table => match table !! fi with Some l => Ok l | None => Fault end
  | _, None => Fault
  end.

Definition value_line (m : metric) (labels : list metric_label) (value : list Z) : list export_op :=
  group (Z.of_nat DISTRIC_MAX_METRIC_NAME_LEN + MAX_LABELS_TEXT + 32)
    ([m_name m] ++ append_label_set labels ++ [str " " ++ value ++ newline]).

Definition bucket_bound_text (ub : spec_float) : list Z :=
  match ub with S754_infinity _ => str "+Inf" | _ => take 31 (format_g ub) end.

Definition bucket_line (m : metric) (labels : list metric_label) (b : histogram_bucket) : list export_op :=
  let le := str "le=" ++ [34] ++ bucket_bound_text (hb_upper_bound b) ++ [34] ++ str "}" in
  group (Z.of_nat DISTRIC_MAX_METRIC_NAME_LEN + 256 + 64)
    ([m_name m ++ str "_bucket"] ++
     match labels with
     | [] => [str "{" ++ le]
     | _ => [str "{"] ++ ((λ l, quoted l ++ str ",") <$> labels) ++ [le]
     end ++ [str " " ++ decimal64 (hb_count b) ++ newline]).

Definition histogram_lines (m : metric) (labels : list metric_label) (h : histogram_instance) : list export_op :=
  concat (bucket_line m labels <$> hi_buckets h) ++
  group (Z.of_nat DISTRIC_MAX_METRIC_NAME_LEN + 256 + 64)
    ([m_name m ++ str "_count"] ++ append_label_set labels ++ [str " " ++ decimal64 (hi_count h) ++ newline] ++
     [m_name m ++ str "_sum"] ++ append_label_set labels ++
     [str " " ++ format_g (bits_to_double (hi_sum_bits h)) ++ newline]).

(** The instances [0 .. cardinality - 1]: the slot behind them is not shown. *)
Definition instance_lines (m : metric) (fi : nat) : result (list export_op) :=
  labels ← label_set m fi;
  match m_instances m with
  | Counters cells => match cells !! fi with Some v => Ok (value_line m labels (decimal64 v)) | None => Fault end
  | Gauges cells =>
      match cells !! fi with Some v => Ok (value_line m labels (format_g (bits_to_double v))) | None => Fault end
  | Histograms cells => match cells !! fi with Some h => Ok (histogram_lines m labels h) | None => Fault end
  end.

Fixpoint concat_ops (l : list (result (list export_op))) : result (list export_op) :=
  match l with
  | [] => Ok []
  | r :: l => ops ← r; rest ← concat_ops l; Ok (ops ++ rest)
  end.

Definition header_lines (m : metric) : list export_op :=
  group (512 + Z.of_nat DISTRIC_MAX_METRIC_NAME_LEN + Z.of_nat DISTRIC_MAX_METRIC_HELP_LEN)
    [str "# HELP " ++ m_name m ++ str " " ++ m_help m ++ newline;
     str "# TYPE " ++ m_name m ++ str " " ++ metric_type_text (m_type m) ++ newline].

(** A metric without instances. *)
Definition zero_lines (m : metric) : list export_op :=
  match m_type m with
  | METRIC_TYPE_HISTOGRAM =>
      group (Z.of_nat DISTRIC_MAX_METRIC_NAME_LEN + 32)
        [m_name m ++ str "_count 0" ++ newline ++ m_name m ++ str "_sum 0" ++ newline]
  | _ => group (Z.of_nat DISTRIC_MAX_METRIC_NAME_LEN + 8) [m_name m ++ str " 0" ++ newline]
  end.

Definition metric_lines (m : metric) : result (list export_op) :=
  if (m_cardinality m =? 0)%nat then Ok (header_lines m ++ zero_lines m)
  else
    lines ← concat_ops (instance_lines m <$> seq 0 (m_cardinality m));
    Ok (header_lines m ++ lines).

Definition metrics_export_prometheus (r : metrics_registry) (malloc_ok realloc_ok : bool) : result (list (option Z)) :=
  if negb malloc_ok then Err DISTRIC_ERR_NO_MEMORY
  else
    ops ← concat_ops (metric_lines <$> mr_metrics r);
    b ← run_ops realloc_ok ops (OutBuffer [] 0 65536);
    if ob_offset b <? ob_size b then Ok (concat (reverse (ob_texts b))) else Fault.

(** ** The text *)

(** The exposition format: name, labels in braces, value. *)
Fixpoint joined (texts : list (list Z)) : list Z :=
  match texts with
  | [] => []
  | [t] => t
  | t :: ts => t ++ str "," ++ joined ts
  end.
Definition label_text (labels : list metric_label) : list Z :=
  match labels with [] => [] | _ => str "{" ++ joined (quoted <$> labels) ++ str "}" end.
Definition sample (name : list Z) (labels : list metric_label) (value : list Z) : list Z :=
  name ++ label_text labels ++ str " " ++ value ++ newline.

Definition histogram_text (m : metric) (labels : list metric_label) (h : histogram_instance) : list Z :=
  concat ((λ b, sample (m_name m ++ str "_bucket")
                  (labels ++ [MetricLabel (str "le") (bucket_bound_text (hb_upper_bound b))])
                  (decimal64 (hb_count b))) <$> hi_buckets h) ++
  sample (m_name m ++ str "_count") labels (decimal64 (hi_count h)) ++
  sample (m_name m ++ str "_sum") labels (format_g (bits_to_double (hi_sum_bits h))).

Definition instance_text (m : metric) (fi : nat) (labels : list metric_label) : list Z :=
  match m_instances m with
  | Counters cells => sample (m_name m) labels (decimal64 (default 0 (cells !! fi)))
  | Gauges cells => sample (m_name m) labels (format_g (bits_to_double (default 0 (cells !! fi))))
  | Histograms cells => histogram_text m labels (default new_histogram (cells !! fi))
  end.

(** The labels of an instance, decoded from its index. *)
Definition metric_text (m : metric) : list Z :=
  str "# HELP " ++ m_name m ++ str " " ++ m_help m ++ newline ++
  str "# TYPE " ++ m_name m ++ str " " ++ metric_type_text (m_type m) ++ newline ++
  concat ((λ fi, instance_text m fi (decode_flat_index (m_label_defs m) (m_strides m) (Z.of_nat fi))) <$>
            seq 0 (m_cardinality m)).

Definition exposition (r : metrics_registry) : list Z := concat (metric_text <$> mr_metrics r).

(** ** Groups of writes that fit their estimate *)

Definition total (texts : list (list Z)) : Z := Z.of_nat (length (concat texts)).

Inductive good_ops : list export_op → list Z → Prop :=
  | GoodNil : good_ops [] []
  | GoodGroup n texts ops text :
      total texts < n → n ≤ 4096 → good_ops ops text → good_ops (group n texts ++ ops) (concat texts ++ text).

Definition content (b : out_buffer) : list (option Z) := concat (reverse (ob_texts b)).
Definition buffer_ok (b : out_buffer) : Prop := 0 ≤ ob_offset b < ob_size b ∧ 4096 ≤ ob_size b.

Lemma grow_enough fuel size wanted :
  0 < size → wanted ≤ size * 2 ^ Z.of_nat fuel → size ≤ grow fuel size wanted ∧ wanted ≤ grow fuel size wanted.
Proof.
  revert size. induction fuel as [|fuel IH]; intros size Hs Hw; cbn [grow]; [rewrite Z.mul_1_r in Hw; lia|].
  destruct (Z.gtb_spec wanted size) as [Hg|Hg]; [|lia].
  rewrite Nat2Z.inj_succ, Z.pow_succ_r in Hw by lia.
  destruct (IH (size * 2)) as [H1 H2]; [lia|lia|]. lia.
Qed.

Lemma print_fits text b :
  0 ≤ ob_offset b → ob_offset b + Z.of_nat (length text) < ob_size b →
  print text b = Ok (OutBuffer (known text :: ob_texts b) (ob_offset b + Z.of_nat (length text)) (ob_size b)).
Proof. intros H0 H. unfold print. rewrite (proj2 (Z.ltb_ge _ 0)), (proj2 (Z.ltb_lt _ _)) by lia. done. Qed.

Lemma prints_fit realloc_ok texts ops b :
  0 ≤ ob_offset b → ob_offset b + total texts < ob_size b →
  run_ops realloc_ok ((Print <$> texts) ++ ops) b =
    run_ops realloc_ok ops (OutBuffer (reverse (known <$> texts) ++ ob_texts b) (ob_offset b + total texts) (ob_size b)).
Proof.
  revert b. induction texts as [|t texts IH]; intros b H0 H.
  - destruct b as [l o s]. unfold total. cbn. by rewrite Z.add_0_r.
  - unfold total in *. cbn [concat] in H. rewrite length_app in H.
    cbn [fmap list_fmap List.map app run_ops]. rewrite print_fits by lia. cbn [mbind result_bind].
    change (List.map Print texts) with (Print <$> texts). rewrite IH by (cbn [ob_offset ob_size]; lia).
    cbn [ob_texts ob_offset ob_size concat]. rewrite length_app. f_equal. f_equal; [|lia].
    change (List.map known texts) with (known <$> texts). rewrite reverse_cons, <- app_assoc. done.
Qed.

Lemma content_prints texts b o s :
  content (OutBuffer (reverse (known <$> texts) ++ ob_texts b) o s) = content b ++ known (concat texts).
Proof.
  unfold content. cbn [ob_texts]. rewrite reverse_app, reverse_involutive, concat_app. f_equal.
  induction texts as [|t texts IH]; [done|]. cbn [fmap list_fmap List.map concat] in *. unfold known in *. rewrite fmap_app. by f_equal.
Qed.

Lemma run_good ops text b :
  good_ops ops text → buffer_ok b →
  ∃ b', run_ops true ops b = Ok b' ∧ buffer_ok b' ∧ content b' = content b ++ known text.
Proof.
  intros Hg. revert b. induction Hg as [|n texts ops text Ht Hn _ IH]; intros b [Ho Hs].
  - exists b. cbn. by rewrite app_nil_r.
  - unfold group. cbn [app run_ops]. unfold ensure_space.
    set (b1 := OutBuffer (ob_texts b) (ob_offset b) (grow 64 (ob_size b) (ob_offset b + n))).
    assert (Hgrow : ob_size b ≤ grow 64 (ob_size b) (ob_offset b + n) ∧ ob_offset b + n ≤ grow 64 (ob_size b) (ob_offset b + n)).
    { apply grow_enough; [lia|]. apply Z.le_trans with (ob_size b * 2); [lia|]. apply Z.mul_le_mono_nonneg_l; [lia|]. done. }
    assert (∃ b0, (if ob_offset b + n >? ob_size b then Ok b1 else Ok b) = Ok b0 ∧ ob_texts b0 = ob_texts b ∧
      ob_offset b0 = ob_offset b ∧ ob_offset b + n ≤ ob_size b0 ∧ 4096 ≤ ob_size b0) as (b0 & -> & Hb1 & Hb2 & Hb3 & Hb4).
    { destruct (Z.gtb_spec (ob_offset b + n) (ob_size b)); [exists b1|exists b]; subst b1; cbn [ob_texts ob_offset ob_size];
        split_and!; done || lia. }
    cbn [mbind result_bind]. rewrite prints_fit by lia.
    destruct (IH (OutBuffer (reverse (known <$> texts) ++ ob_texts b0) (ob_offset b0 + total texts) (ob_size b0)))
      as (b' & Hr & Hb' & Hc); [split; cbn [ob_offset ob_size]; unfold total in *; lia|].
    exists b'. split; [done|]. split; [done|]. rewrite Hc, content_prints. unfold content. rewrite Hb1.
    unfold known. by rewrite fmap_app, app_assoc.
Qed.

Lemma good_app ops1 text1 ops2 text2 : good_ops ops1 text1 → good_ops ops2 text2 → good_ops (ops1 ++ ops2) (text1 ++ text2).
Proof. induction 1 as [|n texts ops text Ht Hn _ IH]; intros H2; [done|]. rewrite <- !app_assoc. constructor; auto. Qed.

Lemma good_group n texts : total texts < n → n ≤ 4096 → good_ops (group n texts) (concat texts).
Proof. intros Ht Hn. rewrite <- (app_nil_r (group _ _)), <- (app_nil_r (concat _)). by constructor; [..|constructor]. Qed.

(** ** The estimates *)

Definition labels_bounded (labels : list metric_label) : Prop :=
  (length labels ≤ DISTRIC_MAX_METRIC_LABELS)%nat ∧
  Forall (λ l, (length (ml_key l) < DISTRIC_MAX_LABEL_KEY_LEN)%nat ∧ (length (ml_value l) < DISTRIC_MAX_LABEL_VALUE_LEN)%nat) labels.
Definition label_length (labels : list metric_label) : Z :=
  sumZ (λ l, Z.of_nat (length (ml_key l)) + Z.of_nat (length (ml_value l)) + 4) labels.

Lemma label_length_bound labels : labels_bounded labels → 0 ≤ label_length labels ≤ 1600.
Proof.
  intros [Hl Hf]. unfold DISTRIC_MAX_METRIC_LABELS in Hl.
  assert (0 ≤ label_length labels ≤ 200 * Z.of_nat (length labels)); [|lia]. clear Hl. unfold label_length, sumZ.
  unfold DISTRIC_MAX_LABEL_KEY_LEN, DISTRIC_MAX_LABEL_VALUE_LEN in Hf.
  induction Hf as [|l ls [Hk Hv] _ IH]; cbn [foldr length]; [lia|]. lia.
Qed.

Lemma label_length_cons l ls :
  label_length (l :: ls) = Z.of_nat (length (ml_key l)) + Z.of_nat (length (ml_value l)) + 4 + label_length ls.
Proof. done. Qed.

Lemma label_length_nonneg ls : 0 ≤ label_length ls.
Proof. apply sumZ_nonneg, Forall_true. intros. lia. Qed.

Lemma quoted_length l : Z.of_nat (length (quoted l)) = Z.of_nat (length (ml_key l)) + Z.of_nat (length (ml_value l)) + 3.
Proof. unfold quoted. rewrite !length_app. cbn [length str]. change (length (str "=")) with 1%nat. lia. Qed.

Lemma joined_cons t ts : ts ≠ [] → joined (t :: ts) = t ++ str "," ++ joined ts.
Proof. by destruct ts. Qed.

Lemma joined_tail l ls : joined (quoted l :: (quoted <$> ls)) = quoted l ++ concat ((λ l, str "," ++ quoted l) <$> ls).
Proof.
  revert l. induction ls as [|l' ls IH]; intros l; [by rewrite app_nil_r|]. rewrite fmap_cons, joined_cons, IH by done. done.
Qed.

Lemma append_label_set_text labels : concat (append_label_set labels) = label_text labels.
Proof.
  destruct labels as [|l ls]; [done|]. unfold append_label_set, label_text. rewrite !concat_app, fmap_cons, joined_tail.
  cbn [concat]. rewrite !app_nil_r, <- !app_assoc. done.
Qed.

Lemma joined_length ls l : Z.of_nat (length (joined (quoted l :: (quoted <$> ls)))) = label_length (l :: ls) - 1.
Proof.
  revert l. induction ls as [|l' ls IH]; intros l.
  - cbn [fmap list_fmap List.map joined]. rewrite quoted_length, label_length_cons. unfold label_length, sumZ. cbn. lia.
  - rewrite fmap_cons, joined_cons by done. rewrite !length_app, !Nat2Z.inj_add, IH, quoted_length, (label_length_cons l).
    change (length (str ",")) with 1%nat. lia.
Qed.

Lemma label_text_length labels : Z.of_nat (length (label_text labels)) ≤ label_length labels + 1.
Proof.
  destruct labels as [|l ls]; [done|]. unfold label_text. rewrite fmap_cons, !length_app, !Nat2Z.inj_add, joined_length.
  change (length (str "{")) with 1%nat. change (length (str "}")) with 1%nat. lia.
Qed.

Lemma decimal64_length n : (length (decimal64 n) ≤ 20)%nat.
Proof.
  unfold decimal64. generalize 20%nat. intros fuel. revert n. induction fuel as [|fuel IH]; intros n; cbn [decimal_digits]; [done|].
  destruct (n <? 10); cbn; [lia|]. rewrite length_app. cbn. specialize (IH (n / 10)). lia.
Qed.

Lemma sample_length name labels value :
  Z.of_nat (length (sample name labels value)) ≤ Z.of_nat (length name) + label_length labels + Z.of_nat (length value) + 3.
Proof.
  unfold sample, newline. rewrite !length_app, !Nat2Z.inj_add. pose proof (label_text_length labels).
  change (length (str " ")) with 1%nat. change (length [10]) with 1%nat. lia.
Qed.

Lemma value_line_good m labels value :
  metric_wf m → labels_bounded labels → (length value ≤ 27)%nat →
  good_ops (value_line m labels value) (sample (m_name m) labels value).
Proof.
  intros Hm Hl Hv. unfold value_line.
  assert (Hc : concat ([m_name m] ++ append_label_set labels ++ [str " " ++ value ++ newline]) = sample (m_name m) labels value).
  { rewrite !concat_app, append_label_set_text. cbn [concat]. by rewrite !app_nil_r. }
  rewrite <- Hc. apply good_group; [|by vm_compute]. unfold total. rewrite Hc.
  pose proof (sample_length (m_name m) labels value). pose proof (label_length_bound labels Hl).
  pose proof (mw_strings m Hm) as [Hn _]. unfold DISTRIC_MAX_METRIC_NAME_LEN in *.
  change (Z.of_nat 128 + MAX_LABELS_TEXT + 32) with 1760. lia.
Qed.

Lemma bucket_bound_length ub : (length (bucket_bound_text ub) ≤ 27)%nat.
Proof.
  assert (H : ∀ v, (length (take 31 (format_g v)) ≤ 27)%nat) by (intros v; pose proof (format_g_length v); rewrite length_take; lia).
  unfold bucket_bound_text. destruct ub; try apply H. cbn. lia.
Qed.

Lemma commas_joined ls l : concat ((λ l, quoted l ++ str ",") <$> ls) ++ quoted l = joined (quoted <$> (ls ++ [l])).
Proof.
  induction ls as [|l' ls IH]; [done|]. rewrite <- app_comm_cons, (fmap_cons quoted), joined_cons by (rewrite fmap_app; by destruct (quoted <$> ls)).
  rewrite <- IH. cbn [fmap list_fmap List.map concat]. by rewrite <- !app_assoc.
Qed.

Lemma label_length_app a b : label_length (a ++ b) = label_length a + label_length b.
Proof. unfold label_length, sumZ. induction a as [|x a IH]; cbn; [done|]. rewrite IH. lia. Qed.

Lemma bucket_line_good m labels b :
  metric_wf m → label_length labels ≤ 65 →
  good_ops (bucket_line m labels b)
    (sample (m_name m ++ str "_bucket") (labels ++ [MetricLabel (str "le") (bucket_bound_text (hb_upper_bound b))]) (decimal64 (hb_count b))).
Proof.
  intros Hm Hl. unfold bucket_line.
  set (ub := bucket_bound_text (hb_upper_bound b)). set (le := str "le=" ++ [34] ++ ub ++ [34] ++ str "}").
  set (texts := _ ++ _ ++ _).
  assert (Hle : le = quoted (MetricLabel (str "le") ub) ++ str "}") by (unfold le, quoted; cbn [ml_key ml_value]; by rewrite <- !app_assoc).
  assert (Hc : concat texts = sample (m_name m ++ str "_bucket") (labels ++ [MetricLabel (str "le") ub]) (decimal64 (hb_count b))).
  { unfold texts, sample. rewrite !concat_app. cbn [concat]. rewrite !app_nil_r. f_equal. f_equal. rewrite Hle.
    destruct labels as [|l ls]; [cbn [concat app label_text fmap list_fmap List.map joined]; by rewrite app_nil_r|].
    rewrite !concat_app. cbn [concat]. rewrite !app_nil_r. unfold label_text. rewrite <- app_comm_cons.
    rewrite app_comm_cons, <- commas_joined, <- !app_assoc. done. }
  rewrite <- Hc. apply good_group; [|by vm_compute]. unfold total. rewrite Hc.
  pose proof (sample_length (m_name m ++ str "_bucket") (labels ++ [MetricLabel (str "le") ub]) (decimal64 (hb_count b))) as Hs.
  rewrite label_length_app, length_app, Nat2Z.inj_add, (label_length_cons _ []) in Hs. cbn [ml_key ml_value] in Hs.
  pose proof (decimal64_length (hb_count b)). pose proof (bucket_bound_length (hb_upper_bound b)) as Hub. fold ub in Hub.
  pose proof (mw_strings m Hm) as [Hn _]. unfold DISTRIC_MAX_METRIC_NAME_LEN in *.
  change (length (str "_bucket")) with 7%nat in Hs. change (length (str "le")) with 2%nat in Hs. change (label_length []) with 0 in Hs.
  change (Z.of_nat 128 + 256 + 64) with 448. lia.
Qed.

Lemma histogram_lines_good m labels h :
  metric_wf m → label_length labels ≤ 65 → good_ops (histogram_lines m labels h) (histogram_text m labels h).
Proof.
  intros Hm Hl. unfold histogram_lines, histogram_text. apply good_app.
  - induction (hi_buckets h) as [|b bs IH]; [constructor|]. cbn [fmap list_fmap List.map concat]. apply good_app; [|exact IH].
    by apply bucket_line_good.
  - set (texts := _ ++ _ ++ _ ++ _ ++ _ ++ _).
    assert (Hc : concat texts = sample (m_name m ++ str "_count") labels (decimal64 (hi_count h)) ++
      sample (m_name m ++ str "_sum") labels (format_g (bits_to_double (hi_sum_bits h)))).
    { unfold texts, sample. rewrite !concat_app, !append_label_set_text. cbn [concat]. rewrite !app_nil_r, <- !app_assoc. done. }
    rewrite <- Hc. apply good_group; [|by vm_compute]. unfold total. rewrite Hc, length_app, Nat2Z.inj_add.
    pose proof (sample_length (m_name m ++ str "_count") labels (decimal64 (hi_count h))) as H1.
    pose proof (sample_length (m_name m ++ str "_sum") labels (format_g (bits_to_double (hi_sum_bits h)))) as H2.
    rewrite length_app, Nat2Z.inj_add in H1, H2. pose proof (decimal64_length (hi_count h)).
    pose proof (format_g_length (bits_to_double (hi_sum_bits h))).
    pose proof (mw_strings m Hm) as [Hn _]. unfold DISTRIC_MAX_METRIC_NAME_LEN in *.
    change (length (str "_count")) with 6%nat in H1. change (length (str "_sum")) with 4%nat in H2.
    change (Z.of_nat 128 + 256 + 64) with 448. lia.
Qed.

Lemma header_lines_good m :
  metric_wf m →
  good_ops (header_lines m)
    (str "# HELP " ++ m_name m ++ str " " ++ m_help m ++ newline ++
     str "# TYPE " ++ m_name m ++ str " " ++ metric_type_text (m_type m) ++ newline).
Proof.
  intros Hm. unfold header_lines. set (texts := [_; _]).
  assert (Hc : concat texts = str "# HELP " ++ m_name m ++ str " " ++ m_help m ++ newline ++
     str "# TYPE " ++ m_name m ++ str " " ++ metric_type_text (m_type m) ++ newline).
  { unfold texts. cbn [concat]. rewrite app_nil_r, <- !app_assoc. done. }
  rewrite <- Hc. apply good_group; [|by vm_compute]. unfold total. rewrite Hc, !length_app.
  pose proof (mw_strings m Hm) as [Hn Hh]. unfold DISTRIC_MAX_METRIC_NAME_LEN, DISTRIC_MAX_METRIC_HELP_LEN in *.
  change (512 + Z.of_nat 128 + Z.of_nat 256) with 896. change (length (str "# HELP ")) with 7%nat.
  change (length (str "# TYPE ")) with 7%nat. change (length (str " ")) with 1%nat. change (length newline) with 1%nat.
  assert (length (metric_type_text (m_type m)) ≤ 9)%nat by (destruct (m_type m); cbn; lia). lia.
Qed.

(** The labels of an instance. *)
Definition instance_labels (m : metric) (fi : nat) : list metric_label :=
  decode_flat_index (m_label_defs m) (m_strides m) (Z.of_nat fi).

Lemma label_set_ok m fi : metric_wf m → (fi < m_cardinality m)%nat → label_set m fi = Ok (instance_labels m fi).
Proof.
  intros Hm Hfi. unfold label_set, instance_labels. rewrite (mw_table m Hm). unfold build_labels_table.
  destruct (m_label_defs m) as [|d defs]; [done|]. cbn [length]. destruct (Nat.eqb_spec (m_cardinality m) 0); [lia|]. cbn [orb Nat.eqb].
  by rewrite list_lookup_fmap, lookup_seq_lt.
Qed.

Lemma instance_labels_bounded m fi : metric_wf m → labels_bounded (instance_labels m fi).
Proof.
  intros Hm. destruct (mw_defs m Hm) as [_ Hd]. unfold instance_labels, decode_flat_index. split.
  - rewrite length_fmap, length_zip_with. lia.
  - apply Forall_map, Forall_true. intros [d s]. cbn [decode_label ml_key ml_value].
    unfold DISTRIC_MAX_LABEL_KEY_LEN, DISTRIC_MAX_LABEL_VALUE_LEN. pose proof (strncpy_length 63 (ld_key d)).
    match goal with |- context [strncpy (128 - 1) ?v] => pose proof (strncpy_length 127 v) end. cbn in *. lia.
Qed.

(** The labels of histograms have short texts. *)
Definition exportable (m : metric) : Prop :=
  metric_wf m ∧ (m_type m = METRIC_TYPE_HISTOGRAM → ∀ fi, (fi < m_cardinality m)%nat → label_length (instance_labels m fi) ≤ 65).

Lemma instance_good m fi :
  exportable m → (fi < m_cardinality m)%nat →
  ∃ ops, instance_lines m fi = Ok ops ∧ good_ops ops (instance_text m fi (instance_labels m fi)).
Proof.
  intros [Hm Hh] Hfi. unfold instance_lines. rewrite (label_set_ok m fi Hm Hfi). cbn [mbind result_bind].
  destruct (base_slot_lt m Hm) as [_ Hc]. pose proof (mw_type m Hm) as Ht. pose proof (instance_labels_bounded m fi Hm) as Hb.
  unfold instance_text. destruct (m_instances m) as [l|l|l]; cbn [instances_length instances_type] in *;
    destruct (lookup_lt_is_Some_2 l fi ltac:(lia)) as [v Hv]; rewrite Hv; eexists; (split; [reflexivity|]); cbn [default id].
  - apply value_line_good; [done|done|]. pose proof (decimal64_length v). lia.
  - apply value_line_good; [done|done|]. apply format_g_length.
  - apply histogram_lines_good; [done|]. by apply Hh.
Qed.

Lemma concat_good {A} (f : A → result (list export_op)) (g : A → list Z) l :
  Forall (λ x, ∃ ops, f x = Ok ops ∧ good_ops ops (g x)) l →
  ∃ ops, concat_ops (f <$> l) = Ok ops ∧ good_ops ops (concat (g <$> l)).
Proof.
  induction 1 as [|x l (ops1 & H1 & Hg1) _ (ops2 & H2 & Hg2)]; [by exists []; split; [|constructor]|].
  exists (ops1 ++ ops2). cbn [fmap list_fmap List.map concat_ops]. rewrite H1. cbn [mbind result_bind].
  change (List.map f l) with (f <$> l). rewrite H2. split; [done|]. by apply good_app.
Qed.

Lemma metric_good m : exportable m → ∃ ops, metric_lines m = Ok ops ∧ good_ops ops (metric_text m).
Proof.
  intros He. pose proof He as [Hm _]. destruct (mw_cardinality m Hm) as [Hc _]. pose proof (product_pos _ (proj1 (mw_defs m Hm))).
  unfold metric_lines. rewrite (proj2 (Nat.eqb_neq _ 0)) by lia.
  destruct (concat_good (instance_lines m) (λ fi, instance_text m fi (instance_labels m fi)) (seq 0 (m_cardinality m))) as (ops & -> & Hg).
  { apply Forall_lookup_2. intros k fi Hk. apply lookup_seq in Hk as [-> Hk]. by apply instance_good. }
  eexists. split; [reflexivity|]. unfold metric_text.
  pose proof (good_app _ _ _ _ (header_lines_good m Hm) Hg) as Hga. rewrite <- !app_assoc in Hga. exact Hga.
Qed.


(** ** Examples *)

Definition with_metric (name : string) (type : metric_type) (defs : list metric_label_definition) (r : metrics_registry) :
    metrics_registry :=
  (register_metric r (str name) (str "help") type (Some defs) (length defs) all_ok).2.

Lemma example_exportable : exportable (example_metric METRIC_TYPE_HISTOGRAM).
Proof.
  split; [apply example_metric_wf|]. intros _ fi Hfi. cbn [example_metric m_cardinality] in Hfi.
  do 6 (destruct fi as [|fi]; [vm_compute; congruence|]). lia.
Qed.


Example export_text :
  exposition (mr_set_metrics [set_instances (Counters [7]) (Metric (str "hits_total") (str "Hits") METRIC_TYPE_COUNTER [] [] 1 None (Counters []))]
    example_metrics) =
  str "# HELP hits_total Hits" ++ newline ++ str "# TYPE hits_total counter" ++ newline ++ str "hits_total 7" ++ newline.
Proof. reflexivity. Qed.

(** Eight labels as long as the arrays allow, on four histograms. *)
Definition long_defs : list metric_label_definition :=
  (λ k, LabelDefinition (replicate 62 97 ++ [97 + Z.of_nat k]) (Some [Some (replicate 127 98)])) <$> seq 0 8.
Definition long_registry : metrics_registry :=
  with_metric "d" METRIC_TYPE_HISTOGRAM long_defs (with_metric "c" METRIC_TYPE_HISTOGRAM long_defs
    (with_metric "b" METRIC_TYPE_HISTOGRAM long_defs (with_metric "a" METRIC_TYPE_HISTOGRAM long_defs example_metrics))).

(** The estimate for a line of a histogram, 448 bytes, does not count its labels: the
    export of four registered histograms writes outside of its buffer. *)
Theorem histogram_export_overflows :
  length (mr_metrics long_registry) = 4%nat ∧ metrics_export_prometheus long_registry true true = Fault.
Proof. split; vm_compute; reflexivity. Qed.

(** Label values are not escaped: a value with quotes reads as two labels. *)
Definition forged_registry : metrics_registry :=
  with_metric "m" METRIC_TYPE_COUNTER
    [LabelDefinition (str "user") (Some [Some (str "bob" ++ [34] ++ str ",role=" ++ [34] ++ str "admin")])] example_metrics.
Definition honest_registry : metrics_registry :=
  with_metric "m" METRIC_TYPE_COUNTER
    [LabelDefinition (str "user") (Some [Some (str "bob")]); LabelDefinition (str "role") (Some [Some (str "admin")])]
    example_metrics.

Theorem label_values_not_escaped :
  metrics_export_prometheus forged_registry true true = metrics_export_prometheus honest_registry true true ∧
  metrics_export_prometheus forged_registry true true = Ok (known (exposition forged_registry)) ∧
  (length ∘ m_label_defs <$> mr_metrics forged_registry) = [1%nat] ∧
  (length ∘ m_label_defs <$> mr_metrics honest_registry) = [2%nat].
Proof. vm_compute. split_and!; reflexivity. Qed.

(** The unlabelled updates of a labelled counter are in no line of the export. *)
Theorem unlabelled_base_not_exported m value m' :
  metric_wf m → m_label_defs m ≠ [] → metrics_counter_add m value = Ok m' → metric_text m' = metric_text m.
Proof.
  intros Hm Hd. unfold metrics_counter_add, counter_cell_add. rewrite base_slot_labelled by done.
  destruct (m_instances m) as [cells|l|l] eqn:Hi; [|done..]. destruct (cells !! m_cardinality m) as [v|]; [|done].
  intros [= <-]. unfold metric_text. cbn [set_instances m_name m_help m_type m_label_defs m_strides m_cardinality].
  do 10 f_equal. apply f_equal, list_fmap_ext. intros k fi Hk. apply lookup_seq in Hk as [-> Hk].
  unfold instance_text. cbn [set_instances m_instances m_name]. rewrite Hi. by rewrite list_lookup_insert_ne by lia.
Qed.

Lemma unlabelled_base_not_exported_witness :
  ∃ m', metrics_counter_add (example_metric METRIC_TYPE_COUNTER) 5 = Ok m' ∧ metrics_counter_get m' = Ok 5 ∧
    metric_text m' = metric_text (example_metric METRIC_TYPE_COUNTER).
Proof.
  eexists. split; [reflexivity|]. split; [reflexivity|].
  apply (unlabelled_base_not_exported (example_metric METRIC_TYPE_COUNTER) 5);
    [apply example_metric_wf|discriminate|reflexivity].
Defined.
