(* ===== verification/LogFormat.v ===== *)
(** * Log entries (libs/distric_obs/src/logging.c: the JSON formatter)

    An entry is formatted into a buffer of fixed size; a part that does not fit makes the
    formatter give up, except for the characters [json_escape] leaves out. *)

From Stdlib Require Import ZArith Lia String.
From stdpp Require Import base list numbers option.
From S2P Require Import Prelude CString MetricsExport.

Local Open Scope Z_scope.

Definition LOG_MAX_ENTRY_BYTES_DEFAULT : nat := 4096.

Inductive log_level := LOG_LEVEL_DEBUG | LOG_LEVEL_INFO | LOG_LEVEL_WARN | LOG_LEVEL_ERROR | LOG_LEVEL_FATAL.

Definition log_level_str (level : log_level) : list Z :=
  match level with
  | LOG_LEVEL_DEBUG => str "DEBUG"
  | LOG_LEVEL_INFO => str "INFO"
  | LOG_LEVEL_WARN => str "WARN"
  | LOG_LEVEL_ERROR => str "ERROR"
  | LOG_LEVEL_FATAL => str "FATAL"
  end.

(** A pair; [None] for [NULL]. *)
Record log_kv := LogKv {
  kv_key : option (list Z);
  kv_value : option (list Z)
}.

(** ** Escaping *)

Definition QUOTE : Z := 34.
Definition BACKSLASH : Z := 92.

(** The bytes written for a character. *)
Definition escape_char (c : Z) : list Z :=
  if c =? QUOTE then [BACKSLASH; QUOTE]
  else if c =? BACKSLASH then [BACKSLASH; BACKSLASH]
  else if c =? 10 then [BACKSLASH; 110]
  else if c =? 13 then [BACKSLASH; 114]
  else if c =? 9 then [BACKSLASH; 116]
  else [c].

(** The loop, with [o] bytes in [dst]: it stops when fewer than five are left. *)
Fixpoint escape_loop (dsz : nat) (src : list Z) (o : nat) : list Z :=
  match src with
  | [] => []
  | c :: src =>
      if (o + 4 <? dsz)%nat then escape_char c ++ escape_loop dsz src (o + length (escape_char c)) else []
  end.

(** The bytes written before the terminator; their number is the answer. *)
Definition json_escape (dsz : nat) (src : list Z) : list Z :=
  if (dsz =? 0)%nat then []
  else
    let body := QUOTE :: escape_loop dsz src 1 in
    if (length body <? dsz)%nat then body ++ [QUOTE] else body.

(** ** The entry *)

(** [APPEND]; [None] for the [return -1]. *)
Definition append (buf_size : nat) (s : list Z) (o : list Z) : option (list Z) :=
  if (buf_size <=? length o + length s)%nat then None else Some (o ++ s).

Definition append_escaped (buf_size : nat) (s : list Z) (o : list Z) : option (list Z) :=
  let n := json_escape (buf_size - length o) s in
  if (length n =? 0)%nat || (buf_size <=? length o + length n)%nat then None else Some (o ++ n).

Definition append_pair (buf_size : nat) (kv : log_kv) (o : list Z) : option (list Z) :=
  match kv_key kv with
  | None => Some o
  | Some key =>
      o ← append buf_size (str ",") o;
      o ← append_escaped buf_size key o;
      o ← append buf_size (str ":") o;
      append_escaped buf_size (default [] (kv_value kv)) o
  end.

Fixpoint append_pairs (buf_size : nat) (kvs : list log_kv) (o : list Z) : option (list Z) :=
  match kvs with
  | [] => Some o
  | kv :: kvs => o ← append_pair buf_size kv o; append_pairs buf_size kvs o
  end.

(** A member name of the fixed part. *)
Definition member (name : string) : list Z := QUOTE :: str name ++ [QUOTE] ++ str ":".

(** [component] and [message] are [None] for [NULL]. *)
Definition format_json (buf_size : nat) (now_ms : Z) (level : log_level) (component message : option (list Z))
    (kv_pairs : list log_kv) : option (list Z) :=
  o ← append buf_size (str "{" ++ member "timestamp") [];
  o ← append buf_size (decimal64 now_ms) o;
  o ← append buf_size (str "," ++ member "level") o;
  o ← append_escaped buf_size (log_level_str level) o;
  o ← append buf_size (str "," ++ member "component") o;
  o ← append_escaped buf_size (default [] component) o;
  o ← append buf_size (str "," ++ member "message") o;
  o ← append_escaped buf_size (default [] message) o;
  o ← append_pairs buf_size kv_pairs o;
  append buf_size (str "}" ++ [10]) o.

(** ** The line an entry stands for *)

Definition json_string (s : list Z) : list Z := QUOTE :: concat (escape_char <$> s) ++ [QUOTE].

Definition pair_text (kv : log_kv) : list Z :=
  match kv_key kv with
  | None => []
  | Some key => str "," ++ json_string key ++ str ":" ++ json_string (default [] (kv_value kv))
  end.

Definition log_line (now_ms : Z) (level : log_level) (component message : option (list Z)) (kv_pairs : list log_kv) : list Z :=
  str "{" ++ member "timestamp" ++ decimal64 now_ms ++ str "," ++ member "level" ++ json_string (log_level_str level) ++
  str "," ++ member "component" ++ json_string (default [] component) ++
  str "," ++ member "message" ++ json_string (default [] message) ++ concat (pair_text <$> kv_pairs) ++ str "}" ++ [10].

(** ** Reading back *)

(** The character of an escape. *)
Definition unescape_char (c : Z) : option Z :=
  if (c =? QUOTE) || (c =? BACKSLASH) then Some c
  else if c =? 110 then Some 10
  else if c =? 114 then Some 13
  else if c =? 116 then Some 9
  else None.

(** A string up to its closing quote, and what follows. *)
Fixpoint read_body (text : list Z) : option (list Z * list Z) :=
  match text with
  | [] => None
  | c :: text' =>
      if c =? QUOTE then Some ([], text')
      else if c =? BACKSLASH then
        match text' with
        | e :: text'' => v ← unescape_char e; '(s, rest) ← read_body text''; Some (v :: s, rest)
        | [] => None
        end
      else '(s, rest) ← read_body text'; Some (c :: s, rest)
  end.
Definition read_string (text : list Z) : option (list Z * list Z) :=
  match text with
  | c :: text => if c =? QUOTE then read_body text else None
  | [] => None
  end.

(** The members of an object after a comma or the opening brace. *)
Fixpoint read_pairs (fuel : nat) (text : list Z) : option (list (list Z * list Z) * list Z) :=
  match fuel with
  | O => None
  | S fuel =>
      match text with
      | 44 :: text =>
          '(key, text) ← read_string text;
          match text with
          | 58 :: text =>
              '(value, text) ← read_string text;
              '(pairs, text) ← read_pairs fuel text;
              Some ((key, value) :: pairs, text)
          | _ => None
          end
      | _ => Some ([], text)
      end
  end.

(** ** Lemmas *)

Lemma escape_char_length c : (1 ≤ length (escape_char c) ≤ 2)%nat.
Proof. unfold escape_char. repeat case_match; cbn; lia. Qed.

Lemma json_string_length s : (length (json_string s) = 2 + length (concat (escape_char <$> s)))%nat.
Proof. unfold json_string. cbn [length]. rewrite length_app. cbn. lia. Qed.

(** Nothing is left out when the whole text and four more bytes fit. *)
Lemma escape_loop_fits dsz src o :
  (o + length (concat (escape_char <$> src)) + 4 ≤ dsz)%nat → escape_loop dsz src o = concat (escape_char <$> src).
Proof.
  revert o. induction src as [|c src IH]; intros o Hf; [done|]. cbn [fmap list_fmap List.map concat escape_loop] in *.
  pose proof (escape_char_length c). rewrite length_app in Hf. rewrite (proj2 (Nat.ltb_lt _ _)) by lia.
  f_equal. apply IH. change (List.map escape_char src) with (escape_char <$> src) in Hf. lia.
Qed.

Lemma json_escape_fits dsz src : (length (json_string src) + 3 ≤ dsz)%nat → json_escape dsz src = json_string src.
Proof.
  rewrite json_string_length. intros Hf. unfold json_escape. rewrite (proj2 (Nat.eqb_neq _ _)) by lia.
  rewrite escape_loop_fits by lia. cbn [length]. by rewrite (proj2 (Nat.ltb_lt _ _)) by lia.
Qed.

Lemma append_fits buf_size s o : (length o + length s < buf_size)%nat → append buf_size s o = Some (o ++ s).
Proof. intros H. unfold append. by rewrite (proj2 (Nat.leb_gt _ _)). Qed.

Lemma append_escaped_fits buf_size s o :
  (length o + length (json_string s) + 3 ≤ buf_size)%nat → append_escaped buf_size s o = Some (o ++ json_string s).
Proof.
  intros H. unfold append_escaped. rewrite json_escape_fits by lia. rewrite (proj2 (Nat.leb_gt _ _)) by lia.
  by rewrite (proj2 (Nat.eqb_neq (length (json_string s)) 0)) by (rewrite json_string_length; lia).
Qed.

Lemma append_pairs_fits buf_size kvs o :
  (length o + length (concat (pair_text <$> kvs)) + 3 ≤ buf_size)%nat →
  append_pairs buf_size kvs o = Some (o ++ concat (pair_text <$> kvs)).
Proof.
  revert o. induction kvs as [|kv kvs IH]; intros o Hf; cbn [append_pairs fmap list_fmap List.map concat] in *; [by rewrite app_nil_r|].
  change (List.map pair_text kvs) with (pair_text <$> kvs) in *. rewrite length_app in Hf.
  assert (Hp : append_pair buf_size kv o = Some (o ++ pair_text kv)).
  { unfold append_pair, pair_text in *. destruct (kv_key kv) as [key|]; [|by rewrite app_nil_r].
    rewrite !length_app in Hf. change (length (str ",")) with 1%nat in Hf. change (length (str ":")) with 1%nat in Hf.
    rewrite append_fits by (change (length (str ",")) with 1%nat; lia). cbn [mbind option_bind].
    rewrite append_escaped_fits by (rewrite length_app; change (length (str ",")) with 1%nat; lia). cbn [mbind option_bind].
    rewrite append_fits by (rewrite !length_app; change (length (str ",")) with 1%nat; change (length (str ":")) with 1%nat; lia).
    cbn [mbind option_bind].
    rewrite append_escaped_fits by (rewrite !length_app; change (length (str ",")) with 1%nat; change (length (str ":")) with 1%nat; lia).
    by rewrite <- !app_assoc. }
  rewrite Hp. cbn [mbind option_bind]. rewrite IH by (rewrite length_app; lia). by rewrite <- app_assoc.
Qed.

Lemma format_json_fits buf_size now level component message kvs :
  (length (log_line now level component message kvs) + 1 ≤ buf_size)%nat →
  format_json buf_size now level component message kvs = Some (log_line now level component message kvs).
Proof.
  unfold log_line, format_json. set (end_ := str "}" ++ [10]). intros Hf. rewrite !length_app in Hf.
  assert (He : length end_ = 2%nat) by done. rewrite He in Hf. clearbody end_.
  repeat (rewrite append_fits by (rewrite ?length_app; cbn [length]; lia); cbn [mbind option_bind]).
  repeat (first [rewrite append_fits by (rewrite ?length_app; cbn [length]; lia)
               | rewrite append_escaped_fits by (rewrite ?length_app; cbn [length]; lia)
               | rewrite append_pairs_fits by (rewrite ?length_app; cbn [length]; lia)]; cbn [mbind option_bind]).
  by rewrite <- !app_assoc.
Qed.

(** ** Reading an entry back *)

Lemma read_body_escaped s rest : read_body (concat (escape_char <$> s) ++ QUOTE :: rest) = Some (s, rest).
Proof.
  induction s as [|c s IH]; [done|]. cbn [fmap list_fmap List.map concat]. rewrite <- app_assoc.
  change (List.map escape_char s) with (escape_char <$> s).
  unfold escape_char at 1. unfold QUOTE, BACKSLASH in *.
  destruct (Z.eqb_spec c 34) as [->|Hq]; [cbn; by rewrite IH|].
  destruct (Z.eqb_spec c 92) as [->|Hb]; [cbn; by rewrite IH|].
  destruct (Z.eqb_spec c 10) as [->|]; [cbn; by rewrite IH|].
  destruct (Z.eqb_spec c 13) as [->|]; [cbn; by rewrite IH|].
  destruct (Z.eqb_spec c 9) as [->|]; [cbn; by rewrite IH|].
  cbn [app read_body]. unfold QUOTE, BACKSLASH. rewrite (proj2 (Z.eqb_neq _ _) Hq), (proj2 (Z.eqb_neq _ _) Hb), IH. done.
Qed.

Lemma read_string_json s rest : read_string (json_string s ++ rest) = Some (s, rest).
Proof.
  unfold json_string. rewrite <- app_comm_cons, <- app_assoc. cbn [read_string]. rewrite Z.eqb_refl. apply read_body_escaped.
Qed.

(** The pairs of an entry, without those whose key is [NULL]. *)
Definition pairs_of (kvs : list log_kv) : list (list Z * list Z) :=
  omap (λ kv, (λ key, (key, default [] (kv_value kv))) <$> kv_key kv) kvs.

Lemma pairs_of_some key value kvs : pairs_of (LogKv (Some key) value :: kvs) = (key, default [] value) :: pairs_of kvs.
Proof. done. Qed.
Lemma pairs_of_none value kvs : pairs_of (LogKv None value :: kvs) = pairs_of kvs.
Proof. done. Qed.

Lemma read_pairs_text kvs fuel rest :
  (length (pairs_of kvs) < fuel)%nat → (∀ t, rest ≠ 44 :: t) →
  read_pairs fuel (concat (pair_text <$> kvs) ++ rest) = Some (pairs_of kvs, rest).
Proof.
  revert fuel. induction kvs as [|kv kvs IH]; intros [|fuel] Hf Hr; try lia; cbn [fmap list_fmap List.map concat].
  - cbn. destruct rest as [|c rest]; [done|]. repeat (case_match; try done). exfalso. by eapply Hr.
  - change (List.map pair_text kvs) with (pair_text <$> kvs). rewrite <- app_assoc. unfold pair_text at 1.
    destruct kv as [[key|] value]; cbn [kv_key kv_value]; [rewrite pairs_of_some in *|rewrite pairs_of_none in *].
    + cbn [length] in Hf. rewrite <- !app_assoc. cbn [read_pairs str app]. change (str ",") with [44]. cbn [app read_pairs].
      rewrite read_string_json. cbn [mbind option_bind]. change (str ":") with [58]. cbn [app].
      rewrite read_string_json. cbn [mbind option_bind]. rewrite IH by (lia || done). done.
    + specialize (IH (S fuel) ltac:(lia) Hr). exact IH.
Qed.

(** No byte of an escaped string is a control character the escapes stand for. *)
Lemma escape_no_newline c : 10 ∉ escape_char c.
Proof.
  unfold escape_char, QUOTE, BACKSLASH. repeat case_match; rewrite ?elem_of_cons, ?elem_of_nil; try lia.
Qed.

Fixpoint span_digits (text : list Z) : list Z * list Z :=
  match text with
  | c :: text' => if is_digit c then let '(ds, rest) := span_digits text' in (c :: ds, rest) else ([], text)
  | [] => ([], [])
  end.

(** A whole entry: its time and its members, if it is an entry and nothing else. *)
Definition read_entry (text : list Z) : option (Z * list (list Z * list Z)) :=
  let head := str "{" ++ member "timestamp" in
  if bool_decide (take (length head) text = head) then
    let '(ds, rest) := span_digits (drop (length head) text) in
    '(pairs, rest) ← read_pairs (S (length text)) rest;
    if bool_decide (rest = str "}" ++ [10]) then Some (digits_value 0 ds, pairs) else None
  else None.

(** The members of an entry as pairs. *)
Definition entry_kvs (level : log_level) (component message : option (list Z)) (kvs : list log_kv) : list log_kv :=
  LogKv (Some (str "level")) (Some (log_level_str level)) :: LogKv (Some (str "component")) component ::
  LogKv (Some (str "message")) message :: kvs.

Lemma log_line_pairs now level component message kvs :
  log_line now level component message kvs =
    (str "{" ++ member "timestamp") ++ decimal64 now ++
    concat (pair_text <$> entry_kvs level component message kvs) ++ str "}" ++ [10].
Proof.
  unfold log_line, entry_kvs. rewrite !fmap_cons. cbn [concat]. unfold pair_text at 2 3 4. cbn [kv_key kv_value default].
  rewrite <- !app_assoc. reflexivity.
Qed.

Lemma span_digits_app ds rest :
  Forall (λ b, 48 ≤ b ≤ 57) ds → match rest with c :: _ => is_digit c = false | [] => True end →
  span_digits (ds ++ rest) = (ds, rest).
Proof.
  intros Hd Hr. induction Hd as [|c ds Hc _ IH]; cbn [app span_digits].
  - destruct rest as [|c rest]; [done|]. cbn [span_digits]. by rewrite Hr.
  - by rewrite (proj2 (is_digit_range c) Hc), IH.
Qed.

Lemma pairs_text_length kvs : (length (pairs_of kvs) ≤ length (concat (pair_text <$> kvs)))%nat.
Proof.
  induction kvs as [|[[key|] v] kvs IH]; [done|..]; rewrite fmap_cons; cbn [concat]; rewrite length_app; unfold pair_text at 1;
    cbn [kv_key]; [rewrite pairs_of_some, length_app; cbn [length]; change (length (str ",")) with 1%nat; lia|rewrite pairs_of_none; lia].
Qed.

Lemma read_entry_line now level component message kvs :
  is_u64 now →
  read_entry (log_line now level component message kvs) = Some (now, pairs_of (entry_kvs level component message kvs)).
Proof.
  intros Hn. rewrite log_line_pairs. unfold read_entry. set (head := str "{" ++ member "timestamp"). set (ks := entry_kvs _ _ _ _).
  rewrite take_app_length, drop_app_length, bool_decide_eq_true_2 by done.
  rewrite span_digits_app by (done || (apply decimal_digits_ok; ulia)).
  rewrite read_pairs_text.
  - cbn [mbind option_bind]. rewrite bool_decide_eq_true_2 by done. unfold decimal64. rewrite decimal_digits_value; [done|].
    change (10 ^ Z.of_nat 20) with 100000000000000000000. ulia.
  - rewrite !length_app. pose proof (pairs_text_length ks). lia.
  - intros t. discriminate.
Qed.

Lemma no_newline_str s : forallb (λ c, negb (c =? 10)) s = true → 10 ∉ s.
Proof.
  intros H Hin. apply list_elem_of_lookup in Hin as [k Hk]. rewrite forallb_forall in H.
  specialize (H 10). rewrite Z.eqb_refl in H. discriminate H. apply list_elem_of_In. by eapply list_elem_of_lookup_2.
Qed.

Lemma no_newline_json s : 10 ∉ json_string s.
Proof.
  unfold json_string. rewrite elem_of_cons, elem_of_app. intros [H|[H|H]]; [done| |].
  - induction s as [|c s IH]; [by apply elem_of_nil in H|]. rewrite fmap_cons in H. cbn [concat] in H.
    apply elem_of_app in H as [H|H]; [by apply escape_no_newline in H|by apply IH].
  - apply list_elem_of_singleton in H. done.
Qed.

Lemma no_newline_pairs kvs : 10 ∉ concat (pair_text <$> kvs).
Proof.
  induction kvs as [|[[key|] v] kvs IH]; [apply not_elem_of_nil|..]; rewrite fmap_cons; cbn [concat]; unfold pair_text at 1; cbn [kv_key].
  - rewrite !elem_of_app. intros [[H|[H|[H|H]]]|H]; try done; try (by apply no_newline_json in H);
      (revert H; by apply no_newline_str).
  - exact IH.
Qed.

(** C34: the log is lossless: an entry of at most 4096 bytes, whatever bytes its strings
    hold, becomes one line, with a newline only at its end, and reading the line gives back
    the time, the level, the component, the message and every pair with a key, in order. *)
Theorem log_entry_roundtrip now level component message kvs :
  is_u64 now → (length (log_line now level component message kvs) ≤ LOG_MAX_ENTRY_BYTES_DEFAULT)%nat →
  ∃ body, format_json (S LOG_MAX_ENTRY_BYTES_DEFAULT) now level component message kvs = Some (body ++ [10]) ∧ 10 ∉ body ∧
    read_entry (body ++ [10]) =
      Some (now, (str "level", log_level_str level) :: (str "component", default [] component) ::
                 (str "message", default [] message) :: pairs_of kvs).
Proof.
  intros Hn Hl. pose proof (read_entry_line now level component message kvs Hn) as Hr.
  exists (str "{" ++ member "timestamp" ++ decimal64 now ++ concat (pair_text <$> entry_kvs level component message kvs) ++ str "}").
  assert (He : (str "{" ++ member "timestamp" ++ decimal64 now ++ concat (pair_text <$> entry_kvs level component message kvs) ++ str "}") ++ [10] =
    log_line now level component message kvs) by (rewrite log_line_pairs, <- !app_assoc; reflexivity).
  rewrite He. split; [apply format_json_fits; lia|]. split; [|exact Hr].
  rewrite !elem_of_app. intros [H|[H|[H|[H|H]]]]; try (revert H; by apply no_newline_str).
  - pose proof (decimal_digits_ok 20 now ltac:(ulia)) as Hd. unfold decimal64 in H.
    apply list_elem_of_lookup in H as [k Hk]. pose proof (Forall_lookup_1 _ _ _ _ Hd Hk). cbn in *. lia.
  - by apply no_newline_pairs in H.
Qed.

Lemma log_entry_roundtrip_witness :
  ∃ body, format_json (S LOG_MAX_ENTRY_BYTES_DEFAULT) 1700000000000 LOG_LEVEL_WARN (Some (str "raft")) (Some (str "two" ++ [10] ++ str "lines"))
      [LogKv (Some (str "path")) (Some (str "C:" ++ [92; 34])); LogKv None None] = Some (body ++ [10]) ∧ 10 ∉ body ∧
    read_entry (body ++ [10]) =
      Some (1700000000000, [(str "level", str "WARN"); (str "component", str "raft"); (str "message", str "two" ++ [10] ++ str "lines");
                            (str "path", str "C:" ++ [92; 34])]).
Proof.
  apply (log_entry_roundtrip 1700000000000 LOG_LEVEL_WARN (Some (str "raft")) (Some (str "two" ++ [10] ++ str "lines"))
    [LogKv (Some (str "path")) (Some (str "C:" ++ [92; 34])); LogKv None None]);
    [vm_compute; split; congruence|apply Nat.leb_le; vm_compute; reflexivity].
Defined.

(** A message that is too long is not refused: its end is left out, and the entry takes the
    whole buffer of 4096 bytes. *)
Theorem long_message_cut :
  ∃ line, format_json (S LOG_MAX_ENTRY_BYTES_DEFAULT) 0 LOG_LEVEL_INFO (Some (str "c")) (Some (replicate 5000 97)) [] = Some line ∧
    length line = LOG_MAX_ENTRY_BYTES_DEFAULT ∧
    read_entry line = Some (0, [(str "level", str "INFO"); (str "component", str "c"); (str "message", replicate 4036 97)]).
Proof. eexists. split; [vm_compute; reflexivity|]. split; vm_compute; reflexivity. Qed.
