(* ===== verification/LogRing.v ===== *)
(** * The ring buffer of the logger (libs/distric_obs/src/logging.c: asynchronous logging)

    Many producers and one consumer share a ring of slots.  A producer claims an index by
    adding one to [head], fills the slot of the index and publishes it by the state of the
    slot; the consumer writes the slots out in order and advances [tail].  Every atomic
    operation is one step and the steps interleave in any order; the acquire and release
    orderings of the code make the non-atomic accesses to a slot part of the atomic
    operation that publishes or frees it. *)

From Stdlib Require Import ZArith Lia.
From stdpp Require Import base list numbers option relations.
From S2P Require Import Prelude LogFormat.

Local Open Scope Z_scope.

Definition SLOT_CLAIM_MAX_SPIN : Z := 64.

(** ** State *)

Inductive slot_state := SLOT_EMPTY | SLOT_FILLED | SLOT_DROPPED.

Record log_slot := LogSlot {
  sl_state : slot_state;
  sl_data : list Z          (* data and len *)
}.

(** Where a call of [ring_write] stands. *)
Inductive producer :=
  | PrStart (data : list Z)
  | PrSnap (data : list Z) (head_snap : Z)
  | PrClaim (data : list Z)
  | PrRecheck (data : list Z) (idx : Z)
  | PrMark (data : list Z) (idx : Z)
  | PrSpin (data : list Z) (idx spin : Z)
  | PrPublish (data : list Z) (idx : Z)
  | PrDone (data : list Z) (accepted : bool).

(** Where the flush thread stands. *)
Inductive consumer :=
  | CoTop
  | CoHead (shutting_down : bool)
  | CoSpin (spin : Z)
  | CoShutdown (spin : Z)
  | CoWrite
  | CoClear
  | CoAdvance
  | CoSkip
  | CoSkipAdvance
  | CoExit.

#[export] Instance consumer_eq_dec : EqDecision consumer.
Proof. solve_decision. Defined.

(** [rg_out]: the entries given to [write] with the number of bytes written. *)
Record ring := Ring {
  rg_head : Z;              (* _Atomic uint64_t *)
  rg_tail : Z;              (* _Atomic uint64_t *)
  rg_slots : list log_slot;
  rg_drops : Z;             (* _Atomic uint64_t *)
  rg_shutdown : bool;
  rg_last_flush_ns : Z;
  rg_out : list (list Z * nat);
  rg_producers : list producer;
  rg_consumer : consumer
}.

Definition capacity (r : ring) : Z := Z.of_nat (length (rg_slots r)).

Definition rg_set_head (h : Z) (r : ring) : ring :=
  Ring h (rg_tail r) (rg_slots r) (rg_drops r) (rg_shutdown r) (rg_last_flush_ns r) (rg_out r) (rg_producers r) (rg_consumer r).
Definition rg_set_tail (t : Z) (r : ring) : ring :=
  Ring (rg_head r) t (rg_slots r) (rg_drops r) (rg_shutdown r) (rg_last_flush_ns r) (rg_out r) (rg_producers r) (rg_consumer r).
Definition rg_set_slots (s : list log_slot) (r : ring) : ring :=
  Ring (rg_head r) (rg_tail r) s (rg_drops r) (rg_shutdown r) (rg_last_flush_ns r) (rg_out r) (rg_producers r) (rg_consumer r).
Definition rg_set_drops (d : Z) (r : ring) : ring :=
  Ring (rg_head r) (rg_tail r) (rg_slots r) d (rg_shutdown r) (rg_last_flush_ns r) (rg_out r) (rg_producers r) (rg_consumer r).
Definition rg_set_shutdown (b : bool) (r : ring) : ring :=
  Ring (rg_head r) (rg_tail r) (rg_slots r) (rg_drops r) b (rg_last_flush_ns r) (rg_out r) (rg_producers r) (rg_consumer r).
Definition rg_set_out (o : list (list Z * nat)) (now : Z) (r : ring) : ring :=
  Ring (rg_head r) (rg_tail r) (rg_slots r) (rg_drops r) (rg_shutdown r) now o (rg_producers r) (rg_consumer r).
Definition rg_set_producers (p : list producer) (r : ring) : ring :=
  Ring (rg_head r) (rg_tail r) (rg_slots r) (rg_drops r) (rg_shutdown r) (rg_last_flush_ns r) (rg_out r) p (rg_consumer r).
Definition rg_set_consumer (c : consumer) (r : ring) : ring :=
  Ring (rg_head r) (rg_tail r) (rg_slots r) (rg_drops r) (rg_shutdown r) (rg_last_flush_ns r) (rg_out r) (rg_producers r) c.

(** ** Slots *)

(** [idx & mask]: the capacity is a power of two. *)
Definition slot_index (r : ring) (idx : Z) : nat := Z.to_nat (Z.land idx (capacity r - 1)).
Definition slot_at (r : ring) (idx : Z) : log_slot := nth (slot_index r idx) (rg_slots r) (LogSlot SLOT_EMPTY []).
Definition set_slot (idx : Z) (s : log_slot) (r : ring) : ring :=
  rg_set_slots (<[slot_index r idx := s]> (rg_slots r)) r.

(** What is copied: at most 4095 bytes. *)
Definition copied (data : list Z) : list Z :=
  if (length data <? LOG_MAX_ENTRY_BYTES_DEFAULT)%nat then data else take (LOG_MAX_ENTRY_BYTES_DEFAULT - 1) data.

Definition count_drop (r : ring) : ring := rg_set_drops (u64 (rg_drops r + 1)) r.

(** ** Producers *)

(** One atomic operation of [ring_write]; the second member is the entry whose index the
    step claims. *)
Definition producer_turn (p : producer) (r : ring) : ring * producer * option (list Z) :=
  match p with
  | PrStart data => (r, PrSnap data (rg_head r), None)
  | PrSnap data head_snap =>
      if u64 (head_snap - rg_tail r) >=? capacity r then (count_drop r, PrDone data false, None)
      else (r, PrClaim data, None)
  | PrClaim data => (rg_set_head (u64 (rg_head r + 1)) r, PrRecheck data (rg_head r), Some data)
  | PrRecheck data idx =>
      if u64 (idx - rg_tail r) >=? capacity r then (r, PrMark data idx, None) else (r, PrSpin data idx 0, None)
  | PrMark data idx =>
      (count_drop (set_slot idx (LogSlot SLOT_DROPPED (sl_data (slot_at r idx))) r), PrDone data false, None)
  | PrSpin data idx spin =>
      match sl_state (slot_at r idx) with
      | SLOT_EMPTY => (r, PrPublish data idx, None)
      | _ => if spin >=? SLOT_CLAIM_MAX_SPIN then (count_drop r, PrDone data false, None) else (r, PrSpin data idx (spin + 1), None)
      end
  | PrPublish data idx => (set_slot idx (LogSlot SLOT_FILLED (copied data)) r, PrDone data true, None)
  | PrDone data accepted => (r, PrDone data accepted, None)
  end.

(** ** The consumer *)

(** One atomic operation of [flush_thread_fn]; [written] is what the loop of [write]
    reaches, [now] the clock. *)
Definition consumer_turn (written : nat) (now : Z) (r : ring) : ring :=
  let set := λ c, rg_set_consumer c r in
  match rg_consumer r with
  | CoTop => set (CoHead (rg_shutdown r))
  | CoHead shutting_down =>
      if rg_tail r =? rg_head r then set (if shutting_down then CoExit else CoTop) else set (CoSpin 0)
  | CoSpin spin =>
      match sl_state (slot_at r (rg_tail r)) with
      | SLOT_FILLED => set CoWrite
      | SLOT_DROPPED => set CoSkip
      | SLOT_EMPTY => set (CoShutdown spin)
      end
  | CoShutdown spin => if rg_shutdown r && (spin >? 1024) then set CoSkip else set (CoSpin (u32 (spin + 1)))
  | CoWrite =>
      let data := sl_data (slot_at r (rg_tail r)) in
      rg_set_out (rg_out r ++ [(data, (written `min` length data)%nat)]) now (rg_set_consumer CoClear r)
  | CoClear => rg_set_consumer CoAdvance (set_slot (rg_tail r) (LogSlot SLOT_EMPTY (sl_data (slot_at r (rg_tail r)))) r)
  | CoAdvance => rg_set_consumer CoTop (rg_set_tail (u64 (rg_tail r + 1)) r)
  | CoSkip => rg_set_consumer CoSkipAdvance (set_slot (rg_tail r) (LogSlot SLOT_EMPTY (sl_data (slot_at r (rg_tail r)))) r)
  | CoSkipAdvance => rg_set_consumer CoTop (rg_set_tail (u64 (rg_tail r + 1)) r)
  | CoExit => r
  end.

(** ** Steps *)

Inductive ring_action :=
  | ActCall (data : list Z)                 (* a producer calls ring_write *)
  | ActProducer (j : nat)
  | ActConsumer (written : nat) (now : Z)
  | ActShutdown.                            (* log_destroy *)

(** The state after an action, with the entry whose index it claims. *)
Definition ring_step (a : ring_action) (r : ring) : ring * option (list Z) :=
  match a with
  | ActCall data => (rg_set_producers (rg_producers r ++ [PrStart data]) r, None)
  | ActProducer j =>
      match rg_producers r !! j with
      | Some p =>
          let '(r', p', claim) := producer_turn p r in
          (rg_set_producers (<[j := p']> (rg_producers r)) r', claim)
      | None => (r, None)
      end
  | ActConsumer written now => (consumer_turn written now r, None)
  | ActShutdown => (rg_set_shutdown true r, None)
  end.

(** A run, with the entries whose indices were claimed, in the order of their indices. *)
Fixpoint ring_run (acts : list ring_action) (r : ring) (claims : list (list Z)) : ring * list (list Z) :=
  match acts with
  | [] => (r, claims)
  | a :: acts => let '(r, claim) := ring_step a r in ring_run acts r (claims ++ option_list claim)
  end.

(** ** Creation *)

(** The loop [while (p2 < cap) p2 <<= 1]; [None] when it goes on after [fuel] turns.  64
    turns reach any power a [size_t] holds. *)
Fixpoint power_above (fuel : nat) (p2 cap : Z) : option Z :=
  if p2 <? cap then match fuel with O => None | S fuel => power_above fuel (u64 (Z.shiftl p2 1)) cap end
  else Some p2.

Definition LOG_RING_BUFFER_DEFAULT_CAPACITY : Z := 8192.
Definition DISTRIC_MAX_RING_BUFFER : Z := 32768.

Definition ring_capacity (fuel : nat) (configured : Z) : option Z :=
  let cap := if configured =? 0 then LOG_RING_BUFFER_DEFAULT_CAPACITY else configured in
  p2 ← power_above fuel 1 cap;
  Some (if p2 >? DISTRIC_MAX_RING_BUFFER then DISTRIC_MAX_RING_BUFFER else p2).

Definition new_ring (cap : nat) : ring :=
  Ring 0 0 (replicate cap (LogSlot SLOT_EMPTY [])) 0 false 0 [] [] CoTop.

(** ** Specification *)

(** The index a call holds between its claim and its publication, with its entry. *)
Definition holding (p : producer) : option (Z * list Z) :=
  match p with
  | PrRecheck data idx | PrMark data idx | PrSpin data idx _ | PrPublish data idx => Some (idx, data)
  | _ => None
  end.

(** The call has passed the check made after the claim. *)
Definition checked (p : producer) : bool :=
  match p with PrSpin _ _ _ | PrPublish _ _ => true | _ => false end.

(** The entry of a call that has claimed an index and has not been refused. *)
Definition entry (p : producer) : list (list Z) :=
  match p with PrDone data true => [data] | _ => option_list (snd <$> holding p) end.
Definition refused (p : producer) : bool := match p with PrDone _ false => true | _ => false end.
Definition returned (p : producer) : bool := match p with PrDone _ _ => true | _ => false end.

(** Neither rare path is taken: no call has claimed an index past the capacity, and the
    consumer skips no slot. *)
Definition smooth (r : ring) : bool :=
  forallb (λ p, match p with PrMark _ _ => false | _ => true end) (rg_producers r)
  && match rg_consumer r with CoSkip | CoSkipAdvance => false | _ => true end.

Fixpoint smooth_run (acts : list ring_action) (r : ring) : bool :=
  smooth r && match acts with [] => true | a :: acts => smooth_run acts (fst (ring_step a r)) end.

(** The number of entries written, and of slots freed. *)
Definition written_upto (r : ring) : Z :=
  match rg_consumer r with CoClear | CoAdvance => rg_tail r + 1 | _ => rg_tail r end.
Definition freed_upto (r : ring) : Z :=
  match rg_consumer r with CoAdvance => rg_tail r + 1 | _ => rg_tail r end.

Definition held (r : ring) (i : Z) : Prop :=
  ∃ j p d, rg_producers r !! j = Some p ∧ holding p = Some (i, d).

Record fifo_inv (r : ring) (claims : list (list Z)) : Prop := FifoInv {
  fi_capacity : ∃ k, 0 ≤ k ∧ capacity r = 2 ^ k;
  fi_head : rg_head r = Z.of_nat (length claims);
  fi_room : rg_head r < 2 ^ 64;
  fi_tail : 0 ≤ rg_tail r ∧ written_upto r ≤ rg_head r;
  fi_out : fst <$> rg_out r = copied <$> take (Z.to_nat (written_upto r)) claims;
  fi_holders : ∀ j p i d, rg_producers r !! j = Some p → holding p = Some (i, d) →
    written_upto r ≤ i < rg_head r ∧ claims !! Z.to_nat i = Some d
    ∧ (checked p = true → i < rg_tail r + capacity r);
  fi_distinct : ∀ j1 j2 p1 p2 i d1 d2, rg_producers r !! j1 = Some p1 → rg_producers r !! j2 = Some p2 →
    holding p1 = Some (i, d1) → holding p2 = Some (i, d2) → j1 = j2;
  fi_full : ∀ i, freed_upto r ≤ i < rg_head r → ¬ held r i →
    i < freed_upto r + capacity r
    ∧ ∃ d, claims !! Z.to_nat i = Some d ∧ slot_at r i = LogSlot SLOT_FILLED (copied d);
  fi_empty : ∀ i, freed_upto r ≤ i < freed_upto r + capacity r → rg_head r ≤ i ∨ held r i →
    sl_state (slot_at r i) = SLOT_EMPTY;
  fi_consumer : match rg_consumer r with
                | CoSpin _ | CoShutdown _ => rg_tail r < rg_head r
                | CoWrite => rg_tail r < rg_head r ∧ ¬ held r (rg_tail r)
                | CoSkip | CoSkipAdvance => False
                | _ => True
                end
}.

(** The claims are the entries of the calls that were accepted or still hold their index,
    and every refused call is counted. *)
Definition accounted (r : ring) (claims : list (list Z)) : Prop :=
  claims ≡ₚ concat (entry <$> rg_producers r)
  ∧ rg_drops r = u64 (Z.of_nat (length (filter (λ p, refused p = true) (rg_producers r)))).

(** ** The slots of a window *)

Lemma slot_index_mod (r : ring) (k i : Z) :
  0 ≤ k → capacity r = 2 ^ k → slot_index r i = Z.to_nat (i mod capacity r).
Proof.
  intros Hk Hc. unfold slot_index. rewrite Hc.
  replace (2 ^ k - 1) with (Z.ones k) by (rewrite Z.ones_equiv; lia).
  by rewrite Z.land_ones.
Qed.

Lemma window_distinct (c i j t : Z) : 0 < c → t ≤ i < t + c → t ≤ j < t + c → i mod c = j mod c → i = j.
Proof.
  intros Hc Hi Hj He.
  pose proof (Z.div_mod i c ltac:(lia)) as Ei. pose proof (Z.div_mod j c ltac:(lia)) as Ej.
  rewrite He in Ei. set (qi := i / c) in *. set (qj := j / c) in *.
  set (m := j mod c) in *. clearbody qi qj m. clear He.
  assert (qi = qj) by nia. nia.
Qed.

Lemma capacity_set_slot idx s r : capacity (set_slot idx s r) = capacity r.
Proof. unfold capacity, set_slot; cbn. by rewrite length_insert. Qed.

Lemma slot_at_set_same (r : ring) (k idx : Z) (s : log_slot) :
  0 ≤ k → capacity r = 2 ^ k → slot_at (set_slot idx s r) idx = s.
Proof.
  intros Hk Hc. unfold slot_at.
  assert (He : slot_index (set_slot idx s r) idx = slot_index r idx)
    by (unfold slot_index; by rewrite capacity_set_slot).
  rewrite He. unfold set_slot; cbn. apply nth_lookup_Some, list_lookup_insert_eq.
  rewrite (slot_index_mod r k) by done. unfold capacity in *.
  assert (0 < 2 ^ k) by (apply Z.pow_pos_nonneg; lia).
  pose proof (Z.mod_pos_bound idx (2 ^ k) ltac:(lia)). rewrite Hc. lia.
Qed.

Lemma slot_at_set_other (r : ring) (k t i idx : Z) (s : log_slot) :
  0 ≤ k → capacity r = 2 ^ k → t ≤ i < t + capacity r → t ≤ idx < t + capacity r → i ≠ idx →
  slot_at (set_slot idx s r) i = slot_at r i.
Proof.
  intros Hk Hc Hi Hidx Hne. unfold slot_at.
  assert (He : slot_index (set_slot idx s r) i = slot_index r i)
    by (unfold slot_index; by rewrite capacity_set_slot).
  rewrite He. unfold set_slot; cbn.
  assert (slot_index r idx ≠ slot_index r i) as Hd.
  { rewrite !(slot_index_mod r k) by done. intros E. apply Hne.
    assert (0 < 2 ^ k) by (apply Z.pow_pos_nonneg; lia).
    apply (window_distinct (capacity r) i idx t); [lia..|].
    pose proof (Z.mod_pos_bound idx (capacity r) ltac:(lia)).
    pose proof (Z.mod_pos_bound i (capacity r) ltac:(lia)). lia. }
  rewrite !nth_lookup. by rewrite list_lookup_insert_ne.
Qed.

(** ** Producers that keep what they hold *)

Lemma held_same (r : ring) (j : nat) (p p' : producer) (i : Z) :
  rg_producers r !! j = Some p → holding p' = holding p →
  held (rg_set_producers (<[j := p']> (rg_producers r)) r) i ↔ held r i.
Proof.
  intros Hj Hh. pose proof (lookup_lt_Some _ _ _ Hj). unfold held; cbn. split; intros (j' & q & d & Hq & Hd).
  - destruct (decide (j' = j)) as [->|Hne].
    + rewrite list_lookup_insert_eq in Hq by done. simplify_eq. exists j, p, d. by rewrite <- Hh.
    + rewrite list_lookup_insert_ne in Hq by done. by exists j', q, d.
  - destruct (decide (j' = j)) as [->|Hne].
    + simplify_eq. exists j, p', d. rewrite list_lookup_insert_eq, Hh by done. done.
    + exists j', q, d. by rewrite list_lookup_insert_ne.
Qed.

Lemma fifo_keeps (r : ring) (claims : list (list Z)) (j : nat) (p p' : producer) :
  fifo_inv r claims → rg_producers r !! j = Some p → holding p' = holding p →
  (∀ i d, holding p' = Some (i, d) → checked p' = true → i < rg_tail r + capacity r) →
  fifo_inv (rg_set_producers (<[j := p']> (rg_producers r)) r) claims.
Proof.
  intros I Hj Hh Hck. pose proof (lookup_lt_Some _ _ _ Hj) as Hlt. destruct I.
  assert (HH : ∀ i, held (rg_set_producers (<[j := p']> (rg_producers r)) r) i ↔ held r i)
    by (intros; by eapply held_same).
  assert (Hback : ∀ j' q i d, <[j := p']> (rg_producers r) !! j' = Some q → holding q = Some (i, d) →
    ∃ q0, rg_producers r !! j' = Some q0 ∧ holding q0 = Some (i, d) ∧ (q = q0 ∨ q = p')).
  { intros j' q i d Hq Hd. destruct (decide (j' = j)) as [->|Hne].
    - rewrite list_lookup_insert_eq in Hq by done. simplify_eq. exists p. rewrite <- Hh. auto.
    - rewrite list_lookup_insert_ne in Hq by done. exists q. auto. }
  split; try assumption.
  - intros j' q i d Hq Hd. destruct (Hback _ _ _ _ Hq Hd) as (q0 & H0 & Hd0 & Hor).
    destruct (fi_holders0 _ _ _ _ H0 Hd0) as (A & B & C). split; [done|]. split; [done|].
    destruct Hor as [->| ->]; [done|]. by apply (Hck i d).
  - intros j1 j2 p1 p2 i d1 d2 H1 H2 Hd1 Hd2. cbn in *.
    destruct (Hback _ _ _ _ H1 Hd1) as (q1 & ? & ? & _). destruct (Hback _ _ _ _ H2 Hd2) as (q2 & ? & ? & _). eauto.
  - intros i Hi Hn. apply fi_full0; [done|]. by rewrite <- HH.
  - intros i Hi Hn. apply fi_empty0; [done|]. by rewrite <- HH.
  - cbn. destruct (rg_consumer r); try done. by rewrite HH.
Qed.

(** ** A claim and a publication *)

Lemma held_bound (r : ring) claims i : fifo_inv r claims → held r i → written_upto r ≤ i < rg_head r.
Proof. intros I (j & p & d & Hj & Hh). by destruct (fi_holders _ _ I _ _ _ _ Hj Hh). Qed.

Lemma written_freed (r : ring) : rg_tail r ≤ freed_upto r ≤ written_upto r ∧ written_upto r ≤ rg_tail r + 1.
Proof. unfold freed_upto, written_upto. destruct (rg_consumer r); lia. Qed.

Lemma fifo_claim (r : ring) (claims : list (list Z)) (j : nat) (p : producer) (data : list Z) :
  fifo_inv r claims → rg_producers r !! j = Some p → holding p = None → rg_head r + 1 < 2 ^ 64 →
  fifo_inv (rg_set_producers (<[j := PrRecheck data (rg_head r)]> (rg_producers r)) (rg_set_head (rg_head r + 1) r))
           (claims ++ [data]).
Proof.
  intros I Hj Hn Hroom. pose proof (lookup_lt_Some _ _ _ Hj) as Hlt.
  pose proof (held_bound r claims) as HB. pose proof (written_freed r) as HW.
  set (r' := rg_set_producers _ _).
  assert (HH : ∀ i, held r' i ↔ i = rg_head r ∨ held r i).
  { intros i. unfold held, r'; cbn. split.
    - intros (j' & q & d & Hq & Hd). destruct (decide (j' = j)) as [->|Hne].
      + rewrite list_lookup_insert_eq in Hq by done. simplify_eq. cbn in Hd. simplify_eq. auto.
      + rewrite list_lookup_insert_ne in Hq by done. right. by exists j', q, d.
    - intros [->|(j' & q & d & Hq & Hd)].
      + exists j, (PrRecheck data (rg_head r)), data. by rewrite list_lookup_insert_eq.
      + exists j', q, d. rewrite list_lookup_insert_ne; [done|]. intros <-. simplify_eq. }
  assert (Hold : ∀ i d, claims !! Z.to_nat i = Some d → (claims ++ [data]) !! Z.to_nat i = Some d)
    by (intros; by apply lookup_app_l_Some).
  pose proof (fi_head _ _ I) as Hh. pose proof (fi_tail _ _ I) as Ht.
  split; try apply I; cbn [rg_head rg_set_head rg_set_producers r'].
  - rewrite length_app; cbn. lia.
  - done.
  - change (written_upto r') with (written_upto r). change (rg_tail r') with (rg_tail r). lia.
  - change (written_upto r') with (written_upto r). change (rg_out r') with (rg_out r).
    rewrite (fi_out _ _ I), take_app_le; [done|]. lia.
  - change (written_upto r') with (written_upto r). intros j' q i d Hq Hd.
    unfold r' in Hq; cbn in Hq. destruct (decide (j' = j)) as [->|Hne].
    + rewrite list_lookup_insert_eq in Hq by done. simplify_eq. cbn in Hd. simplify_eq.
      split; [lia|]. split; [|done]. rewrite Hh, Nat2Z.id. by apply list_lookup_middle.
    + rewrite list_lookup_insert_ne in Hq by done. destruct (fi_holders _ _ I _ _ _ _ Hq Hd) as (A & B & C).
      split; [lia|]. split; [by apply Hold|done].
  - intros j1 j2 p1 p2 i d1 d2 H1 H2 Hd1 Hd2. unfold r' in H1, H2; cbn in H1, H2.
    destruct (decide (j1 = j)) as [->|Hne1], (decide (j2 = j)) as [->|Hne2]; [done| | |].
    + rewrite list_lookup_insert_eq in H1 by done. rewrite list_lookup_insert_ne in H2 by done.
      simplify_eq. cbn in Hd1. simplify_eq. destruct (fi_holders _ _ I _ _ _ _ H2 Hd2). lia.
    + rewrite list_lookup_insert_eq in H2 by done. rewrite list_lookup_insert_ne in H1 by done.
      simplify_eq. cbn in Hd2. simplify_eq. destruct (fi_holders _ _ I _ _ _ _ H1 Hd1). lia.
    + rewrite list_lookup_insert_ne in H1, H2 by done. by eapply (fi_distinct _ _ I).
  - change (freed_upto r') with (freed_upto r). change (capacity r') with (capacity r).
    intros i Hi Hni. rewrite HH in Hni. destruct (fi_full _ _ I i) as (A & d & B & C); [lia|tauto|].
    split; [done|]. exists d. split; [by apply Hold|done].
  - change (freed_upto r') with (freed_upto r). change (capacity r') with (capacity r).
    intros i Hi Hor. apply (fi_empty _ _ I); [done|]. rewrite HH in Hor. destruct Hor as [?|[->|?]]; [left; lia|left; lia|by right].
  - pose proof (fi_consumer _ _ I) as Hc. change (rg_consumer r') with (rg_consumer r). change (rg_tail r') with (rg_tail r).
    destruct (rg_consumer r); try done; try lia. destruct Hc as [Hc1 Hc2]. split; [lia|]. rewrite HH. intros [?|?]; [lia|done].
Qed.

Lemma fifo_publish (r : ring) (claims : list (list Z)) (j : nat) (data : list Z) (idx : Z) :
  fifo_inv r claims → rg_producers r !! j = Some (PrPublish data idx) →
  fifo_inv (rg_set_producers (<[j := PrDone data true]> (rg_producers r))
             (set_slot idx (LogSlot SLOT_FILLED (copied data)) r)) claims.
Proof.
  intros I Hj. pose proof (lookup_lt_Some _ _ _ Hj) as Hlt.
  pose proof (written_freed r) as HW. destruct (fi_capacity _ _ I) as (k & Hk & Hc).
  destruct (fi_holders _ _ I _ _ _ _ Hj eq_refl) as (Hidx & Hcl & Hck). specialize (Hck eq_refl).
  set (r' := rg_set_producers _ _).
  assert (HH : ∀ i, held r' i ↔ i ≠ idx ∧ held r i).
  { intros i. unfold held, r'; cbn. split.
    - intros (j' & q & d & Hq & Hd). destruct (decide (j' = j)) as [->|Hne].
      + rewrite list_lookup_insert_eq in Hq by done. simplify_eq.
      + rewrite list_lookup_insert_ne in Hq by done. split; [|by exists j', q, d]. intros ->.
        apply Hne. by eapply (fi_distinct _ _ I).
    - intros [Hne (j' & q & d & Hq & Hd)]. exists j', q, d. rewrite list_lookup_insert_ne; [done|].
      intros <-. simplify_eq. cbn in Hd. congruence. }
  assert (Hcap : capacity r' = capacity r) by apply capacity_set_slot.
  assert (Hsame : slot_at r' idx = LogSlot SLOT_FILLED (copied data)) by (by eapply (slot_at_set_same r k)).
  assert (Hother : ∀ i, freed_upto r ≤ i < freed_upto r + capacity r → i ≠ idx → slot_at r' i = slot_at r i).
  { intros i Hi Hne. apply (slot_at_set_other r k (freed_upto r)); [done..|lia|done]. }
  split; rewrite ?Hcap; try apply I.
  - intros j' q i d Hq Hd. unfold r' in Hq; cbn in Hq. destruct (decide (j' = j)) as [->|Hne].
    + rewrite list_lookup_insert_eq in Hq by done. simplify_eq.
    + rewrite list_lookup_insert_ne in Hq by done. by apply (fi_holders _ _ I _ _ _ _ Hq Hd).
  - intros j1 j2 p1 p2 i d1 d2 H1 H2 Hd1 Hd2. unfold r' in H1, H2; cbn in H1, H2.
    destruct (decide (j1 = j)) as [->|Hne1]; [rewrite list_lookup_insert_eq in H1 by done; simplify_eq|].
    destruct (decide (j2 = j)) as [->|Hne2]; [rewrite list_lookup_insert_eq in H2 by done; simplify_eq|].
    rewrite list_lookup_insert_ne in H1, H2 by done. by eapply (fi_distinct _ _ I).
  - change (freed_upto r') with (freed_upto r). change (rg_head r') with (rg_head r). intros i Hi Hni.
    destruct (decide (i = idx)) as [->|Hne].
    + split; [lia|]. by exists data.
    + rewrite HH in Hni. destruct (fi_full _ _ I i Hi) as (A & d & B & C); [tauto|].
      split; [done|]. exists d. split; [done|]. rewrite Hother by (done || lia). done.
  - change (freed_upto r') with (freed_upto r). change (rg_head r') with (rg_head r). intros i Hi Hor.
    rewrite HH in Hor. assert (i ≠ idx) by (destruct Hor as [?|[? ?]]; [lia|done]).
    rewrite Hother by done. apply (fi_empty _ _ I); [done|]. tauto.
  - pose proof (fi_consumer _ _ I) as Hco. change (rg_consumer r') with (rg_consumer r).
    change (rg_tail r') with (rg_tail r). change (rg_head r') with (rg_head r).
    destruct (rg_consumer r); try done. rewrite HH. tauto.
Qed.

(** ** The consumer's steps *)

Lemma fifo_moves (r : ring) (claims : list (list Z)) (c : consumer) :
  fifo_inv r claims → written_upto (rg_set_consumer c r) = written_upto r →
  freed_upto (rg_set_consumer c r) = freed_upto r →
  match c with
  | CoSpin _ | CoShutdown _ => rg_tail r < rg_head r
  | CoWrite => rg_tail r < rg_head r ∧ ¬ held r (rg_tail r)
  | CoSkip | CoSkipAdvance => False
  | _ => True
  end →
  fifo_inv (rg_set_consumer c r) claims.
Proof.
  intros I Hw Hf Hc. destruct I. split; rewrite ?Hw, ?Hf; try assumption.
Qed.

Lemma fifo_write (r : ring) (claims : list (list Z)) (n : nat) (now : Z) :
  fifo_inv r claims → rg_consumer r = CoWrite →
  fifo_inv (rg_set_out (rg_out r ++ [(sl_data (slot_at r (rg_tail r)), n)]) now (rg_set_consumer CoClear r)) claims.
Proof.
  intros I Hco. pose proof (fi_consumer _ _ I) as Hc. rewrite Hco in Hc. destruct Hc as [Hlt Hnh].
  assert (Hw : written_upto r = rg_tail r) by (unfold written_upto; by rewrite Hco).
  assert (Hf : freed_upto r = rg_tail r) by (unfold freed_upto; by rewrite Hco).
  destruct (fi_full _ _ I (rg_tail r)) as (Hcap & d & Hd & Hs); [lia|done|].
  set (r' := rg_set_out _ _ _).
  pose proof (fi_tail _ _ I) as Ht.
  split; change (written_upto r') with (rg_tail r + 1); try apply I; change (freed_upto r') with (rg_tail r); rewrite <- ?Hf.
  - change (rg_tail r') with (rg_tail r). change (rg_head r') with (rg_head r). lia.
  - change (rg_out r') with (rg_out r ++ [(sl_data (slot_at r (rg_tail r)), n)]).
    rewrite fmap_app, (fi_out _ _ I), Hs, Hw. cbn.
    replace (Z.to_nat (freed_upto r + 1)) with (S (Z.to_nat (rg_tail r))) by lia.
    rewrite (take_S_r _ _ _ Hd), fmap_app. done.
  - intros j p i d' Hj Hh. destruct (fi_holders _ _ I _ _ _ _ Hj Hh) as (A & B & C).
    split; [|done]. change (rg_head r') with (rg_head r).
    assert (i ≠ rg_tail r) by (intros ->; apply Hnh; by exists j, p, d'). lia.
  - apply (fi_full _ _ I).
  - apply (fi_empty _ _ I).
  - done.
Qed.

Lemma slot_at_wraps (r : ring) (k i : Z) : 0 ≤ k → capacity r = 2 ^ k → slot_at r (i + capacity r) = slot_at r i.
Proof.
  intros Hk Hc. unfold slot_at. rewrite !(slot_index_mod r k) by done.
  assert (0 < 2 ^ k) by (apply Z.pow_pos_nonneg; lia).
  replace (i + capacity r) with (i + 1 * capacity r) by lia. rewrite Z.mod_add by lia. done.
Qed.

Lemma fifo_clear (r : ring) (claims : list (list Z)) (data : list Z) :
  fifo_inv r claims → rg_consumer r = CoClear →
  fifo_inv (rg_set_consumer CoAdvance (set_slot (rg_tail r) (LogSlot SLOT_EMPTY data) r)) claims.
Proof.
  intros I Hco. destruct (fi_capacity _ _ I) as (k & Hk & Hc).
  assert (Hpos : 0 < capacity r) by (rewrite Hc; apply Z.pow_pos_nonneg; lia).
  assert (Hw : written_upto r = rg_tail r + 1) by (unfold written_upto; by rewrite Hco).
  assert (Hf : freed_upto r = rg_tail r) by (unfold freed_upto; by rewrite Hco).
  set (r' := rg_set_consumer _ _).
  assert (Hcap : capacity r' = capacity r) by apply capacity_set_slot.
  assert (Hsame : slot_at r' (rg_tail r) = LogSlot SLOT_EMPTY data) by (by eapply (slot_at_set_same r k)).
  assert (Hother : ∀ i, rg_tail r < i < rg_tail r + capacity r → slot_at r' i = slot_at r i).
  { intros i Hi. apply (slot_at_set_other r k (rg_tail r)); [done|done|lia..]. }
  split; rewrite ?Hcap; change (written_upto r') with (rg_tail r + 1); rewrite <- ?Hw; try apply I;
    change (freed_upto r') with (rg_tail r + 1); change (rg_head r') with (rg_head r).
  - intros i Hi Hn. destruct (fi_full _ _ I i) as (A & d & B & C); [lia|done|].
    split; [lia|]. exists d. split; [done|]. rewrite Hother by lia. done.
  - intros i Hi Hor. destruct (decide (i = rg_tail r + capacity r)) as [->|Hne].
    + rewrite <- Hcap, (slot_at_wraps r' k), Hsame by (done || by rewrite Hcap). done.
    + rewrite Hother by lia. apply (fi_empty _ _ I); [lia|done].
  - done.
Qed.

Lemma fifo_advance (r : ring) (claims : list (list Z)) :
  fifo_inv r claims → rg_consumer r = CoAdvance →
  fifo_inv (rg_set_consumer CoTop (rg_set_tail (rg_tail r + 1) r)) claims.
Proof.
  intros I Hco.
  assert (Hw : written_upto r = rg_tail r + 1) by (unfold written_upto; by rewrite Hco).
  assert (Hf : freed_upto r = rg_tail r + 1) by (unfold freed_upto; by rewrite Hco).
  set (r' := rg_set_consumer _ _).
  split; change (written_upto r') with (rg_tail r + 1); change (freed_upto r') with (rg_tail r + 1);
    rewrite <- ?Hw; try apply I.
  - change (rg_tail r') with (rg_tail r + 1). pose proof (fi_tail _ _ I). change (rg_head r') with (rg_head r). lia.
  - intros j p i d Hj Hh. destruct (fi_holders _ _ I _ _ _ _ Hj Hh) as (A & B & C). split; [done|]. split; [done|].
    intros Hck. specialize (C Hck). change (rg_tail r') with (rg_tail r + 1). change (capacity r') with (capacity r). lia.
  - rewrite Hw, <- Hf. apply (fi_full _ _ I).
  - rewrite Hw, <- Hf. apply (fi_empty _ _ I).
  - done.
Qed.

(** ** Every step *)

Lemma smooth_producer (r : ring) j p : smooth r = true → rg_producers r !! j = Some p →
  match p with PrMark _ _ => false | _ => true end = true.
Proof.
  intros Hs Hj. unfold smooth in Hs. apply andb_prop in Hs as [Hs _]. rewrite forallb_forall in Hs.
  apply Hs. apply list_elem_of_In. by eapply list_elem_of_lookup_2.
Qed.

Lemma fifo_producer_turn (r : ring) (claims : list (list Z)) (j : nat) (p : producer) :
  fifo_inv r claims → rg_producers r !! j = Some p →
  smooth r = true → smooth (fst (ring_step (ActProducer j) r)) = true →
  Z.of_nat (length (claims ++ option_list (snd (ring_step (ActProducer j) r)))) < 2 ^ 64 →
  fifo_inv (fst (ring_step (ActProducer j) r)) (claims ++ option_list (snd (ring_step (ActProducer j) r))).
Proof.
  intros I Hj Hs Hs' Hroom. pose proof (lookup_lt_Some _ _ _ Hj) as Hlt.
  pose proof (smooth_producer r j p Hs Hj) as Hp. pose proof (fi_head _ _ I) as Hh.
  assert (Hdrop : ∀ data, holding p = None →
    fifo_inv (rg_set_producers (<[j := PrDone data false]> (rg_producers r)) (count_drop r)) claims).
  { intros data Hn. destruct (fifo_keeps r claims j p (PrDone data false) I Hj) as []; [by rewrite Hn|done|].
    by split. }
  unfold ring_step in *. rewrite Hj in *.
  destruct p as [data|data hs|data|data idx|data idx|data idx spin|data idx|data b]; cbn [producer_turn fst snd option_list] in *;
    rewrite ?app_nil_r in *; try done.
  - by eapply fifo_keeps.
  - destruct (_ >=? _); cbn [fst snd option_list] in *; rewrite ?app_nil_r in *; [by apply Hdrop|by eapply fifo_keeps].
  - rewrite length_app in Hroom; cbn in Hroom. rewrite u64_id by (unfold is_u64; lia). by eapply fifo_claim; [..|lia].
  - destruct (fi_holders _ _ I _ _ _ _ Hj eq_refl) as (A & _ & _).
    pose proof (written_freed r). pose proof (fi_tail _ _ I). pose proof (fi_room _ _ I).
    rewrite u64_id in * by (unfold is_u64; lia).
    destruct (Z.geb_spec (idx - rg_tail r) (capacity r)) as [Hge|Hge]; cbn [fst snd option_list] in *; rewrite ?app_nil_r in *.
    + exfalso. eapply smooth_producer in Hs'; [|by apply list_lookup_insert_eq]. done.
    + eapply fifo_keeps; [done..|]. cbn. intros; simplify_eq. lia.
  - destruct (fi_holders _ _ I _ _ _ _ Hj eq_refl) as (A & _ & C). specialize (C eq_refl). pose proof (written_freed r).
    rewrite (fi_empty _ _ I idx); [|lia|right; by exists j, (PrSpin data idx spin), data].
    cbn [fst snd option_list] in *; rewrite ?app_nil_r in *. eapply fifo_keeps; [done..|]. cbn. intros; simplify_eq. done.
  - by apply fifo_publish.
  - by eapply fifo_keeps.
Qed.

Lemma fifo_consumer_turn (r : ring) (claims : list (list Z)) (written : nat) (now : Z) :
  fifo_inv r claims → smooth (consumer_turn written now r) = true → fifo_inv (consumer_turn written now r) claims.
Proof.
  intros I Hs. pose proof (fi_consumer _ _ I) as Hc. pose proof (fi_tail _ _ I) as Ht. pose proof (written_freed r).
  destruct (fi_capacity _ _ I) as (k & Hk & Hcap).
  assert (Hpos : 0 < capacity r) by (rewrite Hcap; apply Z.pow_pos_nonneg; lia).
  unfold consumer_turn in *. destruct (rg_consumer r) eqn:Hco; try done.
  - apply fifo_moves; [done|unfold written_upto, freed_upto; by rewrite Hco..|done].
  - destruct (Z.eqb_spec (rg_tail r) (rg_head r)).
    + apply fifo_moves; [done|unfold written_upto, freed_upto; rewrite Hco; by destruct shutting_down..|by destruct shutting_down].
    + apply fifo_moves; [done|unfold written_upto, freed_upto; by rewrite Hco..|lia].
  - assert (Hf : freed_upto r = rg_tail r) by (unfold freed_upto; by rewrite Hco).
    destruct (sl_state _) eqn:Hst.
    + apply fifo_moves; [done|unfold written_upto, freed_upto; by rewrite Hco..|lia].
    + apply fifo_moves; [done|unfold written_upto, freed_upto; by rewrite Hco..|]. split; [lia|]. intros Hh.
      rewrite (fi_empty _ _ I) in Hst; [done|lia|by right].
    + exfalso. unfold smooth in Hs. by apply andb_prop in Hs as [_ ?].
  - destruct (_ && _).
    + exfalso. unfold smooth in Hs. by apply andb_prop in Hs as [_ ?].
    + apply fifo_moves; [done|unfold written_upto, freed_upto; by rewrite Hco..|lia].
  - by apply fifo_write.
  - by apply fifo_clear.
  - assert (Hw : written_upto r = rg_tail r + 1) by (unfold written_upto; by rewrite Hco).
    pose proof (fi_room _ _ I). rewrite u64_id by (unfold is_u64; lia). by apply fifo_advance.
Qed.

Lemma fifo_call (r : ring) (claims : list (list Z)) (data : list Z) :
  fifo_inv r claims → fifo_inv (rg_set_producers (rg_producers r ++ [PrStart data]) r) claims.
Proof.
  intros I. destruct I.
  assert (Hback : ∀ j q i d, (rg_producers r ++ [PrStart data]) !! j = Some q → holding q = Some (i, d) → rg_producers r !! j = Some q).
  { intros j q i d Hq Hd. apply lookup_app_Some in Hq as [?|[_ Hq]]; [done|].
    apply list_lookup_singleton_Some in Hq as [_ <-]. done. }
  assert (HH : ∀ i, held (rg_set_producers (rg_producers r ++ [PrStart data]) r) i ↔ held r i).
  { intros i. split; intros (j & q & d & Hq & Hd); exists j, q, d; [by eauto|].
    split; [|done]. by apply lookup_app_l_Some. }
  split; try assumption.
  - eauto.
  - intros j1 j2 p1 p2 i d1 d2 H1 H2 Hd1 Hd2. cbn in *. eauto.
  - intros i Hi Hn. apply fi_full0; [done|]. by rewrite <- HH.
  - intros i Hi Hn. apply fi_empty0; [done|]. by rewrite <- HH.
  - cbn. destruct (rg_consumer r); try done. by rewrite HH.
Qed.

Lemma fifo_step (a : ring_action) (r : ring) (claims : list (list Z)) :
  fifo_inv r claims → smooth r = true → smooth (fst (ring_step a r)) = true →
  Z.of_nat (length (claims ++ option_list (snd (ring_step a r)))) < 2 ^ 64 →
  fifo_inv (fst (ring_step a r)) (claims ++ option_list (snd (ring_step a r))).
Proof.
  intros I Hs Hs' Hroom. destruct a as [data|j|written now|].
  - cbn. rewrite app_nil_r. by apply fifo_call.
  - destruct (rg_producers r !! j) as [p|] eqn:Hj; [by eapply fifo_producer_turn|].
    unfold ring_step in *. rewrite Hj in *. cbn. by rewrite app_nil_r.
  - cbn in *. rewrite app_nil_r in *. by apply fifo_consumer_turn.
  - cbn. rewrite app_nil_r. by destruct I.
Qed.

(** ** The account of the calls *)

Lemma entries_insert (l : list producer) (j : nat) (p p' : producer) (extra : list (list Z)) :
  l !! j = Some p → entry p' = entry p ++ extra →
  concat (entry <$> <[j := p']> l) ≡ₚ concat (entry <$> l) ++ extra.
Proof.
  revert j. induction l as [|q l IH]; intros [|j] Hj He; cbn in *; simplify_eq.
  - rewrite He, <- !app_assoc. by rewrite (Permutation_app_comm extra).
  - rewrite (IH j Hj He). by rewrite app_assoc.
Qed.

Lemma refused_insert (l : list producer) (j : nat) (p p' : producer) :
  l !! j = Some p → refused p = false →
  length (filter (λ p, refused p = true) (<[j := p']> l))
  = (length (filter (λ p, refused p = true) l) + Nat.b2n (refused p'))%nat.
Proof.
  revert j. induction l as [|q l IH]; intros [|j] Hj He; simplify_eq/=.
  - rewrite !filter_cons, He. destruct (refused p'); repeat case_decide; try done; cbn [length Nat.b2n]; lia.
  - specialize (IH j Hj He). rewrite !filter_cons. case_decide; cbn [length]; lia.
Qed.

Lemma refused_same (l : list producer) (j : nat) (p : producer) : l !! j = Some p → <[j := p]> l = l.
Proof. apply list_insert_id. Qed.

Lemma accounted_producer (r : ring) (claims : list (list Z)) (j : nat) (p : producer) :
  accounted r claims → rg_producers r !! j = Some p →
  smooth r = true →
  match p with PrSpin _ idx _ => sl_state (slot_at r idx) = SLOT_EMPTY | _ => True end →
  accounted (fst (ring_step (ActProducer j) r)) (claims ++ option_list (snd (ring_step (ActProducer j) r))).
Proof.
  intros [Hp Hd] Hj Hs Hsp. pose proof (smooth_producer r j p Hs Hj) as Hm.
  unfold ring_step. rewrite Hj. destruct (refused p) eqn:Hrf.
  { destruct p as [| | | | | | |data [|]]; try done. cbn [producer_turn]. rewrite refused_same by done.
    cbn. by rewrite app_nil_r. }
  assert (Hkeep : ∀ p' r' extra, entry p' = entry p ++ extra →
    rg_producers r' = rg_producers r → rg_drops r' = u64 (rg_drops r + Z.of_nat (Nat.b2n (refused p'))) →
    accounted (rg_set_producers (<[j := p']> (rg_producers r)) r') (claims ++ extra)).
  { intros p' r' extra He Hr Hdr. split; cbn.
    - rewrite (entries_insert _ _ _ _ _ Hj He). by rewrite Hp.
    - rewrite Hdr, Hd, (refused_insert _ _ _ _ Hj Hrf), Nat2Z.inj_add. unfold u64. by rewrite Zplus_mod_idemp_l. }
  assert (Hsame : rg_drops r = u64 (rg_drops r + 0)) by (rewrite Z.add_0_r, Hd; unfold u64; by rewrite Zmod_mod).
  destruct p as [data|data hs|data|data idx|data idx|data idx spin|data idx|data [|]]; cbn [producer_turn]; try done.
  - by apply Hkeep.
  - destruct (_ >=? _); cbn [fst snd]; by apply Hkeep.
  - by apply Hkeep.
  - destruct (_ >=? _); cbn [fst snd]; by apply Hkeep.
  - rewrite Hsp. cbn [fst snd]. by apply Hkeep.
  - by apply Hkeep.
  - by apply Hkeep.
Qed.

Lemma accounted_step (a : ring_action) (r : ring) (claims : list (list Z)) :
  fifo_inv r claims → accounted r claims → smooth r = true →
  accounted (fst (ring_step a r)) (claims ++ option_list (snd (ring_step a r))).
Proof.
  intros I [Hp Hd] Hs. destruct a as [data|j|written now|].
  - split; cbn; [rewrite fmap_app, concat_app; cbn; by rewrite !app_nil_r|].
    rewrite list.filter_app, length_app. cbn. by rewrite Nat.add_0_r.
  - destruct (rg_producers r !! j) as [p|] eqn:Hj.
    + apply (accounted_producer r claims j p); [done..|]. destruct p as [| | | | |data idx spin| |]; try done.
      destruct (fi_holders _ _ I _ _ _ _ Hj eq_refl) as (A & _ & C). specialize (C eq_refl). pose proof (written_freed r).
      apply (fi_empty _ _ I); [lia|]. right. by exists j, (PrSpin data idx spin), data.
    + unfold ring_step. rewrite Hj. cbn. by rewrite app_nil_r.
  - cbn. rewrite app_nil_r. split.
    + destruct r as [h t s d sd lf o ps []]; unfold consumer_turn, set_slot; cbn in *; repeat case_match; done.
    + destruct r as [h t s d sd lf o ps []]; unfold consumer_turn, set_slot; cbn in *; repeat case_match; done.
  - cbn. by rewrite app_nil_r.
Qed.

(** ** Runs *)

Lemma claims_grow (acts : list ring_action) (r : ring) (claims : list (list Z)) :
  (length claims ≤ length (snd (ring_run acts r claims)))%nat.
Proof.
  revert r claims. induction acts as [|a acts IH]; intros; cbn; [done|].
  destruct (ring_step a r) as [r' c]. etransitivity; [|apply IH]. rewrite length_app. lia.
Qed.

Lemma smooth_run_head acts r : smooth_run acts r = true → smooth r = true.
Proof. destruct acts; cbn; intros H; by apply andb_prop in H as [? _]. Qed.

Lemma run_fifo (acts : list ring_action) (r : ring) (claims : list (list Z)) :
  fifo_inv r claims → smooth_run acts r = true →
  Z.of_nat (length (snd (ring_run acts r claims))) < 2 ^ 64 →
  fifo_inv (fst (ring_run acts r claims)) (snd (ring_run acts r claims)).
Proof.
  revert r claims. induction acts as [|a acts IH]; intros r claims I Hs Hroom; cbn in *; [done|].
  apply andb_prop in Hs as [Hs Hs'].
  destruct (ring_step a r) as [r' c] eqn:E. cbn in Hs'.
  pose proof (fifo_step a r claims I Hs) as Hf. rewrite E in Hf. cbn in Hf.
  pose proof (claims_grow acts r' (claims ++ option_list c)).
  apply IH; [apply Hf|done..]; [by apply smooth_run_head in Hs'|lia].
Qed.

Lemma run_accounted (acts : list ring_action) (r : ring) (claims : list (list Z)) :
  fifo_inv r claims → accounted r claims → smooth_run acts r = true →
  Z.of_nat (length (snd (ring_run acts r claims))) < 2 ^ 64 →
  accounted (fst (ring_run acts r claims)) (snd (ring_run acts r claims)).
Proof.
  revert r claims. induction acts as [|a acts IH]; intros r claims I A Hs Hroom; cbn in *; [done|].
  apply andb_prop in Hs as [Hs Hs'].
  destruct (ring_step a r) as [r' c] eqn:E. cbn in Hs'.
  pose proof (fifo_step a r claims I Hs) as Hf. pose proof (accounted_step a r claims I A Hs) as Ha.
  rewrite E in Hf, Ha. cbn in Hf, Ha.
  pose proof (claims_grow acts r' (claims ++ option_list c)).
  apply IH; [apply Hf|done..]; [by apply smooth_run_head in Hs'|lia].
Qed.

Lemma new_ring_inv (k : Z) : 0 ≤ k → fifo_inv (new_ring (Z.to_nat (2 ^ k))) [].
Proof.
  intros Hk. assert (0 < 2 ^ k) by (apply Z.pow_pos_nonneg; lia).
  assert (Hc : capacity (new_ring (Z.to_nat (2 ^ k))) = 2 ^ k)
    by (unfold capacity, new_ring; cbn [rg_slots]; rewrite length_replicate; lia).
  split; try done.
  - by exists k.
  - intros i Hi. cbn in Hi. lia.
  - intros i Hi _. unfold slot_at. rewrite (slot_index_mod _ k) by done. rewrite Hc.
    pose proof (Z.mod_pos_bound i (2 ^ k) ltac:(lia)).
    unfold new_ring; cbn [rg_slots]. rewrite nth_lookup, lookup_replicate_2; [done|]. lia.
Qed.

Lemma new_ring_accounted cap : accounted (new_ring cap) [].
Proof. done. Qed.

Lemma run_from_new (k : Z) (acts : list ring_action) (r : ring) (claims : list (list Z)) :
  0 ≤ k → smooth_run acts (new_ring (Z.to_nat (2 ^ k))) = true →
  ring_run acts (new_ring (Z.to_nat (2 ^ k))) [] = (r, claims) → Z.of_nat (length claims) < 2 ^ 64 →
  fifo_inv r claims ∧ accounted r claims.
Proof.
  intros Hk Hs Hrun Hroom.
  pose proof (run_fifo acts _ [] (new_ring_inv k Hk) Hs) as I.
  pose proof (run_accounted acts _ [] (new_ring_inv k Hk) (new_ring_accounted _) Hs) as A.
  rewrite Hrun in I, A. auto.
Qed.

(** ** The consumer alone *)

Fixpoint consumer_turns (n : nat) (written : nat) (now : Z) (r : ring) : ring :=
  match n with O => r | S n => consumer_turns n written now (consumer_turn written now r) end.

Lemma consumer_turns_add m n written now r :
  consumer_turns (m + n) written now r = consumer_turns n written now (consumer_turns m written now r).
Proof. revert r. induction m; cbn; auto. Qed.

Lemma drain_round (r : ring) (claims : list (list Z)) (written : nat) (now : Z) :
  fifo_inv r claims → rg_consumer r = CoTop → (∀ i, ¬ held r i) → rg_tail r < rg_head r →
  ∃ r', consumer_turns 6 written now r = r' ∧ fifo_inv r' claims ∧ rg_consumer r' = CoTop
        ∧ rg_producers r' = rg_producers r ∧ rg_head r' = rg_head r ∧ rg_tail r' = rg_tail r + 1.
Proof.
  intros I Hco Hn Hlt. eexists. split; [reflexivity|].
  assert (Hf : freed_upto r = rg_tail r) by (unfold freed_upto; by rewrite Hco).
  destruct (fi_full _ _ I (rg_tail r)) as (_ & d & _ & Hs); [lia|apply Hn|].
  pose proof (fi_tail _ _ I) as Ht. pose proof (fi_room _ _ I).
  cbn [consumer_turns].
  assert (E1 : consumer_turn written now r = rg_set_consumer (CoHead (rg_shutdown r)) r)
    by (unfold consumer_turn; by rewrite Hco).
  rewrite E1. set (r1 := rg_set_consumer _ _). change (slot_at r (rg_tail r)) with (slot_at r1 (rg_tail r1)) in Hs.
  assert (I1 : fifo_inv r1 claims) by (apply fifo_moves; [done|unfold written_upto, freed_upto; by rewrite Hco..|done]).
  assert (E2 : consumer_turn written now r1 = rg_set_consumer (CoSpin 0) r1).
  { unfold consumer_turn; cbn. destruct (Z.eqb_spec (rg_tail r) (rg_head r)); [lia|done]. }
  rewrite E2. set (r2 := rg_set_consumer _ r1). change (slot_at r1 (rg_tail r1)) with (slot_at r2 (rg_tail r2)) in Hs.
  assert (I2 : fifo_inv r2 claims) by (apply fifo_moves; done).
  assert (E3 : consumer_turn written now r2 = rg_set_consumer CoWrite r2)
    by (unfold consumer_turn; cbn [rg_consumer r2 rg_set_consumer]; by rewrite Hs).
  rewrite E3. set (r3 := rg_set_consumer _ r2).
  assert (I3 : fifo_inv r3 claims) by (apply fifo_moves; [done..|]; split; [done|apply Hn]).
  assert (I4 := fifo_write r3 claims (written `min` length (sl_data (slot_at r3 (rg_tail r3))))%nat now I3 eq_refl).
  change (consumer_turn written now r3) with
    (rg_set_out (rg_out r3 ++ [(sl_data (slot_at r3 (rg_tail r3)), (written `min` length (sl_data (slot_at r3 (rg_tail r3))))%nat)])
       now (rg_set_consumer CoClear r3)).
  set (r4 := rg_set_out _ _ _) in *.
  assert (I5 := fifo_clear r4 claims (sl_data (slot_at r4 (rg_tail r4))) I4 eq_refl).
  change (consumer_turn written now r4) with
    (rg_set_consumer CoAdvance (set_slot (rg_tail r4) (LogSlot SLOT_EMPTY (sl_data (slot_at r4 (rg_tail r4)))) r4)).
  set (r5 := rg_set_consumer CoAdvance _) in *.
  assert (I6 := fifo_advance r5 claims I5 eq_refl).
  change (consumer_turn written now r5) with (rg_set_consumer CoTop (rg_set_tail (u64 (rg_tail r + 1)) r5)).
  rewrite u64_id by (unfold is_u64; lia). change (rg_tail r5) with (rg_tail r) in I6.
  split; [exact I6|]. by repeat split.
Qed.

Lemma drain (n : nat) (r : ring) (claims : list (list Z)) (written : nat) (now : Z) :
  fifo_inv r claims → rg_consumer r = CoTop → (∀ i, ¬ held r i) → rg_head r - rg_tail r = Z.of_nat n →
  fst <$> rg_out (consumer_turns (6 * n) written now r) = copied <$> claims
  ∧ rg_tail (consumer_turns (6 * n) written now r) = rg_head r.
Proof.
  revert r. induction n as [|n IH]; intros r I Hco Hn Hd.
  - cbn. split; [|lia]. rewrite (fi_out _ _ I). unfold written_upto. rewrite Hco.
    rewrite take_ge; [done|]. pose proof (fi_head _ _ I). lia.
  - replace (6 * S n)%nat with (6 + 6 * n)%nat by lia. rewrite consumer_turns_add.
    destruct (drain_round r claims written now I Hco Hn) as (r' & -> & I' & Hco' & Hp & Hh & Ht); [lia|].
    rewrite <- Hh. apply IH; [done..| |lia]. intros i (j & p & d & Hj & Hd'). apply (Hn i). exists j, p, d.
    by rewrite <- Hp.
Qed.

Lemma returned_holds_nothing (r : ring) i : forallb returned (rg_producers r) = true → ¬ held r i.
Proof.
  intros H (j & p & d & Hj & Hd). rewrite forallb_forall in H.
  specialize (H p). rewrite <- list_elem_of_In in H. apply list_elem_of_lookup_2 in Hj. specialize (H Hj).
  by destruct p.
Qed.

(** ** Properties *)

(** C32: in every interleaving of the calls and the flush thread in which no call claims
    an index past the capacity and the flush thread skips no slot, the entries written are the
    entries of the claimed indices, in the order of the claims, each once and cut to the
    slot; the claims are exactly the entries of the calls that were accepted or are still
    storing theirs, so that an accepted entry is never lost and a refused one never written;
    every refused call is counted.  Where a call claims past the capacity or a slot is
    skipped at shutdown an accepted entry can be lost ([over_claim_loses_entry],
    [shutdown_skips_accepted]). *)
Theorem ring_fifo (k : Z) (acts : list ring_action) (r : ring) (claims : list (list Z)) :
  0 ≤ k → smooth_run acts (new_ring (Z.to_nat (2 ^ k))) = true →
  ring_run acts (new_ring (Z.to_nat (2 ^ k))) [] = (r, claims) → Z.of_nat (length claims) < 2 ^ 64 →
  fst <$> rg_out r = copied <$> take (length (rg_out r)) claims
  ∧ claims ≡ₚ concat (entry <$> rg_producers r)
  ∧ rg_drops r = u64 (Z.of_nat (length (filter (λ p, refused p = true) (rg_producers r)))).
Proof.
  intros Hk Hs Hrun Hroom.
  destruct (run_from_new k acts r claims Hk Hs Hrun Hroom) as [I A]. split; [|exact A].
  pose proof (fi_out _ _ I) as Ho. pose proof (fi_head _ _ I). pose proof (fi_tail _ _ I). pose proof (written_freed r).
  assert (length (rg_out r) = Z.to_nat (written_upto r)) as ->; [|done].
  apply (f_equal length) in Ho. rewrite !length_fmap, length_take in Ho. lia.
Qed.

(** Two calls interleaved with the flush thread on a ring of two slots. *)
Definition two_calls : list ring_action :=
  [ActCall [1]; ActCall [2]; ActProducer 0; ActProducer 1; ActProducer 1; ActProducer 0; ActProducer 1; ActProducer 0;
   ActProducer 0; ActProducer 0; ActConsumer 1 5; ActConsumer 1 5; ActConsumer 1 5; ActConsumer 1 5;
   ActProducer 0; ActProducer 1; ActProducer 1; ActProducer 1].

Lemma ring_fifo_witness :
  let r := fst (ring_run two_calls (new_ring 2) []) in
  fst <$> rg_out r = copied <$> take (length (rg_out r)) [[2]; [1]]
  ∧ [[2]; [1]] ≡ₚ concat (entry <$> rg_producers r)
  ∧ rg_drops r = u64 (Z.of_nat (length (filter (λ p, refused p = true) (rg_producers r)))).
Proof.
  apply (ring_fifo 1 two_calls _ [[2]; [1]]); [lia|by vm_compute|by vm_compute|cbn; lia].
Defined.

(** Once every call has returned, the flush thread alone writes all the accepted
    entries: six of its steps for each entry left empty the ring. *)
Theorem ring_drains (k : Z) (acts : list ring_action) (r : ring) (claims : list (list Z)) (written : nat) (now : Z) :
  0 ≤ k → smooth_run acts (new_ring (Z.to_nat (2 ^ k))) = true →
  ring_run acts (new_ring (Z.to_nat (2 ^ k))) [] = (r, claims) → Z.of_nat (length claims) < 2 ^ 64 →
  forallb returned (rg_producers r) = true → rg_consumer r = CoTop →
  let r' := consumer_turns (6 * Z.to_nat (rg_head r - rg_tail r)) written now r in
  rg_tail r' = rg_head r ∧ fst <$> rg_out r' = copied <$> claims
  ∧ claims ≡ₚ concat (entry <$> rg_producers r).
Proof.
  intros Hk Hs Hrun Hroom Hret Hco.
  destruct (run_from_new k acts r claims Hk Hs Hrun Hroom) as [I A]. pose proof (fi_tail _ _ I). pose proof (written_freed r).
  destruct (drain (Z.to_nat (rg_head r - rg_tail r)) r claims written now I Hco) as [Ho Ht];
    [intros i; by apply returned_holds_nothing|lia|].
  split; [done|]. split; [done|]. apply A.
Qed.

Lemma ring_drains_witness :
  let r := fst (ring_run (two_calls ++ replicate 4 (ActConsumer 1 5)) (new_ring 2) []) in
  let r' := consumer_turns (6 * Z.to_nat (rg_head r - rg_tail r)) 1 9 r in
  rg_tail r' = rg_head r ∧ fst <$> rg_out r' = copied <$> [[2]; [1]]
  ∧ [[2]; [1]] ≡ₚ concat (entry <$> rg_producers r).
Proof.
  apply (ring_drains 1 (two_calls ++ replicate 4 (ActConsumer 1 5)));
    [lia|by vm_compute|by vm_compute|cbn; lia|by vm_compute|by vm_compute].
Defined.

(** ** The size of the ring *)

Lemma power_above_spec (fuel : nat) (e cap : Z) :
  0 ≤ e ≤ 63 → 63 ≤ e + Z.of_nat fuel → 2 ^ (e - 1) < cap ≤ 2 ^ 63 →
  ∃ e', e ≤ e' ≤ 63 ∧ power_above fuel (2 ^ e) cap = Some (2 ^ e') ∧ 2 ^ (e' - 1) < cap ≤ 2 ^ e'.
Proof.
  revert e. induction fuel as [|fuel IH]; intros e He Hf Hc; cbn [power_above].
  - replace e with 63 by lia. exists 63. split; [lia|]. destruct (Z.ltb_spec (2 ^ 63) cap); [lia|].
    split; [done|]. replace e with 63 in Hc by lia. lia.
  - destruct (Z.ltb_spec (2 ^ e) cap).
    + assert (e < 63) by (destruct (Z.eq_dec e 63) as [->|]; lia).
      rewrite Z.shiftl_mul_pow2 by lia. replace (2 ^ e * 2 ^ 1) with (2 ^ (e + 1)) by (rewrite Z.pow_add_r; lia).
      assert (2 ^ (e + 1) < 2 ^ 64) by (apply Z.pow_lt_mono_r; lia).
      assert (0 < 2 ^ (e + 1)) by (apply Z.pow_pos_nonneg; lia).
      rewrite u64_id by (unfold is_u64; lia).
      destruct (IH (e + 1)) as (e' & A & B & C); [lia|lia| |].
      { replace (e + 1 - 1) with e by lia. lia. }
      exists e'. split; [lia|]. done.
    + exists e. split; [lia|]. split; [done|]. lia.
Qed.

(** The size of the ring is a power of two of at most 32768, the least one that is not
    below the configured size when there is one; this needs a size of at most 2^63. *)
Lemma ring_capacity_power (configured : Z) (fuel : nat) :
  0 ≤ configured ≤ 2 ^ 63 → (63 ≤ fuel)%nat →
  ∃ k, 0 ≤ k ≤ 15 ∧ ring_capacity fuel configured = Some (2 ^ k)
       ∧ (0 < configured ≤ 32768 → configured ≤ 2 ^ k < 2 * configured).
Proof.
  intros Hc Hfuel. unfold ring_capacity. set (cap := if _ =? _ then _ else _).
  assert (Hcap : 1 ≤ cap ≤ 2 ^ 63).
  { unfold cap, LOG_RING_BUFFER_DEFAULT_CAPACITY. destruct (Z.eqb_spec configured 0); lia. }
  destruct (power_above_spec fuel 0 cap) as (e & He & Hp & Hb); [lia|lia|cbn; lia|].
  rewrite Z.pow_0_r in Hp. rewrite Hp. cbn [mbind option_bind].
  assert (H15 : DISTRIC_MAX_RING_BUFFER = 2 ^ 15) by done.
  destruct (Z.gtb_spec (2 ^ e) DISTRIC_MAX_RING_BUFFER) as [Hgt|Hle].
  - exists 15. split; [lia|]. split; [done|]. intros Hs.
    assert (15 < e) by (rewrite H15 in Hgt; apply Z.pow_lt_mono_r_iff in Hgt; lia).
    assert (2 ^ 15 ≤ 2 ^ (e - 1)) by (apply Z.pow_le_mono_r; lia).
    unfold cap in Hb. destruct (Z.eqb_spec configured 0); lia.
  - exists e. split; [|split; [done|]].
    + split; [lia|]. rewrite H15 in Hle. apply Z.pow_le_mono_r_iff in Hle; [exact Hle|lia|lia].
    + intros Hs. unfold cap in Hb. destruct (Z.eqb_spec configured 0); [lia|].
      destruct (Z.eq_dec e 0) as [->|]; [cbn in *; lia|].
      assert (E2 : 2 ^ e = 2 * 2 ^ (e - 1)) by (rewrite <- Z.pow_succ_r, Z.sub_1_r, Z.succ_pred by lia; done). lia.
Qed.

(** A configured size above 2^63: the power wraps to zero and the loop never ends. *)
Theorem ring_capacity_hangs (fuel : nat) (configured : Z) : 2 ^ 63 < configured → ring_capacity fuel configured = None.
Proof.
  intros Hc. unfold ring_capacity. destruct (Z.eqb_spec configured 0); [lia|].
  assert (H0 : ∀ n, power_above n 0 configured = None).
  { induction n0 as [|m IH]; cbn [power_above]; (destruct (Z.ltb_spec 0 configured); [|lia]); [done|exact IH]. }
  assert (H : ∀ n (e : nat), (e ≤ 63)%nat → power_above n (2 ^ Z.of_nat e) configured = None).
  { induction n0 as [|m IH]; intros e He; cbn [power_above].
    - assert (2 ^ Z.of_nat e ≤ 2 ^ 63) by (apply Z.pow_le_mono_r; lia).
      destruct (Z.ltb_spec (2 ^ Z.of_nat e) configured); [done|lia].
    - assert (2 ^ Z.of_nat e ≤ 2 ^ 63) by (apply Z.pow_le_mono_r; lia).
      destruct (Z.ltb_spec (2 ^ Z.of_nat e) configured); [|lia].
      rewrite Z.shiftl_mul_pow2 by lia.
      replace (2 ^ Z.of_nat e * 2 ^ 1) with (2 ^ Z.of_nat (S e)) by (rewrite Nat2Z.inj_succ, Z.pow_succ_r by lia; lia).
      destruct (decide (e = 63%nat)) as [->|]; [apply H0|].
      assert (2 ^ Z.of_nat (S e) < 2 ^ 64) by (apply Z.pow_lt_mono_r; lia).
      assert (0 < 2 ^ Z.of_nat (S e)) by (apply Z.pow_pos_nonneg; lia).
      rewrite u64_id by (unfold is_u64; lia). apply IH. lia. }
  specialize (H fuel 0%nat ltac:(lia)). change (2 ^ Z.of_nat 0) with 1 in H. by rewrite H.
Qed.

Lemma ring_capacity_hangs_witness : ring_capacity 100 (2 ^ 63 + 1) = None.
Proof. apply (ring_capacity_hangs 100 (2 ^ 63 + 1)). lia. Defined.

(** ** What the rare paths do *)

(** Three calls race on an empty ring of two slots: all pass the first check, and the third
    claims past the capacity. *)
Definition racing_calls : list ring_action :=
  [ActCall [1]; ActCall [2]; ActCall [3];
   ActProducer 0; ActProducer 1; ActProducer 2; ActProducer 0; ActProducer 1; ActProducer 2]
  ++ replicate 4 (ActProducer 0) ++ replicate 4 (ActProducer 1) ++ replicate 3 (ActProducer 2).

Lemma stuck_forever (n : nat) (written : nat) (now : Z) (r : ring) :
  rg_shutdown r = false → sl_state (slot_at r (rg_tail r)) = SLOT_EMPTY →
  match rg_consumer r with CoSpin _ | CoShutdown _ => True | _ => False end →
  rg_tail (consumer_turns n written now r) = rg_tail r ∧ rg_out (consumer_turns n written now r) = rg_out r.
Proof.
  revert r. induction n as [|n IH]; intros r Hsd Hsl Hco; cbn; [done|].
  unfold consumer_turn. destruct (rg_consumer r) eqn:Hc; try done.
  - rewrite Hsl. by apply (IH (rg_set_consumer (CoShutdown spin) r)).
  - rewrite Hsd. cbn. by apply (IH (rg_set_consumer (CoSpin (u32 (spin + 1))) r)).
Qed.

(** The sentinel of the third call is stored over the published entry of the first: that
    call was told its entry is queued, and the entry is never written.  The claimed index
    of the third is reached with its slot empty, and the flush thread waits on it for ever
    (until shutdown), whatever it does. *)
Theorem over_claim_loses_entry (n : nat) (written : nat) (now : Z) :
  let r := fst (ring_run racing_calls (new_ring 2) []) in
  rg_producers r = [PrDone [1] true; PrDone [2] true; PrDone [3] false]
  ∧ fst <$> rg_out (consumer_turns (13 + n) 1 now r) = [[2]]
  ∧ rg_tail (consumer_turns (13 + n) 1 now r) = 2 ∧ rg_head r = 3.
Proof.
  intros r. rewrite consumer_turns_add. set (r' := consumer_turns 13 1 now r).
  assert (E : r' = Ring 3 2 [LogSlot SLOT_EMPTY [1]; LogSlot SLOT_EMPTY [2]] 1 false now [([2], 1%nat)]
    [PrDone [1] true; PrDone [2] true; PrDone [3] false] (CoSpin 0)) by reflexivity.
  destruct (stuck_forever n 1 now r') as [-> ->]; [by rewrite E..|]. rewrite E. clear E. subst r r'. vm_compute. done.
Qed.

(** A call that reads [head], is overtaken and then reads [tail]: the difference wraps
    below zero and the entry is refused by an empty ring. *)
Definition overtaken_call : list ring_action :=
  [ActCall [1]; ActCall [2]; ActProducer 0] ++ replicate 6 (ActProducer 1)
  ++ replicate 7 (ActConsumer 1 0) ++ [ActProducer 0].

Theorem overtaken_call_refused :
  let r := fst (ring_run overtaken_call (new_ring 4) []) in
  rg_producers r = [PrDone [1] false; PrDone [2] true] ∧ rg_tail r = rg_head r.
Proof. by vm_compute. Qed.

(** An entry as long as a slot is accepted and written without its last byte, the newline. *)
Theorem longest_entry_cut (data : list Z) : length data = LOG_MAX_ENTRY_BYTES_DEFAULT → copied data = removelast data.
Proof.
  intros H. unfold copied. rewrite H. change (LOG_MAX_ENTRY_BYTES_DEFAULT <? LOG_MAX_ENTRY_BYTES_DEFAULT)%nat with false.
  cbn iota. rewrite removelast_firstn_len, H. f_equal.
Qed.

(** ** A call is bounded, and so is the end of the flush thread *)

(** What is left to do of a call, in its own steps. *)
Definition call_rank (p : producer) : nat :=
  match p with
  | PrStart _ => 70
  | PrSnap _ _ => 69
  | PrClaim _ => 68
  | PrRecheck _ _ => 67
  | PrSpin _ _ spin => 2 + Z.to_nat (SLOT_CLAIM_MAX_SPIN - spin)
  | PrMark _ _ | PrPublish _ _ => 1
  | PrDone _ _ => 0
  end.

Definition call_data (p : producer) : list Z :=
  match p with
  | PrStart d | PrSnap d _ | PrClaim d | PrRecheck d _ | PrMark d _ | PrSpin d _ _ | PrPublish d _ | PrDone d _ => d
  end.

Lemma turn_data (p : producer) (r : ring) : call_data (snd (fst (producer_turn p r))) = call_data p.
Proof. destruct p; cbn; try done; repeat (case_match; cbn); done. Qed.

Lemma call_decreases (p : producer) (r : ring) :
  call_rank p = 0%nat ∨ (call_rank (snd (fst (producer_turn p r))) < call_rank p)%nat.
Proof.
  destruct p as [data|data hs|data|data idx|data idx|data idx spin|data idx|data b];
    cbn [producer_turn]; try (right; cbn; lia); try (by left).
  - right. destruct (_ >=? _); cbn; lia.
  - right. destruct (_ >=? _); cbn; unfold SLOT_CLAIM_MAX_SPIN; lia.
  - right. destruct (sl_state _); [cbn; lia|..]; (destruct (Z.geb_spec spin SLOT_CLAIM_MAX_SPIN); cbn [fst snd call_rank]; lia).
Qed.

(** A log call never blocks: whatever the other threads do to the ring between its
    steps, it returns within 70 atomic operations of its own. *)
Theorem ring_write_returns (data : list Z) (rs : list ring) :
  (70 ≤ length rs)%nat →
  ∃ accepted, foldl (λ p r, snd (fst (producer_turn p r))) (PrStart data) rs = PrDone data accepted.
Proof.
  intros Hl. set (f := λ p r, snd (fst (producer_turn p r))).
  assert (Hr : ∀ l p, (call_rank p ≤ length l)%nat → call_rank (foldl f p l) = 0%nat).
  { induction l as [|r l IH]; intros p Hp; cbn in *; [lia|]. apply IH. destruct (call_decreases p r) as [H0|H0]; [|unfold f; lia].
    unfold f. destruct p; cbn in H0 |- *; lia. }
  assert (Hd : ∀ l p, call_data (foldl f p l) = call_data p).
  { induction l as [|r l IH]; intros p; cbn; [done|]. rewrite IH. apply turn_data. }
  specialize (Hr rs (PrStart data) Hl). specialize (Hd rs (PrStart data)).
  destruct (foldl f (PrStart data) rs) as [| | | | | | |d b]; cbn in Hr; try lia. cbn in Hd. subst d. by exists b.
Qed.

Lemma ring_write_returns_witness :
  ∃ accepted, foldl (λ p r, snd (fst (producer_turn p r))) (PrStart [1]) (replicate 70 (new_ring 2)) = PrDone [1] accepted.
Proof. apply (ring_write_returns [1] (replicate 70 (new_ring 2))). cbn; lia. Defined.

(** The turns the flush thread still takes once the shutdown flag is set: at most 2060 for
    each index, which is as long as the wait for an empty slot. *)
Definition flush_rank (r : ring) : nat :=
  let left := Z.to_nat (u64 (rg_head r - rg_tail r)) in
  match rg_consumer r with
  | CoTop => left * 2060 + 2
  | CoHead true => left * 2060 + 1
  | CoHead false => left * 2060 + 3
  | CoSpin spin => (left - 1) * 2060 + (7 + 2 * Z.to_nat (1025 - spin))
  | CoShutdown spin => (left - 1) * 2060 + (6 + 2 * Z.to_nat (1025 - spin))
  | CoWrite => (left - 1) * 2060 + 6
  | CoClear | CoSkip => (left - 1) * 2060 + 5
  | CoAdvance | CoSkipAdvance => (left - 1) * 2060 + 4
  | CoExit => 0
  end%nat.

Definition spin_ok (c : consumer) : Prop := match c with CoSpin spin | CoShutdown spin => 0 ≤ spin < 2 ^ 32 | _ => True end.

(** Between [CoSpin] and the advance there is an entry to leave behind. *)
Definition flush_inv (r : ring) : Prop :=
  is_u64 (rg_head r) ∧ is_u64 (rg_tail r) ∧ spin_ok (rg_consumer r)
  ∧ match rg_consumer r with CoTop | CoHead _ | CoExit => True | _ => rg_tail r ≠ rg_head r end.

Lemma left_u64 h t : is_u64 h → is_u64 t → t ≠ h →
  u64 (h - u64 (t + 1)) = u64 (h - t) - 1 ∧ 0 < u64 (h - t).
Proof.
  unfold is_u64, u64. intros Hh Ht Hne.
  assert (Hb : (h - (t + 1) mod 2 ^ 64) mod 2 ^ 64 = ((h - t) mod 2 ^ 64 - 1) mod 2 ^ 64).
  { rewrite Zminus_mod_idemp_r, Zminus_mod_idemp_l. f_equal. lia. }
  rewrite Hb. pose proof (Z.mod_pos_bound (h - t) (2 ^ 64) ltac:(lia)).
  assert ((h - t) mod 2 ^ 64 ≠ 0).
  { intros E. apply Z.mod_divide in E; [|lia]. destruct E as [q E]. assert (q = 0) by nia. lia. }
  rewrite Z.mod_small by lia. lia.
Qed.

Lemma flush_decreases (written : nat) (now : Z) (r : ring) :
  flush_inv r → rg_shutdown r = true → rg_consumer r ≠ CoExit →
  flush_inv (consumer_turn written now r) ∧ (flush_rank (consumer_turn written now r) < flush_rank r)%nat.
Proof.
  intros (Hh & Ht & Hs & Hne) Hsd Hc.
  assert (Hadv : rg_tail r ≠ rg_head r →
    flush_inv (rg_set_consumer CoTop (rg_set_tail (u64 (rg_tail r + 1)) r))
    ∧ (flush_rank (rg_set_consumer CoTop (rg_set_tail (u64 (rg_tail r + 1)) r))
       = (Z.to_nat (u64 (rg_head r - rg_tail r)) - 1) * 2060 + 2)%nat).
  { intros Hne'. destruct (left_u64 (rg_head r) (rg_tail r) Hh Ht Hne') as [E P]. split.
    - split; [done|]. split; [apply u64_range|]. done.
    - unfold flush_rank. cbn [rg_consumer rg_set_consumer rg_set_tail rg_head rg_tail]. rewrite E. lia. }
  assert (Hpos : rg_tail r ≠ rg_head r → 0 < u64 (rg_head r - rg_tail r)).
  { intros Hne'. by apply (left_u64 (rg_head r) (rg_tail r)). }
  assert (Hmove : ∀ c, spin_ok c → rg_tail r ≠ rg_head r ∨ c = CoTop ∨ c = CoExit ∨ (∃ b, c = CoHead b) →
    flush_inv (rg_set_consumer c r)).
  { intros c Hsp Hor. split; [done|]. split; [done|]. split; [done|]. cbn [rg_consumer rg_set_consumer].
    destruct Hor as [?|[->|[->|[b ->]]]]; [by destruct c|done..]. }
  set (lf := Z.to_nat (u64 (rg_head r - rg_tail r))) in *.
  assert (Hlf : rg_tail r ≠ rg_head r → (1 ≤ lf)%nat) by (intros Hx; specialize (Hpos Hx); lia).
  assert (Hrank : ∀ c, flush_rank (rg_set_consumer c r) =
    match c with
    | CoTop => lf * 2060 + 2 | CoHead true => lf * 2060 + 1 | CoHead false => lf * 2060 + 3
    | CoSpin spin => (lf - 1) * 2060 + (7 + 2 * Z.to_nat (1025 - spin))
    | CoShutdown spin => (lf - 1) * 2060 + (6 + 2 * Z.to_nat (1025 - spin))
    | CoWrite => (lf - 1) * 2060 + 6 | CoClear | CoSkip => (lf - 1) * 2060 + 5
    | CoAdvance | CoSkipAdvance => (lf - 1) * 2060 + 4 | CoExit => 0
    end%nat) by (intros []; reflexivity).
  assert (Hr : flush_rank r = flush_rank (rg_set_consumer (rg_consumer r) r)) by (by destruct r).
  rewrite Hr, Hrank. clear Hr. unfold consumer_turn.
  destruct (rg_consumer r) as [|sd|spin|spin| | | | | |] eqn:Hco; [..|done]; cbn [spin_ok] in Hs.
  - rewrite Hsd. split; [apply Hmove; [done|eauto]|rewrite Hrank; lia].
  - destruct (Z.eqb_spec (rg_tail r) (rg_head r)) as [E|E].
    + destruct sd; (split; [apply Hmove; [done|auto]|rewrite Hrank; lia]).
    + split; [apply Hmove; [cbn; lia|auto]|]. rewrite Hrank. specialize (Hlf E).
      change (Z.to_nat (1025 - 0)) with 1025%nat. destruct sd; lia.
  - destruct (sl_state _); (split; [apply Hmove; [done|auto]|rewrite Hrank; lia]).
  - rewrite Hsd. cbn [andb]. destruct (Z.gtb_spec spin 1024).
    + split; [apply Hmove; [done|auto]|rewrite Hrank; lia].
    + rewrite u32_id by (unfold is_u32; lia). split; [apply Hmove; [cbn [spin_ok]; lia|auto]|rewrite Hrank; lia].
  - split; [by apply Hmove; [|left]|]. change (flush_rank (rg_set_out ?o now ?x)) with (flush_rank x). rewrite Hrank; lia.
  - split; [by apply Hmove; [|left]|]. change (flush_rank (rg_set_consumer CoAdvance (set_slot ?i ?s r))) with (flush_rank (rg_set_consumer CoAdvance r)).
    rewrite Hrank; lia.
  - destruct (Hadv Hne) as [? ->]. split; [done|lia].
  - split; [by apply Hmove; [|left]|]. change (flush_rank (rg_set_consumer CoSkipAdvance (set_slot ?i ?s r))) with (flush_rank (rg_set_consumer CoSkipAdvance r)).
    rewrite Hrank; lia.
  - destruct (Hadv Hne) as [? ->]. split; [done|lia].
Qed.

Lemma shutdown_stays written now r : rg_shutdown (consumer_turn written now r) = rg_shutdown r.
Proof. unfold consumer_turn. destruct (rg_consumer r); repeat case_match; done. Qed.

Lemma exit_stays n written now r : rg_consumer r = CoExit → consumer_turns n written now r = r.
Proof. intros H. induction n; cbn; [done|]. unfold consumer_turn at 1. by rewrite H. Qed.

Lemma flush_exits (n : nat) (written : nat) (now : Z) (r : ring) :
  flush_inv r → rg_shutdown r = true → (flush_rank r ≤ n)%nat → rg_consumer (consumer_turns n written now r) = CoExit.
Proof.
  revert r. induction n as [|n IH]; intros r I Hsd Hn.
  - cbn [consumer_turns]. unfold flush_rank in Hn. destruct (rg_consumer r) as [|[]| | | | | | | |]; lia || done.
  - destruct (decide (rg_consumer r = CoExit)) as [E|E]; [by rewrite exit_stays|].
    cbn [consumer_turns]. destruct (flush_decreases written now r I Hsd E) as [I' Hlt].
    apply IH; [done|by rewrite shutdown_stays|lia].
Qed.

(** No call in flight, and the flush thread not at the end of a wait. *)
Definition at_rest (r : ring) (claims : list (list Z)) : Prop :=
  fifo_inv r claims ∧ forallb returned (rg_producers r) = true
  ∧ match rg_consumer r with CoShutdown _ => False | CoExit => rg_tail r = rg_head r | _ => True end.

Lemma at_rest_turn written now r claims : at_rest r claims → at_rest (consumer_turn written now r) claims.
Proof.
  intros (I & Hret & Hco). pose proof (returned_holds_nothing r) as Hn.
  assert (Hp : rg_producers (consumer_turn written now r) = rg_producers r)
    by (unfold consumer_turn; destruct (rg_consumer r); repeat case_match; done).
  assert (Hc : match rg_consumer (consumer_turn written now r) with
               | CoShutdown _ | CoSkip => False | CoSkipAdvance => False
               | CoExit => rg_tail (consumer_turn written now r) = rg_head (consumer_turn written now r) | _ => True end).
  { pose proof (fi_consumer _ _ I) as Hf. unfold consumer_turn. destruct (rg_consumer r) eqn:E; try done.
    - cbn. destruct (Z.eqb_spec (rg_tail r) (rg_head r)); [by destruct shutting_down|done].
    - assert (Hu : freed_upto r = rg_tail r) by (unfold freed_upto; by rewrite E).
      destruct (fi_full _ _ I (rg_tail r)) as (_ & d & _ & ->); [lia|by apply Hn|done].
    - by rewrite E. }
  split; [|split; [by rewrite Hp|]].
  - apply fifo_consumer_turn; [done|]. unfold smooth. rewrite Hp. apply andb_true_intro. split.
    + apply forallb_forall. intros p Hin. rewrite forallb_forall in Hret. specialize (Hret p Hin). by destruct p.
    + destruct (rg_consumer (consumer_turn _ _ _)); done.
  - destruct (rg_consumer (consumer_turn _ _ _)); done.
Qed.

Lemma at_rest_turns n written now r claims : at_rest r claims → at_rest (consumer_turns n written now r) claims.
Proof. revert r. induction n as [|n IH]; cbn; intros r H; [done|]. apply IH. by apply at_rest_turn. Qed.

Lemma at_rest_exits (n written : nat) (now : Z) (r : ring) (claims : list (list Z)) :
  at_rest r claims → flush_inv r → rg_shutdown r = true → (flush_rank r ≤ n)%nat →
  rg_consumer (consumer_turns n written now r) = CoExit
  ∧ fst <$> rg_out (consumer_turns n written now r) = copied <$> claims.
Proof.
  intros HR HF Hsd Hn. pose proof (flush_exits n written now r HF Hsd Hn) as E. split; [done|].
  destruct (at_rest_turns n written now r claims HR) as (I & _ & Hc). rewrite E in Hc.
  rewrite (fi_out _ _ I). unfold written_upto. rewrite E, Hc. rewrite take_ge; [done|].
  pose proof (fi_head _ _ I). lia.
Qed.

Lemma flush_rank_le (r : ring) :
  flush_inv r → (flush_rank r ≤ Z.to_nat (u64 (rg_head r - rg_tail r)) * 2060 + 2057)%nat.
Proof.
  intros (_ & _ & Hs & _). unfold flush_rank, spin_ok in *. destruct (rg_consumer r) as [|[]| | | | | | | |]; lia.
Qed.

(** C31: [log_destroy] ends, whatever the slots hold: once the shutdown flag is set and no call
    runs any more, the flush thread leaves its loop within 2060 of its steps for each index
    left and 2057 more, even when it waits on a slot that no call will ever fill. *)
Theorem flush_thread_exits (n : nat) (written : nat) (now : Z) (r : ring) :
  flush_inv r → (Z.to_nat (u64 (rg_head r - rg_tail r)) * 2060 + 2057 <= n)%nat →
  rg_consumer (consumer_turns n written now (fst (ring_step ActShutdown r))) = CoExit.
Proof.
  intros I Hn. cbn [ring_step fst]. apply flush_exits; [exact I|done|].
  etransitivity; [|exact Hn]. by apply (flush_rank_le (rg_set_shutdown true r)).
Qed.

Lemma flush_thread_exits_witness :
  rg_consumer (consumer_turns 4200 1 7 (fst (ring_step ActShutdown
    (consumer_turns 13 1 7 (fst (ring_run racing_calls (new_ring 2) [])))))) = CoExit.
Proof.
  apply (flush_thread_exits 4200).
  - vm_compute. repeat split; congruence.
  - apply Nat.leb_le. vm_compute. reflexivity.
Defined.

(** An accepted entry can still be skipped at shutdown: the flush thread has waited more
    than 1024 turns and last saw its slot empty, the call publishes the entry and returns,
    and the thread reads the flag before it looks at the slot again. *)
Definition late_publication : list ring_action :=
  [ActCall [1]] ++ replicate 5 (ActProducer 0) ++ replicate 2053 (ActConsumer 1 0)
  ++ [ActProducer 0; ActShutdown] ++ replicate 5 (ActConsumer 1 0).

Theorem shutdown_skips_accepted :
  let r := fst (ring_run late_publication (new_ring 2) []) in
  rg_producers r = [PrDone [1] true] ∧ rg_out r = [] ∧ rg_tail r = rg_head r ∧ rg_consumer r = CoExit.
Proof. by vm_compute. Qed.

(** ** A call no other call races with *)

Definition call_actions (data : list Z) (r : ring) : list ring_action :=
  ActCall data :: replicate 70 (ActProducer (length (rg_producers r))).

(** The ring after the whole call, and whether it was accepted. *)
Definition ring_write (data : list Z) (r : ring) : ring * bool :=
  let r' := fst (ring_run (call_actions data r) r []) in
  (r', match rg_producers r' !! length (rg_producers r) with Some (PrDone _ accepted) => accepted | _ => false end).

(** The turns of one call, one after the other, and whether none of them marks a slot. *)
Fixpoint turns_alone (n : nat) (p : producer) (r : ring) : ring * producer * list (list Z) :=
  match n with
  | O => (r, p, [])
  | S n =>
      let '(r', p', c) := producer_turn p r in
      let '(r'', p'', cs) := turns_alone n p' r' in (r'', p'', option_list c ++ cs)
  end.

Fixpoint unmarked (n : nat) (p : producer) (r : ring) : bool :=
  match p with PrMark _ _ => false | _ => true end &&
  match n with O => true | S n => let '(r', p', _) := producer_turn p r in unmarked n p' r' end.

Lemma turn_frame (p : producer) (r : ring) (l : list producer) :
  producer_turn p (rg_set_producers l r)
  = (rg_set_producers l (fst (fst (producer_turn p r))), snd (fst (producer_turn p r)), snd (producer_turn p r))
  ∧ rg_consumer (fst (fst (producer_turn p r))) = rg_consumer r
  ∧ rg_shutdown (fst (fst (producer_turn p r))) = rg_shutdown r.
Proof.
  destruct p; cbn [producer_turn]; change (slot_at (rg_set_producers l r) ?i) with (slot_at r i);
    change (capacity (rg_set_producers l r)) with (capacity r); change (rg_tail (rg_set_producers l r)) with (rg_tail r);
    repeat case_match; split; done.
Qed.

Lemma alone_step (r : ring) (l : list producer) (p : producer) :
  ring_step (ActProducer (length l)) (rg_set_producers (l ++ [p]) r)
  = (rg_set_producers (l ++ [snd (fst (producer_turn p r))]) (fst (fst (producer_turn p r))), snd (producer_turn p r)).
Proof.
  unfold ring_step. cbn [rg_set_producers rg_producers]. rewrite list_lookup_middle by done.
  destruct (turn_frame p r (l ++ [p])) as [-> _]. rewrite insert_app_r_alt by lia. rewrite Nat.sub_diag. done.
Qed.

Lemma alone_run (n : nat) (p : producer) (r : ring) (l : list producer) (claims : list (list Z)) :
  ring_run (replicate n (ActProducer (length l))) (rg_set_producers (l ++ [p]) r) claims
  = (rg_set_producers (l ++ [snd (fst (turns_alone n p r))]) (fst (fst (turns_alone n p r))),
     claims ++ snd (turns_alone n p r)).
Proof.
  revert p r claims. induction n as [|n IH]; intros p r claims; cbn [replicate ring_run turns_alone].
  - cbn. by rewrite app_nil_r.
  - rewrite alone_step. destruct (producer_turn p r) as [[r' p'] c]. cbn [fst snd]. rewrite IH.
    destruct (turns_alone n p' r') as [[r'' p''] cs]. cbn [fst snd]. by rewrite app_assoc.
Qed.

Lemma alone_smooth (n : nat) (p : producer) (r : ring) (l : list producer) :
  smooth (rg_set_producers l r) = true → unmarked n p r = true →
  smooth_run (replicate n (ActProducer (length l))) (rg_set_producers (l ++ [p]) r) = true.
Proof.
  revert p r. induction n as [|n IH]; intros p r Hs Hu; cbn [replicate smooth_run unmarked] in *;
    apply andb_prop in Hu as [Hp Hu].
  - unfold smooth in *; cbn in *. apply andb_prop in Hs as [H1 H2]. rewrite forallb_app, H1, H2. cbn. by rewrite Hp.
  - rewrite alone_step. destruct (turn_frame p r l) as (_ & Hc & _).
    destruct (producer_turn p r) as [[r' p'] c]. cbn [fst snd] in *. rewrite IH; [|unfold smooth in *; cbn in *; by rewrite Hc|done].
    unfold smooth in *; cbn in *. apply andb_prop in Hs as [H1 H2]. rewrite forallb_app, H1, H2. cbn. by rewrite Hp.
Qed.

Lemma turns_done n data b r : turns_alone n (PrDone data b) r = (r, PrDone data b, []) ∧ unmarked n (PrDone data b) r = true.
Proof. induction n as [|n [IH1 IH2]]; cbn; [done|]. by rewrite IH1, IH2. Qed.

Lemma call_run (data : list Z) (r : ring) (claims : list (list Z)) r' b cs :
  turns_alone 70 (PrStart data) r = (r', PrDone data b, cs) → unmarked 70 (PrStart data) r = true → smooth r = true →
  smooth_run (call_actions data r) r = true
  ∧ ring_run (call_actions data r) r claims = (rg_set_producers (rg_producers r ++ [PrDone data b]) r', claims ++ cs).
Proof.
  intros Ht Hu Hs. unfold call_actions. cbn [smooth_run ring_run ring_step fst]. rewrite Hs. split.
  - apply alone_smooth; [by destruct r|done].
  - cbn [option_list]. rewrite app_nil_r, alone_run, Ht. done.
Qed.

Lemma turns_room (r : ring) (claims : list (list Z)) (data : list Z) :
  fifo_inv r claims → rg_head r + 1 < 2 ^ 64 → rg_head r - rg_tail r < capacity r →
  turns_alone 70 (PrStart data) r
  = (set_slot (rg_head r) (LogSlot SLOT_FILLED (copied data)) (rg_set_head (rg_head r + 1) r), PrDone data true, [data])
  ∧ unmarked 70 (PrStart data) r = true.
Proof.
  intros I Hroom Hcap. pose proof (fi_tail _ _ I) as Ht. pose proof (written_freed r).
  assert (Hu : u64 (rg_head r - rg_tail r) = rg_head r - rg_tail r) by (apply u64_id; unfold is_u64; lia).
  assert (Hg : (rg_head r - rg_tail r >=? capacity r) = false) by lia.
  assert (Hh : u64 (rg_head r + 1) = rg_head r + 1) by (apply u64_id; unfold is_u64; lia).
  assert (He : sl_state (slot_at r (rg_head r)) = SLOT_EMPTY) by (apply (fi_empty _ _ I); [lia|left; lia]).
  change 70%nat with (6 + 64)%nat. set (rest := 64%nat). cbn [Nat.add turns_alone unmarked producer_turn].
  rewrite Hu, Hg. cbn [Nat.add turns_alone unmarked producer_turn]. rewrite Hh.
  change (rg_tail (rg_set_head ?x r)) with (rg_tail r). change (capacity (rg_set_head ?x r)) with (capacity r).
  rewrite Hu, Hg. cbn [Nat.add turns_alone unmarked producer_turn].
  change (slot_at (rg_set_head ?x r) (rg_head r)) with (slot_at r (rg_head r)). rewrite He.
  cbn [Nat.add turns_alone unmarked producer_turn].
  destruct (turns_done rest data true (set_slot (rg_head r) (LogSlot SLOT_FILLED (copied data)) (rg_set_head (rg_head r + 1) r))) as [-> ->].
  done.
Qed.

Lemma turns_full (r : ring) (claims : list (list Z)) (data : list Z) :
  fifo_inv r claims → capacity r ≤ rg_head r - rg_tail r →
  turns_alone 70 (PrStart data) r = (count_drop r, PrDone data false, []) ∧ unmarked 70 (PrStart data) r = true.
Proof.
  intros I Hcap. pose proof (fi_tail _ _ I) as Ht. pose proof (fi_room _ _ I). pose proof (written_freed r).
  assert (Hu : u64 (rg_head r - rg_tail r) = rg_head r - rg_tail r) by (apply u64_id; unfold is_u64; lia).
  assert (Hg : (rg_head r - rg_tail r >=? capacity r) = true) by lia.
  change 70%nat with (2 + 68)%nat. set (rest := 68%nat). cbn [Nat.add turns_alone unmarked producer_turn].
  rewrite Hu, Hg. cbn [Nat.add turns_alone unmarked producer_turn].
  destruct (turns_done rest data false (count_drop r)) as [-> ->]. done.
Qed.
