(* ===== verification/Logger.v ===== *)
(** * The logger (libs/distric_obs/src/logging.c: life cycle, dispatch, self-monitoring)

    A logger formats an entry (LogFormat) and hands it to the ring (LogRing) or writes it
    itself under its lock. *)

From Stdlib Require Import ZArith Lia String SpecFloat.
From stdpp Require Import base list numbers option.
From S2P Require Import Prelude CString MetricLabels Doubles Metrics LogFormat LogRing.

Local Open Scope Z_scope.

Inductive log_mode := LOG_MODE_SYNC | LOG_MODE_ASYNC.

Record logging_config := LoggingConfig {
  cfg_fd : Z;
  cfg_mode : log_mode;
  cfg_ring_buffer_capacity : Z;
  cfg_max_entry_bytes : Z
}.

(** The handles of the logger's own metrics, as indices in the registry; [None] when the
    registration failed. *)
Record logger_internal_metrics := LoggerMetrics {
  lm_drops_total : option nat;
  lm_oversized_drops : option nat;
  lm_ring_fill_pct : option nat;
  lm_exporter_alive : option nat
}.

(** [lg_ring] also holds the fields the flush thread and the calls share: [shutdown],
    [total_drops], [last_flush_ns].  [lg_written]: the bytes written by [sync_write]. *)
Record logger := Logger {
  lg_fd : Z;
  lg_mode : log_mode;
  lg_max_entry_bytes : Z;
  lg_ring : ring;
  lg_flush_thread_started : bool;
  lg_refcount : Z;           (* _Atomic uint32_t *)
  lg_oversized_drops : Z;    (* _Atomic uint64_t *)
  lg_written : list Z;
  lg_metrics_handles : logger_internal_metrics;
  lg_metrics_registered : bool
}.

Definition lg_set_ring (x : ring) (l : logger) : logger :=
  Logger (lg_fd l) (lg_mode l) (lg_max_entry_bytes l) x (lg_flush_thread_started l) (lg_refcount l)
    (lg_oversized_drops l) (lg_written l) (lg_metrics_handles l) (lg_metrics_registered l).
Definition lg_set_refcount (x : Z) (l : logger) : logger :=
  Logger (lg_fd l) (lg_mode l) (lg_max_entry_bytes l) (lg_ring l) (lg_flush_thread_started l) x
    (lg_oversized_drops l) (lg_written l) (lg_metrics_handles l) (lg_metrics_registered l).
Definition lg_set_oversized (x : Z) (l : logger) : logger :=
  Logger (lg_fd l) (lg_mode l) (lg_max_entry_bytes l) (lg_ring l) (lg_flush_thread_started l) (lg_refcount l)
    x (lg_written l) (lg_metrics_handles l) (lg_metrics_registered l).
Definition lg_set_written (x : list Z) (l : logger) : logger :=
  Logger (lg_fd l) (lg_mode l) (lg_max_entry_bytes l) (lg_ring l) (lg_flush_thread_started l) (lg_refcount l)
    (lg_oversized_drops l) x (lg_metrics_handles l) (lg_metrics_registered l).
Definition lg_set_metrics (h : logger_internal_metrics) (l : logger) : logger :=
  Logger (lg_fd l) (lg_mode l) (lg_max_entry_bytes l) (lg_ring l) (lg_flush_thread_started l) (lg_refcount l)
    (lg_oversized_drops l) (lg_written l) h true.

(** ** Writing *)

(** The loop of [write]: [ns] are the answers of the calls, each at most what it was
    offered; the loop ends at an error or when everything is written. *)
Fixpoint write_loop (ns : list Z) (len written : nat) : nat :=
  if (written <? len)%nat then
    match ns with
    | [] => written
    | n :: ns => if n <=? 0 then written else write_loop ns len (written + Z.to_nat n)
    end
  else written.

Definition sync_write (ns : list Z) (data : list Z) (l : logger) : logger :=
  lg_set_written (lg_written l ++ take (write_loop ns (length data) 0) data) l.

(** ** Dispatch *)

Definition count_oversized (l : logger) : logger := lg_set_oversized (u64 (lg_oversized_drops l + 1)) l.

(** [now_ms]: the clock; [ns]: the answers of [write] in synchronous mode. *)
Definition format_and_dispatch (now_ms : Z) (ns : list Z) (level : log_level) (component message : option (list Z))
    (kv_pairs : list log_kv) (l : logger) : result unit * logger :=
  match format_json (S LOG_MAX_ENTRY_BYTES_DEFAULT) now_ms level component message kv_pairs with
  | None => (Err DISTRIC_ERR_BUFFER_OVERFLOW, count_oversized l)
  | Some buf =>
      if Z.of_nat (length buf) >? lg_max_entry_bytes l then (Err DISTRIC_ERR_BUFFER_OVERFLOW, count_oversized l)
      else
        match lg_mode l with
        | LOG_MODE_ASYNC =>
            let '(r, accepted) := ring_write buf (lg_ring l) in
            (if accepted then Ok tt else Err DISTRIC_ERR_BUFFER_OVERFLOW, lg_set_ring r l)
        | LOG_MODE_SYNC => (Ok tt, sync_write ns buf l)
        end
  end.

Definition log_write_kv (now_ms : Z) (ns : list Z) (level : log_level) (component message : option (list Z))
    (kv_pairs : list log_kv) (l : logger) : result unit * logger :=
  if rg_shutdown (lg_ring l) then (Err DISTRIC_ERR_SHUTDOWN, l)
  else format_and_dispatch now_ms ns level component message kv_pairs l.

Definition DISTRIC_MAX_SPAN_TAGS : nat := 16.

(** The variadic arguments up to the first [NULL] key; [Fault] when there is none to find. *)
Fixpoint collect_pairs (n : nat) (args : list (option (list Z))) : result (list log_kv) :=
  match n with
  | O => Ok []
  | S n =>
      match args with
      | None :: _ => Ok []
      | Some key :: val :: args => kvs ← collect_pairs n args; Ok (LogKv (Some key) (Some (default [] val)) :: kvs)
      | _ => Fault
      end
  end.

Definition log_write (now_ms : Z) (ns : list Z) (level : log_level) (component message : option (list Z))
    (args : list (option (list Z))) (l : logger) : result unit * logger :=
  if rg_shutdown (lg_ring l) then (Err DISTRIC_ERR_SHUTDOWN, l)
  else
    match collect_pairs DISTRIC_MAX_SPAN_TAGS args with
    | Ok kvs => format_and_dispatch now_ms ns level component message kvs l
    | Err e => (Err e, l)
    | Fault => (Fault, l)
    end.

(** ** Life cycle *)

(** Whether the allocations, the mutex and the thread succeed. *)
Record log_env := LogEnv { le_calloc : bool; le_mutex : bool; le_slots : bool; le_thread : bool }.

Definition no_metrics : logger_internal_metrics := LoggerMetrics None None None None.

(** [None]: the loop for the capacity is not over after [fuel] turns. *)
Definition log_init_with_config (fuel : nat) (config : option logging_config) (env : log_env) : option (result logger) :=
  match config with
  | None => Some (Err DISTRIC_ERR_INVALID_ARG)
  | Some c =>
      if cfg_fd c <? 0 then Some (Err DISTRIC_ERR_INVALID_ARG)
      else if negb (le_calloc env) then Some (Err DISTRIC_ERR_ALLOC_FAILURE)
      else
        let max := if cfg_max_entry_bytes c =? 0 then Z.of_nat LOG_MAX_ENTRY_BYTES_DEFAULT else cfg_max_entry_bytes c in
        let max := if max >? Z.of_nat LOG_MAX_ENTRY_BYTES_DEFAULT then Z.of_nat LOG_MAX_ENTRY_BYTES_DEFAULT else max in
        if negb (le_mutex env) then Some (Err DISTRIC_ERR_INIT_FAILED)
        else
          match cfg_mode c with
          | LOG_MODE_SYNC => Some (Ok (Logger (cfg_fd c) LOG_MODE_SYNC max (new_ring 0) false 1 0 [] no_metrics false))
          | LOG_MODE_ASYNC =>
              cap ← ring_capacity fuel (cfg_ring_buffer_capacity c);
              Some (if negb (le_slots env) then Err DISTRIC_ERR_ALLOC_FAILURE
                    else if negb (le_thread env) then Err DISTRIC_ERR_INIT_FAILED
                    else Ok (Logger (cfg_fd c) LOG_MODE_ASYNC max (new_ring (Z.to_nat cap)) true 1 0 [] no_metrics false))
          end
  end.

Definition log_init (fuel : nat) (fd : Z) (mode : log_mode) (env : log_env) : option (result logger) :=
  log_init_with_config fuel (Some (LoggingConfig fd mode 0 0)) env.

(** The assertion fails, and the program is aborted, when no reference is left. *)
Definition log_retain (l : logger) : result logger :=
  if lg_refcount l >? 0 then Ok (lg_set_refcount (u32 (lg_refcount l + 1)) l) else Fault.

(** [log_destroy] sets the flag and joins the flush thread, which takes [n] more steps;
    [None] while the thread is not out of its loop.  The answer is what was written. *)
Definition log_destroy (n written : nat) (now : Z) (l : logger) : option (list (list Z * nat)) :=
  match lg_mode l with
  | LOG_MODE_ASYNC =>
      if lg_flush_thread_started l then
        let r := consumer_turns n written now (fst (ring_step ActShutdown (lg_ring l))) in
        match rg_consumer r with CoExit => Some (rg_out r) | _ => None end
      else Some []
  | LOG_MODE_SYNC => Some []
  end.

(** The logger that is left, or what its destruction gives. *)
Definition log_release (n written : nat) (now : Z) (l : logger) : result (logger + option (list (list Z * nat))) :=
  let prev := lg_refcount l in
  let l := lg_set_refcount (u32 (prev - 1)) l in
  if negb (prev >? 0) then Fault
  else if prev =? 1 then Ok (inr (log_destroy n written now l)) else Ok (inl l).

(** ** Health and counters *)

Definition LOG_EXPORTER_STALE_NS : Z := 30 * 1000000000.

Definition log_is_exporter_healthy (now : Z) (l : option logger) : bool :=
  match l with
  | None => false
  | Some l =>
      match lg_mode l with
      | LOG_MODE_SYNC => true
      | LOG_MODE_ASYNC =>
          if negb (lg_flush_thread_started l) then false
          else
            let last := rg_last_flush_ns (lg_ring l) in
            if last =? 0 then true else u64 (now - last) <? LOG_EXPORTER_STALE_NS
      end
  end.

Definition log_get_total_drops (l : option logger) : Z := match l with Some l => rg_drops (lg_ring l) | None => 0 end.
Definition log_get_oversized_drops (l : option logger) : Z := match l with Some l => lg_oversized_drops l | None => 0 end.

(** ** The logger's own metrics *)

(** [metrics_gauge_set] through a handle that may be [NULL]. *)
Definition set_handle (handle : option nat) (value : spec_float) (reg : metrics_registry) : result metrics_registry :=
  match handle with
  | None => Ok reg
  | Some i =>
      match mr_metrics reg !! i with
      | None => Fault
      | Some m => m' ← metrics_gauge_set m value; Ok (mr_set_metrics (<[i := m']> (mr_metrics reg)) reg)
      end
  end.

(** A registration whose failure leaves the handle [NULL]. *)
Definition register_handle (name help : string) (env : register_env) (reg : metrics_registry) : option nat * metrics_registry :=
  match metrics_register_gauge reg (str name) (str help) None 0 env with
  | (Ok i, reg) => (Some i, reg)
  | (_, reg) => (None, reg)
  end.

Definition log_register_metrics (env : nat → register_env) (l : logger) (reg : metrics_registry) :
    result (logger * metrics_registry) :=
  if lg_metrics_registered l then Err DISTRIC_ERR_ALREADY_EXISTS
  else
    let '(drops, reg) := register_handle "distric_internal_logger_drops_total"
      "Cumulative log entries dropped (ring full or slot-claim timeout)" (env 0%nat) reg in
    let '(oversized, reg) := register_handle "distric_internal_logger_oversized_drops_total"
      "Log entries dropped because formatted size exceeded max_entry_bytes" (env 1%nat) reg in
    let '(fill, reg) := register_handle "distric_internal_logger_ring_fill_pct"
      "Async log ring buffer fill percentage (0-100)" (env 2%nat) reg in
    let '(alive, reg) := register_handle "distric_internal_logger_exporter_alive"
      "1 if the async log flush thread is alive and making progress, 0 otherwise" (env 3%nat) reg in
    let l := lg_set_metrics (LoggerMetrics drops oversized fill alive) l in
    reg ← (if lg_flush_thread_started l then set_handle alive (double_of_Z 1) reg else Ok reg);
    Ok (l, reg).

Definition double_mul (x y : spec_float) : spec_float := SFmul 53 1024 x y.

(** What the flush thread does after each advance, and at its end. *)
Definition fill_percent (r : ring) : spec_float :=
  if rg_head r >? rg_tail r
  then double_mul (double_ratio (u64 (rg_head r - rg_tail r)) (capacity r)) (double_of_Z 100)
  else double_of_Z 0.

Definition flush_gauges (l : logger) (reg : metrics_registry) : result metrics_registry :=
  if lg_metrics_registered l then
    let h := lg_metrics_handles l in
    reg ← set_handle (lm_ring_fill_pct h) (fill_percent (lg_ring l)) reg;
    reg ← set_handle (lm_drops_total h) (double_of_Z (rg_drops (lg_ring l))) reg;
    reg ← set_handle (lm_oversized_drops h) (double_of_Z (lg_oversized_drops l)) reg;
    set_handle (lm_exporter_alive h) (double_of_Z 1) reg
  else Ok reg.

Definition flush_exit_gauge (l : logger) (reg : metrics_registry) : result metrics_registry :=
  if lg_metrics_registered l then set_handle (lm_exporter_alive (lg_metrics_handles l)) (double_of_Z 0) reg else Ok reg.

(** ** Runs of a logger *)

(** Calls one at a time, with steps of the flush thread between them. *)
Inductive logger_op :=
  | OpLog (now_ms : Z) (level : log_level) (component message : option (list Z)) (kv_pairs : list log_kv)
  | OpFlush (written : nat) (now : Z).

(** The line of a call that returned [DISTRIC_OK]. *)
Definition accepted_line (res : result unit) (line : option (list Z)) : list (list Z) :=
  match res with Ok _ => option_list line | _ => [] end.

Definition op_line (op : logger_op) : option (list Z) :=
  match op with
  | OpLog now_ms level component message kvs => format_json (S LOG_MAX_ENTRY_BYTES_DEFAULT) now_ms level component message kvs
  | OpFlush _ _ => None
  end.

Definition logger_step (op : logger_op) (l : logger) : result unit * logger :=
  match op with
  | OpLog now_ms level component message kvs => log_write_kv now_ms [] level component message kvs l
  | OpFlush written now => (Ok tt, lg_set_ring (fst (ring_step (ActConsumer written now) (lg_ring l))) l)
  end.

Fixpoint logger_run (ops : list logger_op) (l : logger) (lines : list (list Z)) : logger * list (list Z) :=
  match ops with
  | [] => (l, lines)
  | op :: ops =>
      let '(res, l') := logger_step op l in logger_run ops l' (lines ++ accepted_line res (op_line op))
  end.

(** An asynchronous logger between two calls, with the lines it has accepted. *)
Record quiet_logger (l : logger) (lines : list (list Z)) : Prop := QuietLogger {
  ql_mode : lg_mode l = LOG_MODE_ASYNC;
  ql_thread : lg_flush_thread_started l = true;
  ql_rest : at_rest (lg_ring l) lines;
  ql_spin : spin_ok (rg_consumer (lg_ring l));
  ql_running : rg_shutdown (lg_ring l) = false;
  ql_loop : match rg_consumer (lg_ring l) with CoExit | CoHead true => False | _ => True end
}.

Lemma at_rest_smooth r lines : at_rest r lines → smooth r = true.
Proof.
  intros (I & Hret & Hc). unfold smooth. apply andb_true_intro. split.
  - rewrite forallb_forall in *. intros p Hp. specialize (Hret p Hp). by destruct p.
  - pose proof (fi_consumer _ _ I). by destruct (rg_consumer r).
Qed.

Lemma at_rest_flush_inv r lines : at_rest r lines → spin_ok (rg_consumer r) → flush_inv r.
Proof.
  intros (I & _ & Hc) Hs. pose proof (fi_tail _ _ I) as Ht. pose proof (fi_room _ _ I). pose proof (written_freed r).
  pose proof (fi_consumer _ _ I) as Hf.
  split; [unfold is_u64; lia|]. split; [unfold is_u64; lia|]. split; [done|].
  destruct (rg_consumer r) eqn:E; try done; unfold written_upto in Ht; rewrite E in Ht; lia.
Qed.

Lemma spin_ok_turn written now r : spin_ok (rg_consumer r) → spin_ok (rg_consumer (consumer_turn written now r)).
Proof.
  intros H. unfold consumer_turn. destruct (rg_consumer r) as [|sd|spin|spin| | | | | |] eqn:E;
    cbn [spin_ok] in *; try done.
  - destruct (_ =? _); [by destruct sd|]. cbn; lia.
  - by destruct (sl_state _).
  - destruct (_ && _); [done|]. cbn [rg_consumer rg_set_consumer spin_ok]. apply (u32_range (spin + 1)).
  - rewrite E. done.
Qed.

(** ** A call *)

(** The flush thread and its settings are as they were; only the ring's entries change. *)
Definition only_ring_grows (l l' : logger) : Prop :=
  l' = lg_set_ring (lg_ring l') l ∧ rg_consumer (lg_ring l') = rg_consumer (lg_ring l)
  ∧ rg_shutdown (lg_ring l') = rg_shutdown (lg_ring l) ∧ rg_tail (lg_ring l') = rg_tail (lg_ring l)
  ∧ rg_out (lg_ring l') = rg_out (lg_ring l).

(** What a call does to the ring, by whether it finds room. *)
Lemma ring_write_spec (r : ring) (lines : list (list Z)) (data : list Z) :
  at_rest r lines → rg_consumer r ≠ CoExit → rg_head r + 1 < 2 ^ 64 →
  let room := rg_head r - rg_tail r <? capacity r in
  let r' := fst (ring_write data r) in
  snd (ring_write data r) = room
  ∧ at_rest r' (lines ++ if room then [data] else [])
  ∧ rg_consumer r' = rg_consumer r ∧ rg_shutdown r' = rg_shutdown r ∧ rg_tail r' = rg_tail r
  ∧ rg_drops r' = (if room then rg_drops r else u64 (rg_drops r + 1)).
Proof.
  intros HR Hex Hroom room. pose proof (at_rest_smooth r lines HR) as Hs. pose proof HR as (I & Hret & Hc).
  assert (Hcall : ∀ r1 b cs, turns_alone 70 (PrStart data) r = (r1, PrDone data b, cs) →
    unmarked 70 (PrStart data) r = true → rg_consumer r1 = rg_consumer r →
    (Z.of_nat (length (lines ++ cs)) < 2 ^ 64) →
    ring_write data r = (rg_set_producers (rg_producers r ++ [PrDone data b]) r1, b)
    ∧ fifo_inv (rg_set_producers (rg_producers r ++ [PrDone data b]) r1) (lines ++ cs)).
  { intros r1 b cs Ht Hu Hco Hlen. destruct (call_run data r lines r1 b cs Ht Hu Hs) as [Hsr Hrun].
    pose proof (run_fifo (call_actions data r) r lines I Hsr) as HI. rewrite Hrun in HI. split; [|by apply HI].
    unfold ring_write. destruct (call_run data r [] r1 b cs Ht Hu Hs) as [_ ->]. cbn [fst rg_producers rg_set_producers].
    by rewrite list_lookup_middle. }
  assert (Hret' : ∀ b, forallb returned (rg_producers r ++ [PrDone data b]) = true) by (intros; by rewrite forallb_app, Hret).
  subst room. pose proof (fi_head _ _ I) as Hh. destruct (Z.ltb_spec (rg_head r - rg_tail r) (capacity r)) as [Hlt|Hge].
  - destruct (turns_room r lines data I Hroom Hlt) as [Ht Hu].
    destruct (Hcall _ _ _ Ht Hu eq_refl) as [-> HI]; [rewrite length_app; cbn; lia|].
    split; [done|]. split; [|done]. split; [done|]. split; [apply Hret'|].
    cbn. by destruct (rg_consumer r).
  - destruct (turns_full r lines data I Hge) as [Ht Hu].
    destruct (Hcall _ _ _ Ht Hu eq_refl) as [-> HI]; [rewrite app_nil_r; lia|].
    split; [done|]. split; [|done]. split; [done|]. split; [apply Hret'|]. cbn. by destruct (rg_consumer r).
Qed.

Lemma producers_out (n j : nat) (r : ring) (claims : list (list Z)) :
  rg_out (fst (ring_run (replicate n (ActProducer j)) r claims)) = rg_out r.
Proof.
  revert r claims. induction n as [|n IH]; intros r claims; [done|]. cbn [replicate ring_run].
  destruct (ring_step (ActProducer j) r) as [r' c] eqn:E. rewrite IH. unfold ring_step in E.
  destruct (rg_producers r !! j) as [p|]; [|by injection E as <- _].
  destruct (producer_turn p r) as [[r1 p1] c1] eqn:Et. injection E as <- _. cbn.
  unfold producer_turn in Et. destruct p; repeat case_match; by injection Et as <- _.
Qed.

Lemma ring_write_out (data : list Z) (r : ring) : rg_out (fst (ring_write data r)) = rg_out r.
Proof. unfold ring_write, call_actions. cbn [fst ring_run ring_step]. by rewrite producers_out. Qed.

(** C30: What a call to an asynchronous logger does, on every branch, while no other call
    runs: an entry that is too long is counted and
    nothing is stored; one that finds the ring full is counted and refused; any other is
    accepted and stored behind those already there; the flush thread and what it has
    written are not disturbed. *)
Theorem log_write_kv_outcome (l : logger) (lines : list (list Z)) (now_ms : Z) (ns : list Z) (level : log_level)
    (component message : option (list Z)) (kvs : list log_kv) :
  quiet_logger l lines → rg_head (lg_ring l) + 1 < 2 ^ 64 →
  let '(res, l') := log_write_kv now_ms ns level component message kvs l in
  match format_json (S LOG_MAX_ENTRY_BYTES_DEFAULT) now_ms level component message kvs with
  | Some line =>
      if Z.of_nat (length line) >? lg_max_entry_bytes l then
        res = Err DISTRIC_ERR_BUFFER_OVERFLOW ∧ l' = lg_set_oversized (u64 (lg_oversized_drops l + 1)) l
      else if rg_head (lg_ring l) - rg_tail (lg_ring l) <? capacity (lg_ring l) then
        res = Ok tt ∧ quiet_logger l' (lines ++ [line]) ∧ only_ring_grows l l'
        ∧ rg_drops (lg_ring l') = rg_drops (lg_ring l)
      else
        res = Err DISTRIC_ERR_BUFFER_OVERFLOW ∧ quiet_logger l' lines ∧ only_ring_grows l l'
        ∧ rg_drops (lg_ring l') = u64 (rg_drops (lg_ring l) + 1)
  | None => res = Err DISTRIC_ERR_BUFFER_OVERFLOW ∧ l' = lg_set_oversized (u64 (lg_oversized_drops l + 1)) l
  end.
Proof.
  intros [Hmode Hth HR Hsp Hsd Hloop] Hroom. unfold log_write_kv. rewrite Hsd. unfold format_and_dispatch.
  destruct (format_json _ now_ms level component message kvs) as [line|]; [|done].
  destruct (_ >? _); [done|]. rewrite Hmode.
  assert (Hex : rg_consumer (lg_ring l) ≠ CoExit) by (intros E; by rewrite E in Hloop).
  pose proof (ring_write_spec (lg_ring l) lines line HR Hex Hroom) as (H1 & H2 & H3 & H4 & H5 & H6).
  pose proof (ring_write_out line (lg_ring l)) as H7.
  destruct (ring_write line (lg_ring l)) as [r b]. cbn [fst snd] in *. subst b.
  destruct (_ <? _); (split; [done|]); (split; [|by split]); rewrite ?app_nil_r in H2;
    (split; cbn [lg_ring lg_set_ring lg_mode lg_flush_thread_started]; [done|done|done|by rewrite H3|by rewrite H4|by rewrite H3]).
Qed.

(** ** From the first call to the end *)

Lemma quiet_flush (l : logger) (lines : list (list Z)) (written : nat) (now : Z) :
  quiet_logger l lines → quiet_logger (lg_set_ring (consumer_turn written now (lg_ring l)) l) lines.
Proof.
  intros [Hmode Hth HR Hsp Hsd Hloop]. split; cbn [lg_ring lg_set_ring lg_mode lg_flush_thread_started]; try done.
  - by apply at_rest_turn.
  - by apply spin_ok_turn.
  - by rewrite shutdown_stays.
  - unfold consumer_turn. destruct (rg_consumer (lg_ring l)) as [|[]|spin|spin| | | | | |] eqn:E; try done.
    + cbn. by rewrite Hsd.
    + by destruct (_ =? _).
    + by destruct (sl_state _).
    + by destruct (_ && _).
Qed.

Lemma quiet_logger_step (op : logger_op) (l : logger) (lines : list (list Z)) :
  quiet_logger l lines → rg_head (lg_ring l) + 1 < 2 ^ 64 →
  quiet_logger (snd (logger_step op l)) (lines ++ accepted_line (fst (logger_step op l)) (op_line op)).
Proof.
  intros HQ Hroom. destruct op as [now_ms level component message kvs|written now]; cbn [logger_step op_line fst snd].
  2: { rewrite app_nil_r. by apply quiet_flush. }
  pose proof HQ as [Hmode Hth HR Hsp Hsd Hloop]. unfold log_write_kv. rewrite Hsd. unfold format_and_dispatch.
  assert (Hov : quiet_logger (count_oversized l) (lines ++ [])) by (rewrite app_nil_r; by split).
  destruct (format_json _ now_ms level component message kvs) as [line|]; [|done].
  destruct (_ >? _); [done|]. rewrite Hmode.
  assert (Hex : rg_consumer (lg_ring l) ≠ CoExit) by (intros E; by rewrite E in Hloop).
  pose proof (ring_write_spec (lg_ring l) lines line HR Hex Hroom) as (H1 & H2 & H3 & H4 & _).
  destruct (ring_write line (lg_ring l)) as [r b]. cbn [fst snd] in *. subst b.
  destruct (_ <? _); cbn [fst snd accepted_line option_list];
    (split; cbn [lg_ring lg_set_ring lg_mode lg_flush_thread_started]; [done|done|done|by rewrite H3|by rewrite H4|by rewrite H3]).
Qed.

Lemma quiet_run (ops : list logger_op) (l : logger) (lines : list (list Z)) :
  quiet_logger l lines → Z.of_nat (length lines + length ops) < 2 ^ 64 →
  quiet_logger (fst (logger_run ops l lines)) (snd (logger_run ops l lines))
  ∧ (length (snd (logger_run ops l lines)) ≤ length lines + length ops)%nat.
Proof.
  revert l lines. induction ops as [|op ops IH]; intros l lines HQ Hlen; cbn [logger_run].
  - split; [done|cbn; lia].
  - pose proof (fi_head _ _ (proj1 (ql_rest _ _ HQ))). cbn [length] in Hlen.
    pose proof (quiet_logger_step op l lines HQ ltac:(lia)) as HS.
    destruct (logger_step op l) as [res l'] eqn:E. cbn [fst snd] in HS.
    assert (Hl : (length (accepted_line res (op_line op)) ≤ 1)%nat) by (destruct res as [| |], (op_line op); cbn; lia).
    destruct (IH _ _ HS) as [H1 H2]; rewrite length_app in *; [lia|]. split; [done|]. cbn [length]. lia.
Qed.

Lemma new_logger_quiet (fuel : nat) (c : logging_config) (env : log_env) (l : logger) :
  cfg_mode c = LOG_MODE_ASYNC → 0 ≤ cfg_ring_buffer_capacity c ≤ 2 ^ 63 → (63 ≤ fuel)%nat →
  log_init_with_config fuel (Some c) env = Some (Ok l) → quiet_logger l [].
Proof.
  intros Hm Hc Hf. unfold log_init_with_config. destruct (_ <? 0); [done|]. destruct (le_calloc env); [|done].
  cbn [negb]. destruct (le_mutex env); [|done]. cbn [negb]. rewrite Hm.
  destruct (ring_capacity_power (cfg_ring_buffer_capacity c) fuel Hc Hf) as (k & Hk & -> & _). cbn [mbind option_bind].
  destruct (le_slots env); [|done]. destruct (le_thread env); [|done]. cbn [negb]. intros [= <-].
  split; cbn [lg_mode lg_ring lg_flush_thread_started]; try done.
  split; [|done]. apply new_ring_inv. lia.
Qed.

(** The destruction of a logger at rest. *)
Lemma destroy_quiet (l : logger) (lines : list (list Z)) (n written : nat) (now : Z) :
  quiet_logger l lines → (2060 * (length lines + 2) ≤ n)%nat →
  let r := consumer_turns n written now (rg_set_shutdown true (lg_ring l)) in
  log_destroy n written now l = Some (rg_out r) ∧ fst <$> rg_out r = copied <$> lines.
Proof.
  intros [Hmode Hth HR Hsp Hsd Hloop] Hn. unfold log_destroy. rewrite Hmode, Hth. cbn [ring_step fst].
  set (r := rg_set_shutdown true (lg_ring l)).
  assert (HR' : at_rest r lines) by (destruct HR as (HI & ? & ?); split; [by destruct HI|done]).
  destruct (at_rest_exits n written now r lines HR') as [-> Ho]; [by eapply at_rest_flush_inv|done| |done].
  etransitivity; [by eapply flush_rank_le, at_rest_flush_inv|]. pose proof (fi_head _ _ (proj1 HR')). pose proof (fi_tail _ _ (proj1 HR')).
  pose proof (written_freed r). pose proof (fi_room _ _ (proj1 HR')). rewrite u64_id by (unfold is_u64; lia). lia.
Qed.

(** ** The bytes that reach the descriptor *)

(** What the calls of [write] put out: of each entry as much as its loop reached. *)
Definition descriptor_bytes (out : list (list Z * nat)) : list Z := mjoin ((λ e, take e.2 e.1) <$> out).

(** No loop of [write] ends early: each reaches the size of a slot. *)
Definition writes_all (op : logger_op) : Prop :=
  match op with OpFlush written _ => (LOG_MAX_ENTRY_BYTES_DEFAULT ≤ written)%nat | OpLog _ _ _ _ _ => True end.

Definition whole_out (r : ring) : Prop :=
  Forall (λ e : list Z * nat, (length e.1 ≤ LOG_MAX_ENTRY_BYTES_DEFAULT)%nat → e.2 = length e.1) (rg_out r).

Lemma whole_call (data : list Z) (r : ring) : whole_out r → whole_out (fst (ring_write data r)).
Proof. unfold whole_out. by rewrite ring_write_out. Qed.

Lemma whole_turn (written : nat) (now : Z) (r : ring) :
  (LOG_MAX_ENTRY_BYTES_DEFAULT ≤ written)%nat → whole_out r → whole_out (consumer_turn written now r).
Proof.
  intros Hw H. unfold consumer_turn. destruct (rg_consumer r); repeat case_match; try exact H.
  unfold whole_out. cbn [rg_out rg_set_out]. apply Forall_app_2; [exact H|]. constructor; [|done].
  cbn [fst snd]. lia.
Qed.

Lemma whole_turns (n written : nat) (now : Z) (r : ring) :
  (LOG_MAX_ENTRY_BYTES_DEFAULT ≤ written)%nat → whole_out r → whole_out (consumer_turns n written now r).
Proof. intros Hw. revert r. induction n as [|n IH]; intros r H; cbn [consumer_turns]; [done|]. by apply IH, whole_turn. Qed.

Lemma whole_step (op : logger_op) (l : logger) :
  writes_all op → whole_out (lg_ring l) → whole_out (lg_ring (snd (logger_step op l))).
Proof.
  destruct op as [now_ms level component message kvs|written now]; cbn [writes_all logger_step]; intros Hop H.
  - unfold log_write_kv, format_and_dispatch. destruct (rg_shutdown _); [done|]. destruct (format_json _ _ _ _ _ _) as [line|]; [|done].
    destruct (_ >? _); [done|]. destruct (lg_mode l); [done|]. pose proof (whole_call line _ H) as Hc.
    by destruct (ring_write line (lg_ring l)).
  - by apply whole_turn.
Qed.

Lemma whole_run (ops : list logger_op) (l : logger) (lines : list (list Z)) :
  Forall writes_all ops → whole_out (lg_ring l) → whole_out (lg_ring (fst (logger_run ops l lines))).
Proof.
  intros Hops. revert l lines. induction Hops as [|op ops Hop _ IH]; intros l lines H; cbn [logger_run]; [done|].
  pose proof (whole_step op l Hop H) as Hs. destruct (logger_step op l) as [res l']. by apply IH.
Qed.

Lemma new_logger_out (fuel : nat) (config : option logging_config) (env : log_env) (l : logger) :
  log_init_with_config fuel config env = Some (Ok l) → rg_out (lg_ring l) = [].
Proof.
  unfold log_init_with_config. intros H. destruct config as [c|]; [|done]. destruct (cfg_mode c) eqn:Em.
  - by repeat case_match; simplify_eq.
  - destruct (_ <? 0); [done|]. destruct (negb _); [done|]. destruct (negb _); [done|].
    destruct (ring_capacity _ _) as [cap|]; [|done]. cbn in H. by repeat case_match; simplify_eq.
Qed.

Lemma copied_length (data : list Z) : (length (copied data) ≤ LOG_MAX_ENTRY_BYTES_DEFAULT)%nat.
Proof.
  unfold copied. destruct (Nat.ltb_spec (length data) LOG_MAX_ENTRY_BYTES_DEFAULT); [lia|]. rewrite length_take. lia.
Qed.

Lemma copied_whole (lines : list (list Z)) :
  Forall (λ line, (length line < LOG_MAX_ENTRY_BYTES_DEFAULT)%nat) lines → copied <$> lines = lines.
Proof.
  induction 1 as [|line lines Hl _ IH]; [done|]. cbn [fmap list_fmap]. rewrite IH. unfold copied.
  by destruct (Nat.ltb_spec (length line) LOG_MAX_ENTRY_BYTES_DEFAULT); [|lia].
Qed.

Lemma descriptor_whole (out : list (list Z * nat)) (lines : list (list Z)) :
  Forall (λ e : list Z * nat, (length e.1 ≤ LOG_MAX_ENTRY_BYTES_DEFAULT)%nat → e.2 = length e.1) out →
  fst <$> out = copied <$> lines → descriptor_bytes out = mjoin (copied <$> lines).
Proof.
  revert lines. induction out as [|[data n] out IH]; intros [|line lines] Hw E; try done.
  injection E as E1 E2. inversion Hw as [|? ? Hn Hw']; subst. cbn [fst snd] in *.
  unfold descriptor_bytes in *. cbn [fmap list_fmap mjoin list_join fst snd]. rewrite Hn by apply copied_length.
  rewrite firstn_all. f_equal. by apply IH.
Qed.

(** C33: nothing that was accepted is lost: an asynchronous logger that is created, called
    and destroyed has written the lines of the calls that returned [DISTRIC_OK], in the
    order of the calls, and the destruction ends; the bytes that reach the descriptor are
    exactly those lines, the last byte cut off a line of 4096 ([copied]), the longest there
    is.  The calls come one at a time, with any number of steps of the flush thread between
    them, and no call of [write] fails. *)
Theorem logger_writes_accepted (fuel n : nat) (c : logging_config) (env : log_env) (l l' : logger) (ops : list logger_op)
    (lines : list (list Z)) (written : nat) (now : Z) :
  cfg_mode c = LOG_MODE_ASYNC → 0 ≤ cfg_ring_buffer_capacity c ≤ 2 ^ 63 → (63 ≤ fuel)%nat →
  log_init_with_config fuel (Some c) env = Some (Ok l) →
  Z.of_nat (length ops) < 2 ^ 64 → logger_run ops l [] = (l', lines) → (2060 * (length ops + 2) ≤ n)%nat →
  Forall writes_all ops → (LOG_MAX_ENTRY_BYTES_DEFAULT ≤ written)%nat →
  ∃ out, log_destroy n written now l' = Some out ∧ fst <$> out = copied <$> lines
    ∧ descriptor_bytes out = mjoin (copied <$> lines)
    ∧ (Forall (λ line, (length line < LOG_MAX_ENTRY_BYTES_DEFAULT)%nat) lines → descriptor_bytes out = mjoin lines).
Proof.
  intros Hm Hc Hf Hi Hops Hrun Hn Hall Hw.
  destruct (quiet_run ops l [] (new_logger_quiet fuel c env l Hm Hc Hf Hi) Hops) as [HQ Hlen].
  assert (Hwhole : whole_out (lg_ring l')).
  { replace l' with (fst (logger_run ops l [])) by (by rewrite Hrun). apply whole_run; [done|].
    unfold whole_out. by rewrite (new_logger_out fuel (Some c) env). }
  rewrite Hrun in HQ, Hlen. cbn [fst snd length] in HQ, Hlen.
  destruct (destroy_quiet l' lines n written now HQ) as [Hd Ho]; [lia|].
  pose proof (whole_turns n written now (rg_set_shutdown true (lg_ring l')) Hw Hwhole) as Hwh.
  eexists. split; [exact Hd|]. split; [exact Ho|]. pose proof (descriptor_whole _ _ Hwh Ho) as Hb.
  split; [exact Hb|]. intros Hshort. by rewrite Hb, copied_whole.
Qed.

(** ** Examples *)

Definition example_ops : list logger_op :=
  [OpFlush 4096 0;
   OpLog 1000 LOG_LEVEL_INFO (Some (str "raft")) (Some (str "elected")) [LogKv (Some (str "term")) (Some (str "3"))];
   OpFlush 4096 5; OpFlush 4096 5;
   OpLog 1001 LOG_LEVEL_WARN (Some (str "rpc")) None [];
   OpFlush 4096 6; OpFlush 4096 6;
   OpLog 1002 LOG_LEVEL_ERROR None (Some (str "late")) []].

Definition small_config : logging_config := LoggingConfig 1 LOG_MODE_ASYNC 2 0.
Definition all_fine : log_env := LogEnv true true true true.
Definition small_logger : logger := Logger 1 LOG_MODE_ASYNC 4096 (new_ring 2) true 1 0 [] no_metrics false.

(** The third call finds the ring of two slots full: the descriptor gets the lines of the
    first two. *)
Lemma logger_writes_accepted_witness :
  let lines := omap op_line (take 5 example_ops) in
  ∃ out, log_destroy 30000 4096 9 (fst (logger_run example_ops small_logger [])) = Some out
    ∧ fst <$> out = copied <$> lines ∧ descriptor_bytes out = mjoin (copied <$> lines)
    ∧ (Forall (λ line, (length line < LOG_MAX_ENTRY_BYTES_DEFAULT)%nat) lines → descriptor_bytes out = mjoin lines).
Proof.
  apply (logger_writes_accepted 64 30000 small_config all_fine small_logger _ example_ops);
    [done|vm_compute; split; congruence|lia|by vm_compute|by vm_compute|by vm_compute|apply Nat.leb_le; by vm_compute| |done].
  repeat constructor.
Defined.

Lemma small_logger_quiet : quiet_logger small_logger [].
Proof. by apply (new_logger_quiet 64 small_config all_fine); [|vm_compute; split; congruence|lia|vm_compute]. Qed.

Lemma log_write_kv_outcome_witness :
  let '(res, l') := log_write_kv 1000 [] LOG_LEVEL_INFO (Some (str "c")) None [] small_logger in
  match format_json (S LOG_MAX_ENTRY_BYTES_DEFAULT) 1000 LOG_LEVEL_INFO (Some (str "c")) None [] with
  | Some line =>
      if Z.of_nat (length line) >? lg_max_entry_bytes small_logger then
        res = Err DISTRIC_ERR_BUFFER_OVERFLOW
        ∧ l' = lg_set_oversized (u64 (lg_oversized_drops small_logger + 1)) small_logger
      else if rg_head (lg_ring small_logger) - rg_tail (lg_ring small_logger) <? capacity (lg_ring small_logger) then
        res = Ok tt ∧ quiet_logger l' ([] ++ [line]) ∧ only_ring_grows small_logger l' ∧ rg_drops (lg_ring l') = rg_drops (lg_ring small_logger)
      else
        res = Err DISTRIC_ERR_BUFFER_OVERFLOW ∧ quiet_logger l' [] ∧ only_ring_grows small_logger l'
        ∧ rg_drops (lg_ring l') = u64 (rg_drops (lg_ring small_logger) + 1)
  | None =>
      res = Err DISTRIC_ERR_BUFFER_OVERFLOW
      ∧ l' = lg_set_oversized (u64 (lg_oversized_drops small_logger + 1)) small_logger
  end.
Proof. exact (log_write_kv_outcome small_logger [] 1000 [] LOG_LEVEL_INFO (Some (str "c")) None [] small_logger_quiet eq_refl). Defined.

(** ** What failed registrations leave *)

(** [log_register_metrics] does not look at the registrations' answers: on a frozen
    registry it succeeds with no metric at all, and says so from then on. *)
Theorem register_failure_silent (env : nat → register_env) (l : logger) (reg : metrics_registry) :
  mr_state reg = REGISTRY_STATE_FROZEN → 1 ≤ mr_cardinality_cap reg → lg_metrics_registered l = false →
  log_register_metrics env l reg = Ok (lg_set_metrics no_metrics l, reg).
Proof.
  intros Hst Hcap Hreg.
  assert (H : ∀ name help e, register_handle name help e reg = (None, reg)).
  { intros. unfold register_handle, metrics_register_gauge, register_metric. cbn [Nat.ltb Nat.leb length Nat.eqb negb].
    change (DISTRIC_MAX_METRIC_LABELS <? 0)%nat with false. cbn iota.
    change (compute_cardinality []) with 1. cbn [Z.eqb andb].
    destruct (Z.gtb_spec 1 (mr_cardinality_cap reg)); [lia|]. by rewrite Hst. }
  unfold log_register_metrics. rewrite Hreg, !H. cbn. by destruct (lg_flush_thread_started l).
Qed.

Lemma register_failure_silent_witness :
  log_register_metrics (λ _, all_ok) small_logger (metrics_freeze example_metrics)
  = Ok (lg_set_metrics no_metrics small_logger, metrics_freeze example_metrics).
Proof. apply register_failure_silent; [done|by vm_compute|done]. Defined.

(** A pair beyond the sixteenth is left out without an error. *)
Lemma pairs_beyond_sixteen (args : list (option (list Z))) (kvs : list log_kv) :
  collect_pairs DISTRIC_MAX_SPAN_TAGS args = Ok kvs → (length kvs ≤ 16)%nat.
Proof.
  unfold DISTRIC_MAX_SPAN_TAGS. generalize 16%nat as n. intros n. revert args kvs.
  induction n as [|n IH]; intros args kvs; cbn; [intros [= <-]; done|].
  destruct args as [|[key|] [|val args]]; try done; try (intros [= <-]; cbn; lia).
  destruct (collect_pairs n args) as [kvs'| |] eqn:E; cbn; try done. intros [= <-]. apply IH in E. cbn. lia.
Qed.
