(* ===== verification/Health.v ===== *)
(** * Health (libs/distric_obs/src/health.c)

    A registry of components with a status and a message each; the overall status is the
    worst of them, and the export is written into a buffer of estimated size. *)

From Stdlib Require Import ZArith Lia String.
From stdpp Require Import base list numbers option.
From S2P Require Import Prelude CString MetricLabels Metrics MetricsExport LogFormat.

Local Open Scope Z_scope.

Definition MAX_HEALTH_COMPONENTS : nat := 64.
Definition MAX_COMPONENT_NAME_LEN : nat := 64.
Definition MAX_HEALTH_MESSAGE_LEN : nat := 256.

(** [health_status_t], kept as the integer that is stored. *)
Definition HEALTH_UP : Z := 0.
Definition HEALTH_DEGRADED : Z := 1.
Definition HEALTH_DOWN : Z := 2.

Definition health_status_str (status : Z) : list Z :=
  if status =? HEALTH_UP then str "UP"
  else if status =? HEALTH_DEGRADED then str "DEGRADED"
  else if status =? HEALTH_DOWN then str "DOWN"
  else str "UNKNOWN".

Record health_component := HealthComponent {
  hc_name : list Z;
  hc_status : Z;                 (* _Atomic int *)
  hc_message : list Z;
  hc_last_check_time_ms : Z
}.

(** The first [component_count] entries of the array; these are active. *)
Record health_registry := HealthRegistry { hr_components : list health_component }.

Definition health_init (calloc_ok mutex_ok : bool) : result health_registry :=
  if negb calloc_ok then Err DISTRIC_ERR_ALLOC_FAILURE
  else if negb mutex_ok then Err DISTRIC_ERR_INIT_FAILED
  else Ok (HealthRegistry []).

(** [strncmp (a, b, MAX_COMPONENT_NAME_LEN) == 0] for C strings. *)
Definition same_name (a b : list Z) : bool :=
  bool_decide (take MAX_COMPONENT_NAME_LEN a = take MAX_COMPONENT_NAME_LEN b).

Fixpoint find_component (name : list Z) (cs : list health_component) (i : nat) : option nat :=
  match cs with
  | [] => None
  | c :: cs => if same_name (hc_name c) name then Some i else find_component name cs (S i)
  end.

Definition health_register_component (r : health_registry) (name : list Z) (now_ms : Z) : result nat * health_registry :=
  match find_component name (hr_components r) 0 with
  | Some i => (Ok i, r)
  | None =>
      let idx := length (hr_components r) in
      if (MAX_HEALTH_COMPONENTS <=? idx)%nat then (Err DISTRIC_ERR_REGISTRY_FULL, r)
      else
        let c := HealthComponent (strncpy (MAX_COMPONENT_NAME_LEN - 1) name) HEALTH_UP [] now_ms in
        (Ok idx, HealthRegistry (hr_components r ++ [c]))
  end.

(** The component is given by its position; [None] for a message that is [NULL]. *)
Definition health_update_status (r : health_registry) (i : nat) (status : Z) (message : option (list Z)) (now_ms : Z) :
    result health_registry :=
  match hr_components r !! i with
  | None => Fault
  | Some c =>
      let m := match message with Some m => strncpy (MAX_HEALTH_MESSAGE_LEN - 1) m | None => hc_message c end in
      Ok (HealthRegistry (<[i := HealthComponent (hc_name c) status m now_ms]> (hr_components r)))
  end.

Definition worse (worst : Z) (c : health_component) : Z := if hc_status c >? worst then hc_status c else worst.

Definition health_get_overall_status (r : option health_registry) : Z :=
  match r with
  | None => HEALTH_DOWN
  | Some r => foldl worse HEALTH_UP (hr_components r)
  end.

(** ** The export *)

Definition component_text (i : nat) (c : health_component) : list Z :=
  (if (i =? 0)%nat then [] else str ",") ++ str "{" ++
  member "name" ++ [QUOTE] ++ hc_name c ++ [QUOTE] ++ str "," ++
  member "status" ++ [QUOTE] ++ health_status_str (hc_status c) ++ [QUOTE] ++ str "," ++
  member "message" ++ [QUOTE] ++ strncpy (MAX_HEALTH_MESSAGE_LEN - 1) (hc_message c) ++ [QUOTE] ++ str "," ++
  member "last_check_ms" ++ decimal64 (hc_last_check_time_ms c) ++ str "}".

(** The writes of [JAPPEND], in order. *)
Definition export_texts (r : health_registry) : list (list Z) :=
  [str "{" ++ member "status" ++ [QUOTE] ++ health_status_str (health_get_overall_status (Some r)) ++ [QUOTE] ++ str "," ++
   member "components" ++ str "["] ++
  imap component_text (hr_components r) ++ [str "]}"].

Definition json_size (n : nat) : Z :=
  256 + Z.of_nat n * (Z.of_nat MAX_COMPONENT_NAME_LEN + Z.of_nat MAX_HEALTH_MESSAGE_LEN + 128).

Definition health_export_json (r : health_registry) (malloc_ok : bool) : result (list (option Z)) :=
  if negb malloc_ok then Err DISTRIC_ERR_NO_MEMORY
  else
    b ← run_ops true (Print <$> export_texts r) (OutBuffer [] 0 (json_size (length (hr_components r))));
    Ok (content b).

(** ** Well-formed registries *)

Record component_wf (c : health_component) : Prop := {
  cw_name : (length (hc_name c) < MAX_COMPONENT_NAME_LEN)%nat;
  cw_message : (length (hc_message c) < MAX_HEALTH_MESSAGE_LEN)%nat;
  cw_time : is_u64 (hc_last_check_time_ms c)
}.

Definition health_wf (r : health_registry) : Prop :=
  (length (hr_components r) ≤ MAX_HEALTH_COMPONENTS)%nat ∧ Forall component_wf (hr_components r).

Lemma strncpy_short n s : (length (strncpy n s) ≤ n)%nat.
Proof. unfold strncpy. rewrite length_take. lia. Qed.

(** The operations on a registry. *)
Inductive health_op :=
  | HealthRegister (name : list Z) (now_ms : Z)
  | HealthUpdate (i : nat) (status : Z) (message : option (list Z)) (now_ms : Z).

Definition health_op_ok (op : health_op) : Prop :=
  match op with HealthRegister _ now | HealthUpdate _ _ _ now => is_u64 now end.

Definition health_step (op : health_op) (r : health_registry) : result health_registry :=
  match op with
  | HealthRegister name now => Ok (snd (health_register_component r name now))
  | HealthUpdate i status message now => health_update_status r i status message now
  end.

Fixpoint health_run (ops : list health_op) (r : health_registry) : result health_registry :=
  match ops with
  | [] => Ok r
  | op :: ops => r ← health_step op r; health_run ops r
  end.

Lemma health_step_wf op r r' : health_wf r → health_op_ok op → health_step op r = Ok r' → health_wf r'.
Proof.
  intros [Hl Hf] Hop. destruct op as [name now|i status message now]; cbn [health_step].
  - intros [= <-]. unfold health_register_component. destruct (find_component name (hr_components r) 0); [done|].
    destruct (Nat.leb_spec MAX_HEALTH_COMPONENTS (length (hr_components r))); [done|]. cbn [snd hr_components].
    split; cbn [hr_components]; [rewrite length_app; cbn; lia|]. apply Forall_app. split; [done|]. constructor; [|constructor].
    split; cbn [hc_name hc_message hc_last_check_time_ms length]; [|unfold MAX_HEALTH_MESSAGE_LEN; lia|done].
    pose proof (strncpy_short (MAX_COMPONENT_NAME_LEN - 1) name). unfold MAX_COMPONENT_NAME_LEN in *. lia.
  - unfold health_update_status. destruct (hr_components r !! i) as [c|] eqn:E; [|done]. intros [= <-].
    pose proof (Forall_lookup_1 _ _ _ _ Hf E) as [H1 H2 H3]. split; cbn [hr_components]; [by rewrite length_insert|].
    apply Forall_insert; [done|]. split; cbn [hc_name hc_message hc_last_check_time_ms]; [done| |done].
    destruct message as [m|]; [|done].
    pose proof (strncpy_short 255 m). unfold MAX_HEALTH_MESSAGE_LEN. lia.
Qed.

Lemma health_run_wf ops r r' : health_wf r → Forall health_op_ok ops → health_run ops r = Ok r' → health_wf r'.
Proof.
  revert r. induction ops as [|op ops IH]; cbn; intros r Hr Hops; [by intros [= <-]|].
  apply Forall_cons_1 in Hops as [Hop Hops].
  destruct (health_step op r) as [r1| |] eqn:E; cbn; try done. apply IH; [by eapply health_step_wf|done].
Qed.

(** ** The overall status *)

Lemma worst_fold (cs : list health_component) (w : Z) :
  w ≤ foldl worse w cs ∧ Forall (λ c, hc_status c ≤ foldl worse w cs) cs
  ∧ (foldl worse w cs = w ∨ ∃ c, c ∈ cs ∧ foldl worse w cs = hc_status c).
Proof.
  revert w. induction cs as [|c cs IH]; intros w; cbn [foldl]; [split; [lia|]; split; [constructor|by left]|].
  destruct (IH (worse w c)) as (H1 & H2 & H3).
  assert (Hw : w ≤ worse w c ∧ hc_status c ≤ worse w c ∧ (worse w c = w ∨ worse w c = hc_status c))
    by (unfold worse; destruct (Z.gtb_spec (hc_status c) w); lia).
  split; [lia|]. split; [apply List.Forall_cons; [lia|done]|].
  destruct H3 as [->|(c' & Hc & ->)].
  - destruct Hw as (_ & _ & [->| ->]); [by left|]. right. exists c. split; [left|done].
  - right. exists c'. split; [by right|done].
Qed.

(** The overall status is the worst status of a component, and UP when there is none worse. *)
Lemma overall_is_worst (r : health_registry) :
  let s := health_get_overall_status (Some r) in
  HEALTH_UP ≤ s ∧ Forall (λ c, hc_status c ≤ s) (hr_components r)
  ∧ (s = HEALTH_UP ∨ ∃ c, c ∈ hr_components r ∧ s = hc_status c).
Proof. apply worst_fold. Qed.

(** ** The export fits *)

Lemma status_length s : (length (health_status_str s) ≤ 8)%nat.
Proof. unfold health_status_str. repeat case_match; cbn; lia. Qed.

Lemma component_text_length i c : component_wf c → Z.of_nat (length (component_text i c)) ≤ 448.
Proof.
  intros [H1 H2 H3]. unfold component_text. rewrite !length_app.
  pose proof (status_length (hc_status c)). pose proof (decimal64_length (hc_last_check_time_ms c)).
  pose proof (strncpy_short (MAX_HEALTH_MESSAGE_LEN - 1) (hc_message c)) as Hm.
  change (MAX_HEALTH_MESSAGE_LEN - 1)%nat with 255%nat in *. change MAX_COMPONENT_NAME_LEN with 64%nat in *.
  change (length (member "name")) with 7%nat. change (length (member "status")) with 9%nat.
  change (length (member "message")) with 10%nat. change (length (member "last_check_ms")) with 16%nat.
  change (length (str "{")) with 1%nat. change (length (str "}")) with 1%nat. change (length (str ",")) with 1%nat.
  change (length [QUOTE]) with 1%nat.
  assert (length (if (i =? 0)%nat then [] else str ",") ≤ 1)%nat by (destruct (i =? 0)%nat; cbn; lia). lia.
Qed.

(** The text of the export. *)
Definition health_text (r : health_registry) : list Z := concat (export_texts r).

Lemma components_length (cs : list health_component) (i : nat) :
  Forall component_wf cs → Z.of_nat (length (concat (imap (λ j, component_text (i + j)) cs))) ≤ 448 * Z.of_nat (length cs).
Proof.
  intros H. revert i. induction H as [|c cs Hc _ IH]; intros i; cbn [imap concat length]; [done|].
  rewrite length_app. pose proof (component_text_length (i + 0) c Hc). specialize (IH (S i)).
  assert (E : imap ((λ j, component_text (i + j)) ∘ S) cs = imap (λ j, component_text (S i + j)) cs)
    by (apply imap_ext; intros j x _; cbn; by rewrite Nat.add_succ_r).
  rewrite E. lia.
Qed.

Lemma health_text_length r : health_wf r → Z.of_nat (length (health_text r)) < json_size (length (hr_components r)).
Proof.
  intros [_ Hf]. unfold health_text, export_texts. rewrite !concat_app, !length_app.
  pose proof (components_length (hr_components r) 0 Hf) as Hc. change (imap (λ j, component_text (0 + j)) (hr_components r)) with (imap component_text (hr_components r)) in Hc.
  unfold json_size. change (Z.of_nat MAX_COMPONENT_NAME_LEN + Z.of_nat MAX_HEALTH_MESSAGE_LEN + 128) with 448.
  cbn [concat]. rewrite !app_nil_r, !length_app. pose proof (status_length (health_get_overall_status (Some r))).
  change (length (member "status")) with 9%nat. change (length (member "components")) with 13%nat.
  change (length (str "{")) with 1%nat. change (length (str ",")) with 1%nat. change (length (str "[")) with 1%nat.
  change (length (str "]}")) with 2%nat. change (length [QUOTE]) with 1%nat. lia.
Qed.

(** Whatever was registered and reported, the export is the whole text: its buffer is
    large enough for every component and message. *)
Theorem health_export_fits (ops : list health_op) (r : health_registry) :
  Forall health_op_ok ops → health_run ops (HealthRegistry []) = Ok r →
  health_export_json r true = Ok (Some <$> health_text r).
Proof.
  intros Hops Hrun.
  assert (Hwf : health_wf r).
  { apply (health_run_wf ops (HealthRegistry []) r); [|done|done]. split; [cbn; lia|constructor]. }
  pose proof (health_text_length r Hwf) as Hl. unfold health_export_json. cbn [negb].
  set (size := json_size _) in *. rewrite <- (app_nil_r (Print <$> export_texts r)).
  rewrite (prints_fit true (export_texts r) [] (OutBuffer [] 0 size)); [|done|exact Hl].
  cbn [run_ops mbind result_bind]. f_equal. apply (content_prints (export_texts r) (OutBuffer [] 0 size)).
Qed.

Definition example_health_ops : list health_op :=
  [HealthRegister (str "raft") 1000; HealthRegister (str "gossip") 1001; HealthUpdate 0 HEALTH_DEGRADED (Some (str "no leader")) 1002].
Definition example_health : health_registry :=
  HealthRegistry [HealthComponent (str "raft") HEALTH_DEGRADED (str "no leader") 1002; HealthComponent (str "gossip") HEALTH_UP [] 1001].

Lemma health_export_fits_witness : health_export_json example_health true = Ok (Some <$> health_text example_health).
Proof.
  apply (health_export_fits example_health_ops); [|reflexivity].
  repeat constructor; cbn; done.
Defined.

(** ** What the names do *)

Lemma find_component_spec name cs i :
  match find_component name cs i with
  | Some j => (i ≤ j)%nat ∧ ∃ c, cs !! (j - i)%nat = Some c ∧ same_name (hc_name c) name = true
  | None => Forall (λ c, same_name (hc_name c) name = false) cs
  end.
Proof.
  revert i. induction cs as [|c cs IH]; intros i; cbn [find_component]; [constructor|].
  destruct (same_name (hc_name c) name) eqn:E.
  - split; [lia|]. exists c. by rewrite Nat.sub_diag.
  - specialize (IH (S i)). destruct (find_component name cs (S i)) as [j|].
    + destruct IH as (Hj & c' & Hc & Hs). split; [lia|]. exists c'. split; [|done].
      replace (j - i)%nat with (S (j - S i)) by lia. done.
    + by constructor.
Qed.

(** Registering a name that is short enough twice gives the same component. *)
Lemma register_twice r name now now' i r' :
  (length name < MAX_COMPONENT_NAME_LEN)%nat → health_register_component r name now = (Ok i, r') →
  health_register_component r' name now' = (Ok i, r').
Proof.
  intros Hl. unfold health_register_component at 1.
  destruct (find_component name (hr_components r) 0) as [j|] eqn:E.
  - intros [= <- <-]. unfold health_register_component. by rewrite E.
  - destruct (Nat.leb_spec MAX_HEALTH_COMPONENTS (length (hr_components r))) as [|Hroom]; [done|]. intros [= <- <-].
    unfold health_register_component. cbn [hr_components].
    assert (H : ∀ cs k c, find_component name cs k = None → same_name (hc_name c) name = true →
      find_component name (cs ++ [c]) k = Some (k + length cs)%nat).
    { induction cs as [|c0 cs IH]; intros k c Hn Hc; cbn [find_component app length] in *; [rewrite Hc, Nat.add_0_r; done|].
      destruct (same_name (hc_name c0) name); [done|]. rewrite (IH (S k) c Hn Hc). f_equal; lia. }
    rewrite (H _ 0%nat _ E); [done|]. cbn [hc_name]. unfold same_name, strncpy. apply bool_decide_eq_true.
    by rewrite (take_ge name 63) by (unfold MAX_COMPONENT_NAME_LEN in *; lia).
Qed.

(** A name of 64 bytes or more is stored cut and never found again: every registration of
    it takes another of the 64 components. *)
Theorem long_name_registered_again (r : health_registry) (name : list Z) (now : Z) :
  (MAX_COMPONENT_NAME_LEN ≤ length name)%nat →
  Forall (λ c, (length (hc_name c) < MAX_COMPONENT_NAME_LEN)%nat) (hr_components r) →
  (length (hr_components r) < MAX_HEALTH_COMPONENTS)%nat →
  fst (health_register_component r name now) = Ok (length (hr_components r))
  ∧ length (hr_components (snd (health_register_component r name now))) = S (length (hr_components r)).
Proof.
  intros Hl Hf Hroom. unfold health_register_component.
  assert (H : ∀ cs k, Forall (λ c, (length (hc_name c) < MAX_COMPONENT_NAME_LEN)%nat) cs → find_component name cs k = None).
  { intros cs k Hcs. revert k. induction Hcs as [|c cs Hc _ IH]; intros k; cbn [find_component]; [done|].
    unfold same_name. rewrite bool_decide_eq_false_2; [apply IH|]. intros E. apply (f_equal length) in E.
    rewrite !length_take in E. lia. }
  rewrite (H _ 0%nat Hf). destruct (Nat.leb_spec MAX_HEALTH_COMPONENTS (length (hr_components r))); [lia|].
  split; [done|]. cbn. rewrite length_app. cbn. lia.
Qed.

Lemma long_name_registered_again_witness :
  fst (health_register_component example_health (replicate 64 97) 0) = Ok 2%nat
  ∧ length (hr_components (snd (health_register_component example_health (replicate 64 97) 0))) = 3%nat.
Proof.
  apply (long_name_registered_again example_health (replicate 64 97) 0);
    [apply Nat.leb_le; reflexivity|repeat constructor; apply Nat.ltb_lt; reflexivity|apply Nat.ltb_lt; reflexivity].
Defined.

(** Messages are not escaped: one with a quote forges members of the document. *)
Definition forged_message : health_registry :=
  HealthRegistry [HealthComponent (str "db") HEALTH_DOWN ([QUOTE] ++ str "," ++ member "status" ++ [QUOTE] ++ str "UP") 0].
Theorem health_message_not_escaped :
  ∃ before after, health_text forged_message = before ++ member "status" ++ [QUOTE] ++ str "UP" ++ [QUOTE] ++ after
    ∧ health_get_overall_status (Some forged_message) = HEALTH_DOWN.
Proof.
  exists (take 73 (health_text forged_message)), (drop 86 (health_text forged_message)). split; [|done]. vm_compute. reflexivity.
Qed.
