(* ===== verification/HttpServer.v ===== *)
(** * The HTTP server (libs/distric_obs/src/http_server.c)

    One thread accepts connections and answers each of them before the next; the answers
    are the metrics, the health of the components and errors. *)

From Stdlib Require Import ZArith Lia String SpecFloat.
From stdpp Require Import base list numbers option sets.
From S2P Require Import Prelude CString MetricLabels Doubles Metrics MetricsExport LogFormat Logger Health.

Local Open Scope Z_scope.

Definition HTTP_DEFAULT_READ_TIMEOUT_MS : Z := 5000.
Definition HTTP_DEFAULT_WRITE_TIMEOUT_MS : Z := 10000.
Definition HTTP_DEFAULT_MAX_RESPONSE_BYTES : Z := 4 * 1024 * 1024.
Definition HTTP_MAX_REQUEST_BYTES : nat := 4096.
Definition HTTP_MAX_PATH_LEN : nat := 256.
Definition HTTP_MAX_METHOD_LEN : nat := 8.

(** ** Requests *)

Record http_request := HttpRequest { rq_method : list Z; rq_path : list Z }.

Definition CRLF : list Z := [13; 10].

(** The loop of [recv]: each element is what the socket has for one call, the empty list an
    error, a timeout or the end; a call gets at most what is left of the buffer. *)
Fixpoint read_request (recvs : list (list Z)) (buf : list Z) : option (list Z) :=
  if (HTTP_MAX_REQUEST_BYTES <=? length buf)%nat then None
  else
    match recvs with
    | [] => None
    | c :: recvs =>
        match c with
        | [] => None
        | _ =>
            let buf := buf ++ take (HTTP_MAX_REQUEST_BYTES - length buf) c in
            match strstr (c_string buf) CRLF with
            | Some _ => Some buf
            | None => read_request recvs buf
            end
        end
    end.

(** A [%<n>s] of [sscanf]: the word and the rest. *)
Fixpoint word (n : nat) (s : list Z) : list Z * list Z :=
  match n, s with
  | S n, c :: s' => if is_space c then ([], s) else let '(w, rest) := word n s' in (c :: w, rest)
  | _, _ => ([], s)
  end.
Definition scan_word (n : nat) (s : list Z) : list Z * list Z := word n (skip_spaces s).

Definition parse_request (recvs : list (list Z)) : option http_request :=
  buf ← read_request recvs [];
  let '(method, rest) := scan_word (HTTP_MAX_METHOD_LEN - 1) (c_string buf) in
  let '(path, _) := scan_word (HTTP_MAX_PATH_LEN - 1) rest in
  if (length method =? 0)%nat || (length path =? 0)%nat then None
  else
    match strstr path (str "..") with
    | Some _ => None
    | None => Some (HttpRequest (strncpy (HTTP_MAX_METHOD_LEN - 1) method) (strncpy (HTTP_MAX_PATH_LEN - 1) path))
    end.

(** ** Responses *)

(** A byte of the body can be indeterminate when the export was cut. *)
Record response := Response {
  rs_code : Z;
  rs_reason : list Z;
  rs_content_type : list Z;
  rs_body : list (option Z)
}.

Definition crlf (line : list Z) : list Z := line ++ CRLF.

Definition http_response_header (code : Z) (code_str content_type : list Z) (body_len : nat) : list Z :=
  crlf (str "HTTP/1.1 " ++ decimal code ++ str " " ++ code_str) ++
  crlf (str "Content-Type: " ++ content_type) ++
  crlf (str "Content-Length: " ++ decimal64 (Z.of_nat body_len)) ++
  crlf (str "Connection: close") ++
  crlf (str "Server: DistriC-Obs/1.0.0") ++
  crlf (str "Cache-Control: no-cache") ++ crlf [].

(** The loop of [write]: what was written, whether that was all, and the answers that are
    left; each answer is at most what was offered. *)
Fixpoint write_all {A} (ns : list Z) (left : list A) : list A * bool * list Z :=
  match left with
  | [] => ([], true, ns)
  | _ =>
      match ns with
      | [] => ([], false, [])
      | n :: ns =>
          if n <=? 0 then ([], false, ns)
          else let '(w, ok, ns) := write_all ns (drop (Z.to_nat n) left) in (take (Z.to_nat n) left ++ w, ok, ns)
      end
  end.

(** The bytes that are written to the client. *)
Definition send_response_str (ns : list Z) (max_body : Z) (r : response) : list (option Z) :=
  let body := take (Z.to_nat (Z.min (Z.of_nat (length (rs_body r))) max_body)) (rs_body r) in
  let header := http_response_header (rs_code r) (rs_reason r) (rs_content_type r) (length body) in
  if (512 <=? length header)%nat then []
  else
    match write_all ns (Some <$> header) with
    | (w, false, _) => w
    | (w, true, ns) => let '(w', _, _) := write_all ns body in w ++ w'
    end.

Definition send_error (code : Z) (msg : list Z) : response := Response code msg (str "text/plain") (Some <$> msg).

(** ** The server *)

Record http_server_internal_metrics := HttpMetrics {
  hm_requests_total : option nat;
  hm_errors_4xx_total : option nat;
  hm_errors_5xx_total : option nat;
  hm_active_connections : option nat
}.

(** Registries are shared with the rest of the program: the server has their positions in
    [wd_registries]; its own metrics can be in the registry it exports. *)
Record world := World { wd_registries : list metrics_registry; wd_health : health_registry }.

Record obs_server := ObsServer {
  os_listen_fd : Z;
  os_port : Z;
  os_metrics : nat;
  os_read_timeout_ms : Z;
  os_write_timeout_ms : Z;
  os_max_response_bytes : Z;
  os_shutdown : bool;
  os_active_connections : Z;        (* _Atomic int32_t *)
  os_internal_metrics : http_server_internal_metrics;
  os_own_registry : nat;            (* where the handles are *)
  os_metrics_registered : bool
}.

Definition os_set_active (n : Z) (s : obs_server) : obs_server :=
  ObsServer (os_listen_fd s) (os_port s) (os_metrics s) (os_read_timeout_ms s) (os_write_timeout_ms s)
    (os_max_response_bytes s) (os_shutdown s) n (os_internal_metrics s) (os_own_registry s) (os_metrics_registered s).
Definition os_set_shutdown (s : obs_server) : obs_server :=
  ObsServer (-1) (os_port s) (os_metrics s) (os_read_timeout_ms s) (os_write_timeout_ms s)
    (os_max_response_bytes s) true (os_active_connections s) (os_internal_metrics s) (os_own_registry s) (os_metrics_registered s).
Definition os_set_metrics (h : http_server_internal_metrics) (reg : nat) (s : obs_server) : obs_server :=
  ObsServer (os_listen_fd s) (os_port s) (os_metrics s) (os_read_timeout_ms s) (os_write_timeout_ms s)
    (os_max_response_bytes s) (os_shutdown s) (os_active_connections s) h reg true.

(** An update of the metric behind a handle. *)
Definition with_handle (reg : nat) (handle : option nat) (f : metric → result metric) (w : world) : result world :=
  match handle with
  | None => Ok w
  | Some i =>
      match wd_registries w !! reg with
      | None => Fault
      | Some r =>
          match mr_metrics r !! i with
          | None => Fault
          | Some m =>
              m' ← f m;
              Ok (World (<[reg := mr_set_metrics (<[i := m']> (mr_metrics r)) r]> (wd_registries w)) (wd_health w))
          end
      end
  end.

Definition track (s : obs_server) (handle : http_server_internal_metrics → option nat) (w : world) : result world :=
  if os_metrics_registered s then with_handle (os_own_registry s) (handle (os_internal_metrics s)) metrics_counter_inc w
  else Ok w.
Definition track_request (s : obs_server) : world → result world := track s hm_requests_total.
Definition track_error_4xx (s : obs_server) : world → result world := track s hm_errors_4xx_total.
Definition track_error_5xx (s : obs_server) : world → result world := track s hm_errors_5xx_total.

(** ** Handlers *)

(** Whether the allocations of the exports succeed. *)
Record http_env := HttpEnv { he_malloc : bool; he_realloc : bool }.

Definition handle_metrics (s : obs_server) (env : http_env) (w : world) : result (world * response) :=
  match wd_registries w !! os_metrics s with
  | None => Fault
  | Some reg =>
      match metrics_export_prometheus reg (he_malloc env) (he_realloc env) with
      | Fault => Fault
      | Ok body =>
          w ← track_request s w;
          Ok (w, Response 200 (str "OK") (str "text/plain; version=0.0.4; charset=utf-8") body)
      | Err _ =>
          w ← track_request s w; w ← track_error_5xx s w;
          Ok (w, send_error 500 (str "Internal Server Error"))
      end
  end.

Definition handle_health_ready (s : obs_server) (env : http_env) (w : world) : result (world * response) :=
  match health_export_json (wd_health w) (he_malloc env) with
  | Fault => Fault
  | Err _ =>
      w ← track_request s w; w ← track_error_5xx s w;
      Ok (w, send_error 500 (str "Internal Server Error"))
  | Ok body =>
      w1 ← track_request s w;
      let up := health_get_overall_status (Some (wd_health w)) =? HEALTH_UP in
      w2 ← (if up then Ok w1 else track_error_5xx s w1);
      Ok (w2, Response (if up then 200 else 503) (if up then str "OK" else str "Service Unavailable")
                (str "application/json") body)
  end.

Definition handle_health_live (s : obs_server) (w : world) : result (world * response) :=
  w ← track_request s w;
  Ok (w, Response 200 (str "OK") (str "application/json") (Some <$> str "{" ++ member "status" ++ [QUOTE] ++ str "UP" ++ [QUOTE] ++ str "}")).

(** [handle_not_found], [handle_method_not_allowed], [handle_bad_request]. *)
Definition handle_client_error (code : Z) (msg : list Z) (s : obs_server) (w : world) : result (world * response) :=
  w ← track_request s w; w ← track_error_4xx s w; Ok (w, send_error code msg).
Definition handle_not_found := handle_client_error 404 (str "Not Found").
Definition handle_method_not_allowed := handle_client_error 405 (str "Method Not Allowed").
Definition handle_bad_request := handle_client_error 400 (str "Bad Request").

(** [strncmp (method, "GET", 3) == 0] *)
Definition is_get (method : list Z) : bool := bool_decide (take 3 method = str "GET").

Definition handle_connection (s : obs_server) (env : http_env) (recvs : list (list Z)) (w : world) : result (world * response) :=
  match parse_request recvs with
  | None => handle_bad_request s w
  | Some req =>
      if negb (is_get (rq_method req)) then handle_method_not_allowed s w
      else if streq (rq_path req) (str "/metrics") then handle_metrics s env w
      else if streq (rq_path req) (str "/health/ready") then handle_health_ready s env w
      else if streq (rq_path req) (str "/health/live") then handle_health_live s w
      else handle_not_found s w
  end.

(** ** The accept loop *)

Definition set_active_gauge (s : obs_server) (n : Z) (w : world) : result world :=
  if os_metrics_registered s then
    with_handle (os_own_registry s) (hm_active_connections (os_internal_metrics s)) (λ m, metrics_gauge_set m (double_of_Z n)) w
  else Ok w.

(** What [accept] gives: a failure, or a connection with what its socket will give to
    [recv] and [write]. *)
Inductive accept_event :=
  | AcceptFails
  | AcceptGives (recvs : list (list Z)) (ns : list Z) (env : http_env).

(** One round of [accept_thread_fn]; the bytes sent to the client, if there was one. *)
Definition server_accept_turn (ev : accept_event) (s : obs_server) (w : world) : result (obs_server * world * option (list (option Z))) :=
  match ev with
  | AcceptFails => Ok (s, w, None)
  | AcceptGives recvs ns env =>
      let prev := os_active_connections s in
      let s := os_set_active (s32 (prev + 1)) s in
      w ← set_active_gauge s (prev + 1) w;
      '(w, r) ← handle_connection s env recvs w;
      let sent := send_response_str ns (os_max_response_bytes s) r in
      let prev := os_active_connections s in
      let s := os_set_active (s32 (prev - 1)) s in
      w ← set_active_gauge s (if prev - 1 <? 0 then 0 else prev - 1) w;
      Ok (s, w, Some sent)
  end.

(** The loop, until the shutdown flag is seen. *)
Fixpoint accept_run (evs : list accept_event) (s : obs_server) (w : world) : result (obs_server * world * list (list (option Z))) :=
  match evs with
  | [] => Ok (s, w, [])
  | ev :: evs =>
      if os_shutdown s then Ok (s, w, [])
      else
        '(s, w, sent) ← server_accept_turn ev s w;
        '(s, w, rest) ← accept_run evs s w;
        Ok (s, w, option_list sent ++ rest)
  end.

(** ** Creation and destruction *)

Record obs_server_config := ObsServerConfig {
  oc_port : Z;
  oc_metrics : option nat;
  oc_health : bool;                 (* not null *)
  oc_read_timeout_ms : Z;
  oc_write_timeout_ms : Z;
  oc_max_response_bytes : Z
}.

(** [oe_socket]: the descriptor, negative for a failure; [oe_name]: the port that
    [getsockname] gives. *)
Record obs_env := ObsEnv {
  oe_calloc : bool;
  oe_socket : Z;
  oe_bind : bool;
  oe_listen : bool;
  oe_name : option Z;
  oe_thread : bool
}.

Definition no_handles : http_server_internal_metrics := HttpMetrics None None None None.

(** The server, and the descriptors that stay open. *)
Definition obs_server_init_with_config (config : option obs_server_config) (env : obs_env) : result obs_server * list Z :=
  match config with
  | Some (ObsServerConfig port (Some metrics) true read_ms write_ms max) =>
      if negb (oe_calloc env) then (Err DISTRIC_ERR_ALLOC_FAILURE, [])
      else
        let fd := oe_socket env in
        if fd <? 0 then (Err DISTRIC_ERR_INIT_FAILED, [])
        else
          let opened := [fd] in
          let closed := filter (λ x, x ≠ fd) opened in
          if negb (oe_bind env) then (Err DISTRIC_ERR_INIT_FAILED, closed)
          else if negb (oe_listen env) then (Err DISTRIC_ERR_INIT_FAILED, closed)
          else if negb (oe_thread env) then (Err DISTRIC_ERR_INIT_FAILED, closed)
          else
            (Ok (ObsServer fd (default port (oe_name env)) metrics
                   (if read_ms =? 0 then HTTP_DEFAULT_READ_TIMEOUT_MS else read_ms)
                   (if write_ms =? 0 then HTTP_DEFAULT_WRITE_TIMEOUT_MS else write_ms)
                   (if max =? 0 then HTTP_DEFAULT_MAX_RESPONSE_BYTES else max)
                   false 0 no_handles 0 false), opened)
  | _ => (Err DISTRIC_ERR_INVALID_ARG, [])
  end.

Definition obs_server_init (port : Z) (metrics : option nat) (health : bool) (env : obs_env) : result obs_server * list Z :=
  obs_server_init_with_config (Some (ObsServerConfig port metrics health 0 0 0)) env.

(** The descriptors that stay open, and the server as the accept thread sees it until it
    reads the flag. *)
Definition obs_server_destroy (s : obs_server) (opened : list Z) : obs_server * list Z :=
  (os_set_shutdown s, if os_listen_fd s >=? 0 then filter (λ x, x ≠ os_listen_fd s) opened else opened).

Definition obs_server_get_port (s : option obs_server) : Z := match s with Some s => os_port s | None => 0 end.

(** A registration of a counter whose failure leaves the handle [NULL]. *)
Definition register_counter_handle (name help : string) (env : register_env) (reg : metrics_registry) : option nat * metrics_registry :=
  match metrics_register_counter reg (str name) (str help) None 0 env with
  | (Ok i, reg) => (Some i, reg)
  | (_, reg) => (None, reg)
  end.

Definition obs_server_register_internal_metrics (s : obs_server) (reg : nat) (env : nat → register_env) (w : world) :
    result (obs_server * world) :=
  match wd_registries w !! reg with
  | None => Err DISTRIC_ERR_INVALID_ARG
  | Some r =>
      if os_metrics_registered s then Ok (s, w)
      else
        let '(requests, r) := register_counter_handle "distric_internal_http_requests_total"
          "Total HTTP requests handled by the observability server" (env 0%nat) r in
        let '(e4, r) := register_counter_handle "distric_internal_http_errors_4xx_total"
          "Total HTTP 4xx errors (client errors: 400, 404, 405)" (env 1%nat) r in
        let '(e5, r) := register_counter_handle "distric_internal_http_errors_5xx_total"
          "Total HTTP 5xx errors (server errors: 500, 503)" (env 2%nat) r in
        let '(active, r) := register_handle "distric_internal_http_active_connections"
          "Approximate number of connections currently being handled" (env 3%nat) r in
        Ok (os_set_metrics (HttpMetrics requests e4 e5 active) reg s,
            World (<[reg := r]> (wd_registries w)) (wd_health w))
  end.

(** ** The counters *)

(** The count behind a handle. *)
Definition count_of (w : world) (reg : nat) (handle : option nat) : option Z :=
  i ← handle; r ← wd_registries w !! reg; m ← mr_metrics r !! i;
  match metrics_counter_get m with Ok v => Some v | _ => None end.

Lemma counter_inc_get m v :
  metrics_counter_get m = Ok v → ∃ m', metrics_counter_inc m = Ok m' ∧ metrics_counter_get m' = Ok (u64 (v + 1)).
Proof.
  unfold metrics_counter_get, metrics_counter_inc, metrics_counter_add, counter_cell_add.
  destruct (m_instances m) as [cells|cells|cells] eqn:Ei; try done.
  destruct (cells !! base_slot m) as [v'|] eqn:E; [|done]. intros [= ->].
  eexists. split; [reflexivity|]. cbn [m_instances set_instances].
  change (base_slot (set_instances ?a m)) with (base_slot m).
  by rewrite list_lookup_insert_eq by (by eapply lookup_lt_Some).
Qed.

Lemma count_inc (w : world) (reg i : nat) (v : Z) :
  count_of w reg (Some i) = Some v →
  ∃ w', with_handle reg (Some i) metrics_counter_inc w = Ok w' ∧ count_of w' reg (Some i) = Some (u64 (v + 1))
    ∧ (∀ j, j ≠ i → count_of w' reg (Some j) = count_of w reg (Some j)) ∧ wd_health w' = wd_health w.
Proof.
  unfold count_of, with_handle. cbn [mbind option_bind].
  destruct (wd_registries w !! reg) as [r|] eqn:Er; [|done]. cbn [mbind option_bind].
  destruct (mr_metrics r !! i) as [m|] eqn:Em; [|done]. cbn [mbind option_bind].
  destruct (metrics_counter_get m) as [v'| |] eqn:Eg; try done. intros [= ->].
  destruct (counter_inc_get m v Eg) as (m' & -> & Hg). cbn [mbind result_bind].
  eexists. split; [reflexivity|]. cbn [wd_registries wd_health].
  rewrite list_lookup_insert_eq by (by eapply lookup_lt_Some). cbn [mbind option_bind mr_metrics mr_set_metrics].
  split; [|split; [|done]].
  - rewrite list_lookup_insert_eq by (by eapply lookup_lt_Some). cbn [mbind option_bind]. by rewrite Hg.
  - intros j Hne. by rewrite list_lookup_insert_ne.
Qed.

Definition client_error (code : Z) : bool := (400 <=? code) && (code <? 500).
Definition server_error (code : Z) : bool := 500 <=? code.
Definition bump (b : bool) (n : Z) : Z := if b then u64 (n + 1) else n.

(** The counters of a server with the given values. *)
Record counting (s : obs_server) (w : world) (n n4 n5 : Z) : Prop := Counting {
  cg_on : os_metrics_registered s = true;
  cg_handles : ∃ i i4 i5, hm_requests_total (os_internal_metrics s) = Some i
    ∧ hm_errors_4xx_total (os_internal_metrics s) = Some i4 ∧ hm_errors_5xx_total (os_internal_metrics s) = Some i5
    ∧ i ≠ i4 ∧ i ≠ i5 ∧ i4 ≠ i5;
  cg_requests : count_of w (os_own_registry s) (hm_requests_total (os_internal_metrics s)) = Some n;
  cg_4xx : count_of w (os_own_registry s) (hm_errors_4xx_total (os_internal_metrics s)) = Some n4;
  cg_5xx : count_of w (os_own_registry s) (hm_errors_5xx_total (os_internal_metrics s)) = Some n5
}.

(** The counter with the count [Hv] goes up, the other two stay. *)
Ltac count_one Hv :=
  let w' := fresh "w'" in
  destruct (count_inc _ _ _ _ Hv) as (w' & ? & ? & Ho & ?); exists w';
  split; [unfold track_request, track_error_4xx, track_error_5xx, track; repeat match goal with H : _ = _ |- _ => rewrite H end; done|];
  split; [|done]; split; [done|by eexists _, _, _|..];
  repeat match goal with H : _ (os_internal_metrics _) = Some _ |- _ => rewrite H end; rewrite ?Ho by done; done.

Lemma track_counting s w n n4 n5 :
  counting s w n n4 n5 →
  (∃ w', track_request s w = Ok w' ∧ counting s w' (u64 (n + 1)) n4 n5 ∧ wd_health w' = wd_health w)
  ∧ (∃ w', track_error_4xx s w = Ok w' ∧ counting s w' n (u64 (n4 + 1)) n5 ∧ wd_health w' = wd_health w)
  ∧ (∃ w', track_error_5xx s w = Ok w' ∧ counting s w' n n4 (u64 (n5 + 1)) ∧ wd_health w' = wd_health w).
Proof.
  intros [Hon (i & i4 & i5 & Hi & H4 & H5 & D1 & D2 & D3) Hn Hn4 Hn5]. rewrite Hi in Hn. rewrite H4 in Hn4. rewrite H5 in Hn5.
  split; [|split]; [count_one Hn|count_one Hn4|count_one Hn5].
Qed.

Lemma client_error_counting code msg s w n n4 n5 :
  counting s w n n4 n5 → client_error code = true → server_error code = false →
  ∃ w' r, handle_client_error code msg s w = Ok (w', r) ∧ rs_code r = code
    ∧ counting s w' (u64 (n + 1)) (bump (client_error code) n4) (bump (server_error code) n5).
Proof.
  intros C H4 H5. unfold handle_client_error.
  destruct (track_counting _ _ _ _ _ C) as [(w1 & -> & C1 & _) _]. cbn [mbind result_bind].
  destruct (track_counting _ _ _ _ _ C1) as (_ & (w2 & -> & C2 & _) & _). cbn [mbind result_bind].
  exists w2, (send_error code msg). split; [done|]. split; [done|]. by rewrite H4, H5.
Qed.

(** Every connection is answered with one of six codes and counted: one request, and
    one error of the class of its code. *)
Theorem connection_counted (s : obs_server) (env : http_env) (recvs : list (list Z)) (w : world) (n n4 n5 : Z) (reg : metrics_registry) :
  counting s w n n4 n5 → wd_registries w !! os_metrics s = Some reg →
  metrics_export_prometheus reg (he_malloc env) (he_realloc env) ≠ Fault →
  health_export_json (wd_health w) (he_malloc env) ≠ Fault →
  ∃ w' r, handle_connection s env recvs w = Ok (w', r) ∧ rs_code r ∈ [200; 400; 404; 405; 500; 503]
    ∧ counting s w' (u64 (n + 1)) (bump (client_error (rs_code r)) n4) (bump (server_error (rs_code r)) n5).
Proof.
  intros C Hreg He Hh.
  assert (Herr : ∀ code msg, code ∈ [400; 404; 405] → ∃ w' r, handle_client_error code msg s w = Ok (w', r) ∧ rs_code r ∈ [200; 400; 404; 405; 500; 503]
    ∧ counting s w' (u64 (n + 1)) (bump (client_error (rs_code r)) n4) (bump (server_error (rs_code r)) n5)).
  { intros code msg Hc. destruct (client_error_counting code msg s w n n4 n5 C) as (w' & r & E & <- & C');
      [revert Hc; rewrite !elem_of_cons; intros [->|[->|[->|[]%not_elem_of_nil]]]; done..|].
    exists w', r. split; [done|]. split; [revert Hc; rewrite !elem_of_cons; tauto|done]. }
  unfold handle_connection. destruct (parse_request recvs) as [req|]; [|apply Herr; set_solver].
  destruct (negb _); [apply Herr; set_solver|].
  destruct (track_counting _ _ _ _ _ C) as [(w1 & E1 & C1 & _) _].
  destruct (track_counting _ _ _ _ _ C1) as (_ & _ & (w2 & E2 & C2 & _)).
  destruct (streq _ _); [|destruct (streq _ _); [|destruct (streq _ _)]].
  - unfold handle_metrics. rewrite Hreg. destruct (metrics_export_prometheus _ _ _); [| |done]; rewrite E1; cbn [mbind result_bind].
    + eexists w1, _. split; [reflexivity|]. split; [cbn; set_solver|done].
    + rewrite E2. cbn [mbind result_bind]. eexists w2, _. split; [reflexivity|]. split; [cbn; set_solver|done].
  - unfold handle_health_ready. destruct (health_export_json _ _); [| |done]; rewrite E1; cbn [mbind result_bind].
    + destruct (_ =? HEALTH_UP).
      * cbn [mbind result_bind]. eexists w1, _. split; [reflexivity|]. split; [cbn; set_solver|done].
      * rewrite E2. cbn [mbind result_bind]. eexists w2, _. split; [reflexivity|]. split; [cbn; set_solver|done].
    + rewrite E2. cbn [mbind result_bind]. eexists w2, _. split; [reflexivity|]. split; [cbn; set_solver|done].
  - unfold handle_health_live. rewrite E1. cbn [mbind result_bind]. eexists w1, _. split; [reflexivity|]. split; [cbn; set_solver|done].
  - apply Herr; set_solver.
Qed.

(** ** The requests that are understood *)

(** A request line up to its end. *)
Definition request_line (path : list Z) : list Z := str "GET " ++ path ++ str " HTTP/1.1".

Definition plain (c : Z) : Prop := c ≠ 0 ∧ is_space c = false.
Definition path_ok (path : list Z) : Prop :=
  Forall plain path ∧ (0 < length path < HTTP_MAX_PATH_LEN)%nat ∧ strstr path (str "..") = None.

Lemma plain_forallb path : forallb (λ c, negb (c =? 0) && negb (is_space c)) path = true → Forall plain path.
Proof.
  intros H. apply List.Forall_forall. intros c Hc. rewrite forallb_forall in H. specialize (H c Hc).
  apply andb_prop in H as [H0 Hs]. split; [by apply negb_true_iff, Z.eqb_neq in H0|by apply negb_true_iff in Hs].
Qed.

Lemma c_string_app s t : Forall (λ c, c ≠ 0) s → c_string (s ++ t) = s ++ c_string t.
Proof.
  induction 1 as [|c s Hc _ IH]; cbn [app c_string]; [done|]. destruct (Z.eqb_spec c 0); [done|]. by rewrite IH.
Qed.

Lemma c_string_no_zero s : Forall (λ c, c ≠ 0) s → c_string s = s.
Proof. intros H. rewrite <- (app_nil_r s) at 1. rewrite c_string_app by done. cbn. apply app_nil_r. Qed.

Lemma strstr_app s pat t : strstr (s ++ pat ++ t) pat ≠ None.
Proof.
  induction s as [|c s IH].
  - cbn [app]. destruct (pat ++ t) eqn:E; unfold strstr; rewrite <- ?E, take_app_length, bool_decide_eq_true_2 by done; done.
  - cbn [app strstr]. destruct (bool_decide _); [done|exact IH].
Qed.

(** A text with a carriage return at most at its end holds no end of line. *)
Lemma strstr_crlf_none s : Forall (λ c, c ≠ 13) s → strstr s CRLF = None ∧ strstr (s ++ [13]) CRLF = None.
Proof.
  induction 1 as [|c s Hc _ [IH1 IH2]]; [done|]. cbn [app strstr]. rewrite !bool_decide_eq_false_2; [done|..];
    unfold CRLF; cbn; intros [= ? ?]; congruence.
Qed.

Lemma line_no_13 path : Forall plain path → Forall (λ c, c ≠ 13 ∧ c ≠ 0) (request_line path).
Proof.
  intros Hp. unfold request_line. rewrite !Forall_app. split; [repeat constructor; done|]. split; [|repeat constructor; done].
  eapply List.Forall_impl; [|exact Hp]. intros c [H0 Hs]. split; [|done]. intros ->. done.
Qed.

Lemma strstr_prefix_none s t : strstr (s ++ t) CRLF = None → strstr s CRLF = None.
Proof.
  induction s as [|c s IH]; intros H; [done|]. cbn [app strstr] in *.
  destruct (bool_decide (take (length CRLF) (c :: s ++ t) = CRLF)) eqn:E; [done|].
  rewrite bool_decide_eq_false_2; [by apply IH|]. apply bool_decide_eq_false in E. intros F. apply E.
  unfold CRLF in *. cbn in F |- *. destruct s as [|? s]; cbn in F |- *; [done|]. exact F.
Qed.

Lemma crlf_cut line s k : Forall (λ c, c ≠ 13) line → s ++ k = line ++ CRLF → k ≠ [] → strstr s CRLF = None.
Proof.
  intros Hl E Hk. destruct (strstr_crlf_none _ Hl) as [_ H13]. destruct k as [|x k _] using rev_ind; [done|].
  rewrite app_assoc in E. change CRLF with ([13] ++ [10]) in E. rewrite (app_assoc line) in E.
  apply app_inj_tail in E as [E _]. apply (strstr_prefix_none s k). by rewrite E.
Qed.

(** Reading stops at a piece of the stream that holds the whole line. *)
Lemma read_request_line (path rest : list Z) (recvs : list (list Z)) (buf : list Z) :
  Forall plain path → (length (request_line path ++ CRLF) ≤ HTTP_MAX_REQUEST_BYTES)%nat →
  Forall (λ c, c ≠ []) recvs → buf ++ concat recvs = request_line path ++ CRLF ++ rest →
  (length buf < length (request_line path ++ CRLF))%nat →
  ∃ more, read_request recvs buf = Some (request_line path ++ CRLF ++ more).
Proof.
  intros Hp Hmax Hr. revert buf. induction Hr as [|c recvs Hc _ IH]; intros buf Hcat Hlen.
  - cbn [concat] in Hcat. rewrite app_nil_r in Hcat. subst buf. rewrite app_assoc, length_app in Hlen. lia.
  - cbn [read_request]. rewrite (proj2 (Nat.leb_gt _ _)) by lia. destruct c as [|b c]; [done|].
    set (got := take (HTTP_MAX_REQUEST_BYTES - length buf) (b :: c)).
    assert (Hgot : ∃ tail, b :: c = got ++ tail ∧ (tail = [] ∨ (length (buf ++ got) = HTTP_MAX_REQUEST_BYTES)%nat)).
    { exists (drop (HTTP_MAX_REQUEST_BYTES - length buf) (b :: c)). split; [symmetry; apply take_drop|].
      destruct (Nat.le_gt_cases (length (b :: c)) (HTTP_MAX_REQUEST_BYTES - length buf)) as [Hle|Hgt]; [left; by apply drop_ge|right].
      rewrite length_app. unfold got. rewrite length_take. lia. }
    destruct Hgot as (tail & Hbc & Htail). cbn [concat] in Hcat. rewrite Hbc, <- app_assoc, app_assoc in Hcat.
    assert (Hline := line_no_13 path Hp).
    assert (Hl13 : Forall (λ c, c ≠ 13) (request_line path)) by (eapply List.Forall_impl; [|exact Hline]; by intros ? []).
    assert (Hl0 : Forall (λ c, c ≠ 0) (request_line path ++ CRLF))
      by (apply Forall_app; split; [eapply List.Forall_impl; [|exact Hline]; by intros ? []|by repeat constructor]).
    destruct (Nat.le_gt_cases (length (request_line path ++ CRLF)) (length (buf ++ got))) as [Hge|Hlt].
    + assert (Hpre : ∃ more, buf ++ got = (request_line path ++ CRLF) ++ more).
      { rewrite (app_assoc (request_line path)) in Hcat. apply app_eq_inv in Hcat as [(k & E1 & E2)|(k & E1 & E2)]; [by exists k|].
        exists []. rewrite E1, length_app in Hge. rewrite app_nil_r, E1. destruct k; [by rewrite app_nil_r|cbn in Hge; lia]. }
      destruct Hpre as (more & Hpre). rewrite Hpre, c_string_app, <- app_assoc by done.
      destruct (strstr (request_line path ++ CRLF ++ c_string more) CRLF) eqn:E; [|by apply strstr_app in E].
      exists more. by rewrite <- app_assoc.
    + destruct Htail as [->|Hfull]; [|rewrite Hfull in Hlt; lia]. rewrite app_nil_l in Hcat.
      assert (Hnone : strstr (c_string (buf ++ got)) CRLF = None).
      { rewrite (app_assoc (request_line path)) in Hcat.
        apply app_eq_inv in Hcat as [(k & E1 & E2)|(k & E1 & E2)]; [rewrite E1, length_app in Hlt; lia|].
        rewrite c_string_no_zero by (rewrite E1 in Hl0; by apply Forall_app in Hl0 as [? _]).
        apply (crlf_cut (request_line path) (buf ++ got) k Hl13 (eq_sym E1)). intros ->. rewrite app_nil_r in E1.
        rewrite E1 in Hlt. lia. }
      rewrite Hnone. apply IH; [exact Hcat|exact Hlt].
Qed.

Lemma word_all (n : nat) (w rest : list Z) (c : Z) :
  Forall (λ x, is_space x = false) w → (length w ≤ n)%nat → is_space c = true → word n (w ++ c :: rest) = (w, c :: rest).
Proof.
  intros H. revert n. induction H as [|x w Hx _ IH]; intros n Hn Hc; cbn [app].
  - destruct n; cbn [word]; [done|]. by rewrite Hc.
  - cbn [length] in Hn. destruct n as [|n]; [lia|]. cbn [word]. rewrite Hx, (IH n) by (done || lia). done.
Qed.

Lemma parse_request_line (path more : list Z) (buf : list Z) (recvs : list (list Z)) :
  path_ok path → read_request recvs [] = Some (request_line path ++ CRLF ++ more) →
  parse_request recvs = Some (HttpRequest (str "GET") path).
Proof.
  intros (Hp & Hlen & Hdots) Hr. unfold parse_request. rewrite Hr. cbn [mbind option_bind].
  assert (Hl0 : Forall (λ c, c ≠ 0) (request_line path)) by (eapply List.Forall_impl; [|exact (line_no_13 path Hp)]; by intros ? []).
  rewrite c_string_app by done. set (tail := c_string (CRLF ++ more)). unfold request_line. rewrite <- !app_assoc.
  unfold scan_word. assert (E1 : skip_spaces (str "GET " ++ path ++ str " HTTP/1.1" ++ tail) = str "GET" ++ 32 :: path ++ str " HTTP/1.1" ++ tail) by done.
  rewrite E1, word_all by (done || (repeat constructor)).
  assert (E2 : skip_spaces (32 :: path ++ str " HTTP/1.1" ++ tail) = path ++ 32 :: str "HTTP/1.1" ++ tail).
  { cbn [skip_spaces]. change (is_space 32) with true. cbn iota. destruct path as [|c path]; [cbn in Hlen; lia|].
    apply Forall_cons_1 in Hp as [[_ Hc] _]. cbn [app skip_spaces]. rewrite Hc. done. }
  rewrite E2, word_all; [|eapply List.Forall_impl; [|exact Hp]; by intros ? []|unfold HTTP_MAX_PATH_LEN in *; lia|done].
  cbn iota zeta. change (length (str "GET") =? 0)%nat with false. destruct (Nat.eqb_spec (length path) 0); [lia|].
  cbn [orb]. rewrite Hdots.
  by rewrite (strncpy_id _ path) by (unfold HTTP_MAX_PATH_LEN in *; lia).
Qed.

(** C40: a GET request is understood however the network cuts it into pieces, and is
    answered by its path: the metrics, the readiness, the liveness, or 404. *)
Theorem get_request_answered (s : obs_server) (env : http_env) (recvs : list (list Z)) (w : world) (path rest : list Z) :
  path_ok path → (length (request_line path ++ CRLF) ≤ HTTP_MAX_REQUEST_BYTES)%nat →
  Forall (λ c, c ≠ []) recvs → concat recvs = request_line path ++ CRLF ++ rest →
  handle_connection s env recvs w =
    if streq path (str "/metrics") then handle_metrics s env w
    else if streq path (str "/health/ready") then handle_health_ready s env w
    else if streq path (str "/health/live") then handle_health_live s w
    else handle_client_error 404 (str "Not Found") s w.
Proof.
  intros Hp Hmax Hr Hcat.
  destruct (read_request_line path rest recvs [] (proj1 Hp) Hmax Hr Hcat) as (more & Hread);
    [unfold request_line; rewrite !length_app; cbn; lia|].
  unfold handle_connection. by rewrite (parse_request_line path more [] recvs Hp Hread).
Qed.

Definition example_server : obs_server :=
  ObsServer 3 8080 0 5000 10000 4194304 false 0 (HttpMetrics (Some 0%nat) (Some 1%nat) (Some 2%nat) None) 0 true.
Definition plain_counter (name : string) (v : Z) : metric :=
  Metric (str name) (str "count") METRIC_TYPE_COUNTER [] [] 1 None (Counters [v]).
Definition example_world : world :=
  World [MetricsRegistry [plain_counter "requests" 7; plain_counter "errors_4xx" 2; plain_counter "errors_5xx" 1] 16 16 REGISTRY_STATE_MUTABLE 1]
    example_health.

(** A request in two pieces. *)
Lemma get_request_answered_witness :
  handle_connection example_server (HttpEnv true true) [str "GET /health"; str "/ready HTTP/1.1" ++ CRLF ++ str "Host: a" ++ CRLF] example_world
  = handle_health_ready example_server (HttpEnv true true) example_world.
Proof.
  apply (get_request_answered example_server (HttpEnv true true) [str "GET /health"; str "/ready HTTP/1.1" ++ CRLF ++ str "Host: a" ++ CRLF]
    example_world (str "/health/ready") (str "Host: a" ++ CRLF)).
  - split; [|split]; [|split; apply Nat.ltb_lt; reflexivity|reflexivity].
    apply plain_forallb. reflexivity.
  - apply Nat.leb_le. vm_compute. reflexivity.
  - repeat (constructor; [vm_compute; congruence|]). constructor.
  - reflexivity.
Defined.

Lemma connection_counted_witness :
  ∃ w' r, handle_connection example_server (HttpEnv true true) [str "GET /none HTTP/1.1" ++ CRLF] example_world = Ok (w', r)
    ∧ rs_code r ∈ [200; 400; 404; 405; 500; 503]
    ∧ counting example_server w' (u64 (7 + 1)) (bump (client_error (rs_code r)) 2) (bump (server_error (rs_code r)) 1).
Proof.
  apply (connection_counted example_server (HttpEnv true true) [str "GET /none HTTP/1.1" ++ CRLF] example_world 7 2 1
    (MetricsRegistry [plain_counter "requests" 7; plain_counter "errors_4xx" 2; plain_counter "errors_5xx" 1] 16 16 REGISTRY_STATE_MUTABLE 1)).
  - split; [done|by exists 0%nat, 1%nat, 2%nat|reflexivity..].
  - reflexivity.
  - vm_compute. congruence.
  - vm_compute. congruence.
Defined.

(** ** What the client receives *)

Lemma write_all_everything {A} (ns : list Z) (left : list A) :
  Forall (λ n, 0 < n) ns → (length left ≤ length ns)%nat →
  ∃ ns', write_all ns left = (left, true, ns') ∧ Forall (λ n, 0 < n) ns' ∧ (length ns ≤ length ns' + length left)%nat.
Proof.
  intros H. revert left. induction H as [|n ns Hn Hns IH]; intros left Hl.
  - destruct left; [|cbn in Hl; lia]. exists []. cbn. done.
  - destruct left as [|x left]; [exists (n :: ns); cbn; split; [done|]; split; [by constructor|lia]|].
    cbn [write_all]. destruct (Z.leb_spec n 0); [lia|].
    destruct (IH (drop (Z.to_nat n) (x :: left))) as (ns' & E & Hp & Hlen).
    { rewrite length_drop. cbn [length] in *. lia. }
    rewrite E, take_drop. exists ns'. split; [done|]. split; [done|]. rewrite length_drop in Hlen. cbn [length] in *. lia.
Qed.

(** A client that reads the header and then as many bytes as it announces. *)
Definition announced (max_body : Z) (r : response) : list (option Z) :=
  take (Z.to_nat (Z.min (Z.of_nat (length (rs_body r))) max_body)) (rs_body r).

Definition reason_ok (r : response) : Prop :=
  0 ≤ rs_code r < 1000 ∧ (length (rs_reason r) ≤ 32)%nat ∧ (length (rs_content_type r) ≤ 64)%nat.

Lemma decimal_text_length n : (length (decimal n) ≤ 10)%nat.
Proof.
  unfold decimal. generalize 10%nat. intros fuel. revert n. induction fuel as [|fuel IH]; intros n; cbn [decimal_digits]; [done|].
  destruct (n <? 10); [cbn; lia|]. rewrite length_app. cbn. specialize (IH (n / 10)). lia.
Qed.

Lemma header_fits code reason ctype n :
  (length reason ≤ 32)%nat → (length ctype ≤ 64)%nat → (length (http_response_header code reason ctype n) < 512)%nat.
Proof.
  intros H1 H2. unfold http_response_header, crlf. rewrite !length_app. pose proof (decimal_text_length code). pose proof (decimal64_length (Z.of_nat n)).
  change (length CRLF) with 2%nat. change (length (str "HTTP/1.1 ")) with 9%nat. change (length (str " ")) with 1%nat.
  change (length (str "Content-Type: ")) with 14%nat. change (length (str "Content-Length: ")) with 16%nat.
  change (length (str "Connection: close")) with 17%nat. change (length (str "Server: DistriC-Obs/1.0.0")) with 25%nat.
  change (length (str "Cache-Control: no-cache")) with 23%nat. change (length (@nil Z)) with 0%nat. lia.
Qed.

(** What is sent is a header that announces exactly the bytes that follow it, the body
    cut to the limit, whatever pieces the kernel takes. *)
Theorem response_sent_whole (ns : list Z) (max_body : Z) (r : response) :
  reason_ok r → Forall (λ n, 0 < n) ns → (512 + length (rs_body r) ≤ length ns)%nat →
  send_response_str ns max_body r =
    (Some <$> http_response_header (rs_code r) (rs_reason r) (rs_content_type r) (length (announced max_body r))) ++ announced max_body r
  ∧ Z.of_nat (length (announced max_body r)) = Z.max 0 (Z.min (Z.of_nat (length (rs_body r))) max_body).
Proof.
  intros (Hc & Hr & Ht) Hns Hlen. unfold send_response_str. fold (announced max_body r).
  pose proof (header_fits (rs_code r) (rs_reason r) (rs_content_type r) (length (announced max_body r)) Hr Ht) as Hh.
  assert (Ha : Z.of_nat (length (announced max_body r)) = Z.max 0 (Z.min (Z.of_nat (length (rs_body r))) max_body))
    by (unfold announced; rewrite length_take; lia).
  split; [|done]. rewrite (proj2 (Nat.leb_gt _ _)) by lia.
  set (header := http_response_header _ _ _ _) in *.
  destruct (write_all_everything ns (Some <$> header) Hns) as (ns1 & -> & Hns1 & Hl1); rewrite length_fmap in *; [lia|].
  destruct (write_all_everything ns1 (announced max_body r) Hns1) as (ns2 & -> & _); [lia|done].
Qed.

Lemma response_sent_whole_witness :
  send_response_str (replicate 600 7) 5 (send_error 404 (str "Not Found")) =
    (Some <$> http_response_header 404 (str "Not Found") (str "text/plain") 5) ++ (Some <$> str "Not F")
  ∧ Z.of_nat (length (announced 5 (send_error 404 (str "Not Found")))) = Z.max 0 (Z.min 9 5).
Proof.
  apply (response_sent_whole (replicate 600 7) 5 (send_error 404 (str "Not Found"))).
  - split; [cbn; lia|]. split; apply Nat.leb_le; reflexivity.
  - apply Forall_replicate. lia.
  - apply Nat.leb_le. reflexivity.
Defined.

(** ** The accept loop *)

(** Between two connections none is counted, and the loop goes through everything that is
    accepted until the flag is set. *)
Lemma accept_turn_idle ev s w s' w' sent :
  os_active_connections s = 0 → server_accept_turn ev s w = Ok (s', w', sent) → s' = s.
Proof.
  intros Ha. destruct ev as [|recvs ns env]; cbn [server_accept_turn]; [by intros [= <- _ _]|].
  rewrite Ha. destruct (set_active_gauge _ _ w); cbn [mbind result_bind]; try done.
  destruct (handle_connection _ _ _ _) as [[w1 r]| |]; cbn [mbind result_bind]; try done.
  destruct (set_active_gauge _ _ _); cbn [mbind result_bind]; try done. intros [= <- _ _].
  destruct s; cbn in *. by subst.
Qed.

Lemma accept_run_idle evs s w s' w' sent :
  os_active_connections s = 0 → accept_run evs s w = Ok (s', w', sent) → s' = s.
Proof.
  revert s w w' sent. induction evs as [|ev evs IH]; intros s w w' sent Ha; cbn [accept_run]; [by intros [= <- _ _]|].
  destruct (os_shutdown s); [by intros [= <- _ _]|].
  destruct (server_accept_turn ev s w) as [[[s1 w1] sent1]| |] eqn:E; cbn [mbind result_bind]; try done.
  apply accept_turn_idle in E as ->; [|done].
  destruct (accept_run evs s w1) as [[[s2 w2] rest]| |] eqn:E2; cbn [mbind result_bind]; try done.
  intros [= <- _ _]. by eapply IH.
Qed.

(** ** Descriptors *)

(** Whatever fails, creation leaves no descriptor open, and destruction closes the one that
    a successful creation opened. *)
Lemma server_descriptors (config : option obs_server_config) (env : obs_env) :
  match obs_server_init_with_config config env with
  | (Ok s, opened) => opened = [os_listen_fd s] ∧ snd (obs_server_destroy s opened) = []
      ∧ os_shutdown (fst (obs_server_destroy s opened)) = true
  | (_, opened) => opened = []
  end.
Proof.
  unfold obs_server_init_with_config. destruct config as [[port [m|] [] r wr max]|]; try done.
  destruct (oe_calloc env); [|done]. cbn [negb]. destruct (Z.ltb_spec (oe_socket env) 0) as [|Hfd]; [done|].
  assert (Hc : filter (λ x, x ≠ oe_socket env) [oe_socket env] = []).
  { rewrite filter_cons, decide_False by tauto. done. }
  destruct (oe_bind env); [|done]. destruct (oe_listen env); [|done]. destruct (oe_thread env); [|done]. cbn [negb].
  split; [done|]. unfold obs_server_destroy. cbn [os_listen_fd fst snd os_set_shutdown os_shutdown].
  split; [|done]. destruct (Z.geb_spec (oe_socket env) 0); [exact Hc|lia].
Qed.

(** ** What gets through *)

(** Only three letters of the method are compared, and the method need not be followed by
    a space: the rest of a long word is taken for the path. *)
Theorem get_prefix_accepted :
  let answer line := handle_connection example_server (HttpEnv true true) [line ++ CRLF] example_world in
  answer (str "GETTING /health/live HTTP/1.1") = answer (str "GET /health/live HTTP/1.1")
  ∧ answer (str "GETabcd/health/live HTTP/1.1") = answer (str "GET /health/live HTTP/1.1").
Proof. split; vm_compute; reflexivity. Qed.

(** ** Registration *)

Lemma register_plain (type : metric_type) (reg : metrics_registry) (name help : list Z) :
  mr_state reg = REGISTRY_STATE_MUTABLE → 1 ≤ mr_cardinality_cap reg →
  Z.of_nat (length (mr_metrics reg)) < mr_effective_max reg →
  ∃ m, register_metric reg name help type None 0 all_ok = (Ok (length (mr_metrics reg)), mr_set_metrics (mr_metrics reg ++ [m]) reg)
    ∧ m_label_defs m = [] ∧ new_instances type 1 all_ok = Ok (m_instances m).
Proof.
  intros Hst Hcap Hroom. unfold register_metric. change (DISTRIC_MAX_METRIC_LABELS <? 0)%nat with false.
  change (negb (length (@nil metric_label_definition) =? 0)%nat) with false. change (compute_cardinality []) with 1.
  cbn iota. change ((1 =? 0) && (0 <? 0)%nat) with false. cbn iota.
  destruct (Z.gtb_spec 1 (mr_cardinality_cap reg)); [lia|]. rewrite Hst.
  destruct (Z.geb_spec (Z.of_nat (length (mr_metrics reg))) (mr_effective_max reg)); [lia|].
  change ((0 <? 0)%nat) with false. cbn [andb]. change (alloc_slots [] (Z.to_nat 1)) with 1%nat.
  destruct (new_instances type 1 all_ok) as [a| |] eqn:E; [|by destruct type..].
  cbn [all_ok rv_mutex negb]. eexists. split; [reflexivity|]. done.
Qed.

Lemma count_of_lookup w reg r i m v :
  wd_registries w !! reg = Some r → mr_metrics r !! i = Some m → metrics_counter_get m = Ok v → count_of w reg (Some i) = Some v.
Proof. intros Hr Hm Hv. unfold count_of. cbn [mbind option_bind]. rewrite Hr. cbn [mbind option_bind]. rewrite Hm. cbn [mbind option_bind]. by rewrite Hv. Qed.

Lemma plain_counter_get m : m_label_defs m = [] → new_instances METRIC_TYPE_COUNTER 1 all_ok = Ok (m_instances m) → metrics_counter_get m = Ok 0.
Proof.
  intros Hd Hi. cbn in Hi. injection Hi as Hi. unfold metrics_counter_get, base_slot. by rewrite <- Hi, Hd.
Qed.

(** Registered in a registry with room, the counters start at zero and are ready. *)
Lemma registration_counting (s : obs_server) (reg : nat) (w : world) (r : metrics_registry) :
  os_metrics_registered s = false → wd_registries w !! reg = Some r → mr_state r = REGISTRY_STATE_MUTABLE →
  1 ≤ mr_cardinality_cap r → Z.of_nat (length (mr_metrics r)) + 4 ≤ mr_effective_max r →
  ∃ s' w', obs_server_register_internal_metrics s reg (λ _, all_ok) w = Ok (s', w') ∧ counting s' w' 0 0 0.
Proof.
  intros Hon Hr Hst Hcap Hroom. unfold obs_server_register_internal_metrics. rewrite Hr, Hon.
  unfold register_counter_handle, register_handle, metrics_register_counter, metrics_register_gauge.
  set (name0 := str "distric_internal_http_requests_total"). set (help0 := str "Total HTTP requests handled by the observability server").
  destruct (register_plain METRIC_TYPE_COUNTER r name0 help0 Hst Hcap ltac:(lia)) as (m1 & -> & D1 & I1).
  set (r1 := mr_set_metrics _ r).
  assert (L1 : length (mr_metrics r1) = S (length (mr_metrics r))) by (unfold r1; cbn; rewrite length_app; cbn; lia).
  edestruct (register_plain METRIC_TYPE_COUNTER r1) as (m2 & -> & D2 & I2); [done|done|rewrite L1; cbn; lia|].
  set (r2 := mr_set_metrics _ r1).
  assert (L2 : length (mr_metrics r2) = S (length (mr_metrics r1))) by (unfold r2; cbn [mr_metrics mr_set_metrics]; rewrite length_app; cbn; lia).
  edestruct (register_plain METRIC_TYPE_COUNTER r2) as (m3 & -> & D3 & I3); [done|done|rewrite L2, L1; cbn; lia|].
  set (r3 := mr_set_metrics _ r2).
  assert (L3 : length (mr_metrics r3) = S (length (mr_metrics r2))) by (unfold r3; cbn [mr_metrics mr_set_metrics]; rewrite length_app; cbn; lia).
  edestruct (register_plain METRIC_TYPE_GAUGE r3) as (m4 & -> & _); [done|done|rewrite L3, L2, L1; cbn; lia|].
  eexists _, _. split; [reflexivity|].
  set (n := length (mr_metrics r)) in *.
  assert (Hl : ∀ i m, (mr_metrics r ++ [m1; m2; m3; m4]) !! i = Some m →
    wd_registries (World (<[reg := mr_set_metrics (mr_metrics r3 ++ [m4]) r3]> (wd_registries w)) (wd_health w)) !! reg = Some (mr_set_metrics (mr_metrics r3 ++ [m4]) r3)
    ∧ mr_metrics (mr_set_metrics (mr_metrics r3 ++ [m4]) r3) !! i = Some m).
  { intros i m Hm. split; [cbn; by rewrite list_lookup_insert_eq by (by eapply lookup_lt_Some)|].
    cbn [mr_metrics mr_set_metrics r3 r2 r1]. rewrite <- !app_assoc. exact Hm. }
  assert (Hk : ∀ k m, [m1; m2; m3; m4] !! k = Some m → (mr_metrics r ++ [m1; m2; m3; m4]) !! (n + k)%nat = Some m).
  { intros k m Hm. rewrite lookup_app_r by (unfold n; lia). unfold n. by rewrite Nat.add_comm, Nat.add_sub. }
  split; cbn [os_metrics_registered os_set_metrics os_internal_metrics os_own_registry hm_requests_total hm_errors_4xx_total hm_errors_5xx_total].
  - done.
  - eexists _, _, _. split; [done|]. split; [done|]. split; [done|]. lia.
  - destruct (Hl (n + 0)%nat m1) as [A B]; [by apply Hk|]. rewrite Nat.add_0_r in B. eapply count_of_lookup; [exact A|exact B|by apply plain_counter_get].
  - destruct (Hl (n + 1)%nat m2) as [A B]; [by apply Hk|]. rewrite Nat.add_1_r, <- L1 in B. eapply count_of_lookup; [exact A|exact B|by apply plain_counter_get].
  - destruct (Hl (n + 2)%nat m3) as [A B]; [by apply Hk|]. replace (n + 2)%nat with (length (mr_metrics r2)) in B by lia.
    eapply count_of_lookup; [exact A|exact B|by apply plain_counter_get].
Qed.
