(* ===== verification/TraceSampling.v ===== *)
(** * Tracing: sampling, identifiers and context (libs/distric_obs/src/tracing.c)

    The policy that decides which spans are kept, its switch to a lower rate under
    backpressure, the identifiers, and the text a trace context travels in. *)

From Stdlib Require Import ZArith Lia String.
From stdpp Require Import base list numbers option.
From S2P Require Import Prelude CString.

Local Open Scope Z_scope.

(** ** Sampling *)

Definition BP_FILL_ENTER_PCT : Z := 75.
Definition BP_FILL_EXIT_PCT : Z := 50.
Definition DROP_WINDOW_NS : Z := 1000000000.
Definition DROP_RATE_ENTER_THRESHOLD : Z := 5.
Definition DROP_CLEAR_WINDOW_NS : Z := 3000000000.

Record sampling_config := SamplingConfig {
  sc_always_sample : Z;          (* uint32_t *)
  sc_always_drop : Z;
  sc_backpressure_sample : Z;
  sc_backpressure_drop : Z
}.

Record sampling_state := SamplingState {
  ss_config : sampling_config;
  ss_in_backpressure : bool;
  ss_bp_fill_signal : bool;
  ss_bp_drop_signal : bool;
  ss_drop_window_start_ns : Z;   (* uint64_t *)
  ss_drops_at_window_start : Z;
  ss_last_drop_seen_ns : Z;
  ss_sample_counter : Z
}.

Definition new_sampling (c : sampling_config) : sampling_state := SamplingState c false false false 0 0 0 0.

Definition ss_set_counter (n : Z) (s : sampling_state) : sampling_state :=
  SamplingState (ss_config s) (ss_in_backpressure s) (ss_bp_fill_signal s) (ss_bp_drop_signal s)
    (ss_drop_window_start_ns s) (ss_drops_at_window_start s) (ss_last_drop_seen_ns s) n.

(** The weights in force. *)
Definition sample_weight (s : sampling_state) : Z :=
  if ss_in_backpressure s then sc_backpressure_sample (ss_config s) else sc_always_sample (ss_config s).
Definition drop_weight (s : sampling_state) : Z :=
  if ss_in_backpressure s then sc_backpressure_drop (ss_config s) else sc_always_drop (ss_config s).

Definition sampling_should_sample (s : sampling_state) : bool * sampling_state :=
  let sw := sample_weight s in
  let dw := drop_weight s in
  let total := u32 (sw + dw) in
  if total =? 0 then (false, s)
  else if dw =? 0 then (true, s)
  else
    let cnt := ss_sample_counter s in
    (cnt mod total <? sw, ss_set_counter (u64 (cnt + 1)) s).

(** [total ? (sw * 100u / total) : 0u] *)
Definition sample_rate_pct (s : sampling_state) : Z :=
  let total := u32 (sample_weight s + drop_weight s) in
  if total =? 0 then 0 else u32 (sample_weight s * 100) / total.

(** Signal A: the fill of the buffer. *)
Definition fill_signal (signal : bool) (head tail capacity : Z) : bool :=
  let depth := if head >? tail then head - tail else 0 in
  if negb signal && (u64 (depth * 100) >=? u64 (capacity * BP_FILL_ENTER_PCT)) then true
  else if signal && (u64 (depth * 100) <? u64 (capacity * BP_FILL_EXIT_PCT)) then false
  else signal.

(** The bookkeeping of signal B: the start of the window, the drops at its start, the time
    drops were last seen, and the signal. *)
Record drop_window := DropWindow {
  dw_start_ns : Z;
  dw_drops_at_start : Z;
  dw_last_seen_ns : Z;
  dw_signal : bool
}.

Definition drop_window_update (w : drop_window) (total_drops now_ns : Z) : drop_window :=
  let '(start, at_start) :=
    if dw_start_ns w =? 0 then (now_ns, total_drops) else (dw_start_ns w, dw_drops_at_start w) in
  let window_drops := u64 (total_drops - at_start) in
  let window_age := u64 (now_ns - start) in
  if negb (dw_signal w) then
    let entered := window_drops >=? DROP_RATE_ENTER_THRESHOLD in
    let last := if entered then now_ns else dw_last_seen_ns w in
    if (window_drops =? 0) && (window_age >? DROP_WINDOW_NS) then DropWindow now_ns total_drops last entered
    else DropWindow start at_start last entered
  else
    let '(start, at_start, last) :=
      if window_drops >? 0 then (now_ns, total_drops, now_ns) else (start, at_start, dw_last_seen_ns w) in
    DropWindow start at_start last (negb (u64 (now_ns - last) >=? DROP_CLEAR_WINDOW_NS)).

Definition window_of (s : sampling_state) : drop_window :=
  DropWindow (ss_drop_window_start_ns s) (ss_drops_at_window_start s) (ss_last_drop_seen_ns s) (ss_bp_drop_signal s).

Definition sampling_state_update (s : sampling_state) (head tail capacity total_drops now_ns : Z) : sampling_state :=
  let fill := fill_signal (ss_bp_fill_signal s) head tail capacity in
  let w := drop_window_update (window_of s) total_drops now_ns in
  SamplingState (ss_config s) (fill || dw_signal w) fill (dw_signal w)
    (dw_start_ns w) (dw_drops_at_start w) (dw_last_seen_ns w) (ss_sample_counter s).

(** ** Identifiers *)

(** The shuffle of [gen_id]. *)
Definition xorshift (v : Z) : Z :=
  let v := Z.lxor v (u64 (Z.shiftl v 13)) in
  let v := Z.lxor v (Z.shiftr v 7) in
  Z.lxor v (u64 (Z.shiftl v 17)).

(** The identifier, and the seed that is left. *)
Definition gen_id (seed : Z) : Z * Z := (Z.lor (xorshift seed) 1, u64 (seed + 1)).

Record trace_id := TraceId { ti_high : Z; ti_low : Z }.

Definition gen_trace_id (seed : Z) : trace_id * Z :=
  let '(high, seed) := gen_id seed in
  let '(low, seed) := gen_id seed in (TraceId high low, seed).

Definition trace_id_is_zero (id : trace_id) : bool := (ti_high id =? 0) && (ti_low id =? 0).
Definition trace_id_zero : trace_id := TraceId 0 0.

(** ** Context *)

Record trace_context := TraceContext { tc_trace_id : trace_id; tc_span_id : Z }.

(** [%016llx] *)
Definition hex_digit (d : Z) : Z := if d <? 10 then 48 + d else 87 + d.
Fixpoint hex (n : nat) (v : Z) : list Z :=
  match n with O => [] | S n => hex n (v / 16) ++ [hex_digit (v mod 16)] end.
Definition hex16 (v : Z) : list Z := hex 16 v.

Definition context_text (high low span : Z) : list Z := hex16 high ++ hex16 low ++ str "-" ++ hex16 span.

(** What is in the buffer, its terminator left out; [sampled] is that of the span. *)
Definition trace_inject_context (sampled : bool) (id : trace_id) (span_id : Z) (buf_size : nat) : result unit * list Z :=
  if (buf_size =? 0)%nat then (Err DISTRIC_ERR_INVALID_ARG, [])
  else if negb sampled then (Ok tt, [])
  else
    let text := context_text (ti_high id) (ti_low id) span_id in
    (if (length text <? buf_size)%nat then Ok tt else Err DISTRIC_ERR_BUFFER_OVERFLOW, take (buf_size - 1) text).

Definition hex_value (c : Z) : option Z :=
  if is_digit c then Some (c - 48)
  else if (97 <=? c) && (c <=? 102) then Some (c - 87)
  else if (65 <=? c) && (c <=? 70) then Some (c - 55)
  else None.

(** The digits of a [%<n>llx]: their value, their number and the rest. *)
Fixpoint scan_digits (n : nat) (acc : Z) (s : list Z) : Z * nat * list Z :=
  match n, s with
  | S n, c :: s' =>
      match hex_value c with
      | Some d => let '(v, k, rest) := scan_digits n (acc * 16 + d) s' in (v, S k, rest)
      | None => (acc, 0%nat, s)
      end
  | _, _ => (acc, 0%nat, s)
  end.

(** A [%<n>llx] of [sscanf]: white space, a sign, a prefix [0x], digits; the sign and the
    prefix count for the width. *)
Definition scan_hex (n : nat) (s : list Z) : option (Z * list Z) :=
  let s := skip_spaces s in
  let '(negative, n, s) :=
    match s with
    | c :: s' => if c =? 45 then (true, pred n, s') else if c =? 43 then (false, pred n, s') else (false, n, s)
    | [] => (false, n, s)
    end in
  let '(n, s) :=
    match s with
    | z :: x :: s' => if (z =? 48) && ((x =? 120) || (x =? 88)) && (2 <=? n)%nat then (n - 2, s')%nat else (n, s)
    | _ => (n, s)
    end in
  let '(v, k, rest) := scan_digits n 0 s in
  if (k =? 0)%nat then None else Some (if negative : bool then u64 (- v) else v, rest).

Definition trace_extract_context (header : list Z) : result trace_context :=
  match
    '(high, s) ← scan_hex 16 header;
    '(low, s) ← scan_hex 16 s;
    match s with
    | c :: s => if c =? 45 then '(span, _) ← scan_hex 16 s; Some (TraceContext (TraceId high low) span) else None
    | [] => None
    end
  with
  | Some ctx => Ok ctx
  | None => Err DISTRIC_ERR_INVALID_FORMAT
  end.

(** ** The rate *)

(** The decisions of successive calls while the policy does not change. *)
Fixpoint decisions (n : nat) (s : sampling_state) : list bool :=
  match n with
  | O => []
  | S n => let '(b, s) := sampling_should_sample s in b :: decisions n s
  end.

Definition kept (l : list bool) : Z := sumZ Z.b2z l.

(** The calls of a window whose counter modulo [m] is below [k]. *)
Fixpoint window_count (m k c : Z) (n : nat) : Z :=
  match n with O => 0 | S n => Z.b2z (c mod m <? k) + window_count m k (c + 1) n end.

Lemma window_count_snoc m k c n :
  window_count m k c (S n) = window_count m k c n + Z.b2z ((c + Z.of_nat n) mod m <? k).
Proof.
  revert c. induction n as [|n IH]; intros c; [cbn [window_count Z.of_nat]; rewrite !Z.add_0_r; lia|].
  change (window_count m k c (S (S n))) with (Z.b2z (c mod m <? k) + window_count m k (c + 1) (S n)). rewrite IH.
  cbn [window_count]. replace (c + 1 + Z.of_nat n) with (c + Z.of_nat (S n)) by lia. lia.
Qed.

Lemma window_count_shift m k c n :
  0 < m → Z.of_nat n mod m = 0 → window_count m k (c + 1) n = window_count m k c n.
Proof.
  intros Hm Hn. pose proof (window_count_snoc m k c n) as H. cbn [window_count] in H.
  assert (E : (c + Z.of_nat n) mod m = c mod m) by (rewrite Zplus_mod, Hn, Z.add_0_r, Zmod_mod; done).
  rewrite E in H. lia.
Qed.

Lemma window_count_start m k c n :
  0 < m → Z.of_nat n mod m = 0 → 0 ≤ c → window_count m k c n = window_count m k 0 n.
Proof.
  intros Hm Hn Hc. revert c Hc. apply natlike_ind; [done|]. intros c Hc IH.
  unfold Z.succ. by rewrite window_count_shift.
Qed.

(** The first [j] calls of a period. *)
Lemma window_count_period m k j :
  0 ≤ k ≤ m → (Z.of_nat j ≤ m) → window_count m k 0 j = Z.min k (Z.of_nat j).
Proof.
  intros Hk. induction j as [|j IH]; intros Hj; [cbn; lia|].
  rewrite window_count_snoc, IH by lia. rewrite Z.add_0_l, Z.mod_small by lia.
  destruct (Z.ltb_spec (Z.of_nat j) k); cbn [Z.b2z]; lia.
Qed.

Lemma window_count_app m k c n1 n2 :
  window_count m k c (n1 + n2) = window_count m k c n1 + window_count m k (c + Z.of_nat n1) n2.
Proof.
  revert c. induction n1 as [|n1 IH]; intros c; cbn [Nat.add window_count]; [by rewrite Z.add_0_r|].
  rewrite IH. replace (c + 1 + Z.of_nat n1) with (c + Z.of_nat (S n1)) by lia. lia.
Qed.

Lemma window_count_periods m k c j :
  0 < m → 0 ≤ k ≤ m → 0 ≤ c → window_count m k c (j * Z.to_nat m) = Z.of_nat j * k.
Proof.
  intros Hm Hk Hc. revert c Hc. induction j as [|j IH]; intros c Hc; [done|].
  cbn [Nat.mul]. rewrite window_count_app, (IH (c + Z.of_nat (Z.to_nat m))) by lia.
  rewrite window_count_start by (try lia; rewrite Z2Nat.id by lia; by rewrite Z_mod_same_full).
  rewrite window_count_period by lia. lia.
Qed.

Lemma decisions_count (n : nat) (s : sampling_state) :
  0 < drop_weight s → 0 ≤ sample_weight s → sample_weight s + drop_weight s < 2 ^ 32 →
  0 ≤ ss_sample_counter s → ss_sample_counter s + Z.of_nat n ≤ 2 ^ 64 →
  kept (decisions n s) = window_count (sample_weight s + drop_weight s) (sample_weight s) (ss_sample_counter s) n.
Proof.
  intros Hd Hs Ht. revert s Hd Hs Ht. induction n as [|n IH]; intros s Hd Hs Ht H0 Hc; [done|].
  cbn [decisions window_count]. unfold sampling_should_sample.
  rewrite u32_id by (unfold is_u32; lia). destruct (Z.eqb_spec (sample_weight s + drop_weight s) 0); [lia|].
  destruct (Z.eqb_spec (drop_weight s) 0); [lia|]. unfold kept, sumZ. cbn [foldr].
  change (foldr (λ x y, Z.b2z x + y) 0 ?l) with (kept l).
  destruct (decide (Z.of_nat n = 0)) as [Hz|Hz].
  { destruct n; [cbn; lia|lia]. }
  rewrite u64_id by (unfold is_u64; lia).
  set (s' := ss_set_counter _ s).
  assert (E : kept (decisions n s') = window_count (sample_weight s + drop_weight s) (sample_weight s) (ss_sample_counter s + 1) n)
    by (apply (IH s'); try done; cbn [ss_sample_counter s' ss_set_counter]; lia).
  rewrite <- E. done.
Qed.

(** C38: the configured rate is exact: of any [sample + drop] consecutive decisions, and of
    any multiple of that many, the configured share is kept; without drops all are. *)
Theorem sampling_rate_exact (s : sampling_state) (periods : nat) :
  let total := sample_weight s + drop_weight s in
  0 ≤ sample_weight s → 0 ≤ drop_weight s → 0 < total < 2 ^ 32 → 0 ≤ ss_sample_counter s →
  ss_sample_counter s + Z.of_nat periods * total ≤ 2 ^ 64 →
  kept (decisions (periods * Z.to_nat total) s) = Z.of_nat periods * sample_weight s.
Proof.
  intros total Hs Hd Ht H0 Hc. destruct (Z.eq_dec (drop_weight s) 0) as [Hz|Hz].
  - assert (E : ∀ n, kept (decisions n s) = Z.of_nat n).
    { induction n as [|n IH]; [done|]. cbn [decisions]. unfold sampling_should_sample.
      rewrite u32_id by (unfold is_u32; lia). destruct (Z.eqb_spec (sample_weight s + drop_weight s) 0); [lia|].
      rewrite Hz. cbn [Z.eqb]. unfold kept, sumZ in *. cbn [foldr Z.b2z]. rewrite IH. lia. }
    rewrite E. unfold total. rewrite Nat2Z.inj_mul, Z2Nat.id by lia. rewrite Hz, Z.add_0_r. done.
  - rewrite decisions_count; [|lia..|rewrite Nat2Z.inj_mul, Z2Nat.id by lia; lia].
    by apply window_count_periods; lia.
Qed.

Definition example_sampling : sampling_state := ss_set_counter 12345 (new_sampling (SamplingConfig 1 9 1 99)).

Lemma sampling_rate_exact_witness : kept (decisions (3 * Z.to_nat 10) example_sampling) = 3 * 1.
Proof. apply (sampling_rate_exact example_sampling 3); by vm_compute. Defined.

(** With no drop weight every span is kept; with weights whose sum wraps to zero none is. *)
Theorem wrapped_weights_drop_all (s : sampling_state) :
  sample_weight s + drop_weight s = 2 ^ 32 → fst (sampling_should_sample s) = false.
Proof. intros H. unfold sampling_should_sample. by rewrite H. Qed.

Lemma wrapped_weights_drop_all_witness :
  fst (sampling_should_sample (new_sampling (SamplingConfig (2 ^ 32 - 1) 1 1 1))) = false.
Proof. by apply wrapped_weights_drop_all. Defined.

(** ** The end of backpressure *)

(** What the exporter sees at one of its updates. *)
Record observation := Observation { ob_head : Z; ob_tail : Z; ob_drops : Z; ob_now : Z }.

Definition update_with (capacity : Z) (s : sampling_state) (o : observation) : sampling_state :=
  sampling_state_update s (ob_head o) (ob_tail o) capacity (ob_drops o) (ob_now o).

(** The buffer less than half full and no further drop. *)
Definition calm (capacity drops : Z) (o : observation) : Prop :=
  ob_drops o = drops ∧ 0 < ob_now o < 2 ^ 64
  ∧ 0 ≤ (if ob_head o >? ob_tail o then ob_head o - ob_tail o else 0) * 100 < capacity * BP_FILL_EXIT_PCT.

Lemma fill_calm capacity drops o signal :
  0 < capacity < 2 ^ 32 → calm capacity drops o → fill_signal signal (ob_head o) (ob_tail o) capacity = false.
Proof.
  intros Hc (_ & _ & Hd). unfold fill_signal. set (depth := if _ >? _ then _ else _) in *.
  unfold BP_FILL_EXIT_PCT, BP_FILL_ENTER_PCT in *.
  rewrite !u64_id by (unfold is_u64; lia).
  destruct signal; cbn [negb andb].
  - rewrite (proj2 (Z.ltb_lt _ _)) by lia. done.
  - destruct (Z.geb_spec (depth * 100) (capacity * 75)); [lia|done].
Qed.

(** The drops since the start of the window. *)
Definition new_drops (drops : Z) (w : drop_window) : Z := u64 (drops - dw_drops_at_start w).

(** Where the window stands while [drops] does not change: off for good, on since a drop
    seen at [t] at the latest, or on with drops not yet accounted for. *)
Definition off (drops : Z) (w : drop_window) : Prop :=
  dw_start_ns w ≠ 0 ∧ dw_signal w = false ∧ new_drops drops w < DROP_RATE_ENTER_THRESHOLD.
Definition on_since (drops t : Z) (w : drop_window) : Prop :=
  dw_start_ns w ≠ 0 ∧ dw_signal w = true ∧ new_drops drops w = 0 ∧ 0 ≤ dw_last_seen_ns w ≤ t.
Definition entering (drops : Z) (w : drop_window) : Prop :=
  dw_start_ns w ≠ 0 ∧ dw_signal w = true ∧ 0 < new_drops drops w.

Lemma new_drops_self drops start last signal : new_drops drops (DropWindow start drops last signal) = 0.
Proof. unfold new_drops. cbn. by rewrite Z.sub_diag. Qed.

Lemma update_unset w drops now :
  dw_start_ns w = 0 → now ≠ 0 →
  drop_window_update w drops now = drop_window_update (DropWindow now drops (dw_last_seen_ns w) (dw_signal w)) drops now.
Proof.
  intros Hz Hn. unfold drop_window_update. rewrite Hz. cbn [dw_start_ns]. destruct (Z.eqb_spec now 0); [done|]. done.
Qed.

Lemma off_update w drops now : off drops w → 0 < now → off drops (drop_window_update w drops now).
Proof.
  intros (Hs & Hf & Hw) Hn. unfold drop_window_update. destruct (Z.eqb_spec (dw_start_ns w) 0) as [|_]; [done|].
  rewrite Hf. cbn [negb]. fold (new_drops drops w). destruct (Z.geb_spec (new_drops drops w) DROP_RATE_ENTER_THRESHOLD); [lia|].
  destruct (_ && _); unfold off; cbn [dw_start_ns dw_signal]; [|done].
  rewrite new_drops_self. unfold DROP_RATE_ENTER_THRESHOLD. split_and!; lia || done.
Qed.

Lemma on_since_update w drops now t :
  on_since drops t w → 0 < now < 2 ^ 64 →
  let w' := drop_window_update w drops now in
  off drops w' ∨ (on_since drops t w' ∧ (t + DROP_CLEAR_WINDOW_NS ≤ now → False)).
Proof.
  intros (Hs & Hf & Hw & Hl) Hn. unfold drop_window_update. destruct (Z.eqb_spec (dw_start_ns w) 0) as [|_]; [done|].
  rewrite Hf. cbn [negb]. fold (new_drops drops w). rewrite Hw. change (0 >? 0) with false. cbn iota.
  destruct (Z.geb_spec (u64 (now - dw_last_seen_ns w)) DROP_CLEAR_WINDOW_NS) as [Hge|Hlt]; cbn [negb].
  - left. unfold off. cbn [dw_start_ns dw_signal]. unfold new_drops in *. cbn [dw_drops_at_start]. rewrite Hw.
    unfold DROP_RATE_ENTER_THRESHOLD. split_and!; lia || done.
  - right. split.
    + unfold on_since, new_drops in *. cbn [dw_start_ns dw_signal dw_drops_at_start dw_last_seen_ns]. done.
    + intros Hlate. unfold DROP_CLEAR_WINDOW_NS in *. rewrite u64_id in Hlt by (unfold is_u64; lia). lia.
Qed.

Lemma entering_update w drops now :
  entering drops w → 0 < now → on_since drops now (drop_window_update w drops now).
Proof.
  intros (Hs & Hf & Hw) Hn. unfold drop_window_update. destruct (Z.eqb_spec (dw_start_ns w) 0) as [|_]; [done|].
  rewrite Hf. cbn [negb]. fold (new_drops drops w). destruct (Z.gtb_spec (new_drops drops w) 0); [|lia].
  rewrite Z.sub_diag. change (u64 0 >=? DROP_CLEAR_WINDOW_NS) with false. unfold on_since.
  cbn [dw_start_ns dw_signal dw_last_seen_ns negb]. rewrite new_drops_self. split_and!; lia || done.
Qed.

Lemma any_update w drops now :
  0 < now < 2 ^ 64 → 0 ≤ dw_last_seen_ns w ≤ now →
  let w' := drop_window_update w drops now in off drops w' ∨ on_since drops now w' ∨ entering drops w'.
Proof.
  intros Hn Hl.
  assert (H : ∀ v, dw_start_ns v ≠ 0 → 0 ≤ dw_last_seen_ns v ≤ now →
    let w' := drop_window_update v drops now in off drops w' ∨ on_since drops now w' ∨ entering drops w').
  { intros v Hs Hv. pose proof (u64_range (drops - dw_drops_at_start v)) as Hr. unfold is_u64 in Hr. fold (new_drops drops v) in Hr.
    destruct (dw_signal v) eqn:Hf.
    - destruct (Z.eq_dec (new_drops drops v) 0) as [E|E].
      + destruct (on_since_update v drops now now) as [?|[? _]]; [split_and!; done || lia|done|by left|right; by left].
      + right; left. apply entering_update; [|lia]. split_and!; lia || done.
    - destruct (Z.lt_ge_cases (new_drops drops v) DROP_RATE_ENTER_THRESHOLD) as [Hlt|Hge].
      + left. apply off_update; [by split_and!|lia].
      + right; right. unfold drop_window_update. destruct (Z.eqb_spec (dw_start_ns v) 0) as [|_]; [done|].
        rewrite Hf. cbn [negb]. fold (new_drops drops v). unfold DROP_RATE_ENTER_THRESHOLD in *.
        destruct (Z.geb_spec (new_drops drops v) 5); [|lia]. destruct (Z.eqb_spec (new_drops drops v) 0); [lia|]. cbn [andb].
        unfold entering, new_drops in *. cbn [dw_start_ns dw_signal dw_drops_at_start]. split_and!; lia || done. }
  cbv zeta in *. destruct (Z.eq_dec (dw_start_ns w) 0) as [Hz|Hz]; [|by apply H].
  rewrite update_unset by lia. apply H; cbn; lia.
Qed.

Lemma window_update capacity s o :
  window_of (update_with capacity s o) = drop_window_update (window_of s) (ob_drops o) (ob_now o).
Proof. unfold update_with, window_of at 1, sampling_state_update. cbn. by destruct (drop_window_update _ _ _). Qed.

Lemma calm_run capacity drops s os t :
  0 < capacity < 2 ^ 32 → Forall (calm capacity drops) os →
  off drops (window_of s) ∨ on_since drops t (window_of s) →
  let s' := foldl (update_with capacity) s os in off drops (window_of s') ∨ on_since drops t (window_of s').
Proof.
  intros Hc Hos. revert s. induction Hos as [|o os (Hd & Hn & _) _ IH]; intros s H; [done|]. cbn [foldl]. apply IH.
  rewrite window_update.
  rewrite Hd. destruct H as [H|H].
  - left. apply off_update; [done|lia].
  - destruct (on_since_update _ drops (ob_now o) t H) as [?|[? _]]; [lia|by left|by right].
Qed.

(** Backpressure ends: once the buffer is less than half full and no more spans are
    dropped, the first update three seconds after the second one turns it off, whatever
    the state it started from. *)
Theorem backpressure_ends (capacity drops : Z) (s : sampling_state) (o1 o2 o : observation) (os : list observation) :
  0 < capacity < 2 ^ 32 → Forall (calm capacity drops) (o1 :: o2 :: os ++ [o]) →
  0 ≤ ss_last_drop_seen_ns s ≤ ob_now o1 → ob_now o1 ≤ ob_now o2 → ob_now o2 + DROP_CLEAR_WINDOW_NS ≤ ob_now o →
  ss_in_backpressure (foldl (update_with capacity) s (o1 :: o2 :: os ++ [o])) = false.
Proof.
  intros Hc Hcalm Hl H12 Hlate. apply Forall_cons_1 in Hcalm as [C1 Hcalm]. apply Forall_cons_1 in Hcalm as [C2 Hcalm].
  apply Forall_app in Hcalm as [Cs C]. apply Forall_cons_1 in C as [C _]. cbn [foldl]. rewrite foldl_app. cbn [foldl].
  set (s1 := update_with capacity s o1). set (s2 := update_with capacity s1 o2).
  assert (Hw1 : off drops (window_of s1) ∨ on_since drops (ob_now o1) (window_of s1) ∨ entering drops (window_of s1)).
  { destruct C1 as (Hd & Hn & _). unfold s1. rewrite window_update, Hd. by apply any_update. }
  assert (Hw2 : off drops (window_of s2) ∨ on_since drops (ob_now o2) (window_of s2)).
  { destruct C2 as (Hd & Hn & _). unfold s2. rewrite window_update, Hd. destruct Hw1 as [H|[H|H]].
    - left. apply off_update; [done|lia].
    - destruct (on_since_update (window_of s1) drops (ob_now o2) (ob_now o2)) as [?|[? _]]; [|lia|by left|by right].
      destruct H as (? & ? & ? & ?). split_and!; done || lia.
    - right. apply entering_update; [done|lia]. }
  pose proof (calm_run capacity drops s2 os (ob_now o2) Hc Cs Hw2) as Hw. set (s3 := foldl _ s2 os) in *. cbv zeta in Hw.
  unfold update_with, sampling_state_update. cbn [ss_in_backpressure]. rewrite (fill_calm capacity drops o) by done. cbn [orb].
  destruct C as (Hd & Hn & _). rewrite Hd. destruct Hw as [H|H].
  - by apply (off_update _ drops (ob_now o)) in H as (_ & ? & _); [|lia].
  - destruct (on_since_update _ drops (ob_now o) (ob_now o2) H Hn) as [(_ & ? & _)|[_ []]]; [done|lia].
Qed.

(** A state under backpressure by fill and by drops. *)
Definition pressed : sampling_state :=
  SamplingState (SamplingConfig 1 0 1 9) true true true 1000 3 900 0.

Lemma backpressure_ends_witness :
  ss_in_backpressure (foldl (update_with 16) pressed
    [Observation 20 18 9 2000; Observation 21 20 9 3000; Observation 22 21 9 4000; Observation 22 22 9 3000003000]) = false.
Proof.
  apply (backpressure_ends 16 9 pressed (Observation 20 18 9 2000) (Observation 21 20 9 3000) (Observation 22 22 9 3000003000)
    [Observation 22 21 9 4000]); [lia| |cbn; lia|cbn; lia|cbn; unfold DROP_CLEAR_WINDOW_NS; lia].
  repeat (constructor; [split; [done|]; cbn; unfold BP_FILL_EXIT_PCT; lia|]). constructor.
Defined.

(** The signal is documented as five drops in a second, but a window with one to four drops
    is never restarted: one drop every ten minutes raises it. *)
Definition slow_drops : list observation :=
  (λ k, Observation 0 0 (Z.of_nat k) (1000000000 + 600000000000 * Z.of_nat k)) <$> seq 0 7.
Theorem slow_drops_enter :
  ss_in_backpressure (foldl (update_with 1024) (new_sampling (SamplingConfig 1 0 1 9)) slow_drops) = true
  ∧ ∀ k o o', slow_drops !! k = Some o → slow_drops !! S k = Some o' →
      ob_drops o' - ob_drops o = 1 ∧ ob_now o' - ob_now o = 600 * DROP_WINDOW_NS.
Proof.
  split; [by vm_compute|]. intros k o o' H1 H2. unfold slow_drops in *.
  apply list_lookup_fmap_Some in H1 as (i & -> & Hi). apply list_lookup_fmap_Some in H2 as (i' & -> & Hi').
  apply lookup_seq in Hi as [-> _]. apply lookup_seq in Hi' as [-> _]. cbn [ob_drops ob_now]. unfold DROP_WINDOW_NS. lia.
Qed.

(** ** Identifiers *)

Lemma gen_id_odd seed : Z.odd (fst (gen_id seed)) = true.
Proof. unfold gen_id. cbn [fst]. rewrite <- Z.bit0_odd, Z.lor_spec. apply orb_true_r. Qed.

(** No identifier is the one that stands for none. *)
Lemma gen_trace_id_set seed : trace_id_is_zero (fst (gen_trace_id seed)) = false.
Proof.
  unfold gen_trace_id. pose proof (gen_id_odd seed) as H. destruct (gen_id seed) as [high s]. destruct (gen_id s) as [low s'].
  cbn [fst] in *. unfold trace_id_is_zero. cbn [ti_high]. destruct (Z.eqb_spec high 0) as [->|]; [done|done].
Qed.

(** ** The context travels unchanged *)

Lemma hex_digit_value d : 0 ≤ d < 16 → hex_value (hex_digit d) = Some d.
Proof.
  intros H. unfold hex_digit, hex_value, is_digit. destruct (Z.ltb_spec d 10).
  - rewrite (proj2 (Z.leb_le 48 _)), (proj2 (Z.leb_le _ 57)) by lia. cbn. f_equal. lia.
  - rewrite (proj2 (Z.leb_gt _ 57)), andb_false_r by lia. rewrite (proj2 (Z.leb_le 97 _)), (proj2 (Z.leb_le _ 102)) by lia.
    cbn. f_equal. lia.
Qed.

Lemma hex_length n v : length (hex n v) = n.
Proof. revert v. induction n as [|n IH]; intros v; cbn [hex]; [done|]. rewrite length_app, IH. cbn. lia. Qed.

Lemma scan_digits_app n m acc s rest :
  scan_digits (n + m) acc s = scan_digits (n + m) acc s → length s = n → Forall (λ c, hex_value c ≠ None) s →
  ∃ v, scan_digits n acc s = (v, n, []) ∧
    scan_digits (n + m) acc (s ++ rest) = let '(v', k, r) := scan_digits m v rest in (v', (n + k)%nat, r).
Proof.
  intros _ Hl H. revert n acc Hl. induction H as [|c s Hc _ IH]; intros n acc Hl; cbn in Hl; subst n.
  - exists acc. cbn. by destruct (scan_digits m acc rest) as [[v' k] r].
  - cbn [length app Nat.add scan_digits]. destruct (hex_value c) as [d|] eqn:E; [|done].
    destruct (IH (length s) (acc * 16 + d) eq_refl) as (v & E1 & E2). exists v. rewrite E1, E2.
    split; [done|]. by destruct (scan_digits m v rest) as [[v' k] r].
Qed.

Lemma hex_digits_ok n v : Forall (λ c, hex_value c ≠ None) (hex n v).
Proof.
  revert v. induction n as [|n IH]; intros v; cbn [hex]; [constructor|]. apply Forall_app. split; [apply IH|].
  constructor; [|constructor]. pose proof (Z.mod_pos_bound v 16 ltac:(lia)). by rewrite hex_digit_value.
Qed.

Lemma scan_hex_digits n acc v :
  0 ≤ v < 16 ^ Z.of_nat n → scan_digits n acc (hex n v) = (acc * 16 ^ Z.of_nat n + v, n, []).
Proof.
  revert acc v. induction n as [|n IH]; intros acc v Hv.
  - cbn in *. f_equal. f_equal. lia.
  - rewrite Nat2Z.inj_succ, Z.pow_succ_r in * by lia. cbn [hex].
    assert (Hd : 0 ≤ v / 16 < 16 ^ Z.of_nat n) by (split; [apply Z.div_pos; lia|apply Z.div_lt_upper_bound; lia]).
    pose proof (Z.mod_pos_bound v 16 ltac:(lia)) as Hm.
    destruct (scan_digits_app n 1 acc (hex n (v / 16)) [hex_digit (v mod 16)] eq_refl (hex_length _ _) (hex_digits_ok _ _)) as (x & E1 & E2).
    rewrite (IH acc (v / 16) Hd) in E1. injection E1 as <-. rewrite Nat.add_1_r in E2. rewrite E2. cbn [scan_digits].
    rewrite hex_digit_value by done. pose proof (Z.div_mod v 16 ltac:(lia)). f_equal. f_equal; lia.
Qed.

Lemma scan_hex16 v rest : is_u64 v → scan_hex 16 (hex16 v ++ rest) = Some (v, rest).
Proof.
  intros Hv. unfold is_u64 in Hv.
  assert (Hsc : scan_digits 16 0 (hex16 v ++ rest) = (v, 16%nat, rest)).
  { destruct (scan_digits_app 16 0 0 (hex16 v) rest eq_refl (hex_length _ _) (hex_digits_ok _ _)) as (x & E1 & E2).
    unfold hex16 in *. rewrite (scan_hex_digits 16 0 v) in E1 by (change (16 ^ Z.of_nat 16) with (2 ^ 64); lia).
    injection E1 as <-. change (16 + 0)%nat with 16%nat in E2. rewrite E2. by destruct rest. }
  pose proof (hex_digits_ok 16 v) as Hok. pose proof (hex_length 16 v) as Hlen. fold (hex16 v) in Hok, Hlen.
  unfold scan_hex. destruct (hex16 v) as [|c1 [|c2 s]] eqn:E; [done..|].
  apply Forall_cons_1 in Hok as [H1 Hok]. apply Forall_cons_1 in Hok as [H2 _].
  assert (Hc1 : is_space c1 = false ∧ (c1 =? 45) = false ∧ (c1 =? 43) = false).
  { unfold hex_value, is_digit in H1. unfold is_space. repeat case_match; split_and!; lia || done. }
  assert (Hc2 : (c2 =? 120) || (c2 =? 88) = false).
  { unfold hex_value, is_digit in H2. repeat case_match; lia || done. }
  destruct Hc1 as (Hs & H45 & H43). cbn [app skip_spaces]. rewrite Hs, H45, H43, Hc2, andb_false_r. cbn [andb]. cbn iota zeta.
  cbn [app] in Hsc. rewrite Hsc. done.
Qed.

(** C37: a trace context that one node injects into a header is the one another extracts,
    when the buffer holds the 49 characters and their terminator. *)
Theorem context_roundtrip (id : trace_id) (span_id : Z) (buf_size : nat) :
  is_u64 (ti_high id) → is_u64 (ti_low id) → is_u64 span_id →
  let '(res, text) := trace_inject_context true id span_id buf_size in
  if (50 <=? buf_size)%nat then res = Ok tt ∧ trace_extract_context text = Ok (TraceContext id span_id)
  else res ≠ Ok tt.
Proof.
  intros Hh Hl Hs. unfold trace_inject_context.
  assert (Hlen : length (context_text (ti_high id) (ti_low id) span_id) = 49%nat).
  { unfold context_text, hex16. rewrite !length_app, !hex_length. done. }
  destruct (Nat.eqb_spec buf_size 0) as [->|Hz]; [done|]. cbn [negb]. cbv zeta. rewrite Hlen.
  destruct (Nat.leb_spec 50 buf_size) as [Hb|Hb]; [|rewrite (proj2 (Nat.ltb_ge _ _)) by lia; done].
  rewrite (proj2 (Nat.ltb_lt _ _)) by lia. split; [done|]. rewrite take_ge by lia.
  unfold trace_extract_context, context_text. rewrite scan_hex16 by done. cbn [mbind option_bind].
  rewrite scan_hex16 by done. cbn [mbind option_bind]. change (str "-" ++ hex16 span_id) with (45 :: hex16 span_id).
  change (45 =? 45) with true. cbn iota. rewrite <- (app_nil_r (hex16 span_id)), scan_hex16 by done. cbn [mbind option_bind].
  by destruct id.
Qed.

Lemma context_roundtrip_witness :
  let '(res, text) := trace_inject_context true (TraceId (2 ^ 64 - 1) 12345) 77 64 in
  if (50 <=? 64)%nat then res = Ok tt ∧ trace_extract_context text = Ok (TraceContext (TraceId (2 ^ 64 - 1) 12345) 77)
  else res ≠ Ok tt.
Proof. apply (context_roundtrip (TraceId (2 ^ 64 - 1) 12345) 77 64); unfold is_u64; cbn [ti_high ti_low]; lia. Defined.
