(* ===== verification/Tracing.v ===== *)
(** * Tracing: spans, their ring and the exporter (libs/distric_obs/src/tracing.c)

    A span lives in a slot of a ring from its start to its export.  Starting a span is a
    sequence of atomic operations; a cycle of the exporter, and each of the other calls, is
    one step. *)

From Stdlib Require Import ZArith Lia String SpecFloat.
From stdpp Require Import base list numbers option.
From S2P Require Import Prelude CString MetricLabels Doubles Metrics LogRing Logger TraceSampling.

Local Open Scope Z_scope.

Definition SPAN_BUFFER_DEFAULT_CAPACITY : Z := 1024.
Definition SPAN_EXPORT_INTERVAL_MS_DEFAULT : Z := 5000.
Definition DISTRIC_MAX_SPANS_BUFFER : Z := 4096.
Definition SPAN_SLOT_CLAIM_MAX_SPIN : Z := 64.
Definition TRACER_EXPORTER_STALE_MULTIPLIER : Z := 3.
Definition EXPORT_BATCH_MAX : nat := 64.
Definition SPAN_OPERATION_LEN : nat := 128.
Definition DISTRIC_MAX_TAG_KEY_LEN : nat := 64.
Definition DISTRIC_MAX_TAG_VALUE_LEN : nat := 256.

(** ** Data *)

Inductive span_slot_state := SPAN_SLOT_EMPTY | SPAN_SLOT_FILLED | SPAN_SLOT_PROCESSING.

Record span_tag := SpanTag { tg_key : list Z; tg_value : list Z }.

Definition SPAN_STATUS_UNSET : Z := 0.

Record trace_span := TraceSpan {
  sp_trace_id : trace_id;
  sp_span_id : Z;
  sp_parent_span_id : Z;
  sp_operation : list Z;
  sp_start_time_ns : Z;
  sp_end_time_ns : Z;
  sp_tags : list span_tag;       (* tags and tag_count *)
  sp_sampled : bool;
  sp_status : Z
}.

Definition zero_span : trace_span := TraceSpan trace_id_zero 0 0 [] 0 0 [] false 0.

Definition sp_set_end (e : Z) (s : trace_span) : trace_span :=
  TraceSpan (sp_trace_id s) (sp_span_id s) (sp_parent_span_id s) (sp_operation s) (sp_start_time_ns s) e (sp_tags s) (sp_sampled s) (sp_status s).
Definition sp_set_tags (l : list span_tag) (s : trace_span) : trace_span :=
  TraceSpan (sp_trace_id s) (sp_span_id s) (sp_parent_span_id s) (sp_operation s) (sp_start_time_ns s) (sp_end_time_ns s) l (sp_sampled s) (sp_status s).
Definition sp_set_status (x : Z) (s : trace_span) : trace_span :=
  TraceSpan (sp_trace_id s) (sp_span_id s) (sp_parent_span_id s) (sp_operation s) (sp_start_time_ns s) (sp_end_time_ns s) (sp_tags s) (sp_sampled s) x.

Record span_slot := SpanSlot { sl_span_state : span_slot_state; sl_span : trace_span }.

Record span_buffer := SpanBuffer {
  sb_head : Z;                   (* _Atomic uint64_t *)
  sb_tail : Z;                   (* _Atomic uint64_t *)
  sb_slots : list span_slot
}.

Record tracer_counts := TracerCounts {
  tn_spans_created : Z;
  tn_spans_sampled_in : Z;
  tn_spans_sampled_out : Z;
  tn_spans_dropped : Z;
  tn_exports_attempted : Z;
  tn_exports_succeeded : Z
}.

Record tracer_internal_metrics := TracerMetrics {
  tm_queue_depth : option nat;
  tm_sample_rate_pct : option nat;
  tm_spans_dropped : option nat;
  tm_spans_sampled_out : option nat;
  tm_in_backpressure : option nat;
  tm_exporter_alive : option nat;
  tm_exports_succeeded : option nat
}.

(** [tr_id_seed] is the global [g_id_seed]; [tr_exported]: the batches the callback got. *)
Record tracer := Tracer {
  tr_buffer : span_buffer;
  tr_sampling : sampling_state;
  tr_export_interval_ms : Z;
  tr_has_callback : bool;
  tr_cached_time_ns : Z;
  tr_last_export_ns : Z;
  tr_counts : tracer_counts;
  tr_exported : list (list trace_span);
  tr_id_seed : Z;
  tr_metrics_handles : tracer_internal_metrics;
  tr_metrics_registered : bool;
  tr_refcount : Z;
  tr_shutdown : bool;
  tr_exporter_started : bool
}.

Definition tr_set_buffer (b : span_buffer) (t : tracer) : tracer :=
  Tracer b (tr_sampling t) (tr_export_interval_ms t) (tr_has_callback t) (tr_cached_time_ns t) (tr_last_export_ns t) (tr_counts t)
    (tr_exported t) (tr_id_seed t) (tr_metrics_handles t) (tr_metrics_registered t) (tr_refcount t) (tr_shutdown t) (tr_exporter_started t).
Definition tr_set_sampling (s : sampling_state) (t : tracer) : tracer :=
  Tracer (tr_buffer t) s (tr_export_interval_ms t) (tr_has_callback t) (tr_cached_time_ns t) (tr_last_export_ns t) (tr_counts t)
    (tr_exported t) (tr_id_seed t) (tr_metrics_handles t) (tr_metrics_registered t) (tr_refcount t) (tr_shutdown t) (tr_exporter_started t).
Definition tr_set_clock (now : Z) (t : tracer) : tracer :=
  Tracer (tr_buffer t) (tr_sampling t) (tr_export_interval_ms t) (tr_has_callback t) now now (tr_counts t)
    (tr_exported t) (tr_id_seed t) (tr_metrics_handles t) (tr_metrics_registered t) (tr_refcount t) (tr_shutdown t) (tr_exporter_started t).
Definition tr_set_counts (c : tracer_counts) (t : tracer) : tracer :=
  Tracer (tr_buffer t) (tr_sampling t) (tr_export_interval_ms t) (tr_has_callback t) (tr_cached_time_ns t) (tr_last_export_ns t) c
    (tr_exported t) (tr_id_seed t) (tr_metrics_handles t) (tr_metrics_registered t) (tr_refcount t) (tr_shutdown t) (tr_exporter_started t).
Definition tr_set_exported (l : list (list trace_span)) (t : tracer) : tracer :=
  Tracer (tr_buffer t) (tr_sampling t) (tr_export_interval_ms t) (tr_has_callback t) (tr_cached_time_ns t) (tr_last_export_ns t) (tr_counts t)
    l (tr_id_seed t) (tr_metrics_handles t) (tr_metrics_registered t) (tr_refcount t) (tr_shutdown t) (tr_exporter_started t).
Definition tr_set_seed (n : Z) (t : tracer) : tracer :=
  Tracer (tr_buffer t) (tr_sampling t) (tr_export_interval_ms t) (tr_has_callback t) (tr_cached_time_ns t) (tr_last_export_ns t) (tr_counts t)
    (tr_exported t) n (tr_metrics_handles t) (tr_metrics_registered t) (tr_refcount t) (tr_shutdown t) (tr_exporter_started t).
Definition tr_set_metrics (h : tracer_internal_metrics) (b : bool) (t : tracer) : tracer :=
  Tracer (tr_buffer t) (tr_sampling t) (tr_export_interval_ms t) (tr_has_callback t) (tr_cached_time_ns t) (tr_last_export_ns t) (tr_counts t)
    (tr_exported t) (tr_id_seed t) h b (tr_refcount t) (tr_shutdown t) (tr_exporter_started t).
Definition tr_set_refcount (n : Z) (t : tracer) : tracer :=
  Tracer (tr_buffer t) (tr_sampling t) (tr_export_interval_ms t) (tr_has_callback t) (tr_cached_time_ns t) (tr_last_export_ns t) (tr_counts t)
    (tr_exported t) (tr_id_seed t) (tr_metrics_handles t) (tr_metrics_registered t) n (tr_shutdown t) (tr_exporter_started t).
Definition tr_set_shutdown (t : tracer) : tracer :=
  Tracer (tr_buffer t) (tr_sampling t) (tr_export_interval_ms t) (tr_has_callback t) (tr_cached_time_ns t) (tr_last_export_ns t) (tr_counts t)
    (tr_exported t) (tr_id_seed t) (tr_metrics_handles t) (tr_metrics_registered t) (tr_refcount t) true (tr_exporter_started t).

(** ** Slots *)

Definition buffer_capacity (t : tracer) : Z := Z.of_nat (length (sb_slots (tr_buffer t))).
Definition span_index (t : tracer) (idx : Z) : nat := Z.to_nat (Z.land idx (buffer_capacity t - 1)).
Definition span_slot_at (t : tracer) (idx : Z) : span_slot :=
  nth (span_index t idx) (sb_slots (tr_buffer t)) (SpanSlot SPAN_SLOT_EMPTY zero_span).

Definition set_span_slot (pos : nat) (s : span_slot) (t : tracer) : tracer :=
  tr_set_buffer (SpanBuffer (sb_head (tr_buffer t)) (sb_tail (tr_buffer t)) (<[pos := s]> (sb_slots (tr_buffer t)))) t.

Definition count_created (c : tracer_counts) : tracer_counts :=
  TracerCounts (u64 (tn_spans_created c + 1)) (tn_spans_sampled_in c) (tn_spans_sampled_out c) (tn_spans_dropped c) (tn_exports_attempted c) (tn_exports_succeeded c).
Definition count_in (c : tracer_counts) : tracer_counts :=
  TracerCounts (tn_spans_created c) (u64 (tn_spans_sampled_in c + 1)) (tn_spans_sampled_out c) (tn_spans_dropped c) (tn_exports_attempted c) (tn_exports_succeeded c).
Definition count_out (c : tracer_counts) : tracer_counts :=
  TracerCounts (tn_spans_created c) (tn_spans_sampled_in c) (u64 (tn_spans_sampled_out c + 1)) (tn_spans_dropped c) (tn_exports_attempted c) (tn_exports_succeeded c).
Definition count_dropped (c : tracer_counts) : tracer_counts :=
  TracerCounts (tn_spans_created c) (tn_spans_sampled_in c) (tn_spans_sampled_out c) (u64 (tn_spans_dropped c + 1)) (tn_exports_attempted c) (tn_exports_succeeded c).
Definition count_export (c : tracer_counts) : tracer_counts :=
  TracerCounts (tn_spans_created c) (tn_spans_sampled_in c) (tn_spans_sampled_out c) (tn_spans_dropped c) (u64 (tn_exports_attempted c + 1)) (u64 (tn_exports_succeeded c + 1)).

(** ** Starting a span *)

(** What a caller holds: nothing, the global no-op span, or the span of a slot. *)
Inductive span_ref := NoSpan | NoopSpan | SlotSpan (pos : nat).

(** The arguments of [start_span_internal], with the real-time clock. *)
Record span_args := SpanArgs {
  sa_trace_id : trace_id;
  sa_parent_id : Z;
  sa_operation : list Z;
  sa_realtime_ns : Z
}.

(** Where a call stands. *)
Inductive span_phase :=
  | SpShutdown
  | SpCreated
  | SpHead
  | SpTail (head : Z)
  | SpSample
  | SpClaim
  | SpRecheck (idx : Z)
  | SpSpin (idx spin : Z)
  | SpInit (idx : Z)
  | SpEnd (res : result unit) (out : span_ref).

(** The fields a new span gets, and the seed that is left. *)
Definition started_span (a : span_args) (cached_time_ns seed : Z) : trace_span * Z :=
  let '(tid, seed) := if trace_id_is_zero (sa_trace_id a) then gen_trace_id seed else (sa_trace_id a, seed) in
  let '(sid, seed) := gen_id seed in
  let start := if cached_time_ns =? 0 then sa_realtime_ns a else cached_time_ns in
  (TraceSpan tid sid (sa_parent_id a) (strncpy (SPAN_OPERATION_LEN - 1) (sa_operation a)) start 0 [] true SPAN_STATUS_UNSET, seed).

Definition drop_span (pos : nat) (t : tracer) : tracer :=
  tr_set_counts (count_dropped (tr_counts t))
    (set_span_slot pos (SpanSlot SPAN_SLOT_EMPTY (sl_span (nth pos (sb_slots (tr_buffer t)) (SpanSlot SPAN_SLOT_EMPTY zero_span)))) t).

(** One atomic operation of [start_span_internal]. *)
Definition span_turn (a : span_args) (ph : span_phase) (t : tracer) : tracer * span_phase :=
  match ph with
  | SpShutdown => (t, if tr_shutdown t then SpEnd (Err DISTRIC_ERR_SHUTDOWN) NoSpan else SpCreated)
  | SpCreated => (tr_set_counts (count_created (tr_counts t)) t, SpHead)
  | SpHead => (t, SpTail (sb_head (tr_buffer t)))
  | SpTail head =>
      if u64 (head - sb_tail (tr_buffer t)) >=? buffer_capacity t then
        (tr_set_counts (count_dropped (tr_counts t)) t, SpEnd (Err DISTRIC_ERR_BACKPRESSURE) NoopSpan)
      else (t, SpSample)
  | SpSample =>
      let '(keep, s) := sampling_should_sample (tr_sampling t) in
      let t := tr_set_sampling s t in
      if keep then (tr_set_counts (count_in (tr_counts t)) t, SpClaim)
      else (tr_set_counts (count_out (tr_counts t)) t, SpEnd (Ok tt) NoopSpan)
  | SpClaim =>
      let b := tr_buffer t in
      (tr_set_buffer (SpanBuffer (u64 (sb_head b + 1)) (sb_tail b) (sb_slots b)) t, SpRecheck (sb_head b))
  | SpRecheck idx =>
      if u64 (idx - sb_tail (tr_buffer t)) >=? buffer_capacity t then
        (drop_span (span_index t idx) t, SpEnd (Err DISTRIC_ERR_BACKPRESSURE) NoopSpan)
      else (t, SpSpin idx 0)
  | SpSpin idx spin =>
      match sl_span_state (span_slot_at t idx) with
      | SPAN_SLOT_EMPTY => (t, SpInit idx)
      | _ =>
          if spin + 1 >? SPAN_SLOT_CLAIM_MAX_SPIN then
            (drop_span (span_index t idx) t, SpEnd (Err DISTRIC_ERR_BACKPRESSURE) NoopSpan)
          else (t, SpSpin idx (spin + 1))
      end
  | SpInit idx =>
      let '(span, seed) := started_span a (tr_cached_time_ns t) (tr_id_seed t) in
      (tr_set_seed seed (set_span_slot (span_index t idx) (SpanSlot SPAN_SLOT_PROCESSING span) t),
       SpEnd (Ok tt) (SlotSpan (span_index t idx)))
  | SpEnd res out => (t, SpEnd res out)
  end.

Fixpoint span_turns (n : nat) (a : span_args) (ph : span_phase) (t : tracer) : tracer * span_phase :=
  match n with O => (t, ph) | S n => let '(t, ph) := span_turn a ph t in span_turns n a ph t end.

(** The whole call when no other thread interferes: 75 operations are enough. *)
Definition start_span_internal (a : span_args) (t : tracer) : tracer * result unit * span_ref :=
  let '(t, ph) := span_turns 75 a SpShutdown t in
  match ph with SpEnd res out => (t, res, out) | _ => (t, Fault, NoSpan) end.

Definition trace_start_span (operation : list Z) (now : Z) (t : tracer) :=
  start_span_internal (SpanArgs trace_id_zero 0 operation now) t.

(** The span behind a reference. *)
Definition span_of (t : tracer) (r : span_ref) : option trace_span :=
  match r with
  | NoSpan => None
  | NoopSpan => Some zero_span
  | SlotSpan pos => sl_span <$> sb_slots (tr_buffer t) !! pos
  end.

Definition trace_start_child_span (parent : span_ref) (operation : list Z) (now : Z) (t : tracer) :=
  match span_of t parent with
  | Some p =>
      if sp_sampled p then start_span_internal (SpanArgs (sp_trace_id p) (sp_span_id p) operation now) t
      else start_span_internal (SpanArgs trace_id_zero 0 operation now) t
  | None => start_span_internal (SpanArgs trace_id_zero 0 operation now) t
  end.

Definition trace_start_span_from_context (ctx : option trace_context) (operation : list Z) (now : Z) (t : tracer) :=
  match ctx with
  | Some c => start_span_internal (SpanArgs (tc_trace_id c) (tc_span_id c) operation now) t
  | None => start_span_internal (SpanArgs trace_id_zero 0 operation now) t
  end.

(** ** The life of a span *)

Definition finished (now : Z) (s : trace_span) : trace_span :=
  sp_set_end (if now <=? sp_start_time_ns s then u64 (sp_start_time_ns s + 1) else now) s.

Definition tagged (key : list Z) (value : option (list Z)) (s : trace_span) : trace_span :=
  sp_set_tags (sp_tags s ++ [SpanTag (strncpy (DISTRIC_MAX_TAG_KEY_LEN - 1) key)
                               (strncpy (DISTRIC_MAX_TAG_VALUE_LEN - 1) (default [] value))]) s.

(** An update of the span behind a reference, by its owner; the no-op span is left alone. *)
Definition with_span (r : span_ref) (f : span_slot → result span_slot) (t : tracer) : result tracer :=
  match r with
  | SlotSpan pos =>
      match sb_slots (tr_buffer t) !! pos with
      | None => Fault
      | Some s => if sp_sampled (sl_span s) then s' ← f s; Ok (set_span_slot pos s' t) else Ok t
      end
  | _ => Ok t
  end.

Definition trace_finish_span (r : span_ref) (now : Z) (t : tracer) : result tracer :=
  with_span r (λ s, Ok (SpanSlot SPAN_SLOT_FILLED (finished now (sl_span s)))) t.

Definition trace_add_tag (r : span_ref) (key : list Z) (value : option (list Z)) (t : tracer) : result tracer :=
  match r with
  | NoSpan => Err DISTRIC_ERR_INVALID_ARG
  | _ =>
      with_span r (λ s,
        if (DISTRIC_MAX_SPAN_TAGS <=? length (sp_tags (sl_span s)))%nat then Err DISTRIC_ERR_BUFFER_OVERFLOW
        else Ok (SpanSlot (sl_span_state s) (tagged key value (sl_span s)))) t
  end.

Definition trace_set_status (r : span_ref) (status : Z) (t : tracer) : result tracer :=
  match r with
  | NoSpan => Err DISTRIC_ERR_INVALID_ARG
  | _ => with_span r (λ s, Ok (SpanSlot (sl_span_state s) (sp_set_status status (sl_span s)))) t
  end.

(** ** The exporter *)

(** The loop that empties filled slots; [fuel] bounds the slots between [tail] and [head]. *)
Fixpoint drain_slots (fuel : nat) (t : tracer) (tail head : Z) (batch : list trace_span) : tracer * Z * list trace_span :=
  match fuel with
  | O => (t, tail, batch)
  | S fuel =>
      if (tail <? head) && (length batch <? EXPORT_BATCH_MAX)%nat then
        let slot := span_slot_at t tail in
        match sl_span_state slot with
        | SPAN_SLOT_EMPTY => (t, tail, batch)
        | _ =>
            let batch := if sp_sampled (sl_span slot) then batch ++ [sl_span slot] else batch in
            drain_slots fuel (set_span_slot (span_index t tail) (SpanSlot SPAN_SLOT_EMPTY (sl_span slot)) t) (u64 (tail + 1)) head batch
        end
      else (t, tail, batch)
  end.

Definition set_tail (tail : Z) (t : tracer) : tracer :=
  tr_set_buffer (SpanBuffer (sb_head (tr_buffer t)) tail (sb_slots (tr_buffer t))) t.

Definition export_batch (batch : list trace_span) (t : tracer) : tracer :=
  if (0 <? length batch)%nat && tr_has_callback t then tr_set_exported (tr_exported t ++ [batch]) t else t.

(** One cycle: the clock, the sampling policy, the slots, the callback. *)
Definition exporter_cycle (now : Z) (t : tracer) : tracer :=
  let t := tr_set_clock now t in
  let b := tr_buffer t in
  let t := tr_set_sampling
    (sampling_state_update (tr_sampling t) (sb_head b) (sb_tail b) (buffer_capacity t) (tn_spans_dropped (tr_counts t)) now) t in
  let '(t, tail, batch) := drain_slots (Z.to_nat (sb_head b - sb_tail b)) t (sb_tail b) (sb_head b) [] in
  let t := set_tail tail t in
  let t := export_batch batch t in
  if (0 <? length batch)%nat && tr_has_callback t then tr_set_counts (count_export (tr_counts t)) t else t.

(** The drain at shutdown: empty slots are passed over, and one batch is all. *)
Fixpoint final_slots (fuel : nat) (t : tracer) (tail head : Z) (batch : list trace_span) : tracer * Z * list trace_span :=
  match fuel with
  | O => (t, tail, batch)
  | S fuel =>
      if (tail <? head) && (length batch <? EXPORT_BATCH_MAX)%nat then
        let slot := span_slot_at t tail in
        let batch :=
          match sl_span_state slot with
          | SPAN_SLOT_EMPTY => batch
          | _ => if sp_sampled (sl_span slot) then batch ++ [sl_span slot] else batch
          end in
        final_slots fuel (set_span_slot (span_index t tail) (SpanSlot SPAN_SLOT_EMPTY (sl_span slot)) t) (u64 (tail + 1)) head batch
      else (t, tail, batch)
  end.

Definition exporter_final (t : tracer) : tracer :=
  let b := tr_buffer t in
  let '(t, tail, batch) := final_slots (Z.to_nat (sb_head b - sb_tail b)) t (sb_tail b) (sb_head b) [] in
  export_batch batch (set_tail tail t).

(** What the exporter shows of itself after a cycle, and at its end. *)
Definition exporter_gauges (t : tracer) (reg : metrics_registry) : result metrics_registry :=
  if tr_metrics_registered t then
    let h := tr_metrics_handles t in
    let b := tr_buffer t in
    let depth := if sb_head b >? sb_tail b then sb_head b - sb_tail b else 0 in
    reg ← set_handle (tm_queue_depth h) (double_of_Z depth) reg;
    reg ← set_handle (tm_sample_rate_pct h) (double_of_Z (sample_rate_pct (tr_sampling t))) reg;
    reg ← set_handle (tm_in_backpressure h) (double_of_Z (Z.b2z (ss_in_backpressure (tr_sampling t)))) reg;
    reg ← set_handle (tm_spans_dropped h) (double_of_Z (tn_spans_dropped (tr_counts t))) reg;
    reg ← set_handle (tm_spans_sampled_out h) (double_of_Z (tn_spans_sampled_out (tr_counts t))) reg;
    reg ← set_handle (tm_exporter_alive h) (double_of_Z 1) reg;
    set_handle (tm_exports_succeeded h) (double_of_Z (tn_exports_succeeded (tr_counts t))) reg
  else Ok reg.

Definition exporter_exit_gauge (t : tracer) (reg : metrics_registry) : result metrics_registry :=
  if tr_metrics_registered t then set_handle (tm_exporter_alive (tr_metrics_handles t)) (double_of_Z 0) reg else Ok reg.

(** ** Life cycle *)

Record tracer_config := TracerConfig {
  tf_sampling : sampling_config;
  tf_buffer_capacity : Z;
  tf_export_interval_ms : Z;
  tf_has_callback : bool
}.

Definition no_tracer_metrics : tracer_internal_metrics := TracerMetrics None None None None None None None.

(** Whether the allocations and the thread succeed. *)
Record tracer_env := TracerEnv { te_calloc : bool; te_slots : bool; te_thread : bool }.

(** [seed] is what the global seed holds once the exporter has added the clock to it; [None]:
    the loop for the capacity is not over after [fuel] turns. *)
Definition tracer_alloc_and_init (fuel : nat) (cfg : tracer_config) (now seed : Z) (env : tracer_env) : option (result tracer) :=
  if negb (te_calloc env) then Some (Err DISTRIC_ERR_ALLOC_FAILURE)
  else
    let cap := if tf_buffer_capacity cfg =? 0 then SPAN_BUFFER_DEFAULT_CAPACITY else tf_buffer_capacity cfg in
    p2 ← power_above fuel 1 cap;
    let cap := if p2 >? DISTRIC_MAX_SPANS_BUFFER then DISTRIC_MAX_SPANS_BUFFER else p2 in
    Some
      (if negb (te_slots env) then Err DISTRIC_ERR_ALLOC_FAILURE
       else if negb (te_thread env) then Err DISTRIC_ERR_INIT_FAILED
       else
         Ok (Tracer (SpanBuffer 0 0 (replicate (Z.to_nat cap) (SpanSlot SPAN_SLOT_EMPTY zero_span)))
               (new_sampling (tf_sampling cfg))
               (if tf_export_interval_ms cfg =? 0 then SPAN_EXPORT_INTERVAL_MS_DEFAULT else tf_export_interval_ms cfg)
               (tf_has_callback cfg) now 0 (TracerCounts 0 0 0 0 0 0) [] seed no_tracer_metrics false 1 false true)).

Definition trace_init (fuel : nat) (has_callback : bool) (now seed : Z) (env : tracer_env) : option (result tracer) :=
  tracer_alloc_and_init fuel (TracerConfig (SamplingConfig 1 0 1 9) 0 0 has_callback) now seed env.

Definition trace_init_with_sampling (fuel : nat) (sampling : option sampling_config) (has_callback : bool) (now seed : Z)
    (env : tracer_env) : option (result tracer) :=
  match sampling with
  | Some s =>
      if has_callback then tracer_alloc_and_init fuel (TracerConfig s 0 0 has_callback) now seed env
      else Some (Err DISTRIC_ERR_INVALID_ARG)
  | None => Some (Err DISTRIC_ERR_INVALID_ARG)
  end.

Definition trace_init_with_config (fuel : nat) (config : option tracer_config) (now seed : Z) (env : tracer_env) : option (result tracer) :=
  match config with
  | Some c =>
      if tf_has_callback c then tracer_alloc_and_init fuel c now seed env else Some (Err DISTRIC_ERR_INVALID_ARG)
  | None => Some (Err DISTRIC_ERR_INVALID_ARG)
  end.

Definition trace_retain (t : tracer) : result tracer :=
  if tr_refcount t >? 0 then Ok (tr_set_refcount (u32 (tr_refcount t + 1)) t) else Fault.

(** [trace_destroy] sets the flag and joins the exporter: a thread found asleep wakes at
    [now] and runs its cycle before it sees the flag; then it drains once more and ends.
    What was exported is the answer. *)
Definition trace_destroy (asleep : option Z) (t : tracer) : list (list trace_span) :=
  if tr_exporter_started t then
    let t := tr_set_shutdown t in
    tr_exported (exporter_final (match asleep with Some now => exporter_cycle now t | None => t end))
  else tr_exported t.

Definition trace_release (asleep : option Z) (t : tracer) : result (tracer + list (list trace_span)) :=
  let prev := tr_refcount t in
  let t := tr_set_refcount (u32 (prev - 1)) t in
  if negb (prev >? 0) then Fault else if prev =? 1 then Ok (inr (trace_destroy asleep t)) else Ok (inl t).

(** ** Statistics and health *)

Record tracer_stats := TracerStats {
  ts_counts : tracer_counts;
  ts_queue_depth : Z;
  ts_queue_capacity : Z;
  ts_in_backpressure : bool;
  ts_effective_sample_rate_pct : Z
}.

Definition trace_get_stats (t : tracer) : tracer_stats :=
  let b := tr_buffer t in
  TracerStats (tr_counts t) (if sb_head b >? sb_tail b then sb_head b - sb_tail b else 0) (buffer_capacity t)
    (ss_in_backpressure (tr_sampling t)) (sample_rate_pct (tr_sampling t)).

Definition trace_is_exporter_healthy (now : Z) (t : option tracer) : bool :=
  match t with
  | None => false
  | Some t =>
      if negb (tr_exporter_started t) then false
      else
        let last := tr_last_export_ns t in
        if last =? 0 then true
        else u64 (now - last) <? u64 (u64 (tr_export_interval_ms t * 1000000) * TRACER_EXPORTER_STALE_MULTIPLIER)
  end.

(** ** The tracer's own metrics *)

(** The registrations in order: the handles, the registry and the first error of the first
    five, which ends the call. *)
Fixpoint register_gauges (must : nat) (names : list (string * string)) (env : nat → register_env) (i : nat)
    (handles : list (option nat)) (reg : metrics_registry) : result unit * list (option nat) * metrics_registry :=
  match names with
  | [] => (Ok tt, handles, reg)
  | (name, help) :: names =>
      match metrics_register_gauge reg (str name) (str help) None 0 (env i) with
      | (Ok k, reg) => register_gauges must names env (S i) (handles ++ [Some k]) reg
      | (Err e, reg) =>
          if (i <? must)%nat then (Err e, handles, reg) else register_gauges must names env (S i) (handles ++ [None]) reg
      | (Fault, reg) => (Fault, handles, reg)
      end
  end.

Definition tracer_gauges : list (string * string) :=
  [("distric_internal_tracer_queue_depth", "Number of spans currently buffered in the tracer ring");
   ("distric_internal_tracer_sample_rate_pct", "Effective span sample rate percentage (0-100)");
   ("distric_internal_tracer_drops_total", "Cumulative spans dropped due to ring backpressure");
   ("distric_internal_tracer_sampled_out_total", "Cumulative spans excluded by sampling policy");
   ("distric_internal_tracer_backpressure_active", "1 if the tracer is currently in backpressure mode, 0 otherwise");
   ("distric_internal_tracer_exporter_alive", "1 if the tracer exporter thread is alive and making progress, 0 otherwise");
   ("distric_internal_tracer_exports_succeeded", "Cumulative successful export callback invocations")]%string.

Definition handles_of (l : list (option nat)) : tracer_internal_metrics :=
  let h i := mjoin (l !! i) in
  TracerMetrics (h 0%nat) (h 1%nat) (h 2%nat) (h 3%nat) (h 4%nat) (h 5%nat) (h 6%nat).

Definition trace_register_metrics (env : nat → register_env) (t : tracer) (reg : metrics_registry) :
    result unit * tracer * metrics_registry :=
  if tr_metrics_registered t then (Err DISTRIC_ERR_ALREADY_EXISTS, t, reg)
  else
    let '(res, l, reg) := register_gauges 5 tracer_gauges env 0 [] reg in
    match res with
    | Ok _ =>
        let h := handles_of l in
        let t := tr_set_metrics h true t in
        if tr_exporter_started t then
          match set_handle (tm_exporter_alive h) (double_of_Z 1) reg with
          | Ok reg => (Ok tt, t, reg)
          | Err e => (Err e, t, reg)
          | Fault => (Fault, t, reg)
          end
        else (Ok tt, t, reg)
    | _ => (res, tr_set_metrics (handles_of l) false t, reg)
    end.

(** ** A call is bounded *)

(** What is left to do of a call, in its own operations. *)
Definition span_rank (ph : span_phase) : nat :=
  match ph with
  | SpShutdown => 73
  | SpCreated => 72
  | SpHead => 71
  | SpTail _ => 70
  | SpSample => 69
  | SpClaim => 68
  | SpRecheck _ => 67
  | SpSpin _ spin => 2 + Z.to_nat (SPAN_SLOT_CLAIM_MAX_SPIN - spin)
  | SpInit _ => 1
  | SpEnd _ _ => 0
  end.

Lemma span_rank_decreases (a : span_args) (ph : span_phase) (t : tracer) :
  span_rank ph = 0%nat ∨ (span_rank (snd (span_turn a ph t)) < span_rank ph)%nat.
Proof.
  destruct ph; cbn [span_turn]; try (by left); right; try (cbn; lia).
  - case_match; cbn; lia.
  - case_match; cbn; lia.
  - destruct (sampling_should_sample _) as [[] s]; cbn; lia.
  - case_match; cbn; unfold SPAN_SLOT_CLAIM_MAX_SPIN; lia.
  - destruct (sl_span_state _); [cbn; lia|..];
      destruct (Z.gtb_spec (spin + 1) SPAN_SLOT_CLAIM_MAX_SPIN); cbn [snd span_rank]; lia.
  - destruct (started_span _ _ _). cbn. lia.
Qed.

(** Starting a span never blocks: whatever the exporter and the other threads do to the
    tracer between its atomic operations, the call returns within 73 of its own. *)
Theorem start_span_returns (a : span_args) (ts : list tracer) :
  (73 ≤ length ts)%nat → ∃ res out, foldl (λ ph t, snd (span_turn a ph t)) SpShutdown ts = SpEnd res out.
Proof.
  intros Hl. set (f := λ ph t, snd (span_turn a ph t)).
  assert (Hr : ∀ l ph, (span_rank ph ≤ length l)%nat → span_rank (foldl f ph l) = 0%nat).
  { induction l as [|t l IH]; intros ph Hp; cbn in *; [lia|]. apply IH. destruct (span_rank_decreases a ph t) as [H0|H0]; [|unfold f; lia].
    unfold f. destruct ph; cbn in H0 |- *; lia. }
  specialize (Hr ts SpShutdown Hl). destruct (foldl f SpShutdown ts) as [| | | | | | | | |res out]; cbn in Hr; try lia. by exists res, out.
Qed.

(** ** The call that nothing interrupts *)

Definition counted (f : tracer_counts → tracer_counts) (t : tracer) : tracer := tr_set_counts (f (tr_counts t)) t.

Definition claimed (t : tracer) : tracer :=
  let b := tr_buffer t in tr_set_buffer (SpanBuffer (u64 (sb_head b + 1)) (sb_tail b) (sb_slots b)) t.

(** The slot [pos] gets a new span. *)
Definition opened (a : span_args) (pos : nat) (t : tracer) : tracer :=
  let '(span, seed) := started_span a (tr_cached_time_ns t) (tr_id_seed t) in
  tr_set_seed seed (set_span_slot pos (SpanSlot SPAN_SLOT_PROCESSING span) t).

Lemma span_turns_end n a res out t : span_turns n a (SpEnd res out) t = (t, SpEnd res out).
Proof. by induction n. Qed.

Lemma span_turns_S n a ph t : span_turns (S n) a ph t = let '(t, ph) := span_turn a ph t in span_turns n a ph t.
Proof. done. Qed.

(** Alone, a call is refused only by a full ring, and its slot is free. *)
Lemma start_span_alone (a : span_args) (t : tracer) :
  tr_shutdown t = false → is_u64 (sb_head (tr_buffer t)) →
  (u64 (sb_head (tr_buffer t) - sb_tail (tr_buffer t)) < buffer_capacity t →
   sl_span_state (span_slot_at t (sb_head (tr_buffer t))) = SPAN_SLOT_EMPTY) →
  start_span_internal a t =
    (let t1 := counted count_created t in
     let '(keep, s) := sampling_should_sample (tr_sampling t) in
     if u64 (sb_head (tr_buffer t) - sb_tail (tr_buffer t)) >=? buffer_capacity t then
       (counted count_dropped t1, Err DISTRIC_ERR_BACKPRESSURE, NoopSpan)
     else if keep then
       (opened a (span_index t (sb_head (tr_buffer t))) (claimed (counted count_in (tr_set_sampling s t1))), Ok tt,
        SlotSpan (span_index t (sb_head (tr_buffer t))))
     else (counted count_out (tr_set_sampling s t1), Ok tt, NoopSpan)).
Proof.
  intros Hs Hh He. unfold start_span_internal.
  rewrite span_turns_S; cbn [span_turn]. rewrite Hs. do 3 (rewrite span_turns_S; cbn [span_turn]).
  set (t1 := counted count_created t). change (tr_set_counts _ t) with t1.
  change (sb_head (tr_buffer t1)) with (sb_head (tr_buffer t)). change (sb_tail (tr_buffer t1)) with (sb_tail (tr_buffer t)).
  change (buffer_capacity t1) with (buffer_capacity t). change (tr_sampling t1) with (tr_sampling t).
  destruct (sampling_should_sample (tr_sampling t)) as [keep s] eqn:Hk.
  destruct (Z.geb_spec (u64 (sb_head (tr_buffer t) - sb_tail (tr_buffer t))) (buffer_capacity t)) as [Hf|Hf].
  { by rewrite span_turns_end. }
  rewrite span_turns_S; cbn [span_turn]. change (tr_sampling t1) with (tr_sampling t). rewrite Hk.
  destruct keep; [|by rewrite span_turns_end].
  do 2 (rewrite span_turns_S; cbn [span_turn]).
  set (t2 := counted count_in (tr_set_sampling s t1)). change (tr_set_counts _ (tr_set_sampling s t1)) with t2.
  set (t3 := tr_set_buffer _ t2). change t3 with (claimed t2) in *.
  change (sb_head (tr_buffer t2)) with (sb_head (tr_buffer t)).
  change (sb_tail (tr_buffer (claimed t2))) with (sb_tail (tr_buffer t)). change (buffer_capacity (claimed t2)) with (buffer_capacity t).
  destruct (Z.geb_spec (u64 (sb_head (tr_buffer t) - sb_tail (tr_buffer t))) (buffer_capacity t)); [lia|].
  rewrite span_turns_S; cbn [span_turn].
  change (span_slot_at (claimed t2) (sb_head (tr_buffer t))) with (span_slot_at t (sb_head (tr_buffer t))). rewrite He by done.
  rewrite span_turns_S; cbn [span_turn]. unfold opened.
  destruct (started_span a _ _) as [span seed]. by rewrite span_turns_end.
Qed.

(** ** The slots of a window *)

Lemma span_index_mod (t : tracer) (k i : Z) :
  0 ≤ k → buffer_capacity t = 2 ^ k → span_index t i = Z.to_nat (i mod buffer_capacity t).
Proof.
  intros Hk Hc. unfold span_index. rewrite Hc. replace (2 ^ k - 1) with (Z.ones k) by (rewrite Z.ones_equiv; lia).
  by rewrite Z.land_ones.
Qed.

Lemma span_index_lt (t : tracer) (k i : Z) :
  0 ≤ k → buffer_capacity t = 2 ^ k → (span_index t i < length (sb_slots (tr_buffer t)))%nat.
Proof.
  intros Hk Hc. rewrite (span_index_mod t k) by done. assert (0 < 2 ^ k) by (apply Z.pow_pos_nonneg; lia).
  pose proof (Z.mod_pos_bound i (buffer_capacity t) ltac:(lia)). unfold buffer_capacity in *. lia.
Qed.

Lemma capacity_set_span pos s t : buffer_capacity (set_span_slot pos s t) = buffer_capacity t.
Proof. unfold buffer_capacity, set_span_slot; cbn. by rewrite length_insert. Qed.

Lemma span_index_set pos s t i : span_index (set_span_slot pos s t) i = span_index t i.
Proof. unfold span_index. by rewrite capacity_set_span. Qed.

Lemma span_slot_lookup (t : tracer) (k i : Z) :
  0 ≤ k → buffer_capacity t = 2 ^ k → sb_slots (tr_buffer t) !! span_index t i = Some (span_slot_at t i).
Proof.
  intros Hk Hc. destruct (lookup_lt_is_Some_2 _ _ (span_index_lt t k i Hk Hc)) as [s Hs].
  unfold span_slot_at. rewrite (nth_lookup_Some _ _ _ _ Hs). done.
Qed.

Lemma span_set_same (t : tracer) (k i : Z) (s : span_slot) :
  0 ≤ k → buffer_capacity t = 2 ^ k → span_slot_at (set_span_slot (span_index t i) s t) i = s.
Proof.
  intros Hk Hc. unfold span_slot_at. rewrite span_index_set. apply nth_lookup_Some, list_lookup_insert_eq. by eapply span_index_lt.
Qed.

Lemma span_set_other (t : tracer) (k w i j : Z) (s : span_slot) :
  0 ≤ k → buffer_capacity t = 2 ^ k → w ≤ i < w + buffer_capacity t → w ≤ j < w + buffer_capacity t → i ≠ j →
  span_slot_at (set_span_slot (span_index t j) s t) i = span_slot_at t i.
Proof.
  intros Hk Hc Hi Hj Hne. unfold span_slot_at. rewrite span_index_set. unfold set_span_slot; cbn.
  rewrite !nth_lookup, list_lookup_insert_ne; [done|]. rewrite !(span_index_mod t k) by done. intros E. apply Hne.
  assert (0 < 2 ^ k) by (apply Z.pow_pos_nonneg; lia).
  apply (window_distinct (buffer_capacity t) i j w); [lia..|].
  pose proof (Z.mod_pos_bound i (buffer_capacity t) ltac:(lia)). pose proof (Z.mod_pos_bound j (buffer_capacity t) ltac:(lia)). lia.
Qed.

Lemma span_wraps (t : tracer) (k i : Z) :
  0 ≤ k → buffer_capacity t = 2 ^ k → span_slot_at t (i + buffer_capacity t) = span_slot_at t i.
Proof.
  intros Hk Hc. unfold span_slot_at. rewrite !(span_index_mod t k) by done. assert (0 < 2 ^ k) by (apply Z.pow_pos_nonneg; lia).
  replace (i + buffer_capacity t) with (i + 1 * buffer_capacity t) by lia. by rewrite Z.mod_add by lia.
Qed.

(** The ring holds the spans from [tail] on, and its other slots are free. *)
Record span_window (t : tracer) (tail : Z) (spans : list trace_span) : Prop := SpanWindow {
  sw_capacity : ∃ k, 0 ≤ k ∧ buffer_capacity t = 2 ^ k;
  sw_tail : 0 ≤ tail ≤ Z.of_nat (length spans);
  sw_room : Z.of_nat (length spans) ≤ tail + buffer_capacity t;
  sw_full : ∀ i s, tail ≤ i → spans !! Z.to_nat i = Some s →
    sl_span (span_slot_at t i) = s ∧ sl_span_state (span_slot_at t i) ≠ SPAN_SLOT_EMPTY ∧ sp_sampled s = true;
  sw_empty : ∀ i, Z.of_nat (length spans) ≤ i < tail + buffer_capacity t → sl_span_state (span_slot_at t i) = SPAN_SLOT_EMPTY
}.

Lemma window_open (t : tracer) (tail : Z) (spans : list trace_span) (s : trace_span) :
  span_window t tail spans → Z.of_nat (length spans) < tail + buffer_capacity t → sp_sampled s = true →
  span_window (set_span_slot (span_index t (Z.of_nat (length spans))) (SpanSlot SPAN_SLOT_PROCESSING s) t) tail (spans ++ [s]).
Proof.
  intros [(k & Hk & Hc) Ht Hr Hf He] Hlt Hs. split; rewrite ?capacity_set_span, ?length_app; cbn [length].
  - by exists k.
  - lia.
  - lia.
  - intros i s' Hi Hl. destruct (decide (i = Z.of_nat (length spans))) as [->|Hne].
    + rewrite (span_set_same t k) by done. rewrite Nat2Z.id, list_lookup_middle in Hl by done. by simplify_eq.
    + pose proof (lookup_lt_Some _ _ _ Hl) as HL. rewrite length_app in HL; cbn in HL.
      rewrite (span_set_other t k tail) by (done || lia). apply Hf; [done|]. rewrite lookup_app_l in Hl by lia. done.
  - intros i Hi. rewrite (span_set_other t k tail) by (done || lia). apply He. lia.
Qed.

Lemma window_touch (t : tracer) (tail : Z) (spans : list trace_span) (k : nat) (s s' : trace_span) (st : span_slot_state) :
  span_window t tail spans → tail ≤ Z.of_nat k → spans !! k = Some s → sp_sampled s' = true → st ≠ SPAN_SLOT_EMPTY →
  span_window (set_span_slot (span_index t (Z.of_nat k)) (SpanSlot st s') t) tail (<[k := s']> spans).
Proof.
  intros [(c & Hk & Hc) Ht Hr Hf He] Htk Hs Hs' Hst. pose proof (lookup_lt_Some _ _ _ Hs).
  split; rewrite ?capacity_set_span, ?length_insert; try done.
  - by exists c.
  - intros i x Hi Hl. destruct (decide (i = Z.of_nat k)) as [->|Hne].
    + rewrite (span_set_same t c) by done. rewrite Nat2Z.id, list_lookup_insert_eq in Hl by done. by simplify_eq.
    + pose proof (lookup_lt_Some _ _ _ Hl) as HL. rewrite length_insert in HL.
      rewrite (span_set_other t c tail) by (done || lia). apply Hf; [done|]. rewrite list_lookup_insert_ne in Hl by lia. done.
  - intros i Hi. rewrite (span_set_other t c tail) by (done || lia). apply He. lia.
Qed.

Lemma window_drain (t : tracer) (tail : Z) (spans : list trace_span) (s : trace_span) :
  span_window t tail spans → tail < Z.of_nat (length spans) →
  span_window (set_span_slot (span_index t tail) (SpanSlot SPAN_SLOT_EMPTY s) t) (tail + 1) spans.
Proof.
  intros [(k & Hk & Hc) Ht Hr Hf He] Hlt. assert (0 < 2 ^ k) by (apply Z.pow_pos_nonneg; lia).
  split; rewrite ?capacity_set_span; try lia.
  - by exists k.
  - intros i x Hi Hl. pose proof (lookup_lt_Some _ _ _ Hl).
    rewrite (span_set_other t k tail) by (done || lia). apply Hf; [lia|done].
  - intros i Hi. destruct (decide (i = tail + buffer_capacity t)) as [->|Hne].
    + rewrite <- (capacity_set_span (span_index t tail) (SpanSlot SPAN_SLOT_EMPTY s) t) at 1.
      rewrite (span_wraps _ k) by (done || by rewrite capacity_set_span). by rewrite (span_set_same t k).
    + rewrite (span_set_other t k tail) by (done || lia). apply He. lia.
Qed.

(** ** A cycle of the exporter *)

Definition with_slots (sl : list span_slot) (t : tracer) : tracer :=
  tr_set_buffer (SpanBuffer (sb_head (tr_buffer t)) (sb_tail (tr_buffer t)) sl) t.

Lemma with_own_slots t : with_slots (sb_slots (tr_buffer t)) t = t.
Proof. by destruct t as [[]]. Qed.

(** The spans one loop takes from [tail] on. *)
Definition taken (batch : list trace_span) (tail : Z) (spans : list trace_span) : nat :=
  ((EXPORT_BATCH_MAX - length batch) `min` (length spans - Z.to_nat tail))%nat.

Lemma drain_window (fuel : nat) (t : tracer) (tail : Z) (batch spans : list trace_span) :
  span_window t tail spans → Z.of_nat (length spans) < 2 ^ 64 → (length spans - Z.to_nat tail ≤ fuel)%nat →
  ∃ sl, drain_slots fuel t tail (Z.of_nat (length spans)) batch
        = (with_slots sl t, tail + Z.of_nat (taken batch tail spans), batch ++ take (taken batch tail spans) (drop (Z.to_nat tail) spans))
      ∧ length sl = length (sb_slots (tr_buffer t))
      ∧ span_window (with_slots sl t) (tail + Z.of_nat (taken batch tail spans)) spans.
Proof.
  intros W Hb. revert t tail batch W. induction fuel as [|fuel IH]; intros t tail batch W Hf.
  { exists (sb_slots (tr_buffer t)). rewrite with_own_slots. pose proof (sw_tail _ _ _ W).
    replace (taken batch tail spans) with 0%nat by (unfold taken; lia). by rewrite Z.add_0_r, take_0, app_nil_r. }
  cbn [drain_slots]. pose proof (sw_tail _ _ _ W) as Ht.
  destruct ((tail <? Z.of_nat (length spans)) && (length batch <? EXPORT_BATCH_MAX)%nat) eqn:Hgo; cycle 1.
  { exists (sb_slots (tr_buffer t)). rewrite with_own_slots.
    replace (taken batch tail spans) with 0%nat
      by (unfold taken; apply andb_false_iff in Hgo as [Hgo|Hgo]; [apply Z.ltb_ge in Hgo|apply Nat.ltb_ge in Hgo]; lia).
    by rewrite Z.add_0_r, take_0, app_nil_r. }
  apply andb_prop in Hgo as [H1 H2]. apply Z.ltb_lt in H1. apply Nat.ltb_lt in H2.
  destruct (lookup_lt_is_Some_2 spans (Z.to_nat tail)) as [s Hs]; [lia|].
  destruct (sw_full _ _ _ W tail s ltac:(lia) Hs) as (E1 & E2 & E3). rewrite E1, E3.
  set (t1 := set_span_slot _ _ t). rewrite u64_id by (unfold is_u64; lia).
  destruct (IH t1 (tail + 1) (batch ++ [s])) as (sl & R1 & R2 & R3); [by apply window_drain|lia|].
  assert (Hm : taken batch tail spans = S (taken (batch ++ [s]) (tail + 1) spans)).
  { unfold taken, EXPORT_BATCH_MAX in *. rewrite length_app. cbn [length]. lia. }
  exists sl. change (with_slots sl t1) with (with_slots sl t) in *. rewrite Hm.
  replace (tail + Z.of_nat (S (taken (batch ++ [s]) (tail + 1) spans))) with (tail + 1 + Z.of_nat (taken (batch ++ [s]) (tail + 1) spans)) by lia.
  split; [|split; [|done]].
  - assert (Hd : drop (Z.to_nat tail) spans = s :: drop (Z.to_nat (tail + 1)) spans).
    { rewrite (drop_S _ s) by done. by replace (Z.to_nat (tail + 1)) with (S (Z.to_nat tail)) by lia. }
    rewrite Hd. cbn [take]. rewrite <- (assoc_L (++)) in R1. cbn [app] in R1.
    destruct (sl_span_state _); [done|exact R1..].
  - rewrite R2. apply length_insert.
Qed.

(** ** Specification: a tracer without a ring *)

Inductive span_action :=
  | ActStart (a : span_args)
  | ActFinish (k : nat) (now : Z)
  | ActTag (k : nat) (key : list Z) (value : option (list Z))
  | ActStatus (k : nat) (status : Z)
  | ActCycle (now : Z).

(** The tracer, what the starts answered for the accepted spans, and the list of these
    spans as their owners see them; [k] is the place of a span in that list. *)
Record traced := Traced { td_tracer : tracer; td_refs : list span_ref; td_spans : list trace_span }.

Definition retagged (key : list Z) (value : option (list Z)) (s : trace_span) : trace_span :=
  if (DISTRIC_MAX_SPAN_TAGS <=? length (sp_tags s))%nat then s else tagged key value s.

(** An owner's call on its span, and what it means for the list. *)
Definition owner_calls (k : nat) (call : span_ref → tracer → result tracer) (f : trace_span → trace_span) (d : traced) : traced :=
  match td_refs d !! k with
  | Some r =>
      Traced (match call r (td_tracer d) with Ok t => t | _ => td_tracer d end) (td_refs d) (alter f k (td_spans d))
  | None => d
  end.

Definition span_step (a : span_action) (d : traced) : traced :=
  let t := td_tracer d in
  match a with
  | ActStart args =>
      let '(t', _, r) := start_span_internal args t in
      match r with
      | SlotSpan _ => Traced t' (td_refs d ++ [r]) (td_spans d ++ [fst (started_span args (tr_cached_time_ns t) (tr_id_seed t))])
      | _ => Traced t' (td_refs d) (td_spans d)
      end
  | ActFinish k now => owner_calls k (λ r, trace_finish_span r now) (finished now) d
  | ActTag k key value => owner_calls k (λ r, trace_add_tag r key value) (retagged key value) d
  | ActStatus k st => owner_calls k (λ r, trace_set_status r st) (sp_set_status st) d
  | ActCycle now => Traced (exporter_cycle now t) (td_refs d) (td_spans d)
  end.

Definition span_run (acts : list span_action) (d : traced) : traced := foldl (λ d a, span_step a d) d acts.

(** An owner leaves a span alone once the exporter took it, as one does that finishes each
    span before a cycle reaches it. *)
Definition owned (d : traced) (a : span_action) : bool :=
  match a with
  | ActFinish k _ | ActTag k _ _ | ActStatus k _ => sb_tail (tr_buffer (td_tracer d)) <=? Z.of_nat k
  | _ => true
  end.

Fixpoint disciplined (acts : list span_action) (d : traced) : bool :=
  match acts with [] => true | a :: acts => owned d a && disciplined acts (span_step a d) end.

Record traced_inv (n : Z) (d : traced) : Prop := TracedInv {
  ti_window : span_window (td_tracer d) (sb_tail (tr_buffer (td_tracer d))) (td_spans d);
  ti_head : sb_head (tr_buffer (td_tracer d)) = Z.of_nat (length (td_spans d));
  ti_refs : td_refs d = (λ k, SlotSpan (span_index (td_tracer d) (Z.of_nat k))) <$> seq 0 (length (td_spans d));
  ti_out : concat (tr_exported (td_tracer d)) = take (Z.to_nat (sb_tail (tr_buffer (td_tracer d)))) (td_spans d);
  ti_batches : Forall (λ b, (0 < length b ≤ EXPORT_BATCH_MAX)%nat) (tr_exported (td_tracer d));
  ti_open : tr_shutdown (td_tracer d) = false ∧ tr_has_callback (td_tracer d) = true;
  ti_counts : let c := tr_counts (td_tracer d) in
    tn_spans_sampled_in c = Z.of_nat (length (td_spans d)) ∧ 0 ≤ tn_spans_sampled_out c ∧ 0 ≤ tn_spans_dropped c
    ∧ tn_spans_created c = tn_spans_sampled_in c + tn_spans_sampled_out c + tn_spans_dropped c
    ∧ tn_exports_attempted c = Z.of_nat (length (tr_exported (td_tracer d))) ∧ tn_exports_succeeded c = tn_exports_attempted c;
  ti_steps : tn_spans_created (tr_counts (td_tracer d)) + tn_exports_attempted (tr_counts (td_tracer d)) ≤ n
}.

(** Only the number of slots matters to an index. *)
Lemma index_slots (t t' : tracer) (i : Z) :
  length (sb_slots (tr_buffer t')) = length (sb_slots (tr_buffer t)) → span_index t' i = span_index t i.
Proof. intros E. unfold span_index, buffer_capacity. by rewrite E. Qed.

(** Only the slots matter to the window. *)
Lemma window_slots (t t' : tracer) (tail : Z) (spans : list trace_span) :
  sb_slots (tr_buffer t') = sb_slots (tr_buffer t) → span_window t tail spans → span_window t' tail spans.
Proof.
  intros E [A B C D F]. assert (Hc : buffer_capacity t' = buffer_capacity t) by (unfold buffer_capacity; by rewrite E).
  assert (Hat : ∀ i, span_slot_at t' i = span_slot_at t i) by (intros i; unfold span_slot_at, span_index; by rewrite Hc, E).
  split; rewrite ?Hc; try done; intros i *; rewrite Hat; auto.
Qed.

Lemma inv_weaken n m d : n ≤ m → traced_inv n d → traced_inv m d.
Proof. intros H []. split; try done. lia. Qed.

Lemma started_sampled a c seed : sp_sampled (fst (started_span a c seed)) = true.
Proof. unfold started_span. destruct (if trace_id_is_zero (sa_trace_id a) then gen_trace_id seed else (sa_trace_id a, seed)) as [tid seed1]. by destruct (gen_id seed1). Qed.

Lemma opened_eq a pos t :
  opened a pos t = tr_set_seed (snd (started_span a (tr_cached_time_ns t) (tr_id_seed t)))
    (set_span_slot pos (SpanSlot SPAN_SLOT_PROCESSING (fst (started_span a (tr_cached_time_ns t) (tr_id_seed t)))) t).
Proof. unfold opened. by destruct (started_span _ _ _). Qed.

Lemma inv_start n a d : n + 1 < 2 ^ 64 → traced_inv n d → traced_inv (n + 1) (span_step (ActStart a) d).
Proof.
  intros Hn [W Hh Hr Ho Hb [Hs Hc] Hcnt Hst]. destruct d as [t refs spans]. cbn [td_tracer td_refs td_spans span_step] in *.
  destruct Hcnt as (C1 & C2 & C3 & C4 & C5 & C6). destruct (sw_tail _ _ _ W) as [T1 T2]. pose proof (sw_room _ _ _ W) as Hroom.
  assert (E : u64 (sb_head (tr_buffer t) - sb_tail (tr_buffer t)) = Z.of_nat (length spans) - sb_tail (tr_buffer t))
    by (rewrite Hh; apply u64_id; unfold is_u64; lia).
  rewrite start_span_alone; [|done|unfold is_u64; lia|intros Hlt; rewrite Hh; apply (sw_empty _ _ _ W); lia].
  rewrite E. cbn zeta. destruct (sampling_should_sample (tr_sampling t)) as [keep s].
  destruct (Z.geb_spec (Z.of_nat (length spans) - sb_tail (tr_buffer t)) (buffer_capacity t)) as [Hf|Hf]; [|destruct keep]; cycle 1.
  - rewrite opened_eq, Hh. set (x := fst (started_span a (tr_cached_time_ns t) (tr_id_seed t))).
    change (started_span a _ _) with (started_span a (tr_cached_time_ns t) (tr_id_seed t)).
    pose proof (window_open t _ spans x W ltac:(lia) (started_sampled _ _ _)) as W'.
    split; cbn [td_tracer td_refs td_spans]; try done.
    + by eapply window_slots, W'.
    + cbn -[u64]. rewrite u64_id by (unfold is_u64; lia). rewrite length_app; cbn [length]. lia.
    + rewrite Hr, length_app, seq_app, fmap_app.
      f_equal; [apply list_fmap_ext; intros i k _; cbn beta; f_equal|cbn [seq length fmap list_fmap Nat.add]; do 2 f_equal];
        symmetry; apply index_slots, length_insert.
    + cbn -[u64]. rewrite Ho, take_app_le by lia. done.
    + cbn -[u64]. rewrite length_app; cbn [length]. rewrite !u64_id by (unfold is_u64; lia). split_and!; lia.
    + cbn -[u64]. rewrite !u64_id by (unfold is_u64; lia). lia.
  - split; cbn [td_tracer td_refs td_spans]; try done.
    + by eapply window_slots, W.
    + cbn -[u64]. rewrite !u64_id by (unfold is_u64; lia). split_and!; lia.
    + cbn -[u64]. rewrite !u64_id by (unfold is_u64; lia). lia.
  - split; cbn [td_tracer td_refs td_spans]; try done.
    + by eapply window_slots, W.
    + cbn -[u64]. rewrite !u64_id by (unfold is_u64; lia). split_and!; lia.
    + cbn -[u64]. rewrite !u64_id by (unfold is_u64; lia). lia.
Qed.

Lemma finished_sampled now s : sp_sampled (finished now s) = sp_sampled s.
Proof. done. Qed.

Lemma retagged_sampled key value s : sp_sampled (retagged key value s) = sp_sampled s.
Proof. unfold retagged. by case_match. Qed.

(** Any update of the slot of a span, within the discipline. *)
Lemma inv_touch n d (k : nat) (call : span_ref → tracer → result tracer) (f : trace_span → trace_span) :
  traced_inv n d → sb_tail (tr_buffer (td_tracer d)) ≤ Z.of_nat k →
  (∀ s, sp_sampled (f s) = sp_sampled s) →
  (∀ pos t sl, sb_slots (tr_buffer t) !! pos = Some sl → sp_sampled (sl_span sl) = true → sl_span_state sl ≠ SPAN_SLOT_EMPTY →
   (∃ st, st ≠ SPAN_SLOT_EMPTY ∧ call (SlotSpan pos) t = Ok (set_span_slot pos (SpanSlot st (f (sl_span sl))) t))
   ∨ (f (sl_span sl) = sl_span sl ∧ ∃ e, call (SlotSpan pos) t = Err e)) →
  traced_inv n (owner_calls k call f d).
Proof.
  intros I Hk Hf Hcall. pose proof I as [W Hh Hr Ho Hb [Hs Hc] Hcnt Hst]. unfold owner_calls.
  destruct d as [t refs spans]. cbn [td_tracer td_refs td_spans] in *. subst refs.
  destruct (_ !! k) as [r|] eqn:Hl; [|done].
  rewrite list_lookup_fmap in Hl. apply fmap_Some in Hl as (k' & Hl & ->). apply lookup_seq in Hl as [-> Hlt]. cbn [Nat.add] in *.
  destruct (lookup_lt_is_Some_2 spans k) as [s Hsp]; [done|].
  destruct (sw_capacity _ _ _ W) as (c & Hc0 & Hcap).
  destruct (sw_full _ _ _ W (Z.of_nat k) s ltac:(lia) ltac:(by rewrite Nat2Z.id)) as (E1 & E2 & E3).
  pose proof (span_slot_lookup t c (Z.of_nat k) Hc0 Hcap) as Hsl.
  assert (Halter : alter f k spans = <[k := f s]> spans).
  { rewrite list_insert_alter. apply list_eq. intros i. destruct (decide (i = k)) as [->|].
    - rewrite !list_lookup_alter, Hsp. done.
    - by rewrite !list_lookup_alter_ne. }
  destruct (Hcall _ _ _ Hsl ltac:(by rewrite E1) E2) as [(st & Hst' & ->)|(Hid & e & ->)]; rewrite E1 in *; cycle 1.
  { rewrite Halter, Hid, list_insert_id by done. done. }
  rewrite Halter. split; cbn [td_tracer td_refs td_spans]; rewrite ?length_insert; try done.
  - apply window_touch with s; try done. by rewrite Hf.
  - apply list_fmap_ext. intros i x _. by rewrite span_index_set.
  - cbn. rewrite Ho, take_insert_ge by lia. done.
Qed.

Lemma inv_finish n d k now :
  traced_inv n d → owned d (ActFinish k now) = true → traced_inv n (span_step (ActFinish k now) d).
Proof.
  intros I Ho. apply inv_touch; [done|by apply Z.leb_le|done|]. intros pos t sl Hl Hs _. left.
  exists SPAN_SLOT_FILLED. split; [done|]. unfold trace_finish_span, with_span. by rewrite Hl, Hs.
Qed.

Lemma inv_tag n d k key value :
  traced_inv n d → owned d (ActTag k key value) = true → traced_inv n (span_step (ActTag k key value) d).
Proof.
  intros I Ho. apply inv_touch; [done|by apply Z.leb_le|apply retagged_sampled|]. intros pos t sl Hl Hs Hst.
  unfold trace_add_tag, with_span, retagged. rewrite Hl, Hs. destruct (_ <=? _)%nat; [right|left].
  - split; [done|]. by eexists.
  - by exists (sl_span_state sl).
Qed.

Lemma inv_status n d k st :
  traced_inv n d → owned d (ActStatus k st) = true → traced_inv n (span_step (ActStatus k st) d).
Proof.
  intros I Ho. apply inv_touch; [done|by apply Z.leb_le|done|]. intros pos t sl Hl Hs Hst. left.
  exists (sl_span_state sl). split; [done|]. unfold trace_set_status, with_span. by rewrite Hl, Hs.
Qed.

(** What a cycle takes when the ring holds [spans] from [tail] on. *)
Lemma inv_cycle n d now : n + 1 < 2 ^ 64 → traced_inv n d →
  traced_inv (n + 1) (span_step (ActCycle now) d)
  ∧ sb_tail (tr_buffer (td_tracer (span_step (ActCycle now) d)))
    = Z.min (sb_tail (tr_buffer (td_tracer d)) + Z.of_nat EXPORT_BATCH_MAX) (Z.of_nat (length (td_spans d))).
Proof.
  intros Hn [W Hh Hr Ho Hb [Hs Hc] Hcnt Hst]. destruct d as [t refs spans]. cbn [td_tracer td_refs td_spans span_step] in *.
  destruct Hcnt as (C1 & C2 & C3 & C4 & C5 & C6). destruct (sw_tail _ _ _ W) as [T1 T2].
  unfold exporter_cycle. cbn zeta. set (t1 := tr_set_sampling _ (tr_set_clock now t)).
  change (tr_buffer (tr_set_clock now t)) with (tr_buffer t). rewrite Hh.
  destruct (drain_window (Z.to_nat (Z.of_nat (length spans) - sb_tail (tr_buffer t))) t1 (sb_tail (tr_buffer t)) [] spans)
    as (sl & R1 & R2 & R3); [by eapply window_slots, W|lia|lia|].
  rewrite R1. clear R1. cbn [app]. set (m := taken [] _ spans) in *. set (batch := take m _).
  assert (Hm : length batch = m) by (unfold batch; rewrite length_take, length_drop; unfold m, taken; lia).
  assert (Hm' : m = Nat.min EXPORT_BATCH_MAX (length spans - Z.to_nat (sb_tail (tr_buffer t)))) by (unfold m, taken; cbn [length]; lia).
  set (t2 := set_tail _ (with_slots sl t1)).
  assert (Hcat : take (Z.to_nat (sb_tail (tr_buffer t2))) spans = concat (tr_exported t) ++ batch).
  { rewrite Ho. unfold batch. cbn. rewrite Z2Nat.inj_add, Nat2Z.id by lia. by rewrite take_take_drop. }
  assert (W2 : span_window t2 (sb_tail (tr_buffer t2)) spans) by (by eapply window_slots, R3).
  assert (Hidx : ∀ i, span_index t2 i = span_index t i) by (intros i; by apply index_slots).
  unfold export_batch. split.
  - destruct (Nat.ltb_spec 0 (length batch)) as [Hp|Hp]; cbn [andb].
    + change (tr_has_callback t2) with (tr_has_callback t). rewrite Hc. cbn [andb].
      change (tr_has_callback (tr_set_exported _ t2)) with (tr_has_callback t). rewrite Hc.
      split; cbn [td_tracer td_refs td_spans]; try done.
      * by eapply window_slots, W2.
      * rewrite Hr. apply list_fmap_ext. intros i k _. cbn beta. f_equal. symmetry. by apply index_slots.
      * etrans; [|symmetry; exact Hcat]. cbn. rewrite concat_app. cbn. by rewrite app_nil_r.
      * change (Forall (λ b, (0 < length b ≤ EXPORT_BATCH_MAX)%nat) (tr_exported t ++ [batch])). apply Forall_app. split; [done|]. constructor; [|done]. split; [done|]. lia.
      * cbn -[u64]. rewrite length_app; cbn [length]. rewrite !u64_id by (unfold is_u64; lia). split_and!; lia.
      * cbn -[u64]. rewrite !u64_id by (unfold is_u64; lia). lia.
    + assert (batch = []) as Hnil by (destruct batch; [done|cbn in Hp; lia]). rewrite Hnil, app_nil_r in Hcat.
      split; cbn [td_tracer td_refs td_spans]; try done.
      * rewrite Hr. apply list_fmap_ext. intros i k _. cbn beta. by rewrite Hidx.
      * change (tn_spans_created (tr_counts t) + tn_exports_attempted (tr_counts t) ≤ n + 1). lia.
  - trans (sb_tail (tr_buffer t) + Z.of_nat m); [|lia]. by repeat case_match.
Qed.

Lemma inv_run acts n d : n + Z.of_nat (length acts) < 2 ^ 64 → traced_inv n d → disciplined acts d = true →
  traced_inv (n + Z.of_nat (length acts)) (span_run acts d).
Proof.
  revert n d. induction acts as [|a acts IH]; intros n d Hn I Hd; cbn [span_run foldl length] in *.
  { by apply (inv_weaken n); [lia|]. }
  apply andb_prop in Hd as [Ho Hd]. replace (n + Z.of_nat (S (length acts))) with (n + 1 + Z.of_nat (length acts)) by lia.
  apply IH; [lia| |done]. destruct a.
  - by apply inv_start; [lia|].
  - apply (inv_weaken n); [lia|]. by apply inv_finish.
  - apply (inv_weaken n); [lia|]. by apply inv_tag.
  - apply (inv_weaken n); [lia|]. by apply inv_status.
  - by apply inv_cycle; [lia|].
Qed.

(** Cycles alone leave the list as it is and bring the tail to its end. *)
Lemma cycles_reach_end nows n d : n + Z.of_nat (length nows) < 2 ^ 64 → traced_inv n d →
  traced_inv (n + Z.of_nat (length nows)) (span_run (ActCycle <$> nows) d)
  ∧ td_spans (span_run (ActCycle <$> nows) d) = td_spans d
  ∧ sb_tail (tr_buffer (td_tracer (span_run (ActCycle <$> nows) d)))
    = Z.min (sb_tail (tr_buffer (td_tracer d)) + Z.of_nat (EXPORT_BATCH_MAX * length nows)) (Z.of_nat (length (td_spans d))).
Proof.
  revert n d. induction nows as [|now nows IH]; intros n d Hn I; cbn [fmap list_fmap span_run foldl length] in *.
  { rewrite Z.add_0_r, Nat.mul_0_r. destruct (sw_tail _ _ _ (ti_window _ _ I)). split_and!; [done|done|lia]. }
  destruct (inv_cycle n d now ltac:(lia) I) as [I' T].
  destruct (IH (n + 1) _ ltac:(lia) I') as (A & B & C).
  replace (n + Z.of_nat (S (length nows))) with (n + 1 + Z.of_nat (length nows)) by lia.
  split; [exact A|]. split; [exact B|]. etrans; [exact C|]. rewrite T. cbn [span_step td_spans]. lia.
Qed.


(** ** A new tracer *)

Lemma new_tracer_inv (fuel : nat) (cfg : tracer_config) (now seed : Z) (env : tracer_env) (t : tracer) :
  (63 ≤ fuel)%nat → 0 ≤ tf_buffer_capacity cfg ≤ 2 ^ 63 → tf_has_callback cfg = true →
  tracer_alloc_and_init fuel cfg now seed env = Some (Ok t) → traced_inv 0 (Traced t [] []).
Proof.
  intros Hf Hc Hcb Hi. unfold tracer_alloc_and_init in Hi. destruct (te_calloc env); [cbn [negb] in Hi|done].
  set (cap := if tf_buffer_capacity cfg =? 0 then SPAN_BUFFER_DEFAULT_CAPACITY else tf_buffer_capacity cfg) in Hi.
  assert (Hcap : 1 ≤ cap ≤ 2 ^ 63) by (unfold cap, SPAN_BUFFER_DEFAULT_CAPACITY; destruct (Z.eqb_spec (tf_buffer_capacity cfg) 0); lia).
  destruct (power_above_spec fuel 0 cap) as (e & He & Hp & _); [lia|lia|cbn; lia|].
  rewrite Z.pow_0_r in Hp. rewrite Hp in Hi. cbn [mbind option_bind] in Hi.
  destruct (te_slots env), (te_thread env); cbn [negb] in Hi; try done.
  injection Hi as <-. set (n := if 2 ^ e >? DISTRIC_MAX_SPANS_BUFFER then DISTRIC_MAX_SPANS_BUFFER else 2 ^ e).
  assert (Hn : ∃ k, 0 ≤ k ∧ n = 2 ^ k).
  { unfold n. destruct (_ >? _); [by exists 12|]. exists e. split; [lia|done]. }
  destruct Hn as (k & Hk & Hn). assert (0 < 2 ^ k) by (apply Z.pow_pos_nonneg; lia).
  assert (Hlen : Z.of_nat (length (replicate (Z.to_nat n) (SpanSlot SPAN_SLOT_EMPTY zero_span))) = n)
    by (rewrite length_replicate; lia).
  split; cbn [td_tracer td_refs td_spans tr_buffer sb_head sb_tail tr_exported tr_counts length]; try done.
  split; unfold buffer_capacity; cbn [tr_buffer sb_slots]; rewrite ?Hlen; cbn [length]; try lia.
  - by exists k.
  - intros i s _ Hl. by rewrite lookup_nil in Hl.
  - intros i _. unfold span_slot_at. cbn [tr_buffer sb_slots]. rewrite nth_lookup. destruct (replicate _ _ !! _) eqn:E; [|done]. by apply lookup_replicate in E as [-> _].
Qed.


(** ** Concrete runs *)

Definition all_there : tracer_env := TracerEnv true true true.

Definition small_tracer (cap : Z) : tracer_config := TracerConfig (SamplingConfig 1 0 1 9) cap 100 true.

Definition started_small (cap : nat) : tracer :=
  Tracer (SpanBuffer 0 0 (replicate cap (SpanSlot SPAN_SLOT_EMPTY zero_span))) (new_sampling (SamplingConfig 1 0 1 9)) 100 true
    1000 0 (TracerCounts 0 0 0 0 0 0) [] 77 no_tracer_metrics false 1 false true.

Definition a_start (c : Z) : span_action := ActStart (SpanArgs trace_id_zero 0 [c] 5).

(** Two spans, one tagged, finished in the other order, and a third the ring has no room for. *)
Definition two_spans : list span_action :=
  [a_start 97; a_start 98; ActTag 0 [107] (Some [118]); a_start 99; ActFinish 1 2000; ActFinish 0 2001; ActCycle 3000; a_start 100].


Lemma start_span_returns_witness :
  ∃ res out, foldl (λ ph t, snd (span_turn (SpanArgs trace_id_zero 0 [97] 5) ph t)) SpShutdown (replicate 73 (started_small 2)) = SpEnd res out.
Proof. apply start_span_returns. rewrite length_replicate. lia. Defined.

(** ** What the exporter does to a span that is not finished *)

(** The comment on the store of PROCESSING says the exporter leaves such a slot alone until
    the span is finished; the exporter takes it, without its end. *)
Theorem unfinished_span_exported :
  let d := span_run [a_start 97; ActCycle 3000; ActFinish 0 4000] (Traced (started_small 2) [] []) in
  map (map sp_end_time_ns) (tr_exported (td_tracer d)) = [[0]]
  ∧ map sp_end_time_ns (td_spans d) = [4000].
Proof. by vm_compute. Qed.

(** The finish that comes after leaves its slot filled though it is free: the next call to
    get the slot gives up and leaves it empty, behind the head. *)
Definition late_finish : list span_action :=
  [a_start 97; ActCycle 3000; ActFinish 0 4000; a_start 98; a_start 99; ActFinish 1 4001; ActCycle 4002; a_start 100; ActFinish 2 4003].

(** The slot at the tail is empty and the ring full: nothing gets through any more. *)
Record stuck (t : tracer) : Prop := Stuck {
  sk_open : tr_shutdown t = false;
  sk_head : is_u64 (sb_head (tr_buffer t));
  sk_full : u64 (sb_head (tr_buffer t) - sb_tail (tr_buffer t)) = buffer_capacity t;
  sk_tail : sl_span_state (span_slot_at t (sb_tail (tr_buffer t))) = SPAN_SLOT_EMPTY
}.

Lemma stuck_start a t : stuck t →
  snd (fst (start_span_internal a t)) = Err DISTRIC_ERR_BACKPRESSURE
  ∧ tr_exported (fst (fst (start_span_internal a t))) = tr_exported t ∧ stuck (fst (fst (start_span_internal a t)))
  ∧ snd (start_span_internal a t) = NoopSpan.
Proof.
  intros [A B C D]. rewrite start_span_alone; [|done|done|intros H; lia]. cbn zeta.
  destruct (sampling_should_sample _) as [keep s]. rewrite C.
  destruct (Z.geb_spec (buffer_capacity t) (buffer_capacity t)); [|lia]. by split_and!.
Qed.

Lemma stuck_cycle now t : stuck t → tr_exported (exporter_cycle now t) = tr_exported t ∧ stuck (exporter_cycle now t).
Proof.
  intros [A B C D]. unfold exporter_cycle. cbn zeta. set (t1 := tr_set_sampling _ _).
  assert (E : drain_slots (Z.to_nat (sb_head (tr_buffer t) - sb_tail (tr_buffer t))) t1 (sb_tail (tr_buffer t)) (sb_head (tr_buffer t)) []
    = (t1, sb_tail (tr_buffer t), [])).
  { destruct (Z.to_nat _) as [|n]; [done|]. cbn [drain_slots].
    change (span_slot_at t1 (sb_tail (tr_buffer t))) with (span_slot_at t (sb_tail (tr_buffer t))). rewrite D. by case_match. }
  change (tr_buffer (tr_set_clock now t)) with (tr_buffer t). rewrite E. done.
Qed.

(** One span the exporter took before its end can stop all export for good: after the run,
    whatever spans are started and however often the exporter wakes, the callback is not
    called again and every start is refused. *)
Theorem late_finish_stalls_exporter (later : list span_action) :
  Forall (λ a, match a with ActStart _ | ActCycle _ => True | _ => False end) later →
  let d := span_run late_finish (Traced (started_small 2) [] []) in
  let d' := span_run later d in
  concat (tr_exported (td_tracer d)) ≠ td_spans d
  ∧ tr_exported (td_tracer d') = tr_exported (td_tracer d) ∧ td_spans d' = td_spans d.
Proof.
  intros Hl d d'. split; [by vm_compute|].
  assert (Hs : stuck (td_tracer d)) by (by split; vm_compute).
  unfold d'. clearbody d. clear d'. revert d Hs. induction Hl as [|a later Ha Hl IH]; intros d Hs; [done|].
  cbn [span_run foldl]. destruct a as [args| | | |now]; try done; cbn [span_step].
  - destruct (stuck_start args (td_tracer d) Hs) as (_ & E & S & R).
    destruct (start_span_internal args (td_tracer d)) as [[t' res] r]. cbn [fst snd] in *. subst r.
    destruct (IH (Traced t' (td_refs d) (td_spans d)) S) as [X Y]. split; [etrans; [exact X|done]|exact Y].
  - destruct (stuck_cycle now (td_tracer d) Hs) as [E S].
    destruct (IH (Traced (exporter_cycle now (td_tracer d)) (td_refs d) (td_spans d)) S) as [X Y].
    split; [etrans; [exact X|done]|exact Y].
Qed.

Lemma late_finish_stalls_exporter_witness :
  let d := span_run late_finish (Traced (started_small 2) [] []) in
  let d' := span_run [a_start 101; ActCycle 9000] d in
  concat (tr_exported (td_tracer d)) ≠ td_spans d
  ∧ tr_exported (td_tracer d') = tr_exported (td_tracer d) ∧ td_spans d' = td_spans d.
Proof. apply late_finish_stalls_exporter. by repeat constructor. Defined.

(** ** The end of a tracer *)

Lemma drain_bound fuel : ∀ t tail head batch, (length batch ≤ EXPORT_BATCH_MAX)%nat →
  (length (snd (drain_slots fuel t tail head batch)) ≤ EXPORT_BATCH_MAX)%nat
  ∧ tr_exported (fst (fst (drain_slots fuel t tail head batch))) = tr_exported t.
Proof.
  induction fuel as [|fuel IH]; intros t tail head batch Hb; cbn [drain_slots]; [done|].
  destruct (_ && _) eqn:Hgo; [|done]. apply andb_prop in Hgo as [_ Hgo]. apply Nat.ltb_lt in Hgo.
  destruct (sl_span_state _); [done|..];
    (destruct (IH (set_span_slot (span_index t tail) (SpanSlot SPAN_SLOT_EMPTY (sl_span (span_slot_at t tail))) t) (u64 (tail + 1)) head
       (if sp_sampled (sl_span (span_slot_at t tail)) then batch ++ [sl_span (span_slot_at t tail)] else batch)) as [A B];
     [case_match; rewrite ?length_app; cbn; lia|by split]).
Qed.

Lemma final_bound fuel : ∀ t tail head batch, (length batch ≤ EXPORT_BATCH_MAX)%nat →
  (length (snd (final_slots fuel t tail head batch)) ≤ EXPORT_BATCH_MAX)%nat
  ∧ tr_exported (fst (fst (final_slots fuel t tail head batch))) = tr_exported t.
Proof.
  induction fuel as [|fuel IH]; intros t tail head batch Hb; cbn [final_slots]; [done|].
  destruct (_ && _) eqn:Hgo; [|done]. apply andb_prop in Hgo as [_ Hgo]. apply Nat.ltb_lt in Hgo.
  set (batch' := match sl_span_state _ with SPAN_SLOT_EMPTY => _ | _ => _ end).
  destruct (IH (set_span_slot (span_index t tail) (SpanSlot SPAN_SLOT_EMPTY (sl_span (span_slot_at t tail))) t) (u64 (tail + 1)) head batch')
    as [A B]; [|by split].
  unfold batch'. repeat case_match; rewrite ?length_app; cbn; lia.
Qed.

Lemma export_batch_bound batch t :
  (length (concat (tr_exported (export_batch batch t))) ≤ length (concat (tr_exported t)) + length batch)%nat.
Proof. unfold export_batch. case_match; [|lia]. cbn. rewrite concat_app, length_app. cbn. rewrite app_nil_r. lia. Qed.

Lemma cycle_bound now t : (length (concat (tr_exported (exporter_cycle now t))) ≤ length (concat (tr_exported t)) + EXPORT_BATCH_MAX)%nat.
Proof.
  unfold exporter_cycle. cbn zeta.
  match goal with |- context [drain_slots ?f ?t1 ?tl ?h []] => destruct (drain_bound f t1 tl h []) as [A B]; [cbn; lia|];
    destruct (drain_slots f t1 tl h []) as [[t2 tl2] batch] end.
  cbn [fst snd] in *. pose proof (export_batch_bound batch (set_tail tl2 t2)) as E.
  change (tr_exported (set_tail tl2 t2)) with (tr_exported t2) in E. rewrite B in E. change (tr_exported _) with (tr_exported t) in E at 2.
  case_match; cbn [tr_set_counts tr_exported]; lia.
Qed.

(** Destroying a tracer exports no more than two batches, however many spans the ring still
    holds: the rest, of up to 4096, is freed with it. *)
Theorem destroy_exports_two_batches (asleep : option Z) (t : tracer) :
  (length (concat (trace_destroy asleep t)) ≤ length (concat (tr_exported t)) + 128)%nat.
Proof.
  unfold trace_destroy. destruct (tr_exporter_started t); [|lia].
  set (t1 := match asleep with Some now => _ | None => _ end).
  assert (H1 : (length (concat (tr_exported t1)) ≤ length (concat (tr_exported t)) + EXPORT_BATCH_MAX)%nat).
  { unfold t1. destruct asleep as [now|]; [etrans; [apply cycle_bound|done]|]. change (tr_exported (tr_set_shutdown t)) with (tr_exported t). lia. }
  unfold exporter_final.
  match goal with |- context [final_slots ?f ?t1 ?tl ?h []] => destruct (final_bound f t1 tl h []) as [A B]; [cbn; lia|];
    destruct (final_slots f t1 tl h []) as [[t2 tl2] batch] end.
  cbn [fst snd] in *. pose proof (export_batch_bound batch (set_tail tl2 t2)) as E.
  change (tr_exported (set_tail tl2 t2)) with (tr_exported t2) in E. rewrite B in E. unfold EXPORT_BATCH_MAX in *. lia.
Qed.

(** ** Other corners *)

(** The start of a span is the cached time, which is monotonic, and its end is the real
    time: the length of a span is the distance of the two clocks. *)
Theorem span_clocks_differ (a : span_args) (cached seed now : Z) :
  cached ≠ 0 → cached < now →
  let s := finished now (fst (started_span a cached seed)) in sp_start_time_ns s = cached ∧ sp_end_time_ns s = now.
Proof.
  intros Hc Hn. unfold started_span. destruct (if trace_id_is_zero (sa_trace_id a) then gen_trace_id seed else (sa_trace_id a, seed)) as [tid s1].
  destruct (gen_id s1) as [sid s2]. cbn [fst]. unfold finished. cbn [sp_start_time_ns sp_set_end sp_end_time_ns].
  destruct (Z.eqb_spec cached 0); [done|]. destruct (Z.leb_spec now cached); [lia|]. done.
Qed.

Lemma span_clocks_differ_witness :
  let s := finished 1700000000000000000 (fst (started_span (SpanArgs trace_id_zero 0 [97] 5) 1000 77)) in
  sp_start_time_ns s = 1000 ∧ sp_end_time_ns s = 1700000000000000000.
Proof. apply span_clocks_differ; lia. Defined.

(** The configuration whose fields are zero, said to be safe, samples every span out. *)
Theorem zero_config_samples_nothing (a : span_args) (t : tracer) :
  tr_sampling t = new_sampling (SamplingConfig 0 0 0 0) → tr_shutdown t = false → is_u64 (sb_head (tr_buffer t)) →
  (u64 (sb_head (tr_buffer t) - sb_tail (tr_buffer t)) < buffer_capacity t →
   sl_span_state (span_slot_at t (sb_head (tr_buffer t))) = SPAN_SLOT_EMPTY) →
  snd (start_span_internal a t) = NoopSpan.
Proof.
  intros Hs H1 H2 H3. rewrite start_span_alone by done. rewrite Hs. cbn zeta.
  change (sampling_should_sample (new_sampling (SamplingConfig 0 0 0 0))) with (false, new_sampling (SamplingConfig 0 0 0 0)).
  cbn iota. by destruct (_ >=? _).
Qed.

Lemma zero_config_samples_nothing_witness :
  snd (start_span_internal (SpanArgs trace_id_zero 0 [97] 5) (tr_set_sampling (new_sampling (SamplingConfig 0 0 0 0)) (started_small 2))) = NoopSpan.
Proof. apply zero_config_samples_nothing; [done|done|by vm_compute|intros _; by vm_compute]. Defined.

(** The percentage shown wraps: a weight of fifty million without drops keeps every span
    and is shown as 14 per cent. *)
Theorem sample_rate_wraps : sample_rate_pct (new_sampling (SamplingConfig 50000000 0 1 9)) = 14.
Proof. by vm_compute. Qed.
